(* ===== verification/_CoqProject ===== *)
-Q . S2P
Prelude.v
GF256.v
LinAlg.v
GFMatrix.v
EcKernel.v
Groups.v
Codes.v
Decode.v
DecodeSpec.v
LocalRepair.v
MultiPlan.v
RowSelection.v
RepairPlan.v
RepairPlanSpec.v
RepairGuarantee.v
ShardPlan.v
CNum.v
Text.v
Hmbr.v
Hybrid.v
PipelineCodec.v
PipelinePlan.v
PipelineSession.v
PortAllocator.v
PipelineMessages.v
Toolbox.v
Placement.v
PlacementSpec.v
PlacementLaw.v
Coordinator.v
AppendPlan.v
AppendSpec.v
CoordinatorSpec.v
Client.v
ClientAppend.v
DataNode.v
RangeCommit.v
ProxyAppend.v
BufferLayout.v
StripeWrite.v
ReadPath.v
SingleRepair.v
MultiRecovery.v
Phase2Session.v
PipelineWire.v
PipelineRun.v
AzureGlobal.v
SingleRepairSpec.v
MultiRecoverySpec.v
Phase2Spec.v
PipelineRunSpec.v
PipelineChainSpec.v
PipelineHubSpec.v
PipelineSinkSpec.v
PipelineSessionSpec.v
PipelineReadySpec.v
CrossRepairSpec.v
Examples.v
CodingTheorems.v
RepairTheorems.v
ScheduleTheorems.v
CoordinatorTheorems.v
DataNodeTheorems.v
WriteTheorems.v
ReadTheorems.v
DegradedTheorems.v
RecoveryTheorems.v
Phase2Theorems.v
PipelineStripe.v
PipelineTheorems.v
