(* ===== verification/Prelude.v ===== *)
(** * Verification of the MLRC storage prototype

    MLRC stores stripes of [k] data, [r] global-parity and [z] local-parity
    blocks, encoded with one of several locally repairable codes, and repairs
    lost blocks by choosing recovery equations, reading helper blocks and
    solving a linear system over GF(2^8): on one node, sharded over the nodes of
    the lost blocks ("phase 2"), along a pipeline of nodes, or in a mixture of
    these. A client asks the coordinator where a stripe goes, encodes it and
    sends each cluster's part to the cluster's proxy; the proxies store the
    blocks on data nodes and report back; on a read they fetch the blocks and
    send them to the client, decoding a block that is lost. This library models
    the C++ under [src/project] that decides and computes: field arithmetic,
    coding kernels, encoders, decoders, planners and schedules, the
    coordinator's tables and its upload, read and repair handlers, the part of
    the client and of the proxies in them, the exchange between the proxies of a
    sharded and of a pipelined repair, and the block files of the data nodes.
    Bandwidth pacing and timing are outside it.

    ** Conventions

    Integers are [Z]; [/] and [%] of C are [÷] and [Z.rem], written [/] and
    [mod] where the operands are never negative.  Buffers and [std::vector]s are
    lists indexed by [Z] ([a.[i]], [a.[i <- v]]); an index out of range,
    undefined in C++, reads a default or writes nothing, and the theorems that
    depend on an index state that it is in range ([generators_overrun] shows a
    place where the source leaves it).  [unsigned char] is [byte].  Memory from
    [new] is taken to hold zeros; no theorem depends on it, the outputs are
    fully overwritten.  Counted loops are [for_range], loops with an early
    return [for_exit], both with invariant rules below.  A [bool] result with
    out-parameters is an [option] or a sum with the error message.  [double] is
    IEEE binary64 ([SpecFloat]). [std::unordered_set] and [_map] are [gset] and
    [gmap]; where the source iterates over one, the model takes the order as an
    argument or the result is shown not to depend on it.  A failed [assert] and
    an [exit] are [None]. Random draws, the outcome of an RPC, the clock, port
    probes and file system faults are arguments.  A handler is a function on the
    state it locks; where threads interleave (port sessions, range commits,
    sharded and pipelined repairs) the critical sections are the steps of a
    relation.

    Parameters: the AVX2 assembly ([EcKernel.Kernels], law [KernelLaws]: each
    kernel is the product its nibble tables define), [std::sort]
    ([RepairPlan.StdSort], law: a permutation sorted for a strict weak order),
    the unspecified result of [std::lround] out of range
    ([CNum.LroundUnspecified]).  Each has an implementation, used by the
    instances of the theorems.

    ** Files

    - [Prelude]: arrays, loops, tactics and hint databases.
    - [GF256], [LinAlg], [GFMatrix]: the field ([gf_mul], [gf_inv], [gf_pow] of
      [unilrc_encoder.cpp], tables of [unilrc_encoder.h]), linear algebra over
      it, generators and Gauss-Jordan inversion.
    - [EcKernel]: multiplication tables, [ec_encode_data_avx2], [xor_avx].
    - [Groups]: the balanced placement groups of gLRC.
    - [Codes]: generator matrices and (partial) encoders of RS, UniLRC,
      Azure-LRC, Optimal-LRC, Uniform-LRC and gLRC.
    - [Decode], [DecodeSpec]: single-block decoders and the gLRC multi-block
      decoders ([decode_glrc_ilp] and its range, helper-compact, prepared and
      right-hand-side variants); what they compute.
    - [LocalRepair], [AzureGlobal]: single-block repair inside a group in each
      family, and of the global parities of Azure-LRC.
    - [MultiPlan], [RowSelection]: [get_multi_decode_plan].
    - [RepairPlan], [RepairPlanSpec], [RepairGuarantee]: the equation planners
      of [glrc_repair_ilp.cpp], their soundness, completeness and optimality,
      and the end-to-end guarantee.
    - [ShardPlan], [CNum], [Hmbr], [Hybrid]: [glrc_shard_plan.cpp],
      [glrc_hmbr.cpp], [glrc_hybrid.cpp].
    - [PipelineCodec], [PipelinePlan], [PipelineSession]:
      [glrc_pipeline_codec.cpp], [glrc_pipeline_plan.cpp], and from
      [coordinator.cpp] and [proxy_glrc_pipeline.cpp] the choice of the hub, the
      request it gets and the system it solves.
    - [PortAllocator]: [GlrcPipelinePortAllocator] of [coordinator.cpp] and the
      reservation of a session's ports; sessions interleave as a step relation.
    - [Toolbox]: [splitCharPointer], [gen_append_key], byte order
      ([toolbox.cpp]).
    - [Placement], [PlacementSpec], [PlacementLaw]: the metadata of
      [meta_definition.h], the four [initialize_*_stripe_placement] functions
      and the interface [PlacementAlgorithm] they implement.
    - [Coordinator], [AppendPlan], [AppendSpec], [CoordinatorSpec]: the tables
      of [CoordinatorImpl] and the handlers [uploadSetValue],
      [uploadSubsetValue], [uploadAppendValue], [reportCommitAbort],
      [checkCommitAbort], [delByKey], [delByStripe], [setParameter]; the slices
      of an append; the invariant of the tables.
    - [Client], [ClientAppend]: [Client::set] after the reply, and the client's
      own cut of an append ([client.cpp]).
    - [DataNode], [RangeCommit]: the files of [datanode.cpp], and the barrier
      that publishes a block recovered in ranges as a refinement of one atomic
      step.
    - [ProxyAppend], [BufferLayout], [StripeWrite]: [scheduleAppend2Datanode] of
      [proxy.cpp], and the whole write path composed.
    - [ReadPath]: [getStripe], [getBlocks] of [coordinator.cpp], [getBlocks] of
      [proxy.cpp], [get] and [get_blocks] of [client.cpp].
    - [SingleRepair], [SingleRepairSpec], [CrossRepairSpec]: repair and degraded
      read of one block: [get_recovery_group_ids], [recovery_one_block],
      [degraded_read_one_block], [getDegradedReadBlocks] of [coordinator.cpp],
      [degradedRead], [recovery], [degradedRead2Client], [RecoveryToDatanode] of
      [proxy.cpp]; inside a group and across groups.
    - [Text]: numbers and text as [std::to_string], [std::stoi] and the stream
      operators see them.
    - [MultiRecovery], [MultiRecoverySpec]: repair of several blocks at one
      proxy: [multiBlockRecovery], [recovery_glrc_ilp_breakdown],
      [fullNodeRecovery], [getBlocksOnNodes] and the block requests around them
      ([coordinator.cpp]), [recoveryBreakdown] with its reads and writes
      ([proxy.cpp]); what a faulty write leaves of a node's files.
    - [Phase2Session], [Phase2Spec]: the sharded repair
      ([recovery_glrc_ilp_phase2_breakdown_ex] of [coordinator.cpp],
      [glrcIlpPhase2Recovery] of [proxy_glrc_phase2.cpp]): requests, READY
      listeners, admission, and the threads of all proxies as one step relation;
      its invariant, its measure and its runs without faults.
    - [PipelineMessages], [PipelineWire]: of a pipelined repair, the requests
      ([fill_pipeline_chain_fields] and the hub's), the shard geometry, frames
      and their bytes, the bounded queue between two threads, the listen ports
      and the READY sessions of a proxy ([proxy_glrc_pipeline.cpp]); what
      connections and READY sessions promise to the rest.
    - [PipelineRun]: the roles [glrcIlpPipelineChainHeadRecovery],
      [glrcIlpPipelineHopServerRecovery], [glrcIlpPipelineHubRecovery] and
      [glrcIlpPipelineLocalDirectRecovery] with all their threads, connections
      as queues of frames, and [recovery_glrc_ilp_pipeline_breakdown_ex] of
      [coordinator.cpp] from the plan to the reply: one step relation.
    - [PipelineRunSpec], [PipelineChainSpec], [PipelineHubSpec],
      [PipelineSinkSpec], [PipelineSessionSpec]: invariant, measure and progress
      of a head and a hop server, of a chain, of the hub, of a sink, and of the
      session composed of them; [PipelineReadySpec]: every connection finds its
      listener; [PipelineStripe]: what arrives for a stored stripe.
    - [Examples]: concrete stripes; [CodingTheorems], [RepairTheorems],
      [ScheduleTheorems], [CoordinatorTheorems], [DataNodeTheorems],
      [WriteTheorems], [ReadTheorems], [DegradedTheorems], [RecoveryTheorems],
      [Phase2Theorems], [PipelineTheorems]: the properties, each with an
      instance.

    ** What is shown

    Writing: a gLRC stripe set by a client ends up on the data nodes as the
    codeword, if each plan's thread gets the connection of its plan, which it
    does where the groups' proxies differ (C5); the coordinator's tables agree
    in every state that the handlers of [coord_step] reach (C12); placements
    keep groups in clusters and blocks on distinct nodes (C36); append plans
    tile the appended bytes and the client cuts alike (C19, C20); block files
    are replaced atomically (C40), parity logs merge to the parity
    ([parity_log_merge]), and range commits refine an atomic publication and
    terminate (C13, C39).  Reading: what was set is read back (C6, C17), also
    when a block is lost (C7, C16) or every block is read as if it were
    ([set_then_degraded_blocks]); a recovery writes the lost block and nothing
    else (C15), and the global parities of Azure-LRC are rebuilt from partial
    sums of the clusters (C8).  Several lost blocks of a stripe that was set:
    repaired at one proxy, under any faults of the links (C3), or by the proxies
    of the lost blocks together, under any interleaving and any faults (C1);
    both leave every block as it was or restored, report success only when all
    are restored, and succeed without faults. Along pipelines the same holds for
    the blocks the plan delivers (C2); its hypotheses name what the plan has to
    avoid: a hub that needs the blocks of a local chain, a chain of the hub with
    fewer than two hops, and two listeners at one address. Sharded and pipelined
    repairs always end (C29, C30); the frames of a connection arrive as they
    were sent (C33), and a proxy keeps the listeners of its sessions (C34).  The
    query for the blocks on some nodes is exact (C28).  Ports: reservations lie
    in the bands of their proxies and are disjoint, allocation fails only when
    it must, sessions release what they reserved (C21, [allocate_complete],
    [session_ports_roundtrip]).

    Coding: the tables implement the field of order 256 and inversion is exact
    (C26, C22, [gf256_field]); table building and the dispatch over kernels
    compute the matrix product (C23); encoded stripes satisfy all recovery
    equations (C24), partial encodings add up ([partial_encode_glrc_correct]),
    and every family restores a block from its group ([decode_glrc_restores],
    [decode_unilrc_restores], [decode_azure_lrc_restores],
    [decode_optimal_lrc_restores]).  Planning and decoding: all policies succeed
    exactly on recoverable losses (C9), in particular on any [r] payload losses
    (C10), the exhaustive policy reads fewest helpers (C11), one loss per group
    needs local equations only (C18); all decoder variants restore the lost
    bytes (C14, [decode_glrc_ilp_range_correct], C25, [rhs_compact_correct]),
    and encode, plan and decode compose (C4); the row-selecting planner is sound
    and complete for the rows it looks at (C27, C32).  Scheduling: groups
    partition the stripe ([placement_groups_partition]), pipeline plans exist
    ([pipeline_plan_total]) and restore the blocks through the hub
    ([pipeline_hub_restores]), shard plans and splits tile the block and stay in
    range (C37, [shard_plan_errors], C38).

    Behaviour that departs from the intention is stated as theorems too:
    [multi_plan_gives_up] (recoverable losses without a plan),
    [local_direct_delivers_scaled] and [mixed_pipeline_corrupts] (pipeline
    chains that restore wrong bytes), [hybrid_single_shard_escapes],
    [generators_overrun], [failed_session_leaks] (ports of a failed session stay
    reserved), [append_retry_leaks] (a retried append places the stripe twice),
    [set_group_counts_abort] (client and coordinator count groups differently),
    [glrc_get_waits] and [get_blocks_overtaken] (reads that wait for ever or
    return stale bytes), [glrc_recovery_never_returns] and
    [optimal_repair_misses_group] (recoveries that find no node or no group),
    [recovery_invents_stripe] (a refused repair lists a new stripe),
    [cross_breakdown_always_ok] (a measured repair that cannot fail), C35 (a
    sharded repair needs a shard per lost block), C31 and
    [lone_survivor_reads_past_end] (chains of the hub with one hop deliver
    zeros, or read a proxy that is not there), [shared_proxy_swaps_parts]
    (groups behind one proxy can get each other's parts).

    ** Bounds

    Fuel occurs where a loop is not structural: [gf_pow_loop] (32, an [unsigned
    int] is zero after 32 shifts), [ec_encode_rows] (one more than the rows,
    each round removes six), [discretize_loop] ([hi + 2], the loop leaves [0,
    hi] within [hi + 1] steps; [discretize_loop_fuel] shows more fuel changes
    nothing), [append_loop] and [client_loop] (the appended bytes, each turn
    takes one at least; [data_slices_ok] shows the result is reached),
    [deserialize_loop] (the bytes of the file, each turn consumes eight) and
    [stream_loop] (the bytes requested), [flush_ready] (one more than the shards
    that wait, each turn takes one).  Everything else is structural or a counted
    loop.  [randomly_select_a_node] draws until a node is free: the draws are a
    list, and running out is not returning.  [k + r <= 255] is assumed where
    distinct block ids must give distinct field elements, and [k * BlockSize <
    2^31] or [n * BlockSize < 2^31] where the source computes offsets and sizes
    in [int] ([int32] wraps around in the sizes a client sends, the places a
    proxy fetches to, the slots of the port allocator, the sizes of an append
    and the integers on the wire; elsewhere the products of [int]s are
    unbounded, as in [make_partition], where they matter only for more active
    than global shards). The slots of the port allocator stay in [int] for some
    69 million epochs.

    ** Not modelled

    The hybrid and HMBR recovery sessions between coordinator, proxies and data
    nodes apart from the computations above, the variants of the handlers that
    measure times, stripe merging, the client's deletes, subset writes and
    benchmark commands: each repeats modelled handlers around clocks, or
    composes the sharded and the pipelined session with part-block writes.
    Configuration parsing, bandwidth pacing, generated protobuf code, tinyxml2,
    the assembly and the legacy LRC matrices are input and output, timing,
    generated or third-party code.  A read or repair is modelled from the
    requests the coordinator sends to the bytes that arrive: sockets deliver
    what is written, connections in any order (a proxy serves one upload at a
    time: the connections of an upload are accepted by its own threads, in any
    pairing at one address), and where a thread is not waited for the model says
    so.  In a sharded or pipelined repair a broken connection, a time-out and a
    cancelled call are one fault step, which a thread may take at any time; the
    ranges of helpers are read as a whole, as the source drains them; the accept
    threads behind a listener are part of the step that connects; the text of
    error messages is left open where threads race to set it. *)

From stdpp Require Export base list strings gmap sorting.
From Stdlib Require Export ZArith NArith Lia.
From Stdlib Require Export Strings.Byte.

#[global] Open Scope Z_scope.

(** * The [int] of the program: 32 bits, two's complement *)

Definition int32 (x : Z) : Z := (x + 2 ^ 31) mod 2 ^ 32 - 2 ^ 31.

Lemma int32_id x : - 2 ^ 31 <= x < 2 ^ 31 -> int32 x = x.
Proof. intros H. unfold int32. rewrite Z.mod_small; lia. Qed.

Lemma int32_range x : - 2 ^ 31 <= int32 x < 2 ^ 31.
Proof. unfold int32. pose proof (Z.mod_pos_bound (x + 2 ^ 31) (2 ^ 32)). lia. Qed.

(** * Arrays indexed by C integers *)

(** [std::vector::size], C array lengths. *)
Abbreviation zlen l := (Z.of_nat (length l)).

(** [a[i]].  Out of range (undefined behaviour in C++) reads the inhabitant. *)
Definition zget {A} `{Inhabited A} (l : list A) (i : Z) : A :=
  if i <? 0 then inhabitant else nth (Z.to_nat i) l inhabitant.

(** [a[i] = v].  Out of range leaves the array unchanged. *)
Definition zset {A} (l : list A) (i : Z) (v : A) : list A :=
  if i <? 0 then l else <[Z.to_nat i := v]> l.

(** [std::vector<T>(n, v)]. *)
Definition zrepeat {A} (v : A) (n : Z) : list A := replicate (Z.to_nat n) v.

(** [memset(a, v, n)] and the pointer expression [a + n]. *)
Definition zdrop {A} (n : Z) (l : list A) : list A := drop (Z.to_nat n) l.
Definition ztake {A} (n : Z) (l : list A) : list A := take (Z.to_nat n) l.
Definition memset {A} (l : list A) (v : A) (n : Z) : list A := zrepeat v n ++ zdrop n l.

Declare Scope arr_scope.
Delimit Scope arr_scope with arr.
Notation "a .[ i ]" := (zget a i) (at level 1, left associativity, format "a .[ i ]") : arr_scope.
Notation "a .[ i <- v ]" := (zset a i v)
  (at level 1, left associativity, format "a .[ i  <-  v ]") : arr_scope.
#[global] Open Scope arr_scope.

#[export] Instance list_inhabited' {A} : Inhabited (list A) := populate [].
#[export] Instance Z_inhabited' : Inhabited Z | 0 := populate 0.

(** * Automation *)

(** Splits on the integer comparisons of the goal, innermost first. *)
Ltac no_if t := lazymatch t with context [if _ then _ else _] => fail | _ => idtac end.
Ltac zcase :=
  match goal with
  | |- context [?a =? ?b] => no_if a; no_if b; destruct (Z.eqb_spec a b)
  | |- context [?a <? ?b] => no_if a; no_if b; destruct (Z.ltb_spec a b)
  | |- context [?a <=? ?b] => no_if a; no_if b; destruct (Z.leb_spec a b)
  | |- context [?a >? ?b] => no_if a; no_if b; destruct (Z.gtb_spec a b)
  | |- context [?a >=? ?b] => no_if a; no_if b; destruct (Z.geb_spec a b)
  end.
Ltac zcases := repeat (zcase; try lia; cbn [andb orb negb]); try lia.

(** Reflects the boolean guards among the hypotheses. *)
Ltac breflect :=
  repeat match goal with
  | H : _ && _ = true |- _ => apply andb_prop in H as [? ?]
  | H : _ || _ = false |- _ => apply orb_false_elim in H as [? ?]
  | H : negb _ = true |- _ => apply negb_true_iff in H
  | H : negb _ = false |- _ => apply negb_false_iff in H
  | H : (_ =? _) = true |- _ => apply Z.eqb_eq in H
  | H : (_ =? _) = false |- _ => apply Z.eqb_neq in H
  | H : (_ <? _) = true |- _ => apply Z.ltb_lt in H
  | H : (_ <? _) = false |- _ => apply Z.ltb_ge in H
  | H : (_ <=? _) = true |- _ => apply Z.leb_le in H
  | H : (_ <=? _) = false |- _ => apply Z.leb_gt in H
  | H : (_ >? _) = true |- _ => rewrite Z.gtb_ltb in H
  | H : (_ >? _) = false |- _ => rewrite Z.gtb_ltb in H
  | H : (_ >=? _) = true |- _ => rewrite Z.geb_leb in H
  | H : (_ >=? _) = false |- _ => rewrite Z.geb_leb in H
  | H : bool_decide _ = true |- _ => apply bool_decide_eq_true in H
  | H : bool_decide _ = false |- _ => apply bool_decide_eq_false in H
  end.

Create Rewrite HintDb arr.
Create HintDb mlrc discriminated.

(** * Array lemmas *)

Section Arrays.
Context {A : Type} `{Inhabited A}.
Implicit Types (l : list A) (i j n : Z) (v : A).

Lemma zlen_zset l i v : zlen (l.[i <- v]) = zlen l.
Proof. unfold zset. destruct (i <? 0); [reflexivity|]. rewrite length_insert. reflexivity. Qed.

Lemma zlen_zrepeat v n : 0 <= n -> zlen (zrepeat v n) = n.
Proof. intros. unfold zrepeat. rewrite length_replicate. lia. Qed.

Lemma zget_zset_eq l i v : 0 <= i < zlen l -> l.[i <- v].[i] = v.
Proof.
  intros Hi. unfold zget, zset. destruct (Z.ltb_spec i 0); [lia|].
  apply nth_lookup_Some with (d := inhabitant). apply list_lookup_insert_eq. lia.
Qed.

Lemma zget_zset_ne l i j v : i <> j -> l.[i <- v].[j] = l.[j].
Proof.
  intros Hne. unfold zget, zset. destruct (Z.ltb_spec j 0); [reflexivity|].
  destruct (Z.ltb_spec i 0); [reflexivity|].
  rewrite !nth_lookup, list_lookup_insert_ne by lia. reflexivity.
Qed.

Lemma zget_zset l i j v : 0 <= i < zlen l ->
  l.[i <- v].[j] = if j =? i then v else l.[j].
Proof.
  intros Hi. destruct (Z.eqb_spec j i) as [->|Hne].
  - apply zget_zset_eq, Hi.
  - apply zget_zset_ne. congruence.
Qed.

Lemma zget_lookup l i : 0 <= i < zlen l -> l !! Z.to_nat i = Some l.[i].
Proof.
  intros Hi. unfold zget. destruct (Z.ltb_spec i 0); [lia|].
  destruct (lookup_lt_is_Some_2 l (Z.to_nat i)) as [x Hx]; [lia|].
  rewrite (nth_lookup_Some _ _ _ _ Hx). exact Hx.
Qed.

Lemma zget_Some l i x : 0 <= i -> l !! Z.to_nat i = Some x -> l.[i] = x.
Proof.
  intros Hi Hx. unfold zget. destruct (Z.ltb_spec i 0); [lia|].
  apply nth_lookup_Some, Hx.
Qed.

Lemma zget_ge l i : zlen l <= i -> l.[i] = inhabitant.
Proof.
  intros Hi. unfold zget. destruct (i <? 0); [reflexivity|].
  apply nth_overflow. lia.
Qed.

Lemma zget_app l1 l2 i : 0 <= i ->
  (l1 ++ l2).[i] = if i <? zlen l1 then l1.[i] else l2.[i - zlen l1].
Proof.
  intros Hi. unfold zget. destruct (Z.ltb_spec i 0); [lia|].
  destruct (Z.ltb_spec i (zlen l1)).
  - apply app_nth1. lia.
  - destruct (Z.ltb_spec (i - zlen l1) 0); [lia|].
    rewrite app_nth2 by lia. f_equal. lia.
Qed.

Lemma zget_cons x l i : 0 < i -> (x :: l).[i] = l.[i - 1].
Proof.
  intros Hi. unfold zget. destruct (Z.ltb_spec i 0), (Z.ltb_spec (i - 1) 0); try lia.
  replace (Z.to_nat i) with (S (Z.to_nat (i - 1))) by lia. reflexivity.
Qed.

Lemma zget_zrepeat v n i : 0 <= i < n -> (zrepeat v n).[i] = v.
Proof.
  intros Hi. unfold zget, zrepeat. destruct (Z.ltb_spec i 0); [lia|].
  apply nth_lookup_Some, lookup_replicate_2. lia.
Qed.

Lemma zget_zdrop l n i : 0 <= n -> 0 <= i -> (zdrop n l).[i] = l.[n + i].
Proof.
  intros Hn Hi. unfold zget, zdrop. zcases.
  rewrite !nth_lookup, lookup_drop. do 2 f_equal. lia.
Qed.

Lemma zget_ztake l n i : i < n -> (ztake n l).[i] = l.[i].
Proof.
  intros Hi. unfold zget, ztake. destruct (Z.ltb_spec i 0); [reflexivity|].
  rewrite !nth_lookup. rewrite lookup_take_lt by lia. reflexivity.
Qed.

Lemma zlen_zdrop l n : 0 <= n -> zlen (zdrop n l) = Z.max 0 (zlen l - n).
Proof. intros. unfold zdrop. rewrite length_drop. lia. Qed.

Lemma zlen_memset l v n : 0 <= n <= zlen l -> zlen (memset l v n) = zlen l.
Proof.
  intros. unfold memset. rewrite length_app, Nat2Z.inj_add, zlen_zrepeat, zlen_zdrop by lia. lia.
Qed.

Lemma zget_memset l v n i : 0 <= n -> 0 <= i ->
  (memset l v n).[i] = if i <? n then v else l.[i].
Proof.
  intros Hn Hi. unfold memset. rewrite zget_app by lia. rewrite zlen_zrepeat by lia.
  destruct (Z.ltb_spec i n).
  - apply zget_zrepeat. lia.
  - rewrite zget_zdrop by lia. f_equal. lia.
Qed.

Lemma zlist_ext l1 l2 : zlen l1 = zlen l2 ->
  (forall i, 0 <= i < zlen l1 -> l1.[i] = l2.[i]) -> l1 = l2.
Proof.
  intros Hlen Hget. apply list_eq_same_length with (n := length l2); [reflexivity|lia|].
  intros i x y Hi Hx Hy. specialize (Hget (Z.of_nat i) ltac:(lia)).
  rewrite (zget_Some l1 _ x), (zget_Some l2 _ y) in Hget; auto; try lia;
    rewrite Nat2Z.id; assumption.
Qed.

Lemma zget_In l i : 0 <= i < zlen l -> In l.[i] l.
Proof.
  intros Hi. apply list_elem_of_In, list_elem_of_lookup. eexists. apply zget_lookup, Hi.
Qed.

Lemma In_zget l x : In x l -> exists i, 0 <= i < zlen l /\ l.[i] = x.
Proof.
  intros Hx. apply list_elem_of_In, list_elem_of_lookup in Hx as [i Hi].
  exists (Z.of_nat i). apply lookup_lt_Some in Hi as Hlt. split; [lia|].
  apply zget_Some; [lia|]. rewrite Nat2Z.id. exact Hi.
Qed.
End Arrays.

Lemma zget_map {A B} `{Inhabited A, Inhabited B} (f : A -> B) (l : list A) i :
  0 <= i < zlen l -> (map f l).[i] = f l.[i].
Proof.
  intros Hi. apply zget_Some; [lia|].
  rewrite list_lookup_fmap, zget_lookup by lia. reflexivity.
Qed.

(** [0, 1, ..., n - 1], the values of a counted loop. *)
Abbreviation zseq n := (seqZ 0 n).

Lemma zlen_seqZ m n : zlen (seqZ m n) = Z.max 0 n.
Proof. rewrite length_seqZ. lia. Qed.

Lemma zget_zseq n i : 0 <= i < n -> (zseq n).[i] = i.
Proof. intros Hi. apply zget_Some; [lia|]. rewrite lookup_seqZ. lia. Qed.

Lemma in_zseq n i : In i (zseq n) <-> 0 <= i < n.
Proof. rewrite <- list_elem_of_In, elem_of_seqZ. lia. Qed.

Lemma zget_inj (l : list Z) i j : NoDup l -> 0 <= i < zlen l -> 0 <= j < zlen l -> l.[i] = l.[j] -> i = j.
Proof.
  intros Hn Hi Hj E. pose proof (zget_lookup l i Hi) as H1. pose proof (zget_lookup l j Hj) as H2.
  rewrite E in H1. pose proof (NoDup_lookup _ _ _ _ Hn H1 H2). lia.
Qed.

Lemma list_zget {A} `{Inhabited A} (l : list A) : l = map (fun i => l.[i]) (zseq (zlen l)).
Proof.
  apply zlist_ext; [rewrite length_map, zlen_seqZ; lia|]. intros i Hi.
  rewrite zget_map by (rewrite zlen_seqZ; lia). rewrite zget_zseq by lia. reflexivity.
Qed.

Lemma zseq_snoc n : 0 <= n -> zseq (n + 1) = zseq n ++ [n].
Proof. intros Hn. rewrite seqZ_app by lia. reflexivity. Qed.

Lemma combine_map_same {A B C} (f : A -> B) (g : A -> C) l : combine (map f l) (map g l) = map (fun x => (f x, g x)) l.
Proof. induction l as [|x l IH]; [reflexivity|]. cbn [map combine]. rewrite IH. reflexivity. Qed.

Lemma filter_map_comm {A B} (f : A -> B) (p : B -> bool) l :
  List.filter p (map f l) = map f (List.filter (fun x => p (f x)) l).
Proof. induction l as [|x l IH]; [reflexivity|]. cbn [map List.filter]. rewrite IH. destruct (p (f x)); reflexivity. Qed.

Lemma filter_filter_and {A} (p q : A -> bool) l : List.filter p (List.filter q l) = List.filter (fun x => p x && q x) l.
Proof.
  induction l as [|x l IH]; [reflexivity|]. cbn [List.filter]. destruct (q x) eqn:Eq; cbn [List.filter]; rewrite IH;
    destruct (p x); reflexivity.
Qed.

#[export] Instance filter_Permutation {A} (p : A -> bool) : Proper (Permutation ==> Permutation) (List.filter p).
Proof.
  intros l l' Hp. induction Hp as [|x l l' Hp IH|x y l|l1 l2 l3 _ IH1 _ IH2]; cbn [List.filter].
  - reflexivity.
  - destruct (p x); [apply perm_skip|]; exact IH.
  - destruct (p x), (p y); try reflexivity. apply perm_swap.
  - etransitivity; eassumption.
Qed.

Lemma filter_partition_perm {A} (p : A -> bool) l :
  List.filter (fun x => negb (p x)) l ++ List.filter p l ≡ₚ l.
Proof.
  induction l as [|x l IH]; cbn [List.filter]; [reflexivity|]. destruct (p x); cbn [negb].
  - rewrite <- Permutation_middle, IH. reflexivity.
  - cbn [app]. rewrite IH. reflexivity.
Qed.

Lemma filter_all {A} (p : A -> bool) l : (forall x, In x l -> p x = true) -> List.filter p l = l.
Proof.
  induction l as [|x l IH]; intros H; cbn [List.filter]; [reflexivity|].
  rewrite (H x (or_introl eq_refl)), IH; [reflexivity|]. intros y Hy. apply H. right. exact Hy.
Qed.

Lemma filter_none {A} (p : A -> bool) l : (forall x, In x l -> p x = false) -> List.filter p l = [].
Proof.
  induction l as [|x l IH]; intros H; cbn [List.filter]; [reflexivity|].
  rewrite (H x (or_introl eq_refl)). apply IH. intros y Hy. apply H. right. exact Hy.
Qed.

Lemma NoDup_concat_map {A B} (f : A -> list B) l : NoDup l -> (forall x, x ∈ l -> NoDup (f x)) ->
  (forall x y b, x ∈ l -> y ∈ l -> b ∈ f x -> b ∈ f y -> x = y) -> NoDup (concat (map f l)).
Proof.
  induction l as [|x l IH]; intros Hn Hf Hd; cbn [map concat]; [constructor|].
  apply NoDup_cons in Hn as [Hx Hn]. apply NoDup_app. split; [apply Hf; set_solver|]. split.
  - intros b Hb Hb'. apply list_elem_of_In, in_concat in Hb' as (ys & Hys & Hb').
    apply in_map_iff in Hys as (y & <- & Hy). apply Hx.
    rewrite (Hd x y b); [apply list_elem_of_In, Hy| | |exact Hb|apply list_elem_of_In, Hb'].
    + set_solver.
    + apply elem_of_cons. right. apply list_elem_of_In, Hy.
  - apply IH; [exact Hn| |]; intros; [apply Hf|eapply Hd]; set_solver.
Qed.

#[export] Hint Rewrite @zlen_zset @length_map zlen_seqZ : arr.

(** * Counted loops *)

Fixpoint for_steps {S} (n : nat) (lo : Z) (body : Z -> S -> S) (s : S) : S :=
  match n with
  | O => s
  | Datatypes.S n' => for_steps n' (lo + 1) body (body lo s)
  end.

(** [for (i = lo; i < hi; i++) s = body i s;] *)
Definition for_range {S} (lo hi : Z) (body : Z -> S -> S) (s : S) : S :=
  for_steps (Z.to_nat (hi - lo)) lo body s.

(** The same with an early exit: [inr r] leaves the loop with [r]. *)
Fixpoint for_steps_exit {S R} (n : nat) (lo : Z) (body : Z -> S -> S + R) (s : S) : S + R :=
  match n with
  | O => inl s
  | Datatypes.S n' =>
      match body lo s with
      | inl s' => for_steps_exit n' (lo + 1) body s'
      | inr r => inr r
      end
  end.
Definition for_exit {S R} (lo hi : Z) (body : Z -> S -> S + R) (s : S) : S + R :=
  for_steps_exit (Z.to_nat (hi - lo)) lo body s.

(** [for (j = lo; j < hi; j++) if (p(j)) break;], the value of [j] afterwards. *)
Fixpoint first_index_steps (n : nat) (lo : Z) (p : Z -> bool) : Z :=
  match n with
  | O => lo
  | S n' => if p lo then lo else first_index_steps n' (lo + 1) p
  end.
Definition first_index (lo hi : Z) (p : Z -> bool) : Z :=
  first_index_steps (Z.to_nat (hi - lo)) lo p.

(** Induction from a lower bound. *)
Lemma Z_ge_ind (P : Z -> Prop) lo :
  P lo -> (forall n, lo <= n -> P n -> P (n + 1)) -> forall n, lo <= n -> P n.
Proof.
  intros H0 HS n Hn. replace n with (lo + (n - lo)) by lia.
  assert (Hm : 0 <= n - lo) by lia. revert Hm. generalize (n - lo).
  apply natlike_ind; [replace (lo + 0) with lo by lia; exact H0|].
  intros m Hm IH. replace (lo + Z.succ m) with (lo + m + 1) by lia. apply HS; [lia|exact IH].
Qed.

(** The loop rule: an invariant indexed by the loop counter. *)
Lemma for_range_ind {S} (P : Z -> S -> Prop) lo hi body s :
  lo <= hi -> P lo s ->
  (forall i s, lo <= i < hi -> P i s -> P (i + 1) (body i s)) ->
  P hi (for_range lo hi body s).
Proof.
  unfold for_range. remember (Z.to_nat (hi - lo)) as n eqn:En.
  revert lo s En. induction n as [|n IH]; intros lo s En Hle H0 Hstep; simpl.
  - replace hi with lo by lia. exact H0.
  - apply IH; try lia.
    + apply Hstep; [lia|exact H0].
    + intros i s' Hi. apply Hstep. lia.
Qed.

Lemma for_exit_ind {S R} (P : Z -> S -> Prop) (Q : R -> Prop) lo hi body (s : S) :
  lo <= hi -> P lo s ->
  (forall i s, lo <= i < hi -> P i s ->
     match body i s with inl s' => P (i + 1) s' | inr r => Q r end) ->
  match for_exit lo hi body s with inl s' => P hi s' | inr r => Q r end.
Proof.
  unfold for_exit. remember (Z.to_nat (hi - lo)) as n eqn:En.
  revert lo s En. induction n as [|n IH]; intros lo s En Hle H0 Hstep; simpl.
  - replace hi with lo by lia. exact H0.
  - pose proof (Hstep lo s ltac:(lia) H0) as Hb.
    destruct (body lo s) as [s'|r]; [|exact Hb].
    apply IH; try lia; try exact Hb. intros i s'' Hi. apply Hstep. lia.
Qed.

(** A loop none of whose turns leaves early. *)
Lemma for_exit_total {S R} (P : Z -> S -> Prop) lo hi (body : Z -> S -> S + R) (s : S) :
  lo <= hi -> P lo s ->
  (forall i s, lo <= i < hi -> P i s -> exists s', body i s = inl s' /\ P (i + 1) s') ->
  exists s', for_exit lo hi body s = inl s' /\ P hi s'.
Proof.
  intros Hle H0 Hstep. pose proof (for_exit_ind P (fun _ => False) lo hi body s Hle H0) as H.
  destruct (for_exit lo hi body s) as [s'|r].
  - exists s'. split; [reflexivity|]. apply H. intros i s1 Hi H1. destruct (Hstep i s1 Hi H1) as (s2 & -> & H2). exact H2.
  - exfalso. apply H. intros i s1 Hi H1. destruct (Hstep i s1 Hi H1) as (s2 & -> & H2). exact H2.
Qed.

(** The same for invariants that do not mention the counter. *)
Lemma for_range_inv {S} (I : S -> Prop) lo hi body s :
  I s -> (forall i s, lo <= i < hi -> I s -> I (body i s)) -> I (for_range lo hi body s).
Proof.
  intros H0 Hstep. destruct (Z.le_gt_cases lo hi).
  - apply (for_range_ind (fun _ => I)); auto.
  - unfold for_range. replace (Z.to_nat (hi - lo)) with O by lia. exact H0.
Qed.

Lemma for_exit_inv {S R} (I : S -> Prop) (Q : R -> Prop) lo hi body (s : S) :
  I s -> (forall i s, lo <= i < hi -> I s ->
     match body i s with inl s' => I s' | inr r => Q r end) ->
  match for_exit lo hi body s with inl s' => I s' | inr r => Q r end.
Proof.
  intros H0 Hstep. destruct (Z.le_gt_cases lo hi).
  - apply (for_exit_ind (fun _ => I) Q); auto.
  - unfold for_exit. replace (Z.to_nat (hi - lo)) with O by lia. exact H0.
Qed.

Lemma for_range_empty {S} lo hi body (s : S) : hi <= lo -> for_range lo hi body s = s.
Proof. intros. unfold for_range. replace (Z.to_nat (hi - lo)) with O by lia. reflexivity. Qed.

Lemma for_range_last {S} lo hi body (s : S) : lo <= hi ->
  for_range lo (hi + 1) body s = body hi (for_range lo hi body s).
Proof.
  intros Hle. unfold for_range.
  replace (Z.to_nat (hi + 1 - lo)) with (Z.to_nat (hi - lo) + 1)%nat by lia.
  remember (Z.to_nat (hi - lo)) as n eqn:En. revert lo s Hle En.
  induction n as [|n IH]; intros lo s Hle En; simpl.
  - replace hi with lo by lia. reflexivity.
  - apply IH; lia.
Qed.

Lemma for_range_ext {S} lo hi f g (s : S) :
  (forall i s, lo <= i < hi -> f i s = g i s) -> for_range lo hi f s = for_range lo hi g s.
Proof.
  unfold for_range. remember (Z.to_nat (hi - lo)) as n eqn:En.
  revert lo s En. induction n as [|n IH]; intros lo s En Hfg; simpl; [reflexivity|].
  rewrite Hfg by lia. apply IH; [lia|]. intros. apply Hfg. lia.
Qed.

Lemma first_index_spec lo hi p : lo <= hi ->
  let j := first_index lo hi p in
  lo <= j <= hi /\ (forall i, lo <= i < j -> p i = false) /\ (j < hi -> p j = true).
Proof.
  unfold first_index. remember (Z.to_nat (hi - lo)) as n eqn:En.
  revert lo En. induction n as [|n IH]; intros lo En Hle; simpl.
  - split; [lia|]. split; intros; lia.
  - destruct (p lo) eqn:Ep.
    + split; [lia|]. split; [intros; lia|auto].
    + destruct (IH (lo + 1) ltac:(lia) ltac:(lia)) as (H1 & H2 & H3).
      split; [lia|]. split; [|exact H3]. intros i Hi.
      destruct (Z.eq_dec i lo) as [->|]; [exact Ep|apply H2; lia].
Qed.

(** * Row-major matrices in flat arrays *)

Lemma flat_index_inj n i j i' j' :
  0 <= j < n -> 0 <= j' < n -> i * n + j = i' * n + j' -> i = i' /\ j = j'.
Proof. intros. assert (i = i') by nia. subst. lia. Qed.

Lemma flat_index_range m n i j : 0 <= i < m -> 0 <= j < n -> 0 <= i * n + j < m * n.
Proof. intros. nia. Qed.

Lemma flat_index_div n i : 0 < n -> i = (i / n) * n + i mod n.
Proof. intros. rewrite (Z.div_mod i n) at 1 by lia. lia. Qed.

(** * Sums *)

Definition sum_below (n : Z) (g : Z -> Z) : Z := foldr Z.add 0 (map g (zseq n)).

Lemma sum_below_foldr_le (l : list Z) (g h : Z -> Z) : (forall i, In i l -> g i <= h i) -> foldr Z.add 0 (map g l) <= foldr Z.add 0 (map h l).
Proof.
  induction l as [|x l IH]; intros H; cbn [map foldr]; [lia|].
  pose proof (H x (or_introl eq_refl)). pose proof (IH (fun i Hi => H i (or_intror Hi))). lia.
Qed.

Lemma sum_below_le n g h : (forall i, 0 <= i < n -> g i <= h i) -> sum_below n g <= sum_below n h.
Proof. intros H. apply sum_below_foldr_le. intros i Hi. apply H, in_zseq, Hi. Qed.

Lemma sum_below_ext n g h : (forall i, 0 <= i < n -> g i = h i) -> sum_below n g = sum_below n h.
Proof. intros H. apply Z.le_antisymm; apply sum_below_le; intros i Hi; rewrite H by exact Hi; reflexivity. Qed.

Lemma sum_below_nonneg n g : (forall i, 0 <= i < n -> 0 <= g i) -> 0 <= sum_below n g.
Proof.
  intros H. unfold sum_below. assert (E : forall l, (forall i, In i l -> 0 <= g i) -> 0 <= foldr Z.add 0 (map g l)).
  { induction l as [|x l IH]; intros Hl; cbn [map foldr]; [lia|].
    pose proof (Hl x (or_introl eq_refl)). pose proof (IH (fun i Hi => Hl i (or_intror Hi))). lia. }
  apply E. intros i Hi. apply H, in_zseq, Hi.
Qed.

(** Changing one summand. *)
Lemma sum_below_change n g h i : 0 <= i < n -> (forall j, j <> i -> h j = g j) -> sum_below n h = sum_below n g + (h i - g i).
Proof.
  intros Hi Hne. unfold sum_below. assert (Hin : i ∈ zseq n) by (apply elem_of_seqZ; lia).
  assert (Hnd : NoDup (zseq n)) by apply NoDup_seqZ.
  induction (zseq n) as [|x l IH]; [set_solver|]. cbn [map foldr]. apply NoDup_cons in Hnd as [Hx Hnd].
  destruct (Z.eq_dec x i) as [->|E].
  - assert (El : map h l = map g l) by (apply map_ext_in; intros j Hj; apply Hne; intros ->; apply Hx, list_elem_of_In, Hj).
    rewrite El. lia.
  - rewrite (Hne x E), IH by set_solver. lia.
Qed.

Lemma sum_below_const n c : 0 <= n -> sum_below n (fun _ => c) = n * c.
Proof.
  intros Hn. unfold sum_below. assert (E : forall l : list Z, foldr Z.add 0 (map (fun _ => c) l) = zlen l * c).
  { induction l as [|x l IH]; cbn [map foldr length]; lia. }
  rewrite E, zlen_seqZ. f_equal. lia.
Qed.

Lemma sum_below_pos n g i : 0 <= i < n -> 0 < g i -> (forall j, 0 <= j < n -> 0 <= g j) -> 0 < sum_below n g.
Proof.
  intros Hi Hp Hg. pose proof (sum_below_nonneg n (fun j => if j =? i then 0 else g j) ltac:(intros j Hj; cbv beta; destruct (j =? i); [lia|apply Hg, Hj])).
  rewrite (sum_below_change n (fun j => if j =? i then 0 else g j) g i Hi) by (intros j Hj; destruct (Z.eqb_spec j i); [contradiction|reflexivity]).
  rewrite Z.eqb_refl. lia.
Qed.

Lemma sum_below_lt n g h i : 0 <= i < n -> h i < g i -> (forall j, 0 <= j < n -> h j <= g j) -> sum_below n h < sum_below n g.
Proof.
  intros Hi Hlt Hle. set (m := fun j => if j =? i then h i else g j).
  assert (E : sum_below n m = sum_below n g + (m i - g i)) by (apply sum_below_change; [exact Hi|]; intros j Hj; unfold m; zcases).
  assert (H : sum_below n h <= sum_below n m).
  { apply sum_below_le. intros j Hj. unfold m. destruct (Z.eqb_spec j i) as [->|]; [lia|apply Hle, Hj]. }
  unfold m in E at 2. rewrite Z.eqb_refl in E. lia.
Qed.
