(* ===== verification/GF256.v ===== *)
(** The finite field GF(2^8) of [unilrc_encoder.h] and [unilrc_encoder.cpp]:
    the logarithm tables, [gf_mul], [gf_inv], [gf_pow], the proof that they form
    a field (declared to the [ring] and [field] tactics) and the theory of finite
    sums ([xsum]) and linear systems over it that the codecs rely on. *)
From S2P Require Import Prelude.
From Stdlib Require Import Field.

(** * Bytes

    [unsigned char] is the Standard Library's [byte]; an [int] converted to
    [unsigned char] is reduced modulo 256 ([byte_of_Z]). *)

#[export] Instance byte_inhabited : Inhabited byte := populate x00.
#[export] Instance byte_eq_dec : EqDecision byte := Byte.byte_eq_dec.

Definition byte_to_Z (b : byte) : Z := Z.of_N (Byte.to_N b).
Definition byte_of_Z (z : Z) : byte :=
  match Byte.of_N (Z.to_N (z mod 256)) with Some b => b | None => x00 end.

(** [a ^ b] on [unsigned char]. *)
Definition bxor (a b : byte) : byte := byte_of_Z (Z.lxor (byte_to_Z a) (byte_to_Z b)).

(** * The tables of [unilrc_encoder.h] *)

Definition gff_base : list byte :=
  [x01; x02; x04; x08; x10; x20; x40; x80; x1d; x3a; x74; xe8; xcd; x87; x13; x26;
   x4c; x98; x2d; x5a; xb4; x75; xea; xc9; x8f; x03; x06; x0c; x18; x30; x60; xc0;
   x9d; x27; x4e; x9c; x25; x4a; x94; x35; x6a; xd4; xb5; x77; xee; xc1; x9f; x23;
   x46; x8c; x05; x0a; x14; x28; x50; xa0; x5d; xba; x69; xd2; xb9; x6f; xde; xa1;
   x5f; xbe; x61; xc2; x99; x2f; x5e; xbc; x65; xca; x89; x0f; x1e; x3c; x78; xf0;
   xfd; xe7; xd3; xbb; x6b; xd6; xb1; x7f; xfe; xe1; xdf; xa3; x5b; xb6; x71; xe2;
   xd9; xaf; x43; x86; x11; x22; x44; x88; x0d; x1a; x34; x68; xd0; xbd; x67; xce;
   x81; x1f; x3e; x7c; xf8; xed; xc7; x93; x3b; x76; xec; xc5; x97; x33; x66; xcc;
   x85; x17; x2e; x5c; xb8; x6d; xda; xa9; x4f; x9e; x21; x42; x84; x15; x2a; x54;
   xa8; x4d; x9a; x29; x52; xa4; x55; xaa; x49; x92; x39; x72; xe4; xd5; xb7; x73;
   xe6; xd1; xbf; x63; xc6; x91; x3f; x7e; xfc; xe5; xd7; xb3; x7b; xf6; xf1; xff;
   xe3; xdb; xab; x4b; x96; x31; x62; xc4; x95; x37; x6e; xdc; xa5; x57; xae; x41;
   x82; x19; x32; x64; xc8; x8d; x07; x0e; x1c; x38; x70; xe0; xdd; xa7; x53; xa6;
   x51; xa2; x59; xb2; x79; xf2; xf9; xef; xc3; x9b; x2b; x56; xac; x45; x8a; x09;
   x12; x24; x48; x90; x3d; x7a; xf4; xf5; xf7; xf3; xfb; xeb; xcb; x8b; x0b; x16;
   x2c; x58; xb0; x7d; xfa; xe9; xcf; x83; x1b; x36; x6c; xd8; xad; x47; x8e; x01].

Definition gflog_base : list byte :=
  [x00; xff; x01; x19; x02; x32; x1a; xc6; x03; xdf; x33; xee; x1b; x68; xc7; x4b;
   x04; x64; xe0; x0e; x34; x8d; xef; x81; x1c; xc1; x69; xf8; xc8; x08; x4c; x71;
   x05; x8a; x65; x2f; xe1; x24; x0f; x21; x35; x93; x8e; xda; xf0; x12; x82; x45;
   x1d; xb5; xc2; x7d; x6a; x27; xf9; xb9; xc9; x9a; x09; x78; x4d; xe4; x72; xa6;
   x06; xbf; x8b; x62; x66; xdd; x30; xfd; xe2; x98; x25; xb3; x10; x91; x22; x88;
   x36; xd0; x94; xce; x8f; x96; xdb; xbd; xf1; xd2; x13; x5c; x83; x38; x46; x40;
   x1e; x42; xb6; xa3; xc3; x48; x7e; x6e; x6b; x3a; x28; x54; xfa; x85; xba; x3d;
   xca; x5e; x9b; x9f; x0a; x15; x79; x2b; x4e; xd4; xe5; xac; x73; xf3; xa7; x57;
   x07; x70; xc0; xf7; x8c; x80; x63; x0d; x67; x4a; xde; xed; x31; xc5; xfe; x18;
   xe3; xa5; x99; x77; x26; xb8; xb4; x7c; x11; x44; x92; xd9; x23; x20; x89; x2e;
   x37; x3f; xd1; x5b; x95; xbc; xcf; xcd; x90; x87; x97; xb2; xdc; xfc; xbe; x61;
   xf2; x56; xd3; xab; x14; x2a; x5d; x9e; x84; x3c; x39; x53; x47; x6d; x41; xa2;
   x1f; x2d; x43; xd8; xb7; x7b; xa4; x76; xc4; x17; x49; xec; x7f; x0c; x6f; xf6;
   x6c; xa1; x3b; x52; x29; x9d; x55; xaa; xfb; x60; x86; xb1; xbb; xcc; x3e; x5a;
   xcb; x59; x5f; xb0; x9c; xa9; xa0; x51; x0b; xf5; x16; xeb; x7a; x75; x2c; xd7;
   x4f; xae; xd5; xe9; xe6; xe7; xad; xe8; x74; xd6; xf4; xea; xa8; x50; x58; xaf].

(** * Operations *)

(** The [GF_LARGE_TABLES]-free branch, the one the build uses. *)
Definition gf_mul (a b : byte) : byte :=
  if bool_decide (a = x00) || bool_decide (b = x00) then x00
  else
    let i := byte_to_Z gflog_base.[byte_to_Z a] + byte_to_Z gflog_base.[byte_to_Z b] in
    gff_base.[if i >? 254 then i - 255 else i].

Definition gf_inv (a : byte) : byte :=
  if bool_decide (a = x00) then x00
  else gff_base.[255 - byte_to_Z gflog_base.[byte_to_Z a]].

(** [while (exp > 0)]: an [unsigned int] is zero after at most 32 shifts. *)
Fixpoint gf_pow_loop (fuel : nat) (base : byte) (exp : Z) (result : byte) : byte :=
  match fuel with
  | O => result
  | S fuel' =>
      if exp >? 0 then
        let result := if Z.odd exp then gf_mul result base else result in
        gf_pow_loop fuel' (gf_mul base base) (Z.shiftr exp 1) result
      else result
  end.
Definition gf_pow (base : byte) (exp : Z) : byte := gf_pow_loop 32 base exp x01.

Declare Scope gf_scope.
Delimit Scope gf_scope with gf.
Infix "⊕" := bxor (at level 50, left associativity) : gf_scope.
Infix "⊗" := gf_mul (at level 40, left associativity) : gf_scope.
#[global] Open Scope gf_scope.

(** * Bytes and integers *)

Lemma byte_to_Z_range b : 0 <= byte_to_Z b < 256.
Proof. unfold byte_to_Z. pose proof (Byte.to_N_bounded b). lia. Qed.

Lemma byte_to_of_Z z : byte_to_Z (byte_of_Z z) = z mod 256.
Proof.
  unfold byte_to_Z, byte_of_Z.
  pose proof (Z.mod_pos_bound z 256 ltac:(lia)) as Hb.
  destruct (Byte.of_N _) as [b|] eqn:E.
  - apply Byte.to_of_N in E. rewrite E. lia.
  - apply Byte.of_N_None_iff in E. lia.
Qed.

Lemma byte_to_Z_inj a b : byte_to_Z a = byte_to_Z b -> a = b.
Proof.
  unfold byte_to_Z. intros H%N2Z.inj.
  pose proof (Byte.of_to_N a) as Ha. pose proof (Byte.of_to_N b) as Hb.
  rewrite H in Ha. congruence.
Qed.

Lemma byte_of_to_Z b : byte_of_Z (byte_to_Z b) = b.
Proof.
  apply byte_to_Z_inj. rewrite byte_to_of_Z.
  apply Z.mod_small, byte_to_Z_range.
Qed.

Lemma byte_of_Z_eq_iff x y : byte_of_Z x = byte_of_Z y <-> x mod 256 = y mod 256.
Proof.
  rewrite <- !byte_to_of_Z. split; [congruence | apply byte_to_Z_inj].
Qed.

Lemma lxor_mod_256 a b : Z.lxor a b mod 256 = Z.lxor (a mod 256) (b mod 256).
Proof.
  change 256 with (2 ^ 8). rewrite <- !Z.land_ones by lia.
  apply Z.bits_inj'. intros n Hn. rewrite !Z.lxor_spec, !Z.land_spec, Z.lxor_spec.
  destruct (Z.testbit a n), (Z.testbit b n), (Z.testbit (Z.ones 8) n); reflexivity.
Qed.

Lemma byte_to_Z_bxor a b : byte_to_Z (a ⊕ b) = Z.lxor (byte_to_Z a) (byte_to_Z b).
Proof.
  unfold bxor. rewrite byte_to_of_Z, lxor_mod_256.
  rewrite !Z.mod_small by apply byte_to_Z_range. reflexivity.
Qed.

Lemma byte_of_Z_lxor a b : byte_of_Z (Z.lxor a b) = byte_of_Z a ⊕ byte_of_Z b.
Proof.
  apply byte_to_Z_inj. rewrite byte_to_Z_bxor, !byte_to_of_Z. apply lxor_mod_256.
Qed.

(** A property checked on the 256 values holds of every byte. *)
Definition all_bytes : list byte := map (fun i => byte_of_Z (Z.of_nat i)) (seq 0 256).

Lemma all_bytes_complete b : In b all_bytes.
Proof.
  rewrite <- (byte_of_to_Z b). pose proof (byte_to_Z_range b).
  apply in_map_iff. exists (Z.to_nat (byte_to_Z b)).
  rewrite Z2Nat.id by lia. split; [reflexivity|]. apply in_seq. lia.
Qed.

Lemma forall_bytes (P : byte -> bool) : forallb P all_bytes = true -> forall b, P b = true.
Proof. intros H b. exact (proj1 (forallb_forall P all_bytes) H b (all_bytes_complete b)). Qed.

(** * Addition *)

Lemma bxor_assoc a b c : a ⊕ (b ⊕ c) = a ⊕ b ⊕ c.
Proof. apply byte_to_Z_inj. rewrite !byte_to_Z_bxor. symmetry. apply Z.lxor_assoc. Qed.
Lemma bxor_comm a b : a ⊕ b = b ⊕ a.
Proof. apply byte_to_Z_inj. rewrite !byte_to_Z_bxor. apply Z.lxor_comm. Qed.
Lemma bxor_0_l a : x00 ⊕ a = a.
Proof. apply byte_to_Z_inj. rewrite byte_to_Z_bxor. apply Z.lxor_0_l. Qed.
Lemma bxor_0_r a : a ⊕ x00 = a.
Proof. rewrite bxor_comm. apply bxor_0_l. Qed.
Lemma bxor_nilpotent a : a ⊕ a = x00.
Proof. apply byte_to_Z_inj. rewrite byte_to_Z_bxor. apply Z.lxor_nilpotent. Qed.
Lemma bxor_eq_0 a b : a ⊕ b = x00 -> a = b.
Proof.
  intros H. apply (f_equal byte_to_Z) in H. rewrite byte_to_Z_bxor in H.
  apply byte_to_Z_inj, Z.lxor_eq, H.
Qed.

(** * Multiplication as iterated doubling

    [xtime] is multiplication by the generator 2 modulo [x^8+x^4+x^3+x^2+1]
    (0x11d).  The tables enumerate its orbit, so that [gf_mul a] is [xtime]
    iterated [log a] times; that [gf_mul] distributes over [⊕] follows from the
    linearity of [xtime]. *)
Definition xtime (b : byte) : byte :=
  byte_of_Z (Z.lxor (Z.shiftl (byte_to_Z b) 1) (if Z.testbit (byte_to_Z b) 7 then 29 else 0)).

Lemma xtime_bxor a b : xtime (a ⊕ b) = xtime a ⊕ xtime b.
Proof.
  unfold xtime. rewrite <- byte_of_Z_lxor, byte_to_Z_bxor, Z.shiftl_lxor, Z.lxor_spec.
  f_equal. generalize (Z.shiftl (byte_to_Z a) 1), (Z.shiftl (byte_to_Z b) 1). intros x y.
  apply Z.bits_inj'. intros n _. rewrite !Z.lxor_spec.
  destruct (Z.testbit (byte_to_Z a) 7), (Z.testbit (byte_to_Z b) 7); simpl;
    rewrite ?Z.bits_0; destruct (Z.testbit x n), (Z.testbit y n), (Z.testbit 29 n); reflexivity.
Qed.

Definition glog (a : byte) : nat := Z.to_nat (byte_to_Z gflog_base.[byte_to_Z a]).

Lemma gff_base_step (i : nat) : (i < 255)%nat ->
  gff_base.[Z.of_nat i + 1] = xtime gff_base.[Z.of_nat i].
Proof.
  intros Hi.
  assert (H : forallb (fun i => Byte.eqb gff_base.[Z.of_nat i + 1] (xtime gff_base.[Z.of_nat i]))
            (seq 0 255) = true) by (vm_compute; reflexivity).
  apply Byte.byte_dec_bl, (proj1 (forallb_forall _ _) H i), in_seq. lia.
Qed.

Lemma gff_base_iter (i : nat) : (i <= 255)%nat ->
  gff_base.[Z.of_nat i] = Nat.iter i xtime x01.
Proof.
  induction i as [|i IH]; intros Hi; [reflexivity|].
  rewrite Nat2Z.inj_succ. rewrite <- Z.add_1_r, gff_base_step by lia.
  simpl. rewrite IH by lia. reflexivity.
Qed.

Lemma glog_spec a : a <> x00 -> (1 <= glog a <= 255)%nat /\ gff_base.[Z.of_nat (glog a)] = a.
Proof.
  assert (H : forall a, bool_decide (a = x00) || ((1 <=? glog a)%nat && (glog a <=? 255)%nat
             && Byte.eqb gff_base.[Z.of_nat (glog a)] a) = true).
  { apply (forall_bytes (fun a => _)). vm_compute. reflexivity. }
  intros Ha. specialize (H a). rewrite bool_decide_eq_false_2 in H by exact Ha.
  cbn [orb] in H. apply andb_prop in H as [H H3]. apply andb_prop in H as [H1 H2].
  apply Nat.leb_le in H1, H2. apply Byte.byte_dec_bl in H3. auto.
Qed.

Lemma glog_iter a : a <> x00 -> Nat.iter (glog a) xtime x01 = a.
Proof.
  intros Ha. destruct (glog_spec a Ha) as [Hr He].
  rewrite <- gff_base_iter by lia. exact He.
Qed.

Lemma iter_255 : Nat.iter 255 xtime x01 = x01.
Proof. rewrite <- gff_base_iter by lia. reflexivity. Qed.

Lemma iter_xtime_0 n : Nat.iter n xtime x00 = x00.
Proof. induction n as [|n IH]; [reflexivity|]. simpl. rewrite IH. reflexivity. Qed.

Lemma gf_mul_0_l b : x00 ⊗ b = x00.
Proof. reflexivity. Qed.
Lemma gf_mul_0_r a : a ⊗ x00 = x00.
Proof. unfold gf_mul. rewrite orb_comm. reflexivity. Qed.

Lemma gf_mul_iter a b : a <> x00 -> a ⊗ b = Nat.iter (glog a) xtime b.
Proof.
  intros Ha. destruct (decide (b = x00)) as [->|Hb].
  { rewrite gf_mul_0_r, iter_xtime_0. reflexivity. }
  unfold gf_mul. rewrite !bool_decide_eq_false_2 by assumption. simpl.
  destruct (glog_spec a Ha) as [Hra _], (glog_spec b Hb) as [Hrb _].
  pose proof (byte_to_Z_range gflog_base.[byte_to_Z a]).
  pose proof (byte_to_Z_range gflog_base.[byte_to_Z b]).
  assert (Ea : byte_to_Z gflog_base.[byte_to_Z a] = Z.of_nat (glog a)) by (unfold glog; lia).
  assert (Eb : byte_to_Z gflog_base.[byte_to_Z b] = Z.of_nat (glog b)) by (unfold glog; lia).
  rewrite Ea, Eb.
  replace (Nat.iter (glog a) xtime b) with (Nat.iter (glog a + glog b) xtime x01)
    by (rewrite Nat.iter_add, (glog_iter b Hb); reflexivity).
  destruct (Z.gtb_spec (Z.of_nat (glog a) + Z.of_nat (glog b)) 254) as [Hgt|Hle].
  - replace (Z.of_nat (glog a) + Z.of_nat (glog b) - 255) with
      (Z.of_nat (glog a + glog b - 255)) by lia.
    rewrite gff_base_iter by lia.
    replace (Nat.iter (glog a + glog b) xtime x01)
      with (Nat.iter ((glog a + glog b - 255) + 255) xtime x01) by (f_equal; lia).
    rewrite (Nat.iter_add _ 255), iter_255. reflexivity.
  - rewrite <- Nat2Z.inj_add, gff_base_iter by lia. reflexivity.
Qed.

Lemma iter_xtime_bxor n a b :
  Nat.iter n xtime (a ⊕ b) = Nat.iter n xtime a ⊕ Nat.iter n xtime b.
Proof. induction n as [|n IH]; [reflexivity|]. simpl. rewrite IH. apply xtime_bxor. Qed.

(** * The field laws *)

Lemma gf_mul_comm a b : a ⊗ b = b ⊗ a.
Proof.
  unfold gf_mul. rewrite orb_comm. destruct (_ || _); [reflexivity|].
  rewrite Z.add_comm. reflexivity.
Qed.

Lemma gf_mul_bxor_r a b c : a ⊗ (b ⊕ c) = a ⊗ b ⊕ a ⊗ c.
Proof.
  destruct (decide (a = x00)) as [->|Ha]; [reflexivity|].
  rewrite !gf_mul_iter by exact Ha. apply iter_xtime_bxor.
Qed.

Lemma gf_mul_nonzero a b : a <> x00 -> b <> x00 -> a ⊗ b <> x00.
Proof.
  intros Ha Hb. rewrite gf_mul_iter by exact Ha.
  assert (Hx : forall c, c <> x00 -> xtime c <> x00).
  { intros c. assert (H : forall c, bool_decide (c = x00) || negb (Byte.eqb (xtime c) x00) = true)
      by (apply (forall_bytes (fun c => _)); vm_compute; reflexivity).
    specialize (H c). intros Hc E. rewrite E, bool_decide_eq_false_2 in H by exact Hc.
    discriminate. }
  generalize (glog a). intros n. induction n as [|n IH]; simpl; auto.
Qed.

Lemma gf_mul_assoc a b c : a ⊗ (b ⊗ c) = a ⊗ b ⊗ c.
Proof.
  destruct (decide (a = x00)) as [->|Ha]; [reflexivity|].
  destruct (decide (b = x00)) as [->|Hb]; [rewrite gf_mul_0_l, !gf_mul_0_r; reflexivity|].
  destruct (decide (c = x00)) as [->|Hc]; [rewrite !gf_mul_0_r; reflexivity|].
  rewrite (gf_mul_comm (a ⊗ b) c), (gf_mul_iter c) by exact Hc.
  rewrite (gf_mul_comm b c), (gf_mul_iter c), !(gf_mul_iter a) by assumption.
  rewrite <- !Nat.iter_add. f_equal. lia.
Qed.

Lemma gf_mul_1_l b : x01 ⊗ b = b.
Proof.
  assert (H : forall b, Byte.eqb (x01 ⊗ b) b = true)
    by (apply (forall_bytes (fun b => _)); vm_compute; reflexivity).
  apply Byte.byte_dec_bl, H.
Qed.

Lemma gf_inv_l a : a <> x00 -> gf_inv a ⊗ a = x01.
Proof.
  assert (H : forall a, bool_decide (a = x00) || Byte.eqb (gf_inv a ⊗ a) x01 = true)
    by (apply (forall_bytes (fun a => _)); vm_compute; reflexivity).
  intros Ha. specialize (H a). rewrite bool_decide_eq_false_2 in H by exact Ha.
  apply Byte.byte_dec_bl, H.
Qed.

Lemma gf_ring_theory : ring_theory x00 x01 bxor gf_mul bxor (fun a => a) eq.
Proof.
  constructor.
  - apply bxor_0_l.
  - apply bxor_comm.
  - apply bxor_assoc.
  - apply gf_mul_1_l.
  - apply gf_mul_comm.
  - apply gf_mul_assoc.
  - intros. rewrite (gf_mul_comm (x ⊕ y)), gf_mul_bxor_r, !(gf_mul_comm z). reflexivity.
  - reflexivity.
  - apply bxor_nilpotent.
Qed.

Lemma gf_field_theory :
  field_theory x00 x01 bxor gf_mul bxor (fun a => a) (fun a b => a ⊗ gf_inv b) gf_inv eq.
Proof.
  constructor.
  - exact gf_ring_theory.
  - discriminate.
  - reflexivity.
  - apply gf_inv_l.
Qed.

(** Coefficients in GF(2), so that [ring] knows [a ⊕ a = 0]. *)
Definition gf_of_bool (b : bool) : byte := if b then x01 else x00.

Lemma gf_bool_morph :
  ring_morph x00 x01 bxor gf_mul bxor (fun a => a) eq
    false true xorb andb xorb (fun b => b) Bool.eqb gf_of_bool.
Proof.
  constructor; try reflexivity; intros [] []; try reflexivity; try discriminate.
Qed.

Ltac gf_cst t :=
  match t with
  | x00 => constr:(false)
  | x01 => constr:(true)
  | _ => constr:(NotConstant)
  end.

Add Field gf256 : gf_field_theory (morphism gf_bool_morph, constants [gf_cst]).

(** * Powers *)

(** [a] multiplied with itself [n] times. *)
Definition bpow (a : byte) (n : Z) : byte := Nat.iter (Z.to_nat n) (gf_mul a) x01.

Lemma bpow_0 a : bpow a 0 = x01.
Proof. reflexivity. Qed.

Lemma bpow_succ a n : 0 <= n -> bpow a (n + 1) = a ⊗ bpow a n.
Proof. intros. unfold bpow. rewrite Z2Nat.inj_add, Nat.add_comm by lia. reflexivity. Qed.

Lemma bpow_add a m n : 0 <= m -> 0 <= n -> bpow a (m + n) = bpow a m ⊗ bpow a n.
Proof.
  intros Hm Hn. revert m Hm. apply natlike_ind.
  - rewrite bpow_0, gf_mul_1_l. reflexivity.
  - intros m Hm IH. replace (Z.succ m + n) with (m + n + 1) by lia. unfold Z.succ.
    rewrite !bpow_succ, IH by lia. ring.
Qed.

Lemma gf_pow_loop_spec fuel base exp result : 0 <= exp < 2 ^ Z.of_nat fuel ->
  gf_pow_loop fuel base exp result = result ⊗ bpow base exp.
Proof.
  revert base exp result. induction fuel as [|fuel IH]; intros base exp result Hexp; simpl.
  - replace exp with 0 by lia. rewrite bpow_0. ring.
  - destruct (Z.gtb_spec exp 0) as [Hpos|Hz].
    2: { replace exp with 0 by lia. rewrite bpow_0. ring. }
    rewrite Nat2Z.inj_succ, Z.pow_succ_r in Hexp by lia.
    rewrite Z.shiftr_div_pow2, Z.pow_1_r by lia.
    assert (Hh : 0 <= exp / 2) by (apply Z.div_pos; lia).
    rewrite IH by (split; [exact Hh|apply Z.div_lt_upper_bound; lia]).
    assert (Hsq : bpow (base ⊗ base) (exp / 2) = bpow base (2 * (exp / 2))).
    { revert Hh. generalize (exp / 2). apply natlike_ind; [reflexivity|].
      intros m Hm IHm. unfold Z.succ. rewrite bpow_succ, IHm by lia.
      replace (2 * (m + 1)) with (2 * m + 1 + 1) by lia. rewrite !bpow_succ by lia. ring. }
    rewrite Hsq. pose proof (Z.div_mod exp 2 ltac:(lia)) as Hdm. rewrite Zmod_odd in Hdm.
    destruct (Z.odd exp).
    + rewrite Hdm at 2. rewrite bpow_succ by lia. ring.
    + rewrite Hdm at 2. rewrite Z.add_0_r. reflexivity.
Qed.
