(* ===== verification/LinAlg.v ===== *)
(** Linear algebra over GF(2^8): sums [xsum] in the form of the accumulation
    loops of the source, matrices as functions, their representation by the flat
    row-major arrays of the source ([is_mx]), elementary row operations, and the
    nonsingularity of Cauchy systems. *)
From S2P Require Import Prelude GF256.
From Stdlib Require Import Field.

(** * Sums *)

(** [s = 0; for (j = 0; j < n; j++) s ^= f(j);] *)
Definition xsum (n : Z) (f : Z -> byte) : byte :=
  for_range 0 n (fun j s => s ⊕ f j) x00.

Section Sums.
Implicit Types (n : Z) (f g : Z -> byte).

Lemma xsum_0 n f : n <= 0 -> xsum n f = x00.
Proof. intros. apply for_range_empty. lia. Qed.

Lemma xsum_succ n f : 0 <= n -> xsum (n + 1) f = xsum n f ⊕ f n.
Proof. intros. unfold xsum. rewrite for_range_last by lia. reflexivity. Qed.

Lemma xsum_ext n f g : (forall j, 0 <= j < n -> f j = g j) -> xsum n f = xsum n g.
Proof. intros H. apply for_range_ext. intros. rewrite H by lia. reflexivity. Qed.

(** Induction on the number of terms. *)
Lemma xsum_elim (P : Z -> byte -> Prop) n f :
  0 <= n -> P 0 x00 -> (forall m s, 0 <= m < n -> P m s -> P (m + 1) (s ⊕ f m)) ->
  P n (xsum n f).
Proof. intros. apply (for_range_ind (fun i s => P i s)); auto. Qed.

Lemma xsum_zero n f : (forall j, 0 <= j < n -> f j = x00) -> xsum n f = x00.
Proof.
  intros H. destruct (Z.le_gt_cases 0 n) as [Hn|Hn]; [|apply xsum_0; lia].
  apply (xsum_elim (fun _ s => s = x00)); auto.
  intros m s Hm ->. rewrite H by lia. reflexivity.
Qed.

Lemma xsum_add n f g : xsum n (fun j => f j ⊕ g j) = xsum n f ⊕ xsum n g.
Proof.
  destruct (Z.le_gt_cases 0 n) as [Hn|Hn]; [|rewrite !xsum_0 by lia; reflexivity].
  revert n Hn. apply natlike_ind; [reflexivity|].
  intros n Hn IH. unfold Z.succ. rewrite !xsum_succ, IH by lia. ring.
Qed.

Lemma xsum_mul_l n f c : xsum n (fun j => c ⊗ f j) = c ⊗ xsum n f.
Proof.
  destruct (Z.le_gt_cases 0 n) as [Hn|Hn].
  2: { rewrite !xsum_0 by lia. rewrite gf_mul_0_r. reflexivity. }
  revert n Hn. apply natlike_ind; [rewrite !xsum_0 by lia; rewrite gf_mul_0_r; reflexivity|].
  intros n Hn IH. unfold Z.succ. rewrite !xsum_succ, IH by lia. ring.
Qed.

Lemma xsum_mul_r n f c : xsum n (fun j => f j ⊗ c) = xsum n f ⊗ c.
Proof.
  rewrite gf_mul_comm, <- xsum_mul_l. apply xsum_ext. intros. apply gf_mul_comm.
Qed.

(** Interchange of summation. *)
Lemma xsum_swap m n (h : Z -> Z -> byte) :
  xsum m (fun i => xsum n (fun j => h i j)) = xsum n (fun j => xsum m (fun i => h i j)).
Proof.
  destruct (Z.le_gt_cases 0 m) as [Hm|Hm].
  2: { rewrite (xsum_0 m) by lia. symmetry. apply xsum_zero. intros. apply xsum_0. lia. }
  revert m Hm. apply natlike_ind.
  - symmetry. apply xsum_zero. reflexivity.
  - intros m Hm IH. unfold Z.succ. rewrite xsum_succ, IH, <- xsum_add by lia.
    apply xsum_ext. intros. rewrite xsum_succ by lia. reflexivity.
Qed.

(** Pulling one term out of the sum. *)
Lemma xsum_pull n f i : 0 <= i < n ->
  xsum n f = f i ⊕ xsum n (fun j => if j =? i then x00 else f j).
Proof.
  intros [Hi Hin]. assert (Hn : i + 1 <= n) by lia. clear Hin. revert n Hn.
  apply Z_ge_ind.
  - rewrite !xsum_succ by lia. rewrite Z.eqb_refl.
    rewrite (xsum_ext i (fun j => if j =? i then x00 else f j) f); [ring|].
    intros. zcases. reflexivity.
  - intros n Hn IH. rewrite !xsum_succ, IH by lia. destruct (Z.eqb_spec n i); [lia|]. ring.
Qed.

Lemma xsum_single n f i : 0 <= i < n ->
  (forall j, 0 <= j < n -> j <> i -> f j = x00) -> xsum n f = f i.
Proof.
  intros Hi H. rewrite (xsum_pull n f i Hi), xsum_zero; [apply bxor_0_r|].
  intros j Hj. zcases; [reflexivity|apply H; lia].
Qed.

(** A sum does not depend on the order of two of its terms. *)
Definition swp (i j a : Z) : Z := if a =? i then j else if a =? j then i else a.

Lemma xsum_swp n f i j : 0 <= i < n -> 0 <= j < n ->
  xsum n (fun c => f (swp i j c)) = xsum n f.
Proof.
  intros Hi Hj. destruct (Z.eq_dec i j) as [<-|Hne].
  { apply xsum_ext. intros. unfold swp. zcases; subst; reflexivity. }
  assert (Hpull : forall h, xsum n h = h i ⊕ h j ⊕
            xsum n (fun c => if c =? j then x00 else if c =? i then x00 else h c)).
  { intros h. rewrite (xsum_pull n h i), (xsum_pull n (fun c => if c =? i then x00 else h c) j)
      by lia. destruct (Z.eqb_spec j i); [lia|]. ring. }
  rewrite (Hpull f), (Hpull (fun c => f (swp i j c))).
  replace (swp i j i) with j by (unfold swp; zcases).
  replace (swp i j j) with i by (unfold swp; zcases).
  rewrite (xsum_ext n _ (fun c => if c =? j then x00 else if c =? i then x00 else f c)); [ring|].
  intros c Hc. unfold swp. zcases; reflexivity.
Qed.

Lemma xsum_split m n f : 0 <= m <= n ->
  xsum n f = xsum m f ⊕ xsum (n - m) (fun j => f (m + j)).
Proof.
  intros [Hm Hle]. revert n Hle. apply Z_ge_ind.
  - rewrite Z.sub_diag, (xsum_0 0) by lia. ring.
  - intros n Hn IH. replace (n + 1 - m) with (n - m + 1) by lia.
    rewrite !xsum_succ, IH by lia. replace (m + (n - m)) with n by lia. ring.
Qed.
End Sums.

(** * Matrices *)

Abbreviation mx := (Z -> Z -> byte) (only parsing).

Definition delta (i j : Z) : byte := if i =? j then x01 else x00.

(** [M v] and [M N]; [n] is the common dimension. *)
Definition mxv (n : Z) (M : mx) (v : Z -> byte) (i : Z) : byte := xsum n (fun j => M i j ⊗ v j).
Definition mxm (n : Z) (M N : mx) (i j : Z) : byte := xsum n (fun c => M i c ⊗ N c j).

(** Equality on the index range. *)
Definition mx_eq (m n : Z) (M N : mx) : Prop :=
  forall i j, 0 <= i < m -> 0 <= j < n -> M i j = N i j.

Definition is_identity (n : Z) (M : mx) : Prop := mx_eq n n M delta.

(** [M] has only the trivial kernel. *)
Definition nonsingular (n : Z) (M : mx) : Prop :=
  forall v, (forall i, 0 <= i < n -> mxv n M v i = x00) -> forall j, 0 <= j < n -> v j = x00.

Lemma xsum_delta_l n (f : Z -> byte) i : 0 <= i < n -> xsum n (fun j => delta i j ⊗ f j) = f i.
Proof.
  intros Hi. rewrite (xsum_single n _ i Hi).
  - unfold delta. rewrite Z.eqb_refl. ring.
  - intros j Hj Hne. unfold delta. zcases. ring.
Qed.

Lemma mxv_mxm n M N v i : mxv n (mxm n M N) v i = mxv n M (mxv n N v) i.
Proof.
  unfold mxv, mxm.
  rewrite (xsum_ext n _ (fun j => xsum n (fun c => M i c ⊗ (N c j ⊗ v j)))).
  2: { intros. rewrite <- xsum_mul_r. apply xsum_ext. intros. ring. }
  rewrite xsum_swap. apply xsum_ext. intros. rewrite xsum_mul_l. reflexivity.
Qed.

Lemma mxm_assoc n M N P i j : mxm n (mxm n M N) P i j = mxm n M (mxm n N P) i j.
Proof. exact (mxv_mxm n M N (fun c => P c j) i). Qed.

Lemma xsum_delta_r n (f : Z -> byte) j : 0 <= j < n -> xsum n (fun i => f i ⊗ delta i j) = f j.
Proof.
  intros Hj. etransitivity; [|apply (xsum_delta_l n f j Hj)]. apply xsum_ext. intros i Hi.
  unfold delta. rewrite (Z.eqb_sym i j). apply gf_mul_comm.
Qed.

Lemma mxv_ext n M N v w i : (forall j, 0 <= j < n -> M i j = N i j) ->
  (forall j, 0 <= j < n -> v j = w j) -> mxv n M v i = mxv n N w i.
Proof. intros H1 H2. apply xsum_ext. intros. rewrite H1, H2 by lia. reflexivity. Qed.

(** A left inverse solves the linear system. *)
Lemma left_inverse_solves n M N v : is_identity n (mxm n N M) ->
  forall i, 0 <= i < n -> mxv n N (mxv n M v) i = v i.
Proof.
  intros H i Hi. rewrite <- mxv_mxm.
  rewrite (mxv_ext n _ delta v v) by (auto; intros; apply H; lia).
  apply xsum_delta_l, Hi.
Qed.

Lemma left_inverse_nonsingular n M N : is_identity n (mxm n N M) -> nonsingular n M.
Proof.
  intros H v Hv j Hj. rewrite <- (left_inverse_solves n M N v H j Hj).
  apply xsum_zero. intros c Hc. rewrite Hv by lia. ring.
Qed.

(** * Flat arrays *)

(** The first [m * n] cells of [a] hold [M] in row-major order. *)
Definition is_mx (m n : Z) (a : list byte) (M : mx) : Prop :=
  m * n <= zlen a /\ forall i j, 0 <= i < m -> 0 <= j < n -> a.[i * n + j] = M i j.

Lemma is_mx_ext m n a M N : is_mx m n a M -> mx_eq m n M N -> is_mx m n a N.
Proof.
  intros [Hl H] HE. split; [exact Hl|]. intros. rewrite H by lia. apply HE; lia.
Qed.

(** [a[i * n + j] = v] *)
Lemma is_mx_set m n a M i j v : is_mx m n a M -> 0 <= i < m -> 0 <= j < n ->
  is_mx m n (a.[i * n + j <- v])
    (fun i' j' => if (i' =? i) && (j' =? j) then v else M i' j').
Proof.
  intros [Hl H] Hi Hj. pose proof (flat_index_range m n i j Hi Hj) as Hr. split.
  { rewrite zlen_zset. exact Hl. }
  intros i' j' Hi' Hj'. rewrite zget_zset by lia.
  destruct (Z.eqb_spec (i' * n + j') (i * n + j)) as [E|E].
  - apply flat_index_inj in E as [-> ->]; [|lia..]. rewrite !Z.eqb_refl. reflexivity.
  - rewrite H by lia. zcases; subst; lia || reflexivity.
Qed.

(** * Elementary row operations

    [row_*] is the operation on the rows of a matrix, [col_*] the operation on
    columns that undoes it in a product. *)

Definition row_swap (i j : Z) (M : mx) : mx := fun a b => M (swp i j a) b.
Definition row_scale (i : Z) (t : byte) (M : mx) : mx :=
  fun a b => if a =? i then M a b ⊗ t else M a b.
Definition row_elim (i : Z) (C : Z -> byte) (M : mx) : mx :=
  fun a b => if a =? i then M a b else M a b ⊕ C a ⊗ M i b.

Definition col_swap (i j : Z) (P : mx) : mx := fun a b => P a (swp i j b).
Definition col_scale (i : Z) (t : byte) (P : mx) : mx :=
  fun a b => if b =? i then P a b ⊗ t else P a b.
Definition col_elim (n i : Z) (C : Z -> byte) (P : mx) : mx :=
  fun a b => if b =? i
             then P a i ⊕ xsum n (fun j => if j =? i then x00 else P a j ⊗ C j)
             else P a b.

Lemma mxm_row_scale n i t M N a b :
  mxm n (row_scale i t M) N a b = row_scale i t (mxm n M N) a b.
Proof.
  unfold mxm, row_scale. destruct (a =? i); [|reflexivity].
  rewrite <- xsum_mul_r. apply xsum_ext. intros. ring.
Qed.

Lemma mxm_row_elim n i C M N a b :
  mxm n (row_elim i C M) N a b = row_elim i C (mxm n M N) a b.
Proof.
  unfold mxm, row_elim. destruct (a =? i); [reflexivity|].
  rewrite <- xsum_mul_l, <- xsum_add. apply xsum_ext. intros. ring.
Qed.

Lemma mxm_col_row_swap n i j P M a b : 0 <= i < n -> 0 <= j < n ->
  mxm n (col_swap i j P) (row_swap i j M) a b = mxm n P M a b.
Proof.
  intros. exact (xsum_swp n (fun c => P a c ⊗ M c b) i j ltac:(lia) ltac:(lia)).
Qed.

Lemma mxm_col_row_scale n i t u P M a b : t ⊗ u = x01 ->
  mxm n (col_scale i u P) (row_scale i t M) a b = mxm n P M a b.
Proof.
  intros Htu. apply xsum_ext. intros c _. unfold col_scale, row_scale.
  destruct (c =? i); [|reflexivity].
  replace (P a c ⊗ u ⊗ (M c b ⊗ t)) with (P a c ⊗ M c b ⊗ (t ⊗ u)) by ring.
  rewrite Htu. ring.
Qed.

Lemma mxm_col_row_elim n i C P M a b : 0 <= i < n ->
  mxm n (col_elim n i C P) (row_elim i C M) a b = mxm n P M a b.
Proof.
  intros Hi. unfold mxm.
  rewrite (xsum_pull n (fun c => P a c ⊗ M c b) i Hi).
  rewrite (xsum_pull n (fun c => col_elim n i C P a c ⊗ row_elim i C M c b) i Hi).
  rewrite (xsum_ext n (fun j => if j =? i then x00 else col_elim n i C P a j ⊗ row_elim i C M j b)
    (fun j => (if j =? i then x00 else P a j ⊗ M j b) ⊕
              (if j =? i then x00 else P a j ⊗ C j) ⊗ M i b)).
  2: { intros j Hj. unfold col_elim, row_elim. destruct (j =? i); ring. }
  rewrite xsum_add, xsum_mul_r. unfold col_elim, row_elim. rewrite !Z.eqb_refl. ring.
Qed.

(** What Gauss-Jordan elimination of [A] maintains: [M] is the current left
    half, [O] the current right half. *)
Definition gj_state (n : Z) (A M O : mx) : Prop :=
  mx_eq n n (mxm n O A) M /\
  exists P, mx_eq n n (mxm n P M) A /\ mx_eq n n (mxm n P O) delta.

Lemma swp_range n i j a : 0 <= i < n -> 0 <= j < n -> 0 <= a < n -> 0 <= swp i j a < n.
Proof. intros. unfold swp. zcases. Qed.

Lemma gj_init n A : 0 <= n -> gj_state n A A delta.
Proof.
  intros Hn. split.
  - intros i j Hi Hj. apply (xsum_delta_l n (fun c => A c j)), Hi.
  - exists delta. split; intros i j Hi Hj.
    + apply (xsum_delta_l n (fun c => A c j)), Hi.
    + apply (xsum_delta_l n (fun c => delta c j)), Hi.
Qed.

Lemma gj_swap n A M O i j : 0 <= i < n -> 0 <= j < n ->
  gj_state n A M O -> gj_state n A (row_swap i j M) (row_swap i j O).
Proof.
  intros Hi Hj [H1 (P & H2 & H3)]. split.
  - intros a b Ha Hb. apply (H1 (swp i j a) b); [apply swp_range; lia|lia].
  - exists (col_swap i j P). split; intros a b Ha Hb; rewrite mxm_col_row_swap by lia; auto.
Qed.

Lemma gj_scale n A M O i t u : t ⊗ u = x01 ->
  gj_state n A M O -> gj_state n A (row_scale i t M) (row_scale i t O).
Proof.
  intros Htu [H1 (P & H2 & H3)]. split.
  - intros a b Ha Hb. rewrite mxm_row_scale. unfold row_scale. rewrite H1 by lia. reflexivity.
  - exists (col_scale i u P).
    split; intros a b Ha Hb; rewrite mxm_col_row_scale by exact Htu; auto.
Qed.

Lemma gj_elim n A M O i C : 0 <= i < n ->
  gj_state n A M O -> gj_state n A (row_elim i C M) (row_elim i C O).
Proof.
  intros Hi [H1 (P & H2 & H3)]. split.
  - intros a b Ha Hb. rewrite mxm_row_elim. unfold row_elim. rewrite !H1 by lia. reflexivity.
  - exists (col_elim n i C P). split; intros a b Ha Hb; rewrite mxm_col_row_elim by lia; auto.
Qed.

(** Once the left half is the identity, the right half is the two-sided inverse. *)
Lemma gj_done n A M O : gj_state n A M O -> is_identity n M ->
  is_identity n (mxm n O A) /\ is_identity n (mxm n A O).
Proof.
  intros [H1 (P & H2 & H3)] HI. split.
  - intros i j Hi Hj. rewrite H1 by lia. apply HI; lia.
  - assert (HP : mx_eq n n P A).
    { intros i j Hi Hj. rewrite <- H2 by lia. unfold mxm.
      rewrite (xsum_ext n _ (fun c => delta j c ⊗ P i c)).
      - symmetry. apply (xsum_delta_l n (fun c => P i c)), Hj.
      - intros c Hc. rewrite HI by lia. unfold delta. rewrite (Z.eqb_sym c j). ring. }
    intros i j Hi Hj. rewrite <- H3 by lia. apply xsum_ext. intros c Hc.
    rewrite HP by lia. reflexivity.
Qed.

(** A column without a pivot exhibits a kernel vector of [A]. *)
Lemma gj_singular n A M O i : gj_state n A M O -> 0 <= i < n ->
  (forall a c, 0 <= a < n -> 0 <= c < i -> M a c = delta a c) ->
  (forall a, i <= a < n -> M a i = x00) ->
  ~ nonsingular n A.
Proof.
  intros [_ (P & H2 & _)] Hi Hcols Hpiv Hns.
  set (v := fun c => if c <? i then M c i else if c =? i then x01 else x00).
  assert (HMv : forall a, 0 <= a < n -> mxv n M v a = x00).
  { intros a Ha. unfold mxv. rewrite (xsum_pull n _ i Hi).
    assert (Hvi : v i = x01) by (unfold v; zcases; reflexivity). rewrite Hvi.
    assert (Hterm : forall c, 0 <= c < n ->
      (if c =? i then x00 else M a c ⊗ v c) = delta a c ⊗ (if c <? i then M c i else x00)).
    { intros c Hc. unfold v. zcases; try ring. rewrite Hcols by lia. reflexivity. }
    rewrite (xsum_ext n _ _ Hterm), xsum_delta_l by lia.
    destruct (Z.ltb_spec a i); [ring|]. rewrite Hpiv by lia. ring. }
  assert (Hvi : v i = x00).
  { apply Hns; [|exact Hi]. intros a Ha.
    rewrite (mxv_ext n A (mxm n P M) v v) by (auto; intros; symmetry; apply H2; lia).
    rewrite mxv_mxm. apply xsum_zero. intros. rewrite HMv by lia. ring. }
  revert Hvi. unfold v. zcases. discriminate.
Qed.

(** * Cauchy systems *)

Lemma gf_mul_eq_0 a b : a ⊗ b = x00 -> a = x00 \/ b = x00.
Proof.
  intros H. destruct (decide (a = x00)), (decide (b = x00)); auto.
  exfalso. exact (gf_mul_nonzero a b ltac:(assumption) ltac:(assumption) H).
Qed.

Lemma gf_inv_nonzero a : a <> x00 -> gf_inv a <> x00.
Proof.
  intros Ha E. pose proof (gf_inv_l a Ha) as H. rewrite E in H. discriminate.
Qed.

Lemma bxor_nonzero a b : a <> b -> a ⊕ b <> x00.
Proof. intros H E. apply H, bxor_eq_0, E. Qed.

Definition cauchy (x y : Z -> byte) : mx := fun i j => gf_inv (x i ⊕ y j).

(** Eliminating the last unknown of a Cauchy system leaves a Cauchy system. *)
Lemma cauchy_step n (x y v : Z -> byte) i :
  0 <= i < n -> (forall j, 0 <= j <= n -> x i <> y j) -> (forall j, 0 <= j <= n -> x n <> y j) ->
  x i <> x n ->
  mxv (n + 1) (cauchy x y) v i = x00 -> mxv (n + 1) (cauchy x y) v n = x00 ->
  mxv n (cauchy x y) (fun j => v j ⊗ (y n ⊕ y j) ⊗ gf_inv (x n ⊕ y j)) i = x00.
Proof.
  intros Hi Hxi Hxn Hne Ei En.
  assert (Hsum : (x i ⊕ x n) ⊗
     mxv n (cauchy x y) (fun j => v j ⊗ (y n ⊕ y j) ⊗ gf_inv (x n ⊕ y j)) i =
     (x i ⊕ y n) ⊗ mxv (n + 1) (cauchy x y) v i ⊕ (x n ⊕ y n) ⊗ mxv (n + 1) (cauchy x y) v n).
  { unfold mxv. rewrite <- !xsum_mul_l, <- xsum_add.
    set (g := fun j => (x i ⊕ y n) ⊗ (cauchy x y i j ⊗ v j) ⊕ (x n ⊕ y n) ⊗ (cauchy x y n j ⊗ v j)).
    rewrite (xsum_succ n g) by lia.
    assert (Hg : g n = x00) by (unfold g, cauchy; field; split; apply bxor_nonzero;
      (apply Hxi || apply Hxn); lia). rewrite Hg. unfold g.
    rewrite bxor_0_r. apply xsum_ext. intros j Hj. unfold cauchy.
    field. split; apply bxor_nonzero; (apply Hxi || apply Hxn); lia. }
  rewrite Ei, En, !gf_mul_0_r in Hsum. apply gf_mul_eq_0 in Hsum as [H|H]; [|exact H].
  apply bxor_eq_0 in H. contradiction.
Qed.

(** A Cauchy matrix over distinct nodes is nonsingular. *)
Lemma cauchy_nonsingular n (x y : Z -> byte) : 0 <= n ->
  (forall i j, 0 <= i < n -> 0 <= j < n -> x i = x j -> i = j) ->
  (forall i j, 0 <= i < n -> 0 <= j < n -> y i = y j -> i = j) ->
  (forall i j, 0 <= i < n -> 0 <= j < n -> x i <> y j) ->
  nonsingular n (cauchy x y).
Proof.
  intros Hn. revert n Hn x y. apply (natlike_ind (fun n => forall x y, _ -> _ -> _ -> _)).
  { intros x y _ _ _ v _ j Hj. lia. }
  intros n Hn IH x y Hx Hy Hxy v Hv. unfold Z.succ in *.
  assert (Hlow : forall j, 0 <= j < n -> v j = x00).
  { intros j Hj.
    assert (Hw : v j ⊗ (y n ⊕ y j) ⊗ gf_inv (x n ⊕ y j) = x00).
    { apply (IH x y) with (v := fun j => v j ⊗ (y n ⊕ y j) ⊗ gf_inv (x n ⊕ y j)); try exact Hj.
      - intros; apply Hx; auto; lia.
      - intros; apply Hy; auto; lia.
      - intros; apply Hxy; lia.
      - intros i Hi. apply cauchy_step; try (intros; apply Hxy); try apply Hv; try lia.
        intros E. apply Hx in E; lia. }
    apply gf_mul_eq_0 in Hw as [Hw|Hw].
    - apply gf_mul_eq_0 in Hw as [Hw|Hw]; [exact Hw|].
      apply bxor_eq_0 in Hw. apply Hy in Hw; lia.
    - exfalso. revert Hw. apply gf_inv_nonzero, bxor_nonzero, Hxy; lia. }
  intros j Hj. destruct (Z.eq_dec j n) as [->|]; [|apply Hlow; lia].
  pose proof (Hv n ltac:(lia)) as En. unfold mxv in En. rewrite xsum_succ, xsum_zero in En
    by (lia || intros c Hc; rewrite Hlow by lia; ring).
  rewrite bxor_0_l in En. apply gf_mul_eq_0 in En as [En|En]; [|exact En].
  exfalso. revert En. apply gf_inv_nonzero, bxor_nonzero, Hxy; lia.
Qed.
