(* ===== verification/GFMatrix.v ===== *)
(** Matrix routines of [unilrc_encoder.cpp]: the Reed-Solomon and Cauchy
    generators, the local coefficient vector, in-place Gauss-Jordan inversion
    ([gf_invert_matrix]) and the vector-matrix product. *)
From S2P Require Import Prelude GF256 LinAlg.
From Stdlib Require Import Field.

(** * Definitions *)

Definition gf_gen_local_vector (a : list byte) (k p : Z) : list byte :=
  for_range 0 k (fun i a => a.[i <- gf_inv (byte_of_Z (Z.lxor i (k + p)))]) a.

Definition gf_gen_rs_matrix1 (a : list byte) (m k : Z) : list byte :=
  let a := memset a x00 (k * m) in
  let a := for_range 0 k (fun i a => a.[k * i + i <- x01]) a in
  fst (for_range k m (fun i '(a, gen) =>
         let '(a, _) := for_range 0 k (fun j '(a, p) =>
                          (a.[k * i + j <- p], gf_mul p gen)) (a, x01) in
         (a, gf_mul gen x02)) (a, x02)).

(** [p] walks through the array: [*p++ = gf_inv(i ^ j)]. *)
Definition gf_gen_cauchy_matrix1 (a : list byte) (m k : Z) : list byte :=
  let a := memset a x00 (k * m) in
  let a := for_range 0 k (fun i a => a.[k * i + i <- x01]) a in
  fst (for_range k m (fun i st =>
         for_range 0 k (fun j '(a, p) =>
           (a.[p <- gf_inv (byte_of_Z (Z.lxor i j))], p + 1)) st) (a, k * k)).

(** The body of the row swap, for one of the two arrays. *)
Definition gf_swap_cell (n i j k : Z) (a : list byte) : list byte :=
  let temp := a.[i * n + k] in
  let a := a.[i * n + k <- a.[j * n + k]] in
  a.[j * n + k <- temp].

Definition gf_scale_cell (n i : Z) (temp : byte) (j : Z) (a : list byte) : list byte :=
  a.[i * n + j <- gf_mul a.[i * n + j] temp].

Definition gf_elim_cell (n i j : Z) (temp : byte) (k : Z) (a : list byte) : list byte :=
  a.[j * n + k <- a.[j * n + k] ⊕ gf_mul temp a.[i * n + k]].

(** "Check for 0 in pivot element": [inr] is the [return -1]. *)
Definition gf_invert_pivot (n i : Z) (st : list byte * list byte)
  : (list byte * list byte) + (list byte * list byte) :=
  let '(in_mat, out_mat) := st in
  if bool_decide (in_mat.[i * n + i] = x00) then
    let j := first_index (i + 1) n (fun j => bool_decide (in_mat.[j * n + i] <> x00)) in
    if j =? n then inr (in_mat, out_mat)
    else inl (for_range 0 n (fun k '(in_mat, out_mat) =>
                (gf_swap_cell n i j k in_mat, gf_swap_cell n i j k out_mat)) (in_mat, out_mat))
  else inl (in_mat, out_mat).

(** Scale row [i] by 1/pivot and clear column [i] in the other rows. *)
Definition gf_invert_eliminate (n i : Z) (st : list byte * list byte) : list byte * list byte :=
  let temp := gf_inv (fst st).[i * n + i] in
  let st := for_range 0 n (fun j '(in_mat, out_mat) =>
              (gf_scale_cell n i temp j in_mat, gf_scale_cell n i temp j out_mat)) st in
  for_range 0 n (fun j st =>
    if j =? i then st
    else
      let temp := (fst st).[j * n + i] in
      for_range 0 n (fun k '(in_mat, out_mat) =>
        (gf_elim_cell n i j temp k in_mat, gf_elim_cell n i j temp k out_mat)) st) st.

(** Returns the code (0, or -1 when singular) with the final contents of
    [in_mat] and [out_mat]. *)
Definition gf_invert_matrix (in_mat out_mat : list byte) (n : Z)
  : Z * (list byte * list byte) :=
  let out_mat := for_range 0 (n * n) (fun i a => a.[i <- x00]) out_mat in
  let out_mat := for_range 0 n (fun i a => a.[i * n + i <- x01]) out_mat in
  match for_exit 0 n (fun i st =>
          match gf_invert_pivot n i st with
          | inr st => inr st
          | inl st => inl (gf_invert_eliminate n i st)
          end) (in_mat, out_mat) with
  | inl st => (0, st)
  | inr st => (-1, st)
  end.

Definition gf_mul_vect_matrix (vect matrix dest : list byte) (k : Z) : list byte :=
  for_range 0 k (fun i dest =>
    for_range 0 k (fun j dest =>
      dest.[i <- dest.[i] ⊕ gf_mul vect.[j] matrix.[j * k + i]]) (dest.[i <- x00])) dest.

(** * Cell updates *)

Lemma for_range_pair {A B} lo hi (f : Z -> A -> A) (g : Z -> B -> B) a b :
  for_range lo hi (fun k '(x, y) => (f k x, g k y)) (a, b) =
  (for_range lo hi f a, for_range lo hi g b).
Proof.
  unfold for_range. generalize (Z.to_nat (hi - lo)). intros m. revert lo a b.
  induction m as [|m IH]; intros lo a b; simpl; [reflexivity|apply IH].
Qed.

Lemma is_mx_get m n a M i j : is_mx m n a M -> 0 <= i < m -> 0 <= j < n -> a.[i * n + j] = M i j.
Proof. intros [_ H]. apply H. Qed.

(** Rewrites the cells of the arrays described by [is_mx] hypotheses. *)
Ltac mx_get :=
  repeat match goal with
  | H : is_mx _ ?n ?a _ |- context [zget ?a (?i * ?n + ?j)] =>
      rewrite (is_mx_get _ _ _ _ i j H) by lia
  end.

(** Filling a matrix cell by cell. *)
Lemma fill_matrix_spec m n (g : mx) a : 0 <= m -> 0 <= n -> m * n <= zlen a ->
  is_mx m n (for_range 0 m (fun i a => for_range 0 n (fun j a => a.[i * n + j <- g i j]) a) a) g.
Proof.
  intros Hm Hn Hl. pose (G := fun i c (i' c' : Z) => if (i' <? i) || ((i' =? i) && (c' <? c)) then g i' c' else a.[i' * n + c']).
  apply is_mx_ext with (M := G m 0); [|intros i c Hi Hc; unfold G; zcases; reflexivity].
  apply (for_range_ind (fun i b => is_mx m n b (G i 0))); [exact Hm| |].
  - split; [exact Hl|]. intros i j Hi Hj. unfold G. zcases; reflexivity.
  - intros i b Hi Hb. apply is_mx_ext with (M := G i n).
    2: { intros i' c' Hi' Hc'. unfold G. zcases; reflexivity. }
    apply (for_range_ind (fun c b => is_mx m n b (G i c))); [exact Hn|exact Hb|].
    intros c b' Hc Hb'. eapply is_mx_ext; [apply is_mx_set; [exact Hb'|lia..]|].
    intros i' c' Hi' Hc'. cbv beta. unfold G. zcases; subst; reflexivity.
Qed.

Lemma swap_row_spec m n i j a M : 0 <= n -> 0 <= i < m -> 0 <= j < m -> i <> j -> is_mx m n a M ->
  is_mx m n (for_range 0 n (gf_swap_cell n i j) a) (row_swap i j M).
Proof.
  intros Hn Hi Hj Hne HM.
  apply is_mx_ext with (M := fun r c => if c <? n then row_swap i j M r c else M r c).
  2: { intros r c Hr Hc. zcases; reflexivity. }
  apply (for_range_ind (fun k a => is_mx m n a (fun r c => if c <? k then row_swap i j M r c else M r c)));
    [lia| |].
  - eapply is_mx_ext; [exact HM|]. intros r c Hr Hc. zcases; reflexivity.
  - intros k a' Hk Ha. unfold gf_swap_cell. mx_get. zcases.
    eapply is_mx_ext.
    { apply is_mx_set; [apply is_mx_set; [exact Ha|lia..]|lia..]. }
    intros r c Hr Hc. cbv beta. unfold row_swap, swp. zcases; subst; reflexivity || lia.
Qed.

(** A row scaled from column [lo] on. *)
Lemma scale_row_from_spec m n lo i t a M : 0 <= lo <= n -> 0 <= i < m -> is_mx m n a M ->
  is_mx m n (for_range lo n (gf_scale_cell n i t) a)
    (fun r c => if lo <=? c then row_scale i t M r c else M r c).
Proof.
  intros Hlo Hi HM.
  pose (F := fun k r c => if (lo <=? c) && (c <? k) then row_scale i t M r c else M r c).
  apply is_mx_ext with (M := F n); [|intros r c Hr Hc; unfold F; zcases; reflexivity].
  apply (for_range_ind (fun k a => is_mx m n a (F k))); [lia| |].
  - eapply is_mx_ext; [exact HM|]. intros r c Hr Hc. unfold F. zcases; reflexivity.
  - intros k a' Hk Ha. unfold gf_scale_cell. mx_get. unfold F at 1. zcases.
    eapply is_mx_ext; [apply is_mx_set; [exact Ha|lia..]|].
    intros r c Hr Hc. cbv beta. unfold F, row_scale. zcases; subst; reflexivity || lia.
Qed.

(** One row of the elimination, from column [lo] on. *)
Lemma elim_row_from_spec m n lo i j t a M : 0 <= lo <= n -> 0 <= i < m -> 0 <= j < m -> i <> j ->
  is_mx m n a M ->
  is_mx m n (for_range lo n (gf_elim_cell n i j t) a)
    (fun r c => if (lo <=? c) && (r =? j) then M r c ⊕ t ⊗ M i c else M r c).
Proof.
  intros Hlo Hi Hj Hne HM.
  pose (F := fun k r c => if (lo <=? c) && (c <? k) && (r =? j) then M r c ⊕ t ⊗ M i c else M r c).
  apply is_mx_ext with (M := F n); [|intros r c Hr Hc; unfold F; zcases; reflexivity].
  apply (for_range_ind (fun k a => is_mx m n a (F k))); [lia| |].
  - eapply is_mx_ext; [exact HM|]. intros r c Hr Hc. unfold F. zcases; reflexivity.
  - intros k a' Hk Ha. unfold gf_elim_cell. mx_get. unfold F at 1 2. zcases.
    eapply is_mx_ext; [apply is_mx_set; [exact Ha|lia..]|].
    intros r c Hr Hc. cbv beta. unfold F. zcases; subst; reflexivity || lia.
Qed.

Lemma scale_row_spec n i t a M : 0 <= i < n -> is_mx n n a M ->
  is_mx n n (for_range 0 n (gf_scale_cell n i t) a) (row_scale i t M).
Proof.
  intros Hi HM. eapply is_mx_ext; [apply scale_row_from_spec; [lia..|exact HM]|].
  intros r c Hr Hc. zcases; reflexivity.
Qed.

Lemma elim_row_spec n i j t a M : 0 <= i < n -> 0 <= j < n -> i <> j -> is_mx n n a M ->
  is_mx n n (for_range 0 n (gf_elim_cell n i j t) a)
    (fun r c => if r =? j then M r c ⊕ t ⊗ M i c else M r c).
Proof.
  intros Hi Hj Hne HM. eapply is_mx_ext; [apply elim_row_from_spec; [lia..|exact Hne|exact HM]|].
  intros r c Hr Hc. zcases; reflexivity.
Qed.

Lemma eliminate_spec n i a o M O : 0 <= i < n -> is_mx n n a M -> is_mx n n o O ->
  let t := gf_inv (M i i) in
  let C := fun r => row_scale i t M r i in
  let '(a', o') := gf_invert_eliminate n i (a, o) in
  is_mx n n a' (row_elim i C (row_scale i t M)) /\ is_mx n n o' (row_elim i C (row_scale i t O)).
Proof.
  intros Hi Ha Ho t C. unfold gf_invert_eliminate. cbn [fst]. mx_get. fold t.
  rewrite for_range_pair.
  apply (scale_row_spec n i t) in Ha; [|lia]. apply (scale_row_spec n i t) in Ho; [|lia].
  revert Ha Ho. generalize (for_range 0 n (gf_scale_cell n i t) a),
    (for_range 0 n (gf_scale_cell n i t) o). intros a1 o1 Ha Ho.
  set (S := row_scale i t M) in *. set (T := row_scale i t O) in *.
  pose (P := fun j '(a', o') =>
      is_mx n n a' (fun r c => if (r <? j) && negb (r =? i) then S r c ⊕ S r i ⊗ S i c else S r c) /\
      is_mx n n o' (fun r c => if (r <? j) && negb (r =? i) then T r c ⊕ S r i ⊗ T i c else T r c)).
  assert (Hinv : P n
    (for_range 0 n (fun j st =>
       if j =? i then st
       else let temp := (fst st).[j * n + i] in
            for_range 0 n (fun k '(in_mat, out_mat) =>
              (gf_elim_cell n i j temp k in_mat, gf_elim_cell n i j temp k out_mat)) st) (a1, o1))).
  { apply (for_range_ind P); [lia| |].
    - split; (eapply is_mx_ext; [eassumption|]); intros r c Hr Hc; zcases; reflexivity.
    - intros j [a' o'] Hj [Ha' Ho']. destruct (Z.eqb_spec j i) as [->|Hne].
      { split; (eapply is_mx_ext; [eassumption|]); intros r c Hr Hc; zcases; reflexivity. }
      cbv zeta. cbn [fst]. mx_get. rewrite for_range_pair.
      replace ((j <? j) && negb (j =? i)) with false by zcases.
      split; (eapply is_mx_ext; [apply elim_row_spec; eauto; lia|]); intros r c Hr Hc; cbv beta;
        zcases; subst; try reflexivity; lia. }
  match goal with |- let '(_, _) := ?X in _ => destruct X as [a2 o2] end.
  destruct Hinv as [H1 H2].
  split; (eapply is_mx_ext; [eassumption|]); intros r c Hr Hc; unfold row_elim, C; fold S;
    zcases; reflexivity.
Qed.

Lemma zero_fill_spec (l : list byte) n : 0 <= n <= zlen l ->
  let l' := for_range 0 n (fun i a => a.[i <- x00]) l in
  zlen l' = zlen l /\ forall i, 0 <= i < n -> l'.[i] = x00.
Proof.
  intros Hn. cbv zeta.
  apply (for_range_ind (fun k a => zlen a = zlen l /\ forall i, 0 <= i < k -> a.[i] = x00)); [lia| |].
  - split; [reflexivity|lia].
  - intros k a Hk [Hl Hz]. split; [rewrite zlen_zset; exact Hl|].
    intros i Hi. rewrite zget_zset by lia. zcases; [reflexivity|apply Hz; lia].
Qed.

Lemma identity_fill_spec (l : list byte) n : 0 <= n -> n * n <= zlen l ->
  is_mx n n (for_range 0 n (fun i a => a.[i * n + i <- x01])
               (for_range 0 (n * n) (fun i a => a.[i <- x00]) l)) delta.
Proof.
  intros Hn Hl. destruct (zero_fill_spec l (n * n) ltac:(nia)) as [Hzl Hz].
  revert Hzl Hz. generalize (for_range 0 (n * n) (fun i a => a.[i <- x00]) l). intros l' Hzl Hz.
  apply is_mx_ext with (M := fun r c => if (r <? n) && (r =? c) then x01 else x00).
  2: { intros r c Hr Hc. unfold delta. zcases; reflexivity. }
  apply (for_range_ind (fun k a => is_mx n n a (fun r c => if (r <? k) && (r =? c) then x01 else x00)));
    [lia| |].
  - split; [lia|]. intros i j Hi Hj. zcases; apply Hz, flat_index_range; lia.
  - intros k a Hk Ha. eapply is_mx_ext; [apply is_mx_set; [exact Ha|lia..]|].
    intros r c Hr Hc. cbv beta. zcases; reflexivity.
Qed.

(** * Correctness of [gf_invert_matrix] *)

(** Finding the pivot: the swap keeps the Gauss-Jordan state and yields a
    nonzero pivot, a failure means the column has no pivot at all. *)
Lemma pivot_spec n A i a o M O : 0 <= i < n -> is_mx n n a M -> is_mx n n o O ->
  gj_state n A M O -> (forall r c, 0 <= r < n -> 0 <= c < i -> M r c = delta r c) ->
  match gf_invert_pivot n i (a, o) with
  | inr _ => forall r, i <= r < n -> M r i = x00
  | inl (a', o') => exists M' O', is_mx n n a' M' /\ is_mx n n o' O' /\ gj_state n A M' O' /\
      (forall r c, 0 <= r < n -> 0 <= c < i -> M' r c = delta r c) /\ M' i i <> x00
  end.
Proof.
  intros Hi Ha Ho Hgj Hcols. unfold gf_invert_pivot. mx_get.
  destruct (bool_decide (M i i = x00)) eqn:Ep; breflect.
  2: { exists M, O. auto. }
  pose proof (first_index_spec (i + 1) n (fun j => bool_decide (a.[j * n + i] <> x00)) ltac:(lia))
    as (Hj & Hbefore & Hat).
  set (j := first_index _ _ _) in *. destruct (Z.eqb_spec j n) as [Hjn|Hjn].
  - intros r Hr. destruct (Z.eq_dec r i) as [->|]; [exact Ep|].
    specialize (Hbefore r ltac:(lia)). cbv beta in Hbefore. revert Hbefore. mx_get.
    intros Hb. apply bool_decide_eq_false in Hb. destruct (decide (M r i = x00)); tauto.
  - specialize (Hat ltac:(lia)). cbv beta in Hat. revert Hat. mx_get. intros Hat. breflect.
    rewrite for_range_pair. exists (row_swap i j M), (row_swap i j O).
    split; [apply swap_row_spec; auto; lia|]. split; [apply swap_row_spec; auto; lia|].
    split; [apply gj_swap; auto; lia|]. split.
    + intros r c Hr Hc. unfold row_swap. rewrite Hcols by (try apply swp_range; lia).
      unfold delta, swp. destruct (Z.eqb_spec r i), (Z.eqb_spec r j); zcases; reflexivity.
    + unfold row_swap, swp. zcases. exact Hat.
Qed.

(** One column of the main loop. *)
Lemma column_spec n A i a o M O : 0 <= i < n -> is_mx n n a M -> is_mx n n o O ->
  gj_state n A M O -> (forall r c, 0 <= r < n -> 0 <= c < i -> M r c = delta r c) ->
  M i i <> x00 ->
  let '(a', o') := gf_invert_eliminate n i (a, o) in
  exists M' O', is_mx n n a' M' /\ is_mx n n o' O' /\ gj_state n A M' O' /\
    (forall r c, 0 <= r < n -> 0 <= c < i + 1 -> M' r c = delta r c).
Proof.
  intros Hi Ha Ho Hgj Hcols Hp.
  pose proof (eliminate_spec n i a o M O Hi Ha Ho) as He. cbv zeta in He.
  destruct (gf_invert_eliminate n i (a, o)) as [a' o']. destruct He as [Ha' Ho'].
  eexists _, _. split; [exact Ha'|]. split; [exact Ho'|]. split.
  - apply gj_elim; [lia|]. apply gj_scale with (u := M i i); [|exact Hgj]. apply gf_inv_l, Hp.
  - intros r c Hr Hc. unfold row_elim, row_scale. rewrite Z.eqb_refl.
    assert (Hci : M i c = delta i c \/ c = i) by (destruct (Z.eq_dec c i); [auto|left; apply Hcols; lia]).
    destruct (Z.eqb_spec r i) as [->|Hri]; destruct Hci as [Hci| ->].
    + rewrite Hci. unfold delta. destruct (Z.eqb_spec i c) as [<-|]; [|ring].
      assert (M i i = x01) by (rewrite Hci; unfold delta; zcases; reflexivity).
      rewrite H. field. discriminate.
    + unfold delta. rewrite Z.eqb_refl, gf_mul_comm. apply gf_inv_l, Hp.
    + destruct (Z.eq_dec c i) as [->|].
      * unfold delta. zcases. field. exact Hp.
      * rewrite Hci, (Hcols r c) by lia. unfold delta. zcases; ring.
    + unfold delta. zcases. field. exact Hp.
Qed.

(** [gf_invert_matrix] decides nonsingularity and returns the inverse. *)
Lemma gf_invert_matrix_spec n A in_mat out_mat :
  0 <= n -> is_mx n n in_mat A -> n * n <= zlen out_mat ->
  let '(ret, (_, out)) := gf_invert_matrix in_mat out_mat n in
  (ret = 0 /\ exists B, is_mx n n out B /\ is_identity n (mxm n B A) /\ is_identity n (mxm n A B)) \/
  (ret = -1 /\ ~ nonsingular n A).
Proof.
  intros Hn HA Hout. unfold gf_invert_matrix.
  pose proof (identity_fill_spec out_mat n Hn Hout) as HO.
  revert HO. generalize (for_range 0 n (fun i a => a.[i * n + i <- x01])
    (for_range 0 (n * n) (fun i a => a.[i <- x00]) out_mat)). intros o HO.
  pose (P := fun i '(a, o) => exists M O, is_mx n n a M /\ is_mx n n o O /\ gj_state n A M O /\
       (forall r c, 0 <= r < n -> 0 <= c < i -> M r c = delta r c)).
  assert (Hinit : P 0 (in_mat, o)).
  { exists A, delta. split; [exact HA|]. split; [exact HO|].
    split; [apply gj_init, Hn|]. intros. lia. }
  pose proof (for_exit_ind P (fun _ => ~ nonsingular n A) 0 n
    (fun i st => match gf_invert_pivot n i st with
                 | inr st => inr st
                 | inl st => inl (gf_invert_eliminate n i st)
                 end) (in_mat, o) Hn Hinit) as Hloop.
  lapply Hloop; clear Hloop.
  - intros Hloop. destruct (for_exit _ _ _ _) as [[a' o']|[a' o']]; [left|right]; auto.
    split; [reflexivity|]. destruct Hloop as (M & O & Ha & Ho & Hgj & Hid).
    exists O. split; [exact Ho|]. apply (gj_done n A M O Hgj). intros r c Hr Hc. apply Hid; lia.
  - intros i [a1 o1] Hi (M & O & Ha & Ho & Hgj & Hid).
    pose proof (pivot_spec n A i a1 o1 M O Hi Ha Ho Hgj Hid) as Hp.
    destruct (gf_invert_pivot n i (a1, o1)) as [[a2 o2]|].
    + destruct Hp as (M' & O' & Ha' & Ho' & Hgj' & Hid' & Hpiv).
      exact (column_spec n A i a2 o2 M' O' Hi Ha' Ho' Hgj' Hid' Hpiv).
    + exact (gj_singular n A M O i Hgj Hi Hid Hp).
Qed.

(** * The generator matrices *)

(** The array keeps its length and its cells from [p] on. *)
Definition same_from (p : Z) (a b : list byte) : Prop :=
  zlen b = zlen a /\ forall i, p <= i -> b.[i] = a.[i].

Lemma same_from_refl p a : same_from p a a.
Proof. split; auto. Qed.

Lemma same_from_trans p a b c : same_from p a b -> same_from p b c -> same_from p a c.
Proof. intros [H1 H2] [H3 H4]. split; [congruence|]. intros. rewrite H4, H2 by lia. reflexivity. Qed.

Lemma same_from_set p a b i v : same_from p a b -> i < p -> same_from p a (b.[i <- v]).
Proof.
  intros [H1 H2] Hi. split; [rewrite zlen_zset; exact H1|].
  intros j Hj. rewrite zget_zset_ne by lia. apply H2, Hj.
Qed.

Lemma same_from_memset p a v n : 0 <= n <= p -> n <= zlen a -> same_from p a (memset a v n).
Proof.
  intros Hn Hl. split; [apply zlen_memset; lia|]. intros i Hi.
  rewrite zget_memset by lia. zcases. reflexivity.
Qed.

(** [memset] followed by the ones on the diagonal, common to both generators. *)
Lemma identity_top_spec a m k : 0 <= k <= m -> m * k <= zlen a ->
  let a' := for_range 0 k (fun i a => a.[k * i + i <- x01]) (memset a x00 (k * m)) in
  same_from (m * k) a a' /\
  is_mx m k a' (fun r c => if r <? k then delta r c else x00).
Proof.
  intros Hk Hl. cbv zeta. assert (Hkm : 0 <= k * m) by nia.
  pose (P := fun i a' => same_from (m * k) a a' /\
    is_mx m k a' (fun r c => if (r <? i) && (r =? c) then x01 else x00)).
  assert (H : P k (for_range 0 k (fun i a => a.[k * i + i <- x01]) (memset a x00 (k * m)))).
  { apply (for_range_ind P); [lia| |].
    - split; [apply same_from_memset; nia|]. split; [rewrite zlen_memset by nia; lia|].
      intros i j Hi Hj. pose proof (flat_index_range m k i j Hi Hj).
      rewrite zget_memset by lia. zcases; reflexivity.
    - intros i a' Hi [Hs Hm]. replace (k * i + i) with (i * k + i) by lia. split.
      + apply same_from_set; [exact Hs|]. apply flat_index_range; lia.
      + eapply is_mx_ext; [apply is_mx_set; [exact Hm|lia..]|].
        intros r c Hr Hc. cbv beta. zcases; reflexivity. }
  destruct H as [Hs Hm]. split; [exact Hs|]. eapply is_mx_ext; [exact Hm|].
  intros r c Hr Hc. unfold delta. zcases; reflexivity.
Qed.

(** The entries of the Cauchy generator. *)
Definition cauchy_gen (k : Z) : mx :=
  fun i j => if i <? k then delta i j else gf_inv (byte_of_Z (Z.lxor i j)).

Lemma gf_gen_cauchy_matrix1_spec a m k : 0 <= k <= m -> m * k <= zlen a ->
  same_from (m * k) a (gf_gen_cauchy_matrix1 a m k) /\
  is_mx m k (gf_gen_cauchy_matrix1 a m k) (cauchy_gen k).
Proof.
  intros Hk Hl. unfold gf_gen_cauchy_matrix1.
  destruct (identity_top_spec a m k Hk Hl) as [Hs0 Hm0]. revert Hs0 Hm0.
  generalize (for_range 0 k (fun i a => a.[k * i + i <- x01]) (memset a x00 (k * m))).
  intros a0 Hs0 Hm0.
  pose (G := fun i j (r c : Z) => if (k <=? r) && ((r <? i) || ((r =? i) && (c <? j)))
                      then cauchy_gen k r c else if r <? k then delta r c else x00).
  pose (P := fun i j '(a', p) => same_from (m * k) a a' /\ is_mx m k a' (G i j) /\ p = i * k + j).
  match goal with |- _ _ _ (fst ?X) /\ _ => assert (H : P m 0 X) end.
  { apply (for_range_ind (fun i st => P i 0 st)); [lia| |].
    - split; [exact Hs0|]. split; [|lia]. eapply is_mx_ext; [exact Hm0|].
      intros r c Hr Hc. unfold G. zcases; reflexivity.
    - intros i st Hi Hst.
      assert (Hrow : P i k (for_range 0 k (fun j '(a', p) =>
                (a'.[p <- gf_inv (byte_of_Z (Z.lxor i j))], p + 1)) st)).
      { apply (for_range_ind (fun j st => P i j st)); [lia|exact Hst|].
        intros j [a' p] Hj (Hs & Hm & ->). split; [|split; [|lia]].
        - apply same_from_set; [exact Hs|]. apply flat_index_range; lia.
        - eapply is_mx_ext; [apply is_mx_set; [exact Hm|lia..]|].
          intros r c Hr Hc. unfold G, cauchy_gen. zcases; subst; reflexivity || lia. }
      destruct (for_range 0 k _ st) as [a' p]. destruct Hrow as (Hs & Hm & ->).
      split; [exact Hs|]. split; [|lia]. eapply is_mx_ext; [exact Hm|].
      intros r c Hr Hc. unfold G. zcases; reflexivity. }
  match goal with |- _ _ _ (fst ?X) /\ _ => destruct X as [a' p] end.
  destruct H as (Hs & Hm & _). split; [exact Hs|]. eapply is_mx_ext; [exact Hm|].
  intros r c Hr Hc. unfold G, cauchy_gen. zcases; reflexivity.
Qed.

(** The entries of the Reed-Solomon generator: row [k + t] is the geometric
    progression of ratio [2^(t+1)]. *)
Definition rs_gen (k : Z) : mx :=
  fun i j => if i <? k then delta i j else bpow (bpow x02 (i - k + 1)) j.

Lemma gf_gen_rs_matrix1_spec a m k : 0 <= k <= m -> m * k <= zlen a ->
  same_from (m * k) a (gf_gen_rs_matrix1 a m k) /\
  is_mx m k (gf_gen_rs_matrix1 a m k) (rs_gen k).
Proof.
  intros Hk Hl. unfold gf_gen_rs_matrix1.
  destruct (identity_top_spec a m k Hk Hl) as [Hs0 Hm0]. revert Hs0 Hm0.
  generalize (for_range 0 k (fun i a => a.[k * i + i <- x01]) (memset a x00 (k * m))).
  intros a0 Hs0 Hm0.
  pose (G := fun i j (r c : Z) => if (k <=? r) && ((r <? i) || ((r =? i) && (c <? j)))
                      then rs_gen k r c else if r <? k then delta r c else x00).
  pose (P := fun i '(a', gen) => same_from (m * k) a a' /\ is_mx m k a' (G i 0) /\
                                 gen = bpow x02 (i - k + 1)).
  match goal with |- _ _ _ (fst ?X) /\ _ => assert (H : P m X) end.
  { apply (for_range_ind P); [lia| |].
    - split; [exact Hs0|]. split; [|rewrite Z.sub_diag; reflexivity]. eapply is_mx_ext; [exact Hm0|].
      intros r c Hr Hc. unfold G. zcases; reflexivity.
    - intros i [a1 gen] Hi (Hs1 & Hm1 & ->).
      pose (Q := fun j '(a', p) => same_from (m * k) a a' /\ is_mx m k a' (G i j) /\
                                   p = bpow (bpow x02 (i - k + 1)) j).
      match goal with |- context [let '(_, _) := ?X in _] => assert (Hrow : Q k X) end.
      { apply (for_range_ind Q); [lia|split; [exact Hs1|split; [exact Hm1|reflexivity]]|].
        intros j [a' p] Hj (Hs & Hm & ->). replace (k * i + j) with (i * k + j) by lia.
        split; [|split; [|rewrite (bpow_succ _ j) by lia; apply gf_mul_comm]].
        - apply same_from_set; [exact Hs|]. apply flat_index_range; lia.
        - eapply is_mx_ext; [apply is_mx_set; [exact Hm|lia..]|].
          intros r c Hr Hc. unfold G, rs_gen. zcases; subst; reflexivity || lia. }
      match goal with |- context [let '(_, _) := ?X in _] => destruct X as [a' p] end.
      destruct Hrow as (Hs & Hm & _).
      split; [exact Hs|]. split; [eapply is_mx_ext; [exact Hm|];
        intros r c Hr Hc; unfold G; zcases; reflexivity|].
      replace (i + 1 - k + 1) with (i - k + 1 + 1) by lia. rewrite (bpow_succ _ (i - k + 1)) by lia.
      apply gf_mul_comm. }
  match goal with |- _ _ _ (fst ?X) /\ _ => destruct X as [a' gen] end.
  destruct H as (Hs & Hm & _). split; [exact Hs|]. eapply is_mx_ext; [exact Hm|].
  intros r c Hr Hc. unfold G, rs_gen. zcases; reflexivity.
Qed.

(** The local coefficient of data block [i]. *)
Definition local_coef (k p i : Z) : byte := gf_inv (byte_of_Z (Z.lxor i (k + p))).

Lemma gf_gen_local_vector_spec a k p : 0 <= k <= zlen a ->
  forall i, 0 <= i < k -> (gf_gen_local_vector a k p).[i] = local_coef k p i.
Proof.
  intros Hk. unfold gf_gen_local_vector.
  pose (P := fun n b => zlen b = zlen a /\ forall i, 0 <= i < n -> b.[i] = local_coef k p i).
  assert (H : P k (for_range 0 k (fun i a => a.[i <- gf_inv (byte_of_Z (Z.lxor i (k + p)))]) a)).
  { apply (for_range_ind P); [lia|split; [reflexivity|lia]|].
    intros n b Hn [Hl Hb]. split; [rewrite zlen_zset; exact Hl|].
    intros i Hi. rewrite zget_zset by lia. zcases; [subst; reflexivity|apply Hb; lia]. }
  apply H.
Qed.

Lemma gf_mul_vect_matrix_spec v a d k : 0 <= k <= zlen d ->
  let r := gf_mul_vect_matrix v a d k in
  zlen r = zlen d /\ forall i, 0 <= i < k -> r.[i] = xsum k (fun j => v.[j] ⊗ a.[j * k + i]).
Proof.
  intros Hk. cbv zeta. unfold gf_mul_vect_matrix.
  pose (P := fun n b => zlen b = zlen d /\
               forall i, 0 <= i < n -> b.[i] = xsum k (fun j => v.[j] ⊗ a.[j * k + i])).
  apply (for_range_ind P); [lia|split; [reflexivity|lia]|].
  intros i b Hi [Hl Hb].
  pose (Q := fun n b' => zlen b' = zlen d /\ b'.[i] = xsum n (fun j => v.[j] ⊗ a.[j * k + i]) /\
               forall i', i' <> i -> b'.[i'] = b.[i']).
  match goal with |- P _ ?X => assert (H : Q k X) end.
  { apply (for_range_ind Q); [lia| |].
    - split; [rewrite zlen_zset; exact Hl|]. split; [rewrite zget_zset_eq by lia; reflexivity|].
      intros. rewrite zget_zset_ne by lia. reflexivity.
    - intros j b' Hj (Hl' & Hi' & Hf). split; [rewrite zlen_zset; exact Hl'|]. split.
      + rewrite zget_zset_eq, Hi', xsum_succ by lia. reflexivity.
      + intros i' Hne. rewrite zget_zset_ne by lia. apply Hf, Hne. }
  destruct H as (Hl' & Hi' & Hf). split; [exact Hl'|]. intros i' Hr.
  destruct (Z.eq_dec i' i) as [->|]; [exact Hi'|]. rewrite Hf by lia. apply Hb. lia.
Qed.
