(* ===== verification/EcKernel.v ===== *)
(** The erasure-coding kernels of [unilrc_encoder.cpp]: multiplication tables
    ([gf_vect_mul_init], both of its preprocessor branches), [ec_init_tables],
    the portable product [ec_encode_data_base], the dispatcher
    [ec_encode_data_avx2] and [xor_avx].

    The AVX2 routines themselves ([src/asm/*.asm], linked when
    [ENABLE_AVX2_ASM] is on) are a parameter: the class [Kernels] gives them a
    type and [KernelLaws] states what the assembly computes, byte by byte, in
    terms of the two 16-entry nibble tables.  That this equals the portable
    product is proved here, not assumed. *)
From S2P Require Import Prelude GF256 LinAlg GFMatrix.
From Stdlib Require Import Field.

Abbreviation block := (list byte) (only parsing).

(** * The assembly as an interface *)

Class Kernels := {
  (** the build option [ENABLE_AVX2_ASM] *)
  enable_avx2_asm : bool;
  (** [gf_vect_dot_prod_avx2] (rows = 1) to [gf_6vect_dot_prod_avx2] (rows = 6):
      rows, len, vec, g_tbls, buffs, dests *)
  dot_prod_avx2 : Z -> Z -> Z -> list byte -> list block -> list block -> list block;
  (** [xor_gen_avx(vects, len, array)]: the returned code and the array *)
  xor_gen_avx : Z -> Z -> list block -> Z * list block
}.

(** [c'] is [c] with the first [len] bytes of its first [rows] buffers
    overwritten by [f]. *)
Definition written (rows len : Z) (c c' : list block) (f : Z -> Z -> byte) : Prop :=
  zlen c' = zlen c /\
  forall l, 0 <= l < zlen c ->
    zlen c'.[l] = zlen c.[l] /\
    forall i, 0 <= i -> c'.[l].[i] = if (l <? rows) && (i <? len) then f l i else c.[l].[i].

(** The buffers the routines are called on: [rows] of them, [len] bytes each. *)
Definition buffers (rows len : Z) (c : list block) : Prop :=
  rows <= zlen c /\ forall l, 0 <= l < rows -> len <= zlen c.[l].

(** The product the assembly forms from the nibble tables of one coefficient. *)
Definition nibble_lookup (g_tbls : list byte) (off : Z) (b : byte) : byte :=
  g_tbls.[off + Z.land (byte_to_Z b) 15] ⊕ g_tbls.[off + 16 + Z.shiftr (byte_to_Z b) 4].

Class KernelLaws (K : Kernels) : Prop := {
  dot_prod_law : forall rows len vec g_tbls buffs dests,
    1 <= rows <= 6 -> 32 <= len -> 1 <= vec -> buffers rows len dests ->
    written rows len dests (dot_prod_avx2 rows len vec g_tbls buffs dests)
      (fun l i => xsum vec (fun j => nibble_lookup g_tbls ((l * vec + j) * 32) buffs.[j].[i]));
  xor_gen_law : forall vects len array,
    3 <= vects -> 0 <= len -> buffers vects len array ->
    zlen (snd (xor_gen_avx vects len array)) = zlen array /\
    (forall l, l <> vects - 1 -> (snd (xor_gen_avx vects len array)).[l] = array.[l]) /\
    zlen (snd (xor_gen_avx vects len array)).[vects - 1] = zlen array.[vects - 1] /\
    forall i, 0 <= i -> (snd (xor_gen_avx vects len array)).[vects - 1].[i] =
      if i <? len then xsum (vects - 1) (fun v => array.[v].[i]) else array.[vects - 1].[i]
}.

(** * Definitions *)

(** [(c << 1) ^ ((c & 0x80) ? 0x1d : 0)], "Mult by GF{2}", is [xtime]. *)

Definition le_bytes (n : nat) (v : Z) : list byte :=
  map (fun i => byte_of_Z (Z.shiftr v (8 * Z.of_nat i))) (seq 0 n).

(** The branch for 64-bit little-endian machines: four 64-bit stores. *)
Definition gf_vect_mul_init_64 (c : byte) (tbl : list byte) : list byte :=
  let u64 v := v mod 2 ^ 64 in
  let c2 := xtime c in
  let c4 := xtime c2 in
  let c8 := xtime c4 in
  let v1 := u64 (byte_to_Z c * 0x0100010001000100) in
  let v2 := u64 (byte_to_Z c2 * 0x0101000001010000) in
  let v4 := u64 (byte_to_Z c4 * 0x0101010100000000) in
  let v8 := u64 (byte_to_Z c8 * 0x0101010101010101) in
  let v4 := Z.lxor (Z.lxor v1 v2) v4 in
  let t0 := v4 in
  let t1 := Z.lxor v8 v4 in
  let c17 := xtime c8 in
  let c18 := xtime c17 in
  let c20 := xtime c18 in
  let c24 := xtime c20 in
  let v10 := u64 (byte_to_Z c17 * 0x0100010001000100) in
  let v20 := u64 (byte_to_Z c18 * 0x0101000001010000) in
  let v40 := u64 (byte_to_Z c20 * 0x0101010100000000) in
  let v80 := u64 (byte_to_Z c24 * 0x0101010101010101) in
  let v40 := Z.lxor (Z.lxor v10 v20) v40 in
  let t2 := v40 in
  let t3 := Z.lxor v80 v40 in
  le_bytes 8 t0 ++ le_bytes 8 t1 ++ le_bytes 8 t2 ++ le_bytes 8 t3 ++ zdrop 32 tbl.

(** The branch for other machines: 32 byte stores. *)
Definition gf_vect_mul_init_portable (c : byte) (tbl : list byte) : list byte :=
  let c2 := xtime c in
  let c4 := xtime c2 in
  let c8 := xtime c4 in
  let c3 := c2 ⊕ c in let c5 := c4 ⊕ c in let c6 := c4 ⊕ c2 in let c7 := c4 ⊕ c3 in
  let c9 := c8 ⊕ c in let c10 := c8 ⊕ c2 in let c11 := c8 ⊕ c3 in let c12 := c8 ⊕ c4 in
  let c13 := c8 ⊕ c5 in let c14 := c8 ⊕ c6 in let c15 := c8 ⊕ c7 in
  let c17 := xtime c8 in
  let c18 := xtime c17 in
  let c19 := c18 ⊕ c17 in
  let c20 := xtime c18 in
  let c21 := c20 ⊕ c17 in let c22 := c20 ⊕ c18 in let c23 := c20 ⊕ c19 in
  let c24 := xtime c20 in
  let c25 := c24 ⊕ c17 in let c26 := c24 ⊕ c18 in let c27 := c24 ⊕ c19 in
  let c28 := c24 ⊕ c20 in let c29 := c24 ⊕ c21 in let c30 := c24 ⊕ c22 in
  let c31 := c24 ⊕ c23 in
  [x00; c; c2; c3; c4; c5; c6; c7; c8; c9; c10; c11; c12; c13; c14; c15;
   x00; c17; c18; c19; c20; c21; c22; c23; c24; c25; c26; c27; c28; c29; c30; c31]
  ++ zdrop 32 tbl.

(** x86-64 takes the first branch. *)
Definition gf_vect_mul_init : byte -> list byte -> list byte := gf_vect_mul_init_64.

(** [gf_vect_mul_init( *a++, g_tbls); g_tbls += 32;] with the offset of
    [g_tbls] and the index into [a] as state. *)
Definition ec_init_tables (k rows : Z) (a g_tbls : list byte) : list byte :=
  fst (fst (for_range 0 rows (fun i st =>
    for_range 0 k (fun j '(tbls, off, p) =>
      (ztake off tbls ++ gf_vect_mul_init a.[p] (zdrop off tbls), off + 32, p + 1)) st)
    (g_tbls, 0, 0))).

Definition ec_encode_data_base (len srcs dests : Z) (v : list byte) (src dest : list block)
  : list block :=
  for_range 0 dests (fun l dest =>
    for_range 0 len (fun i dest =>
      let s := for_range 0 srcs (fun j s =>
                 s ⊕ gf_mul src.[j].[i] v.[j * 32 + l * srcs * 32 + 1]) x00 in
      dest.[l <- dest.[l].[i <- s]]) dest) dest.

Section Dispatch.
Context {K : Kernels}.

(** [while (rows >= 6)] and the [switch]; each round removes six rows. *)
Fixpoint ec_encode_rows (fuel : nat) (len k rows : Z) (g_tbls : list byte)
    (data coding : list block) : list block :=
  match fuel with
  | O => coding
  | S fuel' =>
      if rows >=? 6 then
        let coding := dot_prod_avx2 6 len k g_tbls data coding in
        ztake 6 coding ++
          ec_encode_rows fuel' len k (rows - 6) (zdrop (6 * k * 32) g_tbls) data (zdrop 6 coding)
      else if rows >=? 1 then dot_prod_avx2 rows len k g_tbls data coding
      else coding
  end.

Definition ec_encode_data_avx2 (len k rows : Z) (g_tbls : list byte) (data coding : list block)
  : list block :=
  if negb enable_avx2_asm then ec_encode_data_base len k rows g_tbls data coding
  else if len <? 32 then ec_encode_data_base len k rows g_tbls data coding
  else ec_encode_rows (S (Z.to_nat rows)) len k rows g_tbls data coding.

Definition encode_data (len k rows : Z) (matrix : list byte) (data coding : list block)
  : list block :=
  let g_tbls := zrepeat x00 (k * rows * 32) in
  let g_tbls := ec_init_tables k rows matrix g_tbls in
  ec_encode_data_avx2 len k rows g_tbls data coding.

(** [array[vects - 1]] receives the xor of the other buffers. *)
Definition xor_avx (vects len : Z) (array : list block) : Z * list block :=
  if enable_avx2_asm then xor_gen_avx vects len array
  else if (vects <=? 0) || (len <=? 0) then (0, array)
  else
    (0, for_range 0 len (fun i array =>
          let acc := for_range 0 (vects - 1) (fun v acc => acc ⊕ array.[v].[i]) x00 in
          array.[vects - 1 <- array.[vects - 1].[i <- acc]]) array).
End Dispatch.

(** * The multiplication tables *)

(** The two branches of the preprocessor agree on every coefficient. *)
Lemma gf_vect_mul_init_branches c tbl :
  gf_vect_mul_init_64 c tbl = gf_vect_mul_init_portable c tbl.
Proof.
  assert (H : forall c, bool_decide (gf_vect_mul_init_64 c [] = gf_vect_mul_init_portable c []) = true)
    by (apply (forall_bytes (fun c => _)); vm_compute; reflexivity).
  specialize (H c). apply bool_decide_eq_true in H.
  unfold gf_vect_mul_init_64, gf_vect_mul_init_portable in *. cbv zeta in *.
  change (zdrop 32 (@nil byte)) with (@nil byte) in H.
  rewrite !app_assoc in *. rewrite !app_nil_r in H. rewrite H. reflexivity.
Qed.

(** [c] times the low nibble [t], and [c] times the high nibble [t - 16]. *)
Definition tbl_entry (c : byte) (t : Z) : byte :=
  if t <? 16 then c ⊗ byte_of_Z t else c ⊗ byte_of_Z (Z.shiftl (t - 16) 4).

Lemma xtime_mul c : xtime c = x02 ⊗ c.
Proof. rewrite gf_mul_iter by discriminate. reflexivity. Qed.

(** The byte each entry multiplies [c] with. *)
Definition tbl_nibbles : list byte :=
  [x00; x01; x02; x03; x04; x05; x06; x07; x08; x09; x0a; x0b; x0c; x0d; x0e; x0f;
   x00; x10; x20; x30; x40; x50; x60; x70; x80; x90; xa0; xb0; xc0; xd0; xe0; xf0].

(** Every entry is linear in [c]: it is [c] times its value at [c = 1]. *)
Ltac linear_entry c :=
  match goal with
  | |- ?L = c ⊗ _ =>
      let F := eval pattern c in L in
      match F with ?f _ => transitivity (c ⊗ f x01); [cbv beta; ring|] end
  end; apply (f_equal (gf_mul c)); vm_compute; reflexivity.

Definition tbl32 (c : byte) : list byte := gf_vect_mul_init_portable c [].

Lemma gf_vect_mul_init_eq c tbl : gf_vect_mul_init c tbl = tbl32 c ++ zdrop 32 tbl.
Proof. unfold gf_vect_mul_init. rewrite gf_vect_mul_init_branches. reflexivity. Qed.

Lemma zlen_tbl32 c : zlen (tbl32 c) = 32.
Proof. reflexivity. Qed.

Lemma tbl32_nibbles c : tbl32 c = map (gf_mul c) tbl_nibbles.
Proof.
  unfold tbl32, gf_vect_mul_init_portable, tbl_nibbles. cbv zeta. rewrite !xtime_mul.
  cbn [map app]. repeat (apply (f_equal2 cons); [linear_entry c|]). reflexivity.
Qed.

Lemma tbl32_spec c t : 0 <= t < 32 -> (tbl32 c).[t] = tbl_entry c t.
Proof.
  intros Ht. rewrite tbl32_nibbles, zget_map by (cbn; lia).
  assert (H : forallb (fun t => Byte.eqb tbl_nibbles.[t]
            (if t <? 16 then byte_of_Z t else byte_of_Z (Z.shiftl (t - 16) 4))) (zseq 32) = true)
    by (vm_compute; reflexivity).
  apply (proj1 (forallb_forall _ _)) with (x := t) in H; [|apply in_zseq; lia].
  apply Byte.byte_dec_bl in H. rewrite H. unfold tbl_entry. destruct (t <? 16); reflexivity.
Qed.

(** [g] holds the tables of the [rows * k] coefficients [a]. *)
Definition is_tbls (n : Z) (a g : list byte) : Prop :=
  forall c t, 0 <= c < n -> 0 <= t < 32 -> g.[c * 32 + t] = tbl_entry a.[c] t.

Lemma ec_init_tables_fills k rows a g : 0 <= k -> 0 <= rows -> rows * k * 32 <= zlen g ->
  zlen (ec_init_tables k rows a g) = zlen g /\ is_tbls (rows * k) a (ec_init_tables k rows a g).
Proof.
  intros Hk Hr Hg. unfold ec_init_tables.
  pose (P := fun i j '(tbls, off, p) => p = i * k + j /\ off = 32 * p /\ zlen tbls = zlen g /\
               is_tbls p a tbls).
  match goal with |- _ /\ is_tbls _ _ (fst (fst ?X)) => assert (H : P rows 0 X) end.
  { apply (for_range_ind (fun i st => P i 0 st)); [lia| |].
    - split; [lia|]. split; [lia|]. split; [reflexivity|]. intros c t Hc. lia.
    - intros i st Hi Hst.
      assert (Hrow : P i k (for_range 0 k (fun j '(tbls, off, p) =>
        (ztake off tbls ++ gf_vect_mul_init a.[p] (zdrop off tbls), off + 32, p + 1)) st)).
      { apply (for_range_ind (fun j st => P i j st)); [lia|exact Hst|].
        intros j [[tbls off] p] Hj (Hp & Hoff & Hlen & Ht).
        assert (Hpr : 0 <= p < rows * k) by (subst p; apply flat_index_range; lia).
        assert (Htk : zlen (ztake off tbls) = off) by (unfold ztake; rewrite length_take; lia).
        rewrite gf_vect_mul_init_eq. split; [lia|]. split; [lia|]. split.
        - rewrite !length_app, !Nat2Z.inj_add, Htk, zlen_tbl32, !zlen_zdrop by lia.
          assert (p + 1 <= rows * k) by lia. lia.
        - intros c t Hc Ht'. rewrite zget_app by lia. rewrite Htk.
          destruct (Z.ltb_spec (c * 32 + t) off).
          + rewrite zget_ztake by lia. apply Ht; lia.
          + rewrite zget_app by lia. assert (c = p) as -> by lia.
            replace (p * 32 + t - off) with t by lia. rewrite zlen_tbl32. zcases. apply tbl32_spec. lia. }
      destruct (for_range 0 k _ st) as [[tbls off] p]. cbn in *. intuition lia. }
  match goal with |- _ /\ is_tbls _ _ (fst (fst ?X)) => destruct X as [[tbls off] p] end.
  cbn in *. destruct H as (Hp & _ & Hl & Ht). replace (rows * k) with p by lia. auto.
Qed.

Lemma ec_init_tables_spec k rows a g : 0 <= k -> 0 <= rows -> rows * k * 32 <= zlen g ->
  is_tbls (rows * k) a (ec_init_tables k rows a g).
Proof. intros. apply ec_init_tables_fills; assumption. Qed.

Lemma ec_init_tables_len k rows a g : 0 <= k -> 0 <= rows -> rows * k * 32 <= zlen g ->
  zlen (ec_init_tables k rows a g) = zlen g.
Proof. intros. apply ec_init_tables_fills; assumption. Qed.

(** * The matrix product *)

(** What every encoder and decoder computes: byte [i] of output [l] is the dot
    product of row [l] of the coefficients with byte [i] of the sources. *)
Definition gf_dot (k : Z) (a : list byte) (data : list block) (l i : Z) : byte :=
  xsum k (fun j => a.[l * k + j] ⊗ data.[j].[i]).

Lemma written_ext rows len c c' f g : written rows len c c' f ->
  (forall l i, 0 <= l < rows -> 0 <= i < len -> f l i = g l i) -> written rows len c c' g.
Proof.
  intros [Hl H] Hfg. split; [exact Hl|]. intros l Hlr. destruct (H l Hlr) as [H1 H2].
  split; [exact H1|]. intros i Hi. rewrite H2 by lia. zcases; try reflexivity. apply Hfg; lia.
Qed.

(** A loop nest that stores [f l i] into [dest[l][i]]. *)
Lemma store_loop_spec rows len (dest : list block) f : 0 <= rows -> 0 <= len ->
  buffers rows len dest ->
  written rows len dest
    (for_range 0 rows (fun l dest =>
       for_range 0 len (fun i dest => dest.[l <- dest.[l].[i <- f l i]]) dest) dest) f.
Proof.
  intros Hr Hlen [Hb1 Hb2].
  pose (W := fun l n (d : list block) => zlen d = zlen dest /\
    forall l', 0 <= l' < zlen dest -> zlen d.[l'] = zlen dest.[l'] /\
    forall i, 0 <= i -> d.[l'].[i] =
      if ((l' <? l) && (i <? len)) || ((l' =? l) && (i <? n)) then f l' i else dest.[l'].[i]).
  match goal with |- written _ _ _ ?X _ => assert (H : W rows 0 X) end.
  { apply (for_range_ind (fun l d => W l 0 d)); [lia| |].
    - split; [reflexivity|]. intros l' Hl'. split; [reflexivity|]. intros i Hi. zcases; reflexivity.
    - intros l d Hl Hd.
      match goal with |- W _ _ ?X => assert (Hin : W l len X) end.
      { apply (for_range_ind (fun n d => W l n d)); [lia|exact Hd|].
        intros n d' Hn [Hd1 Hd2]. specialize (Hb2 l Hl).
        destruct (Hd2 l ltac:(lia)) as [Hdl Hdv].
        split; [rewrite zlen_zset; exact Hd1|]. intros l' Hl'. rewrite zget_zset by lia.
        destruct (Z.eqb_spec l' l) as [->|Hne].
        - rewrite zlen_zset. split; [lia|]. intros i Hi. rewrite zget_zset by lia.
          rewrite Hdv by lia. zcases; subst; reflexivity || lia.
        - destruct (Hd2 l' Hl') as [Hl1 Hl2]. split; [exact Hl1|]. intros i Hi.
          rewrite Hl2 by lia. zcases; reflexivity. }
      destruct Hin as [H1 H2]. split; [exact H1|]. intros l' Hl'.
      destruct (H2 l' Hl') as [H3 H4]. split; [exact H3|]. intros i Hi. rewrite H4 by lia.
      zcases; reflexivity. }
  destruct H as [H1 H2]. split; [exact H1|]. intros l' Hl'. destruct (H2 l' Hl') as [H3 H4].
  split; [exact H3|]. intros i Hi. rewrite H4 by lia. zcases; reflexivity.
Qed.

Lemma ec_encode_data_base_spec len k rows a g data coding :
  0 <= len -> 0 <= k -> 0 <= rows -> is_tbls (rows * k) a g -> buffers rows len coding ->
  written rows len coding (ec_encode_data_base len k rows g data coding) (gf_dot k a data).
Proof.
  intros Hlen Hk Hr Hg Hb. unfold ec_encode_data_base.
  eapply written_ext; [apply store_loop_spec with (f := fun l i => for_range 0 k (fun j s =>
    s ⊕ gf_mul data.[j].[i] g.[j * 32 + l * k * 32 + 1]) x00); auto|].
  intros l i Hl Hi. apply (xsum_ext k (fun j => data.[j].[i] ⊗ g.[j * 32 + l * k * 32 + 1])).
  intros j Hj. replace (j * 32 + l * k * 32 + 1) with ((l * k + j) * 32 + 1) by lia.
  rewrite Hg by (try apply flat_index_range; lia). unfold tbl_entry. cbn [Z.ltb Z.compare].
  change (1 <? 16) with true. cbv iota. change (byte_of_Z 1) with x01. ring.
Qed.

(** The two nibble tables of a coefficient multiply by it. *)
Lemma nibble_split b :
  byte_of_Z (Z.land (byte_to_Z b) 15) ⊕ byte_of_Z (Z.shiftl (Z.shiftr (byte_to_Z b) 4) 4) = b.
Proof.
  assert (H : forall b, Byte.eqb (byte_of_Z (Z.land (byte_to_Z b) 15) ⊕
              byte_of_Z (Z.shiftl (Z.shiftr (byte_to_Z b) 4) 4)) b = true)
    by (apply (forall_bytes (fun b => _)); vm_compute; reflexivity).
  apply Byte.byte_dec_bl, H.
Qed.

Lemma nibble_lookup_spec n a g c b : is_tbls n a g -> 0 <= c < n ->
  nibble_lookup g (c * 32) b = a.[c] ⊗ b.
Proof.
  intros Hg Hc. unfold nibble_lookup. pose proof (byte_to_Z_range b) as Hb.
  assert (Hlo : 0 <= Z.land (byte_to_Z b) 15 < 16).
  { change 15 with (Z.ones 4). rewrite Z.land_ones by lia. apply Z.mod_pos_bound. lia. }
  assert (Hhi : 0 <= Z.shiftr (byte_to_Z b) 4 < 16).
  { rewrite Z.shiftr_div_pow2 by lia. split; [apply Z.div_pos; lia|].
    apply Z.div_lt_upper_bound; lia. }
  rewrite <- Z.add_assoc, !Hg by lia. unfold tbl_entry. zcases.
  replace (16 + Z.shiftr (byte_to_Z b) 4 - 16) with (Z.shiftr (byte_to_Z b) 4) by lia.
  rewrite <- gf_mul_bxor_r, nibble_split. reflexivity.
Qed.

Section Products.
Context {K : Kernels} {L : KernelLaws K}.

Lemma is_tbls_drop n m a g : 0 <= m -> is_tbls (m + n) a g ->
  is_tbls n (zdrop m a) (zdrop (m * 32) g).
Proof.
  intros Hm H c t Hc Ht. rewrite !zget_zdrop by lia.
  replace (m * 32 + (c * 32 + t)) with ((m + c) * 32 + t) by lia. apply H; lia.
Qed.

(** The assembly path: six rows at a time, then the remainder. *)
Lemma ec_encode_rows_spec fuel : forall len k rows a g data coding,
  32 <= len -> 1 <= k -> 0 <= rows < Z.of_nat fuel -> is_tbls (rows * k) a g ->
  buffers rows len coding ->
  written rows len coding (ec_encode_rows fuel len k rows g data coding) (gf_dot k a data).
Proof.
  induction fuel as [|fuel IH]; intros len k rows a g data coding Hlen Hk Hr Hg Hb; [lia|].
  assert (Hrow : forall m c, 0 <= m <= rows -> 1 <= m <= 6 -> buffers m len c ->
    written m len c (dot_prod_avx2 m len k g data c) (gf_dot k a data)).
  { intros m c Hm H6 Hbm. eapply written_ext; [apply dot_prod_law; auto; lia|].
    intros l i Hl Hi. apply xsum_ext. intros j Hj.
    apply (nibble_lookup_spec (rows * k) a g); [exact Hg|]. pose proof (flat_index_range rows k l j).
    lia. }
  cbn [ec_encode_rows]. destruct (Z.geb_spec rows 6) as [H6|H6].
  2: { destruct (Z.geb_spec rows 1); [apply Hrow; auto; lia|].
       split; [reflexivity|]. intros l Hl. split; [reflexivity|]. intros i Hi. zcases; reflexivity. }
  destruct Hb as [Hb1 Hb2].
  assert (Hb6 : buffers 6 len coding) by (split; [lia|intros; apply Hb2; lia]).
  destruct (Hrow 6 coding ltac:(lia) ltac:(lia) Hb6) as [Hc1 Hc2].
  set (c1 := dot_prod_avx2 6 len k g data coding) in *.
  destruct (IH len k (rows - 6) (zdrop (6 * k) a) (zdrop (6 * k * 32) g) data (zdrop 6 c1))
    as [Hd1 Hd2]; try lia.
  { apply is_tbls_drop; [lia|]. replace (6 * k + (rows - 6) * k) with (rows * k) by lia. exact Hg. }
  { split; [rewrite zlen_zdrop by lia; lia|]. intros l Hl. rewrite zget_zdrop by lia.
    destruct (Hc2 (6 + l) ltac:(lia)) as [-> _]. apply Hb2. lia. }
  rewrite zlen_zdrop in Hd1, Hd2 by lia.
  assert (Htk : zlen (ztake 6 c1) = 6) by (unfold ztake; rewrite length_take; lia).
  split; [rewrite length_app, Nat2Z.inj_add, Htk, Hd1; lia|].
  intros l Hl. rewrite zget_app, Htk by lia. destruct (Z.ltb_spec l 6) as [Hl6|Hl6].
  - rewrite zget_ztake by lia. destruct (Hc2 l Hl) as [H1 H2]. split; [exact H1|].
    intros i Hi. rewrite H2 by lia. zcases; reflexivity.
  - destruct (Hd2 (l - 6) ltac:(lia)) as [H1 H2]. rewrite zget_zdrop in H1, H2 by lia.
    replace (6 + (l - 6)) with l in H1, H2 by lia.
    destruct (Hc2 l Hl) as [H3 H4]. split; [congruence|]. intros i Hi. rewrite H2, H4 by lia.
    zcases; try reflexivity. apply xsum_ext. intros j Hj.
    rewrite zget_zdrop by nia. do 2 f_equal. lia.
Qed.

(** Portable and assembly paths compute the same product. *)
Lemma ec_encode_data_avx2_spec len k rows a g data coding :
  0 <= len -> 1 <= k -> 0 <= rows -> is_tbls (rows * k) a g -> buffers rows len coding ->
  written rows len coding (ec_encode_data_avx2 len k rows g data coding) (gf_dot k a data).
Proof.
  intros Hlen Hk Hr Hg Hb. unfold ec_encode_data_avx2.
  destruct (negb enable_avx2_asm); [apply ec_encode_data_base_spec; auto; lia|].
  destruct (Z.ltb_spec len 32); [apply ec_encode_data_base_spec; auto; lia|].
  apply ec_encode_rows_spec; auto; lia.
Qed.

Lemma encode_with_tables_spec len k rows a g0 data coding :
  0 <= len -> 1 <= k -> 0 <= rows -> rows * k * 32 <= zlen g0 -> buffers rows len coding ->
  written rows len coding
    (ec_encode_data_avx2 len k rows (ec_init_tables k rows a g0) data coding) (gf_dot k a data).
Proof.
  intros. apply ec_encode_data_avx2_spec; auto. apply ec_init_tables_spec; lia.
Qed.

Lemma encode_data_spec len k rows a data coding :
  0 <= len -> 1 <= k -> 0 <= rows -> buffers rows len coding ->
  written rows len coding (encode_data len k rows a data coding) (gf_dot k a data).
Proof.
  intros. apply encode_with_tables_spec; auto. rewrite zlen_zrepeat by nia. lia.
Qed.

(** [xor_avx] with at least two sources, whichever implementation is linked. *)
Lemma xor_avx_spec vects len array : 3 <= vects -> 0 <= len -> buffers vects len array ->
  let r := snd (xor_avx vects len array) in
  zlen r.[vects - 1] = zlen array.[vects - 1] /\
  forall i, 0 <= i -> r.[vects - 1].[i] =
    if i <? len then xsum (vects - 1) (fun v => array.[v].[i]) else array.[vects - 1].[i].
Proof.
  intros Hv Hlen [Hb1 Hb2]. cbv zeta. unfold xor_avx. destruct enable_avx2_asm.
  { apply xor_gen_law; auto. split; auto. }
  destruct (Z.leb_spec vects 0); [lia|].
  destruct (Z.leb_spec len 0); cbn [orb snd].
  { split; [reflexivity|]. intros i Hi. zcases. reflexivity. }
  pose (P := fun n (d : list block) => zlen d = zlen array /\
    (forall l, l <> vects - 1 -> d.[l] = array.[l]) /\ zlen d.[vects - 1] = zlen array.[vects - 1] /\
    forall i, 0 <= i -> d.[vects - 1].[i] =
      if i <? n then xsum (vects - 1) (fun v => array.[v].[i]) else array.[vects - 1].[i]).
  match goal with |- context [zlen (?X.[_])] => assert (H' : P len X) end.
  { specialize (Hb2 (vects - 1) ltac:(lia)).
    apply (for_range_ind P); [lia| |].
    - split; [reflexivity|]. split; [reflexivity|]. split; [reflexivity|].
      intros i Hi. zcases. reflexivity.
    - intros n d Hn (Hd1 & Hd2 & Hd3 & Hd4). split; [rewrite zlen_zset; exact Hd1|].
      split; [intros l Hl; rewrite zget_zset_ne by lia; apply Hd2, Hl|].
      rewrite zget_zset_eq by lia. split; [rewrite zlen_zset; exact Hd3|].
      intros i Hi. rewrite zget_zset, Hd4 by lia. zcases; subst; try reflexivity.
      apply (xsum_ext (vects - 1) (fun v => d.[v].[n])). intros v Hv'. rewrite Hd2 by lia. reflexivity. }
  destruct H' as (_ & _ & H1 & H2). split; assumption.
Qed.
End Products.

(** * An implementation of the interface

    The nibble-table product written with loops; it inhabits [Kernels] for
    either value of the build option. *)
#[export, refine] Instance nibble_kernels (asm : bool) : Kernels := {
  enable_avx2_asm := asm;
  dot_prod_avx2 := fun rows len vec g buffs dests =>
    for_range 0 rows (fun l dests => for_range 0 len (fun i dests =>
      dests.[l <- dests.[l].[i <-
        xsum vec (fun j => nibble_lookup g ((l * vec + j) * 32) buffs.[j].[i])]]) dests) dests;
  xor_gen_avx := fun vects len array =>
    if vects <=? 2 then (1, array)
    else (0, array.[vects - 1 <-
             map (fun i => xsum (vects - 1) (fun v => array.[v].[i])) (zseq len) ++
             zdrop len array.[vects - 1]])
}.
Proof. Defined.

#[export] Instance nibble_kernel_laws asm : KernelLaws (nibble_kernels asm).
Proof.
  constructor; cbn [dot_prod_avx2 xor_gen_avx nibble_kernels].
  - intros. apply (store_loop_spec rows len dests (fun l i => xsum vec (fun j =>
      nibble_lookup g_tbls ((l * vec + j) * 32) buffs.[j].[i]))); auto; lia.
  - intros vects len array Hv Hlen [Hb1 Hb2]. destruct (Z.leb_spec vects 2); [lia|]. cbn [snd].
    specialize (Hb2 (vects - 1) ltac:(lia)).
    rewrite zlen_zset, zget_zset_eq by lia. split; [reflexivity|].
    split; [intros l Hl; apply zget_zset_ne; lia|]. split.
    + rewrite length_app, Nat2Z.inj_add, length_map, zlen_seqZ, zlen_zdrop by lia. lia.
    + intros i Hi. rewrite zget_app, length_map, zlen_seqZ by lia.
      replace (Z.max 0 len) with len by lia. destruct (Z.ltb_spec i len).
      * rewrite zget_map, zget_zseq by (try rewrite zlen_seqZ; lia). reflexivity.
      * rewrite zget_zdrop by lia. f_equal. lia.
Qed.
