(* ===== verification/Groups.v ===== *)
(** The balanced gLRC groups: how [k] data and [r] global parity blocks (the
    payload) and [z] local parities are spread over [z] groups.
    Models the [glrc_*group*] functions of [unilrc_encoder.cpp] and
    [glrc_build_placement_groups], [glrc_failures_at_most_one_per_group],
    [glrc_block_label] of [glrc_repair_ilp.cpp]. *)
From S2P Require Import Prelude.

(** * Definitions *)

Definition glrc_payload_blocks_in_group (group_id k r z : Z) : Z :=
  if (z <=? 0) || (group_id <? 0) || (group_id >=? z) then 0
  else
    let total_payload := k + r in
    let base := total_payload ÷ z in
    let larger_group_count := Z.rem total_payload z in
    let first_larger_group := z - larger_group_count in
    base + (if (larger_group_count >? 0) && (group_id >=? first_larger_group) then 1 else 0).

Definition glrc_payload_group_id (payload_block_index k r z : Z) : Z :=
  let total_payload := k + r in
  if (z <=? 1) || (total_payload <=? 0) then 0
  else if payload_block_index <? 0 then 0
  else if payload_block_index >=? total_payload then z - 1
  else
    let base := total_payload ÷ z in
    let larger_group_count := Z.rem total_payload z in
    let smaller_group_count := z - larger_group_count in
    let smaller_payload_count := smaller_group_count * base in
    if (base >? 0) && (payload_block_index <? smaller_payload_count) then payload_block_index ÷ base
    else smaller_group_count + (payload_block_index - smaller_payload_count) ÷ (base + 1).

Definition glrc_data_group_id (data_block_index k r z : Z) : Z :=
  glrc_payload_group_id data_block_index k r z.

(** [payload_start] of the two functions below. *)
Definition payload_start_loop (group_id k r z : Z) : Z :=
  for_range 0 group_id (fun g s => s + glrc_payload_blocks_in_group g k r z) 0.

Definition glrc_data_blocks_in_group (group_id k r z : Z) : Z :=
  if (z <=? 0) || (group_id <? 0) || (group_id >=? z) then 0
  else
    let payload_start := payload_start_loop group_id k r z in
    let payload_end := payload_start + glrc_payload_blocks_in_group group_id k r z in
    Z.max 0 (Z.min payload_end k - payload_start).

Definition glrc_global_blocks_in_group (group_id k r z : Z) : Z :=
  if (z <=? 0) || (group_id <? 0) || (group_id >=? z) then 0
  else
    let payload_start := payload_start_loop group_id k r z in
    let payload_end := payload_start + glrc_payload_blocks_in_group group_id k r z in
    Z.max 0 (payload_end - Z.max payload_start k).

Definition glrc_fill_data_blocks_per_group (k r z : Z) : list Z :=
  map (fun i => glrc_data_blocks_in_group i k r z) (zseq z).

(** [groups[g].push_back(payload_block_id++)], then the group's local parity. *)
Definition glrc_build_placement_groups (k r z : Z) : list (list Z) :=
  fst (for_range 0 z (fun g '(groups, payload_block_id) =>
         let payload_count := glrc_payload_blocks_in_group g k r z in
         let '(group, payload_block_id) :=
           for_range 0 payload_count (fun _ '(group, id) => (group ++ [id], id + 1))
             ([], payload_block_id) in
         (groups ++ [group ++ [k + r + g]], payload_block_id)) ([], 0)).

(** The scan over the groups for the one that contains [fid]; [None] if there
    is none. *)
Fixpoint find_group (fid gi : Z) (groups : list (list Z)) : option Z :=
  match groups with
  | [] => None
  | g :: rest => if existsb (fun b => b =? fid) g then Some gi else find_group fid (gi + 1) rest
  end.

Fixpoint at_most_one_loop (groups : list (list Z)) (failed : list Z) (per_group : list Z) : bool :=
  match failed with
  | [] => true
  | fid :: rest =>
      match find_group fid 0 groups with
      | None => false
      | Some gi =>
          let per_group := per_group.[gi <- per_group.[gi] + 1] in
          if per_group.[gi] >? 1 then false else at_most_one_loop groups rest per_group
      end
  end.

Definition glrc_failures_at_most_one_per_group (k r z : Z) (failed_block_ids : list Z) : bool :=
  match failed_block_ids with
  | [] => false
  | _ =>
      let groups := glrc_build_placement_groups k r z in
      at_most_one_loop groups failed_block_ids (zrepeat 0 (zlen groups))
  end.

(** * The shape of the groups *)

Section Shape.
Context (k r z : Z) (Hk : 0 <= k) (Hr : 0 <= r) (Hz : 1 <= z).

Let base := (k + r) / z.
Let larger := (k + r) mod z.

(** First payload block of group [g]. *)
Definition payload_start (g : Z) : Z := g * base + Z.max 0 (g - (z - larger)).

Lemma base_larger : k + r = base * z + larger /\ 0 <= larger < z /\ 0 <= base.
Proof.
  unfold base, larger. pose proof (Z.div_mod (k + r) z ltac:(lia)).
  pose proof (Z.mod_pos_bound (k + r) z ltac:(lia)).
  pose proof (Z.div_pos (k + r) z ltac:(lia) ltac:(lia)). lia.
Qed.

Lemma payload_blocks_eq g : 0 <= g < z ->
  glrc_payload_blocks_in_group g k r z = payload_start (g + 1) - payload_start g.
Proof.
  intros Hg. unfold glrc_payload_blocks_in_group, payload_start.
  rewrite Z.quot_div_nonneg, Z.rem_mod_nonneg by lia. fold base larger.
  pose proof base_larger. zcases.
Qed.

Lemma payload_start_0 : payload_start 0 = 0.
Proof. unfold payload_start. pose proof base_larger. lia. Qed.

Lemma payload_start_z : payload_start z = k + r.
Proof. unfold payload_start. pose proof base_larger. lia. Qed.

Lemma payload_start_mono g h : g <= h -> payload_start g <= payload_start h.
Proof. intros. unfold payload_start. pose proof base_larger. nia. Qed.

Lemma payload_start_step g : z <= k + r -> 0 <= g -> payload_start g < payload_start (g + 1).
Proof.
  intros Hzk Hg. unfold payload_start. pose proof base_larger as (H1 & H2 & H3).
  assert (1 <= base) by (apply Z.div_le_lower_bound; lia). nia.
Qed.

Lemma payload_start_loop_eq g : 0 <= g <= z -> payload_start_loop g k r z = payload_start g.
Proof.
  intros Hg. unfold payload_start_loop.
  apply (for_range_ind (fun g s => s = payload_start g)); [lia|symmetry; apply payload_start_0|].
  intros i s Hi ->. rewrite payload_blocks_eq by lia. lia.
Qed.

(** [glrc_payload_group_id] finds the group whose range holds the block. *)
Lemma payload_group_id_spec b : 0 <= b < k + r ->
  let g := glrc_payload_group_id b k r z in
  0 <= g < z /\ payload_start g <= b < payload_start (g + 1).
Proof.
  intros Hb. cbv zeta. unfold glrc_payload_group_id, payload_start.
  pose proof base_larger as (Hd & Hl & Hbase).
  destruct (Z.leb_spec z 1) as [Hz1|Hz1]; cbn [orb].
  { assert (z = 1) by lia. assert (larger = 0) by lia. subst z. lia. }
  destruct (Z.leb_spec (k + r) 0); [lia|]. destruct (Z.ltb_spec b 0); [lia|].
  destruct (Z.geb_spec b (k + r)); [lia|].
  rewrite Z.quot_div_nonneg, Z.rem_mod_nonneg by lia. fold base larger.
  destruct (Z.gtb_spec base 0) as [Hb0|Hb0]; cbn [andb];
    [destruct (Z.ltb_spec b ((z - larger) * base)) as [Hsm|Hsm]|].
  - rewrite Z.quot_div_nonneg by lia.
    pose proof (Z.div_mod b base ltac:(lia)). pose proof (Z.mod_pos_bound b base ltac:(lia)).
    assert (b / base < z - larger) by (apply Z.div_lt_upper_bound; lia).
    assert (0 <= b / base) by (apply Z.div_pos; lia). nia.
  - rewrite Z.quot_div_nonneg by nia. set (q := (b - (z - larger) * base) / (base + 1)).
    pose proof (Z.div_mod (b - (z - larger) * base) (base + 1) ltac:(lia)) as Hq. fold q in Hq.
    pose proof (Z.mod_pos_bound (b - (z - larger) * base) (base + 1) ltac:(lia)).
    assert (0 <= q) by (apply Z.div_pos; lia).
    assert (q < larger) by (apply Z.div_lt_upper_bound; nia). nia.
  - assert (base = 0) as E by lia. rewrite E in *.
    replace ((z - larger) * 0) with 0 by lia. change (0 + 1) with 1.
    rewrite Z.sub_0_r, Z.quot_1_r. lia.
Qed.

Lemma payload_group_id_unique b g : 0 <= b < k + r -> 0 <= g < z ->
  payload_start g <= b < payload_start (g + 1) -> glrc_payload_group_id b k r z = g.
Proof.
  intros Hb Hg Hin. destruct (payload_group_id_spec b Hb) as [Hr' Hs].
  set (g' := glrc_payload_group_id b k r z) in *.
  destruct (Z.lt_trichotomy g' g) as [H|[H|H]]; [|exact H|].
  - pose proof (payload_start_mono (g' + 1) g ltac:(lia)). lia.
  - pose proof (payload_start_mono (g + 1) g' ltac:(lia)). lia.
Qed.

Lemma group_fill_loop n id : 0 <= n ->
  for_range 0 n (fun _ '(group, id) => (group ++ [id], id + 1)) (([] : list Z), id) =
  (seqZ id n, id + n).
Proof.
  intros Hn. apply (for_range_ind (fun n st => st = (seqZ id n, id + n))); [lia| |].
  - rewrite Z.add_0_r. reflexivity.
  - intros i st Hi ->. rewrite seqZ_app by lia. f_equal. lia.
Qed.

(** Group [g] is its payload range followed by its local parity. *)
Lemma placement_groups_spec :
  zlen (glrc_build_placement_groups k r z) = z /\
  forall g, 0 <= g < z -> (glrc_build_placement_groups k r z).[g] =
    seqZ (payload_start g) (payload_start (g + 1) - payload_start g) ++ [k + r + g].
Proof.
  unfold glrc_build_placement_groups.
  pose (P := fun n '(groups, id) => id = payload_start n /\ zlen groups = n /\
    forall g, 0 <= g < n -> groups.[g] =
      seqZ (payload_start g) (payload_start (g + 1) - payload_start g) ++ [k + r + g]).
  match goal with |- context [fst ?X] => assert (H : P z X) end.
  { apply (for_range_ind P); [lia| |].
    - split; [symmetry; apply payload_start_0|]. split; [reflexivity|]. intros. lia.
    - intros n [groups id] Hn (-> & Hl & Hg). rewrite payload_blocks_eq by lia.
      pose proof (payload_start_mono n (n + 1) ltac:(lia)).
      rewrite group_fill_loop by lia. split; [lia|].
      rewrite length_app. cbn [length]. split; [lia|]. intros g Hgn.
      rewrite zget_app by lia. destruct (Z.ltb_spec g (zlen groups)).
      + apply Hg. lia.
      + assert (g = n) as -> by lia. replace (n - zlen groups) with 0 by lia. reflexivity. }
  match goal with |- context [fst ?X] => destruct X as [groups id] end.
  destruct H as (_ & H1 & H2). split; assumption.
Qed.

Lemma in_placement_group g b : 0 <= g < z ->
  In b (glrc_build_placement_groups k r z).[g] <->
  payload_start g <= b < payload_start (g + 1) \/ b = k + r + g.
Proof.
  intros Hg. destruct placement_groups_spec as [_ H]. rewrite H by lia.
  rewrite in_app_iff, <- list_elem_of_In, elem_of_seqZ. cbn [In]. lia.
Qed.

(** The group of a block of the stripe. *)
Definition block_group (b : Z) : Z :=
  if b <? k + r then glrc_payload_group_id b k r z else b - (k + r).

(** The groups partition the stripe: a block is in exactly one group. *)
Lemma placement_group_iff g b : 0 <= b < k + r + z -> 0 <= g < z ->
  In b (glrc_build_placement_groups k r z).[g] <-> block_group b = g.
Proof.
  intros Hb Hg. rewrite in_placement_group by exact Hg. unfold block_group.
  pose proof (payload_start_mono 0 g ltac:(lia)). rewrite payload_start_0 in *.
  pose proof (payload_start_mono (g + 1) z ltac:(lia)). rewrite payload_start_z in *.
  destruct (Z.ltb_spec b (k + r)).
  - split.
    + intros [Hin|Hin]; [|lia]. apply payload_group_id_unique; lia.
    + intros <-. left. apply payload_group_id_spec. lia.
  - lia.
Qed.

Lemma block_group_range b : 0 <= b < k + r + z -> 0 <= block_group b < z.
Proof.
  intros Hb. unfold block_group. destruct (Z.ltb_spec b (k + r)); [|lia].
  apply payload_group_id_spec. lia.
Qed.

Lemma placement_group_range g b : 0 <= g < z ->
  In b (glrc_build_placement_groups k r z).[g] -> 0 <= b < k + r + z.
Proof.
  intros Hg Hin. apply in_placement_group in Hin; [|exact Hg].
  pose proof (payload_start_mono 0 g ltac:(lia)). rewrite payload_start_0 in *.
  pose proof (payload_start_mono (g + 1) z ltac:(lia)). rewrite payload_start_z in *. lia.
Qed.

Lemma placement_group_nodup g : 0 <= g < z -> NoDup (glrc_build_placement_groups k r z).[g].
Proof.
  intros Hg. destruct placement_groups_spec as [_ H]. rewrite H by lia.
  pose proof (payload_start_mono (g + 1) z ltac:(lia)). rewrite payload_start_z in *.
  apply NoDup_app. split; [apply NoDup_seqZ|]. split; [|apply NoDup_singleton].
  intros b Hb%elem_of_seqZ Hb'. apply list_elem_of_singleton in Hb'. lia.
Qed.
End Shape.
