(* ===== verification/Codes.v ===== *)
(** Generator matrices and encoders of [unilrc_encoder.cpp]: UniLRC, Azure-LRC,
    Optimal-LRC, Uniform-LRC, gLRC and RS, with their partial encoders. *)
From S2P Require Import Prelude GF256 LinAlg GFMatrix EcKernel Groups.
From Stdlib Require Import Field.

(** * Generator matrices *)

(** Fresh storage, [new unsigned char[n]]; every caller overwrites it. *)
Definition new_bytes (n : Z) : list byte := zrepeat x00 n.

Definition glrc_local_block_coefficient (block_id k r : Z) : byte :=
  if (block_id >=? 0) && (block_id <? k) then gf_inv (byte_of_Z (Z.lxor block_id (k + r)))
  else x01.

(** [encode_matrix[(m + row) * k + i] = v(i)] with [row = i / (k / z)]. *)
Definition fill_local_rows (k m z : Z) (v : Z -> byte) (a : list byte) : list byte :=
  for_range 0 k (fun i a => let row := i ÷ (k ÷ z) in a.[(m + row) * k + i <- v i]) a.

Definition gen_unilrc_matrix (encode_matrix : list byte) (k r z : Z) : list byte :=
  let m := k + r in
  let a := memset encode_matrix x00 ((m + z) * k) in
  let a := gf_gen_rs_matrix1 a m k in
  let a := fill_local_rows k m z (fun _ => x01) a in
  for_range 0 z (fun i a =>
    for_range 0 k (fun j a =>
      for_range 0 (r ÷ z) (fun l a =>
        a.[(m + i) * k + j <- a.[(m + i) * k + j] ⊕ a.[(k + (i * r) ÷ z + l) * k + j]]) a) a) a.

Definition gen_azure_lrc_matrix (encode_matrix : list byte) (k r z : Z) : list byte :=
  let m := k + r in
  let a := memset encode_matrix x00 ((m + z) * k) in
  let a := gf_gen_rs_matrix1 a m k in
  fill_local_rows k m z (fun _ => x01) a.

Definition gen_optimal_lrc_matrix (encode_matrix : list byte) (k r z : Z) : list byte :=
  let m := k + r in
  let a := memset encode_matrix x00 ((m + z) * k) in
  let a := gf_gen_cauchy_matrix1 a m k in
  let local_vector := gf_gen_local_vector (new_bytes k) k r in
  let a := fill_local_rows k m z (fun i => local_vector.[i]) a in
  for_range 0 z (fun i a =>
    for_range 0 k (fun j a =>
      for_range 0 r (fun l a =>
        a.[(m + i) * k + j <- a.[(m + i) * k + j] ⊕ a.[(k + l) * k + j]]) a) a) a.

Definition gen_glrc_matrix (encode_matrix : list byte) (k r z : Z) : list byte :=
  let m := k + r in
  let a := memset encode_matrix x00 ((m + z) * k) in
  let a := gf_gen_cauchy_matrix1 a m k in
  let local_vector := gf_gen_local_vector (new_bytes k) k r in
  let a := for_range 0 k (fun j a =>
             let row := glrc_data_group_id j k r z in
             a.[(m + row) * k + j <- local_vector.[j]]) a in
  for_range 0 r (fun l a =>
    let group_id := glrc_payload_group_id (k + l) k r z in
    for_range 0 k (fun j a =>
      a.[(m + group_id) * k + j <- a.[(m + group_id) * k + j] ⊕ a.[(k + l) * k + j]]) a) a.

Definition gen_uniform_lrc_matrix (encode_matrix : list byte) (k r z : Z) : list byte :=
  gen_glrc_matrix encode_matrix k r z.

(** * Encoders *)

Section Encoders.
Context {K : Kernels}.

(** [memset(parity_ptrs[i], 0, block_size)] for the first [rows] buffers. *)
Definition clear_parities (rows block_size : Z) (parity_ptrs : list block) : list block :=
  for_range 0 rows (fun i p => p.[i <- memset p.[i] x00 block_size]) parity_ptrs.

(** The common tail of the encoders: tables for the parity rows of
    [encode_matrix], then the product. *)
Definition encode_rows (k rows block_size : Z) (encode_matrix : list byte)
    (data_ptrs parity_ptrs : list block) : list block :=
  let parity_ptrs := clear_parities rows block_size parity_ptrs in
  let g_tbls := ec_init_tables k rows (zdrop (k * k) encode_matrix) (new_bytes (k * rows * 32)) in
  ec_encode_data_avx2 block_size k rows g_tbls data_ptrs parity_ptrs.

(** [memcpy(sub_matrix + i * n, encode_matrix + (k + i) * k, n)] for the first
    [n] columns of the parity rows. *)
Definition sub_matrix (k rows data_block_num : Z) (encode_matrix : list byte) : list byte :=
  for_range 0 rows (fun i sub =>
    for_range 0 data_block_num (fun c sub =>
      sub.[i * data_block_num + c <- encode_matrix.[(k + i) * k + c]]) sub)
    (new_bytes (rows * data_block_num)).

Definition partial_encode_rows (k rows data_block_num block_size : Z) (encode_matrix : list byte)
    (data_ptrs parity_ptrs : list block) : list block :=
  let parity_ptrs := clear_parities rows block_size parity_ptrs in
  let g_tbls := ec_init_tables data_block_num rows (sub_matrix k rows data_block_num encode_matrix)
                  (new_bytes (data_block_num * rows * 32)) in
  ec_encode_data_avx2 block_size data_block_num rows g_tbls data_ptrs parity_ptrs.

Definition encode_rs (k r z : Z) (data_ptrs parity_ptrs : list block) (block_size : Z) :=
  let m := k + r in
  encode_rows k r block_size (gf_gen_rs_matrix1 (new_bytes (m * k)) m k) data_ptrs parity_ptrs.

Definition partial_encode_rs (k r z data_block_num : Z) (data_ptrs parity_ptrs : list block)
    (block_size : Z) :=
  let m := k + r in
  partial_encode_rows k r data_block_num block_size
    (gf_gen_rs_matrix1 (new_bytes (m * k)) m k) data_ptrs parity_ptrs.

Definition encode_unilrc (k r z : Z) (data_ptrs parity_ptrs : list block) (block_size : Z) :=
  let m := k + r in
  encode_rows k (r + z) block_size (gen_unilrc_matrix (new_bytes ((m + z) * k)) k r z)
    data_ptrs parity_ptrs.

Definition partial_encode_unilrc (k r z data_block_num : Z) (data_ptrs parity_ptrs : list block)
    (block_size : Z) :=
  let m := k + r in
  partial_encode_rows k (r + z) data_block_num block_size
    (gen_unilrc_matrix (new_bytes ((m + z) * k)) k r z) data_ptrs parity_ptrs.

Definition encode_azure_lrc (k r z : Z) (data_ptrs parity_ptrs : list block) (block_size : Z) :=
  let m := k + r in
  encode_rows k (r + z) block_size (gen_azure_lrc_matrix (new_bytes ((m + z) * k)) k r z)
    data_ptrs parity_ptrs.

Definition partial_encode_azure_lrc (k r z data_block_num : Z)
    (data_ptrs parity_ptrs : list block) (block_size : Z) :=
  let m := k + r in
  partial_encode_rows k (r + z) data_block_num block_size
    (gen_azure_lrc_matrix (new_bytes ((m + z) * k)) k r z) data_ptrs parity_ptrs.

Definition encode_optimal_lrc (k r z : Z) (data_ptrs parity_ptrs : list block) (block_size : Z) :=
  let m := k + r in
  encode_rows k (r + z) block_size (gen_optimal_lrc_matrix (new_bytes ((m + z) * k)) k r z)
    data_ptrs parity_ptrs.

Definition partial_encode_optimal_lrc (k r z data_block_num : Z)
    (data_ptrs parity_ptrs : list block) (block_size : Z) :=
  let m := k + r in
  partial_encode_rows k (r + z) data_block_num block_size
    (gen_optimal_lrc_matrix (new_bytes ((m + z) * k)) k r z) data_ptrs parity_ptrs.

Definition encode_uniform_lrc (k r z : Z) (data_ptrs parity_ptrs : list block) (block_size : Z) :=
  let m := k + r in
  encode_rows k (r + z) block_size (gen_uniform_lrc_matrix (new_bytes ((m + z) * k)) k r z)
    data_ptrs parity_ptrs.

Definition partial_encode_uniform_lrc (k r z data_block_num : Z)
    (data_ptrs parity_ptrs : list block) (block_size : Z) :=
  let m := k + r in
  partial_encode_rows k (r + z) data_block_num block_size
    (gen_uniform_lrc_matrix (new_bytes ((m + z) * k)) k r z) data_ptrs parity_ptrs.

Definition encode_glrc (k r z : Z) (data_ptrs parity_ptrs : list block) (block_size : Z) :=
  let m := k + r in
  encode_rows k (r + z) block_size (gen_glrc_matrix (new_bytes ((m + z) * k)) k r z)
    data_ptrs parity_ptrs.

Definition partial_encode_glrc (k r z data_block_num : Z) (data_ptrs parity_ptrs : list block)
    (block_size : Z) :=
  let m := k + r in
  partial_encode_rows k (r + z) data_block_num block_size
    (gen_glrc_matrix (new_bytes ((m + z) * k)) k r z) data_ptrs parity_ptrs.
End Encoders.

(** * What the generator matrices contain *)

(** One store per column, in row [m + rho i]. *)
Lemma fill_rows_spec k n (rho : Z -> Z) (v : Z -> byte) a M :
  0 <= k -> (forall i, 0 <= i < k -> 0 <= rho i < n) -> is_mx n k a M ->
  is_mx n k (for_range 0 k (fun i a => a.[rho i * k + i <- v i]) a)
    (fun i j => if i =? rho j then v j else M i j).
Proof.
  intros Hk Hrho HM.
  pose (P := fun n' a => is_mx n k a (fun i j => if (j <? n') && (i =? rho j) then v j else M i j)).
  assert (H : P k (for_range 0 k (fun i a => a.[rho i * k + i <- v i]) a)).
  { apply (for_range_ind P); [lia| |].
    - eapply is_mx_ext; [exact HM|]. intros i j Hi Hj. zcases; reflexivity.
    - intros c a' Hc Ha. specialize (Hrho c Hc).
      eapply is_mx_ext; [apply is_mx_set; [exact Ha|lia..]|].
      intros i j Hi Hj. cbv beta. destruct (Z.eq_dec j c) as [->|]; zcases; subst; reflexivity || lia. }
  eapply is_mx_ext; [exact H|]. intros i j Hi Hj. zcases; reflexivity.
Qed.

(** [a[i * k + j] ^= a[rw(l) * k + j]] for [l < R]: row [i] accumulates rows. *)
Lemma xor_cell_spec n k R i j (rw : Z -> Z) a M :
  0 <= R -> 0 <= i < n -> 0 <= j < k ->
  (forall l, 0 <= l < R -> 0 <= rw l < n /\ rw l <> i) -> is_mx n k a M ->
  is_mx n k (for_range 0 R (fun l a => a.[i * k + j <- a.[i * k + j] ⊕ a.[rw l * k + j]]) a)
    (fun i' j' => if (i' =? i) && (j' =? j) then M i j ⊕ xsum R (fun l => M (rw l) j) else M i' j').
Proof.
  intros HR Hi Hj Hrw HM.
  apply (for_range_ind (fun n' a => is_mx n k a (fun i' j' =>
    if (i' =? i) && (j' =? j) then M i j ⊕ xsum n' (fun l => M (rw l) j) else M i' j'))); [lia| |].
  - eapply is_mx_ext; [exact HM|]. intros i' j' Hi' Hj'. rewrite xsum_0 by lia.
    zcases; subst; rewrite ?bxor_0_r; reflexivity.
  - intros l a' Hl Ha. destruct (Hrw l Hl) as [Hr1 Hr2]. mx_get.
    eapply is_mx_ext; [apply is_mx_set; [exact Ha|lia..]|].
    intros i' j' Hi' Hj'. cbv beta. rewrite !Z.eqb_refl. rewrite xsum_succ by lia.
    destruct (Z.eqb_spec (rw l) i); [contradiction|]. cbn [andb].
    destruct (Z.eqb_spec i' i); cbn [andb]; [|reflexivity].
    destruct (Z.eqb_spec j' j); [|reflexivity]. ring.
Qed.

(** The triple loop that adds the rows [rw i l] to the local row [m + i]. *)
Lemma add_rows_spec m z k R (rw : Z -> Z -> Z) a M :
  0 <= k -> 0 <= z -> 0 <= R -> 0 <= m ->
  (forall i l, 0 <= i < z -> 0 <= l < R -> 0 <= rw i l < m) -> is_mx (m + z) k a M ->
  is_mx (m + z) k
    (for_range 0 z (fun i a => for_range 0 k (fun j a => for_range 0 R (fun l a =>
       a.[(m + i) * k + j <- a.[(m + i) * k + j] ⊕ a.[rw i l * k + j]]) a) a) a)
    (fun i j => if i <? m then M i j else M i j ⊕ xsum R (fun l => M (rw (i - m) l) j)).
Proof.
  intros Hk Hz HR Hm Hrw HM.
  pose (G := fun n c (i j : Z) => if (m <=? i) && ((i <? m + n) || ((i =? m + n) && (j <? c)))
               then M i j ⊕ xsum R (fun l => M (rw (i - m) l) j) else M i j).
  apply is_mx_ext with (M := G z 0).
  2: { intros i j Hi Hj. unfold G. zcases; reflexivity. }
  apply (for_range_ind (fun n a => is_mx (m + z) k a (G n 0))); [lia| |].
  - eapply is_mx_ext; [exact HM|]. intros i j Hi Hj. unfold G. zcases; reflexivity.
  - intros n a1 Hn Ha1. apply is_mx_ext with (M := G n k).
    2: { intros i j Hi Hj. unfold G. zcases; reflexivity. }
    apply (for_range_ind (fun c a => is_mx (m + z) k a (G n c))); [lia|exact Ha1|].
    intros c a2 Hc Ha2. eapply is_mx_ext.
    { apply xor_cell_spec with (M := G n c); [lia..| |exact Ha2].
      intros l Hl. specialize (Hrw n l Hn Hl). lia. }
    intros i j Hi Hj. cbv beta.
    assert (HG : xsum R (fun l => G n c (rw n l) c) = xsum R (fun l => M (rw n l) c)).
    { apply xsum_ext. intros l Hl. specialize (Hrw n l Hn Hl). unfold G. zcases; reflexivity. }
    rewrite HG. unfold G. zcases; subst; try reflexivity.
    replace (m + n - m) with n by lia. reflexivity.
Qed.

(** The generators that start from [memset] and one of the two base matrices. *)
Lemma is_mx_widen m n k a b M : 0 <= k -> 0 <= m <= n -> n * k <= zlen a ->
  (forall i j, m <= i < n -> 0 <= j < k -> a.[i * k + j] = x00) ->
  same_from (m * k) a b -> is_mx m k b M ->
  is_mx n k b (fun i j => if i <? m then M i j else x00).
Proof.
  intros Hk Hm Hl Hz [Hs1 Hs2] [_ HM]. split; [lia|]. intros i j Hi Hj.
  destruct (Z.ltb_spec i m); [apply HM; lia|]. rewrite Hs2 by nia. apply Hz; lia.
Qed.

Lemma memset_zero_cells n k (a : list byte) : 0 <= n -> 0 <= k -> n * k <= zlen a ->
  forall i j, 0 <= i < n -> 0 <= j < k -> (memset a x00 (n * k)).[i * k + j] = x00.
Proof.
  intros Hn Hk Hl i j Hi Hj. pose proof (flat_index_range n k i j Hi Hj).
  rewrite zget_memset by nia. zcases. reflexivity.
Qed.

(** Entry [(i, j)] of the gLRC generator: the Cauchy generator on top; local
    parity [g] combines the data blocks of its group, weighted by the local
    vector, with the global parities of its group. *)
Definition glrc_gen (k r z : Z) : mx := fun i j =>
  if i <? k + r then cauchy_gen k i j
  else (if glrc_data_group_id j k r z =? i - (k + r) then local_coef k r j else x00) ⊕
       xsum r (fun l => if glrc_payload_group_id (k + l) k r z =? i - (k + r)
                        then cauchy_gen k (k + l) j else x00).

Section Generators.
Context (k r z : Z) (Hk : 1 <= k) (Hr : 0 <= r) (Hz : 1 <= z).

Lemma local_vector_spec i : 0 <= i < k ->
  (gf_gen_local_vector (new_bytes k) k r).[i] = local_coef k r i.
Proof.
  intros Hi. apply gf_gen_local_vector_spec; [|lia]. unfold new_bytes. rewrite zlen_zrepeat; lia.
Qed.

Lemma cauchy_base_spec a : (k + r + z) * k <= zlen a ->
  is_mx (k + r + z) k (gf_gen_cauchy_matrix1 (memset a x00 ((k + r + z) * k)) (k + r) k)
    (fun i j => if i <? k + r then cauchy_gen k i j else x00).
Proof.
  intros Hl. assert (Hlm : zlen (memset a x00 ((k + r + z) * k)) = zlen a)
    by (apply zlen_memset; nia).
  destruct (gf_gen_cauchy_matrix1_spec (memset a x00 ((k + r + z) * k)) (k + r) k) as [Hs HM];
    [lia|nia|].
  eapply is_mx_widen; [lia|lia| |  |exact Hs|exact HM]; [lia|].
  intros i j Hi Hj. apply memset_zero_cells; lia || nia.
Qed.

Lemma rs_base_spec a : (k + r + z) * k <= zlen a ->
  is_mx (k + r + z) k (gf_gen_rs_matrix1 (memset a x00 ((k + r + z) * k)) (k + r) k)
    (fun i j => if i <? k + r then rs_gen k i j else x00).
Proof.
  intros Hl. assert (Hlm : zlen (memset a x00 ((k + r + z) * k)) = zlen a)
    by (apply zlen_memset; nia).
  destruct (gf_gen_rs_matrix1_spec (memset a x00 ((k + r + z) * k)) (k + r) k) as [Hs HM];
    [lia|nia|].
  eapply is_mx_widen; [lia|lia| |  |exact Hs|exact HM]; [lia|].
  intros i j Hi Hj. apply memset_zero_cells; lia || nia.
Qed.

(** One global parity row added to the local row of its group. *)
Lemma glrc_add_global a M g s : 0 <= g < k + r + z -> 0 <= s < k + r + z -> s <> g ->
  is_mx (k + r + z) k a M ->
  is_mx (k + r + z) k
    (for_range 0 k (fun j a => a.[g * k + j <- a.[g * k + j] ⊕ a.[s * k + j]]) a)
    (fun i j => if i =? g then M i j ⊕ M s j else M i j).
Proof.
  intros Hg Hs Hne HM.
  pose (P := fun c a => is_mx (k + r + z) k a
               (fun i j => if (i =? g) && (j <? c) then M i j ⊕ M s j else M i j)).
  assert (H : P k (for_range 0 k (fun j a => a.[g * k + j <- a.[g * k + j] ⊕ a.[s * k + j]]) a)).
  { apply (for_range_ind P); [lia| |].
    - eapply is_mx_ext; [exact HM|]. intros i j Hi Hj. zcases; reflexivity.
    - intros c a' Hc Ha. red in Ha. mx_get.
      eapply is_mx_ext; [apply is_mx_set; [exact Ha|lia..]|].
      intros i j Hi Hj. cbv beta. zcases; subst; reflexivity || lia. }
  eapply is_mx_ext; [exact H|]. intros i j Hi Hj. zcases; reflexivity.
Qed.

Lemma gen_glrc_matrix_spec a : (k + r + z) * k <= zlen a ->
  is_mx (k + r + z) k (gen_glrc_matrix a k r z) (glrc_gen k r z).
Proof.
  intros Hl. unfold gen_glrc_matrix. pose proof (cauchy_base_spec a Hl) as H0. revert H0.
  generalize (gf_gen_cauchy_matrix1 (memset a x00 ((k + r + z) * k)) (k + r) k). intros a0 H0.
  apply (fill_rows_spec k (k + r + z) (fun j => k + r + glrc_data_group_id j k r z)
           (fun j => (gf_gen_local_vector (new_bytes k) k r).[j])) in H0; [|lia|].
  2: { intros j Hj. destruct (payload_group_id_spec k r z ltac:(lia) Hr Hz j ltac:(lia)) as [Hg _].
       unfold glrc_data_group_id. lia. }
  set (G := fun n i j => if i <? k + r then cauchy_gen k i j
    else (if glrc_data_group_id j k r z =? i - (k + r) then local_coef k r j else x00) ⊕
     xsum n (fun l => if glrc_payload_group_id (k + l) k r z =? i - (k + r)
                      then cauchy_gen k (k + l) j else x00)).
  apply is_mx_ext with (M := G r); [|intros i j Hi Hj; reflexivity].
  apply (for_range_ind (fun n a => is_mx (k + r + z) k a (G n))); [lia| |].
  - eapply is_mx_ext; [exact H0|]. intros i j Hi Hj. cbv beta. unfold G.
    rewrite local_vector_spec by lia. rewrite (xsum_0 0) by lia. rewrite bxor_0_r.
    destruct (payload_group_id_spec k r z ltac:(lia) Hr Hz j ltac:(lia)) as [Hg _].
    unfold glrc_data_group_id in *. zcases; reflexivity.
  - intros l a' Hlr Ha.
    destruct (payload_group_id_spec k r z ltac:(lia) Hr Hz (k + l) ltac:(lia)) as [Hg _].
    eapply is_mx_ext; [apply glrc_add_global with (M := G l); [lia..|exact Ha]|].
    intros i j Hi Hj. cbv beta. unfold G. rewrite xsum_succ by lia.
    zcases; subst; try reflexivity; ring.
Qed.
End Generators.

(** * The parity-check equations of gLRC *)

(** Coefficient of block [b] in recovery equation [e]: equations [0 .. z-1] are
    the local ones, [z .. z+r-1] the global ones. *)
Definition glrc_eq_coef (k r z e b : Z) : byte :=
  if e <? z then
    (if block_group k r z b =? e then glrc_local_block_coefficient b k r else x00)
  else
    (if b <? k then cauchy_gen k (k + (e - z)) b
     else if b =? k + (e - z) then x01 else x00).

Section ParityCheck.
Context (k r z : Z) (Hk : 1 <= k) (Hr : 0 <= r) (Hz : 1 <= z).

(** A column of the generator satisfies every recovery equation. *)
Lemma glrc_check_column e j : 0 <= e < z + r -> 0 <= j < k ->
  xsum (k + r + z) (fun b => glrc_eq_coef k r z e b ⊗ glrc_gen k r z b j) = x00.
Proof.
  intros He Hj. rewrite (xsum_split k), (xsum_split r (k + r + z - k)) by lia.
  (* data blocks *)
  assert (Hdata : xsum k (fun b => glrc_eq_coef k r z e b ⊗ glrc_gen k r z b j) =
                  glrc_eq_coef k r z e j).
  { rewrite (xsum_ext k _ (fun b => delta j b ⊗ glrc_eq_coef k r z e b)).
    - apply (xsum_delta_l k (fun b => glrc_eq_coef k r z e b)), Hj.
    - intros b Hb. unfold glrc_gen, cauchy_gen. destruct (Z.ltb_spec b (k + r)); [|lia].
      destruct (Z.ltb_spec b k); [|lia]. unfold delta. rewrite (Z.eqb_sym b j). apply gf_mul_comm. }
  rewrite Hdata. clear Hdata.
  (* global parities *)
  set (glob := xsum r _). set (loc := xsum (k + r + z - k - r) _).
  unfold glrc_eq_coef at 1. destruct (Z.ltb_spec e z) as [Hez|Hez].
  - assert (Hglob : glob = xsum r (fun l => if glrc_payload_group_id (k + l) k r z =? e
                                          then cauchy_gen k (k + l) j else x00)).
    { apply xsum_ext. intros l Hl. unfold glrc_eq_coef, block_group, glrc_gen.
      unfold glrc_local_block_coefficient. zcases; ring. }
    assert (Hloc : loc = glrc_gen k r z (k + r + e) j).
    { unfold loc. replace (k + r + z - k - r) with z by lia.
      rewrite (xsum_single z _ e) by (lia || intros g Hg Hne; unfold glrc_eq_coef, block_group;
        zcases; ring).
      unfold glrc_eq_coef, block_group, glrc_local_block_coefficient.
      replace (k + (r + e)) with (k + r + e) by lia. zcases; ring. }
    rewrite Hglob, Hloc. unfold glrc_gen, block_group, glrc_local_block_coefficient, glrc_data_group_id.
    replace (k + r + e - (k + r)) with e by lia. unfold local_coef.
    destruct (Z.ltb_spec (k + r + e) (k + r)); [lia|]. destruct (Z.ltb_spec j (k + r)); [|lia].
    destruct (Z.geb_spec j 0); [|lia]. destruct (Z.ltb_spec j k); [|lia]. cbn [andb].
    destruct (_ =? e); ring.
  - destruct (Z.ltb_spec j k); [|lia].
    assert (Hglob : glob = cauchy_gen k (k + (e - z)) j).
    { unfold glob. rewrite (xsum_single r _ (e - z)) by (lia || intros l Hl Hne; unfold glrc_eq_coef;
        zcases; ring).
      unfold glrc_eq_coef, glrc_gen. zcases; ring. }
    assert (Hloc : loc = x00).
    { apply xsum_zero. intros g Hg. unfold glrc_eq_coef. zcases; ring. }
    rewrite Hglob, Hloc. ring.
Qed.

(** Byte [d] of the data blocks, encoded: byte of block [b]. *)
Definition glrc_codeword (d : Z -> byte) (b : Z) : byte := xsum k (fun j => glrc_gen k r z b j ⊗ d j).

Lemma glrc_check e d : 0 <= e < z + r ->
  xsum (k + r + z) (fun b => glrc_eq_coef k r z e b ⊗ glrc_codeword d b) = x00.
Proof.
  intros He. unfold glrc_codeword.
  rewrite (xsum_ext _ _ (fun b => xsum k (fun j =>
    glrc_eq_coef k r z e b ⊗ glrc_gen k r z b j ⊗ d j))).
  2: { intros b Hb. rewrite <- xsum_mul_l. apply xsum_ext. intros. ring. }
  rewrite xsum_swap. apply xsum_zero. intros j Hj.
  rewrite xsum_mul_r, glrc_check_column by lia. ring.
Qed.

Lemma glrc_codeword_data d b : 0 <= b < k -> glrc_codeword d b = d b.
Proof.
  intros Hb. unfold glrc_codeword.
  rewrite (xsum_ext k _ (fun j => delta b j ⊗ d j)); [apply xsum_delta_l, Hb|].
  intros j Hj. unfold glrc_gen, cauchy_gen. zcases; reflexivity.
Qed.
End ParityCheck.

(** * What the encoders compute *)

Section EncoderSpecs.
Context {K : Kernels} {L : KernelLaws K}.

Lemma clear_parities_spec rows bs (p : list block) : 0 <= rows -> 0 <= bs -> buffers rows bs p ->
  written rows bs p (clear_parities rows bs p) (fun _ _ => x00).
Proof.
  intros Hr Hbs [Hb1 Hb2]. unfold clear_parities.
  pose (P := fun n (c : list block) => zlen c = zlen p /\ forall l, 0 <= l < zlen p ->
    zlen c.[l] = zlen p.[l] /\ forall i, 0 <= i -> c.[l].[i] =
      if (l <? n) && (i <? bs) then x00 else p.[l].[i]).
  change (P rows (for_range 0 rows (fun i p => p.[i <- memset p.[i] x00 bs]) p)).
  apply (for_range_ind P); [lia| |].
  - split; [reflexivity|]. intros l Hl. split; [reflexivity|]. intros i Hi. zcases; reflexivity.
  - intros n c Hn [H1 H2]. specialize (Hb2 n Hn). destruct (H2 n ltac:(lia)) as [Hn1 Hn2].
    split; [rewrite zlen_zset; exact H1|]. intros l Hl. rewrite zget_zset by lia.
    destruct (Z.eqb_spec l n) as [->|Hne].
    + rewrite zlen_memset by lia. split; [exact Hn1|]. intros i Hi.
      rewrite zget_memset by lia. rewrite Hn2 by lia. zcases; reflexivity.
    + destruct (H2 l Hl) as [Hl1 Hl2]. split; [exact Hl1|]. intros i Hi. rewrite Hl2 by lia.
      zcases; reflexivity.
Qed.

Lemma written_buffers rows len c c' f : written rows len c c' f -> buffers rows len c ->
  buffers rows len c'.
Proof.
  intros [H1 H2] [H3 H4]. split; [lia|]. intros l Hl. destruct (H2 l ltac:(lia)) as [-> _]. auto.
Qed.

Lemma written_trans rows len c c1 c2 f g : written rows len c c1 f -> written rows len c1 c2 g ->
  written rows len c c2 g.
Proof.
  intros [H1 H2] [H3 H4]. split; [congruence|]. intros l Hl.
  destruct (H2 l Hl) as [H5 H6], (H4 l ltac:(lia)) as [H7 H8]. split; [congruence|].
  intros i Hi. rewrite H8, H6 by lia. zcases; reflexivity.
Qed.

Lemma encode_rows_spec k rows bs a M data parity : 1 <= k -> 0 <= rows -> 0 <= bs ->
  is_mx (k + rows) k a M -> buffers rows bs parity ->
  written rows bs parity (encode_rows k rows bs a data parity)
    (fun l i => xsum k (fun j => M (k + l) j ⊗ data.[j].[i])).
Proof.
  intros Hk Hr Hbs HM Hb. unfold encode_rows.
  pose proof (clear_parities_spec rows bs parity Hr Hbs Hb) as Hc.
  eapply written_trans; [exact Hc|]. eapply written_ext.
  - apply encode_with_tables_spec; auto.
    + unfold new_bytes. rewrite zlen_zrepeat by nia. lia.
    + eapply written_buffers; eauto.
  - intros l i Hl Hi. apply xsum_ext. intros j Hj. rewrite zget_zdrop by nia.
    replace (k * k + (l * k + j)) with ((k + l) * k + j) by lia. mx_get. reflexivity.
Qed.

Lemma sub_matrix_spec k rows n a M : 0 <= rows -> 0 <= n <= k -> is_mx (k + rows) k a M ->
  is_mx rows n (sub_matrix k rows n a) (fun i c => M (k + i) c).
Proof.
  intros Hr Hn HM. unfold sub_matrix.
  pose (G := fun i c (i' c' : Z) => if (i' <? i) || ((i' =? i) && (c' <? c)) then M (k + i') c' else x00).
  apply is_mx_ext with (M := G rows 0).
  2: { intros i c Hi Hc. unfold G. zcases; reflexivity. }
  apply (for_range_ind (fun i a => is_mx rows n a (G i 0))); [lia| |].
  - split; [unfold new_bytes; rewrite zlen_zrepeat by nia; lia|]. intros i j Hi Hj.
    unfold new_bytes. rewrite zget_zrepeat by (apply flat_index_range; lia).
    unfold G. zcases; reflexivity.
  - intros i s Hi Hs. apply is_mx_ext with (M := G i n).
    2: { intros i' c' Hi' Hc'. unfold G. zcases; reflexivity. }
    apply (for_range_ind (fun c a => is_mx rows n a (G i c))); [lia|exact Hs|].
    intros c s' Hc Hs'. mx_get. eapply is_mx_ext; [apply is_mx_set; [exact Hs'|lia..]|].
    intros i' c' Hi' Hc'. cbv beta. unfold G. zcases; subst; reflexivity.
Qed.

Lemma partial_encode_rows_spec k rows n bs a M data parity :
  1 <= n <= k -> 0 <= rows -> 0 <= bs -> is_mx (k + rows) k a M -> buffers rows bs parity ->
  written rows bs parity (partial_encode_rows k rows n bs a data parity)
    (fun l i => xsum n (fun j => M (k + l) j ⊗ data.[j].[i])).
Proof.
  intros Hn Hr Hbs HM Hb. unfold partial_encode_rows.
  pose proof (clear_parities_spec rows bs parity Hr Hbs Hb) as Hc.
  eapply written_trans; [exact Hc|]. eapply written_ext.
  - apply encode_with_tables_spec; auto; try lia.
    + unfold new_bytes. rewrite zlen_zrepeat by nia. lia.
    + eapply written_buffers; eauto.
  - intros l i Hl Hi. apply xsum_ext. intros j Hj.
    pose proof (sub_matrix_spec k rows n a M Hr ltac:(lia) HM) as Hsub. mx_get. reflexivity.
Qed.

(** The stripe produced by [encode_glrc]: block [b] of the concatenation of
    data and parity is the codeword of the data. *)
Lemma encode_glrc_codeword k r z data parity bs b i :
  1 <= k -> 0 <= r -> 1 <= z -> zlen data = k -> zlen parity = r + z -> buffers (r + z) bs parity ->
  0 <= b < k + r + z -> 0 <= i < bs ->
  (data ++ encode_glrc k r z data parity bs).[b].[i] =
  glrc_codeword k r z (fun j => data.[j].[i]) b.
Proof.
  intros Hk Hr Hz Hd Hp Hbuf Hb Hi. rewrite zget_app by lia.
  destruct (Z.ltb_spec b (zlen data)).
  { rewrite glrc_codeword_data by lia. reflexivity. }
  destruct (encode_rows_spec k (r + z) bs (gen_glrc_matrix (new_bytes ((k + r + z) * k)) k r z)
              (glrc_gen k r z) data parity) as [H1 H2]; auto; try lia.
  { rewrite Z.add_assoc. apply gen_glrc_matrix_spec; auto.
    unfold new_bytes. rewrite zlen_zrepeat by nia. lia. }
  unfold encode_glrc. cbv zeta. destruct (H2 (b - zlen data) ltac:(lia)) as [_ ->]; [|lia].
  destruct (Z.ltb_spec (b - zlen data) (r + z)); [|lia]. destruct (Z.ltb_spec i bs); [|lia].
  cbn [andb]. unfold glrc_codeword. apply xsum_ext. intros j Hj.
  replace (k + (b - zlen data)) with b by lia. reflexivity.
Qed.
End EncoderSpecs.
