(* ===== verification/Decode.v ===== *)
(** Decoders of [unilrc_encoder.cpp]: single-block repair of the five LRC
    families and the multi-failure decoders of gLRC that solve the linear system
    of the selected recovery equations. *)
From S2P Require Import Prelude GF256 LinAlg GFMatrix EcKernel Groups Codes.
From Stdlib Require Import Field.

(** * Single-block repair *)

Section SingleRepair.
Context {K : Kernels}.

(** [ec_init_tables(n, 1, v, g_tbls); ec_encode_data_avx2(bs, n, 1, ...)] into
    a single buffer. *)
Definition encode_one (n block_size : Z) (v : list byte) (block_ptrs : list block) (res : list byte)
  : list byte :=
  (ec_encode_data_avx2 block_size n 1 (ec_init_tables n 1 v (new_bytes (n * 32))) block_ptrs [res]).[0].

Definition decode_unilrc (k r z block_num : Z) (block_indexes : list Z) (block_ptrs : list block)
    (res_ptr : list byte) (block_size : Z) : list byte :=
  let res_ptr := memset res_ptr x00 block_size in
  let vect_ptrs := ztake block_num block_ptrs ++ [res_ptr] in
  (snd (xor_avx (block_num + 1) block_size vect_ptrs)).[block_num].

(** [for (i = k / z, j = 0; j < k && i < k + r; i++)]: the rows of the square
    system and the position of each. *)
Definition azure_used_rows (k r z failed_block_id : Z) : list Z * gmap Z Z * Z :=
  for_range (k ÷ z) (k + r) (fun i '(used_row, idx_to_row, j) =>
    if (j <? k) && negb (i =? failed_block_id)
    then (used_row.[j <- i], <[i := j]> idx_to_row, j + 1)
    else (used_row, idx_to_row, j)) (zrepeat 0 k, ∅, 0).

Definition decode_azure_lrc (k r z block_num : Z) (block_indexes : list Z) (block_ptrs : list block)
    (res_ptr : list byte) (block_size failed_block_id : Z) : list byte :=
  let res_ptr := memset res_ptr x00 block_size in
  if (failed_block_id <? k) || (failed_block_id >=? k + r) then
    let vect_ptrs := ztake block_num block_ptrs ++ [res_ptr] in
    (snd (xor_avx (block_num + 1) block_size vect_ptrs)).[block_num]
  else
    let m := k + r in
    let encode_matrix := gf_gen_rs_matrix1 (memset (new_bytes (m * k)) x00 (m * k)) m k in
    let '(used_row, idx_to_row, _) := azure_used_rows k r z failed_block_id in
    let temp_matrix :=
      for_range 0 k (fun i t => for_range 0 k (fun j t =>
        t.[i * k + j <- encode_matrix.[used_row.[i] * k + j]]) t) (new_bytes (k * k)) in
    let invert_matrix := snd (snd (gf_invert_matrix temp_matrix (new_bytes (k * k)) k)) in
    let vect_all := gf_mul_vect_matrix (zdrop (failed_block_id * k) encode_matrix) invert_matrix
                      (new_bytes k) k in
    let decode_vector := map (fun i => vect_all.[default 0 (idx_to_row !! block_indexes.[i])])
                           (zseq block_num) in
    encode_one block_num block_size decode_vector block_ptrs res_ptr.

Definition decode_optimal_lrc (k r z block_num : Z) (block_indexes : list Z)
    (block_ptrs : list block) (res_ptr : list byte) (block_size failed_block_id : Z) : list byte :=
  let res_ptr := memset res_ptr x00 block_size in
  let local_vector := gf_gen_local_vector (new_bytes k) k r in
  let decode_vector :=
    if block_indexes.[0] >=? k then map (fun _ => x01) (zseq block_num)
    else map (fun i => local_vector.[block_indexes.[i]]) (zseq block_num) in
  let decode_vector :=
    if failed_block_id <? k then
      let factor := gf_inv local_vector.[failed_block_id] in
      map (fun i => gf_mul decode_vector.[i] factor) (zseq block_num)
    else decode_vector in
  encode_one block_num block_size decode_vector block_ptrs res_ptr.

Definition decode_uniform_lrc (k r z block_num : Z) (block_indexes : list Z)
    (block_ptrs : list block) (res_ptr : list byte) (block_size failed_block_id : Z) : list byte :=
  let res_ptr := memset res_ptr x00 block_size in
  let local_vector := gf_gen_local_vector (new_bytes k) k r in
  let decode_vector :=
    map (fun i => if block_indexes.[i] <? k then local_vector.[block_indexes.[i]] else x01)
      (zseq block_num) in
  let decode_vector :=
    if failed_block_id <? k then
      let factor := gf_inv local_vector.[failed_block_id] in
      map (fun i => gf_mul decode_vector.[i] factor) (zseq block_num)
    else decode_vector in
  encode_one block_num block_size decode_vector block_ptrs res_ptr.

Definition decode_glrc (k r z block_num : Z) (block_indexes : list Z) (block_ptrs : list block)
    (res_ptr : list byte) (block_size failed_block_id : Z) : list byte :=
  let res_ptr := memset res_ptr x00 block_size in
  let decode_vector :=
    map (fun i => glrc_local_block_coefficient block_indexes.[i] k r) (zseq block_num) in
  let factor := gf_inv (glrc_local_block_coefficient failed_block_id k r) in
  let decode_vector := map (fun i => gf_mul decode_vector.[i] factor) (zseq block_num) in
  encode_one block_num block_size decode_vector block_ptrs res_ptr.
End SingleRepair.

(** * The system of the selected equations *)

Definition build_block_coef_row (k r z n eq_index : Z) (encode_matrix : list byte)
    (groups : list (list Z)) : list byte :=
  let coef_row := zrepeat x00 n in
  if eq_index <? z then
    fold_left (fun row b => row.[b <- glrc_local_block_coefficient b k r]) groups.[eq_index] coef_row
  else
    let g := eq_index - z in
    let coef_row := for_range 0 k (fun i row => row.[i <- encode_matrix.[(k + g) * k + i]]) coef_row in
    coef_row.[k + g <- x01].

(** The f x f coefficient matrix of the failed blocks and its inverse. *)
Definition glrc_ilp_build_inverse (k r z n : Z) (failed_block_ids selected_equation_indices : list Z)
    (encode_matrix : list byte) (groups : list (list Z)) : bool * list byte :=
  let f := zlen failed_block_ids in
  let A := for_range 0 f (fun ei A =>
             let coef_row := build_block_coef_row k r z n selected_equation_indices.[ei]
                               encode_matrix groups in
             for_range 0 f (fun t A => A.[ei * f + t <- coef_row.[failed_block_ids.[t]]]) A)
             (zrepeat x00 (f * f)) in
  let '(ret, (_, A_inv)) := gf_invert_matrix A (zrepeat x00 (f * f)) f in
  (ret =? 0, A_inv).

Definition glrc_encode_matrix (k r z : Z) : list byte :=
  gen_glrc_matrix (new_bytes ((k + r + z) * k)) k r z.

(** [None] is [return false]. *)
Definition glrc_ilp_prepare_inverse (k r z : Z) (failed_block_ids selected_equation_indices : list Z)
  : option (list byte) :=
  let f := zlen failed_block_ids in
  if (f =? 0) || negb (zlen selected_equation_indices =? f) then None
  else
    let n := k + r + z in
    let groups := glrc_build_placement_groups k r z in
    let '(ok, A_inv) := glrc_ilp_build_inverse k r z n failed_block_ids selected_equation_indices
                          (glrc_encode_matrix k r z) groups in
    if ok then Some A_inv else None.

Definition glrc_ilp_decode_matrix_invertible (k r z : Z)
    (failed_block_ids selected_equation_indices : list Z) : bool :=
  let f := zlen failed_block_ids in
  if (f =? 0) || negb (zlen selected_equation_indices =? f) then false
  else
    let n := k + r + z in
    let groups := glrc_build_placement_groups k r z in
    fst (glrc_ilp_build_inverse k r z n failed_block_ids selected_equation_indices
           (glrc_encode_matrix k r z) groups).

(** [helper_pos[helper_block_ids[i]] = i] *)
Definition helper_pos (helper_block_ids : list Z) : gmap Z Z :=
  for_range 0 (zlen helper_block_ids) (fun i m => <[helper_block_ids.[i] := i]> m) ∅.

(** The helper terms [(position, coefficient)] of one equation; [inr tt] when a
    block of the equation is neither failed nor a helper ([return false]). *)
Definition eq_helper_terms (n : Z) (coef_row : list byte) (failed_set : gset Z) (pos : gmap Z Z)
  : list (Z * byte) + unit :=
  for_exit 0 n (fun b terms =>
    if bool_decide (coef_row.[b] = x00) || bool_decide (b ∈ failed_set) then inl terms
    else match pos !! b with
         | None => inr tt
         | Some idx => inl (terms ++ [(idx, coef_row.[b])])
         end) [].

(** The terms of all selected equations. *)
Definition all_helper_terms (k r z n f : Z) (selected_equation_indices : list Z) (encode_matrix : list byte)
    (groups : list (list Z)) (failed_set : gset Z) (pos : gmap Z Z)
  : list (list (Z * byte)) + unit :=
  for_exit 0 f (fun ei acc =>
    let coef_row := build_block_coef_row k r z n selected_equation_indices.[ei] encode_matrix groups in
    match eq_helper_terms n coef_row failed_set pos with
    | inl terms => inl (acc ++ [terms])
    | inr _ => inr tt
    end) [].

Definition glrc_ilp_prepare_helper_decode (k r z : Z)
    (helper_block_ids failed_block_ids selected_equation_indices : list Z)
  : option (list byte * list (list Z) * list (list byte)) :=
  let n := k + r + z in
  let f := zlen failed_block_ids in
  if (f =? 0) || negb (zlen selected_equation_indices =? f) || (zlen helper_block_ids =? 0) then None
  else
    let groups := glrc_build_placement_groups k r z in
    let encode_matrix := glrc_encode_matrix k r z in
    let '(ok, A_inv) := glrc_ilp_build_inverse k r z n failed_block_ids selected_equation_indices
                          encode_matrix groups in
    if negb ok then None
    else
      match all_helper_terms k r z n f selected_equation_indices encode_matrix groups
              (list_to_set failed_block_ids) (helper_pos helper_block_ids) with
      | inr _ => None
      | inl terms => Some (A_inv, map (map fst) terms, map (map snd) terms)
      end.

(** * Decoding *)

(** [recovered[t][off] = XOR_j A_inv[t*f+j] * col_b[j]] for one byte column. *)
Definition solve_column (f : Z) (A_inv : list byte) (col_b : list byte) (t : Z) : byte :=
  for_range 0 f (fun j acc => acc ⊕ gf_mul A_inv.[t * f + j] col_b.[j]) x00.

Definition decode_glrc_ilp_rhs_compact (rhs_ptrs : list block) (A_inv : list byte)
    (failed_count range_len : Z) : option (list block) :=
  let f := failed_count in
  if (f <=? 0) || (range_len <? 0) || negb (zlen rhs_ptrs =? f) || negb (zlen A_inv =? f * f) then None
  else
    Some (for_range 0 range_len (fun byte_off recovered =>
      let col_b := map (fun ei => rhs_ptrs.[ei].[byte_off]) (zseq f) in
      for_range 0 f (fun t recovered =>
        recovered.[t <- recovered.[t].[byte_off <- solve_column f A_inv col_b t]]) recovered)
      (zrepeat (zrepeat x00 range_len) f)).

Section MultiRepair.
Context {K : Kernels}.

(** One equation's right-hand side: [dst] from the helper blocks. *)
Definition rhs_of_equation (range_len helper_off : Z) (helper_ptrs : list block)
    (indices : list Z) (g_tbls : list byte) (dst : list byte) : list byte :=
  let term_count := zlen indices in
  let srcs := map (fun idx => zdrop helper_off helper_ptrs.[idx]) indices in
  (ec_encode_data_avx2 range_len term_count 1 g_tbls srcs [dst]).[0].

Definition decode_glrc_ilp_helper_compact (helper_ptrs : list block) (A_inv : list byte)
    (eq_helper_indices : list (list Z)) (eq_helper_coefs : list (list byte))
    (failed_count helper_base_off range_off range_len : Z) : option (list block) :=
  let f := failed_count in
  if (f <=? 0) || (helper_base_off <? 0) || (range_off <? helper_base_off) || (range_len <? 0)
     || negb (zlen A_inv =? f * f) || negb (zlen eq_helper_indices =? f)
     || negb (zlen eq_helper_coefs =? f) then None
  else
    let recovered := zrepeat (zrepeat x00 range_len) f in
    if range_len =? 0 then Some recovered
    else
      let helper_off := range_off - helper_base_off in
      match for_exit 0 f (fun ei rhs =>
              if negb (zlen eq_helper_indices.[ei] =? zlen eq_helper_coefs.[ei]) then inr tt
              else
                let term_count := zlen eq_helper_indices.[ei] in
                if term_count =? 0 then inl rhs
                else
                  let g_tbls := ec_init_tables term_count 1 eq_helper_coefs.[ei]
                                  (new_bytes (term_count * 32)) in
                  inl (rhs.[ei <- rhs_of_equation range_len helper_off helper_ptrs
                                    eq_helper_indices.[ei] g_tbls rhs.[ei]]))
              (zrepeat (zrepeat x00 range_len) f) with
      | inr _ => None
      | inl rhs =>
          let g_tbls := ec_init_tables f f A_inv (new_bytes (f * f * 32)) in
          Some (ec_encode_data_avx2 range_len f f g_tbls rhs recovered)
      end.

(** The caller's buffers: [rhs] is resized and cleared, [recovered] resized. *)
Definition reset_rhs (f range_len : Z) (rhs : list block) : list block :=
  let rhs := if negb (zlen rhs =? f) then zrepeat (zrepeat x00 range_len) f else rhs in
  for_range 0 f (fun i rhs =>
    rhs.[i <- if negb (zlen rhs.[i] =? range_len) then zrepeat x00 range_len
              else map (fun _ => x00) rhs.[i]]) rhs.

Definition resize_recovered (f range_len : Z) (recovered : list block) : list block :=
  let recovered := if negb (zlen recovered =? f) then zrepeat (zrepeat x00 range_len) f
                   else recovered in
  for_range 0 f (fun i recovered =>
    if negb (zlen recovered.[i] =? range_len) then recovered.[i <- zrepeat x00 range_len]
    else recovered) recovered.

(** The same with caller-provided tables and buffers [rhs], [recovered], which
    are resized and [rhs] cleared first; returns the code and both buffers. *)
Definition decode_glrc_ilp_helper_compact_prepared (helper_ptrs : list block)
    (eq_helper_indices : list (list Z)) (eq_helper_g_tbls : list (list byte)) (inv_g_tbls : list byte)
    (failed_count helper_base_off range_off range_len : Z) (rhs recovered : list block)
  : bool * (list block * list block) :=
  let f := failed_count in
  if (f <=? 0) || (helper_base_off <? 0) || (range_off <? helper_base_off) || (range_len <? 0)
     || negb (zlen eq_helper_indices =? f) || negb (zlen eq_helper_g_tbls =? f)
     || negb (zlen inv_g_tbls =? f * f * 32) then (false, (rhs, recovered))
  else
    let rhs := reset_rhs f range_len rhs in
    let recovered := resize_recovered f range_len recovered in
    if range_len =? 0 then (true, (rhs, recovered))
    else
      let helper_off := range_off - helper_base_off in
      match for_exit 0 f (fun ei rhs =>
              let term_count := zlen eq_helper_indices.[ei] in
              if term_count =? 0 then inl rhs
              else if negb (zlen eq_helper_g_tbls.[ei] =? term_count * 32) then inr rhs
              else inl (rhs.[ei <- rhs_of_equation range_len helper_off helper_ptrs
                                     eq_helper_indices.[ei] eq_helper_g_tbls.[ei] rhs.[ei]])) rhs with
      | inr rhs => (false, (rhs, recovered))
      | inl rhs => (true, (rhs, ec_encode_data_avx2 range_len f f inv_g_tbls rhs recovered))
      end.

(** The folded decode matrix [A_inv * C_helper]. *)
Definition direct_matrix (f helper_count : Z) (A_inv : list byte) (terms : list (list (Z * byte)))
  : list byte :=
  for_range 0 f (fun target m =>
    for_range 0 f (fun equation m =>
      let inverse_coef := A_inv.[target * f + equation] in
      if bool_decide (inverse_coef = x00) then m
      else fold_left (fun m '(helper_idx, coef) =>
             m.[target * helper_count + helper_idx <-
                m.[target * helper_count + helper_idx] ⊕ gf_mul inverse_coef coef])
             terms.[equation] m) m)
    (zrepeat x00 (f * helper_count)).

Definition decode_glrc_ilp (k r z block_size : Z) (helper_block_ids : list Z)
    (helper_ptrs : list block) (failed_block_ids selected_equation_indices : list Z)
  : option (list block) :=
  let n := k + r + z in
  let f := zlen failed_block_ids in
  if (f =? 0) || negb (zlen selected_equation_indices =? f) then None
  else
    let groups := glrc_build_placement_groups k r z in
    let encode_matrix := glrc_encode_matrix k r z in
    let '(ok, A_inv) := glrc_ilp_build_inverse k r z n failed_block_ids selected_equation_indices
                          encode_matrix groups in
    if negb ok then None
    else
      match all_helper_terms k r z n f selected_equation_indices encode_matrix groups
              (list_to_set failed_block_ids) (helper_pos helper_block_ids) with
      | inr _ => None
      | inl terms =>
          let helper_count := zlen helper_block_ids in
          if helper_count <=? 0 then None
          else
            let m := direct_matrix f helper_count A_inv terms in
            let recovered_ptrs := zrepeat (new_bytes block_size) f in
            let g_tbls := ec_init_tables helper_count f m (new_bytes (helper_count * f * 32)) in
            Some (ec_encode_data_avx2 block_size helper_count f g_tbls helper_ptrs recovered_ptrs)
      end.

(** [rhs ^= term.coef * helper_ptrs[term.helper_idx][byte_off]] *)
Definition rhs_byte (helper_ptrs : list block) (byte_off : Z) (terms : list (Z * byte)) : byte :=
  fold_left (fun rhs '(helper_idx, coef) => rhs ⊕ gf_mul coef helper_ptrs.[helper_idx].[byte_off])
    terms x00.

Definition decode_glrc_ilp_range (k r z block_size : Z) (helper_block_ids : list Z)
    (helper_ptrs : list block) (failed_block_ids selected_equation_indices : list Z)
    (range_off range_len : Z) : option (list block) :=
  if (range_off <? 0) || (range_len <? 0) || (range_off + range_len >? block_size) then None
  else if range_len =? 0 then Some (zrepeat (new_bytes block_size) (zlen failed_block_ids))
  else
    let n := k + r + z in
    let f := zlen failed_block_ids in
    if (f =? 0) || negb (zlen selected_equation_indices =? f) then None
    else
      let groups := glrc_build_placement_groups k r z in
      let encode_matrix := glrc_encode_matrix k r z in
      let '(ok, A_inv) := glrc_ilp_build_inverse k r z n failed_block_ids selected_equation_indices
                            encode_matrix groups in
      if negb ok then None
      else
        match all_helper_terms k r z n f selected_equation_indices encode_matrix groups
                (list_to_set failed_block_ids) (helper_pos helper_block_ids) with
        | inr _ => None
        | inl terms =>
            let end_off := range_off + range_len in
            Some (for_range range_off end_off (fun byte_off recovered =>
              let col_b := map (fun ei => rhs_byte helper_ptrs byte_off terms.[ei]) (zseq f) in
              for_range 0 f (fun t recovered =>
                recovered.[t <- recovered.[t].[byte_off <- solve_column f A_inv col_b t]]) recovered)
              (zrepeat (new_bytes block_size) f))
        end.
End MultiRepair.

Definition decode_glrc_ilp_rhs_range (k r z block_size : Z) (rhs_ptrs : list block)
    (failed_block_ids selected_equation_indices : list Z) (range_off range_len : Z)
  : option (list block) :=
  if (range_off <? 0) || (range_len <? 0) || (range_off + range_len >? block_size) then None
  else
    let n := k + r + z in
    let f := zlen failed_block_ids in
    if (f =? 0) || negb (zlen selected_equation_indices =? f) then None
    else
      let groups := glrc_build_placement_groups k r z in
      let '(ok, A_inv) := glrc_ilp_build_inverse k r z n failed_block_ids selected_equation_indices
                            (glrc_encode_matrix k r z) groups in
      if negb ok then None
      else
        let end_off := range_off + range_len in
        Some (for_range range_off end_off (fun byte_off recovered =>
          let col_b := map (fun ei => rhs_ptrs.[ei].[byte_off]) (zseq f) in
          for_range 0 f (fun t recovered =>
            recovered.[t <- recovered.[t].[byte_off <- solve_column f A_inv col_b t]]) recovered)
          (zrepeat (memset (new_bytes block_size) x00 block_size) f)).
