(* ===== verification/DecodeSpec.v ===== *)
(** Correctness of the gLRC decoders of [Decode]: the selected recovery equations
    form a linear system in the lost blocks; solving it, in any of the ways the
    source does, restores them. *)
From S2P Require Import Prelude GF256 LinAlg GFMatrix EcKernel Groups Codes Decode.
From Stdlib Require Import Field.

(** * Sums over lists *)

(** A sum over the members of a list without duplicates, by position. *)
Lemma xsum_members n (l : list Z) (g : Z -> byte) :
  NoDup l -> Forall (fun b => 0 <= b < n) l ->
  xsum n (fun b => if bool_decide (b ∈ l) then g b else x00) = xsum (zlen l) (fun t => g l.[t]).
Proof.
  induction l as [|x l IH] using rev_ind; intros Hnd Hrg.
  { rewrite (xsum_0 (zlen [])) by (cbn; lia). apply xsum_zero. reflexivity. }
  apply NoDup_app in Hnd as (Hnd & Hx & _). apply Forall_app in Hrg as [Hrg Hxr].
  rewrite Forall_singleton in Hxr; cbv beta in Hxr.
  rewrite length_app, Nat2Z.inj_add. change (zlen [x]) with 1. rewrite xsum_succ by lia.
  rewrite zget_app, Z.ltb_irrefl, Z.sub_diag by lia. change ([x].[0]) with x.
  rewrite (xsum_ext (zlen l) (fun t => g (l ++ [x]).[t]) (fun t => g l.[t])).
  2: { intros t Ht. rewrite zget_app by lia. zcases. reflexivity. }
  rewrite <- IH by assumption. rewrite (xsum_pull n _ x) by lia.
  rewrite bool_decide_true by set_solver. rewrite bxor_comm. f_equal.
  apply xsum_ext. intros b Hb. destruct (Z.eqb_spec b x) as [->|Hne].
  - rewrite bool_decide_false; [reflexivity|]. intros Hin. apply (Hx x Hin). set_solver.
  - rewrite (bool_decide_ext (b ∈ l ++ [x]) (b ∈ l)) by set_solver. reflexivity.
Qed.

(** [s = 0; for (term : terms) s ^= term.coef * v(term.helper_idx);] *)
Definition tsum (terms : list (Z * byte)) (v : Z -> byte) : byte :=
  fold_left (fun s '(idx, c) => s ⊕ c ⊗ v idx) terms x00.

Lemma tsum_app terms idx c v : tsum (terms ++ [(idx, c)]) v = tsum terms v ⊕ c ⊗ v idx.
Proof. unfold tsum. rewrite fold_left_app. reflexivity. Qed.

(** The coefficient of helper [h] in [terms]. *)
Definition term_coef (terms : list (Z * byte)) (h : Z) : byte :=
  tsum terms (fun idx => if idx =? h then x01 else x00).

Lemma tsum_by_helper n terms v : Forall (fun '(idx, _) => 0 <= idx < n) terms ->
  tsum terms v = xsum n (fun h => term_coef terms h ⊗ v h).
Proof.
  unfold term_coef. induction terms as [|[idx c] terms IH] using rev_ind; intros Hrg.
  { symmetry. apply xsum_zero. intros. cbn. ring. }
  apply Forall_app in Hrg as [Hrg Hi]. rewrite Forall_singleton in Hi; cbv beta iota in Hi. rewrite tsum_app, IH by exact Hrg.
  rewrite (xsum_ext n (fun h => tsum (terms ++ [(idx, c)]) _ ⊗ v h)
    (fun h => tsum terms (fun idx => if idx =? h then x01 else x00) ⊗ v h ⊕
              delta idx h ⊗ (c ⊗ v h))).
  2: { intros h Hh. rewrite tsum_app. unfold delta. destruct (idx =? h); ring. }
  rewrite xsum_add. f_equal. symmetry. apply (xsum_delta_l n (fun h => c ⊗ v h)), Hi.
Qed.

(** * The coefficient row of an equation *)

Lemma fold_set_spec (f : Z -> byte) l (row : list byte) : Forall (fun b => 0 <= b < zlen row) l ->
  let row' := fold_left (fun row b => row.[b <- f b]) l row in
  zlen row' = zlen row /\
  forall i, row'.[i] = if bool_decide (i ∈ l) then f i else row.[i].
Proof.
  cbv zeta. induction l as [|x l IH] using rev_ind; intros Hrg.
  { split; [reflexivity|]. intros i. rewrite bool_decide_false by set_solver. reflexivity. }
  apply Forall_app in Hrg as [Hrg Hx]. rewrite Forall_singleton in Hx; cbv beta in Hx.
  destruct (IH Hrg) as [H1 H2]. rewrite fold_left_app. cbn [fold_left].
  split; [rewrite zlen_zset; exact H1|]. intros i. rewrite zget_zset by lia. rewrite H2.
  destruct (Z.eqb_spec i x) as [->|Hne].
  - rewrite bool_decide_true by set_solver. reflexivity.
  - rewrite (bool_decide_ext (i ∈ l ++ [x]) (i ∈ l)) by set_solver. reflexivity.
Qed.

Section System.
Context (k r z : Z) (Hk : 1 <= k) (Hr : 0 <= r) (Hz : 1 <= z).

Abbreviation n := (k + r + z).
Abbreviation groups := (glrc_build_placement_groups k r z).
Abbreviation coef_row e := (build_block_coef_row k r z n e (glrc_encode_matrix k r z) groups).

Lemma glrc_encode_matrix_spec : is_mx n k (glrc_encode_matrix k r z) (glrc_gen k r z).
Proof.
  apply gen_glrc_matrix_spec; auto. unfold new_bytes. rewrite zlen_zrepeat by nia. lia.
Qed.

Lemma coef_row_spec e : 0 <= e < z + r ->
  zlen (coef_row e) = n /\ forall b, 0 <= b < n -> (coef_row e).[b] = glrc_eq_coef k r z e b.
Proof.
  intros He. unfold build_block_coef_row, glrc_eq_coef.
  assert (Hz0 : zlen (zrepeat x00 n) = n) by (apply zlen_zrepeat; lia).
  destruct (Z.ltb_spec e z) as [Hez|Hez].
  - destruct (fold_set_spec (fun b => glrc_local_block_coefficient b k r) groups.[e] (zrepeat x00 n))
      as [H1 H2].
    { apply Forall_forall. intros b Hb%list_elem_of_In. rewrite Hz0.
      eapply placement_group_range; eauto; lia. }
    split; [rewrite H1; exact Hz0|]. intros b Hb. rewrite H2, zget_zrepeat by lia.
    destruct (Z.eqb_spec (block_group k r z b) e) as [E|E].
    + rewrite bool_decide_true; [reflexivity|]. apply list_elem_of_In, placement_group_iff; auto; lia.
    + rewrite bool_decide_false; [reflexivity|]. intros Hin. apply E.
      apply placement_group_iff; auto; try lia. apply list_elem_of_In, Hin.
  - set (g := e - z). pose proof glrc_encode_matrix_spec as HM.
    pose (P := fun m row => zlen row = n /\ forall b, 0 <= b < n -> row.[b] =
      if b <? m then cauchy_gen k (k + g) b else x00).
    assert (H : P k (for_range 0 k (fun i row => row.[i <- (glrc_encode_matrix k r z).[(k + g) * k + i]])
                       (zrepeat x00 n))).
    { apply (for_range_ind P); [lia| |].
      - split; [exact Hz0|]. intros b Hb. rewrite zget_zrepeat by lia. zcases. reflexivity.
      - intros i row Hi [H1 H2]. split; [rewrite zlen_zset; exact H1|]. intros b Hb.
        rewrite zget_zset by lia. rewrite H2 by lia. mx_get.
        unfold glrc_gen. destruct (Z.ltb_spec (k + g) (k + r)); [|unfold g in *; lia].
        destruct (Z.eqb_spec b i) as [->|]; zcases; reflexivity. }
    destruct H as [H1 H2]. split; [rewrite zlen_zset; exact H1|]. intros b Hb.
    rewrite zget_zset by (unfold g in *; lia). rewrite H2 by lia. unfold g in *. zcases; reflexivity.
Qed.

(** * The system of the failed blocks *)

(** Coefficients of the failed blocks in the selected equations. *)
Definition system_mx (failed eqs : list Z) : mx := fun ei t => glrc_eq_coef k r z eqs.[ei] failed.[t].

(** Distinct blocks of the stripe are lost and as many equations selected. *)
Record valid_system (failed eqs : list Z) : Prop := {
  vs_nodup : NoDup failed;
  vs_failed : Forall (fun b => 0 <= b < n) failed;
  vs_eqs : Forall (fun e => 0 <= e < z + r) eqs;
  vs_len : zlen eqs = zlen failed }.

Lemma Forall_zget (P : Z -> Prop) (l : list Z) i : Forall P l -> 0 <= i < zlen l -> P l.[i].
Proof. intros H Hi. eapply Forall_forall; [exact H|]. apply list_elem_of_In, zget_In, Hi. Qed.

Lemma gf_invert_matrix_len a o m : zlen (snd (snd (gf_invert_matrix a o m))) = zlen o.
Proof.
  unfold gf_invert_matrix. set (I := fun st : list byte * list byte => zlen (snd st) = zlen o).
  assert (Hset : forall (st : list byte) c v, zlen st = zlen o -> zlen (st.[c <- v]) = zlen o).
  { intros. rewrite zlen_zset. assumption. }
  match goal with |- context [for_exit 0 m ?b ?s] =>
    assert (H : match for_exit 0 m b s with inl st => I st | inr st => I st end) end.
  { apply for_exit_inv.
    - apply (for_range_inv (fun a => zlen a = zlen o)); [|auto].
      apply (for_range_inv (fun a => zlen a = zlen o)); auto.
    - intros i st _ Hst. assert (Hel : forall st, I st -> I (gf_invert_eliminate m i st)).
      { intros s Hs. unfold gf_invert_eliminate. apply for_range_inv.
        - apply for_range_inv; [exact Hs|]. intros j [x y] _ Hx. apply Hset, Hx.
        - intros j s' _ Hs'. destruct (j =? i); [exact Hs'|].
          apply for_range_inv; [exact Hs'|]. intros c [x y] _ Hx. apply Hset, Hx. }
      unfold gf_invert_pivot. destruct st as [x y]. destruct (bool_decide _); [|apply Hel, Hst].
      destruct (_ =? _); [exact Hst|]. apply Hel.
      apply for_range_inv; [exact Hst|]. intros c [x' y'] _ Hx. apply Hset, Hset, Hx. }
  destruct (for_exit _ _ _ _); exact H.
Qed.

Lemma build_inverse_spec failed eqs : valid_system failed eqs ->
  let f := zlen failed in
  let '(ok, A_inv) := glrc_ilp_build_inverse k r z n failed eqs (glrc_encode_matrix k r z) groups in
  zlen A_inv = f * f /\ (ok = true <-> nonsingular f (system_mx failed eqs)) /\
  (ok = true -> exists B, is_mx f f A_inv B /\ is_identity f (mxm f B (system_mx failed eqs))).
Proof.
  intros [Hnd Hf He Hl]. cbv zeta. unfold glrc_ilp_build_inverse. set (f := zlen failed) in *.
  match goal with |- context [gf_invert_matrix ?a ?o ?m] => set (A := a); set (O := o) end.
  assert (HA : is_mx f f A (system_mx failed eqs)).
  { pose (G := fun i c (i' c' : Z) =>
      if (i' <? i) || ((i' =? i) && (c' <? c)) then system_mx failed eqs i' c' else x00).
    apply is_mx_ext with (M := G f 0); [|intros i c Hi Hc; unfold G; zcases; reflexivity].
    apply (for_range_ind (fun i a => is_mx f f a (G i 0))); [lia| |].
    - split; [rewrite zlen_zrepeat by nia; lia|]. intros i j Hi Hj.
      rewrite zget_zrepeat by (apply flat_index_range; lia). unfold G. zcases; reflexivity.
    - intros i s Hi Hs. apply is_mx_ext with (M := G i f).
      2: { intros i' c' Hi' Hc'. unfold G. zcases; reflexivity. }
      apply (for_range_ind (fun c a => is_mx f f a (G i c))); [lia|exact Hs|].
      intros c s' Hc Hs'. eapply is_mx_ext; [apply is_mx_set; [exact Hs'|lia..]|].
      intros i' c' Hi' Hc'. cbv beta.
      destruct (coef_row_spec eqs.[i]) as [_ Hrow]; [apply (Forall_zget _ _ _ He); lia|].
      rewrite Hrow by (apply (Forall_zget _ _ _ Hf); lia).
      unfold G, system_mx. zcases; subst; reflexivity. }
  assert (HO : zlen O = f * f) by (apply zlen_zrepeat; nia).
  pose proof (gf_invert_matrix_spec f _ A O ltac:(lia) HA ltac:(lia)) as Hinv.
  pose proof (gf_invert_matrix_len A O f) as Hlen.
  destruct (gf_invert_matrix A O f) as [ret [a' o']]. cbn [snd] in Hlen.
  split; [lia|]. destruct Hinv as [[-> (B & HB & HI & _)]|[-> Hs]].
  - split; [|intros _; exists B; auto]. split; [|reflexivity]. intros _.
    eapply left_inverse_nonsingular, HI.
  - split; [|discriminate]. split; [discriminate|]. intros H. contradiction.
Qed.

(** * The helper terms *)

Lemma helper_pos_spec helpers b :
  match helper_pos helpers !! b with
  | Some i => 0 <= i < zlen helpers /\ helpers.[i] = b
  | None => ~ In b helpers
  end.
Proof.
  pose (P := fun m (h : gmap Z Z) => match h !! b with
    | Some i => 0 <= i < m /\ helpers.[i] = b
    | None => forall i, 0 <= i < m -> helpers.[i] <> b end).
  assert (H : P (zlen helpers) (helper_pos helpers)).
  { apply (for_range_ind P); [lia| |].
    - red. rewrite lookup_empty. intros. lia.
    - intros i h Hi Hh. red in Hh |- *. destruct (decide (helpers.[i] = b)) as [<-|Hne].
      + rewrite lookup_insert_eq. split; [lia|reflexivity].
      + rewrite lookup_insert_ne by exact Hne. destruct (h !! b) as [j|]; [split; [lia|apply Hh]|].
        intros j Hj. destruct (Z.eq_dec j i) as [->|]; [exact Hne|apply Hh; lia]. }
  red in H. destruct (helper_pos helpers !! b); [exact H|].
  intros Hin. apply In_zget in Hin as (i & Hi & E). exact (H i Hi E).
Qed.

(** Every surviving block of equation [e] is a helper. *)
Definition covered (helpers failed : list Z) (e : Z) : Prop :=
  forall b, 0 <= b < n -> glrc_eq_coef k r z e b <> x00 -> b ∉ failed -> In b helpers.

(** The terms add up to the surviving part of the equation. *)
Definition good_terms (helpers failed : list Z) (e : Z) (terms : list (Z * byte)) : Prop :=
  Forall (fun '(idx, _) => 0 <= idx < zlen helpers) terms /\
  forall v, tsum terms (fun h => v helpers.[h]) =
    xsum n (fun b => if bool_decide (b ∈ failed) then x00 else glrc_eq_coef k r z e b ⊗ v b).

Lemma eq_helper_terms_spec helpers failed e : 0 <= e < z + r ->
  match eq_helper_terms n (coef_row e) (list_to_set failed) (helper_pos helpers) with
  | inl terms => covered helpers failed e /\ good_terms helpers failed e terms
  | inr _ => ~ covered helpers failed e
  end.
Proof.
  intros He. destruct (coef_row_spec e He) as [_ Hrow]. unfold eq_helper_terms.
  pose (P := fun m terms =>
    (forall b, 0 <= b < m -> glrc_eq_coef k r z e b <> x00 -> b ∉ failed -> In b helpers) /\
    Forall (fun '(idx, _) => 0 <= idx < zlen helpers) terms /\
    forall v, tsum terms (fun h => v helpers.[h]) =
      xsum m (fun b => if bool_decide (b ∈ failed) then x00 else glrc_eq_coef k r z e b ⊗ v b)).
  apply (for_exit_ind P); [lia|split; [intros; lia|split; [constructor|reflexivity]]|].
  intros b terms Hb (H1 & H2 & H3). rewrite Hrow by exact Hb.
  assert (Hskip : glrc_eq_coef k r z e b = x00 \/ b ∈ failed -> P (b + 1) terms).
  { intros Hor. split; [|split; [exact H2|]].
    - intros b' Hb'. destruct (Z.eq_dec b' b) as [->|]; [intros; tauto|apply H1; lia].
    - intros v. rewrite xsum_succ, <- H3 by lia. destruct Hor as [->|Hin].
      + destruct (bool_decide _); ring.
      + rewrite bool_decide_true by exact Hin. ring. }
  destruct (bool_decide_reflect (glrc_eq_coef k r z e b = x00)) as [E0|E0]; cbn [orb];
    [apply Hskip; auto|].
  destruct (bool_decide_reflect (b ∈ (list_to_set failed : gset Z))) as [Ef|Ef]; cbn [orb];
    [apply Hskip; right; set_solver|].
  assert (Ef' : b ∉ failed) by set_solver.
  pose proof (helper_pos_spec helpers b) as Hp. destruct (helper_pos helpers !! b) as [i|].
  - destruct Hp as [Hi <-]. split; [|split].
    + intros b' Hb'. destruct (Z.eq_dec b' helpers.[i]) as [->|]; [|apply H1; lia].
      intros _ _. apply zget_In, Hi.
    + apply Forall_app. split; [exact H2|]. constructor; [exact Hi|constructor].
    + intros v. rewrite tsum_app, H3, xsum_succ by lia. rewrite bool_decide_false by exact Ef'.
      reflexivity.
  - intros Hc. apply Hp, Hc; auto.
Qed.

(** All selected equations. *)
Lemma all_helper_terms_spec helpers failed eqs : valid_system failed eqs ->
  match all_helper_terms k r z n (zlen failed) eqs (glrc_encode_matrix k r z) groups
          (list_to_set failed) (helper_pos helpers) with
  | inl terms => zlen terms = zlen failed /\ Forall (covered helpers failed) eqs /\
      forall i, 0 <= i < zlen failed -> good_terms helpers failed eqs.[i] terms.[i]
  | inr _ => ~ Forall (covered helpers failed) eqs
  end.
Proof.
  intros [_ _ He Hl]. unfold all_helper_terms.
  pose (P := fun m (acc : list (list (Z * byte))) => zlen acc = m /\
    forall i, 0 <= i < m -> covered helpers failed eqs.[i] /\ good_terms helpers failed eqs.[i] acc.[i]).
  assert (H : match all_helper_terms k r z n (zlen failed) eqs (glrc_encode_matrix k r z) groups
          (list_to_set failed) (helper_pos helpers) with
    | inl terms => P (zlen failed) terms | inr _ => ~ Forall (covered helpers failed) eqs end).
  { apply (for_exit_ind P); [lia|split; [reflexivity|intros; lia]|].
    intros i acc Hi [H1 H2].
    pose proof (eq_helper_terms_spec helpers failed eqs.[i]) as Ht.
    specialize (Ht (Forall_zget _ eqs i He ltac:(lia))).
    cbv zeta. destruct (eq_helper_terms _ _ _ _) as [terms|].
    - split; [rewrite length_app; cbn; lia|]. intros j Hj. rewrite zget_app by lia.
      destruct (Z.ltb_spec j (zlen acc)); [apply H2; lia|].
      assert (j = i) as -> by lia. rewrite H1, Z.sub_diag. exact Ht.
    - intros Hall. apply Ht, (Forall_zget _ _ _ Hall). lia. }
  unfold all_helper_terms in H. destruct (for_exit _ _ _ _) as [terms|]; [|exact H].
  destruct H as [H1 H2]. split; [exact H1|]. split; [|intros i Hi; apply H2, Hi].
  apply Forall_forall. intros e Hin%list_elem_of_In. apply In_zget in Hin as (i & Hi & <-).
  apply H2. lia.
Qed.

(** * Solving the system *)

(** One byte column of a stripe: it satisfies every recovery equation. *)
Definition codeword_column (s : Z -> byte) : Prop :=
  forall e, 0 <= e < z + r -> xsum n (fun b => glrc_eq_coef k r z e b ⊗ s b) = x00.

(** The surviving part of an equation is the system applied to the lost blocks. *)
Lemma surviving_part failed eqs s ei : valid_system failed eqs -> codeword_column s ->
  0 <= ei < zlen failed ->
  xsum n (fun b => if bool_decide (b ∈ failed) then x00 else glrc_eq_coef k r z eqs.[ei] b ⊗ s b) =
  mxv (zlen failed) (system_mx failed eqs) (fun t => s failed.[t]) ei.
Proof.
  intros [Hnd Hf He Hl] Hs Hei. unfold mxv, system_mx.
  rewrite <- (xsum_members n failed (fun b => glrc_eq_coef k r z eqs.[ei] b ⊗ s b)) by assumption.
  apply bxor_eq_0. rewrite <- xsum_add.
  etransitivity; [|apply (Hs eqs.[ei]), (Forall_zget _ _ _ He); lia].
  apply xsum_ext. intros b Hb. destruct (bool_decide _); ring.
Qed.

Lemma solve_spec helpers failed eqs B (terms : list (list (Z * byte))) s t :
  valid_system failed eqs -> codeword_column s ->
  is_identity (zlen failed) (mxm (zlen failed) B (system_mx failed eqs)) ->
  (forall i, 0 <= i < zlen failed -> good_terms helpers failed eqs.[i] terms.[i]) ->
  0 <= t < zlen failed ->
  xsum (zlen failed) (fun j => B t j ⊗ tsum terms.[j] (fun h => s helpers.[h])) = s failed.[t].
Proof.
  intros Hv Hs HI Hg Ht.
  rewrite <- (left_inverse_solves _ _ _ (fun t => s failed.[t]) HI t Ht).
  apply xsum_ext. intros j Hj. destruct (Hg j Hj) as [_ Hsum]. rewrite Hsum.
  rewrite (surviving_part failed eqs s) by assumption. reflexivity.
Qed.
End System.

(** * The decoders *)

(** A stripe of [block_size]-byte blocks in the code. *)
Definition stripe_ok (k r z bs : Z) (stripe : list block) : Prop :=
  forall i, 0 <= i < bs -> codeword_column k r z (fun b => stripe.[b].[i]).

(** The helper buffers hold the helper blocks. *)
Definition holds (helpers : list Z) (ptrs : list block) (bs : Z) (stripe : list block) : Prop :=
  forall h i, 0 <= h < zlen helpers -> 0 <= i < bs -> ptrs.[h].[i] = stripe.[helpers.[h]].[i].

(** The outputs hold bytes [lo .. hi-1] of the lost blocks, from offset [base]. *)
Definition restored (failed : list Z) (stripe : list block) (len lo hi base : Z) (rec : list block)
  : Prop :=
  zlen rec = zlen failed /\
  forall t, 0 <= t < zlen failed -> zlen rec.[t] = len /\
    forall i, lo <= i < hi -> rec.[t].[i - base] = stripe.[failed.[t]].[i].

(** The selected equations determine the lost blocks and use only helpers. *)
Definition solvable (k r z : Z) (helpers failed eqs : list Z) : Prop :=
  nonsingular (zlen failed) (system_mx k r z failed eqs) /\ Forall (covered k r z helpers failed) eqs.

(** [recovered[t][byte_off] = ...] over a byte range. *)
Lemma fill_columns_spec f lo hi len (g : Z -> Z -> byte) rec : 0 <= f -> 0 <= lo <= hi -> hi <= len ->
  zlen rec = f -> (forall t, 0 <= t < f -> zlen rec.[t] = len) ->
  let rec' := for_range lo hi (fun i rec => for_range 0 f (fun t rec =>
                rec.[t <- rec.[t].[i <- g i t]]) rec) rec in
  zlen rec' = f /\ forall t, 0 <= t < f -> zlen rec'.[t] = len /\
    forall i, lo <= i < hi -> rec'.[t].[i] = g i t.
Proof.
  intros Hf Hlo Hhi Hrec Hlen. cbv zeta.
  pose (P := fun m c (rec : list block) => zlen rec = f /\ forall t, 0 <= t < f -> zlen rec.[t] = len /\
    forall i, lo <= i < m \/ i = m /\ t < c -> rec.[t].[i] = g i t).
  match goal with |- context [for_range lo hi ?b ?s] => assert (H : P hi 0 (for_range lo hi b s)) end.
  { apply (for_range_ind (fun m => P m 0)); [lia| |].
    - split; [exact Hrec|]. intros t Ht. split; [auto|]. intros. lia.
    - intros m rc Hm H0. assert (H : P m f (for_range 0 f (fun t rec => rec.[t <- rec.[t].[m <- g m t]]) rc)).
      { apply (for_range_ind (P m)); [lia|exact H0|]. intros c rc' Hc [H1 H2].
        destruct (H2 c ltac:(lia)) as [Hc1 _].
        split; [rewrite zlen_zset; exact H1|]. intros t Ht. destruct (H2 t Ht) as [H3 H4].
        rewrite zget_zset by lia. destruct (Z.eqb_spec t c) as [->|Hne].
        - split; [rewrite zlen_zset; exact H3|]. intros i Hi. rewrite zget_zset by lia.
          destruct (Z.eqb_spec i m) as [->|]; [reflexivity|]. apply H4. lia.
        - split; [exact H3|]. intros i Hi. apply H4. lia. }
      destruct H as [H1 H2]. split; [exact H1|]. intros t Ht. destruct (H2 t Ht) as [H3 H4].
      split; [exact H3|]. intros i Hi. apply H4. lia. }
  destruct H as [H1 H2]. split; [exact H1|]. intros t Ht. destruct (H2 t Ht) as [H3 H4].
  split; [exact H3|]. intros i Hi. apply H4. lia.
Qed.

(** Row [t] of the folded matrix. *)
Lemma fold_terms_spec f hc A_inv B t e terms m M : 0 <= t < f -> is_mx f f A_inv B -> 0 <= e < f ->
  Forall (fun '(idx, _) => 0 <= idx < hc) terms -> is_mx f hc m M ->
  is_mx f hc
    (if bool_decide (A_inv.[t * f + e] = x00) then m
     else fold_left (fun m '(helper_idx, coef) =>
            m.[t * hc + helper_idx <- m.[t * hc + helper_idx] ⊕ gf_mul A_inv.[t * f + e] coef]) terms m)
    (fun i h => if i =? t then M i h ⊕ B t e ⊗ term_coef terms h else M i h).
Proof.
  intros Ht HA He Hrg HM. mx_get. destruct (bool_decide_reflect (B t e = x00)) as [->|_].
  { eapply is_mx_ext; [exact HM|]. intros i h Hi Hh. cbv beta. destruct (i =? t); ring. }
  revert Hrg. induction terms as [|[idx c] terms IH] using rev_ind; intros Hrg.
  - cbn. eapply is_mx_ext; [exact HM|]. intros i h Hi Hh. cbv beta. destruct (i =? t); ring.
  - apply Forall_app in Hrg as [Hrg Hi]. rewrite Forall_singleton in Hi. cbv beta iota in Hi.
    specialize (IH Hrg). rewrite fold_left_app. cbn [fold_left].
    revert IH. generalize (fold_left (fun m '(helper_idx, coef) =>
       m.[t * hc + helper_idx <- m.[t * hc + helper_idx] ⊕ gf_mul (B t e) coef]) terms m).
    intros m' IH. mx_get. eapply is_mx_ext; [apply is_mx_set; [exact IH|lia..]|].
    intros i h Hi' Hh. cbv beta. unfold term_coef. rewrite tsum_app, Z.eqb_refl, (Z.eqb_sym idx h).
    destruct (Z.eqb_spec i t) as [->|]; cbn [andb]; [|reflexivity].
    destruct (Z.eqb_spec h idx) as [->|]; ring.
Qed.

Lemma direct_matrix_spec f hc A_inv B (terms : list (list (Z * byte))) : 0 <= f -> 0 <= hc ->
  is_mx f f A_inv B ->
  (forall e, 0 <= e < f -> Forall (fun '(idx, _) => 0 <= idx < hc) terms.[e]) ->
  is_mx f hc (direct_matrix f hc A_inv terms)
    (fun t h => xsum f (fun e => B t e ⊗ term_coef terms.[e] h)).
Proof.
  intros Hf Hhc HA Hrg. unfold direct_matrix.
  pose (G := fun m c (t h : Z) =>
    if t <? m then xsum f (fun e => B t e ⊗ term_coef terms.[e] h)
    else if t =? m then xsum c (fun e => B t e ⊗ term_coef terms.[e] h) else x00).
  apply is_mx_ext with (M := G f 0); [|intros t h Ht Hh; unfold G; zcases; reflexivity].
  apply (for_range_ind (fun m a => is_mx f hc a (G m 0))); [lia| |].
  - split; [rewrite zlen_zrepeat by nia; lia|]. intros i j Hi Hj.
    rewrite zget_zrepeat by (apply flat_index_range; lia). unfold G. rewrite (xsum_0 0) by lia.
    zcases; reflexivity.
  - intros t m Ht Hm. apply is_mx_ext with (M := G t f).
    2: { intros t' h Ht' Hh. unfold G. rewrite (xsum_0 0) by lia. zcases; subst; reflexivity. }
    apply (for_range_ind (fun c a => is_mx f hc a (G t c))); [lia|exact Hm|].
    intros e m' He Hm'. cbv zeta.
    eapply is_mx_ext; [apply fold_terms_spec with (B := B) (M := G t e); auto|].
    intros t' h Ht' Hh. cbv beta. unfold G. rewrite (xsum_succ e) by lia.
    destruct (Z.eqb_spec t' t) as [->|]; [|reflexivity]. zcases. reflexivity.
Qed.

Section Decoders.
Context {K : Kernels} {L : KernelLaws K}.
Context (k r z : Z) (Hk : 1 <= k) (Hr : 0 <= r) (Hz : 1 <= z).

Abbreviation n := (k + r + z).
Abbreviation groups := (glrc_build_placement_groups k r z).
Abbreviation build failed eqs :=
  (glrc_ilp_build_inverse k r z n failed eqs (glrc_encode_matrix k r z) groups).
Abbreviation helper_terms helpers failed eqs :=
  (all_helper_terms k r z n (zlen failed) eqs (glrc_encode_matrix k r z) groups
     (list_to_set failed) (helper_pos helpers)).

(** What the two preparation steps yield, by solvability. *)
Lemma prepare_cases helpers failed eqs : valid_system k r z failed eqs ->
  (solvable k r z helpers failed eqs /\
   exists A_inv B terms, build failed eqs = (true, A_inv) /\ zlen A_inv = zlen failed * zlen failed /\
     is_mx (zlen failed) (zlen failed) A_inv B /\
     is_identity (zlen failed) (mxm (zlen failed) B (system_mx k r z failed eqs)) /\
     helper_terms helpers failed eqs = inl terms /\ zlen terms = zlen failed /\
     forall i, 0 <= i < zlen failed -> good_terms k r z helpers failed eqs.[i] terms.[i]) \/
  (~ solvable k r z helpers failed eqs /\
   ((exists A_inv, build failed eqs = (false, A_inv)) \/
    (exists A_inv, build failed eqs = (true, A_inv) /\ helper_terms helpers failed eqs = inr tt))).
Proof.
  intros Hv. pose proof (build_inverse_spec k r z Hk Hr Hz failed eqs Hv) as Hb.
  pose proof (all_helper_terms_spec k r z Hk Hr Hz helpers failed eqs Hv) as Ht.
  unfold solvable. destruct (build failed eqs) as [[] A_inv]; destruct Hb as (H1 & H2 & H3).
  - destruct (H3 eq_refl) as (B & HB & HI).
    destruct (helper_terms helpers failed eqs) as [terms|[]].
    + left. split; [tauto|]. exists A_inv, B, terms. tauto.
    + right. split; [tauto|]. right. eauto.
  - right. split; [|left; eauto]. intros [Hn _]. apply H2 in Hn. discriminate.
Qed.

Lemma eqb_refl_neg (x : Z) : negb (x =? x) = false.
Proof. rewrite Z.eqb_refl. reflexivity. Qed.

(** [decode_glrc_ilp] restores the lost blocks exactly when the selected
    equations determine them from the helpers. *)
Lemma decode_glrc_ilp_spec bs helpers ptrs failed eqs stripe :
  0 <= bs -> valid_system k r z failed eqs -> failed <> [] -> helpers <> [] ->
  stripe_ok k r z bs stripe -> holds helpers ptrs bs stripe ->
  (solvable k r z helpers failed eqs ->
   exists rec, decode_glrc_ilp k r z bs helpers ptrs failed eqs = Some rec /\
               restored failed stripe bs 0 bs 0 rec) /\
  (~ solvable k r z helpers failed eqs -> decode_glrc_ilp k r z bs helpers ptrs failed eqs = None).
Proof.
  intros Hbs Hv Hf Hh Hs Hp. unfold decode_glrc_ilp.
  assert (Hf1 : 1 <= zlen failed) by (destruct failed; [contradiction|cbn [length]; lia]).
  assert (Hh1 : 1 <= zlen helpers) by (destruct helpers; [contradiction|cbn [length]; lia]).
  rewrite (vs_len _ _ _ _ _ Hv), eqb_refl_neg.
  destruct (Z.eqb_spec (zlen failed) 0); [lia|]. cbn [orb].
  destruct (prepare_cases helpers failed eqs Hv)
    as [[Hsv (A_inv & B & terms & E1 & G1 & G2 & G3 & E2 & G4 & G5)]|[Hns Hbad]].
  2: { split; [contradiction|]. intros _. destruct Hbad as [[A_inv ->]|(A_inv & -> & ->)]; reflexivity. }
  split; [|contradiction]. intros _. rewrite E1, E2. cbn [negb].
  destruct (Z.leb_spec (zlen helpers) 0); [lia|]. eexists. split; [reflexivity|].
  pose proof (direct_matrix_spec (zlen failed) (zlen helpers) A_inv B terms ltac:(lia) ltac:(lia) G2
                (fun e He => proj1 (G5 e He))) as HM.
  assert (Hbuf : zlen (zrepeat (new_bytes bs) (zlen failed)) = zlen failed) by (apply zlen_zrepeat; lia).
  destruct (encode_with_tables_spec bs (zlen helpers) (zlen failed)
              (direct_matrix (zlen failed) (zlen helpers) A_inv terms)
              (new_bytes (zlen helpers * zlen failed * 32)) ptrs (zrepeat (new_bytes bs) (zlen failed)))
    as [W1 W2]; try lia.
  { unfold new_bytes. rewrite zlen_zrepeat by nia. lia. }
  { split; [lia|]. intros l Hl. rewrite zget_zrepeat by lia. unfold new_bytes. rewrite zlen_zrepeat; lia. }
  split; [lia|]. intros t Ht. destruct (W2 t ltac:(lia)) as [W3 W4]. split.
  { rewrite W3, zget_zrepeat by lia. apply zlen_zrepeat. lia. }
  intros i Hi. rewrite Z.sub_0_r, W4 by lia. destruct (Z.ltb_spec t (zlen failed)); [|lia].
  destruct (Z.ltb_spec i bs); [|lia]. cbn [andb]. unfold gf_dot.
  rewrite <- (solve_spec k r z helpers failed eqs B terms (fun b => stripe.[b].[i]) t) by auto.
  rewrite (xsum_ext (zlen helpers) _ (fun h => xsum (zlen failed) (fun e =>
    B t e ⊗ (term_coef terms.[e] h ⊗ stripe.[helpers.[h]].[i])))).
  2: { intros h Hh'. mx_get. rewrite Hp by lia. rewrite <- xsum_mul_r. apply xsum_ext.
       intros. ring. }
  rewrite xsum_swap. apply xsum_ext. intros e He. rewrite xsum_mul_l.
  rewrite (tsum_by_helper (zlen helpers)) by (apply G5, He). reflexivity.
Qed.

Lemma rhs_byte_tsum helpers ptrs bs stripe i terms : holds helpers ptrs bs stripe -> 0 <= i < bs ->
  Forall (fun '(idx, _) => 0 <= idx < zlen helpers) terms ->
  rhs_byte ptrs i terms = tsum terms (fun h => stripe.[helpers.[h]].[i]).
Proof.
  intros Hp Hi. unfold rhs_byte. induction terms as [|[idx c] terms IH] using rev_ind; intros Hrg.
  - reflexivity.
  - apply Forall_app in Hrg as [Hrg Hx]. rewrite Forall_singleton in Hx. cbv beta iota in Hx.
    rewrite fold_left_app, tsum_app, <- IH by exact Hrg. cbn [fold_left]. rewrite Hp by lia. reflexivity.
Qed.

Lemma solve_column_spec f A_inv B col t : 0 <= t < f -> is_mx f f A_inv B ->
  solve_column f A_inv (map col (zseq f)) t = xsum f (fun j => B t j ⊗ col j).
Proof.
  intros Ht HA. apply for_range_ext. intros j s Hj. mx_get.
  rewrite zget_map, zget_zseq by (rewrite ?zlen_seqZ; lia). reflexivity.
Qed.

Lemma zget_blocks m c t : 0 <= t < c -> (zrepeat (new_bytes m) c).[t] = new_bytes m.
Proof. intros. apply zget_zrepeat. lia. Qed.

(** The byte-range decoder, on the bytes of its range. *)
Lemma decode_glrc_ilp_range_spec bs helpers ptrs failed eqs stripe off len :
  valid_system k r z failed eqs -> failed <> [] ->
  stripe_ok k r z bs stripe -> holds helpers ptrs bs stripe ->
  0 <= off -> 1 <= len -> off + len <= bs ->
  (solvable k r z helpers failed eqs ->
   exists rec, decode_glrc_ilp_range k r z bs helpers ptrs failed eqs off len = Some rec /\
               restored failed stripe bs off (off + len) 0 rec) /\
  (~ solvable k r z helpers failed eqs ->
   decode_glrc_ilp_range k r z bs helpers ptrs failed eqs off len = None).
Proof.
  intros Hv Hf Hs Hp Ho Hl Hb. unfold decode_glrc_ilp_range.
  assert (Hf1 : 1 <= zlen failed) by (destruct failed; [contradiction|cbn [length]; lia]).
  rewrite (vs_len _ _ _ _ _ Hv), eqb_refl_neg. rewrite Z.gtb_ltb.
  do 3 (zcase; [lia|]). cbn [orb]. do 2 (zcase; [lia|]). cbn [orb].
  destruct (prepare_cases helpers failed eqs Hv)
    as [[Hsv (A_inv & B & terms & E1 & G1 & G2 & G3 & E2 & G4 & G5)]|[Hns Hbad]].
  2: { split; [contradiction|]. intros _. destruct Hbad as [[A_inv ->]|(A_inv & -> & ->)]; reflexivity. }
  split; [|contradiction]. intros _. rewrite E1, E2. cbn [negb]. eexists. split; [reflexivity|].
  destruct (fill_columns_spec (zlen failed) off (off + len) bs
    (fun i t => solve_column (zlen failed) A_inv
       (map (fun ei => rhs_byte ptrs i terms.[ei]) (zseq (zlen failed))) t)
    (zrepeat (new_bytes bs) (zlen failed))) as [F1 F2]; try lia.
  { apply zlen_zrepeat. lia. }
  { intros t Ht. rewrite zget_blocks by lia. apply zlen_zrepeat. lia. }
  split; [exact F1|]. intros t Ht. destruct (F2 t Ht) as [F3 F4]. split; [exact F3|].
  intros i Hi. rewrite Z.sub_0_r, F4 by lia. rewrite (solve_column_spec _ _ B) by assumption.
  rewrite <- (solve_spec k r z helpers failed eqs B terms (fun b => stripe.[b].[i]) t)
    by (auto; apply Hs; lia).
  apply xsum_ext. intros j Hj. rewrite (rhs_byte_tsum helpers ptrs bs stripe) by (auto; try lia; apply G5, Hj).
  reflexivity.
Qed.

(** ** The compact decoders over prepared helper terms *)

Lemma tsum_by_position terms v :
  tsum terms v = xsum (zlen terms) (fun j => (map snd terms).[j] ⊗ v (map fst terms).[j]).
Proof.
  induction terms as [|[idx c] terms IH] using rev_ind; [reflexivity|].
  rewrite tsum_app, IH, length_app, Nat2Z.inj_add, !map_app. cbn [length map fst snd].
  change (Z.of_nat 1) with 1. rewrite xsum_succ by lia.
  rewrite !zget_app, !length_map, Z.ltb_irrefl, Z.sub_diag by lia. f_equal.
  apply xsum_ext. intros j Hj. rewrite !zget_app, !length_map by lia. zcases. reflexivity.
Qed.

Lemma rhs_of_equation_spec len off ptrs terms g_tbls dst : 0 <= len -> 0 <= off ->
  1 <= zlen terms -> is_tbls (zlen terms) (map snd terms) g_tbls -> zlen dst = len ->
  let res := rhs_of_equation len off ptrs (map fst terms) g_tbls dst in
  zlen res = len /\
  forall i, 0 <= i < len -> res.[i] = tsum terms (fun h => ptrs.[h].[off + i]).
Proof.
  intros Hl Ho Ht Hg Hd. cbv zeta. unfold rhs_of_equation. rewrite length_map.
  destruct (ec_encode_data_avx2_spec len (zlen terms) 1 (map snd terms) g_tbls
    (map (fun idx => zdrop off ptrs.[idx]) (map fst terms)) [dst]) as [_ W]; try lia.
  { rewrite Z.mul_1_l. exact Hg. }
  { split; [cbn; lia|]. intros l Hl'. replace l with 0 by lia. change ([dst].[0]) with dst. lia. }
  destruct (W 0 ltac:(cbn; lia)) as [W1 W2]. split; [rewrite W1; exact Hd|].
  intros i Hi. rewrite W2 by lia. destruct (Z.ltb_spec i len); [|lia]. cbn [andb Z.ltb Z.compare].
  unfold gf_dot. rewrite tsum_by_position. apply xsum_ext. intros j Hj.
  rewrite (zget_map (fun idx => zdrop off ptrs.[idx])) by (rewrite length_map; lia).
  rewrite zget_zdrop by lia. reflexivity.
Qed.

(** The right-hand sides, as far as equation [m]. *)
Definition rhs_upto (f len off : Z) (ptrs : list block) (terms : list (list (Z * byte))) (m : Z)
    (rhs : list block) : Prop :=
  zlen rhs = f /\ forall e, 0 <= e < f -> zlen rhs.[e] = len /\
    forall i, 0 <= i < len -> rhs.[e].[i] =
      if e <? m then tsum terms.[e] (fun h => ptrs.[h].[off + i]) else x00.

Lemma rhs_upto_skip f len off ptrs terms m rhs : 0 <= m < f -> zlen terms.[m] = 0 ->
  rhs_upto f len off ptrs terms m rhs -> rhs_upto f len off ptrs terms (m + 1) rhs.
Proof.
  intros Hm H0 [H1 H2]. split; [exact H1|]. intros e He. destruct (H2 e He) as [H3 H4].
  split; [exact H3|]. intros i Hi. rewrite H4 by lia. destruct (Z.eq_dec e m) as [->|].
  - destruct terms.[m]; [|cbn in H0; lia]. zcases; reflexivity.
  - zcases; reflexivity.
Qed.

Lemma rhs_upto_step f len off ptrs terms m rhs g_tbls : 0 <= m < f -> 0 <= len -> 0 <= off ->
  1 <= zlen terms.[m] -> is_tbls (zlen terms.[m]) (map snd terms.[m]) g_tbls ->
  rhs_upto f len off ptrs terms m rhs ->
  rhs_upto f len off ptrs terms (m + 1)
    (rhs.[m <- rhs_of_equation len off ptrs (map fst terms.[m]) g_tbls rhs.[m]]).
Proof.
  intros Hm Hl Ho Ht Hg [H1 H2]. destruct (H2 m Hm) as [Hm1 _].
  destruct (rhs_of_equation_spec len off ptrs terms.[m] g_tbls rhs.[m]) as [R1 R2]; auto.
  split; [rewrite zlen_zset; exact H1|]. intros e He. destruct (H2 e He) as [H3 H4].
  rewrite zget_zset by lia. destruct (Z.eqb_spec e m) as [->|].
  - split; [exact R1|]. intros i Hi. rewrite R2 by lia. zcases. reflexivity.
  - split; [exact H3|]. intros i Hi. rewrite H4 by lia. zcases; reflexivity.
Qed.

(** The final product with the inverse. *)
Lemma inverse_product f len off ptrs terms A_inv B inv_g_tbls rhs rec : 1 <= f -> 0 <= len ->
  is_mx f f A_inv B -> is_tbls (f * f) A_inv inv_g_tbls ->
  rhs_upto f len off ptrs terms f rhs -> zlen rec = f ->
  (forall t, 0 <= t < f -> zlen rec.[t] = len) ->
  let out := ec_encode_data_avx2 len f f inv_g_tbls rhs rec in
  zlen out = f /\ forall t, 0 <= t < f -> zlen out.[t] = len /\ forall i, 0 <= i < len ->
    out.[t].[i] = xsum f (fun e => B t e ⊗ tsum terms.[e] (fun h => ptrs.[h].[off + i])).
Proof.
  intros Hf Hl HA Hg [H1 H2] Hrec Hlen. cbv zeta.
  destruct (ec_encode_data_avx2_spec len f f A_inv inv_g_tbls rhs rec) as [W1 W2]; auto; try lia.
  { split; [lia|]. intros l Hl'. rewrite Hlen by lia. lia. }
  split; [lia|]. intros t Ht. destruct (W2 t ltac:(lia)) as [W3 W4].
  split; [rewrite W3; auto|]. intros i Hi. rewrite W4 by lia. zcases. unfold gf_dot.
  apply xsum_ext. intros j Hj. mx_get. destruct (H2 j Hj) as [_ ->]; [|lia]. zcases. reflexivity.
Qed.

Lemma rhs_upto_0 f len off ptrs terms : 0 <= f -> 0 <= len ->
  rhs_upto f len off ptrs terms 0 (zrepeat (zrepeat x00 len) f).
Proof.
  intros Hf Hl. split; [apply zlen_zrepeat; lia|]. intros e He. rewrite zget_zrepeat by lia.
  split; [apply zlen_zrepeat; lia|]. intros i Hi. rewrite zget_zrepeat by lia. zcases. reflexivity.
Qed.

Lemma zget_map_map {A B : Type} `{Inhabited A, Inhabited B} (g : A -> B) (l : list (list A)) i :
  (map (map g) l).[i] = map g l.[i].
Proof.
  destruct (Z.ltb_spec i 0); [unfold zget; zcases; reflexivity|].
  destruct (Z.ltb_spec i (zlen l)); [apply zget_map; lia|].
  rewrite !zget_ge by (rewrite ?length_map; lia). reflexivity.
Qed.

Lemma ec_init_tables_row (terms : list (Z * byte)) : 1 <= zlen terms ->
  is_tbls (zlen terms) (map snd terms)
    (ec_init_tables (zlen terms) 1 (map snd terms) (new_bytes (zlen terms * 32))).
Proof.
  intros Ht. rewrite <- (Z.mul_1_l (zlen terms)) at 1. apply ec_init_tables_spec; try lia.
  unfold new_bytes. rewrite zlen_zrepeat; lia.
Qed.

Lemma helper_compact_value ptrs A_inv B (terms : list (list (Z * byte))) f base off len : 1 <= f -> 0 <= base <= off -> 0 <= len ->
  zlen A_inv = f * f -> is_mx f f A_inv B -> zlen terms = f ->
  exists rec, decode_glrc_ilp_helper_compact ptrs A_inv (map (map fst) terms) (map (map snd) terms)
                f base off len = Some rec /\
    zlen rec = f /\ forall t, 0 <= t < f -> zlen rec.[t] = len /\ forall i, 0 <= i < len ->
      rec.[t].[i] = xsum f (fun e => B t e ⊗ tsum terms.[e] (fun h => ptrs.[h].[off - base + i])).
Proof.
  intros Hf Hb Hl HA HB Ht. unfold decode_glrc_ilp_helper_compact. rewrite !length_map, HA, Ht.
  rewrite !eqb_refl_neg.
  destruct (Z.leb_spec f 0), (Z.ltb_spec base 0), (Z.ltb_spec off base), (Z.ltb_spec len 0);
    try lia. cbn [orb].
  destruct (Z.eqb_spec len 0) as [->|].
  { eexists. split; [reflexivity|]. split; [apply zlen_zrepeat; lia|]. intros t Ht'.
    rewrite zget_zrepeat by lia. split; [reflexivity|]. intros. lia. }
  match goal with |- context [for_exit 0 f ?b ?s] =>
    assert (HX : match for_exit 0 f b s with
                | inl rhs => rhs_upto f len (off - base) ptrs terms f rhs | inr _ => False end) end.
  { apply (for_exit_ind (rhs_upto f len (off - base) ptrs terms));
      [lia|apply rhs_upto_0; lia|].
    intros e rhs He Hrhs. rewrite !zget_map_map, !length_map, eqb_refl_neg. cbv zeta.
    destruct (Z.eqb_spec (zlen terms.[e]) 0); [apply rhs_upto_skip; auto|].
    apply rhs_upto_step; auto; try lia. apply ec_init_tables_row. lia. }
  destruct (for_exit _ _ _ _) as [rhs|]; [|contradiction]. eexists. split; [reflexivity|].
  eapply inverse_product; eauto; try lia.
  - apply ec_init_tables_spec; try lia. unfold new_bytes. rewrite zlen_zrepeat by nia. lia.
  - apply zlen_zrepeat. lia.
  - intros t Ht'. rewrite zget_zrepeat by lia. apply zlen_zrepeat. lia.
Qed.

(** Preparing the terms and decoding a byte range from buffers that start at
    [base] restores that range of the lost blocks. *)
Lemma helper_compact_spec helpers ptrs failed eqs stripe base off len :
  valid_system k r z failed eqs -> failed <> [] -> helpers <> [] ->
  stripe_ok k r z (off + len) stripe -> 0 <= base <= off -> 0 <= len ->
  (forall h i, 0 <= h < zlen helpers -> off <= i < off + len ->
     ptrs.[h].[i - base] = stripe.[helpers.[h]].[i]) ->
  match glrc_ilp_prepare_helper_decode k r z helpers failed eqs with
  | Some (A_inv, indices, coefs) => solvable k r z helpers failed eqs /\
      exists rec, decode_glrc_ilp_helper_compact ptrs A_inv indices coefs (zlen failed) base off len
                  = Some rec /\ restored failed stripe len off (off + len) off rec
  | None => ~ solvable k r z helpers failed eqs
  end.
Proof.
  intros Hv Hf Hh Hs Hb Hl Hp. unfold glrc_ilp_prepare_helper_decode.
  assert (Hf1 : 1 <= zlen failed) by (destruct failed; [contradiction|cbn [length]; lia]).
  assert (Hh1 : 1 <= zlen helpers) by (destruct helpers; [contradiction|cbn [length]; lia]).
  rewrite (vs_len _ _ _ _ _ Hv), eqb_refl_neg. do 2 (zcase; [lia|]). cbn [orb].
  destruct (prepare_cases helpers failed eqs Hv)
    as [[Hsv (A_inv & B & terms & E1 & G1 & G2 & G3 & E2 & G4 & G5)]|[Hns Hbad]].
  2: { destruct Hbad as [[A_inv ->]|(A_inv & -> & ->)]; exact Hns. }
  rewrite E1, E2. cbn [negb]. split; [exact Hsv|].
  destruct (helper_compact_value ptrs A_inv B terms (zlen failed) base off len)
    as (rec & E & R1 & R2); auto.
  exists rec. split; [exact E|]. split; [exact R1|]. intros t Ht. destruct (R2 t Ht) as [R3 R4].
  split; [exact R3|]. intros i Hi. rewrite R4 by lia.
  rewrite <- (solve_spec k r z helpers failed eqs B terms (fun b => stripe.[b].[i]) t)
    by (auto; apply Hs; lia).
  apply xsum_ext. intros e He. f_equal. destruct (G5 e He) as [Hrg _].
  rewrite !(tsum_by_helper (zlen helpers)) by exact Hrg. apply xsum_ext. intros h Hh'.
  rewrite <- Hp by lia. do 3 f_equal. lia.
Qed.

Lemma reset_rhs_spec f len off ptrs terms rhs0 : 0 <= f -> 0 <= len ->
  rhs_upto f len off ptrs terms 0 (reset_rhs f len rhs0).
Proof.
  intros Hf Hl. unfold reset_rhs. set (rhs1 := if negb _ then _ else rhs0).
  assert (Hz1 : zlen rhs1 = f) by (unfold rhs1; destruct (Z.eqb_spec (zlen rhs0) f);
    [assumption|apply zlen_zrepeat; lia]).
  pose (P := fun m (rhs : list block) => zlen rhs = f /\ forall e, 0 <= e < m ->
    zlen rhs.[e] = len /\ forall i, 0 <= i < len -> rhs.[e].[i] = x00).
  match goal with |- rhs_upto _ _ _ _ _ _ (for_range 0 f ?b rhs1) =>
    assert (HP : P f (for_range 0 f b rhs1)) end.
  { apply (for_range_ind P); [lia|split; [exact Hz1|intros; lia]|].
    intros m rhs Hm [P1 P2]. split; [rewrite zlen_zset; exact P1|]. intros e He.
    rewrite zget_zset by lia. destruct (Z.eqb_spec e m) as [->|]; [|apply P2; lia].
    destruct (Z.eqb_spec (zlen rhs.[m]) len) as [El|]; cbn [negb].
    - split; [rewrite length_map; exact El|]. intros i Hi. rewrite zget_map by lia. reflexivity.
    - split; [apply zlen_zrepeat; lia|]. intros i Hi. apply zget_zrepeat. lia. }
  destruct HP as [P1 P2]. split; [exact P1|]. intros e He. destruct (P2 e He) as [P3 P4].
  split; [exact P3|]. intros i Hi. rewrite P4 by lia. zcases. reflexivity.
Qed.

Lemma resize_recovered_spec f len rec0 : 0 <= f -> 0 <= len ->
  zlen (resize_recovered f len rec0) = f /\
  forall t, 0 <= t < f -> zlen (resize_recovered f len rec0).[t] = len.
Proof.
  intros Hf Hl. unfold resize_recovered. set (rec1 := if negb _ then _ else rec0).
  assert (Hz1 : zlen rec1 = f) by (unfold rec1; destruct (Z.eqb_spec (zlen rec0) f);
    [assumption|apply zlen_zrepeat; lia]).
  apply (for_range_ind (fun m (rec : list block) => zlen rec = f /\ forall t, 0 <= t < m ->
    zlen rec.[t] = len)); [lia|split; [exact Hz1|intros; lia]|].
  intros m rc Hm [P1 P2]. destruct (Z.eqb_spec (zlen rc.[m]) len) as [El|]; cbn [negb].
  - split; [exact P1|]. intros t Ht'. destruct (Z.eq_dec t m) as [->|]; [exact El|apply P2; lia].
  - split; [rewrite zlen_zset; exact P1|]. intros t Ht'. rewrite zget_zset by lia.
    destruct (Z.eqb_spec t m); [apply zlen_zrepeat; lia|apply P2; lia].
Qed.

(** With tables prepared by the caller, and whatever its scratch buffers held,
    the result is the same. *)
Lemma helper_compact_prepared_eq ptrs A_inv B (terms : list (list (Z * byte))) g_tbls inv_g_tbls f base off len rhs0 rec0 :
  1 <= f -> 0 <= base <= off -> 0 <= len ->
  zlen A_inv = f * f -> is_mx f f A_inv B -> zlen terms = f ->
  zlen g_tbls = f -> zlen inv_g_tbls = f * f * 32 -> is_tbls (f * f) A_inv inv_g_tbls ->
  (forall e, 0 <= e < f -> zlen g_tbls.[e] = zlen terms.[e] * 32 /\
     is_tbls (zlen terms.[e]) (map snd terms.[e]) g_tbls.[e]) ->
  exists rhs rec,
    decode_glrc_ilp_helper_compact_prepared ptrs (map (map fst) terms) g_tbls inv_g_tbls
      f base off len rhs0 rec0 = (true, (rhs, rec)) /\
    decode_glrc_ilp_helper_compact ptrs A_inv (map (map fst) terms) (map (map snd) terms)
      f base off len = Some rec.
Proof.
  intros Hf Hb Hl HA HB Ht Hg1 Hg2 Hg3 Hg4.
  destruct (helper_compact_value ptrs A_inv B terms f base off len) as (rec & E & R1 & R2); auto.
  unfold decode_glrc_ilp_helper_compact_prepared. rewrite length_map, Hg1, Hg2, Ht, !eqb_refl_neg.
  destruct (Z.leb_spec f 0), (Z.ltb_spec base 0), (Z.ltb_spec off base), (Z.ltb_spec len 0);
    try lia. cbn [orb].
  pose proof (reset_rhs_spec f len (off - base) ptrs terms rhs0 ltac:(lia) Hl) as HR.
  destruct (resize_recovered_spec f len rec0 ltac:(lia) Hl) as [O1 O2].
  assert (Huniq : forall rec', zlen rec' = f ->
    (forall t, 0 <= t < f -> zlen rec'.[t] = len /\ forall i, 0 <= i < len ->
      rec'.[t].[i] = xsum f (fun e => B t e ⊗ tsum terms.[e] (fun h => ptrs.[h].[off - base + i]))) ->
    rec' = rec).
  { intros rec' Q1 Q2. apply zlist_ext; [lia|]. intros t Ht'.
    destruct (Q2 t ltac:(lia)) as [Q3 Q4], (R2 t ltac:(lia)) as [R3 R4].
    apply zlist_ext; [lia|]. intros i Hi. rewrite Q4, R4 by lia. reflexivity. }
  destruct (Z.eqb_spec len 0) as [->|].
  { eexists _, _. split; [reflexivity|]. rewrite E. f_equal. symmetry. apply Huniq; [exact O1|].
    intros t Ht'. split; [auto|]. intros. lia. }
  match goal with |- context [for_exit 0 f ?b ?s] =>
    assert (HX : match for_exit 0 f b s with
                | inl rhs => rhs_upto f len (off - base) ptrs terms f rhs | inr _ => False end) end.
  { apply (for_exit_ind (rhs_upto f len (off - base) ptrs terms)); [lia|exact HR|].
    intros e rhs He Hrhs. rewrite zget_map_map, length_map. cbv zeta.
    destruct (Hg4 e He) as [Hg5 Hg6]. rewrite Hg5, eqb_refl_neg.
    destruct (Z.eqb_spec (zlen terms.[e]) 0); [apply rhs_upto_skip; auto|].
    apply rhs_upto_step; auto; lia. }
  destruct (for_exit _ _ _ _) as [rhs|]; [|contradiction].
  eexists rhs, _. split; [reflexivity|]. rewrite E. f_equal. symmetry.
  pose proof (inverse_product f len (off - base) ptrs terms A_inv B inv_g_tbls rhs
    (resize_recovered f len rec0) ltac:(lia) ltac:(lia) HB Hg3 HX O1 O2) as [Q1 Q2]. apply Huniq; assumption.
Qed.

(** ** Decoding from the right-hand sides *)

(** Buffer [ei] holds the surviving part of equation [ei], from offset [base]. *)
Definition holds_rhs (failed eqs : list Z) (rhs_ptrs : list block) (lo hi base : Z) (stripe : list block)
  : Prop :=
  forall ei i, 0 <= ei < zlen failed -> lo <= i < hi ->
    rhs_ptrs.[ei].[i - base] =
    xsum n (fun b => if bool_decide (b ∈ failed) then x00
                     else glrc_eq_coef k r z eqs.[ei] b ⊗ stripe.[b].[i]).

Lemma rhs_solve failed eqs rhs_ptrs lo hi base stripe A_inv B t i :
  valid_system k r z failed eqs -> codeword_column k r z (fun b => stripe.[b].[i]) ->
  holds_rhs failed eqs rhs_ptrs lo hi base stripe ->
  is_mx (zlen failed) (zlen failed) A_inv B ->
  is_identity (zlen failed) (mxm (zlen failed) B (system_mx k r z failed eqs)) ->
  0 <= t < zlen failed -> lo <= i < hi ->
  solve_column (zlen failed) A_inv (map (fun ei => rhs_ptrs.[ei].[i - base]) (zseq (zlen failed))) t =
  stripe.[failed.[t]].[i].
Proof.
  intros Hv Hs Hp HA HI Ht Hi. rewrite (solve_column_spec _ _ B) by assumption.
  rewrite <- (left_inverse_solves _ _ _ (fun t => stripe.[failed.[t]].[i]) HI t Ht).
  apply xsum_ext. intros j Hj. rewrite Hp by assumption.
  rewrite (surviving_part k r z failed eqs (fun b => stripe.[b].[i])) by assumption. reflexivity.
Qed.

Lemma decode_glrc_ilp_rhs_range_spec bs rhs_ptrs failed eqs stripe off len :
  valid_system k r z failed eqs -> failed <> [] -> stripe_ok k r z bs stripe ->
  0 <= off -> 0 <= len -> off + len <= bs ->
  holds_rhs failed eqs rhs_ptrs off (off + len) 0 stripe ->
  (nonsingular (zlen failed) (system_mx k r z failed eqs) ->
   exists rec, decode_glrc_ilp_rhs_range k r z bs rhs_ptrs failed eqs off len = Some rec /\
               restored failed stripe bs off (off + len) 0 rec) /\
  (~ nonsingular (zlen failed) (system_mx k r z failed eqs) ->
   decode_glrc_ilp_rhs_range k r z bs rhs_ptrs failed eqs off len = None).
Proof.
  intros Hv Hf Hs Ho Hl Hb Hp. unfold decode_glrc_ilp_rhs_range.
  assert (Hf1 : 1 <= zlen failed) by (destruct failed; [contradiction|cbn [length]; lia]).
  rewrite (vs_len _ _ _ _ _ Hv), eqb_refl_neg, Z.gtb_ltb.
  destruct (Z.ltb_spec off 0), (Z.ltb_spec len 0), (Z.ltb_spec bs (off + len)); try lia. cbn [orb].
  destruct (Z.eqb_spec (zlen failed) 0); [lia|]. cbn [orb].
  pose proof (build_inverse_spec k r z Hk Hr Hz failed eqs Hv) as Hinv.
  destruct (build failed eqs) as [ok A_inv]. destruct Hinv as (I1 & I2 & I3).
  destruct ok; cbn [negb].
  2: { split; [intros Hn; apply I2 in Hn; discriminate|reflexivity]. }
  split; [|intros Hn; exfalso; apply Hn, I2; reflexivity]. intros _.
  destruct (I3 eq_refl) as (B & HB & HI). eexists. split; [reflexivity|].
  destruct (fill_columns_spec (zlen failed) off (off + len) bs
    (fun i t => solve_column (zlen failed) A_inv
       (map (fun ei => rhs_ptrs.[ei].[i]) (zseq (zlen failed))) t)
    (zrepeat (memset (new_bytes bs) x00 bs) (zlen failed))) as [F1 F2]; try lia.
  { apply zlen_zrepeat. lia. }
  { intros t Ht. rewrite zget_zrepeat by lia. unfold new_bytes.
    rewrite zlen_memset by (rewrite zlen_zrepeat; lia). apply zlen_zrepeat. lia. }
  split; [exact F1|]. intros t Ht. destruct (F2 t Ht) as [F3 F4]. split; [exact F3|].
  intros i Hi. rewrite Z.sub_0_r, F4 by lia.
  rewrite <- (rhs_solve failed eqs rhs_ptrs off (off + len) 0 stripe A_inv B t i) by (auto; apply Hs; lia).
  rewrite Z.sub_0_r. reflexivity.
Qed.

(** The inverse prepared once serves [decode_glrc_ilp_rhs_compact]. *)
Lemma rhs_compact_spec rhs_ptrs failed eqs stripe off len :
  valid_system k r z failed eqs -> failed <> [] -> stripe_ok k r z (off + len) stripe ->
  0 <= off -> 0 <= len -> zlen rhs_ptrs = zlen failed ->
  holds_rhs failed eqs rhs_ptrs off (off + len) off stripe ->
  match glrc_ilp_prepare_inverse k r z failed eqs with
  | Some A_inv => nonsingular (zlen failed) (system_mx k r z failed eqs) /\
      exists rec, decode_glrc_ilp_rhs_compact rhs_ptrs A_inv (zlen failed) len = Some rec /\
                  restored failed stripe len off (off + len) off rec
  | None => ~ nonsingular (zlen failed) (system_mx k r z failed eqs)
  end.
Proof.
  intros Hv Hf Hs Ho Hl Hrl Hp. unfold glrc_ilp_prepare_inverse.
  assert (Hf1 : 1 <= zlen failed) by (destruct failed; [contradiction|cbn [length]; lia]).
  rewrite (vs_len _ _ _ _ _ Hv), eqb_refl_neg. destruct (Z.eqb_spec (zlen failed) 0); [lia|]. cbn [orb].
  pose proof (build_inverse_spec k r z Hk Hr Hz failed eqs Hv) as Hinv.
  destruct (build failed eqs) as [ok A_inv]. destruct Hinv as (I1 & I2 & I3).
  destruct ok; [|intros Hn; apply I2 in Hn; discriminate].
  split; [apply I2; reflexivity|]. destruct (I3 eq_refl) as (B & HB & HI).
  unfold decode_glrc_ilp_rhs_compact. rewrite I1, Hrl, !eqb_refl_neg.
  destruct (Z.leb_spec (zlen failed) 0), (Z.ltb_spec len 0); try lia. cbn [orb].
  eexists. split; [reflexivity|].
  destruct (fill_columns_spec (zlen failed) 0 len len
    (fun i t => solve_column (zlen failed) A_inv
       (map (fun ei => rhs_ptrs.[ei].[i]) (zseq (zlen failed))) t)
    (zrepeat (zrepeat x00 len) (zlen failed))) as [F1 F2]; try lia.
  { apply zlen_zrepeat. lia. }
  { intros t Ht. rewrite zget_zrepeat by lia. apply zlen_zrepeat. lia. }
  split; [exact F1|]. intros t Ht. destruct (F2 t Ht) as [F3 F4]. split; [exact F3|].
  intros i Hi. rewrite F4 by lia. apply rhs_solve with (eqs := eqs) (lo := off) (hi := off + len) (B := B);
    auto. apply Hs. lia.
Qed.

Lemma decode_matrix_invertible_spec failed eqs : valid_system k r z failed eqs -> failed <> [] ->
  glrc_ilp_decode_matrix_invertible k r z failed eqs = true <->
  nonsingular (zlen failed) (system_mx k r z failed eqs).
Proof.
  intros Hv Hf. unfold glrc_ilp_decode_matrix_invertible.
  assert (Hf1 : 1 <= zlen failed) by (destruct failed; [contradiction|cbn [length]; lia]).
  rewrite (vs_len _ _ _ _ _ Hv), eqb_refl_neg. destruct (Z.eqb_spec (zlen failed) 0); [lia|]. cbn [orb].
  pose proof (build_inverse_spec k r z Hk Hr Hz failed eqs Hv) as Hinv.
  destruct (build failed eqs) as [ok A_inv]. destruct Hinv as (_ & I2 & _). exact I2.
Qed.
End Decoders.
