(* ===== verification/LocalRepair.v ===== *)
(** Local repair: in every LRC family the local parity is a fixed combination of
    the blocks of its group, so a single lost block of a group is the matching
    combination of the others.  Proved for the generators and the single-block
    decoders of [unilrc_encoder.cpp]. *)
From S2P Require Import Prelude GF256 LinAlg GFMatrix EcKernel Groups Codes Decode DecodeSpec.
From Stdlib Require Import Field.

(** * Generators of the families that split the data evenly *)

(** [row = i / (k / z)] *)
Definition even_group (k z i : Z) : Z := i / (k / z).

Definition azure_gen (k r z : Z) : mx := fun i j =>
  if i <? k + r then rs_gen k i j else if even_group k z j =? i - (k + r) then x01 else x00.

Definition unilrc_gen (k r z : Z) : mx := fun i j =>
  if i <? k + r then rs_gen k i j
  else (if even_group k z j =? i - (k + r) then x01 else x00) ⊕
       xsum (r / z) (fun l => rs_gen k (k + (i - (k + r)) * (r / z) + l) j).

Definition optimal_gen (k r z : Z) : mx := fun i j =>
  if i <? k + r then cauchy_gen k i j
  else (if even_group k z j =? i - (k + r) then local_coef k r j else x00) ⊕
       xsum r (fun l => cauchy_gen k (k + l) j).

Section EvenGenerators.
Context (k r z : Z) (Hk : 1 <= k) (Hr : 0 <= r) (Hz : 1 <= z) (Hdiv : (z | k)).

Lemma even_size : 1 <= k / z /\ k = z * (k / z).
Proof.
  destruct Hdiv as [q Hq]. assert (1 <= q) by nia. rewrite Hq, Z.div_mul by lia. lia.
Qed.

Lemma even_group_range i : 0 <= i < k -> 0 <= even_group k z i < z.
Proof.
  intros Hi. pose proof even_size as [H1 H2]. unfold even_group. split.
  - apply Z.div_pos; lia.
  - apply Z.div_lt_upper_bound; lia.
Qed.

Lemma fill_local_rows_spec m v a M : 0 <= m -> is_mx (m + z) k a M ->
  is_mx (m + z) k (fill_local_rows k m z v a)
    (fun i j => if i =? m + even_group k z j then v j else M i j).
Proof.
  intros Hm HM. pose proof even_size as [H1 H2]. unfold fill_local_rows.
  erewrite for_range_ext.
  - apply (fill_rows_spec k (m + z) (fun i => m + even_group k z i) v); [lia| |exact HM].
    intros i Hi. pose proof (even_group_range i Hi). lia.
  - intros i s Hi. cbv zeta. unfold even_group.
    rewrite (Z.quot_div_nonneg k z), Z.quot_div_nonneg by lia. reflexivity.
Qed.

Lemma gen_azure_lrc_matrix_spec a : (k + r + z) * k <= zlen a ->
  is_mx (k + r + z) k (gen_azure_lrc_matrix a k r z) (azure_gen k r z).
Proof.
  intros Hl. unfold gen_azure_lrc_matrix. eapply is_mx_ext.
  - apply fill_local_rows_spec; [lia|]. apply rs_base_spec; auto.
  - intros i j Hi Hj. cbv beta. unfold azure_gen. pose proof (even_group_range j Hj).
    zcases; reflexivity.
Qed.

Lemma gen_unilrc_matrix_spec a : (z | r) -> (k + r + z) * k <= zlen a ->
  is_mx (k + r + z) k (gen_unilrc_matrix a k r z) (unilrc_gen k r z).
Proof.
  intros [q Hq] Hl. unfold gen_unilrc_matrix.
  assert (Hqz : r / z = q) by (rewrite Hq; apply Z.div_mul; lia). assert (0 <= q) by nia.
  eapply is_mx_ext.
  - apply (add_rows_spec (k + r) z k (r ÷ z) (fun i l => k + (i * r) ÷ z + l)); try lia.
    + rewrite Z.quot_div_nonneg by lia. lia.
    + intros i l Hi Hlr. rewrite Z.quot_div_nonneg in * by nia.
      replace (i * r) with (i * q * z) by nia. rewrite Z.div_mul by lia. nia.
    + apply fill_local_rows_spec; [lia|]. apply rs_base_spec; auto.
  - intros i j Hi Hj. cbv beta. unfold unilrc_gen. pose proof (even_group_range j Hj).
    rewrite !Z.quot_div_nonneg by nia. rewrite Hqz.
    destruct (Z.ltb_spec i (k + r)); [zcases; reflexivity|]. f_equal; [zcases; reflexivity|].
    apply xsum_ext. intros l Hlr. rewrite Z.quot_div_nonneg by nia.
    replace ((i - (k + r)) * r) with ((i - (k + r)) * q * z) by nia. rewrite Z.div_mul by lia.
    zcases; try nia; reflexivity.
Qed.

Lemma gen_optimal_lrc_matrix_spec a : (k + r + z) * k <= zlen a ->
  is_mx (k + r + z) k (gen_optimal_lrc_matrix a k r z) (optimal_gen k r z).
Proof.
  intros Hl. unfold gen_optimal_lrc_matrix. eapply is_mx_ext.
  - apply (add_rows_spec (k + r) z k r (fun i l => k + l)); try lia.
    apply fill_local_rows_spec; [lia|]. apply cauchy_base_spec; auto.
  - intros i j Hi Hj. cbv beta. unfold optimal_gen. pose proof (even_group_range j Hj).
    rewrite local_vector_spec by lia.
    destruct (Z.ltb_spec i (k + r)); [zcases; reflexivity|]. f_equal; [zcases; reflexivity|].
    apply xsum_ext. intros l Hlr. zcases. reflexivity.
Qed.
End EvenGenerators.

(** * The local equations *)

(** The coefficients of equation [e] on the blocks of a stripe: [c] on data and
    global parities, 1 on the local parity. *)
Definition local_eq_coef (k r : Z) (c : Z -> Z -> byte) (e b : Z) : byte :=
  if b <? k + r then c e b else if b =? k + r + e then x01 else x00.

Definition azure_coef (k r z e b : Z) : byte :=
  if (b <? k) && (even_group k z b =? e) then x01 else x00.

Definition unilrc_coef (k r z e b : Z) : byte :=
  if b <? k then (if even_group k z b =? e then x01 else x00)
  else if (b - k) / (r / z) =? e then x01 else x00.

Definition optimal_coef (k r z e b : Z) : byte :=
  if b <? k then (if even_group k z b =? e then local_coef k r b else x00) else x01.

(** Byte of block [b] for the data bytes [d]. *)
Definition encoded (k : Z) (M : mx) (d : Z -> byte) (b : Z) : byte := xsum k (fun j => M b j ⊗ d j).

Section LocalEquations.
Context (k r z : Z) (Hk : 1 <= k) (Hr : 0 <= r) (Hz : 1 <= z).

(** A generator whose local rows combine the rows above with [c]. *)
Definition local_rows (M : mx) (c : Z -> Z -> byte) : Prop :=
  forall e j, 0 <= e < z -> 0 <= j < k -> M (k + r + e) j = xsum (k + r) (fun b => c e b ⊗ M b j).

Lemma local_check M c e d : local_rows M c -> 0 <= e < z ->
  xsum (k + r + z) (fun b => local_eq_coef k r c e b ⊗ encoded k M d b) = x00.
Proof.
  intros HM He. rewrite (xsum_split (k + r)) by lia. replace (k + r + z - (k + r)) with z by lia.
  rewrite (xsum_single z _ e) by (lia || intros g Hg Hne; unfold local_eq_coef; zcases; ring).
  replace (local_eq_coef k r c e (k + r + e)) with x01 by (unfold local_eq_coef; zcases; reflexivity).
  rewrite gf_mul_1_l. unfold encoded at 2.
  rewrite (xsum_ext k _ (fun j => xsum (k + r) (fun b => c e b ⊗ M b j ⊗ d j))).
  2: { intros j Hj. rewrite HM by lia. rewrite <- xsum_mul_r. reflexivity. }
  rewrite xsum_swap.
  rewrite (xsum_ext (k + r) _ (fun b => xsum k (fun j => c e b ⊗ M b j ⊗ d j))).
  2: { intros b Hb. unfold local_eq_coef, encoded. rewrite <- xsum_mul_l.
       destruct (Z.ltb_spec b (k + r)); [|lia]. apply xsum_ext. intros. ring. }
  apply bxor_nilpotent.
Qed.

(** Systematic generators: the data part of a local row is [c] itself. *)
Lemma systematic_rows (M : mx) (c : Z -> Z -> byte) e j : (forall b j, 0 <= b < k -> M b j = delta b j) -> 0 <= j < k ->
  xsum (k + r) (fun b => c e b ⊗ M b j) =
  c e j ⊕ xsum r (fun l => c e (k + l) ⊗ M (k + l) j).
Proof.
  intros HM Hj. rewrite (xsum_split k) by lia. replace (k + r - k) with r by lia. f_equal.
  rewrite (xsum_ext k _ (fun b => delta j b ⊗ c e b)); [apply xsum_delta_l, Hj|].
  intros b Hb. rewrite HM by lia. unfold delta. rewrite (Z.eqb_sym b j). ring.
Qed.

Lemma xsum_window m a w (f : Z -> byte) : 0 <= a -> 0 <= w -> a + w <= m ->
  xsum m (fun l => if (a <=? l) && (l <? a + w) then f l else x00) = xsum w (fun l => f (a + l)).
Proof.
  intros Ha Hw Hm. rewrite (xsum_split a m), (xsum_split w (m - a)) by lia.
  rewrite (xsum_zero a), (xsum_zero (m - a - w)), bxor_0_l, bxor_0_r.
  - apply xsum_ext. intros. zcases. reflexivity.
  - intros. zcases; reflexivity.
  - intros. zcases; reflexivity.
Qed.

Context (Hdiv : (z | k)).

Lemma azure_local_rows : local_rows (azure_gen k r z) (azure_coef k r z).
Proof.
  intros e j He Hj. rewrite (systematic_rows _ (azure_coef k r z)) by (auto; intros; unfold azure_gen, rs_gen;
    zcases; reflexivity).
  rewrite (xsum_zero r) by (intros; unfold azure_coef; zcases; ring).
  unfold azure_gen, azure_coef. replace (k + r + e - (k + r)) with e by lia.
  destruct (Z.ltb_spec (k + r + e) (k + r)), (Z.ltb_spec j k); try lia. cbn [andb]. ring.
Qed.

Lemma unilrc_local_rows : (z | r) -> local_rows (unilrc_gen k r z) (unilrc_coef k r z).
Proof.
  intros [q Hq] e j He Hj. assert (Hqz : r / z = q) by (rewrite Hq; apply Z.div_mul; lia).
  assert (0 <= q) by nia.
  rewrite (systematic_rows _ (unilrc_coef k r z)) by (auto; intros; unfold unilrc_gen, rs_gen;
    zcases; reflexivity).
  unfold unilrc_gen at 1. replace (k + r + e - (k + r)) with e by lia.
  destruct (Z.ltb_spec (k + r + e) (k + r)); [lia|]. f_equal.
  { unfold unilrc_coef. zcases; reflexivity. }
  rewrite Hqz. destruct (Z.eq_dec q 0) as [->|]; [rewrite !xsum_0 by lia; reflexivity|].
  rewrite (xsum_ext r _ (fun l => if (e * q <=? l) && (l <? e * q + q)
                                  then rs_gen k (k + l) j else x00)).
  - rewrite (xsum_window r (e * q) q (fun l => rs_gen k (k + l) j)) by nia.
    apply xsum_ext. intros l Hl. f_equal. lia.
  - intros l Hl. unfold unilrc_coef, unilrc_gen. rewrite Hqz. replace (k + l - k) with l by lia.
    destruct (Z.ltb_spec (k + l) k), (Z.ltb_spec (k + l) (k + r)); try lia.
    pose proof (Z.div_mod l q ltac:(lia)). pose proof (Z.mod_pos_bound l q ltac:(lia)).
    destruct (Z.eqb_spec (l / q) e) as [<-|Hne].
    + destruct (Z.leb_spec (l / q * q) l), (Z.ltb_spec l (l / q * q + q)); try lia. cbn [andb]. ring.
    + destruct (Z.leb_spec (e * q) l), (Z.ltb_spec l (e * q + q)); cbn [andb]; try ring.
      exfalso. apply Hne. symmetry. apply Z.div_unique with (r := l - e * q); lia.
Qed.

Lemma optimal_local_rows : local_rows (optimal_gen k r z) (optimal_coef k r z).
Proof.
  intros e j He Hj. rewrite (systematic_rows _ (optimal_coef k r z)) by (auto; intros;
    unfold optimal_gen, cauchy_gen; zcases; reflexivity).
  unfold optimal_gen at 1. replace (k + r + e - (k + r)) with e by lia.
  destruct (Z.ltb_spec (k + r + e) (k + r)); [lia|]. f_equal.
  - unfold optimal_coef. zcases; reflexivity.
  - apply xsum_ext. intros l Hl. unfold optimal_coef, optimal_gen. zcases; ring.
Qed.
End LocalEquations.

(** * A group equation solved for one block *)

Lemma xsum_cons m (f : Z -> byte) : 0 <= m -> xsum (m + 1) f = f 0 ⊕ xsum m (fun j => f (j + 1)).
Proof.
  intros Hm. rewrite (xsum_split 1) by lia. replace (m + 1 - 1) with m by lia. f_equal.
  - change 1 with (0 + 1). rewrite xsum_succ, xsum_0 by lia. apply bxor_0_l.
  - apply xsum_ext. intros. f_equal. lia.
Qed.

Lemma zget_cons_succ {A} `{Inhabited A} (x : A) l i : 0 <= i -> (x :: l).[i + 1] = l.[i].
Proof. intros Hi. change (x :: l) with ([x] ++ l). rewrite zget_app by lia. cbn [length]. zcases. f_equal. lia. Qed.

(** [ids] are the other blocks of the equation [C] that [f] occurs in. *)
Definition rest_of_group (n : Z) (C : Z -> byte) (f : Z) (ids : list Z) : Prop :=
  NoDup (f :: ids) /\ Forall (fun b => 0 <= b < n) (f :: ids) /\
  forall b, 0 <= b < n -> b ∈ f :: ids <-> C b <> x00.

Lemma rest_of_group_nonzero n C f ids : rest_of_group n C f ids ->
  C f <> x00 /\ 0 <= f < n /\ forall j, 0 <= j < zlen ids -> 0 <= ids.[j] < n /\ C ids.[j] <> x00.
Proof.
  intros (_ & Hrg & Hall). rewrite Forall_cons in Hrg. destruct Hrg as [Hf Hrg].
  split; [apply Hall; [exact Hf|set_solver]|]. split; [exact Hf|]. intros j Hj.
  pose proof (Forall_zget _ _ _ Hrg Hj) as Hin. cbv beta in Hin. split; [exact Hin|].
  apply Hall; [exact Hin|]. apply elem_of_cons. right. apply list_elem_of_In, zget_In, Hj.
Qed.

Lemma group_equation n C s f ids : rest_of_group n C f ids ->
  xsum n (fun b => C b ⊗ s b) = x00 ->
  C f ⊗ s f = xsum (zlen ids) (fun j => C ids.[j] ⊗ s ids.[j]).
Proof.
  intros (Hnd & Hrg & Hall) Hsum. apply bxor_eq_0. rewrite <- Hsum.
  rewrite (xsum_ext n (fun b => C b ⊗ s b)
    (fun b => if bool_decide (b ∈ f :: ids) then C b ⊗ s b else x00)).
  - rewrite (xsum_members n (f :: ids) (fun b => C b ⊗ s b)) by assumption.
    cbn [length]. rewrite Nat2Z.inj_succ. unfold Z.succ. rewrite xsum_cons by lia.
    change ((f :: ids).[0]) with f. f_equal. apply xsum_ext. intros j Hj. rewrite zget_cons_succ by lia.
    reflexivity.
  - intros b Hb. destruct (bool_decide_reflect (b ∈ f :: ids)) as [|Hn]; [reflexivity|].
    destruct (decide (C b = x00)) as [->|Hne]; [ring|]. apply Hall in Hne; [contradiction|exact Hb].
Qed.

(** The combination of [ids] a decoder forms restores [f]. *)
Lemma group_repair n C s f ids : rest_of_group n C f ids ->
  xsum n (fun b => C b ⊗ s b) = x00 ->
  xsum (zlen ids) (fun j => C ids.[j] ⊗ gf_inv (C f) ⊗ s ids.[j]) = s f.
Proof.
  intros Hg Hsum. pose proof (rest_of_group_nonzero n C f ids Hg) as [Hf _].
  rewrite (xsum_ext _ _ (fun j => gf_inv (C f) ⊗ (C ids.[j] ⊗ s ids.[j])))
    by (intros; ring).
  rewrite xsum_mul_l, <- (group_equation n C s f ids) by assumption. field. exact Hf.
Qed.

Section Decoders.
Context {K : Kernels} {L : KernelLaws K}.

Lemma encode_one_spec m bs v ptrs res i : 1 <= m -> 0 <= bs <= zlen res -> 0 <= i < bs ->
  (encode_one m bs v ptrs res).[i] = xsum m (fun j => v.[j] ⊗ ptrs.[j].[i]).
Proof.
  intros Hm Hbs Hi. unfold encode_one.
  destruct (encode_with_tables_spec bs m 1 v (new_bytes (m * 32)) ptrs [res]) as [_ W]; try lia.
  { unfold new_bytes. rewrite zlen_zrepeat; lia. }
  { split; [cbn; lia|]. intros l Hl. replace l with 0 by lia. change ([res].[0]) with res. lia. }
  destruct (W 0 ltac:(cbn; lia)) as [_ ->]; [|lia]. zcases. reflexivity.
Qed.

Lemma encode_one_len m bs v ptrs res : 1 <= m -> 0 <= bs <= zlen res -> zlen (encode_one m bs v ptrs res) = zlen res.
Proof.
  intros Hm Hbs. unfold encode_one.
  destruct (encode_with_tables_spec bs m 1 v (new_bytes (m * 32)) ptrs [res]) as [_ W]; try lia.
  { unfold new_bytes. rewrite zlen_zrepeat; lia. }
  { split; [cbn; lia|]. intros l Hl. replace l with 0 by lia. change ([res].[0]) with res. lia. }
  destruct (W 0 ltac:(cbn; lia)) as [-> _]. reflexivity.
Qed.

Lemma zget_map_zseq {B} `{Inhabited B} (f : Z -> B) m j : 0 <= j < m -> (map f (zseq m)).[j] = f j.
Proof. intros Hj. rewrite zget_map, zget_zseq by (rewrite ?zlen_seqZ; lia). reflexivity. Qed.

(** [decode_glrc] is linear in the blocks it is given. *)
Lemma decode_glrc_value k r z m ids ptrs res bs f i : 1 <= m -> 0 <= bs <= zlen res -> 0 <= i < bs ->
  (decode_glrc k r z m ids ptrs res bs f).[i] =
  xsum m (fun j => glrc_local_block_coefficient ids.[j] k r ⊗
                   gf_inv (glrc_local_block_coefficient f k r) ⊗ ptrs.[j].[i]).
Proof.
  intros Hm Hbs Hi. unfold decode_glrc. cbv zeta.
  rewrite encode_one_spec by (rewrite ?zlen_memset; lia). apply xsum_ext. intros j Hj.
  rewrite !zget_map_zseq by lia. reflexivity.
Qed.

Lemma gf_inv_1 : gf_inv x01 = x01.
Proof. reflexivity. Qed.

(** Uniform-LRC uses the code of gLRC and the same local repair. *)
Lemma decode_uniform_glrc k r z m ids ptrs res bs f : 1 <= k -> 0 <= m ->
  (forall j, 0 <= j < m -> 0 <= ids.[j]) -> 0 <= f ->
  decode_uniform_lrc k r z m ids ptrs res bs f = decode_glrc k r z m ids ptrs res bs f.
Proof.
  intros Hk Hm Hids Hf. unfold decode_uniform_lrc, decode_glrc. cbv zeta. f_equal.
  assert (Hlv : forall b, 0 <= b < k -> (gf_gen_local_vector (new_bytes k) k r).[b] =
                  glrc_local_block_coefficient b k r).
  { intros b Hb. rewrite local_vector_spec by lia. unfold glrc_local_block_coefficient, local_coef.
    zcases. reflexivity. }
  assert (Hv : forall j, 0 <= j < m ->
    (if ids.[j] <? k then (gf_gen_local_vector (new_bytes k) k r).[ids.[j]] else x01) =
    glrc_local_block_coefficient ids.[j] k r).
  { intros j Hj. specialize (Hids j Hj). destruct (Z.ltb_spec ids.[j] k); [apply Hlv; lia|].
    unfold glrc_local_block_coefficient. zcases. reflexivity. }
  assert (Hlen : forall (h : Z -> byte), zlen (map h (zseq m)) = m)
    by (intros; rewrite length_map, zlen_seqZ; lia).
  destruct (Z.ltb_spec f k); apply zlist_ext; rewrite ?Hlen; auto; intros j Hj;
    rewrite !zget_map_zseq by lia; rewrite Hv by lia.
  - rewrite Hlv by lia. reflexivity.
  - replace (glrc_local_block_coefficient f k r) with x01
      by (unfold glrc_local_block_coefficient; zcases; reflexivity).
    rewrite gf_inv_1. ring.
Qed.

(** On blocks of one kind (all data or all parity) [decode_optimal_lrc] forms
    the coefficients of its local equation. *)
Lemma decode_optimal_value k r z e m ids ptrs res bs f i : 1 <= k -> 0 <= r -> 1 <= m ->
  0 <= bs <= zlen res -> 0 <= i < bs -> 0 <= f ->
  (forall j, 0 <= j < m -> 0 <= ids.[j]) ->
  (forall j, 0 <= j < m -> ids.[j] < k) \/ (forall j, 0 <= j < m -> k <= ids.[j]) ->
  (forall j, 0 <= j < m -> local_eq_coef k r (optimal_coef k r z) e ids.[j] <> x00) ->
  (f < k -> even_group k z f = e) ->
  (decode_optimal_lrc k r z m ids ptrs res bs f).[i] =
  xsum m (fun j => local_eq_coef k r (optimal_coef k r z) e ids.[j] ⊗
     gf_inv (if f <? k then local_coef k r f else x01) ⊗ ptrs.[j].[i]).
Proof.
  intros Hk Hr Hm Hbs Hi Hf Hids Hside Hin Hfg. unfold decode_optimal_lrc. cbv zeta.
  rewrite encode_one_spec by (rewrite ?zlen_memset; lia). apply xsum_ext. intros j Hj.
  pose proof (Hids j Hj). pose proof (Hids 0 ltac:(lia)). specialize (Hin j Hj).
  assert (Hv : (if ids.[0] >=? k then map (fun _ : Z => x01) (zseq m)
                else map (fun i0 : Z => (gf_gen_local_vector (new_bytes k) k r).[ids.[i0]]) (zseq m)).[j] =
               local_eq_coef k r (optimal_coef k r z) e ids.[j]).
  { unfold local_eq_coef, optimal_coef in *. destruct Hside as [Hs|Hs];
      pose proof (Hs 0 ltac:(lia)); pose proof (Hs j Hj).
    - destruct (Z.geb_spec ids.[0] k); [lia|]. rewrite zget_map_zseq by lia.
      rewrite local_vector_spec by lia. revert Hin. zcases; congruence.
    - destruct (Z.geb_spec ids.[0] k); [|lia]. rewrite zget_map_zseq by lia.
      revert Hin. zcases; congruence. }
  f_equal. destruct (Z.ltb_spec f k).
  - rewrite zget_map_zseq by lia. rewrite local_vector_spec, Hv by lia. reflexivity.
  - rewrite Hv, gf_inv_1. ring.
Qed.

(** The XOR decoders. *)
Lemma xor_repair_value m bs ptrs (res : list byte) i : 2 <= m -> 0 <= bs <= zlen res -> buffers m bs ptrs ->
  0 <= i < bs ->
  (snd (xor_avx (m + 1) bs (ztake m ptrs ++ [memset res x00 bs]))).[m].[i] =
  xsum m (fun j => ptrs.[j].[i]).
Proof.
  intros Hm Hbs [Hb1 Hb2] Hi. assert (Ht : zlen (ztake m ptrs) = m).
  { unfold ztake. rewrite length_take. lia. }
  assert (Hget : forall v, 0 <= v < m + 1 -> (ztake m ptrs ++ [memset res x00 bs]).[v] =
    if v <? m then ptrs.[v] else memset res x00 bs).
  { intros v Hv. rewrite zget_app, Ht by lia. destruct (Z.ltb_spec v m); [apply zget_ztake; lia|].
    replace (v - m) with 0 by lia. reflexivity. }
  destruct (xor_avx_spec (m + 1) bs (ztake m ptrs ++ [memset res x00 bs])) as [_ W]; try lia.
  { split; [rewrite length_app; cbn [length]; lia|]. intros l Hl. rewrite Hget by lia.
    destruct (Z.ltb_spec l m); [apply Hb2; lia|]. rewrite zlen_memset; lia. }
  replace (m + 1 - 1) with m in W by lia. rewrite W by lia. zcases. apply xsum_ext.
  intros j Hj. rewrite Hget by lia. zcases. reflexivity.
Qed.

Lemma xor_repair_len m bs ptrs (res : list byte) : 2 <= m -> 0 <= bs <= zlen res -> buffers m bs ptrs ->
  zlen (snd (xor_avx (m + 1) bs (ztake m ptrs ++ [memset res x00 bs]))).[m] = zlen res.
Proof.
  intros Hm Hbs [Hb1 Hb2]. assert (Ht : zlen (ztake m ptrs) = m) by (unfold ztake; rewrite length_take; lia).
  destruct (xor_avx_spec (m + 1) bs (ztake m ptrs ++ [memset res x00 bs])) as [Lx _]; try lia.
  { split; [rewrite length_app; cbn [length]; lia|]. intros l Hl. rewrite zget_app, Ht by lia.
    destruct (Z.ltb_spec l m); [rewrite zget_ztake by lia; apply Hb2; lia|]. replace (l - m) with 0 by lia.
    change ([?x].[0]) with x. rewrite zlen_memset; lia. }
  replace (m + 1 - 1) with m in Lx by lia. rewrite Lx, zget_app, Ht by lia. zcases.
  replace (m - m) with 0 by lia. change ([?x].[0]) with x. apply zlen_memset, Hbs.
Qed.
End Decoders.

(** * Repair of encoded stripes *)

Lemma byte_of_Z_nonzero x : 0 < x < 256 -> byte_of_Z x <> x00.
Proof.
  intros Hx E. change x00 with (byte_of_Z 0) in E. apply byte_of_Z_eq_iff in E.
  rewrite !Z.mod_small in E; lia.
Qed.

Lemma lxor_byte_nonzero a b : 0 <= a < 256 -> 0 <= b < 256 -> a <> b -> byte_of_Z (Z.lxor a b) <> x00.
Proof.
  intros Ha Hb Hne E. rewrite byte_of_Z_lxor in E. apply bxor_eq_0, byte_of_Z_eq_iff in E.
  rewrite !Z.mod_small in E; lia.
Qed.

Lemma local_coefficient_nonzero b k r : 0 <= r -> k + r <= 255 ->
  glrc_local_block_coefficient b k r <> x00.
Proof.
  intros Hr Hkr. unfold glrc_local_block_coefficient. destruct (Z.geb_spec b 0); [|discriminate].
  destruct (Z.ltb_spec b k); cbn [andb]; [|discriminate].
  apply gf_inv_nonzero, lxor_byte_nonzero; lia.
Qed.

Section EncodedStripes.
Context {K : Kernels} {L : KernelLaws K}.

Lemma encode_rows_codeword k rows bs a M data parity b i : 1 <= k -> 0 <= rows ->
  is_mx (k + rows) k a M -> (forall b j, 0 <= b < k -> M b j = delta b j) ->
  zlen data = k -> zlen parity = rows -> buffers rows bs parity ->
  0 <= b < k + rows -> 0 <= i < bs ->
  (data ++ encode_rows k rows bs a data parity).[b].[i] = encoded k M (fun j => data.[j].[i]) b.
Proof.
  intros Hk Hrows Ha HM Hd Hp Hbuf Hb Hi. rewrite zget_app by lia. unfold encoded.
  destruct (Z.ltb_spec b (zlen data)).
  - rewrite (xsum_ext k _ (fun j => delta b j ⊗ data.[j].[i])).
    + symmetry. apply (xsum_delta_l k (fun j => data.[j].[i])). lia.
    + intros j Hj. rewrite HM by lia. reflexivity.
  - destruct (encode_rows_spec k rows bs a M data parity) as [_ W]; auto; try lia.
    destruct (W (b - zlen data) ltac:(lia)) as [_ ->]; [|lia]. zcases.
    apply xsum_ext. intros j Hj. do 2 f_equal. lia.
Qed.

(** What the five encoders have in common: the stripe satisfies the local
    equations of the family. *)
Lemma encoded_local_check k r z bs a M c data parity e i : 1 <= k -> 0 <= r -> 1 <= z ->
  is_mx (k + r + z) k a M -> (forall b j, 0 <= b < k -> M b j = delta b j) ->
  local_rows k r z M c -> zlen data = k -> zlen parity = r + z -> buffers (r + z) bs parity ->
  0 <= e < z -> 0 <= i < bs ->
  xsum (k + r + z) (fun b => local_eq_coef k r c e b ⊗
    (data ++ encode_rows k (r + z) bs a data parity).[b].[i]) = x00.
Proof.
  intros Hk Hr Hz Ha HM Hc Hd Hp Hbuf He Hi.
  rewrite <- (local_check k r z Hk Hr Hz M c e (fun j => data.[j].[i]) Hc He).
  apply xsum_ext. intros b Hb. f_equal. apply encode_rows_codeword; auto; try lia.
  rewrite Z.add_assoc. exact Ha.
Qed.

Lemma new_bytes_len m k : 0 <= m -> 0 <= k -> m * k <= zlen (new_bytes (m * k)).
Proof. intros. unfold new_bytes. rewrite zlen_zrepeat by nia. lia. Qed.

Lemma unit_coef_repair n C s f ids : rest_of_group n C f ids ->
  (forall b, C b = x00 \/ C b = x01) -> xsum n (fun b => C b ⊗ s b) = x00 ->
  xsum (zlen ids) (fun j => s ids.[j]) = s f.
Proof.
  intros Hg H01 Hsum. destruct (rest_of_group_nonzero n C f ids Hg) as (Hf & _ & Hids).
  rewrite <- (group_repair n C s f ids Hg Hsum). apply xsum_ext. intros j Hj.
  destruct (H01 f) as [| ->]; [contradiction|]. destruct (Hids j Hj) as [_ Hj'].
  destruct (H01 ids.[j]) as [| ->]; [contradiction|]. rewrite gf_inv_1. ring.
Qed.

(** UniLRC: one lost block of a group (data, global or local parity) is the XOR
    of the rest of the group. *)
Lemma unilrc_repair k r z data parity bs e f ids ptrs res i :
  1 <= k -> 0 <= r -> 1 <= z -> (z | k) -> (z | r) ->
  zlen data = k -> zlen parity = r + z -> buffers (r + z) bs parity -> bs <= zlen res ->
  0 <= e < z -> rest_of_group (k + r + z) (local_eq_coef k r (unilrc_coef k r z) e) f ids ->
  2 <= zlen ids -> buffers (zlen ids) bs ptrs ->
  holds ids ptrs bs (data ++ encode_unilrc k r z data parity bs) -> 0 <= i < bs ->
  (decode_unilrc k r z (zlen ids) ids ptrs res bs).[i] =
  (data ++ encode_unilrc k r z data parity bs).[f].[i].
Proof.
  intros Hk Hr Hz Hzk Hzr Hd Hp Hbuf Hres He Hg Hids Hptrs Hh Hi.
  unfold decode_unilrc. cbv zeta. rewrite xor_repair_value by (auto; lia).
  rewrite (xsum_ext _ _ (fun j => (data ++ encode_unilrc k r z data parity bs).[ids.[j]].[i]))
    by (intros; apply Hh; lia).
  apply (unit_coef_repair _ _ (fun b => (data ++ encode_unilrc k r z data parity bs).[b].[i]) f ids Hg).
  - intros b. unfold local_eq_coef, unilrc_coef. repeat destruct (_ <? _); repeat destruct (_ =? _); auto.
  - apply (encoded_local_check k r z bs _ (unilrc_gen k r z)); auto.
    + apply gen_unilrc_matrix_spec; auto. apply new_bytes_len; lia.
    + intros. unfold unilrc_gen, rs_gen. zcases; reflexivity.
    + apply unilrc_local_rows; auto.
Qed.

(** Azure-LRC: a lost data block or local parity is the XOR of the rest of its
    group. *)
Lemma azure_repair k r z data parity bs e f ids ptrs res i :
  1 <= k -> 0 <= r -> 1 <= z -> (z | k) ->
  zlen data = k -> zlen parity = r + z -> buffers (r + z) bs parity -> bs <= zlen res ->
  0 <= e < z -> rest_of_group (k + r + z) (local_eq_coef k r (azure_coef k r z) e) f ids ->
  2 <= zlen ids -> buffers (zlen ids) bs ptrs ->
  holds ids ptrs bs (data ++ encode_azure_lrc k r z data parity bs) -> 0 <= i < bs ->
  (decode_azure_lrc k r z (zlen ids) ids ptrs res bs f).[i] =
  (data ++ encode_azure_lrc k r z data parity bs).[f].[i].
Proof.
  intros Hk Hr Hz Hzk Hd Hp Hbuf Hres He Hg Hids Hptrs Hh Hi.
  destruct (rest_of_group_nonzero _ _ _ _ Hg) as (Hf & Hfr & _).
  assert (Hside : (f <? k) || (f >=? k + r) = true).
  { unfold local_eq_coef, azure_coef in Hf. revert Hf. rewrite Z.geb_leb.
    destruct (Z.ltb_spec f (k + r)), (Z.ltb_spec f k), (Z.leb_spec (k + r) f); cbn; try lia; congruence. }
  unfold decode_azure_lrc. cbv zeta. rewrite Hside. rewrite xor_repair_value by (auto; lia).
  rewrite (xsum_ext _ _ (fun j => (data ++ encode_azure_lrc k r z data parity bs).[ids.[j]].[i]))
    by (intros; apply Hh; lia).
  apply (unit_coef_repair _ _ (fun b => (data ++ encode_azure_lrc k r z data parity bs).[b].[i]) f ids Hg).
  - intros b. unfold local_eq_coef, azure_coef. repeat destruct (_ <? _); repeat destruct (_ =? _); auto.
  - apply (encoded_local_check k r z bs _ (azure_gen k r z)); auto.
    + apply gen_azure_lrc_matrix_spec; auto. apply new_bytes_len; lia.
    + intros. unfold azure_gen, rs_gen. zcases; reflexivity.
    + apply azure_local_rows; auto.
Qed.

Lemma xsum_app (l1 l2 : list Z) (g : Z -> byte) :
  xsum (zlen (l1 ++ l2)) (fun j => g (l1 ++ l2).[j]) =
  xsum (zlen l1) (fun j => g l1.[j]) ⊕ xsum (zlen l2) (fun j => g l2.[j]).
Proof.
  rewrite (xsum_split (zlen l1)) by (rewrite length_app; lia).
  replace (zlen (l1 ++ l2) - zlen l1) with (zlen l2) by (rewrite length_app; lia). f_equal;
    apply xsum_ext; intros j Hj; rewrite zget_app by lia; zcases; do 2 f_equal; lia.
Qed.

(** Optimal-LRC: the partial results of the surviving data blocks and of the
    parities of a group add up to the lost block. *)
Lemma optimal_repair k r z data parity bs e f ids1 ids2 ptrs1 ptrs2 res1 res2 i :
  1 <= k -> 0 <= r -> 1 <= z -> (z | k) ->
  zlen data = k -> zlen parity = r + z -> buffers (r + z) bs parity ->
  bs <= zlen res1 -> bs <= zlen res2 -> 0 <= e < z ->
  rest_of_group (k + r + z) (local_eq_coef k r (optimal_coef k r z) e) f (ids1 ++ ids2) ->
  1 <= zlen ids1 -> 1 <= zlen ids2 ->
  Forall (fun b => b < k) ids1 -> Forall (fun b => k <= b) ids2 ->
  holds ids1 ptrs1 bs (data ++ encode_optimal_lrc k r z data parity bs) ->
  holds ids2 ptrs2 bs (data ++ encode_optimal_lrc k r z data parity bs) -> 0 <= i < bs ->
  (decode_optimal_lrc k r z (zlen ids1) ids1 ptrs1 res1 bs f).[i] ⊕
  (decode_optimal_lrc k r z (zlen ids2) ids2 ptrs2 res2 bs f).[i] =
  (data ++ encode_optimal_lrc k r z data parity bs).[f].[i].
Proof.
  intros Hk Hr Hz Hzk Hd Hp Hbuf Hres1 Hres2 He Hg Hl1 Hl2 Hs1 Hs2 Hh1 Hh2 Hi.
  destruct (rest_of_group_nonzero _ _ _ _ Hg) as (Hf & Hfr & Hids).
  assert (Hin1 : forall j, 0 <= j < zlen ids1 -> 0 <= ids1.[j] /\
            local_eq_coef k r (optimal_coef k r z) e ids1.[j] <> x00).
  { intros j Hj. specialize (Hids j ltac:(rewrite length_app; lia)). rewrite zget_app in Hids by lia.
    destruct (Z.ltb_spec j (zlen ids1)); [intuition lia|lia]. }
  assert (Hin2 : forall j, 0 <= j < zlen ids2 -> 0 <= ids2.[j] /\
            local_eq_coef k r (optimal_coef k r z) e ids2.[j] <> x00).
  { intros j Hj. specialize (Hids (zlen ids1 + j) ltac:(rewrite length_app; lia)).
    rewrite zget_app in Hids by lia. destruct (Z.ltb_spec (zlen ids1 + j) (zlen ids1)); [lia|].
    replace (zlen ids1 + j - zlen ids1) with j in Hids by lia. intuition lia. }
  assert (Hfe : f < k -> even_group k z f = e).
  { intros Hfk. unfold local_eq_coef, optimal_coef in Hf. revert Hf. zcases; congruence. }
  rewrite (decode_optimal_value k r z e), (decode_optimal_value k r z e); try lia; try assumption;
    try (intros j Hj; (apply Hin1, Hj) || (apply Hin2, Hj)).
  2: { right. intros j Hj. apply (Forall_zget _ _ _ Hs2 Hj). }
  2: { left. intros j Hj. apply (Forall_zget _ _ _ Hs1 Hj). }
  assert (Hcf : (if f <? k then local_coef k r f else x01) =
                local_eq_coef k r (optimal_coef k r z) e f).
  { unfold local_eq_coef, optimal_coef in *. revert Hf Hfe. destruct (Z.ltb_spec f k).
    - intros Hf Hfe. rewrite (Hfe ltac:(lia)), Z.eqb_refl. zcases. reflexivity.
    - zcases; congruence. }
  rewrite Hcf. set (s := fun b => (data ++ encode_optimal_lrc k r z data parity bs).[b].[i]).
  change ((data ++ encode_optimal_lrc k r z data parity bs).[f].[i]) with (s f).
  rewrite <- (group_repair _ _ s f (ids1 ++ ids2) Hg).
  - rewrite (xsum_app ids1 ids2 (fun b => local_eq_coef k r (optimal_coef k r z) e b ⊗
      gf_inv (local_eq_coef k r (optimal_coef k r z) e f) ⊗ s b)).
    f_equal; apply xsum_ext; intros j Hj; f_equal; (apply Hh1 || apply Hh2); lia.
  - apply (encoded_local_check k r z bs _ (optimal_gen k r z)); auto.
    + apply gen_optimal_lrc_matrix_spec; auto. apply new_bytes_len; lia.
    + intros. unfold optimal_gen, cauchy_gen. zcases; reflexivity.
    + apply optimal_local_rows; auto.
Qed.

(** The stripes of [encode_glrc] are in the code. *)
Lemma encode_glrc_stripe_ok k r z data parity bs : 1 <= k -> 0 <= r -> 1 <= z ->
  zlen data = k -> zlen parity = r + z -> buffers (r + z) bs parity ->
  stripe_ok k r z bs (data ++ encode_glrc k r z data parity bs).
Proof.
  intros Hk Hr Hz Hd Hp Hbuf i Hi e He.
  etransitivity; [|apply (glrc_check k r z Hk Hr Hz e (fun j => data.[j].[i]) He)].
  apply xsum_ext. intros b Hb. rewrite encode_glrc_codeword by (auto; lia). reflexivity.
Qed.

(** gLRC: a single lost block from the rest of its group. *)
Lemma glrc_repair k r z stripe bs f ids ptrs res i : 1 <= k -> 0 <= r -> 1 <= z -> k + r <= 255 ->
  stripe_ok k r z bs stripe -> 0 <= f < k + r + z -> bs <= zlen res ->
  NoDup (f :: ids) -> 1 <= zlen ids ->
  (forall b, In b (f :: ids) <-> In b (glrc_build_placement_groups k r z).[block_group k r z f]) ->
  holds ids ptrs bs stripe -> 0 <= i < bs ->
  (decode_glrc k r z (zlen ids) ids ptrs res bs f).[i] = stripe.[f].[i].
Proof.
  intros Hk Hr Hz Hkr Hs Hf Hres Hnd Hl Hgrp Hh Hi. set (e := block_group k r z f) in *.
  pose proof (block_group_range k r z ltac:(lia) Hr Hz f Hf) as He. fold e in He.
  assert (HC : forall b, block_group k r z b = e -> glrc_eq_coef k r z e b = glrc_local_block_coefficient b k r).
  { intros b Hb. unfold glrc_eq_coef. rewrite Hb, Z.eqb_refl.
    destruct (Z.ltb_spec e z); [reflexivity|lia]. }
  assert (Hin : forall b, b ∈ f :: ids <-> 0 <= b < k + r + z /\ block_group k r z b = e).
  { intros b. rewrite list_elem_of_In, Hgrp. split.
    - intros Hb. assert (0 <= b < k + r + z) by (eapply placement_group_range; eauto; lia).
      split; [assumption|]. apply (placement_group_iff k r z); auto; lia.
    - intros [Hb1 Hb2]. apply placement_group_iff; auto; lia. }
  assert (Hg : rest_of_group (k + r + z) (glrc_eq_coef k r z e) f ids).
  { split; [exact Hnd|]. split; [apply Forall_forall; intros b Hb; apply Hin, Hb|].
    intros b Hb. rewrite Hin. split.
    - intros [_ E]. rewrite HC by exact E. apply local_coefficient_nonzero; assumption.
    - intros Hne. split; [exact Hb|]. unfold glrc_eq_coef in Hne. revert Hne. zcases; congruence. }
  rewrite decode_glrc_value by lia.
  rewrite <- (group_repair _ _ (fun b => stripe.[b].[i]) f ids Hg (Hs i Hi e ltac:(lia))).
  apply xsum_ext. intros j Hj. rewrite Hh by lia.
  rewrite !HC; [reflexivity|reflexivity|]. apply Hin. apply elem_of_cons. right.
  apply list_elem_of_In, zget_In, Hj.
Qed.
End EncodedStripes.
