(* ===== verification/MultiPlan.v ===== *)
(** [get_multi_decode_plan] of [unilrc_encoder.cpp]: surviving rows of the
    generator are chosen by Gaussian elimination and every lost block is
    expressed in them. *)
From S2P Require Import Prelude GF256 LinAlg GFMatrix EcKernel Groups Codes LocalRepair.
From Stdlib Require Import Field.

(** The [if] chain over [code_type]; [None] is the unsupported type. *)
Definition code_gen_matrix (code_type : string) (k r z : Z) : option (list byte) :=
  let gen_matrix := memset (new_bytes (k * (k + r + z))) x00 (k * (k + r + z)) in
  if String.eqb code_type "UniLRC" then Some (gen_unilrc_matrix gen_matrix k r z)
  else if String.eqb code_type "AzureLRC" then Some (gen_azure_lrc_matrix gen_matrix k r z)
  else if String.eqb code_type "OptimalLRC" then Some (gen_optimal_lrc_matrix gen_matrix k r z)
  else if String.eqb code_type "gLRC" then Some (gen_glrc_matrix gen_matrix k r z)
  else if String.eqb code_type "UniformLRC" then Some (gen_uniform_lrc_matrix gen_matrix k r z)
  else None.

(** Surviving rows: all of the first [k + r], then local parities until there
    are [k] rows ([inr] is the [break]). *)
Definition candidate_rows (k m nrows : Z) (failed_map : gset Z) : list Z :=
  let candidates := List.filter (fun i => negb (bool_decide (i ∈ failed_map))) (zseq m) in
  if zlen candidates <? k then
    match for_exit m nrows (fun i candidates =>
            let candidates := if negb (bool_decide (i ∈ failed_map)) then candidates ++ [i]
                              else candidates in
            if zlen candidates >=? k then inr candidates else inl candidates) candidates with
    | inl c => c
    | inr c => c
    end
  else candidates.

(** [mat[i * k + c] = gen_matrix[rows[i] * k + c]] *)
Definition copy_rows (k : Z) (rows : list Z) (gen_matrix : list byte) : list byte :=
  for_range 0 (zlen rows) (fun i mat => for_range 0 k (fun c mat =>
    mat.[i * k + c <- gen_matrix.[rows.[i] * k + c]]) mat) (new_bytes (zlen rows * k)).

(** [tmpidx = candidates[cur]; candidates[cur] = candidates[sel]; ...] *)
Definition swap_entries (i j : Z) (l : list Z) : list Z :=
  let tmp := l.[i] in
  let l := l.[i <- l.[j]] in
  l.[j <- tmp].

(** One column: pivot search, swap, normalisation, elimination. *)
Definition select_column (k M col : Z) (st : list byte * list Z * Z) : list byte * list Z * Z :=
  let '(mat, candidates, cur) := st in
  if cur <? M then
    let sel := first_index cur M (fun row => negb (Byte.eqb mat.[row * k + col] x00)) in
    if sel =? M then st
    else
      let '(mat, candidates) :=
        if negb (sel =? cur) then
          (for_range 0 k (gf_swap_cell k cur sel) mat, swap_entries cur sel candidates)
        else (mat, candidates) in
      let inv_pivot := gf_inv mat.[cur * k + col] in
      let mat := for_range col k (gf_scale_cell k cur inv_pivot) mat in
      let mat := for_range 0 M (fun row mat =>
        if row =? cur then mat
        else
          let factor := mat.[row * k + col] in
          if Byte.eqb factor x00 then mat
          else for_range col k (gf_elim_cell k cur row factor) mat) mat in
      (mat, candidates, cur + 1)
  else st.

(** The sources and, for each lost block, its coefficients; [None] is
    [return false]. *)
Definition get_multi_decode_plan (k r z : Z) (code_type : string) (failed_block_indexes : list Z)
  : option (list Z * list (list Z)) :=
  let m := k + r in
  let nrows := k + r + z in
  match code_gen_matrix code_type k r z with
  | None => None
  | Some gen_matrix =>
      let candidates := candidate_rows k m nrows (list_to_set failed_block_indexes) in
      if zlen candidates <? k then None
      else
        let M := zlen candidates in
        let mat := copy_rows k candidates gen_matrix in
        let '(_, candidates, cur) := for_range 0 k (select_column k M) (mat, candidates, 0) in
        if cur <? k then None
        else
          let chosen := map (fun i => candidates.[i]) (zseq k) in
          let tempM := copy_rows k chosen gen_matrix in
          let '(ret, (_, invM)) := gf_invert_matrix tempM (new_bytes (k * k)) k in
          if negb (ret =? 0) then None
          else
            let factors := map (fun fidx =>
              let coeff := gf_mul_vect_matrix (zdrop (fidx * k) gen_matrix) invM (new_bytes k) k in
              map (fun i => byte_to_Z coeff.[i]) (zseq k)) failed_block_indexes in
            Some (chosen, factors)
  end.

(** * The generator of each family *)

(** What the generators contain, for the parameters each family supports. *)
Definition family_gen (code_type : string) (k r z : Z) : mx :=
  if String.eqb code_type "UniLRC" then unilrc_gen k r z
  else if String.eqb code_type "AzureLRC" then azure_gen k r z
  else if String.eqb code_type "OptimalLRC" then optimal_gen k r z
  else glrc_gen k r z.

Definition family_shape (code_type : string) (k r z : Z) : Prop :=
  (code_type = "UniLRC" /\ (z | k) /\ (z | r) \/ code_type = "AzureLRC" /\ (z | k) \/
   code_type = "OptimalLRC" /\ (z | k) \/ code_type = "gLRC" \/ code_type = "UniformLRC")%string.

Lemma code_gen_matrix_spec ct k r z : 1 <= k -> 0 <= r -> 1 <= z -> family_shape ct k r z ->
  exists a, code_gen_matrix ct k r z = Some a /\ is_mx (k + r + z) k a (family_gen ct k r z).
Proof.
  intros Hk Hr Hz Hs. assert (Hl : (k + r + z) * k <= zlen (memset (new_bytes (k * (k + r + z))) x00
                                                       (k * (k + r + z)))).
  { unfold new_bytes. rewrite zlen_memset by (rewrite zlen_zrepeat; nia). rewrite zlen_zrepeat; nia. }
  unfold code_gen_matrix, family_gen, gen_uniform_lrc_matrix.
  destruct Hs as [(-> & H1 & H2)|[(-> & H1)|[(-> & H1)|[->| ->]]]]; cbn [String.eqb Ascii.eqb Bool.eqb];
    eexists; (split; [reflexivity|]).
  - apply gen_unilrc_matrix_spec; auto.
  - apply gen_azure_lrc_matrix_spec; auto.
  - apply gen_optimal_lrc_matrix_spec; auto.
  - apply gen_glrc_matrix_spec; auto.
  - apply gen_glrc_matrix_spec; auto.
Qed.

(** * The rows *)

Lemma copy_rows_spec k n rows a M : 0 <= k -> is_mx n k a M -> Forall (fun i => 0 <= i < n) rows ->
  is_mx (zlen rows) k (copy_rows k rows a) (fun i c => M rows.[i] c).
Proof.
  intros Hk Ha Hr. unfold copy_rows.
  pose (G := fun i c (i' c' : Z) => if (i' <? i) || ((i' =? i) && (c' <? c)) then M rows.[i'] c' else x00).
  apply is_mx_ext with (M := G (zlen rows) 0); [|intros i c Hi Hc; unfold G; zcases; reflexivity].
  apply (for_range_ind (fun i a => is_mx (zlen rows) k a (G i 0))); [lia| |].
  - split; [unfold new_bytes; rewrite zlen_zrepeat by nia; lia|]. intros i j Hi Hj.
    unfold new_bytes. rewrite zget_zrepeat by (apply flat_index_range; lia). unfold G. zcases; reflexivity.
  - intros i s Hi Hs. apply is_mx_ext with (M := G i k).
    2: { intros i' c' Hi' Hc'. unfold G. zcases; reflexivity. }
    apply (for_range_ind (fun c a => is_mx (zlen rows) k a (G i c))); [lia|exact Hs|].
    intros c s' Hc Hs'. pose proof (DecodeSpec.Forall_zget _ _ _ Hr Hi) as Hri. cbv beta in Hri.
    rewrite (is_mx_get n k a M) by (assumption || lia).
    eapply is_mx_ext; [apply is_mx_set; [exact Hs'|lia..]|].
    intros i' c' Hi' Hc'. cbv beta. unfold G. zcases; subst; reflexivity.
Qed.

Lemma candidate_rows_spec k m nrows (fs : gset Z) : 0 <= m <= nrows ->
  Forall (fun i => 0 <= i < nrows /\ i ∉ fs) (candidate_rows k m nrows fs) /\
  NoDup (candidate_rows k m nrows fs).
Proof.
  intros Hm. unfold candidate_rows.
  set (c0 := List.filter (fun i => negb (bool_decide (i ∈ fs))) (zseq m)).
  pose (I := fun n (c : list Z) => Forall (fun i => 0 <= i < n /\ i ∉ fs) c /\ NoDup c).
  assert (H0 : I m c0).
  { split.
    - apply Forall_forall. intros i Hi%list_elem_of_In. apply filter_In in Hi as [H1 H2].
      apply in_zseq in H1. apply negb_true_iff, bool_decide_eq_false in H2. auto.
    - apply NoDup_ListNoDup, List.NoDup_filter, NoDup_ListNoDup, NoDup_seqZ. }
  assert (Hmono : forall n n' c, n <= n' -> I n c -> I n' c).
  { intros n n' c Hn [H1 H2]. split; [|exact H2]. eapply Forall_impl; [exact H1|]. cbv beta. intros i Hi.
    intuition lia. }
  destruct (zlen c0 <? k); [|apply (Hmono m); [lia|exact H0]].
  match goal with |- context [for_exit m nrows ?b c0] =>
    assert (H : match for_exit m nrows b c0 with inl c => I nrows c | inr c => I nrows c end) end.
  { apply (for_exit_ind I); [lia|exact H0|]. intros i c Hi Hc.
    assert (Hc' : I (i + 1) (if negb (bool_decide (i ∈ fs)) then c ++ [i] else c)).
    { destruct (bool_decide_reflect (i ∈ fs)) as [|Hf]; cbn [negb]; [apply (Hmono i); [lia|exact Hc]|].
      destruct (Hmono i (i + 1) c ltac:(lia) Hc) as [H1 H2]. split.
      - apply Forall_app. split; [exact H1|]. constructor; [split; [lia|exact Hf]|constructor].
      - apply NoDup_app. split; [exact H2|]. split; [|apply NoDup_singleton]. intros x Hx Hx'.
        apply list_elem_of_singleton in Hx'. subst x. destruct Hc as [Hc _]. rewrite Forall_forall in Hc.
        specialize (Hc i Hx). lia. }
    cbv zeta. destruct (_ >=? _); [apply (Hmono (i + 1)); [lia|exact Hc']|exact Hc']. }
  destruct (for_exit _ _ _ _); exact H.
Qed.

Lemma swap_entries_perm i j l : 0 <= i < zlen l -> 0 <= j < zlen l -> swap_entries i j l ≡ₚ l.
Proof.
  intros Hi Hj. unfold swap_entries, zset. destruct (Z.ltb_spec i 0), (Z.ltb_spec j 0); try lia.
  apply (Permutation_insert_swap l (Z.to_nat i) (Z.to_nat j)); apply zget_lookup; assumption.
Qed.

Lemma select_column_spec k M col mat cand cur : 0 <= cur <= M -> M = zlen cand ->
  let '(_, cand', cur') := select_column k M col (mat, cand, cur) in
  cand' ≡ₚ cand /\ 0 <= cur' <= M.
Proof.
  intros Hc ->. unfold select_column. destruct (Z.ltb_spec cur (zlen cand)); [|auto].
  pose proof (first_index_spec cur (zlen cand) (fun row => negb (Byte.eqb mat.[row * k + col] x00))
    ltac:(lia)) as (H1 & _ & _).
  set (sel := first_index _ _ _) in *. destruct (Z.eqb_spec sel (zlen cand)); [auto|].
  destruct (Z.eqb_spec sel cur) as [->|Hne]; cbn [negb]; (split; [|lia]); [reflexivity|].
  apply swap_entries_perm; lia.
Qed.

Lemma select_columns_spec k M mat cand : M = zlen cand ->
  let '(_, cand', cur') := for_range 0 k (select_column k M) (mat, cand, 0) in
  cand' ≡ₚ cand /\ 0 <= cur' <= M.
Proof.
  intros HM. apply (for_range_inv (fun '(_, c, n) => c ≡ₚ cand /\ 0 <= n <= M)); [split; [reflexivity|lia]|].
  intros i [[mt c] n] _ [Hc Hn]. pose proof (select_column_spec k M i mt c n Hn) as H.
  destruct (select_column _ _ _ _) as [[mt' c'] n']. destruct H as [H1 H2].
  - rewrite HM. f_equal. symmetry. apply Permutation_length, Hc.
  - split; [etransitivity; eassumption|exact H2].
Qed.

(** * Soundness *)

(** The lost row is the combination of the chosen rows with [coeff]. *)
Definition expresses (k : Z) (G : mx) (chosen : list Z) (coeff : list Z) (fidx : Z) : Prop :=
  zlen coeff = k /\
  forall j, 0 <= j < k -> xsum k (fun i => byte_of_Z coeff.[i] ⊗ G chosen.[i] j) = G fidx j.

Lemma express_row k n G a chosen invM B fidx : 0 <= k -> is_mx n k a G -> 0 <= fidx < n ->
  is_mx k k invM B -> is_identity k (mxm k B (fun i c => G chosen.[i] c)) ->
  expresses k G chosen
    (map (fun i => byte_to_Z (gf_mul_vect_matrix (zdrop (fidx * k) a) invM (new_bytes k) k).[i]) (zseq k))
    fidx.
Proof.
  intros Hk Ha Hf HB Hid. split; [rewrite length_map, length_seqZ; lia|]. intros j Hj.
  destruct (gf_mul_vect_matrix_spec (zdrop (fidx * k) a) invM (new_bytes k) k) as [_ Hv].
  { unfold new_bytes. rewrite zlen_zrepeat; lia. }
  etransitivity; [|apply (xsum_delta_r k (G fidx) j Hj)].
  transitivity (xsum k (fun i => xsum k (fun c => G fidx c ⊗ B c i) ⊗ G chosen.[i] j)).
  { apply xsum_ext. intros i Hi. rewrite zget_map_zseq, byte_of_to_Z, Hv by lia. f_equal.
    apply xsum_ext. intros c Hc. rewrite zget_zdrop by nia.
    rewrite (is_mx_get _ _ _ _ c i HB), (is_mx_get _ _ _ _ fidx c Ha) by lia. reflexivity. }
  change (mxm k (mxm k (fun _ => G fidx) B) (fun i c => G chosen.[i] c) 0 j = xsum k (fun c => G fidx c ⊗ delta c j)).
  rewrite mxm_assoc. apply xsum_ext. intros c Hc. f_equal. apply Hid; assumption.
Qed.

Lemma chosen_rows (k : Z) (cand : list Z) : 0 <= k <= zlen cand ->
  map (fun i => cand.[i]) (zseq k) = take (Z.to_nat k) cand.
Proof.
  intros Hk. apply zlist_ext.
  - rewrite length_map, length_seqZ, length_take. lia.
  - rewrite length_map, length_seqZ. intros i Hi. rewrite zget_map_zseq by lia.
    symmetry. apply (zget_ztake cand k i). lia.
Qed.

(** A successful plan names [k] distinct surviving rows and expresses every
    lost row in them. *)
Lemma get_multi_decode_plan_sound ct k r z failed chosen factors :
  1 <= k -> 0 <= r -> 1 <= z -> family_shape ct k r z ->
  Forall (fun f => 0 <= f < k + r + z) failed ->
  get_multi_decode_plan k r z ct failed = Some (chosen, factors) ->
  zlen chosen = k /\ NoDup chosen /\
  Forall (fun i => 0 <= i < k + r + z /\ i ∉ failed) chosen /\
  Forall2 (fun fidx coeff => expresses k (family_gen ct k r z) chosen coeff fidx) failed factors.
Proof.
  intros Hk Hr Hz Hs Hf H. unfold get_multi_decode_plan in H. cbv zeta in H.
  destruct (code_gen_matrix_spec ct k r z Hk Hr Hz Hs) as (a & Ea & Ha). rewrite Ea in H.
  destruct (candidate_rows_spec k (k + r) (k + r + z) (list_to_set failed) ltac:(lia)) as [Hc Hnd].
  set (cand := candidate_rows _ _ _ _) in *.
  destruct (Z.ltb_spec (zlen cand) k) as [|Hlen]; [discriminate|].
  pose proof (select_columns_spec k (zlen cand) (copy_rows k cand a) cand eq_refl) as Hsel.
  destruct (for_range 0 k _ _) as [[mt cand'] cur]. destruct Hsel as [Hp _].
  destruct (Z.ltb_spec cur k) as [|_]; [discriminate|].
  assert (Hl' : zlen cand' = zlen cand) by (f_equal; apply Permutation_length, Hp).
  rewrite (chosen_rows k cand') in H by lia. set (ch := take (Z.to_nat k) cand') in *.
  assert (Hch : Forall (fun i => 0 <= i < k + r + z /\ i ∉ failed) ch).
  { apply Forall_take. rewrite Hp. eapply Forall_impl; [exact Hc|]. cbv beta.
    intros i [? ?%not_elem_of_list_to_set]. auto. }
  assert (Hzch : zlen ch = k) by (unfold ch; rewrite length_take; lia).
  pose proof (copy_rows_spec k (k + r + z) ch a (family_gen ct k r z) ltac:(lia) Ha) as Ht.
  rewrite Hzch in Ht.
  pose proof (gf_invert_matrix_spec k _ _ (new_bytes (k * k)) ltac:(lia)
    (Ht (Forall_impl _ _ _ Hch (fun i Hi => proj1 Hi)))) as Hinv.
  destruct (gf_invert_matrix _ _ k) as [ret [in' invM]].
  destruct Hinv as [(-> & B & HB & Hid & _)|[-> _]];
    [unfold new_bytes; rewrite zlen_zrepeat; nia| |discriminate].
  cbn [negb Z.eqb] in H. apply Some_inj, pair_eq in H as [<- <-].
  split; [exact Hzch|]. split; [eapply sublist_NoDup; [|apply sublist_take]; rewrite Hp; exact Hnd|].
  split; [exact Hch|]. apply Forall2_fmap_r, Forall_Forall2_diag.
  eapply Forall_impl; [exact Hf|]. intros f Hf1.
  exact (express_row k (k + r + z) _ a ch invM B f ltac:(lia) Ha Hf1 HB Hid).
Qed.

(** Applied to the blocks of a stripe the coefficients give the lost block. *)
Lemma expresses_value k G chosen coeff fidx d : expresses k G chosen coeff fidx ->
  xsum k (fun i => byte_of_Z coeff.[i] ⊗ encoded k G d chosen.[i]) = encoded k G d fidx.
Proof.
  intros [_ H]. unfold encoded.
  pose proof (mxv_mxm k (fun _ i => byte_of_Z coeff.[i]) (fun i j => G chosen.[i] j) d 0) as E.
  unfold mxv, mxm in E. etransitivity; [symmetry; exact E|].
  apply xsum_ext. intros j Hj. f_equal. apply H, Hj.
Qed.
