(* ===== verification/RowSelection.v ===== *)
(** Completeness of the row selection of [get_multi_decode_plan]: it succeeds
    exactly when the candidate rows determine the data blocks, and the
    inversion that follows it never fails. *)
From S2P Require Import Prelude GF256 LinAlg GFMatrix EcKernel Groups Codes LocalRepair.
From S2P Require Import MultiPlan.
From Stdlib Require Import Field.

(** * The state of the elimination after [col] columns *)

Record selecting (k M : Z) (G : mx) (col : Z) (mt : mx) (cand : list Z) (cur : Z) (pivs : list Z) : Prop := {
  sl_len : zlen cand = M;
  sl_cur : 0 <= cur <= M;
  sl_pivs_len : zlen pivs = cur;
  sl_pivs_nodup : NoDup pivs;
  sl_pivs_range : Forall (fun c => 0 <= c < col) pivs;
  sl_pivot : forall r i, 0 <= r < M -> 0 <= i < cur -> mt r pivs.[i] = delta r i;
  sl_below : forall r c, cur <= r < M -> 0 <= c < col -> mt r c = x00;
  sl_rows : forall v, (forall q, 0 <= q < cur -> mxv k G v cand.[q] = x00) ->
    (forall p, 0 <= p < cur -> mxv k mt v p = x00) /\
    (forall i, cur <= i < M -> mxv k mt v i = mxv k G v cand.[i]);
  sl_back : forall v, (forall p, 0 <= p < M -> mxv k mt v p = x00) ->
    forall q, 0 <= q < M -> mxv k G v cand.[q] = x00
}.

Lemma selecting_init k G cand : 0 <= k ->
  selecting k (zlen cand) G 0 (fun i c => G cand.[i] c) cand 0 [].
Proof. intros Hk. split; try (cbn; lia || constructor || (intros; lia)); auto. Qed.

(** A column without a pivot. *)
Lemma selecting_skip k M G col mt cand cur pivs : 0 <= col ->
  selecting k M G col mt cand cur pivs -> (forall r, cur <= r < M -> mt r col = x00) ->
  selecting k M G (col + 1) mt cand cur pivs.
Proof.
  intros Hcol [H1 H2 H3 H4 H5 H6 H7 H8 H9] Hz. split; auto.
  - eapply Forall_impl; [exact H5|]. cbv beta. lia.
  - intros r c Hr Hc. destruct (Z.eq_dec c col) as [->|]; [apply Hz, Hr|apply H7; lia].
Qed.

Lemma mxv_row_swap k i j M v r : mxv k (row_swap i j M) v r = mxv k M v (swp i j r).
Proof. reflexivity. Qed.

Lemma mxv_row_scale k i t M v r :
  mxv k (row_scale i t M) v r = if r =? i then mxv k M v r ⊗ t else mxv k M v r.
Proof. exact (mxm_row_scale k i t M (fun c _ => v c) r 0). Qed.

Lemma mxv_row_elim k i C M v r :
  mxv k (row_elim i C M) v r = if r =? i then mxv k M v r else mxv k M v r ⊕ C r ⊗ mxv k M v i.
Proof. exact (mxm_row_elim k i C M (fun c _ => v c) r 0). Qed.

(** The entries of the swapped list of rows. *)
Definition swapped (i j : Z) (l l' : list Z) : Prop :=
  zlen l' = zlen l /\ forall a, 0 <= a < zlen l -> l'.[a] = l.[swp i j a].

Lemma swap_entries_spec i j l : 0 <= i < zlen l -> 0 <= j < zlen l -> swapped i j l (swap_entries i j l).
Proof.
  intros Hi Hj. unfold swap_entries. split; [rewrite !zlen_zset; reflexivity|]. intros a Ha.
  rewrite zget_zset by (rewrite ?zlen_zset; lia). unfold swp.
  destruct (Z.eqb_spec a j) as [->|Hne]; [zcases; congruence|].
  rewrite zget_zset by lia. zcases; congruence.
Qed.

Lemma swapped_refl i l : swapped i i l l.
Proof. split; [reflexivity|]. intros a _. unfold swp. zcases; congruence. Qed.

(** A column with the pivot in row [sel]: [m2] is the matrix after the swap
    and the normalisation, [m3] after the elimination. *)
Section PivotStep.
Context (k M : Z) (G : mx) (col : Z) (mt : mx) (cand cand' : list Z) (cur : Z) (pivs : list Z) (sel : Z).
Context (Hcol : 0 <= col) (HS : selecting k M G col mt cand cur pivs) (Hsel : cur <= sel < M)
  (Hnz : mt sel col <> x00) (Hsw : swapped cur sel cand cand').
Let t := gf_inv (mt sel col).
Let m2 := row_scale cur t (row_swap cur sel mt).
Let m3 := row_elim cur (fun r => m2 r col) m2.

Lemma pivot_inverse : mt sel col ⊗ t = x01.
Proof. unfold t. field. exact Hnz. Qed.

Lemma pivot_cur : 0 <= cur < M.
Proof. pose proof (sl_cur _ _ _ _ _ _ _ _ HS). lia. Qed.

Lemma pivot_low r c : cur <= r < M -> 0 <= c < col -> m2 r c = x00.
Proof.
  intros Hr Hc. unfold m2, row_scale, row_swap.
  rewrite (sl_below _ _ _ _ _ _ _ _ HS) by (try (unfold swp; zcases); lia). zcases; ring.
Qed.

Lemma pivot_one : m2 cur col = x01.
Proof. unfold m2, row_scale, row_swap, swp. zcases. exact pivot_inverse. Qed.

Lemma pivot_step_pivot r i : 0 <= r < M -> 0 <= i < cur + 1 -> m3 r (pivs ++ [col]).[i] = delta r i.
Proof.
  intros Hr Hi. pose proof pivot_cur. destruct HS as [_ _ H3 _ H5 H6 _ _ _].
  rewrite zget_app by lia. rewrite H3. unfold m3, row_elim. destruct (Z.ltb_spec i cur).
  - assert (Hpi : 0 <= pivs.[i] < col) by (apply (DecodeSpec.Forall_zget _ _ i H5); lia).
    rewrite (pivot_low cur) by lia. destruct (Z.eqb_spec r cur) as [->|].
    + rewrite (pivot_low cur) by lia. unfold delta. zcases. reflexivity.
    + transitivity (m2 r pivs.[i]); [ring|]. unfold m2, row_scale, row_swap.
      rewrite H6 by (try apply swp_range; lia). unfold delta, swp. zcases; reflexivity.
  - replace i with cur by lia. replace (cur - cur) with 0 by lia. change ([col].[0]) with col.
    rewrite pivot_one. unfold delta. destruct (Z.eqb_spec r cur) as [->|]; [exact pivot_one|ring].
Qed.

Lemma pivot_step_below r c : cur + 1 <= r < M -> 0 <= c < col + 1 -> m3 r c = x00.
Proof.
  intros Hr Hc. pose proof pivot_cur. unfold m3, row_elim. zcases. destruct (Z.eq_dec c col) as [->|].
  - rewrite pivot_one. ring.
  - rewrite (pivot_low r c), (pivot_low cur c) by lia. ring.
Qed.

(** When the pivot row vanishes on [v], only the swap is visible. *)
Lemma pivot_step_mxv v r : mxv k mt v sel = x00 -> mxv k m3 v r = mxv k mt v (swp cur sel r).
Proof.
  intros Hv. unfold m3. rewrite mxv_row_elim. unfold m2. rewrite !mxv_row_scale, !mxv_row_swap, Z.eqb_refl.
  replace (swp cur sel cur) with sel by (unfold swp; zcases). rewrite Hv.
  destruct (Z.eqb_spec r cur) as [->|]; [|ring].
  replace (swp cur sel cur) with sel by (unfold swp; zcases). rewrite Hv. ring.
Qed.

Lemma pivot_step_rows v : (forall q, 0 <= q < cur + 1 -> mxv k G v cand'.[q] = x00) ->
  (forall p, 0 <= p < cur + 1 -> mxv k m3 v p = x00) /\
  (forall i, cur + 1 <= i < M -> mxv k m3 v i = mxv k G v cand'.[i]).
Proof.
  intros Hv. pose proof pivot_cur. destruct HS as [H1 _ _ _ _ _ _ H8 _]. destruct Hsw as [_ Hg].
  destruct (H8 v) as [Hp Hi].
  { intros q Hq. specialize (Hv q ltac:(lia)). rewrite Hg in Hv by lia. revert Hv. unfold swp. zcases. auto. }
  assert (Hs : forall i, cur <= i < M -> mxv k mt v (swp cur sel i) = mxv k G v cand'.[i]).
  { intros i Hi'. rewrite Hg by lia. apply Hi. unfold swp. zcases. }
  assert (Hc : mxv k mt v (swp cur sel cur) = x00) by (rewrite Hs, Hv; lia || reflexivity).
  assert (Hc' : mxv k mt v sel = x00) by (revert Hc; unfold swp; zcases; auto).
  split; [intros p Hpr|intros i Hi']; rewrite pivot_step_mxv by exact Hc'; [|apply Hs; lia].
  destruct (Z.eq_dec p cur) as [->|]; [exact Hc|].
  replace (swp cur sel p) with p by (unfold swp; zcases). apply Hp. lia.
Qed.

Lemma pivot_step_back v : (forall p, 0 <= p < M -> mxv k m3 v p = x00) ->
  forall q, 0 <= q < M -> mxv k G v cand'.[q] = x00.
Proof.
  intros Hv. pose proof pivot_cur as Hcur. destruct HS as [H1 _ _ _ _ _ _ _ H9]. destruct Hsw as [_ Hg].
  assert (Hc : mxv k mt v sel = x00).
  { pose proof (Hv cur Hcur) as Hp. unfold m3 in Hp. rewrite mxv_row_elim, Z.eqb_refl in Hp.
    unfold m2 in Hp. rewrite mxv_row_scale, Z.eqb_refl, mxv_row_swap in Hp.
    replace (swp cur sel cur) with sel in Hp by (unfold swp; zcases).
    apply gf_mul_eq_0 in Hp as [|E]; [assumption|]. pose proof pivot_inverse as Ht.
    rewrite E in Ht. replace (mt sel col ⊗ x00) with x00 in Ht by ring. discriminate Ht. }
  intros q Hq. rewrite Hg by lia. apply H9; [|apply swp_range; lia]. intros p Hp.
  rewrite <- (Hv (swp cur sel p)) by (apply swp_range; lia). rewrite pivot_step_mxv by exact Hc.
  f_equal. unfold swp. zcases.
Qed.

Lemma selecting_pivot : selecting k M G (col + 1) m3 cand' (cur + 1) (pivs ++ [col]).
Proof.
  pose proof pivot_cur. pose proof HS as [H1 H2 H3 H4 H5 _ _ _ _]. pose proof (proj1 Hsw).
  split; [lia|lia| | | |exact pivot_step_pivot|exact pivot_step_below|exact pivot_step_rows|exact pivot_step_back].
  - rewrite length_app. cbn. lia.
  - apply NoDup_app. split; [exact H4|]. split; [|apply NoDup_singleton].
    intros x Hx ->%list_elem_of_singleton. rewrite Forall_forall in H5. specialize (H5 _ Hx). lia.
  - apply Forall_app. split; [eapply Forall_impl; [exact H5|]; cbv beta; lia|].
    constructor; [lia|constructor].
Qed.
End PivotStep.

(** * The arrays follow the algebra *)

(** Eliminating one column of an [M] x [k] matrix whose pivot row is zero
    before [col]. *)
Lemma eliminate_column_spec k M col cur a m : 0 <= col <= k -> 0 <= cur < M -> col < k ->
  is_mx M k a m -> (forall c, 0 <= c < col -> m cur c = x00) ->
  is_mx M k (for_range 0 M (fun row a =>
      if row =? cur then a
      else
        let factor := a.[row * k + col] in
        if Byte.eqb factor x00 then a else for_range col k (gf_elim_cell k cur row factor) a) a)
    (row_elim cur (fun r => m r col) m).
Proof.
  intros Hcol Hcur Hk Ha Hz.
  pose (F := fun n r c => if r <? n then row_elim cur (fun r => m r col) m r c else m r c).
  apply is_mx_ext with (M := F M); [|intros r c Hr Hc; unfold F; zcases; reflexivity].
  apply (for_range_ind (fun n a => is_mx M k a (F n))); [lia| |].
  { eapply is_mx_ext; [exact Ha|]. intros r c Hr Hc. unfold F. zcases; reflexivity. }
  intros row s Hrow Hs. destruct (Z.eqb_spec row cur) as [->|Hne].
  { eapply is_mx_ext; [exact Hs|]. intros r c Hr Hc. unfold F, row_elim. zcases; reflexivity. }
  cbv zeta. mx_get. replace (F row row col) with (m row col) by (unfold F; zcases; reflexivity).
  destruct (Byte.eqb (m row col) x00) eqn:Eb.
  - apply byte_dec_bl in Eb. eapply is_mx_ext; [exact Hs|]. intros r c Hr Hc. unfold F, row_elim.
    zcases; try reflexivity. replace r with row by lia. rewrite Eb. ring.
  - eapply is_mx_ext; [apply elim_row_from_spec; [lia..| |exact Hs]; lia|].
    intros r c Hr Hc. cbv beta. unfold F, row_elim. zcases; subst; try reflexivity; try lia;
      rewrite (Hz c) by lia; ring.
Qed.

Lemma select_column_selecting k G col a m cand cur pivs : 0 <= col < k ->
  is_mx (zlen cand) k a m -> selecting k (zlen cand) G col m cand cur pivs ->
  let '(a', cand', cur') := select_column k (zlen cand) col (a, cand, cur) in
  exists m' pivs', is_mx (zlen cand) k a' m' /\
    selecting k (zlen cand) G (col + 1) m' cand' cur' pivs'.
Proof.
  intros Hcol Ha HS. pose proof (sl_cur _ _ _ _ _ _ _ _ HS) as Hcur. unfold select_column.
  destruct (Z.ltb_spec cur (zlen cand)) as [Hlt|Hge].
  2: { exists m, pivs. split; [exact Ha|]. apply selecting_skip; [lia|exact HS|intros; lia]. }
  pose proof (first_index_spec cur (zlen cand) (fun row => negb (Byte.eqb a.[row * k + col] x00))
    ltac:(lia)) as (Hs1 & Hs2 & Hs3).
  set (sel := first_index _ _ _) in *. destruct (Z.eqb_spec sel (zlen cand)) as [Hn|Hne].
  { exists m, pivs. split; [exact Ha|]. apply selecting_skip; [lia|exact HS|]. intros r Hr.
    specialize (Hs2 r ltac:(lia)). cbv beta in Hs2. apply negb_false_iff, byte_dec_bl in Hs2.
    revert Hs2. mx_get. auto. }
  specialize (Hs3 ltac:(lia)). cbv beta in Hs3. revert Hs3. mx_get. intros Hnz.
  assert (Hnz' : m sel col <> x00) by (intros E; rewrite E in Hnz; discriminate Hnz).
  pose (Q := fun '(a1, c1) => is_mx (zlen cand) k a1 (row_swap cur sel m) /\ swapped cur sel cand c1).
  assert (Hswap : Q (if negb (sel =? cur)
    then (for_range 0 k (gf_swap_cell k cur sel) a, swap_entries cur sel cand) else (a, cand))).
  { destruct (Z.eqb_spec sel cur) as [->|Hsc]; cbn [negb].
    - split; [|apply swapped_refl]. eapply is_mx_ext; [exact Ha|]. intros r c Hr Hc. unfold row_swap, swp.
      zcases; congruence.
    - split; [apply swap_row_spec; [lia..| |exact Ha]; lia|apply swap_entries_spec; lia]. }
  destruct (if negb (sel =? cur) then _ else _) as [a1 cand1]. destruct Hswap as [Ha1 Hsw].
  pose proof (selecting_pivot k (zlen cand) G col m cand cand1 cur pivs sel ltac:(lia) HS ltac:(lia) Hnz' Hsw)
    as Hstep. cbv zeta in Hstep. eexists _, _. split; [|exact Hstep].
  replace a1.[cur * k + col] with (m sel col)
    by (mx_get; unfold row_swap, swp; zcases; reflexivity).
  apply eliminate_column_spec; [lia..| |].
  - eapply is_mx_ext; [apply scale_row_from_spec; [lia..|exact Ha1]|]. intros r c Hr Hc.
    cbv beta. unfold row_scale. zcases; try reflexivity. subst r. unfold row_swap.
    rewrite (sl_below _ _ _ _ _ _ _ _ HS) by (try (unfold swp; zcases); lia). ring.
  - intros c Hc. unfold row_scale, row_swap. rewrite Z.eqb_refl.
    rewrite (sl_below _ _ _ _ _ _ _ _ HS) by (try (unfold swp; zcases); lia). ring.
Qed.

(** * What the final state says *)

(** The rows determine the data: only the zero stripe vanishes on them. *)
Definition determines (k : Z) (G : mx) (rows : list Z) : Prop :=
  forall v, (forall q, q ∈ rows -> mxv k G v q = x00) -> forall c, 0 <= c < k -> v c = x00.

Lemma nodup_range_length (l : list Z) n : NoDup l -> Forall (fun c => 0 <= c < n) l -> zlen l <= Z.max 0 n.
Proof.
  intros Hnd Hr. rewrite <- (zlen_seqZ 0 n). apply Nat2Z.inj_le, submseteq_length, NoDup_submseteq; [exact Hnd|].
  intros x Hx. rewrite Forall_forall in Hr. apply elem_of_seqZ. specialize (Hr x Hx). lia.
Qed.

Lemma free_column (pivs : list Z) k : zlen pivs < k -> exists c, 0 <= c < k /\ c ∉ pivs.
Proof.
  intros Hk. destruct (decide (Exists (fun c => c ∉ pivs) (zseq k))) as [H|H].
  - apply Exists_exists in H as (c & Hc & Hn). exists c. apply elem_of_seqZ in Hc. split; [lia|exact Hn].
  - exfalso. assert (Hl : (length (zseq k) <= length pivs)%nat).
    { apply submseteq_length, NoDup_submseteq; [apply NoDup_seqZ|]. intros x Hx.
      destruct (decide (x ∈ pivs)) as [|Hn]; [assumption|]. exfalso. apply H, Exists_exists. eauto. }
    rewrite length_seqZ in Hl. lia.
Qed.

Lemma every_column (pivs : list Z) k c : NoDup pivs -> Forall (fun c => 0 <= c < k) pivs -> k <= zlen pivs ->
  0 <= c < k -> c ∈ pivs.
Proof.
  intros Hnd Hr Hl Hc. destruct (decide (c ∈ pivs)) as [|Hn]; [assumption|]. exfalso.
  pose proof (nodup_range_length (c :: pivs) k) as H. rewrite NoDup_cons, Forall_cons in H.
  specialize (H (conj Hn Hnd) (conj Hc Hr)). cbn [length] in H. lia.
Qed.

Lemma selecting_kernel k M G m cand cur pivs : selecting k M G k m cand cur pivs -> cur < k ->
  exists v c, 0 <= c < k /\ v c <> x00 /\ forall p, 0 <= p < M -> mxv k m v p = x00.
Proof.
  intros [H1 H2 H3 H4 H5 H6 H7 _ _] Hlt. destruct (free_column pivs k ltac:(lia)) as (c & Hc & Hfree).
  exists (fun c' => xsum cur (fun i => delta c' pivs.[i] ⊗ m i c) ⊕ delta c' c), c.
  assert (Hpc : forall i, 0 <= i < cur -> 0 <= pivs.[i] < k /\ pivs.[i] <> c).
  { intros i Hi. split; [apply (DecodeSpec.Forall_zget _ _ i H5); lia|]. intros E. apply Hfree.
    rewrite <- E. apply list_elem_of_In, zget_In. lia. }
  split; [exact Hc|]. split.
  - rewrite xsum_zero; [unfold delta; rewrite Z.eqb_refl; discriminate|]. intros i Hi.
    specialize (Hpc i Hi). unfold delta. zcases. ring.
  - intros p Hp. unfold mxv.
    rewrite (xsum_ext k _ (fun c' => xsum cur (fun i => m p c' ⊗ delta c' pivs.[i] ⊗ m i c) ⊕ m p c' ⊗ delta c' c)).
    2: { intros c' Hc'. transitivity (m p c' ⊗ xsum cur (fun i => delta c' pivs.[i] ⊗ m i c) ⊕ m p c' ⊗ delta c' c);
         [ring|]. f_equal. rewrite <- xsum_mul_l. apply xsum_ext. intros. ring. }
    rewrite xsum_add, xsum_delta_r, xsum_swap by exact Hc.
    rewrite (xsum_ext cur _ (fun i => delta p i ⊗ m i c)).
    2: { intros i Hi. rewrite xsum_mul_r, xsum_delta_r by apply Hpc, Hi. rewrite H6 by lia. reflexivity. }
    destruct (Z.lt_ge_cases p cur).
    + rewrite (xsum_delta_l cur (fun i => m i c)) by lia. ring.
    + rewrite H7, xsum_zero by lia || (intros i Hi; unfold delta; zcases; ring). ring.
Qed.

Lemma selecting_full k M G m cand cur pivs : 0 <= k -> selecting k M G k m cand cur pivs -> k <= cur ->
  nonsingular k (fun i c => G cand.[i] c).
Proof.
  intros Hk [H1 H2 H3 H4 H5 H6 _ H8 _] Hle v Hv c Hc.
  pose proof (every_column pivs k c H4 H5 ltac:(lia) Hc) as Hin.
  apply list_elem_of_In, In_zget in Hin as (i & Hi & <-).
  pose proof (nodup_range_length pivs k H4 H5).
  destruct (H8 v) as [Hp _]; [intros q Hq; apply Hv; lia|].
  rewrite <- (Hp i) by lia. unfold mxv. symmetry.
  rewrite (xsum_single k _ pivs.[i] Hc).
  - rewrite H6 by lia. unfold delta. rewrite Z.eqb_refl. ring.
  - intros c' Hc' Hne. pose proof (every_column pivs k c' H4 H5 ltac:(lia) Hc') as Hin'.
    apply list_elem_of_In, In_zget in Hin' as (j & Hj & <-). rewrite H6 by lia. unfold delta.
    destruct (Z.eqb_spec i j) as [->|]; [contradiction|ring].
Qed.

(** * Completeness *)

Lemma select_columns_selecting k n G a cand : 0 <= k -> is_mx n k a G -> Forall (fun i => 0 <= i < n) cand ->
  let '(_, cand', cur) := for_range 0 k (select_column k (zlen cand)) (copy_rows k cand a, cand, 0) in
  exists m pivs, selecting k (zlen cand) G k m cand' cur pivs.
Proof.
  intros Hk Ha Hr.
  pose (P := fun col '(b, c, cur) => exists m pivs, is_mx (zlen cand) k b m /\
                                      selecting k (zlen cand) G col m c cur pivs).
  assert (H : P k (for_range 0 k (select_column k (zlen cand)) (copy_rows k cand a, cand, 0))).
  { apply (for_range_ind P); [lia| |].
    - eexists _, []. split; [apply (copy_rows_spec k n); eassumption|apply selecting_init; lia].
    - intros col [[b c] cur] Hcol (m & pivs & Hb & HS). pose proof (sl_len _ _ _ _ _ _ _ _ HS) as El.
      rewrite <- El in Hb, HS. pose proof (select_column_selecting k G col b m c cur pivs ltac:(lia) Hb HS) as H.
      rewrite El in H. exact H. }
  destruct (for_range 0 k _ _) as [[b c] cur]. destruct H as (m & pivs & _ & HS). eauto.
Qed.

(** The plan exists exactly when the candidate rows determine the stripe. *)
Lemma get_multi_decode_plan_complete ct k r z failed :
  1 <= k -> 0 <= r -> 1 <= z -> family_shape ct k r z ->
  is_Some (get_multi_decode_plan k r z ct failed) <->
  determines k (family_gen ct k r z) (candidate_rows k (k + r) (k + r + z) (list_to_set failed)).
Proof.
  intros Hk Hr Hz Hs. unfold get_multi_decode_plan. cbv zeta.
  destruct (code_gen_matrix_spec ct k r z Hk Hr Hz Hs) as (a & -> & Ha).
  destruct (candidate_rows_spec k (k + r) (k + r + z) (list_to_set failed) ltac:(lia)) as [Hc _].
  set (cand := candidate_rows _ _ _ _) in *. set (G := family_gen ct k r z) in *.
  assert (Hr' : Forall (fun i => 0 <= i < k + r + z) cand)
    by exact (Forall_impl _ _ _ Hc (fun i Hi => proj1 Hi)).
  pose proof (select_columns_selecting k (k + r + z) G a cand ltac:(lia) Ha Hr') as HS.
  pose proof (select_columns_spec k (zlen cand) (copy_rows k cand a) cand eq_refl) as Hp.
  destruct (for_range 0 k _ _) as [[mt cand'] cur]. destruct HS as (m & pivs & HS). destruct Hp as [Hp _].
  pose proof (sl_cur _ _ _ _ _ _ _ _ HS) as Hcur. pose proof (sl_len _ _ _ _ _ _ _ _ HS) as Hlen.
  destruct (Z.lt_ge_cases cur k) as [Hlt|Hge].
  - split.
    + intros HN. exfalso. destruct (zlen cand <? k); [exact (is_Some_None HN)|].
      destruct (Z.ltb_spec cur k); [exact (is_Some_None HN)|lia].
    + intros Hd. exfalso. destruct (selecting_kernel _ _ _ _ _ _ _ HS Hlt) as (v & c & Hcr & Hv & Hker).
      apply Hv, Hd; [|exact Hcr]. intros q Hq. rewrite <- Hp in Hq.
      apply list_elem_of_In, In_zget in Hq as (i & Hi & <-).
      apply (sl_back _ _ _ _ _ _ _ _ HS); [exact Hker|lia].
  - pose proof (selecting_full k _ _ _ _ _ _ ltac:(lia) HS Hge) as Hns.
    destruct (Z.ltb_spec (zlen cand) k); [lia|]. destruct (Z.ltb_spec cur k); [lia|].
    rewrite (chosen_rows k cand') by lia. set (ch := take (Z.to_nat k) cand').
    assert (Hzch : zlen ch = k) by (unfold ch; rewrite length_take; lia).
    assert (Hch : Forall (fun i => 0 <= i < k + r + z) ch) by (apply Forall_take; rewrite Hp; exact Hr').
    pose proof (copy_rows_spec k (k + r + z) ch a G ltac:(lia) Ha Hch) as Ht. rewrite Hzch in Ht.
    assert (Hns' : nonsingular k (fun i c => G ch.[i] c)).
    { intros v Hv. apply Hns. intros i Hi. rewrite <- (Hv i Hi). apply mxv_ext; [|reflexivity].
      intros j Hj. f_equal. symmetry. apply (zget_ztake cand' k i). lia. }
    pose proof (gf_invert_matrix_spec k _ _ (new_bytes (k * k)) ltac:(lia) Ht) as Hinv.
    destruct (gf_invert_matrix _ _ k) as [ret [in' invM]].
    destruct Hinv as [(-> & _)|[_ Hn]];
      [unfold new_bytes; rewrite zlen_zrepeat; nia| |contradiction].
    cbn [negb Z.eqb]. split; [|intros _; eauto]. intros _ v Hv. apply Hns. intros i Hi.
    apply Hv. rewrite <- Hp. apply list_elem_of_In, zget_In. lia.
Qed.

(** [k] invertible rows determine the stripe. *)
Lemma inverse_determines k n G a rows : 0 <= k -> is_mx n k a G -> Forall (fun i => 0 <= i < n) rows ->
  zlen rows = k -> fst (gf_invert_matrix (copy_rows k rows a) (new_bytes (k * k)) k) = 0 ->
  determines k G rows.
Proof.
  intros Hk Ha Hr Hl Hret v Hv c Hc. pose proof (copy_rows_spec k n rows a G Hk Ha Hr) as Ht. rewrite Hl in Ht.
  pose proof (gf_invert_matrix_spec k _ _ (new_bytes (k * k)) Hk Ht) as Hinv.
  destruct (gf_invert_matrix _ _ k) as [ret [in' invM]]. cbn [fst] in Hret. subst ret.
  destruct Hinv as [(_ & B & _ & Hid & _)|[? _]]; [unfold new_bytes; rewrite zlen_zrepeat; nia| |discriminate].
  apply (left_inverse_nonsingular _ _ _ Hid v); [|exact Hc]. intros i Hi. apply (Hv rows.[i]).
  apply list_elem_of_In, zget_In. lia.
Qed.

Lemma determines_mono k G rows rows' : rows ⊆ rows' -> determines k G rows -> determines k G rows'.
Proof. intros Hsub Hd v Hv. apply Hd. intros q Hq. apply Hv, Hsub, Hq. Qed.
