(* ===== verification/RepairPlan.v ===== *)
(** Choice of the recovery equations for a set of failed blocks:
    [glrc_repair_ilp.cpp].  [std::sort] leaves the order of equivalent elements
    unspecified, so it is an interface ([StdSort]) with the documented law. *)
From S2P Require Import Prelude GF256 Groups Decode.
From Stdlib Require Import DecimalString.

(** * [std::sort] *)

Class StdSort := std_sort : forall {A : Type}, (A -> A -> bool) -> list A -> list A.

(** The comparator is a strict weak ordering, the requirement of [std::sort]. *)
Record strict_weak {A} (lt : A -> A -> bool) : Prop := {
  sw_irrefl : forall x, lt x x = false;
  sw_trans : forall x y w, lt x y = true -> lt y w = true -> lt x w = true;
  sw_equiv : forall x y w, lt x y = false -> lt y x = false -> lt y w = false -> lt w y = false ->
               lt x w = false /\ lt w x = false }.

Class StdSortLaws (S : StdSort) : Prop := {
  std_sort_perm : forall {A} (lt : A -> A -> bool) l, std_sort lt l ≡ₚ l;
  std_sort_sorted : forall {A} (lt : A -> A -> bool) l, strict_weak lt ->
    StronglySorted (fun x y => lt y x = false) (std_sort lt l) }.

(** * Equations and plans *)

Inductive GlrcEquationType := LOCAL | GLOBAL.

Record GlrcEquation := {
  eq_type : GlrcEquationType;
  eq_index : Z;
  eq_name : string;
  involved_blocks : list Z }.

#[export] Instance GlrcEquation_inhabited : Inhabited GlrcEquation :=
  populate {| eq_type := LOCAL; eq_index := 0; eq_name := ""; involved_blocks := [] |}.

(** Without [ilp_solve_time_sec], a wall-clock measurement. *)
Record GlrcIlpRepairPlan := {
  success : bool;
  plan_failed_block_ids : list Z;
  selected_equations : list string;
  selected_equation_indices : list Z;
  helper_block_ids : list Z;
  helper_block_count : Z;
  error_message : string }.

(** [plan = GlrcIlpRepairPlan(); plan.failed_block_ids = failed_block_ids;] *)
Definition fresh_plan (failed_block_ids : list Z) : GlrcIlpRepairPlan :=
  {| success := false; plan_failed_block_ids := failed_block_ids; selected_equations := [];
     selected_equation_indices := []; helper_block_ids := []; helper_block_count := 0;
     error_message := "" |}.

Definition with_error (msg : string) (p : GlrcIlpRepairPlan) : GlrcIlpRepairPlan :=
  {| success := success p; plan_failed_block_ids := plan_failed_block_ids p;
     selected_equations := selected_equations p;
     selected_equation_indices := selected_equation_indices p;
     helper_block_ids := helper_block_ids p; helper_block_count := helper_block_count p;
     error_message := msg |}.

(** [std::to_string] of an [int]. *)
Definition to_string (i : Z) : string := NilZero.string_of_int (Z.to_int i).

(** * Building the equations *)

Definition build_equation_from_group (k r z group_id : Z) (groups : list (list Z)) : GlrcEquation :=
  {| eq_type := LOCAL; eq_index := group_id; eq_name := "L" +:+ to_string group_id;
     involved_blocks := groups.[group_id] |}.

Definition build_global_equation (k global_id : Z) : GlrcEquation :=
  {| eq_type := GLOBAL; eq_index := global_id; eq_name := "G" +:+ to_string global_id;
     involved_blocks := zseq k ++ [k + global_id] |}.

Definition all_equations_of (k r z : Z) : list GlrcEquation :=
  let groups := glrc_build_placement_groups k r z in
  map (fun i => build_equation_from_group k r z i groups) (zseq z) ++
  map (build_global_equation k) (zseq r).

(** [if (failed_set.count(b)) { candidates.push_back(idx); break; }] *)
Definition touches (failed_set : gset Z) (eq : GlrcEquation) : bool :=
  existsb (fun b => bool_decide (b ∈ failed_set)) (involved_blocks eq).

Definition glrc_build_recovery_equations (k r z : Z) (failed_block_ids : list Z)
  : list GlrcEquation * list Z :=
  let all_equations := all_equations_of k r z in
  let failed_set := list_to_set failed_block_ids in
  (all_equations,
   List.filter (fun idx => touches failed_set all_equations.[idx]) (zseq (zlen all_equations))).

(** * Helpers, covering, enumeration *)

Definition helper_blocks_for_equation (eq : GlrcEquation) (failed_set : gset Z) : list Z :=
  List.filter (fun b => negb (bool_decide (b ∈ failed_set))) (involved_blocks eq).

Definition helper_set (selected : list Z) (all_equations : list GlrcEquation) (failed_set : gset Z)
  : gset Z :=
  fold_left (fun s idx => fold_left (fun s b => {[b]} ∪ s)
                            (helper_blocks_for_equation all_equations.[idx] failed_set) s) selected ∅.

Definition combination_covers (combo : list Z) (all_equations : list GlrcEquation) (failed_set : gset Z)
  : bool :=
  let covered : gset Z :=
    fold_left (fun s idx => fold_left (fun s b => if bool_decide (b ∈ failed_set) then {[b]} ∪ s else s)
                              (involved_blocks all_equations.[idx]) s) combo ∅ in
  Z.of_nat (size covered) =? Z.of_nat (size failed_set).

(** [depth] is [f - current.size()]; the recursion appends one position per level. *)
Fixpoint enumerate_combinations (depth : nat) (n start : Z) (current : list Z) : list (list Z) :=
  match depth with
  | O => [current]
  | S depth' =>
      concat (map (fun i => enumerate_combinations depth' n (i + 1) (current ++ [i]))
                (seqZ start (n - Z.of_nat depth - start + 1)))
  end.

Definition positions_to_equations (candidate_indices positions : list Z) : list Z :=
  map (fun pos => candidate_indices.[pos]) positions.

Definition INT_MAX : Z := 2 ^ 31 - 1.

Section Solvers.
Context {S : StdSort}.

(** The helper list, sorted; its length is the returned count. *)
Definition union_helpers (selected : list Z) (all_equations : list GlrcEquation) (failed_set : gset Z)
  : list Z :=
  std_sort Z.ltb (elements (helper_set selected all_equations failed_set)).

Definition union_helper_count (selected : list Z) (all_equations : list GlrcEquation)
    (failed_set : gset Z) : Z :=
  zlen (union_helpers selected all_equations failed_set).

(** The fields the solvers fill on success. *)
Definition fill_plan (selected helpers : list Z) (cnt : Z) (all_equations : list GlrcEquation)
    (p : GlrcIlpRepairPlan) : GlrcIlpRepairPlan :=
  {| success := true; plan_failed_block_ids := plan_failed_block_ids p;
     selected_equations := map (fun idx => eq_name all_equations.[idx]) selected;
     selected_equation_indices := selected; helper_block_ids := helpers; helper_block_count := cnt;
     error_message := error_message p |}.

(** ** Exhaustive minimisation of the helper union *)

Definition ilp_step (k r z : Z) (failed_block_ids : list Z) (all_equations : list GlrcEquation)
    (candidate_indices : list Z) (failed_set : gset Z) (best : Z * list Z * list Z) (positions : list Z)
  : Z * list Z * list Z :=
  let '(best_helpers, best_combo, best_helper_ids) := best in
  let selected := positions_to_equations candidate_indices positions in
  if negb (combination_covers selected all_equations failed_set) then best
  else if negb (glrc_ilp_decode_matrix_invertible k r z failed_block_ids selected) then best
  else
    let helpers := union_helpers selected all_equations failed_set in
    let cnt := zlen helpers in
    if cnt <? best_helpers then (cnt, selected, helpers) else best.

Definition glrc_solve_repair_ilp (k r z : Z) (failed_block_ids : list Z) : GlrcIlpRepairPlan :=
  let plan := fresh_plan failed_block_ids in
  if zlen failed_block_ids =? 0 then with_error "empty failure set" plan
  else
    let '(all_equations, candidate_indices) := glrc_build_recovery_equations k r z failed_block_ids in
    let f := zlen failed_block_ids in
    if zlen candidate_indices <? f then with_error "not enough candidate equations" plan
    else
      let failed_set := list_to_set failed_block_ids in
      let combos := enumerate_combinations (Z.to_nat f) (zlen candidate_indices) 0 [] in
      let '(best_helpers, best_combo, best_helper_ids) :=
        fold_left (ilp_step k r z failed_block_ids all_equations candidate_indices failed_set) combos
          (INT_MAX, [], []) in
      if zlen best_combo =? 0 then
        with_error "no decodable equation combination (cover + invertible matrix)" plan
      else fill_plan best_combo best_helper_ids best_helpers all_equations plan.

(** ** Rule-based policies *)

Definition local_then_global_primary_equation_index (failed_id k r z : Z) : Z :=
  if failed_id <? k + r then glrc_payload_group_id failed_id k r z else failed_id - k - r.

(** [None] is [return false]; the plan is not written then. *)
Definition fill_plan_from_selection (selected : list Z) (all_equations : list GlrcEquation)
    (failed_set : gset Z) (k r z : Z) (failed_block_ids : list Z) (plan : GlrcIlpRepairPlan)
  : option GlrcIlpRepairPlan :=
  if negb (combination_covers selected all_equations failed_set) then None
  else if negb (glrc_ilp_decode_matrix_invertible k r z failed_block_ids selected) then None
  else
    let helpers := union_helpers selected all_equations failed_set in
    Some (fill_plan selected helpers (zlen helpers) all_equations plan).

Definition equation_failed_cover_count (eq : GlrcEquation) (failed_set : gset Z) : Z :=
  zlen (List.filter (fun b => bool_decide (b ∈ failed_set)) (involved_blocks eq)).

Definition local_equations_by_failed_cover (z : Z) (all_equations : list GlrcEquation)
    (failed_set : gset Z) : list Z :=
  std_sort (fun a b =>
    let ca := equation_failed_cover_count all_equations.[a] failed_set in
    let cb := equation_failed_cover_count all_equations.[b] failed_set in
    if negb (ca =? cb) then ca >? cb else a <? b) (zseq z).

(** [if (selected.size() < f && keep(x)) selected.push_back(x)] over a list. *)
Definition push_while (f : Z) (keep : list Z -> Z -> bool) (xs selected : list Z) : list Z :=
  fold_left (fun selected x => if (zlen selected <? f) && keep selected x then selected ++ [x]
                               else selected) xs selected.

Definition build_local_then_global_base_selection (f k r z : Z) (all_equations : list GlrcEquation)
    (failed_set : gset Z) : list Z :=
  let globals := map (fun j => z + j) (zseq r) in
  let selected := push_while f (fun _ e => negb (bool_decide (k + (e - z) ∈ failed_set))) globals [] in
  let local_order := local_equations_by_failed_cover z all_equations failed_set in
  let selected := push_while f (fun _ lg => negb (bool_decide (k + r + lg ∈ failed_set)))
                    local_order selected in
  let selected := push_while f (fun sel e => negb (bool_decide (e ∈ sel))) globals selected in
  let selected := push_while f (fun sel lg => negb (bool_decide (lg ∈ sel))) local_order selected in
  if zlen selected >? f then ztake f selected else selected.

Definition build_global_prefix_selection (f k r z : Z) : list Z :=
  let selected := push_while f (fun _ _ => true) (map (fun j => z + j) (zseq r)) [] in
  let selected := push_while f (fun _ _ => true) (zseq z) selected in
  if zlen selected >? f then ztake f selected else selected.

(** The scan [for (i = size - 1; i >= 0; i--) if (variant[i] < z)], on the
    reversed list; [None] when there is no local equation to replace. *)
Fixpoint replace_last_local (z lg : Z) (rev_variant : list Z) : option (list Z) :=
  match rev_variant with
  | [] => None
  | x :: rest => if x <? z then Some (lg :: rest)
                 else option_map (cons x) (replace_last_local z lg rest)
  end.

Definition local_variant (z lg : Z) (base : list Z) : list Z :=
  match replace_last_local z lg (rev base) with
  | Some v => rev v
  | None => match rev base with [] => base | _ :: rest => rev (lg :: rest) end
  end.

(** The first element on which [g] succeeds. *)
Fixpoint first_success {A B} (g : A -> option B) (xs : list A) : option B :=
  match xs with
  | [] => None
  | x :: rest => match g x with Some y => Some y | None => first_success g rest end
  end.

Definition try_local_variants (base : list Z) (f k r z : Z) (failed_set : gset Z)
    (failed_block_ids : list Z) (all_equations : list GlrcEquation) (plan : GlrcIlpRepairPlan)
  : option GlrcIlpRepairPlan :=
  let anchor_local := local_then_global_primary_equation_index failed_block_ids.[0] k r z in
  let try_locals := anchor_local :: List.filter (fun lg => negb (lg =? anchor_local)) (zseq z) in
  match fill_plan_from_selection base all_equations failed_set k r z failed_block_ids plan with
  | Some p => Some p
  | None =>
      first_success (fun lg =>
        if bool_decide (lg ∈ base) then None
        else fill_plan_from_selection (local_variant z lg base) all_equations failed_set k r z
               failed_block_ids plan) try_locals
  end.

(** [std::make_pair(-globals, sum)] *)
Definition combo_score (z : Z) (candidate_indices positions : list Z) : Z * Z :=
  fold_left (fun '(neg_globals, sum) pos =>
    let eq := candidate_indices.[pos] in
    ((if eq >=? z then neg_globals - 1 else neg_globals), sum + eq)) positions (0, 0).

Definition pair_ltb (a b : Z * Z) : bool :=
  (fst a <? fst b) || ((fst a =? fst b) && (snd a <? snd b)).

Definition try_global_first_fallback (f k r z : Z) (failed_set : gset Z) (failed_block_ids : list Z)
    (all_equations : list GlrcEquation) (candidate_indices : list Z) (plan : GlrcIlpRepairPlan)
  : option GlrcIlpRepairPlan :=
  let prefix := build_global_prefix_selection f k r z in
  let first := if zlen prefix =? f
               then try_local_variants prefix f k r z failed_set failed_block_ids all_equations plan
               else None in
  match first with
  | Some p => Some p
  | None =>
      let combos := enumerate_combinations (Z.to_nat f) (zlen candidate_indices) 0 [] in
      let combos := std_sort (fun a b => pair_ltb (combo_score z candidate_indices a)
                                           (combo_score z candidate_indices b)) combos in
      first_success (fun positions =>
        fill_plan_from_selection (positions_to_equations candidate_indices positions) all_equations
          failed_set k r z failed_block_ids plan) combos
  end.

Definition or_else {A} (x y : option A) : option A := match x with Some a => Some a | None => y end.

Definition glrc_solve_repair_local_then_global (k r z : Z) (failed_block_ids : list Z)
  : GlrcIlpRepairPlan :=
  let plan := fresh_plan failed_block_ids in
  if zlen failed_block_ids =? 0 then with_error "empty failure set" plan
  else
    let '(all_equations, candidate_indices) := glrc_build_recovery_equations k r z failed_block_ids in
    let f := zlen failed_block_ids in
    let failed_set := list_to_set failed_block_ids in
    if f =? 1 then
      match fill_plan_from_selection
              [local_then_global_primary_equation_index failed_block_ids.[0] k r z] all_equations
              failed_set k r z failed_block_ids plan with
      | Some p => p
      | None => with_error "single-failure local equation not decodable" plan
      end
    else
      let selected := build_local_then_global_base_selection f k r z all_equations failed_set in
      if zlen selected <? f then with_error "not enough equations for failure count" plan
      else
        match or_else
                (try_local_variants selected f k r z failed_set failed_block_ids all_equations plan)
                (try_global_first_fallback f k r z failed_set failed_block_ids all_equations
                   candidate_indices plan) with
        | Some p => p
        | None => with_error "local-then-global could not find decodable equation set" plan
        end.

Definition glrc_solve_repair_global_first (k r z : Z) (failed_block_ids : list Z)
  : GlrcIlpRepairPlan :=
  let plan := fresh_plan failed_block_ids in
  if zlen failed_block_ids =? 0 then with_error "empty failure set" plan
  else
    let '(all_equations, candidate_indices) := glrc_build_recovery_equations k r z failed_block_ids in
    let f := zlen failed_block_ids in
    if zlen candidate_indices <? f then with_error "not enough candidate equations" plan
    else
      match try_global_first_fallback f k r z (list_to_set failed_block_ids) failed_block_ids
              all_equations candidate_indices plan with
      | Some p => p
      | None => with_error "global-first could not find decodable equation set" plan
      end.

(** ** Local-first *)

Record Candidate := {
  cand_selected : list Z;
  cand_helpers : list Z;
  local_count : Z;
  local_failed_cover : Z;
  helper_count : Z }.

(** [operator<] of [std::vector<int>]. *)
Fixpoint lex_ltb (a b : list Z) : bool :=
  match a, b with
  | _, [] => false
  | [], _ :: _ => true
  | x :: a', y :: b' => if x <? y then true else if y <? x then false else lex_ltb a' b'
  end.

Definition make_candidate (z : Z) (all_equations : list GlrcEquation) (failed_set : gset Z)
    (selected : list Z) : Candidate :=
  let '(lc, cover) := fold_left (fun '(lc, cover) eq_idx =>
      if eq_idx <? z
      then (lc + 1, cover + equation_failed_cover_count all_equations.[eq_idx] failed_set)
      else (lc, cover)) selected (0, 0) in
  let helpers := union_helpers selected all_equations failed_set in
  {| cand_selected := selected; cand_helpers := helpers; local_count := lc;
     local_failed_cover := cover; helper_count := zlen helpers |}.

Definition better (cand best : Candidate) : bool :=
  (local_count cand >? local_count best)
  || ((local_count cand =? local_count best) && (local_failed_cover cand >? local_failed_cover best))
  || ((local_count cand =? local_count best) && (local_failed_cover cand =? local_failed_cover best)
      && (helper_count cand <? helper_count best))
  || ((local_count cand =? local_count best) && (local_failed_cover cand =? local_failed_cover best)
      && (helper_count cand =? helper_count best)
      && lex_ltb (cand_selected cand) (cand_selected best)).

Definition local_first_step (k r z : Z) (failed_block_ids : list Z) (all_equations : list GlrcEquation)
    (candidate_indices : list Z) (failed_set : gset Z) (best : option Candidate) (positions : list Z)
  : option Candidate :=
  let selected := positions_to_equations candidate_indices positions in
  if negb (combination_covers selected all_equations failed_set) then best
  else if negb (glrc_ilp_decode_matrix_invertible k r z failed_block_ids selected) then best
  else
    let cand := make_candidate z all_equations failed_set selected in
    match best with
    | None => Some cand
    | Some b => if better cand b then Some cand else best
    end.

Definition glrc_solve_repair_local_first (k r z : Z) (failed_block_ids : list Z) : GlrcIlpRepairPlan :=
  let plan := fresh_plan failed_block_ids in
  if zlen failed_block_ids =? 0 then with_error "empty failure set" plan
  else
    let '(all_equations, candidate_indices) := glrc_build_recovery_equations k r z failed_block_ids in
    let f := zlen failed_block_ids in
    if zlen candidate_indices <? f then with_error "not enough candidate equations" plan
    else
      let failed_set := list_to_set failed_block_ids in
      let combos := enumerate_combinations (Z.to_nat f) (zlen candidate_indices) 0 [] in
      match fold_left (local_first_step k r z failed_block_ids all_equations candidate_indices
                         failed_set) combos None with
      | None => with_error "local-first could not find decodable equation set" plan
      | Some best => fill_plan (cand_selected best) (cand_helpers best) (helper_count best)
                       all_equations plan
      end.

(** ** Dispatch *)

Definition glrc_normalize_equation_policy (policy : string) : string :=
  if String.eqb policy "local-then-global" || String.eqb policy "ceph-style"
     || String.eqb policy "ceph" then "local-then-global"
  else if String.eqb policy "local-first" then "local-first"
  else if String.eqb policy "global-first" || String.eqb policy "hmbr-rule"
          || String.eqb policy "rule-based" then "global-first"
  else if String.eqb policy "ilp-min-helper" || String.eqb policy "ilp" || String.eqb policy ""
       then "ilp-min-helper"
  else policy.

Definition glrc_solve_repair_plan (k r z : Z) (failed_block_ids : list Z) (equation_policy : string)
  : GlrcIlpRepairPlan :=
  let normalized := glrc_normalize_equation_policy equation_policy in
  if String.eqb normalized "local-then-global" then
    glrc_solve_repair_local_then_global k r z failed_block_ids
  else if String.eqb normalized "local-first" then glrc_solve_repair_local_first k r z failed_block_ids
  else if String.eqb normalized "global-first" then
    glrc_solve_repair_global_first k r z failed_block_ids
  else if String.eqb normalized "ilp-min-helper" then glrc_solve_repair_ilp k r z failed_block_ids
  else with_error ("unknown GlrcEquationPolicy: " +:+ equation_policy) (fresh_plan failed_block_ids).
End Solvers.

(** * Labels *)

Definition glrc_block_label (block_id k r z : Z) : string :=
  let n := k + r + z in
  if (block_id <? 0) || (block_id >=? n) then "?"
  else if block_id <? k then "D" +:+ to_string block_id
  else if block_id <? k + r then "G" +:+ to_string (block_id - k)
  else "L" +:+ to_string (block_id - k - r).

Definition glrc_format_block_list (block_ids : list Z) (k r z : Z) : string :=
  for_range 0 (zlen block_ids) (fun i out =>
    let out := if i >? 0 then out +:+ " " else out in
    out +:+ glrc_block_label block_ids.[i] k r z) "".
