(* ===== verification/RepairPlanSpec.v ===== *)
(** Soundness, completeness and optimality of the equation planners of
    [RepairPlan], for every policy. *)
From S2P Require Import Prelude GF256 LinAlg GFMatrix EcKernel Groups Codes Decode DecodeSpec.
From S2P Require Import LocalRepair RepairPlan.
From Stdlib Require Import Field.

(** * Nonsingular square systems *)

(** A flat array holding [A]. *)
Lemma flat_exists n (A : mx) : 0 <= n -> exists a, is_mx n n a A.
Proof.
  intros Hn. exists (map (fun c => A (c / n) (c mod n)) (zseq (n * n))). split.
  - rewrite length_map, zlen_seqZ. lia.
  - intros i j Hi Hj. rewrite zget_map_zseq by (apply flat_index_range; lia).
    rewrite Z.add_comm, Z.mod_add, Z.div_add, Z.div_small, Z.mod_small by lia. reflexivity.
Qed.

Lemma nonsingular_right_inverse n A : 0 <= n -> nonsingular n A ->
  exists B, is_identity n (mxm n A B).
Proof.
  intros Hn HA. destruct (flat_exists n A Hn) as [a Ha].
  pose proof (gf_invert_matrix_spec n A a (zrepeat x00 (n * n)) Hn Ha
                ltac:(rewrite zlen_zrepeat; nia)) as H.
  destruct (gf_invert_matrix _ _ _) as [ret [a' o]].
  destruct H as [[_ (B & _ & _ & HB)]|[_ H]]; [exists B; exact HB|contradiction].
Qed.

Lemma nonsingular_row n A i : nonsingular n A -> 0 <= i < n -> exists j, 0 <= j < n /\ A i j <> x00.
Proof.
  intros HA Hi. destruct (nonsingular_right_inverse n A ltac:(lia) HA) as [B HB].
  destruct (existsb (fun j => negb (Byte.eqb (A i j) x00)) (zseq n)) eqn:E.
  - apply existsb_exists in E as (j & Hj & Hne). apply in_zseq in Hj. exists j. split; [exact Hj|].
    intros E0. rewrite E0 in Hne. discriminate.
  - exfalso. specialize (HB i i Hi Hi). unfold mxm, delta in HB. rewrite Z.eqb_refl, xsum_zero in HB;
      [discriminate|].
    intros j Hj. assert (A i j = x00) as ->; [|ring].
    apply byte_dec_bl. destruct (Byte.eqb (A i j) x00) eqn:E1; [reflexivity|]. exfalso.
    assert (existsb (fun j => negb (Byte.eqb (A i j) x00)) (zseq n) = true); [|congruence].
    apply existsb_exists. exists j. rewrite in_zseq, E1. auto.
Qed.

Lemma nonsingular_rows_differ n A i j : nonsingular n A -> 0 <= i < n -> 0 <= j < n ->
  (forall c, 0 <= c < n -> A i c = A j c) -> i = j.
Proof.
  intros HA Hi Hj E. destruct (nonsingular_right_inverse n A ltac:(lia) HA) as [B HB].
  assert (H : delta i i = delta j i).
  { rewrite <- !HB by lia. apply xsum_ext. intros c Hc. rewrite E by lia. reflexivity. }
  unfold delta in H. rewrite Z.eqb_refl in H. destruct (Z.eqb_spec j i); [congruence|discriminate].
Qed.

Lemma nonsingular_column n A j : nonsingular n A -> 0 <= j < n -> exists i, 0 <= i < n /\ A i j <> x00.
Proof.
  intros HA Hj. destruct (existsb (fun i => negb (Byte.eqb (A i j) x00)) (zseq n)) eqn:E.
  - apply existsb_exists in E as (i & Hi & Hne). apply in_zseq in Hi. exists i. split; [exact Hi|].
    intros E0. rewrite E0 in Hne. discriminate.
  - exfalso. assert (Hv : delta j j = x00).
    { apply (HA (fun c => delta j c)); [|exact Hj]. intros i Hi. unfold mxv.
      rewrite (xsum_ext n _ (fun c => delta j c ⊗ A i c)), (xsum_delta_l n (fun c => A i c))
        by (lia || intros; ring).
      apply byte_dec_bl. destruct (Byte.eqb (A i j) x00) eqn:E1; [reflexivity|]. exfalso.
      assert (existsb (fun i => negb (Byte.eqb (A i j) x00)) (zseq n) = true); [|congruence].
      apply existsb_exists. exists i. rewrite in_zseq, E1. auto. }
    unfold delta in Hv. rewrite Z.eqb_refl in Hv. discriminate.
Qed.

(** * Combinations *)

Lemma strict_sorted_bound (s : list Z) a n : StronglySorted Z.lt s -> Forall (fun i => a <= i < n) s ->
  s <> [] -> a + zlen s <= n.
Proof.
  intros Hs. revert a. induction Hs as [|x s Hs IH Hx]; intros a Hrg Hne; [contradiction|].
  rewrite Forall_cons in Hrg. destruct Hrg as [Hxr Hrg]. cbn [length].
  destruct s as [|y s]; [cbn [length]; lia|].
  specialize (IH (x + 1)). assert (x + 1 + zlen (y :: s) <= n); [|lia]. apply IH; [|discriminate].
  apply Forall_forall. intros i Hi. rewrite Forall_forall in Hx, Hrg.
  specialize (Hx i Hi). specialize (Hrg i Hi). cbv beta in *. lia.
Qed.

(** Exactly the increasing sequences of [d] positions in [start, n). *)
Lemma enumerate_combinations_spec d : forall n start cur c,
  In c (enumerate_combinations d n start cur) <->
  exists s, c = cur ++ s /\ length s = d /\ StronglySorted Z.lt s /\
            Forall (fun i => start <= i < n) s.
Proof.
  induction d as [|d IH]; intros n start cur c; cbn [enumerate_combinations].
  - split.
    + intros [<-|[]]. exists []. rewrite app_nil_r. split; [reflexivity|]. split; [reflexivity|].
      split; constructor.
    + intros (s & -> & Hl & _). destruct s; [|discriminate]. rewrite app_nil_r. left. reflexivity.
  - rewrite in_concat. split.
    + intros (x & Hx & Hc). apply in_map_iff in Hx as (i & <- & Hi).
      apply list_elem_of_In, elem_of_seqZ in Hi. apply IH in Hc as (s & -> & Hl & Hs & Hrg).
      exists (i :: s). rewrite <- app_assoc. split; [reflexivity|]. cbn [length]. split; [lia|].
      rewrite Forall_forall in Hrg. split; [constructor; [exact Hs|]|constructor].
      * apply Forall_forall. intros j Hj. specialize (Hrg j Hj). cbv beta in Hrg. lia.
      * lia.
      * apply Forall_forall. intros j Hj. specialize (Hrg j Hj). cbv beta in *. lia.
    + intros (s & -> & Hl & Hs & Hrg). destruct s as [|i s]; [discriminate|].
      pose proof (strict_sorted_bound (i :: s) i n Hs) as Hb.
      inversion Hs as [|? ? Hs' Hi]; subst. rewrite Forall_cons in Hrg. destruct Hrg as [Hir Hrg].
      exists (enumerate_combinations d n (i + 1) (cur ++ [i])). split.
      * apply in_map_iff. exists i. split; [reflexivity|]. apply list_elem_of_In, elem_of_seqZ.
        assert (i + zlen (i :: s) <= n); [|cbn [length] in *; lia]. apply Hb; [|discriminate].
        constructor; [lia|]. apply Forall_forall. intros j Hj. rewrite Forall_forall in Hi, Hrg.
        specialize (Hi j Hj). specialize (Hrg j Hj). cbv beta in *. lia.
      * apply IH. exists s. rewrite <- app_assoc. split; [reflexivity|]. cbn [length] in Hl.
        split; [lia|]. split; [exact Hs'|]. apply Forall_forall. intros j Hj.
        rewrite Forall_forall in Hi, Hrg. specialize (Hi j Hj). specialize (Hrg j Hj). cbv beta in *. lia.
Qed.

Lemma seqZ_strictly_sorted n : StronglySorted Z.lt (zseq n).
Proof.
  destruct (Z.le_gt_cases 0 n) as [Hn|Hn].
  2: { replace (zseq n) with (@nil Z); [constructor|]. symmetry. apply length_zero_iff_nil.
       rewrite length_seqZ. lia. }
  revert n Hn. apply natlike_ind; [constructor|]. intros n Hn IH.
  replace (Z.succ n) with (n + 1) by lia. rewrite seqZ_app by lia.
  apply StronglySorted_app. split; [|split; [exact IH|repeat constructor]].
  intros x y Hx Hy. rewrite elem_of_seqZ in Hx. apply list_elem_of_singleton in Hy. lia.
Qed.

Lemma StronglySorted_filter {A} (R : A -> A -> Prop) (p : A -> bool) l :
  StronglySorted R l -> StronglySorted R (List.filter p l).
Proof.
  induction 1 as [|x l Hs IH Hx]; cbn [List.filter]; [constructor|].
  destruct (p x); [|exact IH]. constructor; [exact IH|]. rewrite Forall_forall in Hx |- *.
  intros y Hy. apply Hx. rewrite list_elem_of_In in Hy |- *. apply filter_In in Hy. tauto.
Qed.

Lemma strictly_sorted_nodup (l : list Z) : StronglySorted Z.lt l -> NoDup l.
Proof.
  induction 1 as [|x l Hs IH Hx]; constructor; [|exact IH]. intros Hin.
  rewrite Forall_forall in Hx. specialize (Hx x Hin). lia.
Qed.

(** * The equations *)

Section Equations.
Context (k r z : Z) (Hk : 1 <= k) (Hr : 0 <= r) (Hz : 1 <= z).

Abbreviation n := (k + r + z).
Abbreviation eqs_all := (all_equations_of k r z).
Abbreviation involved e := (involved_blocks (all_equations_of k r z).[e]).

Lemma all_equations_len : zlen eqs_all = z + r.
Proof. unfold all_equations_of. rewrite length_app, !length_map, Nat2Z.inj_add, !zlen_seqZ. lia. Qed.

Lemma involved_eq e : 0 <= e < z + r ->
  involved e = if e <? z then (glrc_build_placement_groups k r z).[e] else zseq k ++ [k + (e - z)].
Proof.
  intros He. unfold all_equations_of. rewrite zget_app, length_map, zlen_seqZ by lia.
  rewrite Z.max_r by lia. destruct (Z.ltb_spec e z); rewrite zget_map_zseq by lia; reflexivity.
Qed.

Lemma involved_range e b : 0 <= e < z + r -> In b (involved e) -> 0 <= b < n.
Proof.
  intros He. rewrite involved_eq by exact He. destruct (Z.ltb_spec e z).
  - apply placement_group_range; lia.
  - rewrite in_app_iff, in_zseq. cbn [In]. lia.
Qed.

(** Only involved blocks have a coefficient. *)
Lemma coef_involved e b : 0 <= e < z + r -> 0 <= b < n -> glrc_eq_coef k r z e b <> x00 ->
  In b (involved e).
Proof.
  intros He Hb. rewrite involved_eq by exact He. unfold glrc_eq_coef. destruct (Z.ltb_spec e z).
  - destruct (Z.eqb_spec (block_group k r z b) e); [|congruence]. intros _.
    apply placement_group_iff; lia.
  - rewrite in_app_iff, in_zseq. cbn [In]. destruct (Z.ltb_spec b k); [left; lia|].
    destruct (Z.eqb_spec b (k + (e - z))); [right; left; lia|congruence].
Qed.

(** ** Candidates *)

Abbreviation candidates failed := (snd (glrc_build_recovery_equations k r z failed)).

Lemma candidates_spec failed e :
  In e (candidates failed) <-> 0 <= e < z + r /\ exists b, In b (involved e) /\ b ∈ failed.
Proof.
  cbn [snd glrc_build_recovery_equations]. rewrite filter_In, in_zseq, all_equations_len.
  unfold touches. rewrite existsb_exists. split.
  - intros [He (b & Hb & Hf)]. split; [exact He|]. exists b. split; [exact Hb|].
    apply bool_decide_eq_true in Hf. set_solver.
  - intros [He (b & Hb & Hf)]. split; [exact He|]. exists b. split; [exact Hb|].
    apply bool_decide_eq_true. set_solver.
Qed.

Lemma candidates_sorted failed : StronglySorted Z.lt (candidates failed).
Proof. apply StronglySorted_filter, seqZ_strictly_sorted. Qed.

(** ** Helpers and covering *)

Lemma fold_union_elem (l : list Z) (s : gset Z) b :
  b ∈ fold_left (fun s x => {[x]} ∪ s) l s <-> b ∈ s \/ In b l.
Proof.
  clear Hk Hr Hz. revert s. induction l as [|x l IH]; intros s; cbn; [tauto|]. rewrite IH. set_solver.
Qed.

Lemma helper_set_spec sel (fs : gset Z) b :
  b ∈ helper_set sel eqs_all fs <-> exists e, In e sel /\ In b (involved e) /\ b ∉ fs.
Proof.
  clear Hk Hr Hz. unfold helper_set. assert (H : forall s : gset Z, b ∈ fold_left (fun s idx => fold_left (fun s b => {[b]} ∪ s)
    (helper_blocks_for_equation eqs_all.[idx] fs) s) sel s <->
    b ∈ s \/ exists e, In e sel /\ In b (involved e) /\ b ∉ fs).
  { induction sel as [|e sel IH]; intros s; cbn [fold_left].
    - split; [auto|]. intros [H|(e & [] & _)]. exact H.
    - rewrite IH, fold_union_elem. unfold helper_blocks_for_equation. rewrite filter_In.
      rewrite negb_true_iff, bool_decide_eq_false. cbn [In].
      split; [intros [[H|H]|(e' & H)]|intros [H|(e' & [<-|H] & H')]]; eauto 10. 
      right. exists e'. tauto. }
  rewrite H. split; [intros [H0|H0]; [set_solver|exact H0]|auto].
Qed.

Lemma covers_spec sel failed : NoDup failed ->
  combination_covers sel eqs_all (list_to_set failed) = true <->
  forall b, b ∈ failed -> exists e, In e sel /\ In b (involved e).
Proof.
  clear Hk Hr Hz. intros Hnd. unfold combination_covers. set (fs := list_to_set failed : gset Z).
  set (cov := fold_left _ sel ∅).
  assert (Hinner : forall l (s : gset Z) b,
    b ∈ fold_left (fun s b => if bool_decide (b ∈ fs) then {[b]} ∪ s else s) l s <->
    b ∈ s \/ (In b l /\ b ∈ fs)).
  { induction l as [|x l IH]; intros s b; cbn; [tauto|]. rewrite IH.
    destruct (bool_decide_reflect (x ∈ fs)); split; intros; destruct_or?; destruct_and?; subst; set_solver. }
  assert (Hcov : forall b, b ∈ cov <-> b ∈ fs /\ exists e, In e sel /\ In b (involved e)).
  { intros b. assert (H : forall s : gset Z, b ∈ fold_left (fun s idx => fold_left (fun s b =>
      if bool_decide (b ∈ fs) then {[b]} ∪ s else s) (involved idx) s) sel s <->
      b ∈ s \/ b ∈ fs /\ exists e, In e sel /\ In b (involved e)).
    { induction sel as [|e sel' IH]; intros s; cbn [fold_left].
      - split; [auto|]. intros [H|(_ & e & [] & _)]. exact H.
      - rewrite IH, Hinner. cbn [In].
        split; [intros [[H|H]|(H & e' & H')]|intros [H|(H & e' & [<-|H'] & H'')]]; eauto 10.
        + right. destruct H. split; [assumption|]. exists e. auto.
        + right. split; [exact H|]. exists e'. tauto. }
    unfold cov. rewrite H. split; [intros [H0|H0]; [set_solver|exact H0]|auto]. }
  rewrite Z.eqb_eq. split.
  - intros Hsz b Hb. assert (Heq : cov = fs).
    { apply set_subseteq_size_eq; [|lia]. intros x Hx. apply Hcov in Hx. tauto. }
    assert (b ∈ cov) by (rewrite Heq; unfold fs; set_solver). apply Hcov in H. tauto.
  - intros Hall. f_equal. f_equal. apply leibniz_equiv. intros b. rewrite Hcov. unfold fs. split; [tauto|].
    intros Hb. split; [exact Hb|]. apply Hall. set_solver.
Qed.
End Equations.

(** * Selections *)

Section Selections.
Context (k r z : Z) (Hk : 1 <= k) (Hr : 0 <= r) (Hz : 1 <= z).
Context (failed : list Z) (Hnd : NoDup failed) (Hne : failed <> [])
        (Hrange : Forall (fun b => 0 <= b < k + r + z) failed).

Abbreviation eqs_all := (all_equations_of k r z).
Abbreviation involved e := (involved_blocks (all_equations_of k r z).[e]).
Abbreviation candidates := (snd (glrc_build_recovery_equations k r z failed)).
Abbreviation failed_set := (list_to_set failed : gset Z).
Abbreviation combos := (enumerate_combinations (Z.to_nat (zlen failed)) (zlen candidates) 0 []).

(** As many equations as lost blocks, determining them. *)
Definition good_selection (sel : list Z) : Prop :=
  Forall (fun e => 0 <= e < z + r) sel /\ zlen sel = zlen failed /\
  nonsingular (zlen failed) (system_mx k r z failed sel).

Lemma good_valid sel : good_selection sel -> valid_system k r z failed sel.
Proof. intros (H1 & H2 & _). constructor; assumption. Qed.

Lemma nonsingular_members sel : zlen sel = zlen failed ->
  nonsingular (zlen failed) (system_mx k r z failed sel) <->
  forall v, (forall e, In e sel ->
               xsum (zlen failed) (fun j => glrc_eq_coef k r z e failed.[j] ⊗ v j) = x00) ->
    forall j, 0 <= j < zlen failed -> v j = x00.
Proof.
  intros Hl. split; intros H v Hv j Hj; apply (H v); auto.
  - intros i Hi. apply (Hv sel.[i]). apply zget_In. lia.
  - intros e He. apply In_zget in He as (i & Hi & <-). apply (Hv i). lia.
Qed.

Lemma good_selection_perm sel sel' : sel ≡ₚ sel' -> good_selection sel -> good_selection sel'.
Proof.
  intros Hp (H1 & H2 & H3). assert (Hl : zlen sel' = zlen failed) by (rewrite <- Hp; exact H2).
  split; [rewrite <- Hp; exact H1|]. split; [exact Hl|].
  apply nonsingular_members; [exact Hl|]. intros v Hv.
  apply (proj1 (nonsingular_members sel H2) H3). intros e He. apply Hv. eapply Permutation_in; eauto.
Qed.

Lemma good_nodup sel : good_selection sel -> NoDup sel.
Proof.
  intros (_ & H2 & H3). apply NoDup_alt. intros i j x Hi Hj.
  pose proof (lookup_lt_Some _ _ _ Hi). pose proof (lookup_lt_Some _ _ _ Hj).
  assert (Z.of_nat i = Z.of_nat j); [|lia].
  apply (nonsingular_rows_differ _ _ _ _ H3); try lia.
  intros c Hc. unfold system_mx.
  rewrite (zget_Some sel (Z.of_nat i) x), (zget_Some sel (Z.of_nat j) x); auto; try lia;
    rewrite Nat2Z.id; assumption.
Qed.

Lemma good_candidate sel e : good_selection sel -> In e sel -> In e candidates.
Proof.
  intros (H1 & H2 & H3) He. apply In_zget in He as (i & Hi & <-).
  assert (Hei : 0 <= sel.[i] < z + r) by (apply (Forall_zget _ _ _ H1); exact Hi).
  destruct (nonsingular_row _ _ i H3 ltac:(lia)) as (j & Hj & Hc). unfold system_mx in Hc.
  assert (Hfj : 0 <= failed.[j] < k + r + z) by (apply (Forall_zget _ _ _ Hrange); exact Hj).
  apply candidates_spec; auto. split; [exact Hei|]. exists failed.[j].
  split; [apply coef_involved; auto|]. apply list_elem_of_In, zget_In, Hj.
Qed.

Lemma good_covers sel b : good_selection sel -> b ∈ failed -> exists e, In e sel /\ In b (involved e).
Proof.
  intros (H1 & H2 & H3) Hb%list_elem_of_In. apply In_zget in Hb as (j & Hj & <-).
  destruct (nonsingular_column _ _ j H3 Hj) as (i & Hi & Hc). unfold system_mx in Hc.
  exists sel.[i]. split; [apply zget_In; lia|]. apply coef_involved; auto.
  - apply (Forall_zget _ _ _ H1). lia.
  - apply (Forall_zget _ _ _ Hrange). exact Hj.
Qed.

(** The two checks every planner makes. *)
Definition accepts (sel : list Z) : bool :=
  combination_covers sel eqs_all failed_set && glrc_ilp_decode_matrix_invertible k r z failed sel.

Lemma accepts_iff sel : Forall (fun e => 0 <= e < z + r) sel -> accepts sel = true <-> good_selection sel.
Proof.
  intros Hs. unfold accepts. rewrite andb_true_iff, covers_spec by auto. split.
  - intros [_ Hi]. assert (Hl : zlen sel = zlen failed).
    { unfold glrc_ilp_decode_matrix_invertible in Hi.
      destruct (Z.eqb_spec (zlen sel) (zlen failed)); [assumption|].
      destruct (Z.eqb_spec (zlen failed) 0); discriminate. }
    split; [exact Hs|]. split; [exact Hl|].
    apply decode_matrix_invertible_spec in Hi; auto. constructor; auto.
  - intros Hg. split; [intros b; apply good_covers, Hg|].
    apply decode_matrix_invertible_spec; auto; [apply good_valid, Hg|]. apply Hg.
Qed.

(** ** The enumeration reaches every selection *)

Lemma combos_range c : In c combos ->
  Forall (fun e => 0 <= e < z + r) (positions_to_equations candidates c) /\
  zlen (positions_to_equations candidates c) = zlen failed.
Proof.
  intros Hc. apply enumerate_combinations_spec in Hc as (s & -> & Hl & _ & Hrg). cbn [app].
  unfold positions_to_equations. rewrite length_map. split; [|lia].
  apply Forall_forall. intros e He%list_elem_of_In. apply in_map_iff in He as (p & <- & Hp).
  rewrite Forall_forall in Hrg. specialize (Hrg p (proj2 (list_elem_of_In _ _) Hp)). cbv beta in Hrg.
  pose proof (zget_In candidates p ltac:(lia)) as Hin. apply candidates_spec in Hin; auto. apply Hin.
Qed.

Lemma good_enumerated sel : good_selection sel ->
  exists c, In c combos /\ positions_to_equations candidates c ≡ₚ sel.
Proof.
  intros Hg. set (c := List.filter (fun p => bool_decide (candidates.[p] ∈ sel)) (zseq (zlen candidates))).
  assert (Hin : forall p, In p c <-> 0 <= p < zlen candidates /\ candidates.[p] ∈ sel).
  { intros p. unfold c. rewrite filter_In, in_zseq, bool_decide_eq_true. reflexivity. }
  assert (Hc : StronglySorted Z.lt c) by apply StronglySorted_filter, seqZ_strictly_sorted.
  assert (Hperm : positions_to_equations candidates c ≡ₚ sel).
  { unfold positions_to_equations. apply NoDup_Permutation.
    - apply NoDup_fmap_2_strong; [|apply strictly_sorted_nodup, Hc].
      intros p q Hp%list_elem_of_In Hq%list_elem_of_In E. apply Hin in Hp, Hq.
      pose proof (strictly_sorted_nodup _ (candidates_sorted k r z failed)) as Hnc.
      eapply NoDup_lookup in Hnc; [| |].
      2: { apply (zget_lookup candidates p). lia. }
      2: { rewrite E. apply (zget_lookup candidates q). lia. }
      lia.
    - apply good_nodup, Hg.
    - intros e. rewrite !list_elem_of_In, in_map_iff. split.
      + intros (p & <- & Hp). apply Hin in Hp. apply list_elem_of_In. tauto.
      + intros He. pose proof (good_candidate sel e Hg He) as Hce.
        apply In_zget in Hce as (p & Hp & E). exists p. split; [exact E|]. apply Hin.
        split; [exact Hp|]. rewrite E. apply list_elem_of_In, He. }
  exists c. split; [|exact Hperm]. apply enumerate_combinations_spec. exists c.
  split; [reflexivity|]. split; [|split; [exact Hc|]].
  - apply Permutation_length in Hperm. unfold positions_to_equations in Hperm. rewrite length_map in Hperm.
    destruct Hg as (_ & Hl & _). lia.
  - apply Forall_forall. intros p Hp%list_elem_of_In. apply Hin in Hp. lia.
Qed.

Lemma good_combo sel : good_selection sel ->
  exists c, In c combos /\ accepts (positions_to_equations candidates c) = true.
Proof.
  intros Hg. destruct (good_enumerated sel Hg) as (c & Hc & Hp). exists c. split; [exact Hc|].
  apply accepts_iff; [apply combos_range, Hc|]. eapply good_selection_perm; [symmetry; exact Hp|exact Hg].
Qed.

(** Enough candidates whenever there is a selection. *)
Lemma good_enough sel : good_selection sel -> zlen failed <= zlen candidates.
Proof.
  intros Hg. pose proof (good_nodup sel Hg) as Hn. pose proof Hg as (_ & H2 & _).
  assert (length sel <= length candidates)%nat; [|lia]. apply NoDup_incl_length.
  - apply NoDup_ListNoDup, Hn.
  - intros e. apply good_candidate, Hg.
Qed.
End Selections.

(** * The planners *)

Lemma first_success_spec {A B} (g : A -> option B) xs :
  match first_success g xs with
  | Some y => exists x, In x xs /\ g x = Some y
  | None => forall x, In x xs -> g x = None
  end.
Proof.
  induction xs as [|x xs IH]; cbn [first_success In]; [intros x []|].
  destruct (g x) eqn:E; [eauto|]. destruct (first_success g xs).
  - destruct IH as (y & Hy & Ey). eauto.
  - intros y [<-|Hy]; auto.
Qed.

Section Planners.
Context {S : StdSort} {SL : StdSortLaws S}.
Context (k r z : Z) (Hk : 1 <= k) (Hr : 0 <= r) (Hz : 1 <= z).
Context (failed : list Z) (Hnd : NoDup failed) (Hne : failed <> [])
        (Hrange : Forall (fun b => 0 <= b < k + r + z) failed).

Abbreviation eqs_all := (all_equations_of k r z).
Abbreviation involved e := (involved_blocks (all_equations_of k r z).[e]).
Abbreviation candidates := (snd (glrc_build_recovery_equations k r z failed)).
Abbreviation failed_set := (list_to_set failed : gset Z).
Abbreviation combos := (enumerate_combinations (Z.to_nat (zlen failed)) (zlen candidates) 0 []).
Abbreviation good := (good_selection k r z failed).
Abbreviation equations_of c := (positions_to_equations candidates c).

(** The helper list: the surviving blocks of the selection, once each, ascending. *)
Lemma union_helpers_spec sel :
  let h := union_helpers sel eqs_all failed_set in
  NoDup h /\ StronglySorted Z.lt h /\
  forall b, In b h <-> exists e, In e sel /\ In b (involved e) /\ b ∉ failed.
Proof.
  clear Hk Hr Hz Hnd Hne Hrange. cbv zeta. unfold union_helpers. set (hs := helper_set sel eqs_all failed_set).
  pose proof (std_sort_perm Z.ltb (elements hs)) as Hp.
  assert (Hnd' : NoDup (std_sort Z.ltb (elements hs))) by (rewrite Hp; apply NoDup_elements).
  split; [exact Hnd'|]. split.
  - assert (Hs : StronglySorted (fun x y => (y <? x) = false) (std_sort Z.ltb (elements hs))).
    { apply std_sort_sorted. constructor; intros *; rewrite ?Z.ltb_lt, ?Z.ltb_ge; lia. }
    clear Hp. induction Hs as [|x l Hs IH Hx]; constructor.
    + apply IH. apply NoDup_cons in Hnd'. apply Hnd'.
    + apply NoDup_cons in Hnd' as [Hnx _]. rewrite Forall_forall in Hx |- *. intros y Hy.
      specialize (Hx y Hy). cbv beta in Hx. apply Z.ltb_ge in Hx.
      destruct (Z.eq_dec x y) as [->|]; [contradiction|lia].
  - intros b. rewrite <- list_elem_of_In, Hp, elem_of_elements. unfold hs.
    rewrite helper_set_spec. split; intros (e & He & Hb & Hf); exists e; set_solver.
Qed.

(** The plan for a selection. *)
Definition plan_of (sel : list Z) : GlrcIlpRepairPlan :=
  let helpers := union_helpers sel eqs_all failed_set in
  fill_plan sel helpers (zlen helpers) eqs_all (fresh_plan failed).

Lemma fill_from_selection_spec sel : Forall (fun e => 0 <= e < z + r) sel ->
  match fill_plan_from_selection sel eqs_all failed_set k r z failed (fresh_plan failed) with
  | Some p => good sel /\ p = plan_of sel
  | None => ~ good sel
  end.
Proof.
  intros Hs. pose proof (accepts_iff k r z Hk Hr Hz failed Hnd Hne Hrange sel Hs) as Ha.
  unfold fill_plan_from_selection, accepts in *.
  destruct (combination_covers _ _ _), (glrc_ilp_decode_matrix_invertible _ _ _ _ _); cbn [negb andb] in *.
  - split; [apply Ha; reflexivity|reflexivity].
  - intros Hg. apply Ha in Hg. discriminate.
  - intros Hg. apply Ha in Hg. discriminate.
  - intros Hg. apply Ha in Hg. discriminate.
Qed.

(** What every planner achieves: a plan for a good selection, or a failure
    that is final. *)
Definition decides (p : GlrcIlpRepairPlan) : Prop :=
  (exists sel, good sel /\ p = plan_of sel) \/ (success p = false /\ forall sel, ~ good sel).

Lemma helper_count_bound sel : Forall (fun e => 0 <= e < z + r) sel ->
  zlen (union_helpers sel eqs_all failed_set) <= k + r + z.
Proof.
  intros Hs. destruct (union_helpers_spec sel) as (Hn & _ & Hin).
  assert (length (union_helpers sel eqs_all failed_set) <= length (zseq (k + r + z)))%nat.
  { apply NoDup_incl_length; [apply NoDup_ListNoDup, Hn|]. intros b Hb. apply Hin in Hb as (e & He & Hb & _).
    rewrite Forall_forall in Hs. apply in_zseq.
    apply (involved_range k r z Hk Hr Hz e); [apply Hs, list_elem_of_In, He|exact Hb]. }
  rewrite length_seqZ in H. lia.
Qed.

(** ** Exhaustive minimisation *)

(** The best of the combinations seen so far. *)
Definition ilp_best (seen : list (list Z)) (best : Z * list Z * list Z) : Prop :=
  (best = (INT_MAX, [], []) /\ forall c, In c seen -> ~ good (equations_of c)) \/
  (exists c, In c seen /\ good (equations_of c) /\
     best = (zlen (union_helpers (equations_of c) eqs_all failed_set), equations_of c,
             union_helpers (equations_of c) eqs_all failed_set) /\
     forall c', In c' seen -> good (equations_of c') ->
       zlen (union_helpers (equations_of c) eqs_all failed_set) <=
       zlen (union_helpers (equations_of c') eqs_all failed_set)).

Lemma ilp_fold_spec l : k + r + z < INT_MAX -> (forall c, In c l -> In c combos) ->
  ilp_best l (fold_left (ilp_step k r z failed eqs_all candidates failed_set) l (INT_MAX, [], [])).
Proof.
  intros Hn. induction l as [|c l IH] using rev_ind; intros Hl.
  { left. split; [reflexivity|]. intros c []. }
  rewrite fold_left_app. cbn [fold_left].
  specialize (IH (fun c' Hc' => Hl c' (in_or_app _ _ _ (or_introl Hc')))).
  assert (Hc : In c combos) by (apply Hl, in_or_app; right; left; reflexivity).
  destruct (combos_range k r z Hk Hr Hz failed c Hc) as [Hrg _].
  pose proof (accepts_iff k r z Hk Hr Hz failed Hnd Hne Hrange _ Hrg) as Ha.
  pose proof (helper_count_bound _ Hrg) as Hb.
  assert (Hskip : ~ good (equations_of c) ->
    ilp_best (l ++ [c]) (fold_left (ilp_step k r z failed eqs_all candidates failed_set) l (INT_MAX, [], []))).
  { intros Hng. destruct IH as [[E H]|(c0 & H0 & H1 & E & H2)]; [left|right; exists c0].
    - split; [exact E|]. intros c' [Hc'|[<-|[]]]%in_app_iff; auto.
    - split; [apply in_or_app; auto|]. split; [exact H1|]. split; [exact E|].
      intros c' [Hc'|[<-|[]]]%in_app_iff Hg; [auto|contradiction]. }
  revert IH Hskip. generalize (fold_left (ilp_step k r z failed eqs_all candidates failed_set) l (INT_MAX, [], [])).
  intros [[bh bc] bi] IH Hskip. unfold ilp_step. unfold accepts in Ha.
  destruct (combination_covers _ _ _); cbn [negb andb] in *;
    [|apply Hskip; intros Hg; apply Ha in Hg; discriminate].
  destruct (glrc_ilp_decode_matrix_invertible _ _ _ _ _); cbn [negb] in *;
    [|apply Hskip; intros Hg; apply Ha in Hg; discriminate].
  assert (Hg : good (equations_of c)) by (apply Ha; reflexivity).
  destruct IH as [[E H]|(c0 & H0 & H1 & E & H2)]; apply pair_eq in E as [E ->]; apply pair_eq in E as [-> ->].
  - destruct (Z.ltb_spec (zlen (union_helpers (equations_of c) eqs_all failed_set)) INT_MAX); [|lia].
    right. exists c. split; [apply in_or_app; right; left; reflexivity|]. split; [exact Hg|].
    split; [reflexivity|]. intros c' [Hc'|[<-|[]]]%in_app_iff Hg'; [|lia]. contradiction (H c' Hc' Hg').
  - destruct (Z.ltb_spec (zlen (union_helpers (equations_of c) eqs_all failed_set))
                (zlen (union_helpers (equations_of c0) eqs_all failed_set))).
    + right. exists c. split; [apply in_or_app; right; left; reflexivity|]. split; [exact Hg|].
      split; [reflexivity|]. intros c' [Hc'|[<-|[]]]%in_app_iff Hg'; [|lia].
      specialize (H2 c' Hc' Hg'). lia.
    + right. exists c0. split; [apply in_or_app; auto|]. split; [exact H1|]. split; [reflexivity|].
      intros c' [Hc'|[<-|[]]]%in_app_iff Hg'; [auto|lia].
Qed.

Lemma failed_pos : 1 <= zlen failed.
Proof. destruct failed; [contradiction|cbn [length]; lia]. Qed.

Lemma ilp_decides : k + r + z < INT_MAX ->
  decides (glrc_solve_repair_ilp k r z failed) /\
  forall sel, good sel ->
    helper_block_count (glrc_solve_repair_ilp k r z failed) <=
    zlen (union_helpers sel eqs_all failed_set).
Proof.
  intros Hn. pose proof failed_pos. unfold glrc_solve_repair_ilp.
  destruct (Z.eqb_spec (zlen failed) 0); [lia|].
  rewrite (surjective_pairing (glrc_build_recovery_equations k r z failed)).
  change (fst (glrc_build_recovery_equations k r z failed)) with eqs_all.
  destruct (Z.ltb_spec (zlen candidates) (zlen failed)) as [Hlt|Hge].
  { assert (Hno : forall sel, ~ good sel).
    { intros sel Hg. pose proof (good_enough k r z Hk Hr Hz failed Hrange sel Hg). lia. }
    split; [right; split; [reflexivity|exact Hno]|]. intros sel Hg. contradiction (Hno sel Hg). }
  pose proof (ilp_fold_spec combos Hn (fun c Hc => Hc)) as Hbest.
  destruct (fold_left _ _ _) as [[bh bc] bi].
  destruct Hbest as [[E H0]|(c & Hc & Hg & E & Hmin)]; apply pair_eq in E as [E ->]; apply pair_eq in E as [-> ->].
  - assert (Hno : forall sel, ~ good sel).
    { intros sel Hg. destruct (good_enumerated k r z Hk Hr Hz failed Hrange sel Hg) as (c & Hc & Hp).
      apply (H0 c Hc). eapply good_selection_perm; [symmetry; exact Hp|exact Hg]. }
    split; [right; split; [reflexivity|exact Hno]|]. intros sel Hg. contradiction (Hno sel Hg).
  - destruct (combos_range k r z Hk Hr Hz failed c Hc) as [_ Hl]. rewrite Hl.
    destruct (Z.eqb_spec (zlen failed) 0); [lia|]. split; [left; exists (equations_of c); auto|].
    intros sel Hgs. cbn [fill_plan helper_block_count].
    destruct (good_enumerated k r z Hk Hr Hz failed Hrange sel Hgs) as (c' & Hc' & Hp).
    etransitivity; [apply (Hmin c' Hc'); eapply good_selection_perm; [symmetry; exact Hp|exact Hgs]|].
    destruct (union_helpers_spec (equations_of c')) as (N1 & _ & I1), (union_helpers_spec sel) as (N2 & _ & I2).
    assert (Hle : (length (union_helpers (equations_of c') eqs_all failed_set) <=
                   length (union_helpers sel eqs_all failed_set))%nat); [|lia].
    apply NoDup_incl_length; [apply NoDup_ListNoDup, N1|]. intros b Hb. apply I2.
    apply I1 in Hb as (e & He & Hb). exists e. split; [|exact Hb]. eapply Permutation_in; eauto.
Qed.

(** ** Local-first *)

Abbreviation candidate_of c := (make_candidate z eqs_all failed_set (equations_of c)).

Definition local_first_best (seen : list (list Z)) (best : option Candidate) : Prop :=
  match best with
  | None => forall c, In c seen -> ~ good (equations_of c)
  | Some b => (exists c, In c seen /\ good (equations_of c) /\ b = candidate_of c) /\
      forall c, In c seen -> good (equations_of c) -> local_count (candidate_of c) <= local_count b
  end.

Lemma better_count a b : better a b = true -> local_count b <= local_count a.
Proof. unfold better. rewrite !orb_true_iff, !andb_true_iff, Z.gtb_gt, !Z.eqb_eq. lia. Qed.

Lemma not_better_count a b : better a b = false -> local_count a <= local_count b.
Proof. unfold better. rewrite !orb_false_iff, Z.gtb_ltb, Z.ltb_ge. tauto. Qed.

Lemma local_first_fold_spec l : (forall c, In c l -> In c combos) ->
  local_first_best l
    (fold_left (local_first_step k r z failed eqs_all candidates failed_set) l None).
Proof.
  induction l as [|c l IH] using rev_ind; intros Hl.
  { intros c []. }
  rewrite fold_left_app. cbn [fold_left].
  specialize (IH (fun c' Hc' => Hl c' (in_or_app _ _ _ (or_introl Hc')))).
  assert (Hc : In c combos) by (apply Hl, in_or_app; right; left; reflexivity).
  destruct (combos_range k r z Hk Hr Hz failed c Hc) as [Hrg _].
  pose proof (accepts_iff k r z Hk Hr Hz failed Hnd Hne Hrange _ Hrg) as Ha.
  revert IH. generalize (fold_left (local_first_step k r z failed eqs_all candidates failed_set) l None).
  intros best IH. assert (Hskip : ~ good (equations_of c) -> local_first_best (l ++ [c]) best).
  { intros Hng. destruct best as [b|].
    - destruct IH as [(c0 & H0 & H1 & E) H2]. split.
      + exists c0. split; [apply in_or_app; auto|auto].
      + intros c' [Hc'|[<-|[]]]%in_app_iff Hg; [auto|contradiction].
    - intros c' [Hc'|[<-|[]]]%in_app_iff; auto. }
  unfold local_first_step, accepts in *.
  destruct (combination_covers _ _ _); cbn [negb andb] in *;
    [|apply Hskip; intros Hg; apply Ha in Hg; discriminate].
  destruct (glrc_ilp_decode_matrix_invertible _ _ _ _ _); cbn [negb] in *;
    [|apply Hskip; intros Hg; apply Ha in Hg; discriminate].
  assert (Hg : good (equations_of c)) by (apply Ha; reflexivity).
  assert (Hnew : (forall c', In c' l -> good (equations_of c') ->
                    local_count (candidate_of c') <= local_count (candidate_of c)) ->
                 local_first_best (l ++ [c]) (Some (candidate_of c))).
  { intros Hle. split.
    - exists c. split; [apply in_or_app; right; left; reflexivity|]. auto.
    - intros c' [Hc'|[<-|[]]]%in_app_iff Hg'; [auto|lia]. }
  destruct best as [b|]; [|apply Hnew; intros c' Hc' Hg'; contradiction (IH c' Hc' Hg')].
  destruct IH as [(c0 & H0 & H1 & E) H2]. destruct (better (candidate_of c) b) eqn:Eb.
  - apply Hnew. intros c' Hc' Hg'. apply better_count in Eb. specialize (H2 c' Hc' Hg'). lia.
  - apply not_better_count in Eb. split.
    + exists c0. split; [apply in_or_app; auto|auto].
    + intros c' [Hc'|[<-|[]]]%in_app_iff Hg'; [auto|exact Eb].
Qed.

(** How many local equations a selection uses. *)
Definition local_equations (sel : list Z) : Z := zlen (List.filter (fun e => e <? z) sel).

Lemma make_candidate_fields sel :
  let c := make_candidate z eqs_all failed_set sel in
  cand_selected c = sel /\ cand_helpers c = union_helpers sel eqs_all failed_set /\
  helper_count c = zlen (union_helpers sel eqs_all failed_set) /\
  local_count c = local_equations sel.
Proof.
  cbv zeta. unfold make_candidate, local_equations.
  assert (H : forall lc cover, fst (fold_left (fun '(lc, cover) eq_idx =>
      if eq_idx <? z
      then (lc + 1, cover + equation_failed_cover_count eqs_all.[eq_idx] failed_set)
      else (lc, cover)) sel (lc, cover)) = lc + zlen (List.filter (fun e => e <? z) sel)).
  { induction sel as [|e sel IH]; intros lc cover; cbn [fold_left List.filter]; [cbn; lia|].
    destruct (e <? z); rewrite IH; cbn [length]; lia. }
  specialize (H 0 0). destruct (fold_left _ _ _) as [lc cover]. cbn in H |- *. auto.
Qed.

Lemma local_equations_perm sel sel' : sel ≡ₚ sel' -> local_equations sel = local_equations sel'.
Proof.
  intros Hp. unfold local_equations. f_equal.
  induction Hp; cbn [List.filter]; repeat destruct (_ <? _); cbn [length]; lia.
Qed.

Lemma local_first_decides :
  decides (glrc_solve_repair_local_first k r z failed) /\
  forall sel, good sel ->
    local_equations sel <=
    local_equations (selected_equation_indices (glrc_solve_repair_local_first k r z failed)).
Proof.
  pose proof failed_pos. unfold glrc_solve_repair_local_first.
  destruct (Z.eqb_spec (zlen failed) 0); [lia|].
  rewrite (surjective_pairing (glrc_build_recovery_equations k r z failed)).
  change (fst (glrc_build_recovery_equations k r z failed)) with eqs_all.
  destruct (Z.ltb_spec (zlen candidates) (zlen failed)) as [Hlt|Hge].
  { assert (Hno : forall sel, ~ good sel).
    { intros sel Hg. pose proof (good_enough k r z Hk Hr Hz failed Hrange sel Hg). lia. }
    split; [right; split; [reflexivity|exact Hno]|]. intros sel Hg. contradiction (Hno sel Hg). }
  pose proof (local_first_fold_spec combos (fun c Hc => Hc)) as Hbest.
  destruct (fold_left _ _ _) as [b|].
  - destruct Hbest as [(c & Hc & Hg & ->) Hmax].
    destruct (make_candidate_fields (equations_of c)) as (E1 & E2 & E3 & E4). rewrite E1, E2, E3.
    split; [left; exists (equations_of c); auto|]. intros sel Hgs. cbn [fill_plan selected_equation_indices].
    destruct (good_enumerated k r z Hk Hr Hz failed Hrange sel Hgs) as (c' & Hc' & Hp).
    rewrite <- (local_equations_perm _ _ Hp), <- E4.
    destruct (make_candidate_fields (equations_of c')) as (_ & _ & _ & <-).
    apply Hmax; [exact Hc'|]. eapply good_selection_perm; [symmetry; exact Hp|exact Hgs].
  - assert (Hno : forall sel, ~ good sel).
    { intros sel Hg. destruct (good_enumerated k r z Hk Hr Hz failed Hrange sel Hg) as (c & Hc & Hp).
      apply (Hbest c Hc). eapply good_selection_perm; [symmetry; exact Hp|exact Hg]. }
    split; [right; split; [reflexivity|exact Hno]|]. intros sel Hg. contradiction (Hno sel Hg).
Qed.

(** ** The rule-based policies *)

Abbreviation in_range := (Forall (fun e => 0 <= e < z + r)).

Lemma push_while_Forall (P : Z -> Prop) f keep xs sel : Forall P xs -> Forall P sel ->
  Forall P (push_while f keep xs sel).
Proof.
  unfold push_while. revert sel. induction xs as [|x xs IH]; intros sel Hx Hs; [exact Hs|].
  rewrite Forall_cons in Hx. destruct Hx as [Hx Hxs]. cbn [fold_left]. apply IH; [exact Hxs|].
  destruct (_ && _); [|exact Hs]. apply Forall_app. auto.
Qed.

Lemma push_while_mono f keep xs (sel : list Z) : zlen sel <= zlen (push_while f keep xs sel).
Proof.
  unfold push_while. revert sel. induction xs as [|x xs IH]; intros sel; cbn [fold_left]; [lia|].
  etransitivity; [|apply IH]. destruct (_ && _); rewrite ?length_app; cbn [length]; lia.
Qed.

(** Pushing what is missing stops only when [f] are selected. *)
Lemma push_missing_spec f xs sel :
  let res := push_while f (fun sel x => negb (bool_decide (x ∈ sel))) xs sel in
  (forall x, In x sel -> In x res) /\ (f <= zlen res \/ forall x, In x xs -> In x res).
Proof.
  cbv zeta. unfold push_while. revert sel. induction xs as [|x xs IH]; intros sel; cbn [fold_left].
  - split; [auto|]. right. intros x [].
  - match goal with |- context [fold_left _ xs ?s] => set (sel1 := s) end.
    destruct (IH sel1) as [H1 H2]. assert (Hs : forall y, In y sel -> In y sel1).
    { intros y Hy. unfold sel1. destruct (_ && _); [apply in_or_app; auto|exact Hy]. }
    split; [auto|]. destruct H2 as [H2|H2]; [auto|].
    destruct (Z.ltb_spec (zlen sel) f) as [Hlt|Hge].
    + right. intros y [<-|Hy]; [|auto]. apply H1. unfold sel1.
      destruct (Z.ltb_spec (zlen sel) f); [|lia]. destruct (bool_decide_reflect (x ∈ sel)) as [Hin|Hin]; cbn.
      * apply list_elem_of_In, Hin.
      * apply in_or_app. right. left. reflexivity.
    + left. etransitivity; [exact Hge|]. etransitivity; [|apply (push_while_mono f _ xs sel1)].
      unfold sel1. destruct (_ && _); rewrite ?length_app; cbn [length]; lia.
Qed.

Lemma globals_range : in_range (map (fun j => z + j) (zseq r)).
Proof.
  apply Forall_forall. intros e He%list_elem_of_In. apply in_map_iff in He as (j & <- & Hj).
  apply in_zseq in Hj. lia.
Qed.

Lemma locals_range : in_range (zseq z).
Proof. apply Forall_forall. intros e He%list_elem_of_In. apply in_zseq in He. lia. Qed.

Lemma local_order_perm : local_equations_by_failed_cover z eqs_all failed_set ≡ₚ zseq z.
Proof. apply std_sort_perm. Qed.

Lemma ztake_Forall (P : Z -> Prop) m (l : list Z) : Forall P l -> Forall P (ztake m l).
Proof. apply Forall_take. Qed.

Lemma base_selection_spec f :
  let sel := build_local_then_global_base_selection f k r z eqs_all failed_set in
  in_range sel /\ (f <= z + r -> f <= zlen sel).
Proof.
  cbv zeta. unfold build_local_then_global_base_selection.
  assert (Hlo : in_range (local_equations_by_failed_cover z eqs_all failed_set))
    by (rewrite local_order_perm; apply locals_range).
  match goal with |- context [push_while f (fun sel e => negb (bool_decide (e ∈ sel))) (map _ _) ?s] =>
    assert (Hs2 : in_range s) by (do 2 (apply push_while_Forall; [assumption || apply globals_range|]); constructor);
    generalize dependent s end.
  intros sel2 Hs2.
  destruct (push_missing_spec f (map (fun j => z + j) (zseq r)) sel2) as [P1 P2].
  assert (Hs3 := push_while_Forall _ f (fun sel e => negb (bool_decide (e ∈ sel)))
                   (map (fun j => z + j) (zseq r)) sel2 globals_range Hs2).
  revert P1 P2 Hs3. generalize (push_while f (fun sel e => negb (bool_decide (e ∈ sel)))
    (map (fun j => z + j) (zseq r)) sel2). intros sel3 P1 P2 Hs3.
  destruct (push_missing_spec f (local_equations_by_failed_cover z eqs_all failed_set) sel3) as [Q1 Q2].
  assert (Hs4 := push_while_Forall _ f (fun sel e => negb (bool_decide (e ∈ sel)))
                   (local_equations_by_failed_cover z eqs_all failed_set) sel3 Hlo Hs3).
  pose proof (push_while_mono f (fun sel e => negb (bool_decide (e ∈ sel)))
    (local_equations_by_failed_cover z eqs_all failed_set) sel3) as Hm.
  revert Q1 Q2 Hs4 Hm. generalize (push_while f (fun sel e => negb (bool_decide (e ∈ sel)))
    (local_equations_by_failed_cover z eqs_all failed_set) sel3). intros sel4 Q1 Q2 Hs4 Hm.
  assert (Hlen : f <= z + r -> f <= zlen sel4).
  { intros Hf. destruct Q2 as [Q2|Q2]; [exact Q2|]. destruct P2 as [P2|P2]; [lia|].
    assert (Hle : Nat.le (length (zseq z ++ map (fun j => z + j) (zseq r))) (length sel4)).
    { apply NoDup_incl_length.
      - apply NoDup_ListNoDup, NoDup_app. split; [apply NoDup_seqZ|]. split.
        + intros x Hx Hx'. rewrite list_elem_of_In in Hx'. apply in_map_iff in Hx' as (j & <- & Hj).
          apply in_zseq in Hj. rewrite elem_of_seqZ in Hx. lia.
        + apply NoDup_fmap_2; [intros ? ? ?; lia|apply NoDup_seqZ].
      - intros x [Hx|Hx]%in_app_iff; [|auto]. apply Q2. eapply Permutation_in; [symmetry; apply local_order_perm|].
        exact Hx. }
    rewrite length_app, length_map, !length_seqZ in Hle. lia. }
  rewrite Z.gtb_ltb. destruct (Z.ltb_spec f (zlen sel4)).
  - split; [apply ztake_Forall, Hs4|]. unfold ztake. rewrite length_take. lia.
  - split; [exact Hs4|exact Hlen].
Qed.

Lemma prefix_selection_range f : in_range (build_global_prefix_selection f k r z).
Proof.
  unfold build_global_prefix_selection.
  assert (H : in_range (push_while f (fun _ _ => true) (zseq z)
            (push_while f (fun _ _ => true) (map (fun j => z + j) (zseq r)) []))).
  { apply push_while_Forall; [apply locals_range|]. apply push_while_Forall; [apply globals_range|constructor]. }
  destruct (_ >? _); [apply ztake_Forall|]; exact H.
Qed.

Lemma primary_range b : 0 <= b < k + r + z ->
  local_then_global_primary_equation_index b k r z = block_group k r z b /\
  0 <= local_then_global_primary_equation_index b k r z < z.
Proof.
  intros Hb. assert (E : local_then_global_primary_equation_index b k r z = block_group k r z b).
  { unfold local_then_global_primary_equation_index, block_group. zcases. }
  split; [exact E|]. rewrite E. apply block_group_range; lia.
Qed.

Lemma local_variant_range lg base : 0 <= lg < z -> in_range base -> in_range (local_variant z lg base).
Proof.
  intros Hlg Hb. unfold local_variant.
  assert (Hrb : in_range (rev base)) by (apply List.Forall_rev, Hb).
  assert (Hrep : forall l, in_range l -> match replace_last_local z lg l with
                   | Some v => in_range v | None => True end).
  { induction l as [|x l IH]; intros Hl; cbn [replace_last_local]; [exact I|].
    rewrite Forall_cons in Hl. destruct Hl as [Hx Hl]. destruct (x <? z); [constructor; [lia|exact Hl]|].
    specialize (IH Hl). destruct (replace_last_local z lg l); cbn [option_map]; [constructor; auto|exact I]. }
  specialize (Hrep _ Hrb). destruct (replace_last_local z lg (rev base)) as [v|].
  - apply List.Forall_rev, Hrep.
  - destruct (rev base) as [|x l]; [exact Hb|]. apply List.Forall_rev.
    rewrite Forall_cons in Hrb |- *. split; [lia|apply Hrb].
Qed.

Lemma first_failed_range : 0 <= failed.[0] < k + r + z.
Proof. pose proof failed_pos. apply (Forall_zget _ _ _ Hrange). lia. Qed.

Lemma try_local_variants_spec base f : in_range base ->
  match try_local_variants base f k r z failed_set failed eqs_all (fresh_plan failed) with
  | Some p => exists sel, good sel /\ p = plan_of sel
  | None => True
  end.
Proof.
  intros Hb. unfold try_local_variants.
  pose proof (fill_from_selection_spec base Hb) as H0.
  destruct (fill_plan_from_selection base _ _ _ _ _ _ _) as [p|]; [eauto|].
  match goal with |- context [first_success ?g ?xs] => pose proof (first_success_spec g xs) as Hs;
    destruct (first_success g xs) as [p|] end; [|exact I].
  destruct Hs as (lg & Hlg & E). destruct (bool_decide _); [discriminate|].
  assert (Hl : 0 <= lg < z).
  { destruct Hlg as [<-|Hlg]; [apply primary_range, first_failed_range|].
    apply filter_In in Hlg as [Hlg _]. apply in_zseq, Hlg. }
  pose proof (fill_from_selection_spec (local_variant z lg base) (local_variant_range lg base Hl Hb)) as H1.
  rewrite E in H1. eauto.
Qed.

Lemma global_first_fallback_spec :
  match try_global_first_fallback (zlen failed) k r z failed_set failed eqs_all candidates
          (fresh_plan failed) with
  | Some p => exists sel, good sel /\ p = plan_of sel
  | None => forall sel, ~ good sel
  end.
Proof.
  unfold try_global_first_fallback.
  pose proof (try_local_variants_spec _ (zlen failed) (prefix_selection_range (zlen failed))) as Hfst.
  assert (Hfst' : match (if zlen (build_global_prefix_selection (zlen failed) k r z) =? zlen failed
      then try_local_variants (build_global_prefix_selection (zlen failed) k r z) (zlen failed) k r z
             failed_set failed eqs_all (fresh_plan failed) else None) with
    | Some p => exists sel, good sel /\ p = plan_of sel | None => True end)
    by (destruct (_ =? _); [exact Hfst|exact I]). clear Hfst. revert Hfst'.
  match goal with |- match ?x with _ => _ end -> _ => destruct x as [p|] end; [auto|intros _].
  match goal with |- context [first_success ?g ?xs] => pose proof (first_success_spec g xs) as Hs;
    destruct (first_success g xs) as [p|] end.
  - destruct Hs as (c & Hc & E). apply (Permutation_in _ (std_sort_perm _ _)) in Hc.
    destruct (combos_range k r z Hk Hr Hz failed c Hc) as [Hrg _].
    pose proof (fill_from_selection_spec _ Hrg) as H1. rewrite E in H1. eauto.
  - intros sel Hg. destruct (good_enumerated k r z Hk Hr Hz failed Hrange sel Hg) as (c & Hc & Hp).
    destruct (combos_range k r z Hk Hr Hz failed c Hc) as [Hrg _].
    pose proof (fill_from_selection_spec _ Hrg) as H1.
    rewrite (Hs c) in H1 by (eapply Permutation_in; [symmetry; apply std_sort_perm|exact Hc]).
    apply H1. eapply good_selection_perm; [symmetry; exact Hp|exact Hg].
Qed.

Lemma global_first_decides : decides (glrc_solve_repair_global_first k r z failed).
Proof.
  pose proof failed_pos. unfold glrc_solve_repair_global_first.
  destruct (Z.eqb_spec (zlen failed) 0); [lia|].
  rewrite (surjective_pairing (glrc_build_recovery_equations k r z failed)).
  change (fst (glrc_build_recovery_equations k r z failed)) with eqs_all.
  destruct (Z.ltb_spec (zlen candidates) (zlen failed)) as [Hlt|Hge].
  { right. split; [reflexivity|]. intros sel Hg.
    pose proof (good_enough k r z Hk Hr Hz failed Hrange sel Hg). lia. }
  pose proof global_first_fallback_spec as Hf.
  destruct (try_global_first_fallback _ _ _ _ _ _ _ _ _) as [p|]; [left; exact Hf|].
  right. split; [reflexivity|exact Hf].
Qed.

(** A single lost block is restored by the local equation of its group. *)
Lemma primary_good b : k + r <= 255 -> failed = [b] ->
  good [local_then_global_primary_equation_index b k r z].
Proof.
  intros Hkr ->. rewrite Forall_singleton in Hrange. destruct (primary_range b Hrange) as [E Hp].
  split; [constructor; [lia|constructor]|]. split; [reflexivity|].
  intros v Hv j Hj. cbn [length] in *. assert (j = 0) as -> by lia. specialize (Hv 0 ltac:(lia)).
  unfold mxv, system_mx in Hv. change (Z.of_nat 1) with (0 + 1) in Hv.
  rewrite xsum_succ, xsum_0, bxor_0_l in Hv by lia. rewrite E in Hv.
  change ([block_group k r z b].[0]) with (block_group k r z b) in Hv. change ([b].[0]) with b in Hv.
  unfold glrc_eq_coef in Hv. rewrite Z.eqb_refl in Hv.
  destruct (Z.ltb_spec (block_group k r z b) z); [|lia].
  apply gf_mul_eq_0 in Hv as [Hv|Hv]; [|exact Hv].
  exfalso. revert Hv. apply local_coefficient_nonzero; lia.
Qed.

Lemma local_then_global_decides : k + r <= 255 ->
  decides (glrc_solve_repair_local_then_global k r z failed).
Proof.
  intros Hkr. pose proof failed_pos. unfold glrc_solve_repair_local_then_global.
  destruct (Z.eqb_spec (zlen failed) 0); [lia|].
  rewrite (surjective_pairing (glrc_build_recovery_equations k r z failed)).
  change (fst (glrc_build_recovery_equations k r z failed)) with eqs_all.
  destruct (Z.eqb_spec (zlen failed) 1) as [E1|E1].
  { assert (exists b, failed = [b]) as [b Eb].
    { destruct failed as [|b [|? ?]]; cbn [length] in *; try lia; eauto. }
    assert (E0 : failed.[0] = b) by (rewrite Eb; reflexivity). rewrite E0.
    pose proof (primary_good b Hkr Eb) as Hg.
    pose proof (fill_from_selection_spec _ (proj1 Hg)) as Hf.
    destruct (fill_plan_from_selection _ _ _ _ _ _ _ _) as [p|]; [left; eauto|contradiction]. }
  destruct (Z.ltb_spec (zlen (build_local_then_global_base_selection (zlen failed) k r z eqs_all failed_set))
              (zlen failed)) as [Hlt|Hge].
  { right. split; [reflexivity|]. intros sel Hg. destruct (base_selection_spec (zlen failed)) as [_ Hb].
    pose proof (good_nodup k r z failed sel Hg) as Hn. destruct Hg as (G1 & G2 & _).
    assert (length sel <= length (zseq (z + r)))%nat as Hle.
    2: { rewrite length_seqZ in Hle. specialize (Hb ltac:(lia)). lia. }
    apply NoDup_incl_length; [apply NoDup_ListNoDup, Hn|]. intros e He. apply in_zseq.
    rewrite Forall_forall in G1. apply G1, list_elem_of_In, He. }
  destruct (base_selection_spec (zlen failed)) as [Hb _].
  pose proof (try_local_variants_spec _ (zlen failed) Hb) as Ht.
  destruct (try_local_variants _ _ _ _ _ _ _ _ _) as [p|]; cbn [or_else]; [left; exact Ht|].
  pose proof global_first_fallback_spec as Hf.
  destruct (try_global_first_fallback _ _ _ _ _ _ _ _ _) as [p|]; [left; exact Hf|].
  right. split; [reflexivity|exact Hf].
Qed.
End Planners.
