(* ===== verification/RepairGuarantee.v ===== *)
(** End-to-end guarantees of gLRC repair: encoding, choosing the recovery
    equations under any policy and decoding restores the lost blocks; which
    failure patterns are recoverable; an implementation of [StdSort]. *)
From S2P Require Import Prelude GF256 LinAlg GFMatrix EcKernel Groups Codes Decode DecodeSpec.
From S2P Require Import LocalRepair RepairPlan RepairPlanSpec.
From Stdlib Require Import Field.

(** * An implementation of [std::sort] *)

Section InsertionSort.
Context {A : Type} (lt : A -> A -> bool).

Fixpoint insert_sorted (x : A) (l : list A) : list A :=
  match l with
  | [] => [x]
  | y :: l' => if lt y x then y :: insert_sorted x l' else x :: y :: l'
  end.

Definition insertion_sort (l : list A) : list A := fold_right insert_sorted [] l.

Lemma insert_sorted_perm x l : insert_sorted x l ≡ₚ x :: l.
Proof.
  induction l as [|y l IH]; cbn; [reflexivity|]. destruct (lt y x); [|reflexivity].
  rewrite IH. apply perm_swap.
Qed.

Lemma insertion_sort_perm l : insertion_sort l ≡ₚ l.
Proof. induction l as [|x l IH]; cbn; [reflexivity|]. rewrite insert_sorted_perm, IH. reflexivity. Qed.

Hypothesis Hlt : strict_weak lt.

Lemma not_lt_trans x y w : lt y x = false -> lt w y = false -> lt w x = false.
Proof.
  intros H1 H2. destruct (lt w x) eqn:E; [|reflexivity].
  destruct (lt x y) eqn:E1; [rewrite (sw_trans lt Hlt w x y E E1) in H2; discriminate|].
  destruct (lt y w) eqn:E2; [rewrite (sw_trans lt Hlt y w x E2 E) in H1; discriminate|].
  destruct (sw_equiv lt Hlt x y w E1 H1 E2 H2). congruence.
Qed.

Lemma insert_sorted_sorted x l : StronglySorted (fun a b => lt b a = false) l ->
  StronglySorted (fun a b => lt b a = false) (insert_sorted x l).
Proof.
  induction 1 as [|y l Hs IH Hy]; cbn; [repeat constructor|].
  destruct (lt y x) eqn:E.
  - constructor; [exact IH|]. rewrite insert_sorted_perm. constructor; [|exact Hy].
    destruct (lt x y) eqn:E1; [|reflexivity]. pose proof (sw_trans lt Hlt y x y E E1) as H0.
    rewrite (sw_irrefl lt Hlt) in H0. discriminate.
  - constructor; [constructor; assumption|]. constructor; [exact E|].
    eapply Forall_impl; [exact Hy|]. intros w Hw. cbv beta in *. eapply not_lt_trans; eassumption.
Qed.

Lemma insertion_sort_sorted l : StronglySorted (fun a b => lt b a = false) (insertion_sort l).
Proof. induction l; cbn; [constructor|]. apply insert_sorted_sorted. assumption. Qed.
End InsertionSort.

#[export] Instance insertion_StdSort : StdSort := @insertion_sort.
#[export] Instance insertion_StdSortLaws : StdSortLaws insertion_StdSort.
Proof.
  constructor; intros; [apply insertion_sort_perm|apply insertion_sort_sorted; assumption].
Qed.

(** * Dispatch on the policy *)

Definition known_policy (policy : string) : bool :=
  existsb (String.eqb (glrc_normalize_equation_policy policy))
    ["local-then-global"; "local-first"; "global-first"; "ilp-min-helper"]%string.

Section Dispatch.
Context {S : StdSort} {SL : StdSortLaws S}.
Context (k r z : Z) (Hk : 1 <= k) (Hr : 0 <= r) (Hz : 1 <= z).

Lemma plan_decides failed policy : NoDup failed -> failed <> [] ->
  Forall (fun b => 0 <= b < k + r + z) failed -> k + r <= 255 -> k + r + z < INT_MAX ->
  known_policy policy = true -> decides k r z failed (glrc_solve_repair_plan k r z failed policy).
Proof.
  intros Hnd Hne Hrg Hkr Hn Hpol. unfold known_policy, glrc_solve_repair_plan in *.
  cbn [existsb] in Hpol.
  destruct (String.eqb _ "local-then-global"); [apply local_then_global_decides; assumption|].
  destruct (String.eqb _ "local-first"); [apply local_first_decides; assumption|].
  destruct (String.eqb _ "global-first"); [apply global_first_decides; assumption|].
  destruct (String.eqb _ "ilp-min-helper"); [apply ilp_decides; assumption|]. discriminate.
Qed.

(** Some selection of equations determines the lost blocks. *)
Definition recoverable (failed : list Z) : Prop := exists sel, good_selection k r z failed sel.

Lemma plan_success_iff failed policy : NoDup failed -> failed <> [] ->
  Forall (fun b => 0 <= b < k + r + z) failed -> k + r <= 255 -> k + r + z < INT_MAX ->
  known_policy policy = true ->
  success (glrc_solve_repair_plan k r z failed policy) = true <-> recoverable failed.
Proof.
  intros Hnd Hne Hrg Hkr Hn Hpol.
  destruct (plan_decides failed policy Hnd Hne Hrg Hkr Hn Hpol) as [(sel & Hg & ->)|[E Hno]].
  - split; [intros _; exists sel; exact Hg|reflexivity].
  - rewrite E. split; [discriminate|]. intros [sel Hg]. contradiction (Hno sel Hg).
Qed.

(** ** The helpers of a plan suffice, and there is at least one *)

Lemma helpers_solvable failed sel : good_selection k r z failed sel ->
  solvable k r z (union_helpers sel (all_equations_of k r z) (list_to_set failed)) failed sel.
Proof.
  intros (H1 & H2 & H3). split; [exact H3|]. apply Forall_forall. intros e He b Hb Hc Hf.
  destruct (union_helpers_spec k r z failed sel) as (_ & _ & Hin). apply Hin.
  exists e. split; [apply list_elem_of_In, He|]. split; [|exact Hf].
  apply coef_involved; auto. rewrite Forall_forall in H1. apply H1, He.
Qed.

(** Every equation involves a block that is not constantly zero. *)
Lemma involved_live e : z <= k + r -> k + r <= 255 -> 0 <= e < z + r ->
  exists b j, In b (involved_blocks (all_equations_of k r z).[e]) /\ 0 <= j < k /\
              glrc_gen k r z b j <> x00.
Proof.
  intros Hzk Hkr He. rewrite involved_eq by auto. destruct (Z.ltb_spec e z) as [Hez|Hez].
  - set (b := payload_start k r z e).
    assert (Hb : 0 <= b < k + r /\ b < payload_start k r z (e + 1)).
    { unfold b, payload_start. pose proof (base_larger k r z ltac:(lia) Hr Hz) as (H1 & H2 & H3).
      assert (1 <= (k + r) / z) by (apply Z.div_le_lower_bound; lia). nia. }
    exists b. destruct (Z.ltb_spec b k) as [Hbk|Hbk].
    + exists b. split; [apply in_placement_group; try lia; fold b; lia|]. split; [lia|].
      unfold glrc_gen, cauchy_gen, delta. rewrite Z.eqb_refl.
      destruct (Z.ltb_spec b (k + r)), (Z.ltb_spec b k); try lia. discriminate.
    + exists 0. split; [apply in_placement_group; try lia; fold b; lia|]. split; [lia|].
      unfold glrc_gen, cauchy_gen. destruct (Z.ltb_spec b (k + r)); [|lia].
      destruct (Z.ltb_spec b k); [lia|]. apply gf_inv_nonzero, lxor_byte_nonzero; lia.
  - exists 0, 0. split; [apply in_or_app; left; apply in_zseq; lia|]. split; [lia|].
    unfold glrc_gen, cauchy_gen. destruct (Z.ltb_spec 0 (k + r)), (Z.ltb_spec 0 k); try lia. discriminate.
Qed.

Lemma helpers_nonempty failed sel : z <= k + r -> k + r <= 255 -> NoDup failed -> failed <> [] ->
  Forall (fun b => 0 <= b < k + r + z) failed -> good_selection k r z failed sel ->
  union_helpers sel (all_equations_of k r z) (list_to_set failed) <> [].
Proof.
  intros Hzk Hkr Hnd Hne Hrg Hg E. pose proof Hg as (G1 & G2 & G3).
  destruct (union_helpers_spec k r z failed sel) as (_ & _ & Hin). rewrite E in Hin.
  assert (Hf1 : 1 <= zlen failed) by (destruct failed; [contradiction|cbn [length]; lia]).
  assert (He : 0 <= sel.[0] < z + r) by (apply (Forall_zget _ _ _ G1); lia).
  destruct (involved_live sel.[0] Hzk Hkr He) as (b & j & Hb & Hj & Hlive).
  assert (Hbf : In b failed).
  { destruct (decide (b ∈ failed)) as [H|H]; [apply list_elem_of_In, H|]. exfalso. apply (Hin b).
    exists sel.[0]. split; [apply zget_In; lia|]. auto. }
  apply In_zget in Hbf as (t & Ht & <-).
  (* a codeword in which that block is not zero *)
  set (s := glrc_codeword k r z (fun i => delta j i)).
  assert (Hs : s failed.[t] = glrc_gen k r z failed.[t] j).
  { unfold s, glrc_codeword. rewrite (xsum_ext k _ (fun i => delta j i ⊗ glrc_gen k r z failed.[t] i))
      by (intros; ring). apply (xsum_delta_l k (fun i => glrc_gen k r z failed.[t] i)), Hj. }
  apply Hlive. rewrite <- Hs. apply (G3 (fun t => s failed.[t])); [|exact Ht].
  intros i Hi. rewrite <- (surviving_part k r z failed sel s i); [| |intros e He'; apply glrc_check; auto|exact Hi].
  - apply xsum_zero. intros x Hx. destruct (bool_decide_reflect (x ∈ failed)) as [|Hxf]; [reflexivity|].
    destruct (decide (glrc_eq_coef k r z sel.[i] x = x00)) as [->|Hc]; [ring|]. exfalso. apply (Hin x).
    assert (Hsi : 0 <= sel.[i] < z + r) by (apply (Forall_zget _ _ _ G1); lia).
    exists sel.[i]. split; [apply zget_In; lia|]. split; [apply coef_involved; auto|exact Hxf].
  - apply good_valid; auto.
Qed.

(** A plan that succeeds reads blocks of the stripe that are not lost. *)
Lemma plan_helpers failed policy : NoDup failed -> failed <> [] ->
  Forall (fun b => 0 <= b < k + r + z) failed -> k + r <= 255 -> k + r + z < INT_MAX -> known_policy policy = true ->
  success (glrc_solve_repair_plan k r z failed policy) = true ->
  forall b, In b (helper_block_ids (glrc_solve_repair_plan k r z failed policy)) -> 0 <= b < k + r + z /\ b ∉ failed.
Proof.
  intros Hnd Hne Hrg Hkr Hn Hpol Hok b Hb.
  destruct (plan_decides failed policy Hnd Hne Hrg Hkr Hn Hpol) as [(sel & (G1 & _) & E)|[E _]]; [|congruence].
  rewrite E in Hb. cbn [plan_of fill_plan helper_block_ids] in Hb.
  destruct (union_helpers_spec k r z failed sel) as (_ & _ & Hin). apply Hin in Hb as (e & He & Hbe & Hf).
  split; [|exact Hf]. rewrite Forall_forall in G1. apply (involved_range k r z) with e; auto. apply G1, list_elem_of_In, He.
Qed.

(** ** Repair of an encoded stripe *)

Context {K : Kernels} {L : KernelLaws K}.

Lemma plan_restores data parity bs failed policy ptrs plan :
  z <= k + r -> k + r <= 255 -> 0 <= bs ->
  zlen data = k -> zlen parity = r + z -> buffers (r + z) bs parity ->
  NoDup failed -> failed <> [] -> Forall (fun b => 0 <= b < k + r + z) failed ->
  known_policy policy = true ->
  glrc_solve_repair_plan k r z failed policy = plan -> success plan = true ->
  holds (helper_block_ids plan) ptrs bs (data ++ encode_glrc k r z data parity bs) ->
  exists rec,
    decode_glrc_ilp k r z bs (helper_block_ids plan) ptrs failed (selected_equation_indices plan) = Some rec /\
    restored failed (data ++ encode_glrc k r z data parity bs) bs 0 bs 0 rec.
Proof.
  intros Hzk Hkr Hbs Hd Hp Hbuf Hnd Hne Hrg Hpol <- Hok Hh.
  destruct (plan_decides failed policy Hnd Hne Hrg Hkr ltac:(unfold INT_MAX; lia) Hpol)
    as [(sel & Hg & E)|[E _]]; [|congruence].
  rewrite E in *. cbn [plan_of fill_plan helper_block_ids selected_equation_indices] in *.
  apply decode_glrc_ilp_spec; auto.
  - apply good_valid; auto.
  - apply helpers_nonempty; auto.
  - apply encode_glrc_stripe_ok; auto.
  - apply helpers_solvable, Hg.
Qed.
End Dispatch.

(** * Recoverable failure patterns *)

Lemma filter_split_len {A} (p : A -> bool) l :
  zlen l = zlen (List.filter p l) + zlen (List.filter (fun x => negb (p x)) l).
Proof.
  induction l as [|x l IH]; cbn [List.filter]; [reflexivity|].
  destruct (p x); cbn [negb length]; lia.
Qed.

Section Patterns.
Context (k r z : Z) (Hk : 1 <= k) (Hr : 0 <= r) (Hz : 1 <= z).

(** A kernel vector as a function of the block. *)
Lemma kernel_by_block (failed : list Z) (v : Z -> byte) : NoDup failed ->
  exists w : Z -> byte, forall t, 0 <= t < zlen failed -> w failed.[t] = v t.
Proof.
  intros Hn. exists (fun b => xsum (zlen failed) (fun j => if failed.[j] =? b then v j else x00)).
  intros t Ht. rewrite (xsum_single _ _ t Ht), Z.eqb_refl; [reflexivity|].
  intros j Hj Hne. destruct (Z.eqb_spec failed.[j] failed.[t]) as [E|]; [|reflexivity].
  apply zget_inj in E; auto. contradiction.
Qed.

(** A global equation on the lost blocks: the lost data, and its own parity. *)
Lemma global_equation_on_lost failed (w : Z -> byte) j : NoDup failed -> Forall (fun b => 0 <= b < k + r) failed ->
  0 <= j < r ->
  xsum (zlen failed) (fun t => glrc_eq_coef k r z (z + j) failed.[t] ⊗ w failed.[t]) =
  xsum (zlen (List.filter (fun b => b <? k) failed))
    (fun i => cauchy_gen k (k + j) (List.filter (fun b => b <? k) failed).[i] ⊗
              w (List.filter (fun b => b <? k) failed).[i]) ⊕
  (if bool_decide (k + j ∈ failed) then w (k + j) else x00).
Proof.
  intros Hn Hrg Hj. set (D := List.filter (fun b => b <? k) failed).
  assert (HD : forall b, b ∈ D <-> b ∈ failed /\ b < k).
  { intros b. unfold D. rewrite !list_elem_of_In, filter_In, Z.ltb_lt. reflexivity. }
  rewrite Forall_forall in Hrg.
  rewrite <- (xsum_members (k + r) failed (fun b => glrc_eq_coef k r z (z + j) b ⊗ w b)) by
    (auto; apply Forall_forall; exact Hrg).
  rewrite <- (xsum_members (k + r) D (fun b => cauchy_gen k (k + j) b ⊗ w b)).
  2: { unfold D. apply NoDup_ListNoDup, List.NoDup_filter, NoDup_ListNoDup, Hn. }
  2: { apply Forall_forall. intros b Hb. apply HD in Hb as [Hb _]. apply Hrg, Hb. }
  replace (if bool_decide (k + j ∈ failed) then w (k + j) else x00)
    with (xsum (k + r) (fun b => delta (k + j) b ⊗ (if bool_decide (b ∈ failed) then w b else x00))).
  2: { apply (xsum_delta_l (k + r) (fun b => if bool_decide (b ∈ failed) then w b else x00)). lia. }
  rewrite <- xsum_add. apply xsum_ext. intros b Hb. unfold glrc_eq_coef, delta.
  replace (z + j - z) with j by lia. destruct (Z.ltb_spec (z + j) z); [lia|].
  rewrite (bool_decide_ext (b ∈ D) (b ∈ failed /\ b < k)) by apply HD.
  destruct (bool_decide_reflect (b ∈ failed)) as [Hf|Hf].
  - destruct (Z.ltb_spec b k).
    + rewrite bool_decide_true by auto. destruct (Z.eqb_spec (k + j) b); [lia|]. ring.
    + rewrite bool_decide_false by lia. rewrite (Z.eqb_sym (k + j) b). destruct (b =? k + j); ring.
  - rewrite bool_decide_false by tauto. destruct (_ =? _); ring.
Qed.

Lemma cauchy_gen_cauchy i b : k <= i -> 0 <= b ->
  cauchy_gen k i b = gf_inv (byte_of_Z i ⊕ byte_of_Z b).
Proof. intros Hi Hb. unfold cauchy_gen. zcases. rewrite byte_of_Z_lxor. reflexivity. Qed.

Lemma byte_of_Z_inj a b : 0 <= a < 256 -> 0 <= b < 256 -> byte_of_Z a = byte_of_Z b -> a = b.
Proof. intros Ha Hb E. apply byte_of_Z_eq_iff in E. rewrite !Z.mod_small in E; lia. Qed.

(** As many global equations as lost data blocks determine them. *)
Lemma cauchy_system (U D : list Z) (w : Z -> byte) : k + r <= 256 -> zlen U = zlen D -> NoDup U -> NoDup D ->
  Forall (fun j => 0 <= j < r) U -> Forall (fun b => 0 <= b < k) D ->
  (forall j, In j U -> xsum (zlen D) (fun i => cauchy_gen k (k + j) D.[i] ⊗ w D.[i]) = x00) ->
  forall b, In b D -> w b = x00.
Proof.
  intros Hkr Hl HU HD HUr HDr Hsum b Hb. apply In_zget in Hb as (i & Hi & <-).
  apply (cauchy_nonsingular (zlen D) (fun i => byte_of_Z (k + U.[i])) (fun i => byte_of_Z D.[i]))
    with (v := fun i => w D.[i]); try lia.
  - intros a c Ha Hc E. pose proof (Forall_zget _ _ a HUr ltac:(lia)).
    pose proof (Forall_zget _ _ c HUr ltac:(lia)). cbv beta in *. apply byte_of_Z_inj in E; try lia.
    apply (zget_inj U); auto; lia.
  - intros a c Ha Hc E. pose proof (Forall_zget _ _ a HDr ltac:(lia)).
    pose proof (Forall_zget _ _ c HDr ltac:(lia)). cbv beta in *. apply byte_of_Z_inj in E; try lia.
    apply (zget_inj D); auto; lia.
  - intros a c Ha Hc E. pose proof (Forall_zget _ _ a HUr ltac:(lia)).
    pose proof (Forall_zget _ _ c HDr ltac:(lia)). cbv beta in *. apply byte_of_Z_inj in E; lia.
  - intros a Ha. etransitivity; [|apply (Hsum U.[a]), zget_In; lia]. apply xsum_ext. intros c Hc.
    pose proof (Forall_zget _ _ a HUr ltac:(lia)). pose proof (Forall_zget _ _ c HDr ltac:(lia)).
    cbv beta in *. unfold cauchy. rewrite cauchy_gen_cauchy by lia. reflexivity.
Qed.

(** Any [r] or fewer lost data and global parity blocks are recoverable. *)
Lemma payload_recoverable failed : k + r <= 256 -> NoDup failed ->
  Forall (fun b => 0 <= b < k + r) failed -> zlen failed <= r -> recoverable k r z failed.
Proof.
  intros Hkr Hn Hrg Hf.
  set (D := List.filter (fun b => b <? k) failed).
  set (G := List.filter (fun b => negb (b <? k)) failed).
  set (free := List.filter (fun j => negb (bool_decide (k + j ∈ failed))) (zseq r)).
  set (U := ztake (zlen D) free).
  assert (Hsplit : zlen failed = zlen D + zlen G) by apply filter_split_len.
  assert (HG : forall b, In b G <-> In b failed /\ k <= b).
  { intros b. unfold G. rewrite filter_In, negb_true_iff, Z.ltb_ge. reflexivity. }
  assert (HDin : forall b, In b D <-> In b failed /\ b < k).
  { intros b. unfold D. rewrite filter_In, Z.ltb_lt. reflexivity. }
  assert (Hrg' := proj1 (Forall_forall _ _) Hrg). cbv beta in Hrg'.
  assert (Hfree : r - zlen G <= zlen free).
  { pose proof (filter_split_len (fun j => bool_decide (k + j ∈ failed)) (zseq r)) as H0.
    rewrite zlen_seqZ in H0. fold free in H0.
    assert (H1 : Nat.le (length (map (fun j => k + j)
              (List.filter (fun j => bool_decide (k + j ∈ failed)) (zseq r)))) (length G)).
    { apply NoDup_incl_length.
      - apply NoDup_ListNoDup, NoDup_fmap_2; [intros ? ? ?; lia|].
        apply NoDup_ListNoDup, List.NoDup_filter, NoDup_ListNoDup, NoDup_seqZ.
      - intros b Hb. apply in_map_iff in Hb as (j & <- & Hj). apply filter_In in Hj as [Hj Hb].
        apply bool_decide_eq_true in Hb. apply in_zseq in Hj. apply HG. rewrite <- list_elem_of_In.
        split; [exact Hb|lia]. }
    rewrite length_map in H1. lia. }
  assert (HU : zlen U = zlen D) by (unfold U, ztake; rewrite length_take; lia).
  assert (HUin : forall j, In j U -> 0 <= j < r /\ k + j ∉ failed).
  { intros j Hj. assert (Hj' : In j free) by (apply list_elem_of_In in Hj; apply list_elem_of_In;
      unfold U, ztake in Hj; eapply elem_of_take in Hj as (i & Hi & _); eapply list_elem_of_lookup_2, Hi).
    apply filter_In in Hj' as [Hj1 Hj2]. apply in_zseq in Hj1. apply negb_true_iff, bool_decide_eq_false in Hj2.
    auto. }
  assert (HUn : NoDup U).
  { assert (Hfn : NoDup free) by apply NoDup_ListNoDup, List.NoDup_filter, NoDup_ListNoDup, NoDup_seqZ.
    rewrite <- (take_drop (Z.to_nat (zlen D)) free) in Hfn. apply NoDup_app in Hfn. apply Hfn. }
  exists (map (fun b => z + (b - k)) G ++ map (fun j => z + j) U).
  assert (Hlen : zlen (map (fun b => z + (b - k)) G ++ map (fun j => z + j) U) = zlen failed)
    by (rewrite length_app, !length_map; lia).
  split; [|split; [exact Hlen|]].
  { apply Forall_forall. intros e He%list_elem_of_In. apply in_app_iff in He as [He|He];
      apply in_map_iff in He as (x & <- & Hx).
    - apply HG in Hx as [Hx Hx']. specialize (Hrg' x (proj2 (list_elem_of_In _ _) Hx)). lia.
    - apply HUin in Hx as [Hx _]. lia. }
  apply nonsingular_members; [exact Hlen|]. intros v Hv t Ht.
  destruct (kernel_by_block failed v Hn) as [w Hw]. rewrite <- Hw by exact Ht.
  assert (Heq : forall j, 0 <= j < r ->
    In (z + j) (map (fun b => z + (b - k)) G ++ map (fun j => z + j) U) ->
    xsum (zlen D) (fun i => cauchy_gen k (k + j) D.[i] ⊗ w D.[i]) ⊕
    (if bool_decide (k + j ∈ failed) then w (k + j) else x00) = x00).
  { intros j Hj Hin. unfold D. rewrite <- (global_equation_on_lost failed w j) by assumption.
    etransitivity; [|exact (Hv _ Hin)]. apply xsum_ext. intros i Hi. rewrite Hw by exact Hi. reflexivity. }
  assert (HwD : forall b, In b D -> w b = x00).
  { apply (cauchy_system U D w); auto.
    - unfold D. apply NoDup_ListNoDup, List.NoDup_filter, NoDup_ListNoDup, Hn.
    - apply Forall_forall. intros j Hj%list_elem_of_In. apply HUin, Hj.
    - apply Forall_forall. intros b Hb%list_elem_of_In. apply HDin in Hb as [Hb Hb'].
      specialize (Hrg' b (proj2 (list_elem_of_In _ _) Hb)). lia.
    - intros j Hj. destruct (HUin j Hj) as [Hjr Hjf]. etransitivity; [|apply (Heq j Hjr)].
      + rewrite bool_decide_false by exact Hjf. symmetry. apply bxor_0_r.
      + apply in_or_app. right. apply in_map_iff. exists j. auto. }
  assert (Hft : In failed.[t] failed) by (apply zget_In, Ht).
  specialize (Hrg' failed.[t] (proj2 (list_elem_of_In _ _) Hft)).
  destruct (Z.ltb_spec failed.[t] k) as [Hlt|Hge]; [apply HwD, HDin; auto|].
  set (j := failed.[t] - k). assert (Ej : failed.[t] = k + j) by lia. rewrite Ej in *.
  pose proof (Heq j ltac:(lia)) as H0. rewrite bool_decide_true in H0 by (apply list_elem_of_In; exact Hft).
  rewrite xsum_zero, bxor_0_l in H0; [apply H0|].
  - apply in_or_app. left. apply in_map_iff. exists (k + j). split; [lia|]. apply HG. auto.
  - intros i Hi. rewrite HwD by (apply zget_In, Hi). ring.
Qed.

(** ** At most one failure per group *)

Lemma find_group_spec fid g0 l :
  match find_group fid g0 l with
  | Some g => g0 <= g < g0 + zlen l /\ In fid l.[g - g0]
  | None => forall g, 0 <= g < zlen l -> ~ In fid l.[g]
  end.
Proof.
  revert g0. induction l as [|x l IH]; intros g0; cbn [find_group length]; [intros; lia|].
  destruct (existsb (fun b => b =? fid) x) eqn:E.
  - apply existsb_exists in E as (b & Hb & Eb). apply Z.eqb_eq in Eb. subst b.
    split; [lia|]. rewrite Z.sub_diag. exact Hb.
  - assert (Hx : ~ In fid x).
    { intros Hin. assert (existsb (fun b => b =? fid) x = true); [|congruence].
      apply existsb_exists. exists fid. rewrite Z.eqb_refl. auto. }
    specialize (IH (g0 + 1)). destruct (find_group fid (g0 + 1) l) as [g|].
    + destruct IH as [H1 H2]. split; [lia|].
      replace (g - g0) with (g - (g0 + 1) + 1) by lia. rewrite zget_cons_succ by lia. exact H2.
    + intros g Hg. destruct (Z.eq_dec g 0) as [->|]; [exact Hx|].
      replace g with (g - 1 + 1) by lia. rewrite zget_cons_succ by lia. apply IH. lia.
Qed.

Lemma find_block_group fid :
  find_group fid 0 (glrc_build_placement_groups k r z) =
  if bool_decide (0 <= fid < k + r + z) then Some (block_group k r z fid) else None.
Proof.
  destruct (placement_groups_spec k r z ltac:(lia) Hr Hz) as [Hl _].
  pose proof (find_group_spec fid 0 (glrc_build_placement_groups k r z)) as H. rewrite Hl in H.
  destruct (find_group _ _ _) as [g|].
  - rewrite Z.sub_0_r in H. destruct H as [H1 H2].
    pose proof (placement_group_range k r z ltac:(lia) Hr Hz g fid ltac:(lia) H2).
    rewrite bool_decide_true by assumption. f_equal. symmetry.
    apply (placement_group_iff k r z); auto; lia.
  - destruct (bool_decide_reflect (0 <= fid < k + r + z)) as [Hf|]; [|reflexivity].
    pose proof (block_group_range k r z ltac:(lia) Hr Hz fid Hf).
    exfalso. apply (H (block_group k r z fid)); [lia|]. apply placement_group_iff; auto; lia.
Qed.

Lemma at_most_one_loop_spec failed pg : zlen pg = z -> Forall (fun c => 0 <= c) pg ->
  at_most_one_loop (glrc_build_placement_groups k r z) failed pg = true <->
  Forall (fun b => 0 <= b < k + r + z) failed /\ NoDup (map (block_group k r z) failed) /\
  forall b, In b failed -> pg.[block_group k r z b] = 0.
Proof.
  revert pg. induction failed as [|b failed IH]; intros pg Hl Hpos; cbn [at_most_one_loop map In].
  { split; [|reflexivity]. intros _. split; [constructor|]. split; [constructor|]. intros b []. }
  rewrite find_block_group. destruct (bool_decide_reflect (0 <= b < k + r + z)) as [Hb|Hb].
  2: { split; [discriminate|]. intros [H _]. rewrite Forall_cons in H. tauto. }
  pose proof (block_group_range k r z ltac:(lia) Hr Hz b Hb) as Hg. set (g := block_group k r z b) in *.
  pose proof (Forall_zget _ _ g Hpos ltac:(lia)) as Hpg. cbv beta in Hpg.
  rewrite zget_zset_eq by lia. rewrite Z.gtb_ltb. destruct (Z.ltb_spec 1 (pg.[g] + 1)).
  { split; [discriminate|]. intros (_ & _ & H0). specialize (H0 b (or_introl eq_refl)). fold g in H0. lia. }
  rewrite IH.
  - rewrite Forall_cons, NoDup_cons. split.
    + intros (H1 & H2 & H3). split; [auto|]. split; [split; [|exact H2]|].
      * intros Hin%list_elem_of_In. apply in_map_iff in Hin as (b' & E & Hb'). specialize (H3 b' Hb').
        rewrite E, zget_zset_eq in H3 by lia. lia.
      * intros b' [<-|Hb']; [fold g; lia|]. specialize (H3 b' Hb').
        destruct (Z.eq_dec (block_group k r z b') g) as [E|E]; [rewrite E; lia|].
        rewrite zget_zset_ne in H3 by congruence. exact H3.
    + intros ([H1 H1'] & [H2 H2'] & H3). split; [exact H1'|]. split; [exact H2'|]. intros b' Hb'.
      rewrite zget_zset_ne; [apply H3; auto|]. intros E. apply H2, list_elem_of_In, in_map_iff. eauto.
  - rewrite zlen_zset. exact Hl.
  - apply Forall_forall. intros c Hc%list_elem_of_In. apply In_zget in Hc as (i & Hi & <-).
    rewrite zlen_zset in Hi. rewrite zget_zset by lia. destruct (i =? g); [lia|].
    apply (Forall_zget _ _ _ Hpos). exact Hi.
Qed.

Lemma at_most_one_spec failed :
  glrc_failures_at_most_one_per_group k r z failed = true <->
  failed <> [] /\ Forall (fun b => 0 <= b < k + r + z) failed /\
  NoDup (map (block_group k r z) failed).
Proof.
  destruct (placement_groups_spec k r z ltac:(lia) Hr Hz) as [Hl _].
  assert (Hrep : Forall (fun c => 0 <= c) (zrepeat 0 z)) by (apply Forall_replicate; lia).
  unfold glrc_failures_at_most_one_per_group. destruct failed as [|b failed].
  { split; [discriminate|]. intros [H _]. contradiction. }
  rewrite Hl. rewrite at_most_one_loop_spec by (auto; apply zlen_zrepeat; lia).
  split; [intros (H1 & H2 & _)|intros (_ & H1 & H2)].
  - split; [discriminate|]. auto.
  - split; [exact H1|]. split; [exact H2|]. intros b' Hb'. rewrite Forall_forall in H1.
    apply zget_zrepeat. apply block_group_range; try lia. apply H1, list_elem_of_In, Hb'.
Qed.

(** The local equations of the groups form a diagonal system. *)
Lemma one_per_group_good failed : k + r <= 255 ->
  glrc_failures_at_most_one_per_group k r z failed = true ->
  good_selection k r z failed (map (block_group k r z) failed).
Proof.
  intros Hkr Hone. apply at_most_one_spec in Hone as (_ & Hrg & Hn).
  split; [|split; [rewrite length_map; reflexivity|]].
  { apply Forall_forall. intros e He%list_elem_of_In. apply in_map_iff in He as (b & <- & Hb).
    rewrite Forall_forall in Hrg. specialize (Hrg b (proj2 (list_elem_of_In _ _) Hb)).
    pose proof (block_group_range k r z ltac:(lia) Hr Hz b Hrg). lia. }
  intros v Hv t Ht. specialize (Hv t Ht). unfold mxv, system_mx in Hv.
  rewrite (xsum_single _ _ t Ht) in Hv.
  - rewrite zget_map in Hv by exact Ht.
    pose proof (Forall_zget _ _ t Hrg Ht) as Hft. cbv beta in Hft.
    pose proof (block_group_range k r z ltac:(lia) Hr Hz _ Hft).
    unfold glrc_eq_coef in Hv. rewrite Z.eqb_refl in Hv.
    destruct (Z.ltb_spec (block_group k r z failed.[t]) z); [|lia].
    apply gf_mul_eq_0 in Hv as [Hv|Hv]; [|exact Hv]. exfalso. revert Hv. apply local_coefficient_nonzero; lia.
  - intros j Hj Hne. rewrite zget_map by exact Ht. unfold glrc_eq_coef.
    pose proof (Forall_zget _ _ t Hrg Ht) as Hft. cbv beta in Hft.
    pose proof (block_group_range k r z ltac:(lia) Hr Hz _ Hft).
    destruct (Z.ltb_spec (block_group k r z failed.[t]) z); [|lia].
    destruct (Z.eqb_spec (block_group k r z failed.[j]) (block_group k r z failed.[t])) as [E|]; [|ring].
    exfalso. apply Hne. apply (zget_inj (map (block_group k r z) failed)); auto; rewrite ?length_map; auto.
    rewrite !zget_map by assumption. exact E.
Qed.
End Patterns.

(** A selection whose equations are all counted as local is local. *)
Lemma all_local_of_count z sel : Forall (fun e => 0 <= e) sel -> zlen sel <= local_equations z sel ->
  Forall (fun e => 0 <= e < z) sel.
Proof.
  unfold local_equations. induction 1 as [|e sel He Hs IH]; cbn [List.filter length]; [constructor|].
  pose proof (filter_split_len (fun e => e <? z) sel) as Hsp. cbv beta in Hsp.
  destruct (Z.ltb_spec e z); cbn [length]; intros Hl; [|exfalso; lia]. constructor; [lia|apply IH; lia].
Qed.

Lemma block_groups_local k r z failed : 1 <= k -> 0 <= r -> 1 <= z ->
  Forall (fun b => 0 <= b < k + r + z) failed ->
  zlen failed <= local_equations z (map (block_group k r z) failed).
Proof.
  intros Hk Hr Hz. unfold local_equations. induction 1 as [|b l Hb _ IH]; cbn [map List.filter length]; [lia|].
  pose proof (block_group_range k r z ltac:(lia) Hr Hz b Hb).
  destruct (Z.ltb_spec (block_group k r z b) z); cbn [length]; lia.
Qed.
