(* ===== verification/ShardPlan.v ===== *)
(** Shard assignment of phase-2 repair: [GlrcPhase2ShardPlan::build] of
    [glrc_shard_plan.cpp]. *)
From S2P Require Import Prelude.

Record GlrcShardSlice := {
  shard_id : Z;
  slice_byte_off : Z;
  slice_byte_len : Z }.

Record GlrcPartitionShardPlan := {
  partition_id : Z;
  failed_block_id : Z;
  cluster_id : Z;
  proxy_ip : string;
  proxy_port : Z;
  shard_begin : Z;
  partition_shard_count : Z;
  partition_byte_off : Z;
  partition_byte_len : Z;
  shards : list GlrcShardSlice }.

Record GlrcPhase2ShardPlan := {
  shard_count : Z;
  stripe_byte_len : Z;
  block_size : Z;
  partitions : list GlrcPartitionShardPlan }.

#[export] Instance GlrcShardSlice_inhabited : Inhabited GlrcShardSlice :=
  populate {| shard_id := 0; slice_byte_off := 0; slice_byte_len := 0 |}.
#[export] Instance GlrcPartitionShardPlan_inhabited : Inhabited GlrcPartitionShardPlan :=
  populate {| partition_id := 0; failed_block_id := 0; cluster_id := 0; proxy_ip := ""; proxy_port := 0;
              shard_begin := 0; partition_shard_count := 0; partition_byte_off := 0;
              partition_byte_len := 0; shards := [] |}.
#[export] Instance string_inhabited' : Inhabited string := populate ""%string.

(** One turn of the partition loop.  The products are those of [int]s: they stay
    below the block size as long as the active shards are no more than the global
    ones. *)
Definition make_partition (i shard_cursor cnt stripe : Z) (failed_block_ids failed_cluster_ids : list Z)
    (failed_proxy_ips : list string) (failed_proxy_ports : list Z) : GlrcPartitionShardPlan :=
  {| partition_id := i;
     failed_block_id := failed_block_ids.[i];
     cluster_id := failed_cluster_ids.[i];
     proxy_ip := failed_proxy_ips.[i];
     proxy_port := failed_proxy_ports.[i];
     shard_begin := shard_cursor;
     partition_shard_count := cnt;
     partition_byte_off := shard_cursor * stripe;
     partition_byte_len := cnt * stripe;
     shards := map (fun s => {| shard_id := shard_cursor + s;
                                slice_byte_off := (shard_cursor + s) * stripe;
                                slice_byte_len := stripe |}) (zseq cnt) |}.

(** [inr] carries the error message of a [false] return. *)
Definition build (active_shard_count block_size : Z) (failed_block_ids failed_cluster_ids : list Z)
    (failed_proxy_ips : list string) (failed_proxy_ports : list Z) (global_shard_count : Z)
  : GlrcPhase2ShardPlan + string :=
  let f := zlen failed_block_ids in
  if f <? 1 then inr "empty failure set"%string
  else
    let global_S := if global_shard_count >? 0 then global_shard_count else active_shard_count in
    if (active_shard_count <? 1) || (global_S <? 1) || (block_size <? 1)
    then inr "invalid shard_count or block_size"%string
    else if negb (Z.rem block_size global_S =? 0)
    then inr "BlockSize must be divisible by global shard count"%string
    else if active_shard_count =? 0 then inr "active_shard_count is zero"%string
    else if negb (zlen failed_cluster_ids =? f) || negb (zlen failed_proxy_ips =? f)
            || negb (zlen failed_proxy_ports =? f)
    then inr "partition metadata size mismatch"%string
    else
      let base := active_shard_count ÷ f in
      let rem := Z.rem active_shard_count f in
      let stripe := block_size ÷ global_S in
      let '(parts, _) :=
        for_range 0 f (fun i '(parts, shard_cursor) =>
          let cnt := base + (if i <? rem then 1 else 0) in
          (parts ++ [make_partition i shard_cursor cnt stripe failed_block_ids failed_cluster_ids
                       failed_proxy_ips failed_proxy_ports], shard_cursor + cnt)) ([], 0) in
      inl {| shard_count := active_shard_count; stripe_byte_len := stripe; block_size := block_size;
             partitions := parts |}.

(** * What a plan looks like *)

(** First shard of partition [i] when [a] shards are dealt to [f] partitions. *)
Definition cursor (a f i : Z) : Z := i * (a / f) + Z.min i (a mod f).

Section Assignment.
Context (a f : Z) (Ha : 0 <= a) (Hf : 1 <= f).

Lemma cursor_0 : cursor a f 0 = 0.
Proof. unfold cursor. pose proof (Z.mod_pos_bound a f ltac:(lia)). lia. Qed.

Lemma cursor_f : cursor a f f = a.
Proof.
  unfold cursor. pose proof (Z.mod_pos_bound a f ltac:(lia)). pose proof (Z.div_mod a f ltac:(lia)). lia.
Qed.

Lemma cursor_succ i : 0 <= i < f ->
  cursor a f (i + 1) = cursor a f i + (a ÷ f + (if i <? Z.rem a f then 1 else 0)).
Proof.
  intros Hi. unfold cursor. rewrite Z.quot_div_nonneg, Z.rem_mod_nonneg by lia. zcases.
Qed.

Lemma cursor_mono i j : i <= j -> cursor a f i <= cursor a f j.
Proof. intros. unfold cursor. pose proof (Z.div_pos a f ltac:(lia) ltac:(lia)). nia. Qed.

(** The parts differ by at most one shard. *)
Lemma cursor_balanced i : 0 <= i < f ->
  a / f <= cursor a f (i + 1) - cursor a f i <= a / f + 1.
Proof. intros. unfold cursor. lia. Qed.

(** Every shard has exactly one owner. *)
Lemma cursor_owner s : 0 <= s < a -> exists! i, 0 <= i < f /\ cursor a f i <= s < cursor a f (i + 1).
Proof.
  intros Hs. assert (He : exists i, 0 <= i < f /\ cursor a f i <= s < cursor a f (i + 1)).
  { assert (H : forall m, 0 <= m -> m <= f -> s < cursor a f m ->
      exists i, 0 <= i < m /\ cursor a f i <= s < cursor a f (i + 1)).
    { apply (natlike_ind (fun m => m <= f -> s < cursor a f m -> _)).
      - intros _ H. rewrite cursor_0 in H. lia.
      - intros m Hm IH Hle Hlt. unfold Z.succ in *. destruct (Z.lt_ge_cases s (cursor a f m)) as [H|H].
        + destruct IH as (i & Hi & H'); [lia|exact H|]. exists i. split; [lia|exact H'].
        + exists m. split; [lia|]. split; [exact H|exact Hlt]. }
    apply (H f); try lia. rewrite cursor_f. lia. }
  destruct He as (i & Hi & Hs'). exists i. split; [auto|]. intros j [Hj Hs2].
  destruct (Z.lt_trichotomy i j) as [H|[H|H]]; [|exact H|].
  - pose proof (cursor_mono (i + 1) j ltac:(lia)). lia.
  - pose proof (cursor_mono (j + 1) i ltac:(lia)). lia.
Qed.
End Assignment.

(** Partition [i] owns the shards [cursor i .. cursor (i + 1) - 1]. *)
Lemma build_spec a bs failed clusters ips ports g plan :
  build a bs failed clusters ips ports g = inl plan ->
  let f := zlen failed in
  let gS := if g >? 0 then g else a in
  1 <= f /\ 1 <= a /\ 1 <= gS /\ 1 <= bs /\ (gS | bs) /\
  zlen clusters = f /\ zlen ips = f /\ zlen ports = f /\
  shard_count plan = a /\ stripe_byte_len plan = bs / gS /\ block_size plan = bs /\
  zlen (partitions plan) = f /\
  forall i, 0 <= i < f -> (partitions plan).[i] =
    make_partition i (cursor a f i) (cursor a f (i + 1) - cursor a f i) (bs / gS) failed clusters ips ports.
Proof.
  unfold build. cbv zeta. intros H. destruct (Z.ltb_spec (zlen failed) 1) as [|Hf]; [discriminate|].
  set (gS := if g >? 0 then g else a) in *.
  destruct (Z.ltb_spec a 1), (Z.ltb_spec gS 1), (Z.ltb_spec bs 1); try discriminate. cbn [orb] in H.
  destruct (Z.eqb_spec (Z.rem bs gS) 0) as [Hr|]; [|discriminate]. cbn [negb] in H.
  destruct (Z.eqb_spec a 0); [lia|].
  destruct (Z.eqb_spec (zlen clusters) (zlen failed)), (Z.eqb_spec (zlen ips) (zlen failed)),
    (Z.eqb_spec (zlen ports) (zlen failed)); try discriminate. cbn [negb orb] in H.
  rewrite Z.quot_div_nonneg with (a := bs) in H by lia.
  pose (P := fun m '(parts, c) => c = cursor a (zlen failed) m /\ zlen parts = m /\
      forall i, 0 <= i < m -> parts.[i] = make_partition i (cursor a (zlen failed) i)
        (cursor a (zlen failed) (i + 1) - cursor a (zlen failed) i) (bs / gS) failed clusters ips ports).
  match type of H with context [for_range 0 ?n ?b ?s] => assert (HL : P n (for_range 0 n b s)) end.
  { apply (for_range_ind P); [lia| |].
    - split; [symmetry; apply cursor_0; lia|]. split; [reflexivity|]. intros. lia.
    - intros i [parts c] Hi (-> & Hl & Hp). split; [rewrite cursor_succ by lia; reflexivity|].
      rewrite length_app. cbn [length]. split; [lia|]. intros j Hj. rewrite zget_app by lia.
      destruct (Z.ltb_spec j (zlen parts)); [apply Hp; lia|]. assert (j = i) as -> by lia.
      replace (i - zlen parts) with 0 by lia. rewrite cursor_succ by lia.
      match goal with |- [?x].[0] = _ => change ([x].[0]) with x end. f_equal. lia. }
  destruct (for_range _ _ _ _) as [parts c]. destruct HL as (_ & Hl & Hp). injection H as <-.
  cbn [shard_count stripe_byte_len block_size partitions].
  repeat (split; [first [assumption | lia | reflexivity | (apply Z.rem_divide; lia)]|]). exact Hp.
Qed.
