(* ===== verification/CNum.v ===== *)
(** C++ numbers and number parsing the planners use: [double] as IEEE 754
    binary64 ([SpecFloat]), [size_t] and [int] conversions, [std::lround],
    [std::stoi], [std::to_string]. *)
From S2P Require Import Prelude.
From Stdlib Require Import SpecFloat Ascii.
From Stdlib Require Import DecimalString.

(** * [double] *)

Definition double : Type := spec_float.
Definition dprec : Z := 53.
Definition demax : Z := 1024.

Definition dadd (x y : double) : double := SFadd dprec demax x y.
Definition dsub (x y : double) : double := SFsub dprec demax x y.
Definition dmul (x y : double) : double := SFmul dprec demax x y.
Definition ddiv (x y : double) : double := SFdiv dprec demax x y.
Definition dabs (x : double) : double := SFabs x.
Definition dltb (x y : double) : bool := SFltb x y.
Definition dleb (x y : double) : bool := SFleb x y.
Definition deqb (x y : double) : bool := SFeqb x y.

(** [static_cast<double>(i)] *)
Definition d_of_int (i : Z) : double := binary_normalize dprec demax i 0 false.

(** [std::max(a, b)] is [(a < b) ? b : a], [std::min(a, b)] is [(b < a) ? b : a]. *)
Definition dmax (a b : double) : double := if dltb a b then b else a.
Definition dmin (a b : double) : double := if dltb b a then b else a.

Definition d0 : double := S754_zero false.
Definition d1 : double := d_of_int 1.
Definition d2 : double := d_of_int 2.
(** The literals [1e-12] and [1e300], and [1024.0]. *)
Definition d1em12 : double := ddiv d1 (d_of_int (10 ^ 12)).
Definition d1e300 : double := d_of_int (10 ^ 300).
Definition d1024 : double := d_of_int 1024.

(** * Integer conversions *)

Definition wrap32 (x : Z) : Z := (x + 2 ^ 31) mod 2 ^ 32 - 2 ^ 31.
Definition size_t_of (x : Z) : Z := x mod 2 ^ 64.
Definition size_mul (x y : Z) : Z := (x * y) mod 2 ^ 64.

(** What [std::lround] returns where the standard leaves it unspecified: NaN,
    infinities and values out of range. *)
Class LroundUnspecified := lround_unspecified : double -> Z.

Section Lround.
Context `{LroundUnspecified}.

(** Nearest integer to [m * 2^e], halves away from zero. *)
Definition round_half_away (m : positive) (e : Z) : Z :=
  if 0 <=? e then Z.pos m * 2 ^ e
  else let d := 2 ^ (- e) in (2 * Z.pos m + d) / (2 * d).

Definition lround (x : double) : Z :=
  match x with
  | S754_zero _ => 0
  | S754_finite s m e =>
      let v := if s then - round_half_away m e else round_half_away m e in
      if (- 2 ^ 63 <=? v) && (v <? 2 ^ 63) then v else lround_unspecified x
  | _ => lround_unspecified x
  end.

(** [static_cast<int>(std::lround(x))] *)
Definition lround_int (x : double) : Z := wrap32 (lround x).
End Lround.

(** * Strings *)

(** [std::to_string] of an [int]. *)
Definition int_to_string (i : Z) : string := NilZero.string_of_int (Z.to_int i).

Definition isspace (c : ascii) : bool :=
  let n := nat_of_ascii c in
  (Nat.eqb n 32) || (Nat.leb 9 n && Nat.leb n 13).

Definition digit_of (c : ascii) : option Z :=
  let n := nat_of_ascii c in
  if Nat.leb 48 n && Nat.leb n 57 then Some (Z.of_nat n - 48) else None.

(** Leading digits: their value, their number. *)
Fixpoint read_digits (s : string) (acc count : Z) : Z * Z :=
  match s with
  | EmptyString => (acc, count)
  | String c s' => match digit_of c with
                   | Some d => read_digits s' (acc * 10 + d) (count + 1)
                   | None => (acc, count)
                   end
  end.

Fixpoint skip_spaces (s : string) (count : Z) : string * Z :=
  match s with
  | String c s' => if isspace c then skip_spaces s' (count + 1) else (s, count)
  | EmptyString => (s, count)
  end.

(** An optional sign: whether negative, the rest, the characters consumed. *)
Definition read_sign (s : string) : bool * string * Z :=
  match s with
  | String c s' => if Ascii.eqb c "-" then (true, s', 1)
                   else if Ascii.eqb c "+" then (false, s', 1) else (false, s, 0)
  | EmptyString => (false, s, 0)
  end.

(** [std::stoi(s, &idx)]: the value and [idx], or [None] for the exceptions
    [std::invalid_argument] and [std::out_of_range]. *)
Definition stoi (s : string) : option (Z * Z) :=
  let '(s1, spaces) := skip_spaces s 0 in
  let '(neg, s2, sign) := read_sign s1 in
  let '(v, digits) := read_digits s2 0 0 in
  if digits =? 0 then None
  else
    let v := if (neg : bool) then - v else v in
    if (- 2 ^ 31 <=? v) && (v <? 2 ^ 31) then Some (v, spaces + sign + digits) else None.

(** [std::string::size] *)
Definition str_size (s : string) : Z := Z.of_nat (String.length s).

Lemma wrap32_range x : - 2 ^ 31 <= wrap32 x < 2 ^ 31.
Proof. unfold wrap32. pose proof (Z.mod_pos_bound (x + 2 ^ 31) (2 ^ 32) ltac:(lia)). lia. Qed.

Lemma wrap32_small x : - 2 ^ 31 <= x < 2 ^ 31 -> wrap32 x = x.
Proof. intros. unfold wrap32. rewrite Z.mod_small by lia. lia. Qed.

Lemma stoi_range s v i : stoi s = Some (v, i) -> - 2 ^ 31 <= v < 2 ^ 31.
Proof.
  unfold stoi. destruct (skip_spaces s 0) as [s1 spaces].
  destruct (read_sign s1) as [[neg s2] sign].
  destruct (read_digits s2 0 0) as [v' digits]. destruct (digits =? 0); [discriminate|].
  set (w := if neg then - v' else v'). destruct ((- 2 ^ 31 <=? w) && (w <? 2 ^ 31)) eqn:E; [|discriminate].
  intros [= <- _]. apply andb_true_iff in E as [E1 E2]. apply Z.leb_le in E1. apply Z.ltb_lt in E2. lia.
Qed.

