(* ===== verification/Text.v ===== *)
(** Strings as the code builds and cuts them: lengths, the fields a separator
    delimits ([find], [substr]), and decimal numbers ([to_string], [stoi]). *)
From S2P Require Import Prelude RepairPlan CNum.
From Stdlib Require Import Ascii DecimalString DecimalZ DecimalPos.

Lemma app_cons c (s t : string) : String c s +:+ t = String c (s +:+ t).
Proof. reflexivity. Qed.

Lemma app_empty (t : string) : "" +:+ t = t.
Proof. reflexivity. Qed.

Lemma length_string_app (s1 s2 : string) : String.length (s1 +:+ s2) = (String.length s1 + String.length s2)%nat.
Proof. induction s1 as [|c s1 IH]; [reflexivity|]. exact (f_equal S IH). Qed.

Lemma string_app_assoc (s1 s2 s3 : string) : (s1 +:+ s2) +:+ s3 = s1 +:+ (s2 +:+ s3).
Proof. induction s1 as [|c s1 IH]; [reflexivity|]. exact (f_equal (String c) IH). Qed.

Lemma string_app_nil (s : string) : s +:+ "" = s.
Proof. induction s as [|c s IH]; [reflexivity|]. exact (f_equal (String c) IH). Qed.

Lemma string_app_inj_l (s s1 s2 : string) : s +:+ s1 = s +:+ s2 -> s1 = s2.
Proof. induction s as [|c s IH]; [auto|]. rewrite !app_cons. intros [=]. auto. Qed.

(** * Fields *)

(** [sep] does not occur. *)
Fixpoint free_of (sep : ascii) (s : string) : bool :=
  match s with EmptyString => true | String c s => negb (Ascii.eqb c sep) && free_of sep s end.

(** The text before the first [sep], and the text behind it when there is one. *)
Fixpoint cut_at (sep : ascii) (s : string) : string * option string :=
  match s with
  | EmptyString => (""%string, None)
  | String c s' => if Ascii.eqb c sep then (""%string, Some s')
                   else let '(before, after) := cut_at sep s' in (String c before, after)
  end.

Lemma free_of_app sep s1 s2 : free_of sep (s1 +:+ s2) = free_of sep s1 && free_of sep s2.
Proof. induction s1 as [|c s1 IH]; [reflexivity|]. rewrite app_cons. cbn [free_of]. rewrite IH. apply andb_assoc. Qed.

Lemma cut_at_app sep s1 s2 : free_of sep s1 = true -> cut_at sep (s1 +:+ String sep s2) = (s1, Some s2).
Proof.
  induction s1 as [|c s1 IH]; rewrite ?app_empty, ?app_cons; cbn [cut_at free_of]; [rewrite Ascii.eqb_refl; reflexivity|].
  intros H. apply andb_prop in H as [H1 H2]. apply negb_true_iff in H1. rewrite H1, IH by exact H2. reflexivity.
Qed.

Lemma cut_at_free sep s : free_of sep s = true -> cut_at sep s = (s, None).
Proof.
  induction s as [|c s IH]; cbn [cut_at free_of]; [reflexivity|]. intros H. apply andb_prop in H as [H1 H2].
  apply negb_true_iff in H1. rewrite H1, IH by exact H2. reflexivity.
Qed.

(** The first field and the rest determine the text ... *)
Lemma field_inj sep s1 s2 t1 t2 : free_of sep s1 = true -> free_of sep t1 = true ->
  s1 +:+ String sep s2 = t1 +:+ String sep t2 -> s1 = t1 /\ s2 = t2.
Proof.
  intros Hs Ht E. apply (f_equal (cut_at sep)) in E. rewrite !cut_at_app in E by assumption. injection E. auto.
Qed.

(** ... and so do the last field and what comes before it. *)
Lemma last_field_inj sep s1 s2 t1 t2 : free_of sep s2 = true -> free_of sep t2 = true ->
  s1 +:+ String sep s2 = t1 +:+ String sep t2 -> s1 = t1 /\ s2 = t2.
Proof.
  assert (Hno : forall s x, free_of sep (s +:+ String sep x) = false).
  { intros s x. rewrite free_of_app. cbn [free_of]. rewrite Ascii.eqb_refl. apply andb_false_r. }
  revert t1. induction s1 as [|c s1 IH]; intros [|d t1] Hs Ht E; rewrite ?app_empty, ?app_cons in E; injection E.
  - intros ->. auto.
  - intros -> ->. rewrite Hno in Hs. discriminate.
  - intros <- ->. rewrite Hno in Ht. discriminate.
  - intros E2 ->. destruct (IH t1 Hs Ht E2) as [-> ->]. auto.
Qed.

(** * Decimal numbers *)

(** No digit follows. *)
Definition ends_digits (s : string) : Prop := match s with EmptyString => True | String c _ => digit_of c = None end.

Definition uint_size (d : Decimal.uint) : Z := Z.of_nat (String.length (NilEmpty.string_of_uint d)).

Lemma read_digits_end s acc count : ends_digits s -> read_digits s acc count = (acc, count).
Proof. destruct s as [|c s]; cbn; [reflexivity|]. intros ->. reflexivity. Qed.

Lemma read_digits_cons c s v acc count : digit_of c = Some v -> read_digits (String c s) acc count = read_digits s (acc * 10 + v) (count + 1).
Proof. intros H. cbn [read_digits]. rewrite H. reflexivity. Qed.

Lemma read_digits_pos d : forall acc count s, ends_digits s ->
  read_digits (NilEmpty.string_of_uint d +:+ s) (Z.pos acc) count = (Z.pos (Pos.of_uint_acc d acc), count + uint_size d).
Proof.
  induction d as [|d IH|d IH|d IH|d IH|d IH|d IH|d IH|d IH|d IH|d IH]; intros acc count s Hs; cbn [NilEmpty.string_of_uint Pos.of_uint_acc].
  { rewrite app_empty, read_digits_end by exact Hs. f_equal. unfold uint_size. cbn. lia. }
  all: rewrite app_cons; erewrite read_digits_cons by (cbv; reflexivity);
    match goal with |- read_digits _ ?a _ = (Z.pos (Pos.of_uint_acc ?x ?q), _) => replace a with (Z.pos q) by lia end;
    rewrite IH by exact Hs; f_equal; unfold uint_size; cbn [NilEmpty.string_of_uint String.length]; lia.
Qed.

Lemma read_digits_uint d : forall count s, ends_digits s ->
  read_digits (NilEmpty.string_of_uint d +:+ s) 0 count = (Z.of_N (Pos.of_uint d), count + uint_size d).
Proof.
  induction d as [|d IH|d IH|d IH|d IH|d IH|d IH|d IH|d IH|d IH|d IH]; intros count s Hs; cbn [NilEmpty.string_of_uint Pos.of_uint].
  { rewrite app_empty, read_digits_end by exact Hs. f_equal. unfold uint_size. cbn. lia. }
  all: rewrite app_cons; erewrite read_digits_cons by (cbv; reflexivity); 
    first [rewrite (IH (count + 1) s Hs : read_digits _ (0 * 10 + 0) _ = _)
          |match goal with |- read_digits _ ?a _ = (Z.of_N (N.pos (Pos.of_uint_acc ?x ?q)), _) => change a with (Z.pos q) end;
           rewrite read_digits_pos by exact Hs];
    f_equal; unfold uint_size; cbn [NilEmpty.string_of_uint String.length]; lia.
Qed.

Lemma to_uint_value p : Pos.of_uint (Pos.to_uint p) = N.pos p.
Proof. apply Unsigned.of_to. Qed.

(** The digits of a positive number. *)
Lemma to_string_pos p : to_string (Z.pos p) = NilEmpty.string_of_uint (Pos.to_uint p) /\ 0 < uint_size (Pos.to_uint p).
Proof.
  pose proof (Unsigned.to_uint_nonnil p) as H. unfold to_string, uint_size. cbn [Z.to_int NilZero.string_of_int].
  unfold NilZero.string_of_uint. destruct (Pos.to_uint p); try congruence; (split; [reflexivity|cbn [NilEmpty.string_of_uint String.length]; lia]).
Qed.

Lemma digit_char c v : digit_of c = Some v -> isspace c = false /\ Ascii.eqb c "-" = false /\ Ascii.eqb c "+" = false.
Proof. destruct c as [[] [] [] [] [] [] [] []]; cbn; intros H; try discriminate; auto. Qed.

(** The digits start with a digit. *)
Lemma uint_head d : uint_size d <> 0 -> exists c s v, NilEmpty.string_of_uint d = String c s /\ digit_of c = Some v.
Proof. unfold uint_size. destruct d; cbn [NilEmpty.string_of_uint]; intros H; [exfalso; apply H; reflexivity|..]; do 3 eexists; split; reflexivity. Qed.

Lemma uint_free d sep : digit_of sep = None -> free_of sep (NilEmpty.string_of_uint d) = true.
Proof.
  intros H. assert (Hc : forall c v, digit_of c = Some v -> Ascii.eqb c sep = false).
  { intros c v Hv. apply Ascii.eqb_neq. intros ->. congruence. }
  induction d; cbn [NilEmpty.string_of_uint free_of]; [reflexivity|..]; rewrite IHd; (erewrite Hc; [reflexivity|cbv; reflexivity]).
Qed.

Lemma to_string_neg p : to_string (Z.neg p) = String "-" (NilEmpty.string_of_uint (Pos.to_uint p)).
Proof.
  pose proof (Unsigned.to_uint_nonnil p) as H. unfold to_string. cbn [Z.to_int NilZero.string_of_int].
  unfold NilZero.string_of_uint. destruct (Pos.to_uint p); try congruence; reflexivity.
Qed.

(** No separator occurs in a number. *)
Lemma to_string_free i sep : digit_of sep = None -> Ascii.eqb "-" sep = false -> free_of sep (to_string i) = true.
Proof.
  intros H Hm. destruct i as [|p|p].
  - apply (uint_free (Decimal.D0 Decimal.Nil) sep H).
  - rewrite (proj1 (to_string_pos p)). apply uint_free, H.
  - rewrite to_string_neg. cbn [free_of]. rewrite Hm. apply uint_free, H.
Qed.

(** Reading back what [to_string] printed, whatever text without a leading digit
    follows. *)
Lemma stoi_to_string i s : - 2 ^ 31 <= i < 2 ^ 31 -> ends_digits s ->
  stoi (to_string i +:+ s) = Some (i, Z.of_nat (String.length (to_string i))).
Proof.
  intros Hi Hs. assert (Hrange : (- 2 ^ 31 <=? i) && (i <? 2 ^ 31) = true) by lia.
  assert (Hread : forall d n, uint_size d <> 0 ->
    skip_spaces (NilEmpty.string_of_uint d +:+ s) n = (NilEmpty.string_of_uint d +:+ s, n) /\
    read_sign (NilEmpty.string_of_uint d +:+ s) = (false, NilEmpty.string_of_uint d +:+ s, 0)).
  { intros d n Hd. destruct (uint_head d Hd) as (c & t & v & -> & Hv). destruct (digit_char c v Hv) as (H1 & H2 & H3).
    rewrite app_cons. cbn [skip_spaces read_sign]. rewrite H1, H2, H3. auto. }
  destruct i as [|p|p].
  - unfold stoi. change (to_string 0 +:+ s) with (NilEmpty.string_of_uint (Decimal.D0 Decimal.Nil) +:+ s).
    destruct (Hread (Decimal.D0 Decimal.Nil) 0 ltac:(discriminate)) as [-> ->]. rewrite read_digits_uint by exact Hs. reflexivity.
  - destruct (to_string_pos p) as [-> Hp]. unfold stoi. destruct (Hread (Pos.to_uint p) 0 ltac:(lia)) as [-> ->].
    rewrite read_digits_uint, to_uint_value by exact Hs. cbn [Z.of_N]. rewrite Hrange.
    destruct (Z.eqb_spec (0 + uint_size (Pos.to_uint p)) 0); [lia|]. reflexivity.
  - rewrite to_string_neg, app_cons. unfold stoi. cbn [skip_spaces isspace nat_of_ascii]. 
    pose proof (proj2 (to_string_pos p)) as Hp. change (isspace "-") with false. cbn match. cbn [read_sign Ascii.eqb Bool.eqb].
    rewrite read_digits_uint, to_uint_value by exact Hs. cbn [Z.of_N]. destruct (Z.eqb_spec (0 + uint_size (Pos.to_uint p)) 0); [lia|].
    change (- Z.pos p) with (Z.neg p). rewrite Hrange. f_equal. f_equal. unfold uint_size. cbn [String.length]. lia.
Qed.
