(* ===== verification/Hmbr.v ===== *)
(** Split of a block between repair pipelining and conventional repair:
    [glrc_hmbr_build_shard_split] of [glrc_hmbr.cpp]. *)
From S2P Require Import Prelude CNum.
From Stdlib Require Import SpecFloat.

Record GlrcHmbrShardSplit := {
  global_shard_count : Z;
  stripe_byte_len : Z;
  rp_shard_begin : Z;
  rp_shard_count : Z;
  conv_shard_begin : Z;
  conv_shard_count : Z;
  rp_fraction : double;
  rp_continuous_shards : double;
  rp_estimated_time : double;
  conv_estimated_time : double }.

Definition rp_byte_offset (s : GlrcHmbrShardSplit) : Z := rp_shard_begin s * stripe_byte_len s.
Definition rp_byte_size (s : GlrcHmbrShardSplit) : Z := rp_shard_count s * stripe_byte_len s.
Definition conv_byte_offset (s : GlrcHmbrShardSplit) : Z := conv_shard_begin s * stripe_byte_len s.
Definition conv_byte_size (s : GlrcHmbrShardSplit) : Z := conv_shard_count s * stripe_byte_len s.

Section Split.
Context `{LroundUnspecified}.

(** The "auto" choice: fraction, continuous shard count and rounded count. *)
Definition auto_split (global_shard_count helper_count failed_count : Z)
    (rp_bandwidth_mbps conv_bandwidth_mbps : double) : double * Z :=
  let rp_coef := ddiv (d_of_int failed_count) rp_bandwidth_mbps in
  let conv_coef := ddiv (d_of_int (helper_count + failed_count - 1)) conv_bandwidth_mbps in
  let rp_fraction := ddiv conv_coef (dadd rp_coef conv_coef) in
  let rp_continuous := dmul rp_fraction (d_of_int global_shard_count) in
  (rp_continuous, lround_int rp_continuous).

(** The fields computed once the number of RP shards is known. *)
Definition finish_split (global_shard_count block_size helper_count failed_count : Z)
    (rp_bandwidth_mbps conv_bandwidth_mbps rp_continuous : double) (rp_count : Z)
  : GlrcHmbrShardSplit :=
  let fraction := ddiv (d_of_int rp_count) (d_of_int global_shard_count) in
  let block_megabytes := ddiv (d_of_int block_size) (dmul d1024 d1024) in
  {| global_shard_count := global_shard_count;
     stripe_byte_len := block_size ÷ global_shard_count;
     rp_shard_begin := 0;
     rp_shard_count := rp_count;
     conv_shard_begin := rp_count;
     conv_shard_count := global_shard_count - rp_count;
     rp_fraction := fraction;
     rp_continuous_shards := rp_continuous;
     rp_estimated_time :=
       ddiv (dmul (dmul fraction (d_of_int failed_count)) block_megabytes) rp_bandwidth_mbps;
     conv_estimated_time :=
       dmul (ddiv (dmul (dsub d1 fraction) (d_of_int (helper_count + failed_count - 1)))
               conv_bandwidth_mbps) block_megabytes |}.

(** [inr] carries the error message of a [false] return. *)
Definition glrc_hmbr_build_shard_split (global_shard_count block_size helper_count failed_count : Z)
    (rp_bandwidth_mbps conv_bandwidth_mbps : double) (rp_shard_config : string)
  : GlrcHmbrShardSplit + string :=
  if global_shard_count <? 2 then inr "HMBR-LRC requires GlrcShardCount >= 2"%string
  else if (block_size <? 1) || negb (Z.rem block_size global_shard_count =? 0) then
    inr "HMBR-LRC requires BlockSize divisible by GlrcShardCount"%string
  else if (helper_count <? 1) || (failed_count <? 1)
          || dleb rp_bandwidth_mbps d0 || dleb conv_bandwidth_mbps d0 then
    inr "HMBR-LRC requires positive helper, failure, and bandwidth values"%string
  else
    let automatic := String.eqb rp_shard_config "" || String.eqb rp_shard_config "auto"
                     || String.eqb rp_shard_config "AUTO" in
    if automatic then
      let '(rp_continuous, rounded) :=
        auto_split global_shard_count helper_count failed_count rp_bandwidth_mbps conv_bandwidth_mbps in
      let rp_count := Z.max 1 (Z.min (global_shard_count - 1) rounded) in
      inl (finish_split global_shard_count block_size helper_count failed_count
             rp_bandwidth_mbps conv_bandwidth_mbps rp_continuous rp_count)
    else
      match stoi rp_shard_config with
      | None => inr "GlrcHmbrP must be auto or an integer"%string
      | Some (rp_count, used) =>
          if negb (used =? str_size rp_shard_config) then
            inr "GlrcHmbrP must be auto or an integer"%string
          else if (rp_count <? 1) || (rp_count >=? global_shard_count) then
            inr "fixed GlrcHmbrP must be in [1, GlrcShardCount-1]"%string
          else
            inl (finish_split global_shard_count block_size helper_count failed_count
                   rp_bandwidth_mbps conv_bandwidth_mbps (d_of_int rp_count) rp_count)
      end.

(** Both halves are non-empty and together tile the block, whatever the
    bandwidths and however they round. *)
Lemma hmbr_split_tiles S bs h f brp bconv cfg s :
  glrc_hmbr_build_shard_split S bs h f brp bconv cfg = inl s ->
  global_shard_count s = S /\ stripe_byte_len s * S = bs /\
  1 <= rp_shard_count s <= S - 1 /\ 1 <= conv_shard_count s <= S - 1 /\
  rp_byte_offset s = 0 /\ conv_byte_offset s = rp_byte_size s /\
  conv_byte_offset s + conv_byte_size s = bs.
Proof.
  unfold glrc_hmbr_build_shard_split. destruct (Z.ltb_spec S 2); [discriminate|].
  destruct (Z.ltb_spec bs 1); [discriminate|].
  destruct (Z.eqb_spec (Z.rem bs S) 0) as [Hr|]; [|discriminate]. cbn [negb orb].
  assert (Hb : bs ÷ S * S = bs) by (pose proof (Z.quot_rem' bs S); lia).
  destruct (_ || _ || _ || _); [discriminate|].
  assert (Hfin : forall c n, 1 <= n <= S - 1 -> finish_split S bs h f brp bconv c n = s ->
    global_shard_count s = S /\ stripe_byte_len s * S = bs /\
    1 <= rp_shard_count s <= S - 1 /\ 1 <= conv_shard_count s <= S - 1 /\
    rp_byte_offset s = 0 /\ conv_byte_offset s = rp_byte_size s /\
    conv_byte_offset s + conv_byte_size s = bs).
  { intros c n Hn <-. unfold rp_byte_offset, rp_byte_size, conv_byte_offset, conv_byte_size.
    cbn [global_shard_count stripe_byte_len rp_shard_begin rp_shard_count conv_shard_begin
         conv_shard_count finish_split]. nia. }
  destruct (_ || _ || _).
  - destruct (auto_split S h f brp bconv) as [c n]. intros [= Hs]. exact (Hfin c (Z.max 1 (Z.min (S - 1) n)) ltac:(lia) Hs).
  - destruct (stoi cfg) as [[v used]|]; [|discriminate]. destruct (negb _); [discriminate|].
    destruct (Z.ltb_spec v 1); [discriminate|]. rewrite Z.geb_leb.
    destruct (Z.leb_spec S v); [discriminate|]. cbn [orb]. intros [= Hs]. apply (Hfin _ v ltac:(lia) Hs).
Qed.
End Split.
