(* ===== verification/Hybrid.v ===== *)
(** Choice of the hybrid split point [p]: [glrc_hybrid.cpp], with the transfer
    time estimates of [glrc_repair_ilp.cpp] and [link_bandwidth.h] it uses. *)
From S2P Require Import Prelude CNum Groups RepairPlan ShardPlan.
From Stdlib Require Import SpecFloat.

(** * Transfer times *)

Definition node_block_transfer_seconds (nbytes : Z) (node_block_bandwidth_mbps : double) : double :=
  if dleb node_block_bandwidth_mbps d0 || (nbytes =? 0) then d0
  else ddiv (d_of_int nbytes) (dmul (dmul node_block_bandwidth_mbps d1024) d1024).

Definition glrc_phase2_est_block_read_sec (helper_count block_shard_count stripe_byte_len : Z)
    (link_mbps : double) : double :=
  if (helper_count <? 1) || (block_shard_count <? 1) || (stripe_byte_len <? 1) then d0
  else
    let bytes := size_mul (size_mul (size_t_of helper_count) (size_t_of block_shard_count))
                   (size_t_of stripe_byte_len) in
    node_block_transfer_seconds bytes link_mbps.

Definition glrc_phase2_est_block_exchange_sec (failed_count block_shard_count stripe_byte_len : Z)
    (link_mbps : double) : double :=
  if (failed_count <? 2) || (block_shard_count <? 1) || (stripe_byte_len <? 1) then d0
  else
    let bytes := size_mul (size_mul (size_t_of (failed_count - 1)) (size_t_of block_shard_count))
                   (size_t_of stripe_byte_len) in
    node_block_transfer_seconds bytes link_mbps.

Definition glrc_phase2_est_block_network_sec (helper_count failed_count block_shard_count stripe_byte_len : Z)
    (link_mbps : double) : double :=
  let ex_sec := glrc_phase2_est_block_exchange_sec failed_count block_shard_count stripe_byte_len link_mbps in
  dadd (glrc_phase2_est_block_read_sec helper_count block_shard_count stripe_byte_len link_mbps) ex_sec.

Definition glrc_phase2_est_system_network_sec (helper_count failed_count : Z)
    (partition_shard_counts : list Z) (stripe_byte_len : Z) (link_mbps : double) : double :=
  fold_left (fun est_max shards =>
    dmax est_max (glrc_phase2_est_block_network_sec helper_count failed_count shards stripe_byte_len
                    link_mbps)) partition_shard_counts d0.

(** * Parsing [GlrcHybridP] *)

(** [-2] is auto, [-1] an error (with its message), otherwise the fixed [p]. *)
Definition parse_fixed_p (cfg : string) (global_shard_count : Z) : Z * string :=
  if String.eqb cfg "" then (-1, "empty GlrcHybridP"%string)
  else if String.eqb cfg "auto" || String.eqb cfg "AUTO" then (-2, ""%string)
  else
    match stoi cfg with
    | None => (-1, "invalid GlrcHybridP integer: " +:+ cfg)
    | Some (p, idx) =>
        if negb (idx =? str_size cfg) then (-1, "invalid GlrcHybridP (trailing chars): " +:+ cfg)
        else if (p <? 0) || (p >=? global_shard_count) then
          (-1, "GlrcHybridP out of range [0, S-1]: p=" +:+ int_to_string p +:+ " S=" +:+
               int_to_string global_shard_count)
        else (p, ""%string)
    end.

(** * Partition sizes *)

Definition max_partition_shard_count (p f : Z) : Z :=
  if (f <? 1) || (p <? 1) then 0
  else
    let base := p ÷ f in
    let rem := Z.rem p f in
    base + (if rem >? 0 then 1 else 0).

Definition max_partition_failed_block_id (p f : Z) (failed_block_ids : list Z) : Z :=
  if (zlen failed_block_ids =? 0) || (p <? 1) then -1
  else if f <=? 1 then failed_block_ids.[0]
  else
    let rem := Z.rem p f in
    if rem <=? 0 then failed_block_ids.[0]
    else failed_block_ids.[Z.min (rem - 1) (zlen failed_block_ids - 1)].

Definition hub_in_helper_set (hub_block_id : Z) (plan_ilp : GlrcIlpRepairPlan) : bool :=
  existsb (fun hid => hid =? hub_block_id) (helper_block_ids plan_ilp).

(** * Estimates *)

Definition estimate_full_pipeline_time (f global_shard_count stripe_byte_len block_size : Z)
    (link_mbps : double) (pipeline_local_direct_count : Z) : double :=
  if dleb link_mbps d0 || (global_shard_count <? 1) || (stripe_byte_len <? 1) then d0
  else
    let m := pipeline_local_direct_count in
    let f_hub := Z.max 0 (f - m) in
    let lower := global_shard_count in
    if m =? f then node_block_transfer_seconds (size_t_of block_size) link_mbps
    else
      let t := if (f_hub >? 0) && (lower >? 0) then
                 dadd d0 (node_block_transfer_seconds
                            (size_mul (size_mul (size_t_of f_hub) (size_t_of lower))
                               (size_t_of stripe_byte_len)) link_mbps)
               else d0 in
      if m >? 0 then
        dmax t (node_block_transfer_seconds
                  (size_mul (size_t_of lower) (size_t_of stripe_byte_len)) link_mbps)
      else t.

(** The two estimates [(t_phase2, t_pipeline)]. *)
Definition estimate_hybrid_times (p f global_shard_count stripe_byte_len block_size : Z)
    (link_mbps : double) (plan_ilp : GlrcIlpRepairPlan) (hub_block_id pipeline_local_direct_count : Z)
    (hot_block_id : Z) : double * double :=
  if (f <? 1) || (stripe_byte_len <? 1) || (global_shard_count <? 1) then (d0, d0)
  else if p <=? 0 then
    (d0, estimate_full_pipeline_time f global_shard_count stripe_byte_len block_size link_mbps
           pipeline_local_direct_count)
  else if p >=? global_shard_count then (d0, d0)
  else
    let p_max := max_partition_shard_count p f in
    let h1 := Z.max 1 (helper_block_count plan_ilp) in
    let lower := global_shard_count - p in
    let f_hub := Z.max 0 (f - pipeline_local_direct_count) in
    if dltb d0 link_mbps then
      let t2 := glrc_phase2_est_block_network_sec h1 f p_max stripe_byte_len link_mbps in
      let t2 := if (hot_block_id >=? 0) && (lower >? 0) then
                  dadd t2 (node_block_transfer_seconds
                             (size_mul (size_t_of lower) (size_t_of stripe_byte_len)) link_mbps)
                else t2 in
      let t_hub := if hub_in_helper_set hub_block_id plan_ilp then
                     dadd d0 (node_block_transfer_seconds
                                (size_mul (size_t_of p) (size_t_of stripe_byte_len)) link_mbps)
                   else d0 in
      let t_hub := if (f_hub >? 0) && (lower >? 0) then
                     dadd t_hub (node_block_transfer_seconds
                                   (size_mul (size_mul (size_t_of f_hub) (size_t_of lower))
                                      (size_t_of stripe_byte_len)) link_mbps)
                   else t_hub in
      (t2, t_hub)
    else (d0, d0).

Definition solve_continuous_p (f global_shard_count stripe_byte_len : Z) (link_mbps : double)
    (plan_ilp : GlrcIlpRepairPlan) (hub_block_id hot_block_id pipeline_local_direct_count : Z) : double :=
  let half := ddiv (d_of_int global_shard_count) d2 in
  if dleb link_mbps d0 || (f <? 1) || (global_shard_count <? 2) || (stripe_byte_len <? 1) then half
  else
    let f_hub := Z.max 0 (f - pipeline_local_direct_count) in
    let sigma := d_of_int stripe_byte_len in
    let inv_b := ddiv sigma link_mbps in
    let h1 := Z.max 1 (helper_block_count plan_ilp) in
    let a2 := ddiv (dmul (d_of_int (h1 + f - 1)) inv_b) (d_of_int f) in
    let hot_pipe_slope := if hot_block_id >=? 0 then inv_b else d0 in
    let hub_helper_slope := if hub_in_helper_set hub_block_id plan_ilp then inv_b else d0 in
    let hub_chain_slope := if f_hub >? 0 then dmul (d_of_int f_hub) inv_b else d0 in
    let hot_slope := dsub a2 hot_pipe_slope in
    let hub_slope := dsub hub_helper_slope hub_chain_slope in
    let hot_intercept := dmul hot_pipe_slope (d_of_int global_shard_count) in
    let hub_intercept := dmul hub_chain_slope (d_of_int global_shard_count) in
    let denom := dsub hot_slope hub_slope in
    if dltb (dabs denom) d1em12 then half
    else
      let p_star := ddiv (dsub hub_intercept hot_intercept) denom in
      dmax d0 (dmin (d_of_int (global_shard_count - 1)) p_star).

(** * The search *)

Record search_best := { best_score : double; best_p : Z; best_t2 : double; best_tp : double }.

Section Choose.
Context `{LroundUnspecified}.

(** [for (p = start; p >= 0 && p <= hi; p += direction)]; [fuel] bounds the
    number of turns, at most [hi + 2]. *)
Fixpoint discretize_loop (fuel : nat) (evaluate : Z -> double * double) (hi start direction p : Z)
    (phase2_dominates_at_start : bool) (p_continuous : double) (best : search_best) : search_best :=
  match fuel with
  | O => best
  | S fuel' =>
      if (p >=? 0) && (p <=? hi) then
        let '(t2, tp) := evaluate p in
        let s := dmax t2 tp in
        let best :=
          if dltb s (best_score best)
             || (deqb s (best_score best)
                 && dltb (dabs (dsub (d_of_int p) p_continuous))
                      (dabs (dsub (d_of_int (best_p best)) p_continuous)))
          then {| best_score := s; best_p := p; best_t2 := t2; best_tp := tp |} else best in
        let phase2_dominates := dltb tp t2 in
        if negb (p =? start) && negb (Bool.eqb phase2_dominates phase2_dominates_at_start) then best
        else discretize_loop fuel' evaluate hi start direction (p + direction)
               phase2_dominates_at_start p_continuous best
      else best
  end.

(** [(p, t_phase2, t_pipeline)] *)
Definition discretize_p (p_continuous : double) (global_shard_count f block_size stripe_byte_len : Z)
    (link_mbps : double) (plan_ilp : GlrcIlpRepairPlan) (hub_block_id pipeline_local_direct_count : Z)
    (failed_block_ids : list Z) : Z * double * double :=
  let hi := global_shard_count - 1 in
  let start := Z.max 1 (Z.min hi (lround_int p_continuous)) in
  let evaluate := fun p =>
    estimate_hybrid_times p f global_shard_count stripe_byte_len block_size link_mbps plan_ilp
      hub_block_id pipeline_local_direct_count (max_partition_failed_block_id p f failed_block_ids) in
  let '(start_t2, start_tp) := evaluate start in
  if dltb (dabs (dsub start_t2 start_tp)) d1em12 then (start, start_t2, start_tp)
  else
    let phase2_dominates_at_start := dltb start_tp start_t2 in
    let direction := if phase2_dominates_at_start then -1 else 1 in
    let b := discretize_loop (Z.to_nat (hi + 2)) evaluate hi start direction start
               phase2_dominates_at_start p_continuous
               {| best_score := d1e300; best_p := start; best_t2 := d0; best_tp := d0 |} in
    (best_p b, best_t2 b, best_tp b).

Record GlrcHybridChooseResult := {
  res_success : bool;
  res_p : Z;
  t_phase2_est_sec : double;
  t_pipeline_est_sec : double;
  res_p_continuous : double;
  res_max_partition_failed_block_id : Z;
  res_error_message : string }.

Definition choose_error (msg : string) (p : Z) (p_continuous : double) : GlrcHybridChooseResult :=
  {| res_success := false; res_p := p; t_phase2_est_sec := d0; t_pipeline_est_sec := d0;
     res_p_continuous := p_continuous; res_max_partition_failed_block_id := -1;
     res_error_message := msg |}.

(** [plan_ilp] is a pointer that may be null. *)
Definition glrc_hybrid_choose_p (k r z f global_shard_count block_size : Z) (link_mbps : double)
    (plan_ilp : option GlrcIlpRepairPlan) (hub_block_id pipeline_local_direct_count : Z)
    (failed_block_ids : list Z) (hybrid_p_config : string) : GlrcHybridChooseResult :=
  if (f <? 1) || (global_shard_count <? 1) || (block_size <? 1)
     || negb (Z.rem block_size global_shard_count =? 0)
  then choose_error "invalid hybrid choose_p dimensions" 0 d0
  else
    let stripe_byte_len := block_size ÷ global_shard_count in
    let '(fixed_p, parse_err) := parse_fixed_p hybrid_p_config global_shard_count in
    let pipeline_only p_continuous :=
      {| res_success := true; res_p := 0; t_phase2_est_sec := d0;
         t_pipeline_est_sec := estimate_full_pipeline_time f global_shard_count stripe_byte_len
                                 block_size link_mbps pipeline_local_direct_count;
         res_p_continuous := p_continuous; res_max_partition_failed_block_id := -1;
         res_error_message := ""%string |} in
    if fixed_p >=? 0 then
      if fixed_p =? 0 then pipeline_only (d_of_int 0)
      else
        match plan_ilp with
        | Some plan =>
            if success plan then
              let hot := max_partition_failed_block_id fixed_p f failed_block_ids in
              let '(t2, tp) := estimate_hybrid_times fixed_p f global_shard_count stripe_byte_len
                                 block_size link_mbps plan hub_block_id pipeline_local_direct_count hot in
              {| res_success := true; res_p := fixed_p; t_phase2_est_sec := t2;
                 t_pipeline_est_sec := tp; res_p_continuous := d_of_int fixed_p;
                 res_max_partition_failed_block_id := hot; res_error_message := ""%string |}
            else choose_error "fixed p>0 requires successful ILP plan" fixed_p (d_of_int fixed_p)
        | None => choose_error "fixed p>0 requires successful ILP plan" fixed_p (d_of_int fixed_p)
        end
    else if negb (fixed_p =? -2) then
      choose_error (if String.eqb parse_err "" then "invalid GlrcHybridP"%string else parse_err) 0 d0
    else if glrc_failures_at_most_one_per_group k r z failed_block_ids then pipeline_only d0
    else
      match plan_ilp with
      | Some plan =>
          if success plan then
            let hot_guess := max_partition_failed_block_id (global_shard_count ÷ 2) f failed_block_ids in
            let p_continuous := solve_continuous_p f global_shard_count stripe_byte_len link_mbps plan
                                  hub_block_id hot_guess pipeline_local_direct_count in
            let '(p, t2, tp) := discretize_p p_continuous global_shard_count f block_size stripe_byte_len
                                  link_mbps plan hub_block_id pipeline_local_direct_count
                                  failed_block_ids in
            {| res_success := true; res_p := p; t_phase2_est_sec := t2; t_pipeline_est_sec := tp;
               res_p_continuous := p_continuous;
               res_max_partition_failed_block_id :=
                 max_partition_failed_block_id p f failed_block_ids;
               res_error_message := ""%string |}
          else choose_error "auto choose_p requires successful ILP plan when p may exceed 0" 0 d0
      | None => choose_error "auto choose_p requires successful ILP plan when p may exceed 0" 0 d0
      end.
End Choose.

(** * Properties *)

Lemma parse_fixed_p_spec cfg S : let p := fst (parse_fixed_p cfg S) in
  p = -2 /\ (cfg = "auto" \/ cfg = "AUTO")%string \/ p = -1 \/ 0 <= p < S /\ stoi cfg = Some (p, str_size cfg).
Proof.
  cbv zeta. unfold parse_fixed_p. destruct (String.eqb_spec cfg ""); [auto|].
  destruct (String.eqb_spec cfg "auto"); [auto|]. destruct (String.eqb_spec cfg "AUTO"); [auto|]. cbn [orb].
  destruct (stoi cfg) as [[p idx]|]; [|auto].
  destruct (Z.eqb_spec idx (str_size cfg)) as [->|]; cbn [negb]; [|auto].
  rewrite Z.geb_leb. destruct (Z.ltb_spec p 0), (Z.leb_spec S p); cbn [orb fst]; auto.
Qed.

(** [max_partition_shard_count] is the largest part of the shard assignment and
    [max_partition_failed_block_id] names a block that owns it. *)
Lemma max_partition_spec p failed : 1 <= p -> failed <> [] ->
  let f := zlen failed in
  (forall i, 0 <= i < f -> cursor p f (i + 1) - cursor p f i <= max_partition_shard_count p f) /\
  exists i, 0 <= i < f /\ max_partition_failed_block_id p f failed = failed.[i] /\
            cursor p f (i + 1) - cursor p f i = max_partition_shard_count p f.
Proof.
  intros Hp Hne. cbv zeta. assert (Hf : 1 <= zlen failed) by (destruct failed; [contradiction|cbn [length]; lia]).
  revert Hf. generalize (eq_refl (zlen failed)). generalize (zlen failed) at -1. intros f Ef Hf.
  pose proof (Z.mod_pos_bound p f ltac:(lia)) as Hm.
  assert (Hc : forall i, cursor p f (i + 1) - cursor p f i = p / f + (if i <? p mod f then 1 else 0)).
  { intros i. unfold cursor. zcases. }
  unfold max_partition_shard_count, max_partition_failed_block_id. rewrite Ef.
  destruct (Z.ltb_spec f 1), (Z.ltb_spec p 1), (Z.eqb_spec f 0); try lia. cbn [orb].
  rewrite Z.quot_div_nonneg, Z.rem_mod_nonneg by lia. split.
  { intros i Hi. rewrite Hc. zcases. }
  destruct (Z.leb_spec f 1) as [Hf1|Hf1].
  { exists 0. split; [lia|]. split; [reflexivity|]. rewrite Hc. assert (f = 1) as -> by lia.
    rewrite Z.mod_1_r. zcases. }
  destruct (Z.leb_spec (p mod f) 0) as [Hm0|Hm0].
  - exists 0. split; [lia|]. split; [reflexivity|]. rewrite Hc. zcases.
  - exists (p mod f - 1). split; [lia|]. split; [f_equal; lia|]. rewrite Hc. zcases.
Qed.

Section Search.
Context `{LroundUnspecified}.

(** The loop only ever selects points of the range. *)
Lemma discretize_loop_range fuel ev hi start dir p dom pc best :
  0 <= best_p best <= hi -> 0 <= best_p (discretize_loop fuel ev hi start dir p dom pc best) <= hi.
Proof.
  revert p best. induction fuel as [|fuel IH]; intros p best Hb; cbn [discretize_loop]; [exact Hb|].
  destruct (Z.geb_spec p 0), (Z.leb_spec p hi); cbn [andb]; try exact Hb.
  destruct (ev p) as [t2 tp]. match goal with |- context [if ?c then Build_search_best _ _ _ _ else best] =>
    destruct c end; destruct (negb _ && negb _); cbn [best_p]; try apply IH; cbn [best_p]; lia.
Qed.

(** Turns left before [p] leaves the range. *)
Definition turns_left (hi dir p : Z) : Z := if dir =? 1 then hi - p + 1 else p + 1.

(** The loop terminates: any fuel beyond the turns left gives its result. *)
Lemma discretize_loop_fuel fuel fuel' ev hi start dir p dom pc best :
  dir = 1 \/ dir = -1 -> turns_left hi dir p < Z.of_nat fuel -> turns_left hi dir p < Z.of_nat fuel' ->
  discretize_loop fuel ev hi start dir p dom pc best = discretize_loop fuel' ev hi start dir p dom pc best.
Proof.
  intros Hd. revert fuel' p best. induction fuel as [|fuel IH]; intros fuel' p best H1 H2.
  - destruct fuel' as [|fuel']; [reflexivity|]. cbn [discretize_loop]. unfold turns_left in H1.
    destruct (Z.geb_spec p 0), (Z.leb_spec p hi); cbn [andb]; try reflexivity.
    destruct Hd as [->| ->]; cbn in H1; lia.
  - destruct fuel' as [|fuel'].
    + cbn [discretize_loop]. unfold turns_left in H2.
      destruct (Z.geb_spec p 0), (Z.leb_spec p hi); cbn [andb]; try reflexivity.
      destruct Hd as [->| ->]; cbn in H2; lia.
    + cbn [discretize_loop]. destruct ((p >=? 0) && (p <=? hi)); [|reflexivity].
      destruct (ev p) as [t2 tp]. destruct (negb _ && negb _); [reflexivity|].
      apply IH; unfold turns_left in *; destruct Hd as [->| ->]; cbn in *; lia.
Qed.

Lemma discretize_p_range pc S f bs stripe link plan hub m failed : 2 <= S ->
  0 <= fst (fst (discretize_p pc S f bs stripe link plan hub m failed)) < S.
Proof.
  intros HS. unfold discretize_p. set (start := Z.max 1 (Z.min (S - 1) (lround_int pc))).
  assert (Hs : 0 <= start <= S - 1) by lia. clearbody start.
  destruct (estimate_hybrid_times start _ _ _ _ _ _ _ _ _) as [t2 tp].
  destruct (dltb _ _); cbn [fst]; [lia|].
  match goal with |- context [discretize_loop ?a ?b ?c ?d ?e ?g ?h ?i ?j] =>
    pose proof (discretize_loop_range a b c d e g h i j) as Hr end.
  cbn [best_p] in Hr. specialize (Hr Hs). lia.
Qed.

(** The single-shard case escapes the range: [start] is 1 although [hi] is 0. *)
Lemma discretize_p_single pc f bs stripe link plan hub m failed : 1 <= f -> 1 <= stripe ->
  discretize_p pc 1 f bs stripe link plan hub m failed = (1, d0, d0).
Proof.
  intros Hf Hst. unfold discretize_p.
  replace (Z.max 1 (Z.min (1 - 1) (lround_int pc))) with 1 by lia.
  unfold estimate_hybrid_times at 1. destruct (Z.ltb_spec f 1), (Z.ltb_spec stripe 1); try lia.
  reflexivity.
Qed.

(** A successful choice lies in [0, S-1], or the block is a single shard. *)
Lemma choose_p_range k r z f S bs link plan hub m failed cfg :
  let res := glrc_hybrid_choose_p k r z f S bs link plan hub m failed cfg in
  res_success res = true -> 0 <= res_p res < S \/ S = 1 /\ res_p res = 1.
Proof.
  cbv zeta. unfold glrc_hybrid_choose_p.
  destruct (Z.ltb_spec f 1); [discriminate|]. destruct (Z.ltb_spec S 1); [discriminate|].
  destruct (Z.ltb_spec bs 1); [discriminate|]. destruct (Z.eqb_spec (Z.rem bs S) 0) as [Hr|]; [|discriminate].
  cbn [orb negb]. pose proof (parse_fixed_p_spec cfg S) as Hp. cbv zeta in Hp.
  destruct (parse_fixed_p cfg S) as [p err]. cbn [fst] in Hp.
  destruct (Z.geb_spec p 0) as [Hp0|Hp0].
  { destruct Hp as [[? _]|[?|[Hp _]]]; try lia. destruct (Z.eqb_spec p 0); [intros _; left; cbn; lia|].
    destruct plan as [plan|]; [|discriminate]. destruct (success plan); [|discriminate].
    destruct (estimate_hybrid_times _ _ _ _ _ _ _ _ _ _) as [t2 tp]. intros _. left. exact Hp. }
  destruct (p =? -2); cbn [negb]; [|discriminate].
  destruct (glrc_failures_at_most_one_per_group k r z failed); [intros _; left; cbn; lia|].
  destruct plan as [plan|]; [|discriminate]. destruct (success plan); [|discriminate].
  destruct (Z.eq_dec S 1) as [->|HS].
  - rewrite discretize_p_single; [intros _; right; split; reflexivity|lia|].
    rewrite Z.quot_1_r. lia.
  - match goal with |- context [discretize_p ?a S ?b ?c ?d ?e ?g ?h ?i ?j] =>
      pose proof (discretize_p_range a S b c d e g h i j ltac:(lia)) as Hd;
      destruct (discretize_p a S b c d e g h i j) as [[q t2] tp] end.
    intros _. left. exact Hd.
Qed.
End Search.
