(* ===== verification/PipelineCodec.v ===== *)
(** Accumulation of a recovery equation along a repair pipeline:
    [glrc_pipeline_codec.cpp]. *)
From S2P Require Import Prelude GF256 LinAlg GFMatrix EcKernel Groups Codes Decode DecodeSpec.
From S2P Require Import CNum.
From Stdlib Require Import Field.

Inductive GlrcPipelineEqCodec := LOCAL_LINEAR | GLOBAL_CAUCHY.

#[export] Instance GlrcPipelineEqCodec_eq_dec : EqDecision GlrcPipelineEqCodec.
Proof. solve_decision. Defined.

(** * Coefficient rows *)

Definition build_coef_row_impl (k r z n eq_index : Z) (encode_matrix : list byte)
    (groups : list (list Z)) : list byte :=
  let coef_row := zrepeat x00 n in
  if eq_index <? z then
    fold_left (fun row b => row.[b <- glrc_local_block_coefficient b k r]) groups.[eq_index] coef_row
  else
    let g := eq_index - z in
    let coef_row := for_range 0 k (fun i row => row.[i <- encode_matrix.[(k + g) * k + i]]) coef_row in
    coef_row.[k + g <- x01].

Definition glrc_pipeline_build_coef_row (k r z eq_index : Z) : list byte :=
  let n := k + r + z in
  let groups := glrc_build_placement_groups k r z in
  let encode_matrix := gen_glrc_matrix (new_bytes ((k + r + z) * k)) k r z in
  build_coef_row_impl k r z n eq_index encode_matrix groups.

Definition glrc_pipeline_equation_codec (k r z eq_index : Z) : GlrcPipelineEqCodec :=
  if (eq_index >=? 0) && (eq_index <? z) then LOCAL_LINEAR
  else if (eq_index >=? z) && (eq_index <? z + r) then GLOBAL_CAUCHY
  else LOCAL_LINEAR.

(** The first block of [bs] at which the rows differ. *)
Definition first_mismatch (row expect : Z -> byte) (bs : list Z) : option Z :=
  find (fun b => negb (Byte.eqb (row b) (expect b))) bs.

(** [None] is [return true]; [Some] carries the error message. *)
Definition glrc_pipeline_verify_coef_row (k r z eq_index : Z) (coef_row : list byte) : option string :=
  let n := k + r + z in
  if negb (zlen coef_row =? n) then Some "coef_row size mismatch"%string
  else
    let expect := glrc_pipeline_build_coef_row k r z eq_index in
    let row := fun b => coef_row.[b] in
    if eq_index <? z then
      match first_mismatch row (fun b => glrc_local_block_coefficient b k r)
              (glrc_build_placement_groups k r z).[eq_index] with
      | Some b => Some ("local equation L" +:+ int_to_string eq_index +:+ " block " +:+ int_to_string b
                        +:+ " coef=" +:+ int_to_string (byte_to_Z (row b)) +:+ " expected=" +:+
                        int_to_string (byte_to_Z (glrc_local_block_coefficient b k r)))
      | None =>
          match first_mismatch row (fun b => expect.[b]) (zseq n) with
          | Some b => Some ("local coef row mismatch at block " +:+ int_to_string b)
          | None => None
          end
      end
    else
      let g := eq_index - z in
      if negb (Byte.eqb (row (k + g)) x01) then
        Some ("global equation G" +:+ int_to_string g +:+ " parity coef must be 1")
      else
        match first_mismatch row (fun b => expect.[b]) (zseq n) with
        | Some b => Some ("global Cauchy coef mismatch at block " +:+ int_to_string b)
        | None => None
        end.

(** * Accumulation *)

Definition glrc_pipeline_accumulate_byte (dst src coef : byte) (codec : GlrcPipelineEqCodec) : byte :=
  if Byte.eqb coef x00 then dst
  else match codec with
       | LOCAL_LINEAR => if negb (Byte.eqb coef x01) then dst ⊕ gf_mul coef src else dst ⊕ src
       | GLOBAL_CAUCHY => dst ⊕ gf_mul coef src
       end.

Definition glrc_pipeline_accumulate_range (dst src : list byte) (coef : byte) (len : Z)
    (codec : GlrcPipelineEqCodec) : list byte :=
  if Byte.eqb coef x00 || (len <=? 0) then dst
  else if bool_decide (codec = LOCAL_LINEAR) && Byte.eqb coef x01 then
    for_range 0 len (fun i dst => dst.[i <- dst.[i] ⊕ src.[i]]) dst
  else
    for_range 0 len (fun i dst =>
      dst.[i <- glrc_pipeline_accumulate_byte dst.[i] src.[i] coef codec]) dst.

Definition glrc_pipeline_init_partial_range (acc src : list byte) (coef : byte) (len : Z)
    (codec : GlrcPipelineEqCodec) : list byte :=
  if len <=? 0 then acc
  else match codec with
       | LOCAL_LINEAR =>
           if negb (Byte.eqb coef x01)
           then for_range 0 len (fun i acc => acc.[i <- gf_mul coef src.[i]]) acc
           else for_range 0 len (fun i acc => acc.[i <- src.[i]]) acc
       | GLOBAL_CAUCHY => for_range 0 len (fun i acc => acc.[i <- gf_mul coef src.[i]]) acc
       end.

(** * Rows *)

(** The pipeline and the central decoder use the same system. *)
Lemma pipeline_row_is_decoder_row k r z e :
  glrc_pipeline_build_coef_row k r z e =
  build_block_coef_row k r z (k + r + z) e (glrc_encode_matrix k r z) (glrc_build_placement_groups k r z).
Proof. reflexivity. Qed.

Lemma byte_eqb_spec a b : reflect (a = b) (Byte.eqb a b).
Proof.
  destruct (Byte.eqb a b) eqn:E; constructor; [apply byte_dec_bl, E|].
  intros ->. rewrite byte_dec_lb in E by reflexivity. discriminate.
Qed.

Lemma first_mismatch_none row expect bs :
  first_mismatch row expect bs = None <-> forall b, In b bs -> row b = expect b.
Proof.
  unfold first_mismatch. split.
  - intros H b Hb. pose proof (find_none _ _ H b Hb) as Hn. cbv beta in Hn.
    destruct (byte_eqb_spec (row b) (expect b)); [assumption|discriminate].
  - intros H. destruct (find _ bs) as [b|] eqn:E; [|reflexivity].
    apply find_some in E as [Hb Hn]. rewrite (H b Hb) in Hn.
    destruct (byte_eqb_spec (expect b) (expect b)); [discriminate|contradiction].
Qed.

Section Rows.
Context (k r z : Z) (Hk : 1 <= k) (Hr : 0 <= r) (Hz : 1 <= z).

(** The check accepts exactly the row of the equation. *)
Lemma verify_coef_row_spec e row : 0 <= e < z + r ->
  glrc_pipeline_verify_coef_row k r z e row = None <-> row = glrc_pipeline_build_coef_row k r z e.
Proof.
  intros He. destruct (coef_row_spec k r z Hk Hr Hz e He) as [Hl Hget].
  rewrite <- pipeline_row_is_decoder_row in Hl, Hget.
  set (exp := glrc_pipeline_build_coef_row k r z e) in *.
  assert (Hall : zlen row = k + r + z -> (row = exp <-> forall b, In b (zseq (k + r + z)) -> row.[b] = exp.[b])).
  { intros Hlr. split; [intros -> ; reflexivity|]. intros H. apply zlist_ext; [lia|].
    intros i Hi. apply H, in_zseq. lia. }
  unfold glrc_pipeline_verify_coef_row. fold exp.
  destruct (Z.eqb_spec (zlen row) (k + r + z)) as [Hlr|Hlr]; cbn [negb].
  2: { split; [discriminate|]. intros ->. contradiction. }
  rewrite Hall by exact Hlr. rewrite <- (first_mismatch_none (fun b => row.[b]) (fun b => exp.[b])).
  destruct (Z.ltb_spec e z) as [Hez|Hez].
  - destruct (first_mismatch (fun b => row.[b]) (fun b => exp.[b]) _) as [b|] eqn:E.
    + split; [|discriminate]. intros H0. exfalso. revert H0. case_match; discriminate.
    + split; [reflexivity|]. intros _. rewrite (proj2 (first_mismatch_none _ _ _)); [reflexivity|].
      intros b Hb. pose proof (placement_group_range k r z ltac:(lia) Hr Hz e b ltac:(lia) Hb) as Hbr.
      rewrite (proj1 (first_mismatch_none _ _ _) E) by (apply in_zseq, Hbr). rewrite Hget by exact Hbr.
      unfold glrc_eq_coef. destruct (Z.ltb_spec e z); [|lia].
      apply placement_group_iff in Hb; try lia. rewrite Hb, Z.eqb_refl. reflexivity.
  - destruct (first_mismatch (fun b => row.[b]) (fun b => exp.[b]) _) as [b|] eqn:E.
    + cbv zeta. split; [|discriminate]. intros H0. exfalso. revert H0. case_match; discriminate.
    + split; [reflexivity|]. intros _. destruct (byte_eqb_spec row.[k + (e - z)] x01) as [_|Hn]; [reflexivity|].
      exfalso. apply Hn. rewrite (proj1 (first_mismatch_none _ _ _) E) by (apply in_zseq; lia).
      rewrite Hget by lia. unfold glrc_eq_coef. zcases; reflexivity.
Qed.
End Rows.

(** * Ranges *)

Lemma accumulate_byte_eq dst src coef codec :
  glrc_pipeline_accumulate_byte dst src coef codec = dst ⊕ coef ⊗ src.
Proof.
  unfold glrc_pipeline_accumulate_byte. destruct (byte_eqb_spec coef x00) as [->|_]; [ring|].
  destruct codec; [|reflexivity]. destruct (byte_eqb_spec coef x01) as [->|_]; cbn [negb]; [ring|reflexivity].
Qed.

(** A loop that rewrites each of the first [len] bytes from its old value. *)
Lemma map_range_spec (f : byte -> Z -> byte) (a : list byte) len : 0 <= len <= zlen a ->
  let a' := for_range 0 len (fun i a => a.[i <- f a.[i] i]) a in
  zlen a' = zlen a /\ forall i, 0 <= i -> a'.[i] = if i <? len then f a.[i] i else a.[i].
Proof.
  intros Hl. cbv zeta.
  pose (P := fun n (b : list byte) => zlen b = zlen a /\ forall i, 0 <= i ->
    b.[i] = if i <? n then f a.[i] i else a.[i]).
  change (P len (for_range 0 len (fun i a => a.[i <- f a.[i] i]) a)).
  apply (for_range_ind P); [lia| |].
  - split; [reflexivity|]. intros i Hi. zcases. reflexivity.
  - intros n b Hn [H1 H2]. split; [rewrite zlen_zset; exact H1|]. intros i Hi.
    rewrite zget_zset by lia. rewrite !H2 by lia.
    destruct (Z.eqb_spec i n) as [->|]; zcases; reflexivity.
Qed.

Lemma accumulate_range_spec dst src coef len codec : len <= zlen dst ->
  let d := glrc_pipeline_accumulate_range dst src coef len codec in
  zlen d = zlen dst /\ forall i, 0 <= i -> d.[i] = if i <? len then dst.[i] ⊕ coef ⊗ src.[i] else dst.[i].
Proof.
  intros Hl. cbv zeta. unfold glrc_pipeline_accumulate_range.
  destruct (byte_eqb_spec coef x00) as [->|_]; cbn [orb].
  { split; [reflexivity|]. intros i Hi. destruct (i <? len); ring. }
  destruct (Z.leb_spec len 0).
  { split; [reflexivity|]. intros i Hi. zcases. reflexivity. }
  assert (Hgen : forall f : byte -> Z -> byte, (forall x i, f x i = x ⊕ coef ⊗ src.[i]) ->
    let d := for_range 0 len (fun i a => a.[i <- f a.[i] i]) dst in
    zlen d = zlen dst /\ forall i, 0 <= i -> d.[i] = if i <? len then dst.[i] ⊕ coef ⊗ src.[i] else dst.[i]).
  { intros f Hf. destruct (map_range_spec f dst len ltac:(lia)) as [H1 H2]. split; [exact H1|].
    intros i Hi. rewrite H2, Hf by exact Hi. reflexivity. }
  destruct (bool_decide _ && _) eqn:E.
  - apply andb_true_iff in E as [_ E]. apply byte_dec_bl in E. subst coef.
    apply (Hgen (fun x i => x ⊕ src.[i])). intros. ring.
  - apply (Hgen (fun x i => glrc_pipeline_accumulate_byte x src.[i] coef codec)). intros.
    apply accumulate_byte_eq.
Qed.

Lemma init_partial_range_spec acc src coef len codec : len <= zlen acc ->
  let a := glrc_pipeline_init_partial_range acc src coef len codec in
  zlen a = zlen acc /\ forall i, 0 <= i -> a.[i] = if i <? len then coef ⊗ src.[i] else acc.[i].
Proof.
  intros Hl. cbv zeta. unfold glrc_pipeline_init_partial_range. destruct (Z.leb_spec len 0).
  { split; [reflexivity|]. intros i Hi. zcases. reflexivity. }
  assert (Hmul := map_range_spec (fun _ i => coef ⊗ src.[i]) acc len ltac:(lia)). cbv zeta in Hmul.
  destruct codec; [|exact Hmul]. destruct (byte_eqb_spec coef x01) as [->|_]; cbn [negb]; [|exact Hmul].
  destruct (map_range_spec (fun _ i => src.[i]) acc len ltac:(lia)) as [H1 H2]. split; [exact H1|].
  intros i Hi. rewrite H2 by exact Hi. destruct (i <? len); [|reflexivity]. ring.
Qed.
