(* ===== verification/PipelinePlan.v ===== *)
(** Repair chains: [glrc_build_pipeline_plan] of [glrc_pipeline_plan.cpp], and
    what a chain computes when every hop adds its weighted block. *)
From S2P Require Import Prelude GF256 LinAlg GFMatrix EcKernel Groups Codes Decode DecodeSpec.
From S2P Require Import LocalRepair CNum RepairPlan RepairPlanSpec RepairGuarantee.
From S2P Require Import PipelineCodec.
From Stdlib Require Import Field.

Record GlrcPipelineHopInfo := {
  hop_block_id : Z;
  hop_node_id : Z;
  hop_datanode_ip : string;
  hop_datanode_port : Z;
  hop_proxy_ip : string;
  hop_proxy_port : Z;
  hop_block_key : string;
  hop_coef : byte }.

Record GlrcPipelineChainPlan := {
  chain_id : Z;
  equation_index : Z;
  eq_slot : Z;
  equation_name : string;
  local_direct : bool;
  local_direct_failed_block_id : Z;
  local_direct_failed_block_key : string;
  local_direct_replaced_ip : string;
  local_direct_replaced_port : Z;
  local_direct_sink_proxy_ip : string;
  local_direct_sink_proxy_port : Z;
  hops : list GlrcPipelineHopInfo;
  hub_is_chain_tail : bool;
  hub_in_equation : bool }.

Record GlrcPipelinePlan := {
  plan_hub_block_id : Z;
  hub_proxy_ip : string;
  hub_proxy_port : Z;
  hub_datanode_ip : string;
  hub_datanode_port : Z;
  hub_block_key : string;
  hub_coef : byte;
  exchange_epoch : Z;
  hub_chains : list GlrcPipelineChainPlan;
  local_direct_chains : list GlrcPipelineChainPlan }.

Record GlrcPipelineNodeLookup := {
  node_id : Z;
  datanode_ip : string;
  datanode_port : Z;
  proxy_ip : string;
  proxy_port : Z;
  block_key : string }.

#[export] Instance GlrcPipelineNodeLookup_inhabited : Inhabited GlrcPipelineNodeLookup :=
  populate {| node_id := -1; datanode_ip := ""; datanode_port := 0; proxy_ip := ""; proxy_port := 0;
              block_key := "" |}.

(** * Building the chains *)

Definition fill_hop (block_id : Z) (coef : byte) (node_lookup : list GlrcPipelineNodeLookup)
  : GlrcPipelineHopInfo + string :=
  if (block_id <? 0) || (block_id >=? zlen node_lookup) then
    inr ("pipeline node lookup missing block " +:+ int_to_string block_id)
  else
    let node := node_lookup.[block_id] in
    if String.eqb (proxy_ip node) "" || String.eqb (datanode_ip node) "" then
      inr ("pipeline node lookup incomplete for block " +:+ int_to_string block_id)
    else
      inl {| hop_block_id := block_id; hop_node_id := node_id node;
             hop_datanode_ip := datanode_ip node; hop_datanode_port := datanode_port node;
             hop_proxy_ip := proxy_ip node; hop_proxy_port := proxy_port node;
             hop_block_key := block_key node; hop_coef := coef |}.

(** [erase] of the first occurrence found. *)
Fixpoint remove_first (x : Z) (l : list Z) : list Z :=
  match l with
  | [] => []
  | y :: l' => if y =? x then l' else y :: remove_first x l'
  end.

(** The loop [for (b : bs) { fill_hop(...); hops.push_back(hop); }] with its early
    return. *)
Fixpoint fill_hops (bs : list Z) (coef_row : list byte) (node_lookup : list GlrcPipelineNodeLookup)
  : list GlrcPipelineHopInfo + string :=
  match bs with
  | [] => inl []
  | b :: bs' =>
      match fill_hop b coef_row.[b] node_lookup with
      | inr e => inr e
      | inl hop => match fill_hops bs' coef_row node_lookup with
                   | inr e => inr e
                   | inl hs => inl (hop :: hs)
                   end
      end
  end.

Section Build.
Context {S : StdSort}.

(** [std::greater<int>] *)
Definition sort_descending (l : list Z) : list Z := std_sort (fun a b => b <? a) l.

Definition sort_chain_survivors (survivors : list Z) (hub_block_id : Z) : list Z :=
  let survivors := sort_descending survivors in
  if bool_decide (hub_block_id ∈ survivors)
  then remove_first hub_block_id survivors ++ [hub_block_id] else survivors.

(** [local_direct_set.count(eq_idx)] *)
Definition is_local_direct (all_equations : list GlrcEquation) (failed_set : gset Z) (eq_idx : Z) : bool :=
  if (eq_idx <? 0) || (eq_idx >=? zlen all_equations) then false
  else match eq_type all_equations.[eq_idx] with
       | GLOBAL => false
       | LOCAL => zlen (List.filter (fun b => bool_decide (b ∈ failed_set))
                          (involved_blocks all_equations.[eq_idx])) =? 1
       end.

(** One turn of the equation loop. *)
Definition build_chain (k r z : Z) (failed_set : gset Z) (all_equations : list GlrcEquation)
    (hub_block_id : Z) (node_lookup : list GlrcPipelineNodeLookup) (slot eq_idx : Z)
  : GlrcPipelineChainPlan + string :=
  if (eq_idx <? 0) || (eq_idx >=? zlen all_equations) then
    inr "invalid equation index in repair plan"%string
  else
    let eq := all_equations.[eq_idx] in
    let coef_row := glrc_pipeline_build_coef_row k r z eq_idx in
    let survivors := List.filter (fun b => negb (bool_decide (b ∈ failed_set))) (involved_blocks eq) in
    let survivors := sort_chain_survivors survivors hub_block_id in
    let in_equation := negb (Byte.eqb coef_row.[hub_block_id] x00) in
    if is_local_direct all_equations failed_set eq_idx then
      match find (fun b => bool_decide (b ∈ failed_set)) (involved_blocks eq) with
      | None => inr "local pipeline missing sink proxy or survivors"%string
      | Some b =>
          let known := (b >=? 0) && (b <? zlen node_lookup) in
          let node := node_lookup.[b] in
          let sink_ip := if known then proxy_ip node else ""%string in
          if String.eqb sink_ip "" || (zlen survivors =? 0) then
            inr "local pipeline missing sink proxy or survivors"%string
          else
            match fill_hops (sort_descending survivors) coef_row node_lookup with
            | inr e => inr e
            | inl hs =>
                inl {| chain_id := slot; equation_index := eq_idx; eq_slot := slot;
                       equation_name := eq_name eq; local_direct := true;
                       local_direct_failed_block_id := b;
                       local_direct_failed_block_key := if known then block_key node else ""%string;
                       local_direct_replaced_ip := if known then datanode_ip node else ""%string;
                       local_direct_replaced_port := if known then datanode_port node else 0;
                       local_direct_sink_proxy_ip := sink_ip;
                       local_direct_sink_proxy_port := if known then proxy_port node else 0;
                       hops := hs; hub_is_chain_tail := false; hub_in_equation := in_equation |}
            end
      end
    else
      let body := if in_equation then List.filter (fun b => negb (b =? hub_block_id)) survivors
                  else survivors in
      match fill_hops (body ++ (if in_equation then [hub_block_id] else [])) coef_row node_lookup with
      | inr e => inr e
      | inl hs =>
          inl {| chain_id := slot; equation_index := eq_idx; eq_slot := slot;
                 equation_name := eq_name eq; local_direct := false;
                 local_direct_failed_block_id := -1; local_direct_failed_block_key := ""%string;
                 local_direct_replaced_ip := ""%string; local_direct_replaced_port := 0;
                 local_direct_sink_proxy_ip := ""%string; local_direct_sink_proxy_port := 0;
                 hops := hs; hub_is_chain_tail := in_equation; hub_in_equation := in_equation |}
      end.

(** The chains in order of the equations; [slot] is [chain_id] and [eq_slot]. *)
Fixpoint build_chains (k r z : Z) (failed_set : gset Z) (all_equations : list GlrcEquation)
    (hub_block_id : Z) (node_lookup : list GlrcPipelineNodeLookup) (slot : Z) (eqs : list Z)
  : list GlrcPipelineChainPlan + string :=
  match eqs with
  | [] => inl []
  | eq_idx :: rest =>
      match build_chain k r z failed_set all_equations hub_block_id node_lookup slot eq_idx with
      | inr e => inr e
      | inl chain =>
          match build_chains k r z failed_set all_equations hub_block_id node_lookup (slot + 1) rest with
          | inr e => inr e
          | inl chains => inl (chain :: chains)
          end
      end
  end.

Definition glrc_build_pipeline_plan (k r z : Z) (failed_block_ids : list Z)
    (repair_plan : GlrcIlpRepairPlan) (all_equations : list GlrcEquation) (hub_block_id : Z)
    (node_lookup : list GlrcPipelineNodeLookup) (epoch : Z) : GlrcPipelinePlan + string :=
  if (hub_block_id <? 0) || (hub_block_id >=? zlen node_lookup) then inr "invalid hub block id"%string
  else
    let hub_node := node_lookup.[hub_block_id] in
    match build_chains k r z (list_to_set failed_block_ids) all_equations hub_block_id node_lookup 0
            (selected_equation_indices repair_plan) with
    | inr e => inr e
    | inl chains =>
        inl {| plan_hub_block_id := hub_block_id; hub_proxy_ip := proxy_ip hub_node;
               hub_proxy_port := proxy_port hub_node; hub_datanode_ip := datanode_ip hub_node;
               hub_datanode_port := datanode_port hub_node; hub_block_key := block_key hub_node;
               hub_coef := x00; exchange_epoch := epoch;
               hub_chains := List.filter (fun c => negb (local_direct c)) chains;
               local_direct_chains := List.filter local_direct chains |}
    end.
End Build.

(** * Running a chain *)

(** The head writes its weighted block, every later hop adds its own. *)
Definition run_chain (codec : GlrcPipelineEqCodec) (len : Z) (hs : list (byte * list byte)) : list byte :=
  match hs with
  | [] => zrepeat x00 len
  | (coef, src) :: rest =>
      fold_left (fun acc '(coef, src) => glrc_pipeline_accumulate_range acc src coef len codec) rest
        (glrc_pipeline_init_partial_range (zrepeat x00 len) src coef len codec)
  end.

(** The hops with the blocks they read. *)
Definition chain_inputs (stripe : list block) (off : Z) (c : GlrcPipelineChainPlan) : list (byte * list byte) :=
  map (fun h => (hop_coef h, zdrop off stripe.[hop_block_id h])) (hops c).

Definition lsum (l : list Z) (g : Z -> byte) : byte := fold_right (fun b s => g b ⊕ s) x00 l.

Lemma lsum_perm l l' g : l ≡ₚ l' -> lsum l g = lsum l' g.
Proof.
  induction 1 as [|x l l' Hp IH|x y l|l l1 l2 H1 IH1 H2 IH2]; cbn [lsum fold_right].
  - reflexivity.
  - fold (lsum l g) (lsum l' g). rewrite IH. reflexivity.
  - fold (lsum l g). ring.
  - etransitivity; eassumption.
Qed.

Lemma run_chain_spec codec len hs i : 0 <= i < len ->
  zlen (run_chain codec len hs) = len /\
  (run_chain codec len hs).[i] = fold_right (fun '(c, src) s => c ⊗ src.[i] ⊕ s) x00 hs.
Proof.
  intros Hi. assert (Hz : zlen (zrepeat x00 len) = len) by (apply zlen_zrepeat; lia).
  destruct hs as [|[c src] rest]; cbn [run_chain fold_right].
  { split; [exact Hz|]. apply zget_zrepeat. lia. }
  destruct (init_partial_range_spec (zrepeat x00 len) src c len codec ltac:(lia)) as [H1 H2].
  rewrite Hz in H1. specialize (H2 i ltac:(lia)). destruct (Z.ltb_spec i len); [|lia].
  revert H1 H2. generalize (glrc_pipeline_init_partial_range (zrepeat x00 len) src c len codec).
  generalize (c ⊗ src.[i]). induction rest as [|[c' src'] rest IH]; intros v acc H1 H2; cbn [fold_left fold_right].
  { split; [exact H1|]. rewrite H2. ring. }
  destruct (accumulate_range_spec acc src' c' len codec ltac:(lia)) as [A1 A2].
  specialize (A2 i ltac:(lia)). destruct (Z.ltb_spec i len); [|lia].
  destruct (IH (v ⊕ c' ⊗ src'.[i]) (glrc_pipeline_accumulate_range acc src' c' len codec)) as [I1 I2];
    [lia|rewrite A2, H2; reflexivity|].
  split; [exact I1|]. rewrite I2. ring.
Qed.

(** * What the chains add up to *)

Lemma lsum_members n l g : NoDup l -> Forall (fun b => 0 <= b < n) l ->
  lsum l g = xsum n (fun b => if bool_decide (b ∈ l) then g b else x00).
Proof.
  intros Hn Hr. rewrite xsum_members by assumption. clear Hn Hr.
  induction l as [|x l IH]; [reflexivity|]. cbn [lsum fold_right length].
  rewrite Nat2Z.inj_succ. unfold Z.succ. rewrite xsum_cons by lia. fold (lsum l g). rewrite IH.
  change ((x :: l).[0]) with x. f_equal. apply xsum_ext. intros j Hj. rewrite zget_cons_succ by lia. reflexivity.
Qed.

Lemma fill_hops_spec bs row lookup hs : fill_hops bs row lookup = inl hs ->
  map hop_block_id hs = bs /\ Forall (fun h => hop_coef h = row.[hop_block_id h]) hs.
Proof.
  revert hs. induction bs as [|b bs IH]; intros hs; cbn [fill_hops].
  { intros [= <-]. split; [reflexivity|constructor]. }
  destruct (fill_hop b row.[b] lookup) as [h|] eqn:E; [|discriminate].
  destruct (fill_hops bs row lookup) as [hs'|]; [|discriminate]. intros [= <-].
  destruct (IH hs' eq_refl) as [IH1 IH2].
  assert (Hh : hop_block_id h = b /\ hop_coef h = row.[b]).
  { unfold fill_hop in E. destruct (_ || _); [discriminate|]. destruct (_ || _); [discriminate|].
    injection E as <-. split; reflexivity. }
  destruct Hh as [Hb Hc]. cbn [map]. rewrite Hb, IH1. split; [reflexivity|].
  constructor; [rewrite Hb; exact Hc|exact IH2].
Qed.

Lemma remove_first_perm x l : In x l -> x :: remove_first x l ≡ₚ l.
Proof.
  induction l as [|y l IH]; cbn [remove_first In]; [intros []|].
  destruct (Z.eqb_spec y x) as [->|Hne]; [reflexivity|]. intros [H|H]; [contradiction|].
  rewrite perm_swap. constructor. apply IH, H.
Qed.

Section Chains.
Context {S : StdSort} {SL : StdSortLaws S}.
Context (k r z : Z) (Hk : 1 <= k) (Hr : 0 <= r) (Hz : 1 <= z).
Context (failed : list Z).

Abbreviation n := (k + r + z).
Abbreviation eqs_all := (all_equations_of k r z).
Abbreviation involved e := (involved_blocks (all_equations_of k r z).[e]).
Abbreviation survivors e :=
  (List.filter (fun b => negb (bool_decide (b ∈ (list_to_set failed : gset Z)))) (involved e)).

Lemma sort_survivors_perm l hub : sort_chain_survivors l hub ≡ₚ l.
Proof.
  unfold sort_chain_survivors, sort_descending.
  pose proof (std_sort_perm (fun a b => b <? a) l) as Hp. 
  destruct (bool_decide_reflect (hub ∈ std_sort (fun a b => b <? a) l)) as [Hin|_]; [|exact Hp].
  rewrite <- Hp at 2. rewrite <- (remove_first_perm hub (std_sort _ l)) at 2
    by (apply list_elem_of_In, Hin).
  symmetry. apply Permutation_cons_append.
Qed.

Lemma involved_nodup e : 0 <= e < z + r -> NoDup (involved e).
Proof.
  intros He. rewrite involved_eq by auto. destruct (Z.ltb_spec e z).
  - apply placement_group_nodup; lia.
  - apply NoDup_app. split; [apply NoDup_seqZ|]. split; [|apply NoDup_singleton].
    intros b Hb Hb'. rewrite elem_of_seqZ in Hb. apply list_elem_of_singleton in Hb'. lia.
Qed.

Lemma survivors_spec e b : In b (survivors e) <-> In b (involved e) /\ b ∉ failed.
Proof. rewrite filter_In, negb_true_iff, bool_decide_eq_false, elem_of_list_to_set. reflexivity. Qed.

Lemma survivors_nodup e : 0 <= e < z + r -> NoDup (survivors e).
Proof. intros He. apply NoDup_ListNoDup, List.NoDup_filter, NoDup_ListNoDup, involved_nodup, He. Qed.

Lemma row_coef e b : 0 <= e < z + r -> 0 <= b < n ->
  (glrc_pipeline_build_coef_row k r z e).[b] = glrc_eq_coef k r z e b.
Proof. intros He Hb. rewrite pipeline_row_is_decoder_row. apply coef_row_spec; auto. Qed.

(** A chain visits the surviving blocks of its equation once each, with the
    coefficients of the equation. *)
Lemma build_chain_spec hub lookup slot e c : 0 <= e < z + r -> 0 <= hub < n -> hub ∉ failed ->
  build_chain k r z (list_to_set failed) eqs_all hub lookup slot e = inl c ->
  equation_index c = e /\ eq_slot c = slot /\ map hop_block_id (hops c) ≡ₚ survivors e /\
  Forall (fun h => hop_coef h = (glrc_pipeline_build_coef_row k r z e).[hop_block_id h]) (hops c) /\
  local_direct c = is_local_direct eqs_all (list_to_set failed) e /\
  (local_direct c = true -> local_direct_failed_block_id c ∈ failed /\
                            In (local_direct_failed_block_id c) (involved e)) /\
  (hub_is_chain_tail c = true -> last (map hop_block_id (hops c)) = Some hub).
Proof.
  intros He Hhub Hhf. unfold build_chain. rewrite all_equations_len by auto.
  destruct (Z.ltb_spec e 0), (Z.geb_spec e (z + r)); try lia. cbn [orb].
  destruct (is_local_direct _ _ e) eqn:Eld.
  - destruct (find _ _) as [b|] eqn:Ef; [|discriminate]. destruct (_ || _); [discriminate|].
    destruct (fill_hops _ _ _) as [hs|] eqn:Eh; [|discriminate]. intros [= <-].
    apply fill_hops_spec in Eh as [E1 E2]. apply find_some in Ef as [Hb1 Hb2].
    apply bool_decide_eq_true in Hb2. cbn. rewrite E1.
    split; [reflexivity|]. split; [reflexivity|].
    split; [unfold sort_descending; rewrite std_sort_perm; apply sort_survivors_perm|].
    split; [exact E2|]. split; [auto|]. split; [|discriminate]. intros _. split; [set_solver|exact Hb1].
  - destruct (byte_eqb_spec (glrc_pipeline_build_coef_row k r z e).[hub] x00) as [E0|E0]; cbn [negb];
      destruct (fill_hops _ _ _) as [hs|] eqn:Eh; [|discriminate| |discriminate]; intros [= <-];
      apply fill_hops_spec in Eh as [E1 E2]; cbn; rewrite E1;
      (split; [reflexivity|]; split; [reflexivity|]; split; [|split; [exact E2|split; [auto|split; [discriminate|]]]]).
    + rewrite app_nil_r. apply sort_survivors_perm.
    + discriminate.
    + assert (Hin : In hub (survivors e)).
      { apply survivors_spec. split; [|exact Hhf]. apply coef_involved; auto.
        rewrite <- row_coef by assumption. exact E0. }
      apply NoDup_Permutation.
      * apply NoDup_app. split; [|split; [|apply NoDup_singleton]].
        -- apply NoDup_ListNoDup, List.NoDup_filter, NoDup_ListNoDup. rewrite sort_survivors_perm.
           apply survivors_nodup, He.
        -- intros b Hb Hb'. apply list_elem_of_singleton in Hb'. subst b.
           rewrite list_elem_of_In, filter_In, Z.eqb_refl in Hb. destruct Hb as [_ Hb]. discriminate.
      * apply survivors_nodup, He.
      * intros b. rewrite elem_of_app, list_elem_of_singleton, !list_elem_of_In, filter_In, negb_true_iff, Z.eqb_neq.
        rewrite <- (list_elem_of_In (sort_chain_survivors _ _) b), sort_survivors_perm, list_elem_of_In.
        destruct (Z.eq_dec b hub) as [->|]; tauto.
    + intros _. apply last_snoc.
Qed.

(** Running it yields the surviving part of the equation. *)
Lemma chain_result hub lookup slot e c codec stripe off len i :
  0 <= e < z + r -> 0 <= hub < n -> hub ∉ failed ->
  build_chain k r z (list_to_set failed) eqs_all hub lookup slot e = inl c ->
  0 <= off -> 0 <= i < len ->
  (run_chain codec len (chain_inputs stripe off c)).[i] =
  xsum n (fun b => if bool_decide (b ∈ failed) then x00
                   else glrc_eq_coef k r z e b ⊗ stripe.[b].[off + i]).
Proof.
  intros He Hhub Hhf Hc Ho Hi.
  destruct (build_chain_spec hub lookup slot e c He Hhub Hhf Hc) as (_ & _ & Hp & Hco & _).
  destruct (run_chain_spec codec len (chain_inputs stripe off c) i Hi) as [_ ->].
  assert (Hrange : Forall (fun b => 0 <= b < n) (survivors e)).
  { apply Forall_forall. intros b Hb%list_elem_of_In. apply survivors_spec in Hb as [Hb _].
    apply (involved_range k r z Hk Hr Hz e); auto. }
  assert (Hl : fold_right (fun '(c0, src) s => c0 ⊗ src.[i] ⊕ s) x00 (chain_inputs stripe off c) =
               lsum (map hop_block_id (hops c)) (fun b => glrc_eq_coef k r z e b ⊗ stripe.[b].[off + i])).
  { unfold chain_inputs. rewrite <- Hp in Hrange. revert Hco Hrange. generalize (hops c). clear Hp Hc.
    induction l as [|h l IH]; intros Hco Hrange; [reflexivity|]. cbn [map] in Hrange.
    rewrite Forall_cons in Hco. rewrite Forall_cons in Hrange. destruct Hco as [Hh Hco], Hrange as [Hb Hrange].
    cbn [map fold_right lsum]. rewrite IH by assumption.
    fold (lsum (map hop_block_id l) (fun b => glrc_eq_coef k r z e b ⊗ stripe.[b].[off + i])).
    rewrite Hh, row_coef, zget_zdrop by lia. reflexivity. }
  rewrite Hl, (lsum_perm _ _ _ Hp), (lsum_members n) by (auto; apply survivors_nodup, He).
  apply xsum_ext. intros b Hb. destruct (bool_decide_reflect (b ∈ survivors e)) as [Hin|Hin].
  - apply list_elem_of_In, survivors_spec in Hin as [_ Hf]. rewrite bool_decide_false by exact Hf. reflexivity.
  - destruct (bool_decide_reflect (b ∈ failed)) as [|Hf]; [reflexivity|].
    destruct (decide (glrc_eq_coef k r z e b = x00)) as [->|Hne]; [ring|].
    exfalso. apply Hin, list_elem_of_In, survivors_spec. split; [|exact Hf]. apply coef_involved; auto.
Qed.

(** A local-direct chain delivers the lost block times its own coefficient. *)
Lemma local_direct_result hub lookup slot e c codec stripe bs off len i :
  0 <= e < z + r -> 0 <= hub < n -> hub ∉ failed -> stripe_ok k r z bs stripe ->
  build_chain k r z (list_to_set failed) eqs_all hub lookup slot e = inl c -> local_direct c = true ->
  0 <= off -> 0 <= i < len -> off + len <= bs ->
  let f := local_direct_failed_block_id c in
  (run_chain codec len (chain_inputs stripe off c)).[i] =
  glrc_local_block_coefficient f k r ⊗ stripe.[f].[off + i].
Proof.
  intros He Hhub Hhf Hs Hc Hld Ho Hi Hlen. cbv zeta. set (f := local_direct_failed_block_id c).
  rewrite (chain_result hub lookup slot e c) by assumption.
  destruct (build_chain_spec hub lookup slot e c He Hhub Hhf Hc) as (_ & _ & _ & _ & Eld & Hf & _).
  destruct (Hf Hld) as [Hff Hfe]. fold f in Hff, Hfe. rewrite Hld in Eld. symmetry in Eld.
  unfold is_local_direct in Eld. rewrite all_equations_len in Eld by auto.
  destruct (Z.ltb_spec e 0), (Z.geb_spec e (z + r)); try lia. cbn [orb] in Eld.
  assert (Hez : e < z).
  { destruct (Z.lt_ge_cases e z) as [|Hge]; [assumption|]. exfalso. unfold all_equations_of in Eld.
    rewrite zget_app, length_map, zlen_seqZ in Eld by lia. rewrite Z.max_r in Eld by lia.
    destruct (Z.ltb_spec e z); [lia|]. rewrite zget_map_zseq in Eld by lia. discriminate. }
  assert (Hfr : 0 <= f < n) by (apply (involved_range k r z Hk Hr Hz e); auto).
  assert (Hone : forall b, In b (involved e) -> b ∈ failed -> b = f).
  { destruct (eq_type eqs_all.[e]); [|discriminate]. apply Z.eqb_eq in Eld. intros b Hb Hbf.
    assert (H1 : In b (List.filter (fun b => bool_decide (b ∈ (list_to_set failed : gset Z))) (involved e))).
    { apply filter_In. split; [exact Hb|]. apply bool_decide_eq_true. set_solver. }
    assert (H2 : In f (List.filter (fun b => bool_decide (b ∈ (list_to_set failed : gset Z))) (involved e))).
    { apply filter_In. split; [exact Hfe|]. apply bool_decide_eq_true. set_solver. }
    destruct (List.filter _ _) as [|x [|y l]]; cbn [length] in Eld; try lia.
    destruct H1 as [<-|[]], H2 as [<-|[]]. reflexivity. }
  assert (Hcf : glrc_eq_coef k r z e f = glrc_local_block_coefficient f k r).
  { unfold glrc_eq_coef. rewrite involved_eq in Hfe by auto. destruct (Z.ltb_spec e z); [|lia].
    apply placement_group_iff in Hfe; try lia. rewrite Hfe, Z.eqb_refl. reflexivity. }
  rewrite <- Hcf. apply bxor_eq_0. etransitivity; [|apply (Hs (off + i) ltac:(lia) e He)].
  rewrite (xsum_pull n (fun b => glrc_eq_coef k r z e b ⊗ stripe.[b].[off + i]) f Hfr).
  rewrite bxor_comm. f_equal. apply xsum_ext. intros b Hb. destruct (Z.eqb_spec b f) as [->|Hne].
  - rewrite bool_decide_true by exact Hff. reflexivity.
  - destruct (bool_decide_reflect (b ∈ failed)) as [Hbf|]; [|reflexivity].
    destruct (decide (glrc_eq_coef k r z e b = x00)) as [->|Hc0]; [ring|].
    exfalso. apply Hne, Hone; [|exact Hbf]. apply coef_involved; auto.
Qed.

(** ** The whole plan *)

Lemma build_chains_spec hub lookup slot eqs chains :
  build_chains k r z (list_to_set failed) eqs_all hub lookup slot eqs = inl chains ->
  length chains = length eqs /\
  forall i e, eqs !! i = Some e -> exists c, chains !! i = Some c /\
    build_chain k r z (list_to_set failed) eqs_all hub lookup (slot + Z.of_nat i) e = inl c.
Proof.
  revert slot chains. induction eqs as [|e eqs IH]; intros slot chains; cbn [build_chains].
  { intros [= <-]. split; [reflexivity|]. intros i e. rewrite lookup_nil. discriminate. }
  destruct (build_chain _ _ _ _ _ _ _ slot e) as [c|] eqn:Ec; [|discriminate].
  destruct (build_chains _ _ _ _ _ _ _ (slot + 1) eqs) as [cs|] eqn:Es; [|discriminate].
  intros [= <-]. destruct (IH _ _ Es) as [H1 H2]. split; [cbn [length]; lia|].
  intros [|i] e' Hi.
  - injection Hi as <-. exists c. split; [reflexivity|]. rewrite Z.add_0_r. exact Ec.
  - destruct (H2 i e' Hi) as (c' & Hc' & Hb). exists c'. split; [exact Hc'|].
    replace (slot + Z.of_nat (Datatypes.S i)) with (slot + 1 + Z.of_nat i) by lia. exact Hb.
Qed.

(** The hub collects the right-hand sides and solves the system. *)
Lemma pipeline_restores hub lookup eqs chains codec stripe off len :
  valid_system k r z failed eqs -> failed <> [] -> 0 <= hub < n -> hub ∉ failed ->
  stripe_ok k r z (off + len) stripe -> 0 <= off -> 0 <= len ->
  nonsingular (zlen failed) (system_mx k r z failed eqs) ->
  build_chains k r z (list_to_set failed) eqs_all hub lookup 0 eqs = inl chains ->
  exists A_inv rec, glrc_ilp_prepare_inverse k r z failed eqs = Some A_inv /\
    decode_glrc_ilp_rhs_compact (map (fun c => run_chain codec len (chain_inputs stripe off c)) chains)
      A_inv (zlen failed) len = Some rec /\
    restored failed stripe len off (off + len) off rec.
Proof.
  intros Hv Hf Hhub Hhf Hs Ho Hl Hn Hb. destruct (build_chains_spec hub lookup 0 eqs chains Hb) as [H1 H2].
  pose proof (vs_len _ _ _ _ _ Hv) as Hlen.
  pose proof (rhs_compact_spec k r z Hk Hr Hz
    (map (fun c => run_chain codec len (chain_inputs stripe off c)) chains) failed eqs stripe off len
    Hv Hf Hs Ho Hl ltac:(rewrite length_map; lia)) as Hrc.
  assert (Hrhs : holds_rhs k r z failed eqs
    (map (fun c => run_chain codec len (chain_inputs stripe off c)) chains) off (off + len) off stripe).
  { intros ei i Hei Hi.
    destruct (H2 (Z.to_nat ei) eqs.[ei]) as (c & Hc & Hbc); [apply zget_lookup; lia|].
    rewrite (zget_Some (map _ _) ei (run_chain codec len (chain_inputs stripe off c)))
      by (lia || rewrite list_lookup_fmap, Hc; reflexivity).
    rewrite (chain_result hub lookup (0 + Z.of_nat (Z.to_nat ei)) eqs.[ei] c codec stripe off len (i - off)) by
      (auto; try lia; apply (Forall_zget _ _ _ (vs_eqs _ _ _ _ _ Hv)); lia).
    apply xsum_ext. intros b Hb'. replace (off + (i - off)) with i by lia. reflexivity. }
  specialize (Hrc Hrhs). destruct (glrc_ilp_prepare_inverse k r z failed eqs) as [A_inv|].
  - destruct Hrc as [_ (rec & E & Hrec)]. eauto 10.
  - contradiction.
Qed.

(** ** Planning succeeds on a complete node table *)

Definition complete_lookup (lookup : list GlrcPipelineNodeLookup) : Prop :=
  n <= zlen lookup /\
  forall b, 0 <= b < n -> proxy_ip lookup.[b] <> ""%string /\ datanode_ip lookup.[b] <> ""%string.

Lemma fill_hops_total bs row lookup : complete_lookup lookup -> Forall (fun b => 0 <= b < n) bs ->
  exists hs, fill_hops bs row lookup = inl hs.
Proof.
  intros [Hl Hc]. induction 1 as [|b bs Hb _ [hs IH]]; cbn [fill_hops]; [eauto|].
  unfold fill_hop. destruct (Z.ltb_spec b 0), (Z.geb_spec b (zlen lookup)); try lia. cbn [orb].
  destruct (Hc b Hb) as [H1 H2]. apply String.eqb_neq in H1, H2. rewrite H1, H2, IH. cbn [orb]. eauto.
Qed.

Lemma involved_two e : z <= k + r -> 0 <= e < z + r -> 2 <= zlen (involved e).
Proof.
  intros Hzk He. rewrite involved_eq by auto. destruct (Z.ltb_spec e z).
  - destruct (placement_groups_spec k r z) as [_ Hg]; [lia..|]. rewrite Hg by lia.
    rewrite length_app, length_seqZ. cbn [length].
    pose proof (payload_start_step k r z ltac:(lia) Hr Hz e Hzk ltac:(lia)). lia.
  - rewrite length_app, length_seqZ. cbn [length]. lia.
Qed.

Lemma survivors_range e : 0 <= e < z + r -> Forall (fun b => 0 <= b < n) (survivors e).
Proof.
  intros He. apply Forall_forall. intros b Hb%list_elem_of_In. apply survivors_spec in Hb as [Hb _].
  apply (involved_range k r z Hk Hr Hz e b He Hb).
Qed.

Lemma build_chain_total hub lookup slot e : z <= k + r -> complete_lookup lookup -> 0 <= e < z + r ->
  0 <= hub < n -> exists c, build_chain k r z (list_to_set failed) eqs_all hub lookup slot e = inl c.
Proof.
  intros Hzk Hl He Hhub. unfold build_chain. rewrite all_equations_len by auto.
  destruct (Z.ltb_spec e 0), (Z.geb_spec e (z + r)); try lia. cbn [orb].
  assert (Hsr : Forall (fun b => 0 <= b < n) (sort_chain_survivors (survivors e) hub))
    by (rewrite sort_survivors_perm; apply survivors_range, He).
  destruct (is_local_direct _ _ e) eqn:Eld.
  - unfold is_local_direct in Eld. rewrite all_equations_len in Eld by auto.
    destruct (_ || _); [discriminate|]. destruct (eq_type _); [|discriminate]. apply Z.eqb_eq in Eld.
    pose proof (filter_split_len (fun b => bool_decide (b ∈ (list_to_set failed : gset Z))) (involved e)) as Hsp.
    pose proof (involved_two e Hzk He).
    destruct (find _ _) as [b|] eqn:Ef.
    2: { exfalso. destruct (List.filter _ (involved e)) as [|b l] eqn:E in Eld; [discriminate Eld|].
         assert (Hb : In b (b :: l)) by (left; reflexivity). rewrite <- E in Hb.
         apply filter_In in Hb as [Hb1 Hb2]. rewrite (find_none _ _ Ef b Hb1) in Hb2. discriminate. }
    apply find_some in Ef as [Hb _]. pose proof (involved_range k r z Hk Hr Hz e b He Hb) as Hbr.
    destruct (proj2 Hl b Hbr) as [Hip _]. apply String.eqb_neq in Hip. destruct Hl as [Hll Hlc].
    destruct (Z.geb_spec b 0), (Z.ltb_spec b (zlen lookup)); try lia. cbn [andb]. rewrite Hip. cbn [orb].
    destruct (Z.eqb_spec (zlen (sort_chain_survivors (survivors e) hub)) 0) as [E0|_].
    { exfalso. rewrite (Permutation_length (sort_survivors_perm (survivors e) hub)) in E0. lia. }
    destruct (fill_hops_total (sort_descending (sort_chain_survivors (survivors e) hub))
      (glrc_pipeline_build_coef_row k r z e) lookup (conj Hll Hlc)) as [hs ->]; [|eauto].
    unfold sort_descending. rewrite std_sort_perm. exact Hsr.
  - match goal with |- context [fill_hops ?bs ?row lookup] =>
      destruct (fill_hops_total bs row lookup Hl) as [hs ->]; [|eauto] end.
    apply Forall_app. split.
    + destruct (negb _); [|exact Hsr]. apply Forall_forall. intros b Hb%list_elem_of_In.
      apply filter_In in Hb as [Hb _]. rewrite Forall_forall in Hsr. apply Hsr, list_elem_of_In, Hb.
    + destruct (negb _); repeat constructor; lia.
Qed.

Lemma build_chains_total hub lookup slot eqs : z <= k + r -> complete_lookup lookup -> 0 <= hub < n ->
  Forall (fun e => 0 <= e < z + r) eqs ->
  exists cs, build_chains k r z (list_to_set failed) eqs_all hub lookup slot eqs = inl cs.
Proof.
  intros Hzk Hl Hhub He. revert slot. induction He as [|e eqs He _ IH]; intros slot; cbn [build_chains]; [eauto|].
  destruct (build_chain_total hub lookup slot e Hzk Hl He Hhub) as [c ->].
  destruct (IH (slot + 1)) as [cs ->]. eauto.
Qed.

(** The chains come in the order of the selected equations. *)
Lemma chains_equations hub lookup slot eqs chains : 0 <= hub < n -> hub ∉ failed ->
  Forall (fun e => 0 <= e < z + r) eqs ->
  build_chains k r z (list_to_set failed) eqs_all hub lookup slot eqs = inl chains ->
  map equation_index chains = eqs.
Proof.
  intros Hhub Hhf He Hb. destruct (build_chains_spec hub lookup slot eqs chains Hb) as [Hlen H2].
  apply list_eq_same_length with (n := length eqs); [reflexivity|rewrite length_map; lia|].
  intros i x y Hi Hx Hy. destruct (H2 i y Hy) as (c & Hc & Hbc). rewrite list_lookup_fmap, Hc in Hx.
  injection Hx as <-. rewrite Forall_lookup in He.
  apply (build_chain_spec hub lookup _ y c (He i y Hy) Hhub Hhf Hbc).
Qed.
End Chains.
