(* ===== verification/PipelineSession.v ===== *)
(** The pipeline session of [coordinator.cpp] ([recovery_glrc_ilp_pipeline_breakdown_ex]): the
    choice of the hub block, the request the hub receives, what the hub solves
    ([glrcIlpPipelineHubRecovery] of [proxy_glrc_pipeline.cpp]) and what a
    local sink writes back. *)
From S2P Require Import Prelude GF256 LinAlg GFMatrix EcKernel Groups Codes Decode DecodeSpec.
From S2P Require Import LocalRepair CNum RepairPlan RepairPlanSpec RepairGuarantee.
From S2P Require Import PipelineCodec PipelinePlan.
From Stdlib Require Import Field.

(** * Choosing the hub *)

(** [helper_equation_count]: how many selected equations each survivor is in. *)
Definition helper_equation_count (selected : list Z) (all_equations : list GlrcEquation) (failed_set : gset Z)
  : gmap Z Z :=
  fold_left (fun m eq_idx =>
    if (eq_idx <? 0) || (eq_idx >=? zlen all_equations) then m
    else fold_left (fun m b =>
           if bool_decide (b ∈ failed_set) then m else <[b := default 0 (m !! b) + 1]> m)
         (involved_blocks all_equations.[eq_idx]) m) selected ∅.

(** One entry of the [unordered_map], visited in any order. *)
Definition hub_step (st : Z * Z) (kv : Z * Z) : Z * Z :=
  let '(hub_block_id, best_count) := st in
  if (snd kv >? best_count) ||
     ((snd kv =? best_count) && ((hub_block_id <? 0) || (fst kv <? hub_block_id)))
  then kv else st.

(** [entries] is the order in which the map is traversed; [None] is
    "pipeline hub selection failed". *)
Definition select_hub (entries : list (Z * Z)) (helper_block_ids : list Z) : option Z :=
  let '(hub_block_id, _) := fold_left hub_step entries (-1, -1) in
  let hub_block_id :=
    if (hub_block_id <? 0) && negb (zlen helper_block_ids =? 0) then helper_block_ids.[0] else hub_block_id in
  if hub_block_id <? 0 then None else Some hub_block_id.

(** * The hub request *)

Definition local_direct_failed (p : GlrcPipelinePlan) : gset Z :=
  list_to_set (map local_direct_failed_block_id (local_direct_chains p)).

(** [hub_req.add_failed_block_ids]: the lost blocks no local chain delivers. *)
Definition hub_failed_ids (failed_block_ids : list Z) (p : GlrcPipelinePlan) : list Z :=
  List.filter (fun fid => negb (bool_decide (fid ∈ local_direct_failed p))) failed_block_ids.

(** [hub_req.add_selected_equation_indices] *)
Definition hub_equations (p : GlrcPipelinePlan) : list Z := map equation_index (hub_chains p).

(** * The hub *)

(** [glrcIlpPipelineHubRecovery] on one byte range: the inverse is prepared
    for the first [f] equations of the request and applied to the right-hand
    sides the chains deliver. *)
Definition hub_recover (k r z : Z) (failed_block_ids : list Z) (p : GlrcPipelinePlan)
    (rhs_bufs : list block) (stripe_len : Z) : option (list block) :=
  let failed_ids := hub_failed_ids failed_block_ids p in
  let f := zlen failed_ids in
  if (f <=? 0) || (zlen (hub_chains p) <=? 0) then None
  else
    let eq_indices := ztake f (hub_equations p) in
    match glrc_ilp_prepare_inverse k r z failed_ids eq_indices with
    | None => None
    | Some hub_decode_inverse => decode_glrc_ilp_rhs_compact rhs_bufs hub_decode_inverse f stripe_len
    end.

(** The right-hand sides of the hub chains for bytes [off .. off + len - 1]. *)
Definition hub_rhs (codec : GlrcPipelineEqCodec) (stripe : list block) (off len : Z) (p : GlrcPipelinePlan)
  : list block :=
  map (fun c => run_chain codec len (chain_inputs stripe off c)) (hub_chains p).

(** * The choice of the hub does not depend on the traversal order *)

(** [a] is a better hub than [b]. *)
Definition hub_better (a b : Z * Z) : Prop := snd b < snd a \/ snd b = snd a /\ fst a < fst b.

Lemma hub_fold_spec entries st : 0 <= fst st \/ snd st = -1 -> 
  Forall (fun kv => 0 <= fst kv /\ 1 <= snd kv) entries ->
  let res := fold_left hub_step entries st in
  (res = st \/ res ∈ entries) /\ (0 <= fst st -> 1 <= snd st -> ~ hub_better st res) /\
  forall kv, kv ∈ entries -> ~ hub_better kv res.
Proof.
  intros Hst Hall. cbv zeta. revert st Hst. induction Hall as [|[b c] entries [Hb Hc] _ IH]; intros [h m] Hst;
    cbn [fst snd] in *; cbn [fold_left].
  { split; [left; reflexivity|]. split; [intros _ _ H; unfold hub_better in H; cbn in H; lia|].
    intros kv Hkv. inversion Hkv. }
  assert (Hstep : (hub_step (h, m) (b, c) = (b, c) /\ (m < c \/ m = c /\ b < h)) \/
                  (hub_step (h, m) (b, c) = (h, m) /\ 0 <= h /\ 1 <= m /\ ~ hub_better (b, c) (h, m))).
  { unfold hub_step, hub_better. cbn [fst snd]. destruct (Z.gtb_spec c m); cbn [orb]; [left; auto|].
    destruct (Z.eqb_spec c m) as [->|], (Z.ltb_spec h 0), (Z.ltb_spec b h); cbn [orb andb];
      (left; split; [reflexivity|lia]) || (right; split; [reflexivity|lia]). }
  destruct Hstep as [[-> Hcase]|[-> Hcase]].
  - destruct (IH (b, c)) as (H1 & H2 & H3); [cbn; lia|]. cbn [fst snd] in H2. specialize (H2 Hb Hc).
    set (res := fold_left hub_step entries (b, c)) in *. split.
    { right. destruct H1 as [->|H1]; [left|right; exact H1]. }
    split.
    + intros _ _ Hbad. apply H2. unfold hub_better in *. cbn [fst snd] in *. lia.
    + intros kv Hkv. apply elem_of_cons in Hkv as [->|Hkv]; [exact H2|apply H3, Hkv].
  - destruct (IH (h, m)) as (H1 & H2 & H3); [cbn; lia|]. cbn [fst snd] in H2. destruct Hcase as (Hh & Hm & Hnb).
    specialize (H2 Hh Hm). set (res := fold_left hub_step entries (h, m)) in *. split.
    { destruct H1 as [->|H1]; [left; reflexivity|right; right; exact H1]. }
    split; [intros _ _; exact H2|]. intros kv Hkv. apply elem_of_cons in Hkv as [->|Hkv]; [|apply H3, Hkv].
    intros Hbad. unfold hub_better in *. cbn [fst snd] in *. lia.
Qed.

(** In how many of the selected equations block [b] occurs. *)
Definition occurrences (selected : list Z) (all_equations : list GlrcEquation) (b : Z) : Z :=
  zlen (List.filter (fun e => bool_decide (b ∈ involved_blocks all_equations.[e])) selected).

(** The map counts [f b] at the survivors with a positive count. *)
Definition counts (failed_set : gset Z) (f : Z -> Z) (m : gmap Z Z) : Prop :=
  forall b, m !! b = if bool_decide (b ∈ failed_set) || (f b =? 0) then None else Some (f b).

Lemma count_blocks_spec (fs : gset Z) bs m f : NoDup bs -> (forall b, 0 <= f b) -> counts fs f m ->
  counts fs (fun b => f b + if bool_decide (b ∈ bs) then 1 else 0)
    (fold_left (fun m b => if bool_decide (b ∈ fs) then m else <[b := default 0 (m !! b) + 1]> m) bs m).
Proof.
  intros Hnd Hf. revert m f Hf. induction Hnd as [|x bs Hx _ IH]; intros m f Hf Hm; cbn [fold_left].
  { intros b. rewrite (bool_decide_false (b ∈ [])) by apply not_elem_of_nil. rewrite Z.add_0_r. apply Hm. }
  pose (f' := fun b => f b + if b =? x then 1 else 0).
  assert (Hm' : counts fs f' (if bool_decide (x ∈ fs) then m else <[x := default 0 (m !! x) + 1]> m)).
  { intros b. unfold f'. destruct (Z.eqb_spec b x) as [->|Hne].
    - case_bool_decide as Hxf; [rewrite Hm, bool_decide_true by exact Hxf; reflexivity|].
      rewrite lookup_insert_eq, Hm, bool_decide_false by exact Hxf. cbn [orb]. specialize (Hf x).
      destruct (Z.eqb_spec (f x) 0) as [E|], (Z.eqb_spec (f x + 1) 0); try lia; cbn [default]; [rewrite E|]; reflexivity.
    - rewrite Z.add_0_r. case_bool_decide as Hxf; [|rewrite lookup_insert_ne by congruence]; apply Hm. }
  intros b. rewrite (IH _ f'); [|intros b'; unfold f'; specialize (Hf b'); destruct (b' =? x); lia|exact Hm'].
  replace (f' b + (if bool_decide (b ∈ bs) then 1 else 0))
    with (f b + (if bool_decide (b ∈ x :: bs) then 1 else 0)); [reflexivity|].
  unfold f'. destruct (Z.eqb_spec b x) as [->|Hne].
  - rewrite (bool_decide_false (x ∈ bs)) by exact Hx. rewrite bool_decide_true by left. lia.
  - rewrite (bool_decide_ext (b ∈ x :: bs) (b ∈ bs)); [lia|]. rewrite elem_of_cons. tauto.
Qed.

Lemma helper_equation_count_spec k r z (fs : gset Z) selected : 1 <= k -> 0 <= r -> 1 <= z ->
  Forall (fun e => 0 <= e < z + r) selected ->
  counts fs (occurrences selected (all_equations_of k r z))
    (helper_equation_count selected (all_equations_of k r z) fs).
Proof.
  intros Hk Hr Hz. unfold helper_equation_count. set (eqs := all_equations_of k r z).
  assert (Hlen : zlen eqs = z + r) by (apply all_equations_len; auto).
  assert (Hinit : counts fs (occurrences [] eqs) ∅) by (intros b; rewrite orb_true_r; apply lookup_empty).
  revert Hinit. generalize (∅ : gmap Z Z). change (occurrences selected eqs) with (occurrences ([] ++ selected) eqs).
  generalize (@nil Z) as done. induction selected as [|e sel IH]; intros done m Hm Hs; cbn [fold_left].
  { rewrite app_nil_r. exact Hm. }
  rewrite Forall_cons in Hs. destruct Hs as [He Hs]. destruct (Z.ltb_spec e 0), (Z.geb_spec e (zlen eqs)); try lia. cbn [orb].
  replace (done ++ e :: sel) with ((done ++ [e]) ++ sel) by (rewrite <- app_assoc; reflexivity).
  apply IH; [|exact Hs]. intros b.
  rewrite (count_blocks_spec fs _ m (occurrences done eqs));
    [|apply involved_nodup; auto|intros; unfold occurrences; lia|exact Hm].
  replace (occurrences (done ++ [e]) eqs b)
    with (occurrences done eqs b + if bool_decide (b ∈ involved_blocks eqs.[e]) then 1 else 0); [reflexivity|].
  unfold occurrences. rewrite List.filter_app, length_app. cbn [List.filter].
  destruct (bool_decide (b ∈ involved_blocks eqs.[e])); cbn [length]; lia.
Qed.

(** The hub is a survivor in the most equations, the smallest such block. *)
Definition best_hub (k r z : Z) (failed selected : list Z) (h : Z) : Prop :=
  0 <= h < k + r + z /\ h ∉ failed /\ 1 <= occurrences selected (all_equations_of k r z) h /\
  forall b, b ∉ failed ->
    occurrences selected (all_equations_of k r z) b <= occurrences selected (all_equations_of k r z) h /\
    (occurrences selected (all_equations_of k r z) b = occurrences selected (all_equations_of k r z) h ->
     1 <= occurrences selected (all_equations_of k r z) b -> h <= b).

Section Hub.
Context (k r z : Z) (Hk : 1 <= k) (Hr : 0 <= r) (Hz : 1 <= z).
Context (failed selected : list Z).
Context (Hsel : Forall (fun e => 0 <= e < z + r) selected).

Abbreviation occ b := (occurrences selected (all_equations_of k r z) b).
Abbreviation hmap := (helper_equation_count selected (all_equations_of k r z) (list_to_set failed)).

Lemma occurrences_pos b : 1 <= occ b -> 0 <= b < k + r + z.
Proof.
  unfold occurrences. intros H.
  destruct (List.filter _ selected) as [|e l] eqn:E; [cbn in H; lia|].
  assert (He : In e (e :: l)) by (left; reflexivity). rewrite <- E in He. apply filter_In in He as [He Hb].
  apply bool_decide_eq_true, list_elem_of_In in Hb. rewrite Forall_forall in Hsel.
  apply (involved_range k r z Hk Hr Hz e b); [apply Hsel, list_elem_of_In, He|exact Hb].
Qed.

Lemma hub_entry b c : (b, c) ∈ map_to_list hmap <-> b ∉ failed /\ c = occ b /\ 1 <= c.
Proof.
  rewrite elem_of_map_to_list.
  rewrite (helper_equation_count_spec k r z (list_to_set failed) selected Hk Hr Hz Hsel b).
  assert (0 <= occ b) by (unfold occurrences; lia).
  destruct (bool_decide_reflect (b ∈ (list_to_set failed : gset Z))) as [Hb|Hb]; rewrite elem_of_list_to_set in Hb;
    cbn [orb]; [split; [discriminate|tauto]|].
  destruct (Z.eqb_spec (occ b) 0); (split; [|intros (? & -> & ?)]); try discriminate; try lia; try reflexivity.
  intros [= <-]. split; [exact Hb|]. lia.
Qed.

(** Whatever the traversal order, the same hub is chosen. *)
Lemma select_hub_spec entries helpers : entries ≡ₚ map_to_list hmap ->
  (exists b, b ∉ failed /\ 1 <= occ b) ->
  exists h, select_hub entries helpers = Some h /\ best_hub k r z failed selected h.
Proof.
  intros Hp [b0 [Hb0 Ho0]].
  assert (Hall : Forall (fun kv => 0 <= fst kv /\ 1 <= snd kv) entries).
  { rewrite Hp. apply Forall_forall. intros [b c] Hbc. apply hub_entry in Hbc as (_ & -> & Hc).
    cbn [fst snd]. split; [apply (occurrences_pos b Hc)|exact Hc]. }
  destruct (hub_fold_spec entries (-1, -1) ltac:(right; reflexivity) Hall) as (H1 & _ & H3).
  unfold select_hub. destruct (fold_left hub_step entries (-1, -1)) as [h c] eqn:E.
  assert (Hin : (b0, occ b0) ∈ entries) by (rewrite Hp; apply hub_entry; auto).
  destruct H1 as [H1|H1].
  { exfalso. injection H1 as -> ->. apply (H3 _ Hin). left. cbn. lia. }
  rewrite Hp in H1. apply hub_entry in H1 as (Hf & -> & Hc). pose proof (occurrences_pos h Hc) as Hr'.
  destruct (Z.ltb_spec h 0); [lia|]. cbn [andb]. destruct (Z.ltb_spec h 0); [lia|].
  exists h. split; [reflexivity|]. split; [exact Hr'|]. split; [exact Hf|]. split; [exact Hc|].
  intros b Hb. destruct (Z.le_gt_cases 1 (occ b)) as [Hob|Hob]; [|split; lia].
  assert (Hbe : (b, occ b) ∈ entries) by (rewrite Hp; apply hub_entry; auto).
  specialize (H3 _ Hbe). unfold hub_better in H3. cbn [fst snd] in H3. lia.
Qed.

Lemma best_hub_unique h h' : best_hub k r z failed selected h -> best_hub k r z failed selected h' -> h = h'.
Proof.
  intros (_ & F1 & O1 & B1) (_ & F2 & O2 & B2). pose proof (B1 h' F2). pose proof (B2 h F1). lia.
Qed.
End Hub.

(** * What the hub recovers *)

Section HubDecode.
Context {S : StdSort} {SL : StdSortLaws S}.
Context (k r z : Z) (Hk : 1 <= k) (Hr : 0 <= r) (Hz : 1 <= z).
Context (failed : list Z) (hub : Z) (lookup : list GlrcPipelineNodeLookup).
Context (Hhub : 0 <= hub < k + r + z) (Hhf : hub ∉ failed).

(** The hub equations touch no block that a local chain repairs. *)
Definition self_contained (p : GlrcPipelinePlan) : Prop :=
  forall e b, In e (hub_equations p) -> b ∈ failed -> b ∈ local_direct_failed p ->
    glrc_eq_coef k r z e b = x00.

Lemma hub_chains_spec rp epoch p c : Forall (fun e => 0 <= e < z + r) (selected_equation_indices rp) ->
  glrc_build_pipeline_plan k r z failed rp (all_equations_of k r z) hub lookup epoch = inl p ->
  In c (hub_chains p) -> exists slot, 0 <= equation_index c < z + r /\
    build_chain k r z (list_to_set failed) (all_equations_of k r z) hub lookup slot (equation_index c) = inl c.
Proof.
  intros Hs H Hc. unfold glrc_build_pipeline_plan in H. destruct (_ || _); [discriminate|].
  destruct (build_chains _ _ _ _ _ _ _ _ _) as [chains|] eqn:Eb; [|discriminate]. injection H as <-.
  cbn [hub_chains] in Hc. apply filter_In in Hc as [Hc _].
  destruct (build_chains_spec k r z failed hub lookup 0 _ chains Eb) as [Hl H2].
  apply list_elem_of_In, list_elem_of_lookup in Hc as [i Hi]. pose proof (lookup_lt_Some _ _ _ Hi).
  destruct (lookup_lt_is_Some_2 (selected_equation_indices rp) i ltac:(lia)) as [e He].
  destruct (H2 i e He) as (c' & Hc' & Hbc). rewrite Hi in Hc'. injection Hc' as <-.
  assert (Her : 0 <= e < z + r) by (rewrite Forall_lookup in Hs; exact (Hs i e He)).
  destruct (build_chain_spec k r z Hk Hr Hz failed hub lookup _ e c Her Hhub Hhf Hbc) as (Ee & _).
  exists (0 + Z.of_nat i). rewrite Ee. split; [exact Her|exact Hbc].
Qed.

(** The hub restores its lost blocks when its system is regular and
    self-contained. *)
Lemma hub_restores rp epoch p codec stripe off len :
  glrc_build_pipeline_plan k r z failed rp (all_equations_of k r z) hub lookup epoch = inl p ->
  Forall (fun e => 0 <= e < z + r) (selected_equation_indices rp) ->
  valid_system k r z (hub_failed_ids failed p) (hub_equations p) -> hub_failed_ids failed p <> [] ->
  nonsingular (zlen (hub_failed_ids failed p)) (system_mx k r z (hub_failed_ids failed p) (hub_equations p)) ->
  self_contained p -> stripe_ok k r z (off + len) stripe -> 0 <= off -> 0 <= len ->
  exists rec, hub_recover k r z failed p (hub_rhs codec stripe off len p) len = Some rec /\
    restored (hub_failed_ids failed p) stripe len off (off + len) off rec.
Proof.
  intros Hp Hrp Hv Hne Hn Hsc Hs Ho Hl. pose proof (vs_len _ _ _ _ _ Hv) as Hlen.
  set (hf := hub_failed_ids failed p) in *.
  assert (Hpos : 0 < zlen hf) by (destruct hf; [contradiction|cbn [length]; lia]).
  assert (Hrl : zlen (hub_rhs codec stripe off len p) = zlen hf).
  { rewrite <- Hlen. unfold hub_rhs, hub_equations. rewrite !length_map. reflexivity. }
  assert (Hrhs : holds_rhs k r z hf (hub_equations p) (hub_rhs codec stripe off len p) off (off + len) off stripe).
  { intros ei i Hei Hi. unfold hub_rhs, hub_equations in *. rewrite length_map in Hrl.
    assert (Hcl : 0 <= ei < zlen (hub_chains p)) by lia.
    destruct (lookup_lt_is_Some_2 (hub_chains p) (Z.to_nat ei) ltac:(lia)) as [c Hc].
    rewrite (zget_Some (map equation_index (hub_chains p)) ei (equation_index c))
      by (lia || rewrite list_lookup_fmap, Hc; reflexivity).
    rewrite (zget_Some (map _ _) ei (run_chain codec len (chain_inputs stripe off c)))
      by (lia || rewrite list_lookup_fmap, Hc; reflexivity).
    assert (Hin : In c (hub_chains p)) by (apply list_elem_of_In, list_elem_of_lookup; eauto).
    destruct (hub_chains_spec rp epoch p c Hrp Hp Hin) as (slot & He & Hbc).
    rewrite (chain_result k r z Hk Hr Hz failed hub lookup slot (equation_index c) c codec stripe off len (i - off))
      by (auto; lia).
    apply xsum_ext. intros b Hb. replace (off + (i - off)) with i by lia.
    destruct (bool_decide_reflect (b ∈ failed)) as [Hbf|Hbf], (bool_decide_reflect (b ∈ hf)) as [Hbh|Hbh];
      try reflexivity.
    - rewrite (Hsc (equation_index c) b); [ring|apply in_map, Hin|exact Hbf|].
      destruct (decide (b ∈ local_direct_failed p)) as [|Hnl]; [assumption|]. exfalso. apply Hbh.
      apply list_elem_of_In, filter_In. split; [apply list_elem_of_In, Hbf|].
      apply negb_true_iff, bool_decide_eq_false, Hnl.
    - exfalso. apply Hbf. apply list_elem_of_In in Hbh. apply filter_In in Hbh as [Hbh _].
      apply list_elem_of_In, Hbh. }
  pose proof (rhs_compact_spec k r z Hk Hr Hz (hub_rhs codec stripe off len p) hf (hub_equations p) stripe off len
    Hv Hne Hs Ho Hl Hrl Hrhs) as Hrc.
  unfold hub_recover. fold hf. destruct (Z.leb_spec (zlen hf) 0); [lia|].
  destruct (Z.leb_spec (zlen (hub_chains p)) 0) as [Hc0|_].
  { exfalso. unfold hub_equations in Hlen. rewrite length_map in Hlen. lia. }
  cbn [orb]. replace (ztake (zlen hf) (hub_equations p)) with (hub_equations p)
    by (rewrite <- Hlen; unfold ztake; rewrite Nat2Z.id, take_ge by lia; reflexivity).
  destruct (glrc_ilp_prepare_inverse _ _ _ _ _) as [A_inv|]; [|contradiction].
  destruct Hrc as [_ (rec & E & Hrec)]. eauto.
Qed.
End HubDecode.

Lemma filter_all_negb {A} (p : A -> bool) l : List.filter p l = [] -> List.filter (fun x => negb (p x)) l = l.
Proof.
  induction l as [|x l IH]; cbn [List.filter]; [reflexivity|]. destruct (p x); [discriminate|].
  cbn [negb]. intros H. f_equal. apply IH, H.
Qed.

(** Without local chains the hub restores every lost block. *)
Lemma hub_only_restores {S : StdSort} {SL : StdSortLaws S} k r z failed hub lookup rp epoch p codec stripe off len :
  1 <= k -> 0 <= r -> 1 <= z -> 0 <= hub < k + r + z -> hub ∉ failed -> NoDup failed -> failed <> [] ->
  Forall (fun b => 0 <= b < k + r + z) failed ->
  good_selection k r z failed (selected_equation_indices rp) ->
  glrc_build_pipeline_plan k r z failed rp (all_equations_of k r z) hub lookup epoch = inl p ->
  local_direct_chains p = [] -> stripe_ok k r z (off + len) stripe -> 0 <= off -> 0 <= len ->
  exists rec, hub_recover k r z failed p (hub_rhs codec stripe off len p) len = Some rec /\
    restored failed stripe len off (off + len) off rec.
Proof.
  intros Hk Hr Hz Hhub Hhf Hnd Hne Hfr Hg Hp Hld Hs Ho Hl. pose proof Hg as (G1 & G2 & G3).
  assert (Ef : hub_failed_ids failed p = failed).
  { unfold hub_failed_ids, local_direct_failed. rewrite Hld. cbn [map list_to_set].
    apply filter_all_negb. clear. induction failed as [|x l IH]; cbn [List.filter]; [reflexivity|].
    rewrite bool_decide_false by apply not_elem_of_empty. exact IH. }
  assert (Ee : hub_equations p = selected_equation_indices rp).
  { unfold glrc_build_pipeline_plan in Hp. destruct (_ || _); [discriminate|].
    destruct (build_chains _ _ _ _ _ _ _ _ _) as [chains|] eqn:Eb; [|discriminate]. injection Hp as <-.
    unfold hub_equations. cbn [hub_chains local_direct_chains] in *.
    rewrite (filter_all_negb _ _ Hld).
    apply (chains_equations k r z Hk Hr Hz failed hub lookup 0); assumption. }
  pose proof (hub_restores k r z Hk Hr Hz failed hub lookup Hhub Hhf rp epoch p codec stripe off len Hp G1) as H.
  rewrite Ef, Ee in H. apply H; auto.
  - apply good_valid; auto.
  - intros e b _ _ Hb. unfold local_direct_failed in Hb. rewrite Hld in Hb. cbn [map list_to_set] in Hb.
    apply not_elem_of_empty in Hb as [].
Qed.
