(* ===== verification/PortAllocator.v ===== *)
(** Listen ports of the pipeline sessions: [GlrcPipelinePortAllocator] of
    [coordinator.cpp], its process-wide reservation tables, and the reservation
    and release of a whole plan by [recovery_glrc_ilp_pipeline_breakdown_ex].
    The clock, the [bind] probe and the environment variable
    [DDRT_ONE_PROXY_PER_HOST] are arguments. *)
From S2P Require Import Prelude GF256 RepairPlan PipelinePlan.
From Stdlib Require Import DecimalString DecimalZ.

(** * Constants of [config.h] *)

Definition PROXY_GRPC_BASE : Z := 50405.
Definition PROXY_GRPC_STRIDE : Z := 2.
Definition PROXY_GRPC_MAX_INDEX : Z := 79.
Definition PROXY_PIPELINE_EXCHANGE_BASE : Z := 20000.
Definition PROXY_PIPELINE_PER_PROXY_BAND : Z := 150.

(** * State *)

(** The static members.  The tables are only used through [operator[]], so an
    absent entry and an empty one are the same. *)
Record PortTables := {
  s_inflight_ports : gmap string (gset Z);
  s_hop_slot_cursor : gmap string Z;
  s_hub_slot_cursor : gmap string Z;
  s_port_cooldown_until : gmap string (gmap Z Z) }.

Record GlrcPipelinePortAllocator := {
  exchange_epoch_ : Z;
  used_ports_ : gmap string (gset Z) }.

Record GlrcPipelineChainPorts := {
  hop_listen_ports : list Z;
  hub_listen_port : Z }.

(** [table[key]] *)
Definition inflight (t : PortTables) (key : string) : gset Z := default ∅ (s_inflight_ports t !! key).
Definition cooling (t : PortTables) (key : string) : gmap Z Z := default ∅ (s_port_cooldown_until t !! key).
Definition used (a : GlrcPipelinePortAllocator) (key : string) : gset Z := default ∅ (used_ports_ a !! key).
Definition cursor_of (t : PortTables) (hub_band : bool) (key : string) : Z :=
  default 0 ((if hub_band then s_hub_slot_cursor t else s_hop_slot_cursor t) !! key).

(** [proxy_ip + ":" + std::to_string(proxy_grpc_port)] *)
Definition proxy_key (proxy_ip : string) (proxy_grpc_port : Z) : string :=
  proxy_ip +:+ ":" +:+ to_string proxy_grpc_port.

(** [table[key].erase(port)] on the cooldown table. *)
Definition erase_cooldown (key : string) (port : Z) (t : PortTables) : PortTables :=
  {| s_inflight_ports := s_inflight_ports t; s_hop_slot_cursor := s_hop_slot_cursor t;
     s_hub_slot_cursor := s_hub_slot_cursor t;
     s_port_cooldown_until := <[key := delete port (cooling t key)]> (s_port_cooldown_until t) |}.

(** [s_inflight_ports[key].insert(port); cursor = c;] *)
Definition reserve (hub_band : bool) (key : string) (port c : Z) (t : PortTables) : PortTables :=
  {| s_inflight_ports := <[key := {[port]} ∪ inflight t key]> (s_inflight_ports t);
     s_hop_slot_cursor := if hub_band then s_hop_slot_cursor t else <[key := c]> (s_hop_slot_cursor t);
     s_hub_slot_cursor := if hub_band then <[key := c]> (s_hub_slot_cursor t) else s_hub_slot_cursor t;
     s_port_cooldown_until := s_port_cooldown_until t |}.

Definition mark_used (key : string) (port : Z) (a : GlrcPipelinePortAllocator) : GlrcPipelinePortAllocator :=
  {| exchange_epoch_ := exchange_epoch_ a; used_ports_ := <[key := {[port]} ∪ used a key]> (used_ports_ a) |}.

Section Allocator.
(** [DDRT_ONE_PROXY_PER_HOST] is set to something other than "0...". *)
Context (dedicated_host : bool).

Definition pipeline_proxy_index (proxy_grpc_port : Z) : Z :=
  if dedicated_host then 0
  else
    let idx := Z.quot (proxy_grpc_port - PROXY_GRPC_BASE) PROXY_GRPC_STRIDE in
    if (idx <? 0) || (idx >? PROXY_GRPC_MAX_INDEX) then -1 else idx.

(** [probe] is the outcome of [bind] and [listen] on the port. *)
Definition pipeline_port_bindable (probe : Z -> bool) (port : Z) : bool :=
  if (port <=? 0) || (port >? 65535) then true else probe port.

Definition band : Z := if dedicated_host then 10000 else PROXY_PIPELINE_PER_PROXY_BAND.
Definition half : Z := Z.quot band 2.
Definition max_port (proxy_idx : Z) : Z := PROXY_PIPELINE_EXCHANGE_BASE + (proxy_idx + 1) * band - 1.

(** The port tried at an attempt; [%] is the remainder of C, and the sum before it
    an [int].  The cursors are remainders by [half]. *)
Definition attempt_port (epoch chain_id hop_index cursor : Z) (hub_band : bool) (proxy_idx attempt : Z) : Z :=
  let slot_in_half := Z.rem (int32 (epoch * 31 + chain_id * 17 + hop_index * 11 + cursor + attempt)) half in
  let slot := if hub_band then half + slot_in_half else slot_in_half in
  let port := PROXY_PIPELINE_EXCHANGE_BASE + proxy_idx * band + slot in
  if port =? 55555 then port + 1 else port.

(** One turn of the loop: [inl] is [continue], [inr] is [return]. *)
Definition allocate_attempt (now : Z) (probe : Z -> bool) (a : GlrcPipelinePortAllocator) (key : string)
    (proxy_idx : Z) (hub_band : bool) (chain_id hop_index cursor attempt : Z) (t : PortTables)
  : PortTables + (Z * PortTables * GlrcPipelinePortAllocator) :=
  let port := attempt_port (exchange_epoch_ a) chain_id hop_index cursor hub_band proxy_idx attempt in
  if (port <=? 0) || (port >? 65535) || (port >? max_port proxy_idx) then inl t
  else if bool_decide (port ∈ inflight t key) then inl t
  else if (match cooling t key !! port with Some until => until >? now | None => false end) then inl t
  else
    let t := match cooling t key !! port with Some _ => erase_cooldown key port t | None => t end in
    if negb (pipeline_port_bindable probe port) then inl t
    else if bool_decide (port ∈ used a key) then inl t
    else inr (port, reserve hub_band key port (Z.rem (cursor + attempt + 1) half) t, mark_used key port a).

Definition allocate (now : Z) (probe : Z -> bool) (proxy_ip : string) (proxy_grpc_port : Z) (hub_band : bool)
    (chain_id hop_index : Z) (t : PortTables) (a : GlrcPipelinePortAllocator)
  : Z * PortTables * GlrcPipelinePortAllocator :=
  let proxy_idx := pipeline_proxy_index proxy_grpc_port in
  if proxy_idx <? 0 then (-1, t, a)
  else
    let key := proxy_key proxy_ip proxy_grpc_port in
    let cursor := cursor_of t hub_band key in
    match for_exit 0 half (fun attempt t => allocate_attempt now probe a key proxy_idx hub_band chain_id
                                              hop_index cursor attempt t) t with
    | inr r => r
    | inl t => (-1, t, a)
    end.

Definition allocate_hop_port (now : Z) (probe : Z -> bool) (proxy_ip : string) (proxy_grpc_port chain_id hop_index : Z)
    (t : PortTables) (a : GlrcPipelinePortAllocator) : Z * PortTables * GlrcPipelinePortAllocator :=
  allocate now probe proxy_ip proxy_grpc_port false chain_id hop_index t a.

Definition allocate_hub_port (now : Z) (probe : Z -> bool) (proxy_ip : string) (proxy_grpc_port chain_id : Z)
    (t : PortTables) (a : GlrcPipelinePortAllocator) : Z * PortTables * GlrcPipelinePortAllocator :=
  allocate now probe proxy_ip proxy_grpc_port true 0 0 t a.

(** * Release *)

(** Nanoseconds of the steady clock. *)
Definition cooldown_period : Z := 30 * 1000000000.

Definition release_port (cooldown_until : Z) (key : string) (port : Z) (t : PortTables) : PortTables :=
  if dedicated_host then t
  else
    {| s_inflight_ports := <[key := inflight t key ∖ {[port]}]> (s_inflight_ports t);
       s_hop_slot_cursor := s_hop_slot_cursor t; s_hub_slot_cursor := s_hub_slot_cursor t;
       s_port_cooldown_until := <[key := <[port := cooldown_until]> (cooling t key)]> (s_port_cooldown_until t) |}.

(** The ports of a chain in the order of the loop, with their proxies, then the
    port of its sink. *)
Definition chain_listeners (chain_ports : gmap Z GlrcPipelineChainPorts) (chain : GlrcPipelineChainPlan)
    (sink_ip : string) (sink_port : Z) : list (string * Z * Z) :=
  match chain_ports !! chain_id chain with
  | None => []
  | Some cp =>
      zip_with (fun h p => (hop_proxy_ip h, hop_proxy_port h, p)) (hops chain) (hop_listen_ports cp) ++
      [(sink_ip, sink_port, hub_listen_port cp)]
  end.

(** The traversal of [hub_chains], then [local_direct_chains]. *)
Definition plan_listeners (chain_ports : gmap Z GlrcPipelineChainPorts) (p : GlrcPipelinePlan)
  : list (string * Z * Z) :=
  concat (map (fun c => chain_listeners chain_ports c (hub_proxy_ip p) (hub_proxy_port p)) (hub_chains p)) ++
  concat (map (fun c => chain_listeners chain_ports c (local_direct_sink_proxy_ip c)
                          (local_direct_sink_proxy_port c)) (local_direct_chains p)).

Definition release_inflight_ports (now : Z) (chain_ports : gmap Z GlrcPipelineChainPorts)
    (p : GlrcPipelinePlan) (t : PortTables) : PortTables :=
  fold_left (fun t '(ip, grpc, port) => release_port (now + cooldown_period) (proxy_key ip grpc) port t)
    (plan_listeners chain_ports p) t.

Definition reset_port_session (t : PortTables) : PortTables :=
  {| s_inflight_ports := ∅; s_hop_slot_cursor := s_hop_slot_cursor t;
     s_hub_slot_cursor := s_hub_slot_cursor t; s_port_cooldown_until := ∅ |}.

(** * Reserving the ports of a plan *)

(** What a call finds: the clock, the probe, and the tables after whatever other
    sessions did since the previous call (the mutex is held per call). *)
Record Moment := { at_time : Z; at_probe : Z -> bool; interfere : PortTables -> PortTables }.

Record SessionPorts := {
  calls : nat;
  tables : PortTables;
  allocator : GlrcPipelinePortAllocator;
  chain_ports : gmap Z GlrcPipelineChainPorts }.

Context (moments : nat -> Moment).

(** One call of [allocate] in the session. *)
Definition session_allocate (proxy_ip : string) (proxy_grpc_port : Z) (hub_band : bool) (chain_id hop_index : Z)
    (s : SessionPorts) : Z * SessionPorts :=
  let m := moments (calls s) in
  let '(port, t, a) := (if hub_band then allocate_hub_port (at_time m) (at_probe m) proxy_ip proxy_grpc_port chain_id
                        else allocate_hop_port (at_time m) (at_probe m) proxy_ip proxy_grpc_port chain_id hop_index)
                         (interfere m (tables s)) (allocator s) in
  (port, {| calls := S (calls s); tables := t; allocator := a; chain_ports := chain_ports s |}).

(** The hop loop: the ports so far, [false] when an allocation failed. *)
Fixpoint allocate_hops (chain_id hop_index : Z) (hs : list GlrcPipelineHopInfo) (acc : list Z) (s : SessionPorts)
  : bool * list Z * SessionPorts :=
  match hs with
  | [] => (true, acc, s)
  | h :: hs' =>
      let '(port, s) := session_allocate (hop_proxy_ip h) (hop_proxy_port h) false chain_id hop_index s in
      if port <=? 0 then (false, acc, s)
      else allocate_hops chain_id (hop_index + 1) hs' (acc ++ [port]) s
  end.

Definition set_chain_ports (id : Z) (cp : GlrcPipelineChainPorts) (s : SessionPorts) : SessionPorts :=
  {| calls := calls s; tables := tables s; allocator := allocator s;
     chain_ports := <[id := cp]> (chain_ports s) |}.

Definition allocate_chain_ports (chain : GlrcPipelineChainPlan) (sink_ip : string) (sink_port : Z)
    (s : SessionPorts) : bool * SessionPorts :=
  let '(ok, ports, s) := allocate_hops (chain_id chain) 0 (hops chain) [] s in
  if negb ok then (false, s)
  else
    let '(hub, s) := session_allocate sink_ip sink_port true (chain_id chain) 0 s in
    if hub <=? 0 then (false, s)
    else (true, set_chain_ports (chain_id chain) {| hop_listen_ports := ports; hub_listen_port := hub |} s).

(** [for (chain : chains) if (!allocate_chain_ports(...)) return false;] *)
Fixpoint allocate_chains (sink : GlrcPipelineChainPlan -> string * Z) (chains : list GlrcPipelineChainPlan)
    (s : SessionPorts) : bool * SessionPorts :=
  match chains with
  | [] => (true, s)
  | c :: rest =>
      let '(ok, s) := allocate_chain_ports c (fst (sink c)) (snd (sink c)) s in
      if ok then allocate_chains sink rest s else (false, s)
  end.

Definition allocate_plan (epoch : Z) (p : GlrcPipelinePlan) (t : PortTables) : bool * SessionPorts :=
  let s := {| calls := 0; tables := t; chain_ports := ∅;
              allocator := {| exchange_epoch_ := epoch; used_ports_ := ∅ |} |} in
  let '(ok, s) := allocate_chains (fun _ => (hub_proxy_ip p, hub_proxy_port p)) (hub_chains p) s in
  if ok then allocate_chains (fun c => (local_direct_sink_proxy_ip c, local_direct_sink_proxy_port c))
               (local_direct_chains p) s
  else (false, s).
End Allocator.

(** The pass over the assigned ports with [check_port]: every port is positive
    and new for its proxy. *)
Fixpoint check_ports (assigned : gset (string * Z)) (l : list (string * Z * Z)) : bool :=
  match l with
  | [] => true
  | (ip, grpc, port) :: rest =>
      if port <=? 0 then false
      else if bool_decide ((proxy_key ip grpc, port) ∈ assigned) then false
      else check_ports ({[(proxy_key ip grpc, port)]} ∪ assigned) rest
  end.

(** * Keys *)

Lemma to_string_inj a b : to_string a = to_string b -> a = b.
Proof.
  intros H. apply to_int_inj. unfold to_string in H.
  assert (Hn : forall x, Z.to_int x <> Decimal.Pos Decimal.Nil /\ Z.to_int x <> Decimal.Neg Decimal.Nil).
  { intros [|p|p]; cbn; split; try discriminate; intros E; injection E as E;
      apply (DecimalPos.Unsigned.to_uint_nonnil p E). }
  apply (f_equal NilZero.int_of_string) in H.
  rewrite !NilZero.isi in H by apply Hn. injection H as H. exact H.
Qed.

Lemma proxy_key_inj ip g g' : proxy_key ip g = proxy_key ip g' -> g = g'.
Proof.
  unfold proxy_key. intros H. apply to_string_inj.
  exact (String.app_inj ":" _ _ (String.app_inj ip _ _ H)).
Qed.

(** * One allocation *)

(** The ports of a proxy's half band. *)
Definition in_half (dedicated hub_band : bool) (idx p : Z) : Prop :=
  let lo := PROXY_PIPELINE_EXCHANGE_BASE + idx * band dedicated + (if hub_band then half dedicated else 0) in
  lo <= p < lo + half dedicated.

(** Nothing keeps the allocator from handing out [p]. *)
Definition port_free (now : Z) (probe : Z -> bool) (t : PortTables) (a : GlrcPipelinePortAllocator)
    (key : string) (p : Z) : Prop :=
  p ∉ inflight t key /\ (forall u, cooling t key !! p = Some u -> u <= now) /\ probe p = true /\ p ∉ used a key.

(** Cursors are offsets. *)
Definition cursors_ok (t : PortTables) : Prop := forall hub_band key, 0 <= cursor_of t hub_band key.

(** They stay below half a band. *)
Definition cursors_small (dedicated : bool) (t : PortTables) : Prop := forall hub_band key, cursor_of t hub_band key < half dedicated.

(** A port the allocator's guard lets through. *)
Definition port_valid (dedicated : bool) (idx p : Z) : Prop := 0 < p <= 65535 /\ p <= max_port dedicated idx.

(** What a loop that reserves nothing does to the tables: entries whose time has
    passed are dropped. *)
Definition expired_dropped (now : Z) (t t' : PortTables) : Prop :=
  s_inflight_ports t' = s_inflight_ports t /\ s_hop_slot_cursor t' = s_hop_slot_cursor t /\
  s_hub_slot_cursor t' = s_hub_slot_cursor t /\
  (forall key p u, cooling t' key !! p = Some u -> cooling t key !! p = Some u) /\
  (forall key p u, now < u -> cooling t key !! p = Some u -> cooling t' key !! p = Some u).

Lemma cooling_erase t key key' port p :
  cooling (erase_cooldown key port t) key' !! p =
  if bool_decide (key' = key /\ p = port) then None else cooling t key' !! p.
Proof.
  unfold cooling at 1. cbn [erase_cooldown s_port_cooldown_until].
  destruct (decide (key' = key)) as [->|Hk].
  - rewrite lookup_insert_eq. cbn [default]. case_bool_decide as Hc.
    + destruct Hc as [_ ->]. apply lookup_delete_eq.
    + apply lookup_delete_ne. intros ->. apply Hc. split; reflexivity.
  - rewrite lookup_insert_ne by congruence. rewrite bool_decide_eq_false_2 by tauto. reflexivity.
Qed.

Lemma expired_refl now t : expired_dropped now t t.
Proof. repeat split; auto. Qed.

Lemma expired_erase now t t' key port : expired_dropped now t t' ->
  (forall u, cooling t' key !! port = Some u -> u <= now) ->
  expired_dropped now t (erase_cooldown key port t').
Proof.
  intros (H1 & H2 & H3 & H4 & H5) Hu. repeat split; auto.
  - intros key' p u. rewrite cooling_erase. case_bool_decide; [discriminate|apply H4].
  - intros key' p u Hlt Hc. rewrite cooling_erase. apply H5 in Hc; [|exact Hlt].
    case_bool_decide as Hk; [|exact Hc]. destruct Hk as [-> ->]. apply Hu in Hc. lia.
Qed.

Lemma expired_inflight now t t' key : expired_dropped now t t' -> inflight t' key = inflight t key.
Proof. intros (H1 & _). unfold inflight. rewrite H1. reflexivity. Qed.

Lemma expired_free now probe t t' a key p : expired_dropped now t t' ->
  port_free now probe t a key p <-> port_free now probe t' a key p.
Proof.
  intros He. pose proof (expired_inflight now t t' key He) as Hi.
  destruct He as (_ & _ & _ & H4 & H5). unfold port_free. rewrite Hi.
  split; intros (Ha & Hb & Hc); (split; [exact Ha|split; [|exact Hc]]); intros u Hu.
  - apply Hb, H4, Hu.
  - destruct (Z.le_gt_cases u now) as [|Hlt]; [assumption|]. apply Hb, H5; assumption.
Qed.

Section OneAllocation.
Context (dedicated : bool).

Lemma half_pos : 0 < half dedicated /\ 2 * half dedicated = band dedicated.
Proof. unfold half, band. destruct dedicated; vm_compute; split; reflexivity. Qed.

Lemma proxy_index_range g : 0 <= pipeline_proxy_index dedicated g ->
  pipeline_proxy_index dedicated g <= (if dedicated then 0 else PROXY_GRPC_MAX_INDEX).
Proof.
  unfold pipeline_proxy_index. destruct dedicated; [lia|].
  destruct (Z.quot (g - PROXY_GRPC_BASE) PROXY_GRPC_STRIDE <? 0) eqn:E1; cbn [orb]; [lia|].
  destruct (_ >? _) eqn:E2; lia.
Qed.

Context (now : Z) (probe : Z -> bool) (a : GlrcPipelinePortAllocator) (key : string) (idx : Z) (hub_band : bool).
Context (chain hop cursor : Z).

Notation port_at := (attempt_port dedicated (exchange_epoch_ a) chain hop cursor hub_band idx).

Lemma allocate_attempt_spec i t t0 : expired_dropped now t0 t ->
  match allocate_attempt dedicated now probe a key idx hub_band chain hop cursor i t with
  | inl t' => expired_dropped now t0 t' /\ ~ (port_valid dedicated idx (port_at i) /\ port_free now probe t0 a key (port_at i))
  | inr r => exists t', r = (port_at i, reserve hub_band key (port_at i) (Z.rem (cursor + i + 1) (half dedicated)) t',
                             mark_used key (port_at i) a) /\
               expired_dropped now t0 t' /\ port_valid dedicated idx (port_at i) /\ port_free now probe t0 a key (port_at i)
  end.
Proof.
  intros He. unfold allocate_attempt. set (p := port_at i) in *. clearbody p.
  pose proof (expired_free now probe t0 t a key p He) as Hf.
  destruct ((p <=? 0) || (p >? 65535) || (p >? max_port dedicated idx)) eqn:Ev.
  { split; [exact He|]. intros [Hv _]. unfold port_valid in Hv. lia. }
  assert (Hv : port_valid dedicated idx p) by (unfold port_valid; lia). pose proof Hv as [Hv1 Hv2].
  case_bool_decide as Hin; [split; [exact He|intros [_ H]; apply Hf in H as (H & _); exact (H Hin)]|].
  assert (Hbind : pipeline_port_bindable probe p = probe p) by (unfold pipeline_port_bindable; zcases; reflexivity).
  rewrite Hbind.
  assert (Hgo : forall t', expired_dropped now t0 t' -> (forall u, cooling t key !! p = Some u -> u <= now) ->
    match (if negb (probe p) then inl t' else if bool_decide (p ∈ used a key) then inl t' else
           inr (p, reserve hub_band key p (Z.rem (cursor + i + 1) (half dedicated)) t', mark_used key p a)) with
    | inl t' => expired_dropped now t0 t' /\ ~ (port_valid dedicated idx p /\ port_free now probe t0 a key p)
    | inr r => exists t', r = (p, reserve hub_band key p (Z.rem (cursor + i + 1) (half dedicated)) t',
                               mark_used key p a) /\
                 expired_dropped now t0 t' /\ port_valid dedicated idx p /\ port_free now probe t0 a key p
    end).
  { intros t' Ht' Hexp. destruct (probe p) eqn:Ep; cbn [negb].
    2: { split; [exact Ht'|]. intros (_ & _ & _ & H & _). congruence. }
    case_bool_decide as Hu; [split; [exact Ht'|intros (_ & _ & _ & _ & H); exact (H Hu)]|].
    exists t'. split; [reflexivity|]. split; [exact Ht'|]. split; [exact Hv|]. apply Hf. repeat split; auto. }
  destruct (cooling t key !! p) as [u|] eqn:Ec; [|apply Hgo; [exact He|intros u [=]]].
  destruct (Z.gtb_spec u now) as [Hlt|Hle].
  { split; [exact He|]. intros [_ H]. apply Hf in H as (_ & H & _). specialize (H u Ec). lia. }
  assert (Hexp : forall u', Some u = Some u' -> u' <= now) by (intros u' [= <-]; exact Hle).
  apply Hgo; [apply expired_erase; [exact He|rewrite Ec; exact Hexp]|exact Hexp].
Qed.

(** The whole loop: every attempt is blocked, or some attempt reserves its port. *)
Lemma allocate_loop t :
  match for_exit 0 (half dedicated) (fun attempt t =>
          allocate_attempt dedicated now probe a key idx hub_band chain hop cursor attempt t) t with
  | inl t' => expired_dropped now t t' /\
      forall i, 0 <= i < half dedicated -> ~ (port_valid dedicated idx (port_at i) /\ port_free now probe t a key (port_at i))
  | inr r => exists i t', 0 <= i < half dedicated /\
      r = (port_at i, reserve hub_band key (port_at i) (Z.rem (cursor + i + 1) (half dedicated)) t',
           mark_used key (port_at i) a) /\
      expired_dropped now t t' /\ port_valid dedicated idx (port_at i) /\ port_free now probe t a key (port_at i)
  end.
Proof.
  apply (for_exit_ind (fun i t' => expired_dropped now t t' /\
    forall j, 0 <= j < i -> ~ (port_valid dedicated idx (port_at j) /\ port_free now probe t a key (port_at j)))).
  - pose proof half_pos. lia.
  - split; [apply expired_refl|lia].
  - intros i s Hi [He Hb]. pose proof (allocate_attempt_spec i s t He) as A.
    destruct (allocate_attempt _ _ _ _ _ _ _ _ _ _ i s) as [s'|r].
    + split; [apply A|]. intros j Hj. destruct (Z.eq_dec j i) as [->|Hne]; [apply A|apply Hb; lia].
    + destruct A as (s' & -> & A). exists i, s'. split; [lia|]. split; [reflexivity|exact A].
Qed.
Context (Hidx : 0 <= idx <= if dedicated then 0 else PROXY_GRPC_MAX_INDEX).
Lemma in_half_valid p : in_half dedicated hub_band idx p -> port_valid dedicated idx p.
Proof.
  unfold in_half, port_valid, max_port. pose proof half_pos as [Hh Hb].
  assert (idx * band dedicated + band dedicated <= 12000).
  { unfold band. destruct dedicated; unfold PROXY_GRPC_MAX_INDEX, PROXY_PIPELINE_PER_PROXY_BAND in *; lia. }
  unfold PROXY_PIPELINE_EXCHANGE_BASE. intros H1. destruct hub_band; nia.
Qed.

Context (Hseed : 0 <= exchange_epoch_ a * 31 + chain * 17 + hop * 11 + cursor <= 2 ^ 31 - half dedicated).

(** As long as the sum is an [int], the port lies in the half band; the bump over
    55555 is never taken. *)
Lemma attempt_port_eq i : 0 <= i < half dedicated ->
  port_at i = PROXY_PIPELINE_EXCHANGE_BASE + idx * band dedicated + (if hub_band then half dedicated else 0) +
              (exchange_epoch_ a * 31 + chain * 17 + hop * 11 + cursor + i) mod half dedicated.
Proof.
  intros Hi. pose proof half_pos as [Hh Hb]. unfold attempt_port.
  rewrite int32_id, Z.rem_mod_nonneg by lia. set (m := _ mod _).
  assert (Hm : 0 <= m < half dedicated) by (apply Z.mod_pos_bound; lia). clearbody m.
  assert (idx * band dedicated + band dedicated <= 12000).
  { unfold band. destruct dedicated; unfold PROXY_GRPC_MAX_INDEX, PROXY_PIPELINE_PER_PROXY_BAND in *; lia. }
  unfold PROXY_PIPELINE_EXCHANGE_BASE. destruct hub_band; destruct (_ =? 55555) eqn:E; lia.
Qed.

Lemma attempt_port_in i : 0 <= i < half dedicated -> in_half dedicated hub_band idx (port_at i).
Proof.
  intros Hi. rewrite attempt_port_eq by lia. unfold in_half.
  pose proof half_pos as [Hh _].
  pose proof (Z.mod_pos_bound (exchange_epoch_ a * 31 + chain * 17 + hop * 11 + cursor + i) _ Hh). lia.
Qed.

(** The attempts try every port of the half band. *)
Lemma attempt_port_onto p : in_half dedicated hub_band idx p ->
  exists i, 0 <= i < half dedicated /\ port_at i = p.
Proof.
  unfold in_half. intros Hp. pose proof half_pos as [Hh _].
  set (lo := PROXY_PIPELINE_EXCHANGE_BASE + idx * band dedicated + (if hub_band then half dedicated else 0)) in *.
  set (s := exchange_epoch_ a * 31 + chain * 17 + hop * 11 + cursor) in *.
  exists ((p - lo - s) mod half dedicated). pose proof (Z.mod_pos_bound (p - lo - s) _ Hh).
  split; [lia|]. rewrite attempt_port_eq by lia. fold lo s.
  rewrite Zplus_mod_idemp_r. replace (s + (p - lo - s)) with (p - lo) by lia.
  rewrite Z.mod_small by lia. lia.
Qed.

End OneAllocation.

Lemma inflight_reserve hub_band key p c t key' :
  inflight (reserve hub_band key p c t) key' =
  if bool_decide (key' = key) then {[p]} ∪ inflight t key else inflight t key'.
Proof.
  unfold inflight at 1. cbn [reserve s_inflight_ports]. case_bool_decide as H.
  - subst. rewrite lookup_insert_eq. reflexivity.
  - rewrite lookup_insert_ne by congruence. reflexivity.
Qed.

Lemma used_mark key p a key' :
  used (mark_used key p a) key' = if bool_decide (key' = key) then {[p]} ∪ used a key else used a key'.
Proof.
  unfold used at 1. cbn [mark_used used_ports_]. case_bool_decide as H.
  - subst. rewrite lookup_insert_eq. reflexivity.
  - rewrite lookup_insert_ne by congruence. reflexivity.
Qed.

Lemma cursors_reserve hub_band key p c t : 0 <= c -> cursors_ok t -> cursors_ok (reserve hub_band key p c t).
Proof.
  intros Hc Ht hb key'. specialize (Ht hb key'). unfold cursor_of in *.
  destruct hb, hub_band; cbn [reserve s_hub_slot_cursor s_hop_slot_cursor]; try exact Ht;
    (destruct (decide (key' = key)) as [->|Hk];
     [rewrite lookup_insert_eq; exact Hc|rewrite lookup_insert_ne by congruence; exact Ht]).
Qed.

Lemma cursors_expired now t t' : expired_dropped now t t' -> cursors_ok t -> cursors_ok t'.
Proof.
  intros (_ & H2 & H3 & _) Ht hb key. specialize (Ht hb key). unfold cursor_of in *.
  rewrite H2, H3. exact Ht.
Qed.

Lemma small_reserve dedicated hub_band key p c t : c < half dedicated -> cursors_small dedicated t ->
  cursors_small dedicated (reserve hub_band key p c t).
Proof.
  intros Hc Ht hb key'. specialize (Ht hb key'). unfold cursor_of in *.
  destruct hb, hub_band; cbn [reserve s_hub_slot_cursor s_hop_slot_cursor]; try exact Ht;
    (destruct (decide (key' = key)) as [->|Hk];
     [rewrite lookup_insert_eq; exact Hc|rewrite lookup_insert_ne by congruence; exact Ht]).
Qed.

Lemma small_expired dedicated now t t' : expired_dropped now t t' -> cursors_small dedicated t -> cursors_small dedicated t'.
Proof.
  intros (_ & H2 & H3 & _) Ht hb key. specialize (Ht hb key). unfold cursor_of in *.
  rewrite H2, H3. exact Ht.
Qed.

(** [allocate] hands out a port it tried, that is valid and that nothing blocks,
    records it, and fails only when every port it tries is blocked. *)
Lemma allocate_spec dedicated now probe ip g hub_band chain hop t a p t' a' :
  cursors_ok t -> allocate dedicated now probe ip g hub_band chain hop t a = (p, t', a') ->
  let key := proxy_key ip g in
  let idx := pipeline_proxy_index dedicated g in
  let port_at := attempt_port dedicated (exchange_epoch_ a) chain hop (cursor_of t hub_band key) hub_band idx in
  cursors_ok t' /\ (cursors_small dedicated t -> cursors_small dedicated t') /\ exchange_epoch_ a' = exchange_epoch_ a /\
  ((p = -1 /\ a' = a /\ (forall key', inflight t' key' = inflight t key') /\
    (idx < 0 \/ forall i, 0 <= i < half dedicated -> ~ (port_valid dedicated idx (port_at i) /\ port_free now probe t a key (port_at i)))) \/
   (0 <= idx /\ (exists i, 0 <= i < half dedicated /\ p = port_at i) /\ port_valid dedicated idx p /\ port_free now probe t a key p /\
    (forall key', inflight t' key' = if bool_decide (key' = key) then {[p]} ∪ inflight t key else inflight t key') /\
    (forall key', used a' key' = if bool_decide (key' = key) then {[p]} ∪ used a key else used a key'))).
Proof.
  intros Ht E key idx port_at. unfold allocate in E. fold key idx in E.
  destruct (Z.ltb_spec idx 0) as [Hneg|Hidx].
  { injection E as <- <- <-. split; [exact Ht|]. split; [auto|]. split; [reflexivity|]. left. auto. }
  pose proof (half_pos dedicated) as [Hh _]. pose proof (Ht hub_band key) as Hcur.
  set (cursor := cursor_of t hub_band key) in *.
  pose proof (allocate_loop dedicated now probe a key idx hub_band chain hop cursor t) as L.
  destruct (for_exit 0 (half dedicated) _ t) as [s|r].
  - destruct L as [He Hb]. injection E as <- <- <-.
    split; [eapply cursors_expired; eassumption|]. split; [eapply small_expired; eassumption|]. split; [reflexivity|]. left.
    split; [reflexivity|]. split; [reflexivity|]. split; [intros; eapply expired_inflight, He|]. right. exact Hb.
  - destruct L as (i & s & Hi & -> & He & Hv & Hf). injection E as <- <- <-.
    split; [apply cursors_reserve; [apply Z.rem_nonneg; lia|eapply cursors_expired; eassumption]|].
    split; [intros Hsm; apply small_reserve; [apply Z.rem_bound_pos; lia|eapply small_expired; eassumption]|].
    split; [reflexivity|]. right. split; [exact Hidx|]. split; [exists i; auto|]. split; [exact Hv|]. split; [exact Hf|]. split; [|apply used_mark].
    intros key'. rewrite inflight_reserve, (expired_inflight now t s key He), (expired_inflight now t s key' He).
    reflexivity.
Qed.

(** * Release *)

(** A listener as the tables see it. *)
Definition keyport (l : string * Z * Z) : string * Z := let '(ip, g, p) := l in (proxy_key ip g, p).

Lemma inflight_release_port dedicated u key p t key' q :
  q ∈ inflight (release_port dedicated u key p t) key' <->
  q ∈ inflight t key' /\ (dedicated = true \/ (key', q) <> (key, p)).
Proof.
  unfold release_port. destruct dedicated; [tauto|].
  unfold inflight at 1. cbn [s_inflight_ports]. destruct (decide (key' = key)) as [->|Hk].
  - rewrite lookup_insert_eq. simpl. rewrite elem_of_difference, elem_of_singleton. naive_solver.
  - rewrite lookup_insert_ne by congruence. fold (inflight t key'). naive_solver.
Qed.

Lemma inflight_release dedicated now cps p t key q :
  q ∈ inflight (release_inflight_ports dedicated now cps p t) key <->
  q ∈ inflight t key /\ (dedicated = true \/ (key, q) ∉ map keyport (plan_listeners cps p)).
Proof.
  unfold release_inflight_ports. generalize (plan_listeners cps p). intros l. revert t.
  induction l as [|[[ip g] port] l IH]; intros t; cbn [fold_left map keyport].
  - set_solver.
  - rewrite IH, inflight_release_port. set_solver.
Qed.

Lemma cursor_release dedicated now cps p t hb key :
  cursor_of (release_inflight_ports dedicated now cps p t) hb key = cursor_of t hb key.
Proof.
  unfold release_inflight_ports. generalize (plan_listeners cps p). intros l. revert t.
  induction l as [|[[ip g] port] l IH]; intros t; cbn [fold_left]; [reflexivity|].
  rewrite IH. unfold release_port. destruct dedicated; reflexivity.
Qed.

(** * Interleaved sessions *)

(** A reservation held by a session: what it got from [allocate] and has not
    released. *)
Record Reservation := { res_session : nat; res_ip : string; res_grpc : Z; res_port : Z }.

Definition listener (r : Reservation) : string * Z * Z := (res_ip r, res_grpc r, res_port r).

#[export] Instance Reservation_eq_dec : EqDecision Reservation.
Proof. solve_decision. Defined.

Record World := {
  w_tables : PortTables;
  w_sessions : gmap nat GlrcPipelinePortAllocator;
  w_held : list Reservation }.

Definition initial_world : World :=
  {| w_tables := {| s_inflight_ports := ∅; s_hop_slot_cursor := ∅; s_hub_slot_cursor := ∅;
                    s_port_cooldown_until := ∅ |};
     w_sessions := ∅; w_held := [] |}.

Section Interleaving.
Context (dedicated : bool).

(** Sessions open, allocate and release in any order; each call is atomic
    because it holds [s_alloc_mutex].  The epoch of a session and the ids of its
    chains and hops are small enough for the [int] sum of a slot, which for
    [cursor] and [attempt] below [half] leaves some 69 million epochs. *)
Inductive step (w : World) : World -> Prop :=
| step_open s epoch : w_sessions w !! s = None -> 0 <= epoch ->
    step w {| w_tables := w_tables w; w_held := w_held w;
              w_sessions := <[s := {| exchange_epoch_ := epoch; used_ports_ := ∅ |}]> (w_sessions w) |}
| step_allocate s a now probe ip g hub_band chain hop p t' a' :
    w_sessions w !! s = Some a -> 0 <= chain -> 0 <= hop ->
    exchange_epoch_ a * 31 + chain * 17 + hop * 11 <= 2 ^ 31 - band dedicated ->
    allocate dedicated now probe ip g hub_band chain hop (w_tables w) a = (p, t', a') ->
    step w {| w_tables := t'; w_sessions := <[s := a']> (w_sessions w);
              w_held := if p <=? 0 then w_held w
                        else {| res_session := s; res_ip := ip; res_grpc := g; res_port := p |} :: w_held w |}
| step_release s now cps p :
    (forall l, l ∈ plan_listeners cps p -> exists r, r ∈ w_held w /\ res_session r = s /\ listener r = l) ->
    step w {| w_tables := release_inflight_ports dedicated now cps p (w_tables w);
              w_sessions := w_sessions w;
              w_held := filter (fun r => ~ (res_session r = s /\ listener r ∈ plan_listeners cps p)) (w_held w) |}.

Record world_ok (w : World) : Prop := {
  ok_cursors : cursors_ok (w_tables w);
  ok_small : cursors_small dedicated (w_tables w);
  ok_epochs : forall s a, w_sessions w !! s = Some a -> 0 <= exchange_epoch_ a;
  ok_distinct : NoDup (map (fun r => keyport (listener r)) (w_held w));
  ok_inflight : forall r, r ∈ w_held w -> res_port r ∈ inflight (w_tables w) (proxy_key (res_ip r) (res_grpc r));
  ok_band : forall r, r ∈ w_held w -> let idx := pipeline_proxy_index dedicated (res_grpc r) in
    0 <= idx /\ exists hub_band, in_half dedicated hub_band idx (res_port r) }.

Lemma initial_ok : world_ok initial_world.
Proof.
  split; cbn.
  - intros [] key; reflexivity.
  - intros hb key. replace (cursor_of _ _ _) with 0 by (destruct hb; reflexivity). apply half_pos.
  - intros s a H. rewrite lookup_empty in H. discriminate.
  - constructor.
  - set_solver.
  - set_solver.
Qed.

Lemma held_unique w r r' : world_ok w -> r ∈ w_held w -> r' ∈ w_held w ->
  keyport (listener r) = keyport (listener r') -> r = r'.
Proof.
  intros [_ _ _ Hd _ _] Hr Hr' E. revert Hd Hr Hr'. generalize (w_held w). intros l.
  induction l as [|x l IH]; intros Hd Hr Hr'; [set_solver|].
  cbn [map] in Hd. apply NoDup_cons in Hd as [Hx Hd].
  assert (Hout : forall y, y ∈ l -> keyport (listener y) <> keyport (listener x)).
  { intros y Hy Ey. apply Hx. rewrite <- Ey. apply list_elem_of_In, in_map_iff. exists y.
    split; [reflexivity|apply list_elem_of_In, Hy]. }
  apply elem_of_cons in Hr as [->|Hr], Hr' as [->|Hr'].
  - reflexivity.
  - exfalso. apply (Hout r' Hr'). congruence.
  - exfalso. apply (Hout r Hr). congruence.
  - apply IH; assumption.
Qed.

Lemma step_allocate_ok w s a now probe ip g hub_band chain hop p t' a' :
  world_ok w -> w_sessions w !! s = Some a -> 0 <= chain -> 0 <= hop ->
  exchange_epoch_ a * 31 + chain * 17 + hop * 11 <= 2 ^ 31 - band dedicated ->
  allocate dedicated now probe ip g hub_band chain hop (w_tables w) a = (p, t', a') ->
  world_ok {| w_tables := t'; w_sessions := <[s := a']> (w_sessions w);
              w_held := if p <=? 0 then w_held w
                        else {| res_session := s; res_ip := ip; res_grpc := g; res_port := p |} :: w_held w |}.
Proof.
  intros [Hc Hsm He Hd Hi Hb] Hs Hch Hhop Hseed E. pose proof (He s a Hs) as Hepoch.
  apply allocate_spec in E as (Hc' & Hsm' & Ee & Hcase); [|exact Hc]. cbv zeta in Hcase. specialize (Hsm' Hsm).
  assert (He' : forall s0 a0, <[s := a']> (w_sessions w) !! s0 = Some a0 -> 0 <= exchange_epoch_ a0).
  { intros s0 a0. destruct (decide (s0 = s)) as [->|Hne].
    - rewrite lookup_insert_eq. intros [= <-]. lia.
    - rewrite lookup_insert_ne by congruence. apply He. }
  destruct Hcase as [(-> & _ & Hsame & _)|(Hidx & (i & Hi0 & Ei) & [Hp _] & Hfree & Hadd & _)].
  { cbn [Z.leb Z.compare]. split; cbn [w_tables w_sessions w_held]; auto. intros r Hr. rewrite Hsame. apply Hi, Hr. }
  destruct (Z.leb_spec p 0) as [|_]; [lia|].
  assert (Hin : in_half dedicated hub_band (pipeline_proxy_index dedicated g) p).
  { rewrite Ei. pose proof (Hc hub_band (proxy_key ip g)). pose proof (Hsm hub_band (proxy_key ip g)). pose proof (half_pos dedicated).
    apply attempt_port_in; [split; [exact Hidx|apply proxy_index_range, Hidx]|lia|exact Hi0]. }
  split; cbn [w_tables w_sessions w_held]; auto.
  - cbn [map]. apply NoDup_cons. split; [|exact Hd]. intros Hx.
    apply list_elem_of_In, in_map_iff in Hx as (r & Er & Hr). cbn in Er. injection Er as Ek Ep.
    apply list_elem_of_In in Hr. pose proof (Hi r Hr) as Hri. rewrite Ek, Ep in Hri. exact (proj1 Hfree Hri).
  - intros r Hr. apply elem_of_cons in Hr as [->|Hr]; rewrite Hadd.
    + cbn [res_port res_ip res_grpc]. rewrite bool_decide_eq_true_2 by reflexivity. set_solver.
    + pose proof (Hi r Hr). case_bool_decide as Ek; [rewrite <- Ek; set_solver|assumption].
  - intros r Hr. apply elem_of_cons in Hr as [->|Hr]; [|apply Hb, Hr].
    cbn [res_port res_grpc]. split; [exact Hidx|]. exists hub_band. exact Hin.
Qed.

Lemma NoDup_map_filter {A B} (f : A -> B) (P : A -> Prop) {D : forall x, Decision (P x)} l :
  NoDup (map f l) -> NoDup (map f (filter P l)).
Proof.
  induction l as [|x l IH]; intros H; [exact H|]. cbn [map] in H. apply NoDup_cons in H as [Hx H].
  rewrite filter_cons. destruct (decide (P x)); [|apply IH, H]. cbn [map]. apply NoDup_cons.
  split; [|apply IH, H]. intros Hin. apply Hx. apply list_elem_of_In, in_map_iff in Hin as (y & Ey & Hy).
  apply list_elem_of_In, list_elem_of_filter in Hy as [_ Hy]. apply list_elem_of_In, in_map_iff.
  exists y. split; [exact Ey|apply list_elem_of_In, Hy].
Qed.

Lemma step_ok w w' : world_ok w -> step w w' -> world_ok w'.
Proof.
  intros Hok Hstep. destruct Hstep as [s epoch Hs He|s a now probe ip g hb chain hop p t' a' Hs Hc Hh Hseed E|s now cps p Hheld].
  - destruct Hok as [Hc0 Hsm0 He0 Hd Hi Hb]. split; cbn [w_tables w_sessions w_held]; auto. intros s0 a0.
    destruct (decide (s0 = s)) as [->|Hne].
    + rewrite lookup_insert_eq. intros [= <-]. exact He.
    + rewrite lookup_insert_ne by congruence. apply He0.
  - exact (step_allocate_ok w s a now probe ip g hb chain hop p t' a' Hok Hs Hc Hh Hseed E).
  - pose proof Hok as [Hc0 Hsm0 He0 Hd Hi Hb]. split; cbn [w_tables w_sessions w_held]; auto.
    + intros hb key. rewrite cursor_release. apply Hc0.
    + intros hb key. rewrite cursor_release. apply Hsm0.
    + apply NoDup_map_filter, Hd.
    + intros r Hr. apply list_elem_of_filter in Hr as [Hnot Hr]. apply inflight_release.
      split; [apply Hi, Hr|]. right. intros Hin.
      apply list_elem_of_In, in_map_iff in Hin as (l & El & Hl). apply list_elem_of_In in Hl.
      destruct (Hheld l Hl) as (r' & Hr' & Es & <-).
      rewrite (held_unique w r r' Hok Hr Hr' (eq_sym El)) in Hnot. apply Hnot. split; [exact Es|exact Hl].
    + intros r Hr. apply list_elem_of_filter in Hr as [_ Hr]. apply Hb, Hr.
Qed.

Lemma reachable_ok w : rtc step initial_world w -> world_ok w.
Proof.
  intros H. pose proof initial_ok as H0. revert H0. induction H as [w|w w1 w2 Hs _ IH]; intros Hok; [exact Hok|].
  apply IH. eapply step_ok; eassumption.
Qed.

(** The proxies of a host: at their place of the port grid, or, on a dedicated
    host, one. *)
Definition same_host_ok (g g' : Z) : Prop :=
  if dedicated then g = g'
  else (g - PROXY_GRPC_BASE) mod PROXY_GRPC_STRIDE = 0 /\ (g' - PROXY_GRPC_BASE) mod PROXY_GRPC_STRIDE = 0.

Lemma proxy_index_inj g g' : dedicated = false -> same_host_ok g g' -> 0 <= pipeline_proxy_index dedicated g ->
  pipeline_proxy_index dedicated g = pipeline_proxy_index dedicated g' -> g = g'.
Proof.
  unfold same_host_ok, pipeline_proxy_index, PROXY_GRPC_BASE, PROXY_GRPC_STRIDE. intros ->.
  intros [H1 H2] Hp E. apply Z.mod_divide in H1 as [x Hx], H2 as [y Hy]; [|lia..].
  rewrite Hx, Hy, !Z.quot_mul in * by lia.
  destruct (x <? 0); cbn [orb] in *; [lia|]. destruct (x >? _); [lia|].
  destruct (y <? 0); cbn [orb] in *; [lia|]. destruct (y >? _); lia.
Qed.

Lemma bands_disjoint hb hb' idx idx' p : in_half dedicated hb idx p -> in_half dedicated hb' idx' p -> idx = idx'.
Proof.
  unfold in_half. pose proof (half_pos dedicated) as [Hh Hb]. rewrite <- Hb. intros H1 H2.
  destruct hb, hb'; nia.
Qed.
End Interleaving.

(** * A whole session *)

Section Session.
Context (dedicated : bool) (moments : nat -> Moment).
(** Other sessions keep the cursors in order. *)
Context (Hmom : forall i t, cursors_ok t -> cursors_ok (interfere (moments i) t)).

(** No other session runs. *)
Definition quiet : Prop := forall i t, interfere (moments i) t = t.

(** The session holds exactly the listeners [L]. *)
Record session_holds (t0 : PortTables) (s : SessionPorts) (L : list (string * Z * Z)) : Prop := {
  sh_cursors : cursors_ok (tables s);
  sh_epoch : 0 <= exchange_epoch_ (allocator s);
  sh_used : forall key q, q ∈ used (allocator s) key <-> (key, q) ∈ map keyport L;
  sh_distinct : NoDup (map keyport L);
  sh_positive : Forall (fun l => 0 < snd l) L;
  sh_inflight : quiet -> forall key q,
    q ∈ inflight (tables s) key <-> q ∈ inflight t0 key \/ (key, q) ∈ map keyport L;
  sh_fresh : quiet -> forall key q, (key, q) ∈ map keyport L -> q ∉ inflight t0 key }.

Lemma session_allocate_holds t0 ip g hub_band chain hop s L p s' :
  0 <= chain -> 0 <= hop -> session_holds t0 s L ->
  session_allocate dedicated moments ip g hub_band chain hop s = (p, s') -> 0 < p ->
  session_holds t0 s' (L ++ [(ip, g, p)]) /\ chain_ports s' = chain_ports s.
Proof.
  intros Hc Hh [H1 H2 H3 H4 H5 H6 H7] E Hp. unfold session_allocate in E.
  set (m := moments (calls s)) in *.
  assert (Ea : exists ch hp t' a', 0 <= ch /\ 0 <= hp /\
    allocate dedicated (at_time m) (at_probe m) ip g hub_band ch hp (interfere m (tables s)) (allocator s) = (p, t', a') /\
    s' = {| calls := S (calls s); tables := t'; allocator := a'; chain_ports := chain_ports s |}).
  { unfold allocate_hub_port, allocate_hop_port in E. destruct hub_band; [exists 0, 0|exists chain, hop];
      (destruct (allocate _ _ _ _ _ _ _ _ _ _) as [[p1 t'] a'] eqn:Ea; injection E as <- <-;
       exists t', a'; repeat split; try lia; exact Ea). }
  destruct Ea as (ch & hp & t' & a' & Hch & Hhp & Ea & ->). split; [|reflexivity].
  apply allocate_spec in Ea as (Hc' & _ & Ee & [(-> & _)|(_ & _ & _ & Hfree & Hadd & Hused)]); [lia| |apply Hmom, H1].
  destruct Hfree as (Hf1 & _ & _ & Hf4). set (key := proxy_key ip g) in *.
  assert (Hmem : forall k q, (k, q) ∈ map keyport (L ++ [(ip, g, p)]) <-> (k, q) ∈ map keyport L \/ (k = key /\ q = p)).
  { intros k q. rewrite map_app. cbn [map keyport]. fold key. set_solver. }
  split; cbn [tables allocator].
  - exact Hc'.
  - lia.
  - intros k q. rewrite Hused, Hmem, <- H3. case_bool_decide as Ek; set_solver.
  - rewrite map_app. cbn [map keyport]. fold key. apply NoDup_app. split; [exact H4|]. split.
    + intros x Hx Hx'. apply list_elem_of_singleton in Hx' as ->. apply Hf4, H3, Hx.
    + apply NoDup_singleton.
  - apply Forall_app. split; [exact H5|]. constructor; [exact Hp|constructor].
  - intros Q k q. rewrite Hadd, Hmem. specialize (H6 Q). unfold m in *. rewrite Q in *.
    pose proof (H6 k q). case_bool_decide as Ek; [subst k|]; set_solver.
  - intros Q k q. rewrite Hmem. intros [Hin|[-> ->]]; [apply (H7 Q), Hin|].
    unfold m in Hf1. rewrite Q in Hf1. intros Hx. apply Hf1, (H6 Q). left. exact Hx.
Qed.

Lemma allocate_hops_holds t0 chain hs : forall hop acc s L ports s',
  0 <= chain -> 0 <= hop -> session_holds t0 s L ->
  allocate_hops dedicated moments chain hop hs acc s = (true, ports, s') ->
  exists new, ports = acc ++ new /\ length new = length hs /\ chain_ports s' = chain_ports s /\
    session_holds t0 s' (L ++ zip_with (fun h p => (hop_proxy_ip h, hop_proxy_port h, p)) hs new).
Proof.
  induction hs as [|h hs IH]; intros hop acc s L ports s' Hc Hh Hs E; cbn [allocate_hops] in E.
  { injection E as <- <-. exists []. rewrite !app_nil_r. auto. }
  destruct (session_allocate _ _ _ _ _ _ _ s) as [p s1] eqn:Ea.
  destruct (Z.leb_spec p 0) as [|Hp]; [discriminate|].
  destruct (session_allocate_holds t0 _ _ _ _ _ _ _ _ _ Hc Hh Hs Ea Hp) as [Hs1 Ec1].
  apply (IH (hop + 1) (acc ++ [p]) s1 _ ports s' Hc ltac:(lia) Hs1) in E as (new & -> & Hl & Ec & Hn).
  exists (p :: new). cbn [zip_with length]. rewrite <- !app_assoc in *. cbn [app] in *.
  split; [reflexivity|]. split; [lia|]. split; [congruence|exact Hn].
Qed.

Lemma allocate_chain_holds t0 c ip g s L s' : 0 <= chain_id c -> session_holds t0 s L ->
  allocate_chain_ports dedicated moments c ip g s = (true, s') ->
  session_holds t0 s' (L ++ chain_listeners (chain_ports s') c ip g) /\
  exists cp, chain_ports s' = <[chain_id c := cp]> (chain_ports s) /\ length (hop_listen_ports cp) = length (hops c).
Proof.
  intros Hc Hs E. unfold allocate_chain_ports in E.
  destruct (allocate_hops _ _ _ _ _ _ s) as [[ok ports] s1] eqn:Eh. destruct ok; cbn [negb] in E; [|discriminate].
  apply (allocate_hops_holds t0 _ _ 0 [] s L) in Eh as (new & -> & Hl & Ec & Hs1); [|lia..|exact Hs].
  destruct (session_allocate _ _ _ _ _ _ _ s1) as [hub s2] eqn:Ea.
  destruct (Z.leb_spec hub 0) as [|Hp]; [discriminate|]. injection E as <-.
  destruct (session_allocate_holds t0 _ _ _ _ _ _ _ _ _ Hc (Z.le_refl 0) Hs1 Ea Hp) as [Hs2 Ec2].
  cbn [app]. set (cp := {| hop_listen_ports := new; hub_listen_port := hub |}).
  assert (El : chain_listeners (chain_ports (set_chain_ports (chain_id c) cp s2)) c ip g =
               zip_with (fun h p => (hop_proxy_ip h, hop_proxy_port h, p)) (hops c) new ++ [(ip, g, hub)]).
  { unfold chain_listeners. cbn [set_chain_ports chain_ports]. rewrite lookup_insert_eq. reflexivity. }
  rewrite El, app_assoc. split; [destruct Hs2; split; assumption|].
  exists cp. cbn [set_chain_ports chain_ports]. rewrite Ec2, Ec. split; [reflexivity|exact Hl].
Qed.

Lemma allocate_chains_holds t0 sink chains : forall s L s',
  Forall (fun c => 0 <= chain_id c) chains -> NoDup (map chain_id chains) -> session_holds t0 s L ->
  allocate_chains dedicated moments sink chains s = (true, s') ->
  session_holds t0 s' (L ++ concat (map (fun c => chain_listeners (chain_ports s') c (fst (sink c)) (snd (sink c))) chains)) /\
  (forall id, id ∉ map chain_id chains -> chain_ports s' !! id = chain_ports s !! id) /\
  (forall c, c ∈ chains -> exists cp, chain_ports s' !! chain_id c = Some cp /\
     length (hop_listen_ports cp) = length (hops c)).
Proof.
  induction chains as [|c chains IH]; intros s L s' Hpos Hnd Hs E; cbn [allocate_chains map concat] in *.
  { injection E as <-. rewrite app_nil_r. split; [exact Hs|]. split; [auto|set_solver]. }
  destruct (allocate_chain_ports _ _ c _ _ s) as [ok s1] eqn:Ec. destruct ok; [|discriminate].
  apply Forall_cons in Hpos as [Hc Hpos]. apply NoDup_cons in Hnd as [Hout Hnd].
  apply (allocate_chain_holds t0 c _ _ s L s1 Hc Hs) in Ec as (Hs1 & cp & Ecp & Hlen).
  apply (IH s1 _ s' Hpos Hnd Hs1) in E as (Hs' & Hother & Hin).
  pose proof (Hother (chain_id c) Hout) as Hsame.
  assert (Hcl : forall ip g, chain_listeners (chain_ports s') c ip g = chain_listeners (chain_ports s1) c ip g).
  { intros ip g. unfold chain_listeners. rewrite Hsame. reflexivity. }
  rewrite Hcl, app_assoc. split; [exact Hs'|]. split.
  - intros id Hid. rewrite Hother by set_solver. rewrite Ecp. apply lookup_insert_ne. set_solver.
  - intros c' Hc'. apply elem_of_cons in Hc' as [->|Hc']; [|apply Hin, Hc'].
    exists cp. rewrite Hsame, Ecp, lookup_insert_eq. split; [reflexivity|exact Hlen].
Qed.

Lemma chain_listeners_ext cps cps' c ip g : cps !! chain_id c = cps' !! chain_id c ->
  chain_listeners cps c ip g = chain_listeners cps' c ip g.
Proof. unfold chain_listeners. intros ->. reflexivity. Qed.

Lemma allocate_plan_holds epoch p t s : 0 <= epoch -> cursors_ok t ->
  Forall (fun c => 0 <= chain_id c) (hub_chains p ++ local_direct_chains p) ->
  NoDup (map chain_id (hub_chains p ++ local_direct_chains p)) ->
  allocate_plan dedicated moments epoch p t = (true, s) ->
  session_holds t s (plan_listeners (chain_ports s) p) /\
  forall c, c ∈ hub_chains p ++ local_direct_chains p ->
    exists cp, chain_ports s !! chain_id c = Some cp /\ length (hop_listen_ports cp) = length (hops c).
Proof.
  intros He Ht Hpos Hnd E. unfold allocate_plan in E.
  set (s0 := {| calls := 0; tables := t; allocator := _; chain_ports := ∅ |}) in E.
  assert (H0 : session_holds t s0 []).
  { split; cbn [tables allocator s0 exchange_epoch_ map]; auto; try constructor; try set_solver.
    all: unfold used; cbn; rewrite ?lookup_empty; set_solver. }
  destruct (allocate_chains _ _ _ (hub_chains p) s0) as [ok s1] eqn:E1. destruct ok; [|discriminate].
  apply Forall_app in Hpos as [Hp1 Hp2]. rewrite map_app in Hnd. apply NoDup_app in Hnd as (Hn1 & Hsep & Hn2).
  apply (allocate_chains_holds t _ _ s0 [] s1 Hp1 Hn1 H0) in E1 as (Hs1 & _ & Hin1).
  apply (allocate_chains_holds t _ _ s1 _ s Hp2 Hn2 Hs1) in E as (Hs & Hother & Hin2).
  assert (Hkeep : forall c, c ∈ hub_chains p -> chain_ports s1 !! chain_id c = chain_ports s !! chain_id c).
  { intros c Hc. symmetry. apply Hother, Hsep. apply list_elem_of_In, in_map, list_elem_of_In, Hc. }
  split.
  - cbn [app fst snd] in Hs. unfold plan_listeners.
    erewrite (map_ext_in _ _ (hub_chains p)); [exact Hs|]. intros c Hc. apply chain_listeners_ext. symmetry.
    apply Hkeep, list_elem_of_In, Hc.
  - intros c Hc. apply elem_of_app in Hc as [Hc|Hc]; [|apply Hin2, Hc]. rewrite <- Hkeep by exact Hc. apply Hin1, Hc.
Qed.
End Session.

(** * The duplicate check *)

Lemma check_ports_true l : forall assigned, Forall (fun l => 0 < snd l) l -> NoDup (map keyport l) ->
  (forall x, x ∈ map keyport l -> x ∉ assigned) -> check_ports assigned l = true.
Proof.
  induction l as [|[[ip g] p] l IH]; intros assigned Hp Hn Hd; cbn [check_ports]; [reflexivity|].
  apply Forall_cons in Hp as [Hp0 Hp]. cbn [snd] in Hp0. cbn [map keyport] in Hn, Hd. apply NoDup_cons in Hn as [Hx Hn].
  destruct (Z.leb_spec p 0); [lia|]. rewrite bool_decide_eq_false_2 by (apply Hd; set_solver).
  apply IH; [exact Hp|exact Hn|]. intros x Hin. specialize (Hd x ltac:(set_solver)).
  intros Hin'. apply elem_of_union in Hin' as [Hs|Hin']; [|exact (Hd Hin')]. apply elem_of_singleton in Hs as ->. exact (Hx Hin).
Qed.

(** * Chain ids of a plan *)

Lemma build_chains_ids {S : StdSort} k r z fs all_eqs hub lookup eqs : forall slot chains,
  build_chains k r z fs all_eqs hub lookup slot eqs = inl chains -> map chain_id chains = seqZ slot (zlen eqs).
Proof.
  induction eqs as [|e eqs IH]; intros slot chains E; cbn [build_chains] in E; [injection E as <-; reflexivity|].
  destruct (build_chain k r z fs all_eqs hub lookup slot e) as [c|] eqn:Ec; [|discriminate].
  destruct (build_chains k r z fs all_eqs hub lookup (slot + 1) eqs) as [cs|] eqn:Es; [|discriminate].
  injection E as <-. cbn [map]. rewrite (IH _ _ Es), (seqZ_cons slot) by (cbn [length]; lia). f_equal.
  - unfold build_chain in Ec. repeat case_match; try discriminate; injection Ec as <-; reflexivity.
  - f_equal; cbn [length]; lia.
Qed.

(** The plan builder numbers its chains. *)
Lemma plan_chain_ids {S : StdSort} k r z failed rp all_eqs hub lookup epoch p :
  glrc_build_pipeline_plan k r z failed rp all_eqs hub lookup epoch = inl p ->
  Forall (fun c => 0 <= chain_id c) (hub_chains p ++ local_direct_chains p) /\
  NoDup (map chain_id (hub_chains p ++ local_direct_chains p)).
Proof.
  unfold glrc_build_pipeline_plan. destruct (_ || _); [discriminate|].
  destruct (build_chains _ _ _ _ _ _ _ _ _) as [chains|] eqn:E; [|discriminate]. intros [= <-].
  cbn [hub_chains local_direct_chains]. apply build_chains_ids in E.
  pose proof (filter_partition_perm local_direct chains) as Hp. split.
  - rewrite Hp. apply Forall_forall. intros c Hc.
    assert (Hin : In (chain_id c) (map chain_id chains)) by (apply in_map, list_elem_of_In, Hc).
    rewrite E in Hin. apply list_elem_of_In, elem_of_seqZ in Hin. lia.
  - rewrite Hp, E. apply NoDup_seqZ.
Qed.
