(* ===== verification/PipelineMessages.v ===== *)
(** What travels in a repair pipeline and what a proxy keeps of a session:
    the requests ([fill_pipeline_chain_fields] and the hub's request of
    [coordinator.cpp]), and of [proxy_glrc_pipeline.cpp] the shard geometry, the
    framing of shards on a connection, the bounded queue between two threads,
    the listen ports and the listeners that wait for a session. *)
From S2P Require Import PortAllocator.
From S2P Require Import Prelude GF256 RepairPlan PipelineCodec PipelinePlan PipelineSession CNum Text.

(** * Requests *)

Inductive GlrcPipelineRole := HUB | CHAIN_HEAD | HOP_SERVER | LOCAL_DIRECT | TEARDOWN | READY.

#[export] Instance GlrcPipelineRole_eq_dec : EqDecision GlrcPipelineRole.
Proof. solve_decision. Defined.

(** [make_base_request]; [rb_global_begin] and [rb_global_count] are 0 unless set. *)
Record BaseRequest := {
  rb_shard_count : Z;
  rb_global_begin : Z;
  rb_global_count : Z;
  rb_exchange_epoch : Z;
  rb_hybrid_commit_token : string;
  rb_range_commit_parts : Z;
  rb_failed_ids : list Z;
  rb_failed_keys : list string;
  rb_replaced : list (string * Z);
  rb_equation_indices : list Z }.

(** The fields of a chain. *)
Record ChainFields := {
  rc_chain_id : Z;
  rc_eq_slot : Z;
  rc_hub_is_tail : bool;
  rc_equation_is_local : bool;
  rc_my_hop_index : Z;
  rc_hop_block_ids : list Z;
  rc_hop_proxies : list (string * Z);
  rc_hop_datanodes : list (string * Z);
  rc_hop_block_keys : list string;
  rc_hop_coefs : list byte;
  rc_hop_listen_ports : list Z;
  rc_chain_hub_listen_port : Z;
  rc_my_listen_port : Z;
  rc_local_failed_block_id : Z;
  rc_local_failed_block_key : string;
  rc_local_replaced_node : string * Z }.

(** [pipeline_hub_chain_*]: one entry of the hub's parallel lists. *)
Record HubChain := {
  hc_eq_slot : Z;
  hc_is_tail : bool;
  hc_equation_is_local : bool;
  hc_local_only : bool;
  hc_hub_coef : byte }.

(** The fields of [proxy_proto::RecoveryRequest] that a pipeline uses. *)
Record PipelineRequest := {
  rq_role : GlrcPipelineRole;
  rq_base : BaseRequest;
  rq_hub_proxy : string * Z;
  rq_hub_block_key : string;
  rq_hub_datanode : option (string * Z);
  rq_chain : ChainFields;
  rq_hub_chains : list HubChain;
  rq_hub_listener_ports : list Z }.

Definition no_chain : ChainFields :=
  {| rc_chain_id := 0; rc_eq_slot := 0; rc_hub_is_tail := false; rc_equation_is_local := false; rc_my_hop_index := 0;
     rc_hop_block_ids := []; rc_hop_proxies := []; rc_hop_datanodes := []; rc_hop_block_keys := []; rc_hop_coefs := [];
     rc_hop_listen_ports := []; rc_chain_hub_listen_port := 0; rc_my_listen_port := 0; rc_local_failed_block_id := 0;
     rc_local_failed_block_key := ""; rc_local_replaced_node := (""%string, 0) |}.

#[export] Instance HubChain_inhabited : Inhabited HubChain :=
  populate {| hc_eq_slot := 0; hc_is_tail := false; hc_equation_is_local := false; hc_local_only := false; hc_hub_coef := x00 |}.

(** [z]: equations below it are local.  The sink of a local chain takes the place
    of the hub. *)
Definition fill_pipeline_chain_fields (base : BaseRequest) (chain : GlrcPipelineChainPlan) (plan : GlrcPipelinePlan)
    (local_shard_count z : Z) (role : GlrcPipelineRole) (my_hop_index : Z) (chain_ports : option GlrcPipelineChainPorts)
    (global_shard_begin global_shard_count : Z) : PipelineRequest :=
  let ports := match chain_ports with Some cp => hop_listen_ports cp | None => [] end in
  {| rq_role := role;
     rq_base :=
       {| rb_shard_count := local_shard_count;
          rb_global_begin := if global_shard_count >? 0 then global_shard_begin else rb_global_begin base;
          rb_global_count := if global_shard_count >? 0 then global_shard_count else rb_global_count base;
          rb_exchange_epoch := exchange_epoch plan;
          rb_hybrid_commit_token := rb_hybrid_commit_token base; rb_range_commit_parts := rb_range_commit_parts base;
          rb_failed_ids := rb_failed_ids base; rb_failed_keys := rb_failed_keys base; rb_replaced := rb_replaced base;
          rb_equation_indices := rb_equation_indices base |};
     rq_hub_proxy :=
       if local_direct chain && negb (String.eqb (local_direct_sink_proxy_ip chain) "")
       then (local_direct_sink_proxy_ip chain, local_direct_sink_proxy_port chain) else (hub_proxy_ip plan, hub_proxy_port plan);
     rq_hub_block_key := "";
     rq_hub_datanode := None;
     rq_chain :=
       {| rc_chain_id := chain_id chain; rc_eq_slot := eq_slot chain; rc_hub_is_tail := hub_is_chain_tail chain;
          rc_equation_is_local := equation_index chain <? z; rc_my_hop_index := my_hop_index;
          rc_hop_block_ids := map hop_block_id (hops chain);
          rc_hop_proxies := map (fun h => (hop_proxy_ip h, hop_proxy_port h)) (hops chain);
          rc_hop_datanodes := map (fun h => (hop_datanode_ip h, hop_datanode_port h)) (hops chain);
          rc_hop_block_keys := map hop_block_key (hops chain);
          rc_hop_coefs := map hop_coef (hops chain);
          rc_hop_listen_ports := ports;
          rc_chain_hub_listen_port := match chain_ports with Some cp => Z.max 0 (hub_listen_port cp) | None => 0 end;
          rc_my_listen_port :=
            if (bool_decide (role = READY) || bool_decide (role = HOP_SERVER)) && (0 <=? my_hop_index) && (my_hop_index <? zlen ports)
            then ports.[my_hop_index] else 0;
          rc_local_failed_block_id := if local_direct chain then local_direct_failed_block_id chain else 0;
          rc_local_failed_block_key := if local_direct chain then local_direct_failed_block_key chain else "";
          rc_local_replaced_node :=
            if local_direct chain then (local_direct_replaced_ip chain, local_direct_replaced_port chain) else (""%string, 0) |};
     rq_hub_chains := []; rq_hub_listener_ports := [] |}.

(** One turn of the loop over the hub's chains. *)
Definition hub_chain_fields (z : Z) (chain : GlrcPipelineChainPlan) : HubChain :=
  {| hc_eq_slot := eq_slot chain; hc_is_tail := hub_is_chain_tail chain; hc_equation_is_local := equation_index chain <? z;
     hc_local_only := false;
     hc_hub_coef := if hub_is_chain_tail chain then match last (hops chain) with Some h => hop_coef h | None => x00 end else x00 |}.

(** [failed_ids]: with their keys and nodes, empty in the READY request. *)
Definition fill_hub_fields (base : BaseRequest) (plan : GlrcPipelinePlan) (z : Z) (role : GlrcPipelineRole)
    (failed_ids : list Z) (failed_keys : list string) (replaced : list (string * Z)) (chain_ports : gmap Z GlrcPipelineChainPorts) : PipelineRequest :=
  {| rq_role := role;
     rq_base :=
       {| rb_shard_count := rb_shard_count base; rb_global_begin := rb_global_begin base; rb_global_count := rb_global_count base;
          rb_exchange_epoch := rb_exchange_epoch base; rb_hybrid_commit_token := rb_hybrid_commit_token base;
          rb_range_commit_parts := rb_range_commit_parts base; rb_failed_ids := failed_ids; rb_failed_keys := failed_keys;
          rb_replaced := replaced; rb_equation_indices := map equation_index (hub_chains plan) |};
     rq_hub_proxy := (hub_proxy_ip plan, hub_proxy_port plan);
     rq_hub_block_key := hub_block_key plan;
     rq_hub_datanode := Some (hub_datanode_ip plan, hub_datanode_port plan);
     rq_chain := no_chain;
     rq_hub_chains := map (hub_chain_fields z) (hub_chains plan);
     rq_hub_listener_ports := omap (fun c => hub_listen_port <$> chain_ports !! chain_id c) (hub_chains plan) |}.

(** * Shards *)

(** [None]: no configuration. *)
Definition resolve_pipeline_window (GlrcPipelineWindow : option Z) (shard_count : Z) : Z :=
  if shard_count <=? 0 then 1
  else
    match GlrcPipelineWindow with
    | None => shard_count
    | Some w => if w =? 0 then shard_count else if w <=? 1 then 1 else Z.min w shard_count
    end.

Record PipelineShardView := {
  global_begin : Z;
  local_count : Z;
  global_S : Z;
  stripe_len : Z }.

Definition global_shard (v : PipelineShardView) (local_i : Z) : Z := global_begin v + local_i.
Definition byte_off (v : PipelineShardView) (local_i : Z) : Z := global_shard v local_i * stripe_len v.

Definition valid_geometry (v : PipelineShardView) (block_size : Z) : bool :=
  (local_count v >? 0) && (global_S v >? 0) && (stripe_len v >? 0) && (global_begin v >=? 0)
  && (global_begin v + local_count v <=? global_S v) && (global_S v * stripe_len v =? block_size).

Definition resolve_pipeline_shard_view (b : BaseRequest) (block_size GlrcShardCount : Z) : PipelineShardView :=
  let global_S := if rb_global_count b >? 0 then rb_global_count b
                  else if rb_shard_count b >? 0 then rb_shard_count b else GlrcShardCount in
  let local_count := if rb_shard_count b >? 0 then rb_shard_count b else global_S in
  let global_begin := rb_global_begin b in
  {| global_begin := global_begin;
     local_count := if global_begin + local_count >? global_S then Z.max 0 (global_S - global_begin) else local_count;
     global_S := global_S;
     stripe_len := if (global_S >? 0) && (Z.rem block_size global_S =? 0) then block_size ÷ global_S else 0 |}.

(** Whether the shards are the whole block. *)
Definition full_block_write (v : PipelineShardView) : bool := (global_begin v =? 0) && (local_count v =? global_S v).

Definition pipeline_codec_from_request (q : PipelineRequest) : GlrcPipelineEqCodec :=
  if rc_equation_is_local (rq_chain q) then LOCAL_LINEAR else GLOBAL_CAUCHY.

Definition pipeline_hub_chain_codec (q : PipelineRequest) (chain_idx : Z) : GlrcPipelineEqCodec :=
  if zlen (rq_hub_chains q) >? chain_idx
  then if hc_equation_is_local (rq_hub_chains q).[chain_idx] then LOCAL_LINEAR else GLOBAL_CAUCHY else GLOBAL_CAUCHY.

(** * Frames *)

(** [uint32_t], its cast to [int], and its bytes in memory. *)
Definition u32 (x : Z) : Z := x mod 2 ^ 32.
Definition int_of_u32 (x : Z) : Z := if x <? 2 ^ 31 then x else x - 2 ^ 32.
Definition le32 (x : Z) : list byte := map (fun i => byte_of_Z (Z.shiftr x (8 * i))) [0; 1; 2; 3].
Definition of_le32 (l : list byte) : Z :=
  Z.lor (Z.lor (byte_to_Z l.[0]) (Z.shiftl (byte_to_Z l.[1]) 8)) (Z.lor (Z.shiftl (byte_to_Z l.[2]) 16) (Z.shiftl (byte_to_Z l.[3]) 24)).

Definition kPipelineMagic : Z := 0x504C5031.
Definition kPipelineStreamEnd : Z := 0x504C4544.

Record PipelineShardHeader := { hdr_eq_slot : Z; hdr_shard_id : Z; hdr_stripe_len : Z }.
Record PipelineStreamEndHeader := { end_eq_slot : Z; end_shard_count : Z; end_reserved : Z }.

Inductive PipelineFrame :=
| SHARD (hdr : PipelineShardHeader) (payload : list byte)
| END (end_hdr : PipelineStreamEndHeader).

Definition shard_frame (eq_slot shard_id stripe_len : Z) (payload : list byte) : PipelineFrame :=
  SHARD {| hdr_eq_slot := u32 eq_slot; hdr_shard_id := u32 shard_id; hdr_stripe_len := u32 stripe_len |} (ztake stripe_len payload).
Definition end_frame (eq_slot shard_count : Z) : PipelineFrame :=
  END {| end_eq_slot := u32 eq_slot; end_shard_count := u32 shard_count; end_reserved := 0 |}.

(** The bytes that [send_pipeline_shard] and [send_pipeline_stream_end] write. *)
Definition send_pipeline_shard (eq_slot shard_id stripe_len : Z) (payload : list byte) : list byte :=
  le32 kPipelineMagic ++ le32 (u32 eq_slot) ++ le32 (u32 shard_id) ++ le32 (u32 stripe_len) ++ ztake stripe_len payload.
Definition send_pipeline_stream_end (eq_slot shard_count : Z) : list byte :=
  le32 kPipelineStreamEnd ++ le32 (u32 eq_slot) ++ le32 (u32 shard_count) ++ le32 0.

(** [read_all]: the first [len] bytes, [None] at the end of the stream. *)
Definition read_all (len : Z) (stream : list byte) : option (list byte * list byte) :=
  if zlen stream <? len then None else Some (ztake len stream, zdrop len stream).

(** [None] is [ERROR]. *)
Definition recv_pipeline_frame (stream : list byte) : option (PipelineFrame * list byte) :=
  '(magic, stream) ← read_all 4 stream;
  if of_le32 magic =? kPipelineStreamEnd then
    '(h, stream) ← read_all 12 stream;
    Some (END {| end_eq_slot := of_le32 (ztake 4 h); end_shard_count := of_le32 (ztake 4 (zdrop 4 h)); end_reserved := of_le32 (zdrop 8 h) |}, stream)
  else if negb (of_le32 magic =? kPipelineMagic) then None
  else
    '(h, stream) ← read_all 12 stream;
    let hdr := {| hdr_eq_slot := of_le32 (ztake 4 h); hdr_shard_id := of_le32 (ztake 4 (zdrop 4 h)); hdr_stripe_len := of_le32 (zdrop 8 h) |} in
    if hdr_stripe_len hdr =? 0 then None
    else '(payload, stream) ← read_all (hdr_stripe_len hdr) stream; Some (SHARD hdr payload, stream).

(** * The queue between two threads *)

Record PipelineQueuedShard := {
  qs_shard_id : Z;
  qs_payload : list byte;
  qs_end_of_stream : bool;
  qs_end_shard_count : Z }.

Definition queued_shard (shard_id : Z) (payload : list byte) : PipelineQueuedShard :=
  {| qs_shard_id := shard_id; qs_payload := payload; qs_end_of_stream := false; qs_end_shard_count := 0 |}.
Definition queued_end (shard_count : Z) : PipelineQueuedShard :=
  {| qs_shard_id := -1; qs_payload := []; qs_end_of_stream := true; qs_end_shard_count := shard_count |}.

Record PipelineBoundedQueue := {
  capacity_ : Z;
  q_ : list PipelineQueuedShard;
  closed_ : bool }.

Definition new_queue (capacity : Z) : PipelineBoundedQueue :=
  {| capacity_ := if capacity >? 0 then capacity else 1; q_ := []; closed_ := false |}.

(** [None]: the caller waits.  A closed queue drops the item. *)
Definition push (item : PipelineQueuedShard) (q : PipelineBoundedQueue) : option PipelineBoundedQueue :=
  if closed_ q then Some q
  else if zlen (q_ q) <? capacity_ q then Some {| capacity_ := capacity_ q; q_ := q_ q ++ [item]; closed_ := false |}
  else None.

Inductive PopResult :=
| PopWaits
| PopClosed
| Popped (item : PipelineQueuedShard) (q : PipelineBoundedQueue).

Definition pop (q : PipelineBoundedQueue) : PopResult :=
  match q_ q with
  | [] => if closed_ q then PopClosed else PopWaits
  | item :: rest => Popped item {| capacity_ := capacity_ q; q_ := rest; closed_ := closed_ q |}
  end.

Definition close (q : PipelineBoundedQueue) : PipelineBoundedQueue :=
  {| capacity_ := capacity_ q; q_ := q_ q; closed_ := true |}.

(** * Listen ports *)

(** [pipeline_proxy_index] of the proxy: out of the range it takes the nearest end.
    [one_proxy_per_host]: the environment says so. *)
Definition clamped_proxy_index (one_proxy_per_host : bool) (proxy_grpc_port : Z) : Z :=
  if one_proxy_per_host then 0
  else
    let idx := (proxy_grpc_port - PROXY_GRPC_BASE) ÷ PROXY_GRPC_STRIDE in
    if idx <? 0 then 0 else if idx >? PROXY_GRPC_MAX_INDEX then PROXY_GRPC_MAX_INDEX else idx.

Definition slot_port (one_proxy_per_host : bool) (proxy_grpc_port slot_core : Z) (hub_band : bool) : Z :=
  let half := PROXY_PIPELINE_PER_PROXY_BAND ÷ 2 in
  let slot := if hub_band then half + Z.rem slot_core half else Z.rem slot_core half in
  PROXY_PIPELINE_EXCHANGE_BASE + clamped_proxy_index one_proxy_per_host proxy_grpc_port * PROXY_PIPELINE_PER_PROXY_BAND + slot.

Definition pipeline_compose_listen_port (one_proxy_per_host : bool) (proxy_grpc_port slot_core : Z) (hub_band : bool) : Z :=
  let port := slot_port one_proxy_per_host proxy_grpc_port slot_core hub_band in
  if port =? 55555 then slot_port one_proxy_per_host proxy_grpc_port (slot_core + 1) hub_band else port.

Definition pipeline_hop_listen_port (one_proxy_per_host : bool) (proxy_grpc_port exchange_epoch chain_id hop_index : Z) : Z :=
  pipeline_compose_listen_port one_proxy_per_host proxy_grpc_port
    (Z.rem (exchange_epoch * 17 + chain_id * 32 + hop_index) (PROXY_PIPELINE_PER_PROXY_BAND ÷ 2)) false.
Definition pipeline_hub_listen_port (one_proxy_per_host : bool) (hub_proxy_grpc_port exchange_epoch eq_slot : Z) : Z :=
  pipeline_compose_listen_port one_proxy_per_host hub_proxy_grpc_port
    (Z.rem (exchange_epoch * 17 + eq_slot * 32 + 1) (PROXY_PIPELINE_PER_PROXY_BAND ÷ 2)) true.

(** The ports of the request come first. *)
Definition resolve_hop_listen_port (h : bool) (q : PipelineRequest) (hop_index fallback_grpc_port exchange_epoch chain_id : Z) : Z :=
  let ports := rc_hop_listen_ports (rq_chain q) in
  if (zlen ports >? hop_index) && (ports.[hop_index] >? 0) then ports.[hop_index]
  else pipeline_hop_listen_port h fallback_grpc_port exchange_epoch chain_id hop_index.

Definition resolve_chain_hub_listen_port (h : bool) (q : PipelineRequest) (hub_grpc_port exchange_epoch eq_slot : Z) : Z :=
  if rc_chain_hub_listen_port (rq_chain q) >? 0 then rc_chain_hub_listen_port (rq_chain q)
  else pipeline_hub_listen_port h hub_grpc_port exchange_epoch eq_slot.

Definition resolve_hub_listener_port (h : bool) (q : PipelineRequest) (listener_index hub_grpc_port exchange_epoch eq_slot : Z) : Z :=
  let ports := rq_hub_listener_ports q in
  if (zlen ports >? listener_index) && (ports.[listener_index] >? 0) then ports.[listener_index]
  else pipeline_hub_listen_port h hub_grpc_port exchange_epoch eq_slot.

Definition resolve_my_hop_bind_port (h : bool) (q : PipelineRequest) (proxy_grpc_port exchange_epoch chain_id hop_index : Z) : Z :=
  let ports := rc_hop_listen_ports (rq_chain q) in
  if rc_my_listen_port (rq_chain q) >? 0 then rc_my_listen_port (rq_chain q)
  else if (zlen ports >? hop_index) && (ports.[hop_index] >? 0) then ports.[hop_index]
  else pipeline_hop_listen_port h proxy_grpc_port exchange_epoch chain_id hop_index.

(** * The listeners that wait for a session *)

(** [PipelineReadySession]: the acceptors as the ports they are bound to. *)
Record PipelineReadySession := {
  ready_epoch : Z;
  hub_acceptors : list (Z * Z);
  hop_acceptors : gmap string Z }.

(** The proxy's ready session and the ports bound on its host. *)
Record ReadyState := {
  ready_session : PipelineReadySession;
  bound_ports : gset Z }.

Definition no_ready_session : PipelineReadySession := {| ready_epoch := -1; hub_acceptors := []; hop_acceptors := ∅ |}.

Definition hop_ready_key (epoch chain_id hop_idx : Z) : string :=
  to_string epoch +:+ ":" +:+ to_string chain_id +:+ ":" +:+ to_string hop_idx.

(** The ports of the session's acceptors. *)
Definition session_ports (s : PipelineReadySession) : list Z := map snd (hub_acceptors s) ++ map snd (map_to_list (hop_acceptors s)).

Definition reset_pipeline_ready_session (r : ReadyState) : ReadyState :=
  {| ready_session := no_ready_session; bound_ports := bound_ports r ∖ list_to_set (session_ports (ready_session r)) |}.

(** A session of another epoch is closed. *)
Definition enter_epoch (epoch : Z) (r : ReadyState) : ReadyState :=
  if ready_epoch (ready_session r) =? epoch then r
  else
    let r := reset_pipeline_ready_session r in
    {| ready_session := {| ready_epoch := epoch; hub_acceptors := []; hop_acceptors := ∅ |}; bound_ports := bound_ports r |}.

(** Binds the ports one after the other; [inr] holds the ports bound before the
    failure, which are closed again. *)
Fixpoint open_pipeline_acceptors (listen_ports : list (Z * Z)) (bound : gset Z) : gset Z + gset Z :=
  match listen_ports with
  | [] => inl bound
  | (_, port) :: rest =>
      if bool_decide (port ∈ bound) then inr bound
      else
        match open_pipeline_acceptors rest ({[port]} ∪ bound) with
        | inl b => inl b
        | inr _ => inr bound
        end
  end.

(** The chains of the hub that have a listener, with their ports. *)
Definition hub_listen_ports (one_proxy_per_host : bool) (grpc_port : Z) (q : PipelineRequest) : list (Z * Z) :=
  map (fun ci => (ci, resolve_hub_listener_port one_proxy_per_host q ci grpc_port (rb_exchange_epoch (rq_base q)) (hc_eq_slot (rq_hub_chains q).[ci])))
    (List.filter (fun ci => negb (hc_local_only (rq_hub_chains q).[ci])) (zseq (zlen (rq_hub_chains q)))).

Definition glrcIlpPipelineReadyRecovery (one_proxy_per_host : bool) (grpc_port : Z) (q : PipelineRequest) (r : ReadyState) : bool * ReadyState :=
  let epoch := rb_exchange_epoch (rq_base q) in
  let my_idx := rc_my_hop_index (rq_chain q) in
  let bind_hub_or_sink := zlen (rq_hub_chains q) >? 0 in
  let bind_hop := negb bind_hub_or_sink && (my_idx >=? 1) && (zlen (rc_hop_block_ids (rq_chain q)) >? my_idx) in
  if bind_hub_or_sink then
    let listen_ports := hub_listen_ports one_proxy_per_host grpc_port q in
    match open_pipeline_acceptors listen_ports (bound_ports r) with
    | inr bound => (false, {| ready_session := ready_session r; bound_ports := bound |})
    | inl bound =>
        let r := enter_epoch epoch {| ready_session := ready_session r; bound_ports := bound |} in
        let s := ready_session r in
        (true, {| ready_session := {| ready_epoch := ready_epoch s; hub_acceptors := hub_acceptors s ++ listen_ports; hop_acceptors := hop_acceptors s |};
                  bound_ports := bound_ports r |})
    end
  else if bind_hop then
    let chain_id := rc_chain_id (rq_chain q) in
    let listen_port := resolve_my_hop_bind_port one_proxy_per_host q grpc_port epoch chain_id my_idx in
    match open_pipeline_acceptors [(0, listen_port)] (bound_ports r) with
    | inr bound => (false, {| ready_session := ready_session r; bound_ports := bound |})
    | inl bound =>
        let r := enter_epoch epoch {| ready_session := ready_session r; bound_ports := bound |} in
        let s := ready_session r in
        let key := hop_ready_key epoch chain_id my_idx in
        (true, {| ready_session := {| ready_epoch := ready_epoch s; hub_acceptors := hub_acceptors s; hop_acceptors := <[key := listen_port]> (hop_acceptors s) |};
                  bound_ports := match hop_acceptors s !! key with Some old => bound_ports r ∖ {[old]} | None => bound_ports r end |})
    end
  else (true, r).

(** The acceptor goes over to the hop server, still bound. *)
Definition take_hop_ready_acceptor (epoch chain_id hop_idx listen_port : Z) (r : ReadyState) : bool * ReadyState :=
  let s := ready_session r in
  let key := hop_ready_key epoch chain_id hop_idx in
  if negb (ready_epoch s =? epoch) then (false, r)
  else
    match hop_acceptors s !! key with
    | Some port =>
        if port =? listen_port then
          (true, {| ready_session := {| ready_epoch := ready_epoch s; hub_acceptors := hub_acceptors s; hop_acceptors := delete key (hop_acceptors s) |};
                    bound_ports := bound_ports r |})
        else (false, r)
    | None => (false, r)
    end.

Definition take_hub_ready_acceptors (epoch : Z) (r : ReadyState) : list (Z * Z) * ReadyState :=
  let s := ready_session r in
  if negb (ready_epoch s =? epoch) then ([], r)
  else (hub_acceptors s, {| ready_session := {| ready_epoch := ready_epoch s; hub_acceptors := []; hop_acceptors := hop_acceptors s |};
                            bound_ports := bound_ports r |}).

Definition glrcIlpPipelineTeardownRecovery (r : ReadyState) : bool * ReadyState := (true, reset_pipeline_ready_session r).
