(* ===== verification/Toolbox.v ===== *)
(** Helpers of [toolbox.cpp]: cutting a buffer into slices, the bytes of an
    [int], dropping positions that are zero in three vectors. *)
From S2P Require Import Prelude GF256 RepairPlan.

(** * Cutting buffers *)

(** The pointers are offsets from [str]; [None] is a failed [assert]. *)
Fixpoint split_loop (str_size currentOffset : Z) (sizes : list Z) : option (list Z * Z) :=
  match sizes with
  | [] => Some ([], currentOffset)
  | sz :: rest =>
      if currentOffset + sz <=? str_size then
        match split_loop str_size (currentOffset + sz) rest with
        | Some (ptrs, off) => Some (currentOffset :: ptrs, off)
        | None => None
        end
      else None
  end.

Definition splitCharPointer (str_size : Z) (sizes : list Z) : option (list Z) :=
  match split_loop str_size 0 sizes with
  | Some (ptrs, off) => if off =? str_size then Some ptrs else None
  | None => None
  end.

Definition gen_append_key (stripe_id group_id : Z) : string :=
  to_string stripe_id +:+ "_" +:+ to_string group_id.

Definition zsum (l : list Z) : Z := fold_right Z.add 0 l.

Lemma zsum_app l l' : zsum (l ++ l') = zsum l + zsum l'.
Proof. unfold zsum. induction l as [|x l IH]; cbn [app fold_right]; lia. Qed.

Lemma zsum_repeat v n : 0 <= n -> zsum (zrepeat v n) = n * v.
Proof.
  intros Hn. unfold zrepeat. rewrite <- (Z2Nat.id n) at 2 by lia. induction (Z.to_nat n) as [|m IH]; [reflexivity|].
  cbn [replicate zsum fold_right]. unfold zsum in IH. rewrite IH. lia.
Qed.

Lemma split_loop_spec n sizes : forall off, Forall (fun s => 0 <= s) sizes -> off + zsum sizes <= n ->
  split_loop n off sizes = Some (map (fun i => off + zsum (ztake i sizes)) (zseq (zlen sizes)), off + zsum sizes).
Proof.
  induction sizes as [|s sizes IH]; intros off Hp Hle; cbn [split_loop].
  { cbn. rewrite Z.add_0_r. reflexivity. }
  apply Forall_cons in Hp as [Hs Hp]. cbn [zsum fold_right] in Hle. fold (zsum sizes) in Hle.
  assert (Hnn : 0 <= zsum sizes) by (clear - Hp; induction Hp as [|x l Hx Hl IHl]; cbn [zsum fold_right]; [lia|fold (zsum l); lia]).
  destruct (Z.leb_spec (off + s) n); [|lia]. rewrite IH by (auto; lia).
  change (zsum (s :: sizes)) with (s + zsum sizes). f_equal. f_equal; [|lia].
  change (zlen (s :: sizes)) with (Z.of_nat (S (length sizes))).
  rewrite (seqZ_cons 0 (Z.of_nat (S (length sizes)))) by lia. cbn [map]. f_equal; [unfold ztake, zsum; simpl; lia|].
  replace (Z.pred (Z.of_nat (S (length sizes)))) with (zlen sizes) by lia.
  replace (seqZ (Z.succ 0) (zlen sizes)) with (map (Z.add 1) (zseq (zlen sizes))) by apply (fmap_add_seqZ 1 0).
  rewrite map_map. apply map_ext_in. intros i Hi. apply in_zseq in Hi.
  unfold ztake. replace (Z.to_nat (1 + i)) with (S (Z.to_nat i)) by lia.
  cbn [take zsum fold_right]. fold (zsum (take (Z.to_nat i) sizes)). lia.
Qed.

(** Sizes that fill the buffer are accepted, and slice [i] starts after the
    slices before it. *)
Lemma splitCharPointer_spec sizes : Forall (fun s => 0 <= s) sizes ->
  splitCharPointer (zsum sizes) sizes = Some (map (fun i => zsum (ztake i sizes)) (zseq (zlen sizes))).
Proof.
  intros Hp. unfold splitCharPointer. rewrite split_loop_spec by (auto; lia). rewrite Z.add_0_l, Z.eqb_refl.
  reflexivity.
Qed.

(** * Bytes of an [int] (little endian) *)

Definition int_to_bytes (integer : Z) : list byte := map (fun i => byte_of_Z (Z.shiftr integer (8 * i))) (zseq 4).

Definition bytes_to_int (bytes : list byte) : Z :=
  int32 (fold_right (fun b acc => byte_to_Z b + 256 * acc) 0 bytes).

Lemma bytes_to_int_to_bytes x : - 2 ^ 31 <= x < 2 ^ 31 -> bytes_to_int (int_to_bytes x) = x.
Proof.
  intros Hx. unfold bytes_to_int, int_to_bytes. change (zseq 4) with [0; 1; 2; 3]. cbn [map fold_right].
  rewrite !byte_to_of_Z, !Z.shiftr_div_pow2 by lia.
  change (2 ^ (8 * 0)) with 1. change (2 ^ (8 * 1)) with 256. change (2 ^ (8 * 2)) with (256 * 256).
  change (2 ^ (8 * 3)) with (256 * 256 * 256). rewrite Z.div_1_r, <- !Z.div_div by lia.
  pose proof (Z.div_mod x 256 ltac:(lia)). pose proof (Z.div_mod (x / 256) 256 ltac:(lia)).
  pose proof (Z.div_mod (x / 256 / 256) 256 ltac:(lia)). pose proof (Z.div_mod (x / 256 / 256 / 256) 256 ltac:(lia)).
  set (q := x / 256 / 256 / 256 / 256) in *.
  match goal with |- int32 ?e = _ => replace e with (x + (- q) * 2 ^ 32) by lia end.
  unfold int32. replace (x + - q * 2 ^ 32 + 2 ^ 31) with (x + 2 ^ 31 + - q * 2 ^ 32) by lia.
  rewrite Z_mod_plus_full. apply int32_id, Hx.
Qed.

Lemma int_to_bytes_len x : length (int_to_bytes x) = 4%nat.
Proof. reflexivity. Qed.

(** * Common zeros *)

(** [vec.erase(vec.begin() + index)] *)
Definition erase_at {A} (l : list A) (i : Z) : list A := ztake i l ++ zdrop (i + 1) l.

(** [None] leaves the vectors as they are, after a message. *)
Definition remove_common_zeros (vec1 vec2 vec3 : list Z) : option (list Z * list Z * list Z) :=
  if negb (zlen vec1 =? zlen vec2) || negb (zlen vec2 =? zlen vec3) then None
  else
    let indices_to_remove :=
      List.filter (fun i => (vec1.[i] =? 0) && (vec2.[i] =? 0) && (vec3.[i] =? 0)) (zseq (zlen vec1)) in
    Some (fold_left (fun '(v1, v2, v3) index => (erase_at v1 index, erase_at v2 index, erase_at v3 index))
            (rev indices_to_remove) (vec1, vec2, vec3)).

Lemma zdrop_S {A} `{Inhabited A} (l : list A) m : 0 <= m < zlen l -> zdrop m l = l.[m] :: zdrop (m + 1) l.
Proof.
  intros Hm. unfold zdrop. replace (Z.to_nat (m + 1)) with (S (Z.to_nat m)) by lia.
  apply drop_S, zget_lookup, Hm.
Qed.

(** Erasing the marked positions from the back keeps the others, in order. *)
Lemma erase_marked_upto {A} `{Inhabited A} (p : Z -> bool) m : forall l : list A, 0 <= m <= zlen l ->
  fold_left erase_at (rev (List.filter p (zseq m))) l =
  map (fun i => l.[i]) (List.filter (fun i => negb (p i)) (zseq m)) ++ zdrop m l.
Proof.
  intros l [Hm Hle]. revert l Hle. pattern m. apply natlike_ind; [| |exact Hm]; clear m Hm.
  { intros l _. reflexivity. }
  intros m Hm IH l Hle. unfold Z.succ in *. rewrite zseq_snoc, !List.filter_app, rev_app_distr by lia.
  cbn [List.filter]. destruct (p m) eqn:Ep; cbn [negb rev app fold_left].
  - rewrite app_nil_r.
    assert (Hl : zlen (erase_at l m) = zlen l - 1).
    { unfold erase_at, ztake, zdrop. rewrite length_app, length_take, length_drop. lia. }
    rewrite IH by lia. f_equal.
    + apply map_ext_in. intros i Hi. apply filter_In in Hi as [Hi _]. apply in_zseq in Hi.
      unfold erase_at. rewrite zget_app by lia. unfold ztake at 1. rewrite length_take.
      zcases. apply zget_ztake. lia.
    + unfold erase_at, ztake, zdrop. rewrite drop_app_length' by (rewrite length_take; lia). reflexivity.
  - rewrite IH by lia. rewrite map_app, <- app_assoc. cbn [map app]. rewrite <- zdrop_S by lia. reflexivity.
Qed.

Lemma remove_common_zeros_spec v1 v2 v3 : zlen v1 = zlen v2 -> zlen v2 = zlen v3 ->
  let keep := List.filter (fun i => negb ((v1.[i] =? 0) && (v2.[i] =? 0) && (v3.[i] =? 0))) (zseq (zlen v1)) in
  remove_common_zeros v1 v2 v3 =
  Some (map (fun i => v1.[i]) keep, map (fun i => v2.[i]) keep, map (fun i => v3.[i]) keep).
Proof.
  intros H12 H23 keep. unfold remove_common_zeros. rewrite H12, H23, Z.eqb_refl. cbn [negb orb]. rewrite <- H23, <- H12.
  set (p := fun i => (v1.[i] =? 0) && (v2.[i] =? 0) && (v3.[i] =? 0)).
  assert (Hfold : forall idx (a b c : list Z),
    fold_left (fun '(v1, v2, v3) index => (erase_at v1 index, erase_at v2 index, erase_at v3 index)) idx (a, b, c) =
    (fold_left erase_at idx a, fold_left erase_at idx b, fold_left erase_at idx c)).
  { induction idx as [|i idx IH]; intros a b c; cbn [fold_left]; [reflexivity|apply IH]. }
  rewrite Hfold, (erase_marked_upto p (zlen v1) v1), (erase_marked_upto p (zlen v1) v2),
    (erase_marked_upto p (zlen v1) v3) by lia.
  unfold zdrop. rewrite !drop_ge, !app_nil_r by lia. reflexivity.
Qed.
