(* ===== verification/Placement.v ===== *)
(** Where the blocks of a stripe go: the [initialize_*_stripe_placement]
    functions of [coordinator.cpp] with the node and cluster tables they
    update, and the groups the recovery paths look up. *)
From S2P Require Import Prelude Groups RepairPlan.
From Stdlib Require Import Ascii.

(** * Metadata ([meta_definition.h]) *)

Record Block := {
  block_id : Z;
  block_key : string;
  block_type : ascii;
  block_size : Z;
  map2group : Z;
  map2stripe : Z;
  map2cluster : Z;
  map2node : Z;
  map2key : string }.

(** [blocks] holds pointers to blocks that do not change once placed: their
    values.  The id is the key of the table. *)
Record Cluster := {
  cluster_proxy_ip : string;
  cluster_proxy_port : Z;
  nodes : list Z;
  cluster_blocks : list Block;
  cluster_stripes : gset Z }.

(** [node_stripes] is [stripes]: the block index each stripe has on the node. *)
Record Node := {
  node_ip : string;
  node_port : Z;
  cluster_id : Z;
  repair_proxy_ip : string;
  repair_proxy_port : Z;
  node_stripes : gmap Z Z }.

Record Stripe := {
  stripe_id : Z;
  st_k : Z;
  st_r : Z;
  st_z : Z;
  st_n : Z;
  object_keys : list string;
  blocks : list Block;
  place2clusters : gset Z;
  num_groups : Z;
  group_to_blocks : gmap Z (list Z) }.

#[export] Instance Block_inhabited : Inhabited Block :=
  populate {| block_id := 0; block_key := ""; block_type := "000"%char; block_size := 0; map2group := 0; map2stripe := 0;
              map2cluster := 0; map2node := 0; map2key := "" |}.

Definition empty_cluster : Cluster :=
  {| cluster_proxy_ip := ""; cluster_proxy_port := 0; nodes := []; cluster_blocks := []; cluster_stripes := ∅ |}.
Definition empty_node : Node :=
  {| node_ip := ""; node_port := 0; cluster_id := 0; repair_proxy_ip := ""; repair_proxy_port := 0; node_stripes := ∅ |}.
Definition with_stripes (nd : Node) (stripes : gmap Z Z) : Node :=
  {| node_ip := node_ip nd; node_port := node_port nd; cluster_id := cluster_id nd; repair_proxy_ip := repair_proxy_ip nd;
     repair_proxy_port := repair_proxy_port nd; node_stripes := stripes |}.

(** The coordinator's tables and the settings the placement reads. *)
Record Tables := {
  m_node_table : gmap Z Node;
  m_cluster_table : gmap Z Cluster }.

Record Settings := { BlockSize : Z; ClusterNum : Z; CodeType : string }.

(** [m_node_table[id]], [m_cluster_table[id]] *)
Definition node_at (t : Tables) (id : Z) : Node := default empty_node (m_node_table t !! id).
Definition cluster_at (t : Tables) (id : Z) : Cluster := default empty_cluster (m_cluster_table t !! id).

(** * Helpers *)

Definition add_to_map (m : gmap Z (list Z)) (key value : Z) : gmap Z (list Z) :=
  <[key := default [] (m !! key) ++ [value]]> m.

(** The [assert] that the node does not hold a block of the stripe yet. *)
Definition update_stripe_info_in_node (t_node_id stripe_id index : Z) (t : Tables) : option Tables :=
  let nd := node_at t t_node_id in
  match node_stripes nd !! stripe_id with
  | Some _ => None
  | None =>
      Some {| m_node_table := <[t_node_id := with_stripes nd (<[stripe_id := index]> (node_stripes nd))]> (m_node_table t);
              m_cluster_table := m_cluster_table t |}
  end.

(** The draws are the values of [dis_node(gen)], in order, which are places of the
    cluster's node list: another list of draws is none the code can make.  The
    result is the node with the draws that are left; running out of them is not
    returning. *)
Fixpoint randomly_select_a_node (cluster stripe_id : Z) (t : Tables) (draws : list Z) : option (Z * list Z) :=
  match draws with
  | [] => None
  | d :: rest =>
      let ns := nodes (cluster_at t cluster) in
      if (d <? 0) || (zlen ns <=? d) then None
      else
        let r_node_id := ns.[d] in
        match node_stripes (node_at t r_node_id) !! stripe_id with
        | None => Some (r_node_id, rest)
        | Some _ => randomly_select_a_node cluster stripe_id t rest
        end
  end.

(** [std::to_string(stripe_id) + tmp + std::to_string(i)] *)
Definition name_block (stripe_id : Z) (tag : string) (i : Z) : string :=
  to_string stripe_id +:+ (if i <? 10 then tag +:+ "0" else tag) +:+ to_string i.

(** The fields every placement fills alike. *)
Definition block_info (s : Stripe) (bs i group : Z) : Block :=
  let '(key, type) :=
    if i <? st_k s then (name_block (stripe_id s) "_D" i, "D"%char)
    else if i <? st_k s + st_r s then (name_block (stripe_id s) "_G" (i - st_k s), "G"%char)
    else (name_block (stripe_id s) "_L" (i - st_k s - st_r s), "L"%char) in
  {| block_id := i; block_key := key; block_type := type; block_size := bs; map2group := group;
     map2stripe := stripe_id s; map2cluster := -1; map2node := -1; map2key := (object_keys s).[0] |}.

Definition with_place (b : Block) (cluster node : Z) : Block :=
  {| block_id := block_id b; block_key := block_key b; block_type := block_type b; block_size := block_size b;
     map2group := map2group b; map2stripe := map2stripe b; map2cluster := cluster; map2node := node;
     map2key := map2key b |}.

(** [m_cluster_table[c].blocks.push_back(...); m_cluster_table[c].stripes.insert(...);] *)
Definition note_in_cluster (c stripe_id : Z) (b : Block) (t : Tables) : Tables :=
  let cl := cluster_at t c in
  {| m_node_table := m_node_table t;
     m_cluster_table := <[c := {| cluster_proxy_ip := cluster_proxy_ip cl; cluster_proxy_port := cluster_proxy_port cl;
                                  nodes := nodes cl; cluster_blocks := cluster_blocks cl ++ [b];
                                  cluster_stripes := {[stripe_id]} ∪ cluster_stripes cl |}]> (m_cluster_table t) |}.

Definition push_block (b : Block) (i : Z) (s : Stripe) : Stripe :=
  {| stripe_id := stripe_id s; st_k := st_k s; st_r := st_r s; st_z := st_z s; st_n := st_n s;
     object_keys := object_keys s; blocks := blocks s ++ [b]; num_groups := num_groups s;
     place2clusters := {[map2cluster b]} ∪ place2clusters s;
     group_to_blocks := add_to_map (group_to_blocks s) (map2group b) i |}.

Definition with_num_groups (n : Z) (s : Stripe) : Stripe :=
  {| stripe_id := stripe_id s; st_k := st_k s; st_r := st_r s; st_z := st_z s; st_n := st_n s;
     object_keys := object_keys s; blocks := blocks s; num_groups := n; place2clusters := place2clusters s;
     group_to_blocks := group_to_blocks s |}.

(** * Random node in the group's cluster *)

(** The rest of the block loop once the group of block [i] is known. *)
Definition place_block (cfg : Settings) (t_cluster_id group i : Z) (st : Stripe * Tables * list Z)
  : option (Stripe * Tables * list Z) :=
  let '(s, t, draws) := st in
  let c := (t_cluster_id + group) mod ClusterNum cfg in
  match randomly_select_a_node c (stripe_id s) t draws with
  | None => None
  | Some (t_node_id, draws) =>
      match update_stripe_info_in_node t_node_id (stripe_id s) i t with
      | None => None
      | Some t =>
          let b := with_place (block_info s (BlockSize cfg) i group) c t_node_id in
          Some (push_block b i s, note_in_cluster c (stripe_id s) b t, draws)
      end
  end.

(** [for (int i = 0; i < n; i++)] over the blocks, with the group of each. *)
Fixpoint place_blocks (cfg : Settings) (t_cluster_id : Z) (group_of : Z -> Z) (ids : list Z)
    (st : Stripe * Tables * list Z) : option (Stripe * Tables * list Z) :=
  match ids with
  | [] => Some st
  | i :: rest =>
      match place_block cfg t_cluster_id (group_of i) i st with
      | None => None
      | Some st => place_blocks cfg t_cluster_id group_of rest st
      end
  end.

(** The frame of the three functions: the [assert] on [object_keys], the loop,
    [num_groups = group_to_blocks.size()]. *)
Definition place_stripe (cfg : Settings) (group_of : Z -> Z) (s : Stripe) (t : Tables) (draws : list Z)
  : option (Stripe * Tables) :=
  if negb (zlen (object_keys s) =? 1) then None
  else
    match place_blocks cfg (stripe_id s mod ClusterNum cfg) group_of (zseq (st_n s)) (s, t, draws) with
    | None => None
    | Some (s, t, _) => Some (with_num_groups (Z.of_nat (size (group_to_blocks s))) s, t)
    end.

Definition optimal_groups_per_local (s : Stripe) : Z :=
  let group_size := st_r s + 1 in
  let local_group_size := st_k s / st_z s in
  let group_num_of_one_local_group := local_group_size / group_size in
  if negb (local_group_size mod group_size =? 0) then group_num_of_one_local_group + 1
  else group_num_of_one_local_group.

Definition optimal_group_of (s : Stripe) (i : Z) : Z :=
  let group_size := st_r s + 1 in
  let local_group_size := st_k s / st_z s in
  let per_local := optimal_groups_per_local s in
  if i <? st_k s then i mod local_group_size / group_size + i / local_group_size * per_local
  else if i <? st_k s + st_r s then st_z s * per_local
  else (i - st_k s - st_r s + 1) * per_local - 1.

Definition initialize_optimal_lrc_stripe_placement (cfg : Settings) (s : Stripe) (t : Tables) (draws : list Z)
  : option (Stripe * Tables) := place_stripe cfg (optimal_group_of s) s t draws.

Definition uni_azure_group_of (code_type : string) (s : Stripe) (i : Z) : Z :=
  if i <? st_k s then i / (st_k s / st_z s)
  else if i <? st_k s + st_r s then
    if String.eqb code_type "UniLRC" then (i - st_k s) / (st_r s / st_z s)
    else if String.eqb code_type "AzureLRC" then st_z s
    else 0
  else (i - st_k s - st_r s) / (st_z s / st_z s).

Definition initialize_unilrc_and_azurelrc_stripe_placement (cfg : Settings) (s : Stripe) (t : Tables)
    (draws : list Z) : option (Stripe * Tables) :=
  place_stripe cfg (uni_azure_group_of (CodeType cfg) s) s t draws.

(** The loop that fills [map2group] first; [new Block[n]] leaves it unset. *)
Definition uniform_groups (s : Stripe) : list Z :=
  let group_size := st_r s + 1 in
  let larger_local_group_num := (st_k s + st_r s) mod st_z s in
  let '(groups, _, _, _) :=
    for_range 0 (st_z s) (fun i '(groups, local_group_size, group_num, block_num) =>
      let local_group_size := if i + larger_local_group_num =? st_z s then local_group_size + 1
                              else local_group_size in
      let '(groups, group_num, block_num) :=
        for_range 0 local_group_size (fun j '(groups, group_num, block_num) =>
          let group_num := if j mod group_size =? 0 then group_num + 1 else group_num in
          (groups.[block_num <- group_num], group_num, block_num + 1)) (groups, group_num, block_num) in
      (groups.[st_k s + st_r s + i <- group_num], local_group_size, group_num, block_num))
      (zrepeat 0 (st_n s), (st_k s + st_r s) / st_z s, -1, 0) in
  groups.

Definition initialize_uniform_lrc_stripe_placement (cfg : Settings) (s : Stripe) (t : Tables) (draws : list Z)
  : option (Stripe * Tables) := let groups := uniform_groups s in place_stripe cfg (fun i => groups.[i]) s t draws.

(** * Round robin over all nodes (gLRC) *)

Definition glrc_group_of (s : Stripe) (i : Z) : Z :=
  if i <? st_k s then glrc_data_group_id i (st_k s) (st_r s) (st_z s)
  else if i <? st_k s + st_r s then glrc_payload_group_id i (st_k s) (st_r s) (st_z s)
  else i - st_k s - st_r s.

(** One position of the ring. *)
Definition glrc_place_position (s : Stripe) (stripe_blocks all_nodes : list Z) (j : Z)
    (st : list Block * gset Z * Tables) : option (list Block * gset Z * Tables) :=
  let '(blocks_info, clusters, t) := st in
  let block_id := stripe_blocks.[j] in
  let node_idx := (j + stripe_id s) mod st_n s in
  let t_node_id := all_nodes.[node_idx] in
  let c := cluster_id (node_at t t_node_id) in
  match update_stripe_info_in_node t_node_id (stripe_id s) block_id t with
  | None => None
  | Some t =>
      let b := with_place blocks_info.[block_id] c t_node_id in
      Some (blocks_info.[block_id <- b], {[c]} ∪ clusters, note_in_cluster c (stripe_id s) b t)
  end.

Definition glrc_place_positions (s : Stripe) (stripe_blocks all_nodes : list Z)
    (st : list Block * gset Z * Tables) : option (list Block * gset Z * Tables) :=
  match for_exit 0 (st_n s) (fun j st => match glrc_place_position s stripe_blocks all_nodes j st with
                                         | None => inr tt
                                         | Some st => inl st
                                         end) st with
  | inl st => Some st
  | inr _ => None
  end.

(** The final loop over the blocks, with its [assert]. *)
Definition glrc_push_blocks (blocks_info : list Block) (s : Stripe) : option Stripe :=
  match for_exit 0 (st_n s) (fun i s =>
          if map2node blocks_info.[i] <? 0 then inr tt
          else inl {| stripe_id := stripe_id s; st_k := st_k s; st_r := st_r s; st_z := st_z s; st_n := st_n s;
                      object_keys := object_keys s; blocks := blocks s ++ [blocks_info.[i]];
                      num_groups := num_groups s; place2clusters := place2clusters s;
                      group_to_blocks := add_to_map (group_to_blocks s) (map2group blocks_info.[i]) i |}) s with
  | inl s => Some s
  | inr _ => None
  end.

(** [std::map] iterates in ascending order of the node id. *)
Definition all_nodes_of (t : Tables) : list Z := merge_sort Z.le (elements (dom (m_node_table t))).

Definition initialize_glrc_stripe_placement (cfg : Settings) (s : Stripe) (t : Tables) : option (Stripe * Tables) :=
  if negb (zlen (object_keys s) =? 1) then None
  else
    let blocks_info := map (fun i => block_info s (BlockSize cfg) i (glrc_group_of s i)) (zseq (st_n s)) in
    let groups := glrc_build_placement_groups (st_k s) (st_r s) (st_z s) in
    if negb (zlen groups =? st_z s) then None
    else
      let stripe_blocks := concat (map (fun g => groups.[g]) (zseq (st_z s))) in
      if negb (zlen stripe_blocks =? st_n s) then None
      else
        let all_nodes := all_nodes_of t in
        if negb (zlen all_nodes =? st_n s) then None
        else
          match glrc_place_positions s stripe_blocks all_nodes (blocks_info, place2clusters s, t) with
          | None => None
          | Some (blocks_info, clusters, t) =>
              match glrc_push_blocks blocks_info
                      {| stripe_id := stripe_id s; st_k := st_k s; st_r := st_r s; st_z := st_z s; st_n := st_n s;
                         object_keys := object_keys s; blocks := blocks s; num_groups := num_groups s;
                         place2clusters := clusters; group_to_blocks := group_to_blocks s |} with
              | None => None
              | Some s => Some (with_num_groups (st_z s) s, t)
              end
          end.
