(* ===== verification/PlacementSpec.v ===== *)
(** What the placements of [Placement] achieve: for the round robin over all
    nodes the position of every block and the contents of all tables, for the
    random choice within a cluster the separation of the blocks. *)
From S2P Require Import Prelude Groups RepairPlan Placement.

(** * Tables *)

Definition same_address (nd nd' : Node) : Prop := node_ip nd = node_ip nd' /\ node_port nd = node_port nd'.

Lemma same_address_trans a b c : same_address a b -> same_address b c -> same_address a c.
Proof. unfold same_address. intros [-> ->] [-> ->]. auto. Qed.

Lemma update_stripe_info_spec id sid i t t' : update_stripe_info_in_node id sid i t = Some t' ->
  node_stripes (node_at t id) !! sid = None /\
  m_cluster_table t' = m_cluster_table t /\
  (forall x, cluster_id (node_at t' x) = cluster_id (node_at t x)) /\
  (forall x, same_address (node_at t' x) (node_at t x)) /\
  (forall x, node_stripes (node_at t' x) =
     if x =? id then <[sid := i]> (node_stripes (node_at t x)) else node_stripes (node_at t x)).
Proof.
  unfold update_stripe_info_in_node. destruct (node_stripes (node_at t id) !! sid) eqn:E; [discriminate|].
  intros [= <-]. split; [reflexivity|]. split; [reflexivity|].
  assert (H : forall x, node_at {| m_node_table := <[id := with_stripes (node_at t id) (<[sid := i]> (node_stripes (node_at t id)))]>
      (m_node_table t); m_cluster_table := m_cluster_table t |} x =
    if x =? id then with_stripes (node_at t id) (<[sid := i]> (node_stripes (node_at t id))) else node_at t x).
  { intros x. unfold node_at at 1. cbn [m_node_table]. destruct (Z.eqb_spec x id) as [->|Hne].
    - rewrite lookup_insert_eq. reflexivity.
    - rewrite lookup_insert_ne by congruence. reflexivity. }
  split; [|split]; intros x; rewrite H; destruct (Z.eqb_spec x id) as [->|]; reflexivity || (split; reflexivity).
Qed.

Lemma update_stripe_info_free id sid i t : node_stripes (node_at t id) !! sid = None ->
  exists t', update_stripe_info_in_node id sid i t = Some t'.
Proof. intros H. unfold update_stripe_info_in_node. rewrite H. eexists. reflexivity. Qed.

Lemma note_in_cluster_nodes c sid b t x : node_at (note_in_cluster c sid b t) x = node_at t x.
Proof. reflexivity. Qed.

Lemma note_in_cluster_blocks c sid b t x :
  cluster_blocks (cluster_at (note_in_cluster c sid b t) x) =
  cluster_blocks (cluster_at t x) ++ (if c =? x then [b] else []).
Proof.
  unfold cluster_at at 1. cbn [note_in_cluster m_cluster_table]. destruct (Z.eqb_spec c x) as [->|Hne].
  - rewrite lookup_insert_eq. reflexivity.
  - rewrite lookup_insert_ne by congruence. rewrite app_nil_r. reflexivity.
Qed.

(** * The ring of the gLRC placement *)

Section Ring.
Context (k r z : Z) (Hk : 1 <= k) (Hr : 0 <= r) (Hz : 1 <= z).

(** The groups, concatenated. *)
Definition ring : list Z := concat (map (fun g => (glrc_build_placement_groups k r z).[g]) (zseq z)).

Lemma ring_perm : ring ≡ₚ zseq (k + r + z).
Proof.
  apply NoDup_Permutation; [|apply NoDup_seqZ|].
  - apply NoDup_concat_map.
    + apply NoDup_seqZ.
    + intros g Hg. apply elem_of_seqZ in Hg. apply placement_group_nodup; lia.
    + intros g h b Hg Hh Hb Hb'. apply elem_of_seqZ in Hg, Hh. apply list_elem_of_In in Hb, Hb'.
      assert (0 <= b < k + r + z) by (apply (placement_group_range k r z) with g; try lia; exact Hb).
      apply placement_group_iff in Hb, Hb'; try lia.
  - intros b. rewrite elem_of_seqZ. unfold ring. rewrite list_elem_of_In, in_concat. split.
    + intros (l & Hl & Hb). apply in_map_iff in Hl as (g & <- & Hg). apply in_zseq in Hg.
      pose proof (placement_group_range k r z ltac:(lia) Hr Hz g b Hg Hb). lia.
    + intros Hb. pose proof (block_group_range k r z ltac:(lia) Hr Hz b ltac:(lia)) as Hg.
      exists (glrc_build_placement_groups k r z).[block_group k r z b]. split.
      * apply in_map_iff. eexists. split; [reflexivity|]. apply in_zseq, Hg.
      * apply placement_group_iff; lia.
Qed.

Lemma ring_len : zlen ring = k + r + z.
Proof. rewrite ring_perm, zlen_seqZ. lia. Qed.

Lemma ring_nodup : NoDup ring.
Proof. rewrite ring_perm. apply NoDup_seqZ. Qed.

Lemma ring_range p : 0 <= p < k + r + z -> 0 <= ring.[p] < k + r + z.
Proof.
  intros Hp. assert (H : In ring.[p] ring) by (apply zget_In; rewrite ring_len; lia).
  apply (Permutation_in _ ring_perm), in_zseq in H. exact H.
Qed.

Lemma ring_onto b : 0 <= b < k + r + z -> exists p, 0 <= p < k + r + z /\ ring.[p] = b.
Proof.
  intros Hb. assert (H : In b ring) by (rewrite ring_perm; apply in_zseq, Hb).
  apply In_zget in H. rewrite ring_len in H. exact H.
Qed.

(** The blocks of a group in ascending order. *)
Lemma group_members g : 0 <= g < z ->
  List.filter (fun b => block_group k r z b =? g) (zseq (k + r + z)) = (glrc_build_placement_groups k r z).[g].
Proof.
  intros Hg. destruct (placement_groups_spec k r z ltac:(lia) Hr Hz) as [_ Hspec]. rewrite Hspec by lia.
  set (a := payload_start k r z g). set (b := payload_start k r z (g + 1)).
  assert (Hab : 0 <= a <= b /\ b <= k + r).
  { pose proof (payload_start_mono k r z ltac:(lia) Hr Hz 0 g ltac:(lia)). rewrite payload_start_0 in * by lia.
    pose proof (payload_start_mono k r z ltac:(lia) Hr Hz g (g + 1) ltac:(lia)).
    pose proof (payload_start_mono k r z ltac:(lia) Hr Hz (g + 1) z ltac:(lia)). rewrite payload_start_z in * by lia.
    unfold a, b. lia. }
  assert (Hin : forall x, 0 <= x < k + r + z -> (block_group k r z x =? g) = true <-> a <= x < b \/ x = k + r + g).
  { intros x Hx. rewrite Z.eqb_eq, <- (placement_group_iff k r z ltac:(lia) Hr Hz g x Hx Hg).
    apply in_placement_group; lia. }
  assert (Hout : forall x, 0 <= x < k + r + z -> ~ (a <= x < b \/ x = k + r + g) -> (block_group k r z x =? g) = false).
  { intros x Hx Hn. destruct (block_group k r z x =? g) eqn:E; [|reflexivity]. apply Hin in E; [contradiction|exact Hx]. }
  assert (E : zseq (k + r + z) = zseq a ++ seqZ a (b - a) ++ seqZ b (k + r + g - b) ++
                                 [k + r + g] ++ seqZ (k + r + g + 1) (z - g - 1)).
  { replace (k + r + z) with (a + ((b - a) + ((k + r + g - b) + (1 + (z - g - 1))))) by lia.
    rewrite !seqZ_app by lia. replace (0 + a) with a by lia. replace (a + (b - a)) with b by lia.
    replace (b + (k + r + g - b)) with (k + r + g) by lia. reflexivity. }
  rewrite E, !List.filter_app.
  rewrite (filter_none _ (zseq a)), (filter_all _ (seqZ a (b - a))), (filter_none _ (seqZ b _)),
          (filter_all _ [_]), (filter_none _ (seqZ (k + r + g + 1) _)).
  - cbn [app]. reflexivity.
  - intros x Hx. apply list_elem_of_In, elem_of_seqZ in Hx. apply Hout; lia.
  - intros x [<-|[]]. apply Hin; lia.
  - intros x Hx. apply list_elem_of_In, elem_of_seqZ in Hx. apply Hout; lia.
  - intros x Hx. apply list_elem_of_In, elem_of_seqZ in Hx. apply Hin; lia.
  - intros x Hx. apply list_elem_of_In, elem_of_seqZ in Hx. apply Hout; lia.
Qed.
End Ring.

(** * The gLRC placement *)

Section GlrcPlacement.
Context (cfg : Settings) (s : Stripe) (t0 : Tables).
Abbreviation k := (st_k s).
Abbreviation r := (st_r s).
Abbreviation z := (st_z s).
Abbreviation n := (st_n s).
Abbreviation sid := (stripe_id s).
Context (Hk : 1 <= k) (Hr : 0 <= r) (Hz : 1 <= z) (Hn : n = k + r + z) (Hsid : 0 <= sid).
Context (Hnodes : Z.of_nat (size (m_node_table t0)) = n).
Context (Hids : forall x, x ∈ dom (m_node_table t0) -> 0 <= x).
Context (Hfree : forall x, node_stripes (node_at t0 x) !! sid = None).

Abbreviation rg := (ring k r z).
Abbreviation AN := (all_nodes_of t0).

(** The node of ring position [p], and its cluster. *)
Definition node_of (p : Z) : Z := AN.[(p + sid) mod n].
Definition cluster_of (p : Z) : Z := cluster_id (node_at t0 (node_of p)).

Lemma all_nodes_perm : AN ≡ₚ elements (dom (m_node_table t0)).
Proof. apply merge_sort_Permutation. Qed.

Lemma all_nodes_len : zlen AN = n.
Proof. rewrite all_nodes_perm. change (length (elements ?X)) with (size X). rewrite size_dom. exact Hnodes. Qed.

Lemma all_nodes_nodup : NoDup AN.
Proof. rewrite all_nodes_perm. apply NoDup_elements. Qed.

Lemma node_of_inj p q : 0 <= p < n -> 0 <= q < n -> node_of p = node_of q -> p = q.
Proof.
  intros Hp Hq E. unfold node_of in E.
  pose proof (Z.mod_pos_bound (p + sid) n ltac:(lia)). pose proof (Z.mod_pos_bound (q + sid) n ltac:(lia)).
  apply zget_inj in E; [|apply all_nodes_nodup|rewrite all_nodes_len; lia..].
  pose proof (Z.div_mod (p + sid) n ltac:(lia)). pose proof (Z.div_mod (q + sid) n ltac:(lia)).
  assert ((p + sid) / n = (q + sid) / n) by nia. lia.
Qed.

Lemma node_of_table p : 0 <= p < n -> node_of p ∈ dom (m_node_table t0).
Proof.
  intros Hp. assert (H : node_of p ∈ AN).
  { apply list_elem_of_In, zget_In. rewrite all_nodes_len. apply Z.mod_pos_bound. lia. }
  rewrite all_nodes_perm in H. apply elem_of_elements in H. exact H.
Qed.

Definition glrc_base : list Block :=
  map (fun i => block_info s (BlockSize cfg) i (glrc_group_of s i)) (zseq n).

Definition placed (b : Block) (p : Z) : Block := with_place b (cluster_of p) (node_of p).

(** After [j] positions. *)
Record ring_state (clusters : gset Z) (j : Z) (st : list Block * gset Z * Tables) : Prop := {
  rs_len : zlen st.1.1 = n;
  rs_blocks : forall p, 0 <= p < n ->
    st.1.1.[rg.[p]] = if p <? j then placed glrc_base.[rg.[p]] p else glrc_base.[rg.[p]];
  rs_clusters : forall c, c ∈ st.1.2 <-> c ∈ clusters \/ exists p, 0 <= p < j /\ cluster_of p = c;
  rs_ids : forall x, cluster_id (node_at st.2 x) = cluster_id (node_at t0 x);
  rs_held : forall p, 0 <= p < n ->
    node_stripes (node_at st.2 (node_of p)) !! sid = if p <? j then Some rg.[p] else None;
  rs_other : forall x s', s' <> sid -> node_stripes (node_at st.2 x) !! s' = node_stripes (node_at t0 x) !! s';
  rs_refs : forall c, cluster_blocks (cluster_at st.2 c) = cluster_blocks (cluster_at t0 c) ++
    map (fun p => placed glrc_base.[rg.[p]] p) (List.filter (fun p => cluster_of p =? c) (zseq j));
  rs_rest : forall x, (forall p, 0 <= p < n -> node_of p <> x) -> node_stripes (node_at st.2 x) = node_stripes (node_at t0 x);
  rs_addr : forall x, same_address (node_at st.2 x) (node_at t0 x) }.

Lemma glrc_base_len : zlen glrc_base = n.
Proof. unfold glrc_base. rewrite length_map, zlen_seqZ. lia. Qed.

Lemma ring_start clusters : ring_state clusters 0 (glrc_base, clusters, t0).
Proof.
  split; cbn [fst snd]; auto using glrc_base_len.
  - intros p Hp. zcases. reflexivity.
  - intros c. split; [auto|]. intros [H|(p & Hp & _)]; [exact H|lia].
  - intros p Hp. zcases. apply Hfree.
  - intros c. cbn. rewrite app_nil_r. reflexivity.
  - intros x. split; reflexivity.
Qed.

Lemma ring_step clusters j st : 0 <= j < n -> ring_state clusters j st ->
  exists st', glrc_place_position s rg AN j st = Some st' /\ ring_state clusters (j + 1) st'.
Proof.
  intros Hj [H1 H2 H3 H4 H5 H6 H7 H8 H9]. destruct st as [[info cl] t]. cbn [fst snd] in *.
  unfold glrc_place_position. fold (node_of j). rewrite H4. fold (cluster_of j).
  pose proof (H5 j Hj) as Hfj. rewrite Z.ltb_irrefl in Hfj.
  destruct (update_stripe_info_free (node_of j) sid rg.[j] t Hfj) as [t' E]. rewrite E.
  apply update_stripe_info_spec in E as (_ & Ec & Eid & Ead & Est).
  eexists. split; [reflexivity|]. pose proof (ring_range k r z Hk Hr Hz j ltac:(lia)) as Hrj.
  assert (Hinj : forall p, 0 <= p < n -> rg.[j] = rg.[p] -> j = p).
  { intros p Hp Ep. apply (zget_inj rg j p (ring_nodup k r z Hk Hr Hz)); rewrite ?ring_len by lia; auto; lia. }
  split; cbn [fst snd].
  - rewrite zlen_zset. lia.
  - intros p Hp. destruct (Z.eq_dec p j) as [->|Hne].
    + rewrite zget_zset_eq by lia. rewrite H2 by lia. rewrite Z.ltb_irrefl. zcases. reflexivity.
    + rewrite zget_zset_ne by (intros Ep; apply Hne; symmetry; apply Hinj; auto). rewrite H2 by lia. zcases; reflexivity.
  - intros c. rewrite elem_of_union, elem_of_singleton, H3. split.
    + intros [->|[H|(p & Hp & Hc)]]; [right; exists j|left; exact H|right; exists p]; split; auto; lia.
    + intros [H|(p & Hp & Hc)]; [auto|]. destruct (Z.eq_dec p j) as [->|Hne]; [left; auto|].
      right. right. exists p. split; [lia|exact Hc].
  - intros x. rewrite note_in_cluster_nodes, Eid. apply H4.
  - intros p Hp. rewrite note_in_cluster_nodes, Est. destruct (Z.eqb_spec (node_of p) (node_of j)) as [Ep|Ep].
    + apply node_of_inj in Ep as ->; [|lia..]. rewrite lookup_insert_eq. zcases. reflexivity.
    + rewrite H5 by lia. assert (p <> j) by congruence. zcases; reflexivity.
  - intros x s' Hs. rewrite note_in_cluster_nodes, Est. destruct (x =? node_of j); [|apply H6, Hs].
    rewrite lookup_insert_ne by congruence. apply H6, Hs.
  - intros c. rewrite note_in_cluster_blocks. unfold cluster_at at 1. rewrite Ec. fold (cluster_at t c).
    rewrite H7, zseq_snoc, List.filter_app, map_app, <- app_assoc by lia. cbn [List.filter].
    rewrite H2, Z.ltb_irrefl by lia. destruct (cluster_of j =? c); reflexivity.
  - intros x Hx. rewrite note_in_cluster_nodes, Est. destruct (Z.eqb_spec x (node_of j)) as [->|_]; [destruct (Hx j Hj eq_refl)|].
    apply H8, Hx.
  - intros x. rewrite note_in_cluster_nodes. exact (same_address_trans _ _ _ (Ead x) (H9 x)).
Qed.

Lemma positions_spec clusters : exists st, glrc_place_positions s rg AN (glrc_base, clusters, t0) = Some st /\
  ring_state clusters n st.
Proof.
  unfold glrc_place_positions.
  match goal with |- context [for_exit 0 n ?body ?st] =>
    destruct (for_exit_total (ring_state clusters) 0 n body st) as (st' & -> & H);
      [lia|apply ring_start| |exists st'; split; [reflexivity|exact H]]
  end.
  intros j st1 Hj Hst. destruct (ring_step clusters j st1 Hj Hst) as (st' & -> & Hst').
  exists st'. split; [reflexivity|exact Hst'].
Qed.

(** What the loop over the blocks leaves in a stripe that had none. *)
Record pushed (info : list Block) (s1 s2 : Stripe) (i : Z) : Prop := {
  pu_blocks : blocks s2 = map (fun b => info.[b]) (zseq i);
  pu_groups : forall g, group_to_blocks s2 !! g =
    match List.filter (fun b => map2group info.[b] =? g) (zseq i) with [] => None | l => Some l end;
  pu_clusters : place2clusters s2 = place2clusters s1;
  pu_same : stripe_id s2 = stripe_id s1 /\ st_k s2 = st_k s1 /\ st_r s2 = st_r s1 /\ st_z s2 = st_z s1 /\
            st_n s2 = st_n s1 /\ object_keys s2 = object_keys s1 }.

Lemma push_spec info s1 : blocks s1 = [] -> group_to_blocks s1 = ∅ -> 0 <= st_n s1 ->
  (forall i, 0 <= i < st_n s1 -> 0 <= map2node info.[i]) ->
  exists s2, glrc_push_blocks info s1 = Some s2 /\ pushed info s1 s2 (st_n s1).
Proof.
  intros Hb Hg Hn1 Hnode. unfold glrc_push_blocks.
  match goal with |- context [for_exit 0 ?m ?body s1] =>
    destruct (for_exit_total (fun i s2 => pushed info s1 s2 i) 0 m body s1) as (s2 & -> & H);
      [lia| | |exists s2; split; [reflexivity|exact H]]
  end.
  - split; [exact Hb| |reflexivity|repeat split]. intros g. rewrite Hg. apply lookup_empty.
  - intros i s2 Hi [P1 P2 P3 P4]. destruct (Z.ltb_spec (map2node info.[i]) 0) as [Hneg|_]; [specialize (Hnode i Hi); lia|].
    eexists. split; [reflexivity|].
    split; cbn [blocks group_to_blocks place2clusters stripe_id st_k st_r st_z st_n object_keys]; auto.
    + rewrite zseq_snoc, map_app, P1 by lia. reflexivity.
    + intros g. unfold add_to_map. rewrite zseq_snoc, List.filter_app by lia. cbn [List.filter].
      destruct (Z.eqb_spec (map2group info.[i]) g) as [->|Hne].
      * rewrite lookup_insert_eq, P2. destruct (List.filter _ (zseq i)); reflexivity.
      * rewrite lookup_insert_ne, app_nil_r by congruence. apply P2.
Qed.

Lemma glrc_group_of_eq b : glrc_group_of s b = block_group k r z b.
Proof. unfold glrc_group_of, block_group, glrc_data_group_id. zcases; reflexivity || lia. Qed.

Lemma glrc_base_get b : 0 <= b < n -> glrc_base.[b] = block_info s (BlockSize cfg) b (block_group k r z b).
Proof.
  intros Hb. unfold glrc_base. rewrite zget_map by (rewrite zlen_seqZ; lia).
  rewrite zget_zseq, glrc_group_of_eq by lia. reflexivity.
Qed.

Lemma block_info_group b g : map2group (block_info s (BlockSize cfg) b g) = g.
Proof. unfold block_info. repeat case_match; reflexivity. Qed.

Lemma glrc_placement_spec : zlen (object_keys s) = 1 -> blocks s = [] -> group_to_blocks s = ∅ ->
  exists s' t', initialize_glrc_stripe_placement cfg s t0 = Some (s', t') /\
    (stripe_id s' = sid /\ st_k s' = k /\ st_r s' = r /\ st_z s' = z /\ st_n s' = n /\ object_keys s' = object_keys s) /\
    zlen (blocks s') = n /\ num_groups s' = z /\
    (forall p, 0 <= p < n ->
       (blocks s').[rg.[p]] = placed (block_info s (BlockSize cfg) rg.[p] (block_group k r z rg.[p])) p) /\
    (forall g, group_to_blocks s' !! g =
       match List.filter (fun b => map2group (blocks s').[b] =? g) (zseq n) with [] => None | l => Some l end) /\
    exists st, ring_state (place2clusters s) n st /\ place2clusters s' = st.1.2 /\ t' = st.2.
Proof.
  intros Hobj Hblocks Hgroups. unfold initialize_glrc_stripe_placement.
  destruct (placement_groups_spec k r z ltac:(lia) Hr Hz) as [Hgl _].
  fold glrc_base. fold rg. rewrite Hobj, Hgl, ring_len, all_nodes_len, <- Hn, !Z.eqb_refl by lia. cbn [negb Z.eqb Pos.eqb].
  destruct (positions_spec (place2clusters s)) as ([[info cl] t] & -> & Hst).
  pose proof Hst as [H1 H2 _ _ _ _ _ _ _]. cbn [fst snd] in H1, H2.
  set (s1 := {| stripe_id := sid; st_k := k; st_r := r; st_z := z; st_n := n; object_keys := object_keys s;
                blocks := blocks s; place2clusters := cl; num_groups := num_groups s;
                group_to_blocks := group_to_blocks s |}).
  assert (Hinfo : forall b, 0 <= b < n -> exists p, 0 <= p < n /\ rg.[p] = b /\
            info.[b] = placed (block_info s (BlockSize cfg) b (block_group k r z b)) p).
  { intros b Hb. destruct (ring_onto k r z Hk Hr Hz b ltac:(lia)) as (p & Hp & Ep). exists p. split; [lia|].
    split; [exact Ep|]. rewrite <- Ep at 1. rewrite H2 by lia. zcases. rewrite Ep, glrc_base_get by lia. reflexivity. }
  destruct (push_spec info s1) as (s2 & -> & [P1 P2 P3 P4]); auto; [cbn; lia| |].
  { intros b Hb. destruct (Hinfo b Hb) as (p & Hp & _ & ->). apply Hids, node_of_table, Hp. }
  cbn [st_n s1] in P1, P2. eexists. exists t. split; [reflexivity|]. cbn [blocks num_groups group_to_blocks place2clusters].
  cbn [with_num_groups blocks num_groups group_to_blocks place2clusters]. rewrite P1, P3.
  split; [exact P4|]. destruct P4 as (_ & _ & _ & -> & _).
  split; [rewrite length_map, zlen_seqZ; lia|]. split; [reflexivity|]. split; [|split].
  - intros p Hp. pose proof (ring_range k r z Hk Hr Hz p ltac:(lia)).
    rewrite zget_map by (rewrite zlen_seqZ; lia). rewrite zget_zseq, H2 by lia. zcases. rewrite glrc_base_get by lia. reflexivity.
  - intros g. rewrite P2. rewrite (filter_ext_in _ (fun b => map2group (map (fun b => info.[b]) (zseq n)).[b] =? g)); [reflexivity|].
    intros b Hb. apply in_zseq in Hb. rewrite zget_map by (rewrite zlen_seqZ; lia). rewrite zget_zseq by lia. reflexivity.
  - exists (info, cl, t). split; [exact Hst|]. split; reflexivity.
Qed.
End GlrcPlacement.

(** * Random node in the group's cluster *)

Lemma select_node_spec c sid t draws x rest : randomly_select_a_node c sid t draws = Some (x, rest) ->
  node_stripes (node_at t x) !! sid = None /\ x ∈ nodes (cluster_at t c).
Proof.
  induction draws as [|d draws IH]; cbn [randomly_select_a_node]; [discriminate|]. cbv zeta.
  destruct ((d <? 0) || _) eqn:Er; [discriminate|].
  destruct (node_stripes (node_at t (nodes (cluster_at t c)).[d]) !! sid) eqn:E; [exact IH|].
  intros [= <- <-]. split; [exact E|]. apply list_elem_of_In, zget_In. lia.
Qed.

(** The loop ends as soon as a draw names a node without a block of the stripe. *)
Lemma select_node_returns c sid t draws d : Forall (fun d => 0 <= d < zlen (nodes (cluster_at t c))) draws -> d ∈ draws ->
  node_stripes (node_at t (nodes (cluster_at t c)).[d]) !! sid = None ->
  is_Some (randomly_select_a_node c sid t draws).
Proof.
  intros Hr Hd Hfree. induction draws as [|d' draws IH]; [set_solver|]. apply Forall_cons in Hr as [Hr0 Hr]. cbn [randomly_select_a_node]. cbv zeta.
  replace ((d' <? 0) || _) with false by lia.
  destruct (node_stripes (node_at t (nodes (cluster_at t c)).[d']) !! sid) eqn:E; [|eexists; reflexivity].
  apply elem_of_cons in Hd as [->|Hd]; [congruence|apply IH; assumption].
Qed.

Section RandomPlacement.
Context (cfg : Settings) (group_of : Z -> Z) (s0 : Stripe) (t0 : Tables).
Abbreviation sid := (stripe_id s0).
Context (Hfree : forall x, node_stripes (node_at t0 x) !! sid = None).

Definition cluster_for (b : Z) : Z := (sid mod ClusterNum cfg + group_of b) mod ClusterNum cfg.

(** After the blocks [0 .. i-1]. *)
Record placed_upto (i : Z) (s : Stripe) (t : Tables) : Prop := {
  pl_same : stripe_id s = sid /\ st_k s = st_k s0 /\ st_r s = st_r s0 /\ st_z s = st_z s0 /\ st_n s = st_n s0 /\
            object_keys s = object_keys s0;
  pl_len : zlen (blocks s) = i;
  pl_block : forall b, 0 <= b < i -> (blocks s).[b] =
    with_place (block_info s0 (BlockSize cfg) b (group_of b)) (cluster_for b) (map2node (blocks s).[b]);
  pl_node : forall b, 0 <= b < i -> map2node (blocks s).[b] ∈ nodes (cluster_at t0 (cluster_for b));
  pl_held : forall x b, node_stripes (node_at t x) !! sid = Some b <-> 0 <= b < i /\ map2node (blocks s).[b] = x;
  pl_other : forall x s', s' <> sid -> node_stripes (node_at t x) !! s' = node_stripes (node_at t0 x) !! s';
  pl_nodes : forall c, nodes (cluster_at t c) = nodes (cluster_at t0 c);
  pl_refs : forall c, cluster_blocks (cluster_at t c) =
    cluster_blocks (cluster_at t0 c) ++ List.filter (fun b => map2cluster b =? c) (blocks s);
  pl_addr : forall x, same_address (node_at t x) (node_at t0 x);
  pl_groups : forall g, group_to_blocks s !! g =
    match List.filter (fun b => group_of b =? g) (zseq i) with [] => None | l => Some l end }.

Lemma nodes_noted c b t x : nodes (cluster_at (note_in_cluster c sid b t) x) = nodes (cluster_at t x).
Proof.
  unfold cluster_at at 1. cbn [note_in_cluster m_cluster_table]. destruct (decide (x = c)) as [->|Hne].
  - rewrite lookup_insert_eq. reflexivity.
  - rewrite lookup_insert_ne by congruence. reflexivity.
Qed.

Lemma block_info_same s bs b g : stripe_id s = sid -> st_k s = st_k s0 -> st_r s = st_r s0 ->
  object_keys s = object_keys s0 -> block_info s bs b g = block_info s0 bs b g.
Proof. intros H1 H2 H3 H4. unfold block_info. rewrite H1, H2, H3, H4. reflexivity. Qed.

Lemma place_block_spec i s t draws st' : 0 <= i -> placed_upto i s t ->
  place_block cfg (sid mod ClusterNum cfg) (group_of i) i (s, t, draws) = Some st' ->
  placed_upto (i + 1) st'.1.1 st'.1.2.
Proof.
  intros Hi [P0 P1 P2 P3 P4 P5 P6 P8 P9 P7] E. destruct P0 as (Q1 & Q2 & Q3 & Q4 & Q5 & Q6).
  unfold place_block in E. fold (cluster_for i) in E. rewrite Q1 in E.
  destruct (randomly_select_a_node _ _ _ _) as [[x rest]|] eqn:Es; [|discriminate].
  apply select_node_spec in Es as (Hx & Hd). rewrite P6 in Hd.
  destruct (update_stripe_info_in_node x sid i t) as [t1|] eqn:Eu; [|discriminate].
  apply update_stripe_info_spec in Eu as (_ & Ec & _ & Ead & Est). injection E as <-. cbn [fst snd].
  set (b := with_place _ _ _). assert (Hb : b = with_place (block_info s0 (BlockSize cfg) i (group_of i)) (cluster_for i) x).
  { unfold b. rewrite (block_info_same s) by assumption. reflexivity. }
  assert (Hbg : map2group b = group_of i) by (rewrite Hb; cbn [with_place map2group]; unfold block_info; repeat case_match; reflexivity).
  assert (Hget : forall j, 0 <= j < i + 1 -> (blocks s ++ [b]).[j] = if j =? i then b else (blocks s).[j]).
  { intros j Hj. rewrite zget_app by lia. rewrite P1. destruct (Z.eqb_spec j i) as [->|Hne]; zcases; [|reflexivity].
    replace (i - i) with 0 by lia. reflexivity. }
  assert (Hbx : map2node b = x) by (rewrite Hb; reflexivity).
  split; cbn [push_block stripe_id st_k st_r st_z st_n object_keys blocks group_to_blocks].
  - repeat split; assumption.
  - rewrite length_app. cbn [length]. lia.
  - intros j Hj. rewrite Hget by lia. destruct (Z.eqb_spec j i) as [->|Hne]; [rewrite Hbx; exact Hb|apply P2; lia].
  - intros j Hj. rewrite Hget by lia. destruct (Z.eqb_spec j i) as [->|Hne]; [rewrite Hbx; exact Hd|apply P3; lia].
  - intros y b'. rewrite note_in_cluster_nodes, Est. destruct (Z.eqb_spec y x) as [->|Hyx].
    + rewrite lookup_insert_eq. split.
      * intros [= <-]. split; [lia|]. rewrite Hget by lia. rewrite Z.eqb_refl. exact Hbx.
      * intros [Hr Hm]. rewrite Hget in Hm by lia. destruct (Z.eqb_spec b' i) as [->|Hne]; [reflexivity|].
        exfalso. assert (Hs : node_stripes (node_at t x) !! sid = Some b') by (apply P4; split; [lia|exact Hm]). congruence.
    + rewrite P4. split; intros [Hr Hm].
      * split; [lia|]. rewrite Hget by lia. destruct (Z.eqb_spec b' i); [lia|exact Hm].
      * rewrite Hget in Hm by lia. destruct (Z.eqb_spec b' i) as [->|Hne]; [congruence|]. split; [lia|exact Hm].
  - intros y s' Hs. rewrite note_in_cluster_nodes, Est. destruct (y =? x); [|apply P5, Hs].
    rewrite lookup_insert_ne by congruence. apply P5, Hs.
  - intros c. rewrite nodes_noted. unfold cluster_at. rewrite Ec. apply P6.
  - intros c. rewrite note_in_cluster_blocks, List.filter_app. unfold cluster_at at 1. rewrite Ec. fold (cluster_at t c).
    rewrite P8, <- app_assoc. reflexivity.
  - intros x'. rewrite note_in_cluster_nodes. exact (same_address_trans _ _ _ (Ead x') (P9 x')).
  - intros g. rewrite Hbg. unfold add_to_map. rewrite zseq_snoc, List.filter_app by lia. cbn [List.filter].
    destruct (Z.eqb_spec (group_of i) g) as [->|Hne].
    + rewrite lookup_insert_eq, P7. destruct (List.filter _ (zseq i)); reflexivity.
    + rewrite lookup_insert_ne, app_nil_r by congruence. apply P7.
Qed.

Lemma place_blocks_spec m : forall i s t draws st', 0 <= i -> 0 <= m -> placed_upto i s t ->
  place_blocks cfg (sid mod ClusterNum cfg) group_of (seqZ i m) (s, t, draws) = Some st' ->
  placed_upto (i + m) st'.1.1 st'.1.2.
Proof.
  intros i s t draws st' Hi Hm. revert i s t draws st' Hi. pattern m.
  apply natlike_ind; [| |exact Hm]; clear m Hm.
  - intros i s t draws st' Hi H E. cbn in E. injection E as <-. rewrite Z.add_0_r. exact H.
  - intros m Hm IH i s t draws st' Hi H E. rewrite seqZ_cons in E by lia. cbn [place_blocks] in E.
    destruct (place_block _ _ _ i _) as [[[s1 t1] d1]|] eqn:E1; [|discriminate].
    apply (place_block_spec i s t draws _ Hi H) in E1. cbn [fst snd] in E1.
    replace (Z.pred (Z.succ m)) with m in E by lia. apply IH in E; [|lia|exact E1].
    replace (i + Z.succ m) with (Z.succ i + m) by lia. exact E.
Qed.

Lemma place_stripe_spec draws s' t' : 0 <= st_n s0 -> blocks s0 = [] -> group_to_blocks s0 = ∅ ->
  place_stripe cfg group_of s0 t0 draws = Some (s', t') -> placed_upto (st_n s0) s' t'.
Proof.
  intros Hn Hb Hg E. unfold place_stripe in E. destruct (negb _); [discriminate|].
  destruct (place_blocks _ _ _ _ _) as [[[s1 t1] d1]|] eqn:E1; [|discriminate]. injection E as <- <-.
  apply (place_blocks_spec (st_n s0) 0 s0 t0 draws) in E1; [|lia|lia|].
  - cbn [fst snd] in E1. rewrite Z.add_0_l in E1. destruct E1. split; assumption.
  - split; auto; try (intros; lia).
    + repeat split; reflexivity.
    + rewrite Hb. reflexivity.
    + intros x b. rewrite Hfree. split; [discriminate|lia].
    + intros c. rewrite Hb. symmetry. apply app_nil_r.
    + intros x. split; reflexivity.
    + intros g. rewrite Hg. apply lookup_empty.
Qed.

(** No node gets two blocks of the stripe. *)
Lemma placed_distinct i s t b b' : placed_upto i s t -> 0 <= b < i -> 0 <= b' < i ->
  map2node (blocks s).[b] = map2node (blocks s).[b'] -> b = b'.
Proof.
  intros [_ _ _ _ P4 _ _ _ _ _] Hb Hb' E.
  assert (H1 := proj2 (P4 (map2node (blocks s).[b]) b) (conj Hb eq_refl)).
  assert (H2 := proj2 (P4 (map2node (blocks s).[b]) b') (conj Hb' (eq_sym E))). congruence.
Qed.
End RandomPlacement.
