(* ===== verification/PlacementLaw.v ===== *)
(** What every placement promises the coordinator: the interface
    [PlacementAlgorithm], and that the four [initialize_*_stripe_placement]
    functions implement it. *)
From S2P Require Import Prelude Groups RepairPlan Placement PlacementSpec.

(** A stripe as the upload handlers build it, before it is placed. *)
Record new_stripe (s : Stripe) : Prop := {
  ns_k : 1 <= st_k s;
  ns_r : 0 <= st_r s;
  ns_z : 1 <= st_z s;
  ns_n : st_n s = st_k s + st_r s + st_z s;
  ns_blocks : blocks s = [];
  ns_groups : group_to_blocks s = ∅ }.

Record placement_ok (cfg : Settings) (s : Stripe) (t : Tables) (s' : Stripe) (t' : Tables) : Prop := {
  po_same : stripe_id s' = stripe_id s /\ st_k s' = st_k s /\ st_r s' = st_r s /\ st_z s' = st_z s /\ st_n s' = st_n s /\
            object_keys s' = object_keys s;
  po_len : zlen (blocks s') = st_n s;
  po_block : forall b, 0 <= b < st_n s ->
    (blocks s').[b] = with_place (block_info s (BlockSize cfg) b (map2group (blocks s').[b]))
                        (map2cluster (blocks s').[b]) (map2node (blocks s').[b]);
  po_held : forall x b, node_stripes (node_at t' x) !! stripe_id s = Some b <->
    0 <= b < st_n s /\ map2node (blocks s').[b] = x;
  po_other : forall x i, i <> stripe_id s -> node_stripes (node_at t' x) !! i = node_stripes (node_at t x) !! i;
  po_refs : forall c, cluster_blocks (cluster_at t' c) ≡ₚ
    cluster_blocks (cluster_at t c) ++ List.filter (fun b => map2cluster b =? c) (blocks s');
  po_addr : forall x, same_address (node_at t' x) (node_at t x);
  po_groups : forall g, group_to_blocks s' !! g =
    match List.filter (fun b => map2group (blocks s').[b] =? g) (zseq (st_n s)) with [] => None | l => Some l end }.

(** The promise: a placement that returns has placed the stripe, provided no
    node holds a block of it yet. *)
Class PlacementAlgorithm (place : Settings -> Stripe -> Tables -> list Z -> option (Stripe * Tables)) :=
  place_ok cfg s t draws s' t' : new_stripe s -> (forall x, node_stripes (node_at t x) !! stripe_id s = None) ->
    place cfg s t draws = Some (s', t') -> placement_ok cfg s t s' t'.

(** * Random node in the group's cluster *)

#[export] Instance place_stripe_ok (group_of : Settings -> Stripe -> Z -> Z) :
  PlacementAlgorithm (fun cfg s t draws => place_stripe cfg (group_of cfg s) s t draws).
Proof.
  intros cfg s t draws s' t' [N1 N2 N3 N4 N5 N6] Hfree E.
  apply place_stripe_spec in E as [P1 P2 P3 P4 P5 P6 P7 P8 P10 P9]; [|exact Hfree|lia|exact N5|exact N6].
  assert (Hg : forall b, 0 <= b < st_n s -> map2group (blocks s').[b] = group_of cfg s b).
  { intros b Hb. rewrite P3 by exact Hb. cbn [with_place map2group]. unfold block_info. repeat case_match; reflexivity. }
  assert (Hc : forall b, 0 <= b < st_n s -> map2cluster (blocks s').[b] = cluster_for cfg (group_of cfg s) s b).
  { intros b Hb. rewrite P3 by exact Hb. reflexivity. }
  split; auto.
  - intros b Hb. rewrite Hg, Hc by exact Hb. apply P3, Hb.
  - intros c. rewrite P8. reflexivity.
  - intros g. rewrite P9. rewrite (filter_ext_in _ (fun b => map2group (blocks s').[b] =? g)); [reflexivity|].
    intros b Hb. apply in_zseq in Hb. rewrite Hg by exact Hb. reflexivity.
Qed.

#[export] Instance optimal_ok : PlacementAlgorithm initialize_optimal_lrc_stripe_placement := place_stripe_ok (fun _ => optimal_group_of).
#[export] Instance uni_azure_ok : PlacementAlgorithm initialize_unilrc_and_azurelrc_stripe_placement :=
  place_stripe_ok (fun cfg => uni_azure_group_of (CodeType cfg)).
#[export] Instance uniform_ok : PlacementAlgorithm initialize_uniform_lrc_stripe_placement :=
  place_stripe_ok (fun _ s i => (uniform_groups s).[i]).

(** * Round robin over all nodes *)

Lemma node_of_onto s t x : 1 <= st_n s -> Z.of_nat (size (m_node_table t)) = st_n s -> x ∈ dom (m_node_table t) ->
  exists p, 0 <= p < st_n s /\ node_of s t p = x.
Proof.
  intros Hn Hnodes Hx. assert (H : In x (all_nodes_of t)).
  { apply list_elem_of_In. rewrite all_nodes_perm. apply elem_of_elements, Hx. }
  apply In_zget in H as (q & Hq & <-).
  assert (Hl : zlen (all_nodes_of t) = st_n s).
  { rewrite all_nodes_perm. change (length (elements ?X)) with (size X). rewrite size_dom. exact Hnodes. }
  exists ((q - stripe_id s) mod st_n s). split; [apply Z.mod_pos_bound; lia|]. unfold node_of.
  rewrite Zplus_mod_idemp_l. replace (q - stripe_id s + stripe_id s) with q by lia. rewrite Z.mod_small by lia. reflexivity.
Qed.

(** The final assertion holds only of blocks that were placed. *)
Lemma push_nodes info s s' : 0 <= st_n s -> glrc_push_blocks info s = Some s' ->
  forall i, 0 <= i < st_n s -> 0 <= map2node info.[i].
Proof.
  intros Hn. unfold glrc_push_blocks.
  match goal with |- context [for_exit 0 ?m ?body s] =>
    pose proof (for_exit_ind (fun j _ => forall i, 0 <= i < j -> 0 <= map2node info.[i]) (fun _ => True) 0 m body s Hn) as H;
    destruct (for_exit 0 m body s); [|discriminate]
  end.
  intros _. apply H; [intros; lia|]. intros j s1 Hj Hi. destruct (Z.ltb_spec (map2node info.[j]) 0); [exact I|].
  intros i Hle. destruct (Z.eq_dec i j) as [->|Hne]; [lia|apply Hi; lia].
Qed.

(** A placement that returns had as many nodes as blocks, with ids that are not
    negative. *)
Lemma glrc_returns cfg s t s' t' : new_stripe s -> (forall x, node_stripes (node_at t x) !! stripe_id s = None) ->
  initialize_glrc_stripe_placement cfg s t = Some (s', t') ->
  zlen (object_keys s) = 1 /\ Z.of_nat (size (m_node_table t)) = st_n s /\ forall x, x ∈ dom (m_node_table t) -> 0 <= x.
Proof.
  intros [N1 N2 N3 N4 N5 N6] Hfree. unfold initialize_glrc_stripe_placement.
  destruct (Z.eqb_spec (zlen (object_keys s)) 1) as [Hobj|]; [cbn [negb]|discriminate].
  destruct (negb (_ =? st_z s)); [discriminate|]. destruct (negb (_ =? st_n s)); [discriminate|].
  destruct (Z.eqb_spec (zlen (all_nodes_of t)) (st_n s)) as [Hl|]; [cbn [negb]|discriminate].
  assert (Hnodes : Z.of_nat (size (m_node_table t)) = st_n s).
  { rewrite <- Hl, all_nodes_perm. change (length (elements ?X)) with (size X). rewrite size_dom. reflexivity. }
  fold (glrc_base cfg s). fold (ring (st_k s) (st_r s) (st_z s)).
  destruct (positions_spec cfg s t N1 N2 N3 N4 Hnodes Hfree (place2clusters s)) as ([[info cl] t1] & -> & [_ R2 _ _ _ _ _ _ _]).
  destruct (glrc_push_blocks info _) as [s2|] eqn:Ep; [intros _|discriminate].
  split; [exact Hobj|]. split; [exact Hnodes|]. intros x Hx.
  destruct (node_of_onto s t x ltac:(lia) Hnodes Hx) as (p & Hp & <-).
  assert (Hpos := fun H => push_nodes _ _ _ H Ep). cbn [st_n] in Hpos.
  specialize (Hpos ltac:(lia) (ring (st_k s) (st_r s) (st_z s)).[p]).
  cbn [fst snd] in R2. rewrite R2, (proj2 (Z.ltb_lt p (st_n s))) in Hpos by lia. apply Hpos.
  rewrite N4. apply ring_range; lia.
Qed.

Lemma glrc_blocks_ok cfg s t s' t' : new_stripe s -> (forall x, node_stripes (node_at t x) !! stripe_id s = None) ->
  initialize_glrc_stripe_placement cfg s t = Some (s', t') -> placement_ok cfg s t s' t'.
Proof.
  intros N Hfree E. destruct (glrc_returns cfg s t s' t' N Hfree E) as (Hobj & Hnodes & Hids).
  destruct N as [N1 N2 N3 N4 N5 N6].
  destruct (glrc_placement_spec cfg s t N1 N2 N3 N4 Hnodes Hids Hfree Hobj N5 N6)
    as (s1 & t1 & E1 & Hsame & Hlen & Hng & Hb & Hg & [[info cl] tt] & [R1 R2 R3 R4 R5 R6 R7 R8 R9] & _ & Ett).
  rewrite E in E1. injection E1 as <- <-. cbn [fst snd] in *. subst tt.
  set (rg := ring (st_k s) (st_r s) (st_z s)) in *.
  assert (Hr : forall b, 0 <= b < st_n s -> exists p, 0 <= p < st_n s /\ rg.[p] = b).
  { intros b Hb0. destruct (ring_onto (st_k s) (st_r s) (st_z s) N1 N2 N3 b ltac:(lia)) as (p & Hp & Ep). exists p. split; [lia|exact Ep]. }
  assert (Hgrp : forall b, 0 <= b < st_n s -> map2group (blocks s').[b] = block_group (st_k s) (st_r s) (st_z s) b).
  { intros b Hb0. destruct (Hr b Hb0) as (p & Hp & <-). rewrite Hb by exact Hp. cbn [placed with_place map2group]. apply block_info_group. }
  split; auto.
  - intros b Hb0. rewrite Hgrp by exact Hb0. destruct (Hr b Hb0) as (p & Hp & <-). rewrite Hb at 1 by exact Hp.
    rewrite !Hb by exact Hp. reflexivity.
  - intros x b. split.
    + intros Hx. destruct (in_dec Z.eq_dec x (map (node_of s t) (zseq (st_n s)))) as [Hin|Hout].
      * apply in_map_iff in Hin as (p & <- & Hp). apply in_zseq in Hp. rewrite R5, (proj2 (Z.ltb_lt p (st_n s))) in Hx by lia. injection Hx as <-.
        split; [rewrite N4; apply ring_range; lia|]. rewrite Hb by exact Hp. reflexivity.
      * rewrite R8, Hfree in Hx; [discriminate|]. intros p Hp Ex. apply Hout. apply in_map_iff. exists p. split; [exact Ex|apply in_zseq, Hp].
    + intros [Hb0 <-]. destruct (Hr b Hb0) as (p & Hp & <-). rewrite Hb by exact Hp. cbn [placed with_place map2node].
      rewrite R5 by exact Hp. zcases. reflexivity.
  - intros c. rewrite R7. apply Permutation_app_head.
    assert (Hperm : blocks s' ≡ₚ map (fun p => placed s t (glrc_base cfg s).[rg.[p]] p) (zseq (st_n s))).
    { rewrite (list_zget (blocks s')), Hlen, N4.
      transitivity (map (fun b => (blocks s').[b]) rg); [apply Permutation_map; symmetry; apply ring_perm; lia|].
      assert (Hrg : rg = map (fun p => rg.[p]) (zseq (st_n s))).
      { rewrite (list_zget rg) at 1. f_equal. f_equal. unfold rg. rewrite ring_len; lia. }
      rewrite Hrg at 1. rewrite map_map, <- N4. apply Permutation_refl'.
      apply map_ext_in. intros p Hp. apply in_zseq in Hp. rewrite Hb by exact Hp. f_equal. symmetry. apply glrc_base_get; auto.
      pose proof (ring_range (st_k s) (st_r s) (st_z s) N1 N2 N3 p ltac:(lia)) as Hrange. fold rg in Hrange. lia. }
    rewrite Hperm, filter_map_comm. apply Permutation_refl'. reflexivity.
Qed.

#[export] Instance glrc_ok : PlacementAlgorithm (fun cfg s t _ => initialize_glrc_stripe_placement cfg s t).
Proof. intros cfg s t draws s' t'. apply glrc_blocks_ok. Qed.

(** The groups of the placement are the placement groups of the planner. *)
Lemma glrc_groups cfg s t s' t' g : new_stripe s -> (forall x, node_stripes (node_at t x) !! stripe_id s = None) ->
  initialize_glrc_stripe_placement cfg s t = Some (s', t') -> 0 <= g < st_z s ->
  num_groups s' = st_z s /\ group_to_blocks s' !! g = Some (glrc_build_placement_groups (st_k s) (st_r s) (st_z s)).[g].
Proof.
  intros N Hfree E Hg. destruct (glrc_returns cfg s t s' t' N Hfree E) as (Hobj & Hnodes & Hids).
  destruct N as [N1 N2 N3 N4 N5 N6].
  destruct (glrc_placement_spec cfg s t N1 N2 N3 N4 Hnodes Hids Hfree Hobj N5 N6)
    as (s1 & t1 & E1 & _ & _ & Hng & Hb & Hgr & _). rewrite E in E1. injection E1 as <- <-.
  split; [exact Hng|]. rewrite Hgr. rewrite (filter_ext_in _ (fun b => block_group (st_k s) (st_r s) (st_z s) b =? g)).
  - rewrite N4, group_members by lia. destruct (placement_groups_spec (st_k s) (st_r s) (st_z s) ltac:(lia) N2 N3) as [_ ->]; [|lia].
    destruct (seqZ (payload_start _ _ _ g) _); reflexivity.
  - intros b Hb0. apply in_zseq in Hb0.
    destruct (ring_onto (st_k s) (st_r s) (st_z s) N1 N2 N3 b ltac:(lia)) as (p & Hp & Ep).
    rewrite <- Ep at 1. rewrite Hb, Ep by lia. cbn [placed with_place map2group]. rewrite block_info_group. reflexivity.
Qed.

(** The nodes are those of the table, each used once. *)
Lemma glrc_nodes cfg s t s' t' : new_stripe s -> (forall x, node_stripes (node_at t x) !! stripe_id s = None) ->
  initialize_glrc_stripe_placement cfg s t = Some (s', t') ->
  (forall b, 0 <= b < st_n s -> map2node (blocks s').[b] ∈ dom (m_node_table t)) /\
  (forall b c, 0 <= b < st_n s -> 0 <= c < st_n s -> map2node (blocks s').[b] = map2node (blocks s').[c] -> b = c).
Proof.
  intros N Hfree E. pose proof (glrc_blocks_ok cfg s t s' t' N Hfree E) as [_ _ _ P4 _ _ _ _].
  destruct (glrc_returns cfg s t s' t' N Hfree E) as (Hobj & Hnodes & Hids). destruct N as [N1 N2 N3 N4 N5 N6].
  destruct (glrc_placement_spec cfg s t N1 N2 N3 N4 Hnodes Hids Hfree Hobj N5 N6) as (s1 & t1 & E1 & _ & _ & _ & Hb & _).
  rewrite E in E1. injection E1 as <- <-. split.
  - intros b Hb0. destruct (ring_onto (st_k s) (st_r s) (st_z s) N1 N2 N3 b ltac:(lia)) as (p & Hp & <-).
    rewrite Hb by lia. cbn [placed with_place map2node]. apply node_of_table; auto; lia.
  - intros b c Hb0 Hc0 Ebc. pose proof (proj2 (P4 (map2node (blocks s').[b]) b) (conj Hb0 eq_refl)) as H1.
    pose proof (proj2 (P4 (map2node (blocks s').[b]) c) (conj Hc0 (eq_sym Ebc))) as H2. congruence.
Qed.

(** * Groups of UniLRC and AzureLRC *)

(** How many groups a code's placement forms: one per local group, and one more
    for the global parities of AzureLRC. *)
Definition placement_group_count (code_type : string) (s : Stripe) : Z :=
  if String.eqb code_type "AzureLRC" then st_z s + 1 else st_z s.

Lemma uni_azure_group_range code s b : new_stripe s -> (st_z s | st_k s) ->
  code = "UniLRC" /\ (st_z s | st_r s) \/ code = "AzureLRC" -> 0 <= b < st_n s ->
  0 <= uni_azure_group_of code s b < placement_group_count code s.
Proof.
  intros [N1 N2 N3 N4 _ _] [q Hq] Hcode Hb. unfold uni_azure_group_of, placement_group_count.
  assert (1 <= q) by nia. assert (Hkz : st_k s / st_z s = q) by (rewrite Hq, Z.div_mul; lia). rewrite Hkz.
  assert (Hloc : forall x, 0 <= x < st_z s -> 0 <= x / (st_z s / st_z s) < st_z s) by (intros x Hx; rewrite Z.div_same, Z.div_1_r; lia).
  destruct (Z.ltb_spec b (st_k s)) as [Hd|Hd].
  { assert (0 <= b / q < st_z s) by (split; [apply Z.div_pos; lia|apply Z.div_lt_upper_bound; lia]). destruct (String.eqb _ _); lia. }
  destruct (Z.ltb_spec b (st_k s + st_r s)) as [Hg|Hg].
  2: { specialize (Hloc (b - st_k s - st_r s) ltac:(lia)). destruct (String.eqb _ _); lia. }
  destruct Hcode as [[-> [p Hp]]| ->]; cbn [String.eqb Ascii.eqb Bool.eqb]; [|lia].
  assert (1 <= p) by nia. assert (Hrz : st_r s / st_z s = p) by (rewrite Hp, Z.div_mul; lia). rewrite Hrz. split; [apply Z.div_pos; lia|apply Z.div_lt_upper_bound; nia].
Qed.

(** Clusters that are counted from a start are different for different groups. *)
Lemma cluster_shift_inj c a g h : 0 <= g < c -> 0 <= h < c -> (a + g) mod c = (a + h) mod c -> g = h.
Proof.
  intros Hg Hh E. pose proof (Z.div_mod (a + g) c ltac:(lia)). pose proof (Z.div_mod (a + h) c ltac:(lia)).
  assert (Hd : g - h = c * ((a + g) / c - (a + h) / c)) by nia.
  assert ((a + g) / c - (a + h) / c = 0) by nia. nia.
Qed.

(** Every group is used. *)
Lemma uni_azure_group_onto code s g : new_stripe s -> (st_z s | st_k s) -> 1 <= st_r s ->
  code = "UniLRC" \/ code = "AzureLRC" -> 0 <= g < placement_group_count code s ->
  exists b, 0 <= b < st_n s /\ uni_azure_group_of code s b = g.
Proof.
  intros [N1 N2 N3 N4 _ _] _ Hr Hcode Hg. unfold placement_group_count in Hg.
  destruct (Z.eq_dec g (st_z s)) as [->|Hne].
  - destruct Hcode as [->| ->]; cbn [String.eqb Ascii.eqb Bool.eqb] in Hg; [lia|]. exists (st_k s). split; [lia|].
    unfold uni_azure_group_of. zcases. reflexivity.
  - assert (0 <= g < st_z s) by (destruct (String.eqb _ _) in Hg; lia). exists (st_k s + st_r s + g). split; [lia|].
    unfold uni_azure_group_of. zcases. rewrite Z.div_same, Z.div_1_r by lia. lia.
Qed.

(** Data blocks are in the local groups. *)
Lemma uni_azure_data_group code s b : new_stripe s -> (st_z s | st_k s) -> 0 <= b < st_k s ->
  0 <= uni_azure_group_of code s b < st_z s.
Proof.
  intros [N1 N2 N3 N4 _ _] [q Hq] Hb. unfold uni_azure_group_of. zcases.
  assert (1 <= q) by nia. assert (Hkz : st_k s / st_z s = q) by (rewrite Hq, Z.div_mul; lia). rewrite Hkz.
  split; [apply Z.div_pos; lia|apply Z.div_lt_upper_bound; nia].
Qed.
