(* ===== verification/Coordinator.v ===== *)
(** The coordinator's metadata service ([coordinator.cpp]): uploads of whole
    and partial stripes, the plans sent to the proxies, commit and abort reports,
    deletion and reset.  A handler runs as one step: the keys it touches are not
    reported before its reply has reached the client. *)
From S2P Require Import Prelude RepairPlan Toolbox Placement.

(** * State *)

Record ObjectInfo := { object_size : Z; oi_stripe : Z }.
Record StripeOffset := { so_stripe_id : Z; so_offset : Z }.

Inductive OpperateType := SET | GET | DEL | REPAIR | MERGE | APPEND.

(** The parameters of [Config] the handlers read. *)
Record SysConfig := {
  settings : Settings;
  cfg_k : Z;
  cfg_r : Z;
  cfg_z : Z;
  cfg_n : Z;
  AppendMode : string;
  UnitSize : Z }.

Definition PROXY_PORT_SHIFT : Z := 1.

Record Coordinator := {
  co_tables : Tables;
  m_stripe_table : gmap Z Stripe;
  m_cur_stripe_id : Z;
  m_object_commit_table : gmap string ObjectInfo;
  m_object_updating_table : gmap string ObjectInfo;
  m_stripe_deleting_table : list Z;
  m_cur_offset_table : gmap string StripeOffset }.

Definition with_tables (t : Tables) (c : Coordinator) : Coordinator :=
  {| co_tables := t; m_stripe_table := m_stripe_table c; m_cur_stripe_id := m_cur_stripe_id c;
     m_object_commit_table := m_object_commit_table c; m_object_updating_table := m_object_updating_table c;
     m_stripe_deleting_table := m_stripe_deleting_table c; m_cur_offset_table := m_cur_offset_table c |}.
Definition with_stripe_table (m : gmap Z Stripe) (c : Coordinator) : Coordinator :=
  {| co_tables := co_tables c; m_stripe_table := m; m_cur_stripe_id := m_cur_stripe_id c;
     m_object_commit_table := m_object_commit_table c; m_object_updating_table := m_object_updating_table c;
     m_stripe_deleting_table := m_stripe_deleting_table c; m_cur_offset_table := m_cur_offset_table c |}.
Definition with_cur_stripe_id (i : Z) (c : Coordinator) : Coordinator :=
  {| co_tables := co_tables c; m_stripe_table := m_stripe_table c; m_cur_stripe_id := i;
     m_object_commit_table := m_object_commit_table c; m_object_updating_table := m_object_updating_table c;
     m_stripe_deleting_table := m_stripe_deleting_table c; m_cur_offset_table := m_cur_offset_table c |}.
Definition with_objects (commit updating : gmap string ObjectInfo) (c : Coordinator) : Coordinator :=
  {| co_tables := co_tables c; m_stripe_table := m_stripe_table c; m_cur_stripe_id := m_cur_stripe_id c;
     m_object_commit_table := commit; m_object_updating_table := updating;
     m_stripe_deleting_table := m_stripe_deleting_table c; m_cur_offset_table := m_cur_offset_table c |}.
Definition with_deleting (l : list Z) (c : Coordinator) : Coordinator :=
  {| co_tables := co_tables c; m_stripe_table := m_stripe_table c; m_cur_stripe_id := m_cur_stripe_id c;
     m_object_commit_table := m_object_commit_table c; m_object_updating_table := m_object_updating_table c;
     m_stripe_deleting_table := l; m_cur_offset_table := m_cur_offset_table c |}.
Definition with_offsets (m : gmap string StripeOffset) (c : Coordinator) : Coordinator :=
  {| co_tables := co_tables c; m_stripe_table := m_stripe_table c; m_cur_stripe_id := m_cur_stripe_id c;
     m_object_commit_table := m_object_commit_table c; m_object_updating_table := m_object_updating_table c;
     m_stripe_deleting_table := m_stripe_deleting_table c; m_cur_offset_table := m |}.

(** * Plans *)

(** One entry of the repeated fields of [AppendStripeDataPlacement]. *)
Record PlanSlice := {
  ps_ip : string;
  ps_port : Z;
  ps_key : string;
  ps_block_id : Z;
  ps_offset : Z;
  ps_size : Z }.

Record AppendPlan := {
  plan_key : string;
  plan_stripe_id : Z;
  plan_append_size : Z;
  plan_is_merge_parity : bool;
  plan_cluster_id : Z;
  plan_append_mode : string;
  plan_is_serialized : bool;
  plan_slices : list PlanSlice }.

(** [slice_info] is the pair of size and offset. *)
Definition addBlockToAppendPlan (block : Block) (node : Node) (slice_info : Z * Z) (slices : list PlanSlice) : list PlanSlice :=
  slices ++ [{| ps_ip := node_ip node; ps_port := node_port node; ps_key := block_key block;
                ps_block_id := block_id block; ps_offset := snd slice_info; ps_size := fst slice_info |}].

Definition node_of_block (t : Tables) (b : Block) : Node := node_at t (map2node b).

(** The group's slices, block by block. *)
Definition group_slices (BS : Z) (s : Stripe) (t : Tables) (ids : list Z) : list PlanSlice :=
  fold_left (fun acc b => addBlockToAppendPlan (blocks s).[b] (node_of_block t (blocks s).[b]) (BS, 0) acc) ids [].

(** [stripe->group_to_blocks[i][0]] of an empty group is out of range: [None]. *)
Definition add_plan (BS : Z) (s : Stripe) (t : Tables) (i : Z) : option AppendPlan :=
  match default [] (group_to_blocks s !! i) with
  | [] => None
  | (first :: _) as ids =>
      Some {| plan_key := gen_append_key (stripe_id s) i; plan_stripe_id := stripe_id s;
              plan_append_size := zlen ids * BS; plan_is_merge_parity := false;
              plan_cluster_id := map2cluster (blocks s).[first]; plan_append_mode := "UNILRC_MODE";
              plan_is_serialized := false; plan_slices := group_slices BS s t ids |}
  end.

(** All results, or [None] if one is missing. *)
Fixpoint collect {A} (l : list (option A)) : option (list A) :=
  match l with
  | [] => Some []
  | None :: _ => None
  | Some x :: rest => match collect rest with Some xs => Some (x :: xs) | None => None end
  end.

Definition generate_add_plans (BS : Z) (s : Stripe) (t : Tables) : option (list AppendPlan) :=
  collect (map (add_plan BS s t) (zseq (num_groups s))).

(** The blocks of group [i] that a subset of [data_block_num] data blocks has. *)
Definition subset_ids (k data_block_num : Z) (ids : list Z) : list Z :=
  List.filter (fun b => negb ((b <? k) && (data_block_num <=? b))) ids.

Definition sub_add_plan (cfg : SysConfig) (s : Stripe) (t : Tables) (data_block_num i : Z) : list AppendPlan :=
  let BS := BlockSize (settings cfg) in
  let ids := default [] (group_to_blocks s !! i) in
  let kept := subset_ids (cfg_k cfg) data_block_num ids in
  let append_size := zlen kept * BS in
  if append_size =? 0 then []
  else [{| plan_key := gen_append_key (stripe_id s) i; plan_stripe_id := stripe_id s; plan_append_size := append_size;
           plan_is_merge_parity := false; plan_cluster_id := map2cluster (blocks s).[ids.[0]];
           plan_append_mode := "UNILRC_MODE"; plan_is_serialized := false; plan_slices := group_slices BS s t kept |}].

Definition generate_sub_add_plans (cfg : SysConfig) (s : Stripe) (t : Tables) (subset_size : Z) : list AppendPlan :=
  let data_block_num := subset_size / BlockSize (settings cfg) in
  concat (map (sub_add_plan cfg s t data_block_num) (zseq (num_groups s))).

(** * Scheduling *)

(** [attempts] are the outcomes of the RPC, three at most.  On failure the key is
    no longer pending. *)
Definition notify_proxies_ready (attempts : list bool) (plan : AppendPlan) (updating : gmap string ObjectInfo)
  : bool * gmap string ObjectInfo :=
  let updating := <[plan_key plan := {| object_size := plan_append_size plan; oi_stripe := plan_stripe_id plan |}]> updating in
  if existsb id (take 3 attempts) then (true, updating) else (false, delete (plan_key plan) updating).

(** The threads of an upload; [outcomes] gives the attempts of each plan. *)
Fixpoint notify_all (outcomes : nat -> list bool) (i : nat) (plans : list AppendPlan) (updating : gmap string ObjectInfo)
  : bool * gmap string ObjectInfo :=
  match plans with
  | [] => (true, updating)
  | p :: rest =>
      let '(ok, updating) := notify_proxies_ready (outcomes i) p updating in
      let '(oks, updating) := notify_all outcomes (S i) rest updating in
      (ok && oks, updating)
  end.

Record Reply := {
  append_keys : list string;
  proxyips : list string;
  proxyports : list Z;
  cluster_slice_sizes : list Z;
  sum_append_size : Z }.

Definition reply_of (t : Tables) (plans : list AppendPlan) : Reply :=
  {| append_keys := map plan_key plans;
     proxyips := map (fun p => cluster_proxy_ip (cluster_at t (plan_cluster_id p))) plans;
     proxyports := map (fun p => cluster_proxy_port (cluster_at t (plan_cluster_id p)) + PROXY_PORT_SHIFT) plans;
     cluster_slice_sizes := map plan_append_size plans;
     sum_append_size := zsum (map plan_append_size plans) |}.

(** [m_object_commit_table.erase(plan.key())] for every plan. *)
Definition erase_commits (plans : list AppendPlan) (commit : gmap string ObjectInfo) : gmap string ObjectInfo :=
  fold_left (fun m p => delete (plan_key p) m) plans commit.

(** Erase, notify, answer: the reply is missing when a proxy was not scheduled. *)
Definition schedule (outcomes : nat -> list bool) (plans : list AppendPlan) (c : Coordinator) : option Reply * Coordinator :=
  let '(ok, updating) := notify_all outcomes 0 plans (m_object_updating_table c) in
  let c := with_objects (erase_commits plans (m_object_commit_table c)) updating c in
  (if ok then Some (reply_of (co_tables c) plans) else None, c).

(** * Uploads *)

Definition upload_stripe (cfg : SysConfig) (id : Z) (clientID : string) : Stripe :=
  {| stripe_id := id; st_k := cfg_k cfg; st_r := cfg_r cfg; st_z := cfg_z cfg; st_n := cfg_n cfg;
     object_keys := [clientID]; blocks := []; place2clusters := ∅; num_groups := 0; group_to_blocks := ∅ |}.

Definition code_type_ok (code_type : string) : bool :=
  existsb (String.eqb code_type) ["UniLRC"; "AzureLRC"; "OptimalLRC"; "UniformLRC"; "gLRC"].

(** The dispatch on the code type. *)
Definition initialize_stripe_placement (cfg : Settings) (s : Stripe) (t : Tables) (draws : list Z) : option (Stripe * Tables) :=
  if String.eqb (CodeType cfg) "UniLRC" || String.eqb (CodeType cfg) "AzureLRC"
  then initialize_unilrc_and_azurelrc_stripe_placement cfg s t draws
  else if String.eqb (CodeType cfg) "OptimalLRC" then initialize_optimal_lrc_stripe_placement cfg s t draws
  else if String.eqb (CodeType cfg) "gLRC" then initialize_glrc_stripe_placement cfg s t
  else if String.eqb (CodeType cfg) "UniformLRC" then initialize_uniform_lrc_stripe_placement cfg s t draws
  else Some (s, t).

(** [None]: an assertion fails.  Otherwise the reply, missing on [UNAVAILABLE],
    and the new state; the stripe is entered in the table only on success. *)
Definition uploadSetValue (cfg : SysConfig) (clientID : string) (setSizeBytes : Z) (draws : list Z)
    (outcomes : nat -> list bool) (c : Coordinator) : option (option Reply * Coordinator) :=
  if negb (setSizeBytes =? BlockSize (settings cfg) * cfg_k cfg) || negb (code_type_ok (CodeType (settings cfg))) then None
  else
    let t_stripe := upload_stripe cfg (m_cur_stripe_id c) clientID in
    let c := with_cur_stripe_id (m_cur_stripe_id c + 1) c in
    match initialize_stripe_placement (settings cfg) t_stripe (co_tables c) draws with
    | None => None
    | Some (t_stripe, t) =>
        match generate_add_plans (BlockSize (settings cfg)) t_stripe t with
        | None => None
        | Some plans =>
            let '(reply, c) := schedule outcomes plans (with_tables t c) in
            Some (reply, match reply with
                         | Some _ => with_stripe_table (<[stripe_id t_stripe := t_stripe]> (m_stripe_table c)) c
                         | None => c
                         end)
        end
    end.

Definition uploadSubsetValue (cfg : SysConfig) (clientID : string) (setSizeBytes : Z) (draws : list Z)
    (outcomes : nat -> list bool) (c : Coordinator) : option (option Reply * Coordinator) :=
  if negb (setSizeBytes <=? BlockSize (settings cfg) * cfg_k cfg) || negb (code_type_ok (CodeType (settings cfg))) then None
  else
    let t_stripe := upload_stripe cfg (m_cur_stripe_id c) clientID in
    let c := with_cur_stripe_id (m_cur_stripe_id c + 1) c in
    match initialize_stripe_placement (settings cfg) t_stripe (co_tables c) draws with
    | None => None
    | Some (t_stripe, t) =>
        let plans := generate_sub_add_plans cfg t_stripe t setSizeBytes in
        let '(reply, c) := schedule outcomes plans (with_tables t c) in
        Some (reply, match reply with
                     | Some _ => with_stripe_table (<[stripe_id t_stripe := t_stripe]> (m_stripe_table c)) c
                     | None => c
                     end)
    end.

(** * Deletion *)

(** The overload that counts: it reads the entry as a number of blocks. *)
Definition update_stripe_info_in_node_count (add_or_sub : bool) (t_node_id stripe_id : Z) (t : Tables) : Tables :=
  let nd := node_at t t_node_id in
  let stripe_block_num := default 1 (node_stripes nd !! stripe_id) in
  let stripes :=
    if add_or_sub then <[stripe_id := stripe_block_num + 1]> (node_stripes nd)
    else if stripe_block_num =? 1 then delete stripe_id (node_stripes nd)
    else <[stripe_id := stripe_block_num - 1]> (node_stripes nd) in
  {| m_node_table := <[t_node_id := with_stripes nd stripes]> (m_node_table t); m_cluster_table := m_cluster_table t |}.

Definition with_cluster_blocks (l : list Block) (cl : Cluster) : Cluster :=
  {| cluster_proxy_ip := cluster_proxy_ip cl; cluster_proxy_port := cluster_proxy_port cl; nodes := nodes cl;
     cluster_blocks := l; cluster_stripes := cluster_stripes cl |}.

(** Remove from every cluster the blocks that satisfy [p]. *)
Definition drop_cluster_blocks (p : Block -> bool) (t : Tables) : Tables :=
  {| m_node_table := m_node_table t;
     m_cluster_table := (fun cl => with_cluster_blocks (List.filter (fun b => negb (p b)) (cluster_blocks cl)) cl)
                          <$> m_cluster_table t |}.

(** The clusters in the order of their ids. *)
Definition all_clusters (t : Tables) : list Cluster :=
  map (cluster_at t) (merge_sort Z.le (elements (dom (m_cluster_table t)))).

Definition with_blocks (l : list Block) (s : Stripe) : Stripe :=
  {| stripe_id := stripe_id s; st_k := st_k s; st_r := st_r s; st_z := st_z s; st_n := st_n s;
     object_keys := object_keys s; blocks := l; place2clusters := place2clusters s; num_groups := num_groups s;
     group_to_blocks := group_to_blocks s |}.

(** [at] throws when the key is not committed; the handler catches it. *)
Definition report_delete_key (key : string) (c : Coordinator) : Coordinator :=
  match m_object_commit_table c !! key with
  | None => c
  | Some object_info =>
      let id := oi_stripe object_info in
      let of_key b := String.eqb (map2key b) key in
      let removed := List.filter of_key (concat (map cluster_blocks (all_clusters (co_tables c)))) in
      let t := fold_left (fun t b => update_stripe_info_in_node_count false (map2node b) (map2stripe b) t) removed (co_tables c) in
      let left := match m_stripe_table c !! id with
                  | Some s => List.filter (fun b => negb (of_key b)) (blocks s)
                  | None => []
                  end in
      let stripes := match m_stripe_table c !! id, left with
                     | Some s, _ :: _ => <[id := with_blocks left s]> (m_stripe_table c)
                     | _, _ => delete id (m_stripe_table c)
                     end in
      with_tables (drop_cluster_blocks of_key t)
        (with_stripe_table stripes
          (with_objects (delete key (m_object_commit_table c)) (delete key (m_object_updating_table c)) c))
  end.

(** [erase(find(...))]: the first occurrence. *)
Fixpoint erase_first (x : Z) (l : list Z) : list Z :=
  match l with [] => [] | y :: rest => if x =? y then rest else y :: erase_first x rest end.

Definition report_delete_stripe (id : Z) (c : Coordinator) : Coordinator :=
  let of_stripe b := map2stripe b =? id in
  let t := co_tables c in
  let object_keys_set := map map2key (List.filter of_stripe (concat (map cluster_blocks (all_clusters t)))) in
  let t := drop_cluster_blocks of_stripe t in
  let t := {| m_node_table := (fun nd => with_stripes nd (delete id (node_stripes nd))) <$> m_node_table t;
              m_cluster_table := m_cluster_table t |} in
  with_tables t
    (with_stripe_table (delete id (m_stripe_table c))
      (with_deleting (erase_first id (m_stripe_deleting_table c))
        (with_objects (fold_left (fun m key => delete key m) object_keys_set (m_object_commit_table c))
           (m_object_updating_table c) c))).

(** * Reports and queries *)

(** [operator[]] on a missing key yields an object with no values set. *)
Definition reportCommitAbort (unset : ObjectInfo) (key : string) (opp : OpperateType) (stripe_id : Z) (ifcommit : bool)
    (c : Coordinator) : Coordinator :=
  if ifcommit then
    match opp with
    | SET | APPEND =>
        with_objects (<[key := default unset (m_object_updating_table c !! key)]> (m_object_commit_table c))
          (delete key (m_object_updating_table c)) c
    | DEL => if stripe_id <? 0 then report_delete_key key c else report_delete_stripe stripe_id c
    | _ => c
    end
  else with_objects (m_object_commit_table c) (delete key (m_object_updating_table c)) c.

(** [None]: the caller waits for a notification. *)
Definition checkCommitAbort (key : string) (opp : OpperateType) (stripe_id : Z) (c : Coordinator) : option bool :=
  let waits :=
    match opp with
    | SET | APPEND => bool_decide (is_Some (m_object_updating_table c !! key))
    | DEL => if stripe_id <? 0 then bool_decide (is_Some (m_object_commit_table c !! key))
             else existsb (Z.eqb stripe_id) (m_stripe_deleting_table c)
    | _ => false
    end in
  if waits then None else Some (bool_decide (is_Some (m_object_commit_table c !! key))).

(** What [delByStripe] records.  For a stripe that is not in the table the proxy
    is drawn from an empty set. *)
Definition delByStripe (id : Z) (c : Coordinator) : option Coordinator :=
  match m_stripe_table c !! id with
  | None => None
  | Some _ => Some (with_deleting (m_stripe_deleting_table c ++ [id]) c)
  end.

(** [None]: [at] throws, and the mutex stays locked. *)
Definition delByKey (key : string) (c : Coordinator) : option Coordinator :=
  match m_object_commit_table c !! key with
  | None => None
  | Some info => Some (with_objects (m_object_commit_table c) (<[key := info]> (m_object_updating_table c)) c)
  end.

(** [setParameter] forgets all stripes but not the offsets of open appends. *)
Definition setParameter (c : Coordinator) : Coordinator :=
  let t := co_tables c in
  {| co_tables := {| m_node_table := (fun nd => with_stripes nd ∅) <$> m_node_table t;
                     m_cluster_table := (fun cl => {| cluster_proxy_ip := cluster_proxy_ip cl;
                       cluster_proxy_port := cluster_proxy_port cl; nodes := nodes cl; cluster_blocks := [];
                       cluster_stripes := ∅ |}) <$> m_cluster_table t |};
     m_stripe_table := ∅; m_cur_stripe_id := 0; m_object_commit_table := ∅; m_object_updating_table := ∅;
     m_stripe_deleting_table := []; m_cur_offset_table := m_cur_offset_table c |}.
