(* ===== verification/AppendPlan.v ===== *)
(** Appends to a partly filled stripe ([coordinator.cpp]): [generateAppendPlan]
    cuts an append into the slices of the data blocks, computes the slice of
    the parity blocks the append touches, and [uploadAppendValue] keeps the
    client's offset in the stripe. *)
From S2P Require Import Prelude RepairPlan Toolbox Placement Coordinator.
From Stdlib Require Import Ascii.

(** * Cutting the append *)

(** [unsigned] arithmetic, and its conversion to [int]. *)
Definition uint32 (x : Z) : Z := x mod 2 ^ 32.

(** Size and physical offset of the slice of each block. *)
Abbreviation Slices := (gmap Z (Z * Z)).

(** One turn of [while (tmp_size > 0)]. *)
Definition append_turn (k unit_size curr_logical_offset append_size : Z) (st : Slices * Z * Z * Z) : Slices * Z * Z * Z :=
  let '(m, curr_block_id, tmp_size, tmp_offset) := st in
  let sub_slice_size :=
    if (tmp_size =? append_size) && negb (curr_logical_offset mod unit_size =? 0)
    then Z.min (unit_size - curr_logical_offset mod unit_size) append_size
    else Z.min unit_size tmp_size in
  let m :=
    match m !! curr_block_id with
    | None => <[curr_block_id := (sub_slice_size, tmp_offset mod unit_size + unit_size * (tmp_offset / (k * unit_size)))]> m
    | Some (size, off) => <[curr_block_id := (size + sub_slice_size, off)]> m
    end in
  (m, (curr_block_id + 1) mod k, tmp_size - sub_slice_size, tmp_offset + sub_slice_size).

(** Every turn takes at least one byte, so [append_size] turns are enough. *)
Fixpoint append_loop (fuel : nat) (k unit_size curr_logical_offset append_size : Z) (st : Slices * Z * Z * Z)
  : option Slices :=
  let '(m, _, tmp_size, _) := st in
  if tmp_size <=? 0 then Some m
  else match fuel with
       | O => None
       | S fuel => append_loop fuel k unit_size curr_logical_offset append_size
                     (append_turn k unit_size curr_logical_offset append_size st)
       end.

Definition data_slices (k unit_size curr_logical_offset append_size : Z) : option Slices :=
  append_loop (Z.to_nat append_size) k unit_size curr_logical_offset append_size
    (∅, (curr_logical_offset / unit_size) mod k, append_size, curr_logical_offset).

(** * The parity slice *)

(** Size and offset; [None] for an unknown mode. *)
Definition parity_slice (append_mode : string) (k unit_size curr_logical_offset append_size : Z) : option (Z * Z) :=
  let last := curr_logical_offset + append_size - 1 in
  let num_units := Z.quot last unit_size - curr_logical_offset / unit_size + 1 in
  let num_unit_stripes := Z.quot last (unit_size * k) - curr_logical_offset / (unit_size * k) + 1 in
  match append_mode with
  | String "R"%char _ => Some (append_size, -1)
  | String "U"%char _ =>
      let size := num_unit_stripes * unit_size in
      let off := curr_logical_offset / (unit_size * k) * unit_size in
      let '(size, off) := if num_units =? 1 then (append_size, off + curr_logical_offset mod unit_size) else (size, off) in
      let size := if (1 <? num_unit_stripes) && (Z.rem last (unit_size * k) <? unit_size - 1)
                  then (num_unit_stripes - 1) * unit_size + Z.rem last (unit_size * k) + 1 else size in
      Some (size, off)
  | String "C"%char _ => Some (num_unit_stripes * unit_size, curr_logical_offset / (unit_size * k) * unit_size)
  | _ => None
  end.

(** [map[id]] *)
Definition slice_of (m : Slices) (id : Z) : Z * Z := default (0, 0) (m !! id).

(** The data, global and local blocks the plan of group [i] covers. *)
Definition plan_data_ids (s : Stripe) (i : Z) : list Z :=
  seqZ (i * st_k s / st_z s) ((i + 1) * st_k s / st_z s - i * st_k s / st_z s).
Definition plan_global_ids (s : Stripe) (i : Z) : list Z :=
  seqZ (st_k s + i * st_r s / st_z s) ((i + 1) * st_r s / st_z s - i * st_r s / st_z s).
Definition plan_local_ids (s : Stripe) (i : Z) : list Z :=
  seqZ (st_k s + st_r s + i * st_z s / st_z s) ((i + 1) * st_z s / st_z s - i * st_z s / st_z s).

Definition getClusterAppendSize (s : Stripe) (m : Slices) (curr_group_id parity_slice_size : Z) : Z :=
  fold_left (fun acc i => match m !! i with Some (size, _) => acc + size | None => acc end) (plan_data_ids s curr_group_id) 0
  + parity_slice_size * (st_r s + st_z s) / st_z s.

(** * The plans *)

Definition append_plan (cfg : SysConfig) (s : Stripe) (t : Tables) (curr_logical_offset append_size parity_slice_size : Z)
    (m : Slices) (i : Z) : AppendPlan :=
  let total := uint32 (BlockSize (settings cfg) * st_k s) in
  let whole := (curr_logical_offset =? 0) && (uint32 append_size =? total) in
  let add acc j := addBlockToAppendPlan (blocks s).[j] (node_of_block t (blocks s).[j]) (slice_of m j) acc in
  let data := List.filter (fun j => bool_decide (is_Some (m !! j))) (plan_data_ids s i) in
  {| plan_key := gen_append_key (stripe_id s) i; plan_stripe_id := stripe_id s;
     plan_append_size := getClusterAppendSize s m i parity_slice_size;
     plan_is_merge_parity := if whole then false else uint32 (curr_logical_offset + append_size) =? total;
     plan_cluster_id := map2cluster (blocks s).[(default [] (group_to_blocks s !! i)).[0]];
     plan_append_mode := AppendMode cfg; plan_is_serialized := negb whole;
     plan_slices := fold_left add (data ++ plan_global_ids s i ++ plan_local_ids s i) [] |}.

(** [None]: the assertion fails.  An unknown mode yields no plans. *)
Definition generateAppendPlan (cfg : SysConfig) (s : Stripe) (t : Tables) (curr_logical_offset append_size : Z)
  : option (list AppendPlan) :=
  let remain_size := int32 (uint32 (st_k s * BlockSize (settings cfg) - curr_logical_offset)) in
  if remain_size <? append_size then None
  else
    match parity_slice (AppendMode cfg) (st_k s) (UnitSize cfg) curr_logical_offset append_size with
    | None => Some []
    | Some (parity_slice_size, parity_slice_offset) =>
        match data_slices (st_k s) (UnitSize cfg) curr_logical_offset append_size with
        | None => None
        | Some m =>
            let m := for_range (st_k s) (st_n s) (fun i m => <[i := (parity_slice_size, parity_slice_offset)]> m) m in
            Some (map (append_plan cfg s t curr_logical_offset append_size parity_slice_size m) (zseq (st_z s)))
        end
    end.

(** The status is in the reply: [inr true] for an invalid mode, [inr false] for
    a proxy that was not scheduled. *)
Definition uploadAppendValue (cfg : SysConfig) (clientID : string) (appendSizeBytes : Z) (draws : list Z)
    (outcomes : nat -> list bool) (c : Coordinator) : option ((Reply + bool) * Coordinator) :=
  let c := match m_cur_offset_table c !! clientID with
           | None => with_offsets (<[clientID := {| so_stripe_id := m_cur_stripe_id c; so_offset := 0 |}]> (m_cur_offset_table c))
                       (with_cur_stripe_id (m_cur_stripe_id c + 1) c)
           | Some _ => c
           end in
  let cur := default {| so_stripe_id := 0; so_offset := 0 |} (m_cur_offset_table c !! clientID) in
  if uint32 (BlockSize (settings cfg) * cfg_k cfg) <? uint32 (so_offset cur + appendSizeBytes) then None
  else
    let placed :=
      if so_offset cur =? 0 then
        match initialize_unilrc_and_azurelrc_stripe_placement (settings cfg) (upload_stripe cfg (so_stripe_id cur) clientID)
                (co_tables c) draws with
        | None => None
        | Some (s, t) => Some (s, with_stripe_table (<[stripe_id s := s]> (m_stripe_table c)) (with_tables t c))
        end
      else match m_stripe_table c !! so_stripe_id cur with Some s => Some (s, c) | None => None end in
    match placed with
    | None => None
    | Some (s, c) =>
        match generateAppendPlan cfg s (co_tables c) (so_offset cur) appendSizeBytes with
        | None => None
        | Some [] => Some (inr true, c)
        | Some plans =>
            let '(reply, c) := schedule outcomes plans c in
            match reply with
            | None => Some (inr false, c)
            | Some reply =>
                let off := so_offset cur + appendSizeBytes in
                let offsets := if uint32 off =? uint32 (BlockSize (settings cfg) * cfg_k cfg) then delete clientID (m_cur_offset_table c)
                               else <[clientID := {| so_stripe_id := so_stripe_id cur; so_offset := off |}]> (m_cur_offset_table c) in
                Some (inl reply, with_offsets offsets c)
            end
        end
    end.
