(* ===== verification/AppendSpec.v ===== *)
(** What [generateAppendPlan] achieves.  The bytes of a stripe are numbered by
    units: byte [x] is in block [block_at x] at position [phys_at x], and
    [logical b p] is the number of the byte at position [p] of block [b].  The
    data slices of an append hold exactly its bytes, and the parity slice covers
    every position they touch. *)
From S2P Require Import Prelude RepairPlan Toolbox Placement Coordinator AppendPlan.
From Stdlib Require Import Ascii.

Lemma zsum_map_add {A} (f g : A -> Z) l : zsum (map (fun x => f x + g x) l) = zsum (map f l) + zsum (map g l).
Proof. induction l as [|x l IH]; [reflexivity|]. cbn [map zsum fold_right]. unfold zsum in IH. lia. Qed.

Lemma zsum_single k c v : 0 <= c < k -> zsum (map (fun b => if b =? c then v else 0) (zseq k)) = v.
Proof.
  intros Hc. assert (Hz : forall l, ~ In c l -> zsum (map (fun b => if b =? c then v else 0) l) = 0).
  { induction l as [|x l IH]; intros Hn; [reflexivity|]. cbn [map zsum fold_right].
    destruct (Z.eqb_spec x c) as [->|_]; [destruct Hn; left; reflexivity|]. apply IH. intros H. apply Hn. right. exact H. }
  replace k with (c + (1 + (k - c - 1))) by lia. rewrite !seqZ_app by lia. rewrite !map_app, !zsum_app.
  rewrite (Hz (seqZ 0 c)), (Hz (seqZ (0 + c + 1) _)) by (rewrite <- list_elem_of_In, elem_of_seqZ; lia).
  replace (seqZ (0 + c) 1) with [c] by (replace (0 + c) with c by lia; reflexivity). cbn. rewrite Z.eqb_refl. lia.
Qed.

(** * Addresses *)

Section Address.
Context (k U : Z) (Hk : 1 <= k) (HU : 1 <= U).

Definition block_at (x : Z) : Z := (x / U) mod k.
Definition phys_at (x : Z) : Z := x mod U + U * (x / (k * U)).
Definition logical (b p : Z) : Z := (p / U * k + b) * U + p mod U.

Lemma logical_unit b p : 0 <= p -> logical b p / U = p / U * k + b /\ logical b p mod U = p mod U.
Proof.
  intros Hp. unfold logical. pose proof (Z.mod_pos_bound p U ltac:(lia)).
  rewrite Z.div_add_l, (Z.div_small (p mod U)), Z.add_0_r by lia. split; [reflexivity|].
  rewrite Z.add_comm, Z.mod_add, Z.mod_mod by lia. reflexivity.
Qed.

Lemma block_logical b p : 0 <= b < k -> 0 <= p -> block_at (logical b p) = b.
Proof.
  intros Hb Hp. unfold block_at. rewrite (proj1 (logical_unit b p Hp)).
  rewrite Z.add_comm, Z.mod_add, Z.mod_small by lia. reflexivity.
Qed.

Lemma row_div x : x / (k * U) = x / U / k.
Proof. rewrite Z.mul_comm, Z.div_div by lia. reflexivity. Qed.

Lemma phys_logical b p : 0 <= b < k -> 0 <= p -> phys_at (logical b p) = p.
Proof.
  intros Hb Hp. unfold phys_at. rewrite row_div. destruct (logical_unit b p Hp) as [-> ->].
  rewrite Z.div_add_l, (Z.div_small b), Z.add_0_r by lia. pose proof (Z.div_mod p U ltac:(lia)). lia.
Qed.

Lemma phys_div x : 0 <= x -> phys_at x / U = x / U / k /\ phys_at x mod U = x mod U.
Proof.
  intros Hx. unfold phys_at. rewrite row_div. pose proof (Z.mod_pos_bound x U ltac:(lia)).
  rewrite (Z.mul_comm U), Z.div_add, Z.mod_add, Z.div_small, Z.mod_mod by lia. lia.
Qed.

Lemma logical_at x : 0 <= x -> logical (block_at x) (phys_at x) = x.
Proof.
  intros Hx. unfold logical. destruct (phys_div x Hx) as [-> ->]. unfold block_at.
  pose proof (Z.div_mod (x / U) k ltac:(lia)). pose proof (Z.div_mod x U ltac:(lia)).
  replace (x / U / k * k + (x / U) mod k) with (x / U) by lia. lia.
Qed.

Lemma phys_nonneg x : 0 <= x -> 0 <= phys_at x.
Proof.
  intros Hx. unfold phys_at. pose proof (Z.mod_pos_bound x U ltac:(lia)).
  pose proof (Z.div_pos x (k * U) Hx ltac:(nia)). nia.
Qed.

(** Within a unit, addresses follow each other. *)
Lemma same_unit x j : 0 <= x -> 0 <= j < U - x mod U ->
  block_at (x + j) = block_at x /\ phys_at (x + j) = phys_at x + j.
Proof.
  intros Hx Hj. pose proof (Z.mod_pos_bound x U ltac:(lia)). pose proof (Z.div_mod x U ltac:(lia)) as Hdm.
  assert (Hd : (x + j) / U = x / U).
  { symmetry. apply (Z.div_unique _ _ _ (x mod U + j)); lia. }
  assert (Hm : (x + j) mod U = x mod U + j).
  { symmetry. apply (Z.mod_unique _ _ (x / U)); lia. }
  unfold block_at, phys_at. rewrite !row_div, Hd, Hm. split; [reflexivity|lia].
Qed.

Lemma logical_mono b p q : 0 <= b < k -> 0 <= p -> p < q -> logical b p < logical b q.
Proof.
  intros Hb Hp Hq. unfold logical. pose proof (Z.mod_pos_bound p U ltac:(lia)). pose proof (Z.mod_pos_bound q U ltac:(lia)).
  pose proof (Z.div_mod p U ltac:(lia)). pose proof (Z.div_mod q U ltac:(lia)).
  pose proof (Z.div_le_mono p q U ltac:(lia) ltac:(lia)).
  destruct (Z.eq_dec (p / U) (q / U)) as [E|E]; [rewrite E in *; lia|].
  assert (p / U + 1 <= q / U) by lia. assert (p / U * k + b + k <= q / U * k + b) by nia. nia.
Qed.

(** A run of bytes inside one unit, seen from the blocks. *)
Lemma run_logical x n b p : 0 <= x -> 0 <= n <= U - x mod U -> 0 <= b < k -> 0 <= p ->
  x <= logical b p < x + n <-> b = block_at x /\ phys_at x <= p < phys_at x + n.
Proof.
  intros Hx Hn Hb Hp. split.
  - intros Hl. destruct (same_unit x (logical b p - x) Hx ltac:(lia)) as [E1 E2].
    replace (x + (logical b p - x)) with (logical b p) in E1, E2 by lia.
    rewrite block_logical in E1 by assumption. rewrite phys_logical in E2 by assumption. split; [exact E1|lia].
  - intros [-> Hq]. destruct (same_unit x (p - phys_at x) Hx ltac:(lia)) as [E1 E2].
    pose proof (logical_at (x + (p - phys_at x)) ltac:(lia)) as E.
    rewrite E1, E2 in E. replace (phys_at x + (p - phys_at x)) with p in E by lia. lia.
Qed.

(** * The loop *)

(** Position [p] of block [b] is in a slice. *)
Definition covered (m : Slices) (b p : Z) : Prop := exists size off, m !! b = Some (size, off) /\ off <= p < off + size.

Section Loop.
Context (off size : Z) (Hoff : 0 <= off) (Hsize : 1 <= size).

Record slices_upto (st : Slices * Z * Z * Z) : Prop := {
  su_left : st.1.2 = off + size - st.2;
  su_range : off <= st.2 <= off + size;
  su_block : st.1.1.2 = block_at st.2 \/ st.1.2 = 0;
  su_unit : st.2 = off \/ st.2 mod U = 0 \/ st.1.2 = 0;
  su_keys : forall b v, st.1.1.1 !! b = Some v -> 0 <= b < k /\ 0 <= v.2 /\ 1 <= v.1;
  su_covered : forall b p, 0 <= b < k -> 0 <= p -> covered st.1.1.1 b p <-> off <= logical b p < st.2;
  su_total : zsum (map (fun b => fst (slice_of st.1.1.1 b)) (zseq k)) = st.2 - off }.

(** A slice that is already there ends where the next run starts. *)
Lemma slice_extends m x sz o : (forall b p, 0 <= b < k -> 0 <= p -> covered m b p <-> off <= logical b p < x) ->
  off <= x -> m !! block_at x = Some (sz, o) -> 0 <= o -> 1 <= sz -> o + sz = phys_at x.
Proof.
  intros Hc Hx Hm Ho Hsz. pose proof (Z.mod_pos_bound (x / U) k ltac:(lia)) as Hb. fold (block_at x) in Hb.
  assert (Hcov : forall p, 0 <= p -> o <= p < o + sz <-> off <= logical (block_at x) p < x).
  { intros p Hp. rewrite <- (Hc _ p Hb Hp). unfold covered. rewrite Hm. split; [intros H; eauto|].
    intros (s & o' & [= <- <-] & H). exact H. }
  pose proof (phys_nonneg x ltac:(lia)) as Hp0. pose proof (logical_at x ltac:(lia)) as HL.
  assert (H1 : o + sz - 1 < phys_at x).
  { destruct (Z.lt_ge_cases (o + sz - 1) (phys_at x)) as [|Hge]; [assumption|].
    pose proof (proj1 (Hcov (o + sz - 1) ltac:(lia)) ltac:(lia)).
    destruct (Z.eq_dec (o + sz - 1) (phys_at x)) as [E|E]; [rewrite E in *; lia|].
    pose proof (logical_mono (block_at x) (phys_at x) (o + sz - 1) Hb Hp0 ltac:(lia)). lia. }
  pose proof (proj1 (Hcov o Ho) ltac:(lia)).
  assert (H2 : off <= logical (block_at x) (phys_at x - 1) < x).
  { pose proof (logical_mono (block_at x) (phys_at x - 1) (phys_at x) Hb ltac:(lia) ltac:(lia)).
    destruct (Z.eq_dec o (phys_at x - 1)) as [E|E]; [rewrite <- E in *; lia|].
    pose proof (logical_mono (block_at x) o (phys_at x - 1) Hb Ho ltac:(lia)). lia. }
  apply Hcov in H2; lia.
Qed.

(** How many bytes a turn takes. *)
Definition turn_size (tmp_size : Z) : Z :=
  if (tmp_size =? size) && negb (off mod U =? 0) then Z.min (U - off mod U) size else Z.min U tmp_size.

Lemma turn_size_ok st : slices_upto st -> 0 < st.1.2 ->
  turn_size st.1.2 = Z.min (U - st.2 mod U) st.1.2 /\ 1 <= turn_size st.1.2.
Proof.
  intros [Hl Hr _ Hu _ _ _] Hp. destruct st as [[[m c] ts] x]. cbn [fst snd] in *. subst ts.
  pose proof (Z.mod_pos_bound x U ltac:(lia)). unfold turn_size.
  destruct (Z.eq_dec x off) as [->|Hne].
  - replace (off + size - off) with size by lia. rewrite Z.eqb_refl. cbn [andb].
    destruct (Z.eqb_spec (off mod U) 0) as [E|E]; cbn [negb]; lia.
  - destruct (Z.eqb_spec (off + size - x) size); [lia|]. cbn [andb]. assert (x mod U = 0) by lia. lia.
Qed.

Lemma append_turn_eq m c ts x : append_turn k U off size (m, c, ts, x) =
  (match m !! c with
   | None => <[c := (turn_size ts, phys_at x)]> m
   | Some (sz, o) => <[c := (sz + turn_size ts, o)]> m
   end, (c + 1) mod k, ts - turn_size ts, x + turn_size ts).
Proof. reflexivity. Qed.

(** The slices after a turn: one block has grown by the run. *)
Lemma turn_slices st : slices_upto st -> 0 < st.1.2 ->
  exists v, append_turn k U off size st =
    (<[block_at st.2 := v]> st.1.1.1, (block_at st.2 + 1) mod k, st.1.2 - turn_size st.1.2, st.2 + turn_size st.1.2) /\
    fst v = fst (slice_of st.1.1.1 (block_at st.2)) + turn_size st.1.2 /\ 0 <= v.2 /\ 1 <= v.1 /\
    forall p, 0 <= p -> v.2 <= p < v.2 + v.1 <->
      covered st.1.1.1 (block_at st.2) p \/ phys_at st.2 <= p < phys_at st.2 + turn_size st.1.2.
Proof.
  intros Hst Hp. destruct (turn_size_ok st Hst Hp) as [Ht Ht1]. destruct Hst as [Hl Hr Hc Hu Hk0 Hcov _].
  destruct st as [[[m c] ts] x]. cbn [fst snd] in *. destruct Hc as [->|]; [|lia].
  pose proof (phys_nonneg x ltac:(lia)). rewrite append_turn_eq. unfold slice_of, covered.
  destruct (m !! block_at x) as [[sz o]|] eqn:Em; cbn [from_option id fst].
  - destruct (Hk0 _ _ Em) as (_ & Ho & Hsz). cbn [fst snd] in *.
    pose proof (slice_extends m x sz o Hcov ltac:(lia) Em Ho Hsz) as He.
    exists (sz + turn_size ts, o). split; [reflexivity|]. cbn [fst snd]. split; [lia|]. split; [lia|]. split; [lia|].
    intros p Hp0. split; [|intros [(s1 & o1 & [= <- <-] & Hq)|Hq]; lia].
    intros Hq. destruct (Z.lt_ge_cases p (o + sz)); [left; exists sz, o; split; [reflexivity|lia]|right; lia].
  - exists (turn_size ts, phys_at x). split; [reflexivity|]. cbn [fst snd]. split; [lia|]. split; [lia|]. split; [lia|].
    intros p Hp0. split; [auto|]. intros [(s1 & o1 & [=] & _)|Hq]. exact Hq.
Qed.

Lemma turn_ok st : slices_upto st -> 0 < st.1.2 ->
  slices_upto (append_turn k U off size st) /\ (append_turn k U off size st).1.2 < st.1.2.
Proof.
  intros Hst Hp. destruct (turn_size_ok st Hst Hp) as [Ht Ht1]. destruct (turn_slices st Hst Hp) as (v & -> & V1 & V2 & V3 & V4).
  destruct Hst as [Hl Hr Hc Hu Hk0 Hcov Htot]. destruct st as [[[m c] ts] x]. cbn [fst snd] in *.
  pose proof (Z.mod_pos_bound (x / U) k ltac:(lia)) as Hb. fold (block_at x) in Hb.
  pose proof (Z.mod_pos_bound x U ltac:(lia)). pose proof (Z.div_mod x U ltac:(lia)).
  set (n := turn_size ts) in *. split; [|lia].
  assert (Hend : ts - n = 0 \/ (x + n) mod U = 0 /\ (x + n) / U = x / U + 1).
  { destruct (Z.eq_dec n ts); [left; lia|right]. assert (n = U - x mod U) by lia. split.
    - symmetry. apply (Z.mod_unique _ _ (x / U + 1)); lia.
    - symmetry. apply (Z.div_unique _ _ _ 0); lia. }
  split; cbn [fst snd].
  - lia.
  - lia.
  - destruct Hend as [|[_ Hd]]; [right; lia|left]. unfold block_at. rewrite Hd. apply Z.add_mod_idemp_l. lia.
  - destruct Hend as [|[Hm _]]; auto.
  - intros b w. destruct (decide (b = block_at x)) as [->|Hne]; [rewrite lookup_insert_eq; intros [= <-]; auto|].
    rewrite lookup_insert_ne by congruence. apply Hk0.
  - intros b p Hb0 Hp0. pose proof (run_logical x n b p ltac:(lia) ltac:(lia) Hb0 Hp0) as Hrun.
    assert (Hsplit : off <= logical b p < x + n <-> off <= logical b p < x \/ x <= logical b p < x + n) by lia.
    rewrite Hsplit, Hrun, <- (Hcov b p Hb0 Hp0). unfold covered at 1. destruct (decide (b = block_at x)) as [->|Hne].
    + rewrite lookup_insert_eq. specialize (V4 p Hp0). destruct v as [sz o]. cbn [fst snd] in *.
      split; [intros (s1 & o1 & [= <- <-] & Hq); tauto|]. intros Hq. exists sz, o. split; [reflexivity|tauto].
    + rewrite lookup_insert_ne by congruence. unfold covered. tauto.
  - rewrite (map_ext_in _ (fun b => fst (slice_of m b) + (if b =? block_at x then n else 0))).
    + rewrite zsum_map_add, zsum_single, Htot by exact Hb. lia.
    + intros b _. unfold slice_of at 1. destruct (Z.eqb_spec b (block_at x)) as [->|Hne].
      * rewrite lookup_insert_eq. exact V1.
      * rewrite lookup_insert_ne by congruence. fold (slice_of m b). lia.
Qed.

Lemma append_loop_ok fuel : forall st, slices_upto st -> st.1.2 <= Z.of_nat fuel ->
  exists m c x, append_loop fuel k U off size st = Some m /\ slices_upto (m, c, 0, x) /\ x = off + size.
Proof.
  induction fuel as [|fuel IH]; intros st Hst Hf; pose proof (su_left st Hst); pose proof (su_range st Hst);
    destruct st as [[[m c] ts] x]; cbn [fst snd] in *; cbn [append_loop]; destruct (Z.leb_spec ts 0); try lia.
  - exists m, c, x. replace ts with 0 in * by lia. split; [reflexivity|]. split; [exact Hst|lia].
  - exists m, c, x. replace ts with 0 in * by lia. split; [reflexivity|]. split; [exact Hst|lia].
  - destruct (turn_ok (m, c, ts, x) Hst ltac:(cbn; lia)) as [Hst' Hlt]. cbn [fst snd] in Hlt. apply IH; [exact Hst'|lia].
Qed.

(** The loop ends, and its slices are the bytes of the append. *)
Lemma data_slices_ok : exists m, data_slices k U off size = Some m /\
  (forall b v, m !! b = Some v -> 0 <= b < k /\ 0 <= v.2 /\ 1 <= v.1) /\
  (forall b p, 0 <= b < k -> 0 <= p -> covered m b p <-> off <= logical b p < off + size) /\
  zsum (map (fun b => fst (slice_of m b)) (zseq k)) = size.
Proof.
  unfold data_slices. destruct (append_loop_ok (Z.to_nat size) (∅, block_at off, size, off)) as (m & c & x & E & Hst & ->).
  - split; cbn [fst snd]; auto; try lia.
    + intros b v. rewrite lookup_empty. discriminate.
    + intros b p _ _. split; [intros (s1 & o & H & _); rewrite lookup_empty in H; discriminate|lia].
    + rewrite Z.sub_diag. replace (map _ (zseq k)) with (zrepeat 0 k).
      * rewrite zsum_repeat; lia.
      * apply zlist_ext; [rewrite length_map, zlen_seqZ, zlen_zrepeat; lia|]. rewrite zlen_zrepeat by lia. intros i Hi.
        rewrite zget_zrepeat, zget_map by (rewrite ?zlen_seqZ; lia). unfold slice_of. rewrite lookup_empty. reflexivity.
  - cbn [fst snd]. lia.
  - unfold block_at in E. rewrite E. exists m. split; [reflexivity|]. destruct Hst as [_ _ _ _ H5 H6 H7]. cbn [fst snd] in *.
    split; [exact H5|]. split; [exact H6|lia].
Qed.
End Loop.
End Address.

(** * The parity slice *)

Section Parity.
Context (k U off size : Z) (Hk : 1 <= k) (HU : 1 <= U) (Hoff : 0 <= off) (Hsize : 1 <= size).

Abbreviation row x := (x / (k * U)).

Lemma phys_row x : 0 <= x -> row x * U <= phys_at k U x < (row x + 1) * U.
Proof. intros Hx. unfold phys_at. pose proof (Z.mod_pos_bound x U ltac:(lia)). lia. Qed.

(** Bytes of the first unit of a row. *)
Lemma first_unit x y : 0 <= x <= y -> row x = row y -> y mod (k * U) < U -> x mod U <= y mod (k * U).
Proof.
  intros Hx Hrow Hy. pose proof (Z.div_mod x (k * U) ltac:(nia)) as Ex. pose proof (Z.div_mod y (k * U) ltac:(nia)) as Ey.
  pose proof (Z.mod_pos_bound x (k * U) ltac:(nia)). rewrite <- Hrow in Ey.
  replace (x mod U) with (x mod (k * U)); [lia|].
  apply (Z.mod_unique _ _ (k * row x)); [lia|]. lia.
Qed.

Lemma parity_unit_mode x rest : off <= x < off + size ->
  exists psize poff, parity_slice (String "U"%char rest) k U off size = Some (psize, poff) /\
    poff <= phys_at k U x < poff + psize.
Proof.
  intros Hx. unfold parity_slice. rewrite (Z.mul_comm U k). set (last := off + size - 1).
  rewrite (Z.quot_div_nonneg last U), (Z.quot_div_nonneg last (k * U)), (Z.rem_mod_nonneg last (k * U)) by (unfold last; nia).
  assert (Hm : row off <= row x <= row last) by (split; apply Z.div_le_mono; unfold last; nia).
  pose proof (phys_row x ltac:(lia)) as Hp.
  destruct (Z.eqb_spec (last / U - off / U + 1) 1) as [Hone|Hmany].
  - assert (Hd : last / U = off / U) by lia.
    assert (Hr : row last = row off) by (rewrite !row_div by lia; rewrite Hd; reflexivity).
    replace (row last - row off + 1) with 1 by lia. cbn [Z.ltb Z.compare Pos.compare Pos.compare_cont andb].
    exists size, (row off * U + off mod U). split; [reflexivity|].
    pose proof (Z.div_mod last U ltac:(lia)). pose proof (Z.div_mod off U ltac:(lia)).
    pose proof (Z.mod_pos_bound last U ltac:(lia)). pose proof (Z.mod_pos_bound off U ltac:(lia)). rewrite Hd in *.
    destruct (same_unit k U Hk HU off (x - off) Hoff ltac:(unfold last in *; lia)) as [_ E].
    replace (off + (x - off)) with x in E by lia. rewrite E. unfold phys_at. lia.
  - destruct ((1 <? row last - row off + 1) && (last mod (k * U) <? U - 1)) eqn:E.
    + apply andb_prop in E as [E1 E2]. apply Z.ltb_lt in E1, E2.
      eexists _, _. split; [reflexivity|]. split; [nia|]. destruct (Z.eq_dec (row x) (row last)) as [Er|Er].
      * pose proof (first_unit x last ltac:(unfold last; lia) Er ltac:(lia)). unfold phys_at. rewrite Er. lia.
      * assert (row x + 1 <= row last) by lia. pose proof (Z.mod_pos_bound last (k * U) ltac:(nia)). nia.
    + eexists _, _. split; [reflexivity|]. nia.
Qed.

Lemma parity_cached_mode x rest : off <= x < off + size ->
  exists psize poff, parity_slice (String "C"%char rest) k U off size = Some (psize, poff) /\
    poff <= phys_at k U x < poff + psize.
Proof.
  intros Hx. unfold parity_slice. rewrite (Z.mul_comm U k). set (last := off + size - 1).
  rewrite (Z.quot_div_nonneg last (k * U)) by (unfold last; nia).
  assert (Hm : row off <= row x <= row last) by (split; apply Z.div_le_mono; unfold last; nia).
  pose proof (phys_row x ltac:(lia)) as Hp. eexists _, _. split; [reflexivity|]. nia.
Qed.

Lemma parity_slice_covers mode : mode = "UNILRC_MODE" \/ mode = "CACHED_MODE" ->
  exists psize poff, parity_slice mode k U off size = Some (psize, poff) /\
    forall x, off <= x < off + size -> poff <= phys_at k U x < poff + psize.
Proof.
  intros Hmode. destruct (parity_slice mode k U off size) as [[psize poff]|] eqn:E.
  - exists psize, poff. split; [reflexivity|]. intros x Hx. destruct Hmode as [->| ->].
    + destruct (parity_unit_mode x "NILRC_MODE" Hx) as (a & b & E' & H1). rewrite E in E'. injection E' as -> ->. exact H1.
    + destruct (parity_cached_mode x "ACHED_MODE" Hx) as (a & b & E' & H1). rewrite E in E'. injection E' as -> ->. exact H1.
  - unfold parity_slice in E. destruct Hmode as [->| ->]; [destruct (_ =? 1) in E|]; discriminate.
Qed.
End Parity.

(** * Sizes of the plans *)

Lemma fold_add_slices (blk : Z -> Block) (nd : Z -> Node) (info : Z -> Z * Z) l : forall acc,
  fold_left (fun acc j => addBlockToAppendPlan (blk j) (nd j) (info j) acc) l acc =
  acc ++ map (fun j => {| ps_ip := node_ip (nd j); ps_port := node_port (nd j); ps_key := block_key (blk j);
                          ps_block_id := block_id (blk j); ps_offset := snd (info j); ps_size := fst (info j) |}) l.
Proof.
  induction l as [|j l IH]; intros acc; cbn [fold_left map]; [rewrite app_nil_r; reflexivity|].
  rewrite IH. unfold addBlockToAppendPlan. rewrite <- app_assoc. reflexivity.
Qed.

Lemma present_sum (m : Slices) l : forall acc,
  fold_left (fun acc i => match m !! i with Some (size, _) => acc + size | None => acc end) l acc =
  acc + zsum (map (fun j => fst (slice_of m j)) (List.filter (fun j => bool_decide (is_Some (m !! j))) l)).
Proof.
  induction l as [|j l IH]; intros acc; cbn [fold_left List.filter map zsum fold_right]; [lia|].
  rewrite IH. destruct (m !! j) as [[sz o]|] eqn:E.
  - rewrite bool_decide_eq_true_2 by eauto. cbn [map zsum fold_right].
    replace (fst (slice_of m j)) with sz by (unfold slice_of; rewrite E; reflexivity). unfold zsum. lia.
  - rewrite bool_decide_eq_false_2 by (intros [? [=]]). reflexivity.
Qed.

(** The slices a plan lists add up to its announced size when the parities are
    spread evenly over the groups. *)
Lemma append_plan_sizes cfg s t off size psize poff m i : 1 <= st_z s -> 0 <= st_r s -> (st_z s | st_r s) -> 0 <= i < st_z s ->
  (forall j, st_k s <= j < st_k s + st_r s + st_z s -> m !! j = Some (psize, poff)) ->
  let p := append_plan cfg s t off size psize m i in
  plan_append_size p = zsum (map ps_size (plan_slices p)).
Proof.
  intros Hz Hr [q Hq] Hi Hpar p. unfold p, append_plan. cbn [plan_append_size plan_slices].
  rewrite fold_add_slices. cbn [app]. rewrite map_map. cbn [ps_size]. unfold getClusterAppendSize. rewrite present_sum.
  rewrite !map_app, !zsum_app. rewrite Z.add_0_l. f_equal.
  unfold plan_global_ids, plan_local_ids. rewrite Hq. rewrite !Z.mul_assoc, !Z.div_mul by lia.
  assert (Hq0 : 0 <= q) by nia.
  assert (Hconst : forall a n, 0 <= n -> (forall j, a <= j < a + n -> m !! j = Some (psize, poff)) ->
            zsum (map (fun j => fst (slice_of m j)) (seqZ a n)) = n * psize).
  { intros a n Hn Hall. rewrite <- (zsum_repeat psize n Hn). f_equal. apply zlist_ext; [rewrite length_map, zlen_seqZ, zlen_zrepeat; lia|].
    rewrite length_map, zlen_seqZ. intros j Hj. rewrite zget_map by (rewrite zlen_seqZ; lia).
    assert (Ha : (seqZ a n).[j] = a + j) by (apply zget_Some; [lia|]; rewrite lookup_seqZ; lia).
    rewrite Ha, zget_zrepeat by lia. unfold slice_of. rewrite Hall by lia. reflexivity. }
  rewrite !Hconst by (nia || (intros j Hj; apply Hpar; nia)).
  replace (psize * (q * st_z s + st_z s)) with (psize * (q + 1) * st_z s) by lia. rewrite Z.div_mul by lia. lia.
Qed.

(** * The plans *)

(** A step function that goes from below [b] to above it passes it. *)
Lemma step_through (f : Z -> Z) b m : 0 <= m -> f 0 <= b -> b < f m -> exists i, 0 <= i < m /\ f i <= b < f (i + 1).
Proof.
  intros Hm. pattern m. apply natlike_ind; [lia| |exact Hm]. clear m Hm. intros m Hm IH H0 Hb. unfold Z.succ in *.
  destruct (Z.lt_ge_cases b (f m)) as [Hlt|Hge]; [destruct (IH H0 Hlt) as (i & Hi & Hf); exists i; lia|exists m; lia].
Qed.

Lemma data_group_exists s b : 1 <= st_z s -> 0 <= b < st_k s -> exists i, 0 <= i < st_z s /\ In b (plan_data_ids s i).
Proof.
  intros Hz Hb. destruct (step_through (fun i => i * st_k s / st_z s) b (st_z s)) as (i & Hi & Hf); [lia|rewrite Z.mul_0_l, Z.div_0_l; lia| |].
  - rewrite Z.mul_comm, Z.div_mul by lia. lia.
  - exists i. split; [exact Hi|]. unfold plan_data_ids. apply list_elem_of_In, elem_of_seqZ. lia.
Qed.

Lemma data_ids_range s i b : 1 <= st_z s -> 0 <= st_k s -> 0 <= i < st_z s -> In b (plan_data_ids s i) -> 0 <= b < st_k s.
Proof.
  intros Hz Hk Hi Hb. unfold plan_data_ids in Hb. apply list_elem_of_In, elem_of_seqZ in Hb.
  pose proof (Z.div_pos (i * st_k s) (st_z s) ltac:(nia) ltac:(lia)).
  assert ((i + 1) * st_k s / st_z s <= st_k s) by (apply Z.div_le_upper_bound; nia). lia.
Qed.

Lemma parity_ids_range s i b : 1 <= st_z s -> 0 <= st_r s -> 0 <= i < st_z s ->
  In b (plan_global_ids s i ++ plan_local_ids s i) -> st_k s <= b < st_k s + st_r s + st_z s.
Proof.
  intros Hz Hr Hi Hb. apply in_app_or in Hb as [Hb|Hb]; apply list_elem_of_In, elem_of_seqZ in Hb.
  - pose proof (Z.div_pos (i * st_r s) (st_z s) ltac:(nia) ltac:(lia)).
    assert ((i + 1) * st_r s / st_z s <= st_r s) by (apply Z.div_le_upper_bound; nia). lia.
  - rewrite !Z.div_mul in Hb by lia. lia.
Qed.

(** The parity slices in the map. *)
Lemma parity_inserted (k n : Z) v (m : Slices) : k <= n ->
  let m' := for_range k n (fun i m => <[i := v]> m) m in
  forall j, m' !! j = if (k <=? j) && (j <? n) then Some v else m !! j.
Proof.
  intros Hn m'. apply (for_range_ind (fun i m' => forall j, m' !! j = if (k <=? j) && (j <? i) then Some v else m !! j)); [exact Hn| |].
  - intros j. destruct (Z.leb_spec k j), (Z.ltb_spec j k); try lia; reflexivity.
  - intros i m1 Hi IH j. destruct (decide (j = i)) as [->|Hne].
    + rewrite lookup_insert_eq. zcases. reflexivity.
    + rewrite lookup_insert_ne, IH by congruence. zcases; reflexivity.
Qed.

(** The slices of all plans. *)
Definition all_slices (plans : list AppendPlan) : list PlanSlice := concat (map plan_slices plans).

Section Plans.
Context (cfg : SysConfig) (s : Stripe) (t : Tables) (off size : Z).
Context (Hk : 1 <= st_k s) (Hr : 0 <= st_r s) (Hz : 1 <= st_z s) (Hn : st_n s = st_k s + st_r s + st_z s).
Context (HU : 1 <= UnitSize cfg) (Hoff : 0 <= off) (Hsize : 1 <= size).
Context (Hids : forall b, 0 <= b < st_n s -> block_id (blocks s).[b] = b).

(** A slice of the plans built from [m], by its block. *)
Lemma plan_slice_in psize m sl : In sl (all_slices (map (append_plan cfg s t off size psize m) (zseq (st_z s)))) <->
  exists i j, 0 <= i < st_z s /\
    (In j (plan_data_ids s i) /\ is_Some (m !! j) \/ In j (plan_global_ids s i ++ plan_local_ids s i)) /\
    sl = {| ps_ip := node_ip (node_of_block t (blocks s).[j]); ps_port := node_port (node_of_block t (blocks s).[j]);
            ps_key := block_key (blocks s).[j]; ps_block_id := block_id (blocks s).[j];
            ps_offset := snd (slice_of m j); ps_size := fst (slice_of m j) |}.
Proof.
  unfold all_slices. rewrite map_map, in_concat. split.
  - intros (l & Hl & Hs). apply in_map_iff in Hl as (i & <- & Hi). apply in_zseq in Hi. cbn [append_plan plan_slices] in Hs.
    rewrite fold_add_slices in Hs. cbn [app] in Hs. apply in_map_iff in Hs as (j & <- & Hj). exists i, j. split; [exact Hi|].
    split; [|reflexivity]. apply in_app_or in Hj as [Hj|Hj]; [left|right; exact Hj].
    apply filter_In in Hj as [Hj Hb]. apply bool_decide_eq_true_1 in Hb. auto.
  - intros (i & j & Hi & Hj & ->). eexists. split; [apply in_map_iff; exists i; split; [reflexivity|apply in_zseq, Hi]|].
    cbn [append_plan plan_slices]. rewrite fold_add_slices. cbn [app].
    apply (in_map (fun j => {| ps_ip := node_ip (node_of_block t (blocks s).[j]); ps_port := node_port (node_of_block t (blocks s).[j]);
            ps_key := block_key (blocks s).[j]; ps_block_id := block_id (blocks s).[j];
            ps_offset := snd (slice_of m j); ps_size := fst (slice_of m j) |})).
    apply in_or_app. destruct Hj as [[Hj Hb]|Hj]; [left|right; exact Hj]. apply filter_In. split; [exact Hj|].
    apply bool_decide_eq_true_2, Hb.
Qed.

(** No slice is negative. *)
Lemma plan_sizes_nonneg psize m i : 0 <= i < st_z s -> 0 <= psize -> (forall j v, m !! j = Some v -> 0 <= v.1) ->
  Forall (fun v => 0 <= v) (map ps_size (plan_slices (append_plan cfg s t off size psize m i))).
Proof.
  intros Hi Hp Hm. cbn [append_plan plan_slices]. rewrite fold_add_slices. cbn [app]. rewrite map_map. cbn [ps_size].
  apply Forall_forall. intros v Hv. apply list_elem_of_In, in_map_iff in Hv as (j & <- & _). unfold slice_of.
  destruct (m !! j) as [w|] eqn:E; [exact (Hm j w E)|cbn; lia].
Qed.

(** The bytes of a data block that the plans write. *)
Lemma plan_data_bytes psize poff m b p : 0 <= b < st_k s ->
  (forall j, st_k s <= j < st_n s -> m !! j = Some (psize, poff)) ->
  (exists sl, In sl (all_slices (map (append_plan cfg s t off size psize m) (zseq (st_z s)))) /\ ps_block_id sl = b /\
     ps_offset sl <= p < ps_offset sl + ps_size sl) <-> covered m b p.
Proof.
  intros Hb Hpar. split.
  - intros (sl & Hin & Hbl & Hp). apply plan_slice_in in Hin as (i & j & Hi & Hj & ->). cbn [ps_block_id ps_offset ps_size] in *.
    destruct Hj as [[Hj [v Hv]]|Hj].
    + pose proof (data_ids_range s i j Hz ltac:(lia) Hi Hj). rewrite Hids in Hbl by lia. subst j.
      unfold slice_of in Hp. rewrite Hv in Hp. destruct v as [sz o]. exists sz, o. split; [exact Hv|exact Hp].
    + pose proof (parity_ids_range s i j Hz Hr Hi Hj). rewrite Hids in Hbl by lia. lia.
  - intros (sz & o & Hm & Hp). destruct (data_group_exists s b Hz Hb) as (i & Hi & Hin).
    eexists. split; [apply plan_slice_in; exists i, b; split; [exact Hi|]; split; [left; split; [exact Hin|eauto]|reflexivity]|].
    cbn [ps_block_id ps_offset ps_size]. split; [apply Hids; lia|]. unfold slice_of. rewrite Hm. exact Hp.
Qed.
End Plans.
