(* ===== verification/CoordinatorSpec.v ===== *)
(** The tables of the coordinator agree: invariant of all its handlers. *)
From S2P Require Import Prelude RepairPlan Toolbox Placement PlacementSpec PlacementLaw Coordinator AppendPlan.

Definition config_ok (cfg : SysConfig) : Prop :=
  1 <= cfg_k cfg /\ 0 <= cfg_r cfg /\ 1 <= cfg_z cfg /\ cfg_n cfg = cfg_k cfg + cfg_r cfg + cfg_z cfg.

(** A stripe of the table, the node table and the cluster table say the same. *)
Record stripe_agrees (t : Tables) (id : Z) (s : Stripe) : Prop := {
  sa_id : stripe_id s = id;
  sa_len : zlen (blocks s) = st_n s;
  sa_blocks : forall b, 0 <= b < st_n s -> block_id (blocks s).[b] = b /\ map2stripe (blocks s).[b] = id;
  sa_nodes : forall x b, node_stripes (node_at t x) !! id = Some b <-> 0 <= b < st_n s /\ map2node (blocks s).[b] = x;
  sa_clusters : forall c, List.filter (fun b => map2stripe b =? id) (cluster_blocks (cluster_at t c)) ≡ₚ
                          List.filter (fun b => map2cluster b =? c) (blocks s) }.

Record coordinator_ok (c : Coordinator) : Prop := {
  co_next : 0 <= m_cur_stripe_id c;
  co_nodes : forall x id b, node_stripes (node_at (co_tables c) x) !! id = Some b -> 0 <= id < m_cur_stripe_id c;
  co_refs : forall cl b, b ∈ cluster_blocks (cluster_at (co_tables c) cl) -> 0 <= map2stripe b < m_cur_stripe_id c;
  co_stripes : forall id s, m_stripe_table c !! id = Some s ->
    0 <= id < m_cur_stripe_id c /\ stripe_agrees (co_tables c) id s }.

(** * Placement of a new stripe *)

Lemma initialize_ok cfg s t draws s' t' : code_type_ok (CodeType cfg) = true -> new_stripe s ->
  (forall x, node_stripes (node_at t x) !! stripe_id s = None) ->
  initialize_stripe_placement cfg s t draws = Some (s', t') -> placement_ok cfg s t s' t'.
Proof.
  intros Hc Hs Hf. unfold initialize_stripe_placement, code_type_ok in *. cbn [existsb] in Hc.
  destruct (String.eqb (CodeType cfg) "UniLRC"), (String.eqb (CodeType cfg) "AzureLRC"),
    (String.eqb (CodeType cfg) "OptimalLRC"), (String.eqb (CodeType cfg) "gLRC"), (String.eqb (CodeType cfg) "UniformLRC");
    cbn [orb] in *; try discriminate; apply place_ok || apply (place_ok (PlacementAlgorithm := glrc_ok)); assumption.
Qed.

Lemma upload_stripe_new cfg id client : config_ok cfg -> new_stripe (upload_stripe cfg id client).
Proof. intros (H1 & H2 & H3 & H4). split; auto. Qed.

(** The blocks a placement writes carry the id of the stripe. *)
Lemma placement_blocks cfg s t s' t' b : placement_ok cfg s t s' t' -> b ∈ blocks s' -> map2stripe b = stripe_id s.
Proof.
  intros [_ P2 P3 _ _ _ _ _] Hb. apply list_elem_of_In, In_zget in Hb as (i & Hi & <-). rewrite P3 by lia.
  cbn [with_place map2stripe]. unfold block_info. repeat case_match; reflexivity.
Qed.

Lemma placement_agrees cfg s t s' t' : placement_ok cfg s t s' t' -> 0 <= st_n s ->
  (forall c b, b ∈ cluster_blocks (cluster_at t c) -> map2stripe b <> stripe_id s) ->
  stripe_agrees t' (stripe_id s) s'.
Proof.
  intros Hok Hn Hold. pose proof Hok as [(Q1 & _ & _ & _ & Q5 & _) P2 P3 P4 _ P6 _ _]. split.
  - exact Q1.
  - lia.
  - rewrite Q5. intros b Hb. rewrite P3 by exact Hb. cbn [with_place block_id map2stripe]. unfold block_info.
    repeat case_match; auto.
  - rewrite Q5. exact P4.
  - intros c. rewrite P6, List.filter_app, filter_none, filter_all; [reflexivity| |].
    + intros b Hb. apply filter_In in Hb as [Hb _]. apply list_elem_of_In in Hb. apply Z.eqb_eq.
      exact (placement_blocks cfg s t s' t' b Hok Hb).
    + intros b Hb. apply list_elem_of_In in Hb. apply Z.eqb_neq, (Hold c b Hb).
Qed.

(** Other stripes do not notice. *)
Lemma placement_keeps cfg s t s' t' id st : placement_ok cfg s t s' t' -> id <> stripe_id s ->
  stripe_agrees t id st -> stripe_agrees t' id st.
Proof.
  intros Hok Hne [A1 A2 A3 A4 A5]. pose proof Hok as [_ _ _ _ P5 P6 _ _]. split; auto.
  - intros x b. rewrite P5 by exact Hne. apply A4.
  - intros c. rewrite P6, List.filter_app, <- A5.
    rewrite (filter_none _ (List.filter (fun b => map2cluster b =? c) (blocks s'))), app_nil_r; [reflexivity|].
    intros b Hb. apply filter_In in Hb as [Hb _]. apply list_elem_of_In in Hb.
    rewrite (placement_blocks cfg s t s' t' b Hok Hb). apply Z.eqb_neq. congruence.
Qed.

(** Nothing of the next stripe is in the tables. *)
Lemma next_free c : coordinator_ok c -> forall x, node_stripes (node_at (co_tables c) x) !! m_cur_stripe_id c = None.
Proof.
  intros [_ H2 _ _] x. destruct (node_stripes _ !! _) as [b|] eqn:E; [|reflexivity]. apply H2 in E. lia.
Qed.

(** * The handlers *)

(** A placed stripe in the tables, whether or not it enters the stripe table. *)
Lemma placed_ok cfg c s s' t' (enter : bool) c' : coordinator_ok c -> stripe_id s = m_cur_stripe_id c -> 0 <= st_n s ->
  placement_ok cfg s (co_tables c) s' t' -> co_tables c' = t' -> m_cur_stripe_id c' = m_cur_stripe_id c + 1 ->
  m_stripe_table c' = (if enter then <[stripe_id s' := s']> (m_stripe_table c) else m_stripe_table c) ->
  coordinator_ok c'.
Proof.
  intros Hc Hid Hn Hok Et Ei Es. pose proof Hok as [(Q1 & _) _ _ P4 P5 P6 _ _]. pose proof (co_refs _ Hc) as Hrefs.
  destruct Hc as [C1 C2 C3 C4]. split; rewrite ?Et, ?Ei.
  - lia.
  - intros x id b Hx. destruct (Z.eq_dec id (stripe_id s)) as [->|Hne]; [lia|].
    rewrite P5 in Hx by exact Hne. apply C2 in Hx. lia.
  - intros cl b Hb. rewrite P6, elem_of_app in Hb. destruct Hb as [Hb|Hb]; [apply C3 in Hb; lia|].
    apply list_elem_of_In, filter_In in Hb as [Hb _]. apply list_elem_of_In in Hb.
    rewrite (placement_blocks cfg s _ s' t' b Hok Hb). lia.
  - assert (Hold : forall id st, m_stripe_table c !! id = Some st -> 0 <= id < m_cur_stripe_id c + 1 /\ stripe_agrees t' id st).
    { intros id st H. destruct (C4 id st H) as [Hr Ha]. split; [lia|]. apply (placement_keeps cfg s (co_tables c) s'); auto. lia. }
    intros id st. rewrite Es. destruct enter; [|apply Hold]. rewrite lookup_insert_Some. intros [[<- <-]|[_ H]]; [|apply Hold, H].
    rewrite Q1. split; [lia|]. apply (placement_agrees cfg s (co_tables c)); auto.
    intros cl b Hb. apply Hrefs in Hb. lia.
Qed.

(** Handlers that only touch the object tables, the deletion list or the offsets. *)
Lemma same_tables_ok c c' : coordinator_ok c -> co_tables c' = co_tables c -> m_stripe_table c' = m_stripe_table c ->
  m_cur_stripe_id c' = m_cur_stripe_id c -> coordinator_ok c'.
Proof. intros [C1 C2 C3 C4] E1 E2 E3. split; rewrite ?E1, ?E2, ?E3; assumption. Qed.

Lemma schedule_tables outcomes plans c reply c' : schedule outcomes plans c = (reply, c') ->
  co_tables c' = co_tables c /\ m_stripe_table c' = m_stripe_table c /\ m_cur_stripe_id c' = m_cur_stripe_id c /\
  m_cur_offset_table c' = m_cur_offset_table c.
Proof. unfold schedule. destruct (notify_all _ _ _ _). intros [= _ <-]. repeat split. Qed.

(** The common end of the two uploads. *)
Lemma upload_ok cfg client draws outcomes plans c s t rep c1 : config_ok cfg -> coordinator_ok c ->
  code_type_ok (CodeType (settings cfg)) = true ->
  initialize_stripe_placement (settings cfg) (upload_stripe cfg (m_cur_stripe_id c) client) (co_tables c) draws = Some (s, t) ->
  schedule outcomes plans (with_tables t (with_cur_stripe_id (m_cur_stripe_id c + 1) c)) = (rep, c1) ->
  coordinator_ok (match rep with
                  | Some _ => with_stripe_table (<[stripe_id s := s]> (m_stripe_table c1)) c1
                  | None => c1
                  end).
Proof.
  intros Hcfg Hc Ect Ep Es. apply initialize_ok in Ep; [|exact Ect|apply upload_stripe_new, Hcfg|apply (next_free c Hc)].
  apply schedule_tables in Es as (E1 & E2 & E3 & _). cbn in E1, E2, E3. destruct Hcfg as (K1 & K2 & K3 & K4).
  destruct rep.
  - apply (placed_ok (settings cfg) c (upload_stripe cfg (m_cur_stripe_id c) client) s t true); auto; cbn; lia || congruence.
  - apply (placed_ok (settings cfg) c (upload_stripe cfg (m_cur_stripe_id c) client) s t false); auto; cbn; lia || congruence.
Qed.

Lemma uploadSetValue_ok cfg client size draws outcomes c reply c' : config_ok cfg -> coordinator_ok c ->
  uploadSetValue cfg client size draws outcomes c = Some (reply, c') -> coordinator_ok c'.
Proof.
  intros Hcfg Hc. unfold uploadSetValue. destruct (negb (size =? _)); [discriminate|]. cbn [orb].
  destruct (code_type_ok _) eqn:Ect; [cbn [negb]|discriminate].
  destruct (initialize_stripe_placement _ _ _ _) as [[s t]|] eqn:Ep; [|discriminate].
  destruct (generate_add_plans _ _ _) as [plans|]; [|discriminate].
  destruct (schedule outcomes plans _) as [rep c1] eqn:Es. intros [= _ <-]. eapply upload_ok; eassumption.
Qed.

Lemma uploadSubsetValue_ok cfg client size draws outcomes c reply c' : config_ok cfg -> coordinator_ok c ->
  uploadSubsetValue cfg client size draws outcomes c = Some (reply, c') -> coordinator_ok c'.
Proof.
  intros Hcfg Hc. unfold uploadSubsetValue. destruct (negb (size <=? _)); [discriminate|]. cbn [orb].
  destruct (code_type_ok _) eqn:Ect; [cbn [negb]|discriminate].
  destruct (initialize_stripe_placement _ _ _ _) as [[s t]|] eqn:Ep; [|discriminate].
  destruct (schedule outcomes _ _) as [rep c1] eqn:Es. intros [= _ <-]. eapply upload_ok; eassumption.
Qed.

(** An append may start a stripe, or continue one. *)
Definition append_ready (client : string) (c : Coordinator) : Prop :=
  match m_cur_offset_table c !! client with Some so => so_offset so <> 0 | None => True end.

Lemma uploadAppendValue_ok cfg client size draws outcomes c reply c' : config_ok cfg -> coordinator_ok c ->
  append_ready client c -> uploadAppendValue cfg client size draws outcomes c = Some (reply, c') -> coordinator_ok c'.
Proof.
  intros Hcfg Hc Hready. unfold uploadAppendValue, append_ready in *.
  assert (Hend : forall off s0 plans c1, coordinator_ok c1 ->
    match plans with
    | [] => Some (inr true, c1)
    | _ =>
        let '(reply, c) := schedule outcomes plans c1 in
        match reply with
        | None => Some (inr false, c)
        | Some reply =>
            Some (inl reply, with_offsets
              (if uint32 off =? uint32 (BlockSize (settings cfg) * cfg_k cfg) then delete client (m_cur_offset_table c)
               else <[client := {| so_stripe_id := s0; so_offset := off |}]> (m_cur_offset_table c)) c)
        end
    end = Some (reply, c') -> coordinator_ok c').
  { intros off s0 plans c1 Hc1. destruct plans as [|p plans]; [intros [= _ <-]; exact Hc1|].
    destruct (schedule outcomes (p :: plans) c1) as [rep c2] eqn:Es. apply schedule_tables in Es as (E1 & E2 & E3 & _).
    destruct rep; intros [= _ <-]; apply (same_tables_ok c1); auto. }
  destruct (m_cur_offset_table c !! client) as [so|] eqn:Eo.
  - rewrite Eo. cbn [from_option id]. destruct (uint32 _ <? uint32 _); [discriminate|].
    destruct (Z.eqb_spec (so_offset so) 0); [contradiction|].
    destruct (m_stripe_table c !! so_stripe_id so) as [s|]; [|discriminate].
    destruct (generateAppendPlan _ _ _ _ _) as [plans|]; [|discriminate]. apply Hend, Hc.
  - cbn [m_cur_offset_table with_offsets]. rewrite lookup_insert_eq. cbn [from_option id so_offset so_stripe_id].
    destruct (uint32 _ <? uint32 _); [discriminate|]. cbn [Z.eqb].
    destruct (initialize_unilrc_and_azurelrc_stripe_placement _ _ _ _) as [[s t]|] eqn:Ep; [|discriminate].
    destruct (generateAppendPlan _ _ _ _ _) as [plans|]; [|discriminate]. apply Hend.
    apply place_ok in Ep; [|apply upload_stripe_new, Hcfg|apply (next_free c Hc)].
    destruct Hcfg as (K1 & K2 & K3 & K4).
    apply (placed_ok (settings cfg) c (upload_stripe cfg (m_cur_stripe_id c) client) s t true); auto; cbn; lia.
Qed.

(** * Deletion and reset *)

Lemma cluster_at_fmap f t c : f empty_cluster = empty_cluster ->
  default empty_cluster ((f <$> m_cluster_table t) !! c) = f (cluster_at t c).
Proof. intros Hf. unfold cluster_at. rewrite lookup_fmap. destruct (m_cluster_table t !! c); [reflexivity|]. symmetry. exact Hf. Qed.

Lemma node_at_fmap f t x : f empty_node = empty_node ->
  default empty_node ((f <$> m_node_table t) !! x) = f (node_at t x).
Proof. intros Hf. unfold node_at. rewrite lookup_fmap. destruct (m_node_table t !! x); [reflexivity|]. symmetry. exact Hf. Qed.

(** What is left after the report that a stripe is deleted. *)
Lemma report_delete_stripe_tables id c :
  let t := co_tables (report_delete_stripe id c) in
  (forall x, node_stripes (node_at t x) = delete id (node_stripes (node_at (co_tables c) x))) /\
  (forall cl, cluster_blocks (cluster_at t cl) =
     List.filter (fun b => negb (map2stripe b =? id)) (cluster_blocks (cluster_at (co_tables c) cl))) /\
  m_stripe_table (report_delete_stripe id c) = delete id (m_stripe_table c).
Proof.
  cbn zeta. split; [|split; [|reflexivity]].
  - intros x. unfold node_at at 1. cbn [report_delete_stripe co_tables with_tables m_node_table drop_cluster_blocks].
    rewrite node_at_fmap; [reflexivity|]. unfold empty_node, with_stripes. cbn. rewrite delete_empty. reflexivity.
  - intros cl. unfold cluster_at at 1. cbn [report_delete_stripe co_tables with_tables m_cluster_table drop_cluster_blocks].
    rewrite cluster_at_fmap; reflexivity.
Qed.

Lemma report_delete_stripe_ok id c : coordinator_ok c -> coordinator_ok (report_delete_stripe id c).
Proof.
  intros [C1 C2 C3 C4]. destruct (report_delete_stripe_tables id c) as (T1 & T2 & T3). split.
  - exact C1.
  - intros x i b. rewrite T1, lookup_delete_Some. intros [_ H]. apply (C2 x i b H).
  - intros cl b. rewrite T2. intros Hb. apply list_elem_of_In, filter_In in Hb as [Hb _]. apply (C3 cl). apply list_elem_of_In, Hb.
  - intros i s. rewrite T3, lookup_delete_Some. intros [Hne H]. destruct (C4 i s H) as [Hr [A1 A2 A3 A4 A5]].
    split; [exact Hr|]. split; auto.
    + intros x b. rewrite T1, lookup_delete_ne by congruence. apply A4.
    + intros cl. rewrite T2, filter_filter_and, <- A5.
      rewrite (filter_ext _ (fun b => map2stripe b =? i)); [reflexivity|].
      intros b. destruct (Z.eqb_spec (map2stripe b) i) as [->|]; [|reflexivity].
      destruct (Z.eqb_spec i id); [congruence|reflexivity].
Qed.

Lemma setParameter_ok c : coordinator_ok (setParameter c).
Proof.
  split; cbn [setParameter co_tables m_stripe_table m_cur_stripe_id].
  - lia.
  - intros x id b. unfold node_at. cbn [m_node_table]. rewrite node_at_fmap by reflexivity. cbn [with_stripes node_stripes].
    rewrite lookup_empty. discriminate.
  - intros cl b. unfold cluster_at. cbn [m_cluster_table]. rewrite cluster_at_fmap by reflexivity. cbn [cluster_blocks].
    intros Hb. apply elem_of_nil in Hb. contradiction.
  - intros id s. rewrite lookup_empty. discriminate.
Qed.

(** * Runs *)

(** The handlers that keep the tables together, in any order: sets and subset
    sets, appends to an object that is new or whose stripe is in the table,
    commit and abort reports, deletion requests, the report of a deleted stripe,
    and [setParameter].  Not among them, because they do break the tables, are
    the second first append of an object whose first one failed
    ([append_retry_leaks]), the report of a deleted key (a negative stripe id),
    and the reads and repairs of a stripe that does not exist, which list an
    empty one ([recovery_invents_stripe]); reads and repairs of stripes in the
    table change nothing here. *)
Inductive coord_step (cfg : SysConfig) (c : Coordinator) : Coordinator -> Prop :=
| cs_set client size draws outcomes reply c' :
    uploadSetValue cfg client size draws outcomes c = Some (reply, c') -> coord_step cfg c c'
| cs_subset client size draws outcomes reply c' :
    uploadSubsetValue cfg client size draws outcomes c = Some (reply, c') -> coord_step cfg c c'
| cs_append client size draws outcomes reply c' : append_ready client c ->
    uploadAppendValue cfg client size draws outcomes c = Some (reply, c') -> coord_step cfg c c'
| cs_report unset key opp id ifcommit : (opp = DEL -> 0 <= id) ->
    coord_step cfg c (reportCommitAbort unset key opp id ifcommit c)
| cs_del_stripe id c' : delByStripe id c = Some c' -> coord_step cfg c c'
| cs_del_key key c' : delByKey key c = Some c' -> coord_step cfg c c'
| cs_reset : coord_step cfg c (setParameter c).

Lemma coord_step_ok cfg c c' : config_ok cfg -> coordinator_ok c -> coord_step cfg c c' -> coordinator_ok c'.
Proof.
  intros Hcfg Hc Hstep. destruct Hstep as [client size draws outcomes reply c' E|client size draws outcomes reply c' E
    |client size draws outcomes reply c' Hr E|unset key opp id ifcommit Hdel|id c' E|key c' E|].
  - eapply uploadSetValue_ok; eassumption.
  - eapply uploadSubsetValue_ok; eassumption.
  - eapply uploadAppendValue_ok; eassumption.
  - unfold reportCommitAbort. destruct ifcommit; [|apply (same_tables_ok c); auto].
    destruct opp; try exact Hc; try (apply (same_tables_ok c); auto; fail).
    specialize (Hdel eq_refl). destruct (Z.ltb_spec id 0); [lia|]. apply report_delete_stripe_ok, Hc.
  - unfold delByStripe in E. destruct (m_stripe_table c !! id); [|discriminate]. injection E as <-. apply (same_tables_ok c); auto.
  - unfold delByKey in E. destruct (m_object_commit_table c !! key); [|discriminate]. injection E as <-. apply (same_tables_ok c); auto.
  - apply setParameter_ok.
Qed.

Lemma coord_run_ok cfg c c' : config_ok cfg -> coordinator_ok c -> rtc (coord_step cfg) c c' -> coordinator_ok c'.
Proof. intros Hcfg Hc Hrun. induction Hrun as [|c c1 c2 Hstep _ IH]; [exact Hc|]. apply IH. eapply coord_step_ok; eassumption. Qed.
