(* ===== verification/Client.v ===== *)
(** The client's write path ([client.cpp]): how many blocks of each kind a group
    has, cutting the pre-allocated buffer along the coordinator's reply, encoding
    in place, and the bytes each proxy is sent.  Pointers into the buffer are
    offsets. *)
From S2P Require Import Prelude GF256 Groups EcKernel Codes RepairPlan Toolbox Placement Coordinator.

(** * Blocks per group *)

(** [(int)std::ceil((double)a / b)]: the quotient of two [int]s is closer to no
    other integer than the precision of a [double]. *)
Definition ceil_div (a b : Z) : Z := - ((- a) / b).

Definition repeat_of {A} (n : Z) (f : Z -> A) : list A := map f (zseq n).

(** The two layouts of RS, chosen by [num_arry]. *)
Definition rs_default (num_arry : list Z) : bool :=
  match num_arry with [] => true | x :: _ => x =? 1 end.
Definition rs_small_groups (k r : Z) : Z := r - ((k + r - 1) mod r + 1).
Definition rs_num_data_groups (k r : Z) : Z :=
  rs_small_groups k r + ceil_div (k - rs_small_groups k r * (r - 1)) r.
Definition rs_small_data_groups (k r : Z) : Z := Z.max 0 (r - ((k + r - 1) mod r + 1) - 2).
Definition rs_num_pure (k r : Z) : Z :=
  rs_small_data_groups k r + ceil_div (k - (r - 2) - rs_small_data_groups k r * (r - 1)) r.

Definition optimal_groups_of_local (k r z : Z) : Z := k / z / (r + 1) + 1.

Definition get_data_block_num_per_group (num_arry : list Z) (k r z : Z) (code_type : string) : list Z :=
  if String.eqb code_type "AzureLRC" then repeat_of z (fun _ => k / z) ++ [0]
  else if String.eqb code_type "OptimalLRC" then
    let group_size := r + 1 in
    let local_group_size := k / z in
    let per_local := optimal_groups_of_local k r z in
    repeat_of (z * per_local) (fun i => if (i + 1) mod per_local =? 0 then local_group_size mod group_size else group_size) ++ [0]
  else if String.eqb code_type "UniformLRC" then repeat_of (z - 1) (fun _ => (k + r) / z) ++ [0]
  else if String.eqb code_type "UniLRC" then repeat_of z (fun _ => k / z)
  else if String.eqb code_type "gLRC" then glrc_fill_data_blocks_per_group k r z
  else if String.eqb code_type "RS" then
    if rs_default num_arry then
      0 :: repeat_of (rs_num_data_groups k r) (fun g => if g <? rs_small_groups k r then r - 1 else r)
    else r - 3 :: 1 :: repeat_of (rs_num_pure k r) (fun g => if g <? rs_small_data_groups k r then r - 1 else r)
  else [].

Definition get_global_parity_block_num_per_group (num_arry : list Z) (k r z : Z) (code_type : string) : list Z :=
  if String.eqb code_type "AzureLRC" then repeat_of z (fun _ => 0) ++ [r]
  else if String.eqb code_type "OptimalLRC" then repeat_of (z * optimal_groups_of_local k r z) (fun _ => 0) ++ [r]
  else if String.eqb code_type "UniformLRC" then repeat_of (z - 1) (fun _ => 0) ++ [r]
  else if String.eqb code_type "UniLRC" then repeat_of z (fun _ => r / z)
  else if String.eqb code_type "gLRC" then repeat_of z (fun i => glrc_global_blocks_in_group i k r z)
  else if String.eqb code_type "RS" then
    if rs_default num_arry then r :: repeat_of (rs_num_data_groups k r) (fun _ => 0)
    else 2 :: r - 2 :: repeat_of (rs_num_pure k r) (fun _ => 0)
  else [].

Definition get_local_parity_block_num_per_group (num_arry : list Z) (k r z : Z) (code_type : string) : list Z :=
  if String.eqb code_type "AzureLRC" then repeat_of z (fun _ => 1) ++ [0]
  else if String.eqb code_type "OptimalLRC" then
    let per_local := optimal_groups_of_local k r z in
    repeat_of (z * per_local) (fun i => if (i + 1) mod per_local =? 0 then 1 else 0) ++ [0]
  else if String.eqb code_type "UniformLRC" then repeat_of z (fun _ => 1)
  else if String.eqb code_type "UniLRC" then repeat_of z (fun _ => 1)
  else if String.eqb code_type "gLRC" then repeat_of z (fun _ => 1)
  else if String.eqb code_type "RS" then
    repeat_of (if rs_default num_arry then 1 + rs_num_data_groups k r else 2 + rs_num_pure k r) (fun _ => 0)
  else [].

(** The per-stripe RS layouts; [two_N] is [2^N]. *)
Definition get_rs_block_num_per_group_from_stripe_id (num_arry : list Z) (N k r stripe_id : Z)
  : list Z * list Z * list Z :=
  let two_N := 2 ^ N in
  let initial_list := stripe_id mod two_N + 1 in
  if rs_default num_arry then
    let small := rs_small_groups k r in
    let large := ceil_div (k - small * (r - 1)) r in
    let num_data_groups := small + large in
    (0 :: repeat_of num_data_groups (fun g => if initial_list mod 2 =? 1 then (if g <? small then r - 1 else r)
                                              else (if g <? large then r else r - 1)),
     r :: repeat_of num_data_groups (fun _ => 0), 0 :: repeat_of num_data_groups (fun _ => 0))
  else
    let num_pure := rs_num_pure k r in
    (r - 3 :: 1 :: repeat_of num_pure (fun g => if g <? rs_small_data_groups k r then r - 1 else r),
     2 :: r - 2 :: repeat_of num_pure (fun _ => 0), 0 :: 0 :: repeat_of num_pure (fun _ => 0)).

(** * Cutting the buffer *)

(** One turn of [split_for_set_data_and_parity]: the pointers of the data, global
    and local blocks of a cluster's part, which starts at [start]. *)
Definition split_cluster (bs start size data global local : Z) : option (list Z * list Z * list Z) :=
  match splitCharPointer size (zrepeat bs (data + global + local)) with
  | None => None
  | Some node_slices =>
      let node_slices := map (Z.add start) node_slices in
      Some (ztake data node_slices, ztake global (zdrop data node_slices),
            ztake local (zdrop (data + global) node_slices))
  end.

Fixpoint split_for_set_data_and_parity (bs : Z) (starts sizes data global local : list Z) (i : nat)
  : option (list Z * list Z * list Z) :=
  match starts with
  | [] => Some ([], [], [])
  | start :: rest =>
      let g := Z.of_nat i in
      match split_cluster bs start sizes.[g] data.[g] global.[g] local.[g],
            split_for_set_data_and_parity bs rest sizes data global local (S i) with
      | Some (d, gl, l), Some (ds, gls, ls) => Some (d ++ ds, gl ++ gls, l ++ ls)
      | _, _ => None
      end
  end.

(** [len] bytes at a pointer, and storing bytes there. *)
Definition peek (len p : Z) (buf : list byte) : list byte := ztake len (zdrop p buf).
Definition poke (p : Z) (data buf : list byte) : list byte := ztake p buf ++ data ++ zdrop (p + zlen data) buf.

Definition poke_all (ptrs : list Z) (blocks : list block) (buf : list byte) : list byte :=
  fold_left (fun buf '(p, b) => poke p b buf) (combine ptrs blocks) buf.

(** * Setting a stripe *)

Section SetStripe.
Context {K : Kernels}.

(** The encoder of the code type; [None] is the failed assertion. *)
Definition encode_code (code_type : string) : option (Z -> Z -> Z -> list block -> list block -> Z -> list block) :=
  if String.eqb code_type "UniLRC" then Some encode_unilrc
  else if String.eqb code_type "OptimalLRC" then Some encode_optimal_lrc
  else if String.eqb code_type "UniformLRC" then Some encode_uniform_lrc
  else if String.eqb code_type "AzureLRC" then Some encode_azure_lrc
  else if String.eqb code_type "RS" then Some encode_rs
  else if String.eqb code_type "gLRC" then Some encode_glrc
  else None.

(** The groups the reply is cut along; the stripe id is the start of a key. *)
Definition set_group_counts (num_arry : list Z) (N stripe_id : Z) (cfg : SysConfig) : list Z * list Z * list Z :=
  let ct := CodeType (settings cfg) in
  if String.eqb ct "RS" then get_rs_block_num_per_group_from_stripe_id num_arry N (cfg_k cfg) (cfg_r cfg) stripe_id
  else (get_data_block_num_per_group num_arry (cfg_k cfg) (cfg_r cfg) (cfg_z cfg) ct,
        get_global_parity_block_num_per_group num_arry (cfg_k cfg) (cfg_r cfg) (cfg_z cfg) ct,
        get_local_parity_block_num_per_group num_arry (cfg_k cfg) (cfg_r cfg) (cfg_z cfg) ct).

(** The bytes a connection carries, whose count is an [int].  [None]: a negative
    count, for which [asio::write] is told to read past the buffer. *)
Definition async_append_to_proxies (cluster_slice_data cluster_slice_size : Z) (buf : list byte) : option (list byte) :=
  let size := int32 cluster_slice_size in
  if size <? 0 then None else Some (peek size cluster_slice_data buf).

(** [Client::set] after the reply: the buffer once encoded, and the part that the
    connection of each plan carries. *)
Definition set_stripe (num_arry : list Z) (N stripe_id : Z) (cfg : SysConfig) (reply : Reply) (buf : list byte)
  : option (list byte * list (list byte)) :=
  let bs := BlockSize (settings cfg) in
  match splitCharPointer (sum_append_size reply) (cluster_slice_sizes reply), encode_code (CodeType (settings cfg)) with
  | Some starts, Some encode =>
      let '(data, global, local) := set_group_counts num_arry N stripe_id cfg in
      match split_for_set_data_and_parity bs starts (cluster_slice_sizes reply) data global local 0 with
      | None => None
      | Some (data_ptrs, global_ptrs, local_ptrs) =>
          let parity_ptrs := global_ptrs ++ local_ptrs in
          let parity := encode (cfg_k cfg) (cfg_r cfg) (cfg_z cfg) (map (fun p => peek bs p buf) data_ptrs)
                          (map (fun p => peek bs p buf) parity_ptrs) bs in
          let buf := poke_all parity_ptrs parity buf in
          match collect (map (fun '(start, size) => async_append_to_proxies start size buf) (combine starts (cluster_slice_sizes reply))) with
          | None => None
          | Some parts => Some (buf, parts)
          end
      end
  | _, _ => None
  end.
End SetStripe.

(** * Checking the commits *)

(** [if_commit_arr]: the answers of the coordinator, one per key; [None] while a
    check still waits. *)
Definition all_committed (keys : list string) (c : Coordinator) : option bool :=
  match collect (map (fun key => checkCommitAbort key APPEND 0 c) keys) with
  | None => None
  | Some oks => Some (forallb id oks)
  end.
