(* ===== verification/ClientAppend.v ===== *)
(** The client's own computation of the slices of an append
    ([client.cpp], [get_append_slice_plans] and [split_for_append_data_and_parity]),
    and that it agrees with the coordinator's plans. *)
From S2P Require Import Prelude RepairPlan Toolbox Placement Coordinator AppendPlan AppendSpec.

(** The sizes by block. *)
Abbreviation Sizes := (gmap Z Z).

Definition client_turn (k unit_size curr_logical_offset append_size : Z) (st : Sizes * Z * Z * Z) : Sizes * Z * Z * Z :=
  let '(m, curr_block_id, tmp_size, tmp_offset) := st in
  let sub_slice_size :=
    if (tmp_size =? append_size) && negb (curr_logical_offset mod unit_size =? 0)
    then Z.min (unit_size - curr_logical_offset mod unit_size) append_size
    else Z.min unit_size tmp_size in
  let m :=
    match m !! curr_block_id with
    | None => <[curr_block_id := sub_slice_size]> m
    | Some size => <[curr_block_id := size + sub_slice_size]> m
    end in
  (m, (curr_block_id + 1) mod k, tmp_size - sub_slice_size, tmp_offset + sub_slice_size).

Fixpoint client_loop (fuel : nat) (k unit_size curr_logical_offset append_size : Z) (st : Sizes * Z * Z * Z) : option Sizes :=
  let '(m, _, tmp_size, _) := st in
  if tmp_size <=? 0 then Some m
  else match fuel with
       | O => None
       | S fuel => client_loop fuel k unit_size curr_logical_offset append_size
                     (client_turn k unit_size curr_logical_offset append_size st)
       end.

(** Size and offset of the parity slice. *)
Definition client_parity_slice (append_mode : string) (k unit_size curr_logical_offset append_size : Z) : Z * Z :=
  let last := curr_logical_offset + append_size - 1 in
  let num_unit_stripes := Z.quot last (unit_size * k) - curr_logical_offset / (unit_size * k) + 1 in
  let num_units := Z.quot last unit_size - curr_logical_offset / unit_size + 1 in
  let size := num_unit_stripes * unit_size in
  let off := curr_logical_offset / (unit_size * k) * unit_size in
  if String.eqb append_mode "UNILRC_MODE" then
    let '(size, off) := if num_units =? 1 then (append_size, off + curr_logical_offset mod unit_size) else (size, off) in
    let size := if (1 <? num_unit_stripes) && (Z.rem last (unit_size * k) <? unit_size - 1)
                then (num_unit_stripes - 1) * unit_size + Z.rem last (unit_size * k) + 1 else size in
    (size, off)
  else (size, off).

Record ClientPlan := {
  start_data_block_id : Z;
  node_slice_sizes_per_cluster : list (list Z);
  modified_data_block_nums_per_cluster : list Z;
  data_ptr_size_array : list Z;
  cp_parity_slice_size : Z;
  cp_parity_slice_offset : Z }.

(** [block_to_slice_sizes[j]] *)
Definition size_of (m : Sizes) (j : Z) : Z := default 0 (m !! j).

(** [None]: an assertion fails. *)
Definition get_append_slice_plans (append_mode : string) (s : Stripe) (unit_size curr_logical_offset append_size : Z)
  : option ClientPlan :=
  if negb (String.eqb append_mode "UNILRC_MODE" || String.eqb append_mode "CACHED_MODE") then None
  else
    let curr_block_id := (curr_logical_offset / unit_size) mod st_k s in
    let '(psize, poff) := client_parity_slice append_mode (st_k s) unit_size curr_logical_offset append_size in
    match client_loop (Z.to_nat append_size) (st_k s) unit_size curr_logical_offset append_size
            (∅, curr_block_id, append_size, curr_logical_offset) with
    | None => None
    | Some m =>
        let m := for_range (st_k s) (st_n s) (fun i m => <[i := psize]> m) m in
        let data i := List.filter (fun j => bool_decide (is_Some (m !! j))) (plan_data_ids s i) in
        Some {| start_data_block_id := curr_block_id;
                node_slice_sizes_per_cluster :=
                  map (fun i => map (size_of m) (data i ++ plan_global_ids s i ++ plan_local_ids s i)) (zseq (st_z s));
                modified_data_block_nums_per_cluster := map (fun i => zlen (data i)) (zseq (st_z s));
                data_ptr_size_array := concat (map (fun i => map (size_of m) (data i)) (zseq (st_z s)));
                cp_parity_slice_size := psize; cp_parity_slice_offset := poff |}
    end.

(** One cluster of [split_for_append_data_and_parity]. *)
Definition split_append_cluster (r z start size modified : Z) (sizes : list Z) : option (list Z * list Z * list Z) :=
  match splitCharPointer size sizes with
  | None => None
  | Some node_slices =>
      let node_slices := map (Z.add start) node_slices in
      Some (ztake modified node_slices, ztake (r / z) (zdrop modified node_slices), zdrop (modified + r / z) node_slices)
  end.

(** * Agreement *)

(** The client's map is the coordinator's without the offsets. *)
Lemma client_turn_fst k U off size (m : Slices) c ts x :
  client_turn k U off size (fst <$> m, c, ts, x) =
  let '(m', c', ts', x') := append_turn k U off size (m, c, ts, x) in (fst <$> m', c', ts', x').
Proof.
  unfold client_turn, append_turn. rewrite lookup_fmap. destruct (m !! c) as [[sz o]|]; cbn [fmap option_fmap option_map];
    rewrite fmap_insert; reflexivity.
Qed.

Lemma client_loop_fst k U off size fuel : forall (m : Slices) c ts x,
  client_loop fuel k U off size (fst <$> m, c, ts, x) =
  option_map (fun m' : Slices => fst <$> m') (append_loop fuel k U off size (m, c, ts, x)).
Proof.
  induction fuel as [|fuel IH]; intros m c ts x; cbn [client_loop append_loop]; destruct (ts <=? 0); try reflexivity.
  rewrite client_turn_fst. destruct (append_turn k U off size (m, c, ts, x)) as [[[m' c'] ts'] x']. apply IH.
Qed.

Lemma client_parity_agrees mode k U off size : mode = "UNILRC_MODE" \/ mode = "CACHED_MODE" ->
  parity_slice mode k U off size = Some (client_parity_slice mode k U off size).
Proof.
  intros [->| ->]; unfold parity_slice, client_parity_slice; cbn [String.eqb Ascii.eqb Bool.eqb]; [|reflexivity].
  destruct (_ =? 1); destruct (_ && _); reflexivity.
Qed.

Lemma for_insert_fst lo hi v (m : Slices) : lo <= hi ->
  for_range lo hi (fun i m => <[i := fst v]> m) (fst <$> m) = fst <$> for_range lo hi (fun i m => <[i := v]> m) m.
Proof.
  intros Hle. unfold for_range. generalize (Z.to_nat (hi - lo)). clear hi Hle. intros n. revert lo m.
  induction n as [|n IH]; intros lo m; [reflexivity|]. cbn [for_steps]. rewrite <- fmap_insert. apply IH.
Qed.

Lemma size_of_fst (m : Slices) j : size_of (fst <$> m) j = fst (slice_of m j).
Proof. unfold size_of, slice_of. rewrite lookup_fmap. destruct (m !! j); reflexivity. Qed.

Lemma present_fst (m : Slices) l :
  List.filter (fun j => bool_decide (is_Some ((fst <$> m : Sizes) !! j))) l = List.filter (fun j => bool_decide (is_Some (m !! j))) l.
Proof. apply filter_ext. intros j. apply bool_decide_ext. rewrite lookup_fmap. apply fmap_is_Some. Qed.

Lemma client_sizes_fst cfg s t off size psize (m : Slices) i :
  map (size_of (fst <$> m)) (List.filter (fun j => bool_decide (is_Some ((fst <$> m : Sizes) !! j))) (plan_data_ids s i) ++
                             plan_global_ids s i ++ plan_local_ids s i) =
  map ps_size (plan_slices (append_plan cfg s t off size psize m i)).
Proof.
  unfold append_plan. cbn [plan_slices]. rewrite fold_add_slices, present_fst. cbn [app]. rewrite map_map. cbn [ps_size].
  apply map_ext. intros j. apply size_of_fst.
Qed.

(** Adjacent ranges join. *)
Lemma concat_ranges (f : Z -> Z) m : 0 <= m -> (forall i, 0 <= i < m -> f i <= f (i + 1)) ->
  concat (map (fun i => seqZ (f i) (f (i + 1) - f i)) (zseq m)) = seqZ (f 0) (f m - f 0).
Proof.
  intros Hm. pattern m. apply natlike_ind; [intros _; rewrite Z.sub_diag; reflexivity| |exact Hm]. clear m Hm. intros m Hm IH Hf.
  rewrite <- Z.add_1_r in *. assert (Hmono : f 0 <= f m).
  { clear IH. revert Hf. pattern m. apply natlike_ind; [lia| |exact Hm]. intros x Hx IHx H. specialize (IHx ltac:(intros; apply H; lia)).
    specialize (H x ltac:(lia)). unfold Z.succ. lia. }
  rewrite seqZ_app, map_app, concat_app, IH by (try lia; intros; apply Hf; lia).
  replace (seqZ (0 + m) 1) with [m] by (replace (0 + m) with m by lia; reflexivity). cbn [map concat]. rewrite app_nil_r.
  specialize (Hf m ltac:(lia)). replace (f (m + 1) - f 0) with ((f m - f 0) + (f (m + 1) - f m)) by lia.
  rewrite seqZ_app by lia. repeat f_equal; lia.
Qed.

Lemma plan_data_ids_all s : 1 <= st_z s -> 0 <= st_k s -> concat (map (plan_data_ids s) (zseq (st_z s))) = zseq (st_k s).
Proof.
  intros Hz Hk. unfold plan_data_ids. rewrite (concat_ranges (fun i => i * st_k s / st_z s)).
  - rewrite Z.mul_0_l, Z.div_0_l, (Z.mul_comm (st_z s)), Z.div_mul, Z.sub_0_r by lia. reflexivity.
  - lia.
  - intros i Hi. apply Z.div_le_mono; nia.
Qed.

(** Absent blocks count for nothing. *)
Lemma present_total (m : Slices) l :
  zsum (map (size_of (fst <$> m)) (List.filter (fun j => bool_decide (is_Some (m !! j))) l)) =
  zsum (map (fun j => fst (slice_of m j)) l).
Proof.
  induction l as [|j l IH]; [reflexivity|]. cbn [List.filter map zsum fold_right]. destruct (m !! j) as [v|] eqn:E.
  - rewrite bool_decide_eq_true_2 by eauto. cbn [map zsum fold_right]. rewrite size_of_fst. unfold zsum in IH. lia.
  - rewrite bool_decide_eq_false_2 by (intros [? [=]]). replace (fst (slice_of m j)) with 0 by (unfold slice_of; rewrite E; reflexivity).
    unfold zsum in *. lia.
Qed.

Lemma client_plan_eq mode s U off size m : mode = "UNILRC_MODE" \/ mode = "CACHED_MODE" -> st_k s <= st_n s ->
  data_slices (st_k s) U off size = Some m ->
  exists psize poff, parity_slice mode (st_k s) U off size = Some (psize, poff) /\
  let m' : Slices := for_range (st_k s) (st_n s) (fun i m => <[i := (psize, poff)]> m) m in
  let data i := List.filter (fun j => bool_decide (is_Some (m' !! j))) (plan_data_ids s i) in
  get_append_slice_plans mode s U off size =
  Some {| start_data_block_id := (off / U) mod st_k s;
          node_slice_sizes_per_cluster :=
            map (fun i => map (size_of (fst <$> m')) (data i ++ plan_global_ids s i ++ plan_local_ids s i)) (zseq (st_z s));
          modified_data_block_nums_per_cluster := map (fun i => zlen (data i)) (zseq (st_z s));
          data_ptr_size_array := concat (map (fun i => map (size_of (fst <$> m')) (data i)) (zseq (st_z s)));
          cp_parity_slice_size := psize; cp_parity_slice_offset := poff |}.
Proof.
  intros Hmode Hn Em. pose proof (client_parity_agrees mode (st_k s) U off size Hmode) as Ep.
  destruct (client_parity_slice mode (st_k s) U off size) as [psize poff] eqn:Ec. exists psize, poff. split; [exact Ep|].
  unfold get_append_slice_plans. rewrite Ec. replace (negb _) with false by (destruct Hmode as [->| ->]; reflexivity).
  unfold data_slices in Em.
  pose proof (client_loop_fst (st_k s) U off size (Z.to_nat size) ∅ ((off / U) mod st_k s) size off) as E.
  rewrite fmap_empty, Em in E. rewrite E. cbn [option_map].
  pose proof (for_insert_fst (st_k s) (st_n s) (psize, poff) m Hn) as Hi. cbn [fst] in Hi. rewrite Hi.
  cbv zeta. do 2 f_equal; [apply map_ext|apply map_ext|f_equal; apply map_ext]; intros i; rewrite present_fst; reflexivity.
Qed.

Lemma data_total (m : Slices) s gs :
  zsum (concat (map (fun i => map (size_of (fst <$> m)) (List.filter (fun j => bool_decide (is_Some (m !! j))) (plan_data_ids s i))) gs)) =
  zsum (map (fun j => fst (slice_of m j)) (concat (map (plan_data_ids s) gs))).
Proof.
  induction gs as [|g gs IH]; [reflexivity|]. cbn [map concat]. rewrite map_app, !zsum_app, present_total, IH. reflexivity.
Qed.
