(* ===== verification/DataNode.v ===== *)
(** The data node's block files ([datanode.cpp]): atomic publication, in-place
    appends, the log of serialized parity slices and its merge, range reads and
    writes of a recovery.  A node's storage directory is a map from file names
    to contents; faults of the file system are an argument. *)
From S2P Require Import Prelude GF256 LinAlg EcKernel Toolbox.
From Stdlib Require Import Field.

Abbreviation Files := (gmap string (list byte)).

(** * Writing *)

(** Where [write_block_file_atomic] is interrupted by the file system, how many
    bytes a failing write left, and whether the temporary file was [removed]
    then: the result of [std::remove] is not looked at. *)
Inductive WriteFault :=
| NoFault
| OpenFails
| WriteFails (written : Z) (removed : bool)
| FlushFails (written : Z) (removed : bool)
| RenameFails (removed : bool).

Definition remove_tmp (removed : bool) (tmp : string) (d : Files) : Files := if removed then delete tmp d else d.

(** No removal fails. *)
Definition removes_tmp (fault : WriteFault) : bool :=
  match fault with WriteFails _ removed | FlushFails _ removed | RenameFails removed => removed | NoFault | OpenFails => true end.

(** The result and every state of the directory that a concurrent reader can
    see, the final one last.  [tmp] is the fresh name built from the process id
    and the clock. *)
Definition write_block_file_atomic (fault : WriteFault) (writepath tmp : string) (data : list byte) (d : Files)
  : bool * list Files :=
  match fault with
  | OpenFails => (false, [d])
  | WriteFails w removed | FlushFails w removed =>
      let d1 := <[tmp := []]> d in let d2 := <[tmp := ztake w data]> d1 in
      (false, [d; d1; d2; remove_tmp removed tmp d2])
  | RenameFails removed =>
      let d1 := <[tmp := []]> d in let d2 := <[tmp := data]> d1 in
      (false, [d; d1; d2; remove_tmp removed tmp d2])
  | NoFault =>
      let d1 := <[tmp := []]> d in let d2 := <[tmp := data]> d1 in
      (true, [d; d1; d2; <[writepath := data]> (delete tmp d2)])
  end.

Definition final (l : list Files) (d : Files) : Files := default d (last l).

(** [seekp(off); write(data)] or [pwrite]: a gap reads as zero bytes. *)
Definition write_at (off : Z) (data file : list byte) : list byte :=
  ztake off (file ++ zrepeat x00 (off - zlen file)) ++ data ++ zdrop (off + zlen data) file.

(** [std::fstream] opened for update, created empty when missing. *)
Definition write_in_place (path : string) (off : Z) (data : list byte) (d : Files) : Files :=
  <[path := write_at off data (default [] (d !! path))]> d.

(** * Serialized parity slices *)

Record ParitySlice := { slice_offset : Z; slice_size : Z; slice_bytes : list byte }.

Definition slice_record (s : ParitySlice) : list byte :=
  int_to_bytes (slice_offset s) ++ int_to_bytes (slice_size s) ++ ztake (slice_size s) (slice_bytes s).

(** Opened with [std::ios::app]. *)
Definition serialize (path : string) (s : ParitySlice) (d : Files) : Files :=
  <[path := default [] (d !! path) ++ slice_record s]> d.

(** One turn of the reading loop: a slice and the rest of the file; [None] when
    the file ends inside a record or the size is negative. *)
Definition read_slice (file : list byte) : option (ParitySlice * list byte) :=
  if zlen file <? 8 then None
  else
    let offset := bytes_to_int (ztake 4 file) in
    let size := bytes_to_int (ztake 4 (zdrop 4 file)) in
    if (size <? 0) || (zlen file <? 8 + size) then None
    else Some ({| slice_offset := offset; slice_size := size; slice_bytes := ztake size (zdrop 8 file) |},
               zdrop (8 + size) file).

(** [while (inFile.peek() != EOF)].  Every turn consumes at least eight bytes, so
    the length of the file bounds the number of turns. *)
Fixpoint deserialize_loop (fuel : nat) (file : list byte) : option (list ParitySlice) :=
  match file, fuel with
  | [], _ => Some []
  | _, O => None
  | _, S fuel' =>
      match read_slice file with
      | None => None
      | Some (s, rest) => match deserialize_loop fuel' rest with
                          | None => None
                          | Some ss => Some (s :: ss)
                          end
      end
  end.

Definition deserialize (file : list byte) : option (list ParitySlice) := deserialize_loop (length file) file.

(** The overload that fills a buffer: the slices one after the other, whatever
    their offsets; [None] also when it writes past the buffer. *)
Definition deserialize_into (file buf : list byte) : option (list byte) :=
  match deserialize file with
  | None => None
  | Some ss =>
      let bytes := concat (map slice_bytes ss) in
      if zlen bytes <=? zlen buf then Some (bytes ++ zdrop (zlen bytes) buf) else None
  end.

(** * Appends *)

(** The parts of [AppendInfo] the handler uses. *)
Record AppendInfo := {
  append_block_key : string;
  append_block_id : Z;
  append_offset : Z;
  append_is_serialized : bool }.

(** What a handler thread does with the bytes it read from the socket. *)
Definition handleAppend (k : Z) (fault : WriteFault) (tmp : string) (info : AppendInfo) (buf : list byte) (d : Files)
  : Files :=
  let path := append_block_key info in
  if (append_block_id info >=? k) && append_is_serialized info then
    serialize path {| slice_offset := append_offset info; slice_size := zlen buf; slice_bytes := buf |} d
  else if append_offset info =? 0 then final (snd (write_block_file_atomic fault path tmp buf d)) d
  else write_in_place path (append_offset info) buf d.

(** * Merging parity slices *)

(** [mergedBuf[slice.offset + i] ^= slice.slice_ptr[i]]; [None] is the [assert].
    A negative offset is not caught by it. *)
Definition merge_slice (BlockSize : Z) (s : ParitySlice) (buf : list byte) : option (list byte) :=
  match for_exit 0 (slice_size s) (fun i buf =>
          if slice_offset s + i <? BlockSize
          then inl (buf.[slice_offset s + i <- buf.[slice_offset s + i] ⊕ (slice_bytes s).[i]])
          else inr tt) buf with
  | inl buf => Some buf
  | inr _ => None
  end.

Fixpoint merge_slices (BlockSize : Z) (ss : list ParitySlice) (buf : list byte) : option (list byte) :=
  match ss with
  | [] => Some buf
  | s :: rest => match merge_slice BlockSize s buf with
                 | None => None
                 | Some buf => merge_slices BlockSize rest buf
                 end
  end.

(** [None]: the process ends ([exit], [assert]) or the file is malformed. *)
Definition handleMergeParity (BlockSize : Z) (path : string) (d : Files) : option Files :=
  match d !! path with
  | None => None
  | Some file =>
      match deserialize file with
      | None => None
      | Some ss =>
          match merge_slices BlockSize ss (zrepeat x00 BlockSize) with
          | None => None
          | Some merged => Some (<[path := merged]> d)
          end
      end
  end.

(** * Reading *)

(** The streaming loop: whole chunks of [chunk] bytes, the last one shorter;
    the bytes sent and whether all were. *)
Fixpoint stream_loop (fuel : nat) (chunk : Z) (file : list byte) (remaining : Z) : list byte * bool :=
  match fuel with
  | O => ([], remaining <=? 0)
  | S fuel' =>
      if remaining <=? 0 then ([], true)
      else
        let requested := Z.min chunk remaining in
        if zlen file <? requested then ([], false)
        else
          let '(sent, ok) := stream_loop fuel' chunk (zdrop requested file) (remaining - requested) in
          (ztake requested file ++ sent, ok)
  end.

Definition kStreamChunkBytes : Z := 1024 * 1024.

Definition handleGetBreakdown (path : string) (block_size read_offset read_length : Z) (d : Files) : list byte * bool :=
  let '(off, len) := if read_length <=? 0 then (0, block_size) else (read_offset, read_length) in
  match d !! path with
  | None => ([], false)
  | Some file => stream_loop (Z.to_nat len) (Z.min kStreamChunkBytes len) (zdrop off file) len
  end.

(** Reads up to [block_size] bytes into an uninitialised buffer [junk]. *)
Definition handleGet (path : string) (block_size : Z) (junk : list byte) (d : Files) : list byte :=
  match d !! path with
  | None => junk
  | Some file => ztake block_size file ++ zdrop (zlen (ztake block_size file)) junk
  end.

(** [None] is [ok = false]; also when the log overruns the buffer. *)
Definition readBlockBytes (path : string) (block_size : Z) (d : Files) : option (list byte) :=
  if block_size <=? 0 then None
  else
    match d !! path with
    | None => None
    | Some file =>
        if zlen file =? 0 then None
        else if zlen file =? block_size then Some file
        else deserialize_into file (zrepeat x00 block_size)
    end.

Definition handleDelete (path : string) (d : Files) : Files := delete path d.

(** * Stripe merge *)

(** [remote] is what [readBlockBytes] of the peer answers, when a peer is named. *)
Definition handleStripeMergeParity (path_a path_b path_new : string) (block_size : Z) (coeff : byte)
    (remote : option (list byte)) (d : Files) : option Files :=
  match d !! path_a with
  | None => None
  | Some file_a =>
      match (if zlen file_a =? block_size then Some file_a else deserialize_into file_a (zrepeat x00 block_size)) with
      | None => None
      | Some buf_a =>
          let loaded_b :=
            match d !! path_b with
            | Some file_b => if zlen file_b =? block_size then Some file_b
                             else deserialize_into file_b (zrepeat x00 block_size)
            | None => match remote with
                      | Some data => if zlen data =? block_size then Some data else None
                      | None => None
                      end
            end in
          match loaded_b with
          | None => None
          | Some buf_b =>
              Some (<[path_new := map (fun i => buf_a.[i] ⊕ gf_mul coeff buf_b.[i]) (zseq block_size)]> d)
          end
      end
  end.

(** * Recovery writes *)

(** [handleSet], pushed or pulled, publishes atomically. *)
Definition handleSet (fault : WriteFault) (path tmp : string) (buf : list byte) (d : Files) : bool * list Files :=
  write_block_file_atomic fault path tmp buf d.

(** The one-shot recovery: [received] is what arrived before the stream ended;
    the file is truncated and rewritten in any case. *)
Definition handleRecovery (BlockSize : Z) (path : string) (received : list byte) (d : Files) : bool * list Files :=
  let buf := received ++ zrepeat x00 (BlockSize - zlen received) in
  (zlen received =? BlockSize, [d; <[path := []]> d; <[path := ztake BlockSize buf]> d]).

(** Only chunks that arrived completely are written. *)
Definition whole_chunks (recovery_size : Z) (received : list byte) : list byte :=
  let chunk := Z.min kStreamChunkBytes recovery_size in ztake (zlen received / chunk * chunk) received.

(** Streaming a whole block through a temporary file. *)
Definition handleRecoveryFull (BlockSize : Z) (rename_ok : bool) (path tmp : string) (received : list byte) (d : Files)
  : bool * list Files :=
  let d1 := <[tmp := []]> d in
  if zlen received =? BlockSize then
    let d2 := <[tmp := received]> d1 in
    if rename_ok then (true, [d; d1; d2; <[path := received]> (delete tmp d2)])
    else (false, [d; d1; d2; delete tmp d2])
  else let d2 := <[tmp := whole_chunks BlockSize received]> d1 in (false, [d; d1; d2; delete tmp d2]).

(** [open(O_CREAT)], [ftruncate] up to the block size, [pwrite] of the chunks
    that arrived completely. *)
Definition presized (BlockSize : Z) (file : list byte) : list byte :=
  file ++ zrepeat x00 (BlockSize - zlen file).

Definition write_range (BlockSize : Z) (path : string) (off : Z) (data : list byte) (d : Files) : Files :=
  <[path := write_at off data (presized BlockSize (default [] (d !! path)))]> d.

(** * What readers see *)

(** A concurrent reader sees the old file or the complete new one. *)
Lemma atomic_write_visible fault path tmp data d d' p : p <> tmp -> path <> tmp ->
  d' ∈ snd (write_block_file_atomic fault path tmp data d) ->
  d' !! p = d !! p \/ (p = path /\ d' !! p = Some data).
Proof.
  intros Hp Hpath. destruct fault as [| |w [|]|w [|]|[|]]; cbn [write_block_file_atomic snd remove_tmp]; rewrite !elem_of_cons, elem_of_nil;
    intros Hd; destruct_or?; subst; try tauto; try (left; simplify_map_eq; reflexivity).
  destruct (decide (p = path)) as [->|Hne]; [right; split; [reflexivity|]|left]; simplify_map_eq; reflexivity.
Qed.

Lemma atomic_write_final fault path tmp data d : path <> tmp ->
  let '(ok, states) := write_block_file_atomic fault path tmp data d in
  (ok = true <-> fault = NoFault) /\
  final states d !! path = (if ok then Some data else d !! path) /\
  forall p, p <> tmp -> p <> path -> final states d !! p = d !! p.
Proof.
  intros Hne. destruct fault as [| |w [|]|w [|]|[|]]; cbn [write_block_file_atomic final last default id from_option remove_tmp];
    (split; [split; intros; (reflexivity || discriminate)|]); split; intros; simplify_map_eq; reflexivity.
Qed.

(** * Positional writes *)

Lemma write_at_len off data file : 0 <= off -> zlen (write_at off data file) = Z.max (zlen file) (off + zlen data).
Proof.
  intros Ho. unfold write_at, ztake, zdrop, zrepeat. rewrite !length_app, length_take, length_drop, length_app, length_replicate.
  lia.
Qed.

Lemma write_at_get off data file i : 0 <= off -> 0 <= i ->
  (write_at off data file).[i] =
  if (off <=? i) && (i <? off + zlen data) then data.[i - off]
  else if i <? zlen file then file.[i] else x00.
Proof.
  intros Ho Hi. unfold write_at.
  assert (Hl : zlen (ztake off (file ++ zrepeat x00 (off - zlen file))) = off).
  { unfold ztake, zrepeat. rewrite length_take, length_app, length_replicate. lia. }
  rewrite zget_app by lia. rewrite Hl. destruct (Z.leb_spec off i) as [H1|H1]; cbn [andb].
  - destruct (Z.ltb_spec i off); [lia|]. rewrite zget_app by lia. destruct (Z.ltb_spec (i - off) (zlen data)).
    + destruct (Z.ltb_spec i (off + zlen data)); [reflexivity|lia].
    + destruct (Z.ltb_spec i (off + zlen data)); [lia|]. destruct (Z.ltb_spec i (zlen file)).
      * rewrite zget_zdrop by lia. f_equal. lia.
      * rewrite zget_ge; [reflexivity|]. unfold zdrop. rewrite length_drop. lia.
  - destruct (Z.ltb_spec i off); [|lia]. rewrite zget_ztake, zget_app by lia.
    destruct (Z.ltb_spec i (zlen file)); [reflexivity|]. apply zget_zrepeat. lia.
Qed.

(** * The slice log *)

Definition slice_ok (s : ParitySlice) : Prop :=
  - 2 ^ 31 <= slice_offset s < 2 ^ 31 /\ slice_size s < 2 ^ 31 /\ slice_size s = zlen (slice_bytes s).

Lemma ztake_app_exact {A} (l l' : list A) n : n = zlen l -> ztake n (l ++ l') = l.
Proof. intros ->. unfold ztake. rewrite Nat2Z.id. apply take_app_length. Qed.

Lemma zdrop_app_exact {A} (l l' : list A) n : n = zlen l -> zdrop n (l ++ l') = l'.
Proof. intros ->. unfold zdrop. rewrite Nat2Z.id. apply drop_app_length. Qed.

Lemma slice_record_len s : slice_ok s -> zlen (slice_record s) = 8 + slice_size s.
Proof.
  intros (_ & _ & Hs). unfold slice_record. rewrite !length_app, !int_to_bytes_len. unfold ztake. rewrite length_take. lia.
Qed.

Lemma read_slice_record s rest : slice_ok s -> read_slice (slice_record s ++ rest) = Some (s, rest).
Proof.
  intros Hok. pose proof (slice_record_len s Hok) as Hlen. destruct Hok as (Ho & Hm & Hs).
  assert (Hb : ztake (slice_size s) (slice_bytes s) = slice_bytes s).
  { unfold ztake. apply take_ge. lia. }
  unfold slice_record in *. rewrite Hb in Hlen |- *. clear Hb.
  set (o := int_to_bytes (slice_offset s)) in *. set (z := int_to_bytes (slice_size s)) in *.
  assert (Lo : 4 = zlen o) by reflexivity. assert (Lz : 4 = zlen z) by reflexivity.
  assert (Vo : bytes_to_int o = slice_offset s) by (apply bytes_to_int_to_bytes; lia).
  assert (Vz : bytes_to_int z = slice_size s) by (apply bytes_to_int_to_bytes; lia).
  clearbody o z. rewrite <- !app_assoc. unfold read_slice.
  rewrite (ztake_app_exact o _ 4 Lo), (zdrop_app_exact o _ 4 Lo), (ztake_app_exact z _ 4 Lz), Vo, Vz.
  rewrite !length_app in *. zcases.
  assert (E8 : zdrop 8 (o ++ z ++ slice_bytes s ++ rest) = slice_bytes s ++ rest).
  { rewrite (app_assoc o z). apply zdrop_app_exact. rewrite length_app. lia. }
  rewrite E8, ztake_app_exact by lia.
  replace (zdrop (8 + slice_size s) (o ++ z ++ slice_bytes s ++ rest)) with rest.
  - destruct s; reflexivity.
  - symmetry. replace (o ++ z ++ slice_bytes s ++ rest) with ((o ++ z ++ slice_bytes s) ++ rest) by (rewrite <- !app_assoc; reflexivity).
    apply zdrop_app_exact. rewrite !length_app. lia.
Qed.

Lemma deserialize_loop_records ss : Forall slice_ok ss -> forall fuel,
  (length (concat (map slice_record ss)) <= fuel)%nat ->
  deserialize_loop fuel (concat (map slice_record ss)) = Some ss.
Proof.
  induction 1 as [|s ss Hs _ IH]; intros fuel Hf; cbn [map concat] in *.
  { destruct fuel; reflexivity. }
  pose proof (slice_record_len s Hs) as Hlen. destruct Hs as (Ho & Hm & Hz).
  rewrite length_app in Hf. destruct fuel as [|fuel]; [lia|].
  destruct (slice_record s ++ concat (map slice_record ss)) as [|b l] eqn:E.
  { apply (f_equal length) in E. rewrite length_app in E. cbn in E. lia. }
  cbn [deserialize_loop]. rewrite <- E, read_slice_record by (repeat split; lia). rewrite IH by lia. reflexivity.
Qed.

(** Appending slices and reading the log back. *)
Lemma serialize_roundtrip path ss d : Forall slice_ok ss -> d !! path = None ->
  deserialize (default [] (fold_left (fun d s => serialize path s d) ss d !! path)) = Some ss.
Proof.
  intros Hok Hd.
  assert (Hlog : forall ss d, default [] (fold_left (fun d s => serialize path s d) ss d !! path) =
                         default [] (d !! path) ++ concat (map slice_record ss)).
  { induction ss0 as [|s ss0 IH]; intros d0; cbn [fold_left map concat]; [rewrite app_nil_r; reflexivity|].
    rewrite IH. unfold serialize at 1. rewrite lookup_insert_eq. cbn [from_option id]. rewrite <- app_assoc. reflexivity. }
  rewrite Hlog, Hd. cbn [from_option id app]. apply deserialize_loop_records; [exact Hok|]. apply Nat.le_refl.
Qed.

(** * Merging *)

(** What a slice adds to byte [i] of the block. *)
Definition slice_at (s : ParitySlice) (i : Z) : byte :=
  if (slice_offset s <=? i) && (i <? slice_offset s + slice_size s) then (slice_bytes s).[i - slice_offset s] else x00.

Definition slices_at (ss : list ParitySlice) (i : Z) : byte := fold_right (fun s acc => slice_at s i ⊕ acc) x00 ss.

Lemma slices_at_perm ss ss' i : ss ≡ₚ ss' -> slices_at ss i = slices_at ss' i.
Proof.
  unfold slices_at. induction 1 as [|x l l' Hp IH|x y l|l l1 l2 H1 IH1 H2 IH2]; cbn [fold_right].
  - reflexivity.
  - rewrite IH. reflexivity.
  - ring.
  - etransitivity; eassumption.
Qed.

Lemma slices_at_app ss ss' i : slices_at (ss ++ ss') i = slices_at ss i ⊕ slices_at ss' i.
Proof.
  unfold slices_at. induction ss as [|s ss IH]; cbn [app fold_right].
  - symmetry. apply bxor_0_l.
  - rewrite IH. ring.
Qed.

Lemma merge_slice_spec BS s buf : 0 <= slice_offset s -> 0 <= slice_size s -> slice_offset s + slice_size s <= BS ->
  zlen buf = BS ->
  exists buf', merge_slice BS s buf = Some buf' /\ zlen buf' = BS /\
    forall i, 0 <= i < BS -> buf'.[i] = buf.[i] ⊕ slice_at s i.
Proof.
  intros Ho Hs Hb Hl. unfold merge_slice.
  match goal with |- context [for_exit 0 _ ?body buf] =>
    destruct (for_exit_total (fun j b => zlen b = BS /\ forall i, 0 <= i < BS -> b.[i] =
      buf.[i] ⊕ (if (slice_offset s <=? i) && (i <? slice_offset s + j) then (slice_bytes s).[i - slice_offset s] else x00))
      0 (slice_size s) body buf) as (buf' & -> & H1 & H2); [lia| | |exists buf'; auto]
  end.
  - split; [exact Hl|]. intros i Hi. replace ((slice_offset s <=? i) && (i <? slice_offset s + 0)) with false.
    + symmetry. apply bxor_0_r.
    + symmetry. apply andb_false_iff. destruct (Z.leb_spec (slice_offset s) i); [right; apply Z.ltb_ge; lia|left; reflexivity].
  - intros j b Hj [Lb Hbv]. destruct (Z.ltb_spec (slice_offset s + j) BS); [|lia].
    eexists. split; [reflexivity|]. split; [rewrite zlen_zset; exact Lb|]. intros i Hi.
    destruct (Z.eq_dec i (slice_offset s + j)) as [->|Hne].
    + rewrite zget_zset_eq by lia. rewrite Hbv by lia.
      replace (slice_offset s + j - slice_offset s) with j by lia. zcases. rewrite bxor_0_r. reflexivity.
    + rewrite zget_zset_ne, Hbv by lia. f_equal.
      destruct (Z.leb_spec (slice_offset s) i); cbn [andb]; [|reflexivity].
      destruct (Z.ltb_spec i (slice_offset s + j)), (Z.ltb_spec i (slice_offset s + (j + 1))); try lia; reflexivity.
Qed.

Definition slice_in (BS : Z) (s : ParitySlice) : Prop :=
  0 <= slice_offset s /\ 0 <= slice_size s /\ slice_offset s + slice_size s <= BS.

Lemma merge_slices_spec BS ss : forall buf, Forall (slice_in BS) ss -> zlen buf = BS ->
  exists buf', merge_slices BS ss buf = Some buf' /\ zlen buf' = BS /\
    forall i, 0 <= i < BS -> buf'.[i] = buf.[i] ⊕ slices_at ss i.
Proof.
  induction ss as [|s ss IH]; intros buf Hin Hl; cbn [merge_slices].
  { exists buf. split; [reflexivity|]. split; [exact Hl|]. intros i Hi. symmetry. apply bxor_0_r. }
  apply Forall_cons in Hin as [(H1 & H2 & H3) Hin].
  destruct (merge_slice_spec BS s buf H1 H2 H3 Hl) as (b1 & -> & L1 & V1).
  destruct (IH b1 Hin L1) as (b2 & -> & L2 & V2). exists b2. split; [reflexivity|]. split; [exact L2|].
  intros i Hi. rewrite V2, V1 by lia. cbn [slices_at fold_right]. fold (slices_at ss i). ring.
Qed.

(** Merging the log of a parity block leaves the XOR of its slices. *)
Lemma handleMergeParity_spec BS path ss d : 0 <= BS < 2 ^ 31 -> Forall slice_ok ss -> Forall (slice_in BS) ss ->
  d !! path = Some (concat (map slice_record ss)) ->
  exists block, handleMergeParity BS path d = Some (<[path := block]> d) /\ zlen block = BS /\
    forall i, 0 <= i < BS -> block.[i] = slices_at ss i.
Proof.
  intros HB Hok Hin Hd. unfold handleMergeParity. rewrite Hd. unfold deserialize.
  rewrite deserialize_loop_records by (auto; lia).
  destruct (merge_slices_spec BS ss (zrepeat x00 BS) Hin) as (b & -> & L & V); [apply zlen_zrepeat; lia|].
  exists b. split; [reflexivity|]. split; [exact L|]. intros i Hi. rewrite V, zget_zrepeat by lia. apply bxor_0_l.
Qed.

(** * Streaming *)

Lemma stream_loop_spec chunk fuel : 1 <= chunk -> forall file remaining,
  0 <= remaining <= Z.of_nat fuel ->
  if remaining <=? zlen file then stream_loop fuel chunk file remaining = (ztake remaining file, true)
  else snd (stream_loop fuel chunk file remaining) = false.
Proof.
  intros Hc. induction fuel as [|fuel IH]; intros file remaining Hr.
  { replace remaining with 0 by lia. destruct (Z.leb_spec 0 (zlen file)); [reflexivity|lia]. }
  cbn [stream_loop]. destruct (Z.leb_spec remaining 0) as [H0|H0].
  { replace remaining with 0 by lia. destruct (Z.leb_spec 0 (zlen file)); [reflexivity|lia]. }
  set (req := Z.min chunk remaining). assert (Hreq : 1 <= req <= remaining) by (unfold req; lia).
  destruct (Z.ltb_spec (zlen file) req) as [Hs|Hs].
  { destruct (Z.leb_spec remaining (zlen file)); [lia|reflexivity]. }
  specialize (IH (zdrop req file) (remaining - req) ltac:(lia)).
  assert (Hl : zlen (zdrop req file) = zlen file - req) by (rewrite zlen_zdrop by lia; lia). rewrite Hl in IH.
  destruct (Z.leb_spec remaining (zlen file)), (Z.leb_spec (remaining - req) (zlen file - req)); try lia.
  - rewrite IH. f_equal. unfold ztake, zdrop.
    replace (Z.to_nat remaining) with (Z.to_nat req + Z.to_nat (remaining - req))%nat by lia.
    apply take_take_drop.
  - destruct (stream_loop fuel chunk _ _) as [sent ok]. cbn [snd] in *. exact IH.
Qed.

(** A range read delivers the range exactly when the file has it. *)
Lemma handleGetBreakdown_spec path block_size off len d file : d !! path = Some file -> 0 <= off -> 1 <= len ->
  let r := handleGetBreakdown path block_size off len d in
  (off + len <= zlen file -> r = (ztake len (zdrop off file), true)) /\ (zlen file < off + len -> snd r = false).
Proof.
  intros Hf Ho Hl r. unfold r, handleGetBreakdown. destruct (Z.leb_spec len 0); [lia|]. rewrite Hf.
  pose proof (stream_loop_spec (Z.min kStreamChunkBytes len) (Z.to_nat len)
                ltac:(unfold kStreamChunkBytes; lia) (zdrop off file) len ltac:(lia)) as H0.
  rewrite zlen_zdrop in H0 by lia. destruct (Z.leb_spec len (Z.max 0 (zlen file - off))).
  - split; [intros _; exact H0|lia].
  - split; [lia|intros _; exact H0].
Qed.
