(* ===== verification/RangeCommit.v ===== *)
(** The barrier that publishes a block recovered in several ranges:
    [coordinate_hybrid_range_commit] and the range mode of
    [handleRecoveryBreakdown] in [datanode.cpp].  The handler threads of one
    commit key run as an interleaving of their critical sections; the abstract
    machine they implement publishes the block in one step once every range is
    durable. *)
From S2P Require Import Prelude GF256 DataNode.
From stdpp Require Import functions.
#[local] Open Scope Z_scope.

(** * The shared state of a commit key *)

(** [HybridRangeCommitState] without the clock value and the condition variable. *)
Record HybridRangeCommitState := {
  arrived : Z;
  waiters : Z;
  all_parts_ok : bool;
  commit_done : bool;
  commit_ok : bool }.

Definition fresh_commit : HybridRangeCommitState :=
  {| arrived := 0; waiters := 0; all_parts_ok := true; commit_done := false; commit_ok := false |}.

(** The critical section at the entry: the new state, and whether this part is
    the last. *)
Definition commit_arrive (expected_parts : Z) (this_part_ok : bool) (slot : option HybridRangeCommitState)
  : HybridRangeCommitState * bool :=
  let st := default fresh_commit slot in
  let st := {| arrived := arrived st + 1; waiters := waiters st + 1;
               all_parts_ok := all_parts_ok st && this_part_ok; commit_done := commit_done st;
               commit_ok := commit_ok st |} in
  (st, arrived st =? expected_parts).

(** [commit_ok = ok; commit_done = true;] by the last part or by a timeout. *)
Definition commit_decide (ok : bool) (st : HybridRangeCommitState) : HybridRangeCommitState :=
  {| arrived := arrived st; waiters := waiters st; all_parts_ok := all_parts_ok st; commit_done := true;
     commit_ok := ok |}.

(** [waiters--], erasing the slot with the last waiter; the result of the call. *)
Definition commit_leave (st : HybridRangeCommitState) : bool * option HybridRangeCommitState :=
  let st' := {| arrived := arrived st; waiters := waiters st - 1; all_parts_ok := all_parts_ok st;
                commit_done := commit_done st; commit_ok := commit_ok st |} in
  (commit_ok st, if (waiters st' =? 0) && commit_done st' then None else Some st').

(** [rename] and [fsync] of the directory, outside the lock; the temporary file
    is removed unless all went well. *)
Definition publish (should_commit rename_ok fsync_ok : bool) (temp final : string) (d : Files) : bool * Files :=
  let '(publish_ok, d) :=
    match should_commit && rename_ok, d !! temp with
    | true, Some bytes => (fsync_ok, <[final := bytes]> (delete temp d))
    | _, _ => (false, d)
    end in
  (publish_ok, if publish_ok then d else delete temp d).

(** * Interleaving *)

(** Where a handler thread is; [Streaming w] has written [w] bytes of its range. *)
Inductive Phase :=
| Streaming (wrote : Z)
| Waiting
| Publishing (should_commit : bool)
| Published (publish_ok : bool)
| Returned (ok : bool).

(** [g_durable] and [g_members] are ghost: the parts that reported success, and
    the parts that arrived since the slot was created. *)
Record CommitWorld := {
  slot : option HybridRangeCommitState;
  phase : nat -> Phase;
  disk : Files;
  g_durable : gset nat;
  g_members : gset nat }.

(** The sum of a function over a list. *)
Definition total (f : nat -> nat) (l : list nat) : nat := fold_right (fun i acc => f i + acc)%nat O l.

Lemma total_mono f g l : (forall i, i ∈ l -> (f i <= g i)%nat) -> (total f l <= total g l)%nat.
Proof.
  induction l as [|i l IH]; intros H; cbn [total fold_right]; [lia|].
  specialize (IH ltac:(intros j Hj; apply H; set_solver)). specialize (H i ltac:(set_solver)). unfold total in IH. lia.
Qed.

Lemma total_lt f g l i : i ∈ l -> (f i < g i)%nat -> (forall j, j <> i -> f j = g j) -> (total f l < total g l)%nat.
Proof.
  intros Hi Hlt Heq. assert (Hle : forall j, (f j <= g j)%nat).
  { intros j. destruct (decide (j = i)) as [->|Hji]; [lia|]. rewrite (Heq j Hji). lia. }
  induction l as [|x l IH]; [set_solver|]. cbn [total fold_right]. fold (total f l) (total g l).
  apply elem_of_cons in Hi as [<-|Hi].
  - pose proof (total_mono f g l ltac:(auto)). lia.
  - specialize (IH Hi). specialize (Hle x). lia.
Qed.

Section Commit.
Context (BlockSize : Z) (temp final : string) (n : nat).
(** The ranges, and the block whose bytes they carry. *)
Context (part_off part_len : nat -> Z) (target : list byte).

Definition parts : gset nat := set_seq 0 n.

Inductive commit_step (w : CommitWorld) : CommitWorld -> Prop :=
| c_write i wrote m : i ∈ parts -> phase w i = Streaming wrote -> 1 <= m -> wrote + m <= part_len i ->
    commit_step w {| slot := slot w; phase := <[i := Streaming (wrote + m)]> (phase w);
                     disk := write_range BlockSize temp (part_off i + wrote)
                               (ztake m (zdrop (part_off i + wrote) target)) (disk w);
                     g_durable := g_durable w; g_members := g_members w |}
| c_arrive i wrote ok st last : i ∈ parts -> phase w i = Streaming wrote -> (ok = true -> wrote = part_len i) ->
    commit_arrive (Z.of_nat n) ok (slot w) = (st, last) ->
    commit_step w {| slot := Some st; disk := disk w;
                     phase := <[i := if last then Publishing (all_parts_ok st) else Waiting]> (phase w);
                     g_durable := if ok then {[i]} ∪ g_durable w else g_durable w;
                     g_members := {[i]} ∪ (if slot w then g_members w else ∅) |}
| c_publish i should rename_ok fsync_ok ok d : i ∈ parts -> phase w i = Publishing should ->
    publish should rename_ok fsync_ok temp final (disk w) = (ok, d) ->
    commit_step w {| slot := slot w; phase := <[i := Published ok]> (phase w); disk := d;
                     g_durable := g_durable w; g_members := g_members w |}
| c_finish i st ok r s' : i ∈ parts -> phase w i = Published ok -> slot w = Some st ->
    commit_leave (commit_decide ok st) = (r, s') ->
    commit_step w {| slot := s'; phase := <[i := Returned r]> (phase w); disk := disk w;
                     g_durable := g_durable w; g_members := g_members w |}
| c_timeout i st r s' : i ∈ parts -> phase w i = Waiting -> slot w = Some st -> commit_done st = false ->
    commit_leave (commit_decide false st) = (r, s') ->
    commit_step w {| slot := s'; phase := <[i := Returned r]> (phase w); disk := disk w;
                     g_durable := g_durable w; g_members := g_members w |}
| c_wake i st r s' : i ∈ parts -> phase w i = Waiting -> slot w = Some st -> commit_done st = true ->
    commit_leave st = (r, s') ->
    commit_step w {| slot := s'; phase := <[i := Returned r]> (phase w); disk := disk w;
                     g_durable := g_durable w; g_members := g_members w |}.

Definition commit_start (d : Files) : CommitWorld :=
  {| slot := None; phase := fun _ => Streaming 0; disk := d; g_durable := ∅; g_members := ∅ |}.

(** * The abstract machine *)

(** The published file and the ranges that are durable. *)
Record AbstractBlock := { a_file : option (list byte); a_parts : gset nat }.

Inductive abstract_step (a : AbstractBlock) : AbstractBlock -> Prop :=
| a_part i : i ∈ parts -> abstract_step a {| a_file := a_file a; a_parts := {[i]} ∪ a_parts a |}
| a_publish : parts ⊆ a_parts a -> abstract_step a {| a_file := Some target; a_parts := a_parts a |}.

Definition abstraction (w : CommitWorld) : AbstractBlock :=
  {| a_file := disk w !! final; a_parts := g_durable w |}.

(** * Invariant *)

Definition is_active (p : Phase) : bool :=
  match p with Waiting | Publishing _ | Published _ => true | _ => false end.

(** The threads inside the call. *)
Definition active (w : CommitWorld) : gset nat := filter (fun i => is_active (phase w i) = true) parts.

(** How much of its range a part has certainly written. *)
Definition progress (w : CommitWorld) (i : nat) : Z :=
  match phase w i with
  | Streaming wrote => wrote
  | _ => if bool_decide (i ∈ g_durable w) then part_len i else 0
  end.

(** The temporary file is in use: someone streams, or is about to publish. *)
Definition in_use (w : CommitWorld) : Prop :=
  (exists i wrote, i ∈ parts /\ phase w i = Streaming wrote) \/ (exists i b, i ∈ parts /\ phase w i = Publishing b).

Definition temp_good (w : CommitWorld) : Prop :=
  match disk w !! temp with
  | Some file => zlen file = BlockSize /\
      forall i x, i ∈ parts -> part_off i <= x < part_off i + progress w i -> file.[x] = target.[x]
  | None => forall i, i ∈ parts -> progress w i <= 0
  end.

Record commit_inv (d0 : Files) (w : CommitWorld) : Prop := {
  ci_stream : forall i wrote, i ∈ parts -> phase w i = Streaming wrote -> 0 <= wrote <= part_len i /\ i ∉ g_durable w;
  ci_slot : match slot w with
            | Some st => arrived st = Z.of_nat (size (g_members w)) /\ waiters st = Z.of_nat (size (active w)) /\
                g_members w ⊆ parts /\ (forall i wrote, i ∈ g_members w -> phase w i <> Streaming wrote) /\
                (all_parts_ok st = true -> g_members w ⊆ g_durable w) /\
                (commit_ok st = true -> disk w !! final = Some target)
            | None => active w = ∅
            end;
  ci_publishing : forall i b, i ∈ parts -> phase w i = Publishing b ->
    match slot w with Some st => arrived st = Z.of_nat n | None => False end /\ (b = true -> parts ⊆ g_durable w);
  ci_unique : forall i j b c, i ∈ parts -> j ∈ parts -> phase w i = Publishing b -> phase w j = Publishing c -> i = j;
  ci_temp : in_use w -> temp_good w;
  ci_file : disk w !! final = d0 !! final \/ disk w !! final = Some target;
  ci_verdict : forall i, i ∈ parts -> phase w i = Published true \/ phase w i = Returned true ->
    disk w !! final = Some target }.

Context (Hn : (2 <= n)%nat) (Hne : temp <> final) (HB : 0 <= BlockSize) (Htarget : zlen target = BlockSize).
Context (Hranges : forall i, i ∈ parts -> 0 <= part_off i /\ 0 <= part_len i /\ part_off i + part_len i <= BlockSize).
Context (Hcover : forall x, 0 <= x < BlockSize -> exists i, i ∈ parts /\ part_off i <= x < part_off i + part_len i).

Lemma parts_size : size parts = n.
Proof. unfold parts. rewrite <- list_to_set_seq, size_list_to_set by apply NoDup_seq. apply length_seq. Qed.

Lemma start_inv d0 : d0 !! temp = None -> commit_inv d0 (commit_start d0).
Proof.
  intros Ht. split; cbn [commit_start slot phase disk g_durable g_members].
  - intros i wrote Hi [= <-]. pose proof (Hranges i Hi). split; [lia|set_solver].
  - unfold active. apply set_eq. intros i. rewrite elem_of_filter. cbn. split; [intros [? _]; discriminate|set_solver].
  - intros i b _ [=].
  - intros i j b c _ _ [=].
  - intros _. unfold temp_good. cbn [commit_start disk]. rewrite Ht. intros i _. reflexivity.
  - left. reflexivity.
  - intros i _ [[=]|[=]].
Qed.

(** ** Steps of one thread *)

Lemma active_update w i p slot' disk' dur mem :
  i ∈ parts ->
  active {| slot := slot'; phase := <[i := p]> (phase w); disk := disk'; g_durable := dur; g_members := mem |} =
  if is_active p then {[i]} ∪ active w else active w ∖ {[i]}.
Proof.
  intros Hi. apply set_eq. intros j. unfold active. cbn [phase].
  destruct (decide (j = i)) as [->|Hji].
  - rewrite elem_of_filter, fn_lookup_insert. destruct (is_active p); set_solver.
  - rewrite elem_of_filter, fn_lookup_insert_ne by congruence.
    destruct (is_active p); rewrite ?elem_of_union, ?elem_of_difference, elem_of_filter; set_solver.
Qed.

Lemma active_in w i p : i ∈ parts -> phase w i = p -> is_active p = true -> i ∈ active w.
Proof. intros Hi Hp Ha. apply elem_of_filter. rewrite Hp. auto. Qed.

Lemma active_out w i p : phase w i = p -> is_active p = false -> i ∉ active w.
Proof. intros Hp Ha H. apply elem_of_filter in H as [H _]. congruence. Qed.

(** Writing bytes of the block at their place. *)
Lemma write_target off m f0 : zlen f0 = BlockSize -> 0 <= off -> 0 <= m -> off + m <= BlockSize ->
  let f := write_at off (ztake m (zdrop off target)) f0 in
  zlen f = BlockSize /\
  forall x, 0 <= x -> f.[x] = if (off <=? x) && (x <? off + m) then target.[x] else f0.[x].
Proof.
  intros L0 Ho Hm Hle f. assert (Ld : zlen (ztake m (zdrop off target)) = m).
  { unfold ztake, zdrop. rewrite length_take, length_drop. lia. }
  split; [unfold f; rewrite write_at_len, L0, Ld by lia; lia|].
  intros x Hx. unfold f. rewrite write_at_get, Ld by lia.
  destruct ((off <=? x) && (x <? off + m)) eqn:E.
  - apply andb_prop in E as [E1 E2]. rewrite zget_ztake, zget_zdrop by lia. f_equal. lia.
  - destruct (Z.ltb_spec x (zlen f0)); [reflexivity|]. rewrite zget_ge by lia. reflexivity.
Qed.

Lemma presized_good w : temp_good w ->
  let f0 := presized BlockSize (default [] (disk w !! temp)) in
  zlen f0 = BlockSize /\
  forall i x, i ∈ parts -> part_off i <= x < part_off i + progress w i -> f0.[x] = target.[x].
Proof.
  unfold temp_good, presized. destruct (disk w !! temp) as [f|]; cbn [from_option id].
  - intros [H1 H2]. rewrite H1, Z.sub_diag. cbn [zrepeat Z.to_nat replicate]. rewrite app_nil_r. auto.
  - intros H. cbn [app length Z.of_nat]. rewrite Z.sub_0_r. split; [apply zlen_zrepeat; lia|].
    intros i x Hi Hx. specialize (H i Hi). lia.
Qed.

Lemma write_temp_good w i wrote m slot' : temp_good w -> i ∈ parts -> phase w i = Streaming wrote -> 0 <= wrote -> 0 <= m ->
  wrote + m <= part_len i ->
  temp_good {| slot := slot'; phase := <[i := Streaming (wrote + m)]> (phase w);
               disk := write_range BlockSize temp (part_off i + wrote)
                         (ztake m (zdrop (part_off i + wrote) target)) (disk w);
               g_durable := g_durable w; g_members := g_members w |}.
Proof.
  intros Hg Hi Hp Hw Hm Hle. apply presized_good in Hg as [L0 V0]. pose proof (Hranges i Hi) as (Ho & Hl & Hb).
  unfold temp_good. cbn [disk]. unfold write_range. rewrite lookup_insert_eq.
  destruct (write_target (part_off i + wrote) m _ L0 ltac:(lia) Hm ltac:(lia)) as [L1 V1].
  split; [exact L1|]. intros j x Hj Hx. pose proof (Hranges j Hj) as (Hoj & _). rewrite V1 by lia.
  destruct (_ && _) eqn:E; [reflexivity|]. apply (V0 j x Hj). unfold progress in *. cbn [phase g_durable] in Hx.
  destruct (decide (j = i)) as [->|Hji].
  - rewrite fn_lookup_insert in Hx. rewrite Hp.
    destruct (Z.leb_spec (part_off i + wrote) x), (Z.ltb_spec x (part_off i + wrote + m)); try discriminate; lia.
  - rewrite fn_lookup_insert_ne in Hx by congruence. exact Hx.
Qed.

(** A thread that streams before and after a step is in none of the other phases. *)
Lemma streaming_other w i v j p : (forall u, p <> Streaming u) -> <[i := Streaming v]> (phase w) j = p -> phase w j = p.
Proof.
  intros Hs. destruct (decide (j = i)) as [->|Hji].
  - rewrite fn_lookup_insert. intros E. destruct (Hs _ (eq_sym E)).
  - rewrite fn_lookup_insert_ne by congruence. auto.
Qed.

Lemma write_inv d0 w i wrote m : commit_inv d0 w -> i ∈ parts -> phase w i = Streaming wrote -> 0 <= m ->
  wrote + m <= part_len i ->
  commit_inv d0 {| slot := slot w; phase := <[i := Streaming (wrote + m)]> (phase w);
                   disk := write_range BlockSize temp (part_off i + wrote)
                             (ztake m (zdrop (part_off i + wrote) target)) (disk w);
                   g_durable := g_durable w; g_members := g_members w |}.
Proof.
  intros [I1 I2 I3 I4 I5 I6 I7] Hi Hp Hm Hle. pose proof (I1 i wrote Hi Hp) as [Hw Hnd].
  assert (Hfin : forall off data d, write_range BlockSize temp off data d !! final = d !! final).
  { intros. unfold write_range. apply lookup_insert_ne. exact Hne. }
  split; cbn [slot phase disk g_durable g_members]; rewrite ?Hfin.
  - intros j v Hj E. destruct (decide (j = i)) as [->|Hji].
    + rewrite fn_lookup_insert in E. injection E as <-. split; [lia|exact Hnd].
    + rewrite fn_lookup_insert_ne in E by congruence. apply I1; assumption.
  - pose proof (active_out w i _ Hp eq_refl) as Hact. rewrite active_update by exact Hi. cbn [is_active].
    replace (active w ∖ {[i]}) with (active w) by set_solver.
    destruct (slot w) as [st|]; [|exact I2]. destruct I2 as (A1 & A2 & A3 & A4 & A5 & A6).
    repeat split; auto. intros j v Hj E. destruct (decide (j = i)) as [->|Hji]; [exact (A4 i wrote Hj Hp)|].
    rewrite fn_lookup_insert_ne in E by congruence. exact (A4 j v Hj E).
  - intros j b Hj E. apply (streaming_other w i) in E; [|discriminate]. exact (I3 j b Hj E).
  - intros j j' b c Hj Hj' E E'. apply (streaming_other w i) in E; [|discriminate]. apply (streaming_other w i) in E'; [|discriminate]. eapply I4; eassumption.
  - intros _. apply write_temp_good; auto; [|lia]. apply I5. left. exists i, wrote. auto.
  - exact I6.
  - intros j Hj E. apply (I7 j Hj). destruct E as [E|E]; apply (streaming_other w i) in E; try discriminate; auto.
Qed.

Lemma temp_good_mono w w' : disk w' !! temp = disk w !! temp ->
  (forall i, i ∈ parts -> progress w' i <= progress w i) -> temp_good w -> temp_good w'.
Proof.
  intros Hd Hp. unfold temp_good. rewrite Hd. destruct (disk w !! temp) as [f|].
  - intros [H1 H2]. split; [exact H1|]. intros i x Hi Hx. apply (H2 i x Hi). specialize (Hp i Hi). lia.
  - intros H i Hi. specialize (H i Hi). specialize (Hp i Hi). lia.
Qed.

Lemma all_members (M : gset nat) : M ⊆ parts -> Z.of_nat (size M) = Z.of_nat n -> M = parts.
Proof. intros H1 H2. apply set_eq, set_subseteq_size_equiv; [exact H1|]. rewrite parts_size. lia. Qed.

(** The parts that have arrived in the life of the current slot. *)
Definition members (w : CommitWorld) : gset nat := if slot w then g_members w else ∅.

Lemma members_spec d0 w : commit_inv d0 w ->
  members w ⊆ parts /\ forall i v, i ∈ members w -> phase w i <> Streaming v.
Proof.
  intros Hinv. pose proof (ci_slot _ _ Hinv) as H. unfold members.
  destruct (slot w); [split; apply H|split; [|intros i v Hi]; set_solver].
Qed.

Lemma arrive_state d0 w ok st last : commit_inv d0 w -> commit_arrive (Z.of_nat n) ok (slot w) = (st, last) ->
  arrived st = Z.of_nat (size (members w)) + 1 /\ waiters st = Z.of_nat (size (active w)) + 1 /\
  (all_parts_ok st = true -> ok = true /\ members w ⊆ g_durable w) /\
  (commit_ok st = true -> disk w !! final = Some target) /\ last = (arrived st =? Z.of_nat n).
Proof.
  intros Hinv E. pose proof (ci_slot _ _ Hinv) as I2. unfold commit_arrive in E. injection E as <- <-.
  cbn [arrived waiters all_parts_ok commit_ok]. unfold members. destruct (slot w) as [st0|]; cbn [from_option id].
  - destruct I2 as (A1 & A2 & _ & _ & A5 & A6). split; [lia|]. split; [lia|]. split; [|auto].
    intros H. apply andb_prop in H as [H1 H2]. auto.
  - rewrite I2, size_empty. cbn. repeat split; auto; try discriminate; set_solver.
Qed.

(** While somebody streams nobody publishes. *)
Lemma streaming_no_publisher d0 w i v j b : commit_inv d0 w -> i ∈ parts -> phase w i = Streaming v -> j ∈ parts ->
  phase w j <> Publishing b.
Proof.
  intros Hinv Hi Hp Hj Ej. destruct (ci_publishing _ _ Hinv j b Hj Ej) as [H3 _].
  pose proof (ci_slot _ _ Hinv) as I2. destruct (slot w) as [st0|]; [|exact H3].
  destruct I2 as (A1 & _ & A3 & A4 & _). rewrite A1 in H3. apply (A4 i v); [|exact Hp].
  rewrite (all_members _ A3 H3). exact Hi.
Qed.

Lemma arrive_progress w i wrote ok p slot' mem j : phase w i = Streaming wrote -> (ok = true -> wrote = part_len i) ->
  0 <= wrote -> i ∉ g_durable w -> is_active p = true ->
  progress {| slot := slot'; disk := disk w; phase := <[i := p]> (phase w); g_members := mem;
              g_durable := if ok then {[i]} ∪ g_durable w else g_durable w |} j <= progress w j.
Proof.
  intros Hp Hok Hw Hnd Ha. unfold progress. cbn [phase g_durable]. destruct (decide (j = i)) as [->|Hji].
  - rewrite fn_lookup_insert, Hp. destruct p; try discriminate; (case_bool_decide as Hc; [|lia]);
      (destruct ok; [rewrite Hok by reflexivity; lia|contradiction]).
  - rewrite fn_lookup_insert_ne by congruence. destruct (phase w j); try lia;
      (rewrite (bool_decide_ext _ (j ∈ g_durable w)); [lia|]); destruct ok; set_solver.
Qed.

Lemma arrive_inv d0 w i wrote ok st last : commit_inv d0 w -> i ∈ parts -> phase w i = Streaming wrote ->
  (ok = true -> wrote = part_len i) -> commit_arrive (Z.of_nat n) ok (slot w) = (st, last) ->
  commit_inv d0 {| slot := Some st; disk := disk w;
                   phase := <[i := if last then Publishing (all_parts_ok st) else Waiting]> (phase w);
                   g_durable := if ok then {[i]} ∪ g_durable w else g_durable w;
                   g_members := {[i]} ∪ (if slot w then g_members w else ∅) |}.
Proof.
  intros Hinv Hi Hp Hok E. destruct (arrive_state d0 w ok st last Hinv E) as (S1 & S2 & S3 & S4 & S5).
  destruct (members_spec d0 w Hinv) as [HM HMs]. fold (members w).
  assert (Hnopub : forall j b, j ∈ parts -> phase w j <> Publishing b) by
    (intros j b; apply (streaming_no_publisher d0 w i wrote j b Hinv Hi Hp)).
  destruct Hinv as [I1 I2 I3 I4 I5 I6 I7]. pose proof (I1 i wrote Hi Hp) as [Hw Hnd].
  set (p := if last then _ else _). assert (Hact : is_active p = true) by (unfold p; destruct last; reflexivity).
  assert (HiM : i ∉ members w) by (intros H; exact (HMs i wrote H Hp)).
  assert (Hadd : forall X : gset nat, i ∉ X -> Z.of_nat (size ({[i]} ∪ X)) = Z.of_nat (size X) + 1).
  { intros X HX. rewrite size_union, size_singleton by set_solver. lia. }
  assert (Hother : forall j q, is_active q = false -> <[i := p]> (phase w) j = q -> j <> i /\ phase w j = q).
  { intros j q Hq. destruct (decide (j = i)) as [->|Hji]; [rewrite fn_lookup_insert; congruence|].
    rewrite fn_lookup_insert_ne by congruence. auto. }
  assert (Hpub : forall j b, j ∈ parts -> <[i := p]> (phase w) j = Publishing b -> j = i).
  { intros j b Hj. destruct (decide (j = i)) as [|Hji]; [auto|]. rewrite fn_lookup_insert_ne by congruence.
    intros Ej. destruct (Hnopub j b Hj Ej). }
  split; cbn [slot phase disk g_durable g_members].
  - intros j v Hj Ej. apply Hother in Ej as [Hji Ej]; [|reflexivity]. destruct (I1 j v Hj Ej). split; [assumption|].
    destruct ok; set_solver.
  - rewrite active_update, Hact, !Hadd by (exact Hi || exact HiM || exact (active_out w i _ Hp eq_refl)).
    repeat split; auto; [set_solver| |intros Ha; destruct (S3 Ha) as [-> Hsub]; set_solver].
    intros j v Hj Ej. apply Hother in Ej as [Hji Ej]; [|reflexivity]. apply (HMs j v); [set_solver|exact Ej].
  - intros j b Hj Ej. pose proof (Hpub j b Hj Ej) as ->. rewrite fn_lookup_insert in Ej.
    unfold p in Ej. destruct last; [|discriminate]. injection Ej as <-.
    symmetry in S5. apply Z.eqb_eq in S5. split; [exact S5|]. intros Ha. destruct (S3 Ha) as [-> Hsub].
    rewrite <- (all_members ({[i]} ∪ members w)); [set_solver|set_solver|]. rewrite Hadd by exact HiM. lia.
  - intros j j' b c Hj Hj' Ej Ej'. rewrite (Hpub j b Hj Ej), (Hpub j' c Hj' Ej'). reflexivity.
  - intros _. apply (temp_good_mono w); [reflexivity| |apply I5; left; exists i, wrote; auto].
    intros j _. apply arrive_progress with wrote; auto; lia.
  - exact I6.
  - intros j Hj Ej. apply (I7 j Hj). destruct Ej as [Ej|Ej]; [|apply Hother in Ej; tauto].
    destruct (decide (j = i)) as [->|Hji]; [rewrite fn_lookup_insert in Ej; unfold p in Ej; destruct last; discriminate|].
    rewrite fn_lookup_insert_ne in Ej by congruence. auto.
Qed.

(** When the last part publishes, nobody streams, and the file is complete. *)
Lemma publishing_state d0 w i b : commit_inv d0 w -> i ∈ parts -> phase w i = Publishing b ->
  (forall j v, j ∈ parts -> phase w j <> Streaming v) /\
  (b = true -> parts ⊆ g_durable w /\ forall bytes, disk w !! temp = Some bytes -> bytes = target).
Proof.
  intros [I1 I2 I3 I4 I5 I6 I7] Hi Hp. destruct (I3 i b Hi Hp) as [Hn1 Hall].
  assert (Hs : forall j v, j ∈ parts -> phase w j <> Streaming v).
  { intros j v Hj. destruct (slot w) as [st|]; [|contradiction]. destruct I2 as (A1 & _ & A3 & A4 & _).
    apply A4. rewrite A1 in Hn1. rewrite (all_members _ A3 Hn1). exact Hj. }
  split; [exact Hs|]. intros Hb. specialize (Hall Hb). split; [exact Hall|]. intros bytes Ht.
  assert (Hg : temp_good w) by (apply I5; right; exists i, b; auto).
  unfold temp_good in Hg. rewrite Ht in Hg. destruct Hg as [Hl Hv]. apply zlist_ext; [lia|]. intros x Hx.
  destruct (Hcover x ltac:(lia)) as (j & Hj & Hr). apply (Hv j x Hj). unfold progress.
  destruct (phase w j) eqn:Ej; [destruct (Hs j _ Hj Ej)|..]; rewrite bool_decide_eq_true_2 by (apply Hall, Hj); exact Hr.
Qed.

(** The published file is only ever replaced by the complete block. *)
Lemma publish_effect d0 w i should rename_ok fsync_ok ok d : commit_inv d0 w -> i ∈ parts ->
  phase w i = Publishing should -> publish should rename_ok fsync_ok temp final (disk w) = (ok, d) ->
  (d !! final = disk w !! final \/ (d !! final = Some target /\ parts ⊆ g_durable w)) /\
  (ok = true -> d !! final = Some target).
Proof.
  intros Hinv Hi Hp E. destruct (publishing_state d0 w i should Hinv Hi Hp) as [_ Hb]. unfold publish in E.
  destruct (should && rename_ok) eqn:Es.
  - apply andb_prop in Es as [-> ->]. destruct (Hb eq_refl) as [Hall Ht].
    destruct (disk w !! temp) as [bytes|] eqn:Et; [rewrite (Ht bytes eq_refl) in E|];
      destruct fsync_ok; injection E as <- <-; simplify_map_eq; auto; split; auto; discriminate.
  - injection E as <- <-. simplify_map_eq. split; [auto|discriminate].
Qed.

Lemma publish_inv d0 w i should rename_ok fsync_ok ok d : commit_inv d0 w -> i ∈ parts ->
  phase w i = Publishing should -> publish should rename_ok fsync_ok temp final (disk w) = (ok, d) ->
  commit_inv d0 {| slot := slot w; phase := <[i := Published ok]> (phase w); disk := d;
                   g_durable := g_durable w; g_members := g_members w |}.
Proof.
  intros Hinv Hi Hp E. destruct (publishing_state d0 w i should Hinv Hi Hp) as [Hs _].
  destruct (publish_effect d0 w i should rename_ok fsync_ok ok d Hinv Hi Hp E) as [Hf Hok].
  assert (Hkeep : disk w !! final = Some target -> d !! final = Some target).
  { intros H. destruct Hf as [->|[-> _]]; auto. }
  destruct Hinv as [I1 I2 I3 I4 I5 I6 I7].
  assert (Hother : forall j q, j <> i -> <[i := Published ok]> (phase w) j = q -> phase w j = q).
  { intros j q Hj. rewrite fn_lookup_insert_ne by congruence. auto. }
  assert (Hnew : forall j q, j ∈ parts -> <[i := Published ok]> (phase w) j = q ->
            (forall v, q <> Streaming v) /\ (forall b, q <> Publishing b)).
  { intros j q Hj. destruct (decide (j = i)) as [->|Hji]; [rewrite fn_lookup_insert; intros <-; split; discriminate|].
    intros Eq. apply Hother in Eq; [|exact Hji]. subst q. split; [intros v; apply Hs, Hj|].
    intros b Eb. apply Hji. eapply I4; eassumption. }
  split; cbn [slot phase disk g_durable g_members].
  - intros j v Hj Ej. apply Hnew in Ej as [H _]; [|exact Hj]. destruct (H v eq_refl).
  - rewrite active_update by exact Hi. cbn [is_active]. pose proof (active_in w i _ Hi Hp eq_refl).
    replace ({[i]} ∪ active w) with (active w) by set_solver.
    destruct (slot w) as [st|]; [|exact I2]. destruct I2 as (A1 & A2 & A3 & A4 & A5 & A6).
    repeat split; auto. intros j v Hj Ej. apply Hnew in Ej as [H' _]; [|apply A3, Hj]. destruct (H' v eq_refl).
  - intros j b Hj Ej. apply Hnew in Ej as [_ H]; [|exact Hj]. destruct (H b eq_refl).
  - intros j j' b c Hj Hj' Ej. apply Hnew in Ej as [_ H]; [|exact Hj]. destruct (H b eq_refl).
  - intros [(j & v & Hj & Ej)|(j & b & Hj & Ej)]; apply Hnew in Ej as [H1 H2]; auto; [destruct (H1 v eq_refl)|destruct (H2 b eq_refl)].
  - destruct Hf as [->|[-> _]]; auto.
  - intros j Hj Ej. destruct (decide (j = i)) as [->|Hji].
    + rewrite fn_lookup_insert in Ej. destruct Ej as [[= ->]|[=]]. auto.
    + apply Hkeep, (I7 j Hj). destruct Ej as [Ej|Ej]; apply Hother in Ej; auto.
Qed.

(** A thread leaves the call with the verdict of the state it holds. *)
Lemma leave_inv d0 w i st st1 r s' : commit_inv d0 w -> i ∈ parts ->
  phase w i = Waiting \/ (exists ok, phase w i = Published ok) -> slot w = Some st ->
  arrived st1 = arrived st -> waiters st1 = waiters st -> all_parts_ok st1 = all_parts_ok st ->
  (commit_ok st1 = true -> disk w !! final = Some target) -> commit_leave st1 = (r, s') ->
  commit_inv d0 {| slot := s'; phase := <[i := Returned r]> (phase w); disk := disk w;
                   g_durable := g_durable w; g_members := g_members w |}.
Proof.
  intros [I1 I2 I3 I4 I5 I6 I7] Hi Hp Hslot E1 E2 E3 Hok E. rewrite Hslot in *.
  destruct I2 as (A1 & A2 & A3 & A4 & A5 & A6).
  assert (Hai : i ∈ active w) by (destruct Hp as [Hp|[ok Hp]]; eapply active_in; eauto).
  assert (Hother : forall j q, (forall b, q <> Returned b) -> <[i := Returned r]> (phase w) j = q -> j <> i /\ phase w j = q).
  { intros j q Hq. destruct (decide (j = i)) as [->|Hji]; [rewrite fn_lookup_insert; intros Ej; destruct (Hq r (eq_sym Ej))|].
    rewrite fn_lookup_insert_ne by congruence. auto. }
  assert (Hsize : Z.of_nat (size (active w ∖ {[i]})) = waiters st - 1).
  { assert (Hsub : {[i]} ⊆ active w) by set_solver. pose proof (subseteq_size _ _ Hsub) as Hle.
    rewrite A2, size_difference by exact Hsub. rewrite size_singleton in *. lia. }
  unfold commit_leave in E. cbn [waiters commit_done] in E. rewrite E2 in E. injection E as Er Es.
  assert (Hempty : s' = None -> active w ∖ {[i]} = ∅).
  { intros ->. destruct (Z.eqb_spec (waiters st - 1) 0); cbn [andb] in Es; [|discriminate].
    apply leibniz_equiv, size_empty_inv. lia. }
  split; cbn [slot phase disk g_durable g_members].
  - intros j v Hj Ej. apply Hother in Ej as [_ Ej]; [|discriminate]. apply I1; assumption.
  - rewrite active_update by exact Hi. cbn [is_active]. destruct s' as [st'|]; [|apply Hempty; reflexivity].
    destruct (_ && _); [discriminate|]. injection Es as <-. cbn [arrived waiters all_parts_ok commit_ok].
    rewrite E1, E3. repeat split; auto. intros j v Hj Ej. apply Hother in Ej as [_ Ej]; [|discriminate]. exact (A4 j v Hj Ej).
  - intros j b Hj Ej. apply Hother in Ej as [Hji Ej]; [|discriminate]. destruct (I3 j b Hj Ej) as [Hn1 Hd].
    split; [|exact Hd]. destruct s' as [st'|].
    + destruct (_ && _); [discriminate|]. injection Es as <-. cbn [arrived]. lia.
    + pose proof (active_in w j _ Hj Ej eq_refl). specialize (Hempty eq_refl). set_solver.
  - intros j j' b c Hj Hj' Ej Ej'. apply Hother in Ej as [_ Ej]; [|discriminate]. apply Hother in Ej' as [_ Ej']; [|discriminate].
    eapply I4; eassumption.
  - intros Hu. apply (temp_good_mono w); [reflexivity| |].
    + intros j Hj. unfold progress. cbn [phase g_durable]. destruct (decide (j = i)) as [->|Hji].
      * rewrite fn_lookup_insert. destruct Hp as [->|[ok ->]]; lia.
      * rewrite fn_lookup_insert_ne by congruence. lia.
    + apply I5. destruct Hu as [(j & v & Hj & Ej)|(j & b & Hj & Ej)]; cbn [phase] in Ej;
        (apply Hother in Ej as [_ Ej]; [|discriminate]); [left|right]; eauto.
  - exact I6.
  - intros j Hj Ej. destruct (decide (j = i)) as [->|Hji].
    + rewrite fn_lookup_insert in Ej. destruct Ej as [[=]|[= Ej]]. apply Hok. congruence.
    + apply (I7 j Hj). rewrite fn_lookup_insert_ne in Ej by congruence. exact Ej.
Qed.

Lemma commit_step_inv d0 w w' : commit_inv d0 w -> commit_step w w' -> commit_inv d0 w'.
Proof.
  intros Hinv Hstep. destruct Hstep as [i wrote m Hi Hp Hm Hle|i wrote ok st last Hi Hp Hok E|i b ro fo ok d Hi Hp E
    |i st ok r s' Hi Hp Hs E|i st r s' Hi Hp Hs Hd E|i st r s' Hi Hp Hs Hd E].
  - apply (write_inv d0 w i wrote m Hinv Hi Hp); lia.
  - exact (arrive_inv d0 w i wrote ok st last Hinv Hi Hp Hok E).
  - exact (publish_inv d0 w i b ro fo ok d Hinv Hi Hp E).
  - apply (leave_inv d0 w i st (commit_decide ok st)); eauto. cbn [commit_decide commit_ok]. intros ->.
    apply (ci_verdict _ _ Hinv i Hi). left. exact Hp.
  - apply (leave_inv d0 w i st (commit_decide false st)); eauto. discriminate.
  - apply (leave_inv d0 w i st st); eauto. pose proof (ci_slot _ _ Hinv) as H. rewrite Hs in H. apply H.
Qed.

(** Every step is a step of the abstract machine or changes nothing it sees. *)
Lemma commit_simulation d0 w w' : commit_inv d0 w -> commit_step w w' ->
  abstraction w' = abstraction w \/ abstract_step (abstraction w) (abstraction w').
Proof.
  intros Hinv Hstep. destruct Hstep as [i wrote m Hi Hp Hm Hle|i wrote ok st last Hi Hp Hok E|i b ro fo ok d Hi Hp E
    |i st ok r s' Hi Hp Hs E|i st r s' Hi Hp Hs Hd E|i st r s' Hi Hp Hs Hd E]; unfold abstraction; cbn [disk g_durable];
    try (left; reflexivity).
  - left. unfold write_range. rewrite lookup_insert_ne by exact Hne. reflexivity.
  - destruct ok; [right|left; reflexivity]. exact (a_part {| a_file := disk w !! final; a_parts := g_durable w |} i Hi).
  - destruct (publish_effect d0 w i b ro fo ok d Hinv Hi Hp E) as [[->|[-> Hall]] _]; [left; reflexivity|right].
    exact (a_publish {| a_file := disk w !! final; a_parts := g_durable w |} Hall).
Qed.

Lemma commit_run_inv d0 w : d0 !! temp = None -> rtc commit_step (commit_start d0) w ->
  commit_inv d0 w /\ rtc abstract_step (abstraction (commit_start d0)) (abstraction w).
Proof.
  intros Ht Hrun. apply rtc_ind_r with (P := fun w => commit_inv d0 w /\
    rtc abstract_step (abstraction (commit_start d0)) (abstraction w)) in Hrun; [exact Hrun| |].
  - split; [apply start_inv, Ht|apply rtc_refl].
  - intros y z _ Hstep [Hinv Hsim]. split; [eapply commit_step_inv; eassumption|].
    destruct (commit_simulation d0 y z Hinv Hstep) as [->|Ha]; [exact Hsim|eapply rtc_r; eassumption].
Qed.

(** A slot has a waiter: the last one to leave erases it. *)
Definition slot_waited (w : CommitWorld) : Prop := match slot w with Some st => waiters st <> 0 | None => True end.

Lemma leave_waited st r s' : commit_done st = true -> commit_leave st = (r, s') ->
  match s' with Some st' => waiters st' <> 0 | None => True end.
Proof.
  intros Hd [= _ <-]. cbn [waiters commit_done]. rewrite Hd, andb_true_r. destruct (Z.eqb_spec (waiters st - 1) 0); [exact I|assumption].
Qed.

Lemma commit_step_waited d0 w w' : commit_inv d0 w -> slot_waited w -> commit_step w w' -> slot_waited w'.
Proof.
  intros Hinv Hw Hstep. destruct Hstep as [i wrote m Hi Hp Hm Hle|i wrote ok st last Hi Hp Hok E|i b ro fo ok d Hi Hp E
    |i st ok r s' Hi Hp Hs E|i st r s' Hi Hp Hs Hd E|i st r s' Hi Hp Hs Hd E]; unfold slot_waited in *; cbn [slot]; try exact Hw.
  - destruct (arrive_state d0 w ok st last Hinv E) as (_ & -> & _). lia.
  - eapply leave_waited; [|exact E]; reflexivity.
  - eapply leave_waited; [|exact E]; reflexivity.
  - eapply leave_waited; [exact Hd|exact E].
Qed.

(** Once all threads have returned the slot is gone. *)
Lemma commit_slot_gone d0 w : d0 !! temp = None -> rtc commit_step (commit_start d0) w ->
  (forall i, i ∈ parts -> exists r, phase w i = Returned r) -> slot w = None.
Proof.
  intros Ht Hrun Hall. apply rtc_ind_r with (P := fun w => commit_inv d0 w /\ slot_waited w) in Hrun.
  - destruct Hrun as [Hinv Hw]. pose proof (ci_slot _ _ Hinv) as Hs. unfold slot_waited in Hw. destruct (slot w) as [st|]; [|reflexivity].
    destruct Hs as (_ & Hs & _). destruct Hw. rewrite Hs. replace (active w) with (∅ : gset nat); [rewrite size_empty; reflexivity|].
    symmetry. apply set_eq. intros i. unfold active. rewrite elem_of_filter. split; [|set_solver]. intros [Ha Hi].
    destruct (Hall i Hi) as [r Hr]. rewrite Hr in Ha. discriminate.
  - split; [apply start_inv, Ht|exact I].
  - intros y z _ Hstep [Hinv Hw]. split; [eapply commit_step_inv; eassumption|eapply commit_step_waited; eassumption].
Qed.

(** No thread is ever stuck before it returns. *)
Lemma commit_progress d0 w i : commit_inv d0 w -> i ∈ parts -> (forall r, phase w i <> Returned r) ->
  exists w', commit_step w w' /\ phase w' i <> phase w i.
Proof.
  intros Hinv Hi Hr. assert (Hslot : is_active (phase w i) = true -> exists st, slot w = Some st).
  { intros Ha. pose proof (ci_slot _ _ Hinv) as H. destruct (slot w) as [st|]; [eauto|].
    pose proof (active_in w i _ Hi eq_refl Ha). set_solver. }
  destruct (phase w i) as [wrote| |b|ok|r] eqn:Hp.
  - destruct (commit_arrive (Z.of_nat n) false (slot w)) as [st last] eqn:E.
    eexists. split; [eapply (c_arrive w i wrote false); [exact Hi|exact Hp|discriminate|exact E]|].
    cbn [phase]. rewrite fn_lookup_insert. destruct last; discriminate.
  - destruct (Hslot eq_refl) as [st Hs]. destruct (commit_done st) eqn:Hd.
    + destruct (commit_leave st) as [r s'] eqn:E.
      eexists. split; [eapply (c_wake w i st); eassumption|]. cbn [phase]. rewrite fn_lookup_insert. discriminate.
    + destruct (commit_leave (commit_decide false st)) as [r s'] eqn:E.
      eexists. split; [eapply (c_timeout w i st); eassumption|]. cbn [phase]. rewrite fn_lookup_insert. discriminate.
  - destruct (publish b true true temp final (disk w)) as [ok d] eqn:E.
    eexists. split; [eapply (c_publish w i b); eassumption|]. cbn [phase]. rewrite fn_lookup_insert. discriminate.
  - destruct (Hslot eq_refl) as [st Hs]. destruct (commit_leave (commit_decide ok st)) as [r s'] eqn:E.
    eexists. split; [eapply (c_finish w i st ok); eassumption|]. cbn [phase]. rewrite fn_lookup_insert. discriminate.
  - destruct (Hr r eq_refl).
Qed.

(** ** Termination *)

(** What a thread still has to do: the bytes of its range and the stages of the call. *)
Definition todo (w : CommitWorld) (i : nat) : nat :=
  match phase w i with
  | Streaming wrote => Z.to_nat (part_len i - wrote) + 4
  | Publishing _ => 3
  | Published _ => 2
  | Waiting => 1
  | Returned _ => 0
  end.

Lemma todo_lt w i p s' d' dur mem : i ∈ parts ->
  (todo {| slot := s'; phase := <[i := p]> (phase w); disk := d'; g_durable := dur; g_members := mem |} i < todo w i)%nat ->
  (total (todo {| slot := s'; phase := <[i := p]> (phase w); disk := d'; g_durable := dur; g_members := mem |}) (seq 0 n)
   < total (todo w) (seq 0 n))%nat.
Proof.
  intros Hi Hlt. apply (total_lt _ _ _ i); [|exact Hlt|].
  - unfold parts in Hi. apply elem_of_set_seq in Hi. apply elem_of_seq. lia.
  - intros j Hj. unfold todo. cbn [phase]. rewrite fn_lookup_insert_ne by congruence. reflexivity.
Qed.

Lemma commit_step_todo w w' : commit_step w w' -> (total (todo w') (seq 0 n) < total (todo w) (seq 0 n))%nat.
Proof.
  intros [i wrote m Hi Hp Hm Hle|i wrote ok st last Hi Hp Hok E|i b ro fo ok d Hi Hp E
    |i st ok r s' Hi Hp Hs E|i st r s' Hi Hp Hs Hd E|i st r s' Hi Hp Hs Hd E];
    apply todo_lt; auto; unfold todo; cbn [phase]; rewrite fn_lookup_insert, Hp; try lia.
  destruct last; lia.
Qed.

Lemma commit_steps_bound m w w' : nsteps commit_step m w w' ->
  (m + total (todo w') (seq 0 n) <= total (todo w) (seq 0 n))%nat.
Proof. induction 1 as [|m x y z Hs _ IH]; [lia|]. apply commit_step_todo in Hs. lia. Qed.
End Commit.
