(* ===== verification/ProxyAppend.v ===== *)
(** The proxy's part of a write ([proxy.cpp], [scheduleAppend2Datanode]): receive
    a cluster's part, cut it along the plan, store each slice on its data node,
    merge the parity logs of a full stripe, report to the coordinator. *)
From S2P Require Import Prelude GF256 RepairPlan Toolbox Placement Coordinator DataNode.

(** The storage directories, by the address of the data node. *)
Abbreviation Storage := (gmap (string * Z) Files).
Definition files_at (ip : string) (port : Z) (st : Storage) : Files := default ∅ (st !! (ip, port)).

(** The data nodes write without a fault; [tmp] names their temporary files. *)
Definition AppendToDatanode (k : Z) (tmp : string -> string) (p : PlanSlice) (is_serialized : bool) (slice : list byte) (st : Storage)
  : Storage :=
  let info := {| append_block_key := ps_key p; append_block_id := ps_block_id p; append_offset := ps_offset p;
                 append_is_serialized := is_serialized |} in
  <[(ps_ip p, ps_port p) := handleAppend k NoFault (tmp (ps_key p)) info slice (files_at (ps_ip p) (ps_port p) st)]> st.

(** [None]: the data node's process ends.  For another mode the exception is
    thrown and caught here. *)
Definition MergeParityOnDatanode (BlockSize : Z) (append_mode : string) (p : PlanSlice) (st : Storage) : option Storage :=
  if String.eqb append_mode "UNILRC_MODE" || String.eqb append_mode "CACHED_MODE" then
    match handleMergeParity BlockSize (ps_key p) (files_at (ps_ip p) (ps_port p) st) with
    | None => None
    | Some d => Some (<[(ps_ip p, ps_port p) := d]> st)
    end
  else Some st.

Fixpoint merge_parities (BlockSize k : Z) (append_mode : string) (slices : list PlanSlice) (st : Storage) : option Storage :=
  match slices with
  | [] => Some st
  | p :: rest =>
      if ps_block_id p >=? k then
        match MergeParityOnDatanode BlockSize append_mode p st with
        | None => None
        | Some st => merge_parities BlockSize k append_mode rest st
        end
      else merge_parities BlockSize k append_mode rest st
  end.

(** The senders, each with its slice; they address different files. *)
Definition append_all (k : Z) (tmp : string -> string) (is_serialized : bool) (slices : list PlanSlice) (bytes : list (list byte)) (st : Storage)
  : Storage :=
  fold_left (fun st '(p, slice) => AppendToDatanode k tmp p is_serialized slice st) (combine slices bytes) st.

(** [append_and_save] of a plan's thread, [received] being what the connection it
    accepted carried: the bytes that arrived before the end of the stream, in a
    buffer of zeros.  [None]: an assertion fails or a data node ends. *)
Definition append_and_save (cfg : SysConfig) (tmp : string -> string) (plan : AppendPlan) (received : list byte) (st : Storage)
  : option Storage :=
  let size := plan_append_size plan in
  let append_buf := ztake size received ++ zrepeat x00 (size - zlen received) in
  let sizes := map ps_size (plan_slices plan) in
  match splitCharPointer size sizes with
  | None => None
  | Some ptrs =>
      let bytes := map (fun '(p, len) => ztake len (zdrop p append_buf)) (combine ptrs sizes) in
      let st := append_all (cfg_k cfg) tmp (plan_is_serialized plan) (plan_slices plan) bytes st in
      if plan_is_merge_parity plan then merge_parities (BlockSize (settings cfg)) (cfg_k cfg) (plan_append_mode plan) (plan_slices plan) st
      else Some st
  end.

(** Where the client connects for each plan of a reply. *)
Definition reply_addresses (reply : Reply) : list (string * Z) := combine (proxyips reply) (proxyports reply).

(** [acceptor.accept].  The threads of all plans of a proxy accept on the proxy's
    one acceptor, and a connection does not say which plan it is for: [(i, j)]
    stands for the thread of plan [i] that got the connection made for plan [j],
    in the order in which the threads run.  Each thread gets one connection, each
    connection one thread, and both are at the same address. *)
Record accepts_at (addresses : list (string * Z)) (accepted : list (Z * Z)) : Prop := {
  ac_threads : map fst accepted ≡ₚ zseq (zlen addresses);
  ac_connections : map snd accepted ≡ₚ zseq (zlen addresses);
  ac_address : Forall (fun '(i, j) => addresses !! Z.to_nat i = addresses !! Z.to_nat j) accepted }.

(** Every thread got the connection made for its plan. *)
Definition own_parts (accepted : list (Z * Z)) : Prop := Forall (fun '(i, j) => i = j) accepted.

(** The threads of an upload's plans. *)
Fixpoint run_proxies (cfg : SysConfig) (tmp : string -> string) (plans : list AppendPlan) (parts : list (list byte))
    (accepted : list (Z * Z)) (st : Storage) : option Storage :=
  match accepted with
  | [] => Some st
  | (i, j) :: accepted =>
      match plans !! Z.to_nat i with
      | None => None
      | Some plan =>
          match append_and_save cfg tmp plan parts.[j] st with
          | None => None
          | Some st => run_proxies cfg tmp plans parts accepted st
          end
      end
  end.

(** The reports that follow. *)
Definition report_all (unset : ObjectInfo) (plans : list AppendPlan) (c : Coordinator) : Coordinator :=
  fold_left (fun c p => reportCommitAbort unset (plan_key p) APPEND (plan_stripe_id p) true c) plans c.

(** * Which part a plan gets *)

(** Where the proxies of all plans have addresses of their own, no part goes to
    another plan. *)
Lemma separate_own addresses accepted : NoDup addresses -> accepts_at addresses accepted -> own_parts accepted.
Proof.
  intros Hnd [A1 A2 A3]. unfold own_parts. rewrite Forall_forall in *. intros [i j] Hij. specialize (A3 _ Hij). cbn beta iota in A3.
  assert (Hi : i ∈ zseq (zlen addresses)) by (rewrite <- A1; apply list_elem_of_In, (in_map fst accepted (i, j)), list_elem_of_In, Hij).
  assert (Hj : j ∈ zseq (zlen addresses)) by (rewrite <- A2; apply list_elem_of_In, (in_map snd accepted (i, j)), list_elem_of_In, Hij).
  apply elem_of_seqZ in Hi, Hj. destruct (lookup_lt_is_Some_2 addresses (Z.to_nat i)) as [a Ea]; [lia|].
  pose proof (NoDup_lookup _ _ _ _ Hnd Ea (eq_trans (eq_sym A3) Ea)). lia.
Qed.

Lemma own_pairs accepted : own_parts accepted -> accepted = map (fun i => (i, i)) (map fst accepted).
Proof.
  unfold own_parts. intros H. induction H as [|[i j] l -> Hl IH]; [reflexivity|]. cbn [map fst]. rewrite <- IH. reflexivity.
Qed.

(** In-order acceptance is always possible. *)
Definition in_order (n : Z) : list (Z * Z) := map (fun i => (i, i)) (zseq n).

Lemma in_order_own n : own_parts (in_order n).
Proof. apply Forall_forall. intros p Hp. apply list_elem_of_In, in_map_iff in Hp as (i & <- & _). reflexivity. Qed.

Lemma in_order_accepts addresses : accepts_at addresses (in_order (zlen addresses)).
Proof.
  unfold in_order. split; [rewrite map_map, map_id; reflexivity..|]. apply Forall_forall. intros p Hp. apply list_elem_of_In, in_map_iff in Hp as (i & <- & _). reflexivity.
Qed.
