(* ===== verification/BufferLayout.v ===== *)
(** The client's buffer for a gLRC stripe: the groups one after the other, in each
    its payload and then its local parity.  The pointers [Client.set_stripe]
    computes from the coordinator's reply are those of the blocks in order. *)
From S2P Require Import Prelude Groups RepairPlan Toolbox Coordinator Client DataNode.

(** * Where the blocks are in the buffer *)

Section Layout.
Context (k r z bs : Z) (Hk : 1 <= k) (Hr : 0 <= r) (Hz : 1 <= z) (Hbs : 0 <= bs).
Abbreviation n := (k + r + z).
Abbreviation a g := (payload_start k r z g).
Abbreviation G g := ((glrc_build_placement_groups k r z).[g]).

(** The position of block [b] in the buffer, in blocks: groups one after the
    other, the local parity last in its group. *)
Definition buffer_pos (b : Z) : Z :=
  if b <? k + r then b + glrc_payload_group_id b k r z else a (b - (k + r) + 1) + (b - (k + r)).

Definition buffer_ptr (b : Z) : Z := buffer_pos b * bs.

Lemma start_facts : a 0 = 0 /\ a z = k + r /\ forall g h, g <= h -> a g <= a h.
Proof.
  split; [apply payload_start_0; lia|]. split; [apply payload_start_z; lia|]. intros g h. apply payload_start_mono; lia.
Qed.

Lemma group_of_payload b : 0 <= b < k + r ->
  let g := glrc_payload_group_id b k r z in 0 <= g < z /\ a g <= b < a (g + 1).
Proof. intros Hb. apply (payload_group_id_spec k r z); lia. Qed.

(** Group [g] occupies the positions [a g + g .. a (g + 1) + g]. *)
Lemma pos_payload g b : 0 <= g < z -> a g <= b < a (g + 1) -> buffer_pos b = b + g.
Proof.
  intros Hg Hb. destruct start_facts as (A0 & Az & Am). pose proof (Am 0 g ltac:(lia)). pose proof (Am (g + 1) z ltac:(lia)).
  unfold buffer_pos. destruct (Z.ltb_spec b (k + r)); [|lia]. f_equal. apply payload_group_id_unique; lia.
Qed.

Lemma pos_local g : 0 <= g < z -> buffer_pos (k + r + g) = a (g + 1) + g.
Proof.
  intros Hg. unfold buffer_pos. destruct (Z.ltb_spec (k + r + g) (k + r)); [lia|].
  replace (k + r + g - (k + r)) with g by lia. reflexivity.
Qed.

(** The group and the place in it of every block. *)
Lemma pos_cases b : 0 <= b < n -> exists g, 0 <= g < z /\ a g + g <= buffer_pos b <= a (g + 1) + g /\
  (b < k + r -> a g <= b < a (g + 1) /\ buffer_pos b = b + g) /\
  (k + r <= b -> b = k + r + g /\ buffer_pos b = a (g + 1) + g).
Proof.
  intros Hb. destruct start_facts as (A0 & Az & Am). destruct (Z.lt_ge_cases b (k + r)) as [Hlt|Hge].
  - destruct (group_of_payload b ltac:(lia)) as [Hg Hab]. eexists. split; [exact Hg|].
    pose proof (pos_payload _ b Hg Hab) as E. split; [lia|]. split; [auto|lia].
  - exists (b - (k + r)). pose proof (pos_local (b - (k + r)) ltac:(lia)) as E.
    replace (k + r + (b - (k + r))) with b in E by lia. pose proof (Am (b - (k + r)) (b - (k + r) + 1) ltac:(lia)).
    split; [lia|]. split; [lia|]. split; [lia|]. intros _. split; [lia|exact E].
Qed.

Lemma pos_range b : 0 <= b < n -> 0 <= buffer_pos b < n.
Proof.
  intros Hb. destruct (pos_cases b Hb) as (g & Hg & Hp & _). destruct start_facts as (A0 & Az & Am).
  pose proof (Am 0 g ltac:(lia)). pose proof (Am (g + 1) z ltac:(lia)). lia.
Qed.

Lemma pos_inj b c : 0 <= b < n -> 0 <= c < n -> buffer_pos b = buffer_pos c -> b = c.
Proof.
  intros Hb Hc E. destruct (pos_cases b Hb) as (g & Hg & Hp & P1 & P2), (pos_cases c Hc) as (h & Hh & Hq & Q1 & Q2).
  destruct start_facts as (_ & _ & Am).
  assert (g = h) as <-.
  { destruct (Z.lt_trichotomy g h) as [Hlt|[->|Hlt]]; [|reflexivity|].
    - pose proof (Am (g + 1) h ltac:(lia)). lia.
    - pose proof (Am (h + 1) g ltac:(lia)). lia. }
  destruct (Z.lt_ge_cases b (k + r)), (Z.lt_ge_cases c (k + r)); lia.
Qed.

(** The blocks of a group follow each other. *)
Lemma group_len g : 0 <= g < z -> zlen (G g) = a (g + 1) - a g + 1.
Proof.
  intros Hg. destruct (placement_groups_spec k r z ltac:(lia) Hr Hz) as [_ ->]; [|lia].
  destruct start_facts as (_ & _ & Am). pose proof (Am g (g + 1) ltac:(lia)).
  rewrite length_app. cbn [length]. rewrite Nat2Z.inj_add, zlen_seqZ. lia.
Qed.

Lemma group_pos g j : 0 <= g < z -> 0 <= j < zlen (G g) -> buffer_pos (G g).[j] = a g + g + j.
Proof.
  intros Hg. rewrite group_len by exact Hg. intros Hj. destruct start_facts as (A0 & Az & Am).
  pose proof (Am g (g + 1) ltac:(lia)). destruct (placement_groups_spec k r z ltac:(lia) Hr Hz) as [_ ->]; [|lia].
  rewrite zget_app by lia. rewrite zlen_seqZ. destruct (Z.ltb_spec j (Z.max 0 (a (g + 1) - a g))).
  - assert (E : (seqZ (a g) (a (g + 1) - a g)).[j] = a g + j) by (apply zget_Some; [lia|]; rewrite lookup_seqZ; lia).
    rewrite E, (pos_payload g) by lia. lia.
  - replace (j - Z.max 0 (a (g + 1) - a g)) with 0 by lia. change ([k + r + g].[0]) with (k + r + g).
    rewrite pos_local by exact Hg. lia.
Qed.

Lemma group_ptrs g : 0 <= g < z -> map buffer_ptr (G g) = map (fun j => (a g + g + j) * bs) (zseq (zlen (G g))).
Proof.
  intros Hg. rewrite (list_zget (G g)) at 1. rewrite map_map. apply map_ext_in. intros j Hj. apply in_zseq in Hj.
  unfold buffer_ptr. rewrite group_pos by assumption. reflexivity.
Qed.

(** ** Counts *)

Lemma data_count g : 0 <= g < z -> glrc_data_blocks_in_group g k r z = Z.max 0 (Z.min (a (g + 1)) k - a g).
Proof.
  intros Hg. unfold glrc_data_blocks_in_group. zcases. rewrite payload_start_loop_eq, payload_blocks_eq by lia.
  f_equal. f_equal. f_equal. lia.
Qed.

Lemma global_count g : 0 <= g < z -> glrc_global_blocks_in_group g k r z = Z.max 0 (a (g + 1) - Z.max (a g) k).
Proof.
  intros Hg. unfold glrc_global_blocks_in_group. zcases. rewrite payload_start_loop_eq, payload_blocks_eq by lia. f_equal. lia.
Qed.

(** The data, global and local blocks of the first [h] groups. *)
Definition group_data (g : Z) : list Z := seqZ (a g) (glrc_data_blocks_in_group g k r z).
Definition group_global (g : Z) : list Z := seqZ (Z.max (a g) k) (glrc_global_blocks_in_group g k r z).

Lemma data_upto h : 0 <= h <= z -> concat (map group_data (zseq h)) = zseq (Z.min (a h) k).
Proof.
  destruct start_facts as (A0 & Az & Am). intros [Hh Hle]. revert Hle. pattern h. apply natlike_ind; [| |exact Hh]; clear h Hh.
  - intros _. rewrite A0. replace (Z.min 0 k) with 0 by lia. reflexivity.
  - intros h Hh IH Hle. unfold Z.succ in *. rewrite zseq_snoc, map_app, concat_app, IH by lia. cbn [map concat].
    rewrite app_nil_r. unfold group_data. rewrite data_count by lia. pose proof (Am h (h + 1) ltac:(lia)).
    pose proof (Am 0 h ltac:(lia)).
    destruct (Z.le_gt_cases k (a h)) as [Hge|Hlt].
    + replace (Z.max 0 _) with 0 by lia. replace (Z.min (a (h + 1)) k) with (Z.min (a h) k) by lia. apply app_nil_r.
    + set (d := Z.max 0 _). replace (Z.min (a (h + 1)) k) with (Z.min (a h) k + d) by (unfold d; lia).
      rewrite seqZ_app by (unfold d; lia). replace (0 + Z.min (a h) k) with (a h) by lia. reflexivity.
Qed.

Lemma global_upto h : 0 <= h <= z -> concat (map group_global (zseq h)) = seqZ k (Z.max 0 (a h - k)).
Proof.
  destruct start_facts as (A0 & Az & Am). intros [Hh Hle]. revert Hle. pattern h. apply natlike_ind; [| |exact Hh]; clear h Hh.
  - intros _. rewrite A0. replace (Z.max 0 (0 - k)) with 0 by lia. reflexivity.
  - intros h Hh IH Hle. unfold Z.succ in *. rewrite zseq_snoc, map_app, concat_app, IH by lia. cbn [map concat].
    rewrite app_nil_r. unfold group_global. rewrite global_count by lia. pose proof (Am h (h + 1) ltac:(lia)).
    replace (Z.max 0 (a (h + 1) - k)) with (Z.max 0 (a h - k) + Z.max 0 (a (h + 1) - Z.max (a h) k)) by lia.
    rewrite seqZ_app by lia. replace (k + Z.max 0 (a h - k)) with (Z.max (a h) k) by lia. reflexivity.
Qed.

(** ** Cutting the buffer *)

Lemma group_split g : 0 <= g < z -> let d := glrc_data_blocks_in_group g k r z in
  let gl := glrc_global_blocks_in_group g k r z in
  G g = group_data g ++ group_global g ++ [k + r + g] /\ zlen (group_data g) = d /\ zlen (group_global g) = gl /\
  zlen (G g) = d + gl + 1.
Proof.
  intros Hg d gl. destruct start_facts as (_ & _ & Am). pose proof (Am g (g + 1) ltac:(lia)).
  pose proof (data_count g Hg) as Hd. pose proof (global_count g Hg) as Hgl. fold d in Hd. fold gl in Hgl.
  unfold group_data, group_global. fold d gl. rewrite !zlen_seqZ, group_len by exact Hg.
  split; [|lia]. destruct (placement_groups_spec k r z ltac:(lia) Hr Hz) as [_ ->]; [|lia].
  replace (a (g + 1) - a g) with (d + gl) by lia. rewrite seqZ_app, <- app_assoc by lia. f_equal. f_equal.
  destruct (Z.eq_dec gl 0) as [->|Hne]; [reflexivity|]. f_equal. lia.
Qed.

Definition group_sizes : list Z := map (fun g => zlen (G g) * bs) (zseq z).

Lemma sizes_upto h : 0 <= h <= z -> zsum (map (fun g => zlen (G g) * bs) (zseq h)) = (a h + h) * bs.
Proof.
  destruct start_facts as (A0 & Az & Am). intros [Hh Hle]. revert Hle. pattern h. apply natlike_ind; [| |exact Hh]; clear h Hh.
  - intros _. rewrite A0. reflexivity.
  - intros h Hh IH Hle. unfold Z.succ in *. rewrite zseq_snoc, map_app, zsum_app, IH by lia. cbn [map zsum fold_right].
    rewrite group_len by lia. lia.
Qed.

Lemma ztake_zseq {A} (f : Z -> A) h m : 0 <= h <= m -> ztake h (map f (zseq m)) = map f (zseq h).
Proof.
  intros Hh. unfold ztake. rewrite firstn_map. f_equal. replace m with (h + (m - h)) by lia.
  rewrite seqZ_app by lia. rewrite take_app_length'; [reflexivity|]. rewrite length_seqZ. reflexivity.
Qed.

Lemma starts_ok : splitCharPointer (zsum group_sizes) group_sizes = Some (map (fun g => (a g + g) * bs) (zseq z)).
Proof.
  rewrite splitCharPointer_spec.
  - f_equal. unfold group_sizes at 2. rewrite length_map, zlen_seqZ. replace (Z.max 0 z) with z by lia.
    apply map_ext_in. intros g Hg. apply in_zseq in Hg. unfold group_sizes. rewrite ztake_zseq, sizes_upto by lia. reflexivity.
  - apply Forall_forall. intros x Hx. apply list_elem_of_In, in_map_iff in Hx as (g & <- & Hg). nia.
Qed.

Lemma group_sizes_sum : zsum group_sizes = n * bs.
Proof. unfold group_sizes. rewrite sizes_upto by lia. destruct start_facts as (_ & -> & _). lia. Qed.

(** Equal slices of a part. *)
Lemma split_equal m : 0 <= m -> splitCharPointer (m * bs) (zrepeat bs m) = Some (map (fun j => j * bs) (zseq m)).
Proof.
  intros Hm. rewrite <- (zsum_repeat bs m Hm), splitCharPointer_spec.
  - f_equal. rewrite zlen_zrepeat by lia. apply map_ext_in. intros j Hj. apply in_zseq in Hj.
    unfold ztake, zrepeat. rewrite take_replicate. replace (Z.to_nat j `min` Z.to_nat m)%nat with (Z.to_nat j) by lia.
    apply (zsum_repeat bs j). lia.
  - apply Forall_replicate. exact Hbs.
Qed.

Lemma split_cluster_ok g : 0 <= g < z ->
  split_cluster bs ((a g + g) * bs) (zlen (G g) * bs) (glrc_data_blocks_in_group g k r z)
    (glrc_global_blocks_in_group g k r z) 1 =
  Some (map buffer_ptr (group_data g), map buffer_ptr (group_global g), [buffer_ptr (k + r + g)]).
Proof.
  intros Hg. destruct (group_split g Hg) as (E & L1 & L2 & L). unfold split_cluster. rewrite <- L, split_equal by lia.
  replace (map (Z.add ((a g + g) * bs)) (map (fun j => j * bs) (zseq (zlen (G g))))) with (map buffer_ptr (G g)).
  - rewrite E, !map_app. rewrite ztake_app_exact, zdrop_app_exact, ztake_app_exact by (rewrite length_map; lia).
    rewrite app_assoc, zdrop_app_exact by (rewrite length_app, !length_map; lia). reflexivity.
  - rewrite group_ptrs, map_map by exact Hg. apply map_ext. intros j. lia.
Qed.

Lemma split_for_set_ok : forall m i, Z.of_nat (i + m) = z ->
  split_for_set_data_and_parity bs (map (fun g => (a g + g) * bs) (seqZ (Z.of_nat i) (Z.of_nat m))) group_sizes
    (glrc_fill_data_blocks_per_group k r z) (repeat_of z (fun i => glrc_global_blocks_in_group i k r z))
    (repeat_of z (fun _ => 1)) i =
  Some (map buffer_ptr (concat (map group_data (seqZ (Z.of_nat i) (Z.of_nat m)))),
        map buffer_ptr (concat (map group_global (seqZ (Z.of_nat i) (Z.of_nat m)))),
        map (fun g => buffer_ptr (k + r + g)) (seqZ (Z.of_nat i) (Z.of_nat m))).
Proof.
  induction m as [|m IH]; intros i Hi; [reflexivity|]. rewrite seqZ_cons by lia.
  replace (Z.succ (Z.of_nat i)) with (Z.of_nat (S i)) by lia. replace (Z.pred (Z.of_nat (S m))) with (Z.of_nat m) by lia.
  cbn [map split_for_set_data_and_parity concat]. rewrite IH by lia.
  assert (Hget : forall f : Z -> Z, (map f (zseq z)).[Z.of_nat i] = f (Z.of_nat i)).
  { intros f. rewrite zget_map by (rewrite zlen_seqZ; lia). rewrite zget_zseq by lia. reflexivity. }
  unfold group_sizes, glrc_fill_data_blocks_per_group, repeat_of. rewrite !Hget, split_cluster_ok by lia.
  rewrite !map_app. reflexivity.
Qed.

(** The pointers of the client are those of the blocks, in order. *)
Lemma split_all_ok : split_for_set_data_and_parity bs (map (fun g => (a g + g) * bs) (zseq z)) group_sizes
    (glrc_fill_data_blocks_per_group k r z) (repeat_of z (fun i => glrc_global_blocks_in_group i k r z))
    (repeat_of z (fun _ => 1)) 0 =
  Some (map buffer_ptr (zseq k), map buffer_ptr (seqZ k r), map buffer_ptr (seqZ (k + r) z)).
Proof.
  pose proof (split_for_set_ok (Z.to_nat z) 0 ltac:(lia)) as H. change (Z.of_nat 0) with 0 in H. rewrite Z2Nat.id in H by lia.
  rewrite H, data_upto, global_upto by lia. destruct start_facts as (_ & -> & _).
  replace (Z.min (k + r) k) with k by lia. replace (Z.max 0 (k + r - k)) with r by lia. do 2 f_equal.
  replace (seqZ (k + r) z) with (map (Z.add (k + r)) (zseq z)) by (rewrite <- (Z.add_0_r (k + r)) at 2; apply (fmap_add_seqZ (k + r) 0)).
  rewrite map_map. reflexivity.
Qed.
End Layout.
