(* ===== verification/StripeWrite.v ===== *)
(** The write of a whole gLRC stripe, from the client's buffer to the data nodes:
    coordinator, client and proxies agree on the layout, and every data node ends
    up with its block of the codeword. *)
From S2P Require Import Prelude GF256 LinAlg GFMatrix Groups EcKernel Codes RepairPlan Toolbox Placement PlacementSpec.
From S2P Require Import PlacementLaw Coordinator CoordinatorSpec Client DataNode ProxyAppend BufferLayout.

(** * Reading and writing the buffer *)

Lemma poke_write_at p data buf : 0 <= p <= zlen buf -> poke p data buf = write_at p data buf.
Proof.
  intros Hp. unfold poke, write_at. replace (zrepeat x00 (p - zlen buf)) with (@nil byte).
  - rewrite app_nil_r. reflexivity.
  - unfold zrepeat. replace (Z.to_nat (p - zlen buf)) with O by lia. reflexivity.
Qed.

Lemma poke_len p data buf : 0 <= p -> p + zlen data <= zlen buf -> zlen (poke p data buf) = zlen buf.
Proof. intros Hp Hl. rewrite poke_write_at, write_at_len by lia. lia. Qed.

Lemma peek_len len p buf : 0 <= p -> 0 <= len -> p + len <= zlen buf -> zlen (peek len p buf) = len.
Proof. intros Hp Hl Hle. unfold peek, ztake. rewrite length_take. pose proof (zlen_zdrop buf p Hp). lia. Qed.

(** Consecutive pieces make a prefix. *)
Lemma peek_snoc len a buf : 0 <= a -> 0 <= len -> ztake a buf ++ peek len a buf = ztake (a + len) buf.
Proof. intros Ha Hl. unfold peek, ztake, zdrop. replace (Z.to_nat (a + len)) with (Z.to_nat a + Z.to_nat len)%nat by lia. apply take_take_drop. Qed.

Lemma peek_part len a m buf : 0 <= a -> 0 <= len -> exists m', ztake a buf ++ ztake m (peek len a buf) = ztake m' buf.
Proof.
  intros Ha Hl. exists (a + Z.min (Z.max 0 m) len). unfold peek, ztake, zdrop. rewrite take_take.
  replace (Z.to_nat (a + Z.min (Z.max 0 m) len)) with (Z.to_nat a + Z.to_nat m `min` Z.to_nat len)%nat by lia. apply take_take_drop.
Qed.

Lemma peek_get len p buf i : 0 <= p -> 0 <= i < len -> (peek len p buf).[i] = buf.[p + i].
Proof. intros Hp Hi. unfold peek. rewrite zget_ztake, zget_zdrop by lia. reflexivity. Qed.

(** Blocks at multiples of the block size do not overlap. *)
Lemma peek_poke bs p q data buf : 0 <= bs -> 0 <= p -> 0 <= q -> zlen data = bs -> (p + 1) * bs <= zlen buf ->
  (q + 1) * bs <= zlen buf ->
  peek bs (q * bs) (poke (p * bs) data buf) = if q =? p then data else peek bs (q * bs) buf.
Proof.
  intros Hb Hp Hq Hd Hl Hl'. assert (Hlen : zlen (poke (p * bs) data buf) = zlen buf) by (apply poke_len; nia).
  apply zlist_ext.
  - rewrite peek_len by nia. destruct (q =? p); [lia|]. rewrite peek_len by nia. reflexivity.
  - rewrite peek_len by nia. intros i Hi. rewrite peek_get by nia. rewrite poke_write_at, write_at_get, Hd by nia.
    destruct (Z.eqb_spec q p) as [->|Hne].
    + destruct (Z.leb_spec (p * bs) (p * bs + i)); [|lia]. destruct (Z.ltb_spec (p * bs + i) (p * bs + bs)); [|lia].
      cbn [andb]. f_equal. lia.
    + rewrite peek_get by nia. assert (Hout : q * bs + i < p * bs \/ p * bs + bs <= q * bs + i).
      { destruct (Z.lt_trichotomy q p) as [H|[H|H]]; [left; nia|contradiction|right; nia]. }
      destruct (Z.leb_spec (p * bs) (q * bs + i)), (Z.ltb_spec (q * bs + i) (p * bs + bs)); cbn [andb]; try lia;
        (destruct (Z.ltb_spec (q * bs + i) (zlen buf)); [reflexivity|nia]).
Qed.

(** Storing a list of blocks at distinct positions. *)
Lemma poke_all_spec bs ps : 0 <= bs -> NoDup ps -> forall blocks buf,
  (forall p, p ∈ ps -> 0 <= p /\ (p + 1) * bs <= zlen buf) -> length blocks = length ps ->
  (forall i, 0 <= i < zlen ps -> zlen blocks.[i] = bs) ->
  let buf' := poke_all (map (fun p => p * bs) ps) blocks buf in
  zlen buf' = zlen buf /\
  (forall i, 0 <= i < zlen ps -> peek bs (ps.[i] * bs) buf' = blocks.[i]) /\
  (forall q, 0 <= q -> (q + 1) * bs <= zlen buf -> q ∉ ps -> peek bs (q * bs) buf' = peek bs (q * bs) buf).
Proof.
  intros Hb Hnd. induction Hnd as [|p ps Hp Hnd IH]; intros blocks buf Hin Hlen Hbl; cbv zeta.
  { destruct blocks; [|discriminate]. split; [reflexivity|]. split; [intros i Hi; cbn [length] in Hi; lia|reflexivity]. }
  destruct blocks as [|b blocks]; [discriminate|]. cbn [length] in Hlen. injection Hlen as Hlen.
  assert (Hpin : 0 <= p /\ (p + 1) * bs <= zlen buf) by (apply Hin; set_solver).
  assert (Hb0 : zlen b = bs) by (apply (Hbl 0); cbn [length]; lia).
  assert (Hl1 : zlen (poke (p * bs) b buf) = zlen buf) by (apply poke_len; nia).
  destruct (IH blocks (poke (p * bs) b buf)) as (I1 & I2 & I3).
  - intros q Hq. rewrite Hl1. apply Hin. set_solver.
  - exact Hlen.
  - intros i Hi. specialize (Hbl (i + 1) ltac:(cbn [length]; lia)). rewrite zget_cons in Hbl by lia.
    replace (i + 1 - 1) with i in Hbl by lia. exact Hbl.
  - unfold poke_all in *. cbn [map combine fold_left]. rewrite I1. split; [exact Hl1|]. split.
    + intros i Hi. cbn [length] in Hi. destruct (Z.eq_dec i 0) as [->|Hne].
      * change ((p :: ps).[0]) with p. change ((b :: blocks).[0]) with b.
        rewrite I3 by (rewrite ?Hl1; tauto || lia). rewrite peek_poke by lia. rewrite Z.eqb_refl. reflexivity.
      * rewrite !zget_cons by lia. apply I2. lia.
    + intros q Hq Hql Hqn. rewrite I3 by (rewrite ?Hl1; set_solver || lia). rewrite peek_poke by lia.
      destruct (Z.eqb_spec q p); [set_solver|reflexivity].
Qed.

(** * The client *)

Lemma collect_some {A B} (f : A -> B) l : collect (map (fun x => Some (f x)) l) = Some (map f l).
Proof. induction l as [|x l IH]; [reflexivity|]. cbn [map collect]. rewrite IH. reflexivity. Qed.

Section ClientSet.
Context {K : Kernels} {KL : KernelLaws K}.
Context (cfg : SysConfig) (Hcfg : config_ok cfg) (Hct : CodeType (settings cfg) = "gLRC").
Abbreviation k := (cfg_k cfg).
Abbreviation r := (cfg_r cfg).
Abbreviation z := (cfg_z cfg).
Abbreviation n := (cfg_n cfg).
Abbreviation bs := (BlockSize (settings cfg)).
Abbreviation ptr b := (buffer_ptr k r z bs b).
Context (Hbs : 0 <= bs).

(** The blocks in the buffer, and the stripe the client makes of them. *)
Definition buffer_data (buf : list byte) : list block := map (fun b => peek bs (ptr b) buf) (zseq k).
Definition buffer_parity (buf : list byte) : list block := map (fun b => peek bs (ptr b) buf) (seqZ k (r + z)).
Definition stripe_of (buf : list byte) : list block :=
  buffer_data buf ++ encode_glrc k r z (buffer_data buf) (buffer_parity buf) bs.

Lemma ptr_range b (buf : list byte) : zlen buf = n * bs -> 0 <= b < n -> 0 <= ptr b /\ ptr b + bs <= zlen buf.
Proof.
  destruct Hcfg as (K1 & K2 & K3 & K4). intros Hl Hb. unfold buffer_ptr.
  pose proof (pos_range k r z K1 K2 K3 b ltac:(lia)). rewrite Hl. nia.
Qed.

Lemma zget_seqZ a m i : 0 <= i < m -> (seqZ a m).[i] = a + i.
Proof. intros Hi. apply zget_Some; [lia|]. rewrite lookup_seqZ. lia. Qed.

Lemma parity_buffers buf : zlen buf = n * bs -> buffers (r + z) bs (buffer_parity buf) /\ zlen (buffer_parity buf) = r + z.
Proof.
  destruct Hcfg as (K1 & K2 & K3 & K4). intros Hl. assert (L : zlen (buffer_parity buf) = r + z).
  { unfold buffer_parity. rewrite length_map, zlen_seqZ. lia. }
  split; [|exact L]. split; [lia|]. intros l Hl0. unfold buffer_parity.
  rewrite zget_map by (rewrite zlen_seqZ; lia). rewrite zget_seqZ by lia.
  destruct (ptr_range (k + l) buf Hl ltac:(lia)). rewrite peek_len; lia.
Qed.

(** Encoding keeps the lengths of the buffers. *)
Lemma encoded_len buf : zlen buf = n * bs ->
  let parity := encode_glrc k r z (buffer_data buf) (buffer_parity buf) bs in
  zlen parity = r + z /\ forall l, 0 <= l < r + z -> zlen parity.[l] = bs.
Proof.
  destruct Hcfg as (K1 & K2 & K3 & K4). intros Hl parity. destruct (parity_buffers buf Hl) as [Hb L].
  destruct (encode_rows_spec k (r + z) bs (gen_glrc_matrix (new_bytes ((k + r + z) * k)) k r z)
              (glrc_gen k r z) (buffer_data buf) (buffer_parity buf)) as [H1 H2]; auto; try lia.
  { rewrite Z.add_assoc. apply gen_glrc_matrix_spec; auto. unfold new_bytes. rewrite zlen_zrepeat by nia. lia. }
  change (encode_rows _ _ _ _ _ _) with parity in H1, H2. split; [lia|]. intros l Hl0. destruct (H2 l ltac:(lia)) as [-> _].
  unfold buffer_parity. rewrite zget_map by (rewrite zlen_seqZ; lia). rewrite zget_seqZ by lia.
  destruct (ptr_range (k + l) buf Hl ltac:(lia)). apply peek_len; lia.
Qed.

Lemma part_size_fits g : 0 <= g < z -> 0 <= zlen (glrc_build_placement_groups k r z).[g] * bs <= n * bs.
Proof.
  destruct Hcfg as (K1 & K2 & K3 & K4). intros Hg. destruct (start_facts k r z K1 K2 K3) as (A0 & Az & Am).
  pose proof (Am 0 g ltac:(lia)). pose proof (Am (g + 1) z ltac:(lia)). pose proof (Am g (g + 1) ltac:(lia)).
  pose proof (group_len k r z K1 K2 K3 g Hg). nia.
Qed.

(** What the coordinator answers for the stripe. *)
Definition reply_sizes (reply : Reply) : Prop :=
  cluster_slice_sizes reply = group_sizes k r z bs /\ sum_append_size reply = zsum (group_sizes k r z bs).

Lemma set_stripe_ok num_arry N sid reply buf : reply_sizes reply -> zlen buf = n * bs ->
  exists buf', (n * bs < 2 ^ 31 -> set_stripe num_arry N sid cfg reply buf =
    Some (buf', map (fun g => peek (zlen (glrc_build_placement_groups k r z).[g] * bs)
                                ((payload_start k r z g + g) * bs) buf') (zseq z))) /\
    zlen buf' = zlen buf /\ forall b, 0 <= b < n -> peek bs (ptr b) buf' = (stripe_of buf).[b].
Proof.
  pose proof Hcfg as (K1 & K2 & K3 & K4). intros [R1 R2] Hl. unfold set_stripe. rewrite R1, R2, Hct.
  rewrite starts_ok by assumption. cbn [encode_code String.eqb Ascii.eqb Bool.eqb]. unfold set_group_counts. rewrite Hct.
  cbn [String.eqb Ascii.eqb Bool.eqb get_data_block_num_per_group get_global_parity_block_num_per_group
       get_local_parity_block_num_per_group]. rewrite split_all_ok by assumption.
  rewrite <- map_app, <- seqZ_app by lia. rewrite !map_map. fold (buffer_data buf). fold (buffer_parity buf).
  set (parity := encode_glrc _ _ _ _ _ _). destruct (encoded_len buf Hl) as [L1 L2]. fold parity in L1, L2.
  destruct (poke_all_spec bs (map (buffer_pos k r z) (seqZ k (r + z))) Hbs) with (blocks := parity) (buf := buf) as (P1 & P2 & P3).
  { apply NoDup_fmap_2_strong; [|apply NoDup_seqZ]. intros b c Hb Hc. apply elem_of_seqZ in Hb, Hc. apply pos_inj; lia. }
  { intros p Hp. apply list_elem_of_In, in_map_iff in Hp as (b & <- & Hb). apply list_elem_of_In, elem_of_seqZ in Hb.
    destruct (ptr_range b buf Hl ltac:(lia)) as [H1 H2]. unfold buffer_ptr in H1, H2.
    pose proof (pos_range k r z K1 K2 K3 b ltac:(lia)). lia. }
  { rewrite length_map, length_seqZ. lia. }
  { rewrite length_map, zlen_seqZ. intros i Hi. apply L2. lia. }
  rewrite map_map in P1, P2, P3. unfold buffer_ptr in *. set (buf' := poke_all _ parity buf) in *.
  exists buf'. split; [|split; [exact P1|]].
  - intros Hfit. unfold group_sizes. rewrite combine_map_same, map_map.
    rewrite (map_ext_in _ (fun g => Some (peek (zlen (glrc_build_placement_groups k r z).[g] * bs) ((payload_start k r z g + g) * bs) buf'))).
    + rewrite (collect_some (fun g => peek _ _ buf')). reflexivity.
    + intros g Hg. apply in_zseq in Hg. pose proof (part_size_fits g Hg). unfold async_append_to_proxies.
      rewrite int32_id by lia. destruct (Z.ltb_spec (zlen (glrc_build_placement_groups k r z).[g] * bs) 0); [nia|reflexivity].
  - intros b Hb. unfold stripe_of. assert (Hd : zlen (buffer_data buf) = k) by (unfold buffer_data; rewrite length_map, zlen_seqZ; lia).
    rewrite zget_app, Hd by lia. destruct (Z.ltb_spec b k).
    + rewrite P3.
      * unfold buffer_data. rewrite zget_map by (rewrite zlen_seqZ; lia). rewrite zget_zseq by lia. reflexivity.
      * apply pos_range; lia.
      * destruct (ptr_range b buf Hl Hb) as [_ H2]. unfold buffer_ptr in H2. lia.
      * intros Hin. apply list_elem_of_In, in_map_iff in Hin as (c & Ec & Hc). apply list_elem_of_In, elem_of_seqZ in Hc.
        apply pos_inj in Ec; lia.
    + specialize (P2 (b - k)). rewrite length_map, zlen_seqZ in P2. specialize (P2 ltac:(lia)).
      rewrite zget_map in P2 by (rewrite zlen_seqZ; lia). rewrite zget_seqZ in P2 by lia.
      replace (k + (b - k)) with b in P2 by lia. exact P2.
Qed.
End ClientSet.

(** * The plans *)

Section Plans.
Context (cfg : SysConfig) (Hcfg : config_ok cfg) (Hbs : 1 <= BlockSize (settings cfg)).
Abbreviation k := (cfg_k cfg).
Abbreviation r := (cfg_r cfg).
Abbreviation z := (cfg_z cfg).
Abbreviation n := (cfg_n cfg).
Abbreviation bs := (BlockSize (settings cfg)).
Abbreviation G g := ((glrc_build_placement_groups k r z).[g]).
Context (s : Stripe) (t : Tables).
Context (Hgroups : forall g, 0 <= g < z -> group_to_blocks s !! g = Some (G g)) (Hnum : num_groups s = z).

(** Address, key and extent of a block. *)
Definition block_slice (b : Z) : PlanSlice :=
  {| ps_ip := node_ip (node_of_block t (blocks s).[b]); ps_port := node_port (node_of_block t (blocks s).[b]);
     ps_key := block_key (blocks s).[b]; ps_block_id := block_id (blocks s).[b]; ps_offset := 0; ps_size := bs |}.

Definition group_plan (g : Z) : AppendPlan :=
  {| plan_key := gen_append_key (stripe_id s) g; plan_stripe_id := stripe_id s; plan_append_size := zlen (G g) * bs;
     plan_is_merge_parity := false; plan_cluster_id := map2cluster (blocks s).[(G g).[0]];
     plan_append_mode := "UNILRC_MODE"; plan_is_serialized := false; plan_slices := map block_slice (G g) |}.

Lemma group_slices_eq ids : group_slices bs s t ids = map block_slice ids.
Proof.
  unfold group_slices.
  assert (H : forall acc, fold_left (fun acc b => addBlockToAppendPlan (blocks s).[b] (node_of_block t (blocks s).[b]) (bs, 0) acc) ids acc =
                     acc ++ map block_slice ids).
  { induction ids as [|b ids IH]; intros acc; cbn [fold_left map]; [rewrite app_nil_r; reflexivity|].
    rewrite IH. unfold addBlockToAppendPlan. rewrite <- app_assoc. reflexivity. }
  apply H.
Qed.

Lemma generate_add_plans_ok : generate_add_plans bs s t = Some (map group_plan (zseq z)).
Proof.
  destruct Hcfg as (K1 & K2 & K3 & K4). unfold generate_add_plans. rewrite Hnum, <- collect_some. f_equal. apply map_ext_in. intros g Hg. apply in_zseq in Hg.
  unfold add_plan. rewrite Hgroups by exact Hg. cbn [from_option id].
  pose proof (group_len k r z K1 K2 K3 g Hg) as Hl. pose proof (payload_start_mono k r z ltac:(lia) K2 K3 g (g + 1) ltac:(lia)).
  unfold group_plan. rewrite <- group_slices_eq. destruct (G g) as [|b l] eqn:E; [cbn [length] in Hl; lia|reflexivity].
Qed.

Lemma reply_of_sizes tb : reply_sizes cfg (reply_of tb (map group_plan (zseq z))).
Proof.
  unfold reply_sizes, reply_of. cbn [cluster_slice_sizes sum_append_size]. rewrite map_map. cbn [group_plan plan_append_size].
  split; reflexivity.
Qed.

Lemma map_const_zrepeat {A} (l : list A) (x : Z) : map (fun _ => x) l = zrepeat x (zlen l).
Proof. unfold zrepeat. rewrite Nat2Z.id. induction l as [|y l IH]; [reflexivity|]. cbn [length replicate map]. rewrite IH. reflexivity. Qed.

(** A proxy cuts its part into the blocks of the group. *)
Lemma append_and_save_ok tmp buf g st : 0 <= g < z -> zlen buf = n * bs ->
  append_and_save cfg tmp (group_plan g) (peek (zlen (G g) * bs) ((payload_start k r z g + g) * bs) buf) st =
  Some (append_all k tmp false (map block_slice (G g)) (map (fun b => peek bs (buffer_ptr k r z bs b) buf) (G g)) st).
Proof.
  destruct Hcfg as (K1 & K2 & K3 & K4). intros Hg Hl. destruct (start_facts k r z K1 K2 K3) as (A0 & Az & Am).
  pose proof (Am 0 g ltac:(lia)). pose proof (Am (g + 1) z ltac:(lia)). pose proof (Am g (g + 1) ltac:(lia)).
  pose proof (group_len k r z K1 K2 K3 g Hg) as HG.
  set (part := peek _ _ buf). assert (Hpart : zlen part = zlen (G g) * bs) by (apply peek_len; nia).
  unfold append_and_save. cbn [group_plan plan_append_size plan_slices plan_is_serialized plan_is_merge_parity].
  rewrite map_map. cbn [block_slice ps_size].
  rewrite map_const_zrepeat, split_equal by lia.
  replace (ztake (zlen (G g) * bs) part ++ zrepeat x00 (zlen (G g) * bs - zlen part)) with part.
  2:{ rewrite Hpart, Z.sub_diag. cbn [zrepeat Z.to_nat replicate]. rewrite app_nil_r. unfold ztake. rewrite take_ge by lia. reflexivity. }
  do 2 f_equal. replace (zrepeat bs (zlen (G g))) with (map (fun _ : Z => bs) (zseq (zlen (G g)))).
  2:{ apply zlist_ext; [rewrite length_map, zlen_seqZ, zlen_zrepeat; lia|]. rewrite length_map, zlen_seqZ. intros i Hi.
      rewrite zget_map by (rewrite zlen_seqZ; lia). rewrite zget_zrepeat by lia. reflexivity. }
  rewrite combine_map_same, map_map. rewrite (list_zget (G g)) at 2. rewrite map_map. apply map_ext_in. intros j Hj. apply in_zseq in Hj.
  unfold buffer_ptr. rewrite group_pos by (assumption || lia).
  assert (Hj1 : (j + 1) * bs <= zlen (G g) * bs) by (apply Z.mul_le_mono_nonneg_r; lia).
  assert (Hj2 : (payload_start k r z g + g + j + 1) * bs <= n * bs) by (apply Z.mul_le_mono_nonneg_r; lia).
  change (ztake bs (zdrop (j * bs) part)) with (peek bs (j * bs) part).
  apply zlist_ext; rewrite peek_len by lia || nia; [symmetry; apply peek_len; nia|].
  intros i Hi. rewrite !(peek_get bs) by nia. unfold part. rewrite peek_get by nia. f_equal. lia.
Qed.

Lemma append_all_app kk tmp ser l1 l2 b1 b2 st : length l1 = length b1 ->
  append_all kk tmp ser (l1 ++ l2) (b1 ++ b2) st = append_all kk tmp ser l2 b2 (append_all kk tmp ser l1 b1 st).
Proof.
  intros Hl. unfold append_all. rewrite <- fold_left_app. f_equal.
  revert b1 Hl. induction l1 as [|x l1 IH]; intros [|y b1] Hl; try discriminate; [reflexivity|].
  cbn [combine app]. rewrite IH by (injection Hl; auto). reflexivity.
Qed.

Lemma plan_lookup g : 0 <= g < z -> map group_plan (zseq z) !! Z.to_nat g = Some (group_plan g).
Proof.
  intros Hg. rewrite list_lookup_fmap. replace (zseq z !! Z.to_nat g) with (Some g); [reflexivity|].
  symmetry. apply lookup_seqZ. lia.
Qed.

(** Whatever a thread receives, it cuts it along its plan. *)
Lemma append_and_save_returns tmp g received st : 0 <= g < z ->
  exists st', append_and_save cfg tmp (group_plan g) received st = Some st'.
Proof.
  destruct Hcfg as (K1 & K2 & K3 & K4). intros Hg. pose proof (group_len k r z K1 K2 K3 g Hg). unfold append_and_save.
  cbn [group_plan plan_append_size plan_slices plan_is_serialized plan_is_merge_parity]. rewrite map_map. cbn [block_slice ps_size].
  rewrite map_const_zrepeat, split_equal by lia. eauto.
Qed.

(** The threads always end. *)
Lemma run_proxies_returns tmp parts accepted : map fst accepted ≡ₚ zseq z -> forall st,
  exists st', run_proxies cfg tmp (map group_plan (zseq z)) parts accepted st = Some st'.
Proof.
  intros Hp. assert (Hin : forall i, i ∈ map fst accepted -> 0 <= i < z) by (intros i Hi; rewrite Hp, elem_of_seqZ in Hi; lia).
  clear Hp. induction accepted as [|[i j] l IH]; intros st; [eexists; reflexivity|]. cbn [run_proxies map fst] in *.
  pose proof (Hin i ltac:(left)) as Hi. rewrite plan_lookup by assumption.
  destruct (append_and_save_returns tmp i parts.[j] st Hi) as [st1 ->]. apply IH. intros x Hx. apply Hin. right. exact Hx.
Qed.

(** Threads that get their own parts store the blocks of their groups. *)
Lemma run_proxies_ok tmp buf l st : zlen buf = n * bs -> (forall g, In g l -> 0 <= g < z) ->
  run_proxies cfg tmp (map group_plan (zseq z))
    (map (fun g => peek (zlen (G g) * bs) ((payload_start k r z g + g) * bs) buf) (zseq z)) (map (fun g => (g, g)) l) st =
  Some (append_all k tmp false (map block_slice (concat (map (fun g => G g) l)))
          (map (fun b => peek bs (buffer_ptr k r z bs b) buf) (concat (map (fun g => G g) l))) st).
Proof.
  intros Hl Hin. rewrite !concat_map, !map_map. revert st. induction l as [|g l IH]; intros st; [reflexivity|].
  pose proof (Hin g (or_introl eq_refl)) as Hg. cbn [map run_proxies concat].
  rewrite plan_lookup by assumption.
  rewrite zget_map by (rewrite zlen_seqZ; lia). rewrite zget_zseq by exact Hg.
  rewrite append_and_save_ok by auto. rewrite append_all_app by (rewrite !length_map; reflexivity).
  apply IH. intros h Hh. apply Hin. right. exact Hh.
Qed.
End Plans.

(** * Storage *)

(** Blocks sent to different data nodes all arrive. *)
Lemma append_all_stored k tmp : (forall key, tmp key <> key) -> forall slices bytes st,
  length bytes = length slices -> NoDup (map (fun p => (ps_ip p, ps_port p)) slices) -> Forall (fun p => ps_offset p = 0) slices ->
  let st' := append_all k tmp false slices bytes st in
  (forall p b, (p, b) ∈ combine slices bytes -> files_at (ps_ip p) (ps_port p) st' !! ps_key p = Some b) /\
  (forall ip port, (ip, port) ∉ map (fun p => (ps_ip p, ps_port p)) slices -> files_at ip port st' = files_at ip port st) /\
  (forall ip port key, (forall p, p ∈ slices -> key <> ps_key p /\ key <> tmp (ps_key p)) ->
     files_at ip port st' !! key = files_at ip port st !! key).
Proof.
  intros Htmp. induction slices as [|p slices IH]; intros bytes st Hlen Hnd Hoff; cbv zeta.
  { destruct bytes; [|discriminate]. unfold append_all. cbn [combine fold_left]. split; [intros p b H; set_solver|]. split; reflexivity. }
  destruct bytes as [|b bytes]; [discriminate|]. cbn [length] in Hlen. cbn [map] in Hnd. apply NoDup_cons in Hnd as [Hp Hnd].
  apply Forall_cons in Hoff as [Ho Hoff].
  assert (Estep : AppendToDatanode k tmp p false b st =
            <[(ps_ip p, ps_port p) := <[ps_key p := b]> (delete (tmp (ps_key p)) (<[tmp (ps_key p) := b]>
               (<[tmp (ps_key p) := []]> (files_at (ps_ip p) (ps_port p) st))))]> st).
  { unfold AppendToDatanode, handleAppend. cbn [append_block_id append_is_serialized append_offset append_block_key].
    rewrite andb_false_r, Ho. reflexivity. }
  destruct (IH bytes (AppendToDatanode k tmp p false b st) ltac:(lia) Hnd Hoff) as (I1 & I2 & I3).
  unfold append_all in *. cbn [combine fold_left map]. split; [|split].
  - intros q c Hq. apply elem_of_cons in Hq as [[= -> ->]|Hq]; [|apply I1, Hq].
    rewrite I2 by exact Hp. rewrite Estep. unfold files_at at 1. rewrite !lookup_insert_eq. cbn [from_option id]. apply lookup_insert_eq.
  - intros ip port Hn. apply not_elem_of_cons in Hn as [Hne Hn]. rewrite I2 by exact Hn. rewrite Estep. unfold files_at at 1.
    rewrite lookup_insert_ne by congruence. reflexivity.
  - intros ip port key Hkey. rewrite I3 by (intros q Hq; apply Hkey; set_solver). rewrite Estep.
    destruct (Hkey p ltac:(set_solver)) as [Hk1 Hk2]. unfold files_at at 1. destruct (decide ((ip, port) = (ps_ip p, ps_port p))) as [[= -> ->]|Hne].
    + rewrite lookup_insert_eq. cbn [from_option id]. rewrite lookup_insert_ne by congruence.
      rewrite lookup_delete_ne, !lookup_insert_ne by congruence. reflexivity.
    + rewrite lookup_insert_ne by congruence. reflexivity.
Qed.

(** The ring of blocks, in whatever order, each on its own data node. *)
Lemma stored_ring cfg s t tmp buf st rg : config_ok cfg -> (forall key, tmp key <> key) ->
  rg ≡ₚ ring (cfg_k cfg) (cfg_r cfg) (cfg_z cfg) ->
  (forall b c, 0 <= b < cfg_n cfg -> 0 <= c < cfg_n cfg ->
     same_address (node_of_block t (blocks s).[b]) (node_of_block t (blocks s).[c]) -> b = c) ->
  let st' := append_all (cfg_k cfg) tmp false (map (block_slice cfg s t) rg)
               (map (fun b => peek (BlockSize (settings cfg))
                  (buffer_ptr (cfg_k cfg) (cfg_r cfg) (cfg_z cfg) (BlockSize (settings cfg)) b) buf) rg) st in
  forall b, 0 <= b < cfg_n cfg -> let nd := node_of_block t (blocks s).[b] in
    files_at (node_ip nd) (node_port nd) st' !! block_key (blocks s).[b] =
    Some (peek (BlockSize (settings cfg)) (buffer_ptr (cfg_k cfg) (cfg_r cfg) (cfg_z cfg) (BlockSize (settings cfg)) b) buf).
Proof.
  intros (K1 & K2 & K3 & K4) Htmp Hperm Haddr st' b Hb nd.
  assert (Hrg : forall x, x ∈ rg <-> 0 <= x < cfg_n cfg).
  { intros x. rewrite Hperm, ring_perm, elem_of_seqZ, K4 by assumption. lia. }
  destruct (append_all_stored (cfg_k cfg) tmp Htmp (map (block_slice cfg s t) rg)
    (map (fun b => peek (BlockSize (settings cfg))
       (buffer_ptr (cfg_k cfg) (cfg_r cfg) (cfg_z cfg) (BlockSize (settings cfg)) b) buf) rg) st) as (A1 & _ & _).
  - rewrite !length_map. reflexivity.
  - rewrite map_map. apply NoDup_fmap_2_strong; [|rewrite Hperm; apply ring_nodup; assumption].
    intros x y Hx Hy [= E1 E2]. apply Haddr; [apply Hrg, Hx|apply Hrg, Hy|split; assumption].
  - apply Forall_forall. intros p Hp. apply list_elem_of_In, in_map_iff in Hp as (x & <- & _). reflexivity.
  - apply (A1 (block_slice cfg s t b)). rewrite combine_map_same. apply list_elem_of_In, in_map_iff. exists b.
    split; [reflexivity|]. apply list_elem_of_In, Hrg, Hb.
Qed.

(** * Scheduling and commits *)

Definition schedulable (outcomes : nat -> list bool) : Prop := forall i, existsb id (take 3 (outcomes i)) = true.

Lemma notify_all_ok outcomes : schedulable outcomes -> forall plans i updating,
  exists updating', notify_all outcomes i plans updating = (true, updating') /\
    forall key, is_Some (updating' !! key) <-> is_Some (updating !! key) \/ key ∈ map plan_key plans.
Proof.
  intros Hok. induction plans as [|p plans IH]; intros i updating; cbn [notify_all map].
  { exists updating. split; [reflexivity|]. intros key. rewrite elem_of_nil. tauto. }
  unfold notify_proxies_ready. rewrite Hok.
  destruct (IH (S i) (<[plan_key p := {| object_size := plan_append_size p; oi_stripe := plan_stripe_id p |}]> updating))
    as (u & -> & Hu).
  exists u. split; [reflexivity|]. intros key. rewrite Hu, elem_of_cons. destruct (decide (key = plan_key p)) as [->|Hne].
  - rewrite lookup_insert_eq. split; [auto|]. intros _. left. eauto.
  - rewrite lookup_insert_ne by congruence. tauto.
Qed.

Lemma schedule_ok outcomes plans c : schedulable outcomes ->
  exists c', schedule outcomes plans c = (Some (reply_of (co_tables c) plans), c') /\
    co_tables c' = co_tables c /\ m_stripe_table c' = m_stripe_table c /\ m_cur_stripe_id c' = m_cur_stripe_id c /\
    forall key, is_Some (m_object_updating_table c' !! key) <->
      is_Some (m_object_updating_table c !! key) \/ key ∈ map plan_key plans.
Proof.
  intros Hok. unfold schedule. destruct (notify_all_ok outcomes Hok plans 0 (m_object_updating_table c)) as (u & -> & Hu).
  eexists. split; [reflexivity|]. repeat split; auto; apply Hu.
Qed.

(** Every plan reported: its keys are committed and nothing waits for them. *)
Lemma report_all_spec unset plans : forall c key,
  (is_Some (m_object_commit_table (report_all unset plans c) !! key) <->
   is_Some (m_object_commit_table c !! key) \/ key ∈ map plan_key plans) /\
  (is_Some (m_object_updating_table (report_all unset plans c) !! key) <->
   is_Some (m_object_updating_table c !! key) /\ key ∉ map plan_key plans).
Proof.
  induction plans as [|p plans IH]; intros c key; cbn [report_all fold_left map].
  { rewrite elem_of_nil. tauto. }
  destruct (IH (reportCommitAbort unset (plan_key p) APPEND (plan_stripe_id p) true c) key) as [I1 I2].
  unfold report_all in *. rewrite I1, I2, not_elem_of_cons, elem_of_cons. cbn [reportCommitAbort with_objects m_object_commit_table m_object_updating_table].
  destruct (decide (key = plan_key p)) as [->|Hne].
  - rewrite lookup_insert_eq, lookup_delete_eq. split; [split; [auto|]; intros _; left; eauto|].
    split; [intros [[? [=]] _]|intros [_ [H _]]; contradiction].
  - rewrite lookup_insert_ne, lookup_delete_ne by congruence. tauto.
Qed.

Lemma all_committed_after unset plans c :
  all_committed (map plan_key plans) (report_all unset plans c) = Some true.
Proof.
  unfold all_committed. set (c' := report_all unset plans c).
  assert (Hone : forall key, key ∈ map plan_key plans -> checkCommitAbort key APPEND 0 c' = Some true).
  { intros key Hkey. destruct (report_all_spec unset plans c key) as [H1 H2]. fold c' in H1, H2. unfold checkCommitAbort.
    rewrite bool_decide_eq_false_2 by (rewrite H2; tauto). rewrite bool_decide_eq_true_2 by (rewrite H1; auto). reflexivity. }
  rewrite (map_ext_in _ (fun _ => Some true)).
  - rewrite (collect_some (fun _ => true)). f_equal. apply forallb_forall. intros b Hb. apply in_map_iff in Hb as (? & <- & _). reflexivity.
  - intros key Hkey. apply Hone, list_elem_of_In, Hkey.
Qed.

(** Before its report, a check of a scheduled key waits. *)
Lemma not_committed_before c key keys : In key keys -> is_Some (m_object_updating_table c !! key) -> all_committed keys c = None.
Proof.
  intros Hin Hup. unfold all_committed.
  assert (Hn : checkCommitAbort key APPEND 0 c = None) by (unfold checkCommitAbort; rewrite bool_decide_eq_true_2 by exact Hup; reflexivity).
  replace (collect _) with (@None (list bool)); [reflexivity|]. symmetry.
  induction keys as [|x keys IH]; [contradiction|]. cbn [map collect]. destruct Hin as [->|Hin]; [rewrite Hn; reflexivity|].
  rewrite (IH Hin). destruct (checkCommitAbort x APPEND 0 c); reflexivity.
Qed.

(** * The whole write *)

(** A cluster the gLRC placement accepts: as many nodes as blocks, with distinct
    addresses. *)
Record cluster_ready (cfg : SysConfig) (t : Tables) : Prop := {
  cr_nodes : Z.of_nat (size (m_node_table t)) = cfg_n cfg;
  cr_ids : forall x, x ∈ dom (m_node_table t) -> 0 <= x;
  cr_addr : forall x y, x ∈ dom (m_node_table t) -> y ∈ dom (m_node_table t) ->
    same_address (node_at t x) (node_at t y) -> x = y }.

(** What the data nodes hold once block [b] of [content] is on its node, for all. *)
Definition blocks_stored (cfg : SysConfig) (s : Stripe) (t : Tables) (content : list block) (st : Storage) : Prop :=
  forall b, 0 <= b < cfg_n cfg ->
    let nd := node_of_block t (blocks s).[b] in files_at (node_ip nd) (node_port nd) st !! block_key (blocks s).[b] = Some content.[b].

(** The addresses of an upload's connections keep the parts apart, or each thread
    happened to get its own. *)
Definition parts_apart (reply : Reply) (accepted : list (Z * Z)) : Prop := NoDup (reply_addresses reply) \/ own_parts accepted.

(** The part of the write from the client's buffer on. *)
Lemma written_ok {K : Kernels} {KL : KernelLaws K} cfg s t tb buf tmp st num_arry N :
  config_ok cfg -> CodeType (settings cfg) = "gLRC" -> 1 <= BlockSize (settings cfg) ->
  zlen buf = cfg_n cfg * BlockSize (settings cfg) -> (forall key, tmp key <> key) ->
  (forall b c, 0 <= b < cfg_n cfg -> 0 <= c < cfg_n cfg ->
     same_address (node_of_block t (blocks s).[b]) (node_of_block t (blocks s).[c]) -> b = c) ->
  num_groups s = cfg_z cfg ->
  let plans := map (group_plan cfg s t) (zseq (cfg_z cfg)) in
  let reply := reply_of tb plans in
  (exists st0, blocks_stored cfg s t (stripe_of cfg buf) st0) /\
  (cfg_n cfg * BlockSize (settings cfg) < 2 ^ 31 ->
   exists buf' parts, set_stripe num_arry N (stripe_id s) cfg reply buf = Some (buf', parts) /\
    forall accepted, accepts_at (reply_addresses reply) accepted ->
      exists st', run_proxies cfg tmp plans parts accepted st = Some st' /\
        (parts_apart reply accepted -> blocks_stored cfg s t (stripe_of cfg buf) st')).
Proof.
  intros Hcfg Hct Hbs Hbuf Htmp Haddr Hnum plans reply.
  destruct (set_stripe_ok cfg Hcfg Hct ltac:(lia) num_arry N (stripe_id s) _ buf (reply_of_sizes cfg s t tb) Hbuf) as (buf' & Eset & Lb & Vb). split.
  { eexists. intros b Hb. rewrite <- Vb by exact Hb. apply (stored_ring cfg s t tmp buf' st _ Hcfg Htmp (reflexivity _) Haddr b Hb). }
  intros Hfit. eexists buf', _. split; [exact (Eset Hfit)|]. intros accepted Hacc.
  assert (Hlen : zlen (reply_addresses reply) = cfg_z cfg).
  { pose proof Hcfg as (K1 & K2 & K3 & K4). unfold reply_addresses, reply, plans. cbn [reply_of proxyips proxyports].
    rewrite length_combine, !length_map, Nat.min_id, zlen_seqZ. lia. }
  assert (Hfst : map fst accepted ≡ₚ zseq (cfg_z cfg)) by (rewrite <- Hlen; apply Hacc).
  destruct (run_proxies_returns cfg Hcfg Hbs s t tmp
    (map (fun g => peek (zlen (glrc_build_placement_groups (cfg_k cfg) (cfg_r cfg) (cfg_z cfg)).[g] * BlockSize (settings cfg))
                     ((payload_start (cfg_k cfg) (cfg_r cfg) (cfg_z cfg) g + g) * BlockSize (settings cfg)) buf') (zseq (cfg_z cfg)))
    accepted Hfst st) as [st' Erun].
  exists st'. split; [exact Erun|]. intros Hapart.
  assert (Hown : own_parts accepted) by (destruct Hapart as [Hnd|]; [apply (separate_own _ _ Hnd Hacc)|assumption]).
  rewrite (own_pairs _ Hown), (run_proxies_ok cfg Hcfg Hbs s t Hnum) in Erun; [|rewrite Lb; exact Hbuf|].
  - injection Erun as <-. intros b Hb. rewrite <- Vb by exact Hb. apply stored_ring; try assumption.
    unfold ring. rewrite <- !flat_map_concat_map. apply Permutation_flat_map, Hfst.
  - intros g Hg. rewrite Hfst in Hg. apply in_zseq, Hg.
Qed.

Lemma set_flow_ok {K : Kernels} {KL : KernelLaws K} cfg client draws outcomes c buf tmp st unset num_arry N :
  config_ok cfg -> CodeType (settings cfg) = "gLRC" -> 1 <= BlockSize (settings cfg) ->
  coordinator_ok c -> cluster_ready cfg (co_tables c) -> schedulable outcomes ->
  zlen buf = cfg_n cfg * BlockSize (settings cfg) -> (forall key, tmp key <> key) ->
  exists reply c' s plans,
    uploadSetValue cfg client (BlockSize (settings cfg) * cfg_k cfg) draws outcomes c = Some (Some reply, c') /\
    m_stripe_table c' !! m_cur_stripe_id c = Some s /\
    generate_add_plans (BlockSize (settings cfg)) s (co_tables c') = Some plans /\
    (exists st0, blocks_stored cfg s (co_tables c') (stripe_of cfg buf) st0) /\
    (cfg_n cfg * BlockSize (settings cfg) < 2 ^ 31 ->
     exists buf' parts, set_stripe num_arry N (stripe_id s) cfg reply buf = Some (buf', parts) /\
       forall accepted, accepts_at (reply_addresses reply) accepted ->
         exists st', run_proxies cfg tmp plans parts accepted st = Some st' /\
           (parts_apart reply accepted -> blocks_stored cfg s (co_tables c') (stripe_of cfg buf) st')) /\
    all_committed (append_keys reply) c' = None /\
    all_committed (append_keys reply) (report_all unset plans c') = Some true.
Proof.
  intros Hcfg Hct Hbs Hc [R1 R2 R3] Hout Hbuf Htmp. pose proof Hcfg as (K1 & K2 & K3 & K4).
  set (s0 := upload_stripe cfg (m_cur_stripe_id c) client).
  pose proof (upload_stripe_new cfg (m_cur_stripe_id c) client Hcfg) as Hnew. fold s0 in Hnew.
  pose proof (next_free c Hc) as Hfree.
  destruct (glrc_placement_spec (settings cfg) s0 (co_tables c) K1 K2 K3 K4 R1 R2 Hfree eq_refl eq_refl eq_refl) as (s & t & Ep & _).
  pose proof (glrc_blocks_ok _ _ _ _ _ Hnew Hfree Ep) as [(Q1 & _) P2 _ P4 _ _ P7 _].
  destruct (glrc_nodes _ _ _ _ _ Hnew Hfree Ep) as [Nd1 Nd2].
  assert (Hg : forall g, 0 <= g < cfg_z cfg -> num_groups s = cfg_z cfg /\
            group_to_blocks s !! g = Some (glrc_build_placement_groups (cfg_k cfg) (cfg_r cfg) (cfg_z cfg)).[g]).
  { intros g Hg. exact (glrc_groups _ s0 _ _ _ g Hnew Hfree Ep Hg). }
  destruct (Hg 0 ltac:(lia)) as [Hnum _].
  pose proof (generate_add_plans_ok cfg Hcfg s t (fun g H => proj2 (Hg g H)) Hnum) as Eplans.
  set (plans := map (group_plan cfg s t) (zseq (cfg_z cfg))) in *.
  set (c1 := with_tables t (with_cur_stripe_id (m_cur_stripe_id c + 1) c)).
  destruct (schedule_ok outcomes plans c1 Hout) as (c2 & Es & T1 & T2 & T3 & T4).
  set (c' := with_stripe_table (<[stripe_id s := s]> (m_stripe_table c2)) c2).
  pose proof (fun H => written_ok cfg s (co_tables c') (co_tables c1) buf tmp st num_arry N Hcfg Hct Hbs Hbuf Htmp H Hnum) as Hwritten.
  cbn [c' co_tables with_stripe_table] in Hwritten. rewrite T1 in Hwritten. cbn [c1 co_tables with_tables] in Hwritten.
  destruct Hwritten as [Hst0 Hparts].
  { intros x y Hx Hy [A1 A2]. apply Nd2; [exact Hx|exact Hy|]. unfold node_of_block in A1, A2. apply R3; [apply Nd1, Hx|apply Nd1, Hy|].
    destruct (P7 (map2node (blocks s).[x])), (P7 (map2node (blocks s).[y])). split; congruence. }
  exists (reply_of (co_tables c1) plans), c', s, plans. replace (co_tables c') with t by (symmetry; exact T1).
  split; [|split; [|split; [|split; [exact Hst0|split; [exact Hparts|split]]]]].
  - unfold uploadSetValue. rewrite Z.eqb_refl, Hct. cbn [negb orb code_type_ok existsb String.eqb Ascii.eqb Bool.eqb].
    unfold initialize_stripe_placement. rewrite Hct. cbn [String.eqb Ascii.eqb Bool.eqb orb co_tables with_cur_stripe_id].
    fold s0. rewrite Ep, Eplans. fold c1. rewrite Es. reflexivity.
  - cbn [c' m_stripe_table with_stripe_table]. rewrite Q1. apply lookup_insert_eq.
  - exact Eplans.
  - apply (not_committed_before _ (plan_key (group_plan cfg s t 0))).
    + cbn [reply_of append_keys]. apply in_map. apply in_map. apply in_zseq. lia.
    + cbn [c' m_object_updating_table with_stripe_table]. apply T4. right. apply list_elem_of_In, in_map, in_map, in_zseq. lia.
  - cbn [reply_of append_keys]. apply all_committed_after.
Qed.

Lemma stripe_block_len {K : Kernels} {KL : KernelLaws K} cfg buf b : config_ok cfg -> 0 <= BlockSize (settings cfg) ->
  zlen buf = cfg_n cfg * BlockSize (settings cfg) -> 0 <= b < cfg_n cfg -> zlen (stripe_of cfg buf).[b] = BlockSize (settings cfg).
Proof.
  intros Hcfg Hbs Hl Hb. pose proof Hcfg as (K1 & K2 & K3 & K4). unfold stripe_of.
  assert (Hd : zlen (buffer_data cfg buf) = cfg_k cfg) by (unfold buffer_data; rewrite length_map, zlen_seqZ; lia).
  rewrite zget_app, Hd by lia. destruct (Z.ltb_spec b (cfg_k cfg)).
  - unfold buffer_data. rewrite zget_map by (rewrite zlen_seqZ; lia). rewrite zget_zseq by lia.
    destruct (ptr_range cfg Hcfg Hbs b buf Hl Hb). apply peek_len; lia.
  - apply (encoded_len cfg Hcfg Hbs buf Hl). lia.
Qed.

(** The same for parts whose sizes are [int]s. *)
Lemma set_flow_written {K : Kernels} {KL : KernelLaws K} cfg client draws outcomes c buf tmp st unset num_arry N :
  config_ok cfg -> CodeType (settings cfg) = "gLRC" -> 1 <= BlockSize (settings cfg) -> cfg_n cfg * BlockSize (settings cfg) < 2 ^ 31 ->
  coordinator_ok c -> cluster_ready cfg (co_tables c) -> schedulable outcomes ->
  zlen buf = cfg_n cfg * BlockSize (settings cfg) -> (forall key, tmp key <> key) ->
  exists reply c' s plans buf' parts,
    uploadSetValue cfg client (BlockSize (settings cfg) * cfg_k cfg) draws outcomes c = Some (Some reply, c') /\
    m_stripe_table c' !! m_cur_stripe_id c = Some s /\
    generate_add_plans (BlockSize (settings cfg)) s (co_tables c') = Some plans /\
    set_stripe num_arry N (stripe_id s) cfg reply buf = Some (buf', parts) /\
    (forall accepted, accepts_at (reply_addresses reply) accepted ->
       exists st', run_proxies cfg tmp plans parts accepted st = Some st' /\
         (parts_apart reply accepted -> blocks_stored cfg s (co_tables c') (stripe_of cfg buf) st')) /\
    all_committed (append_keys reply) c' = None /\
    all_committed (append_keys reply) (report_all unset plans c') = Some true.
Proof.
  intros Hcfg Hct Hbs Hfit Hc Hcr Hout Hbuf Htmp.
  destruct (set_flow_ok cfg client draws outcomes c buf tmp st unset num_arry N Hcfg Hct Hbs Hc Hcr Hout Hbuf Htmp)
    as (reply & c' & s & plans & H1 & H2 & H3 & _ & H4 & H5 & H6).
  destruct (H4 Hfit) as (buf' & parts & H7 & H8). exists reply, c', s, plans, buf', parts. auto 10.
Qed.

(** A single plan gets its own part. *)
Lemma one_plan_apart reply accepted : (length (reply_addresses reply) <= 1)%nat -> parts_apart reply accepted.
Proof.
  intros H. left. destruct (reply_addresses reply) as [|a [|b l]]; cbn [length] in H; [constructor|apply NoDup_singleton|lia].
Qed.
