(* ===== verification/ReadPath.v ===== *)
(** Reading data blocks: the coordinator's requests ([getStripe], [getBlocks] of
    [coordinator.cpp]), the proxies that fetch the blocks and send them to the
    client ([getBlocks] of [proxy.cpp]), and the client that collects them
    ([get], [get_blocks] of [client.cpp]). *)
From S2P Require Import Prelude GF256 EcKernel RepairPlan Toolbox Placement Coordinator AppendPlan Client DataNode ProxyAppend StripeWrite.

(** * The coordinator *)

(** One entry of the repeated fields of [StripeAndBlockIDs]. *)
Record BlockRequest := { br_id : Z; br_key : string; br_ip : string; br_port : Z }.

Definition request_block (s : Stripe) (t : Tables) (id b : Z) : BlockRequest :=
  let blk := (blocks s).[b] in
  {| br_id := id; br_key := block_key blk; br_ip := node_ip (node_of_block t blk); br_port := node_port (node_of_block t blk) |}.

Definition getStripeFromProxy (s : Stripe) (t : Tables) (block_ids : list Z) : list BlockRequest :=
  map (fun b => request_block s t b b) block_ids.

(** The coordinator's copy of the client's counts, without RS. *)
Definition coordinator_data_block_num_per_group (k r z : Z) (code_type : string) : list Z :=
  if String.eqb code_type "RS" then [] else get_data_block_num_per_group [] k r z code_type.

(** The data blocks of group [i]. *)
Definition group_data_ids (s : Stripe) (i : Z) : list Z :=
  List.filter (fun b => block_id (blocks s).[b] <? st_k s) (default [] (group_to_blocks s !! i)).

Definition num_data_groups (code_type : string) (s : Stripe) : Z :=
  if String.eqb code_type "UniLRC" then num_groups s else num_groups s - 1.

(** What the reply tells the client of a group. *)
Record GroupReply := { gr_proxy_ip : string; gr_proxy_port : Z; gr_slices : Z }.

(** The reply, and the request sent to the proxy of each group. *)
Definition getStripe (cfg : SysConfig) (id : Z) (c : Coordinator) : option (list GroupReply * list (list BlockRequest)) :=
  match m_stripe_table c !! id with
  | None => None
  | Some s =>
      let t := co_tables c in
      let ct := CodeType (settings cfg) in
      let block_num_per_group := coordinator_data_block_num_per_group (st_k s) (cfg_r cfg) (cfg_z cfg) ct in
      let groups := zseq (num_data_groups ct s) in
      let cluster i := cluster_at t (map2cluster (blocks s).[(default [] (group_to_blocks s !! i)).[0]]) in
      Some (map (fun i => {| gr_proxy_ip := cluster_proxy_ip (cluster i); gr_proxy_port := cluster_proxy_port (cluster i);
                             gr_slices := block_num_per_group.[i] |}) groups,
            map (fun i => getStripeFromProxy s t (group_data_ids s i)) groups)
  end.

(** [unique_cluster_ids]: each cluster where it occurs first. *)
Definition unique_clusters (l : list Z) : list Z :=
  fold_left (fun acc c => if bool_decide (c ∈ acc) then acc else acc ++ [c]) l [].

(** One request per cluster, for the blocks [start_block_id .. end_block_id] of
    the whole store; [None]: a stripe that does not exist. *)
Definition getBlocks (cfg : SysConfig) (start_block_id end_block_id : Z) (c : Coordinator) : option (list (Z * list BlockRequest)) :=
  let ids := seqZ start_block_id (end_block_id - start_block_id + 1) in
  let stripe i := m_stripe_table c !! (i / cfg_k cfg) in
  if forallb (fun i => bool_decide (is_Some (stripe i))) ids then
    let block i := (blocks (default (upload_stripe cfg 0 "") (stripe i))).[i mod cfg_k cfg] in
    let entry i := request_block (default (upload_stripe cfg 0 "") (stripe i)) (co_tables c) (i - start_block_id) (i mod cfg_k cfg) in
    Some (map (fun cl => (cl, map entry (List.filter (fun i => map2cluster (block i) =? cl) ids)))
            (unique_clusters (map (fun i => map2cluster (block i)) ids)))
  else None.

(** * The proxy *)

(** [GetFromDatanode] into a part of the buffer; [junk] is what the data node's
    own buffer held. *)
Definition GetFromDatanode (bs : Z) (junk : list byte) (st : Storage) (q : BlockRequest) : list byte :=
  handleGet (br_key q) bs junk (files_at (br_ip q) (br_port q) st).

(** The thread that fetches block [i] is started, then block [i] is sent without
    waiting for it: [Fetched] when it was done by then, [junk] being what the two
    buffers held before; otherwise the bytes that were in the buffer.  The block
    is fetched to [blocks + i * BlockSize], a product of [int]s, and sent from
    [blocks + i * (size_t)BlockSize]: where they differ, what is sent is what the
    buffer held. *)
Inductive Overtaken := Fetched (junk : list byte) | Early (bytes : list byte).

Definition send_block (bs : Z) (st : Storage) (i : Z) (when : Overtaken) (q : BlockRequest) : Z * list byte :=
  (uint32 (br_id q),
   match when with
   | Fetched junk => if int32 (i * bs) =? i * bs then GetFromDatanode bs junk st q else junk
   | Early bytes => bytes
   end).

Definition proxy_getBlocks (bs : Z) (st : Storage) (when : nat -> Overtaken) (request : list BlockRequest) : list (Z * list byte) :=
  imap (fun i q => send_block bs st (Z.of_nat i) (when i) q) request.

(** * The client *)

(** [count] threads accept one connection each, whatever order they come in:
    the id and the block, stored at the block's place.  [None]: the client still
    waits. *)
Definition client_receive (count bs : Z) (arrivals : list (Z * list byte)) (buf : list byte) : option (list byte) :=
  if zlen arrivals <? count then None
  else Some (fold_left (fun buf '(id, bytes) => poke (id * bs) bytes buf) (ztake count arrivals) buf).

(** * Collecting the blocks *)

Lemma ztake_all {A} (l : list A) m : zlen l <= m -> ztake m l = l.
Proof. intros H. unfold ztake. apply take_ge. lia. Qed.

Lemma buffer_concat bs (content : Z -> list byte) m : 0 <= bs -> 0 <= m -> forall buf, zlen buf = m * bs ->
  (forall q, 0 <= q < m -> peek bs (q * bs) buf = content q) -> buf = concat (map content (zseq m)).
Proof.
  intros Hbs Hm. pattern m. apply natlike_ind; [|clear m Hm; intros m Hm IH|exact Hm].
  - intros buf Hl _. destruct buf; [reflexivity|cbn [length] in Hl; lia].
  - intros buf Hl Hq. unfold Z.succ in *. rewrite seqZ_app, map_app, concat_app by lia.
    replace (seqZ (0 + m) 1) with [m] by (replace (0 + m) with m by lia; reflexivity). cbn [map concat]. rewrite app_nil_r.
    rewrite <- (take_drop (Z.to_nat (m * bs)) buf) at 1. f_equal.
    + apply IH; [rewrite length_take; lia|]. intros q Hq0. rewrite <- Hq by lia. unfold peek, ztake, zdrop.
      rewrite skipn_firstn_comm, firstn_firstn. f_equal. nia.
    + rewrite <- Hq by lia. unfold peek, ztake, zdrop. rewrite take_ge by (rewrite length_drop; lia). reflexivity.
Qed.

Lemma receive_all count bs (content : Z -> list byte) arrivals buf : 0 <= count -> 0 <= bs -> zlen buf = count * bs ->
  arrivals ≡ₚ map (fun i => (i, content i)) (zseq count) -> (forall i, 0 <= i < count -> zlen (content i) = bs) ->
  client_receive count bs arrivals buf = Some (concat (map content (zseq count))).
Proof.
  intros Hc Hbs Hl Hp Hlen. unfold client_receive.
  assert (Hn : zlen arrivals = count) by (rewrite Hp, length_map, zlen_seqZ; lia).
  destruct (Z.ltb_spec (zlen arrivals) count); [lia|]. rewrite ztake_all by lia. f_equal.
  assert (Hin : forall i, 0 <= i < zlen arrivals -> 0 <= fst arrivals.[i] < count /\ snd arrivals.[i] = content (fst arrivals.[i])).
  { intros i Hi. assert (H1 : In arrivals.[i] (map (fun i => (i, content i)) (zseq count))).
    { rewrite <- Hp. apply zget_In, Hi. }
    apply in_map_iff in H1 as (j & <- & Hj). apply in_zseq in Hj. auto. }
  assert (Eids : map fst arrivals ≡ₚ zseq count).
  { rewrite Hp, map_map. cbn [fst]. rewrite map_id. reflexivity. }
  assert (Efold : fold_left (fun buf '(id, bytes) => poke (id * bs) bytes buf) arrivals buf =
                  poke_all (map (fun p => p * bs) (map fst arrivals)) (map snd arrivals) buf).
  { unfold poke_all. clear. revert buf. induction arrivals as [|[id bytes] l IH]; intros buf; [reflexivity|]. cbn. apply IH. }
  rewrite Efold. destruct (poke_all_spec bs (map fst arrivals) Hbs) with (blocks := map snd arrivals) (buf := buf) as (A1 & A2 & _).
  - rewrite Eids. apply NoDup_seqZ.
  - intros p Hp0. rewrite Eids in Hp0. apply elem_of_seqZ in Hp0. rewrite Hl. nia.
  - rewrite !length_map. reflexivity.
  - intros i Hi. rewrite length_map in Hi. rewrite zget_map by exact Hi. destruct (Hin i Hi) as [H1 ->]. apply Hlen, H1.
  - apply (buffer_concat bs); [exact Hbs|exact Hc|lia|]. intros q Hq.
    assert (Hqin : In q (map fst arrivals)) by (rewrite Eids; apply in_zseq, Hq). apply In_zget in Hqin as (i & Hi & Ei).
    rewrite <- Ei at 1. rewrite A2 by exact Hi. rewrite length_map in Hi. rewrite !zget_map in * by exact Hi.
    destruct (Hin i Hi) as [_ ->]. congruence.
Qed.

Lemma receive_blocked count bs arrivals buf : zlen arrivals < count -> client_receive count bs arrivals buf = None.
Proof. intros H. unfold client_receive. destruct (Z.ltb_spec (zlen arrivals) count); [reflexivity|lia]. Qed.

(** * Sending the blocks *)

(** Every fetch ends before its block is sent. *)
Definition in_time (bs : Z) (when : nat -> Overtaken) : Prop := forall i, exists junk, when i = Fetched junk /\ zlen junk = bs.

Definition stored (st : Storage) (q : BlockRequest) (bytes : list byte) : Prop :=
  files_at (br_ip q) (br_port q) st !! br_key q = Some bytes.

Lemma fetch_stored bs junk st q bytes : stored st q bytes -> zlen bytes = bs -> zlen junk = bs -> GetFromDatanode bs junk st q = bytes.
Proof.
  intros Hs Hb Hj. unfold GetFromDatanode, handleGet. rewrite Hs, !ztake_all by lia.
  unfold zdrop. rewrite drop_ge by lia. apply app_nil_r.
Qed.

Lemma proxy_sends bs st when request content : in_time bs when -> 0 <= bs -> zlen request * bs <= 2 ^ 31 ->
  Forall (fun q => 0 <= br_id q < 2 ^ 32 /\ stored st q (content (br_id q)) /\ zlen (content (br_id q)) = bs) request ->
  proxy_getBlocks bs st when request = map (fun q => (br_id q, content (br_id q))) request.
Proof.
  intros Hw Hbs Hsmall Hq. rewrite Forall_forall in Hq. unfold proxy_getBlocks. apply list_eq. intros n.
  rewrite list_lookup_imap, list_lookup_fmap. destruct (request !! n) as [q|] eqn:E; [|reflexivity]. cbn [fmap option_fmap option_map]. f_equal.
  destruct (Hq q (list_elem_of_lookup_2 _ _ _ E)) as (Hi & Hs & Hl). pose proof (lookup_lt_Some _ _ _ E) as Hn.
  unfold send_block. destruct (Hw n) as (junk & -> & Hj). unfold uint32. rewrite Z.mod_small by lia.
  rewrite int32_id, Z.eqb_refl by nia. f_equal. apply (fetch_stored bs); assumption.
Qed.

Lemma filter_zlen_le {A} (p : A -> bool) (l : list A) : zlen (List.filter p l) <= zlen l.
Proof. induction l as [|x l IH]; [reflexivity|]. cbn [List.filter]. destruct (p x); cbn [length]; lia. Qed.

Lemma concat_filter_perm {A} (f : A -> Z) (l : list A) gs : NoDup gs ->
  concat (map (fun g => List.filter (fun x => f x =? g) l) gs) ≡ₚ List.filter (fun x => bool_decide (f x ∈ gs)) l.
Proof.
  intros Hnd. induction Hnd as [|g gs Hg Hnd IH]; cbn [map concat].
  - induction l as [|x l IHl]; [reflexivity|]. cbn [List.filter]. rewrite bool_decide_eq_false_2 by apply not_elem_of_nil. exact IHl.
  - rewrite IH. clear IH Hnd. induction l as [|x l IHl]; [reflexivity|]. cbn [List.filter].
    destruct (Z.eqb_spec (f x) g) as [E|E].
    + rewrite (bool_decide_eq_true_2 (f x ∈ g :: gs)) by (rewrite E; left).
      rewrite (bool_decide_eq_false_2 (f x ∈ gs)) by (rewrite E; exact Hg). cbn [app]. rewrite IHl. reflexivity.
    + destruct (bool_decide_reflect (f x ∈ gs)) as [Hin|Hout].
      * rewrite (bool_decide_eq_true_2 (f x ∈ g :: gs)) by (right; exact Hin). rewrite <- Permutation_middle, IHl. reflexivity.
      * rewrite bool_decide_eq_false_2 by (rewrite elem_of_cons; tauto). exact IHl.
Qed.

Lemma concat_filter_all {A} (f : A -> Z) (l : list A) gs : NoDup gs -> (forall x, x ∈ l -> f x ∈ gs) ->
  concat (map (fun g => List.filter (fun x => f x =? g) l) gs) ≡ₚ l.
Proof.
  intros Hnd Hin. rewrite concat_filter_perm by exact Hnd. apply Permutation_refl', filter_all.
  intros x Hx. apply bool_decide_eq_true_2, Hin, list_elem_of_In, Hx.
Qed.

(** What the proxies of several requests send, together. *)
Lemma proxies_send bs st (whens : nat -> nat -> Overtaken) requests content : (forall j, in_time bs (whens j)) ->
  0 <= bs -> Forall (fun request => zlen request * bs <= 2 ^ 31) requests ->
  Forall (Forall (fun q => 0 <= br_id q < 2 ^ 32 /\ stored st q (content (br_id q)) /\ zlen (content (br_id q)) = bs)) requests ->
  concat (imap (fun j q => proxy_getBlocks bs st (whens j) q) requests) = map (fun i => (i, content i)) (map br_id (concat requests)).
Proof.
  intros Hw Hbs Hsm Hq. revert whens Hw Hsm. induction Hq as [|q requests H Hq IH]; intros whens Hw Hsm; [reflexivity|].
  apply Forall_cons in Hsm as [Hq0 Hsm]. cbn [imap concat]. rewrite (map_app br_id), map_app, map_map. f_equal.
  - apply proxy_sends; auto.
  - apply (IH (fun j => whens (S j))); [intros j; apply Hw|exact Hsm].
Qed.

(** * Reading a range of blocks *)

Lemma unique_clusters_spec l : NoDup (unique_clusters l) /\ forall c, c ∈ unique_clusters l <-> c ∈ l.
Proof.
  assert (H : forall acc, NoDup acc ->
    let u := fold_left (fun acc c => if bool_decide (c ∈ acc) then acc else acc ++ [c]) l acc in
    NoDup u /\ forall c, c ∈ u <-> c ∈ acc \/ c ∈ l).
  { induction l as [|x l IH]; intros acc Hnd; cbn [fold_left]; [split; [exact Hnd|]; intros c; rewrite elem_of_nil; tauto|].
    destruct (bool_decide_reflect (x ∈ acc)) as [Hin|Hout].
    - destruct (IH acc Hnd) as [I1 I2]. split; [exact I1|]. intros c. rewrite I2, elem_of_cons. naive_solver.
    - destruct (IH (acc ++ [x])) as [I1 I2].
      { apply NoDup_app. split; [exact Hnd|]. split; [|apply NoDup_singleton]. intros y Hy ->%list_elem_of_singleton. contradiction. }
      split; [exact I1|]. intros c. rewrite I2, elem_of_app, list_elem_of_singleton, elem_of_cons. tauto. }
  destruct (H [] ltac:(constructor)) as [H1 H2]. split; [exact H1|]. intros c. unfold unique_clusters. rewrite H2, elem_of_nil. tauto.
Qed.

Lemma shift_zseq a m : 0 <= m -> map (fun x => x - a) (seqZ a m) = zseq m.
Proof.
  intros Hm. apply zlist_ext; [rewrite length_map, !zlen_seqZ; lia|]. rewrite length_map, zlen_seqZ. intros j Hj.
  rewrite zget_map by (rewrite zlen_seqZ; lia). rewrite zget_zseq, zget_seqZ by lia. lia.
Qed.

Lemma get_blocks_returns cfg c st start m (content : Z -> list byte) : 1 <= cfg_k cfg -> 0 <= start -> 0 <= m < 2 ^ 32 ->
  0 <= BlockSize (settings cfg) -> m * BlockSize (settings cfg) <= 2 ^ 31 ->
  (forall i, 0 <= i < m -> zlen (content i) = BlockSize (settings cfg) /\
     exists s, m_stripe_table c !! ((start + i) / cfg_k cfg) = Some s /\
       stored st (request_block s (co_tables c) i ((start + i) mod cfg_k cfg)) (content i)) ->
  exists requests, getBlocks cfg start (start + m - 1) c = Some requests /\
    forall whens arrivals buf, (forall j, in_time (BlockSize (settings cfg)) (whens j)) ->
      arrivals ≡ₚ concat (imap (fun j q => proxy_getBlocks (BlockSize (settings cfg)) st (whens j) q) (map snd requests)) ->
      zlen buf = m * BlockSize (settings cfg) ->
      client_receive m (BlockSize (settings cfg)) arrivals buf = Some (concat (map content (zseq m))).
Proof.
  intros Hk Hs Hm Hbs Hfit Hall. unfold getBlocks. replace (start + m - 1 - start + 1) with m by lia.
  replace (forallb _ _) with true.
  2: { symmetry. apply forallb_forall. intros i Hi. apply list_elem_of_In, elem_of_seqZ in Hi. apply bool_decide_eq_true_2.
       destruct (Hall (i - start) ltac:(lia)) as (_ & s & E & _). replace (start + (i - start)) with i in E by lia. eauto. }
  eexists. split; [reflexivity|]. intros whens arrivals buf Hw Ha Hl. apply receive_all; [lia|exact Hbs|exact Hl| |intros i Hi; apply Hall, Hi].
  rewrite Ha. clear Ha.
  set (block := fun i => (blocks (default (upload_stripe cfg 0 "") (m_stripe_table c !! (i / cfg_k cfg)))).[i mod cfg_k cfg]).
  set (entry := fun i => request_block (default (upload_stripe cfg 0 "") (m_stripe_table c !! (i / cfg_k cfg))) (co_tables c) (i - start) (i mod cfg_k cfg)).
  set (ids := seqZ start m). destruct (unique_clusters_spec (map (fun i => map2cluster (block i)) ids)) as [U1 U2].
  rewrite map_map. cbn [snd].
  rewrite (proxies_send _ _ _ _ content Hw Hbs).
  - apply Permutation_map. rewrite <- (map_map (fun cl => List.filter (fun i => map2cluster (block i) =? cl) ids) (map entry)).
    rewrite <- concat_map, map_map. cbn [entry br_id request_block].
    rewrite (concat_filter_all (fun i => map2cluster (block i)) ids); [|exact U1|].
    + unfold ids. rewrite shift_zseq by lia. reflexivity.
    + intros x Hx. apply U2. apply list_elem_of_In, in_map_iff. exists x. split; [reflexivity|apply list_elem_of_In, Hx].
  - apply Forall_forall. intros q Hq. apply list_elem_of_In, in_map_iff in Hq as (cl & <- & _). rewrite length_map.
    pose proof (filter_zlen_le (fun i => map2cluster (block i) =? cl) ids) as Hle. unfold ids in Hle at 2. rewrite zlen_seqZ in Hle.
    apply (Z.le_trans _ (m * BlockSize (settings cfg))); [apply Z.mul_le_mono_nonneg_r; [exact Hbs|unfold block in Hle; lia]|exact Hfit].
  - apply Forall_forall. intros q Hq. apply list_elem_of_In, in_map_iff in Hq as (cl & <- & _). apply Forall_forall. intros q Hq.
    apply list_elem_of_In, in_map_iff in Hq as (i & <- & Hi). apply filter_In in Hi as [Hi _]. unfold ids in Hi.
    apply list_elem_of_In, elem_of_seqZ in Hi. cbn [entry br_id request_block]. split; [lia|].
    destruct (Hall (i - start) ltac:(lia)) as (H1 & s & E & H2). replace (start + (i - start)) with i in E, H2 by lia.
    split; [|exact H1]. unfold entry. rewrite E. exact H2.
Qed.

(** * Reading a stripe *)

Lemma filter_lt_zseq k n : 0 <= k <= n -> List.filter (fun b => b <? k) (zseq n) = zseq k.
Proof.
  intros H. replace n with (k + (n - k)) by lia. rewrite seqZ_app, List.filter_app by lia. rewrite filter_all, filter_none.
  - apply app_nil_r.
  - intros x Hx. apply list_elem_of_In, elem_of_seqZ in Hx. apply Z.ltb_ge. lia.
  - intros x Hx. apply in_zseq in Hx. apply Z.ltb_lt. lia.
Qed.

Section Stripe.
Context (cfg : SysConfig) (id : Z) (c : Coordinator) (s : Stripe).
Context (Hs : m_stripe_table c !! id = Some s) (Hkn : 0 <= st_k s <= st_n s).
Context (Hid : forall b, 0 <= b < st_n s -> block_id (blocks s).[b] = b).
Context (Hgroups : forall g, group_to_blocks s !! g =
  match List.filter (fun b => map2group (blocks s).[b] =? g) (zseq (st_n s)) with [] => None | l => Some l end).
Abbreviation bs := (BlockSize (settings cfg)).
Abbreviation G := (num_data_groups (CodeType (settings cfg)) s).

Lemma group_data_ids_eq g : group_data_ids s g = List.filter (fun b => map2group (blocks s).[b] =? g) (zseq (st_k s)).
Proof.
  unfold group_data_ids. rewrite Hgroups. replace (default [] _) with (List.filter (fun b => map2group (blocks s).[b] =? g) (zseq (st_n s)))
    by (destruct (List.filter _ (zseq (st_n s))); reflexivity).
  rewrite (filter_ext_in _ (fun b => b <? st_k s)).
  - rewrite filter_filter_and, <- (filter_lt_zseq (st_k s) (st_n s) Hkn), filter_filter_and. apply filter_ext. intros b. apply andb_comm.
  - intros b Hb. apply filter_In in Hb as [Hb _]. apply in_zseq in Hb. rewrite Hid by exact Hb. reflexivity.
Qed.

(** The requests, and the blocks they name. *)
Lemma getStripe_requests : exists reply, getStripe cfg id c = Some (reply, map (fun g => getStripeFromProxy s (co_tables c) (group_data_ids s g)) (zseq G)) /\
  map br_id (concat (map (fun g => getStripeFromProxy s (co_tables c) (group_data_ids s g)) (zseq G))) ≡ₚ
  List.filter (fun b => bool_decide (map2group (blocks s).[b] ∈ zseq G)) (zseq (st_k s)).
Proof.
  unfold getStripe. rewrite Hs. eexists. split; [reflexivity|].
  rewrite <- (concat_filter_perm (fun b => map2group (blocks s).[b])) by apply NoDup_seqZ.
  rewrite concat_map, map_map. apply Permutation_refl'. f_equal. apply map_ext. intros g. rewrite <- group_data_ids_eq.
  unfold getStripeFromProxy. rewrite map_map. apply map_id.
Qed.

Lemma get_stripe_returns st (content : Z -> list byte) : 0 <= bs -> st_k s < 2 ^ 32 -> st_k s * bs <= 2 ^ 31 ->
  (forall b, 0 <= b < st_k s -> 0 <= map2group (blocks s).[b] < G) ->
  (forall b, 0 <= b < st_k s -> stored st (request_block s (co_tables c) b b) (content b) /\ zlen (content b) = bs) ->
  exists reply requests, getStripe cfg id c = Some (reply, requests) /\
    forall whens arrivals buf, (forall j, in_time bs (whens j)) ->
      arrivals ≡ₚ concat (imap (fun j q => proxy_getBlocks bs st (whens j) q) requests) -> zlen buf = st_k s * bs ->
      client_receive (st_k s) bs arrivals buf = Some (concat (map content (zseq (st_k s)))).
Proof.
  intros Hbs Hk Hfit Hg Hst. destruct getStripe_requests as (reply & E & Hp). eexists reply, _. split; [exact E|].
  intros whens arrivals buf Hw Ha Hl. apply receive_all; [lia|exact Hbs|exact Hl| |intros i Hi; apply Hst, Hi].
  rewrite Ha, (proxies_send _ _ _ _ content Hw Hbs).
  - apply Permutation_map. rewrite Hp. apply Permutation_refl', filter_all. intros b Hb. apply in_zseq in Hb.
    apply bool_decide_eq_true_2, elem_of_seqZ. specialize (Hg b Hb). lia.
  - apply Forall_forall. intros q Hq. apply list_elem_of_In, in_map_iff in Hq as (g & <- & _). unfold getStripeFromProxy.
    rewrite length_map, group_data_ids_eq. pose proof (filter_zlen_le (fun b => map2group (blocks s).[b] =? g) (zseq (st_k s))) as Hle.
    rewrite zlen_seqZ in Hle. apply (Z.le_trans _ (st_k s * bs)); [apply Z.mul_le_mono_nonneg_r; lia|exact Hfit].
  - apply Forall_forall. intros q Hq. apply list_elem_of_In, in_map_iff in Hq as (g & <- & _). apply Forall_forall. intros q Hq.
    apply list_elem_of_In, in_map_iff in Hq as (b & <- & Hb). rewrite group_data_ids_eq in Hb. apply filter_In in Hb as [Hb _].
    apply in_zseq in Hb. cbn [br_id request_block]. split; [lia|]. apply Hst, Hb.
Qed.

(** A data block in a group that is left out keeps the client waiting. *)
Lemma get_stripe_waits st b : 0 <= b < st_k s -> ~ 0 <= map2group (blocks s).[b] < G ->
  exists reply requests, getStripe cfg id c = Some (reply, requests) /\
    forall whens arrivals buf, arrivals ≡ₚ concat (imap (fun j q => proxy_getBlocks bs st (whens j) q) requests) ->
      client_receive (st_k s) bs arrivals buf = None.
Proof.
  intros Hb Hg. destruct getStripe_requests as (reply & E & Hp). eexists reply, _. split; [exact E|].
  intros whens arrivals buf Ha. apply receive_blocked. rewrite Ha.
  assert (Hlen : forall (w : nat -> nat -> Overtaken) rs, length (concat (imap (fun j q => proxy_getBlocks bs st (w j) q) rs)) = length (map br_id (concat rs))).
  { intros w rs. revert w. induction rs as [|q rs IH]; intros w; [reflexivity|]. cbn [imap concat].
    rewrite map_app, !length_app, length_map. f_equal; [unfold proxy_getBlocks; apply length_imap|]. apply (IH (fun j => w (S j))). }
  rewrite Hlen, Hp. pose proof (filter_partition_perm (fun b => bool_decide (map2group (blocks s).[b] ∈ zseq G)) (zseq (st_k s))) as Hpart.
  apply Permutation_length in Hpart. rewrite length_app in Hpart.
  assert (Hin : In b (List.filter (fun b => negb (bool_decide (map2group (blocks s).[b] ∈ zseq G))) (zseq (st_k s)))).
  { apply filter_In. split; [apply in_zseq, Hb|]. rewrite bool_decide_eq_false_2; [reflexivity|]. rewrite elem_of_seqZ. lia. }
  pose proof (zlen_seqZ 0 (st_k s)). destruct (List.filter (fun b => negb _) _); [destruct Hin|]. cbn [length] in Hpart. lia.
Qed.
End Stripe.
