(* ===== verification/SingleRepair.v ===== *)
(** Repair of one lost block: the coordinator chooses the groups to read
    ([get_recovery_group_ids], [recovery_one_block], [degraded_read_one_block] of
    [coordinator.cpp]), the proxies read, decode and, across clusters, add up the
    partial results ([degradedRead], [recovery], [degradedRead2Client] of
    [proxy.cpp]), and the block goes to a replacement node or to the client
    ([get_degraded_read_block] of [client.cpp]). *)
From S2P Require Import Prelude GF256 EcKernel Groups Codes Decode RepairPlan Toolbox Placement Coordinator AppendPlan Client DataNode ProxyAppend ReadPath.

(** * Which groups take part *)

(** [x / y + bool(x % y)] *)
Definition div_up (x y : Z) : Z := x / y + (if x mod y =? 0 then 0 else 1).

(** [for (i = lo; i < hi; i++) if (i != g) push_back(i)] *)
Definition other_groups (lo hi g : Z) : list Z := List.filter (fun i => negb (i =? g)) (seqZ lo (hi - lo)).

Definition azure_recovery_groups (k r z f : Z) : list Z :=
  if (k <=? f) && (f <? k + r) then seqZ 1 z
  else if k + r <=? f then [f - k - r]
  else [f / (k / z)].

Definition unilrc_recovery_groups (k r z f : Z) : list Z :=
  if (k <=? f) && (f <? k + r) then [(f - k) / (r / z)]
  else if k + r <=? f then [f - k - r]
  else [f / (k / z)].

Definition optimal_recovery_groups (k r z f : Z) : list Z :=
  if (k <=? f) && (f <? k + r) then
    let group_num := div_up (k / z) (r + 1) * z + 1 in
    (group_num - 1) :: zseq (group_num / z)
  else
    let per_local := k / z / (r + 1) + 1 in
    let group_num := z * per_local + 1 in
    if k + r <=? f then
      let l := f - k - r in
      ((l + 1) * per_local - 1) :: seqZ (l * per_local) (per_local - 1) ++ [group_num - 1]
    else
      let l := f / (k / z) in
      let g := f mod (k / z) / (r + 1) in
      (l * per_local + g) :: map (fun i => l * per_local + i) (other_groups 0 per_local g) ++ [group_num - 1].

Definition glrc_recovery_groups (k r z f : Z) : list Z :=
  if f <? k + r then [glrc_payload_group_id f k r z] else [f - k - r].

Definition uniform_recovery_groups (k r z f : Z) : list Z :=
  let larger := (k + r) mod z in
  let smaller := z - larger in
  let size := (k + r) / z in
  let per_local := div_up size r in
  let before := smaller * per_local in
  let per_larger := div_up (size + 1) r in
  if k + r <=? f then
    let l := f - k - r in
    if l + larger <? z then ((l + 1) * per_local - 1) :: seqZ (l * per_local) (per_local - 1)
    else
      let l := l - smaller in
      (before + (l + 1) * per_larger - 1) :: seqZ (before + l * per_larger) (per_larger - 1)
  else if f <? smaller * size then
    let l := f / size in
    let g := l * per_local + (f - l * size) / r in
    g :: other_groups (l * per_local) (l * per_local + per_local) g
  else
    let l := (f - smaller * size) / (size + 1) in
    let g := l * per_larger + (f - (l * (size + 1) + smaller * size)) / r in
    (g + before) :: map (fun i => i + before) (other_groups (l * per_larger) (l * per_larger + per_larger) g).

Definition get_recovery_group_ids (code_type : string) (k r z failed_block_id : Z) : list Z :=
  if String.eqb code_type "AzureLRC" then azure_recovery_groups k r z failed_block_id
  else if String.eqb code_type "UniLRC" then unilrc_recovery_groups k r z failed_block_id
  else if String.eqb code_type "OptimalLRC" then optimal_recovery_groups k r z failed_block_id
  else if String.eqb code_type "gLRC" then glrc_recovery_groups k r z failed_block_id
  else if String.eqb code_type "UniformLRC" then uniform_recovery_groups k r z failed_block_id
  else [].

Definition init_recovery_group_lookup_table (cfg : SysConfig) : gmap Z (list Z) :=
  list_to_map (map (fun i => (i, get_recovery_group_ids (CodeType (settings cfg)) (cfg_k cfg) (cfg_r cfg) (cfg_z cfg) i))
    (zseq (cfg_n cfg))).

(** * The requests *)

Record DegradedReadRequest := {
  dr_client : string * Z; dr_failed_id : Z; dr_failed_key : string; dr_sources : list BlockRequest }.

(** [rq_replaced] is the replacement node, or the client of a degraded read;
    [rq_block_id_to_send]: present when [is_to_send_block_id] is set. *)
Record RecoveryRequest := {
  rq_failed_id : Z; rq_failed_key : string; rq_replaced : string * Z; rq_cross_rack_num : Z;
  rq_proxies : list (string * Z); rq_sources : list BlockRequest; rq_block_id_to_send : option Z }.

(** The calls of one repair: the partial reads, each with the proxy it goes to,
    and the request to the proxy that finishes. *)
Record RepairCalls := {
  rc_partial : list ((string * Z) * DegradedReadRequest);
  rc_final : (string * Z) * RecoveryRequest }.

Definition get_cluster_id_by_group_id (s : Stripe) (group_id : Z) : option Z :=
  match group_to_blocks s !! group_id with
  | Some (b :: _) => Some (map2cluster (blocks s).[b])
  | _ => None
  end.

Definition proxy_of_cluster (t : Tables) (cluster : Z) : string * Z :=
  (cluster_proxy_ip (cluster_at t cluster), cluster_proxy_port (cluster_at t cluster)).

(** The entry of [t_stripe.blocks[b]] in a request. *)
Definition source_block (s : Stripe) (t : Tables) (b : Z) : BlockRequest := request_block s t (block_id (blocks s).[b]) b.

(** The blocks of a group that are read, in the order of the group.  AzureLRC
    reads at most [k / z] of them. *)
Definition at_most (cfg : SysConfig) (ids : list Z) : list Z :=
  if String.eqb (CodeType (settings cfg)) "AzureLRC" then ztake (cfg_k cfg / cfg_z cfg) ids else ids.

Definition group_of_stripe (s : Stripe) (g : Z) : list Z := default [] (group_to_blocks s !! g).

Definition partial_sources (cfg : SysConfig) (s : Stripe) (f g : Z) : list Z :=
  at_most cfg (List.filter (fun b =>
    negb ((String.eqb (CodeType (settings cfg)) "AzureLRC" && (cfg_k cfg + cfg_r cfg <=? b)) || (b =? f))) (group_of_stripe s g)).

Definition rest_of (s : Stripe) (f g : Z) : list Z := List.filter (fun b => negb (b =? f)) (group_of_stripe s g).

(** A repair that reads one group. *)
Definition single_group_calls (s : Stripe) (t : Tables) (f g cluster : Z) (dest : string * Z) (send_id : option Z) : RepairCalls :=
  {| rc_partial := [];
     rc_final := (proxy_of_cluster t cluster,
       {| rq_failed_id := f; rq_failed_key := block_key (blocks s).[f]; rq_replaced := dest; rq_cross_rack_num := 0;
          rq_proxies := []; rq_sources := map (source_block s t) (rest_of s f g); rq_block_id_to_send := send_id |}) |}.

(** A repair across groups: every group but that of the lost block sends its
    partial result to the proxy of the lost block. *)
Definition cross_group_calls (cfg : SysConfig) (s : Stripe) (t : Tables) (f : Z) (groups clusters : list Z)
    (dest_group dest_cluster : Z) (dest : string * Z) (with_proxies : bool) (send_id : option Z) : RepairCalls :=
  let dest_proxy := proxy_of_cluster t dest_cluster in
  let others := List.filter (fun gc => negb (fst gc =? dest_group)) (zip groups clusters) in
  {| rc_partial := map (fun '(g, cl) => (proxy_of_cluster t cl,
       {| dr_client := (fst dest_proxy, snd dest_proxy + PROXY_PORT_SHIFT); dr_failed_id := f;
          dr_failed_key := block_key (blocks s).[f]; dr_sources := map (source_block s t) (partial_sources cfg s f g) |})) others;
     rc_final := (dest_proxy,
       {| rq_failed_id := f; rq_failed_key := block_key (blocks s).[f]; rq_replaced := dest;
          rq_cross_rack_num := zlen groups - 1;
          rq_proxies := if with_proxies then map (fun '(_, cl) => proxy_of_cluster t cl) others else [];
          rq_sources := map (source_block s t) (at_most cfg (rest_of s f dest_group));
          rq_block_id_to_send := send_id |}) |}.

(** The part [recovery_one_block] and [degraded_read_one_block] share, after the
    stripe and the groups are known; [target]: where the block goes, given the
    cluster that repairs it.  [None]: a group without blocks is indexed, or the
    target is never found. *)
Definition plan_one_block (cfg : SysConfig) (s : Stripe) (t : Tables) (f : Z) (target : Z -> option (string * Z)) (with_proxies : bool)
    (send_id : option Z) : option RepairCalls :=
  match get_recovery_group_ids (CodeType (settings cfg)) (cfg_k cfg) (cfg_r cfg) (cfg_z cfg) f with
  | [g] =>
      match get_cluster_id_by_group_id s g with
      | None => None
      | Some cluster => dest ← target cluster; Some (single_group_calls s t f g cluster dest send_id)
      end
  | groups =>
      let dest_group := map2group (blocks s).[f] in
      match get_cluster_id_by_group_id s dest_group, collect (map (get_cluster_id_by_group_id s) groups) with
      | Some dest_cluster, Some clusters =>
          dest ← target dest_cluster; Some (cross_group_calls cfg s t f groups clusters dest_group dest_cluster dest with_proxies send_id)
      | _, _ => None
      end
  end.

Definition recovery_one_block (cfg : SysConfig) (sid f : Z) (draws : list Z) (c : Coordinator) : option RepairCalls :=
  s ← m_stripe_table c !! sid;
  plan_one_block cfg s (co_tables c) f (fun cluster =>
    match randomly_select_a_node cluster sid (co_tables c) draws with
    | None => None
    | Some (x, _) => Some (node_ip (node_at (co_tables c) x), node_port (node_at (co_tables c) x))
    end) true None.

Definition degraded_read_one_block (cfg : SysConfig) (sid f : Z) (client : string * Z) (c : Coordinator) : option RepairCalls :=
  s ← m_stripe_table c !! sid; plan_one_block cfg s (co_tables c) f (fun _ => Some client) false None.

(** The same with the block's place in the client's buffer. *)
Definition degraded_read_one_block_for_workload (cfg : SysConfig) (sid f : Z) (client : string * Z) (id : Z) (c : Coordinator) : option RepairCalls :=
  s ← m_stripe_table c !! sid; plan_one_block cfg s (co_tables c) f (fun _ => Some client) false (Some id).

(** A degraded read of the blocks [start_block_id .. end_block_id] of the whole
    store, one after the other. *)
Definition getDegradedReadBlocks (cfg : SysConfig) (start_block_id end_block_id : Z) (client : string * Z) (c : Coordinator) : option (list RepairCalls) :=
  collect (map (fun i => degraded_read_one_block_for_workload cfg (i / cfg_k cfg) (i mod cfg_k cfg) client (i - start_block_id) c)
    (seqZ start_block_id (end_block_id - start_block_id + 1))).

(** * The proxies *)

Section Proxies.
Context {K : Kernels}.

(** The decoder of the code type; [None]: "code type error!", the process exits. *)
Definition decode_single (cfg : SysConfig) (f : Z) (ids : list Z) (bufs : list block) (res : list byte) : option (list byte) :=
  let k := cfg_k cfg in let r := cfg_r cfg in let z := cfg_z cfg in
  let ct := CodeType (settings cfg) in let bs := BlockSize (settings cfg) in
  let m := zlen ids in
  if String.eqb ct "UniLRC" then Some (decode_unilrc k r z m ids bufs res bs)
  else if String.eqb ct "AzureLRC" then Some (decode_azure_lrc k r z m ids bufs res bs f)
  else if String.eqb ct "OptimalLRC" then Some (decode_optimal_lrc k r z m ids bufs res bs f)
  else if String.eqb ct "gLRC" then Some (decode_glrc k r z m ids bufs res bs f)
  else if String.eqb ct "UniformLRC" then Some (decode_uniform_lrc k r z m ids bufs res bs f)
  else None.

(** [status[index] = GetFromDatanode(...)]: without [IF_DEBUG] it is true in any
    case. *)
Definition get_from_node (bs : Z) (junk : list byte) (st : Storage) (q : BlockRequest) : bool * list byte :=
  (true, GetFromDatanode bs junk st q).

(** What the fresh buffers of a handler hold: those of the reads, of the result
    and of the sum. *)
Record Buffers := { read_junk : nat -> list byte; res_buf : list byte; real_res_buf : list byte }.

(** What a handler comes to. *)
Inductive Outcome (A : Type) := Done (a : A) | Waiting | Exited.
#[global] Arguments Done {A} a.
#[global] Arguments Waiting {A}.
#[global] Arguments Exited {A}.

(** All blocks are read, then decoded; [Done None]: a read failed. *)
Definition read_and_decode (cfg : SysConfig) (st : Storage) (b : Buffers) (f : Z) (sources : list BlockRequest)
  : Outcome (option (list byte)) :=
  let got := imap (fun i q => get_from_node (BlockSize (settings cfg)) (read_junk b i) st q) sources in
  if forallb fst got then
    match decode_single cfg f (map br_id sources) (map snd got) (res_buf b) with
    | Some bytes => Done (Some bytes)
    | None => Exited
    end
  else Done None.

(** The bytes written to the client's port, if any. *)
Definition degradedRead (cfg : SysConfig) (st : Storage) (b : Buffers) (q : DegradedReadRequest) : Outcome (option (list byte)) :=
  read_and_decode cfg st b (dr_failed_id q) (dr_sources q).

(** [cross_rack_num] connections are accepted and read, then everything is added
    up into [real_res_buf]. *)
Definition add_partials (bs cross_rack_num : Z) (arrivals : list (list byte)) (res real_res : list byte) : Outcome (list byte) :=
  if cross_rack_num =? 0 then Done res
  else if zlen arrivals <? cross_rack_num then Waiting
  else Done (snd (xor_avx (cross_rack_num + 2) bs (ztake cross_rack_num arrivals ++ [res; real_res]))).[cross_rack_num + 1].

(** [delivered]: how many bytes reach the data node, [None] when it cannot be
    connected to. *)
Definition RecoveryToDatanode (bs : Z) (key : string) (buf : list byte) (node : string * Z) (delivered : option Z) (st : Storage)
  : bool * Storage :=
  match delivered with
  | None => (false, st)
  | Some m =>
      let d := files_at (fst node) (snd node) st in
      let '(ok, states) := handleRecovery bs key (ztake m (ztake bs buf)) d in
      (ok, <[node := final states d]> st)
  end.

(** The result of [RecoveryToDatanode] is ignored. *)
Definition proxy_recovery (cfg : SysConfig) (b : Buffers) (delivered : option Z) (q : RecoveryRequest) (arrivals : list (list byte)) (st : Storage)
  : Outcome Storage :=
  let bs := BlockSize (settings cfg) in
  match read_and_decode cfg st b (rq_failed_id q) (rq_sources q) with
  | Exited => Exited
  | Waiting => Waiting
  | Done None => Done st
  | Done (Some res) =>
      match add_partials bs (rq_cross_rack_num q) arrivals res (real_res_buf b) with
      | Done bytes => Done (snd (RecoveryToDatanode bs (rq_failed_key q) bytes (rq_replaced q) delivered st))
      | Waiting => Waiting
      | Exited => Exited
      end
  end.

(** The id, if asked for, and the bytes sent to the client; after a failed read
    the buffers as they are. *)
Definition degradedRead2Client (cfg : SysConfig) (st : Storage) (b : Buffers) (q : RecoveryRequest) (arrivals : list (list byte))
  : Outcome (option Z * list byte) :=
  let bs := BlockSize (settings cfg) in
  let id := option_map int32 (rq_block_id_to_send q) in
  match read_and_decode cfg st b (rq_failed_id q) (rq_sources q) with
  | Exited => Exited
  | Waiting => Waiting
  | Done None => Done (id, if rq_cross_rack_num q =? 0 then res_buf b else real_res_buf b)
  | Done (Some res) =>
      match add_partials bs (rq_cross_rack_num q) arrivals res (real_res_buf b) with
      | Done bytes => Done (id, bytes)
      | Waiting => Waiting
      | Exited => Exited
      end
  end.

(** * The client *)

(** [None]: [nullptr], too few bytes. *)
Definition get_degraded_read_block (bs : Z) (received : list byte) : option (list byte) :=
  if zlen received <? bs then None else Some (ztake bs received).

(** What the client of a block range reads from a connection; the id is read as
    an unsigned number. *)
Definition arrival (sent : option Z * list byte) : Z * list byte := (uint32 (default 0 (fst sent)), snd sent).
End Proxies.
