(* ===== verification/MultiRecovery.v ===== *)
(** Repair of several lost blocks of a gLRC stripe at one repair proxy:
    [multiBlockRecovery], [recovery_glrc_ilp_breakdown] and the queries around
    them in [coordinator.cpp], and the gLRC branch of [recoveryBreakdown] with its
    reads and writes in [proxy.cpp]. *)
From S2P Require Import Prelude GF256 EcKernel Groups Codes Decode RepairPlan CNum Text Toolbox Placement Coordinator AppendPlan Client DataNode ProxyAppend ReadPath SingleRepair.
From Stdlib Require Import Ascii.

(** * Settings, statuses, requests, replies *)

(** The settings of [SysConfig] that choose how a gLRC stripe is repaired. *)
Record GlrcSettings := {
  GlrcEquationPolicy : string;
  GlrcRepairMode : string;
  GlrcShardCount : Z;
  GlrcPhase2WriteBack : bool;
  GlrcHmbrEquationPolicy : string;
  GlrcHmbrP : string }.

Inductive StatusCode := INVALID_ARGUMENT | INTERNAL | UNIMPLEMENTED | UNAVAILABLE.
Inductive Status := OK | Failed (code : StatusCode) (message : string).

Definition ok (s : Status) : bool := match s with OK => true | Failed _ _ => false end.

(** [coordinator_proto::RecoveryReply] without its times. *)
Record RecoveryReply := {
  rr_success : bool;
  rr_message : string;
  rr_equation_policy : string;
  rr_repair_mode : string;
  rr_selected_equations : list string;
  rr_helper_block_ids : list Z;
  rr_helper_block_count : Z;
  rr_partition_shard_counts : list Z;
  rr_max_partition_shard_count : Z }.

Definition clear_reply : RecoveryReply :=
  {| rr_success := false; rr_message := ""; rr_equation_policy := ""; rr_repair_mode := ""; rr_selected_equations := [];
     rr_helper_block_ids := []; rr_helper_block_count := 0; rr_partition_shard_counts := []; rr_max_partition_shard_count := 0 |}.

(** [set_message(msg); set_success(ok);] *)
Definition conclude (succ : bool) (msg : string) (r : RecoveryReply) : RecoveryReply :=
  {| rr_success := succ; rr_message := msg; rr_equation_policy := rr_equation_policy r; rr_repair_mode := rr_repair_mode r;
     rr_selected_equations := rr_selected_equations r; rr_helper_block_ids := rr_helper_block_ids r;
     rr_helper_block_count := rr_helper_block_count r; rr_partition_shard_counts := rr_partition_shard_counts r;
     rr_max_partition_shard_count := rr_max_partition_shard_count r |}.

Definition with_policy (policy : string) (r : RecoveryReply) : RecoveryReply :=
  {| rr_success := rr_success r; rr_message := rr_message r; rr_equation_policy := policy; rr_repair_mode := rr_repair_mode r;
     rr_selected_equations := rr_selected_equations r; rr_helper_block_ids := rr_helper_block_ids r;
     rr_helper_block_count := rr_helper_block_count r; rr_partition_shard_counts := rr_partition_shard_counts r;
     rr_max_partition_shard_count := rr_max_partition_shard_count r |}.

Definition with_mode (mode : string) (r : RecoveryReply) : RecoveryReply :=
  {| rr_success := rr_success r; rr_message := rr_message r; rr_equation_policy := rr_equation_policy r; rr_repair_mode := mode;
     rr_selected_equations := rr_selected_equations r; rr_helper_block_ids := rr_helper_block_ids r;
     rr_helper_block_count := rr_helper_block_count r; rr_partition_shard_counts := rr_partition_shard_counts r;
     rr_max_partition_shard_count := rr_max_partition_shard_count r |}.

(** The plan's fields. *)
Definition with_plan (plan : GlrcIlpRepairPlan) (policy : string) (r : RecoveryReply) : RecoveryReply :=
  {| rr_success := rr_success r; rr_message := rr_message r; rr_equation_policy := policy; rr_repair_mode := rr_repair_mode r;
     rr_selected_equations := rr_selected_equations r ++ selected_equations plan;
     rr_helper_block_ids := rr_helper_block_ids r ++ helper_block_ids plan;
     rr_helper_block_count := helper_block_count plan; rr_partition_shard_counts := rr_partition_shard_counts r;
     rr_max_partition_shard_count := rr_max_partition_shard_count r |}.

(** The fields of [proxy_proto::RecoveryRequest] that a gLRC repair at one proxy
    sets. *)
Record IlpRequest := {
  iq_anchor : Z;
  iq_anchor_key : string;
  iq_failed_ids : list Z;
  iq_failed_keys : list string;
  iq_replaced : list (string * Z);
  iq_equations : list string;
  iq_equation_indices : list Z;
  iq_sources : list BlockRequest }.

(** * The coordinator's tables *)

(** [Stripe{}] *)
Definition empty_stripe : Stripe :=
  {| stripe_id := 0; st_k := 0; st_r := 0; st_z := 0; st_n := 0; object_keys := []; blocks := []; place2clusters := ∅;
     num_groups := 0; group_to_blocks := ∅ |}.

(** [m_stripe_table[id]]: an unknown id is entered with an empty stripe. *)
Definition stripe_at (sid : Z) (c : Coordinator) : Stripe := default empty_stripe (m_stripe_table c !! sid).
Definition touch_stripe (sid : Z) (c : Coordinator) : Coordinator :=
  with_stripe_table (<[sid := stripe_at sid c]> (m_stripe_table c)) c.

(** The keys of a [std::map<int, ...>], in its order. *)
Definition map_keys {A} (m : gmap Z A) : list Z := merge_sort Z.le (map fst (map_to_list m)).

Definition listStripes (c : Coordinator) : list Z := map_keys (m_stripe_table c).

Definition node_key (ip : string) (port : Z) : string := ip +:+ ":" +:+ to_string port.

Definition repair_proxy_key_for_node (t : Tables) (node_id : Z) : string :=
  match m_node_table t !! node_id with
  | None => ""
  | Some nd => node_key (repair_proxy_ip nd) (repair_proxy_port nd)
  end.

(** The keys of [m_proxy_ptrs] after [init_proxyinfo], whether or not the proxies
    answer. *)
Definition init_proxyinfo (t : Tables) : gset string :=
  list_to_set (List.filter (fun key => negb (String.eqb key ""))
    (map (repair_proxy_key_for_node t) (map_keys (m_node_table t)) ++
     map (fun c => node_key (cluster_proxy_ip (cluster_at t c)) (cluster_proxy_port (cluster_at t c))) (map_keys (m_cluster_table t)))).

(** [fid < 0 || fid >= blocks.size() || blocks[fid] == nullptr]; the blocks of a
    stripe are never null. *)
Definition block_invalid (s : Stripe) (fid : Z) : bool := (fid <? 0) || (zlen (blocks s) <=? fid).

(** The first invalid id, the one the reply names. *)
Definition first_invalid (s : Stripe) (ids : list Z) : option Z := List.find (block_invalid s) ids.

(** The request of a repair at one proxy: each lost block goes back to its own
    node, the helpers come in the order of the plan. *)
Definition replaced_node (s : Stripe) (t : Tables) (b : Z) : string * Z :=
  let nd := node_of_block t (blocks s).[b] in (node_ip nd, node_port nd).

Definition ilp_request (s : Stripe) (t : Tables) (failed : list Z) (anchor : Z) (plan : GlrcIlpRepairPlan) : IlpRequest :=
  {| iq_anchor := anchor;
     iq_anchor_key := block_key (blocks s).[anchor];
     iq_failed_ids := failed;
     iq_failed_keys := map (fun b => block_key (blocks s).[b]) failed;
     iq_replaced := map (replaced_node s t) failed;
     iq_equations := selected_equations plan;
     iq_equation_indices := selected_equation_indices plan;
     iq_sources := map (source_block s t) (helper_block_ids plan) |}.

(** * The handlers of the coordinator *)

(** A repair mode: what it answers, and the data nodes afterwards. *)
Definition Repair : Type := RecoveryReply -> Storage -> bool * RecoveryReply * Storage.

Section Handlers.
Context {S : StdSort} (cfg : SysConfig) (gs : GlrcSettings) (proxies : gset string).
(** The remote call to the proxy registered under a key. *)
Context (rpc : string -> IlpRequest -> Storage -> Status * Storage).

Definition recovery_glrc_ilp_breakdown (sid : Z) (failed : list Z) (c : Coordinator) : Repair := fun reply st =>
  if negb (String.eqb (CodeType (settings cfg)) "gLRC")
  then (false, conclude false "recovery_glrc_ilp_breakdown requires CodeType gLRC" reply, st)
  else
    let s := stripe_at sid c in
    let t := co_tables c in
    match first_invalid s failed with
    | Some fid => (false, conclude false ("invalid failed block id: " +:+ to_string fid) reply, st)
    | None =>
        let policy := glrc_normalize_equation_policy (GlrcEquationPolicy gs) in
        let plan := glrc_solve_repair_plan (cfg_k cfg) (cfg_r cfg) (cfg_z cfg) failed policy in
        if negb (success plan) then (false, with_policy policy (conclude false (error_message plan) reply), st)
        else
          let reply := with_plan plan policy reply in
          let anchor := failed.[0] in
          let chosen_proxy := repair_proxy_key_for_node t (map2node (blocks s).[anchor]) in
          if negb (bool_decide (chosen_proxy ∈ proxies))
          then (false, conclude false ("repair proxy stub not found: " +:+ chosen_proxy) reply, st)
          else
            match rpc chosen_proxy (ilp_request s t failed anchor plan) st with
            | (Failed _ msg, st) => (false, conclude false ("proxy recoveryBreakdown failed: " +:+ msg) reply, st)
            | (OK, st) => (true, conclude true "ok" (with_mode "phase1" reply), st)
            end
    end.

(** [modes]: the repair run by each of the other modes. *)
Definition multiBlockRecovery (modes : string -> Z -> list Z -> Coordinator -> Repair) (sid : Z) (block_ids : list Z)
    (c : Coordinator) (st : Storage) : Status * RecoveryReply * Coordinator * Storage :=
  let reply := clear_reply in
  if zlen block_ids =? 0 then
    (Failed INVALID_ARGUMENT "empty failed block list", conclude false "empty failed block list" reply, c, st)
  else if negb (String.eqb (CodeType (settings cfg)) "gLRC") then
    (Failed UNIMPLEMENTED "only gLRC supported", conclude false "multiBlockRecovery ILP path only supports gLRC" reply, c, st)
  else
    let mode := GlrcRepairMode gs in
    let run := if existsb (String.eqb mode) ["phase2"; "pipeline"; "hybrid"; "hmbr"] then modes mode sid block_ids c
               else recovery_glrc_ilp_breakdown sid block_ids c in
    let '(success, reply, st) := run reply st in
    (if success then OK else Failed INTERNAL (rr_message reply), reply, touch_stripe sid c, st).
End Handlers.

(** Every block on the node is recovered by itself, in the order of the stripes:
    the requests, [None] where [recovery_one_block] does not return. *)
Definition blocks_on_node (node_id : Z) (c : Coordinator) : list (Z * Z) :=
  flat_map (fun sid => map (fun b => (sid, block_id b)) (List.filter (fun b => map2node b =? node_id) (blocks (stripe_at sid c))))
    (map_keys (m_stripe_table c)).

Definition fullNodeRecovery (cfg : SysConfig) (node_id : Z) (draws : list (list Z)) (c : Coordinator) : Z * list (option RepairCalls) :=
  let todo := blocks_on_node node_id c in
  (zlen todo, imap (fun i '(sid, b) => recovery_one_block cfg sid b (draws.[Z.of_nat i]) c) todo).

(** ** Requests for one block *)

(** How the client names a block ... *)
Definition block_request_key (stripe_id failed_block_id : Z) : string := to_string stripe_id +:+ "_" +:+ to_string failed_block_id.

(** ... and how the coordinator reads the name: [substr(0, find('_'))] and
    [substr(find('_') + 1)], both the whole key when there is no ['_'].  [None]:
    [stoi] throws. *)
Definition parse_block_key (key : string) : option (Z * Z) :=
  let '(before, after) := cut_at "_"%char key in
  match stoi before, stoi (default key after) with
  | Some (sid, _), Some (b, _) => Some (sid, b)
  | _, _ => None
  end.

Definition getRecovery (cfg : SysConfig) (key : string) (draws : list Z) (c : Coordinator) : option RepairCalls :=
  '(sid, b) ← parse_block_key key; recovery_one_block cfg sid b draws c.

Definition getDegradedReadBlock (cfg : SysConfig) (key : string) (client : string * Z) (c : Coordinator) : option RepairCalls :=
  '(sid, b) ← parse_block_key key; degraded_read_one_block cfg sid b client c.

(** The measured variants send the same requests, the repair without the list of
    proxies. *)
Definition recovery_one_block_breakdown (cfg : SysConfig) (sid f : Z) (draws : list Z) (c : Coordinator) : option RepairCalls :=
  s ← m_stripe_table c !! sid;
  plan_one_block cfg s (co_tables c) f (fun cluster =>
    match randomly_select_a_node cluster sid (co_tables c) draws with
    | None => None
    | Some (x, _) => Some (node_ip (node_at (co_tables c) x), node_port (node_at (co_tables c) x))
    end) false None.

Definition degraded_read_one_block_breakdown (cfg : SysConfig) (sid f : Z) (client : string * Z) (c : Coordinator) : option RepairCalls :=
  s ← m_stripe_table c !! sid; plan_one_block cfg s (co_tables c) f (fun _ => Some client) false None.

(** What both variants return: the answer of the only call when one group is
    read, otherwise [true] whatever the calls answered. *)
Definition one_block_breakdown_result (cfg : SysConfig) (f : Z) (final : Status) : bool :=
  match get_recovery_group_ids (CodeType (settings cfg)) (cfg_k cfg) (cfg_r cfg) (cfg_z cfg) f with
  | [_] => ok final
  | _ => true
  end.

Definition getRecoveryBreakdown (cfg : SysConfig) (f : Z) (final : Status) : Status :=
  if one_block_breakdown_result cfg f final then OK else Failed INTERNAL "Recovery failed!".

Definition getDegradedReadBlockBreakdown (cfg : SysConfig) (f : Z) (final : Status) : Status :=
  if one_block_breakdown_result cfg f final then OK else Failed INTERNAL "Degraded read failed!".

(** ** Which blocks are on which nodes *)

Record NodesPlacementReply := {
  np_nodes : list (Z * string);
  np_stripes : list (Z * list Z) }.

(** The first node, in the order of the table, with that address. *)
Definition node_with_ip (t : Tables) (ip : string) : option Z :=
  List.find (fun x => String.eqb (node_ip (node_at t x)) ip) (map_keys (m_node_table t)).

(** The wanted nodes, or the message that refuses the first unknown one. *)
Fixpoint wanted_ids (t : Tables) (node_ids : list Z) (wanted : gset Z) : gset Z + string :=
  match node_ids with
  | [] => inl wanted
  | x :: rest => if bool_decide (is_Some (m_node_table t !! x)) then wanted_ids t rest ({[x]} ∪ wanted)
                 else inr ("unknown node_id: " +:+ to_string x)
  end.
Fixpoint wanted_ips (t : Tables) (node_ips : list string) (wanted : gset Z) : gset Z + string :=
  match node_ips with
  | [] => inl wanted
  | ip :: rest => match node_with_ip t ip with
                  | Some x => wanted_ips t rest ({[x]} ∪ wanted)
                  | None => inr ("unknown node_ip: " +:+ ip)
                  end
  end.

(** [sort] and [unique] *)
Definition sorted_set (l : list Z) : list Z := merge_sort Z.le (elements (list_to_set l : gset Z)).

(** The blocks of a stripe on wanted nodes. *)
Definition blocks_wanted (wanted : gset Z) (s : Stripe) : list Z :=
  sorted_set (map block_id (List.filter (fun b => bool_decide (map2node b ∈ wanted)) (blocks s))).

Definition getBlocksOnNodes (node_ids : list Z) (node_ips : list string) (c : Coordinator) : NodesPlacementReply + string :=
  let t := co_tables c in
  match wanted_ids t node_ids ∅ with
  | inr msg => inr msg
  | inl wanted =>
      match wanted_ips t node_ips wanted with
      | inr msg => inr msg
      | inl wanted =>
          if bool_decide (wanted = ∅) then inr "empty node list"%string
          else
            inl {| np_nodes := map (fun x => (x, node_ip (node_at t x))) (merge_sort Z.le (elements wanted));
                   np_stripes := List.filter (fun e => negb (zlen (snd e) =? 0))
                     (map (fun sid => (sid, blocks_wanted wanted (stripe_at sid c))) (map_keys (m_stripe_table c))) |}
      end
  end.

(** ** The client's side *)

(** Whether the repair succeeded, and the message. *)
Definition multi_block_recovery (status : Status) (reply : RecoveryReply) : bool * string :=
  match status with
  | Failed _ msg => (false, msg)
  | OK => (rr_success reply, rr_message reply)
  end.

(** The stripes with their lost blocks, as the client keeps them. *)
Definition get_blocks_on_nodes (answer : NodesPlacementReply + string) : gmap Z (list Z) + string :=
  match answer with
  | inr msg => inr msg
  | inl reply => inl (fold_left (fun m '(sid, ids) => <[sid := default [] (m !! sid) ++ ids]> m) (np_stripes reply) ∅)
  end.

(** * The repair proxy *)

(** What the network and the data node do to one read: whether the connection to
    the data node is made, and how many bytes arrive before it breaks. *)
Record ReadLink := { rl_connected : bool; rl_arrives : Z }.

(** ... and to one write: whether stub, connection and stream key work, how many
    bytes arrive, whether the rename succeeds, whether the answer comes back, and
    the rest of the name of the temporary file. *)
Record WriteLink := { wl_connected : bool; wl_arrives : Z; wl_renames : bool; wl_answers : bool; wl_tag : string }.

(** [GetFromDatanode] of [get_from_node_breakdown], [None] for [false]. *)
Definition GetFromDatanodeBreakdown (bs : Z) (l : ReadLink) (st : Storage) (q : BlockRequest) : option (list byte) :=
  if rl_connected l then
    let '(sent, _) := handleGetBreakdown (br_key q) bs 0 0 (files_at (br_ip q) (br_port q) st) in
    let received := ztake bs (ztake (rl_arrives l) sent) in
    if zlen received <? bs then None else Some received
  else None.

Definition recovery_tmp (key tag : string) : string := key +:+ ".recovery.tmp." +:+ tag.

Definition RecoveryToDatanodeBreakdown (bs : Z) (l : WriteLink) (key : string) (buf : list byte) (node : string * Z) (st : Storage)
  : bool * Storage :=
  if wl_connected l then
    let d := files_at (fst node) (snd node) st in
    let '(stored, states) := handleRecoveryFull bs (wl_renames l) key (recovery_tmp key (wl_tag l)) (ztake (wl_arrives l) (ztake bs buf)) d in
    (stored && wl_answers l, <[node := final states d]> st)
  else (false, st).

(** The lost blocks are written one after the other, up to the first failure. *)
Fixpoint write_back (bs : Z) (links : nat -> WriteLink) (todo : list (string * (string * Z) * list byte)) (st : Storage) : bool * Storage :=
  match todo with
  | [] => (true, st)
  | (key, node, bytes) :: rest =>
      let '(one_write_ok, st) := RecoveryToDatanodeBreakdown bs (links O) key bytes node st in
      if one_write_ok then write_back bs (fun i => links (Datatypes.S i)) rest st else (false, st)
  end.

Definition recoveryBreakdown {K : Kernels} (cfg : SysConfig) (reads : nat -> ReadLink) (writes : nat -> WriteLink) (q : IlpRequest) (st : Storage)
  : Status * Storage :=
  let bs := BlockSize (settings cfg) in
  let got := imap (fun i b => GetFromDatanodeBreakdown bs (reads i) st b) (iq_sources q) in
  if zlen (iq_sources q) <=? 0 then (Failed INVALID_ARGUMENT "no helper datanodes", st)
  else
    match collect got with
    | None => (Failed INTERNAL "read from datanodes failed", st)
    | Some bufs =>
        match decode_glrc_ilp (cfg_k cfg) (cfg_r cfg) (cfg_z cfg) bs (map br_id (iq_sources q)) bufs (iq_failed_ids q) (iq_equation_indices q) with
        | None => (Failed INTERNAL "gLRC ILP decode failed", st)
        | Some recovered =>
            let '(write_ok, st) := write_back bs writes (zip (zip (iq_failed_keys q) (iq_replaced q)) recovered) st in
            (if write_ok then OK else Failed INTERNAL "gLRC ILP write back failed", st)
        end
    end.
