(* ===== verification/Phase2Session.v ===== *)
(** The sharded repair of a gLRC stripe ("phase 2"):
    [recovery_glrc_ilp_phase2_breakdown_ex] of [coordinator.cpp] and
    [glrcIlpPhase2Recovery] of [proxy_glrc_phase2.cpp].  Each lost block is a
    partition with a proxy of its own; a proxy decodes some shards of all lost
    blocks, sends the others theirs and streams its own block to its data node.
    The threads of the proxies are the steps of a relation. *)
From S2P Require Import PortAllocator.
From S2P Require Import Prelude GF256 EcKernel Groups Codes Decode RepairPlan ShardPlan CNum Text Toolbox Placement Coordinator AppendPlan Client DataNode.
From S2P Require Import ProxyAppend ReadPath SingleRepair MultiRecovery.

(** * Requests *)

Record Peer := {
  peer_ip : string;
  peer_port : Z;
  peer_partition_id : Z;
  peer_shard_begin : Z;
  peer_shard_count : Z }.

(** The fields of [proxy_proto::RecoveryRequest] that phase 2 uses. *)
Record Phase2Request := {
  pq_partition_id : Z;
  pq_shard_count : Z;
  pq_stripe_byte_len : Z;
  pq_shard_begin : Z;
  pq_shard_count_local : Z;
  pq_byte_off : Z;
  pq_byte_len : Z;
  pq_do_write_back : bool;
  pq_exchange_epoch : Z;
  pq_share_proxy_node_bandwidth : bool;
  pq_ready_only : bool;
  pq_failed_ids : list Z;
  pq_failed_keys : list string;
  pq_replaced : list (string * Z);
  pq_equations : list string;
  pq_equation_indices : list Z;
  pq_sources : list BlockRequest;
  pq_peers : list Peer }.

Definition peer_of (sp : GlrcPhase2ShardPlan) (pj : Z) : Peer :=
  let peer := (partitions sp).[pj] in
  {| peer_ip := ShardPlan.proxy_ip peer; peer_port := ShardPlan.proxy_port peer; peer_partition_id := pj;
     peer_shard_begin := shard_begin peer; peer_shard_count := partition_shard_count peer |}.

Definition fill_phase2_request (gs : GlrcSettings) (s : Stripe) (t : Tables) (failed : list Z) (plan : GlrcIlpRepairPlan)
    (sp : GlrcPhase2ShardPlan) (exchange_epoch : Z) (share : bool) (pi : Z) (ready_only : bool) : Phase2Request :=
  let part := (partitions sp).[pi] in
  {| pq_partition_id := pi;
     pq_shard_count := shard_count sp;
     pq_stripe_byte_len := stripe_byte_len sp;
     pq_shard_begin := shard_begin part;
     pq_shard_count_local := partition_shard_count part;
     pq_byte_off := partition_byte_off part;
     pq_byte_len := partition_byte_len part;
     pq_do_write_back := GlrcPhase2WriteBack gs;
     pq_exchange_epoch := exchange_epoch;
     pq_share_proxy_node_bandwidth := share;
     pq_ready_only := ready_only;
     pq_failed_ids := failed;
     pq_failed_keys := map (fun b => block_key (blocks s).[b]) failed;
     pq_replaced := map (replaced_node s t) failed;
     pq_equations := if ready_only then [] else selected_equations plan;
     pq_equation_indices := if ready_only then [] else selected_equation_indices plan;
     pq_sources := if ready_only then [] else map (source_block s t) (helper_block_ids plan);
     pq_peers := map (peer_of sp) (List.filter (fun pj => negb (pj =? pi)) (zseq (zlen (partitions sp)))) |}.

(** * Listeners *)

Definition PROXY_PHASE2_EXCHANGE_BASE : Z := 10240.
Definition PROXY_PHASE2_EPOCH_STRIDE : Z := 64.
Definition PROXY_PHASE2_PER_PROXY_BAND : Z := 80.

(** [one_proxy_per_host]: whether the environment says so. *)
Definition phase2_proxy_index (one_proxy_per_host : bool) (proxy_grpc_port : Z) : Z :=
  if one_proxy_per_host then 0
  else
    let idx := (proxy_grpc_port - PROXY_GRPC_BASE) ÷ PROXY_GRPC_STRIDE in
    if idx <? 0 then 0 else if idx >? PROXY_GRPC_MAX_INDEX then PROXY_GRPC_MAX_INDEX else idx.

Definition phase2_exchange_port (one_proxy_per_host : bool) (proxy_grpc_port partition_id exchange_epoch : Z) : Z :=
  let proxy_idx := phase2_proxy_index one_proxy_per_host proxy_grpc_port in
  let epoch_slot := Z.rem exchange_epoch PROXY_PHASE2_EPOCH_STRIDE in
  PROXY_PHASE2_EXCHANGE_BASE + proxy_idx * PROXY_PHASE2_PER_PROXY_BAND + epoch_slot * 8 + partition_id.

(** ** READY: the proxies of partitions [f - 1 .. 1] start to listen *)

Definition Listeners := gmap (string * Z) Z.

(** Whom the proxy waits for: the peers with a smaller id. *)
Definition accept_remaining (q : Phase2Request) : Z :=
  zlen (List.filter (fun p => peer_partition_id p <? pq_partition_id q) (pq_peers q)).

(** [phase2_ready_only]: [None] when the address is in use. *)
Definition ready_only_recovery (one_proxy_per_host : bool) (ip : string) (port : Z) (q : Phase2Request) (l : Listeners) : option Listeners :=
  if accept_remaining q >? 0 then
    let addr := (ip, phase2_exchange_port one_proxy_per_host port (pq_partition_id q) (pq_exchange_epoch q)) in
    match l !! addr with
    | Some _ => None
    | None => Some (<[addr := pq_partition_id q]> l)
    end
  else Some l.

(** * Admission at a proxy *)

Record Prepared := {
  phase2_eq_helper_indices : list (list Z);
  phase2_eq_helper_g_tbls : list (list byte);
  phase2_inv_g_tbls : list byte }.

Definition phase2_write_bytes (q : Phase2Request) : Z := pq_shard_count q * pq_stripe_byte_len q.

Definition geometry_valid (BlockSize : Z) (q : Phase2Request) : bool :=
  negb ((pq_shard_begin q <? 0) || (pq_shard_count_local q <? 0) || (pq_shard_count q <? 1)
        || (pq_shard_begin q + pq_shard_count_local q >? pq_shard_count q)
        || negb (pq_byte_off q =? pq_shard_begin q * pq_stripe_byte_len q)
        || negb (pq_byte_len q =? pq_shard_count_local q * pq_stripe_byte_len q)
        || (phase2_write_bytes q <=? 0) || (phase2_write_bytes q >? BlockSize)
        || (negb (pq_share_proxy_node_bandwidth q) && negb (phase2_write_bytes q =? BlockSize))).

(** The checks in the order of the code, and the tables every shard is decoded
    with. *)
Definition phase2_admit {K : Kernels} (cfg : SysConfig) (q : Phase2Request) : Prepared + string :=
  let f := zlen (pq_failed_ids q) in
  if (pq_partition_id q <? 0) || (pq_partition_id q >=? f) then inr "invalid partition_id"%string
  else if (zlen (pq_sources q) <? 1) || (pq_byte_len q <? 0) || (pq_stripe_byte_len q <? 1) then inr "bad dims"%string
  else if negb (geometry_valid (BlockSize (settings cfg)) q) then inr "invalid phase2 shard geometry"%string
  else if negb (zlen (pq_equation_indices q) =? f) then inr "selected_equation_indices size mismatch"%string
  else
    match glrc_ilp_prepare_helper_decode (cfg_k cfg) (cfg_r cfg) (cfg_z cfg) (map br_id (pq_sources q)) (pq_failed_ids q)
            (pq_equation_indices q) with
    | None => inr "phase2 prepare helper decode failed"%string
    | Some (inverse, indices, coefs) =>
        inl {| phase2_eq_helper_indices := indices;
               phase2_eq_helper_g_tbls :=
                 map (fun c => let term_count := zlen c in
                               if term_count >? 0 then ec_init_tables term_count 1 c (new_bytes (term_count * 32)) else [])
                   coefs;
               phase2_inv_g_tbls := ec_init_tables f f inverse (new_bytes (f * f * 32)) |}
    end.

(** * The exchange between proxies *)

(** [uint32_t] and its cast back to [int]. *)
Definition u32 (x : Z) : Z := x mod 2 ^ 32.
Definition int_of_u32 (x : Z) : Z := if x <? 2 ^ 31 then x else x - 2 ^ 32.

Definition kPhase2Magic : Z := 0x50483232.

Record Phase2PeerHeader := {
  hdr_magic : Z;
  hdr_from_partition : Z;
  hdr_stripe_byte_len : Z;
  hdr_shard_begin : Z;
  hdr_shard_count : Z }.

Definition make_shard_header (from_partition global_shard stripe_byte_len : Z) : Phase2PeerHeader :=
  {| hdr_magic := kPhase2Magic; hdr_from_partition := u32 from_partition; hdr_stripe_byte_len := u32 stripe_byte_len;
     hdr_shard_begin := u32 global_shard; hdr_shard_count := u32 1 |}.

(** A frame on the wire: the header and the payload it announces. *)
Definition Frame : Type := Phase2PeerHeader * list byte.

Definition send_shard_frame (hdr : Phase2PeerHeader) (payload : list byte) : Frame :=
  (hdr, ztake (hdr_stripe_byte_len hdr * hdr_shard_count hdr) payload).

(** [None]: [asio::error::invalid_argument]. *)
Definition recv_shard_frame (payload_cap : Z) (frame : Frame) : option (Phase2PeerHeader * list byte) :=
  let '(hdr, payload) := frame in
  if negb (hdr_magic hdr =? kPhase2Magic) || (hdr_shard_count hdr <? 1) || (hdr_stripe_byte_len hdr =? 0)
     || (hdr_stripe_byte_len hdr * hdr_shard_count hdr >? payload_cap)
  then None else Some (hdr, payload).

(** The receiver's checks: the shard and its bytes, if this is the frame it
    waits for. *)
Definition receive_shard (stripe_byte_len expected_global : Z) (frame : Frame) : option (list byte) :=
  '(hdr, payload) ← recv_shard_frame stripe_byte_len frame;
  if negb (int_of_u32 (hdr_shard_begin hdr) =? expected_global) || negb (hdr_shard_count hdr =? 1) then None
  else Some payload.

(** * The state of a partition *)

Inductive DecodeStage := Waiting | Inflight (shard_k : Z) | Copied (shard_k : Z) | Marked (shard_k : Z).

(** The loop that submits shards and the decode worker. *)
Record Decoder := {
  next_submit : Z;
  decode_submit_shard : option Z;
  decode_stage : DecodeStage;
  decoded_shards : Z;
  decode_rhs : list block;
  shard_recovered : list block }.

(** The peers' connections, and per peer the frames sent, received and under
    way; [unmarked]: shards received whose readiness is not yet announced. *)
Record Exchange := {
  connected : gset Z;
  sent : list Z;
  received : list Z;
  inbox : list (list Frame);
  unmarked : gset Z }.

Inductive WriterStage := WriterIdle | WriterHas (shard : Z) | WriterClosed.

(** [Phase2WriteStream]; [streamed]: what went into the socket. *)
Record WriteStream := {
  ready : gset Z;
  next_shard : Z;
  writer : WriterStage;
  streamed : list byte;
  recovery_result : option bool }.

Inductive PartitionStage := Connecting | Streaming | Returned (result : bool).

#[export] Instance PartitionStage_eq_dec : EqDecision PartitionStage.
Proof. solve_decision. Defined.

(** [get_bufs[i]] is filled once helper [i] was drained. *)
Record Partition := {
  pstage : PartitionStage;
  exchange_failed : bool;
  get_bufs : list (option block);
  recovered_ptrs : list block;
  decoder : Decoder;
  exchange : Exchange;
  write_stream : WriteStream }.

Definition with_stage (x : PartitionStage) (P : Partition) : Partition :=
  {| pstage := x; exchange_failed := exchange_failed P; get_bufs := get_bufs P; recovered_ptrs := recovered_ptrs P;
     decoder := decoder P; exchange := exchange P; write_stream := write_stream P |}.
Definition fail_exchange (P : Partition) : Partition :=
  {| pstage := pstage P; exchange_failed := true; get_bufs := get_bufs P; recovered_ptrs := recovered_ptrs P;
     decoder := decoder P; exchange := exchange P; write_stream := write_stream P |}.
Definition with_bufs (x : list (option block)) (P : Partition) : Partition :=
  {| pstage := pstage P; exchange_failed := exchange_failed P; get_bufs := x; recovered_ptrs := recovered_ptrs P;
     decoder := decoder P; exchange := exchange P; write_stream := write_stream P |}.
Definition with_recovered (x : list block) (P : Partition) : Partition :=
  {| pstage := pstage P; exchange_failed := exchange_failed P; get_bufs := get_bufs P; recovered_ptrs := x;
     decoder := decoder P; exchange := exchange P; write_stream := write_stream P |}.
Definition with_decoder (x : Decoder) (P : Partition) : Partition :=
  {| pstage := pstage P; exchange_failed := exchange_failed P; get_bufs := get_bufs P; recovered_ptrs := recovered_ptrs P;
     decoder := x; exchange := exchange P; write_stream := write_stream P |}.
Definition with_exchange (x : Exchange) (P : Partition) : Partition :=
  {| pstage := pstage P; exchange_failed := exchange_failed P; get_bufs := get_bufs P; recovered_ptrs := recovered_ptrs P;
     decoder := decoder P; exchange := x; write_stream := write_stream P |}.
Definition with_stream (x : WriteStream) (P : Partition) : Partition :=
  {| pstage := pstage P; exchange_failed := exchange_failed P; get_bufs := get_bufs P; recovered_ptrs := recovered_ptrs P;
     decoder := decoder P; exchange := exchange P; write_stream := x |}.

(** [mark_write_shard_ready] *)
Definition mark_write_shard_ready (q : Phase2Request) (shard : Z) (ws : WriteStream) : WriteStream :=
  if (shard <? 0) || (shard >=? pq_shard_count q) then ws
  else {| ready := {[shard]} ∪ ready ws; next_shard := next_shard ws; writer := writer ws; streamed := streamed ws;
          recovery_result := recovery_result ws |}.

(** Whether this call has a write stream. *)
Definition phase2_write_enabled (q : Phase2Request) : bool := (pq_shard_count q >? 0) && pq_do_write_back q.

Definition start_partition (BlockSize : Z) (q : Phase2Request) : Partition :=
  let f := zlen (pq_failed_ids q) in
  {| pstage := Connecting;
     exchange_failed := false;
     get_bufs := zrepeat None (zlen (pq_sources q));
     recovered_ptrs := zrepeat (zrepeat x00 BlockSize) f;
     decoder := {| next_submit := 0; decode_submit_shard := None; decode_stage := Waiting; decoded_shards := 0;
                   decode_rhs := zrepeat (zrepeat x00 (pq_stripe_byte_len q)) f;
                   shard_recovered := zrepeat (zrepeat x00 (pq_stripe_byte_len q)) f |};
     exchange := {| connected := ∅; sent := zrepeat 0 f; received := zrepeat 0 f; inbox := zrepeat [] f; unmarked := ∅ |};
     write_stream := {| ready := ∅; next_shard := 0;
                        writer := if phase2_write_enabled q then WriterIdle else WriterClosed;
                        streamed := []; recovery_result := None |} |}.

Definition no_request : Phase2Request :=
  {| pq_partition_id := 0; pq_shard_count := 0; pq_stripe_byte_len := 0; pq_shard_begin := 0; pq_shard_count_local := 0;
     pq_byte_off := 0; pq_byte_len := 0; pq_do_write_back := false; pq_exchange_epoch := 0;
     pq_share_proxy_node_bandwidth := false; pq_ready_only := false; pq_failed_ids := []; pq_failed_keys := [];
     pq_replaced := []; pq_equations := []; pq_equation_indices := []; pq_sources := []; pq_peers := [] |}.

#[export] Instance Partition_inhabited : Inhabited Partition := populate (start_partition 0 no_request).

(** * The threads of a partition *)

(** [lookup_peer_shards] *)
Definition lookup_peer_shards (q : Phase2Request) (peer_part : Z) : option Peer :=
  List.find (fun p => peer_partition_id p =? peer_part) (pq_peers q).

(** [helper_round_done[shard_k] >= helper_n]: the helpers are drained as a whole. *)
Definition helpers_done (P : Partition) : bool := forallb (fun b => match b with Some _ => true | None => false end) (get_bufs P).

(** A helper's range from its data node, read completely or not at all. *)
Definition read_helper (BlockSize : Z) (q : Phase2Request) (src : BlockRequest) (st : Storage) : option block :=
  let '(bytes, _) := handleGetBreakdown (br_key src) BlockSize (pq_byte_off q) (pq_byte_len q) (files_at (br_ip src) (br_port src) st) in
  if zlen bytes <? pq_byte_len q then None else Some (ztake (pq_byte_len q) bytes).

Definition decode_shard {K : Kernels} (q : Phase2Request) (pr : Prepared) (shard_k : Z) (P : Partition) : bool * (list block * list block) :=
  decode_glrc_ilp_helper_compact_prepared (map (default []) (get_bufs P)) (phase2_eq_helper_indices pr) (phase2_eq_helper_g_tbls pr)
    (phase2_inv_g_tbls pr) (zlen (pq_failed_ids q)) (pq_byte_off q) (pq_byte_off q + shard_k * pq_stripe_byte_len q)
    (pq_stripe_byte_len q) (decode_rhs (decoder P)) (shard_recovered (decoder P)).

(** [memcpy(recovered_ptrs[t] + stripe_off, shard_recovered[t], stripe_byte_len)] for every [t]. *)
Definition copy_decoded (q : Phase2Request) (shard_k : Z) (shard_recovered recovered : list block) : list block :=
  map (fun t => poke (pq_byte_off q + shard_k * pq_stripe_byte_len q) (ztake (pq_stripe_byte_len q) shard_recovered.[t]) recovered.[t])
    (zseq (zlen (pq_failed_ids q))).

(** The bytes of a shard in the block that a partition repairs. *)
Definition shard_bytes (q : Phase2Request) (block_of shard : Z) (P : Partition) : list byte :=
  peek (pq_stripe_byte_len q) (shard * pq_stripe_byte_len q) (recovered_ptrs P).[block_of].

(** All local shards are decoded and the exchange threads have ended. *)
Definition producer_done (q : Phase2Request) (P : Partition) : bool :=
  bool_decide (pstage P = Streaming) && (decoded_shards (decoder P) >=? pq_shard_count_local q)
  && forallb (fun p => (sent (exchange P)).[peer_partition_id p] >=? pq_shard_count_local q) (pq_peers q)
  && forallb (fun p => (received (exchange P)).[peer_partition_id p] >=? peer_shard_count p) (pq_peers q)
  && bool_decide (unmarked (exchange P) = ∅).

Definition phase2_result (q : Phase2Request) (P : Partition) : bool :=
  negb (exchange_failed P)
  && (negb (phase2_write_enabled q)
      || (next_shard (write_stream P) =? pq_shard_count q) && bool_decide (recovery_result (write_stream P) = Some true)).

Definition close_writer (more : list byte) (ws : WriteStream) : WriteStream :=
  {| ready := ready ws; next_shard := next_shard ws; writer := WriterClosed; streamed := streamed ws ++ more;
     recovery_result := recovery_result ws |}.

(** The steps of one proxy's threads; [true] marks a fault of its environment:
    a time-out, a broken connection, a cancelled call.  A thread looks at
    [exchange_failed] only where it waits, so other threads may run on after a
    failure. *)
Inductive partition_step {K : Kernels} (q : Phase2Request) (pr : Prepared) : bool -> Partition -> Partition -> Prop :=
(** [setup_peer_connections] is through. *)
| ps_start P :
    pstage P = Connecting -> exchange_failed P = false ->
    forallb (fun p => bool_decide (peer_partition_id p ∈ connected (exchange P))) (pq_peers q) = true ->
    partition_step q pr false P (with_stage Streaming P)
(** The main thread submits a shard when the slot is free. *)
| ps_submit P :
    pstage P = Streaming -> helpers_done P = true -> decode_submit_shard (decoder P) = None ->
    next_submit (decoder P) < pq_shard_count_local q ->
    let d := decoder P in
    partition_step q pr false P (with_decoder {| next_submit := next_submit d + 1; decode_submit_shard := Some (next_submit d);
      decode_stage := decode_stage d; decoded_shards := decoded_shards d; decode_rhs := decode_rhs d;
      shard_recovered := shard_recovered d |} P)
(** The decode worker. *)
| ps_take k P :
    pstage P = Streaming -> decode_submit_shard (decoder P) = Some k -> decode_stage (decoder P) = Waiting ->
    let d := decoder P in
    partition_step q pr false P (with_decoder {| next_submit := next_submit d; decode_submit_shard := None; decode_stage := Inflight k;
      decoded_shards := decoded_shards d; decode_rhs := decode_rhs d; shard_recovered := shard_recovered d |} P)
| ps_decode k rhs rec P :
    pstage P = Streaming -> decode_stage (decoder P) = Inflight k -> decode_shard q pr k P = (true, (rhs, rec)) ->
    let d := decoder P in
    partition_step q pr false P (with_recovered (copy_decoded q k rec (recovered_ptrs P))
      (with_decoder {| next_submit := next_submit d; decode_submit_shard := decode_submit_shard d; decode_stage := Copied k;
         decoded_shards := decoded_shards d; decode_rhs := rhs; shard_recovered := rec |} P))
| ps_decode_fails k out P :
    pstage P = Streaming -> decode_stage (decoder P) = Inflight k -> decode_shard q pr k P = (false, out) ->
    exchange_failed P = false ->
    partition_step q pr false P (fail_exchange P)
| ps_mark k P :
    pstage P = Streaming -> decode_stage (decoder P) = Copied k ->
    let d := decoder P in
    partition_step q pr false P (with_stream (mark_write_shard_ready q (pq_shard_begin q + k) (write_stream P))
      (with_decoder {| next_submit := next_submit d; decode_submit_shard := decode_submit_shard d; decode_stage := Marked k;
         decoded_shards := decoded_shards d; decode_rhs := decode_rhs d; shard_recovered := shard_recovered d |} P))
| ps_publish k P :
    pstage P = Streaming -> decode_stage (decoder P) = Marked k ->
    let d := decoder P in
    partition_step q pr false P (with_decoder {| next_submit := next_submit d; decode_submit_shard := decode_submit_shard d;
      decode_stage := Waiting; decoded_shards := k + 1; decode_rhs := decode_rhs d; shard_recovered := shard_recovered d |} P)
(** A receiver: the frame at the head of the connection with [peer]. *)
| ps_receive peer frame rest payload P :
    pstage P = Streaming -> In peer (pq_peers q) -> let j := peer_partition_id peer in let x := exchange P in
    (inbox x).[j] = frame :: rest -> (received x).[j] < peer_shard_count peer ->
    let g := peer_shard_begin peer + (received x).[j] in
    receive_shard (pq_stripe_byte_len q) g frame = Some payload ->
    let me := pq_partition_id q in
    partition_step q pr false P
      (with_recovered (recovered_ptrs P).[me <- poke (g * pq_stripe_byte_len q) (ztake (pq_stripe_byte_len q) payload) (recovered_ptrs P).[me]]
        (with_exchange {| connected := connected x; sent := sent x; received := (received x).[j <- (received x).[j] + 1];
           inbox := (inbox x).[j <- rest]; unmarked := {[g]} ∪ unmarked x |} P))
| ps_reject peer frame rest P :
    pstage P = Streaming -> In peer (pq_peers q) -> let j := peer_partition_id peer in let x := exchange P in
    (inbox x).[j] = frame :: rest -> (received x).[j] < peer_shard_count peer ->
    receive_shard (pq_stripe_byte_len q) (peer_shard_begin peer + (received x).[j]) frame = None ->
    exchange_failed P = false ->
    partition_step q pr false P (fail_exchange P)
| ps_mark_received g P :
    pstage P = Streaming -> g ∈ unmarked (exchange P) -> let x := exchange P in
    partition_step q pr false P (with_stream (mark_write_shard_ready q g (write_stream P))
      (with_exchange {| connected := connected x; sent := sent x; received := received x; inbox := inbox x;
         unmarked := unmarked x ∖ {[g]} |} P))
(** The writer: shards in order. *)
| ps_writer_takes P :
    pstage P = Streaming -> let ws := write_stream P in
    writer ws = WriterIdle -> exchange_failed P = false -> next_shard ws < pq_shard_count q -> next_shard ws ∈ ready ws ->
    partition_step q pr false P (with_stream {| ready := ready ws; next_shard := next_shard ws + 1; writer := WriterHas (next_shard ws);
      streamed := streamed ws; recovery_result := recovery_result ws |} P)
| ps_writes k P :
    pstage P = Streaming -> let ws := write_stream P in writer ws = WriterHas k ->
    partition_step q pr false P (with_stream {| ready := ready ws; next_shard := next_shard ws; writer := WriterIdle;
      streamed := streamed ws ++ shard_bytes q (pq_partition_id q) k P; recovery_result := recovery_result ws |} P)
| ps_write_breaks k m P :
    pstage P = Streaming -> writer (write_stream P) = WriterHas k -> 
    partition_step q pr true P (fail_exchange
      (with_stream (close_writer (ztake m (shard_bytes q (pq_partition_id q) k P)) (write_stream P)) P))
(** It ends when the producers have, or on a failure. *)
| ps_writer_ends P :
    pstage P = Streaming -> let ws := write_stream P in
    writer ws = WriterIdle -> producer_done q P = true -> (next_shard ws < pq_shard_count q -> next_shard ws ∉ ready ws) ->
    let P' := with_stream (close_writer [] ws) P in
    partition_step q pr false P (if next_shard ws =? pq_shard_count q then P' else fail_exchange P')
| ps_writer_stops P :
    (forall r, pstage P <> Returned r) -> writer (write_stream P) = WriterIdle -> exchange_failed P = true ->
    partition_step q pr false P (with_stream (close_writer [] (write_stream P)) P)
| ps_fault P :
    (forall r, pstage P <> Returned r) -> exchange_failed P = false ->
    partition_step q pr true P (fail_exchange P)
(** All threads are joined; the data node's answer is waited for unless the
    exchange has failed. *)
| ps_return P :
    (forall r, pstage P <> Returned r) -> writer (write_stream P) = WriterClosed ->
    exchange_failed P = true \/
      producer_done q P = true /\ (phase2_write_enabled q = true -> recovery_result (write_stream P) <> None) ->
    partition_step q pr false P (with_stage (Returned (phase2_result q P)) P).

(** * The session *)

Record Session := {
  seats : list Partition;
  storage : Storage }.

(** A seat without a call takes no steps. *)
Definition start_session (BlockSize : Z) (calls : list (option (Phase2Request * Prepared))) (st : Storage) : Session :=
  {| seats := map (fun c => match c with Some (q, _) => start_partition BlockSize q | None => start_partition BlockSize no_request end) calls;
     storage := st |}.

Definition with_seat (p : Z) (P : Partition) (w : Session) : Session :=
  {| seats := (seats w).[p <- P]; storage := storage w |}.

Definition connect (j : Z) (P : Partition) : Partition :=
  let x := exchange P in
  with_exchange {| connected := {[j]} ∪ connected x; sent := sent x; received := received x; inbox := inbox x; unmarked := unmarked x |} P.

(** One frame more sent to [j]; ... *)
Definition count_sent (j : Z) (P : Partition) : Partition :=
  let x := exchange P in
  with_exchange {| connected := connected x; sent := (sent x).[j <- (sent x).[j] + 1]; received := received x; inbox := inbox x;
    unmarked := unmarked x |} P.

(** ... it is under way from [i]. *)
Definition deliver (i : Z) (frame : Frame) (P : Partition) : Partition :=
  let x := exchange P in
  with_exchange {| connected := connected x; sent := sent x; received := received x;
    inbox := (inbox x).[i <- (inbox x).[i] ++ [frame]]; unmarked := unmarked x |} P.

Definition answer_write (result : bool) (P : Partition) : Partition :=
  let ws := write_stream P in
  with_stream {| ready := ready ws; next_shard := next_shard ws; writer := writer ws; streamed := streamed ws;
    recovery_result := Some result |} P.

Definition shard_frame (q : Phase2Request) (block_of shard : Z) (P : Partition) : Frame :=
  send_shard_frame (make_shard_header (pq_partition_id q) shard (pq_stripe_byte_len q))
    (zdrop (shard * pq_stripe_byte_len q) (recovered_ptrs P).[block_of]).

Definition hybrid_partial_write (BlockSize : Z) (q : Phase2Request) : bool :=
  pq_share_proxy_node_bandwidth q && (phase2_write_bytes q <? BlockSize).

(** The link carries the block, the file is renamed, the answer arrives. *)
Definition link_holds (BlockSize : Z) (l : WriteLink) : bool :=
  wl_connected l && (BlockSize <=? wl_arrives l) && wl_renames l && wl_answers l.

(** [calls]: the partitions whose proxies were called and admitted the request. *)
Inductive session_step {K : Kernels} (BlockSize : Z) (one_proxy_per_host : bool) (listening : Listeners)
    (calls : list (option (Phase2Request * Prepared))) : bool -> Session -> Session -> Prop :=
| step_partition p q pr fault P' w :
    0 <= p < zlen calls -> calls.[p] = Some (q, pr) -> partition_step q pr fault (seats w).[p] P' ->
    session_step BlockSize one_proxy_per_host listening calls fault w (with_seat p P' w)
(** A partition connects to the peers with greater ids; their acceptors wait for
    it. *)
| step_dial p q pr peer w :
    0 <= p < zlen calls -> calls.[p] = Some (q, pr) -> In peer (pq_peers q) -> p < peer_partition_id peer ->
    pstage (seats w).[p] = Connecting -> peer_partition_id peer ∉ connected (exchange (seats w).[p]) ->
    listening !! (peer_ip peer, phase2_exchange_port one_proxy_per_host (peer_port peer) (peer_partition_id peer) (pq_exchange_epoch q))
      = Some (peer_partition_id peer) ->
    let j := peer_partition_id peer in let w1 := with_seat p (connect j (seats w).[p]) w in
    session_step BlockSize one_proxy_per_host listening calls false w (with_seat j (connect p (seats w1).[j]) w1)
| step_read p q pr i src bytes w :
    0 <= p < zlen calls -> calls.[p] = Some (q, pr) -> let P := (seats w).[p] in
    pstage P = Streaming -> 0 < pq_shard_count_local q -> 0 <= i -> pq_sources q !! Z.to_nat i = Some src ->
    (get_bufs P).[i] = None -> read_helper BlockSize q src (storage w) = Some bytes ->
    session_step BlockSize one_proxy_per_host listening calls false w (with_seat p (with_bufs (get_bufs P).[i <- Some bytes] P) w)
(** The sender to [peer]: the next of its shards, once it is decoded. *)
| step_send p q pr peer w :
    0 <= p < zlen calls -> calls.[p] = Some (q, pr) -> In peer (pq_peers q) -> let P := (seats w).[p] in
    let j := peer_partition_id peer in let k := (sent (exchange P)).[j] in
    pstage P = Streaming -> k < pq_shard_count_local q -> k < decoded_shards (decoder P) ->
    let w1 := with_seat p (count_sent j P) w in
    session_step BlockSize one_proxy_per_host listening calls false w
      (with_seat j (deliver p (shard_frame q j (pq_shard_begin q + k) P) (seats w1).[j]) w1)
(** The data node has read the stream to its end; it may do so after the
    partition gave up. *)
| step_store p q pr l done st w :
    0 <= p < zlen calls -> calls.[p] = Some (q, pr) -> let P := (seats w).[p] in
    phase2_write_enabled q = true -> hybrid_partial_write BlockSize q = false ->
    writer (write_stream P) = WriterClosed -> recovery_result (write_stream P) = None ->
    RecoveryToDatanodeBreakdown BlockSize l (pq_failed_keys q).[p] (streamed (write_stream P)) (pq_replaced q).[p] (storage w) = (done, st) ->
    session_step BlockSize one_proxy_per_host listening calls (negb (link_holds BlockSize l)) w
      {| seats := (seats w).[p <- answer_write done P]; storage := st |}.

(** * The coordinator *)

(** The shard plan of a request: every lost block with its node's repair proxy. *)
Definition phase2_shard_plan (cfg : SysConfig) (gs : GlrcSettings) (s : Stripe) (t : Tables) (failed : list Z) (shard_count_override : Z)
  : GlrcPhase2ShardPlan + string :=
  let shard_count := if shard_count_override >? 0 then shard_count_override else GlrcShardCount gs in
  let nodes := map (fun fid => node_of_block t (blocks s).[fid]) failed in
  build shard_count (BlockSize (settings cfg)) failed (map Placement.cluster_id nodes) (map repair_proxy_ip nodes) (map repair_proxy_port nodes)
    (GlrcShardCount gs).

Definition with_shards (sp : GlrcPhase2ShardPlan) (r : RecoveryReply) : RecoveryReply :=
  {| rr_success := rr_success r; rr_message := rr_message r; rr_equation_policy := rr_equation_policy r; rr_repair_mode := rr_repair_mode r;
     rr_selected_equations := rr_selected_equations r; rr_helper_block_ids := rr_helper_block_ids r;
     rr_helper_block_count := rr_helper_block_count r;
     rr_partition_shard_counts := rr_partition_shard_counts r ++ map partition_shard_count (partitions sp);
     rr_max_partition_shard_count := fold_left (fun m p => Z.max m (partition_shard_count p)) (partitions sp) 0 |}.

(** Up to the exchange: [inr] is the reply of a request that is refused. *)
Definition phase2_prepare {S : StdSort} (cfg : SysConfig) (gs : GlrcSettings) (preset_plan : option GlrcIlpRepairPlan) (shard_count_override : Z)
    (sid : Z) (failed : list Z) (c : Coordinator) (reply : RecoveryReply) : (GlrcIlpRepairPlan * GlrcPhase2ShardPlan * RecoveryReply) + RecoveryReply :=
  if negb (String.eqb (CodeType (settings cfg)) "gLRC") then inr (conclude false "recovery_glrc_ilp_phase2 requires CodeType gLRC" reply)
  else
    let s := stripe_at sid c in
    match first_invalid s failed with
    | Some fid => inr (conclude false ("invalid failed block id: " +:+ to_string fid) reply)
    | None =>
        let policy := match preset_plan with Some _ => "ilp-min-helper"%string | None => glrc_normalize_equation_policy (GlrcEquationPolicy gs) end in
        let chosen :=
          match preset_plan with
          | None =>
              let plan := glrc_solve_repair_plan (cfg_k cfg) (cfg_r cfg) (cfg_z cfg) failed policy in
              if success plan then inl plan else inr (with_policy policy (conclude false (error_message plan) reply))
          | Some plan =>
              if success plan then inl plan
              else inr (conclude false (if String.eqb (error_message plan) "" then "preset phase2 plan failed"%string else error_message plan) reply)
          end in
        match chosen with
        | inr r => inr r
        | inl plan =>
            match phase2_shard_plan cfg gs s (co_tables c) failed shard_count_override with
            | inr shard_err => inr (conclude false shard_err reply)
            | inl sp => inl (plan, sp, with_shards sp (with_mode "phase2" (with_plan plan policy reply)))
            end
        end
    end.

(** What becomes of one partition's call. *)
Inductive PartitionCall :=
| NotCalled
| Refused (error : string)
| Called (q : Phase2Request) (pr : Prepared).

Section Partitions.
Context {K : Kernels} (cfg : SysConfig) (gs : GlrcSettings) (proxies : gset string) (one_proxy_per_host : bool).
Context (s : Stripe) (t : Tables) (failed : list Z) (plan : GlrcIlpRepairPlan) (sp : GlrcPhase2ShardPlan) (exchange_epoch : Z) (share : bool).

Definition request_of (pi : Z) (ready_only : bool) : Phase2Request := fill_phase2_request gs s t failed plan sp exchange_epoch share pi ready_only.

Definition partition_proxy (pi : Z) : string := node_key (ShardPlan.proxy_ip (partitions sp).[pi]) (ShardPlan.proxy_port (partitions sp).[pi]).

(** [run_partition] up to the exchange.  A partition without shards is not
    called. *)
Definition run_partition (pi : Z) : PartitionCall :=
  if partition_shard_count (partitions sp).[pi] <=? 0 then NotCalled
  else if negb (bool_decide (partition_proxy pi ∈ proxies)) then Refused ("proxy not found: " +:+ partition_proxy pi)
  else
    match phase2_admit cfg (request_of pi false) with
    | inl pr => Called (request_of pi false) pr
    | inr error => Refused error
    end.

(** [None]: the acceptor is not READY.  [unready]: the call or the listening
    fails for another reason. *)
Definition run_partition_ready (unready : Z -> bool) (pi : Z) (l : Listeners) : option Listeners :=
  let part := (partitions sp).[pi] in
  if partition_shard_count part <=? 0 then Some l
  else if negb (bool_decide (partition_proxy pi ∈ proxies)) then None
  else if unready pi then None
  else ready_only_recovery one_proxy_per_host (ShardPlan.proxy_ip part) (ShardPlan.proxy_port part) (request_of pi true) l.

(** The READY calls in the order in which they run, and the partitions whose
    call failed. *)
Fixpoint run_ready (unready : Z -> bool) (order : list Z) (l : Listeners) : Listeners * list Z :=
  match order with
  | [] => (l, [])
  | pi :: rest =>
      match run_partition_ready unready pi l with
      | Some l => run_ready unready rest l
      | None => let '(l, errors) := run_ready unready rest l in (l, pi :: errors)
      end
  end.

Definition ready_error (pi : Z) : string := "; p" +:+ to_string pi +:+ " acceptor READY failed".

Definition phase2_calls : list (option (Phase2Request * Prepared)) :=
  map (fun pi => match run_partition pi with Called q pr => Some (q, pr) | _ => None end) (zseq (zlen failed)).

(** [answered]: which remote calls bring their status back; [errors]: what they
    say. *)
Definition partition_ok (answered : Z -> bool) (w : Session) (pi : Z) : bool :=
  match run_partition pi with
  | NotCalled => true
  | Refused _ => false
  | Called _ _ => answered pi && bool_decide (pstage (seats w).[pi] = Returned true)
  end.

Definition partition_error (errors : Z -> string) (pi : Z) : string :=
  match run_partition pi with
  | NotCalled => ""
  | Refused error => error
  | Called _ _ => errors pi
  end.

Definition phase2_conclude (answered : Z -> bool) (errors : Z -> string) (w : Session) (reply : RecoveryReply) : bool * RecoveryReply :=
  if forallb (partition_ok answered w) (zseq (zlen failed)) then (true, conclude true "ok" reply)
  else
    let detail := fold_left (fun d pi =>
      if negb (partition_ok answered w pi) && negb (String.eqb (partition_error errors pi) "")
      then d +:+ "; p" +:+ to_string pi +:+ ": " +:+ partition_error errors pi else d)
      (zseq (zlen failed)) "one or more phase2 partition recoveries failed"%string in
    (false, conclude false detail reply).
End Partitions.

(** [recovery_glrc_ilp_phase2_breakdown_ex]: what it may answer and leave on the
    data nodes.  Calls that were answered have returned. *)
Inductive recovery_glrc_ilp_phase2_breakdown_ex {S : StdSort} {K : Kernels} (cfg : SysConfig) (gs : GlrcSettings) (proxies : gset string)
    (one_proxy_per_host : bool) (exchange_epoch : Z) (preset_plan : option GlrcIlpRepairPlan) (shard_count_override : Z) (share : bool)
    (sid : Z) (failed : list Z) (c : Coordinator) (reply : RecoveryReply) (st : Storage) : bool -> bool * RecoveryReply * Storage -> Prop :=
| phase2_refused reply' :
    phase2_prepare cfg gs preset_plan shard_count_override sid failed c reply = inr reply' ->
    recovery_glrc_ilp_phase2_breakdown_ex cfg gs proxies one_proxy_per_host exchange_epoch preset_plan shard_count_override share
      sid failed c reply st false (false, reply', st)
| phase2_not_ready fault plan sp reply' unready order listening errors :
    (fault = false -> forall pi, unready pi = false) ->
    phase2_prepare cfg gs preset_plan shard_count_override sid failed c reply = inl (plan, sp, reply') ->
    order ≡ₚ seqZ 1 (zlen failed - 1) ->
    run_ready gs proxies one_proxy_per_host (stripe_at sid c) (co_tables c) failed plan sp exchange_epoch share unready order ∅ = (listening, errors) ->
    errors <> [] ->
    recovery_glrc_ilp_phase2_breakdown_ex cfg gs proxies one_proxy_per_host exchange_epoch preset_plan shard_count_override share
      sid failed c reply st fault
      (false, conclude false ("phase2 exchange acceptor READY failed" +:+ fold_left (fun d pi => d +:+ ready_error pi) errors ""%string) reply', st)
| phase2_exchanged fault plan sp reply' unready order listening w answered errors result reply'' :
    (fault = false -> forall pi, unready pi = false) ->
    phase2_prepare cfg gs preset_plan shard_count_override sid failed c reply = inl (plan, sp, reply') ->
    order ≡ₚ seqZ 1 (zlen failed - 1) ->
    run_ready gs proxies one_proxy_per_host (stripe_at sid c) (co_tables c) failed plan sp exchange_epoch share unready order ∅ = (listening, []) ->
    let calls := phase2_calls cfg gs proxies (stripe_at sid c) (co_tables c) failed plan sp exchange_epoch share in
    rtc (fun a b => exists f, (f = true -> fault = true) /\ session_step (BlockSize (settings cfg)) one_proxy_per_host listening calls f a b)
      (start_session (BlockSize (settings cfg)) calls st) w ->
    (forall pi, 0 <= pi < zlen failed -> is_Some calls.[pi] -> answered pi = true -> exists r, pstage (seats w).[pi] = Returned r) ->
    (fault = false -> forall pi, answered pi = true) ->
    phase2_conclude cfg gs proxies (stripe_at sid c) (co_tables c) failed plan sp exchange_epoch share answered errors w reply'
      = (result, reply'') ->
    recovery_glrc_ilp_phase2_breakdown_ex cfg gs proxies one_proxy_per_host exchange_epoch preset_plan shard_count_override share
      sid failed c reply st fault (result, reply'', storage w).
