(* ===== verification/PipelineWire.v ===== *)
(** What the threads of a pipelined repair take for granted: a connection carries
    the frames that were sent, in order and whole, and a proxy keeps exactly the
    listeners that READY bound for the session. *)
From S2P Require Import PortAllocator.
From S2P Require Import Prelude GF256 RepairPlan PipelineCodec PipelinePlan PipelineSession CNum Text Toolbox DataNode PipelineMessages.

(** * Integers in memory *)

Lemma le32_len x : zlen (le32 x) = 4.
Proof. reflexivity. Qed.

Lemma of_le32_le32 x : of_le32 (le32 x) = x mod 2 ^ 32.
Proof.
  change (of_le32 (le32 x)) with
    (Z.lor (Z.lor (byte_to_Z (byte_of_Z (Z.shiftr x (8 * 0)))) (Z.shiftl (byte_to_Z (byte_of_Z (Z.shiftr x (8 * 1)))) 8))
       (Z.lor (Z.shiftl (byte_to_Z (byte_of_Z (Z.shiftr x (8 * 2)))) 16) (Z.shiftl (byte_to_Z (byte_of_Z (Z.shiftr x (8 * 3)))) 24))).
  rewrite !byte_to_of_Z. change 256 with (2 ^ 8). rewrite <- !Z.land_ones by lia.
  apply Z.bits_inj'. intros n Hn. rewrite !Z.lor_spec, !Z.shiftl_spec by lia.
  assert (Ht : forall k, 0 <= k -> Z.testbit (Z.land (Z.shiftr x (8 * k)) (Z.ones 8)) (n - 8 * k) = Z.testbit x n && (8 * k <=? n) && (n <? 8 * k + 8)).
  { intros k Hk. destruct (Z.leb_spec (8 * k) n).
    - rewrite Z.land_spec, Z.shiftr_spec, Z.testbit_ones by lia. replace (n - 8 * k + 8 * k) with n by lia.
      destruct (Z.testbit x n), (Z.leb_spec 0 (n - 8 * k)), (Z.ltb_spec (n - 8 * k) 8), (Z.ltb_spec n (8 * k + 8)); cbn; lia.
    - rewrite Z.testbit_neg_r by lia. rewrite andb_false_r. reflexivity. }
  pose proof (Ht 0 ltac:(lia)) as H0. replace (n - 8 * 0) with n in H0 by lia. rewrite H0.
  replace (n - 8) with (n - 8 * 1) by lia. replace (n - 16) with (n - 8 * 2) by lia. replace (n - 24) with (n - 8 * 3) by lia.
  rewrite (Ht 1 ltac:(lia)), (Ht 2 ltac:(lia)), (Ht 3 ltac:(lia)), Z.land_spec.
  rewrite Z.testbit_ones by lia. destruct (Z.testbit x n); [|reflexivity]. cbn [andb].
  destruct (Z.leb_spec (8 * 0) n), (Z.ltb_spec n (8 * 0 + 8)), (Z.leb_spec (8 * 1) n), (Z.ltb_spec n (8 * 1 + 8)), (Z.leb_spec (8 * 2) n),
    (Z.ltb_spec n (8 * 2 + 8)), (Z.leb_spec (8 * 3) n), (Z.ltb_spec n (8 * 3 + 8)), (Z.leb_spec 0 n), (Z.ltb_spec n 32); cbn; lia.
Qed.

Lemma u32_u32 x : u32 x mod 2 ^ 32 = u32 x.
Proof. apply Z.mod_mod. lia. Qed.

(** * Reading *)

Lemma read_all_app len (l rest : list byte) : len = zlen l -> read_all len (l ++ rest) = Some (l, rest).
Proof.
  intros ->. unfold read_all. rewrite length_app. destruct (Z.ltb_spec (Z.of_nat (length l + length rest)) (zlen l)); [lia|].
  rewrite ztake_app_exact, zdrop_app_exact by reflexivity. reflexivity.
Qed.

(** Bytes that arrive later do not matter. *)
Lemma read_all_more len s more a rest : read_all len s = Some (a, rest) -> read_all len (s ++ more) = Some (a, rest ++ more).
Proof.
  unfold read_all. destruct (Z.ltb_spec (zlen s) len); [discriminate|]. intros E. injection E as <- <-. rewrite length_app.
  destruct (Z.ltb_spec (Z.of_nat (length s + length more)) len); [lia|]. unfold ztake, zdrop. rewrite take_app_le, drop_app_le by lia. reflexivity.
Qed.

Lemma recv_more s more frame rest : recv_pipeline_frame s = Some (frame, rest) -> recv_pipeline_frame (s ++ more) = Some (frame, rest ++ more).
Proof.
  unfold recv_pipeline_frame. destruct (read_all 4 s) as [[magic s1]|] eqn:E1; [|discriminate]. rewrite (read_all_more _ _ more _ _ E1). cbn [mbind option_bind].
  destruct (of_le32 magic =? kPipelineStreamEnd).
  - destruct (read_all 12 s1) as [[h s2]|] eqn:E2; [|discriminate]. rewrite (read_all_more _ _ more _ _ E2). cbn. congruence.
  - destruct (negb _); [discriminate|]. destruct (read_all 12 s1) as [[h s2]|] eqn:E2; [|discriminate]. rewrite (read_all_more _ _ more _ _ E2). cbn.
    destruct (_ =? 0); [discriminate|]. destruct (read_all _ s2) as [[p s3]|] eqn:E3; [|discriminate]. rewrite (read_all_more _ _ more _ _ E3). cbn. congruence.
Qed.

(** * Frames *)

(** A call of [send_pipeline_shard] or [send_pipeline_stream_end], the bytes it
    writes and the frame it means. *)
Inductive Sent := SentShard (eq_slot shard_id stripe_len : Z) (payload : list byte) | SentEnd (eq_slot shard_count : Z).

Definition sent_bytes (s : Sent) : list byte :=
  match s with SentShard e i len payload => send_pipeline_shard e i len payload | SentEnd e n => send_pipeline_stream_end e n end.
Definition sent_frame (s : Sent) : PipelineFrame :=
  match s with SentShard e i len payload => shard_frame e i len payload | SentEnd e n => end_frame e n end.
Definition sendable (s : Sent) : Prop :=
  match s with SentShard _ _ len payload => 0 < len < 2 ^ 32 /\ len <= zlen payload | SentEnd _ _ => True end.

Lemma recv_sent s rest : sendable s -> recv_pipeline_frame (sent_bytes s ++ rest) = Some (sent_frame s, rest).
Proof.
  unfold recv_pipeline_frame. destruct s as [e i len payload|e n]; cbn [sendable sent_bytes sent_frame].
  - intros [Hl Hp]. unfold send_pipeline_shard. rewrite <- !app_assoc, read_all_app by reflexivity. cbn [mbind option_bind].
    rewrite of_le32_le32. change (kPipelineMagic mod 2 ^ 32) with kPipelineMagic. change (kPipelineMagic =? kPipelineStreamEnd) with false.
    rewrite Z.eqb_refl. cbn [negb]. rewrite (app_assoc (le32 (u32 e))), (app_assoc (le32 (u32 e) ++ _)), read_all_app by reflexivity. cbn [mbind option_bind].
    rewrite <- app_assoc, ztake_app_exact, !zdrop_app_exact, ztake_app_exact by reflexivity. cbv zeta. rewrite app_assoc, zdrop_app_exact by reflexivity.
    rewrite !of_le32_le32, !u32_u32. cbn [hdr_stripe_len]. assert (El : u32 len = len) by (apply Z.mod_small; lia). rewrite El.
    destruct (Z.eqb_spec len 0); [lia|]. rewrite read_all_app; [cbn; unfold shard_frame; rewrite El; reflexivity|].
    unfold ztake. rewrite length_take. lia.
  - intros _. unfold send_pipeline_stream_end. rewrite <- !app_assoc, read_all_app by reflexivity. cbn [mbind option_bind].
    rewrite of_le32_le32. change (kPipelineStreamEnd mod 2 ^ 32) with kPipelineStreamEnd. rewrite Z.eqb_refl.
    rewrite (app_assoc (le32 (u32 e))), (app_assoc (le32 (u32 e) ++ _)), read_all_app by reflexivity. cbn [mbind option_bind].
    rewrite <- app_assoc, ztake_app_exact, !zdrop_app_exact, ztake_app_exact by reflexivity. rewrite app_assoc, zdrop_app_exact by reflexivity.
    rewrite !of_le32_le32, !u32_u32. reflexivity.
Qed.

(** A frame that is cut off is no frame. *)
Lemma recv_part s i : sendable s -> 0 <= i < zlen (sent_bytes s) -> recv_pipeline_frame (ztake i (sent_bytes s)) = None.
Proof.
  intros Hs Hi. destruct (recv_pipeline_frame _) as [[frame rest]|] eqn:E; [exfalso|reflexivity].
  apply (recv_more _ (zdrop i (sent_bytes s))) in E. unfold ztake, zdrop in E. rewrite take_drop in E.
  pose proof (recv_sent s [] Hs) as E'. rewrite app_nil_r, E in E'. injection E' as _ E'. apply app_nil in E' as [_ E'].
  apply (f_equal length) in E'. rewrite length_drop in E'. cbn in E'. lia.
Qed.

(** What a receiver reads until the connection ends. *)
Fixpoint recv_frames (fuel : nat) (stream : list byte) : list PipelineFrame :=
  match fuel with
  | O => []
  | S fuel => match recv_pipeline_frame stream with Some (frame, rest) => frame :: recv_frames fuel rest | None => [] end
  end.

Lemma recv_nothing : recv_pipeline_frame [] = None.
Proof. reflexivity. Qed.

Lemma sent_nonempty s : 0 < zlen (sent_bytes s).
Proof. destruct s; cbn [sent_bytes]; unfold send_pipeline_shard, send_pipeline_stream_end; rewrite length_app; change (length (le32 _)) with 4%nat; lia. Qed.

(** C33. The frames of a connection are the frames that were sent: whatever the
    bytes received so far, they are read as the first of the frames, whole and in
    order, and all bytes are read as all frames, however often the receiver
    asks. *)
Theorem connection_carries_frames l fuel i :
  Forall sendable l -> (length l < fuel)%nat ->
  recv_frames fuel (concat (map sent_bytes l)) = map sent_frame l /\
  exists m, recv_frames fuel (ztake i (concat (map sent_bytes l))) = take m (map sent_frame l).
Proof.
  intros Hl. revert fuel i. induction Hl as [|s l Hs _ IH]; intros [|fuel] i Hf; cbn [length] in Hf; try lia; cbn [map concat recv_frames].
  - rewrite recv_nothing. split; [reflexivity|]. exists O. unfold ztake. rewrite take_nil, recv_nothing. reflexivity.
  - destruct (IH fuel (i - zlen (sent_bytes s)) ltac:(lia)) as [I1 [m I2]]. rewrite recv_sent, I1 by exact Hs. split; [reflexivity|].
    destruct (Z.lt_ge_cases i (zlen (sent_bytes s))) as [Hi|Hi].
    + exists O. unfold ztake. rewrite take_app_le by lia. change (take (Z.to_nat i) ?x) with (ztake i x). destruct (Z.lt_ge_cases i 0) as [Hn|Hn].
      * unfold ztake. replace (Z.to_nat i) with O by lia. rewrite take_0, recv_nothing. reflexivity.
      * rewrite recv_part by (auto; lia). reflexivity.
    + exists (S m). unfold ztake. rewrite take_app_ge, recv_sent by (auto; lia). cbn [take]. rewrite <- I2. unfold ztake. do 3 f_equal. lia.
Qed.

(** Two shards and the end of the stream; the connection breaks in the second. *)
Lemma connection_carries_frames_witness :
  let l := [SentShard 1 0 2 [x05; x07]; SentShard 1 1 2 [x06; x01]; SentEnd 1 2] in
  recv_frames 4 (concat (map sent_bytes l)) = map sent_frame l /\ recv_frames 4 (ztake 35 (concat (map sent_bytes l))) = [shard_frame 1 0 2 [x05; x07]].
Proof.
  intros l. destruct (connection_carries_frames l 4 35) as [H1 [m H2]]; [repeat constructor; cbn; lia|cbn; lia|].
  split; [exact H1|vm_compute; reflexivity].
Defined.

(** * The listeners of a session *)

Definition hub_session (epoch : Z) (hub : list (Z * Z)) (hop : gmap string Z) : PipelineReadySession :=
  {| ready_epoch := epoch; hub_acceptors := hub; hop_acceptors := hop |}.

(** The acceptors of the session are open, at a port each. *)
Record ready_ok (r : ReadyState) : Prop := {
  ro_nodup : NoDup (session_ports (ready_session r));
  ro_bound : forall port, port ∈ session_ports (ready_session r) -> port ∈ bound_ports r }.

(** What a READY request is to bind. *)
Definition ready_wants (h : bool) (g : Z) (q : PipelineRequest) : list Z :=
  let i := rc_my_hop_index (rq_chain q) in
  if zlen (rq_hub_chains q) >? 0 then map snd (hub_listen_ports h g q)
  else if (i >=? 1) && (zlen (rc_hop_block_ids (rq_chain q)) >? i)
  then [resolve_my_hop_bind_port h q g (rb_exchange_epoch (rq_base q)) (rc_chain_id (rq_chain q)) i] else [].

Lemma open_acceptors_spec l bound :
  match open_pipeline_acceptors l bound with
  | inl b => NoDup (map snd l) /\ (forall p, p ∈ map snd l -> p ∉ bound) /\ b = list_to_set (map snd l) ∪ bound
  | inr b => b = bound /\ ~ (NoDup (map snd l) /\ forall p, p ∈ map snd l -> p ∉ bound)
  end.
Proof.
  revert bound. induction l as [|[x port] l IH]; intros bound; cbn [open_pipeline_acceptors map snd].
  - split; [constructor|]. split; [intros p Hp; inversion Hp|]. set_solver.
  - case_bool_decide as Hp; [split; [reflexivity|]; intros [_ H]; exact (H port ltac:(left) Hp)|].
    specialize (IH ({[port]} ∪ bound)). destruct (open_pipeline_acceptors l _) as [b|b].
    + destruct IH as (I1 & I2 & ->). split; [constructor; [|exact I1]|split; [|set_solver]].
      * intros Hin. apply (I2 port Hin). set_solver.
      * intros p [->|Hin]%elem_of_cons; [exact Hp|]. intros Hb. apply (I2 p Hin). set_solver.
    + destruct IH as [_ IH]. split; [reflexivity|]. intros [H1 H2]. apply NoDup_cons in H1 as [H0 H1]. apply IH. split; [exact H1|].
      intros p Hin Hb. apply elem_of_union in Hb as [->%elem_of_singleton|Hb]; [exact (H0 Hin)|exact (H2 p ltac:(right; exact Hin) Hb)].
Qed.

Lemma session_ports_delete s key old : hop_acceptors s !! key = Some old ->
  session_ports s ≡ₚ old :: session_ports (hub_session (ready_epoch s) (hub_acceptors s) (delete key (hop_acceptors s))).
Proof.
  intros E. unfold session_ports, hub_session. cbn [hub_acceptors hop_acceptors]. rewrite <- (insert_delete_id _ _ _ E) at 1.
  rewrite map_to_list_insert by apply lookup_delete_eq. cbn [map snd]. symmetry. apply Permutation_middle.
Qed.

Lemma session_ports_insert epoch hub m key port : 
  session_ports (hub_session epoch hub (<[key := port]> m)) ≡ₚ port :: session_ports (hub_session epoch hub (delete key m)).
Proof.
  unfold session_ports, hub_session. cbn [hub_acceptors hop_acceptors]. rewrite <- insert_delete_eq, map_to_list_insert by apply lookup_delete_eq.
  cbn [map snd]. symmetry. apply Permutation_middle.
Qed.

(** The listeners of another epoch are closed, everything else stays bound. *)
Lemma enter_epoch_ok epoch r : ready_ok r -> let r' := enter_epoch epoch r in
  ready_ok r' /\ ready_epoch (ready_session r') = epoch /\ bound_ports r' ⊆ bound_ports r /\
  (forall p, p ∈ bound_ports r -> p ∉ session_ports (ready_session r) -> p ∈ bound_ports r') /\
  (forall p, p ∈ session_ports (ready_session r') -> p ∈ session_ports (ready_session r)) /\
  bound_ports r' ∖ list_to_set (session_ports (ready_session r')) = bound_ports r ∖ list_to_set (session_ports (ready_session r)).
Proof.
  intros [N B]. cbv zeta. unfold enter_epoch. destruct (Z.eqb_spec (ready_epoch (ready_session r)) epoch) as [E|E].
  - repeat split; auto.
  - unfold reset_pipeline_ready_session. cbn [ready_session bound_ports ready_epoch].
    change (session_ports {| ready_epoch := epoch; hub_acceptors := []; hop_acceptors := ∅ |}) with ([] : list Z).
    split; [split; cbn [ready_session bound_ports]; [constructor|intros p Hp; inversion Hp]|]. split; [reflexivity|]. split; [set_solver|].
    split; [intros p H1 H2; apply elem_of_difference; split; [exact H1|rewrite elem_of_list_to_set; exact H2]|].
    split; [intros p Hp; inversion Hp|]. cbn [list_to_set]. set_solver.
Qed.

(** The session with the listeners [L] added and [gone] taken away. *)
Lemma added_ok epoch r ports gone s bound : ready_ok r -> NoDup ports -> (forall p, p ∈ ports -> p ∉ bound_ports r) ->
  let r1 := enter_epoch epoch {| ready_session := ready_session r; bound_ports := list_to_set ports ∪ bound_ports r |} in
  gone ++ session_ports s ≡ₚ ports ++ session_ports (ready_session r1) -> (forall p, p ∈ gone -> p ∉ ports) -> bound = bound_ports r1 ∖ list_to_set gone ->
  ready_ok {| ready_session := s; bound_ports := bound |} /\
  bound ∖ list_to_set (session_ports s) = bound_ports r ∖ list_to_set (session_ports (ready_session r)).
Proof.
  intros [N B] Hn Hf. cbv zeta. edestruct (enter_epoch_ok epoch {| ready_session := ready_session r; bound_ports := list_to_set ports ∪ bound_ports r |}) as (O1 & _ & Hsub & Hkeep & Hold & Hdiff).
  { split; cbn [ready_session bound_ports]; [exact N|]. intros p Hp. apply elem_of_union. right. apply B, Hp. }
  cbn [ready_session bound_ports] in *. set (r1 := enter_epoch epoch _) in *. intros HP Hg ->. destruct O1 as [N1 B1].
  assert (Hfresh : forall p, p ∈ ports -> p ∉ session_ports (ready_session r1)) by (intros p Hp Hs; exact (Hf p Hp (B p (Hold p Hs)))).
  assert (ND : NoDup (gone ++ session_ports s)) by (rewrite HP; apply NoDup_app; auto). apply NoDup_app in ND as (_ & Hd & ND).
  assert (Hin : forall p, p ∈ gone \/ p ∈ session_ports s <-> p ∈ ports \/ p ∈ session_ports (ready_session r1)) by (intros p; rewrite <- !elem_of_app, !list_elem_of_In; split; apply Permutation_in; [|symmetry]; exact HP).
  assert (Hopen : forall p, p ∈ ports -> p ∈ bound_ports r1).
  { intros p Hp. apply Hkeep; [apply elem_of_union; left; apply elem_of_list_to_set, Hp|]. intros Hs. exact (Hf p Hp (B p Hs)). }
  split; [split; cbn [ready_session bound_ports]; [exact ND|]|].
  - intros p Hp. apply elem_of_difference. rewrite elem_of_list_to_set. split; [|intros Hgo; exact (Hd p Hgo Hp)].
    destruct (proj1 (Hin p) (or_intror Hp)); auto.
  - apply set_eq. intros p. assert (E : p ∈ bound_ports r1 /\ p ∉ session_ports (ready_session r1) <-> (p ∈ ports \/ p ∈ bound_ports r) /\ p ∉ session_ports (ready_session r)).
    { rewrite <- !(elem_of_list_to_set (C := gset Z)), <- elem_of_union, <- !elem_of_difference. rewrite Hdiff. reflexivity. }
    rewrite !elem_of_difference, !elem_of_list_to_set. specialize (Hin p). specialize (Hf p). specialize (B p). specialize (Hd p). specialize (Hg p).
    specialize (Hfresh p). clear - E Hin Hf B Hd Hg Hfresh. tauto.
Qed.

(** What the hub or the hop server of the request finds when its role starts. *)
Definition ready_found (h : bool) (g : Z) (q : PipelineRequest) (r : ReadyState) : Prop :=
  let epoch := rb_exchange_epoch (rq_base q) in
  let i := rc_my_hop_index (rq_chain q) in
  if zlen (rq_hub_chains q) >? 0
  then forall x, x ∈ hub_listen_ports h g q -> x ∈ fst (take_hub_ready_acceptors epoch r)
  else (i >=? 1) && (zlen (rc_hop_block_ids (rq_chain q)) >? i) = true ->
    let port := resolve_my_hop_bind_port h q g epoch (rc_chain_id (rq_chain q)) i in
    fst (take_hop_ready_acceptor epoch (rc_chain_id (rq_chain q)) i port r) = true.

Definition ready_done (h : bool) (g : Z) (q : PipelineRequest) (r : ReadyState) (res : bool * ReadyState) : Prop :=
  ready_ok (snd res) /\
  (fst res = true <-> NoDup (ready_wants h g q) /\ forall p, p ∈ ready_wants h g q -> p ∉ bound_ports r) /\
  (if fst res then ready_found h g q (snd res) else snd res = r) /\
  bound_ports (snd res) ∖ list_to_set (session_ports (ready_session (snd res))) = bound_ports r ∖ list_to_set (session_ports (ready_session r)).

Lemma ready_refused h g q r : ready_ok r -> ~ (NoDup (ready_wants h g q) /\ forall p, p ∈ ready_wants h g q -> p ∉ bound_ports r) ->
  ready_done h g q r (false, {| ready_session := ready_session r; bound_ports := bound_ports r |}).
Proof. intros Hr Hn. destruct r. split; [exact Hr|]. split; [split; [discriminate|contradiction]|]. split; reflexivity. Qed.

Lemma hub_ready h g q r : ready_ok r -> (zlen (rq_hub_chains q) >? 0) = true -> ready_done h g q r (glrcIlpPipelineReadyRecovery h g q r).
Proof.
  intros Hr Hub. unfold glrcIlpPipelineReadyRecovery. rewrite Hub. cbv zeta. pose proof (open_acceptors_spec (hub_listen_ports h g q) (bound_ports r)) as Ho.
  assert (W : ready_wants h g q = map snd (hub_listen_ports h g q)) by (unfold ready_wants; rewrite Hub; reflexivity).
  destruct (open_pipeline_acceptors _ _) as [b|b]; [destruct Ho as (Hn & Hf & ->)|destruct Ho as [-> Ho]; apply ready_refused; [exact Hr|rewrite W; exact Ho]].
  set (r1 := enter_epoch _ _). set (s := {| ready_epoch := _ |}).
  destruct (added_ok (rb_exchange_epoch (rq_base q)) r _ [] s (bound_ports r1) Hr Hn Hf) as [H1 H2].
  - fold r1. cbn [app]. unfold s, session_ports. cbn [hub_acceptors hop_acceptors]. rewrite map_app, app_assoc. apply Permutation_app_tail, Permutation_app_comm.
  - intros p Hp. inversion Hp.
  - fold r1. cbn [list_to_set]. set_solver.
  - split; [exact H1|]. split; [rewrite W; split; auto|]. split; [|exact H2].
    cbn [fst snd]. unfold ready_found. rewrite Hub. intros x Hx. unfold take_hub_ready_acceptors. cbn [ready_session s ready_epoch hub_acceptors].
    destruct (enter_epoch_ok (rb_exchange_epoch (rq_base q)) {| ready_session := ready_session r; bound_ports := list_to_set (map snd (hub_listen_ports h g q)) ∪ bound_ports r |}) as (_ & E & _).
    { destruct Hr as [N B]. split; [exact N|]. intros p Hp. apply elem_of_union. right. apply B, Hp. }
    fold r1 in E. rewrite E, Z.eqb_refl. cbn [negb fst]. apply elem_of_app. right. exact Hx.
Qed.

Lemma hop_ready h g q r : ready_ok r -> (zlen (rq_hub_chains q) >? 0) = false -> ready_done h g q r (glrcIlpPipelineReadyRecovery h g q r).
Proof.
  intros Hr Hub. unfold glrcIlpPipelineReadyRecovery. rewrite Hub. cbv zeta. cbn [negb andb]. set (i := rc_my_hop_index _). set (epoch := rb_exchange_epoch _). set (chain := rc_chain_id _).
  destruct ((i >=? 1) && (zlen (rc_hop_block_ids (rq_chain q)) >? i)) eqn:Hop.
  2:{ assert (W : ready_wants h g q = []) by (unfold ready_wants; rewrite Hub; fold i; rewrite Hop; reflexivity).
      split; [exact Hr|]. split; [rewrite W; split; [intros _; split; [constructor|intros p Hp; inversion Hp]|reflexivity]|]. split; [|reflexivity].
      cbn [fst snd]. unfold ready_found. rewrite Hub. fold i. rewrite Hop. discriminate. }
  set (port := resolve_my_hop_bind_port _ _ _ _ _ _). assert (W : ready_wants h g q = [port]) by (unfold ready_wants; rewrite Hub; fold i; rewrite Hop; reflexivity).
  pose proof (open_acceptors_spec [(0, port)] (bound_ports r)) as Ho. change (map snd [(0, port)]) with [port] in Ho.
  destruct (open_pipeline_acceptors _ _) as [b|b]; [destruct Ho as (Hn & Hf & ->)|destruct Ho as [-> Ho]; apply ready_refused; [exact Hr|rewrite W; exact Ho]].
  destruct (enter_epoch_ok epoch {| ready_session := ready_session r; bound_ports := list_to_set [port] ∪ bound_ports r |}) as (_ & E & _ & _ & Hold & _).
  { destruct Hr as [N B]. split; [exact N|]. intros p Hp. apply elem_of_union. right. apply B, Hp. }
  pose proof (added_ok epoch r [port] (match hop_acceptors (ready_session (enter_epoch epoch {| ready_session := ready_session r; bound_ports := list_to_set [port] ∪ bound_ports r |})) !! hop_ready_key epoch chain i with Some old => [old] | None => [] end)) as Hadd.
  set (r1 := enter_epoch _ _) in *. set (key := hop_ready_key _ _ _) in *. set (s := {| ready_epoch := _ |}). set (bound := match _ with Some _ => _ | None => _ end).
  destruct (Hadd s bound Hr Hn Hf) as [H1 H2].
  - unfold s. change {| ready_epoch := ?a; hub_acceptors := ?b; hop_acceptors := ?c |} with (hub_session a b c). rewrite session_ports_insert.
    destruct (hop_acceptors (ready_session r1) !! key) as [old|] eqn:Ek; cbn [app].
    + rewrite (session_ports_delete (ready_session r1) key old Ek). apply perm_swap.
    + rewrite delete_id by exact Ek. destruct (ready_session r1); reflexivity.
  - destruct (hop_acceptors (ready_session r1) !! key) as [old|] eqn:Ek; intros p Hp; [|inversion Hp]. apply list_elem_of_singleton in Hp as ->.
    intros Hp. apply list_elem_of_singleton in Hp as ->. apply (Hf port ltac:(left)). apply (ro_bound r Hr), Hold. rewrite (session_ports_delete _ key port Ek). left.
  - unfold bound. destruct (hop_acceptors (ready_session r1) !! key); cbn [list_to_set]; set_solver.
  - split; [exact H1|]. split; [rewrite W; split; auto|]. split; [|exact H2].
    cbn [fst snd]. unfold ready_found. rewrite Hub. fold i. intros _. fold epoch chain port. unfold take_hop_ready_acceptor. cbn [ready_session s ready_epoch hop_acceptors].
    rewrite E, Z.eqb_refl. cbn [negb]. fold key. rewrite lookup_insert_eq, Z.eqb_refl. reflexivity.
Qed.

(** C34. A proxy keeps the listeners of its READY calls.  In every state they leave:
    the session's listeners are bound, at a port each; a call succeeds exactly
    when the ports it asks for are different and free, the hub or the hop server
    then finds its listener, and otherwise nothing has changed; and a teardown
    closes what READY opened, down to the ports that were bound before any
    session. *)
Theorem ready_sessions_kept h calls r : ready_ok r ->
  let run := fold_left (fun r '(g, q) => snd (glrcIlpPipelineReadyRecovery h g q r)) calls r in
  ready_ok run /\
  (forall g q, let res := glrcIlpPipelineReadyRecovery h g q run in
     (fst res = true <-> NoDup (ready_wants h g q) /\ forall p, p ∈ ready_wants h g q -> p ∉ bound_ports run) /\
     (if fst res then ready_found h g q (snd res) else snd res = run)) /\
  bound_ports (snd (glrcIlpPipelineTeardownRecovery run)) = bound_ports r ∖ list_to_set (session_ports (ready_session r)).
Proof.
  assert (Hall : forall g q r, ready_ok r -> ready_done h g q r (glrcIlpPipelineReadyRecovery h g q r)).
  { intros g q r' Hr. destruct (zlen (rq_hub_chains q) >? 0) eqn:E; [apply hub_ready|apply hop_ready]; assumption. }
  cbv zeta. revert r. induction calls as [|[g q] calls IH]; intros r Hr; cbn [fold_left].
  - split; [exact Hr|]. split; [|reflexivity]. intros g q. destruct (Hall g q r Hr) as (_ & H1 & H2 & _). split; assumption.
  - destruct (Hall g q r Hr) as (H1 & _ & _ & H2). destruct (IH _ H1) as (I1 & I2 & I3). split; [exact I1|]. split; [exact I2|]. rewrite I3. exact H2.
Qed.

(** A hub with two chains and a hop server at one proxy; a second hop server asks
    for the port of the first. *)
Definition ex_base : BaseRequest :=
  {| rb_shard_count := 2; rb_global_begin := 0; rb_global_count := 0; rb_exchange_epoch := 7; rb_hybrid_commit_token := ""; rb_range_commit_parts := 0;
     rb_failed_ids := []; rb_failed_keys := []; rb_replaced := []; rb_equation_indices := [] |}.
Definition ex_hub_ready : PipelineRequest :=
  {| rq_role := READY; rq_base := ex_base; rq_hub_proxy := ("10.0.0.1"%string, 50005); rq_hub_block_key := ""; rq_hub_datanode := None; rq_chain := no_chain;
     rq_hub_chains := [inhabitant; inhabitant]; rq_hub_listener_ports := [30100; 30101] |}.
Definition ex_hop_ready (chain : Z) : PipelineRequest :=
  {| rq_role := READY; rq_base := ex_base; rq_hub_proxy := ("10.0.0.1"%string, 50005); rq_hub_block_key := ""; rq_hub_datanode := None;
     rq_chain := {| rc_chain_id := chain; rc_eq_slot := 0; rc_hub_is_tail := true; rc_equation_is_local := false; rc_my_hop_index := 1;
       rc_hop_block_ids := [3; 4; 5]; rc_hop_proxies := []; rc_hop_datanodes := []; rc_hop_block_keys := []; rc_hop_coefs := []; rc_hop_listen_ports := [];
       rc_chain_hub_listen_port := 0; rc_my_listen_port := 30007; rc_local_failed_block_id := 0; rc_local_failed_block_key := ""; rc_local_replaced_node := (""%string, 0) |};
     rq_hub_chains := []; rq_hub_listener_ports := [] |}.

Lemma ready_sessions_kept_witness :
  let r := {| ready_session := no_ready_session; bound_ports := {[22]} |} in
  let run := fold_left (fun r '(g, q) => snd (glrcIlpPipelineReadyRecovery false g q r)) [(50005, ex_hub_ready); (50005, ex_hop_ready 1)] r in
  ready_ok run /\ session_ports (ready_session run) = [30100; 30101; 30007] /\
  fst (glrcIlpPipelineReadyRecovery false 50005 (ex_hop_ready 2) run) = false /\ snd (glrcIlpPipelineReadyRecovery false 50005 (ex_hop_ready 2) run) = run /\
  bound_ports (snd (glrcIlpPipelineTeardownRecovery run)) = {[22]}.
Proof.
  intros r run. assert (Hr : ready_ok r) by (split; [constructor|intros p Hp; inversion Hp]).
  destruct (ready_sessions_kept false [(50005, ex_hub_ready); (50005, ex_hop_ready 1)] r Hr) as (H1 & H2 & H3). fold run in H1, H2, H3.
  assert (E : fst (glrcIlpPipelineReadyRecovery false 50005 (ex_hop_ready 2) run) = false) by (vm_compute; reflexivity).
  split; [exact H1|]. split; [vm_compute; reflexivity|]. split; [exact E|]. split; [|rewrite H3; vm_compute; reflexivity].
  destruct (H2 50005 (ex_hop_ready 2)) as [_ H]. rewrite E in H. exact H.
Defined.
