(* ===== verification/PipelineRun.v ===== *)
(** A repair along pipelines: [recovery_glrc_ilp_pipeline_breakdown_ex] of
    [coordinator.cpp] and the roles of [proxy_glrc_pipeline.cpp].  A chain head
    sends its weighted shards; every hop server adds its own and passes them on;
    the hub solves for the lost blocks shard by shard and streams them to their
    data nodes; the sink of a local chain stores what arrives.  The threads of
    the proxies are the steps of a relation, connections are queues of frames. *)
From S2P Require Import PortAllocator.
From S2P Require Import Prelude GF256 EcKernel Groups Codes Decode DecodeSpec RepairPlan PipelineCodec PipelinePlan PipelineSession CNum Text.
From S2P Require Import Toolbox Placement Coordinator AppendPlan Client DataNode ProxyAppend ReadPath SingleRepair MultiRecovery PipelineMessages.

(** * Common to the roles *)

Inductive RoleStage := RoleConnecting | RoleAccepting | RoleOpening | RoleStreaming | RoleReturned (result : bool).

#[export] Instance RoleStage_eq_dec : EqDecision RoleStage.
Proof. solve_decision. Defined.

#[export] Instance PipelineFrame_inhabited : Inhabited PipelineFrame := populate (end_frame 0 0).

Section Roles.
(** The configuration: block size, shards of a block, window. *)
Context (bs GlrcShardCount : Z) (window : Z).

Definition view (q : PipelineRequest) : PipelineShardView := resolve_pipeline_shard_view (rq_base q) bs GlrcShardCount.
Definition shards (q : PipelineRequest) : Z := local_count (view q).
Definition width (q : PipelineRequest) : Z := stripe_len (view q).
Definition pipe_window (q : PipelineRequest) : Z := resolve_pipeline_window (Some window) (shards q).

(** What a data node sends for the shards of the request. *)
Definition datanode_stream (q : PipelineRequest) (key : string) (node : string * Z) (st : Storage) : list byte :=
  fst (handleGetBreakdown key bs (byte_off (view q) 0) (shards q * width q) (files_at (fst node) (snd node) st)).

Definition put_shard (q : PipelineRequest) (shard : Z) (payload : list byte) : PipelineFrame :=
  shard_frame (rc_eq_slot (rq_chain q)) shard (width q) payload.
Definition put_end (q : PipelineRequest) : PipelineFrame := end_frame (rc_eq_slot (rq_chain q)) (shards q).

(** * The head of a chain *)

(** [head_stream]: what its data node still has to send; [head_reading]: the read
    loop runs; [head_sending]: the sender thread runs.  With a window of one the
    main thread sends. *)
Record Head := MkHead {
  head_stage : RoleStage;
  head_stream : list byte;
  head_shard : Z;
  head_reading : bool;
  send_q : PipelineBoundedQueue;
  head_sending : bool;
  shards_sent : Z;
  head_failed : bool }.

Definition head_hops (q : PipelineRequest) : Z := zlen (rc_hop_block_ids (rq_chain q)).

(** [hop_coefs_size() > i ? hop_coefs(i) : 1] *)
Definition hop_coef_at (q : PipelineRequest) (i : Z) : byte :=
  if zlen (rc_hop_coefs (rq_chain q)) >? i then (rc_hop_coefs (rq_chain q)).[i] else x01.

Definition pipeline_chain_is_local_direct (q : PipelineRequest) : bool := negb (String.eqb (rc_local_failed_block_key (rq_chain q)) "").

(** Where the head connects to: the fan-in, or hop 1, which is read past the end
    of the list for a lone survivor of a chain that is not its fan-in's. *)
Definition head_target (one_proxy_per_host : bool) (q : PipelineRequest) : string * Z :=
  let c := rq_chain q in
  let epoch := rb_exchange_epoch (rq_base q) in
  let next_is_hub := rc_hub_is_tail c && (head_hops q <=? 2) in
  let next_is_local_sink := negb (rc_hub_is_tail c) && (head_hops q =? 1) && pipeline_chain_is_local_direct q in
  if next_is_hub || next_is_local_sink then
    (fst (rq_hub_proxy q), resolve_chain_hub_listen_port one_proxy_per_host q (snd (rq_hub_proxy q)) epoch (rc_eq_slot c))
  else
    let '(ip, port) := (rc_hop_proxies c).[1] in
    (ip, resolve_hop_listen_port one_proxy_per_host q 1 port epoch (rc_chain_id c)).

Definition start_head (called : bool) (q : PipelineRequest) : Head :=
  MkHead (if called && (head_hops q >? 0) && valid_geometry (view q) bs then RoleConnecting else RoleReturned false)
    [] 0 true (new_queue (pipe_window q)) true 0 false.

(** The head's weighted shard. *)
Definition head_shard_bytes (q : PipelineRequest) (raw : list byte) : list byte :=
  glrc_pipeline_init_partial_range (zrepeat x00 (width q)) raw (hop_coef_at q 0) (width q) (pipeline_codec_from_request q).

Definition hop_key (q : PipelineRequest) (i : Z) : string := nth (Z.to_nat i) (rc_hop_block_keys (rq_chain q)) ""%string.
Definition hop_node (q : PipelineRequest) (i : Z) : string * Z := nth (Z.to_nat i) (rc_hop_datanodes (rq_chain q)) (""%string, 0).

(** The steps of a head, with the frames it puts on its connection; [true] marks a
    fault of its environment. *)
Inductive head_step (q : PipelineRequest) (st : Storage) : bool -> list PipelineFrame -> Head -> Head -> Prop :=
| head_opens rest shard reading queue sending sent failed :
    head_step q st false [] (MkHead RoleOpening rest shard reading queue sending sent failed)
      (MkHead RoleStreaming (datanode_stream q (hop_key q 0) (hop_node q 0) st) shard reading queue sending sent failed)
| head_breaks h :
    (forall r, head_stage h <> RoleReturned r) -> head_stage h <> RoleStreaming \/ pipe_window q <= 1 ->
    head_step q st true [] h
      (MkHead (RoleReturned false) (head_stream h) (head_shard h) (head_reading h) (send_q h) (head_sending h) (shards_sent h) true)
(** One thread. *)
| head_sends_shard raw stream rest shard queue sending sent failed :
    pipe_window q <= 1 -> shard < shards q -> read_all (width q) stream = Some (raw, rest) ->
    head_step q st false [put_shard q shard (head_shard_bytes q raw)]
      (MkHead RoleStreaming stream shard true queue sending sent failed)
      (MkHead RoleStreaming rest (shard + 1) true queue sending (sent + 1) failed)
| head_runs_short stream shard queue sending sent failed :
    pipe_window q <= 1 -> shard < shards q -> read_all (width q) stream = None ->
    head_step q st false [] (MkHead RoleStreaming stream shard true queue sending sent failed)
      (MkHead (RoleReturned false) stream shard true queue sending sent failed)
| head_ends stream shard queue sending sent failed :
    pipe_window q <= 1 -> shards q <= shard ->
    head_step q st false [put_end q] (MkHead RoleStreaming stream shard true queue sending sent failed)
      (MkHead (RoleReturned true) stream shard true queue sending sent failed)
(** Two threads. *)
| head_reads raw stream rest shard queue queue' sending sent :
    1 < pipe_window q -> shard < shards q -> read_all (width q) stream = Some (raw, rest) ->
    push (queued_shard shard (head_shard_bytes q raw)) queue = Some queue' ->
    head_step q st false [] (MkHead RoleStreaming stream shard true queue sending sent false)
      (MkHead RoleStreaming rest (shard + 1) true queue' sending sent false)
| head_read_fails stream shard queue sending sent :
    1 < pipe_window q -> shard < shards q -> read_all (width q) stream = None ->
    head_step q st false [] (MkHead RoleStreaming stream shard true queue sending sent false)
      (MkHead RoleStreaming stream shard true queue sending sent true)
| head_read_ends stream shard queue queue' sending sent failed :
    1 < pipe_window q -> shards q <= shard \/ failed = true -> push (queued_end 0) queue = Some queue' ->
    head_step q st false [] (MkHead RoleStreaming stream shard true queue sending sent failed)
      (MkHead RoleStreaming stream shard false (close queue') sending sent failed)
| head_sends item stream shard reading queue queue' sent failed :
    1 < pipe_window q -> pop queue = Popped item queue' -> qs_end_of_stream item = false ->
    head_step q st false [put_shard q (qs_shard_id item) (qs_payload item)]
      (MkHead RoleStreaming stream shard reading queue true sent failed)
      (MkHead RoleStreaming stream shard reading queue' true (sent + 1) failed)
| head_send_ends stream shard reading queue sent (failed : bool) :
    1 < pipe_window q -> pop queue = PopClosed \/ (exists item queue', pop queue = Popped item queue' /\ qs_end_of_stream item = true) ->
    head_step q st false (if failed then [] else [put_end q])
      (MkHead RoleStreaming stream shard reading queue true sent failed)
      (MkHead RoleStreaming stream shard reading queue false sent failed)
| head_send_breaks stream shard reading queue sent failed :
    1 < pipe_window q ->
    head_step q st true [] (MkHead RoleStreaming stream shard reading queue true sent failed)
      (MkHead RoleStreaming stream shard reading (close queue) false sent true)
| head_read_breaks stream shard queue sending sent :
    1 < pipe_window q ->
    head_step q st true [] (MkHead RoleStreaming stream shard true queue sending sent false)
      (MkHead RoleStreaming stream shard true queue sending sent true)
| head_returns stream shard queue sent failed :
    1 < pipe_window q ->
    head_step q st false [] (MkHead RoleStreaming stream shard false queue false sent failed)
      (MkHead (RoleReturned (negb failed && (sent =? shards q))) stream shard false queue false sent failed).
(** * A hop server *)

(** The loop between its two queues. *)
Inductive WorkerStage := Working | Ending | Done.

#[export] Instance WorkerStage_eq_dec : EqDecision WorkerStage.
Proof. solve_decision. Defined.

(** [hop_reading], [hop_sending]: the reader and the sender thread run. *)
Record Hop := MkHop {
  hop_stage : RoleStage;
  hop_stream : list byte;
  inbound_q : PipelineBoundedQueue;
  outbound_q : PipelineBoundedQueue;
  hop_reading : bool;
  hop_worker : WorkerStage;
  hop_sending : bool;
  shards_forwarded : Z;
  upstream_end_count : Z;
  reader_failed : bool;
  pipeline_failed : bool }.

Definition my_hop (q : PipelineRequest) : Z := rc_my_hop_index (rq_chain q).

(** [None]: "invalid pipeline hop_server index" or geometry. *)
Definition start_hop (called : bool) (q : PipelineRequest) : Hop :=
  let valid := negb ((head_hops q <=? 1) || (my_hop q <=? 0) || (my_hop q >=? head_hops q)) && valid_geometry (view q) bs in
  MkHop (if called && valid then RoleConnecting else RoleReturned false) [] (new_queue (pipe_window q)) (new_queue (pipe_window q))
    true Working true 0 (-1) false false.

Definition pipeline_hop_connects_to_hub (q : PipelineRequest) : bool :=
  let hops_n := head_hops q in
  if pipeline_chain_is_local_direct q then my_hop q =? hops_n - 1
  else if rc_hub_is_tail (rq_chain q) then my_hop q =? hops_n - 2
  else my_hop q =? hops_n - 1.

Definition hop_target (one_proxy_per_host : bool) (q : PipelineRequest) : string * Z :=
  let c := rq_chain q in
  let epoch := rb_exchange_epoch (rq_base q) in
  if pipeline_hop_connects_to_hub q then
    (fst (rq_hub_proxy q), resolve_chain_hub_listen_port one_proxy_per_host q (snd (rq_hub_proxy q)) epoch (rc_eq_slot c))
  else
    let '(ip, port) := (rc_hop_proxies c).[my_hop q + 1] in
    (ip, resolve_hop_listen_port one_proxy_per_host q (my_hop q + 1) port epoch (rc_chain_id c)).

(** The shard with the hop's own share, and the rest of the local stream. *)
Definition compute_inbound_shard (q : PipelineRequest) (shard : Z) (partial stream : list byte) : option (list byte * list byte) :=
  if (shard <? 0) || (shard >=? shards q) || negb (zlen partial =? width q) then None
  else
    match read_all (width q) stream with
    | None => None
    | Some (local, rest) =>
        Some (glrc_pipeline_accumulate_range partial local (hop_coef_at q (my_hop q)) (width q) (pipeline_codec_from_request q), rest)
    end.

(** With the frame taken from the upstream connection, if any, and the frames put
    on the downstream one.  A thread that would wait to push is shown as not having
    taken the item yet. *)
Inductive hop_step (q : PipelineRequest) (st : Storage) : bool -> option PipelineFrame -> list PipelineFrame -> Hop -> Hop -> Prop :=
| hop_opens stream inq outq reading worker sending forwarded count rfailed failed :
    hop_step q st false None [] (MkHop RoleOpening stream inq outq reading worker sending forwarded count rfailed failed)
      (MkHop RoleStreaming (datanode_stream q (hop_key q (my_hop q)) (hop_node q (my_hop q)) st) inq outq reading worker sending forwarded count rfailed failed)
| hop_breaks h :
    (forall r, hop_stage h <> RoleReturned r) -> hop_stage h <> RoleStreaming \/ pipe_window q <= 1 ->
    hop_step q st true None [] h (MkHop (RoleReturned false) (hop_stream h) (inbound_q h) (outbound_q h) (hop_reading h) (hop_worker h) (hop_sending h)
      (shards_forwarded h) (upstream_end_count h) (reader_failed h) (pipeline_failed h))
(** One thread. *)
| hop_forwards hdr payload partial stream rest inq outq reading worker sending forwarded count rfailed failed :
    pipe_window q <= 1 -> let shard := int_of_u32 (hdr_shard_id hdr) in
    compute_inbound_shard q shard payload stream = Some (partial, rest) ->
    hop_step q st false (Some (SHARD hdr payload)) [put_shard q shard partial]
      (MkHop RoleStreaming stream inq outq reading worker sending forwarded count rfailed failed)
      (MkHop RoleStreaming rest inq outq reading worker sending (forwarded + 1) count rfailed failed)
| hop_rejects hdr payload stream inq outq reading worker sending forwarded count rfailed failed :
    pipe_window q <= 1 -> compute_inbound_shard q (int_of_u32 (hdr_shard_id hdr)) payload stream = None ->
    hop_step q st false (Some (SHARD hdr payload)) []
      (MkHop RoleStreaming stream inq outq reading worker sending forwarded count rfailed failed)
      (MkHop (RoleReturned false) stream inq outq reading worker sending forwarded count rfailed failed)
| hop_ends e stream inq outq reading worker sending forwarded count rfailed failed :
    pipe_window q <= 1 -> let complete := int_of_u32 (end_shard_count e) =? forwarded in
    hop_step q st false (Some (END e)) (if complete then [put_end q] else [])
      (MkHop RoleStreaming stream inq outq reading worker sending forwarded count rfailed failed)
      (MkHop (RoleReturned complete) stream inq outq reading worker sending forwarded count rfailed failed)
(** Three threads: the reader, ... *)
| hop_receives hdr payload stream inq inq' outq worker sending forwarded count failed :
    1 < pipe_window q -> push (queued_shard (int_of_u32 (hdr_shard_id hdr)) payload) inq = Some inq' ->
    hop_step q st false (Some (SHARD hdr payload)) []
      (MkHop RoleStreaming stream inq outq true worker sending forwarded count false failed)
      (MkHop RoleStreaming stream inq' outq true worker sending forwarded count false failed)
| hop_receives_end e stream inq inq' outq worker sending forwarded count failed :
    1 < pipe_window q -> push (queued_end (int_of_u32 (end_shard_count e))) inq = Some inq' ->
    hop_step q st false (Some (END e)) []
      (MkHop RoleStreaming stream inq outq true worker sending forwarded count false failed)
      (MkHop RoleStreaming stream (close inq') outq false worker sending forwarded count false failed)
| hop_reader_stops stream inq outq worker sending forwarded count failed :
    1 < pipe_window q ->
    hop_step q st false None []
      (MkHop RoleStreaming stream inq outq true worker sending forwarded count true failed)
      (MkHop RoleStreaming stream (close inq) outq false worker sending forwarded count true failed)
| hop_receive_breaks stream inq outq worker sending forwarded count rfailed failed :
    1 < pipe_window q ->
    hop_step q st true None []
      (MkHop RoleStreaming stream inq outq true worker sending forwarded count rfailed failed)
      (MkHop RoleStreaming stream (close inq) (close outq) false worker sending forwarded count true failed)
(** ... the loop in the middle, ... *)
| hop_works item partial stream rest inq inq' outq outq' reading sending forwarded count rfailed failed :
    1 < pipe_window q -> pop inq = Popped item inq' -> qs_end_of_stream item = false ->
    compute_inbound_shard q (qs_shard_id item) (qs_payload item) stream = Some (partial, rest) ->
    push (queued_shard (qs_shard_id item) partial) outq = Some outq' ->
    hop_step q st false None []
      (MkHop RoleStreaming stream inq outq reading Working sending forwarded count rfailed failed)
      (MkHop RoleStreaming rest inq' outq' reading Working sending forwarded count rfailed failed)
| hop_work_fails item stream inq inq' outq reading sending forwarded count rfailed failed :
    1 < pipe_window q -> pop inq = Popped item inq' -> qs_end_of_stream item = false ->
    compute_inbound_shard q (qs_shard_id item) (qs_payload item) stream = None ->
    hop_step q st false None []
      (MkHop RoleStreaming stream inq outq reading Working sending forwarded count rfailed failed)
      (MkHop RoleStreaming stream inq' outq reading Ending sending forwarded count true true)
| hop_work_ends item stream inq inq' outq reading sending forwarded count rfailed failed :
    1 < pipe_window q -> pop inq = Popped item inq' -> qs_end_of_stream item = true ->
    hop_step q st false None []
      (MkHop RoleStreaming stream inq outq reading Working sending forwarded count rfailed failed)
      (MkHop RoleStreaming stream inq' outq reading Ending sending forwarded (qs_end_shard_count item) rfailed failed)
| hop_work_closed stream inq outq reading sending forwarded count rfailed failed :
    1 < pipe_window q -> pop inq = PopClosed ->
    hop_step q st false None []
      (MkHop RoleStreaming stream inq outq reading Working sending forwarded count rfailed failed)
      (MkHop RoleStreaming stream inq outq reading Ending sending forwarded count rfailed failed)
| hop_work_done stream inq outq outq' reading sending forwarded count rfailed failed :
    1 < pipe_window q -> push (queued_end 0) outq = Some outq' ->
    hop_step q st false None []
      (MkHop RoleStreaming stream inq outq reading Ending sending forwarded count rfailed failed)
      (MkHop RoleStreaming stream (close inq) (close outq') reading Done sending forwarded count rfailed failed)
(** ... and the sender. *)
| hop_sends item stream inq outq outq' reading worker forwarded count rfailed failed :
    1 < pipe_window q -> pop outq = Popped item outq' -> qs_end_of_stream item = false ->
    hop_step q st false None [put_shard q (qs_shard_id item) (qs_payload item)]
      (MkHop RoleStreaming stream inq outq reading worker true forwarded count rfailed failed)
      (MkHop RoleStreaming stream inq outq' reading worker true (forwarded + 1) count rfailed failed)
| hop_send_ends stream inq outq reading worker forwarded count rfailed (failed : bool) :
    1 < pipe_window q -> pop outq = PopClosed \/ (exists item outq', pop outq = Popped item outq' /\ qs_end_of_stream item = true) ->
    hop_step q st false None (if failed then [] else [put_end q])
      (MkHop RoleStreaming stream inq outq reading worker true forwarded count rfailed failed)
      (MkHop RoleStreaming stream inq outq reading worker false forwarded count rfailed failed)
| hop_send_breaks stream inq outq reading worker forwarded count rfailed failed :
    1 < pipe_window q ->
    hop_step q st true None []
      (MkHop RoleStreaming stream inq outq reading worker true forwarded count rfailed failed)
      (MkHop RoleStreaming stream (close inq) (close outq) reading worker false forwarded count rfailed true)
| hop_returns stream inq outq forwarded count rfailed failed :
    1 < pipe_window q ->
    hop_step q st false None []
      (MkHop RoleStreaming stream inq outq false Done false forwarded count rfailed failed)
      (MkHop (RoleReturned (negb (failed || rfailed) && negb ((count >=? 0) && negb (count =? forwarded))))
         stream inq outq false Done false forwarded count rfailed failed).
(** * A chain *)

(** Who accepts connections at an address. *)
Inductive Owner := OwnerHop (chain hop : Z) | OwnerHub (ci : Z) | OwnerSink (chain : Z).

Definition Owners := gmap (string * Z) Owner.

(** [hop_servers]: hops 1, 2, ...; [wires]: the connection of hop [i] to its
    successor, once made, with the frames under way. *)
Record Chain := MkChain {
  head : Head;
  hop_servers : list Hop;
  wires : list (option (list PipelineFrame)) }.

#[export] Instance Hop_inhabited : Inhabited Hop :=
  populate (MkHop RoleConnecting [] (new_queue 0) (new_queue 0) true Working true 0 (-1) false false).
#[export] Instance Chain_inhabited : Inhabited Chain :=
  populate (MkChain (MkHead RoleConnecting [] 0 true (new_queue 0) true 0 false) [] []).

Definition emit (i : Z) (out : list PipelineFrame) (w : list (option (list PipelineFrame))) : list (option (list PipelineFrame)) :=
  w.[i <- (fun frames => frames ++ out) <$> w.[i]].

Definition head_to_stage (stage : RoleStage) (h : Head) : Head :=
  MkHead stage (head_stream h) (head_shard h) (head_reading h) (send_q h) (head_sending h) (shards_sent h) (head_failed h).
Definition hop_to_stage (stage : RoleStage) (h : Hop) : Hop :=
  MkHop stage (hop_stream h) (inbound_q h) (outbound_q h) (hop_reading h) (hop_worker h) (hop_sending h)
    (shards_forwarded h) (upstream_end_count h) (reader_failed h) (pipeline_failed h).

(** [m] roles with the requests [req 0], [req 1], ...; [fan_in]: who takes the last
    connection. *)
Inductive chain_step (one_proxy_per_host : bool) (c m : Z) (fan_in : Owner) (req : Z -> PipelineRequest) (listening : Owners) (st : Storage)
  : bool -> Chain -> Chain -> Prop :=
| chain_head fault out h' ch :
    head_step (req 0) st fault out (head ch) h' ->
    chain_step one_proxy_per_host c m fan_in req listening st fault ch (MkChain h' (hop_servers ch) (emit 0 out (wires ch)))
| chain_head_connects addr ch :
    head_stage (head ch) = RoleConnecting -> head_target one_proxy_per_host (req 0) = addr ->
    listening !! addr = Some (if 1 <? m then OwnerHop c 1 else fan_in) ->
    chain_step one_proxy_per_host c m fan_in req listening st false ch
      (MkChain (head_to_stage RoleOpening (head ch)) (hop_servers ch) (wires ch).[0 <- Some []])
| chain_hop i fault out h' ch :
    1 <= i < m -> hop_step (req i) st fault None out (hop_servers ch).[i - 1] h' ->
    chain_step one_proxy_per_host c m fan_in req listening st fault ch
      (MkChain (head ch) (hop_servers ch).[i - 1 <- h'] (emit i out (wires ch)))
| chain_hop_takes i frame rest fault out h' ch :
    1 <= i < m -> (wires ch).[i - 1] = Some (frame :: rest) -> hop_step (req i) st fault (Some frame) out (hop_servers ch).[i - 1] h' ->
    chain_step one_proxy_per_host c m fan_in req listening st fault ch
      (MkChain (head ch) (hop_servers ch).[i - 1 <- h'] (emit i out (wires ch).[i - 1 <- Some rest]))
| chain_hop_connects i addr ch :
    1 <= i < m -> let h := (hop_servers ch).[i - 1] in
    hop_stage h = RoleConnecting -> hop_target one_proxy_per_host (req i) = addr ->
    listening !! addr = Some (if i + 1 <? m then OwnerHop c (i + 1) else fan_in) ->
    chain_step one_proxy_per_host c m fan_in req listening st false ch
      (MkChain (head ch) (hop_servers ch).[i - 1 <- hop_to_stage RoleAccepting h] (wires ch).[i <- Some []])
| chain_hop_accepts i frames ch :
    1 <= i < m -> let h := (hop_servers ch).[i - 1] in
    hop_stage h = RoleAccepting -> (wires ch).[i - 1] = Some frames ->
    chain_step one_proxy_per_host c m fan_in req listening st false ch
      (MkChain (head ch) (hop_servers ch).[i - 1 <- hop_to_stage RoleOpening h] (wires ch)).

(** * The hub *)

(** A listener; with a window its reader thread feeds a queue when the hub has a
    share of its own to add. *)
Record Listener := MkListener {
  listener_stage : RoleStage;
  hub_inbound_q : PipelineBoundedQueue;
  hub_reading : bool;
  hub_worker : WorkerStage;
  shards_received : Z;
  hub_end_count : Z;
  hub_reader_failed : bool }.

(** The reader of the hub's own block. *)
Inductive SharedReader := SharedOpening | SharedReading (shard : Z) (stream : list byte) | SharedDone.

Inductive DecodeWorker := Idle | Decoded (shard : Z) (recovered : list block) (next_target : Z) | Exited.

#[export] Instance DecodeWorker_inhabited : Inhabited DecodeWorker := populate Exited.

(** [HubWriteStream]; [hw_streamed]: what went into the socket, [hw_open]: it is
    not closed. *)
Record HubWriteStream := MkHubWriteStream {
  hw_pending : gmap Z block;
  hw_next_shard : Z;
  hw_open : bool;
  hw_failed : bool;
  hw_streamed : list byte;
  hw_recovery_result : option bool }.

#[export] Instance Listener_inhabited : Inhabited Listener := populate (MkListener RoleAccepting (new_queue 0) true Working 0 (-1) false).
#[export] Instance HubWriteStream_inhabited : Inhabited HubWriteStream := populate (MkHubWriteStream ∅ 0 true false [] None).

(** What comes in: [rhs_bufs] with [rhs_ready], by chain and shard. *)
Record HubIn := MkHubIn {
  shared_hub_reader : SharedReader;
  shared_hub_shards : list (option block);
  listeners : list Listener;
  rhs_bufs : list (list (option block)) }.

(** What goes out. *)
Record HubOut := MkHubOut {
  shard_scheduled : list bool;
  decode_workers : list DecodeWorker;
  shards_finished : Z;
  decode_done : bool;
  write_streams : list HubWriteStream }.

Record Hub := MkHub {
  hub_returned : option bool;
  hub_failed : bool;
  hub_in : HubIn;
  hub_out : HubOut }.

Definition hub_chain_n (q : PipelineRequest) : Z := zlen (rq_hub_chains q).
Definition hub_f (q : PipelineRequest) : Z := zlen (rb_failed_ids (rq_base q)).
Definition needs_tail_local (q : PipelineRequest) (ci : Z) : bool :=
  hc_is_tail (rq_hub_chains q).[ci] && negb (Byte.eqb (hc_hub_coef (rq_hub_chains q).[ci]) x00).
Definition any_hub_local_read (q : PipelineRequest) : bool :=
  existsb (fun ci => hc_local_only (rq_hub_chains q).[ci] || needs_tail_local q ci) (zseq (hub_chain_n q)).
Definition decode_worker_count (q : PipelineRequest) : Z := Z.max 1 (Z.min (pipe_window q) (Z.min (shards q) 4)).

(** The checks before the listeners start: the inverse the shards are decoded with. *)
Definition hub_admit (k r z : Z) (q : PipelineRequest) : option (list byte) :=
  if (hub_f q <=? 0) || negb (valid_geometry (view q) bs) || (hub_chain_n q <=? 0) then None
  else glrc_ilp_prepare_inverse k r z (rb_failed_ids (rq_base q)) (ztake (hub_f q) (rb_equation_indices (rq_base q))).

Definition start_hub (called : bool) (admitted : option (list byte)) (q : PipelineRequest) : Hub :=
  MkHub (if called && bool_decide (is_Some admitted) then None else Some false) false
    (MkHubIn (if any_hub_local_read q then SharedOpening else SharedDone) (zrepeat None (shards q))
       (map (fun c => MkListener (if hc_local_only c then RoleStreaming else RoleAccepting) (new_queue (pipe_window q)) true Working 0 (-1) false)
          (rq_hub_chains q))
       (zrepeat (zrepeat None (shards q)) (hub_chain_n q)))
    (MkHubOut (zrepeat false (shards q)) (zrepeat Idle (decode_worker_count q)) 0 false
       (zrepeat (MkHubWriteStream ∅ 0 true false [] None) (hub_f q))).

Definition fail_hub (h : Hub) : Hub := MkHub (hub_returned h) true (hub_in h) (hub_out h).
Definition with_in (i : HubIn) (h : Hub) : Hub := MkHub (hub_returned h) (hub_failed h) i (hub_out h).
Definition with_out (o : HubOut) (h : Hub) : Hub := MkHub (hub_returned h) (hub_failed h) (hub_in h) o.
Definition with_listener (ci : Z) (l : Listener) (h : Hub) : Hub :=
  let i := hub_in h in with_in (MkHubIn (shared_hub_reader i) (shared_hub_shards i) (listeners i).[ci <- l] (rhs_bufs i)) h.
Definition with_shared (sr : SharedReader) (h : Hub) : Hub :=
  let i := hub_in h in with_in (MkHubIn sr (shared_hub_shards i) (listeners i) (rhs_bufs i)) h.
Definition put_shared (shard : Z) (local : block) (h : Hub) : Hub :=
  let i := hub_in h in with_in (MkHubIn (shared_hub_reader i) (shared_hub_shards i).[shard <- Some local] (listeners i) (rhs_bufs i)) h.
Definition put_rhs (ci shard : Z) (partial : block) (h : Hub) : Hub :=
  let i := hub_in h in
  with_in (MkHubIn (shared_hub_reader i) (shared_hub_shards i) (listeners i) (rhs_bufs i).[ci <- (rhs_bufs i).[ci].[shard <- Some partial]]) h.
Definition with_worker (wi : Z) (w : DecodeWorker) (h : Hub) : Hub :=
  let o := hub_out h in with_out (MkHubOut (shard_scheduled o) (decode_workers o).[wi <- w] (shards_finished o) (decode_done o) (write_streams o)) h.
Definition with_stream (t : Z) (ws : HubWriteStream) (h : Hub) : Hub :=
  let o := hub_out h in with_out (MkHubOut (shard_scheduled o) (decode_workers o) (shards_finished o) (decode_done o) (write_streams o).[t <- ws]) h.
Definition schedule (shard : Z) (h : Hub) : Hub :=
  let o := hub_out h in
  with_out (MkHubOut (shard_scheduled o).[shard <- true] (decode_workers o) (shards_finished o) (decode_done o) (write_streams o)) h.
Definition finish_shard (h : Hub) : Hub :=
  let o := hub_out h in with_out (MkHubOut (shard_scheduled o) (decode_workers o) (shards_finished o + 1) (decode_done o) (write_streams o)) h.
Definition finish_decoding (h : Hub) : Hub :=
  let o := hub_out h in with_out (MkHubOut (shard_scheduled o) (decode_workers o) (shards_finished o) true (write_streams o)) h.

(** ** The listeners *)

Definition shard_fits (q : PipelineRequest) (shard : Z) (partial : list byte) : bool :=
  negb ((shard <? 0) || (shard >=? shards q) || negb (zlen partial =? width q)).

(** [finalize_hub_shard]: the right-hand side, once the hub's own share is there. *)
Definition finalize_hub_shard (q : PipelineRequest) (ci shard : Z) (partial : list byte) (h : Hub) : option block :=
  if needs_tail_local q ci then
    local ← (shared_hub_shards (hub_in h)).[shard];
    Some (glrc_pipeline_accumulate_range partial local (hc_hub_coef (rq_hub_chains q).[ci]) (width q) (pipeline_hub_chain_codec q ci))
  else Some partial.

(** Whether a listener has a queue of its own. *)
Definition queued_listener (q : PipelineRequest) (ci : Z) : bool := (1 <? pipe_window q) && needs_tail_local q ci.

(** With the frame it takes from the connection of its chain. *)
Inductive listener_step (q : PipelineRequest) (ci : Z) (h : Hub) : option PipelineFrame -> Listener -> Hub -> Prop :=
| listener_own_shard queue reading worker shard count rfailed local :
    hc_local_only (rq_hub_chains q).[ci] = true -> shard < shards q -> (shared_hub_shards (hub_in h)).[shard] = Some local ->
    listener_step q ci h None (MkListener RoleStreaming queue reading worker shard count rfailed)
      (put_rhs ci shard (glrc_pipeline_init_partial_range (zrepeat x00 (width q)) local (hc_hub_coef (rq_hub_chains q).[ci]) (width q) (pipeline_hub_chain_codec q ci))
         (with_listener ci (MkListener RoleStreaming queue reading worker (shard + 1) count rfailed) h))
| listener_own_done queue reading worker shard count rfailed :
    hc_local_only (rq_hub_chains q).[ci] = true -> shards q <= shard ->
    listener_step q ci h None (MkListener RoleStreaming queue reading worker shard count rfailed)
      (with_listener ci (MkListener (RoleReturned true) queue reading worker shard count rfailed) h)
(** One thread. *)
| listener_takes hdr payload value queue reading worker received count rfailed :
    hc_local_only (rq_hub_chains q).[ci] = false -> queued_listener q ci = false -> let shard := int_of_u32 (hdr_shard_id hdr) in
    shard_fits q shard payload = true -> finalize_hub_shard q ci shard payload h = Some value ->
    listener_step q ci h (Some (SHARD hdr payload)) (MkListener RoleStreaming queue reading worker received count rfailed)
      (put_rhs ci shard value (with_listener ci (MkListener RoleStreaming queue reading worker (received + 1) count rfailed) h))
| listener_rejects hdr payload queue reading worker received count rfailed :
    hc_local_only (rq_hub_chains q).[ci] = false -> queued_listener q ci = false ->
    shard_fits q (int_of_u32 (hdr_shard_id hdr)) payload = false ->
    listener_step q ci h (Some (SHARD hdr payload)) (MkListener RoleStreaming queue reading worker received count rfailed)
      (fail_hub (with_listener ci (MkListener (RoleReturned false) queue reading worker received count rfailed) h))
| listener_ends e queue reading worker received count rfailed :
    hc_local_only (rq_hub_chains q).[ci] = false -> queued_listener q ci = false -> let complete := int_of_u32 (end_shard_count e) =? received in
    listener_step q ci h (Some (END e)) (MkListener RoleStreaming queue reading worker received count rfailed)
      (let h := with_listener ci (MkListener (RoleReturned complete) queue reading worker received count rfailed) h in
       if complete then h else fail_hub h)
(** Two threads. *)
| listener_reads hdr payload queue queue' worker received count :
    queued_listener q ci = true -> push (queued_shard (int_of_u32 (hdr_shard_id hdr)) payload) queue = Some queue' ->
    listener_step q ci h (Some (SHARD hdr payload)) (MkListener RoleStreaming queue true worker received count false)
      (with_listener ci (MkListener RoleStreaming queue' true worker received count false) h)
| listener_reads_end e queue queue' worker received count :
    queued_listener q ci = true -> push (queued_end (int_of_u32 (end_shard_count e))) queue = Some queue' ->
    listener_step q ci h (Some (END e)) (MkListener RoleStreaming queue true worker received count false)
      (with_listener ci (MkListener RoleStreaming (close queue') false worker received count false) h)
| listener_reader_stops queue worker received count :
    queued_listener q ci = true ->
    listener_step q ci h None (MkListener RoleStreaming queue true worker received count true)
      (with_listener ci (MkListener RoleStreaming (close queue) false worker received count true) h)
| listener_finalizes item value queue queue' reading received count rfailed :
    queued_listener q ci = true -> pop queue = Popped item queue' -> qs_end_of_stream item = false ->
    shard_fits q (qs_shard_id item) (qs_payload item) = true -> finalize_hub_shard q ci (qs_shard_id item) (qs_payload item) h = Some value ->
    listener_step q ci h None (MkListener RoleStreaming queue reading Working received count rfailed)
      (put_rhs ci (qs_shard_id item) value (with_listener ci (MkListener RoleStreaming queue' reading Working (received + 1) count rfailed) h))
| listener_finalize_fails item queue queue' reading received count rfailed :
    queued_listener q ci = true -> pop queue = Popped item queue' -> qs_end_of_stream item = false ->
    shard_fits q (qs_shard_id item) (qs_payload item) = false ->
    listener_step q ci h None (MkListener RoleStreaming queue reading Working received count rfailed)
      (fail_hub (with_listener ci (MkListener RoleStreaming (close queue') reading Done received count true) h))
| listener_pops_end item queue queue' reading received count rfailed :
    queued_listener q ci = true -> pop queue = Popped item queue' -> qs_end_of_stream item = true ->
    listener_step q ci h None (MkListener RoleStreaming queue reading Working received count rfailed)
      (with_listener ci (MkListener RoleStreaming (close queue') reading Done received (qs_end_shard_count item) rfailed) h)
| listener_pops_closed queue reading received count rfailed :
    queued_listener q ci = true -> pop queue = PopClosed ->
    listener_step q ci h None (MkListener RoleStreaming queue reading Working received count rfailed)
      (with_listener ci (MkListener RoleStreaming queue reading Done received count rfailed) h)
| listener_returns queue received count (rfailed : bool) :
    queued_listener q ci = true -> let incomplete := rfailed || ((count >=? 0) && negb (count =? received)) in
    listener_step q ci h None (MkListener RoleStreaming queue false Done received count rfailed)
      (let h := with_listener ci (MkListener (RoleReturned (negb incomplete)) queue false Done received count rfailed) h in
       if incomplete then fail_hub h else h)
(** Every wait of a listener ends once the hub has failed. *)
| listener_gives_up l :
    hub_failed h = true -> (forall r, listener_stage l <> RoleReturned r) ->
    listener_step q ci h None l
      (with_listener ci (MkListener (RoleReturned false) (hub_inbound_q l) (hub_reading l) (hub_worker l) (shards_received l) (hub_end_count l) (hub_reader_failed l)) h).

(** ** Decoding *)

(** [shard_ready_locked], [find_ready_shard_locked] *)
Definition shard_ready (h : Hub) (shard : Z) : bool :=
  forallb (fun row : list (option block) => bool_decide (is_Some row.[shard])) (rhs_bufs (hub_in h)).
Definition find_ready_shard (q : PipelineRequest) (h : Hub) : option Z :=
  List.find (fun shard => negb (shard_scheduled (hub_out h)).[shard] && shard_ready h shard) (zseq (shards q)).

Definition shard_rhs (h : Hub) (shard : Z) : list block := map (fun row : list (option block) => default [] row.[shard]) (rhs_bufs (hub_in h)).

(** [pending.emplace(shard, recovered)] *)
Definition emplace (shard : Z) (recovered : block) (ws : HubWriteStream) : HubWriteStream :=
  MkHubWriteStream (match hw_pending ws !! shard with Some _ => hw_pending ws | None => <[shard := recovered]> (hw_pending ws) end)
    (hw_next_shard ws) (hw_open ws) (hw_failed ws) (hw_streamed ws) (hw_recovery_result ws).

Definition close_stream (failed : bool) (more : list byte) (ws : HubWriteStream) : HubWriteStream :=
  MkHubWriteStream (hw_pending ws) (hw_next_shard ws) false (hw_failed ws || failed) (hw_streamed ws ++ more) (hw_recovery_result ws).

(** What the hub answers once all threads are joined. *)
Definition stream_complete (q : PipelineRequest) (ws : HubWriteStream) : bool :=
  negb (hw_failed ws) && bool_decide (hw_recovery_result ws = Some true) && (hw_next_shard ws =? shards q).
Definition hub_result (q : PipelineRequest) (h : Hub) : bool :=
  negb (hub_failed h) && forallb (stream_complete q) (write_streams (hub_out h)).

Definition worker_exited (w : DecodeWorker) : bool := match w with Exited => true | _ => false end.
Definition listener_returned (l : Listener) : bool := match listener_stage l with RoleReturned _ => true | _ => false end.

Inductive hub_step (q : PipelineRequest) (inverse : list byte) (st : Storage) : bool -> Hub -> Hub -> Prop :=
(** The hub's own block, shard by shard. *)
| hub_opens_shared node h :
    hub_returned h = None -> shared_hub_reader (hub_in h) = SharedOpening -> rq_hub_datanode q = Some node ->
    hub_step q inverse st false h (with_shared (SharedReading 0 (datanode_stream q (rq_hub_block_key q) node st)) h)
| hub_reads_shared shard stream local rest h :
    hub_returned h = None -> shared_hub_reader (hub_in h) = SharedReading shard stream -> hub_failed h = false -> shard < shards q ->
    read_all (width q) stream = Some (local, rest) ->
    hub_step q inverse st false h (put_shared shard local (with_shared (SharedReading (shard + 1) rest) h))
| hub_shared_short shard stream h :
    hub_returned h = None -> shared_hub_reader (hub_in h) = SharedReading shard stream -> hub_failed h = false -> shard < shards q ->
    read_all (width q) stream = None ->
    hub_step q inverse st false h (fail_hub (with_shared SharedDone h))
| hub_shared_ends shard stream h :
    hub_returned h = None -> shared_hub_reader (hub_in h) = SharedReading shard stream -> hub_failed h = true \/ shards q <= shard ->
    hub_step q inverse st false h (with_shared SharedDone h)
| hub_listens ci h h' :
    hub_returned h = None -> 0 <= ci < hub_chain_n q -> listener_step q ci h None (listeners (hub_in h)).[ci] h' ->
    hub_step q inverse st false h h'
| hub_listener_breaks ci h :
    hub_returned h = None -> 0 <= ci < hub_chain_n q -> let l := (listeners (hub_in h)).[ci] in
    (forall r, listener_stage l <> RoleReturned r) ->
    hub_step q inverse st true h (fail_hub (with_listener ci (MkListener (RoleReturned false) (hub_inbound_q l) (hub_reading l) (hub_worker l)
      (shards_received l) (hub_end_count l) (hub_reader_failed l)) h))
(** The shared reader or the setting up of a write stream breaks. *)
| hub_breaks h :
    hub_returned h = None -> hub_failed h = false ->
    hub_step q inverse st true h (fail_hub (with_shared SharedDone h))
(** A decode worker. *)
| hub_decodes wi shard recovered h :
    hub_returned h = None -> 0 <= wi < decode_worker_count q -> (decode_workers (hub_out h)).[wi] = Idle -> hub_failed h = false ->
    shards_finished (hub_out h) < shards q -> find_ready_shard q h = Some shard ->
    decode_glrc_ilp_rhs_compact (shard_rhs h shard) inverse (hub_f q) (width q) = Some recovered ->
    hub_step q inverse st false h (schedule shard (with_worker wi (Decoded shard recovered 0) h))
| hub_decode_fails wi shard h :
    hub_returned h = None -> 0 <= wi < decode_worker_count q -> (decode_workers (hub_out h)).[wi] = Idle -> hub_failed h = false ->
    shards_finished (hub_out h) < shards q -> find_ready_shard q h = Some shard ->
    decode_glrc_ilp_rhs_compact (shard_rhs h shard) inverse (hub_f q) (width q) = None ->
    hub_step q inverse st false h (fail_hub (schedule shard (with_worker wi Exited h)))
| hub_hands_over wi shard recovered t h :
    hub_returned h = None -> 0 <= wi < decode_worker_count q -> (decode_workers (hub_out h)).[wi] = Decoded shard recovered t -> t < hub_f q ->
    hub_step q inverse st false h
      (with_stream t (emplace shard recovered.[t] (write_streams (hub_out h)).[t]) (with_worker wi (Decoded shard recovered (t + 1)) h))
| hub_finishes wi shard recovered t h :
    hub_returned h = None -> 0 <= wi < decode_worker_count q -> (decode_workers (hub_out h)).[wi] = Decoded shard recovered t -> hub_f q <= t ->
    hub_step q inverse st false h (finish_shard (with_worker wi Idle h))
| hub_worker_exits wi h :
    hub_returned h = None -> 0 <= wi < decode_worker_count q -> (decode_workers (hub_out h)).[wi] = Idle ->
    hub_failed h = true \/ shards q <= shards_finished (hub_out h) ->
    hub_step q inverse st false h (with_worker wi Exited h)
| hub_joins_workers h :
    hub_returned h = None -> decode_done (hub_out h) = false -> forallb worker_exited (decode_workers (hub_out h)) = true ->
    hub_step q inverse st false h (finish_decoding h)
(** A writer: the shards in order. *)
| hub_writes t payload h :
    hub_returned h = None -> 0 <= t < hub_f q -> let ws := (write_streams (hub_out h)).[t] in
    hw_open ws = true -> hub_failed h = false -> hw_failed ws = false -> hw_pending ws !! hw_next_shard ws = Some payload ->
    hub_step q inverse st false h
      (with_stream t (MkHubWriteStream (delete (hw_next_shard ws) (hw_pending ws)) (hw_next_shard ws + 1) true false (hw_streamed ws ++ payload) (hw_recovery_result ws)) h)
| hub_write_breaks t payload sent h :
    hub_returned h = None -> 0 <= t < hub_f q -> let ws := (write_streams (hub_out h)).[t] in
    hw_open ws = true -> hub_failed h = false -> hw_failed ws = false -> hw_pending ws !! hw_next_shard ws = Some payload ->
    hub_step q inverse st true h (fail_hub (with_stream t (close_stream true (ztake sent payload) ws) h))
| hub_write_ends t h :
    hub_returned h = None -> 0 <= t < hub_f q -> let ws := (write_streams (hub_out h)).[t] in
    hw_open ws = true -> hub_failed h = false -> hw_pending ws !! hw_next_shard ws = None -> decode_done (hub_out h) = true ->
    hub_step q inverse st false h
      (if hw_next_shard ws =? shards q then with_stream t (close_stream false [] ws) h else fail_hub (with_stream t (close_stream true [] ws) h))
| hub_write_stops t h :
    hub_returned h = None -> 0 <= t < hub_f q -> let ws := (write_streams (hub_out h)).[t] in
    hw_open ws = true -> hub_failed h = true ->
    hub_step q inverse st false h (with_stream t (close_stream false [] ws) h)
| hub_returns h :
    hub_returned h = None -> decode_done (hub_out h) = true ->
    forallb (fun ws => negb (hw_open ws) && (hub_failed h || bool_decide (is_Some (hw_recovery_result ws)))) (write_streams (hub_out h)) = true ->
    forallb listener_returned (listeners (hub_in h)) = true -> shared_hub_reader (hub_in h) = SharedDone ->
    hub_step q inverse st false h (MkHub (Some (hub_result q h)) (hub_failed h) (hub_in h) (hub_out h)).
(** * The sink of a local chain *)

Inductive SinkStage := SinkBinding | SinkAccepting | SinkReceiving | SinkFlushed | SinkFailed | SinkReturned (result : bool).

#[export] Instance SinkStage_eq_dec : EqDecision SinkStage.
Proof. solve_decision. Defined.

Record Sink := MkSink {
  sink_stage : SinkStage;
  sink_pending : gmap Z block;
  sink_next_shard : Z;
  sink_received : Z;
  sink_streamed : list byte;
  sink_recovery_result : option bool }.

#[export] Instance Sink_inhabited : Inhabited Sink := populate (MkSink SinkBinding ∅ 0 0 [] None).

(** Hops, geometry and a target to write to. *)
Definition start_sink (called : bool) (q : PipelineRequest) : Sink :=
  let valid := (head_hops q >? 0) && valid_geometry (view q) bs && pipeline_chain_is_local_direct q && (snd (rc_local_replaced_node (rq_chain q)) >? 0) in
  MkSink (if called && valid then SinkBinding else SinkReturned false) ∅ 0 0 [] None.

(** [flush_ready]: the next shards go into the socket as long as they are there. *)
Fixpoint flush_ready (fuel : nat) (len : Z) (pending : gmap Z block) (next : Z) (streamed : list byte) : gmap Z block * Z * list byte :=
  match fuel with
  | O => (pending, next, streamed)
  | Datatypes.S fuel =>
      match pending !! next with
      | Some payload => flush_ready fuel len (delete next pending) (next + 1) (streamed ++ ztake len payload)
      | None => (pending, next, streamed)
      end
  end.

Definition sink_address (one_proxy_per_host : bool) (ip : string) (port : Z) (q : PipelineRequest) : string * Z :=
  (ip, resolve_chain_hub_listen_port one_proxy_per_host q port (rb_exchange_epoch (rq_base q)) (rc_eq_slot (rq_chain q))).

Definition sink_to (stage : SinkStage) (s : Sink) : Sink :=
  MkSink stage (sink_pending s) (sink_next_shard s) (sink_received s) (sink_streamed s) (sink_recovery_result s).

(** With the frame it takes from its chain. *)
Inductive sink_step (q : PipelineRequest) : bool -> option PipelineFrame -> Sink -> Sink -> Prop :=
| sink_takes hdr payload pending next received streamed result pending' next' streamed' :
    let shard := int_of_u32 (hdr_shard_id hdr) in shard_fits q shard payload = true ->
    flush_ready (Datatypes.S (size pending)) (width q) (<[shard := payload]> pending) next streamed = (pending', next', streamed') ->
    sink_step q false (Some (SHARD hdr payload)) (MkSink SinkReceiving pending next received streamed result)
      (MkSink SinkReceiving pending' next' (received + 1) streamed' result)
| sink_rejects hdr payload s :
    sink_stage s = SinkReceiving -> shard_fits q (int_of_u32 (hdr_shard_id hdr)) payload = false ->
    sink_step q false (Some (SHARD hdr payload)) s (sink_to SinkFailed s)
| sink_ends e s :
    sink_stage s = SinkReceiving ->
    sink_step q false (Some (END e)) s
      (sink_to (if (int_of_u32 (end_shard_count e) =? sink_received s) && (sink_next_shard s =? shards q) then SinkFlushed else SinkFailed) s)
| sink_breaks s :
    sink_stage s = SinkBinding \/ sink_stage s = SinkAccepting \/ sink_stage s = SinkReceiving ->
    sink_step q true None s (sink_to SinkFailed s)
(** The write breaks after some of the bytes. *)
| sink_write_breaks hdr payload pending next received streamed result pending' next' streamed' sent :
    let shard := int_of_u32 (hdr_shard_id hdr) in shard_fits q shard payload = true ->
    flush_ready (Datatypes.S (size pending)) (width q) (<[shard := payload]> pending) next streamed = (pending', next', streamed') ->
    zlen streamed <= sent ->
    sink_step q true (Some (SHARD hdr payload)) (MkSink SinkReceiving pending next received streamed result)
      (MkSink SinkFailed pending' next' (received + 1) (ztake sent streamed') result)
| sink_returns s :
    sink_stage s = SinkFailed \/ (sink_stage s = SinkFlushed /\ is_Some (sink_recovery_result s)) ->
    sink_step q false None s (sink_to (SinkReturned (bool_decide (sink_stage s = SinkFlushed /\ sink_recovery_result s = Some true))) s).
End Roles.

(** * The requests of a plan *)

(** What the coordinator works with: the configuration, the stripe, its plan and
    the ports that were reserved. *)
Record PipelineSetup := {
  su_block_size : Z;
  su_shard_count : Z;
  su_window : Z;
  su_one_proxy_per_host : bool;
  su_z : Z;
  su_base : BaseRequest;
  su_plan : GlrcPipelinePlan;
  su_global_begin : Z;
  su_ports : gmap Z GlrcPipelineChainPorts }.

Definition make_base_request (s : Stripe) (t : Tables) (failed equation_indices : list Z)
    (local_shard_count global_begin global_shard_count exchange_epoch : Z) (hybrid_commit_token : string) (range_commit_parts : Z) : BaseRequest :=
  let partial := (global_begin >? 0) || negb (local_shard_count =? global_shard_count) in
  {| rb_shard_count := local_shard_count;
     rb_global_begin := if partial then global_begin else 0;
     rb_global_count := if partial then global_shard_count else 0;
     rb_exchange_epoch := exchange_epoch;
     rb_hybrid_commit_token := hybrid_commit_token;
     rb_range_commit_parts := range_commit_parts;
     rb_failed_ids := failed;
     rb_failed_keys := map (fun b => block_key (blocks s).[b]) failed;
     rb_replaced := map (replaced_node s t) failed;
     rb_equation_indices := equation_indices |}.

#[export] Instance GlrcPipelineChainPlan_inhabited : Inhabited GlrcPipelineChainPlan :=
  populate {| chain_id := -1; equation_index := -1; eq_slot := -1; equation_name := ""; local_direct := false;
    local_direct_failed_block_id := -1; local_direct_failed_block_key := ""; local_direct_replaced_ip := ""; local_direct_replaced_port := 0;
    local_direct_sink_proxy_ip := ""; local_direct_sink_proxy_port := 0; hops := []; hub_is_chain_tail := false; hub_in_equation := false |}.
#[export] Instance GlrcPipelineHopInfo_inhabited : Inhabited GlrcPipelineHopInfo :=
  populate {| hop_block_id := -1; hop_node_id := -1; hop_datanode_ip := ""; hop_datanode_port := 0; hop_proxy_ip := ""; hop_proxy_port := 0;
    hop_block_key := ""; hop_coef := x00 |}.

Section Setup.
Context (su : PipelineSetup).
Notation plan := (su_plan su).

(** The hub's chains, then the local ones. *)
Definition all_chains : list GlrcPipelineChainPlan := hub_chains plan ++ local_direct_chains plan.
Definition hub_count : Z := zlen (hub_chains plan).

Definition last_hop_server (chain : GlrcPipelineChainPlan) : Z :=
  if hub_is_chain_tail chain then zlen (hops chain) - 2 else zlen (hops chain) - 1.

(** The head and the hop servers. *)
Definition role_count (c : Z) : Z := 1 + Z.max 0 (last_hop_server all_chains.[c]).

Definition chain_request (c : Z) (role : GlrcPipelineRole) (my_hop_index : Z) : PipelineRequest :=
  fill_pipeline_chain_fields (su_base su) all_chains.[c] plan (rb_shard_count (su_base su)) (su_z su) role my_hop_index
    (su_ports su !! chain_id all_chains.[c]) (su_global_begin su) (su_shard_count su).
Definition role_request (c i : Z) : PipelineRequest := if i =? 0 then chain_request c CHAIN_HEAD 0 else chain_request c HOP_SERVER i.
Definition sink_request (c : Z) : PipelineRequest := chain_request c LOCAL_DIRECT 0.

Definition hub_ready_request : PipelineRequest := fill_hub_fields (su_base su) plan (su_z su) READY [] [] [] (su_ports su).

(** The lost blocks that no local chain repairs. *)
Definition hub_lost : list (Z * (string * (string * Z))) :=
  List.filter (fun x => negb (bool_decide (fst x ∈ local_direct_failed plan)))
    (zip (rb_failed_ids (su_base su)) (zip (rb_failed_keys (su_base su)) (rb_replaced (su_base su)))).
Definition hub_request : PipelineRequest :=
  fill_hub_fields (su_base su) plan (su_z su) HUB (map fst hub_lost) (map (fun x => fst (snd x)) hub_lost) (map (fun x => snd (snd x)) hub_lost) (su_ports su).

(** ** READY *)

Inductive ReadyCall := ReadyHub | ReadyHop (c i : Z).

Definition hop_proxy (c i : Z) : string * Z := let h := (hops all_chains.[c]).[i] in (hop_proxy_ip h, hop_proxy_port h).
Definition hub_proxy : string * Z := (hub_proxy_ip plan, hub_proxy_port plan).
Definition sink_proxy (c : Z) : string * Z := (local_direct_sink_proxy_ip all_chains.[c], local_direct_sink_proxy_port all_chains.[c]).
Definition proxy_name (a : string * Z) : string := node_key (fst a) (snd a).

Definition hop_ready_calls (c : Z) : list ReadyCall := map (ReadyHop c) (rev (seqZ 1 (last_hop_server all_chains.[c]))).
Definition ready_calls : list ReadyCall :=
  (if hub_count =? 0 then [] else [ReadyHub]) ++ concat (map hop_ready_calls (zseq (zlen all_chains))).

Definition ready_proxy (r : ReadyCall) : string * Z := match r with ReadyHub => hub_proxy | ReadyHop c i => hop_proxy c i end.

(** The addresses that a READY call binds, and for whom. *)
Definition ready_binds (r : ReadyCall) : list ((string * Z) * Owner) :=
  match r with
  | ReadyHub =>
      map (fun '(ci, port) => ((fst hub_proxy, port), OwnerHub ci)) (hub_listen_ports (su_one_proxy_per_host su) (snd hub_proxy) hub_ready_request)
  | ReadyHop c i =>
      let q := chain_request c READY i in
      [((fst (hop_proxy c i), resolve_my_hop_bind_port (su_one_proxy_per_host su) q (snd (hop_proxy c i))
          (rb_exchange_epoch (rq_base q)) (rc_chain_id (rq_chain q)) i), OwnerHop c i)]
  end.

Fixpoint bind_all (binds : list ((string * Z) * Owner)) (l : Owners) : option Owners :=
  match binds with
  | [] => Some l
  | (addr, owner) :: rest => match l !! addr with Some _ => None | None => bind_all rest (<[addr := owner]> l) end
  end.

(** The calls in the order in which they run.  [unready]: the call or the
    listening fails for another reason; [false] when some call failed. *)
Fixpoint run_ready (proxies : gset string) (unready : ReadyCall -> bool) (order : list ReadyCall) (l : Owners) : Owners * bool :=
  match order with
  | [] => (l, true)
  | r :: rest =>
      match (if negb (bool_decide (proxy_name (ready_proxy r) ∈ proxies)) || unready r then None else bind_all (ready_binds r) l) with
      | Some l => run_ready proxies unready rest l
      | None => (fst (run_ready proxies unready rest l), false)
      end
  end.

(** * The session *)

Record Session := MkSession {
  listening : Owners;
  chains : list Chain;
  hub : Hub;
  sinks : list Sink;
  storage : Storage }.

Notation bs := (su_block_size su).
Notation T := (su_shard_count su).
Notation W := (su_window su).
Notation oph := (su_one_proxy_per_host su).

(** The sink of chain [hub_count + j] is number [j]. *)
Definition fan_in (c : Z) : Owner := if c <? hub_count then OwnerHub c else OwnerSink c.

Definition start_chain (proxies : gset string) (c : Z) : Chain :=
  MkChain (start_head bs T W (bool_decide (proxy_name (hop_proxy c 0) ∈ proxies)) (role_request c 0))
    (map (fun i => start_hop bs T W (bool_decide (proxy_name (hop_proxy c i) ∈ proxies)) (role_request c i)) (seqZ 1 (role_count c - 1)))
    (zrepeat None (role_count c)).

Definition start_session (proxies : gset string) (inverse : option (list byte)) (l : Owners) (st : Storage) : Session :=
  MkSession l (map (start_chain proxies) (zseq (zlen all_chains)))
    (start_hub bs T W (bool_decide (proxy_name hub_proxy ∈ proxies)) inverse hub_request)
    (map (fun j => start_sink bs T (bool_decide (proxy_name (sink_proxy (hub_count + j)) ∈ proxies)) (sink_request (hub_count + j)))
       (zseq (zlen (local_direct_chains plan)))) st.

Definition with_chain (c : Z) (ch : Chain) (w : Session) : Session := MkSession (listening w) (chains w).[c <- ch] (hub w) (sinks w) (storage w).
Definition with_hub (h : Hub) (w : Session) : Session := MkSession (listening w) (chains w) h (sinks w) (storage w).
Definition with_sink (j : Z) (s : Sink) (w : Session) : Session := MkSession (listening w) (chains w) (hub w) (sinks w).[j <- s] (storage w).
Definition with_listening (l : Owners) (w : Session) : Session := MkSession l (chains w) (hub w) (sinks w) (storage w).
Definition with_storage (st : Storage) (w : Session) : Session := MkSession (listening w) (chains w) (hub w) (sinks w) st.

(** The last connection of a chain. *)
Definition last_wire (c : Z) (w : Session) : option (list PipelineFrame) := (wires (chains w).[c]).[role_count c - 1].
Definition set_last_wire (c : Z) (frames : list PipelineFrame) (w : Session) : Session :=
  let ch := (chains w).[c] in with_chain c (MkChain (head ch) (hop_servers ch) (wires ch).[role_count c - 1 <- Some frames]) w.

Definition answer_stream (result : bool) (ws : HubWriteStream) : HubWriteStream :=
  MkHubWriteStream (hw_pending ws) (hw_next_shard ws) (hw_open ws) (hw_failed ws) (hw_streamed ws) (Some result).
Definition answer_sink (result : bool) (s : Sink) : Sink :=
  MkSink (sink_stage s) (sink_pending s) (sink_next_shard s) (sink_received s) (sink_streamed s) (Some result).

(** The link carries the block, the file is renamed, the answer arrives. *)
Definition link_holds (l : WriteLink) : bool := wl_connected l && (bs <=? wl_arrives l) && wl_renames l && wl_answers l.

Inductive session_step (inverse : list byte) : bool -> Session -> Session -> Prop :=
| step_chain c fault ch' w :
    0 <= c < zlen all_chains ->
    chain_step bs T W oph c (role_count c) (fan_in c) (role_request c) (listening w) (storage w) fault (chains w).[c] ch' ->
    session_step inverse fault w (with_chain c ch' w)
| step_hub fault h' w :
    hub_step bs T W hub_request inverse (storage w) fault (hub w) h' ->
    session_step inverse fault w (with_hub h' w)
| step_hub_accepts ci frames w :
    0 <= ci < hub_count -> hub_returned (hub w) = None -> let l := (listeners (hub_in (hub w))).[ci] in
    listener_stage l = RoleAccepting -> last_wire ci w = Some frames ->
    session_step inverse false w
      (with_hub (with_listener ci (MkListener RoleStreaming (hub_inbound_q l) (hub_reading l) (hub_worker l) (shards_received l) (hub_end_count l) (hub_reader_failed l))
         (hub w)) w)
| step_hub_takes ci frame rest h' w :
    0 <= ci < hub_count -> hub_returned (hub w) = None -> last_wire ci w = Some (frame :: rest) ->
    listener_step bs T W hub_request ci (hub w) (Some frame) (listeners (hub_in (hub w))).[ci] h' ->
    session_step inverse false w (with_hub h' (set_last_wire ci rest w))
| step_sink j fault s' w :
    0 <= j < zlen (local_direct_chains plan) -> sink_step bs T (sink_request (hub_count + j)) fault None (sinks w).[j] s' ->
    session_step inverse fault w (with_sink j s' w)
| step_sink_binds j w :
    0 <= j < zlen (local_direct_chains plan) -> sink_stage (sinks w).[j] = SinkBinding -> let c := hub_count + j in
    let addr := sink_address oph (fst (sink_proxy c)) (snd (sink_proxy c)) (sink_request c) in
    session_step inverse false w
      (match listening w !! addr with
       | None => with_listening (<[addr := OwnerSink c]> (listening w)) (with_sink j (sink_to SinkAccepting (sinks w).[j]) w)
       | Some _ => with_sink j (sink_to SinkFailed (sinks w).[j]) w
       end)
(** It takes one connection and stops listening. *)
| step_sink_accepts j frames w :
    0 <= j < zlen (local_direct_chains plan) -> sink_stage (sinks w).[j] = SinkAccepting -> let c := hub_count + j in
    last_wire c w = Some frames ->
    session_step inverse false w
      (with_listening (delete (sink_address oph (fst (sink_proxy c)) (snd (sink_proxy c)) (sink_request c)) (listening w))
         (with_sink j (sink_to SinkReceiving (sinks w).[j]) w))
| step_sink_takes j fault frame rest s' w :
    0 <= j < zlen (local_direct_chains plan) -> let c := hub_count + j in last_wire c w = Some (frame :: rest) ->
    sink_step bs T (sink_request c) fault (Some frame) (sinks w).[j] s' ->
    session_step inverse fault w (with_sink j s' (set_last_wire c rest w))
(** The data nodes have read the streams to their ends. *)
| step_store t l done st w :
    0 <= t < hub_f hub_request -> let ws := (write_streams (hub_out (hub w))).[t] in
    full_block_write (view bs T hub_request) = true -> hw_open ws = false -> hw_recovery_result ws = None ->
    RecoveryToDatanodeBreakdown bs l (rb_failed_keys (rq_base hub_request)).[t] (hw_streamed ws) (rb_replaced (rq_base hub_request)).[t] (storage w) = (done, st) ->
    session_step inverse (negb (link_holds l)) w (with_storage st (with_hub (with_stream t (answer_stream done ws) (hub w)) w))
| step_store_sink j l done st w :
    0 <= j < zlen (local_direct_chains plan) -> let c := hub_count + j in let s := (sinks w).[j] in
    full_block_write (view bs T (sink_request c)) = true -> sink_stage s = SinkFlushed \/ sink_stage s = SinkFailed -> sink_recovery_result s = None ->
    let fields := rq_chain (sink_request c) in
    RecoveryToDatanodeBreakdown bs l (rc_local_failed_block_key fields) (sink_streamed s) (rc_local_replaced_node fields) (storage w) = (done, st) ->
    session_step inverse (negb (link_holds l)) w (with_storage st (with_sink j (answer_sink done s) w)).

(** ** The calls *)

Inductive PipelineCall := CallHub | CallRole (c i : Z) | CallSink (j : Z).

(** In the order in which they are started. *)
Definition chain_calls (c : Z) : list PipelineCall :=
  map (CallRole c) (rev (seqZ 1 (last_hop_server all_chains.[c]))) ++ (if zlen (hops all_chains.[c]) =? 0 then [] else [CallRole c 0]).
Definition pipeline_calls : list PipelineCall :=
  (if hub_count =? 0 then [] else [CallHub]) ++ concat (map chain_calls (zseq hub_count)) ++
  concat (map (fun j => CallSink j :: chain_calls (hub_count + j)) (zseq (zlen (local_direct_chains plan)))).

(** What a call has returned. *)
Definition call_returned (w : Session) (call : PipelineCall) : option bool :=
  match call with
  | CallHub => hub_returned (hub w)
  | CallRole c i =>
      match (if i =? 0 then head_stage (head (chains w).[c]) else hop_stage (hop_servers (chains w).[c]).[i - 1]) with
      | RoleReturned result => Some result
      | _ => None
      end
  | CallSink j => match sink_stage (sinks w).[j] with SinkReturned result => Some result | _ => None end
  end.

(** [answered]: which calls bring their status back. *)
Definition call_ok (answered : PipelineCall -> bool) (w : Session) (call : PipelineCall) : bool :=
  answered call && bool_decide (call_returned w call = Some true).

(** [rpc_errors]; [results]: the calls in the order in which they ended. *)
Definition rpc_errors (answered : PipelineCall -> bool) (errors : PipelineCall -> string) (w : Session) (results : list PipelineCall) : string :=
  snd (fold_left (fun '(index, e) call =>
    (index + 1,
     if call_ok answered w call then e
     else e +:+ (if String.eqb e "" then "" else "; ") +:+ "rpc[" +:+ to_string index +:+ "]: " +:+
          (if String.eqb (errors call) "" then "unknown failure" else errors call))) results (0, ""%string)).

Definition pipeline_conclude (answered : PipelineCall -> bool) (errors : PipelineCall -> string) (w : Session) (results : list PipelineCall)
    (reply : RecoveryReply) : bool * RecoveryReply :=
  let e := rpc_errors answered errors w results in
  if String.eqb e "" then (true, conclude true "ok" reply) else (false, conclude false ("pipeline rpc failures: " +:+ e) reply).
End Setup.

(** * The coordinator *)

Definition no_node : GlrcPipelineNodeLookup :=
  {| PipelinePlan.node_id := -1; datanode_ip := ""; datanode_port := 0; proxy_ip := ""; proxy_port := 0; PipelinePlan.block_key := "" |}.

(** [node_lookup] *)
Definition pipeline_node_lookup (s : Stripe) (t : Tables) (n_blocks : Z) : list GlrcPipelineNodeLookup :=
  map (fun bid =>
    if bid >=? zlen (blocks s) then no_node
    else
      let blk := (blocks s).[bid] in
      match m_node_table t !! map2node blk with
      | None => no_node
      | Some nd => {| PipelinePlan.node_id := map2node blk; datanode_ip := node_ip nd; datanode_port := node_port nd; proxy_ip := repair_proxy_ip nd;
                      proxy_port := repair_proxy_port nd; PipelinePlan.block_key := block_key blk |}
      end) (zseq n_blocks).

Definition with_message (msg : string) (r : RecoveryReply) : RecoveryReply := conclude (rr_success r) msg r.

(** Up to the reservation of ports: [inr] is the reply of a request that is
    refused.  [traverse]: the order in which the map of the hub counts is visited. *)
Definition pipeline_prepare {S : StdSort} (cfg : SysConfig) (gs : GlrcSettings) (traverse : gmap Z Z -> list (Z * Z)) (preset_plan : option GlrcIlpRepairPlan)
    (preset_pipeline : option GlrcPipelinePlan) (hub_block_id_preset next_epoch : Z) (sid : Z) (failed : list Z) (c : Coordinator) (reply : RecoveryReply)
  : (GlrcIlpRepairPlan * GlrcPipelinePlan * RecoveryReply) + RecoveryReply :=
  if negb (String.eqb (CodeType (settings cfg)) "gLRC") then inr (conclude false "recovery_glrc_ilp_pipeline requires CodeType gLRC" reply)
  else
    let s := stripe_at sid c in
    match first_invalid s failed with
    | Some fid => inr (conclude false ("invalid failed block id: " +:+ to_string fid) reply)
    | None =>
        let policy := match preset_plan with Some _ => "local-first"%string | None => glrc_normalize_equation_policy (GlrcEquationPolicy gs) end in
        let chosen :=
          match preset_plan with
          | None =>
              let plan := glrc_solve_repair_plan (cfg_k cfg) (cfg_r cfg) (cfg_z cfg) failed policy in
              if success plan then inl plan else inr (with_policy policy (conclude false (error_message plan) reply))
          | Some plan =>
              if success plan then inl plan
              else inr (conclude false (if String.eqb (error_message plan) "" then "preset pipeline plan failed"%string else error_message plan) reply)
          end in
        match chosen with
        | inr r => inr r
        | inl plan =>
            let all_equations := all_equations_of (cfg_k cfg) (cfg_r cfg) (cfg_z cfg) in
            let counts := helper_equation_count (selected_equation_indices plan) all_equations (list_to_set failed) in
            match (if hub_block_id_preset <? 0 then select_hub (traverse counts) (helper_block_ids plan) else Some hub_block_id_preset) with
            | None => inr (conclude false "pipeline hub selection failed" reply)
            | Some hub_block_id =>
                let built :=
                  match preset_pipeline with
                  | Some p => inl p
                  | None => glrc_build_pipeline_plan (cfg_k cfg) (cfg_r cfg) (cfg_z cfg) failed plan all_equations hub_block_id
                              (pipeline_node_lookup s (co_tables c) (cfg_k cfg + cfg_r cfg + cfg_z cfg)) next_epoch
                  end in
                match built with
                | inr plan_error => inr (conclude false plan_error reply)
                | inl p => inl (plan, p, with_mode "pipeline" (with_plan plan policy reply))
                end
            end
        end
    end.

(** The setup of a run. *)
Definition pipeline_setup (cfg : SysConfig) (gs : GlrcSettings) (window : Z) (one_proxy_per_host : bool) (s : Stripe) (t : Tables) (failed : list Z)
    (plan : GlrcIlpRepairPlan) (p : GlrcPipelinePlan) (global_shard_begin local_shard_count_override : Z) (hybrid_commit_token : string)
    (range_commit_parts : Z) (ports : gmap Z GlrcPipelineChainPorts) : PipelineSetup :=
  let global_shard_count := GlrcShardCount gs in
  let local_shard_count := if local_shard_count_override >? 0 then local_shard_count_override else global_shard_count in
  {| su_block_size := BlockSize (settings cfg); su_shard_count := global_shard_count; su_window := window; su_one_proxy_per_host := one_proxy_per_host;
     su_z := cfg_z cfg;
     su_base := make_base_request s t failed (selected_equation_indices plan) local_shard_count global_shard_begin global_shard_count
                  (exchange_epoch p) hybrid_commit_token range_commit_parts;
     su_plan := p; su_global_begin := global_shard_begin; su_ports := ports |}.

(** [recovery_glrc_ilp_pipeline_breakdown_ex]: what it may answer and leave on the
    data nodes, the block repaired as a whole.  [moments]: what the reservations of
    ports meet; [tables0]: the coordinator's port tables. *)
Inductive recovery_glrc_ilp_pipeline_breakdown_ex {S : StdSort} (cfg : SysConfig) (gs : GlrcSettings) (window : Z) (proxies : gset string)
    (one_proxy_per_host : bool) (moments : nat -> Moment) (tables0 : PortTables)
    (traverse : gmap Z Z -> list (Z * Z)) (next_epoch : Z) (preset_plan : option GlrcIlpRepairPlan)
    (sid : Z) (failed : list Z) (c : Coordinator) (reply : RecoveryReply) (st : Storage) : bool -> bool * RecoveryReply * Storage -> Prop :=
| pipeline_refused reply' :
    pipeline_prepare cfg gs traverse preset_plan None (-1) next_epoch sid failed c reply = inr reply' ->
    recovery_glrc_ilp_pipeline_breakdown_ex cfg gs window proxies one_proxy_per_host moments tables0 traverse next_epoch preset_plan sid failed c reply st
      false (false, reply', st)
| pipeline_no_ports plan p reply' ports message :
    pipeline_prepare cfg gs traverse preset_plan None (-1) next_epoch sid failed c reply = inl (plan, p, reply') ->
    allocate_plan one_proxy_per_host moments (exchange_epoch p) p tables0 = (false, ports) ->
    recovery_glrc_ilp_pipeline_breakdown_ex cfg gs window proxies one_proxy_per_host moments tables0 traverse next_epoch preset_plan sid failed c reply st
      false (false, with_message message reply', st)
| pipeline_duplicate_ports plan p reply' ports message :
    pipeline_prepare cfg gs traverse preset_plan None (-1) next_epoch sid failed c reply = inl (plan, p, reply') ->
    allocate_plan one_proxy_per_host moments (exchange_epoch p) p tables0 = (true, ports) ->
    check_ports ∅ (plan_listeners (chain_ports ports) p) = false ->
    recovery_glrc_ilp_pipeline_breakdown_ex cfg gs window proxies one_proxy_per_host moments tables0 traverse next_epoch preset_plan sid failed c reply st
      false (false, with_message message reply', st)
| pipeline_not_ready fault plan p reply' ports unready order listening message :
    (fault = false -> forall r, unready r = false) ->
    pipeline_prepare cfg gs traverse preset_plan None (-1) next_epoch sid failed c reply = inl (plan, p, reply') ->
    allocate_plan one_proxy_per_host moments (exchange_epoch p) p tables0 = (true, ports) ->
    check_ports ∅ (plan_listeners (chain_ports ports) p) = true ->
    let su := pipeline_setup cfg gs window one_proxy_per_host (stripe_at sid c) (co_tables c) failed plan p 0 0 "" 0 (chain_ports ports) in
    order ≡ₚ ready_calls su -> run_ready su proxies unready order ∅ = (listening, false) ->
    recovery_glrc_ilp_pipeline_breakdown_ex cfg gs window proxies one_proxy_per_host moments tables0 traverse next_epoch preset_plan sid failed c reply st
      fault (false, with_message message reply', st)
| pipeline_ran fault plan p reply' ports unready order listening w answered errors results result reply'' :
    (fault = false -> forall r, unready r = false) ->
    pipeline_prepare cfg gs traverse preset_plan None (-1) next_epoch sid failed c reply = inl (plan, p, reply') ->
    allocate_plan one_proxy_per_host moments (exchange_epoch p) p tables0 = (true, ports) ->
    check_ports ∅ (plan_listeners (chain_ports ports) p) = true ->
    let su := pipeline_setup cfg gs window one_proxy_per_host (stripe_at sid c) (co_tables c) failed plan p 0 0 "" 0 (chain_ports ports) in
    order ≡ₚ ready_calls su -> run_ready su proxies unready order ∅ = (listening, true) ->
    let inverse := hub_admit (su_block_size su) (su_shard_count su) (cfg_k cfg) (cfg_r cfg) (cfg_z cfg) (hub_request su) in
    rtc (fun a b => exists f, (f = true -> fault = true) /\ session_step su (default [] inverse) f a b) (start_session su proxies inverse listening st) w ->
    results ≡ₚ pipeline_calls su ->
    (forall call, call ∈ pipeline_calls su -> answered call = true -> is_Some (call_returned w call)) ->
    (fault = false -> forall call, answered call = true) ->
    pipeline_conclude answered errors w results reply' = (result, reply'') ->
    recovery_glrc_ilp_pipeline_breakdown_ex cfg gs window proxies one_proxy_per_host moments tables0 traverse next_epoch preset_plan sid failed c reply st
      fault (result, reply'', storage w).
