(* ===== verification/AzureGlobal.v ===== *)
(** AzureLRC: a lost global parity is rebuilt from the data blocks outside the
    first group and as many other global parities as the first group has data
    blocks.  The square system the decoder inverts is regular because the columns
    it leaves open form a Vandermonde matrix. *)
From S2P Require Import Prelude GF256 LinAlg GFMatrix EcKernel Groups Codes Decode DecodeSpec LocalRepair.
From Stdlib Require Import Field.

(** * Vandermonde matrices *)

Definition vandermonde (x : Z -> byte) : mx := fun i j => bpow (x i) j.

(** [x^m + a^m = (x + a) (x^(m-1) + ... + a^(m-1))] *)
Lemma bpow_difference x a m : 0 <= m ->
  bpow x m ⊕ bpow a m = (x ⊕ a) ⊗ xsum m (fun l => bpow x l ⊗ bpow a (m - 1 - l)).
Proof.
  revert m. apply natlike_ind; [rewrite xsum_0 by lia; rewrite !bpow_0; ring_simplify; reflexivity|].
  intros m Hm IH. unfold Z.succ. rewrite xsum_succ, !bpow_succ by lia. replace (m + 1 - 1 - m) with 0 by lia.
  rewrite (xsum_ext m _ (fun l => a ⊗ (bpow x l ⊗ bpow a (m - 1 - l)))).
  2: { intros l Hl. replace (m + 1 - 1 - l) with (m - 1 - l + 1) by lia. rewrite bpow_succ by lia. ring. }
  rewrite xsum_mul_l, bpow_0.
  transitivity ((x ⊕ a) ⊗ bpow x m ⊕ a ⊗ (bpow x m ⊕ bpow a m)); [ring|]. rewrite IH. ring.
Qed.

(** Division of a polynomial by [x + a]. *)
Lemma divide_root n a (v : Z -> byte) : 0 <= n -> exists q : Z -> byte,
  (forall x, xsum (n + 1) (fun j => v j ⊗ bpow x j) =
             (x ⊕ a) ⊗ xsum n (fun j => q j ⊗ bpow x j) ⊕ xsum (n + 1) (fun j => v j ⊗ bpow a j)) /\
  ((forall j, 0 <= j < n -> q j = x00) -> forall j, 1 <= j <= n -> v j = x00).
Proof.
  revert n. apply natlike_ind.
  - exists (fun _ => x00). split; [|lia]. intros x. rewrite !xsum_succ, !xsum_0, !bpow_0 by lia. ring.
  - intros n Hn (q & Hq & Hz). unfold Z.succ. set (lead := v (n + 1)).
    exists (fun j => (if j <? n then q j else x00) ⊕ lead ⊗ bpow a (n - j)). split.
    + intros x. rewrite (xsum_succ (n + 1)), (xsum_succ (n + 1) (fun j => v j ⊗ bpow a j)), Hq by lia. fold lead.
      rewrite (xsum_ext (n + 1) (fun j => ((if j <? n then q j else x00) ⊕ lead ⊗ bpow a (n - j)) ⊗ bpow x j)
        (fun j => (if j <? n then q j else x00) ⊗ bpow x j ⊕ lead ⊗ (bpow x j ⊗ bpow a (n + 1 - 1 - j)))).
      2: { intros j Hj. replace (n + 1 - 1 - j) with (n - j) by lia. ring. }
      rewrite xsum_add, xsum_mul_l, (xsum_succ n (fun j => (if j <? n then q j else x00) ⊗ bpow x j)) by lia. rewrite Z.ltb_irrefl.
      rewrite (xsum_ext n (fun j => (if j <? n then q j else x00) ⊗ bpow x j) (fun j => q j ⊗ bpow x j)) by (intros j Hj; zcases; reflexivity).
      set (S1 := xsum n _). set (S2 := xsum (n + 1) (fun l => bpow x l ⊗ _)).
      transitivity ((x ⊕ a) ⊗ S1 ⊕ lead ⊗ ((x ⊕ a) ⊗ S2) ⊕ (xsum (n + 1) (fun j => v j ⊗ bpow a j) ⊕ lead ⊗ bpow a (n + 1))); [|ring].
      unfold S2. rewrite <- bpow_difference by lia.
      transitivity ((x ⊕ a) ⊗ S1 ⊕ lead ⊗ bpow x (n + 1) ⊕ xsum (n + 1) (fun j => v j ⊗ bpow a j)); [ring|].
      ring.
    + intros H. assert (Hlead : lead = x00).
      { specialize (H n ltac:(lia)). cbv beta in H. revert H. zcases. replace (n - n) with 0 by lia. rewrite bpow_0. intros <-. ring. }
      intros j Hj. destruct (Z.eq_dec j (n + 1)) as [->|Hne]; [exact Hlead|]. apply Hz; [|lia]. intros l Hl.
      specialize (H l ltac:(lia)). cbv beta in H. revert H. zcases. rewrite Hlead. intros <-. ring.
Qed.

Lemma vandermonde_nonsingular n (x : Z -> byte) : 0 <= n ->
  (forall i j, 0 <= i < n -> 0 <= j < n -> x i = x j -> i = j) -> nonsingular n (vandermonde x).
Proof.
  intros Hn. pattern n. apply natlike_ind; [|clear n Hn; intros n Hn IH|exact Hn].
  { intros _ v _ j Hj. lia. }
  unfold Z.succ. intros Hx v Hv. destruct (divide_root n (x n) v Hn) as (q & Hq & Hz).
  assert (Hroot : forall i, 0 <= i < n + 1 -> xsum (n + 1) (fun j => v j ⊗ bpow (x i) j) = x00).
  { intros i Hi. rewrite <- (Hv i Hi). apply xsum_ext. intros. apply gf_mul_comm. }
  assert (Hq0 : forall j, 0 <= j < n -> q j = x00).
  { apply IH; [intros i j Hi Hj; apply Hx; lia|]. intros i Hi. unfold mxv, vandermonde.
    rewrite (xsum_ext n _ (fun j => q j ⊗ bpow (x i) j)) by (intros; apply gf_mul_comm).
    pose proof (Hq (x i)) as E. rewrite !Hroot, bxor_0_r in E by lia. symmetry in E. apply gf_mul_eq_0 in E as [E|E]; [|exact E].
    exfalso. apply bxor_eq_0, Hx in E; lia. }
  assert (Hhigh : forall j, 1 <= j <= n -> v j = x00) by (apply Hz, Hq0).
  intros j Hj. destruct (Z.eq_dec j 0) as [->|]; [|apply Hhigh; lia].
  pose proof (Hroot 0 ltac:(lia)) as E. rewrite (xsum_single (n + 1) _ 0) in E by (lia || (intros l Hl Hne; rewrite Hhigh by lia; ring)).
  rewrite bpow_0 in E. rewrite <- E. ring.
Qed.

(** The powers of 2 are different up to 255. *)
Lemma powers_distinct e e' : 1 <= e <= 255 -> 1 <= e' <= 255 -> bpow x02 e = bpow x02 e' -> e = e'.
Proof.
  intros He He'. assert (H : bool_decide (NoDup (map (fun i => bpow x02 i) (seqZ 1 255))) = true) by (vm_compute; reflexivity).
  apply bool_decide_eq_true, NoDup_ListNoDup in H.
  assert (Hl : forall i, 1 <= i <= 255 -> nth (Z.to_nat (i - 1)) (map (fun i => bpow x02 i) (seqZ 1 255)) x00 = bpow x02 i).
  { intros i Hi. rewrite (nth_indep _ x00 (bpow x02 0)) by (rewrite length_map; pose proof (zlen_seqZ 1 255); lia).
    rewrite (map_nth (fun i => bpow x02 i)). f_equal.
    pose proof (lookup_seqZ_lt 1 255 (Z.to_nat (i - 1)) ltac:(lia)) as E. apply nth_lookup_Some with (d := 0) in E. rewrite E. lia. }
  intros E. rewrite <- (Hl e He), <- (Hl e' He') in E.
  apply (proj1 (NoDup_nth _ x00) H) in E; [lia| |]; rewrite length_map; pose proof (zlen_seqZ 1 255); lia.
Qed.

(** * The rows of the system *)

(** The [j]-th row: the rows from [k / z] on, without the lost one. *)
Definition azure_row (q f j : Z) : Z := if q + j <? f then q + j else q + j + 1.

Section Rows.
Context (k r z f : Z) (Hk : 1 <= k) (Hz : 1 <= z) (Hzk : (z | k)) (Hf : k <= f < k + r) (Hr : k / z < r).
Notation q := (k / z).

Lemma open_columns : 1 <= q <= k.
Proof. pose proof (even_size k z Hk Hz Hzk) as [H1 H2]. nia. Qed.

Lemma azure_used_rows_spec : exists used idx j, azure_used_rows k r z f = (used, idx, j) /\
  forall p, 0 <= p < k -> used.[p] = azure_row q f p /\ idx !! azure_row q f p = Some p.
Proof.
  pose proof open_columns as Hq. unfold azure_used_rows. rewrite Z.quot_div_nonneg by lia.
  pose (P := fun i (st : list Z * gmap Z Z * Z) => let '(used, idx, j) := st in
    zlen used = k /\ j = Z.min k (i - q - (if f <? i then 1 else 0)) /\
    forall p, 0 <= p < j -> used.[p] = azure_row q f p /\ idx !! azure_row q f p = Some p).
  match goal with |- exists _ _ _, ?X = _ /\ _ => assert (H : P (k + r) X) end.
  { apply (for_range_ind P); [lia| |].
    - split; [apply zlen_zrepeat; lia|]. split; [zcases; lia|]. intros p Hp. revert Hp. zcases; lia.
    - intros i [[used idx] j] Hi (L & Ej & Hu). cbn [P].
      destruct (Z.ltb_spec j k) as [Hjk|Hjk], (Z.eqb_spec i f) as [Hif|Hif]; cbn [andb negb].
      2: { assert (Hrow : azure_row q f j = i) by (unfold azure_row; revert Ej; zcases; lia).
           split; [rewrite zlen_zset; exact L|]. split; [revert Ej; zcases; lia|]. intros p Hp.
           destruct (Z.eq_dec p j) as [->|Hne].
           - rewrite Hrow, zget_zset_eq by (revert Ej; zcases; lia). split; [reflexivity|apply lookup_insert_eq].
           - destruct (Hu p ltac:(lia)) as [U1 U2]. rewrite zget_zset_ne by lia. split; [exact U1|].
             rewrite lookup_insert_ne; [exact U2|]. rewrite <- Hrow. unfold azure_row. zcases; lia. }
      all: split; [exact L|]; split; [revert Ej; zcases; lia|exact Hu]. }
  destruct (for_range _ _ _ _) as [[used idx] j]. destruct H as (L & Ej & Hu). exists used, idx, j. split; [reflexivity|].
  intros p Hp. apply Hu. revert Ej. zcases; lia.
Qed.

Definition azure_system : mx := fun p j => rs_gen k (azure_row q f p) j.

Lemma azure_system_nonsingular : r <= 255 -> nonsingular k azure_system.
Proof.
  intros Hr255. pose proof open_columns as Hq. intros v Hv.
  assert (Hhigh : forall j, q <= j < k -> v j = x00).
  { intros j Hj. specialize (Hv (j - q) ltac:(lia)). rewrite <- Hv. unfold mxv, azure_system, azure_row, rs_gen.
    rewrite (xsum_ext k _ (fun l => delta j l ⊗ v l)); [symmetry; apply xsum_delta_l; lia|]. intros l Hl.
    do 2 (zcases; try lia). f_equal. f_equal. lia. }
  set (x := fun l => bpow x02 (azure_row q f (k - q + l) - k + 1)).
  assert (Hlow : forall j, 0 <= j < q -> v j = x00).
  { apply (vandermonde_nonsingular q x); [lia| |].
    - intros i j Hi Hj E. apply powers_distinct in E; unfold azure_row in *; revert E || idtac; zcases; lia.
    - intros l Hl. rewrite <- (Hv (k - q + l)) by lia. unfold mxv. rewrite (xsum_split q k) by lia.
      rewrite (xsum_zero (k - q)) by (intros j Hj; rewrite Hhigh by lia; ring). rewrite bxor_0_r. apply xsum_ext. intros j Hj.
      f_equal. unfold vandermonde, azure_system, rs_gen, x. destruct (Z.ltb_spec (azure_row q f (k - q + l)) k) as [H|H]; [|reflexivity].
      exfalso. revert H. unfold azure_row. zcases; lia. }
  intros j Hj. destruct (Z.ltb_spec j q); [apply Hlow|apply Hhigh]; lia.
Qed.
End Rows.

(** * The decoder *)

Section Decoder.
Context {K : Kernels} {KL : KernelLaws K} (k r z f : Z).
Context (Hk : 1 <= k) (Hz : 1 <= z) (Hzk : (z | k)) (Hf : k <= f < k + r) (Hr : k / z < r <= 255).
Notation q := (k / z).

(** The decoder weighs every block it is given, whichever blocks these are; over
    the rows of the system the weights reproduce the lost row. *)
Lemma azure_weights : exists w : Z -> byte,
  (forall ids ptrs res bs, 1 <= zlen ids -> 0 <= bs <= zlen res ->
     zlen (decode_azure_lrc k r z (zlen ids) ids ptrs res bs f) = zlen res /\
     forall i, 0 <= i < bs -> (decode_azure_lrc k r z (zlen ids) ids ptrs res bs f).[i] =
                              xsum (zlen ids) (fun j => w ids.[j] ⊗ ptrs.[j].[i])) /\
  forall d, xsum k (fun p => w (azure_row q f p) ⊗ encoded k (rs_gen k) d (azure_row q f p)) = encoded k (rs_gen k) d f.
Proof.
  destruct (azure_used_rows_spec k r z f Hk Hz Hzk Hf ltac:(lia)) as (used & idx & j0 & Eu & Hu).
  set (m := k + r). set (E := gf_gen_rs_matrix1 (memset (new_bytes (m * k)) x00 (m * k)) m k).
  assert (HE : is_mx m k E (rs_gen k)).
  { apply gf_gen_rs_matrix1_spec; [lia|]. rewrite zlen_memset by (unfold new_bytes; rewrite zlen_zrepeat; nia).
    unfold new_bytes. rewrite zlen_zrepeat; nia. }
  set (T := for_range 0 k (fun i t => for_range 0 k (fun j t => t.[i * k + j <- E.[used.[i] * k + j]]) t) (new_bytes (k * k))).
  assert (HT : is_mx k k T (azure_system k z f)).
  { eapply is_mx_ext; [apply (fill_matrix_spec k k (fun i j => E.[used.[i] * k + j])); unfold new_bytes; rewrite ?zlen_zrepeat; nia|].
    intros i j Hi Hj. cbv beta. destruct (Hu i Hi) as [-> _]. apply (is_mx_get m k E (rs_gen k)); [exact HE| |exact Hj].
    pose proof (open_columns k z Hk Hz Hzk). unfold azure_row, m. zcases; lia. }
  pose proof (gf_invert_matrix_spec k _ T (new_bytes (k * k)) ltac:(lia) HT ltac:(unfold new_bytes; rewrite zlen_zrepeat; nia)) as Hinv.
  destruct (gf_invert_matrix T (new_bytes (k * k)) k) as [ret [T' inv]] eqn:Einv.
  destruct Hinv as [(_ & B & HB & HBA & _)|[_ Hsing]]; [|exfalso; apply Hsing, (azure_system_nonsingular k r z f); lia || assumption].
  destruct (gf_mul_vect_matrix_spec (zdrop (f * k) E) inv (new_bytes k) k) as [Lv Hv].
  { unfold new_bytes. rewrite zlen_zrepeat; lia. }
  set (vect := gf_mul_vect_matrix (zdrop (f * k) E) inv (new_bytes k) k) in *.
  exists (fun b => vect.[default 0 (idx !! b)]). split.
  - intros ids ptrs res bs Hids Hbs. unfold decode_azure_lrc. cbv zeta. rewrite Eu. fold m E T. rewrite Einv. cbn [snd]. fold vect.
    replace ((f <? k) || (f >=? m)) with false by (rewrite Z.geb_leb; unfold m; zcases; cbn [orb]; zcases; reflexivity || lia).
    split; [rewrite encode_one_len; rewrite ?zlen_memset; lia|]. intros i Hi.
    rewrite encode_one_spec by (rewrite ?zlen_memset; lia). apply xsum_ext. intros j Hj. rewrite zget_map_zseq by lia. reflexivity.
  - intros d. set (y := fun p => encoded k (rs_gen k) d (azure_row q f p)).
    rewrite (xsum_ext k _ (fun p => xsum k (fun c => rs_gen k f c ⊗ (B c p ⊗ y p)))).
    2: { intros p Hp. destruct (Hu p Hp) as [_ ->]. change (default 0 (Some p)) with p. rewrite Hv by lia. rewrite <- xsum_mul_r. apply xsum_ext.
         intros c Hc. rewrite (is_mx_get k k inv B c p HB Hc Hp). replace ((zdrop (f * k) E).[c]) with (rs_gen k f c); [unfold y; ring|].
         symmetry. rewrite zget_zdrop by nia. apply (is_mx_get m k E (rs_gen k) f c HE); lia. }
    rewrite xsum_swap. unfold encoded. apply xsum_ext. intros c Hc. rewrite xsum_mul_l. f_equal.
    rewrite <- (left_inverse_solves k (azure_system k z f) B d HBA c Hc). apply xsum_ext. reflexivity.
Qed.
End Decoder.
