(* ===== verification/SingleRepairSpec.v ===== *)
(** Repair of one lost block inside its group: what the decoders return as whole
    blocks, and which families a single group suffices for. *)
From S2P Require Import Prelude GF256 LinAlg GFMatrix EcKernel Groups Codes Decode DecodeSpec LocalRepair RepairPlan Toolbox Placement PlacementSpec PlacementLaw.
From S2P Require Import Coordinator AppendPlan Client DataNode ProxyAppend ReadPath SingleRepair.

(** * Whole decoded blocks *)

Section Whole.
Context {K : Kernels} {KL : KernelLaws K}.

(** Equal bytes and the length of a block make equal blocks. *)
Lemma whole_block bs (l l' : list byte) : zlen l = bs -> zlen l' = bs -> (forall i, 0 <= i < bs -> l.[i] = l'.[i]) -> l = l'.
Proof. intros H1 H2 H. apply zlist_ext; [lia|]. intros i Hi. apply H. lia. Qed.

Definition read_of (stripe : list block) (ids : list Z) : list block := map (fun b => stripe.[b]) ids.

Lemma read_of_holds stripe ids bs : holds ids (read_of stripe ids) bs stripe.
Proof. intros h i Hh _. unfold read_of. rewrite zget_map by exact Hh. reflexivity. Qed.

Lemma read_of_buffers stripe ids bs n : (forall b, 0 <= b < n -> zlen stripe.[b] = bs) -> Forall (fun b => 0 <= b < n) ids ->
  buffers (zlen ids) bs (read_of stripe ids).
Proof.
  intros Hl Hids. unfold read_of. split; [rewrite length_map; lia|]. intros l Hl0. rewrite zget_map by exact Hl0.
  rewrite Hl; [lia|]. rewrite Forall_forall in Hids. apply Hids, list_elem_of_In, zget_In, Hl0.
Qed.
End Whole.

(** * Reading the sources *)

Lemma sources_read bs st (junk : nat -> list byte) (content : Z -> list byte) sources : (forall i, zlen (junk i) = bs) ->
  Forall (fun q => stored st q (content (br_id q)) /\ zlen (content (br_id q)) = bs) sources ->
  imap (fun i q => get_from_node bs (junk i) st q) sources = map (fun q => (true, content (br_id q))) sources.
Proof.
  intros Hj Hq. revert junk Hj. induction Hq as [|q sources [Hs Hl] Hq IH]; intros junk Hj; [reflexivity|].
  cbn [imap map]. f_equal; [unfold get_from_node; f_equal; apply (fetch_stored bs); auto|].
  apply (IH (fun i => junk (S i))). intros i. apply Hj.
Qed.

(** The buffers of a handler have the size of a block. *)
Definition buffers_of (bs : Z) (b : Buffers) : Prop :=
  (forall i, zlen (read_junk b i) = bs) /\ zlen (res_buf b) = bs /\ zlen (real_res_buf b) = bs.

(** Every block of [s] but [f] is on its node. *)
Definition survivors (st : Storage) (s : Stripe) (t : Tables) (stripe : list block) (f : Z) : Prop :=
  forall b, 0 <= b < st_n s -> b <> f -> stored st (source_block s t b) stripe.[b].

Lemma read_and_decode_of {K : Kernels} cfg st b f s t stripe ids : buffers_of (BlockSize (settings cfg)) b -> survivors st s t stripe f ->
  (forall x, 0 <= x < st_n s -> block_id (blocks s).[x] = x /\ zlen stripe.[x] = BlockSize (settings cfg)) ->
  Forall (fun x => 0 <= x < st_n s /\ x <> f) ids ->
  read_and_decode cfg st b f (map (source_block s t) ids) =
  match decode_single cfg f ids (read_of stripe ids) (res_buf b) with Some bytes => Done (Some bytes) | None => Exited end.
Proof.
  intros (Hb & _) Hs Hid Hids. unfold read_and_decode.
  assert (Eids : map br_id (map (source_block s t) ids) = ids).
  { rewrite map_map. transitivity (map (fun x => x) ids); [|apply map_id]. apply map_ext_in. intros x Hx. rewrite Forall_forall in Hids.
    apply Hid, (Hids x), list_elem_of_In, Hx. }
  rewrite (sources_read _ st _ (fun x => stripe.[x]) _ Hb).
  - rewrite map_map. replace (forallb fst _) with true by (symmetry; apply forallb_forall; intros p Hp; apply in_map_iff in Hp as (? & <- & _); reflexivity).
    cbn [snd]. rewrite Eids.
    assert (E : read_of stripe ids = map (fun q => stripe.[br_id q]) (map (source_block s t) ids)).
    { unfold read_of. rewrite <- Eids at 1. rewrite !map_map. reflexivity. }
    rewrite E, !map_map. reflexivity.
  - apply Forall_map. eapply Forall_impl; [exact Hids|]. intros x [Hx Hne]. destruct (Hid x Hx) as [E1 E2].
    cbn [source_block request_block br_id]. rewrite E1. split; [apply (Hs x Hx Hne)|exact E2].
Qed.

(** * Repair inside one group *)

(** A lost block that one group of the stripe restores. *)
Record repairs_in_group {K : Kernels} (cfg : SysConfig) (s : Stripe) (stripe : list block) (f g : Z) : Prop := {
  rg_ids : get_recovery_group_ids (CodeType (settings cfg)) (cfg_k cfg) (cfg_r cfg) (cfg_z cfg) f = [g];
  rg_group : group_of_stripe s g <> [];
  rg_range : Forall (fun x => 0 <= x < st_n s) (group_of_stripe s g);
  rg_blocks : forall x, 0 <= x < st_n s -> block_id (blocks s).[x] = x /\ zlen stripe.[x] = BlockSize (settings cfg);
  rg_lost : zlen stripe.[f] = BlockSize (settings cfg);
  rg_decode : forall res, zlen res = BlockSize (settings cfg) ->
    decode_single cfg f (rest_of s f g) (read_of stripe (rest_of s f g)) res = Some stripe.[f] }.

Section InGroup.
Context {K : Kernels} (cfg : SysConfig) (c : Coordinator) (sid : Z) (s : Stripe) (stripe : list block) (f g : Z).
Context (Hs : m_stripe_table c !! sid = Some s) (Hg : repairs_in_group cfg s stripe f g).
Notation bs := (BlockSize (settings cfg)).
Notation t := (co_tables c).

Lemma group_cluster : exists cluster, get_cluster_id_by_group_id s g = Some cluster.
Proof.
  pose proof (rg_group _ _ _ _ _ Hg) as H. unfold group_of_stripe in H. unfold get_cluster_id_by_group_id.
  destruct (group_to_blocks s !! g) as [[|b l]|]; cbn in H; try contradiction. eauto.
Qed.

Lemma group_decoded st b : survivors st s t stripe f -> buffers_of bs b ->
  read_and_decode cfg st b f (map (source_block s t) (rest_of s f g)) = Done (Some stripe.[f]).
Proof.
  intros Hst Hb. destruct Hg as [_ _ H3 H4 _ H6].
  assert (Hids : Forall (fun x => 0 <= x < st_n s /\ x <> f) (rest_of s f g)).
  { apply Forall_forall. intros x Hx. apply list_elem_of_In, filter_In in Hx as [Hx Hne]. rewrite Forall_forall in H3.
    split; [apply H3, list_elem_of_In, Hx|apply negb_true_iff, Z.eqb_neq in Hne; exact Hne]. }
  rewrite (read_and_decode_of cfg st b f s t stripe) by assumption.
  rewrite H6 by apply Hb. reflexivity.
Qed.

Lemma degraded_plan_in_group client send_id : exists calls, plan_one_block cfg s t f (fun _ => Some client) false send_id = Some calls /\
  rc_partial calls = [] /\ rq_replaced (snd (rc_final calls)) = client /\
  forall st b arrivals, survivors st s t stripe f -> buffers_of bs b ->
    degradedRead2Client cfg st b (snd (rc_final calls)) arrivals = Done (option_map int32 send_id, stripe.[f]).
Proof.
  destruct group_cluster as [cluster Hcl]. eexists. split.
  { unfold plan_one_block. rewrite (rg_ids _ _ _ _ _ Hg), Hcl. reflexivity. }
  split; [reflexivity|]. split; [reflexivity|]. intros st b arrivals Hst Hb. unfold degradedRead2Client.
  cbn [single_group_calls rc_final snd rq_failed_id rq_sources rq_cross_rack_num rq_block_id_to_send].
  rewrite group_decoded by assumption. reflexivity.
Qed.

Lemma degraded_read_in_group client : exists calls, degraded_read_one_block cfg sid f client c = Some calls /\ rc_partial calls = [] /\
  rq_replaced (snd (rc_final calls)) = client /\
  forall st b arrivals, survivors st s t stripe f -> buffers_of bs b ->
    degradedRead2Client cfg st b (snd (rc_final calls)) arrivals = Done (None, stripe.[f]).
Proof. unfold degraded_read_one_block. rewrite Hs. exact (degraded_plan_in_group client None). Qed.

(** The recovered block on the replacement node; nothing else changes. *)
Lemma recovery_in_group draws : (forall cluster, get_cluster_id_by_group_id s g = Some cluster ->
    is_Some (randomly_select_a_node cluster sid t draws)) ->
  exists calls x, recovery_one_block cfg sid f draws c = Some calls /\ rc_partial calls = [] /\
    node_stripes (node_at t x) !! sid = None /\
    forall st b arrivals m, survivors st s t stripe f -> buffers_of bs b -> bs <= m ->
      let node := (node_ip (node_at t x), node_port (node_at t x)) in
      proxy_recovery cfg b (Some m) (snd (rc_final calls)) arrivals st =
      Done (<[node := <[block_key (blocks s).[f] := stripe.[f]]> (files_at (fst node) (snd node) st)]> st).
Proof.
  destruct group_cluster as [cluster Hcl]. intros Hsel. destruct (Hsel cluster Hcl) as [[x rest] Ex].
  eexists _, x. split.
  { unfold recovery_one_block. rewrite Hs. cbn [mbind option_bind]. unfold plan_one_block.
    rewrite (rg_ids _ _ _ _ _ Hg), Hcl, Ex. reflexivity. }
  split; [reflexivity|]. split; [apply select_node_spec in Ex; tauto|]. intros st b arrivals m Hst Hb Hm. cbv zeta.
  unfold proxy_recovery. cbn [single_group_calls rc_final snd rq_failed_id rq_sources rq_cross_rack_num rq_failed_key rq_replaced].
  rewrite group_decoded by assumption. cbn [add_partials Z.eqb]. unfold RecoveryToDatanode, handleRecovery. cbn [fst snd].
  pose proof (rg_lost _ _ _ _ _ Hg) as Hl. rewrite (ztake_all stripe.[f] bs), (ztake_all stripe.[f] m) by lia.
  rewrite Hl, Z.sub_diag. change (zrepeat x00 0) with (@nil byte). rewrite app_nil_r, ztake_all by lia. reflexivity.
Qed.
End InGroup.

(** * The rest of a group *)

Section Rest.
Context (s : Stripe) (gr : Z -> Z) (n f g : Z).
Context (Hgrp : group_of_stripe s g = List.filter (fun b => gr b =? g) (zseq n)) (Hf : 0 <= f < n) (Hfg : gr f = g).

Lemma in_rest_of b : b ∈ f :: rest_of s f g <-> 0 <= b < n /\ gr b = g.
Proof.
  unfold rest_of. rewrite Hgrp, elem_of_cons, !list_elem_of_In, !filter_In, in_zseq, Z.eqb_eq, negb_true_iff, Z.eqb_neq.
  destruct (Z.eq_dec b f) as [->|Hne]; tauto.
Qed.

Lemma rest_of_nodup : NoDup (f :: rest_of s f g).
Proof.
  constructor.
  - unfold rest_of. rewrite list_elem_of_In, filter_In, negb_true_iff, Z.eqb_neq. tauto.
  - unfold rest_of. rewrite Hgrp. apply NoDup_ListNoDup. do 2 apply List.NoDup_filter. apply NoDup_ListNoDup, NoDup_seqZ.
Qed.

Lemma rest_of_is (C : Z -> byte) : (forall b, 0 <= b < n -> C b <> x00 <-> gr b = g) -> rest_of_group n C f (rest_of s f g).
Proof.
  intros HC. split; [apply rest_of_nodup|]. split.
  - apply Forall_forall. intros b Hb. apply in_rest_of in Hb. tauto.
  - intros b Hb. rewrite in_rest_of, HC by exact Hb. tauto.
Qed.

(** At least as many as are known. *)
Lemma rest_of_count (known : list Z) : NoDup known -> Forall (fun b => 0 <= b < n /\ gr b = g) known ->
  zlen known - 1 <= zlen (rest_of s f g).
Proof.
  intros Hnd Hk. assert (H : (length known <= length (f :: rest_of s f g))%nat).
  { apply List.NoDup_incl_length; [apply NoDup_ListNoDup, Hnd|]. intros b Hb. apply list_elem_of_In, in_rest_of.
    rewrite Forall_forall in Hk. apply Hk, list_elem_of_In, Hb. }
  cbn [length] in H. lia.
Qed.
End Rest.

(** * UniLRC and AzureLRC *)

Section EvenFamilies.
Context {K : Kernels} {KL : KernelLaws K} (cfg : SysConfig) (s0 s : Stripe) (data parity : list block) (f : Z).
Notation k := (st_k s0).
Notation r := (st_r s0).
Notation z := (st_z s0).
Notation n := (st_n s0).
Notation bs := (BlockSize (settings cfg)).
Notation ct := (CodeType (settings cfg)).
Notation gr := (uni_azure_group_of ct s0).
Context (N : new_stripe s0) (Ek : cfg_k cfg = k) (Er : cfg_r cfg = r) (Ez : cfg_z cfg = z) (Hzk : (z | k)).
Context (Hgrp : forall g, group_of_stripe s g = List.filter (fun b => gr b =? g) (zseq n)).
Context (Hn : st_n s = n) (Hid : forall b, 0 <= b < n -> block_id (blocks s).[b] = b).
Context (Hd : zlen data = k) (Hp : zlen parity = r + z) (Hbuf : buffers (r + z) bs parity) (Hbs : 0 <= bs) (Hf : 0 <= f < n).

Lemma in_rest_range g : gr f = g -> Forall (fun b => 0 <= b < n) (rest_of s f g).
Proof.
  intros Hg. apply Forall_forall. intros b Hb.
  assert (Hin : b ∈ f :: rest_of s f g) by (right; exact Hb).
  apply (in_rest_of s gr n f g (Hgrp g) Hf Hg) in Hin. tauto.
Qed.

Lemma in_group_range g : Forall (fun b => 0 <= b < st_n s) (group_of_stripe s g).
Proof. rewrite Hgrp, Hn. apply Forall_forall. intros b Hb. apply list_elem_of_In, filter_In in Hb as [Hb _]. apply in_zseq, Hb. Qed.

Lemma group_inhabited g : gr f = g -> group_of_stripe s g <> [].
Proof.
  intros Hg E. rewrite Hgrp in E. assert (H : In f (List.filter (fun b => gr b =? g) (zseq n))).
  { apply filter_In. split; [apply in_zseq, Hf|apply Z.eqb_eq, Hg]. } rewrite E in H. destruct H.
Qed.

Lemma local_same (x : Z) : x / (z / z) = x.
Proof. destruct N. rewrite Z.div_same by lia. apply Z.div_1_r. Qed.

Lemma even_in_group stripe : (forall b, 0 <= b < n -> zlen stripe.[b] = bs) ->
  get_recovery_group_ids ct (cfg_k cfg) (cfg_r cfg) (cfg_z cfg) f = [gr f] ->
  (forall res, zlen res = bs -> decode_single cfg f (rest_of s f (gr f)) (read_of stripe (rest_of s f (gr f))) res = Some stripe.[f]) ->
  repairs_in_group cfg s stripe f (gr f).
Proof.
  intros Hl Hids Hdec. split; auto using group_inhabited, in_group_range. rewrite Hn. intros x Hx. split; [apply Hid, Hx|apply Hl, Hx].
Qed.

Lemma unilrc_in_group : ct = "UniLRC" -> (z | r) -> 1 <= r ->
  (forall b, 0 <= b < n -> zlen (data ++ encode_unilrc k r z data parity bs).[b] = bs) ->
  repairs_in_group cfg s (data ++ encode_unilrc k r z data parity bs) f (gr f).
Proof.
  intros Hct [p Ep] Hr Hl. pose proof N as [N1 N2 N3 N4 _ _]. pose proof Hzk as [q Eq].
  assert (1 <= q) by nia. assert (1 <= p) by nia.
  assert (Eqk : k / z = q) by (rewrite Eq; apply Z.div_mul; lia). assert (Epr : r / z = p) by (rewrite Ep; apply Z.div_mul; lia).
  assert (Hgr : forall b, gr b = if b <? k then b / q else if b <? k + r then (b - k) / p else b - (k + r)).
  { intros b. unfold uni_azure_group_of. rewrite Hct, Eqk, Epr, local_same. cbn [String.eqb Ascii.eqb Bool.eqb].
    zcases; try reflexivity; lia. }
  assert (Hrange : 0 <= gr f < z).
  { pose proof (uni_azure_group_range ct s0 f N Hzk (or_introl (conj Hct (ex_intro _ p Ep))) Hf) as H1.
    replace (placement_group_count ct s0) with z in H1 by (unfold placement_group_count; rewrite Hct; reflexivity). exact H1. }
  apply even_in_group; [exact Hl| |].
  - rewrite Ek, Er, Ez, Hgr, Hct. unfold get_recovery_group_ids. cbn [String.eqb Ascii.eqb Bool.eqb]. unfold unilrc_recovery_groups.
    rewrite Eqk, Epr. zcases; cbn [andb]; zcases; try reflexivity; try (f_equal; lia); lia.
  - intros res Hres. set (g := gr f) in *. unfold decode_single. rewrite Hct. cbn [String.eqb Ascii.eqb Bool.eqb]. f_equal.
    assert (Hcount : 2 <= zlen (rest_of s f g)).
    { change 2 with (zlen [g * q; k + g * p; k + r + g] - 1). apply (rest_of_count s gr n f g (Hgrp g) Hf eq_refl).
      - repeat constructor; rewrite ?elem_of_cons, ?list_elem_of_singleton, ?elem_of_nil; nia.
      - repeat constructor; try nia; rewrite Hgr; zcases; try nia;
          rewrite ?Z.div_mul by lia; try reflexivity; try lia. replace (k + g * p - k) with (g * p) by lia. apply Z.div_mul. lia. }
    assert (Hrest : rest_of_group (k + r + z) (local_eq_coef k r (unilrc_coef k r z) g) f (rest_of s f g)).
    { rewrite <- N4. apply (rest_of_is s gr n f g (Hgrp g) Hf eq_refl). intros b Hb. rewrite Hgr.
      unfold local_eq_coef, unilrc_coef, even_group. rewrite Eqk, Epr. zcases; split; intros; try congruence; try lia; try discriminate. }
    pose proof (in_rest_range g eq_refl) as Hrr. pose proof (read_of_buffers _ _ bs n Hl Hrr) as Hbufs.
    apply (whole_block bs).
    + rewrite Ek, Er, Ez. unfold decode_unilrc. cbv zeta. rewrite xor_repair_len by (assumption || lia). lia.
    + apply Hl, Hf.
    + intros i Hi. rewrite Ek, Er, Ez. apply (unilrc_repair k r z data parity bs g); auto; try lia.
      * exists p. exact Ep.
      * apply read_of_holds.
Qed.

Lemma azure_in_group : ct = "AzureLRC" -> 2 <= k / z -> ~ k <= f < k + r ->
  (forall b, 0 <= b < n -> zlen (data ++ encode_azure_lrc k r z data parity bs).[b] = bs) ->
  repairs_in_group cfg s (data ++ encode_azure_lrc k r z data parity bs) f (gr f).
Proof.
  intros Hct Hq Hng Hl. pose proof N as [N1 N2 N3 N4 _ _]. pose proof Hzk as [q Eq].
  assert (Eqk : k / z = q) by (rewrite Eq; apply Z.div_mul; lia). rewrite Eqk in Hq.
  assert (Hgr : forall b, gr b = if b <? k then b / q else if b <? k + r then z else b - (k + r)).
  { intros b. unfold uni_azure_group_of. rewrite Hct, Eqk, local_same. cbn [String.eqb Ascii.eqb Bool.eqb].
    zcases; try reflexivity; lia. }
  assert (Hrange : 0 <= gr f < z).
  { rewrite Hgr. destruct (Z.ltb_spec f k); [split; [apply Z.div_pos; lia|apply Z.div_lt_upper_bound; lia]|]. zcases; lia. }
  apply even_in_group; [exact Hl| |].
  - rewrite Ek, Er, Ez, Hgr, Hct. unfold get_recovery_group_ids. cbn [String.eqb Ascii.eqb Bool.eqb]. unfold azure_recovery_groups.
    rewrite Eqk. zcases; cbn [andb]; zcases; try reflexivity; try (f_equal; lia); lia.
  - intros res Hres. set (g := gr f) in *. unfold decode_single. rewrite Hct. cbn [String.eqb Ascii.eqb Bool.eqb]. f_equal.
    assert (Hcount : 2 <= zlen (rest_of s f g)).
    { change 2 with (zlen [g * q; g * q + 1; k + r + g] - 1). apply (rest_of_count s gr n f g (Hgrp g) Hf eq_refl).
      - repeat constructor; rewrite ?elem_of_cons, ?list_elem_of_singleton, ?elem_of_nil; nia.
      - repeat constructor; try nia; rewrite Hgr; zcases; try nia;
          rewrite ?Z.div_mul by lia; try reflexivity; try lia. rewrite Z.add_comm, Z.div_add, Z.div_small; lia. }
    assert (Hrest : rest_of_group (k + r + z) (local_eq_coef k r (azure_coef k r z) g) f (rest_of s f g)).
    { rewrite <- N4. apply (rest_of_is s gr n f g (Hgrp g) Hf eq_refl). intros b Hb. rewrite Hgr.
      unfold local_eq_coef, azure_coef, even_group. rewrite Eqk. zcases; cbn [andb]; zcases; split; intros; try congruence; try lia; try discriminate. }
    pose proof (in_rest_range g eq_refl) as Hrr. pose proof (read_of_buffers _ _ bs n Hl Hrr) as Hbufs.
    apply (whole_block bs).
    + rewrite Ek, Er, Ez. unfold decode_azure_lrc. cbv zeta.
      replace ((f <? k) || (f >=? k + r)) with true by (rewrite Z.geb_leb; zcases; cbn [orb]; zcases; try reflexivity; lia).
      rewrite xor_repair_len by (assumption || lia). lia.
    + apply Hl, Hf.
    + intros i Hi. rewrite Ek, Er, Ez. apply (azure_repair k r z data parity bs g); auto; try lia. apply read_of_holds.
Qed.
End EvenFamilies.

(** * gLRC *)

Lemma glrc_in_group {K : Kernels} {KL : KernelLaws K} cfg s stripe f :
  let k := cfg_k cfg in let r := cfg_r cfg in let z := cfg_z cfg in let bs := BlockSize (settings cfg) in
  CodeType (settings cfg) = "gLRC" -> 1 <= k -> 0 <= r -> 1 <= z <= k + r -> k + r <= 255 -> st_n s = k + r + z -> 0 <= bs ->
  (forall g, 0 <= g < z -> group_to_blocks s !! g = Some (glrc_build_placement_groups k r z).[g]) ->
  (forall b, 0 <= b < k + r + z -> block_id (blocks s).[b] = b /\ zlen stripe.[b] = bs) ->
  stripe_ok k r z bs stripe -> 0 <= f < k + r + z -> repairs_in_group cfg s stripe f (block_group k r z f).
Proof.
  intros k r z bs Hct Hk Hr Hz Hkr Hn Hbs Hgroups Hb Hok Hf. set (g := block_group k r z f).
  pose proof (block_group_range k r z ltac:(lia) Hr ltac:(lia) f Hf) as Hg. fold g in Hg.
  assert (Hgrp : group_of_stripe s g = (glrc_build_placement_groups k r z).[g]) by (unfold group_of_stripe; rewrite Hgroups by lia; reflexivity).
  assert (Hin : forall b, In b (group_of_stripe s g) <-> 0 <= b < k + r + z /\ block_group k r z b = g).
  { intros b. rewrite Hgrp. split.
    - intros Hb0. assert (0 <= b < k + r + z) by (eapply placement_group_range; eauto; lia). split; [assumption|]. apply placement_group_iff; auto; lia.
    - intros [Hb1 Hb2]. apply placement_group_iff; auto; lia. }
  assert (Hfin : In f (group_of_stripe s g)) by (apply Hin; auto).
  assert (Hrest : forall b, In b (f :: rest_of s f g) <-> In b (group_of_stripe s g)).
  { intros b. unfold rest_of. cbn [In]. rewrite filter_In, negb_true_iff, Z.eqb_neq. destruct (Z.eq_dec b f) as [->|]; [tauto|].
    split; [intros [E|[H _]]; [congruence|exact H]|intros H; right; auto]. }
  split.
  - rewrite Hct. unfold get_recovery_group_ids. cbn [String.eqb Ascii.eqb Bool.eqb]. unfold glrc_recovery_groups, g, block_group. fold k r z.
    destruct (Z.ltb_spec f (k + r)); [reflexivity|]. f_equal. lia.
  - intros E. rewrite E in Hfin. destruct Hfin.
  - apply Forall_forall. intros b Hb0. rewrite Hn. apply Hin, list_elem_of_In, Hb0.
  - rewrite Hn. exact Hb.
  - apply Hb, Hf.
  - intros res Hres. unfold decode_single. rewrite Hct. cbn [String.eqb Ascii.eqb Bool.eqb]. fold k r z bs. f_equal.
    assert (Hnd : NoDup (f :: rest_of s f g)).
    { constructor; [unfold rest_of; rewrite list_elem_of_In, filter_In, negb_true_iff, Z.eqb_neq; tauto|].
      unfold rest_of. rewrite Hgrp. apply NoDup_ListNoDup, List.NoDup_filter, NoDup_ListNoDup, placement_group_nodup; lia. }
    assert (Hcount : 1 <= zlen (rest_of s f g)).
    { assert (Hlen : (length (group_of_stripe s g) <= length (f :: rest_of s f g))%nat).
      { apply List.NoDup_incl_length; [apply NoDup_ListNoDup; rewrite Hgrp; apply placement_group_nodup; lia|]. intros b. apply Hrest. }
      rewrite Hgrp in Hlen. destruct (placement_groups_spec k r z ltac:(lia) Hr ltac:(lia)) as [_ E]. rewrite E in Hlen by lia.
      pose proof (payload_start_step k r z ltac:(lia) Hr ltac:(lia) g ltac:(lia) ltac:(lia)). rewrite length_app in Hlen.
      pose proof (zlen_seqZ (payload_start k r z g) (payload_start k r z (g + 1) - payload_start k r z g)).
      cbn [length] in Hlen. lia. }
    apply (whole_block bs).
    + unfold decode_glrc. cbv zeta. rewrite encode_one_len; rewrite ?zlen_memset; lia.
    + apply Hb, Hf.
    + intros i Hi. apply glrc_repair; auto; try lia; [|apply read_of_holds]. intros b. rewrite Hrest, Hgrp. reflexivity.
Qed.

(** * A range of blocks, each repaired inside its group *)

Lemma collect_forall2 {A B} (F : A -> option B) (P : A -> B -> Prop) l :
  (forall x, In x l -> exists y, F x = Some y /\ P x y) -> exists ys, collect (map F l) = Some ys /\ Forall2 P l ys.
Proof.
  induction l as [|x l IH]; intros H; [exists []; split; [reflexivity|constructor]|].
  destruct (H x (or_introl eq_refl)) as (y & E & Hp). destruct IH as (ys & Ey & Hys); [intros z Hz; apply H; right; exact Hz|].
  exists (y :: ys). cbn [map collect]. rewrite E, Ey. split; [reflexivity|constructor; assumption].
Qed.

Lemma block_id_sent i : 0 <= i < 2 ^ 31 -> uint32 (int32 i) = i.
Proof. intros Hi. unfold uint32, int32. rewrite (Z.mod_small (i + 2 ^ 31)) by lia. rewrite Z.mod_small by lia. lia. Qed.

Lemma degraded_blocks_return {K : Kernels} cfg c st start m client (content : Z -> list byte) :
  0 <= m < 2 ^ 31 -> 0 <= BlockSize (settings cfg) ->
  (forall i, 0 <= i < m -> exists s stripe g, let f := (start + i) mod cfg_k cfg in
     m_stripe_table c !! ((start + i) / cfg_k cfg) = Some s /\ repairs_in_group cfg s stripe f g /\
     survivors st s (co_tables c) stripe f /\ stripe.[f] = content i) ->
  exists calls, getDegradedReadBlocks cfg start (start + m - 1) client c = Some calls /\
    forall bufs, (forall i, buffers_of (BlockSize (settings cfg)) (bufs i)) ->
    exists sent, imap (fun i x => degradedRead2Client cfg st (bufs i) (snd (rc_final x)) []) calls = map Done sent /\
      forall arrivals buf, arrivals ≡ₚ map arrival sent -> zlen buf = m * BlockSize (settings cfg) ->
        client_receive m (BlockSize (settings cfg)) arrivals buf = Some (concat (map content (zseq m))).
Proof.
  intros Hm Hbs Hall. unfold getDegradedReadBlocks. replace (start + m - 1 - start + 1) with m by lia.
  set (out := fun x => (Some (int32 (x - start)), content (x - start))).
  destruct (collect_forall2
    (fun i => degraded_read_one_block_for_workload cfg (i / cfg_k cfg) (i mod cfg_k cfg) client (i - start) c)
    (fun x y => forall b, buffers_of (BlockSize (settings cfg)) b -> degradedRead2Client cfg st b (snd (rc_final y)) [] = Done (out x))
    (seqZ start m)) as (calls & E & Hc).
  { intros x Hx. apply list_elem_of_In, elem_of_seqZ in Hx. destruct (Hall (x - start) ltac:(lia)) as (s & stripe & g & Hs & Hg & Hst & Ec).
    replace (start + (x - start)) with x in * by lia.
    destruct (degraded_plan_in_group cfg c s stripe _ g Hg client (Some (x - start))) as (y & Ey & _ & _ & Hy).
    exists y. unfold degraded_read_one_block_for_workload. rewrite Hs. split; [exact Ey|]. intros b Hb. rewrite Hy by assumption.
    unfold out. rewrite Ec. reflexivity. }
  exists calls. split; [exact E|]. intros bufs Hb. exists (map out (seqZ start m)). split.
  - clear E. revert bufs Hb. induction Hc as [|x y l calls Hxy Hc IH]; intros bufs Hb; [reflexivity|]. cbn [imap map].
    rewrite Hxy by apply Hb. f_equal. apply (IH (fun i => bufs (S i))). intros i. apply Hb.
  - intros arrivals buf Ha Hl. apply receive_all; [lia|exact Hbs|exact Hl| |].
    + rewrite Ha, map_map, <- (shift_zseq start m), map_map by lia. erewrite map_ext_in; [reflexivity|].
      intros x Hx. apply list_elem_of_In, elem_of_seqZ in Hx. unfold arrival, out. cbn [fst snd].
      change (default 0 (Some (int32 (x - start)))) with (int32 (x - start)). rewrite block_id_sent by lia. reflexivity.
    + intros i Hi. destruct (Hall i Hi) as (s & stripe & g & _ & Hg & _ & <-). apply (rg_lost _ _ _ _ _ Hg).
Qed.
