(* ===== verification/MultiRecoverySpec.v ===== *)
(** Repair at one proxy: whatever the network does, a lost block is afterwards
    either as before or restored, and nothing else changes; when the links hold,
    every lost block is restored. *)
From S2P Require Import Prelude GF256 LinAlg GFMatrix EcKernel Groups Codes Decode DecodeSpec RepairPlan RepairPlanSpec RepairGuarantee Text.
From S2P Require Import Toolbox Placement PlacementSpec PlacementLaw Coordinator CoordinatorSpec AppendPlan Client DataNode ProxyAppend ReadPath SingleRepair SingleRepairSpec MultiRecovery.

(** * One read and one write *)

Definition read_holds (bs : Z) (l : ReadLink) : Prop := rl_connected l = true /\ bs <= rl_arrives l.
Definition write_holds (bs : Z) (l : WriteLink) : Prop :=
  wl_connected l = true /\ bs <= wl_arrives l /\ wl_renames l = true /\ wl_answers l = true.

Lemma read_returns bs l st q bytes : 1 <= bs -> stored st q bytes -> zlen bytes = bs ->
  GetFromDatanodeBreakdown bs l st q = None \/ GetFromDatanodeBreakdown bs l st q = Some bytes.
Proof.
  intros Hbs Hst Hl. unfold GetFromDatanodeBreakdown. destruct (rl_connected l); [|auto].
  destruct (handleGetBreakdown_spec (br_key q) bs 0 bs (files_at (br_ip q) (br_port q) st) bytes Hst ltac:(lia) Hbs) as [E _].
  specialize (E ltac:(lia)). assert (E0 : handleGetBreakdown (br_key q) bs 0 0 (files_at (br_ip q) (br_port q) st) = (bytes, true)).
  { rewrite <- (ztake_all bytes bs) by lia. change (zdrop 0 bytes) with bytes in E. rewrite <- E.
    unfold handleGetBreakdown. destruct (Z.leb_spec bs 0); [lia|]. reflexivity. }
  rewrite E0. destruct (Z.ltb_spec (zlen (ztake bs (ztake (rl_arrives l) bytes))) bs) as [|H]; [auto|right]. f_equal.
  unfold ztake in *. rewrite !length_take in H. rewrite (take_ge bytes) by lia. apply take_ge. lia.
Qed.

Lemma read_holds_returns bs l st q bytes : 1 <= bs -> stored st q bytes -> zlen bytes = bs -> read_holds bs l ->
  GetFromDatanodeBreakdown bs l st q = Some bytes.
Proof.
  intros Hbs Hst Hl [H1 H2]. destruct (read_returns bs l st q bytes Hbs Hst Hl) as [E|E]; [|exact E]. exfalso.
  unfold GetFromDatanodeBreakdown in E. rewrite H1 in E.
  destruct (handleGetBreakdown_spec (br_key q) bs 0 bs (files_at (br_ip q) (br_port q) st) bytes Hst ltac:(lia) Hbs) as [E1 _].
  specialize (E1 ltac:(lia)). change (zdrop 0 bytes) with bytes in E1. rewrite ztake_all in E1 by lia.
  replace (handleGetBreakdown (br_key q) bs 0 0 (files_at (br_ip q) (br_port q) st)) with (bytes, true) in E.
  - rewrite (ztake_all bytes (rl_arrives l)), (ztake_all bytes bs) in E by lia. destruct (Z.ltb_spec (zlen bytes) bs); [lia|discriminate].
  - rewrite <- E1. unfold handleGetBreakdown. destruct (Z.leb_spec bs 0); [lia|]. reflexivity.
Qed.

Lemma files_at_insert ip port node d st : files_at ip port (<[node := d]> st) = if bool_decide (node = (ip, port)) then d else files_at ip port st.
Proof.
  unfold files_at. destruct (bool_decide_reflect (node = (ip, port))) as [->|Hne]; [rewrite lookup_insert_eq; reflexivity|].
  rewrite lookup_insert_ne by congruence. reflexivity.
Qed.

Lemma recovery_tmp_ne key tag : recovery_tmp key tag <> key.
Proof.
  unfold recovery_tmp. intros E. apply (f_equal String.length) in E. rewrite !length_string_app in E. cbn in E. lia.
Qed.

(** What a write leaves of the files of its node. *)
Record write_effect (key tmp : string) (bytes : list byte) (stored : bool) (d d' : Files) : Prop := {
  we_key : d' !! key = d !! key \/ d' !! key = Some bytes;
  we_done : stored = true -> d' !! key = Some bytes;
  we_frame : forall path, path <> key -> path <> tmp -> d' !! path = d !! path }.

Lemma temp_gone (tmp path : string) (x y : list byte) (d : Files) : path <> tmp -> delete tmp (<[tmp := x]> (<[tmp := y]> d)) !! path = d !! path.
Proof. intros H. rewrite lookup_delete_ne, !lookup_insert_ne by congruence. reflexivity. Qed.

Lemma recovery_full_effect bs renames key tmp buf m d : key <> tmp -> zlen buf = bs ->
  let '(stored, states) := handleRecoveryFull bs renames key tmp (ztake m (ztake bs buf)) d in
  write_effect key tmp buf stored d (final states d) /\ (bs <= m -> renames = true -> stored = true).
Proof.
  intros Hne Hl. rewrite (ztake_all buf bs) by lia. unfold handleRecoveryFull. destruct (Z.eqb_spec (zlen (ztake m buf)) bs) as [E|E].
  - assert (Eb : ztake m buf = buf) by (unfold ztake in *; rewrite length_take in E; apply take_ge; lia). rewrite Eb.
    destruct renames; unfold final; cbn [last from_option]; unfold id.
    + split; [|auto]. split.
      * right. apply lookup_insert_eq.
      * intros _. apply lookup_insert_eq.
      * intros path H1 H2. rewrite lookup_insert_ne by congruence. apply temp_gone, H2.
    + split; [|discriminate]. split; [left; apply temp_gone, Hne|discriminate|intros path _ H; apply temp_gone, H].
  - unfold final; cbn [last from_option]; unfold id. split.
    + split; [left; apply temp_gone, Hne|discriminate|intros path _ H; apply temp_gone, H].
    + intros Hm _. exfalso. apply E. rewrite ztake_all; lia.
Qed.

Lemma write_effect_refl key tmp bytes d : write_effect key tmp bytes false d d.
Proof. split; auto. discriminate. Qed.

Lemma recovery_write_effect bs l key buf node st written st' : zlen buf = bs ->
  RecoveryToDatanodeBreakdown bs l key buf node st = (written, st') ->
  write_effect key (recovery_tmp key (wl_tag l)) buf written (files_at (fst node) (snd node) st) (files_at (fst node) (snd node) st') /\
  (forall nd, nd <> node -> files_at (fst nd) (snd nd) st' = files_at (fst nd) (snd nd) st) /\
  (write_holds bs l -> written = true).
Proof.
  intros Hl. unfold RecoveryToDatanodeBreakdown. destruct (wl_connected l) eqn:Ec.
  - pose proof (recovery_full_effect bs (wl_renames l) key (recovery_tmp key (wl_tag l)) buf (wl_arrives l) (files_at (fst node) (snd node) st)
      (fun E => recovery_tmp_ne key (wl_tag l) (eq_sym E)) Hl) as H.
    destruct (handleRecoveryFull _ _ _ _ _ _) as [done states]. destruct H as [[H1 H2 H3] H4]. intros [= <- <-].
    split; [|split].
    + rewrite files_at_insert, bool_decide_true by (destruct node; reflexivity). split; [exact H1| |exact H3].
      intros Hd. apply H2. apply andb_prop in Hd. tauto.
    + intros [ip port] Hne. cbn [fst snd]. rewrite files_at_insert, bool_decide_false by congruence. reflexivity.
    + intros (_ & Hm & Hr & Ha). rewrite Ha, H4 by assumption. reflexivity.
  - intros [= <- <-]. split; [apply write_effect_refl|]. split; [reflexivity|]. intros (H & _). congruence.
Qed.

(** What reaches the data node of a stream that broke off. *)
Definition cut_link (m : Z) (l : WriteLink) : WriteLink :=
  {| wl_connected := wl_connected l; wl_arrives := Z.min (wl_arrives l) m; wl_renames := wl_renames l; wl_answers := wl_answers l; wl_tag := wl_tag l |}.

Lemma write_prefix bs l key0 b nd m st : zlen b = bs ->
  RecoveryToDatanodeBreakdown bs l key0 (ztake m b) nd st = RecoveryToDatanodeBreakdown bs (cut_link m l) key0 b nd st.
Proof.
  intros Hl. unfold RecoveryToDatanodeBreakdown. cbn [cut_link wl_connected wl_renames wl_arrives wl_answers wl_tag].
  assert (E : ztake (wl_arrives l) (ztake bs (ztake m b)) = ztake (Z.min (wl_arrives l) m) (ztake bs b)).
  { unfold ztake. rewrite !take_take. f_equal. lia. }
  rewrite E. reflexivity.
Qed.

(** * Writing the lost blocks *)

Definition target_node (x : string * (string * Z) * list byte) : string * Z := snd (fst x).

Lemma write_back_effect bs todo : forall links st written st', NoDup (map target_node todo) -> Forall (fun x => zlen (snd x) = bs) todo ->
  write_back bs links todo st = (written, st') ->
  (forall nd, nd ∉ map target_node todo -> files_at (fst nd) (snd nd) st' = files_at (fst nd) (snd nd) st) /\
  (forall i key node bytes, todo !! i = Some (key, node, bytes) ->
     write_effect key (recovery_tmp key (wl_tag (links i))) bytes written (files_at (fst node) (snd node) st) (files_at (fst node) (snd node) st')) /\
  ((forall i, write_holds bs (links i)) -> written = true).
Proof.
  induction todo as [|[[key node] bytes] todo IH]; intros links st written st' Hnd Hl E; cbn [write_back] in E.
  - injection E as <- <-. split; [reflexivity|]. split; [intros i; discriminate|reflexivity].
  - apply Forall_cons in Hl as [Hl Hrest]. apply NoDup_cons in Hnd as [Hni Hnd]. cbn [target_node fst snd] in Hni.
    destruct (RecoveryToDatanodeBreakdown bs (links O) key bytes node st) as [one st1] eqn:E1.
    destruct (recovery_write_effect _ _ _ _ _ _ _ _ Hl E1) as (W1 & W2 & W3).
    destruct one.
    + destruct (IH _ _ _ _ Hnd Hrest E) as (F1 & F2 & F3). split; [|split].
      * intros nd Hn. rewrite F1 by set_solver. apply W2. set_solver.
      * intros [|i] key' node' bytes' Hi; cbn in Hi.
        -- injection Hi as <- <- <-. rewrite F1 by exact Hni. destruct W1 as [A1 A2 A3]. split; auto.
        -- specialize (F2 i key' node' bytes' Hi). rewrite (W2 node') in F2; [exact F2|]. intros ->. apply Hni, list_elem_of_In, in_map_iff.
           exists (key', node, bytes'). split; [reflexivity|]. apply list_elem_of_In, (list_elem_of_lookup_2 _ _ _ Hi).
      * intros Hh. apply F3. intros i. apply Hh.
    + injection E as <- <-. split; [|split].
      * intros nd Hn. apply W2. set_solver.
      * intros [|i] key' node' bytes' Hi; cbn in Hi.
        -- injection Hi as <- <- <-. exact W1.
        -- rewrite (W2 node'); [apply write_effect_refl|]. intros ->. apply Hni, list_elem_of_In, in_map_iff.
           exists (key', node, bytes'). split; [reflexivity|]. apply list_elem_of_In, (list_elem_of_lookup_2 _ _ _ Hi).
      * intros Hh. apply W3, Hh.
Qed.

(** * The request at the repair proxy *)

(** After a repair every node that lost no block has the files it had, and a node
    that lost one has either not got it back or has exactly the lost bytes. *)
Record recovery_effect (writes : nat -> WriteLink) (s : Stripe) (t : Tables) (stripe : list block) (failed : list Z)
    (done : bool) (st st' : Storage) : Prop := {
  re_other : forall nd, nd ∉ map (replaced_node s t) failed -> files_at (fst nd) (snd nd) st' = files_at (fst nd) (snd nd) st;
  re_block : forall i b, failed !! i = Some b ->
    let key := block_key (blocks s).[b] in let nd := replaced_node s t b in
    write_effect key (recovery_tmp key (wl_tag (writes i))) stripe.[b] done (files_at (fst nd) (snd nd) st) (files_at (fst nd) (snd nd) st') }.

Lemma recovery_effect_none writes s t stripe failed st : recovery_effect writes s t stripe failed false st st.
Proof. split; [reflexivity|]. intros. apply write_effect_refl. Qed.

Lemma collect_either {A B} (F : nat -> A -> option B) (f : A -> B) l : (forall i a, In a l -> F i a = None \/ F i a = Some (f a)) ->
  collect (imap F l) = None \/ collect (imap F l) = Some (map f l).
Proof.
  revert F. induction l as [|a l IH]; intros F H; [right; reflexivity|]. cbn [imap collect map].
  destruct (H O a (or_introl eq_refl)) as [->| ->]; [left; reflexivity|].
  destruct (IH (fun i => F (Datatypes.S i)) (fun i b Hb => H (Datatypes.S i) b (or_intror Hb))) as [E|E]; unfold compose; rewrite E; auto.
Qed.

Lemma collect_everything {A B} (F : nat -> A -> option B) (f : A -> B) l : (forall i a, In a l -> F i a = Some (f a)) ->
  collect (imap F l) = Some (map f l).
Proof.
  revert F. induction l as [|a l IH]; intros F H; [reflexivity|]. cbn [imap collect map]. rewrite (H O a (or_introl eq_refl)).
  unfold compose. rewrite (IH (fun i => F (Datatypes.S i)) (fun i b Hb => H (Datatypes.S i) b (or_intror Hb))). reflexivity.
Qed.

Lemma zip_maps {A B C D} (f : A -> B) (g : A -> C) (h : A -> D) l :
  zip (zip (map f l) (map g l)) (map h l) = map (fun x => (f x, g x, h x)) l.
Proof. induction l as [|x l IH]; cbn; [reflexivity|]. f_equal. exact IH. Qed.

Section AtProxy.
Context {S : StdSort} {K : Kernels} (cfg : SysConfig) (s : Stripe) (t : Tables) (stripe : list block) (failed : list Z) (plan : GlrcIlpRepairPlan).
Notation bs := (BlockSize (settings cfg)).
Notation helpers := (helper_block_ids plan).
Context (Hbs : 1 <= bs) (Hhelpers : helpers <> []) (Hnodes : NoDup (map (replaced_node s t) failed)).
Context (Hlen : Forall (fun b => zlen stripe.[b] = bs) failed).
Context (Hid : Forall (fun b => block_id (blocks s).[b] = b /\ zlen stripe.[b] = bs) helpers).
Context (Hdecode : decode_glrc_ilp (cfg_k cfg) (cfg_r cfg) (cfg_z cfg) bs helpers (map (fun b => stripe.[b]) helpers) failed
  (selected_equation_indices plan) = Some (map (fun b => stripe.[b]) failed)).

Lemma proxy_recovery_effect reads writes anchor st status st' :
  Forall (fun b => stored st (source_block s t b) stripe.[b]) helpers ->
  recoveryBreakdown cfg reads writes (ilp_request s t failed anchor plan) st = (status, st') ->
  recovery_effect writes s t stripe failed (ok status) st st' /\
  ((forall i, read_holds bs (reads i)) -> (forall i, write_holds bs (writes i)) -> status = OK).
Proof.
  intros Hst. unfold recoveryBreakdown. cbv zeta. cbn [ilp_request iq_sources iq_failed_ids iq_equation_indices iq_failed_keys iq_replaced].
  rewrite length_map. destruct (Z.leb_spec (zlen helpers) 0) as [H0|_].
  { exfalso. apply Hhelpers. destruct helpers; [reflexivity|cbn [length] in H0; lia]. }
  set (F := fun (i : nat) b => GetFromDatanodeBreakdown bs (reads i) st b).
  assert (HF : forall q, In q (map (source_block s t) helpers) -> stored st q stripe.[br_id q] /\ zlen stripe.[br_id q] = bs).
  { intros q Hq. apply in_map_iff in Hq as (b & <- & Hb). apply list_elem_of_In in Hb. rewrite Forall_forall in Hid, Hst.
    destruct (Hid b Hb) as [E1 E2]. cbn [source_block request_block br_id]. rewrite E1. split; [apply Hst, Hb|exact E2]. }
  assert (Eids : map br_id (map (source_block s t) helpers) = helpers).
  { rewrite map_map. transitivity (map (fun x => x) helpers); [|apply map_id]. apply map_ext_in. intros b Hb. apply list_elem_of_In in Hb.
    rewrite Forall_forall in Hid. apply Hid, Hb. }
  assert (Ebufs : map (fun q => stripe.[br_id q]) (map (source_block s t) helpers) = map (fun b => stripe.[b]) helpers).
  { rewrite <- Eids at 2. rewrite !map_map. reflexivity. }
  destruct (collect_either F (fun q => stripe.[br_id q]) (map (source_block s t) helpers)) as [E|E].
  { intros i q Hq. destruct (HF q Hq). apply read_returns; auto. }
  - rewrite E. intros [= <- <-]. split; [apply recovery_effect_none|]. intros Hr _. exfalso. unfold F in E.
    rewrite (collect_everything _ (fun q => stripe.[br_id q])) in E; [discriminate|]. intros i q Hq. destruct (HF q Hq). apply read_holds_returns; auto.
  - rewrite E, Eids, Ebufs, Hdecode, zip_maps.
    destruct (write_back _ _ _ _) as [done st1] eqn:Ew. intros [= <- <-].
    match type of Ew with write_back _ _ ?l _ = _ => assert (Etn : map target_node l = map (replaced_node s t) failed) by (rewrite map_map; reflexivity) end.
    destruct (write_back_effect bs _ _ _ _ _ ltac:(rewrite Etn; exact Hnodes) ltac:(apply Forall_map, Hlen) Ew) as (W1 & W2 & W3).
    rewrite Etn in W1. split; [split|].
    + exact W1.
    + intros i b Hi. cbv zeta. specialize (W2 i (block_key (blocks s).[b]) (replaced_node s t b) stripe.[b]).
      replace (ok (if done then OK else _)) with done by (destruct done; reflexivity).
      apply W2. rewrite list_lookup_fmap, Hi. reflexivity.
    + intros _ Hw. rewrite W3 by exact Hw. reflexivity.
Qed.
End AtProxy.

(** * At the coordinator *)

Lemma normalize_idempotent p : glrc_normalize_equation_policy (glrc_normalize_equation_policy p) = glrc_normalize_equation_policy p.
Proof.
  unfold glrc_normalize_equation_policy.
  destruct (String.eqb p "local-then-global" || String.eqb p "ceph-style" || String.eqb p "ceph") eqn:E1; [reflexivity|].
  destruct (String.eqb p "local-first") eqn:E2; [reflexivity|].
  destruct (String.eqb p "global-first" || String.eqb p "hmbr-rule" || String.eqb p "rule-based") eqn:E3; [reflexivity|].
  destruct (String.eqb p "ilp-min-helper" || String.eqb p "ilp" || String.eqb p "") eqn:E4; [reflexivity|].
  rewrite E1, E2, E3, E4. reflexivity.
Qed.

Lemma known_normalized p : known_policy (glrc_normalize_equation_policy p) = known_policy p.
Proof. unfold known_policy. rewrite normalize_idempotent. reflexivity. Qed.

Lemma valid_ids s failed : Forall (fun b => 0 <= b < zlen (blocks s)) failed -> first_invalid s failed = None.
Proof.
  intros H. unfold first_invalid. induction H as [|b l Hb _ IH]; [reflexivity|]. cbn [List.find]. unfold block_invalid.
  destruct (Z.ltb_spec b 0), (Z.leb_spec (zlen (blocks s)) b); try lia. exact IH.
Qed.

Lemma touch_known sid c s : m_stripe_table c !! sid = Some s -> touch_stripe sid c = c.
Proof.
  intros H. unfold touch_stripe, stripe_at. rewrite H. cbn [default]. unfold from_option, id. rewrite insert_id by exact H. destruct c; reflexivity.
Qed.

Section AtCoordinator.
Context {S : StdSort} (cfg : SysConfig) (gs : GlrcSettings) (proxies : gset string) (rpc : string -> IlpRequest -> Storage -> Status * Storage).
Context (modes : string -> Z -> list Z -> Coordinator -> Repair) (c : Coordinator) (sid : Z) (s : Stripe) (failed : list Z).
Context (Hs : m_stripe_table c !! sid = Some s) (Hct : CodeType (settings cfg) = "gLRC").
Context (Hne : failed <> []) (Hvalid : Forall (fun b => 0 <= b < zlen (blocks s)) failed).
Context (Hmode : existsb (String.eqb (GlrcRepairMode gs)) ["phase2"; "pipeline"; "hybrid"; "hmbr"] = false).
Notation plan := (glrc_solve_repair_plan (cfg_k cfg) (cfg_r cfg) (cfg_z cfg) failed (glrc_normalize_equation_policy (GlrcEquationPolicy gs))).
Notation chosen := (repair_proxy_key_for_node (co_tables c) (map2node (blocks s).[failed.[0]])).

Lemma multi_recovery_runs st :
  exists reply, multiBlockRecovery cfg gs proxies rpc modes sid failed c st =
    (if success plan then
       if bool_decide (chosen ∈ proxies) then
         let '(status, st') := rpc chosen (ilp_request s (co_tables c) failed failed.[0] plan) st in
         (match status with OK => OK | Failed _ msg => Failed INTERNAL ("proxy recoveryBreakdown failed: " +:+ msg) end, reply, c, st')
       else (Failed INTERNAL ("repair proxy stub not found: " +:+ chosen), reply, c, st)
     else (Failed INTERNAL (error_message plan), reply, c, st)) /\
    rr_success reply = ok (fst (fst (fst (multiBlockRecovery cfg gs proxies rpc modes sid failed c st)))).
Proof.
  unfold multiBlockRecovery. rewrite Hct, Hmode, (touch_known sid c s Hs). cbn [negb String.eqb Ascii.eqb Bool.eqb].
  destruct (Z.eqb_spec (zlen failed) 0) as [E|_]; [exfalso; apply Hne; destruct failed; [reflexivity|cbn [length] in E; lia]|].
  unfold recovery_glrc_ilp_breakdown. rewrite Hct. cbn [negb String.eqb Ascii.eqb Bool.eqb].
  unfold stripe_at. rewrite Hs. cbn [default]. unfold from_option, id. rewrite (valid_ids s failed Hvalid).
  destruct (success plan); cbn [negb]; [|eexists; split; reflexivity].
  destruct (bool_decide (chosen ∈ proxies)); cbn [negb]; [|eexists; split; reflexivity].
  destruct (rpc chosen (ilp_request s (co_tables c) failed failed.[0] plan) st) as [[|code msg] st']; eexists; split; reflexivity.
Qed.
End AtCoordinator.
