(* ===== verification/Phase2Spec.v ===== *)
(** The sharded repair is safe under every interleaving and every fault, and
    without faults it ends with all blocks restored. *)
From S2P Require Import Prelude GF256 EcKernel Codes Decode ShardPlan Text Toolbox Placement Coordinator Client DataNode ProxyAppend StripeWrite ReadPath.
From S2P Require Import SingleRepair MultiRecovery MultiRecoverySpec Phase2Session.

From Stdlib Require Import Classical_Prop.

(** * The invariant *)

Section Session.
Context {K : Kernels} (bs : Z) (one_proxy_per_host : bool) (listening : Listeners) (calls : list (option (Phase2Request * Prepared))).
Notation f := (zlen calls).

(** The lost blocks and where they go, who owns which shards, and what the
    partitions read from the helpers. *)
Context (blk : list block) (node : Z -> string * Z) (key : Z -> string) (T w : Z) (cb cl : Z -> Z) (peer : Z -> Peer).
Context (H : Z) (range : Z -> Z -> block) (st0 : Storage).

(** The request that partition [p] gets. *)
Record call_ok (p : Z) (q : Phase2Request) : Prop := {
  co_id : pq_partition_id q = p;
  co_total : pq_shard_count q = T;
  co_stripe : pq_stripe_byte_len q = w;
  co_begin : pq_shard_begin q = cb p;
  co_local : pq_shard_count_local q = cl p;
  co_off : pq_byte_off q = cb p * w;
  co_failed : zlen (pq_failed_ids q) = f;
  co_sources : zlen (pq_sources q) = H;
  co_write : phase2_write_enabled q = true;
  co_whole : hybrid_partial_write bs q = false;
  co_key : (pq_failed_keys q).[p] = key p;
  co_node : (pq_replaced q).[p] = node p;
  co_peers : pq_peers q = map peer (List.filter (fun j => negb (j =? p)) (zseq f)) }.

(** A shard of a lost block. *)
Definition shard (t g : Z) : list byte := peek w (g * w) blk.[t].

(** The nodes that do not get a block back have their files. *)
Definition intact (st : Storage) : Prop :=
  forall nd, (forall p, 0 <= p < f -> nd <> node p) -> files_at (fst nd) (snd nd) st = files_at (fst nd) (snd nd) st0.

Context (Hcalls : forall p q pr, 0 <= p < f -> calls.[p] = Some (q, pr) -> call_ok p q).
Context (Hw : 1 <= w) (HT : 1 <= T) (Hbs : T * w = bs) (Hmax : bs < 2 ^ 31).
Context (Hown : forall p, 0 <= p < f -> 0 <= cb p /\ 0 <= cl p /\ cb p + cl p <= T).
Context (Hblk : forall t, 0 <= t < f -> zlen blk.[t] = bs).
Context (Hnode : forall p p', 0 <= p < f -> 0 <= p' < f -> node p = node p' -> p = p').
Context (Hpeer : forall j, 0 <= j < f -> peer_partition_id (peer j) = j /\ peer_shard_begin (peer j) = cb j /\ peer_shard_count (peer j) = cl j).
Context (Hdecode : forall p q pr k P, 0 <= p < f -> calls.[p] = Some (q, pr) -> 0 <= k < cl p ->
  get_bufs P = map (fun i => Some (range p i)) (zseq H) ->
  exists rhs rec, decode_shard q pr k P = (true, (rhs, rec)) /\ forall t, 0 <= t < f -> rec.[t] = shard t (cb p + k)).
Context (Hread : forall p q pr i src bytes st, 0 <= p < f -> calls.[p] = Some (q, pr) -> 0 < cl p -> intact st ->
  0 <= i -> pq_sources q !! Z.to_nat i = Some src -> read_helper bs q src st = Some bytes -> bytes = range p i).

(** The decode pipeline: shards go through slot and worker in order. *)
Definition decoder_ok (L : Z) (d : Decoder) : Prop :=
  let n := decoded_shards d in
  0 <= n /\ next_submit d <= L /\
  match decode_stage d, decode_submit_shard d with
  | Waiting, None => next_submit d = n
  | Waiting, Some k => k = n /\ next_submit d = n + 1
  | (Inflight k | Copied k | Marked k), None => k = n /\ next_submit d = n + 1
  | (Inflight k | Copied k | Marked k), Some k' => k = n /\ k' = n + 1 /\ next_submit d = n + 2
  end.

(** How many shards are in [recovered_ptrs], and announced to the writer. *)
Definition copied (d : Decoder) : Z := decoded_shards d + match decode_stage d with Copied _ | Marked _ => 1 | _ => 0 end.
Definition marked (d : Decoder) : Z := decoded_shards d + match decode_stage d with Marked _ => 1 | _ => 0 end.

(** Shard [g] of block [t] is in the buffers. *)
Definition has (rec : list block) (t g : Z) : Prop := peek w (g * w) rec.[t] = shard t g.

Definition writer_ok (p : Z) (P : Partition) : Prop :=
  let ws := write_stream P in
  0 <= next_shard ws <= T /\
  match writer ws with
  | WriterIdle => streamed ws = ztake (next_shard ws * w) blk.[p] /\ recovery_result ws = None
  | WriterHas k => k = next_shard ws - 1 /\ 0 <= k /\ streamed ws = ztake (k * w) blk.[p] /\ has (recovered_ptrs P) p k /\ recovery_result ws = None
  | WriterClosed => (exists m, streamed ws = ztake m blk.[p]) /\ (exchange_failed P = false -> next_shard ws = T /\ streamed ws = blk.[p])
  end.

Record part_ok (p : Z) (P : Partition) : Prop := {
  po_bufs_len : zlen (get_bufs P) = H;
  po_bufs : forall i bytes, 0 <= i < H -> (get_bufs P).[i] = Some bytes -> bytes = range p i;
  po_decoder : decoder_ok (cl p) (decoder P);
  po_started : 0 < next_submit (decoder P) -> helpers_done P = true;
  po_lens : zlen (recovered_ptrs P) = f /\ forall t, 0 <= t < f -> zlen (recovered_ptrs P).[t] = bs;
  po_local : forall k t, 0 <= k < copied (decoder P) -> 0 <= t < f -> has (recovered_ptrs P) t (cb p + k);
  po_marked : forall k, 0 <= k < marked (decoder P) -> cb p + k ∈ ready (write_stream P);
  po_ex_lens : zlen (sent (exchange P)) = f /\ zlen (received (exchange P)) = f /\ zlen (inbox (exchange P)) = f;
  po_sent : forall j, 0 <= j < f -> 0 <= (sent (exchange P)).[j] <= decoded_shards (decoder P);
  po_received : forall j, 0 <= j < f -> 0 <= (received (exchange P)).[j] <= cl j;
  po_arrived : forall j k, 0 <= j < f -> 0 <= k < (received (exchange P)).[j] ->
    cb j + k ∈ ready (write_stream P) ∪ unmarked (exchange P);
  po_ready : forall g, g ∈ ready (write_stream P) ∪ unmarked (exchange P) -> 0 <= g < T /\ has (recovered_ptrs P) p g;
  po_writer : writer_ok p P;
  po_result : recovery_result (write_stream P) <> None -> writer (write_stream P) = WriterClosed;
  po_returned : pstage P = Returned true -> recovery_result (write_stream P) = Some true }.

(** What is under way from [i] to [p]: the frames sent and not yet received. *)
Definition frame (i p g : Z) : Frame := (make_shard_header i g w, shard p g).
Definition inbox_ok (p i s : Z) (P : Partition) : Prop :=
  (received (exchange P)).[i] <= s /\
  (inbox (exchange P)).[i] = map (fun k => frame i p (cb i + k)) (seqZ (received (exchange P)).[i] (s - (received (exchange P)).[i])).

(** The frames that [i] has sent to [p]. *)
Definition sent_by (s : Session) (i p : Z) : Z := match calls.[i] with Some _ => (sent (exchange (seats s).[i])).[p] | None => 0 end.

Definition storage_ok (s : Session) : Prop :=
  intact (storage s) /\
  forall p, 0 <= p < f ->
    let fs := files_at (fst (node p)) (snd (node p)) in
    match recovery_result (write_stream (seats s).[p]) with
    | None => fs (storage s) = fs st0
    | Some done => exists tag, write_effect (key p) (recovery_tmp (key p) tag) blk.[p] done (fs st0) (fs (storage s))
    end.

Record session_ok (s : Session) : Prop := {
  so_len : zlen (seats s) = f;
  so_part : forall p q pr, 0 <= p < f -> calls.[p] = Some (q, pr) -> part_ok p (seats s).[p];
  so_inbox : forall p q pr i, 0 <= p < f -> calls.[p] = Some (q, pr) -> 0 <= i < f -> i <> p -> inbox_ok p i (sent_by s i p) (seats s).[p];
  so_storage : storage_ok s }.

(** ** Shards in buffers *)

Lemma shard_len t g : 0 <= t < f -> 0 <= g < T -> zlen (shard t g) = w.
Proof. intros Ht Hg. apply peek_len; [nia|lia|]. rewrite Hblk by exact Ht. nia. Qed.

Lemma poke_shard t g g' row : 0 <= t < f -> 0 <= g < T -> 0 <= g' < T -> zlen row = bs ->
  peek w (g' * w) (poke (g * w) (ztake w (shard t g)) row) = if g' =? g then shard t g else peek w (g' * w) row.
Proof.
  intros Ht Hg Hg' Hl. pose proof (shard_len t g Ht Hg) as E. rewrite ztake_all by lia. apply peek_poke; nia || assumption.
Qed.

Lemma poke_shard_len t g row : 0 <= t < f -> 0 <= g < T -> zlen row = bs -> zlen (poke (g * w) (ztake w (shard t g)) row) = bs.
Proof. intros Ht Hg Hl. pose proof (shard_len t g Ht Hg) as E. rewrite ztake_all by lia. rewrite poke_len; nia. Qed.

(** A buffer into which more shards of the block were written. *)
Lemma has_poke t g rec rec' t' g' : 0 <= t < f -> 0 <= g < T -> 0 <= g' < T -> zlen rec.[t] = bs ->
  rec'.[t] = poke (g * w) (ztake w (shard t g)) rec.[t] -> (t' <> t -> rec'.[t'] = rec.[t']) -> has rec t' g' -> has rec' t' g'.
Proof.
  unfold has. intros Ht Hg Hg' Hl E1 E2 Hh. destruct (Z.eq_dec t' t) as [->|Hne]; [|rewrite E2 by exact Hne; exact Hh].
  rewrite E1, poke_shard by assumption. destruct (Z.eqb_spec g' g) as [->|]; [reflexivity|exact Hh].
Qed.

Lemma has_poked t g rec rec' : 0 <= t < f -> 0 <= g < T -> zlen rec.[t] = bs ->
  rec'.[t] = poke (g * w) (ztake w (shard t g)) rec.[t] -> has rec' t g.
Proof. unfold has. intros Ht Hg Hl ->. rewrite poke_shard, Z.eqb_refl by assumption. reflexivity. Qed.

(** Shards written in order make a prefix of the block. *)
Lemma shards_snoc t g : 0 <= t < f -> 0 <= g < T -> ztake (g * w) blk.[t] ++ shard t g = ztake ((g + 1) * w) blk.[t].
Proof. intros Ht Hg. unfold shard. rewrite peek_snoc by nia. f_equal. lia. Qed.

Lemma shards_part t g m : 0 <= t < f -> 0 <= g < T -> exists m', ztake (g * w) blk.[t] ++ ztake m (shard t g) = ztake m' blk.[t].
Proof. intros Ht Hg. apply peek_part; nia. Qed.

Lemma frame_received i p g : 0 <= p < f -> 0 <= g < T -> receive_shard w g (frame i p g) = Some (shard p g).
Proof.
  intros Hp Hg. assert (Hu : forall x, 0 <= x <= bs -> u32 x = x) by (intros x Hx; apply Z.mod_small; lia).
  unfold receive_shard, frame, recv_shard_frame, make_shard_header. cbn [hdr_magic hdr_shard_count hdr_stripe_byte_len hdr_shard_begin].
  rewrite !Hu by nia. rewrite Z.eqb_refl. change (1 <? 1) with false. change (1 =? 1) with true.
  destruct (Z.eqb_spec w 0); [lia|]. rewrite Z.gtb_ltb. destruct (Z.ltb_spec w (w * 1)); [lia|]. cbn [negb orb mbind option_bind hdr_shard_begin hdr_shard_count].
  rewrite !Hu by nia. unfold int_of_u32. destruct (Z.ltb_spec g (2 ^ 31)); [|nia]. rewrite Z.eqb_refl. reflexivity.
Qed.

(** ** The steps of a partition *)

Lemma part_ok_recovered p rec P : part_ok p P -> zlen rec = f -> (forall t, 0 <= t < f -> zlen rec.[t] = bs) ->
  (forall t g, 0 <= t < f -> 0 <= g < T -> has (recovered_ptrs P) t g -> has rec t g) -> 0 <= p < f ->
  part_ok p (with_recovered rec P).
Proof.
  intros [A1 A2 A3 A4 A5 A6 A7 A8 A9 A10 A11 A12 A13 A14 A15] L1 L2 Hm Hp. pose proof (Hown p Hp) as (O1 & O2 & O3).
  split; cbn [with_recovered get_bufs decoder recovered_ptrs write_stream exchange pstage exchange_failed]; auto.
  - intros k t Hk Ht. apply Hm; [exact Ht| |apply A6; assumption]. destruct A3 as (D1 & D2 & D3). unfold copied in Hk.
    destruct (decode_stage (decoder P)), (decode_submit_shard (decoder P)); lia.
  - intros g Hg. destruct (A12 g Hg) as [B1 B2]. split; [exact B1|]. apply Hm; assumption.
  - destruct A13 as [W1 W2]. split; [exact W1|]. cbn [with_recovered write_stream]. destruct (writer (write_stream P)); auto.
    destruct W2 as (W2 & W3 & W4 & W5 & W6). repeat (split; [assumption|]). split; [|assumption].
    cbn [with_recovered recovered_ptrs]. apply Hm; auto. lia.
Qed.

Lemma part_ok_decoder p d P : part_ok p P -> decoder_ok (cl p) d -> (0 < next_submit d -> helpers_done P = true) ->
  (forall k t, 0 <= k < copied d -> 0 <= t < f -> has (recovered_ptrs P) t (cb p + k)) ->
  (forall k, 0 <= k < marked d -> cb p + k ∈ ready (write_stream P)) -> decoded_shards (decoder P) <= decoded_shards d ->
  part_ok p (with_decoder d P).
Proof.
  intros [A1 A2 A3 A4 A5 A6 A7 A8 A9 A10 A11 A12 A13 A14 A15] B1 B2 B3 B4 B5.
  split; cbn [with_decoder get_bufs decoder recovered_ptrs write_stream exchange pstage exchange_failed]; auto.
  intros j Hj. specialize (A9 j Hj). lia.
Qed.

Lemma part_ok_marked p q g P : part_ok p P -> call_ok p q -> 0 <= g < T -> has (recovered_ptrs P) p g ->
  let P' := with_stream (mark_write_shard_ready q g (write_stream P)) P in part_ok p P' /\ g ∈ ready (write_stream P').
Proof.
  intros [A1 A2 A3 A4 A5 A6 A7 A8 A9 A10 A11 A12 A13 A14 A15] Hq Hg Hh. unfold mark_write_shard_ready. rewrite (co_total _ _ Hq).
  destruct (Z.ltb_spec g 0); [lia|]. rewrite Z.geb_leb. destruct (Z.leb_spec T g); [lia|]. cbn [orb]. split; [|set_solver].
  split; cbn [with_stream get_bufs decoder recovered_ptrs write_stream exchange pstage exchange_failed ready recovery_result writer]; auto.
  - set_solver.
  - intros j k Hj Hk. specialize (A11 j k Hj Hk). set_solver.
  - intros g' Hg'. destruct (decide (g' = g)) as [->|]; [auto|]. apply A12. set_solver.
Qed.

(** Only the writer's part of the stream changes. *)
Lemma part_ok_writer p ws fl P : part_ok p P -> ready ws = ready (write_stream P) ->
  let P' := {| pstage := pstage P; exchange_failed := fl; get_bufs := get_bufs P; recovered_ptrs := recovered_ptrs P;
               decoder := decoder P; exchange := exchange P; write_stream := ws |} in
  writer_ok p P' -> (recovery_result ws <> None -> writer ws = WriterClosed) ->
  (pstage P = Returned true -> recovery_result ws = Some true) -> part_ok p P'.
Proof.
  intros [A1 A2 A3 A4 A5 A6 A7 A8 A9 A10 A11 A12 A13 A14 A15] Hr P' W1 W2 W3.
  split; subst P'; cbn [get_bufs decoder recovered_ptrs write_stream exchange pstage exchange_failed]; rewrite ?Hr; auto.
Qed.

Lemma helpers_all p P : part_ok p P -> 0 <= H -> helpers_done P = true -> get_bufs P = map (fun i => Some (range p i)) (zseq H).
Proof.
  intros HP HH Hd. apply zlist_ext; [rewrite length_map, zlen_seqZ, (po_bufs_len _ _ HP); lia|].
  intros i Hi. rewrite (po_bufs_len _ _ HP) in Hi. rewrite zget_map by (rewrite zlen_seqZ; lia). rewrite zget_zseq by lia.
  unfold helpers_done in Hd. rewrite forallb_forall in Hd. specialize (Hd (get_bufs P).[i] (zget_In _ _ ltac:(rewrite (po_bufs_len _ _ HP); exact Hi))).
  destruct (get_bufs P).[i] as [bytes|] eqn:E; [|discriminate]. rewrite (po_bufs _ _ HP i bytes Hi E). reflexivity.
Qed.

(** The worker's shard is one of its own. *)
Lemma inflight_range p P k : part_ok p P -> (decode_stage (decoder P) = Inflight k \/ decode_stage (decoder P) = Copied k \/ decode_stage (decoder P) = Marked k) ->
  k = decoded_shards (decoder P) /\ 0 <= k < cl p /\ helpers_done P = true.
Proof.
  intros HP Hs. destruct (po_decoder _ _ HP) as (D1 & D2 & D3). pose proof (po_started _ _ HP) as D4.
  destruct (decode_stage (decoder P)), (decode_submit_shard (decoder P)); destruct Hs as [[= ->]|[[= ->]|[= ->]]];
    (split; [lia|]); (split; [lia|]); apply D4; lia.
Qed.

Definition peers_ok (p : Z) (P : Partition) : Prop := forall i, 0 <= i < f -> i <> p -> exists s, inbox_ok p i s P.

(** What a step of a partition leaves to the others. *)
Record step_effect (p : Z) (P P' : Partition) : Prop := {
  se_part : part_ok p P';
  se_sent : sent (exchange P') = sent (exchange P);
  se_result : recovery_result (write_stream P') = recovery_result (write_stream P);
  se_inbox : forall i s, 0 <= i < f -> i <> p -> inbox_ok p i s P -> inbox_ok p i s P' }.

Lemma quiet_step p P P' : part_ok p P' -> exchange P' = exchange P ->
  recovery_result (write_stream P') = recovery_result (write_stream P) -> step_effect p P P'.
Proof. intros H1 H2 H3. split; auto; [rewrite H2; reflexivity|]. intros i s Hi Hne. unfold inbox_ok. rewrite H2. auto. Qed.

Section Step.
Context (p : Z) (q : Phase2Request) (pr : Prepared) (P : Partition) (Hp : 0 <= p < f) (Hc : calls.[p] = Some (q, pr)) (HP : part_ok p P).

Lemma stage_effect x : (x = Returned true -> recovery_result (write_stream P) = Some true) -> step_effect p P (with_stage x P).
Proof.
  intros Hx. apply quiet_step; [|reflexivity|reflexivity]. destruct HP as [A1 A2 A3 A4 A5 A6 A7 A8 A9 A10 A11 A12 A13 A14 A15].
  split; cbn [with_stage get_bufs decoder recovered_ptrs write_stream exchange pstage exchange_failed]; auto.
Qed.

Lemma fail_effect : step_effect p P (fail_exchange P).
Proof.
  apply quiet_step; [|reflexivity|reflexivity]. destruct HP as [A1 A2 A3 A4 A5 A6 A7 A8 A9 A10 A11 A12 A13 A14 A15].
  split; cbn [fail_exchange get_bufs decoder recovered_ptrs write_stream exchange pstage exchange_failed]; auto.
  destruct A13 as [W1 W2]. split; [exact W1|]. cbn [fail_exchange write_stream exchange_failed].
  destruct (writer (write_stream P)); auto. destruct W2 as [W2 _]. split; [exact W2|discriminate].
Qed.

Lemma submit_effect : helpers_done P = true -> decode_submit_shard (decoder P) = None -> next_submit (decoder P) < pq_shard_count_local q ->
  let d := decoder P in
  step_effect p P (with_decoder {| next_submit := next_submit d + 1; decode_submit_shard := Some (next_submit d);
    decode_stage := decode_stage d; decoded_shards := decoded_shards d; decode_rhs := decode_rhs d; shard_recovered := shard_recovered d |} P).
Proof.
  intros Hh Hs Hn d. subst d. rewrite (co_local _ _ (Hcalls _ _ _ Hp Hc)) in Hn. pose proof (po_decoder _ _ HP) as (D1 & D2 & D3).
  apply quiet_step; [|reflexivity|reflexivity]. apply part_ok_decoder; cbn [next_submit decoded_shards]; auto; try lia.
  - split; [exact D1|]. split; [cbn [next_submit]; lia|]. cbn [next_submit decode_stage decode_submit_shard decoded_shards].
    rewrite Hs in D3. destruct (decode_stage (decoder P)); lia.
  - apply (po_local _ _ HP).
  - apply (po_marked _ _ HP).
Qed.

Lemma take_effect k : decode_submit_shard (decoder P) = Some k -> decode_stage (decoder P) = Waiting ->
  let d := decoder P in
  step_effect p P (with_decoder {| next_submit := next_submit d; decode_submit_shard := None; decode_stage := Inflight k;
    decoded_shards := decoded_shards d; decode_rhs := decode_rhs d; shard_recovered := shard_recovered d |} P).
Proof.
  intros Hk Hs d. subst d. pose proof (po_decoder _ _ HP) as (D1 & D2 & D3). rewrite Hk, Hs in D3.
  apply quiet_step; [|reflexivity|reflexivity]. apply part_ok_decoder; cbn [next_submit decoded_shards]; auto; try lia.
  - split; [exact D1|]. split; [exact D2|]. exact D3.
  - apply (po_started _ _ HP).
  - intros i t Hi Ht. apply (po_local _ _ HP); [|exact Ht]. unfold copied in *. rewrite Hs. cbn in Hi |- *. lia.
  - intros i Hi. apply (po_marked _ _ HP). unfold marked in *. rewrite Hs. cbn in Hi |- *. lia.
Qed.

Lemma copy_decoded_get k rec t : 0 <= t < f ->
  (copy_decoded q k rec (recovered_ptrs P)).[t] = poke ((cb p + k) * w) (ztake w rec.[t]) (recovered_ptrs P).[t].
Proof.
  intros Ht. unfold copy_decoded. pose proof (Hcalls _ _ _ Hp Hc) as Q. rewrite (co_failed _ _ Q), (co_off _ _ Q), (co_stripe _ _ Q).
  rewrite zget_map by (rewrite zlen_seqZ; lia). rewrite zget_zseq by lia. f_equal. lia.
Qed.

Lemma decode_effect k rhs rec : decode_stage (decoder P) = Inflight k -> decode_shard q pr k P = (true, (rhs, rec)) ->
  let d := decoder P in
  step_effect p P (with_recovered (copy_decoded q k rec (recovered_ptrs P))
    (with_decoder {| next_submit := next_submit d; decode_submit_shard := decode_submit_shard d; decode_stage := Copied k;
      decoded_shards := decoded_shards d; decode_rhs := rhs; shard_recovered := rec |} P)).
Proof.
  intros Hs Hd d. subst d. pose proof (Hcalls _ _ _ Hp Hc) as Q. destruct (inflight_range p P k HP (or_introl Hs)) as (E & Hk & Hh).
  assert (HH : 0 <= H) by (rewrite <- (po_bufs_len _ _ HP); lia).
  destruct (Hdecode p q pr k P Hp Hc Hk (helpers_all p P HP HH Hh)) as (rhs' & rec' & E' & Hrec). rewrite Hd in E'. injection E' as <- <-.
  pose proof (Hown p Hp) as (O1 & O2 & O3). destruct (po_lens _ _ HP) as [L1 L2].
  assert (Hget : forall t, 0 <= t < f -> (copy_decoded q k rec (recovered_ptrs P)).[t]
                   = poke ((cb p + k) * w) (ztake w (shard t (cb p + k))) (recovered_ptrs P).[t]).
  { intros t Ht. rewrite copy_decoded_get, Hrec by exact Ht. reflexivity. }
  assert (Hmono : forall t g, 0 <= t < f -> 0 <= g < T -> has (recovered_ptrs P) t g -> has (copy_decoded q k rec (recovered_ptrs P)) t g).
  { intros t g Ht Hg. apply (has_poke t (cb p + k)); auto; try lia; contradiction. }
  apply quiet_step; [|reflexivity|reflexivity].
  assert (HPr : part_ok p (with_recovered (copy_decoded q k rec (recovered_ptrs P)) P)).
  { apply part_ok_recovered; [exact HP| | |exact Hmono|exact Hp].
    - unfold copy_decoded. rewrite length_map, zlen_seqZ, (co_failed _ _ Q). lia.
    - intros t Ht. rewrite Hget by exact Ht. apply poke_shard_len; auto; lia. }
  match goal with |- part_ok p (with_recovered ?r ?Q0) => change (with_recovered r Q0) with (with_decoder (decoder Q0) (with_recovered r P)) end.
  pose proof (po_decoder _ _ HP) as (D1 & D2 & D3).
  apply part_ok_decoder; cbn [next_submit decoded_shards with_decoder with_recovered decoder recovered_ptrs write_stream]; auto; try lia.
  - split; [exact D1|]. split; [exact D2|]. cbn [next_submit decode_stage decode_submit_shard decoded_shards].
    rewrite Hs in D3. exact D3.
  - intros i t Hi Ht. unfold copied in Hi. cbn [decoded_shards decode_stage] in Hi.
    destruct (Z.eq_dec i k) as [->|Hne]; [apply (has_poked t (cb p + k) (recovered_ptrs P)); auto; lia|].
    apply Hmono; [exact Ht|lia|]. apply (po_local _ _ HP); [|exact Ht]. unfold copied. rewrite Hs. lia.
  - intros i Hi. apply (po_marked _ _ HP). unfold marked in *. rewrite Hs. cbn in Hi |- *. lia.
Qed.

Lemma mark_effect k : decode_stage (decoder P) = Copied k ->
  let d := decoder P in
  step_effect p P (with_stream (mark_write_shard_ready q (pq_shard_begin q + k) (write_stream P))
    (with_decoder {| next_submit := next_submit d; decode_submit_shard := decode_submit_shard d; decode_stage := Marked k;
      decoded_shards := decoded_shards d; decode_rhs := decode_rhs d; shard_recovered := shard_recovered d |} P)).
Proof.
  intros Hs d. subst d. pose proof (Hcalls _ _ _ Hp Hc) as Q. rewrite (co_begin _ _ Q).
  destruct (inflight_range p P k HP (or_intror (or_introl Hs))) as (E & Hk & Hh). pose proof (Hown p Hp) as (O1 & O2 & O3).
  pose proof (po_decoder _ _ HP) as (D1 & D2 & D3). rewrite Hs in D3.
  destruct (part_ok_marked p q (cb p + k) P HP Q) as [M1 M2]; [lia| |].
  { apply (po_local _ _ HP); [|exact Hp]. unfold copied. rewrite Hs. lia. }
  set (ws := mark_write_shard_ready q (cb p + k) (write_stream P)) in *.
  apply quiet_step; [|reflexivity|cbn; unfold ws, mark_write_shard_ready; destruct (_ || _); reflexivity].
  match goal with |- part_ok p (with_stream ?r ?Q0) => change (with_stream r Q0) with (with_decoder (decoder Q0) (with_stream r P)) end.
  apply part_ok_decoder; cbn [next_submit decoded_shards with_decoder with_stream decoder recovered_ptrs write_stream]; auto; try lia.
  - split; [exact D1|]. split; [exact D2|]. exact D3.
  - intros i t Hi Ht. apply (po_local _ _ HP); [|exact Ht]. unfold copied in *. rewrite Hs. exact Hi.
  - intros i Hi. unfold marked in Hi. cbn in Hi. destruct (Z.eq_dec i k) as [->|Hne]; [exact M2|].
    apply (po_marked _ _ M1). unfold marked. cbn [with_stream decoder]. rewrite Hs. lia.
Qed.

Lemma decoded_effect k : decode_stage (decoder P) = Marked k ->
  let d := decoder P in
  step_effect p P (with_decoder {| next_submit := next_submit d; decode_submit_shard := decode_submit_shard d;
    decode_stage := Waiting; decoded_shards := k + 1; decode_rhs := decode_rhs d; shard_recovered := shard_recovered d |} P).
Proof.
  intros Hs d. subst d. pose proof (po_decoder _ _ HP) as (D1 & D2 & D3). rewrite Hs in D3.
  destruct (inflight_range p P k HP (or_intror (or_intror Hs))) as (E & Hk & Hh).
  apply quiet_step; [|reflexivity|reflexivity].
  apply part_ok_decoder; cbn [next_submit decoded_shards]; auto; try lia.
  - split; [cbn; lia|]. split; [exact D2|]. cbn [decode_stage decode_submit_shard next_submit decoded_shards].
    destruct (decode_submit_shard (decoder P)); lia.
  - intros i t Hi Ht. apply (po_local _ _ HP); [|exact Ht]. unfold copied in *. rewrite Hs. cbn in Hi. lia.
  - intros i Hi. apply (po_marked _ _ HP). unfold marked in *. rewrite Hs. cbn in Hi. lia.
Qed.

Lemma in_peers x : In x (pq_peers q) <-> exists j, 0 <= j < f /\ j <> p /\ x = peer j.
Proof.
  rewrite (co_peers _ _ (Hcalls _ _ _ Hp Hc)), in_map_iff. split.
  - intros (j & <- & Hj). apply filter_In in Hj as [Hj Hne]. apply in_zseq in Hj. exists j. destruct (Z.eqb_spec j p); [discriminate|auto].
  - intros (j & Hj & Hne & ->). exists j. split; [reflexivity|]. apply filter_In. split; [apply in_zseq, Hj|]. destruct (Z.eqb_spec j p); [contradiction|reflexivity].
Qed.

Lemma peer_found j : 0 <= j < f -> j <> p -> lookup_peer_shards q j = Some (peer j).
Proof.
  intros Hj Hne. unfold lookup_peer_shards. rewrite (co_peers _ _ (Hcalls p q pr Hp Hc)).
  assert (Hin : In j (List.filter (fun j => negb (j =? p)) (zseq f))).
  { apply filter_In. split; [apply in_zseq, Hj|apply negb_true_iff, Z.eqb_neq, Hne]. }
  assert (Hall : forall i, In i (List.filter (fun j => negb (j =? p)) (zseq f)) -> 0 <= i < f).
  { intros i Hi. apply filter_In in Hi as [Hi _]. apply in_zseq, Hi. }
  induction (List.filter _ _) as [|i l IH]; [destruct Hin|]. cbn [map List.find]. destruct (Hpeer i (Hall i (or_introl eq_refl))) as (-> & _).
  destruct (Z.eqb_spec i j) as [->|Hij]; [reflexivity|]. apply IH; [destruct Hin; [contradiction|assumption]|intros; apply Hall; right; assumption].
Qed.

(** The frame that is waited for is the one that comes: it is never refused. *)
Lemma received_frame x fr rest : peers_ok p P -> In x (pq_peers q) -> let j := peer_partition_id x in
  (inbox (exchange P)).[j] = fr :: rest -> (received (exchange P)).[j] < peer_shard_count x ->
  exists i, 0 <= i < f /\ i <> p /\ j = i /\ x = peer i /\ 0 <= cb i + (received (exchange P)).[i] < T /\
    receive_shard (pq_stripe_byte_len q) (peer_shard_begin x + (received (exchange P)).[j]) fr = Some (shard p (cb i + (received (exchange P)).[i])).
Proof.
  intros Hin Hx j. subst j. apply in_peers in Hx as (i & Hi & Hne & ->). destruct (Hpeer i Hi) as (-> & -> & ->). intros E Hr.
  destruct (Hin i Hi Hne) as (s & I1 & I2). pose proof (po_received _ _ HP i Hi) as R. pose proof (Hown i Hi) as (O1 & O2 & O3).
  exists i. repeat (split; [first [assumption | reflexivity | lia]|]). rewrite (co_stripe _ _ (Hcalls _ _ _ Hp Hc)).
  rewrite E in I2. destruct (Z.eq_dec s (received (exchange P)).[i]) as [->|Hs]; [rewrite Z.sub_diag in I2; discriminate|].
  rewrite seqZ_cons in I2 by lia. cbn [map] in I2. injection I2 as -> _. apply frame_received; [exact Hp|lia].
Qed.

Lemma receive_effect x fr rest payload : peers_ok p P -> In x (pq_peers q) -> let j := peer_partition_id x in let e := exchange P in
  (inbox e).[j] = fr :: rest -> (received e).[j] < peer_shard_count x -> let g := peer_shard_begin x + (received e).[j] in
  receive_shard (pq_stripe_byte_len q) g fr = Some payload -> let me := pq_partition_id q in
  step_effect p P (with_recovered (recovered_ptrs P).[me <- poke (g * pq_stripe_byte_len q) (ztake (pq_stripe_byte_len q) payload) (recovered_ptrs P).[me]]
    (with_exchange {| connected := connected e; sent := sent e; received := (received e).[j <- (received e).[j] + 1];
      inbox := (inbox e).[j <- rest]; unmarked := {[g]} ∪ unmarked e |} P)).
Proof.
  intros Hin Hx j e E Hr g Hg me. destruct (received_frame x fr rest Hin Hx E Hr) as (i & Hi & Hne & Ej & -> & Hgi & Hg').
  pose proof (Hcalls _ _ _ Hp Hc) as Q. fold j e g in Hg'. rewrite Hg in Hg'. injection Hg' as ->.
  assert (Eg : g = cb i + (received (exchange P)).[i]) by (unfold g, e, j; destruct (Hpeer i Hi) as (-> & -> & _); reflexivity).
  clearbody g. subst j e me g. rewrite (co_id _ _ Q), (co_stripe _ _ Q). rewrite Ej in *. set (g := cb i + (received (exchange P)).[i]) in *.
  destruct (Hpeer i Hi) as (_ & _ & Ecl). rewrite Ecl in Hr.
  destruct (po_lens _ _ HP) as [L1 L2]. destruct (po_ex_lens _ _ HP) as (X1 & X2 & X3). pose proof (po_received _ _ HP i Hi) as R.
  set (rec := (recovered_ptrs P).[p <- poke (g * w) (ztake w (shard p g)) (recovered_ptrs P).[p]]).
  assert (Hrp : rec.[p] = poke (g * w) (ztake w (shard p g)) (recovered_ptrs P).[p]) by (apply zget_zset_eq; lia).
  assert (Hmono : forall t g', 0 <= t < f -> 0 <= g' < T -> has (recovered_ptrs P) t g' -> has rec t g').
  { intros t g' Ht Hg''. apply (has_poke p g); auto. intros Hne'. unfold rec. apply zget_zset_ne. congruence. }
  assert (Hhas : has rec p g) by (apply (has_poked p g (recovered_ptrs P)); auto).
  assert (HPr : part_ok p (with_recovered rec P)).
  { apply part_ok_recovered; auto; [unfold rec; rewrite zlen_zset; exact L1|]. intros t Ht. unfold rec. rewrite zget_zset by lia.
    destruct (Z.eqb_spec t p) as [->|]; [apply poke_shard_len; auto|apply L2, Ht]. }
  split; [|reflexivity|reflexivity|].
  - destruct HPr as [A1 A2 A3 A4 A5 A6 A7 A8 A9 A10 A11 A12 A13 A14 A15].
    split; cbn [with_recovered with_exchange get_bufs decoder recovered_ptrs write_stream exchange pstage exchange_failed sent received inbox unmarked] in *; auto.
    + rewrite !zlen_zset. auto.
    + intros j Hj. rewrite zget_zset by lia. destruct (Z.eqb_spec j i) as [->|]; [lia|apply A10, Hj].
    + intros j k Hj Hk. rewrite zget_zset in Hk by lia. destruct (Z.eqb_spec j i) as [->|].
      * destruct (Z.eq_dec k (received (exchange P)).[i]) as [->|]; [set_solver|]. specialize (A11 i k Hi ltac:(lia)). set_solver.
      * specialize (A11 j k Hj Hk). set_solver.
    + intros g' Hg''. destruct (decide (g' = g)) as [->|]; [auto|]. apply A12. set_solver.
  - intros j s Hj Hnej [I1 I2]. unfold inbox_ok. cbn [with_recovered with_exchange exchange received inbox].
    destruct (Z.eq_dec j i) as [->|Hji].
    + rewrite !zget_zset_eq by lia. assert (Hs : s <> (received (exchange P)).[i]) by (intros ->; rewrite E, Z.sub_diag in I2; discriminate).
      rewrite E, seqZ_cons in I2 by lia. cbn [map] in I2. injection I2 as _ ->. split; [lia|]. f_equal. f_equal; lia.
    + rewrite !zget_zset_ne by congruence. split; assumption.
Qed.

Lemma mark_received_effect g : g ∈ unmarked (exchange P) -> let e := exchange P in
  step_effect p P (with_stream (mark_write_shard_ready q g (write_stream P))
    (with_exchange {| connected := connected e; sent := sent e; received := received e; inbox := inbox e; unmarked := unmarked e ∖ {[g]} |} P)).
Proof.
  intros Hg e. subst e. destruct (po_ready _ _ HP g ltac:(set_solver)) as [G1 G2].
  destruct (part_ok_marked p q g P HP (Hcalls _ _ _ Hp Hc) G1 G2) as [M1 M2].
  set (ws := mark_write_shard_ready q g (write_stream P)) in *.
  split; [|reflexivity|cbn; unfold ws, mark_write_shard_ready; destruct (_ || _); reflexivity|].
  - destruct M1 as [A1 A2 A3 A4 A5 A6 A7 A8 A9 A10 A11 A12 A13 A14 A15].
    split; cbn [with_stream with_exchange get_bufs decoder recovered_ptrs write_stream exchange pstage exchange_failed sent received inbox unmarked] in *; auto.
    + intros j k Hj Hk. destruct (decide (cb j + k = g)) as [->|]; [set_solver|]. specialize (A11 j k Hj Hk). set_solver.
    + intros g' Hg'. apply A12. set_solver.
  - intros i s Hi Hne. auto.
Qed.

Lemma shard_bytes_ok k : 0 <= k < T -> has (recovered_ptrs P) p k -> shard_bytes q (pq_partition_id q) k P = shard p k.
Proof.
  intros Hk Hh. pose proof (Hcalls _ _ _ Hp Hc) as Q. unfold shard_bytes. rewrite (co_id _ _ Q), (co_stripe _ _ Q). exact Hh.
Qed.

Lemma writer_effect ws fl : ready ws = ready (write_stream P) -> recovery_result ws = recovery_result (write_stream P) ->
  let P' := {| pstage := pstage P; exchange_failed := fl; get_bufs := get_bufs P; recovered_ptrs := recovered_ptrs P;
               decoder := decoder P; exchange := exchange P; write_stream := ws |} in
  writer_ok p P' -> (recovery_result ws <> None -> writer ws = WriterClosed) -> step_effect p P P'.
Proof.
  intros H1 H2 P' W1 W2. apply quiet_step; [|reflexivity|exact H2]. apply part_ok_writer; auto.
  rewrite H2. apply (po_returned _ _ HP).
Qed.

Lemma writer_takes_effect : let ws := write_stream P in
  writer ws = WriterIdle -> next_shard ws < pq_shard_count q -> next_shard ws ∈ ready ws ->
  step_effect p P (with_stream {| ready := ready ws; next_shard := next_shard ws + 1; writer := WriterHas (next_shard ws);
    streamed := streamed ws; recovery_result := recovery_result ws |} P).
Proof.
  intros ws Hi Hn Hr. subst ws. rewrite (co_total _ _ (Hcalls _ _ _ Hp Hc)) in Hn.
  destruct (po_writer _ _ HP) as [W1 W2]. rewrite Hi in W2. destruct W2 as [W2 W3].
  destruct (po_ready _ _ HP (next_shard (write_stream P)) ltac:(set_solver)) as [G1 G2].
  apply writer_effect; [reflexivity|reflexivity| |cbn; rewrite W3; congruence].
  split; [cbn; lia|]. cbn. repeat (split; [first [lia|assumption]|]). assumption.
Qed.

Lemma writes_effect k : let ws := write_stream P in writer ws = WriterHas k ->
  step_effect p P (with_stream {| ready := ready ws; next_shard := next_shard ws; writer := WriterIdle;
    streamed := streamed ws ++ shard_bytes q (pq_partition_id q) k P; recovery_result := recovery_result ws |} P).
Proof.
  intros ws Hk. subst ws. destruct (po_writer _ _ HP) as [W1 W2]. rewrite Hk in W2. destruct W2 as (W2 & W3 & W4 & W5 & W6).
  apply writer_effect; [reflexivity|reflexivity| |cbn; rewrite W6; congruence].
  split; [cbn; lia|]. cbn. split; [|assumption]. rewrite shard_bytes_ok, W4, shards_snoc by (auto; lia). f_equal. lia.
Qed.

(** Whatever stops the writer, a prefix of the block is in the stream. *)
Lemma stream_prefix : exists m, streamed (write_stream P) = ztake m blk.[p].
Proof.
  destruct (po_writer _ _ HP) as [W1 W2]. destruct (writer (write_stream P)).
  - destruct W2 as [W2 _]. eauto.
  - destruct W2 as (_ & _ & W2 & _). eauto.
  - apply W2.
Qed.

Lemma write_breaks_effect k m : writer (write_stream P) = WriterHas k ->
  step_effect p P (fail_exchange (with_stream (close_writer (ztake m (shard_bytes q (pq_partition_id q) k P)) (write_stream P)) P)).
Proof.
  intros Hk. destruct (po_writer _ _ HP) as [W1 W2]. rewrite Hk in W2. destruct W2 as (W2 & W3 & W4 & W5 & W6).
  apply writer_effect; [reflexivity|reflexivity| |reflexivity].
  split; [cbn; lia|]. cbn. split; [|discriminate]. rewrite shard_bytes_ok, W4 by (auto; lia). apply shards_part; auto. lia.
Qed.

Lemma close_effect fl : writer (write_stream P) = WriterIdle -> (fl = false -> next_shard (write_stream P) = T) ->
  step_effect p P {| pstage := pstage P; exchange_failed := fl; get_bufs := get_bufs P; recovered_ptrs := recovered_ptrs P;
                     decoder := decoder P; exchange := exchange P; write_stream := close_writer [] (write_stream P) |}.
Proof.
  intros Hi Hn. destruct (po_writer _ _ HP) as [W1 W2]. rewrite Hi in W2. destruct W2 as [W2 W3].
  apply writer_effect; [reflexivity|reflexivity| |reflexivity]. split; [cbn; lia|]. cbn. rewrite app_nil_r, W2. split; [eauto|].
  intros E. specialize (Hn E). split; [exact Hn|]. rewrite Hn. apply ztake_all. rewrite Hblk by exact Hp. lia.
Qed.

End Step.

Lemma partition_step_effect p q pr fault P P' : 0 <= p < f -> calls.[p] = Some (q, pr) -> part_ok p P -> peers_ok p P -> partition_step q pr fault P P' -> step_effect p P P'.
Proof.
  intros Hp Hc HP Hin Hstep. destruct Hstep.
  - apply stage_effect; [exact HP|discriminate].
  - eapply submit_effect; eassumption.
  - eapply take_effect; eassumption.
  - eapply decode_effect; eassumption.
  - apply fail_effect, HP.
  - eapply mark_effect; eassumption.
  - eapply decoded_effect; eassumption.
  - eapply receive_effect; eassumption.
  - apply fail_effect, HP.
  - eapply mark_received_effect; eassumption.
  - eapply writer_takes_effect; eassumption.
  - eapply writes_effect; eassumption.
  - eapply write_breaks_effect; eassumption.
  - subst P' ws. rewrite (co_total _ _ (Hcalls _ _ _ Hp Hc)). destruct (Z.eqb_spec (next_shard (write_stream P)) T).
    + apply (close_effect p P Hp HP (exchange_failed P)); auto.
    + apply (close_effect p P Hp HP true); [assumption|discriminate].
  - apply (close_effect p P Hp HP (exchange_failed P)); [assumption|congruence].
  - apply fail_effect, HP.
  - apply stage_effect; [exact HP|]. intros [= E]. unfold phase2_result in E. rewrite (co_write _ _ (Hcalls _ _ _ Hp Hc)) in E.
    cbn [negb orb] in E. breflect. assumption.
Qed.

(** ** The steps of the session *)

Notation step := (session_step bs one_proxy_per_host listening calls).

Lemma session_peers s p q pr : session_ok s -> 0 <= p < f -> calls.[p] = Some (q, pr) -> peers_ok p (seats s).[p].
Proof. intros Hs Hp Hc i Hi Hne. exists (sent_by s i p). eapply so_inbox; eauto. Qed.

Lemma seat_get s p P p' : session_ok s -> 0 <= p < f -> (seats (with_seat p P s)).[p'] = if p' =? p then P else (seats s).[p'].
Proof. intros Hs Hp. cbn [with_seat seats]. apply zget_zset. rewrite (so_len _ Hs). exact Hp. Qed.

Lemma seat_change s p P : session_ok s -> 0 <= p < f ->
  (forall q pr, calls.[p] = Some (q, pr) -> step_effect p (seats s).[p] P) ->
  recovery_result (write_stream P) = recovery_result (write_stream (seats s).[p]) -> session_ok (with_seat p P s).
Proof.
  intros Hs Hp He Hr. split.
  - cbn [with_seat seats]. rewrite zlen_zset. apply (so_len _ Hs).
  - intros p' q pr Hp' Hc. rewrite seat_get by assumption. destruct (Z.eqb_spec p' p) as [->|]; [apply (se_part _ _ _ (He q pr Hc))|].
    eapply so_part; eauto.
  - intros p' q pr i Hp' Hc Hi Hne. assert (Es : sent_by (with_seat p P s) i p' = sent_by s i p').
    { unfold sent_by. destruct (calls.[i]) as [[q' pr']|] eqn:Ei; [|reflexivity]. rewrite seat_get by assumption.
      destruct (Z.eqb_spec i p) as [->|]; [|reflexivity]. rewrite (se_sent _ _ _ (He q' pr' Ei)). reflexivity. }
    rewrite Es, seat_get by assumption. pose proof (so_inbox _ Hs p' q pr i Hp' Hc Hi Hne) as HI.
    destruct (Z.eqb_spec p' p) as [->|]; [|exact HI]. apply (se_inbox _ _ _ (He q pr Hc)); assumption.
  - destruct (so_storage _ Hs) as [S1 S2]. split; [exact S1|]. intros p' Hp'. rewrite seat_get by assumption.
    specialize (S2 p' Hp'). destruct (Z.eqb_spec p' p) as [->|]; [rewrite Hr|]; exact S2.
Qed.

Lemma connect_effect p P j : part_ok p P -> step_effect p P (connect j P).
Proof.
  intros HP. split; [|reflexivity|reflexivity|intros i s _ _ HI; exact HI].
  destruct HP as [A1 A2 A3 A4 A5 A6 A7 A8 A9 A10 A11 A12 A13 A14 A15]. split; cbn; auto.
Qed.

Lemma bufs_effect p P i bytes : part_ok p P -> (get_bufs P).[i] = None -> bytes = range p i ->
  step_effect p P (with_bufs (get_bufs P).[i <- Some bytes] P).
Proof.
  intros HP Hn ->. apply quiet_step; [|reflexivity|reflexivity].
  destruct HP as [A1 A2 A3 A4 A5 A6 A7 A8 A9 A10 A11 A12 A13 A14 A15].
  split; cbn [with_bufs get_bufs decoder recovered_ptrs write_stream exchange pstage exchange_failed]; auto.
  - rewrite zlen_zset. exact A1.
  - intros i' bytes Hi' E. destruct (Z.eq_dec i' i) as [->|Hne]; [rewrite zget_zset_eq in E by lia; congruence|].
    rewrite zget_zset_ne in E by congruence. apply A2; assumption.
  - intros Hs. specialize (A4 Hs). unfold helpers_done in *. cbn [with_bufs get_bufs]. rewrite forallb_forall in *.
    intros x Hx. apply In_zget in Hx as (i' & Hi' & <-). rewrite zlen_zset in Hi'. destruct (Z.eq_dec i' i) as [->|Hne].
    + rewrite zget_zset_eq by exact Hi'. reflexivity.
    + rewrite zget_zset_ne by congruence. apply A4, zget_In, Hi'.
Qed.

Lemma dial_ok s p q pr x : session_ok s -> 0 <= p < f -> calls.[p] = Some (q, pr) -> In x (pq_peers q) ->
  let j := peer_partition_id x in let s1 := with_seat p (connect j (seats s).[p]) s in
  session_ok (with_seat j (connect p (seats s1).[j]) s1).
Proof.
  intros Hs Hp Hc Hx j s1. assert (H1 : session_ok s1).
  { apply seat_change; auto. intros q' pr' Hc'. apply connect_effect. eapply so_part; eauto. }
  apply (in_peers p q pr Hp Hc) in Hx as (i & Hi & Hne & ->). subst j. destruct (Hpeer i Hi) as (Ei & _). rewrite Ei in *.
  apply seat_change; auto. intros q' pr' Hc'. apply connect_effect. eapply so_part; eauto.
Qed.

Lemma shard_frame_ok p q pr P j k : 0 <= p < f -> calls.[p] = Some (q, pr) -> part_ok p P -> 0 <= j < f ->
  0 <= k < decoded_shards (decoder P) -> shard_frame q j (pq_shard_begin q + k) P = frame p j (cb p + k).
Proof.
  intros Hp Hc HP Hj Hk. pose proof (Hcalls _ _ _ Hp Hc) as Q. unfold shard_frame, send_shard_frame, frame.
  rewrite (co_id _ _ Q), (co_stripe _ _ Q), (co_begin _ _ Q). f_equal. cbn [make_shard_header hdr_stripe_byte_len hdr_shard_count].
  unfold u32. rewrite (Z.mod_small w), (Z.mod_small 1) by nia. rewrite Z.mul_1_r.
  apply (po_local _ _ HP); [|exact Hj]. unfold copied. destruct (decode_stage (decoder P)); lia.
Qed.

Lemma send_ok s p q pr x : session_ok s -> 0 <= p < f -> calls.[p] = Some (q, pr) -> In x (pq_peers q) ->
  let P := (seats s).[p] in let j := peer_partition_id x in let k := (sent (exchange P)).[j] in
  k < decoded_shards (decoder P) ->
  let s1 := with_seat p (count_sent j P) s in
  session_ok (with_seat j (deliver p (shard_frame q j (pq_shard_begin q + k) P) (seats s1).[j]) s1).
Proof.
  intros Hs Hp Hc Hx P j k Hk s1. apply (in_peers p q pr Hp Hc) in Hx as (i & Hj & Hne & ->). destruct (Hpeer i Hj) as (Ei & _).
  assert (Ek : k = (sent (exchange P)).[i]) by (unfold k, j; rewrite Ei; reflexivity). clearbody k. subst k s1 j. rewrite Ei in *.
  set (k := (sent (exchange P)).[i]) in *. pose proof (so_part _ Hs p q pr Hp Hc) as HP. fold P in HP. pose proof (po_sent _ _ HP i Hj) as Hk'. fold k in Hk'.
  rewrite (shard_frame_ok p q pr P i k) by (auto; lia).
  assert (El : zlen (seats s) = f) by apply (so_len _ Hs). rewrite seat_get by assumption. destruct (Z.eqb_spec i p) as [|_]; [contradiction|].
  set (fr := frame p i (cb p + k)). destruct (po_ex_lens _ _ HP) as (X1 & X2 & X3).
  assert (Eseat : forall p', (seats (with_seat i (deliver p fr (seats s).[i]) (with_seat p (count_sent i P) s))).[p'] =
            if p' =? i then deliver p fr (seats s).[i] else if p' =? p then count_sent i P else (seats s).[p']).
  { intros p'. cbn [with_seat seats]. rewrite zget_zset by (rewrite zlen_zset; lia). rewrite zget_zset by lia. reflexivity. }
  split.
  - cbn [with_seat seats]. rewrite !zlen_zset. exact El.
  - intros p' q' pr' Hp' Hc'. rewrite Eseat. pose proof (so_part _ Hs p' q' pr' Hp' Hc') as HP'.
    destruct (Z.eqb_spec p' i) as [->|]; [|destruct (Z.eqb_spec p' p) as [->|]; [|exact HP']].
    + destruct HP' as [A1 A2 A3 A4 A5 A6 A7 A8 A9 A10 A11 A12 A13 A14 A15].
      split; cbn [deliver with_exchange get_bufs decoder recovered_ptrs write_stream exchange pstage exchange_failed sent received inbox unmarked]; auto.
      rewrite !zlen_zset. exact A8.
    + fold P in HP'. destruct HP' as [A1 A2 A3 A4 A5 A6 A7 A8 A9 A10 A11 A12 A13 A14 A15].
      split; cbn [count_sent with_exchange get_bufs decoder recovered_ptrs write_stream exchange pstage exchange_failed sent received inbox unmarked]; auto.
      * rewrite !zlen_zset. exact A8.
      * intros j Hj'. rewrite zget_zset by lia. destruct (Z.eqb_spec j i) as [->|]; [fold k; lia|apply A9, Hj'].
  - intros p' q' pr' j Hp' Hc' Hj' Hne'. pose proof (so_inbox _ Hs p' q' pr' j Hp' Hc' Hj' Hne') as HI.
    assert (Esent : sent_by (with_seat i (deliver p fr (seats s).[i]) (with_seat p (count_sent i P) s)) j p' =
              if (j =? p) && (p' =? i) then k + 1 else sent_by s j p').
    { unfold sent_by. destruct (calls.[j]) as [[q'' pr'']|] eqn:Ecj; [|destruct (Z.eqb_spec j p) as [->|]; [congruence|reflexivity]].
      rewrite Eseat. destruct (Z.eqb_spec j i) as [->|]; [destruct (Z.eqb_spec i p); [contradiction|reflexivity]|].
      destruct (Z.eqb_spec j p) as [->|]; [|reflexivity]. cbn [count_sent with_exchange exchange sent].
      destruct (Z.eqb_spec p' i) as [->|]; cbn [andb]; [rewrite zget_zset_eq by lia; reflexivity|].
      rewrite zget_zset_ne by congruence. reflexivity. }
    rewrite Esent, Eseat. destruct (Z.eqb_spec p' i) as [->|Hpi].
    + destruct (po_ex_lens _ _ (so_part _ Hs i q' pr' Hp' Hc')) as (Y1 & Y2 & Y3). destruct (Z.eqb_spec j p) as [->|Hjp]; cbn [andb].
      * destruct HI as [I1 I2]. unfold sent_by in I1, I2. rewrite Hc in I1, I2. fold P k in I1, I2. split; [cbn; lia|].
        cbn [deliver with_exchange exchange inbox received]. rewrite zget_zset_eq by lia. rewrite I2.
        replace (k + 1 - (received (exchange (seats s).[i])).[p]) with (k - (received (exchange (seats s).[i])).[p] + 1) by lia.
        rewrite seqZ_app, map_app by lia. f_equal. rewrite Zplus_minus. reflexivity.
      * destruct HI as [I1 I2]. split; [exact I1|]. cbn [deliver with_exchange exchange inbox received]. rewrite zget_zset_ne by congruence. exact I2.
    + rewrite andb_false_r. destruct (Z.eqb_spec p' p) as [->|]; exact HI.
  - destruct (so_storage _ Hs) as [S1 S2]. split; [exact S1|]. intros p' Hp'. rewrite Eseat. specialize (S2 p' Hp').
    destruct (Z.eqb_spec p' i) as [->|]; [exact S2|]. destruct (Z.eqb_spec p' p) as [->|]; exact S2.
Qed.

Lemma store_ok s p q pr l done st : session_ok s -> 0 <= p < f -> calls.[p] = Some (q, pr) -> let P := (seats s).[p] in
  writer (write_stream P) = WriterClosed -> recovery_result (write_stream P) = None ->
  RecoveryToDatanodeBreakdown bs l (pq_failed_keys q).[p] (streamed (write_stream P)) (pq_replaced q).[p] (storage s) = (done, st) ->
  session_ok {| seats := (seats s).[p <- answer_write done P]; storage := st |} /\
  (exchange_failed P = false -> link_holds bs l = true -> done = true).
Proof.
  intros Hs Hp Hc P Hw' Hn E. pose proof (Hcalls _ _ _ Hp Hc) as Q. rewrite (co_key _ _ Q), (co_node _ _ Q) in E.
  pose proof (so_part _ Hs p q pr Hp Hc) as HP. fold P in HP. destruct (stream_prefix p P HP) as [m Em]. pose proof E as E0.
  rewrite Em, write_prefix in E by auto.
  destruct (recovery_write_effect bs _ _ _ _ _ _ _ (Hblk p Hp) E) as (W1 & W2 & _). cbn [cut_link wl_tag] in W1.
  destruct (so_storage _ Hs) as [S1 S2]. pose proof (S2 p Hp) as S2p. fold P in S2p. rewrite Hn in S2p. split.
  2: { intros Hf Hl. destruct (po_writer _ _ HP) as [_ V]. rewrite Hw' in V. destruct V as [_ V]. destruct (V Hf) as [_ V'].
    rewrite V' in E0. destruct (recovery_write_effect bs _ _ _ _ _ _ _ (Hblk p Hp) E0) as (_ & _ & W3). apply W3.
    unfold link_holds in Hl. breflect. repeat split; assumption. }
  split.
  - cbn [seats]. rewrite zlen_zset. apply (so_len _ Hs).
  - intros p' q' pr' Hp' Hc'. change (part_ok p' (seats (with_seat p (answer_write done P) s)).[p']). rewrite seat_get by assumption.
    destruct (Z.eqb_spec p' p) as [->|]; [|eapply so_part; eauto]. apply part_ok_writer; auto.
    + destruct (po_writer _ _ HP) as [V1 V2]. split; [exact V1|]. cbn [write_stream writer]. rewrite Hw' in *. exact V2.
    + cbn. intros Hr. apply (po_returned _ _ HP) in Hr. congruence.
  - intros p' q' pr' i Hp' Hc' Hi Hne. change (inbox_ok p' i (sent_by (with_seat p (answer_write done P) s) i p') (seats (with_seat p (answer_write done P) s)).[p']).
    assert (Ex : forall x, exchange (seats (with_seat p (answer_write done P) s)).[x] = exchange (seats s).[x]).
    { intros x. rewrite seat_get by assumption. destruct (Z.eqb_spec x p) as [->|]; reflexivity. }
    unfold sent_by, inbox_ok. rewrite !Ex. exact (so_inbox _ Hs p' q' pr' i Hp' Hc' Hi Hne).
  - split.
    + intros nd Hnd. cbn [storage]. rewrite W2 by (apply Hnd, Hp). apply S1, Hnd.
    + intros p' Hp'. change (seats {| seats := (seats s).[p <- answer_write done P]; storage := st |}) with (seats (with_seat p (answer_write done P) s)).
      cbn [storage]. rewrite seat_get by assumption. destruct (Z.eqb_spec p' p) as [->|Hne].
      * cbn [answer_write with_stream write_stream recovery_result]. exists (wl_tag l). rewrite S2p in W1. exact W1.
      * rewrite W2 by (intros En; apply Hne, Hnode; auto). apply S2, Hp'.
Qed.

Lemma session_step_ok fault s s' : session_ok s -> step fault s s' -> session_ok s'.
Proof.
  intros Hs Hst. destruct Hst as [p q pr fault P' s Hp Hc Hst|p q pr x s Hp Hc Hx _ _ _ _|p q pr i src bytes s Hp Hc P _ HL Hi Hsrc Hn Hr
    |p q pr x s Hp Hc Hx P j k _ _ Hk|p q pr l done st s Hp Hc P _ _ Hw' Hn E].
  - assert (HE : step_effect p (seats s).[p] P').
    { eapply partition_step_effect; eauto; [eapply so_part; eauto|eapply session_peers; eauto]. }
    apply seat_change; auto. apply (se_result _ _ _ HE).
  - eapply dial_ok; eauto.
  - assert (HE : step_effect p P (with_bufs (get_bufs P).[i <- Some bytes] P)).
    { apply bufs_effect; [eapply so_part; eauto|exact Hn|]. rewrite (co_local _ _ (Hcalls _ _ _ Hp Hc)) in HL.
      eapply Hread; eauto. apply (so_storage _ Hs). }
    apply seat_change; auto.
  - eapply send_ok; eauto.
  - eapply store_ok; eauto.
Qed.

Lemma session_run_ok s s' : session_ok s -> rtc (fun a b => exists fault, step fault a b) s s' -> session_ok s'.
Proof. intros Hs Hr. induction Hr as [|a b c [fault Hst] _ IH]; [exact Hs|]. apply IH. eapply session_step_ok; eauto. Qed.

Lemma start_part_ok p q pr : 0 <= p < f -> calls.[p] = Some (q, pr) -> part_ok p (start_partition bs q).
Proof.
  intros Hp Hc. pose proof (Hcalls _ _ _ Hp Hc) as Q. pose proof (Hown p Hp) as (O1 & O2 & O3).
  split; cbn [start_partition get_bufs decoder recovered_ptrs write_stream exchange pstage exchange_failed sent received inbox unmarked ready next_submit decoded_shards recovery_result];
    rewrite ?(co_failed _ _ Q), ?(co_sources _ _ Q).
  - apply zlen_zrepeat. rewrite <- (co_sources _ _ Q). lia.
  - intros i bytes Hi E. rewrite zget_zrepeat in E by exact Hi. discriminate.
  - split; [cbn; lia|]. split; cbn; lia.
  - lia.
  - split; [apply zlen_zrepeat; lia|]. intros t Ht. rewrite zget_zrepeat by exact Ht. apply zlen_zrepeat. nia.
  - intros k t Hk. unfold copied in Hk. cbn in Hk. lia.
  - intros k Hk. unfold marked in Hk. cbn in Hk. lia.
  - repeat split; apply zlen_zrepeat; lia.
  - intros j Hj. rewrite zget_zrepeat by exact Hj. lia.
  - intros j Hj. rewrite zget_zrepeat by exact Hj. destruct (Hown j Hj) as (_ & ? & _). lia.
  - intros j k Hj. rewrite zget_zrepeat by exact Hj. lia.
  - set_solver.
  - split; cbn [start_partition write_stream next_shard writer streamed recovery_result]; [lia|]. rewrite (co_write _ _ Q). auto.
  - congruence.
  - discriminate.
Qed.

Lemma start_ok : session_ok (start_session bs calls st0).
Proof.
  assert (Eseat : forall p, 0 <= p < f -> (seats (start_session bs calls st0)).[p] =
            match calls.[p] with Some (q, _) => start_partition bs q | None => start_partition bs no_request end).
  { intros p Hp. cbn [start_session seats]. rewrite zget_map by exact Hp. reflexivity. }
  split.
  - cbn [start_session seats]. rewrite length_map. reflexivity.
  - intros p q pr Hp Hc. rewrite Eseat, Hc by exact Hp. eapply start_part_ok; eauto.
  - intros p q pr i Hp Hc Hi Hne. rewrite Eseat, Hc by exact Hp. unfold inbox_ok, sent_by.
    cbn [start_partition exchange received inbox]. pose proof (co_failed _ _ (Hcalls _ _ _ Hp Hc)) as Ef. rewrite Ef, !zget_zrepeat by exact Hi.
    destruct (calls.[i]) as [[q' pr']|] eqn:Ei.
    + rewrite Eseat, Ei by exact Hi. cbn [start_partition exchange sent]. rewrite (co_failed _ _ (Hcalls _ _ _ Hi Ei)), zget_zrepeat by exact Hp.
      split; [lia|reflexivity].
    + split; [lia|reflexivity].
  - split; [intros nd _; reflexivity|]. intros p Hp. rewrite Eseat by exact Hp. destruct (calls.[p]) as [[q pr]|]; reflexivity.
Qed.

(** ** Runs without faults *)

Context (Hcover : forall g, 0 <= g < T -> exists j, 0 <= j < f /\ cb j <= g < cb j + cl j).

Record regular_part (p : Z) (P : Partition) : Prop := {
  rp_failed : exchange_failed P = false;
  rp_result : recovery_result (write_stream P) <> Some false;
  rp_returned : forall r, pstage P = Returned r -> r = true /\ forall j, 0 <= j < f -> j <> p -> (sent (exchange P)).[j] = cl p;
  rp_connected : pstage P <> Connecting -> forall j, 0 <= j < f -> j <> p -> j ∈ connected (exchange P) }.

Record regular (s : Session) : Prop := {
  rg_part : forall p q pr, 0 <= p < f -> calls.[p] = Some (q, pr) -> regular_part p (seats s).[p];
  rg_symmetric : forall p j, 0 <= p < f -> 0 <= j < f -> j ∈ connected (exchange (seats s).[p]) -> p ∈ connected (exchange (seats s).[j]) }.

Lemma producer_done_facts p q pr P : 0 <= p < f -> calls.[p] = Some (q, pr) -> part_ok p P -> producer_done q P = true ->
  decoded_shards (decoder P) = cl p /\ (forall j, 0 <= j < f -> j <> p -> (sent (exchange P)).[j] = cl p) /\
  (forall j, 0 <= j < f -> j <> p -> (received (exchange P)).[j] = cl j) /\ unmarked (exchange P) = ∅ /\ pstage P = Streaming.
Proof.
  intros Hp Hc HP Hd. unfold producer_done in Hd. breflect. rewrite (co_local _ _ (Hcalls _ _ _ Hp Hc)) in *.
  assert (Hdec : decoded_shards (decoder P) = cl p).
  { destruct (po_decoder _ _ HP) as (D1 & D2 & D3). destruct (decode_stage (decoder P)), (decode_submit_shard (decoder P)); lia. }
  rewrite forallb_forall in *.
  assert (Hin : forall j, 0 <= j < f -> j <> p -> In (peer j) (pq_peers q)) by (intros j Hj Hne; apply (in_peers p q pr Hp Hc); eauto).
  split; [exact Hdec|]. split; [|split; [|split; assumption]].
  - intros j Hj Hne. match goal with H : forall x, In x _ -> ((sent _).[_] >=? _) = true |- _ => pose proof (H _ (Hin j Hj Hne)) as E end.
    destruct (Hpeer j Hj) as (Ej & _). rewrite Ej in E. breflect. pose proof (po_sent _ _ HP j Hj). lia.
  - intros j Hj Hne. match goal with H : forall x, In x _ -> ((received _).[_] >=? _) = true |- _ => pose proof (H _ (Hin j Hj Hne)) as E end.
    destruct (Hpeer j Hj) as (Ej & _ & Ec). rewrite Ej, Ec in E. breflect. pose proof (po_received _ _ HP j Hj). lia.
Qed.

(** When the producers are through, every shard is there. *)
Lemma all_ready p q pr P g : 0 <= p < f -> calls.[p] = Some (q, pr) -> part_ok p P -> producer_done q P = true -> 0 <= g < T ->
  g ∈ ready (write_stream P).
Proof.
  intros Hp Hc HP Hd Hg. destruct (producer_done_facts p q pr P Hp Hc HP Hd) as (F1 & F2 & F3 & F4 & _).
  destruct (Hcover g Hg) as (j & Hj & Hgj). destruct (Z.eq_dec j p) as [->|Hne].
  - replace g with (cb p + (g - cb p)) by lia. apply (po_marked _ _ HP). unfold marked. destruct (decode_stage (decoder P)); lia.
  - pose proof (po_arrived _ _ HP j (g - cb j) Hj ltac:(rewrite F3 by assumption; lia)) as E. rewrite F4 in E.
    replace (cb j + (g - cb j)) with g in E by lia. set_solver.
Qed.

Lemma regular_partition_step p q pr P P' : 0 <= p < f -> calls.[p] = Some (q, pr) -> part_ok p P -> peers_ok p P -> regular_part p P ->
  partition_step q pr false P P' -> regular_part p P' /\ connected (exchange P') = connected (exchange P).
Proof.
  intros Hp Hc HP Hin [R1 R2 R3 R4] Hst.
  assert (Hquiet : forall Q, exchange_failed Q = exchange_failed P -> recovery_result (write_stream Q) = recovery_result (write_stream P) ->
    pstage Q = pstage P -> sent (exchange Q) = sent (exchange P) -> connected (exchange Q) = connected (exchange P) ->
    regular_part p Q /\ connected (exchange Q) = connected (exchange P)).
  { intros Q E1 E2 E3 E4 E5. split; [|exact E5]. split; rewrite ?E1, ?E2, ?E3, ?E4, ?E5; auto. }
  assert (Hmark : forall x ws, recovery_result (mark_write_shard_ready q x ws) = recovery_result ws).
  { intros x ws. unfold mark_write_shard_ready. destruct (_ || _); reflexivity. }
  inversion Hst; subst; try (apply Hquiet; cbn; auto; fail).
  - split; [|reflexivity]. split; cbn; auto; [discriminate|]. intros _ j Hj Hne.
    match goal with H : forallb _ _ = true |- _ => rewrite forallb_forall in H; pose proof (H (peer j) ltac:(apply (in_peers p q pr Hp Hc); eauto)) as E end.
    destruct (Hpeer j Hj) as (Ej & _). rewrite Ej in E. breflect. assumption.
  - exfalso. destruct (inflight_range p P k HP ltac:(auto)) as (_ & Hk & Hh). assert (HH : 0 <= H) by (rewrite <- (po_bufs_len _ _ HP); lia).
    destruct (Hdecode p q pr k P Hp Hc Hk (helpers_all p P HP HH Hh)) as (rhs & rec & E & _). congruence.
  - exfalso. destruct (received_frame p q pr P Hp Hc HP peer0 frame0 rest Hin) as (i & _ & _ & _ & _ & _ & E); auto. subst j x. congruence.
  - assert (En : next_shard (write_stream P) = T).
    { destruct (po_writer _ _ HP) as [W1 _]. destruct (Z.eq_dec (next_shard (write_stream P)) T) as [|Hne]; [assumption|exfalso].
      rewrite (co_total _ _ (Hcalls _ _ _ Hp Hc)) in *. match goal with E : _ < T -> not _ |- _ => apply E; [change (next_shard (write_stream P) < T); lia|] end.
      change (next_shard (write_stream P) ∈ ready (write_stream P)).
      eapply all_ready; eauto. lia. }
    rewrite (co_total _ _ (Hcalls _ _ _ Hp Hc)). match goal with |- context [?a =? T] => replace (a =? T) with true by (symmetry; apply Z.eqb_eq, En) end.
    apply Hquiet; cbn; auto.
  - split; [|reflexivity]. split; cbn; auto.
    + intros r [= <-]. match goal with H : _ \/ _ |- _ => destruct H as [E|[E1 E2]]; [congruence|] end.
      destruct (producer_done_facts p q pr P Hp Hc HP E1) as (_ & F2 & _). split; [|exact F2].
      pose proof (Hcalls _ _ _ Hp Hc) as Q. unfold phase2_result. rewrite R1, (co_write _ _ Q). cbn [negb orb andb].
      destruct (po_writer _ _ HP) as [_ W2]. match goal with H : writer _ = WriterClosed |- _ => rewrite H in W2 end. destruct W2 as [_ W2].
      destruct (W2 R1) as [-> _]. rewrite (co_total _ _ Q), Z.eqb_refl. specialize (E2 (co_write _ _ Q)).
      destruct (recovery_result (write_stream P)) as [[]|]; [reflexivity|congruence|congruence].
    + intros _. apply R4. match goal with H : _ \/ _ |- _ => destruct H as [E|[E1 E2]]; [congruence|] end.
      destruct (producer_done_facts p q pr P Hp Hc HP E1) as (_ & _ & _ & _ & ->). discriminate.
Qed.

Lemma regular_seat s p P : session_ok s -> 0 <= p < f -> regular s -> (forall q pr, calls.[p] = Some (q, pr) -> regular_part p P) ->
  connected (exchange P) = connected (exchange (seats s).[p]) -> regular (with_seat p P s).
Proof.
  intros Hs Hp [R1 R2] HR Hcn. split.
  - intros p' q pr Hp' Hc. rewrite seat_get by assumption. destruct (Z.eqb_spec p' p) as [->|]; eauto.
  - intros p' j Hp' Hj. rewrite !seat_get by assumption. specialize (R2 p' j Hp' Hj).
    destruct (Z.eqb_spec p' p) as [->|], (Z.eqb_spec j p) as [->|]; rewrite ?Hcn; auto.
Qed.

Lemma regular_part_connect p P j : regular_part p P -> regular_part p (connect j P).
Proof. intros [R1 R2 R3 R4]. split; cbn; auto. intros Hst i Hi Hne. specialize (R4 Hst i Hi Hne). set_solver. Qed.

Lemma regular_dial s p j : session_ok s -> 0 <= p < f -> 0 <= j < f -> p <> j -> regular s ->
  let s1 := with_seat p (connect j (seats s).[p]) s in regular (with_seat j (connect p (seats s1).[j]) s1).
Proof.
  intros Hs Hp Hj Hne [R1 R2] s1.
  assert (Eseat : forall p', (seats (with_seat j (connect p (seats s1).[j]) s1)).[p'] =
            if p' =? j then connect p (seats s).[j] else if p' =? p then connect j (seats s).[p] else (seats s).[p']).
  { intros p'. subst s1. cbn [with_seat seats]. rewrite zget_zset by (rewrite zlen_zset, (so_len _ Hs); lia).
    rewrite !zget_zset by (rewrite (so_len _ Hs); lia). destruct (Z.eqb_spec j p); [congruence|]. reflexivity. }
  split.
  - intros p' q pr Hp' Hc. rewrite Eseat. specialize (R1 p' q pr Hp' Hc).
    destruct (Z.eqb_spec p' j) as [->|]; [apply regular_part_connect, R1|]. destruct (Z.eqb_spec p' p) as [->|]; [apply regular_part_connect, R1|exact R1].
  - intros a b Ha Hb. rewrite !Eseat. pose proof (R2 a b Ha Hb) as E.
    clear -E Hne. destruct (Z.eqb_spec a j) as [->|], (Z.eqb_spec b j) as [->|]; try destruct (Z.eqb_spec a p) as [->|];
      try destruct (Z.eqb_spec b p) as [->|]; cbn; rewrite ?elem_of_union, ?elem_of_singleton; intuition congruence.
Qed.

Lemma regular_step s s' : session_ok s -> regular s -> step false s s' -> regular s'.
Proof.
  intros Hs HR Hst. remember false as fault eqn:Ef. pose proof HR as [R1 R2].
  destruct Hst as [p q pr fault P' s Hp Hc Hst|p q pr x s Hp Hc Hx Hlt _ _ _|p q pr i src bytes s Hp Hc P _ HL Hi Hsrc Hn Hr
    |p q pr x s Hp Hc Hx P j k Hstg HkL Hk|p q pr l done st s Hp Hc P _ _ Hw' Hn E]; try subst fault.
  - destruct (regular_partition_step p q pr _ _ Hp Hc (so_part _ Hs _ _ _ Hp Hc) (session_peers _ _ _ _ Hs Hp Hc) (R1 _ _ _ Hp Hc) Hst) as [A1 A2].
    apply regular_seat; auto.
  - apply (in_peers p q pr Hp Hc) in Hx as (i & Hi & Hne & ->). destruct (Hpeer i Hi) as (Ei & _). subst j w1. rewrite Ei. apply regular_dial; auto.
  - apply regular_seat; auto. intros _ _ _. destruct (R1 _ _ _ Hp Hc) as [A1 A2 A3 A4]. split; auto.
  - assert (Hj : 0 <= j < f /\ j <> p).
    { apply (in_peers p q pr Hp Hc) in Hx as (i & Hi & Hne & ->). subst j. destruct (Hpeer i Hi) as (-> & _). auto. }
    destruct Hj as [Hj Hne]. clearbody j. subst k w1. split.
    + intros p' q' pr' Hp' Hc'. specialize (R1 p' q' pr' Hp' Hc'). cbn [with_seat seats].
      rewrite (zget_zset _ j) by (rewrite zlen_zset, (so_len _ Hs); lia). rewrite !zget_zset by (rewrite (so_len _ Hs); lia).
      destruct (Z.eqb_spec p' j) as [->|]; [|destruct (Z.eqb_spec p' p) as [->|]; [|exact R1]].
      * destruct (Z.eqb_spec j p); [contradiction|]. destruct R1 as [A1 A2 A3 A4]. split; auto.
      * destruct R1 as [A1 A2 A3 A4]. split; auto. intros r Hret. cbn in Hret. fold P in Hret. congruence.
    + intros a b Ha Hb. cbn [with_seat seats]. rewrite !(zget_zset _ j) by (rewrite zlen_zset, (so_len _ Hs); lia).
      rewrite !zget_zset by (rewrite (so_len _ Hs); lia). destruct (Z.eqb_spec j p); [contradiction|]. specialize (R2 a b Ha Hb).
      destruct (Z.eqb_spec a j) as [->|], (Z.eqb_spec b j) as [->|]; try destruct (Z.eqb_spec a p) as [->|]; try destruct (Z.eqb_spec b p) as [->|]; exact R2.
  - change ({| seats := (seats s).[p <- answer_write done P]; storage := st |}) with
      {| seats := seats (with_seat p (answer_write done P) s); storage := st |}.
    assert (Hd : done = true).
    { destruct (store_ok s p q pr l done st Hs Hp Hc Hw' Hn E) as [_ Hd]. apply Hd; [apply (R1 _ _ _ Hp Hc)|].
      destruct (link_holds bs l); [reflexivity|discriminate]. }
    destruct (regular_seat s p (answer_write done P) Hs Hp HR) as [B1 B2].
    + intros _ _ _. destruct (R1 _ _ _ Hp Hc) as [A1 A2 A3 A4]. split; auto. cbn. congruence.
    + reflexivity.
    + split; [exact B1|exact B2].
Qed.

Lemma start_regular : regular (start_session bs calls st0).
Proof.
  split.
  - intros p q pr Hp Hc. cbn [start_session seats]. rewrite zget_map, Hc by exact Hp. split; try discriminate; reflexivity || auto.
    intros H'. contradiction.
  - intros p j Hp Hj. cbn [start_session seats]. rewrite !zget_map by assumption. destruct (calls.[p]) as [[? ?]|]; cbn; set_solver.
Qed.

Lemma regular_run s s' : session_ok s -> regular s -> rtc (step false) s s' -> session_ok s' /\ regular s'.
Proof.
  intros Hs HR Hr. induction Hr as [|a b c Hst _ IH]; [auto|]. apply IH; [eapply session_step_ok; eauto|eapply regular_step; eauto].
Qed.

(** ** Progress *)

Section Progress.
Context (Hall : forall p, 0 <= p < f -> exists q pr, calls.[p] = Some (q, pr)).
Context (Hlisten : forall p q pr j, 0 <= p < f -> calls.[p] = Some (q, pr) -> 0 <= j < f -> p < j ->
  listening !! (peer_ip (peer j), phase2_exchange_port one_proxy_per_host (peer_port (peer j)) j (pq_exchange_epoch q)) = Some j).
Context (Hreadable : forall p q pr i src st, 0 <= p < f -> calls.[p] = Some (q, pr) -> 0 < cl p -> intact st ->
  0 <= i -> pq_sources q !! Z.to_nat i = Some src -> exists bytes, read_helper bs q src st = Some bytes).
Context (s : Session) (Hs : session_ok s) (HR : regular s) (Hstuck : forall s', ~ step false s s').

Lemma stuck_partition p q pr P' : 0 <= p < f -> calls.[p] = Some (q, pr) -> ~ partition_step q pr false (seats s).[p] P'.
Proof. intros Hp Hc Hst. apply (Hstuck (with_seat p P' s)). eapply step_partition; eauto. Qed.

Lemma stuck_dialed p j : 0 <= p < f -> 0 <= j < f -> p < j -> pstage (seats s).[p] = Connecting -> j ∈ connected (exchange (seats s).[p]).
Proof.
  intros Hp Hj Hlt Hstg. destruct (decide (j ∈ connected (exchange (seats s).[p]))) as [|Hn]; [assumption|exfalso].
  destruct (Hall p Hp) as (q & pr & Hc). destruct (Hpeer j Hj) as (Ej & _). eapply Hstuck.
  apply (step_dial _ _ _ _ p q pr (peer j) s); rewrite ?Ej; try assumption.
  - apply (in_peers p q pr Hp Hc). exists j. repeat split; lia.
  - apply (Hlisten p q pr j); assumption.
Qed.

Lemma stuck_streaming p : 0 <= p < f -> pstage (seats s).[p] <> Connecting.
Proof.
  intros Hp Hstg. destruct (Hall p Hp) as (q & pr & Hc). pose proof (rg_part _ HR p q pr Hp Hc) as [R1 R2 R3 R4].
  assert (Hcon : forall j, 0 <= j < f -> j <> p -> j ∈ connected (exchange (seats s).[p])).
  { intros j Hj Hne. destruct (Z.lt_total p j) as [Hlt|[->|Hlt]]; [apply stuck_dialed; auto|contradiction|].
    apply (rg_symmetric _ HR j p Hj Hp). destruct (Hall j Hj) as (qj & prj & Hcj).
    destruct (pstage (seats s).[j]) as [| |r] eqn:Estj; [apply stuck_dialed; auto| |];
      apply (rp_connected _ _ (rg_part _ HR j qj prj Hj Hcj)); auto; congruence. }
  eapply (stuck_partition p q pr _ Hp Hc), ps_start; auto. apply forallb_forall. intros x Hx.
  apply (in_peers p q pr Hp Hc) in Hx as (j & Hj & Hne & ->). destruct (Hpeer j Hj) as (-> & _). apply bool_decide_eq_true, Hcon; assumption.
Qed.

Lemma stuck_helpers p : 0 <= p < f -> pstage (seats s).[p] = Streaming -> 0 < cl p -> helpers_done (seats s).[p] = true.
Proof.
  intros Hp Hstg HL. destruct (Hall p Hp) as (q & pr & Hc). pose proof (Hcalls _ _ _ Hp Hc) as Q.
  pose proof (so_part _ Hs p q pr Hp Hc) as HP. apply forallb_forall. intros x Hx. apply In_zget in Hx as (i & Hi & <-).
  rewrite (po_bufs_len _ _ HP) in Hi. destruct (get_bufs (seats s).[p]).[i] as [bytes|] eqn:E; [reflexivity|exfalso].
  destruct (lookup_lt_is_Some_2 (pq_sources q) (Z.to_nat i)) as [src Esrc]; [rewrite <- (co_sources _ _ Q) in Hi; lia|].
  destruct (Hreadable p q pr i src (storage s) Hp Hc HL (proj1 (so_storage _ Hs)) ltac:(lia) Esrc) as [bytes Er].
  eapply Hstuck, (step_read _ _ _ _ p q pr i src bytes s); eauto; [rewrite (co_local _ _ Q); exact HL|lia].
Qed.

Lemma stuck_decoded p : 0 <= p < f -> pstage (seats s).[p] = Streaming -> decoded_shards (decoder (seats s).[p]) = cl p.
Proof.
  intros Hp Hstg. destruct (Hall p Hp) as (q & pr & Hc). pose proof (Hcalls _ _ _ Hp Hc) as Q.
  pose proof (so_part _ Hs p q pr Hp Hc) as HP. pose proof (stuck_partition p q pr) as Hno.
  destruct (po_decoder _ _ HP) as (D1 & D2 & D3). destruct (decode_stage (decoder (seats s).[p])) as [|k|k|k] eqn:Es.
  - destruct (decode_submit_shard (decoder (seats s).[p])) as [k|] eqn:Ek.
    + exfalso. eapply (Hno _ Hp Hc), ps_take; eauto.
    + destruct (Z.eq_dec (next_submit (decoder (seats s).[p])) (cl p)) as [E|E]; [lia|exfalso].
      eapply (Hno _ Hp Hc), ps_submit; eauto; [apply stuck_helpers; auto; lia|rewrite (co_local _ _ Q); lia].
  - exfalso. destruct (inflight_range p _ k HP ltac:(auto)) as (_ & Hk & Hh). assert (HH : 0 <= H) by (rewrite <- (po_bufs_len _ _ HP); lia).
    destruct (Hdecode p q pr k _ Hp Hc Hk (helpers_all p _ HP HH Hh)) as (rhs & rec & E & _). eapply (Hno _ Hp Hc), ps_decode; eauto.
  - exfalso. eapply (Hno _ Hp Hc), ps_mark; eauto.
  - exfalso. eapply (Hno _ Hp Hc), ps_publish; eauto.
Qed.

Lemma stuck_sent p j : 0 <= p < f -> 0 <= j < f -> j <> p -> (sent (exchange (seats s).[p])).[j] = cl p.
Proof.
  intros Hp Hj Hne. destruct (Hall p Hp) as (q & pr & Hc). pose proof (Hcalls _ _ _ Hp Hc) as Q.
  pose proof (so_part _ Hs p q pr Hp Hc) as HP. destruct (pstage (seats s).[p]) as [| |r] eqn:Es.
  - destruct (stuck_streaming p Hp Es).
  - pose proof (stuck_decoded p Hp Es) as E. pose proof (po_sent _ _ HP j Hj) as S0.
    destruct (Z.eq_dec (sent (exchange (seats s).[p])).[j] (cl p)) as [|Hn]; [assumption|exfalso]. destruct (Hpeer j Hj) as (Ej & _).
    eapply Hstuck, (step_send _ _ _ _ p q pr (peer j) s); eauto; rewrite ?Ej, ?(co_local _ _ Q); try lia.
    apply (in_peers p q pr Hp Hc). eauto.
  - apply (rp_returned _ _ (rg_part _ HR p q pr Hp Hc) r Es); assumption.
Qed.

Lemma stuck_received p j : 0 <= p < f -> pstage (seats s).[p] = Streaming -> 0 <= j < f -> j <> p -> (received (exchange (seats s).[p])).[j] = cl j.
Proof.
  intros Hp Hstg Hj Hne. destruct (Hall p Hp) as (q & pr & Hc). destruct (Hall j Hj) as (qj & prj & Hcj).
  pose proof (so_part _ Hs p q pr Hp Hc) as HP. pose proof (po_received _ _ HP j Hj) as R0.
  destruct (so_inbox _ Hs p q pr j Hp Hc Hj Hne) as [I1 I2]. unfold sent_by in I1, I2. rewrite Hcj, stuck_sent in I1, I2 by auto.
  destruct (Z.eq_dec (received (exchange (seats s).[p])).[j] (cl j)) as [|Hn]; [assumption|exfalso].
  rewrite seqZ_cons in I2 by lia. cbn [map] in I2. destruct (Hpeer j Hj) as (Ej & _ & Ec).
  assert (Hx : In (peer j) (pq_peers q)) by (apply (in_peers p q pr Hp Hc); eauto).
  pose proof (session_peers _ _ _ _ Hs Hp Hc) as Hpeers.
  pose proof I2 as I3. rewrite <- Ej in I3 at 1. assert (Hr : (received (exchange (seats s).[p])).[peer_partition_id (peer j)] < peer_shard_count (peer j)) by (rewrite Ej, Ec; lia).
  destruct (received_frame p q pr _ Hp Hc HP (peer j) _ _ Hpeers Hx I3 Hr) as (i & _ & _ & _ & _ & _ & E).
  eapply (stuck_partition p q pr _ Hp Hc), (ps_receive q pr (peer j)); eauto.
Qed.

Lemma stuck_producer_done p q pr : 0 <= p < f -> calls.[p] = Some (q, pr) -> pstage (seats s).[p] = Streaming -> producer_done q (seats s).[p] = true.
Proof.
  intros Hp Hc Hstg. unfold producer_done. pose proof (Hcalls _ _ _ Hp Hc) as Q. rewrite Hstg, bool_decide_true, (co_local _ _ Q), stuck_decoded by auto.
  rewrite Z.geb_leb. destruct (Z.leb_spec (cl p) (cl p)); [|lia]. cbn [andb].
  apply andb_true_intro. split; [apply andb_true_intro; split|].
  - apply forallb_forall. intros x Hx. apply (in_peers p q pr Hp Hc) in Hx as (j & Hj & Hne & ->). destruct (Hpeer j Hj) as (-> & _).
    rewrite stuck_sent by auto. rewrite Z.geb_leb. apply Z.leb_refl.
  - apply forallb_forall. intros x Hx. apply (in_peers p q pr Hp Hc) in Hx as (j & Hj & Hne & ->). destruct (Hpeer j Hj) as (-> & _ & ->).
    rewrite stuck_received by auto. rewrite Z.geb_leb. apply Z.leb_refl.
  - apply bool_decide_eq_true. apply set_eq. intros g. split; [|set_solver]. intros Hg. exfalso.
    eapply (stuck_partition p q pr _ Hp Hc), (ps_mark_received q pr g); eauto.
Qed.

(** The run ends with every proxy's success. *)
Lemma stuck_returned p : 0 <= p < f -> pstage (seats s).[p] = Returned true.
Proof.
  intros Hp. destruct (Hall p Hp) as (q & pr & Hc). pose proof (Hcalls _ _ _ Hp Hc) as Q. pose proof (stuck_partition p q pr) as Hno.
  pose proof (so_part _ Hs p q pr Hp Hc) as HP. pose proof (rg_part _ HR p q pr Hp Hc) as [R1 R2 R3 R4].
  destruct (pstage (seats s).[p]) as [| |r] eqn:Es.
  - destruct (stuck_streaming p Hp Es).
  - exfalso. pose proof (stuck_producer_done p q pr Hp Hc Es) as Hd. destruct (po_writer _ _ HP) as [W1 W2].
    destruct (writer (write_stream (seats s).[p])) as [|k|] eqn:Ew.
    + destruct (Z.eq_dec (next_shard (write_stream (seats s).[p])) T) as [E|E].
      * eapply (Hno _ Hp Hc), ps_writer_ends; eauto. rewrite (co_total _ _ Q). lia.
      * eapply (Hno _ Hp Hc), ps_writer_takes; eauto; [rewrite (co_total _ _ Q); lia|]. eapply all_ready; eauto. lia.
    + eapply (Hno _ Hp Hc), ps_writes; eauto.
    + destruct (recovery_result (write_stream (seats s).[p])) as [done|] eqn:Er.
      * eapply (Hno _ Hp Hc), ps_return; eauto; [congruence|]. right. split; [exact Hd|]. congruence.
      * set (l := {| wl_connected := true; wl_arrives := bs; wl_renames := true; wl_answers := true; wl_tag := ""%string |}).
        assert (Hl : negb (link_holds bs l) = false) by (unfold link_holds, l; cbn; rewrite Z.leb_refl; reflexivity).
        destruct (RecoveryToDatanodeBreakdown bs l (pq_failed_keys q).[p] (streamed (write_stream (seats s).[p])) (pq_replaced q).[p] (storage s))
          as [done st'] eqn:Ed.
        eapply Hstuck. rewrite <- Hl. eapply (step_store _ _ _ _ p q pr l done st' s); eauto; apply Q.
  - destruct (R3 r eq_refl) as [-> _]. reflexivity.
Qed.
End Progress.

(** ** Termination: every step, a fault or not, makes this smaller *)

Definition unmarked_count (u : gset Z) : Z := sum_below T (fun g => if bool_decide (g ∈ u) then 1 else 0).
Definition unconnected (c : gset Z) : Z := sum_below f (fun j => if bool_decide (j ∈ c) then 0 else 1).
Definition to_send (L : Z) (l : list Z) : Z := sum_below f (fun j => L - l.[j]).
Definition to_receive (l : list Z) : Z := sum_below f (fun j => 2 * (cl j - l.[j])).
Definition to_read (bufs : list (option block)) : Z := sum_below H (fun i => match bufs.[i] with None => 1 | Some _ => 0 end).
Definition to_decode (L : Z) (d : Decoder) : Z :=
  6 * (L - next_submit d) + match decode_submit_shard d with Some _ => 5 | None => 0 end
  + match decode_stage d with Waiting => 0 | Inflight _ => 4 | Copied _ => 3 | Marked _ => 2 end.
Definition to_write (ws : WriteStream) : Z :=
  3 * (T - next_shard ws) + match writer ws with WriterIdle => 1 | WriterHas _ => 2 | WriterClosed => 0 end
  + match recovery_result ws with None => 1 | Some _ => 0 end.
Definition to_end (stage : PartitionStage) (failed : bool) : Z :=
  match stage with Connecting => 2 | Streaming => 1 | Returned _ => 0 end + (if failed then 0 else 1).

Definition weight (p : Z) (P : Partition) : Z :=
  to_end (pstage P) (exchange_failed P) + to_read (get_bufs P) + to_decode (cl p) (decoder P) + unconnected (connected (exchange P))
  + to_send (cl p) (sent (exchange P)) + to_receive (received (exchange P)) + unmarked_count (unmarked (exchange P)) + to_write (write_stream P).

Definition session_weight (s : Session) : Z := sum_below f (fun p => match calls.[p] with Some _ => weight p (seats s).[p] | None => 0 end).

Lemma decoded_le p P : part_ok p P -> decoded_shards (decoder P) <= cl p.
Proof.
  intros HP. destruct (po_decoder _ _ HP) as (D1 & D2 & D3).
  destruct (decode_stage (decoder P)), (decode_submit_shard (decoder P)); lia.
Qed.

Lemma weight_nonneg p P : part_ok p P -> 0 <= weight p P.
Proof.
  intros HP. unfold weight, to_end, to_read, to_decode, to_write, unconnected, to_send, to_receive, unmarked_count.
  destruct (po_decoder _ _ HP) as (D1 & D2 & D3). destruct (po_writer _ _ HP) as [W1 _]. pose proof (decoded_le p P HP) as D4.
  assert (0 <= sum_below f (fun j => cl p - (sent (exchange P)).[j])) by (apply sum_below_nonneg; intros j Hj; pose proof (po_sent _ _ HP j Hj); lia).
  assert (0 <= sum_below f (fun j => 2 * (cl j - (received (exchange P)).[j]))) by (apply sum_below_nonneg; intros j Hj; pose proof (po_received _ _ HP j Hj); lia).
  assert (0 <= sum_below f (fun j => if bool_decide (j ∈ connected (exchange P)) then 0 else 1)) by (apply sum_below_nonneg; intros j _; destruct (bool_decide _); lia).
  assert (0 <= sum_below T (fun g => if bool_decide (g ∈ unmarked (exchange P)) then 1 else 0)) by (apply sum_below_nonneg; intros j _; destruct (bool_decide _); lia).
  assert (0 <= sum_below H (fun i => match (get_bufs P).[i] with None => 1 | Some _ => 0 end)) by (apply sum_below_nonneg; intros j _; destruct (get_bufs P).[j]; lia).
  destruct (pstage P), (exchange_failed P), (decode_submit_shard (decoder P)), (decode_stage (decoder P)), (writer (write_stream P)),
    (recovery_result (write_stream P)); lia.
Qed.

Lemma to_write_marked q g ws : to_write (mark_write_shard_ready q g ws) = to_write ws.
Proof. unfold mark_write_shard_ready. destruct (_ || _); reflexivity. Qed.

Lemma unmarked_insert g u : unmarked_count ({[g]} ∪ u) <= unmarked_count u + 1.
Proof.
  unfold unmarked_count. destruct (decide (0 <= g < T)) as [Hg|Hg].
  - rewrite (sum_below_change T (fun i => if bool_decide (i ∈ u) then 1 else 0) _ g Hg).
    + repeat case_bool_decide; lia.
    + intros j Hj. clear -Hj. repeat case_bool_decide; first [lia | exfalso; set_solver].
  - transitivity (sum_below T (fun i => if bool_decide (i ∈ u) then 1 else 0)); [|lia]. apply sum_below_le. intros i Hi.
    assert (Hne : i <> g) by lia. clear -Hne. repeat case_bool_decide; first [lia | exfalso; set_solver].
Qed.

Lemma unmarked_delete g u : 0 <= g < T -> g ∈ u -> unmarked_count (u ∖ {[g]}) = unmarked_count u - 1.
Proof.
  intros Hg Hin. unfold unmarked_count. rewrite (sum_below_change T (fun i => if bool_decide (i ∈ u) then 1 else 0) _ g Hg).
  - rewrite bool_decide_false, bool_decide_true by (clear -Hin; set_solver). lia.
  - intros j Hj. clear -Hj. repeat case_bool_decide; first [lia | exfalso; set_solver].
Qed.

Lemma unconnected_insert j c : unconnected ({[j]} ∪ c) <= unconnected c.
Proof. apply sum_below_le. intros i _. clear. repeat case_bool_decide; first [lia | exfalso; set_solver]. Qed.

Lemma unconnected_new j c : 0 <= j < f -> j ∉ c -> unconnected ({[j]} ∪ c) < unconnected c.
Proof.
  intros Hj Hn. apply (sum_below_lt f _ _ j Hj).
  - rewrite bool_decide_true, bool_decide_false by (clear -Hn; set_solver). lia.
  - intros i _. clear. repeat case_bool_decide; first [lia | exfalso; set_solver].
Qed.

Lemma to_receive_less j l : 0 <= j < f -> zlen l = f -> to_receive l.[j <- l.[j] + 1] = to_receive l - 2.
Proof.
  intros Hj Hl. unfold to_receive. rewrite (sum_below_change f (fun j => 2 * (cl j - l.[j])) _ j Hj).
  - rewrite zget_zset_eq by lia. lia.
  - intros i Hne. rewrite zget_zset_ne by congruence. reflexivity.
Qed.

Lemma to_send_less L j l : 0 <= j < f -> zlen l = f -> to_send L l.[j <- l.[j] + 1] = to_send L l - 1.
Proof.
  intros Hj Hl. unfold to_send. rewrite (sum_below_change f (fun j => L - l.[j]) _ j Hj).
  - rewrite zget_zset_eq by lia. lia.
  - intros i Hne. rewrite zget_zset_ne by congruence. reflexivity.
Qed.

Lemma to_read_less i l bytes : 0 <= i < H -> zlen l = H -> l.[i] = None -> to_read l.[i <- Some bytes] = to_read l - 1.
Proof.
  intros Hi Hl Hn. unfold to_read. rewrite (sum_below_change H (fun i => match l.[i] with None => 1 | Some _ => 0 end) _ i Hi).
  - rewrite zget_zset_eq, Hn by lia. lia.
  - intros j Hne. rewrite zget_zset_ne by congruence. reflexivity.
Qed.

Lemma to_end_return stage failed r : (forall r, stage <> Returned r) -> to_end (Returned r) failed < to_end stage failed.
Proof. intros Hn. unfold to_end. destruct stage; [lia|lia|]. destruct (Hn result eq_refl). Qed.

Lemma partition_step_weight p q pr fault P P' : 0 <= p < f -> calls.[p] = Some (q, pr) -> part_ok p P -> peers_ok p P ->
  partition_step q pr fault P P' -> weight p P' < weight p P.
Proof.
  intros Hp Hc HP Hin Hst. pose proof (Hcalls _ _ _ Hp Hc) as Q. pose proof (po_writer _ _ HP) as [W1 _].
  inversion Hst; subst; repeat match goal with x := _ |- _ => subst x end; unfold weight;
    cbn [with_stage fail_exchange with_bufs with_recovered with_decoder with_exchange with_stream
         pstage exchange_failed get_bufs decoder exchange write_stream connected sent received unmarked];
    repeat match goal with E : pstage P = _ |- _ => rewrite E end; repeat match goal with E : exchange_failed P = _ |- _ => rewrite E end;
    rewrite ?to_write_marked;
    try (unfold to_end; lia);
    try (unfold to_decode; cbn [next_submit decode_submit_shard decode_stage];
         repeat match goal with E : decode_stage _ = _ |- _ => rewrite E end;
         repeat match goal with E : decode_submit_shard _ = _ |- _ => rewrite E end; lia);
    try (unfold to_end, to_write; cbn [close_writer next_shard writer recovery_result];
         repeat match goal with E : writer _ = _ |- _ => rewrite E end; lia).
  - match goal with E : In _ _, E' : _ < _ |- _ => apply (in_peers p q pr Hp Hc) in E as (j & Hj & Hne & ->); destruct (Hpeer j Hj) as (-> & _) end.
    destruct (po_ex_lens _ _ HP) as (_ & X2 & _). rewrite to_receive_less by auto. pose proof (unmarked_insert (peer_shard_begin (peer j) + (received (exchange P)).[j]) (unmarked (exchange P))). lia.
  - match goal with E : _ ∈ unmarked _ |- _ => pose proof E as Hg end. destruct (po_ready _ _ HP g ltac:(set_solver)) as [G1 _].
    rewrite unmarked_delete by assumption. lia.
  - unfold to_end, to_write. cbn [close_writer next_shard writer recovery_result]. rewrite H1. destruct (exchange_failed P); lia.
  - destruct (_ =? _); cbn [fail_exchange with_stream pstage exchange_failed get_bufs decoder exchange write_stream];
      unfold to_end, to_write; cbn [close_writer next_shard writer recovery_result];
      repeat match goal with E : writer _ = _ |- _ => rewrite E end; repeat match goal with E : pstage P = _ |- _ => rewrite E end; destruct (exchange_failed P); lia.
  - match goal with E : forall r, _ <> Returned r |- context [to_end (Returned ?r) ?x] => pose proof (to_end_return _ x r E) end. lia.
Qed.

Lemma session_weight_lt s s' p q pr : 0 <= p < f -> calls.[p] = Some (q, pr) -> weight p (seats s').[p] < weight p (seats s).[p] ->
  (forall p', 0 <= p' < f -> p' <> p -> weight p' (seats s').[p'] <= weight p' (seats s).[p']) -> session_weight s' < session_weight s.
Proof.
  intros Hp Hc Hlt Hle. apply (sum_below_lt f _ _ p Hp); [rewrite Hc; exact Hlt|]. intros j Hj. destruct (calls.[j]); [|lia].
  destruct (Z.eq_dec j p) as [->|Hne]; [lia|apply Hle; assumption].
Qed.

Lemma seat_weight_lt s p q pr P : session_ok s -> 0 <= p < f -> calls.[p] = Some (q, pr) -> weight p P < weight p (seats s).[p] ->
  session_weight (with_seat p P s) < session_weight s.
Proof.
  intros Hs Hp Hc Hlt. apply (session_weight_lt s _ p q pr Hp Hc); [rewrite seat_get, Z.eqb_refl by assumption; exact Hlt|].
  intros p' Hp' Hne. rewrite seat_get by assumption. destruct (Z.eqb_spec p' p); [contradiction|lia].
Qed.

Lemma pair_weight_lt s p q pr j P Q : session_ok s -> 0 <= p < f -> calls.[p] = Some (q, pr) -> 0 <= j < f -> j <> p ->
  weight p P < weight p (seats s).[p] -> weight j Q <= weight j (seats s).[j] ->
  session_weight (with_seat j Q (with_seat p P s)) < session_weight s.
Proof.
  intros Hs Hp Hc Hj Hne Hlt Hle. pose proof (so_len _ Hs) as El.
  assert (Eseat : forall x, (seats (with_seat j Q (with_seat p P s))).[x] = if x =? j then Q else if x =? p then P else (seats s).[x]).
  { intros x. cbn [with_seat seats]. rewrite zget_zset by (rewrite zlen_zset; lia). rewrite zget_zset by lia. reflexivity. }
  apply (session_weight_lt s _ p q pr Hp Hc).
  - rewrite Eseat, Z.eqb_refl. destruct (Z.eqb_spec p j); [congruence|exact Hlt].
  - intros p' Hp' Hne'. rewrite Eseat. destruct (Z.eqb_spec p' j) as [->|]; [exact Hle|]. destruct (Z.eqb_spec p' p); [contradiction|lia].
Qed.

Lemma session_step_weight fault s s' : session_ok s -> step fault s s' -> session_weight s' < session_weight s.
Proof.
  intros Hs Hst. destruct Hst as [p q pr fault P' s Hp Hc Hst|p q pr x s Hp Hc Hx Hlt _ Hn _|p q pr i src bytes s Hp Hc P Hstg HL Hi Hsrc Hn Hr
    |p q pr x s Hp Hc Hx P j k Hstg HkL Hk|p q pr l done st s Hp Hc P _ _ Hw' Hn E].
  - apply (seat_weight_lt s p q pr P' Hs Hp Hc). eapply partition_step_weight; eauto; [eapply so_part; eauto|eapply session_peers; eauto].
  - apply (in_peers p q pr Hp Hc) in Hx as (i & Hi & Hne & ->). destruct (Hpeer i Hi) as (Ei & _). subst j w1. rewrite Ei in *.
    rewrite seat_get by assumption. destruct (Z.eqb_spec i p) as [|_]; [contradiction|].
    apply (pair_weight_lt s p q pr i _ _ Hs Hp Hc Hi Hne); unfold weight;
      cbn [connect with_exchange pstage exchange_failed get_bufs decoder exchange write_stream connected sent received unmarked].
    + pose proof (unconnected_new i _ Hi Hn). lia.
    + pose proof (unconnected_insert p (connected (exchange (seats s).[i]))). lia.
  - pose proof (so_part _ Hs p q pr Hp Hc) as HP. fold P in HP. pose proof (po_bufs_len _ _ HP) as Hl.
    assert (Hi' : 0 <= i < H) by (apply lookup_lt_Some in Hsrc; rewrite <- (co_sources _ _ (Hcalls _ _ _ Hp Hc)); lia).
    apply (seat_weight_lt s p q pr _ Hs Hp Hc). unfold weight.
    cbn [with_bufs pstage exchange_failed get_bufs decoder exchange write_stream]. rewrite to_read_less by assumption. fold P. lia.
  - apply (in_peers p q pr Hp Hc) in Hx as (i & Hi & Hne & ->). destruct (Hpeer i Hi) as (Ei & _). subst j w1 k. rewrite Ei in *.
    rewrite seat_get by assumption. destruct (Z.eqb_spec i p) as [|_]; [contradiction|].
    pose proof (so_part _ Hs p q pr Hp Hc) as HP. fold P in HP. destruct (po_ex_lens _ _ HP) as (X1 & _ & _).
    apply (pair_weight_lt s p q pr i _ _ Hs Hp Hc Hi Hne); unfold weight;
      cbn [count_sent deliver with_exchange pstage exchange_failed get_bufs decoder exchange write_stream connected sent received unmarked].
    + rewrite to_send_less by auto. fold P. lia.
    + lia.
  - change (session_weight {| seats := seats (with_seat p (answer_write done P) s); storage := st |} < session_weight s).
    change (session_weight (with_seat p (answer_write done P) s) < session_weight s).
    apply (seat_weight_lt s p q pr _ Hs Hp Hc). unfold weight, to_write.
    cbn [answer_write with_stream pstage exchange_failed get_bufs decoder exchange write_stream next_shard writer recovery_result]. fold P. rewrite Hn. lia.
Qed.

Lemma session_weight_nonneg s : session_ok s -> 0 <= session_weight s.
Proof.
  intros Hs. apply sum_below_nonneg. intros p Hp. destruct (calls.[p]) as [[q pr]|] eqn:Hc; [|lia]. apply weight_nonneg. eapply so_part; eauto.
Qed.

Lemma session_bounded n s s' : session_ok s -> nsteps (fun a b => exists fault, step fault a b) n s s' -> Z.of_nat n <= session_weight s - session_weight s'.
Proof.
  intros Hs Hr. induction Hr as [|n a b c [fault Hst] _ IH]; [lia|].
  pose proof (session_step_weight fault a b Hs Hst). specialize (IH (session_step_ok fault a b Hs Hst)). lia.
Qed.

(** What the data nodes hold, in every state of every run. *)
Lemma session_safe s : rtc (fun a b => exists fault, step fault a b) (start_session bs calls st0) s ->
  storage_ok s /\ forall p, 0 <= p < f -> pstage (seats s).[p] = Returned true -> (exists q pr, calls.[p] = Some (q, pr)) ->
    files_at (fst (node p)) (snd (node p)) (storage s) !! key p = Some blk.[p].
Proof.
  intros Hr. pose proof (session_run_ok _ _ start_ok Hr) as Hs. split; [apply (so_storage _ Hs)|].
  intros p Hp Hret (q & pr & Hc). pose proof (po_returned _ _ (so_part _ Hs p q pr Hp Hc) Hret) as E.
  destruct (so_storage _ Hs) as [_ S2]. specialize (S2 p Hp). cbv zeta in S2. rewrite E in S2. destruct S2 as [tag W]. apply (we_done _ _ _ _ _ _ W eq_refl).
Qed.

(** A run without faults that cannot go on has restored everything. *)
Lemma session_complete s :
  (forall p, 0 <= p < f -> exists q pr, calls.[p] = Some (q, pr)) ->
  (forall p q pr j, 0 <= p < f -> calls.[p] = Some (q, pr) -> 0 <= j < f -> p < j ->
    listening !! (peer_ip (peer j), phase2_exchange_port one_proxy_per_host (peer_port (peer j)) j (pq_exchange_epoch q)) = Some j) ->
  (forall p q pr i src st, 0 <= p < f -> calls.[p] = Some (q, pr) -> 0 < cl p -> intact st ->
    0 <= i -> pq_sources q !! Z.to_nat i = Some src -> exists bytes, read_helper bs q src st = Some bytes) ->
  rtc (step false) (start_session bs calls st0) s -> (forall s', ~ step false s s') ->
  forall p, 0 <= p < f -> pstage (seats s).[p] = Returned true.
Proof.
  intros Hall Hlisten Hreadable Hr Hstuck. destruct (regular_run _ _ start_ok start_regular Hr) as [Hs HR].
  intros p Hp. eapply stuck_returned; eauto.
Qed.

(** Such runs exist: stepping on, the weight runs out. *)
Lemma regular_run_ends s : session_ok s -> exists s', rtc (step false) s s' /\ forall s'', ~ step false s' s''.
Proof.
  intros Hs. remember (Z.to_nat (session_weight s)) as n eqn:En. revert s Hs En.
  induction n as [n IH] using lt_wf_ind. intros s Hs En.
  destruct (classic (exists s', step false s s')) as [[s' Hst]|Hno].
  - pose proof (session_step_weight _ _ _ Hs Hst). pose proof (session_step_ok _ _ _ Hs Hst) as Hs'.
    pose proof (session_weight_nonneg s' Hs'). destruct (IH (Z.to_nat (session_weight s')) ltac:(lia) s' Hs' eq_refl) as (s'' & Hr & Hend).
    exists s''. split; [eapply rtc_l; eauto|exact Hend].
  - exists s. split; [apply rtc_refl|]. intros s' Hst. apply Hno. eauto.
Qed.

(** ** Who takes part *)

(** A connection has a caller with a smaller id and a listener with a greater
    one; whoever streams, or returned success, is connected to all others. *)
Definition link_ok (a b : Z) : Prop := exists q pr, calls.[a] = Some (q, pr) /\
  listening !! (peer_ip (peer b), phase2_exchange_port one_proxy_per_host (peer_port (peer b)) b (pq_exchange_epoch q)) = Some b.

Definition through (p : Z) (P : Partition) : Prop :=
  pstage P = Streaming \/ pstage P = Returned true -> forall j, 0 <= j < f -> j <> p -> j ∈ connected (exchange P).

Record linked (s : Session) : Prop := {
  lk_len : zlen (seats s) = f;
  lk_through : forall p q pr, 0 <= p < f -> calls.[p] = Some (q, pr) -> through p (seats s).[p];
  lk_link : forall p j, 0 <= p < f -> 0 <= j < f -> j <> p -> j ∈ connected (exchange (seats s).[p]) -> link_ok (Z.min p j) (Z.max p j) }.

Lemma partition_step_through p q pr fault P P' : 0 <= p < f -> calls.[p] = Some (q, pr) -> through p P -> partition_step q pr fault P P' ->
  through p P' /\ connected (exchange P') = connected (exchange P).
Proof.
  intros Hp Hc HT' Hst. inversion Hst; subst; repeat match goal with x := _ |- _ => subst x end; try (split; [exact HT'|reflexivity]).
  - split; [|reflexivity]. intros _ j Hj Hne. cbn [with_stage exchange].
    match goal with E : forallb _ _ = true |- _ => rewrite forallb_forall in E; pose proof (E (peer j) ltac:(apply (in_peers p q pr Hp Hc); eauto)) as E' end.
    destruct (Hpeer j Hj) as (Ej & _). rewrite Ej in E'. breflect. assumption.
  - destruct (_ =? _); split; try exact HT'; reflexivity.
  - split; [|reflexivity]. intros [[=]|[= Er]]. apply HT'. left. unfold phase2_result in Er. breflect.
    match goal with E : _ \/ _ |- _ => destruct E as [E|[E _]]; [congruence|] end. unfold producer_done in *. breflect. assumption.
Qed.

Lemma linked_seat s p P : linked s -> 0 <= p < f -> (forall q pr, calls.[p] = Some (q, pr) -> through p P) ->
  connected (exchange P) = connected (exchange (seats s).[p]) -> linked (with_seat p P s).
Proof.
  intros [L1 L2 L3] Hp Ht Hcn. assert (Eseat : forall x, (seats (with_seat p P s)).[x] = if x =? p then P else (seats s).[x]).
  { intros x. cbn [with_seat seats]. apply zget_zset. lia. }
  split.
  - cbn [with_seat seats]. rewrite zlen_zset. exact L1.
  - intros x q pr Hx Hc. rewrite Eseat. destruct (Z.eqb_spec x p) as [->|]; eauto.
  - intros x j Hx Hj Hne. rewrite Eseat. destruct (Z.eqb_spec x p) as [->|]; rewrite ?Hcn; auto.
Qed.

Lemma linked_connect s p j : linked s -> 0 <= p < f -> 0 <= j < f -> link_ok (Z.min p j) (Z.max p j) -> linked (with_seat p (connect j (seats s).[p]) s).
Proof.
  intros [L1 L2 L3] Hp Hj Hl. assert (Eseat : forall x, (seats (with_seat p (connect j (seats s).[p]) s)).[x] = if x =? p then connect j (seats s).[p] else (seats s).[x]).
  { intros x. cbn [with_seat seats]. apply zget_zset. lia. }
  split.
  - cbn [with_seat seats]. rewrite zlen_zset. exact L1.
  - intros x q pr Hx Hc. rewrite Eseat. specialize (L2 x q pr Hx Hc). destruct (Z.eqb_spec x p) as [->|]; [|exact L2].
    intros Hst i Hi Hne. specialize (L2 Hst i Hi Hne). cbn. clear -L2. set_solver.
  - intros x i Hx Hi Hne. rewrite Eseat. destruct (Z.eqb_spec x p) as [->|]; [|apply L3; assumption].
    cbn. rewrite elem_of_union, elem_of_singleton. intros [->|Hin]; [exact Hl|apply L3; assumption].
Qed.

Lemma linked_step fault s s' : linked s -> step fault s s' -> linked s'.
Proof.
  intros HL Hst. destruct Hst as [p q pr fault P' s Hp Hc Hst|p q pr x s Hp Hc Hx Hlt _ _ Hls|p q pr i src bytes s Hp Hc P Hstg _ Hi Hsrc Hn Hr
    |p q pr x s Hp Hc Hx P j k Hstg HkL Hk|p q pr l done st s Hp Hc P _ _ Hw' Hn E].
  - destruct (partition_step_through p q pr _ _ _ Hp Hc (lk_through _ HL p q pr Hp Hc) Hst) as [A1 A2]. apply linked_seat; auto.
  - apply (in_peers p q pr Hp Hc) in Hx as (i & Hi & Hne & ->). destruct (Hpeer i Hi) as (Ei & _). subst j w1. rewrite Ei in *.
    assert (Hl : link_ok p i) by (exists q, pr; auto).
    apply linked_connect; [apply linked_connect; auto| | |]; rewrite ?Z.min_l, ?Z.max_r, ?Z.min_r, ?Z.max_l by lia; auto.
  - apply linked_seat; auto. intros _ _ _. exact (lk_through _ HL p q pr Hp Hc).
  - apply (in_peers p q pr Hp Hc) in Hx as (i & Hi & Hne & ->). destruct (Hpeer i Hi) as (Ei & _). subst j w1 k. rewrite Ei in *.
    assert (HL1 : linked (with_seat p (count_sent i P) s)) by (apply linked_seat; auto; intros _ _ _; exact (lk_through _ HL p q pr Hp Hc)).
    apply linked_seat; auto. intros q' pr' Hc'. exact (lk_through _ HL1 i q' pr' Hi Hc').
  - destruct (linked_seat s p (answer_write done P) HL Hp) as [B1 B2 B3]; [intros _ _ _; exact (lk_through _ HL p q pr Hp Hc)|reflexivity|].
    split; [exact B1|exact B2|exact B3].
Qed.

Lemma start_linked : linked (start_session bs calls st0).
Proof.
  split.
  - cbn [start_session seats]. rewrite length_map. reflexivity.
  - intros p q pr Hp Hc. cbn [start_session seats]. rewrite zget_map, Hc by exact Hp. intros [[=]|[=]].
  - intros p j Hp Hj Hne. cbn [start_session seats]. rewrite zget_map by assumption. destruct (calls.[p]) as [[? ?]|]; cbn; set_solver.
Qed.

(** A partition that returned success shows that all others take part. *)
Lemma success_needs_all s p q pr j : rtc (fun a b => exists fault, step fault a b) (start_session bs calls st0) s ->
  0 <= p < f -> calls.[p] = Some (q, pr) -> pstage (seats s).[p] = Returned true -> 0 <= j < f -> j <> p -> link_ok (Z.min p j) (Z.max p j).
Proof.
  intros Hr Hp Hc Hret Hj Hne. assert (HL : linked s).
  { pose proof start_linked as HL. induction Hr as [|a b c [fault Hst] _ IH]; [exact HL|]. apply IH; [exact Hret|]. eapply linked_step; eauto. }
  apply (lk_link _ HL p j Hp Hj Hne). apply (lk_through _ HL p q pr Hp Hc); auto.
Qed.
End Session.
