(* ===== verification/PipelineRunSpec.v ===== *)
(** The roles of a pipeline pass on exactly the shards they should, under every
    interleaving of their threads and every fault. *)
From S2P Require Import PortAllocator.
From S2P Require Import Prelude GF256 EcKernel Groups Codes Decode DecodeSpec RepairPlan PipelineCodec PipelinePlan PipelineSession CNum Text.
From S2P Require Import Toolbox Placement Coordinator AppendPlan Client DataNode ProxyAppend StripeWrite ReadPath SingleRepair MultiRecovery MultiRecoverySpec.
From S2P Require Import PipelineMessages PipelineRun.

Arguments shards : simpl never.
Arguments width : simpl never.
Arguments pipe_window : simpl never.
Arguments view : simpl never.

(** * Queues that hold consecutive shards *)

Section Queues.
Context (val : Z -> block).

(** Shards [a .. b - 1]. *)
Definition items (a b : Z) : list PipelineQueuedShard := map (fun s => queued_shard s (val s)) (seqZ a (b - a)).

Lemma items_nil a : items a a = [].
Proof. unfold items. rewrite Z.sub_diag. reflexivity. Qed.

Lemma items_snoc a b : a <= b -> items a (b + 1) = items a b ++ [queued_shard b (val b)].
Proof.
  intros H. unfold items. replace (b + 1 - a) with ((b - a) + 1) by lia. rewrite seqZ_app by lia. rewrite map_app. cbn.
  replace (a + (b - a)) with b by lia. reflexivity.
Qed.

Lemma items_cons a b : a < b -> items a b = queued_shard a (val a) :: items (a + 1) b.
Proof.
  intros H. unfold items. rewrite seqZ_cons by lia. cbn [map]. do 3 f_equal. lia.
Qed.

Lemma items_len a b : a <= b -> zlen (items a b) = b - a.
Proof. intros H. unfold items. rewrite length_map, zlen_seqZ. lia. Qed.

(** [q] holds the shards from [a] on; as long as it is open, up to [b]. *)
Definition queue_ok (a b : Z) (q : PipelineBoundedQueue) : Prop :=
  exists b' tail, q_ q = items a b' ++ tail /\ a <= b' <= b /\ (tail = [] \/ exists c, tail = [queued_end c]) /\
    (closed_ q = false -> b' = b /\ tail = []) /\ 1 <= capacity_ q.

Lemma new_queue_ok cap a : queue_ok a a (new_queue cap).
Proof. exists a, []. rewrite items_nil. unfold new_queue. cbn [q_ closed_ capacity_]. rewrite Z.gtb_ltb. repeat split; auto; try lia. destruct (Z.ltb_spec 0 cap); lia. Qed.

Lemma close_ok a b q : queue_ok a b q -> queue_ok a b (close q).
Proof. intros (b' & tl & H1 & H2 & H3 & _ & H5). exists b', tl. repeat split; auto; try lia; discriminate. Qed.

Lemma push_ok a b q q' : queue_ok a b q -> push (queued_shard b (val b)) q = Some q' -> queue_ok a (b + 1) q'.
Proof.
  intros (b' & tl & H1 & H2 & H3 & H4 & H5) E. unfold push in E. destruct (closed_ q) eqn:Ec.
  - injection E as <-. exists b', tl. repeat split; auto; try lia; congruence.
  - destruct (_ <? _); [|discriminate]. injection E as <-. destruct H4 as [-> ->]; [reflexivity|]. rewrite app_nil_r in H1.
    exists (b + 1), []. cbn [q_ closed_]. rewrite H1, app_nil_r, items_snoc by lia. repeat split; auto; lia.
Qed.

Lemma push_end_ok a b c q q' : queue_ok a b q -> push (queued_end c) q = Some q' -> queue_ok a b (close q').
Proof.
  intros (b' & tl & H1 & H2 & H3 & H4 & H5) E. unfold push in E. destruct (closed_ q) eqn:Ec.
  - injection E as <-. apply close_ok. exists b', tl. repeat split; auto; try lia; congruence.
  - destruct (_ <? _); [|discriminate]. injection E as <-. destruct H4 as [-> ->]; [reflexivity|]. rewrite app_nil_r in H1.
    exists b, [queued_end c]. cbn [q_ closed_ close]. rewrite H1. repeat split; eauto; try lia; discriminate.
Qed.

Lemma pop_shard_ok a b q item q' : queue_ok a b q -> pop q = Popped item q' -> qs_end_of_stream item = false ->
  item = queued_shard a (val a) /\ a < b /\ queue_ok (a + 1) b q'.
Proof.
  intros (b' & tl & H1 & H2 & H3 & H4) E Hi. unfold pop in E. destruct (q_ q) as [|x rest] eqn:Eq; [destruct (closed_ q); discriminate|].
  injection E as <- <-. destruct (Z.eq_dec a b') as [->|Hne].
  - rewrite items_nil in H1. cbn [app] in H1. destruct H3 as [->|[c ->]]; [discriminate|]. injection H1 as -> _. discriminate.
  - rewrite items_cons in H1 by lia. injection H1 as -> ->. split; [reflexivity|]. split; [lia|].
    exists b', tl. cbn [q_ closed_]. repeat split; auto; try lia; apply H4; assumption.
Qed.
End Queues.

Lemma push_open item queue queue' : closed_ queue = false -> push item queue = Some queue' ->
  closed_ queue' = false /\ q_ queue' = q_ queue ++ [item].
Proof. unfold push. intros ->. destruct (_ <? _); [|discriminate]. intros [= <-]. auto. Qed.

Lemma pop_closed queue item queue' : pop queue = Popped item queue' -> closed_ queue' = closed_ queue /\ q_ queue = item :: q_ queue'.
Proof. unfold pop. destruct (q_ queue); [destruct (closed_ queue); discriminate|]. intros [= <- <-]. auto. Qed.

Lemma push_len item queue queue' : push item queue = Some queue' -> zlen (q_ queue') <= zlen (q_ queue) + 1.
Proof. unfold push. destruct (closed_ queue); [intros [= <-]; lia|]. destruct (_ <? _); [|discriminate]. intros [= <-]. cbn [q_]. rewrite length_app. cbn [length]. lia. Qed.

Lemma pop_len item queue queue' : pop queue = Popped item queue' -> zlen (q_ queue) = zlen (q_ queue') + 1.
Proof. intros H. destruct (pop_closed _ _ _ H) as [_ ->]. cbn [length]. lia. Qed.

Lemma pop_end_list val a b c queue : a <= b -> q_ queue = items val a b ++ [queued_end c] ->
  (pop queue = PopClosed \/ exists item queue', pop queue = Popped item queue' /\ qs_end_of_stream item = true) -> a = b.
Proof.
  intros Hab Hq Hp. destruct (Z.eq_dec a b) as [|Hne]; [assumption|]. rewrite items_cons in Hq by lia. exfalso.
  unfold pop in Hp. rewrite Hq in Hp. cbn [app] in Hp. destruct Hp as [Hp|(item & queue' & [= <- _] & He)]; [discriminate|discriminate He].
Qed.

(** A queue that is not full takes an item; one that is full gives one. *)
Lemma push_or_pop val a b item queue : queue_ok val a b queue ->
  (exists queue', push item queue = Some queue') \/ (exists queue', a < b /\ pop queue = Popped (queued_shard a (val a)) queue').
Proof.
  intros (b' & tl & E1 & E2 & E3 & E4 & E5). unfold push. destruct (closed_ queue) eqn:Ec; [left; eauto|].
  destruct (Z.ltb_spec (zlen (q_ queue)) (capacity_ queue)); [left; eauto|right]. destruct (E4 eq_refl) as [-> ->]. rewrite app_nil_r in E1.
  destruct (Z.eq_dec a b) as [->|Hne]; [rewrite E1, items_nil in *; cbn in *; lia|]. rewrite items_cons in E1 by lia.
  unfold pop. rewrite E1. eexists. split; [lia|reflexivity].
Qed.

Lemma queue_open val a b queue : queue_ok val a b queue -> closed_ queue = false -> q_ queue = items val a b.
Proof. intros (b' & tl & E1 & _ & _ & E4 & _) Hc. destruct (E4 Hc) as [-> ->]. rewrite E1. apply app_nil_r. Qed.

Lemma pop_of_list queue item rest : q_ queue = item :: rest -> exists queue', pop queue = Popped item queue' /\ q_ queue' = rest /\ closed_ queue' = closed_ queue.
Proof. intros E. unfold pop. rewrite E. eauto. Qed.

(** The end marker is reached once all shards are taken. *)
Lemma pop_marker val a b c queue item queue' : a <= b -> q_ queue = items val a b ++ [queued_end c] -> pop queue = Popped item queue' ->
  qs_end_of_stream item = true -> a = b /\ item = queued_end c.
Proof.
  intros Hab Hq Hp Hi. destruct (pop_closed _ _ _ Hp) as [_ E]. rewrite Hq in E. destruct (Z.eq_dec a b) as [->|Hne].
  - rewrite items_nil in E. injection E as <- _. auto.
  - rewrite items_cons in E by lia. injection E as <- _. discriminate.
Qed.

(** A queue with nothing but shards has no marker and is not closed. *)
Lemma no_marker val a b queue : q_ queue = items val a b -> closed_ queue = false ->
  pop queue <> PopClosed /\ forall item queue', pop queue = Popped item queue' -> qs_end_of_stream item = false.
Proof.
  intros Hq Hc. unfold pop. rewrite Hq. unfold items. destruct (seqZ a (b - a)); cbn [map]; [rewrite Hc|]; (split; [discriminate|]); intros item queue'; [discriminate|].
  intros [= <- _]. reflexivity.
Qed.

(** * Frames *)

(** Shards [a .. b - 1] on a connection. *)
Definition frames (slot w : Z) (val : Z -> block) (a b : Z) : list PipelineFrame := map (fun s => shard_frame slot s w (val s)) (seqZ a (b - a)).

Lemma frames_nil slot w val a : frames slot w val a a = [].
Proof. unfold frames. rewrite Z.sub_diag. reflexivity. Qed.

Lemma frames_app slot w val a b c : a <= b <= c -> frames slot w val a c = frames slot w val a b ++ frames slot w val b c.
Proof.
  intros H. unfold frames. replace (c - a) with ((b - a) + (c - b)) by lia. rewrite seqZ_app, map_app by lia.
  replace (a + (b - a)) with b by lia. reflexivity.
Qed.

Lemma frames_one slot w val a : frames slot w val a (a + 1) = [shard_frame slot a w (val a)].
Proof. unfold frames. replace (a + 1 - a) with 1 by lia. reflexivity. Qed.

Lemma frames_cons slot w val a b : a < b -> frames slot w val a b = shard_frame slot a w (val a) :: frames slot w val (a + 1) b.
Proof. intros H. rewrite (frames_app _ _ _ a (a + 1) b) by lia. rewrite frames_one. reflexivity. Qed.

Lemma u32_int s : 0 <= s < 2 ^ 31 -> int_of_u32 (u32 s) = s.
Proof. intros H. unfold int_of_u32, u32. rewrite Z.mod_small by lia. destruct (Z.ltb_spec s (2 ^ 31)); lia. Qed.

(** * Reading a block in shards *)

Lemma read_all_shard w s src : 0 <= w -> 0 <= s -> (s + 1) * w <= zlen src ->
  read_all w (zdrop (s * w) src) = Some (peek w (s * w) src, zdrop ((s + 1) * w) src).
Proof.
  intros Hw Hs Hl. unfold read_all. rewrite zlen_zdrop by nia. destruct (Z.ltb_spec (Z.max 0 (zlen src - s * w)) w); [nia|].
  unfold peek, ztake, zdrop. rewrite drop_drop. repeat f_equal. nia.
Qed.

(** What connections and counters may look like: [e] frames were put on it and
    [ended]; [r] were taken, and the end if [taken]. *)
Definition on_wire (slot w n : Z) (val : Z -> block) (r e : Z) (taken ended : bool) : list PipelineFrame :=
  frames slot w val r e ++ (if ended && negb taken then [end_frame slot n] else []).

(** What a role emits in one step. *)
Definition emits (slot w n : Z) (val : Z -> block) (e e' : Z) (ended ended' : bool) (out : list PipelineFrame) : Prop :=
  e <= e' /\ (ended = true -> ended' = true /\ e' = e) /\ out = frames slot w val e e' ++ (if ended' && negb ended then [end_frame slot n] else []).

Lemma emits_none slot w n val e ended : emits slot w n val e e ended ended [].
Proof. split; [lia|]. split; [auto|]. rewrite frames_nil. destruct ended; reflexivity. Qed.

Lemma emits_one slot w n val e : emits slot w n val e (e + 1) false false [shard_frame slot e w (val e)].
Proof. split; [lia|]. split; [discriminate|]. rewrite frames_one. reflexivity. Qed.

Lemma emits_end slot w n val e : emits slot w n val e e false true [end_frame slot n].
Proof. split; [lia|]. split; [discriminate|]. rewrite frames_nil. reflexivity. Qed.

Lemma on_wire_emit slot w n val r e e' taken ended ended' out : r <= e -> (taken = true -> ended = true) ->
  emits slot w n val e e' ended ended' out -> on_wire slot w n val r e taken ended ++ out = on_wire slot w n val r e' taken ended'.
Proof.
  intros Hr Ht (H1 & H2 & ->). unfold on_wire. destruct ended.
  - destruct H2 as [-> ->]; [reflexivity|]. rewrite frames_nil, andb_false_r, !app_nil_r. reflexivity.
  - destruct taken; [discriminate (Ht eq_refl)|]. cbn [negb andb]. rewrite app_nil_r, andb_true_r, app_assoc, <- frames_app by lia. reflexivity.
Qed.

(** The next frame on a connection. *)
Lemma on_wire_next slot w n val r e taken ended frame rest : r <= e -> on_wire slot w n val r e taken ended = frame :: rest ->
  (r < e /\ frame = shard_frame slot r w (val r) /\ rest = on_wire slot w n val (r + 1) e taken ended) \/
  (r = e /\ ended = true /\ taken = false /\ frame = end_frame slot n /\ rest = on_wire slot w n val r e true ended).
Proof.
  intros Hr E. unfold on_wire in E. destruct (Z.eq_dec r e) as [->|Hne].
  - right. rewrite frames_nil in E. cbn [app] in E. destruct ended, taken; try discriminate. cbn [andb negb] in E. injection E as <- <-.
    split; [reflexivity|]. do 3 (split; [reflexivity|]). unfold on_wire. rewrite frames_nil. reflexivity.
  - left. rewrite frames_cons in E by lia. injection E as <- <-. split; [lia|]. split; reflexivity.
Qed.

Ltac stage_cases := repeat match goal with
  | H : RoleReturned _ = RoleReturned _ |- _ => injection H as H
  | H : ?x = ?y |- _ => discriminate H
  | H : ?x <> ?x |- _ => destruct (H eq_refl)
  | H : forall r, RoleReturned ?b <> RoleReturned r |- _ => destruct (H b eq_refl)
  end.

(** Stages before the data flows. *)
Definition early (s : RoleStage) : Prop := s = RoleConnecting \/ s = RoleAccepting \/ s = RoleOpening.

Lemma early_not_streaming : ~ early RoleStreaming.
Proof. intros [|[|]]; discriminate. Qed.
Lemma early_not_returned r : ~ early (RoleReturned r).
Proof. intros [|[|]]; discriminate. Qed.
#[export] Hint Resolve early_not_streaming early_not_returned : core.

Definition b2z (b : bool) : Z := if b then 1 else 0.

(** Steps still ahead, three units each. *)
Definition stage_weight (s : RoleStage) : Z :=
  match s with RoleConnecting => 12 | RoleAccepting => 9 | RoleOpening => 6 | RoleStreaming => 3 | RoleReturned _ => 0 end.

Ltac role_cases := intros; try match goal with
  | H : early RoleStreaming |- _ => destruct (early_not_streaming H)
  | H : early (RoleReturned _) |- _ => destruct (early_not_returned _ H)
  end; stage_cases; try lia; auto.

(** * The head *)

Section Head.
Context (bs T W : Z) (q : PipelineRequest) (src : block) (st0 : Storage).
Notation n := (shards bs T q).
Notation w := (width bs T q).
Notation window := (pipe_window bs T W q).
Notation slot := (rc_eq_slot (rq_chain q)).
Context (Hw : 1 <= w) (Hn : 1 <= n) (Hsrc : zlen src = n * w).

Definition head_val (s : Z) : block := head_shard_bytes bs T q (peek w (s * w) src).

Record head_ok (ended : bool) (h : Head) : Prop := {
  ho_range : 0 <= shards_sent h <= head_shard h /\ head_shard h <= n;
  ho_early : early (head_stage h) -> ended = false /\ head_shard h = 0 /\ head_reading h = true /\ head_sending h = true /\ queue_ok head_val 0 0 (send_q h);
  ho_stream : head_stage h = RoleStreaming -> head_reading h = true -> head_stream h = zdrop (head_shard h * w) src;
  ho_single : head_stage h = RoleStreaming -> window <= 1 -> shards_sent h = head_shard h /\ ended = false /\ head_reading h = true;
  ho_sending : head_stage h = RoleStreaming -> 1 < window -> head_sending h = true ->
    ended = false /\ queue_ok head_val (shards_sent h) (head_shard h) (send_q h) }.

Notation ok := (fun ended ended' h h' out => head_ok ended' h' /\ emits slot w n head_val (shards_sent h) (shards_sent h') ended ended' out).

Lemma head_step_ok ended st fault out h h' : head_ok ended h -> datanode_stream bs T q (hop_key q 0) (hop_node q 0) st = src ->
  head_step bs T W q st fault out h h' -> exists ended', ok ended ended' h h' out.
Proof.
  intros [O1 O2 O3 O4 O5] Hst Hs. destruct Hs as [rest shard reading queue sending sent failed|h Hr Hs
    |raw stream rest shard queue sending sent failed Hwin Hlt Hread|stream shard queue sending sent failed Hwin Hlt Hread
    |stream shard queue sending sent failed Hwin Hge
    |raw stream rest shard queue queue' sending sent Hwin Hlt Hread Hpush|stream shard queue sending sent Hwin Hlt Hread
    |stream shard queue queue' sending sent failed Hwin Hge Hpush|item stream shard reading queue queue' sent failed Hwin Hpop Hitem
    |stream shard reading queue sent failed Hwin Hpop|stream shard reading queue sent failed Hwin|stream shard queue sending sent Hwin
    |stream shard queue sent failed Hwin]; cbn [head_stage head_stream head_shard head_reading send_q head_sending shards_sent head_failed] in *.
  - destruct (O2 ltac:(right; right; reflexivity)) as (-> & -> & -> & -> & Hq). assert (sent = 0) by lia. subst sent.
    exists false. split; [|apply emits_none]. split; cbn; role_cases.
  - exists ended. split; [|apply emits_none]. split; cbn; role_cases.
  - destruct (O4 eq_refl Hwin) as (-> & -> & _). rewrite (O3 eq_refl eq_refl), read_all_shard in Hread by nia. injection Hread as <- <-.
    exists false. split.
    + split; cbn; role_cases.
    + unfold put_shard. fold (head_val shard). apply emits_one.
  - exists ended. split; [|apply emits_none]. split; cbn; role_cases.
  - destruct (O4 eq_refl Hwin) as (-> & -> & _). exists true. split; [|apply emits_end]. split; cbn; role_cases.
  - rewrite (O3 eq_refl eq_refl), read_all_shard in Hread by nia. injection Hread as <- <-. exists ended. split; [|apply emits_none].
    split; cbn; role_cases. destruct O5 as [-> Hq]; auto. split; [reflexivity|].
    eapply push_ok; [exact Hq|exact Hpush].
  - exists ended. split; [|apply emits_none]. split; cbn; auto.
  - exists ended. split; [|apply emits_none]. split; cbn; role_cases.
    destruct O5 as [-> Hq]; auto. split; [reflexivity|]. eapply push_end_ok; [exact Hq|exact Hpush].
  - destruct (O5 eq_refl Hwin eq_refl) as [-> Hq]. destruct (pop_shard_ok _ _ _ _ _ _ Hq Hpop Hitem) as (-> & Hlt & Hq').
    exists false. split; [|apply emits_one]. split; cbn; role_cases.
  - destruct (O5 eq_refl Hwin eq_refl) as [-> _]. exists (negb failed). split; [|destruct failed; [apply emits_none|apply emits_end]].
    split; cbn; role_cases.
  - exists ended. split; [|apply emits_none]. split; cbn; role_cases.
  - exists ended. split; [|apply emits_none]. split; cbn; auto.
  - exists ended. split; [|apply emits_none]. split; cbn; role_cases.
Qed.

Lemma start_head_ok called : head_ok false (start_head bs T W called q).
Proof.
  unfold start_head. split; cbn; role_cases.
  all: try (destruct (_ && _); discriminate). split; [reflexivity|]. do 3 (split; [reflexivity|]). apply new_queue_ok.
Qed.

(** Without faults the queue is as long as it should be, and what ends has sent
    everything. *)
Record head_regular (ended : bool) (h : Head) : Prop := {
  hr_failed : head_failed h = false;
  hr_returned : forall r, head_stage h = RoleReturned r -> r = true /\ ended = true /\ shards_sent h = n;
  hr_reading : 1 < window -> head_reading h = true -> head_sending h = true /\ closed_ (send_q h) = false;
  hr_read : 1 < window -> head_reading h = false -> head_shard h = n /\ closed_ (send_q h) = true /\
    (head_sending h = true -> q_ (send_q h) = items head_val (shards_sent h) n ++ [queued_end 0]);
  hr_sent : 1 < window -> head_sending h = false -> ended = true /\ head_reading h = false /\ shards_sent h = n }.

Lemma head_step_regular ended st out h h' : head_ok ended h -> head_regular ended h ->
  datanode_stream bs T q (hop_key q 0) (hop_node q 0) st = src -> head_step bs T W q st false out h h' ->
  exists ended', ok ended ended' h h' out /\ head_regular ended' h'.
Proof.
  intros HO [R1 R2 R3 R4 R5] Hst Hs. destruct (head_step_ok ended st false out h h' HO Hst Hs) as (ended' & HO' & HE).
  exists ended'. split; [auto|]. destruct HO as [O1 O2 O3 O4 O5].
  inversion Hs; subst; clear Hs; cbn [head_stage head_stream head_shard head_reading send_q head_sending shards_sent head_failed] in *;
    try (rewrite O3, read_all_shard in * by (auto; nia)); try discriminate.
  - destruct (O2 ltac:(right; right; reflexivity)) as (-> & _). destruct HE as (_ & _ & E). rewrite frames_nil in E. destruct ended'; [discriminate|].
    split; cbn; role_cases.
  - split; cbn; role_cases.
  - destruct HE as (_ & _ & E). destruct (O4 eq_refl H) as (-> & -> & _). rewrite frames_nil in E. destruct ended'; [|discriminate].
    split; cbn; role_cases. repeat split; auto; lia.
  - destruct (R3 H eq_refl) as [-> Hc]. destruct (push_open _ _ _ Hc H2) as [Hc' _]. split; cbn; role_cases.
  - destruct H0 as [Hge|]; [|congruence]. assert (shard = n) by lia. subst shard. destruct (R3 H eq_refl) as [-> Hc].
    destruct (push_open _ _ _ Hc H1) as [Hc' Hq]. destruct (O5 eq_refl H eq_refl) as [-> Hok].
    split; cbn; role_cases. split; [reflexivity|]. split; [reflexivity|]. intros _.
    destruct Hok as (b' & tl & E1 & E2 & E3 & E4 & _). destruct (E4 Hc) as [-> ->]. rewrite Hq, E1, app_nil_r. reflexivity.
  - destruct (O5 eq_refl H eq_refl) as [-> Hok]. destruct (pop_shard_ok _ _ _ _ _ _ Hok H0 H1) as (-> & Hlt & _). destruct (pop_closed _ _ _ H0) as [Hc Hq].
    destruct HE as (_ & _ & E). rewrite frames_one in E. destruct ended'; [discriminate|].
    split; cbn; role_cases.
    + destruct (R3 H H3) as [_ Hc']. split; [reflexivity|]. congruence.
    + destruct (R4 H H3) as (-> & Hc' & Hl). split; [reflexivity|]. split; [congruence|]. intros _. specialize (Hl eq_refl).
      rewrite Hq, items_cons in Hl by lia. cbn [app] in Hl. injection Hl as Hl. exact Hl.
  - destruct reading.
    + exfalso. destruct (R3 H eq_refl) as [_ Hc]. destruct (O5 eq_refl H eq_refl) as [-> (b' & tl & E1 & E2 & E3 & E4 & _)]. destruct (E4 Hc) as [-> ->].
      rewrite app_nil_r in E1. destruct H0 as [H0|(item & queue' & H0 & Hi)].
      * unfold pop in H0. destruct (q_ queue); [rewrite Hc in H0; discriminate|discriminate].
      * destruct (pop_closed _ _ _ H0) as [_ Hq]. rewrite Hq in E1. unfold items in E1. destruct (seqZ _ _); [discriminate|]. injection E1 as -> _. discriminate.
    + destruct (R4 H eq_refl) as (-> & Hc & Hl). assert (sent = n) by (eapply (pop_end_list head_val sent n); eauto; lia); subst sent.
      destruct (O5 eq_refl H eq_refl) as [-> _]. destruct HE as (_ & _ & E). rewrite frames_nil, R1 in E. destruct ended'; [|discriminate].
      split; cbn; role_cases.
  - destruct (R5 H eq_refl) as (-> & _ & ->). destruct HE as (_ & E & _). destruct (E eq_refl) as [-> _].
    split; cbn; role_cases. split; [|auto]. rewrite R1, Z.eqb_refl in H0. cbn in H0. congruence.
Qed.

Lemma head_progress ended st h : head_ok ended h -> head_regular ended h -> head_stage h = RoleOpening \/ head_stage h = RoleStreaming ->
  exists out h', head_step bs T W q st false out h h'.
Proof.
  intros [O1 O2 O3 O4 O5] [R1 R2 R3 R4 R5] Hs.
  destruct h as [stage stream shard reading queue sending sent failed]; cbn [head_stage head_stream head_shard head_reading send_q head_sending shards_sent head_failed] in *.
  destruct Hs as [->| ->]; [eexists _, _; apply head_opens|]. destruct (Z.le_gt_cases window 1) as [Hwin|Hwin].
  - destruct (O4 eq_refl Hwin) as (-> & -> & ->). destruct (Z.lt_ge_cases shard n) as [Hlt|Hge].
    + eexists _, _. eapply head_sends_shard; auto. rewrite (O3 eq_refl eq_refl). apply read_all_shard; nia.
    + eexists _, _. apply head_ends; auto.
  - assert (Hwin' : 1 < window) by lia. subst failed. destruct reading.
    + destruct (R3 Hwin' eq_refl) as [-> Hc]. destruct (O5 eq_refl Hwin' eq_refl) as [-> Hq]. destruct (Z.lt_ge_cases shard n) as [Hlt|Hge].
      * assert (Hread : read_all w stream = Some (peek w (shard * w) src, zdrop ((shard + 1) * w) src)).
        { rewrite (O3 eq_refl eq_refl). apply read_all_shard; nia. }
        destruct (push_or_pop _ _ _ (queued_shard shard (head_val shard)) queue Hq) as [[queue' Hp]|(queue' & _ & Hp)].
        -- eexists _, _. eapply head_reads; eauto.
        -- eexists _, _. eapply head_sends; eauto.
      * destruct (push_or_pop _ _ _ (queued_end 0) queue Hq) as [[queue' Hp]|(queue' & _ & Hp)].
        -- eexists _, _. eapply head_read_ends; eauto.
        -- eexists _, _. eapply head_sends; eauto.
    + destruct (R4 Hwin' eq_refl) as (-> & Hc & Hq). destruct sending; [|eexists _, _; apply head_returns; auto].
      specialize (Hq eq_refl). destruct (q_ queue) as [|item rest] eqn:E; [destruct (items head_val sent n); discriminate|].
      assert (Hp : exists queue', pop queue = Popped item queue') by (unfold pop; rewrite E; eauto). destruct Hp as [queue' Hp].
      destruct (qs_end_of_stream item) eqn:Ei; eexists _, _; [eapply head_send_ends|eapply head_sends]; eauto.
Qed.

Lemma head_ended ended h : head_ok ended h -> head_regular ended h -> ended = true -> shards_sent h = n.
Proof.
  intros [O1 O2 O3 O4 O5] [R1 R2 R3 R4 R5] ->. destruct (head_stage h) as [| | | |r] eqn:E; try (destruct O2 as [? _]; [unfold early; solve [auto]|congruence]).
  - destruct (Z.le_gt_cases window 1) as [Hwin|Hwin]; [destruct (O4 eq_refl Hwin) as (_ & ? & _); congruence|].
    destruct (head_sending h); [destruct (O5 eq_refl ltac:(lia) eq_refl); congruence|]. apply R5; [lia|reflexivity].
  - destruct (R2 r eq_refl) as (_ & _ & ?). assumption.
Qed.

Definition head_weight (h : Head) : Z :=
  (n - head_shard h) + 3 * (n - shards_sent h) + b2z (head_reading h) + 3 * b2z (head_sending h) + stage_weight (head_stage h) + b2z (negb (head_failed h)).

Lemma head_weight_nonneg ended h : head_ok ended h -> 0 <= head_weight h.
Proof.
  intros [O1 _ _ _ _]. unfold head_weight. assert (0 <= stage_weight (head_stage h)) by (destruct (head_stage h); cbn; lia).
  destruct (head_reading h), (head_sending h), (head_failed h); cbn [b2z negb]; lia.
Qed.

(** Two units for a frame on a connection. *)
Lemma head_step_weight ended st fault out h h' : head_ok ended h -> head_step bs T W q st fault out h h' ->
  head_weight h' + 2 * zlen out < head_weight h.
Proof.
  intros [O1 O2 O3 O4 O5] Hs. unfold head_weight.
  inversion Hs; subst; clear Hs; cbn [head_stage head_stream head_shard head_reading send_q head_sending shards_sent head_failed stage_weight b2z negb length app] in *; try lia.
  - assert (3 <= stage_weight (head_stage h)) by (destruct (head_stage h); cbn; try lia; destruct (H result eq_refl)).
    destruct (head_failed h); cbn; lia.
  - destruct failed; cbn [length]; lia.
  - destruct failed; cbn; lia.
Qed.
End Head.

(** * A hop server *)

Section Hop.
Context (bs T W : Z) (q : PipelineRequest) (src : block) (prev : Z -> block).
Notation n := (shards bs T q).
Notation w := (width bs T q).
Notation window := (pipe_window bs T W q).
Notation slot := (rc_eq_slot (rq_chain q)).
Context (Hw : 1 <= w) (Hn : 1 <= n < 2 ^ 31) (Hsrc : zlen src = n * w) (Hprev : forall s, 0 <= s < n -> zlen (prev s) = w).

Definition hop_val (s : Z) : block :=
  glrc_pipeline_accumulate_range (prev s) (peek w (s * w) src) (hop_coef_at q (my_hop q)) w (pipeline_codec_from_request q).

(** [r] shards taken from upstream and its end if [taken], [a] worked on, the end
    sent if [ended]. *)
Record hop_ok (a r : Z) (taken ended : bool) (h : Hop) : Prop := {
  po_range : 0 <= shards_forwarded h <= a /\ a <= r <= n;
  po_early : early (hop_stage h) -> r = 0 /\ taken = false /\ ended = false /\ hop_reading h = true /\ hop_worker h = Working /\
    hop_sending h = true /\ queue_ok prev 0 0 (inbound_q h) /\ queue_ok hop_val 0 0 (outbound_q h);
  po_stream : hop_stage h = RoleStreaming -> hop_stream h = zdrop (a * w) src;
  po_single : hop_stage h = RoleStreaming -> window <= 1 -> shards_forwarded h = r /\ a = r /\ taken = false /\ ended = false;
  po_reading : hop_stage h = RoleStreaming -> 1 < window -> hop_reading h = true -> taken = false;
  po_working : hop_stage h = RoleStreaming -> 1 < window -> hop_worker h = Working -> queue_ok prev a r (inbound_q h);
  po_sending : hop_stage h = RoleStreaming -> 1 < window -> hop_sending h = true ->
    ended = false /\ queue_ok hop_val (shards_forwarded h) a (outbound_q h) }.

(** The frame a role takes, if any. *)
Definition takes (r r' : Z) (taken taken' : bool) (frame : option PipelineFrame) : Prop :=
  match frame with
  | None => r' = r /\ taken' = taken
  | Some fr => (r < n /\ r' = r + 1 /\ taken' = taken /\ fr = shard_frame slot r w (prev r)) \/
               (r' = r /\ taken' = true /\ fr = end_frame slot n)
  end.

Lemma shard_frame_fields r : 0 <= r < n -> exists hdr, shard_frame slot r w (prev r) = SHARD hdr (prev r) /\ int_of_u32 (hdr_shard_id hdr) = r.
Proof.
  intros Hr. unfold shard_frame. eexists. split.
  - f_equal. unfold ztake. apply take_ge. pose proof (Hprev r Hr). lia.
  - apply u32_int. lia.
Qed.

Lemma compute_ok a : 0 <= a < n -> compute_inbound_shard bs T q a (prev a) (zdrop (a * w) src) = Some (hop_val a, zdrop ((a + 1) * w) src).
Proof.
  intros Ha. unfold compute_inbound_shard. rewrite Hprev by exact Ha. destruct (Z.ltb_spec a 0), (Z.geb_spec a n); try lia.
  rewrite Z.eqb_refl. cbn [negb orb]. rewrite read_all_shard by nia. reflexivity.
Qed.

Ltac hop_cbn := cbn [hop_stage hop_stream inbound_q outbound_q hop_reading hop_worker hop_sending shards_forwarded upstream_end_count reader_failed pipeline_failed] in *.

Lemma takes_shard r r' taken taken' hdr payload : takes r r' taken taken' (Some (SHARD hdr payload)) -> 0 <= r <= n ->
  r < n /\ r' = r + 1 /\ taken' = taken /\ payload = prev r /\ int_of_u32 (hdr_shard_id hdr) = r.
Proof.
  intros [(Hr & -> & -> & E)|(_ & _ & E)] H0; [|discriminate]. destruct (shard_frame_fields r ltac:(lia)) as (hdr' & E' & Ei).
  rewrite E' in E. injection E as -> ->. auto.
Qed.

Lemma takes_end r r' taken taken' e : takes r r' taken taken' (Some (END e)) -> r' = r /\ taken' = true /\ int_of_u32 (end_shard_count e) = n.
Proof. intros [(_ & _ & _ & E)|(-> & -> & E)]; [discriminate|]. injection E as ->. split; [reflexivity|]. split; [reflexivity|]. apply u32_int. lia. Qed.

Notation ok := (fun a' r' taken' ended ended' h h' out =>
  hop_ok a' r' taken' ended' h' /\ emits slot w n hop_val (shards_forwarded h) (shards_forwarded h') ended ended' out).

Lemma hop_step_ok a r r' taken taken' ended st fault frame out h h' : hop_ok a r taken ended h -> takes r r' taken taken' frame ->
  datanode_stream bs T q (hop_key q (my_hop q)) (hop_node q (my_hop q)) st = src ->
  hop_step bs T W q st fault frame out h h' -> exists a' ended', ok a' r' taken' ended ended' h h' out.
Proof.
  intros [O1 O2 O3 O4 O5 O6 O7] Ht Hst Hs. inversion Hs; subst; clear Hs; hop_cbn; try (destruct Ht as [-> ->]).
  - destruct (O2 ltac:(right; right; reflexivity)) as (-> & -> & -> & -> & -> & -> & Hi & Ho). assert (a = 0) by lia. subst a. assert (forwarded = 0) by lia. subst forwarded.
    exists 0, false. split; [|apply emits_none]. split; cbn; role_cases.
  - exists a, ended. split; [|apply emits_none]. split; cbn; role_cases.
  - destruct (O4 eq_refl H) as (-> & -> & -> & ->). destruct (takes_shard _ _ _ _ _ _ Ht ltac:(lia)) as (Hr & -> & -> & -> & Ei).
    subst shard. rewrite Ei in *. rewrite (O3 eq_refl), compute_ok in H0 by lia. injection H0 as <- <-. exists (r + 1), false. split; [|apply emits_one].
    split; cbn; role_cases.
  - destruct (O4 eq_refl H) as (-> & -> & -> & ->). destruct (takes_shard _ _ _ _ _ _ Ht ltac:(lia)) as (Hr & -> & -> & -> & Ei).
    rewrite Ei, (O3 eq_refl), compute_ok in H0 by lia. discriminate.
  - destruct (O4 eq_refl H) as (-> & -> & -> & ->). destruct (takes_end _ _ _ _ _ Ht) as (-> & -> & Ei). subst complete. rewrite Ei.
    exists r, (n =? r). split; [|destruct (n =? r); [apply emits_end|apply emits_none]]. split; cbn; role_cases.
  - destruct (takes_shard _ _ _ _ _ _ Ht ltac:(lia)) as (Hr & -> & -> & -> & Ei). rewrite Ei in *.
    exists a, ended. split; [|apply emits_none]. split; cbn; role_cases. eapply push_ok; [apply O6; auto|eassumption].
  - destruct (takes_end _ _ _ _ _ Ht) as (-> & -> & Ei). exists a, ended. split; [|apply emits_none]. split; cbn; role_cases.
    eapply push_end_ok; [apply O6; auto|eassumption].
  - exists a, ended. split; [|apply emits_none]. split; cbn; role_cases. apply close_ok, O6; auto.
  - exists a, ended. split; [|apply emits_none]. split; cbn; role_cases; [apply close_ok, O6; auto|].
    destruct O7 as [-> Hq]; auto. split; [reflexivity|apply close_ok, Hq].
  - destruct (pop_shard_ok _ _ _ _ _ _ (O6 eq_refl H eq_refl) H0 H1) as (-> & Hlt & Hq'). cbn [queued_shard qs_shard_id qs_payload] in *.
    rewrite (O3 eq_refl), compute_ok in H2 by lia. injection H2 as <- <-. exists (a + 1), ended. split; [|apply emits_none].
    split; cbn; role_cases. destruct O7 as [-> Hq]; auto. split; [reflexivity|]. eapply push_ok; eassumption.
  - exists a, ended. split; [|apply emits_none]. split; cbn; role_cases.
  - exists a, ended. split; [|apply emits_none]. split; cbn; role_cases.
  - exists a, ended. split; [|apply emits_none]. split; cbn; role_cases.
  - exists a, ended. split; [|apply emits_none]. split; cbn; role_cases. destruct O7 as [-> Hq]; auto. split; [reflexivity|]. eapply push_end_ok; eassumption.
  - destruct (O7 eq_refl H eq_refl) as [-> Hq]. destruct (pop_shard_ok _ _ _ _ _ _ Hq H0 H1) as (-> & Hlt & Hq').
    exists a, false. split; [|apply emits_one]. split; cbn; role_cases.
  - destruct (O7 eq_refl H eq_refl) as [-> Hq]. exists a, (negb failed). split; [|destruct failed; [apply emits_none|apply emits_end]].
    split; cbn; role_cases.
  - exists a, ended. split; [|apply emits_none]. split; cbn; role_cases. apply close_ok, O6; auto.
  - exists a, ended. split; [|apply emits_none]. split; cbn; role_cases.
Qed.

Lemma start_hop_ok called : hop_ok 0 0 false false (start_hop bs T W called q).
Proof.
  unfold start_hop. split; cbn; role_cases. all: try (destruct (_ && _); discriminate).
  do 6 (split; [reflexivity|]). split; apply new_queue_ok.
Qed.

Record hop_regular (a r : Z) (taken ended : bool) (h : Hop) : Prop := {
  pr_flags : reader_failed h = false /\ pipeline_failed h = false;
  pr_returned : forall res, hop_stage h = RoleReturned res -> res = true /\ ended = true /\ shards_forwarded h = n /\ taken = true /\ r = n;
  pr_reading : 1 < window -> hop_reading h = true -> hop_worker h = Working /\ closed_ (inbound_q h) = false;
  pr_read : 1 < window -> hop_reading h = false -> taken = true /\ r = n /\
    (hop_worker h = Working -> closed_ (inbound_q h) = true /\ q_ (inbound_q h) = items prev a n ++ [queued_end n]);
  pr_ending : 1 < window -> hop_worker h <> Working -> hop_reading h = false /\ a = n /\ upstream_end_count h = n;
  pr_open : 1 < window -> hop_worker h <> Done -> hop_sending h = true /\ closed_ (outbound_q h) = false;
  pr_done : 1 < window -> hop_worker h = Done -> closed_ (outbound_q h) = true /\
    (hop_sending h = true -> q_ (outbound_q h) = items hop_val (shards_forwarded h) n ++ [queued_end 0]);
  pr_sent : 1 < window -> hop_sending h = false -> hop_worker h = Done /\ shards_forwarded h = n /\ ended = true }.

(** The end comes after all shards. *)
Definition takes_in_order (r : Z) (frame : option PipelineFrame) : Prop := forall e, frame = Some (END e) -> r = n.

Lemma hop_step_regular a r r' taken taken' ended st frame out h h' : hop_ok a r taken ended h -> hop_regular a r taken ended h ->
  takes r r' taken taken' frame -> takes_in_order r frame ->
  datanode_stream bs T q (hop_key q (my_hop q)) (hop_node q (my_hop q)) st = src ->
  hop_step bs T W q st false frame out h h' -> exists a' ended', ok a' r' taken' ended ended' h h' out /\ hop_regular a' r' taken' ended' h'.
Proof.
  intros HO [[R1 R1'] R2 R3 R4 R5 R6 R7 R8] Ht Hin Hst Hs. pose proof HO as [O1 O2 O3 O4 O5 O6 O7].
  inversion Hs; subst; hop_cbn; subst; try destruct Ht as [-> ->].
  - destruct (O2 ltac:(right; right; reflexivity)) as (-> & -> & -> & -> & -> & -> & Hi & Ho). assert (a = 0) by lia. subst a. assert (forwarded = 0) by lia. subst forwarded.
    exists 0, false. split; [split; [|apply emits_none]; split; cbn; role_cases|]. split; cbn; role_cases.
  - destruct (O4 eq_refl H) as (-> & -> & -> & ->). destruct (takes_shard _ _ _ _ _ _ Ht ltac:(lia)) as (Hr & -> & -> & -> & Ei).
    subst shard. rewrite Ei in *. rewrite (O3 eq_refl), compute_ok in H0 by lia. injection H0 as <- <-. exists (r + 1), false.
    split; [split; [|apply emits_one]; split; cbn; role_cases|]. split; cbn; role_cases.
  - destruct (O4 eq_refl H) as (-> & -> & -> & ->). destruct (takes_shard _ _ _ _ _ _ Ht ltac:(lia)) as (Hr & -> & -> & -> & Ei).
    rewrite Ei, (O3 eq_refl), compute_ok in H0 by lia. discriminate.
  - destruct (O4 eq_refl H) as (-> & -> & -> & ->). pose proof (Hin _ eq_refl) as Er. destruct (takes_end _ _ _ _ _ Ht) as (-> & -> & Ei). subst complete. rewrite Ei.
    subst r. rewrite Z.eqb_refl. exists n, true. split; [split; [|apply emits_end]; split; cbn; role_cases|]. split; cbn; role_cases.
  - destruct (takes_shard _ _ _ _ _ _ Ht ltac:(lia)) as (Hr & -> & -> & -> & Ei). rewrite Ei in *. destruct (R3 H eq_refl) as [-> Hc].
    destruct (push_open _ _ _ Hc H0) as [Hc' _].
    exists a, ended. split; [split; [|apply emits_none]; split; cbn; role_cases; eapply push_ok; [apply O6; auto|eassumption]|]. split; cbn; role_cases.
  - pose proof (Hin _ eq_refl) as Er. destruct (takes_end _ _ _ _ _ Ht) as (-> & -> & Ei). rewrite Ei in *. destruct (R3 H eq_refl) as [-> Hc].
    destruct (push_open _ _ _ Hc H0) as [Hc' Hq]. rewrite (queue_open _ _ _ _ (O6 eq_refl H eq_refl) Hc) in Hq. subst r.
    exists a, ended. split; [split; [|apply emits_none]; split; cbn; role_cases; eapply push_end_ok; [apply O6; auto|eassumption]|]. split; cbn; role_cases.
  - discriminate.
  - pose proof (O6 eq_refl H eq_refl) as Hi. destruct (pop_shard_ok _ _ _ _ _ _ Hi H0 H1) as (-> & Hlt & Hq'). cbn [queued_shard qs_shard_id qs_payload] in *.
    rewrite (O3 eq_refl), compute_ok in H2 by lia. injection H2 as <- <-. destruct (R6 H ltac:(discriminate)) as [-> Hc]. destruct (push_open _ _ _ Hc H3) as [Hc' _].
    destruct (pop_closed _ _ _ H0) as [Hci Hqi].
    exists (a + 1), ended. split.
    { split; [|apply emits_none]. split; cbn; role_cases. destruct O7 as [-> Hq]; auto. split; [reflexivity|]. eapply push_ok; eassumption. }
    split; cbn; role_cases.
    + destruct (R3 H H4) as [_ Hc0]. split; [reflexivity|congruence].
    + destruct (R4 H H4) as (-> & -> & Hl). do 2 (split; [reflexivity|]). intros _. destruct (Hl eq_refl) as [Hc0 Hl'].
      split; [congruence|]. rewrite Hqi, items_cons in Hl' by lia. injection Hl' as Hl'. exact Hl'.
  - pose proof (O6 eq_refl H eq_refl) as Hi. destruct (pop_shard_ok _ _ _ _ _ _ Hi H0 H1) as (-> & Hlt & Hq'). cbn [queued_shard qs_shard_id qs_payload] in *.
    rewrite (O3 eq_refl), compute_ok in H2 by lia. discriminate.
  - destruct reading.
    + exfalso. destruct (R3 H eq_refl) as [_ Hc]. destruct (no_marker _ _ _ _ (queue_open _ _ _ _ (O6 eq_refl H eq_refl) Hc) Hc) as [_ Hm].
      rewrite (Hm _ _ H0) in H1. discriminate.
    + destruct (R4 H eq_refl) as (-> & -> & Hl). destruct (Hl eq_refl) as [_ Hl']. destruct (pop_marker prev a n n _ _ _ ltac:(lia) Hl' H0 H1) as [-> ->].
      exists n, ended. split; [split; [|apply emits_none]; split; cbn; role_cases|]. destruct (R6 H ltac:(discriminate)) as [-> Hc]. split; cbn; role_cases. do 2 (split; [reflexivity|]). discriminate.
  - exfalso. destruct reading.
    + destruct (R3 H eq_refl) as [_ Hc]. destruct (no_marker _ _ _ _ (queue_open _ _ _ _ (O6 eq_refl H eq_refl) Hc) Hc) as [Hm _]. contradiction.
    + destruct (R4 H eq_refl) as (-> & -> & Hl). destruct (Hl eq_refl) as [_ Hl']. unfold pop in H0. rewrite Hl' in H0. destruct (items prev a n); discriminate.
  - destruct (R5 H ltac:(discriminate)) as (-> & -> & ->). destruct (R6 H ltac:(discriminate)) as [-> Hc]. destruct (push_open _ _ _ Hc H0) as [Hc' Hq].
    destruct (O7 eq_refl H eq_refl) as [-> Ho]. rewrite (queue_open _ _ _ _ Ho Hc) in Hq. destruct (R4 H eq_refl) as (-> & -> & _).
    exists n, false. split; [split; [|apply emits_none]; split; cbn; role_cases|].
    { split; [reflexivity|]. eapply push_end_ok; eassumption. }
    split; cbn; role_cases. do 2 (split; [reflexivity|]). discriminate.
  - destruct (O7 eq_refl H eq_refl) as [-> Hq]. destruct (pop_shard_ok _ _ _ _ _ _ Hq H0 H1) as (-> & Hlt & Hq'). destruct (pop_closed _ _ _ H0) as [Hco Hqo].
    exists a, false. split; [split; [|apply emits_one]; split; cbn; role_cases|]. split; cbn; role_cases.
    + destruct (R6 H H3) as [_ Hc]. split; [reflexivity|congruence].
    + destruct (R7 H H3) as [Hc Hl]. split; [congruence|]. intros _. specialize (Hl eq_refl). destruct (R5 H ltac:(congruence)) as (_ & -> & _).
      rewrite Hqo, items_cons in Hl by lia. injection Hl as Hl. exact Hl.
  - destruct (O7 eq_refl H eq_refl) as [-> Hq]. destruct (decide (worker = Done)) as [->|Hnd].
    + destruct (R7 H eq_refl) as [Hc Hl]. destruct (R5 H ltac:(discriminate)) as (-> & -> & ->). assert (forwarded = n) as ->.
      { eapply (pop_end_list hop_val forwarded n); eauto. lia. }
      exists n, true. split; [split; [|apply emits_end]; split; cbn; role_cases|]. split; cbn; role_cases.
    + exfalso. destruct (R6 H Hnd) as [_ Hc]. destruct (no_marker _ _ _ _ (queue_open _ _ _ _ Hq Hc) Hc) as [Hm Hm'].
      destruct H0 as [H0|(item & outq' & H0 & Hi)]; [contradiction|]. rewrite (Hm' _ _ H0) in Hi. discriminate.
  - destruct (R4 H eq_refl) as (-> & -> & _). destruct (R8 H eq_refl) as (_ & -> & ->). destruct (R5 H ltac:(discriminate)) as (_ & -> & ->).
    exists n, true. split; [split; [|apply emits_none]; split; cbn; role_cases|]. split; cbn; role_cases.
    rewrite Z.eqb_refl, andb_false_r in H0. cbn in H0. subst. auto.
Qed.

(** A hop server moves, or waits for the next frame of its predecessor. *)
Lemma hop_progress a r taken ended st h : hop_ok a r taken ended h -> hop_regular a r taken ended h ->
  datanode_stream bs T q (hop_key q (my_hop q)) (hop_node q (my_hop q)) st = src ->
  hop_stage h = RoleOpening \/ hop_stage h = RoleStreaming ->
  (exists out h', hop_step bs T W q st false None out h h') \/
  (taken = false /\ forall frame r' taken', takes r r' taken taken' (Some frame) -> takes_in_order r (Some frame) ->
    exists out h', hop_step bs T W q st false (Some frame) out h h').
Proof.
  intros [O1 O2 O3 O4 O5 O6 O7] [[R1 R1'] R2 R3 R4 R5 R6 R7 R8] Hst Hs.
  destruct h as [stage stream inq outq reading worker sending forwarded count rfailed failed]; hop_cbn. subst rfailed failed.
  destruct Hs as [->| ->]; [left; eexists _, _; apply hop_opens|]. destruct (Z.le_gt_cases window 1) as [Hwin|Hwin].
  - right. destruct (O4 eq_refl Hwin) as (-> & -> & -> & ->). split; [reflexivity|]. intros [hdr payload|e] r' taken' Ht Hin.
    + destruct (takes_shard _ _ _ _ _ _ Ht ltac:(lia)) as (Hr & -> & -> & -> & Ei). eexists _, _. eapply hop_forwards; [exact Hwin|].
      rewrite Ei, (O3 eq_refl), compute_ok by lia. reflexivity.
    + eexists _, _. apply hop_ends. exact Hwin.
  - assert (Hwin' : 1 < window) by lia. destruct worker.
    + destruct (O6 eq_refl Hwin' eq_refl) as (b' & tl & Hi). pose proof (O6 eq_refl Hwin' eq_refl) as Hq.
      destruct (R6 Hwin' ltac:(discriminate)) as [-> Hco]. destruct (O7 eq_refl Hwin' eq_refl) as [-> Ho].
      destruct (push_or_pop hop_val forwarded a (queued_shard a (hop_val a)) outq Ho) as [[outq' Hp]|(outq' & _ & Hp)];
        [|left; eexists _, _; eapply hop_sends; eauto].
      destruct (pop inq) as [| |item inq'] eqn:Epop.
      * right. destruct reading; [|exfalso; destruct (R4 Hwin' eq_refl) as (_ & _ & Hl); destruct (Hl eq_refl) as [_ Hl'];
          unfold pop in Epop; rewrite Hl' in Epop; destruct (items prev a n); discriminate].
        split; [apply O5; auto|]. assert (Hcap : forall it, exists q', push it inq = Some q').
        { intros it. destruct (push_or_pop prev a r it inq Hq) as [?|(q' & _ & Hp')]; [assumption|]. rewrite Epop in Hp'. discriminate. }
        intros [hdr payload|e] r' taken' Ht Hin.
        -- destruct (Hcap (queued_shard (int_of_u32 (hdr_shard_id hdr)) payload)) as [q' Hq']. eexists _, _. eapply hop_receives; eauto.
        -- destruct (Hcap (queued_end (int_of_u32 (end_shard_count e)))) as [q' Hq']. eexists _, _. eapply hop_receives_end; eauto.
      * left. eexists _, _. eapply hop_work_closed; eauto.
      * left. destruct (qs_end_of_stream item) eqn:Ei; [eexists _, _; eapply hop_work_ends; eauto|].
        destruct (pop_shard_ok _ _ _ _ _ _ Hq Epop Ei) as (-> & Hlt & _). eexists _, _. eapply hop_works; eauto.
        cbn [queued_shard qs_shard_id qs_payload]. rewrite (O3 eq_refl). apply compute_ok. lia.
    + left. destruct (R6 Hwin' ltac:(discriminate)) as [-> Hco]. destruct (O7 eq_refl Hwin' eq_refl) as [-> Ho].
      destruct (push_or_pop hop_val forwarded a (queued_end 0) outq Ho) as [[outq' Hp]|(outq' & _ & Hp)];
        eexists _, _; [eapply hop_work_done|eapply hop_sends]; eauto.
    + left. destruct (R5 Hwin' ltac:(discriminate)) as (-> & -> & ->). destruct sending; [|eexists _, _; apply hop_returns; auto].
      destruct (R7 Hwin' eq_refl) as [Hc Hl]. specialize (Hl eq_refl). destruct (q_ outq) as [|item rest] eqn:E; [destruct (items hop_val forwarded n); discriminate|].
      destruct (pop_of_list _ _ _ E) as (outq' & Hp & _).
      destruct (qs_end_of_stream item) eqn:Ei; eexists _, _; [eapply hop_send_ends|eapply hop_sends]; eauto.
Qed.

Lemma hop_ended a r taken ended h : hop_ok a r taken ended h -> hop_regular a r taken ended h -> ended = true -> shards_forwarded h = n.
Proof.
  intros [O1 O2 O3 O4 O5 O6 O7] [R1 R2 R3 R4 R5 R6 R7 R8] ->.
  destruct (hop_stage h) as [| | | |res] eqn:E; try (destruct O2 as (_ & _ & ? & _); [unfold early; solve [auto]|congruence]).
  - destruct (Z.le_gt_cases window 1) as [Hwin|Hwin]; [destruct (O4 eq_refl Hwin) as (_ & _ & _ & ?); congruence|].
    destruct (hop_sending h); [destruct (O7 eq_refl ltac:(lia) eq_refl); congruence|]. apply R8; [lia|reflexivity].
  - destruct (R2 res eq_refl) as (_ & _ & ? & _). assumption.
Qed.

Definition worker_weight (s : WorkerStage) : Z := match s with Working => 2 | Ending => 1 | Done => 0 end.

Definition hop_weight (h : Hop) : Z :=
  zlen (q_ (inbound_q h)) + 3 * (n - shards_forwarded h) + b2z (hop_reading h) + worker_weight (hop_worker h) + 3 * b2z (hop_sending h) +
  stage_weight (hop_stage h).

Lemma hop_weight_nonneg a r taken ended h : hop_ok a r taken ended h -> 0 <= hop_weight h.
Proof.
  intros [O1 _ _ _ _ _ _]. unfold hop_weight. assert (0 <= stage_weight (hop_stage h)) by (destruct (hop_stage h); cbn; lia).
  assert (0 <= worker_weight (hop_worker h)) by (destruct (hop_worker h); cbn; lia). destruct (hop_reading h), (hop_sending h); cbn [b2z]; lia.
Qed.

Lemma hop_step_weight a r taken ended st fault frame out h h' : hop_ok a r taken ended h -> hop_step bs T W q st fault frame out h h' ->
  hop_weight h' + 2 * zlen out < hop_weight h + (if frame is Some _ then 2 else 0).
Proof.
  intros [O1 O2 O3 O4 O5 O6 O7] Hs. unfold hop_weight.
  inversion Hs; subst; clear Hs; hop_cbn; cbn [stage_weight worker_weight b2z length app close q_] in *; try lia.
  all: repeat match goal with
    | E : push _ _ = Some _ |- _ => apply push_len in E
    | E : pop _ = Popped _ _ |- _ => apply pop_len in E
    end; try lia.
  - assert (3 <= stage_weight (hop_stage h)) by (destruct (hop_stage h); cbn; try lia; destruct (H result eq_refl)). lia.
  - destruct complete; cbn [length]; lia.
  - destruct failed; cbn [length]; lia.
Qed.
End Hop.
