(* ===== verification/PipelineChainSpec.v ===== *)
(** A repair chain as a whole: its last connection carries the sum of the
    weighted blocks, shard by shard, under every interleaving of its roles. *)
From S2P Require Import PortAllocator.
From S2P Require Import Prelude GF256 EcKernel Groups Codes Decode DecodeSpec RepairPlan PipelineCodec PipelinePlan PipelineSession CNum Text.
From S2P Require Import Toolbox Placement Coordinator AppendPlan Client DataNode ProxyAppend StripeWrite ReadPath SingleRepair MultiRecovery MultiRecoverySpec.
From S2P Require Import PipelineMessages PipelineRun PipelineRunSpec.

(** A function changed at one place. *)
Definition set_at {A} (i : Z) (x : A) (f : Z -> A) : Z -> A := fun j => if j =? i then x else f j.

Lemma set_at_eq {A} i (x : A) f : set_at i x f i = x.
Proof. unfold set_at. rewrite Z.eqb_refl. reflexivity. Qed.

Lemma set_at_ne {A} i j (x : A) f : j <> i -> set_at i x f j = f j.
Proof. intros H. unfold set_at. destruct (Z.eqb_spec j i); [contradiction|reflexivity]. Qed.

(** * Which steps touch a connection *)

Lemma head_step_stage bs T W q st fault out h h' : head_step bs T W q st fault out h h' ->
  (forall r, head_stage h <> RoleReturned r) /\
  (head_stage h = RoleConnecting -> out = [] /\ exists r, head_stage h' = RoleReturned r) /\
  head_stage h' <> RoleConnecting /\ (head_stage h' = RoleAccepting -> head_stage h = RoleAccepting).
Proof.
  intros Hs. inversion Hs; subst; cbn [head_stage] in *; (split; [assumption || (intros; discriminate)|]);
    (split; [intros E; try discriminate E; eauto|]); (split; [discriminate|intros; discriminate]).
Qed.

Lemma hop_step_stage bs T W q st fault frame out h h' : hop_step bs T W q st fault frame out h h' ->
  (forall r, hop_stage h <> RoleReturned r) /\
  (hop_stage h = RoleConnecting -> frame = None /\ out = [] /\ exists r, hop_stage h' = RoleReturned r) /\
  hop_stage h' <> RoleConnecting /\ (hop_stage h' = RoleAccepting -> hop_stage h = RoleAccepting).
Proof.
  intros Hs. inversion Hs; subst; cbn [hop_stage] in *; (split; [assumption || (intros; discriminate)|]);
    (split; [intros E; try discriminate E; eauto|]); (split; [discriminate|intros; discriminate]).
Qed.

Lemma emits_nothing slot w n val e e' ended ended' : emits slot w n val e e' ended ended' [] -> e' = e /\ ended' = ended.
Proof.
  intros (H1 & H2 & H3). symmetry in H3. apply app_eq_nil in H3 as [H3 H4]. unfold frames in H3. apply map_eq_nil in H3.
  assert (e' = e). { destruct (Z.eq_dec e' e) as [|Hne]; [assumption|]. rewrite seqZ_cons in H3 by lia. discriminate. }
  split; [assumption|]. destruct ended, ended'; try reflexivity; [destruct (H2 eq_refl); discriminate|discriminate].
Qed.

(** ** Before the data flows *)

Lemma head_to_early bs T W q src en stage h : early (head_stage h) -> early stage -> head_ok bs T W q src en h ->
  head_ok bs T W q src en (head_to_stage stage h).
Proof.
  intros He Hs [O1 O2 O3 O4 O5]. split; cbn [head_to_stage head_stage head_shard head_reading head_sending send_q shards_sent head_stream];
    auto; intros ->; destruct (early_not_streaming Hs).
Qed.

Lemma head_to_early_regular bs T W q src en stage h : early stage -> head_regular bs T W q src en h -> head_regular bs T W q src en (head_to_stage stage h).
Proof.
  intros Hs [R1 R2 R3 R4 R5]. split; cbn [head_to_stage head_stage head_shard head_reading head_sending send_q shards_sent head_failed];
    auto. intros r ->. destruct (early_not_returned r Hs).
Qed.

Lemma hop_to_early bs T W q src prev a r t en stage h : early (hop_stage h) -> early stage -> hop_ok bs T W q src prev a r t en h ->
  hop_ok bs T W q src prev a r t en (hop_to_stage stage h).
Proof.
  intros He Hs [O1 O2 O3 O4 O5 O6 O7].
  split; cbn [hop_to_stage hop_stage hop_stream inbound_q outbound_q hop_reading hop_worker hop_sending shards_forwarded]; auto; intros ->; destruct (early_not_streaming Hs).
Qed.

Lemma hop_to_early_regular bs T W q src prev a r t en stage h : early stage -> hop_regular bs T W q src prev a r t en h ->
  hop_regular bs T W q src prev a r t en (hop_to_stage stage h).
Proof.
  intros Hs [R1 R2 R3 R4 R5 R6 R7 R8].
  split; cbn [hop_to_stage hop_stage hop_stream inbound_q outbound_q hop_reading hop_worker hop_sending shards_forwarded upstream_end_count reader_failed pipeline_failed]; auto.
  intros res ->. destruct (early_not_returned res Hs).
Qed.

(** * The chain *)

Section Chain.
Context (bs T W : Z) (oph : bool) (c m : Z) (fan : Owner) (req : Z -> PipelineRequest) (src : Z -> block) (n w slot : Z).
Context (Hm : 1 <= m) (Hw : 1 <= w) (Hn : 1 <= n < 2 ^ 31).
Context (Hreq : forall i, 0 <= i < m -> shards bs T (req i) = n /\ width bs T (req i) = w /\ rc_eq_slot (rq_chain (req i)) = slot /\
  (1 <= i -> my_hop (req i) = i)).
Context (Hsrc : forall i, 0 <= i < m -> zlen (src i) = n * w).

Fixpoint chain_val (i : nat) : Z -> block :=
  match i with
  | O => head_val bs T (req 0) (src 0)
  | Datatypes.S i' => hop_val bs T (req (Z.of_nat i)) (src (Z.of_nat i)) (chain_val i')
  end.

(** What role [i] puts on its connection as shard [s]. *)
Definition role_val (i : Z) : Z -> block := chain_val (Z.to_nat i).

Definition source_ok (st : Storage) (i : Z) : Prop := datanode_stream bs T (req i) (hop_key (req i) i) (hop_node (req i) i) st = src i.

Lemma role_val_next i : 1 <= i -> role_val i = hop_val bs T (req i) (src i) (role_val (i - 1)).
Proof.
  intros Hi. unfold role_val. replace (Z.to_nat i) with (Datatypes.S (Z.to_nat (i - 1))) by lia. cbn [chain_val].
  replace (Z.of_nat (Datatypes.S (Z.to_nat (i - 1)))) with i by lia. reflexivity.
Qed.

Lemma role_val_len i s : 0 <= i < m -> 0 <= s < n -> zlen (role_val i s) = w.
Proof.
  intros Hi Hs. unfold role_val. assert (Hk : (Z.to_nat i < Z.to_nat m)%nat) by lia. revert Hk. generalize (Z.to_nat i) as k. clear i Hi.
  induction k as [|k IH]; intros Hk; cbn [chain_val].
  - unfold head_val, head_shard_bytes. destruct (Hreq 0 ltac:(lia)) as (_ & -> & _).
    destruct (init_partial_range_spec (zrepeat x00 w) (peek w (s * w) (src 0)) (hop_coef_at (req 0) 0) w (pipeline_codec_from_request (req 0))) as [-> _];
      rewrite zlen_zrepeat; lia.
  - unfold hop_val. destruct (Hreq (Z.of_nat (Datatypes.S k)) ltac:(lia)) as (_ & -> & _).
    match goal with |- context [glrc_pipeline_accumulate_range ?d ?b ?c _ ?k] => destruct (accumulate_range_spec d b c w k) as [-> _] end;
      rewrite IH; lia.
Qed.

Definition sent (i : Z) (ch : Chain) : Z := if i =? 0 then shards_sent (head ch) else shards_forwarded (hop_servers ch).[i - 1].
Definition role_stage (i : Z) (ch : Chain) : RoleStage := if i =? 0 then head_stage (head ch) else hop_stage (hop_servers ch).[i - 1].

(** Connection [i]: [e] shards sent and [r] taken, [en] and [t] for the end. *)
Definition link_ok (i e : Z) (en : bool) (r : Z) (t : bool) (wire : option (list PipelineFrame)) : Prop :=
  0 <= r <= e /\ (t = true -> en = true) /\
  match wire with Some fr => fr = on_wire slot w n (role_val i) r e t en | None => e = 0 /\ en = false end.

Record chain_ok (A R : Z -> Z) (Tk En : Z -> bool) (ch : Chain) : Prop := {
  co_hops_len : zlen (hop_servers ch) = m - 1;
  co_wires_len : zlen (wires ch) = m;
  co_head : head_ok bs T W (req 0) (src 0) (En 0) (head ch);
  co_hop : forall i, 1 <= i < m -> hop_ok bs T W (req i) (src i) (role_val (i - 1)) (A i) (R (i - 1)) (Tk (i - 1)) (En i) (hop_servers ch).[i - 1];
  co_link : forall i, 0 <= i < m -> link_ok i (sent i ch) (En i) (R i) (Tk i) (wires ch).[i];
  co_wired : forall i, 0 <= i < m -> (wires ch).[i] = None -> role_stage i ch = RoleConnecting \/ exists r, role_stage i ch = RoleReturned r;
  co_unwired : forall i, 0 <= i < m -> role_stage i ch = RoleConnecting -> (wires ch).[i] = None }.

Record chain_regular (A R : Z -> Z) (Tk En : Z -> bool) (ch : Chain) : Prop := {
  cr_head : head_regular bs T W (req 0) (src 0) (En 0) (head ch);
  cr_stage : head_stage (head ch) <> RoleAccepting;
  cr_hop : forall i, 1 <= i < m ->
    hop_regular bs T W (req i) (src i) (role_val (i - 1)) (A i) (R (i - 1)) (Tk (i - 1)) (En i) (hop_servers ch).[i - 1] }.

(** [reg]: there has been no fault. *)
Definition chain_state (reg : bool) (A R : Z -> Z) (Tk En : Z -> bool) (ch : Chain) : Prop :=
  chain_ok A R Tk En ch /\ (reg = true -> chain_regular A R Tk En ch).

(** ** The parts *)

Lemma role_dims i : 0 <= i < m ->
  1 <= width bs T (req i) /\ 1 <= shards bs T (req i) < 2 ^ 31 /\ zlen (src i) = shards bs T (req i) * width bs T (req i).
Proof. intros Hi. destruct (Hreq i Hi) as (-> & -> & _). auto. Qed.

(** The frame that is next on connection [i]. *)
Definition next_frame (i r r' : Z) (t t' : bool) (frame : option PipelineFrame) : Prop :=
  match frame with
  | None => r' = r /\ t' = t
  | Some fr => (r < n /\ r' = r + 1 /\ t' = t /\ fr = shard_frame slot r w (role_val i r)) \/ (r' = r /\ t' = true /\ fr = end_frame slot n)
  end.

Lemma hop_moves reg i a r r' t t' en st fault frame out h h' : 1 <= i < m -> source_ok st i ->
  hop_ok bs T W (req i) (src i) (role_val (i - 1)) a r t en h ->
  (reg = true -> hop_regular bs T W (req i) (src i) (role_val (i - 1)) a r t en h /\ fault = false /\ forall e, frame = Some (END e) -> r = n) ->
  next_frame (i - 1) r r' t t' frame -> hop_step bs T W (req i) st fault frame out h h' ->
  exists a' en', hop_ok bs T W (req i) (src i) (role_val (i - 1)) a' r' t' en' h' /\
    (reg = true -> hop_regular bs T W (req i) (src i) (role_val (i - 1)) a' r' t' en' h') /\
    emits slot w n (role_val i) (shards_forwarded h) (shards_forwarded h') en en' out.
Proof.
  intros Hi Hst HO HR Ht Hs. destruct (Hreq i ltac:(lia)) as (E1 & E2 & E3 & E4). specialize (E4 ltac:(lia)).
  destruct (role_dims i ltac:(lia)) as (H1 & H2 & H3).
  assert (H4 : forall s, 0 <= s < shards bs T (req i) -> zlen (role_val (i - 1) s) = width bs T (req i)) by (rewrite E1, E2; intros; apply role_val_len; lia).
  assert (H5 : takes bs T (req i) (role_val (i - 1)) r r' t t' frame) by (unfold takes; rewrite E1, E2, E3; exact Ht).
  assert (H6 : datanode_stream bs T (req i) (hop_key (req i) (my_hop (req i))) (hop_node (req i) (my_hop (req i))) st = src i) by (rewrite E4; exact Hst).
  rewrite (role_val_next i) by lia. destruct reg.
  - destruct (HR eq_refl) as (HR' & -> & Hend).
    destruct (hop_step_regular bs T W (req i) (src i) (role_val (i - 1)) H1 H2 H3 H4 a r r' t t' en st frame out h h' HO HR' H5) as (a' & en' & [A1 A2] & A3);
      [intros e He; rewrite E1; eapply Hend; exact He|exact H6|exact Hs|]. rewrite E1, E2, E3 in A2. eauto 10.
  - destruct (hop_step_ok bs T W (req i) (src i) (role_val (i - 1)) H1 H2 H3 H4 a r r' t t' en st fault frame out h h' HO H5 H6 Hs) as (a' & en' & A1 & A2).
    rewrite E1, E2, E3 in A2. exists a', en'. split; [exact A1|]. split; [discriminate|exact A2].
Qed.

Lemma head_moves (reg : bool) en st fault out h h' : source_ok st 0 -> head_ok bs T W (req 0) (src 0) en h ->
  (reg = true -> head_regular bs T W (req 0) (src 0) en h /\ fault = false) -> head_step bs T W (req 0) st fault out h h' ->
  exists en', head_ok bs T W (req 0) (src 0) en' h' /\ (reg = true -> head_regular bs T W (req 0) (src 0) en' h') /\
    emits slot w n (role_val 0) (shards_sent h) (shards_sent h') en en' out.
Proof.
  intros Hst HO HR Hs. destruct (Hreq 0 ltac:(lia)) as (E1 & E2 & E3 & _).
  destruct (role_dims 0 ltac:(lia)) as (H1 & [H2 _] & H3).
  unfold role_val. cbn [Z.to_nat chain_val]. destruct reg.
  - destruct (HR eq_refl) as [HR' ->].
    destruct (head_step_regular bs T W (req 0) (src 0) H1 H2 H3 en st out h h' HO HR' Hst Hs) as (en' & [A1 A2] & A3).
    rewrite E1, E2, E3 in A2. eauto.
  - destruct (head_step_ok bs T W (req 0) (src 0) H1 H2 H3 en st fault out h h' HO Hst Hs) as (en' & A1 & A2).
    rewrite E1, E2, E3 in A2. exists en'. split; [exact A1|]. split; [discriminate|exact A2].
Qed.

(** ** Connections *)

Lemma link_emit i e e' en en' r t fr out : link_ok i e en r t (Some fr) -> emits slot w n (role_val i) e e' en en' out ->
  link_ok i e' en' r t (Some (fr ++ out)).
Proof.
  intros (L1 & L2 & ->) HE. split; [destruct HE; lia|]. split; [intros Ht; destruct HE as (_ & HE & _); apply HE, L2, Ht|].
  apply on_wire_emit; [lia|exact L2|exact HE].
Qed.

Lemma link_take i e en r t frame rest : link_ok i e en r t (Some (frame :: rest)) -> e <= n ->
  exists r' t', next_frame i r r' t t' (Some frame) /\ link_ok i e en r' t' (Some rest) /\ forall x, frame = END x -> r = e /\ en = true.
Proof.
  intros (L1 & L2 & E) He. symmetry in E. destruct (on_wire_next _ _ _ _ _ _ _ _ _ _ (proj2 L1) E) as [(H1 & -> & ->)|(-> & -> & -> & -> & ->)].
  - exists (r + 1), t. split; [left; auto with lia|]. split; [split; [lia|]; split; [exact L2|reflexivity]|]. intros x [=].
  - exists e, true. split; [right; auto|]. split; [split; [lia|]; auto|]. auto.
Qed.

(** The connection is made. *)
Lemma link_connect i r t wire : link_ok i 0 false r t wire -> link_ok i 0 false r t (Some []).
Proof.
  intros (L1 & L2 & _). assert (r = 0) by lia. subst r. split; [lia|]. split; [exact L2|]. unfold on_wire. rewrite frames_nil. reflexivity.
Qed.

(** ** Steps *)

Lemma sent_hop hops0 i h' ch ws j : 1 <= i < m -> zlen (hop_servers ch) = m - 1 -> 0 <= j < m -> hops0 = (hop_servers ch).[i - 1 <- h'] ->
  sent j (MkChain (head ch) hops0 ws) = (if j =? i then shards_forwarded h' else sent j ch) /\
  role_stage j (MkChain (head ch) hops0 ws) = (if j =? i then hop_stage h' else role_stage j ch).
Proof.
  intros Hi Hl Hj ->. unfold sent, role_stage. cbn [head hop_servers]. destruct (Z.eqb_spec j 0) as [->|]; [destruct (Z.eqb_spec 0 i); [lia|auto]|].
  destruct (Z.eqb_spec j i) as [->|].
  - rewrite zget_zset_eq by lia. auto.
  - rewrite zget_zset_ne by lia. auto.
Qed.

(** Role [i] moved: it took from connection [i - 1] and put onto connection [i]. *)
Lemma hop_changed reg A R Tk En ch i a' r' t' en' h' ws : chain_state reg A R Tk En ch -> 1 <= i < m ->
  hop_ok bs T W (req i) (src i) (role_val (i - 1)) a' r' t' en' h' ->
  (reg = true -> hop_regular bs T W (req i) (src i) (role_val (i - 1)) a' r' t' en' h') ->
  zlen ws = m -> (forall j, j <> i - 1 -> j <> i -> ws.[j] = (wires ch).[j]) ->
  link_ok (i - 1) (sent (i - 1) ch) (En (i - 1)) r' t' ws.[i - 1] -> (ws.[i - 1] = None <-> (wires ch).[i - 1] = None) ->
  link_ok i (shards_forwarded h') en' (R i) (Tk i) ws.[i] -> (ws.[i] = None -> hop_stage h' = RoleConnecting \/ exists r, hop_stage h' = RoleReturned r) ->
  hop_stage h' <> RoleConnecting ->
  chain_state reg (set_at i a' A) (set_at (i - 1) r' R) (set_at (i - 1) t' Tk) (set_at i en' En) (MkChain (head ch) (hop_servers ch).[i - 1 <- h'] ws).
Proof.
  intros [[C1 C2 C3 C4 C5 C6 C7] HReg] Hi HO HOr Hwl Hws Hl Hln Hr Hrn Hnc.
  pose proof (fun j Hj => sent_hop _ i h' ch ws j Hi C1 Hj eq_refl) as Es.
  split; [split|].
  - cbn [hop_servers]. rewrite zlen_zset. exact C1.
  - exact Hwl.
  - cbn [head]. rewrite set_at_ne by lia. exact C3.
  - intros j Hj. cbn [hop_servers]. destruct (Z.eq_dec j i) as [->|Hne].
    + rewrite zget_zset_eq, !set_at_eq by lia. exact HO.
    + rewrite zget_zset_ne, !set_at_ne by lia. apply C4, Hj.
  - intros j Hj. destruct (Es j Hj) as [-> _]. cbn [wires]. destruct (Z.eqb_spec j i) as [->|Hne].
    + rewrite set_at_eq, !set_at_ne by lia. exact Hr.
    + rewrite (set_at_ne i j) by exact Hne. destruct (Z.eq_dec j (i - 1)) as [->|Hne'].
      * rewrite !set_at_eq. exact Hl.
      * rewrite !set_at_ne, Hws by assumption. apply C5, Hj.
  - intros j Hj. destruct (Es j Hj) as [_ ->]. cbn [wires]. destruct (Z.eqb_spec j i) as [->|Hne]; [exact Hrn|].
    destruct (Z.eq_dec j (i - 1)) as [->|Hne']; [intros E; apply C6; [exact Hj|apply Hln, E]|]. rewrite Hws by assumption. apply C6, Hj.
  - intros j Hj. destruct (Es j Hj) as [_ ->]. cbn [wires]. destruct (Z.eqb_spec j i) as [->|Hne]; [contradiction|].
    intros E. destruct (Z.eq_dec j (i - 1)) as [->|Hne']; [apply Hln|rewrite Hws by assumption]; apply C7; assumption.
  - intros Hreg. destruct (HReg Hreg) as [D1 D2 D3]. split.
    + cbn [head]. rewrite set_at_ne by lia. exact D1.
    + exact D2.
    + intros j Hj. cbn [hop_servers]. destruct (Z.eq_dec j i) as [->|Hne].
      * rewrite zget_zset_eq, !set_at_eq by lia. apply HOr, Hreg.
      * rewrite zget_zset_ne, !set_at_ne by lia. apply D3, Hj.
Qed.

Lemma head_changed reg A R Tk En ch en' h' ws : chain_state reg A R Tk En ch ->
  head_ok bs T W (req 0) (src 0) en' h' -> (reg = true -> head_regular bs T W (req 0) (src 0) en' h' /\ head_stage h' <> RoleAccepting) ->
  zlen ws = m -> (forall j, j <> 0 -> ws.[j] = (wires ch).[j]) -> link_ok 0 (shards_sent h') en' (R 0) (Tk 0) ws.[0] ->
  (ws.[0] = None -> head_stage h' = RoleConnecting \/ exists r, head_stage h' = RoleReturned r) -> head_stage h' <> RoleConnecting ->
  chain_state reg A R Tk (set_at 0 en' En) (MkChain h' (hop_servers ch) ws).
Proof.
  intros [[C1 C2 C3 C4 C5 C6 C7] HReg] HO HOr Hwl Hws Hr Hrn Hnc. split; [split|].
  - exact C1.
  - exact Hwl.
  - cbn [head]. rewrite set_at_eq. exact HO.
  - intros j Hj. rewrite set_at_ne by lia. apply C4, Hj.
  - intros j Hj. cbn [wires]. destruct (Z.eq_dec j 0) as [->|Hne]; [rewrite set_at_eq; exact Hr|]. rewrite set_at_ne, Hws by assumption.
    specialize (C5 j Hj). unfold sent in *. cbn [head hop_servers]. destruct (Z.eqb_spec j 0); [contradiction|exact C5].
  - intros j Hj. cbn [wires]. destruct (Z.eq_dec j 0) as [->|Hne]; [exact Hrn|]. rewrite Hws by assumption.
    specialize (C6 j Hj). unfold role_stage in *. cbn [head hop_servers]. destruct (Z.eqb_spec j 0); [contradiction|exact C6].
  - intros j Hj. cbn [wires]. unfold role_stage. cbn [head hop_servers]. destruct (Z.eqb_spec j 0) as [->|Hne]; [contradiction|]. rewrite Hws by assumption.
    intros E. apply C7; [exact Hj|]. unfold role_stage. destruct (Z.eqb_spec j 0); [contradiction|exact E].
  - intros Hreg. destruct (HReg Hreg) as [D1 D2 D3]. destruct (HOr Hreg) as [E1 E2]. split.
    + cbn [head]. rewrite set_at_eq. exact E1.
    + exact E2.
    + intros j Hj. rewrite set_at_ne by lia. apply D3, Hj.
Qed.

(** Without faults the end follows all shards. *)
Lemma link_ended A R Tk En ch i : chain_state true A R Tk En ch -> 0 <= i < m -> En i = true -> sent i ch = n.
Proof.
  intros [[C1 C2 C3 C4 C5 C6 C7] HReg] Hi He. destruct (HReg eq_refl) as [D1 D2 D3]. unfold sent. destruct (Z.eqb_spec i 0) as [->|Hne].
  - destruct (Hreq 0 ltac:(lia)) as (<- & _). eapply head_ended; eassumption.
  - destruct (Hreq i ltac:(lia)) as (<- & _). eapply hop_ended; [apply C4; lia|apply D3; lia|exact He].
Qed.

Lemma sent_range reg A R Tk En ch i : chain_state reg A R Tk En ch -> 0 <= i < m -> 0 <= sent i ch <= n.
Proof.
  intros [[C1 C2 C3 C4 C5 C6 C7] _] Hi. unfold sent. destruct (Z.eqb_spec i 0) as [->|Hne].
  - destruct (Hreq 0 ltac:(lia)) as (<- & _). destruct C3 as [O1 _ _ _ _]. lia.
  - destruct (Hreq i ltac:(lia)) as (<- & _). destruct (C4 i ltac:(lia)) as [O1 _ _ _ _ _ _]. lia.
Qed.

Lemma zget_emit i out ws j : 0 <= i < zlen ws ->
  (emit i out ws).[j] = (if j =? i then (fun frames => frames ++ out) <$> ws.[i] else ws.[j]).
Proof. intros Hi. unfold emit. rewrite zget_zset by exact Hi. reflexivity. Qed.

Lemma zlen_emit i out ws : zlen (emit i out ws) = zlen ws.
Proof. apply zlen_zset. Qed.

(** What a role that moves does to its connection. *)
Lemma role_emits reg A R Tk En ch i e' en' out stage' : chain_state reg A R Tk En ch -> 0 <= i < m ->
  emits slot w n (role_val i) (sent i ch) e' (En i) en' out ->
  (role_stage i ch = RoleConnecting -> out = [] /\ exists r, stage' = RoleReturned r) -> (forall r, role_stage i ch <> RoleReturned r) ->
  let wire := (fun frames => frames ++ out) <$> (wires ch).[i] in
  link_ok i e' en' (R i) (Tk i) wire /\ (wire = None -> stage' = RoleConnecting \/ exists r, stage' = RoleReturned r).
Proof.
  intros [[C1 C2 C3 C4 C5 C6 C7] _] Hi HE Hc Hr wire. subst wire. specialize (C5 i Hi). specialize (C6 i Hi).
  destruct ((wires ch).[i]) as [fr|]; cbn [fmap option_fmap option_map].
  - split; [eapply link_emit; eassumption|discriminate].
  - destruct (C6 eq_refl) as [E|[r E]]; [|destruct (Hr r E)]. destruct (Hc E) as [-> Hs]. apply emits_nothing in HE as [-> ->]. split; [exact C5|auto].
Qed.

Notation step := (chain_step bs T W oph c m fan req).

Lemma chain_step_state reg A R Tk En listening st fault ch ch' : chain_state reg A R Tk En ch -> (forall i, 0 <= i < m -> source_ok st i) ->
  (reg = true -> fault = false) -> step listening st fault ch ch' ->
  exists A' R' Tk' En', chain_state reg A' R' Tk' En' ch' /\ R' (m - 1) = R (m - 1) /\ Tk' (m - 1) = Tk (m - 1).
Proof.
  intros HC Hsrcs Hf Hs. pose proof HC as [[C1 C2 C3 C4 C5 C6 C7] HReg].
  destruct Hs as [fault out h' ch Hs|addr ch Hst _ _|i fault out h' ch Hi Hs|i frame rest fault out h' ch Hi Hwire Hs|i addr ch Hi h Hst _ _|i frs ch Hi h Hst Hwire].
  - destruct (head_moves reg (En 0) st fault out (head ch) h' (Hsrcs 0 ltac:(lia)) C3) as (en' & A1 & A2 & A3);
      [intros Hreg; split; [apply (HReg Hreg)|auto]|exact Hs|].
    destruct (head_step_stage _ _ _ _ _ _ _ _ _ Hs) as (S1 & S2 & S3 & S4).
    destruct (role_emits reg A R Tk En ch 0 (shards_sent h') en' out (head_stage h') HC ltac:(lia) A3 S2 S1) as [L1 L2].
    exists A, R, Tk, (set_at 0 en' En). split; [|auto]. apply head_changed; auto.
    + intros Hreg. split; [auto|]. intros E. apply (cr_stage _ _ _ _ _ (HReg Hreg)). auto.
    + rewrite zlen_emit. exact C2.
    + intros j Hj. rewrite zget_emit by lia. destruct (Z.eqb_spec j 0); [contradiction|reflexivity].
    + rewrite zget_emit by lia. exact L1.
    + rewrite zget_emit by lia. exact L2.
  - exists A, R, Tk, (set_at 0 (En 0) En). split; [|auto]. specialize (C5 0 ltac:(lia)). unfold sent in C5. cbn [Z.eqb] in C5.
    destruct (ho_early _ _ _ _ _ _ _ C3 ltac:(left; exact Hst)) as (E1 & E2 & E3). pose proof (ho_range _ _ _ _ _ _ _ C3) as O1.
    assert (E0 : shards_sent (head ch) = 0) by lia. rewrite E0, E1 in C5.
    apply head_changed; [exact HC| | | | | | |].
    + apply head_to_early; [left; exact Hst|right; right; reflexivity|exact C3].
    + intros Hreg. split; [|discriminate]. apply head_to_early_regular; [right; right; reflexivity|apply (HReg Hreg)].
    + rewrite zlen_zset. exact C2.
    + intros j Hj. apply zget_zset_ne. lia.
    + rewrite zget_zset_eq by lia. cbn [head_to_stage shards_sent]. rewrite E0, E1. eapply link_connect. exact C5.
    + rewrite zget_zset_eq by lia. discriminate.
    + discriminate.
  - assert (Hi' : 0 <= i < m) by lia.
    destruct (hop_moves reg i (A i) (R (i - 1)) (R (i - 1)) (Tk (i - 1)) (Tk (i - 1)) (En i) st fault None out _ h' Hi (Hsrcs i Hi') (C4 i Hi)) as (a' & en' & A1 & A2 & A3);
      [intros Hreg; split; [apply (HReg Hreg), Hi|split; [auto|discriminate]]|split; reflexivity|exact Hs|].
    destruct (hop_step_stage _ _ _ _ _ _ _ _ _ _ Hs) as (S1 & S2 & S3 & S4).
    assert (Es : role_stage i ch = hop_stage (hop_servers ch).[i - 1] /\ sent i ch = shards_forwarded (hop_servers ch).[i - 1])
      by (unfold role_stage, sent; destruct (Z.eqb_spec i 0); [lia|auto]). destruct Es as [Es Et].
    destruct (role_emits reg A R Tk En ch i (shards_forwarded h') en' out (hop_stage h') HC Hi') as [L1 L2];
      [rewrite Et; exact A3|rewrite Es; intros E; destruct (S2 E) as (_ & ? & ?); auto|rewrite Es; exact S1|].
    eexists _, _, _, _. split; [apply hop_changed; [exact HC|exact Hi|exact A1|exact A2| | | | | | |exact S3]|].
    + rewrite zlen_emit. exact C2.
    + intros j Hj Hj'. rewrite zget_emit by lia. destruct (Z.eqb_spec j i); [contradiction|reflexivity].
    + rewrite zget_emit by lia. destruct (Z.eqb_spec (i - 1) i); [lia|]. apply C5. lia.
    + rewrite zget_emit by lia. destruct (Z.eqb_spec (i - 1) i); [lia|reflexivity].
    + rewrite zget_emit, Z.eqb_refl by lia. exact L1.
    + rewrite zget_emit, Z.eqb_refl by lia. exact L2.
    + rewrite !set_at_ne by lia. auto.
  - assert (Hi' : 0 <= i < m) by lia. pose proof (C5 (i - 1) ltac:(lia)) as HL. rewrite Hwire in HL.
    pose proof (sent_range reg A R Tk En ch (i - 1) HC ltac:(lia)) as Hsr.
    destruct (link_take _ _ _ _ _ _ _ HL ltac:(lia)) as (r' & t' & T1 & T2 & T3).
    destruct (hop_moves reg i (A i) (R (i - 1)) r' (Tk (i - 1)) t' (En i) st fault (Some frame) out _ h' Hi (Hsrcs i Hi') (C4 i Hi)) as (a' & en' & A1 & A2 & A3);
      [intros Hreg; split; [apply (HReg Hreg), Hi|split; [auto|]]|exact T1|exact Hs|].
    { intros e [= ->]. destruct (T3 e eq_refl) as [-> He]. subst reg. eapply link_ended; [exact HC|lia|exact He]. }
    destruct (hop_step_stage _ _ _ _ _ _ _ _ _ _ Hs) as (S1 & S2 & S3 & S4).
    assert (Es : role_stage i ch = hop_stage (hop_servers ch).[i - 1] /\ sent i ch = shards_forwarded (hop_servers ch).[i - 1])
      by (unfold role_stage, sent; destruct (Z.eqb_spec i 0); [lia|auto]). destruct Es as [Es Et].
    destruct (role_emits reg A R Tk En ch i (shards_forwarded h') en' out (hop_stage h') HC Hi') as [L1 L2];
      [rewrite Et; exact A3|rewrite Es; intros E; destruct (S2 E) as (? & _ & _); discriminate|rewrite Es; exact S1|].
    eexists _, _, _, _. split; [apply hop_changed; [exact HC|exact Hi|exact A1|exact A2| | | | | | |exact S3]|].
    + rewrite zlen_emit, zlen_zset. exact C2.
    + intros j Hj Hj'. rewrite zget_emit by (rewrite zlen_zset; lia). destruct (Z.eqb_spec j i); [contradiction|]. apply zget_zset_ne. lia.
    + rewrite zget_emit by (rewrite zlen_zset; lia). destruct (Z.eqb_spec (i - 1) i); [lia|]. rewrite zget_zset_eq by lia. exact T2.
    + rewrite zget_emit by (rewrite zlen_zset; lia). destruct (Z.eqb_spec (i - 1) i); [lia|]. rewrite zget_zset_eq, Hwire by lia. split; discriminate.
    + rewrite zget_emit, Z.eqb_refl, zget_zset_ne by (rewrite ?zlen_zset; lia). exact L1.
    + rewrite zget_emit, Z.eqb_refl, zget_zset_ne by (rewrite ?zlen_zset; lia). exact L2.
    + rewrite !set_at_ne by lia. auto.
  - pose proof (C5 i ltac:(lia)) as HL. unfold sent in HL. destruct (Z.eqb_spec i 0); [lia|]. pose proof (C4 i Hi) as HO.
    destruct (po_early _ _ _ _ _ _ _ _ _ _ _ HO ltac:(left; exact Hst)) as (E1 & E2 & E3 & _). pose proof (po_range _ _ _ _ _ _ _ _ _ _ _ HO) as O1.
    assert (E0 : shards_forwarded (hop_servers ch).[i - 1] = 0) by lia. rewrite E0, E3 in HL.
    eexists _, _, _, _. split; [apply hop_changed; [exact HC|exact Hi| | | | | | | | |discriminate]|].
    + apply hop_to_early; [left; exact Hst|right; left; reflexivity|exact HO].
    + intros Hreg. apply hop_to_early_regular; [right; left; reflexivity|apply (HReg Hreg), Hi].
    + rewrite zlen_zset. exact C2.
    + intros j Hj Hj'. apply zget_zset_ne. lia.
    + rewrite zget_zset_ne by lia. apply C5. lia.
    + rewrite zget_zset_ne by lia. reflexivity.
    + rewrite zget_zset_eq by lia. cbn [hop_to_stage shards_forwarded]. subst h. rewrite E0, E3. eapply link_connect. exact HL.
    + rewrite zget_zset_eq by lia. discriminate.
    + rewrite !set_at_ne by lia. auto.
  - pose proof (C4 i Hi) as HO. pose proof (C5 i ltac:(lia)) as HL. unfold sent in HL. destruct (Z.eqb_spec i 0); [lia|].
    eexists _, _, _, _. split; [apply hop_changed; [exact HC|exact Hi| | | | | | | | |discriminate]|].
    + apply hop_to_early; [right; left; exact Hst|right; right; reflexivity|exact HO].
    + intros Hreg. apply hop_to_early_regular; [right; right; reflexivity|apply (HReg Hreg), Hi].
    + exact C2.
    + reflexivity.
    + apply C5. lia.
    + reflexivity.
    + exact HL.
    + intros E. destruct (C6 i ltac:(lia) E) as [E'|[r E']]; unfold role_stage in E'; destruct (Z.eqb_spec i 0); try lia; subst h; congruence.
    + rewrite !set_at_ne by lia. auto.
Qed.

(** Whoever takes from the last connection gets the next shard or the end. *)
Lemma chain_taken reg A R Tk En ch frame rest : chain_state reg A R Tk En ch -> (wires ch).[m - 1] = Some (frame :: rest) ->
  exists r' t', next_frame (m - 1) (R (m - 1)) r' (Tk (m - 1)) t' (Some frame) /\
    (forall x, frame = END x -> reg = true -> R (m - 1) = n) /\
    chain_state reg A (set_at (m - 1) r' R) (set_at (m - 1) t' Tk) En (MkChain (head ch) (hop_servers ch) (wires ch).[m - 1 <- Some rest]).
Proof.
  intros HC Hwire. pose proof HC as [[C1 C2 C3 C4 C5 C6 C7] HReg]. pose proof (C5 (m - 1) ltac:(lia)) as HL. rewrite Hwire in HL.
  pose proof (sent_range reg A R Tk En ch (m - 1) HC ltac:(lia)) as Hsr. destruct (link_take _ _ _ _ _ _ _ HL ltac:(lia)) as (r' & t' & T1 & T2 & T3).
  exists r', t'. split; [exact T1|]. split.
  { intros x -> ->. destruct (T3 x eq_refl) as [-> He]. eapply link_ended; [exact HC|lia|exact He]. }
  split; [split|].
  - exact C1.
  - cbn [wires]. rewrite zlen_zset. exact C2.
  - exact C3.
  - intros j Hj. cbn [hop_servers]. rewrite !set_at_ne by lia. apply C4, Hj.
  - intros j Hj. cbn [wires]. change (sent j _) with (sent j ch). destruct (Z.eq_dec j (m - 1)) as [->|Hne].
    + rewrite zget_zset_eq, !set_at_eq by lia. exact T2.
    + rewrite zget_zset_ne, !set_at_ne by lia. apply C5, Hj.
  - intros j Hj. cbn [wires]. change (role_stage j _) with (role_stage j ch). destruct (Z.eq_dec j (m - 1)) as [->|Hne].
    + rewrite zget_zset_eq by lia. discriminate.
    + rewrite zget_zset_ne by lia. apply C6, Hj.
  - intros j Hj. cbn [wires]. change (role_stage j _) with (role_stage j ch). intros E. specialize (C7 j Hj E).
    destruct (Z.eq_dec j (m - 1)) as [->|Hne]; [congruence|]. rewrite zget_zset_ne by lia. exact C7.
  - intros Hreg. destruct (HReg Hreg) as [D1 D2 D3]. split; [exact D1|exact D2|].
    intros j Hj. cbn [hop_servers]. rewrite !set_at_ne by lia. apply D3, Hj.
Qed.

(** ** The start *)

Definition fresh_chain (called : Z -> bool) : Chain :=
  MkChain (start_head bs T W (called 0) (req 0)) (map (fun i => start_hop bs T W (called i) (req i)) (seqZ 1 (m - 1))) (zrepeat None m).

Lemma fresh_hop called i : 1 <= i < m -> (hop_servers (fresh_chain called)).[i - 1] = start_hop bs T W (called i) (req i).
Proof. intros Hi. unfold fresh_chain. cbn [hop_servers]. rewrite zget_map, zget_seqZ by (rewrite ?zlen_seqZ; lia). do 2 f_equal; lia. Qed.

Lemma early_or_returned (b : bool) : (if b then RoleConnecting else RoleReturned false) = RoleConnecting \/
  exists r, (if b then RoleConnecting else RoleReturned false) = RoleReturned r.
Proof. destruct b; eauto. Qed.

Lemma fresh_chain_state called reg :
  (reg = true -> forall i, 0 <= i < m -> called i = true /\ valid_geometry (view bs T (req i)) bs = true /\ m <= head_hops (req i) /\ 0 < head_hops (req i)) ->
  chain_state reg (fun _ => 0) (fun _ => 0) (fun _ => false) (fun _ => false) (fresh_chain called).
Proof.
  intros Hreg. split; [split|].
  - cbn [fresh_chain hop_servers]. rewrite length_map, zlen_seqZ. lia.
  - cbn [fresh_chain wires]. apply zlen_zrepeat. lia.
  - destruct (Hreq 0 ltac:(lia)) as (E1 & _). apply start_head_ok. rewrite E1. lia.
  - intros i Hi. rewrite fresh_hop by exact Hi. destruct (Hreq i ltac:(lia)) as (E1 & _). apply start_hop_ok. rewrite E1. lia.
  - intros i Hi. cbn [fresh_chain wires]. rewrite zget_zrepeat by exact Hi. unfold sent. destruct (Z.eqb_spec i 0) as [->|]; [|rewrite fresh_hop by lia];
      (split; [cbn; lia|]; split; [auto|split; reflexivity]).
  - intros i Hi _. unfold role_stage. destruct (Z.eqb_spec i 0) as [->|]; [|rewrite fresh_hop by lia]; apply early_or_returned.
  - intros i Hi _. cbn [fresh_chain wires]. apply zget_zrepeat, Hi.
  - intros E. split.
    + destruct (Hreg E 0 ltac:(lia)) as (Ec & Ev & Eh & Eh'). cbn [fresh_chain head]. unfold start_head. rewrite Ec, Ev. apply Z.ltb_lt in Eh'. rewrite Z.gtb_ltb, Eh'.
      split; cbn [andb head_stage head_failed head_reading head_sending send_q head_shard shards_sent]; auto; discriminate.
    + cbn [fresh_chain head start_head head_stage]. destruct (_ && _); discriminate.
    + intros i Hi. rewrite fresh_hop by exact Hi. destruct (Hreg E i ltac:(lia)) as (Ec & Ev & Eh & Eh'). destruct (Hreq i ltac:(lia)) as (_ & _ & _ & E4).
      unfold start_hop. rewrite Ec, Ev, E4 by lia. destruct (Z.leb_spec (head_hops (req i)) 1), (Z.leb_spec i 0), (Z.geb_spec i (head_hops (req i))); try lia.
      split; cbn [andb orb negb hop_stage inbound_q outbound_q hop_reading hop_worker hop_sending shards_forwarded upstream_end_count reader_failed pipeline_failed];
        auto; try discriminate; intros; congruence.
Qed.

(** ** Progress *)

Definition role_target (i : Z) : string * Z := if i =? 0 then head_target oph (req 0) else hop_target oph (req i).

Definition role_returned (i : Z) (ch : Chain) : Prop := exists r, role_stage i ch = RoleReturned r.

Lemma returned_sent A R Tk En ch i r : chain_state true A R Tk En ch -> 0 <= i < m -> role_stage i ch = RoleReturned r -> r = true /\ En i = true.
Proof.
  intros [[C1 C2 C3 C4 C5 C6 C7] HReg] Hi. destruct (HReg eq_refl) as [D1 D2 D3]. unfold role_stage. destruct (Z.eqb_spec i 0) as [->|]; intros E.
  - destruct (hr_returned _ _ _ _ _ _ _ D1 r E) as (? & ? & _). auto.
  - destruct (pr_returned _ _ _ _ _ _ _ _ _ _ _ (D3 i ltac:(lia)) r E) as (? & ? & _). auto.
Qed.

(** A role whose predecessors have returned moves. *)
Lemma role_progress A R Tk En listening st ch i : chain_state true A R Tk En ch -> (forall i, 0 <= i < m -> source_ok st i) -> 0 <= i < m ->
  (role_stage i ch = RoleConnecting ->
   exists addr, role_target i = addr /\ listening !! addr = Some (if i + 1 <? m then OwnerHop c (i + 1) else fan)) ->
  (forall j, 0 <= j < i -> role_returned j ch) -> role_returned i ch \/ exists ch', step listening st false ch ch'.
Proof.
  intros HC Hsrcs Hi Hl Hprev. pose proof HC as [[C1 C2 C3 C4 C5 C6 C7] HReg]. destruct (HReg eq_refl) as [D1 D2 D3].
  unfold role_returned, role_stage, role_target in *. destruct (Hreq i Hi) as (E1 & E2 & E3 & E4). destruct (role_dims i Hi) as (H1 & H2 & H3). destruct (Z.eqb_spec i 0) as [->|Hne].
  - destruct (head_stage (head ch)) as [| | | |r] eqn:Eh; [right| destruct (D2 eq_refl)|right|right|eauto].
    + destruct (Hl eq_refl) as (addr & Ha & Hla). eexists. eapply chain_head_connects; [exact Eh|exact Ha|exact Hla].
    + edestruct head_progress as (out & h' & Hs); [exact H1|apply H2|exact H3|exact C3|exact D1|rewrite Eh; auto|]. eexists. eapply chain_head. exact Hs.
    + edestruct head_progress as (out & h' & Hs); [exact H1|apply H2|exact H3|exact C3|exact D1|rewrite Eh; auto|]. eexists. eapply chain_head. exact Hs.
  - set (h := (hop_servers ch).[i - 1]) in *.
    assert (Hup : exists r, role_stage (i - 1) ch = RoleReturned r) by (unfold role_stage; apply Hprev; lia). destruct Hup as [r Hup].
    destruct (returned_sent A R Tk En ch (i - 1) r HC ltac:(lia) Hup) as [-> Hen].
    pose proof (C5 (i - 1) ltac:(lia)) as HL. destruct ((wires ch).[i - 1]) as [fr|] eqn:Ew; [|destruct HL as (_ & _ & _ & HL); congruence].
    assert (Hmoves : hop_stage h = RoleOpening \/ hop_stage h = RoleStreaming -> exists ch', step listening st false ch ch').
    { intros Hst. edestruct hop_progress with (st := st) as [(out & h' & Hs)|[Ht Hs]];
        [exact H1|exact H2|exact H3| |apply C4; lia|apply D3; lia| |exact Hst| |].
      - intros s Hs. rewrite E2. apply role_val_len; lia.
      - rewrite E4 by lia. apply Hsrcs, Hi.
      - eexists. eapply chain_hop with (i := i); [lia|exact Hs].
      - pose proof HL as (L1 & L2 & L3). rewrite Ht, Hen in L3. unfold on_wire in L3. cbn [andb negb] in L3.
        destruct fr as [|frame rest]; [symmetry in L3; apply app_eq_nil in L3 as [_ L3]; discriminate|].
        pose proof (sent_range true A R Tk En ch (i - 1) HC ltac:(lia)) as Hsr. destruct (link_take _ _ _ _ _ _ _ HL ltac:(lia)) as (r' & t' & T1 & T2 & T3).
        destruct (Hs frame r' t') as (out & h' & Hs').
        + unfold takes. rewrite E1, E2, E3. exact T1.
        + intros e [= ->]. rewrite E1. destruct (T3 e eq_refl) as [-> _]. eapply link_ended; [exact HC|lia|exact Hen].
        + eexists. eapply chain_hop_takes with (i := i); [lia|exact Ew|exact Hs']. }
    destruct (hop_stage h) as [| | | |res] eqn:Eh; [right|right|right; auto|right; auto|eauto].
    + destruct (Hl eq_refl) as (addr & Ha & Hla). eexists. eapply chain_hop_connects with (i := i); [lia|exact Eh|exact Ha|exact Hla].
    + eexists. eapply chain_hop_accepts with (i := i); [lia|exact Eh|exact Ew].
Qed.

Lemma chain_progress A R Tk En listening st ch : chain_state true A R Tk En ch -> (forall i, 0 <= i < m -> source_ok st i) ->
  (forall i, 0 <= i < m -> role_stage i ch = RoleConnecting ->
   exists addr, role_target i = addr /\ listening !! addr = Some (if i + 1 <? m then OwnerHop c (i + 1) else fan)) ->
  (forall i, 0 <= i < m -> role_returned i ch) \/ exists ch', step listening st false ch ch'.
Proof.
  intros HC Hsrcs Hl. assert (H : forall k : nat, Z.of_nat k <= m -> (forall i, 0 <= i < Z.of_nat k -> role_returned i ch) \/ exists ch', step listening st false ch ch').
  { induction k as [|k IH]; intros Hk; [left; lia|]. destruct (IH ltac:(lia)) as [Hall|]; [|auto].
    destruct (role_progress A R Tk En listening st ch (Z.of_nat k) HC Hsrcs ltac:(lia) (Hl (Z.of_nat k) ltac:(lia)) Hall) as [Hret|]; [left|auto].
    intros i Hi. destruct (Z.eq_dec i (Z.of_nat k)) as [->|]; [exact Hret|apply Hall; lia]. }
  specialize (H (Z.to_nat m)). rewrite Z2Nat.id in H by lia. apply H. lia.
Qed.

(** All have returned: what was sent waits on the last connection. *)
Lemma last_link A R Tk En ch : chain_state true A R Tk En ch -> role_returned (m - 1) ch -> Tk (m - 1) = false ->
  exists frame rest, (wires ch).[m - 1] = Some (frame :: rest).
Proof.
  intros HC [r Hr] Ht. destruct (returned_sent A R Tk En ch (m - 1) r HC ltac:(lia) Hr) as [-> Hen]. destruct HC as [[C1 C2 C3 C4 C5 C6 C7] _].
  pose proof (C5 (m - 1) ltac:(lia)) as (L1 & L2 & L3). rewrite Ht, Hen in *. destruct ((wires ch).[m - 1]) as [fr|]; [|destruct L3; discriminate].
  unfold on_wire in L3. cbn [andb negb] in L3. destruct fr; [symmetry in L3; apply app_eq_nil in L3 as [_ ?]; discriminate|eauto].
Qed.

(** ** Termination *)

Definition wire_weight (wire : option (list PipelineFrame)) : Z := match wire with Some fr => zlen fr | None => 0 end.
Definition wires_weight (ws : list (option (list PipelineFrame))) : Z := sum_below m (fun i => wire_weight ws.[i]).
Definition hops_weight (hs : list Hop) : Z := sum_below m (fun i => if i =? 0 then 0 else hop_weight bs T (req i) hs.[i - 1]).
Definition chain_weight (ch : Chain) : Z := head_weight bs T (req 0) (head ch) + hops_weight (hop_servers ch) + 2 * wires_weight (wires ch).

Lemma wires_weight_set ws i x : 0 <= i < m -> zlen ws = m -> wires_weight ws.[i <- x] = wires_weight ws + (wire_weight x - wire_weight ws.[i]).
Proof.
  intros Hi Hl. unfold wires_weight. rewrite (sum_below_change m (fun j => wire_weight ws.[j]) _ i Hi).
  - cbv beta. rewrite zget_zset_eq by lia. reflexivity.
  - intros j Hj. cbv beta. rewrite zget_zset_ne by congruence. reflexivity.
Qed.

Lemma hops_weight_set hs i h : 1 <= i < m -> zlen hs = m - 1 ->
  hops_weight hs.[i - 1 <- h] = hops_weight hs + (hop_weight bs T (req i) h - hop_weight bs T (req i) hs.[i - 1]).
Proof.
  intros Hi Hl. unfold hops_weight. rewrite (sum_below_change m (fun j => if j =? 0 then 0 else hop_weight bs T (req j) hs.[j - 1]) _ i ltac:(lia)).
  - cbv beta. destruct (Z.eqb_spec i 0); [lia|]. rewrite zget_zset_eq by lia. reflexivity.
  - intros j Hj. cbv beta. destruct (Z.eqb_spec j 0); [reflexivity|]. rewrite zget_zset_ne by lia. reflexivity.
Qed.

Lemma emit_weight i out ws : 0 <= i < m -> zlen ws = m -> wires_weight (emit i out ws) <= wires_weight ws + zlen out.
Proof.
  intros Hi Hl. unfold emit. rewrite wires_weight_set by assumption. destruct (ws.[i]) as [fr|]; cbn [fmap option_fmap option_map wire_weight]; [|lia].
  rewrite length_app. lia.
Qed.

Lemma chain_weight_nonneg reg A R Tk En ch : chain_state reg A R Tk En ch -> 0 <= chain_weight ch.
Proof.
  intros [[C1 C2 C3 C4 C5 C6 C7] _]. unfold chain_weight. destruct (Hreq 0 ltac:(lia)) as (E1 & _).
  pose proof (head_weight_nonneg bs T W (req 0) (src 0) (En 0) (head ch) C3).
  assert (0 <= wires_weight (wires ch)) by (apply sum_below_nonneg; intros i _; destruct ((wires ch).[i]); cbn; lia).
  assert (0 <= hops_weight (hop_servers ch)).
  { apply sum_below_nonneg. intros i Hi. destruct (Z.eqb_spec i 0); [lia|]. eapply hop_weight_nonneg. apply C4. lia. }
  lia.
Qed.

Lemma chain_step_weight reg A R Tk En listening st fault ch ch' : chain_state reg A R Tk En ch -> step listening st fault ch ch' -> chain_weight ch' < chain_weight ch.
Proof.
  intros [[C1 C2 C3 C4 C5 C6 C7] _] Hs. unfold chain_weight.
  destruct Hs as [fault out h' ch Hs|addr ch Hst _ _|i fault out h' ch Hi Hs|i frame rest fault out h' ch Hi Hwire Hs|i addr ch Hi h Hst _ _|i frs ch Hi h Hst Hwire];
    cbn [head hop_servers wires].
  - pose proof (head_step_weight bs T W (req 0) (src 0) (En 0) st fault out _ _ C3 Hs). pose proof (emit_weight 0 out (wires ch) ltac:(lia) C2). lia.
  - rewrite wires_weight_set by lia. unfold head_weight. cbn [head_to_stage head_stage head_shard head_reading head_sending shards_sent head_failed wire_weight length].
    rewrite Hst. cbn [stage_weight]. assert (0 <= wire_weight (wires ch).[0]) by (destruct ((wires ch).[0]); cbn; lia). lia.
  - pose proof (hop_step_weight bs T W (req i) (src i) (role_val (i - 1)) _ _ _ _ st fault None out _ _ (C4 i Hi) Hs).
    rewrite hops_weight_set by lia. pose proof (emit_weight i out (wires ch) ltac:(lia) C2). lia.
  - pose proof (hop_step_weight bs T W (req i) (src i) (role_val (i - 1)) _ _ _ _ st fault (Some frame) out _ _ (C4 i Hi) Hs).
    rewrite hops_weight_set by lia. pose proof (emit_weight i out (wires ch).[i - 1 <- Some rest] ltac:(lia) ltac:(rewrite zlen_zset; lia)).
    rewrite wires_weight_set, Hwire in * by lia. cbn [wire_weight length] in *. lia.
  - rewrite wires_weight_set, hops_weight_set by lia. subst h. unfold hop_weight.
    cbn [hop_to_stage hop_stage hop_stream inbound_q hop_reading hop_worker hop_sending shards_forwarded wire_weight length].
    rewrite Hst. cbn [stage_weight]. assert (0 <= wire_weight (wires ch).[i]) by (destruct ((wires ch).[i]); cbn; lia). lia.
  - rewrite hops_weight_set by lia. subst h. unfold hop_weight. cbn [hop_to_stage hop_stage hop_stream inbound_q hop_reading hop_worker hop_sending shards_forwarded].
    rewrite Hst. cbn [stage_weight]. lia.
Qed.

(** A frame taken from the last connection. *)
Lemma taken_weight ch frame rest : zlen (wires ch) = m -> (wires ch).[m - 1] = Some (frame :: rest) ->
  chain_weight (MkChain (head ch) (hop_servers ch) (wires ch).[m - 1 <- Some rest]) = chain_weight ch - 2.
Proof. intros Hl Hw'. unfold chain_weight. cbn [head hop_servers wires]. rewrite wires_weight_set, Hw' by lia. cbn [wire_weight length]. lia. Qed.

(** A connection once made stays. *)
Lemma chain_step_wires listening st fault ch ch' i : step listening st fault ch ch' -> zlen (wires ch) = m -> 0 <= i < m -> (wires ch).[i] <> None -> (wires ch').[i] <> None.
Proof.
  assert (He : forall j out (ws : list (option (list PipelineFrame))), zlen ws = m -> 0 <= j < m -> ws.[i] <> None -> (emit j out ws).[i] <> None).
  { intros j out ws Hl Hj Hi. rewrite zget_emit by lia. destruct (Z.eqb_spec i j) as [->|]; [|exact Hi]. destruct (ws.[j]); [discriminate|contradiction]. }
  assert (Hz : forall j (x : list PipelineFrame) (ws : list (option (list PipelineFrame))), zlen ws = m -> 0 <= j < m -> ws.[i] <> None -> ws.[j <- Some x].[i] <> None).
  { intros j x ws Hl Hj Hi. rewrite zget_zset by lia. destruct (Z.eqb_spec i j); [discriminate|exact Hi]. }
  intros Hs Hl Hi Hw'. destruct Hs; cbn [wires]; try exact Hw'; first [apply Hz|apply He]; rewrite ?zlen_zset; try assumption; try lia.
  apply Hz; [exact Hl|lia|exact Hw'].
Qed.
End Chain.
