(* ===== verification/PipelineHubSpec.v ===== *)
(** The hub of a repair pipeline: whatever the order in which its threads work,
    it decodes the right shards and streams them in order. *)
From S2P Require Import PortAllocator.
From S2P Require Import Prelude GF256 EcKernel Groups Codes Decode DecodeSpec RepairPlan PipelineCodec PipelinePlan PipelineSession CNum Text.
From S2P Require Import Toolbox Placement Coordinator AppendPlan Client DataNode ProxyAppend StripeWrite ReadPath SingleRepair MultiRecovery MultiRecoverySpec.
From S2P Require Import PipelineMessages PipelineRun PipelineRunSpec PipelineChainSpec.
From Stdlib Require Import Classical_Prop Classical_Pred_Type.

Section Hub.
Context (bs T W : Z) (q : PipelineRequest) (inverse : list byte) (hub_block : block) (slot : Z -> Z) (cv : Z -> Z -> block).
Context (rec : Z -> list block) (tgt : Z -> block).
Notation n := (shards bs T q).
Notation w := (width bs T q).
Notation window := (pipe_window bs T W q).
Notation C := (hub_chain_n q).
Notation f := (hub_f q).

(** The right-hand side of equation [ci], shard [s]. *)
Definition rv (ci s : Z) : block :=
  if needs_tail_local q ci
  then glrc_pipeline_accumulate_range (cv ci s) (peek w (s * w) hub_block) (hc_hub_coef (rq_hub_chains q).[ci]) w (pipeline_hub_chain_codec q ci)
  else cv ci s.

Context (Hw : 1 <= w) (Hn : 1 <= n < 2 ^ 31).
Context (Hlocal : forall ci, 0 <= ci < C -> hc_local_only (rq_hub_chains q).[ci] = false).
Context (Hblock : any_hub_local_read q = true -> zlen hub_block = n * w).
Context (Hcv : forall ci s, 0 <= ci < C -> 0 <= s < n -> zlen (cv ci s) = w).
Context (Hdecode : forall s, 0 <= s < n -> decode_glrc_ilp_rhs_compact (map (fun ci => rv ci s) (zseq C)) inverse f w = Some (rec s)).
Context (Htgt : forall t, 0 <= t < f -> zlen (tgt t) = n * w /\ forall s, 0 <= s < n -> peek w (s * w) (tgt t) = (rec s).[t]).

(** ** What comes in *)

(** [r] shards of chain [ci] were taken, and its end if [t]. *)
Record listener_ok (ci r : Z) (t : bool) (l : Listener) : Prop := {
  lo_range : 0 <= shards_received l <= r /\ r <= n;
  lo_early : early (listener_stage l) -> r = 0 /\ t = false /\ hub_reading l = true /\ hub_worker l = Working /\ queue_ok (cv ci) 0 0 (hub_inbound_q l);
  lo_plain : listener_stage l = RoleStreaming -> queued_listener bs T W q ci = false -> shards_received l = r /\ t = false;
  lo_reading : listener_stage l = RoleStreaming -> queued_listener bs T W q ci = true -> hub_reading l = true -> t = false;
  lo_working : listener_stage l = RoleStreaming -> queued_listener bs T W q ci = true -> hub_worker l = Working ->
    queue_ok (cv ci) (shards_received l) r (hub_inbound_q l) }.

Record listener_regular (ci r : Z) (t : bool) (l : Listener) : Prop := {
  lr_failed : hub_reader_failed l = false;
  lr_stage : listener_stage l <> RoleConnecting /\ listener_stage l <> RoleOpening;
  lr_returned : forall res, listener_stage l = RoleReturned res -> res = true /\ shards_received l = n /\ t = true;
  lr_reading : queued_listener bs T W q ci = true -> hub_reading l = true -> hub_worker l = Working /\ closed_ (hub_inbound_q l) = false;
  lr_read : queued_listener bs T W q ci = true -> hub_reading l = false -> t = true /\ r = n /\
    (hub_worker l = Working -> closed_ (hub_inbound_q l) = true /\ q_ (hub_inbound_q l) = items (cv ci) (shards_received l) n ++ [queued_end n]);
  lr_done : queued_listener bs T W q ci = true -> hub_worker l <> Working ->
    hub_worker l = Done /\ hub_reading l = false /\ shards_received l = n /\ hub_end_count l = n }.

Record in_ok (R : Z -> Z) (Tk : Z -> bool) (i : HubIn) : Prop := {
  io_shared_len : zlen (shared_hub_shards i) = n;
  io_shared : forall s v, 0 <= s < n -> (shared_hub_shards i).[s] = Some v -> v = peek w (s * w) hub_block;
  io_reader : shared_hub_reader i <> SharedDone -> any_hub_local_read q = true;
  io_reading : forall k stream, shared_hub_reader i = SharedReading k stream -> 0 <= k <= n /\ stream = zdrop (k * w) hub_block;
  io_rhs_len : zlen (rhs_bufs i) = C;
  io_row_len : forall ci, 0 <= ci < C -> zlen (rhs_bufs i).[ci] = n;
  io_rhs : forall ci s v, 0 <= ci < C -> 0 <= s < n -> (rhs_bufs i).[ci].[s] = Some v -> v = rv ci s;
  io_listeners_len : zlen (listeners i) = C;
  io_listener : forall ci, 0 <= ci < C -> listener_ok ci (R ci) (Tk ci) (listeners i).[ci] }.

(** Shards of the hub's own block that are there. *)
Definition shared_done (sr : SharedReader) : Z := match sr with SharedOpening => 0 | SharedReading k _ => k | SharedDone => n end.

Record in_regular (R : Z -> Z) (Tk : Z -> bool) (i : HubIn) : Prop := {
  ir_shared : any_hub_local_read q = true -> forall s, 0 <= s < shared_done (shared_hub_reader i) -> is_Some (shared_hub_shards i).[s];
  ir_listener : forall ci, 0 <= ci < C -> listener_regular ci (R ci) (Tk ci) (listeners i).[ci];
  ir_rows : forall ci s, 0 <= ci < C -> 0 <= s < shards_received (listeners i).[ci] -> is_Some (rhs_bufs i).[ci].[s] }.

Definition in_state (reg : bool) R Tk i : Prop := in_ok R Tk i /\ (reg = true -> in_regular R Tk i).

(** The next frame of chain [ci]. *)
Definition next_in (ci r r' : Z) (t t' : bool) (frame : option PipelineFrame) : Prop :=
  match frame with
  | None => r' = r /\ t' = t
  | Some fr => (r < n /\ r' = r + 1 /\ t' = t /\ fr = shard_frame (slot ci) r w (cv ci r)) \/ (r' = r /\ t' = true /\ fr = end_frame (slot ci) n)
  end.

Lemma next_shard ci r r' t t' hdr payload : next_in ci r r' t t' (Some (SHARD hdr payload)) -> 0 <= ci < C -> 0 <= r ->
  r < n /\ r' = r + 1 /\ t' = t /\ payload = cv ci r /\ int_of_u32 (hdr_shard_id hdr) = r.
Proof.
  intros [(Hr & -> & -> & E)|(_ & _ & E)] Hci H0; [|discriminate]. unfold shard_frame in E. injection E as -> ->.
  split; [exact Hr|]. do 2 (split; [reflexivity|]). split; [|apply u32_int; lia].
  unfold ztake. apply take_ge. pose proof (Hcv ci r Hci ltac:(lia)). lia.
Qed.

Lemma next_end ci r r' t t' e : next_in ci r r' t t' (Some (END e)) -> r' = r /\ t' = true /\ int_of_u32 (end_shard_count e) = n.
Proof. intros [(_ & _ & _ & E)|(-> & -> & E)]; [discriminate|]. injection E as ->. split; [reflexivity|]. split; [reflexivity|]. apply u32_int. lia. Qed.

Lemma shard_fits_ok ci s : 0 <= ci < C -> 0 <= s < n -> shard_fits bs T q s (cv ci s) = true.
Proof. intros Hci Hs. unfold shard_fits. rewrite Hcv by assumption. destruct (Z.ltb_spec s 0), (Z.geb_spec s n); try lia. Qed.

(** ** One listener changes *)

Definition set_listener (ci : Z) (l : Listener) (i : HubIn) : HubIn :=
  MkHubIn (shared_hub_reader i) (shared_hub_shards i) (listeners i).[ci <- l] (rhs_bufs i).

Lemma in_listener reg R Tk ci r' t' l' i : 0 <= ci < C -> in_state reg R Tk i -> listener_ok ci r' t' l' ->
  (reg = true -> listener_regular ci r' t' l') -> shards_received l' = shards_received (listeners i).[ci] ->
  in_state reg (set_at ci r' R) (set_at ci t' Tk) (set_listener ci l' i).
Proof.
  intros Hci [[I1 I2 I3 I4 I5 I6 I7 I8 I9] HR] HL HLr He. split.
  - split; cbn [set_listener shared_hub_reader shared_hub_shards listeners rhs_bufs]; auto; [rewrite zlen_zset; exact I8|].
    intros c Hc. destruct (Z.eq_dec c ci) as [->|Hne]; [rewrite zget_zset_eq, !set_at_eq by lia; exact HL|].
    rewrite zget_zset_ne, !set_at_ne by congruence. apply I9, Hc.
  - intros Hreg. destruct (HR Hreg) as [J1 J2 J3]. split; cbn [set_listener shared_hub_reader shared_hub_shards listeners rhs_bufs]; auto.
    + intros c Hc. destruct (Z.eq_dec c ci) as [->|Hne]; [rewrite zget_zset_eq, !set_at_eq by lia; apply HLr, Hreg|].
      rewrite zget_zset_ne, !set_at_ne by congruence. apply J2, Hc.
    + intros c s Hc. destruct (Z.eq_dec c ci) as [->|Hne]; [rewrite zget_zset_eq, He by lia; apply J3, Hc|].
      rewrite zget_zset_ne by congruence. apply J3, Hc.
Qed.

Definition set_rhs (ci s : Z) (v : block) (i : HubIn) : HubIn :=
  MkHubIn (shared_hub_reader i) (shared_hub_shards i) (listeners i) (rhs_bufs i).[ci <- (rhs_bufs i).[ci].[s <- Some v]].

(** It delivered its next shard. *)
Lemma in_delivered reg R Tk ci r' t' l' i : 0 <= ci < C -> in_state reg R Tk i -> listener_ok ci r' t' l' ->
  (reg = true -> listener_regular ci r' t' l') -> let s := shards_received (listeners i).[ci] in shards_received l' = s + 1 ->
  in_state reg (set_at ci r' R) (set_at ci t' Tk) (set_rhs ci s (rv ci s) (set_listener ci l' i)).
Proof.
  intros Hci [[I1 I2 I3 I4 I5 I6 I7 I8 I9] HR] HL HLr s He. pose proof (lo_range _ _ _ _ HL) as Hrg. pose proof (lo_range _ _ _ _ (I9 ci Hci)) as Hrg0.
  assert (Hs : 0 <= s < n) by (subst s; lia). pose proof (I6 ci Hci) as Hrow.
  assert (Eget : forall c x, 0 <= x -> (rhs_bufs i).[ci <- (rhs_bufs i).[ci].[s <- Some (rv ci s)]].[c].[x] =
            if (c =? ci) && (x =? s) then Some (rv ci s) else (rhs_bufs i).[c].[x]).
  { intros c x Hx. destruct (Z.eqb_spec c ci) as [->|Hne]; [|rewrite zget_zset_ne by congruence; reflexivity].
    rewrite zget_zset_eq by lia. cbn [andb]. destruct (Z.eqb_spec x s) as [->|Hxs]; [apply zget_zset_eq; lia|apply zget_zset_ne; congruence]. }
  split.
  - split; cbn [set_rhs set_listener shared_hub_reader shared_hub_shards listeners rhs_bufs]; auto.
    + rewrite zlen_zset. exact I5.
    + intros c Hc. destruct (Z.eq_dec c ci) as [->|Hne]; [rewrite zget_zset_eq, zlen_zset by lia; exact Hrow|].
      rewrite zget_zset_ne by congruence. apply I6, Hc.
    + intros c x v Hc Hx. rewrite Eget by lia. destruct (Z.eqb_spec c ci) as [->|]; cbn [andb]; [|apply I7; assumption].
      destruct (Z.eqb_spec x s) as [->|]; [intros [= <-]; reflexivity|apply I7; assumption].
    + rewrite zlen_zset. exact I8.
    + intros c Hc. destruct (Z.eq_dec c ci) as [->|Hne]; [rewrite zget_zset_eq, !set_at_eq by lia; exact HL|].
      rewrite zget_zset_ne, !set_at_ne by congruence. apply I9, Hc.
  - intros Hreg. destruct (HR Hreg) as [J1 J2 J3]. split; cbn [set_rhs set_listener shared_hub_reader shared_hub_shards listeners rhs_bufs]; auto.
    + intros c Hc. destruct (Z.eq_dec c ci) as [->|Hne]; [rewrite zget_zset_eq, !set_at_eq by lia; apply HLr, Hreg|].
      rewrite zget_zset_ne, !set_at_ne by congruence. apply J2, Hc.
    + intros c x Hc. destruct (Z.eq_dec c ci) as [->|Hne].
      * rewrite zget_zset_eq, He by lia. intros Hx. rewrite Eget, Z.eqb_refl by lia. cbn [andb]. destruct (Z.eqb_spec x s) as [->|]; [eauto|].
        apply J3; [exact Hc|]. fold s. lia.
      * rewrite zget_zset_ne by congruence. intros Hx. rewrite Eget by lia. destruct (Z.eqb_spec c ci); [contradiction|]. apply J3; assumption.
Qed.

(** The hub's own share is added from the right shard. *)
Lemma finalize_ok reg R Tk ci s h value : in_state reg R Tk (hub_in h) -> 0 <= s < n -> finalize_hub_shard bs T q ci s (cv ci s) h = Some value -> value = rv ci s.
Proof.
  intros [[I1 I2 I3 I4 I5 I6 I7 I8 I9] _] Hs. unfold finalize_hub_shard, rv. destruct (needs_tail_local q ci); [|intros [= <-]; reflexivity].
  destruct ((shared_hub_shards (hub_in h)).[s]) as [local|] eqn:E; [|discriminate]. cbn [mbind option_bind]. intros [= <-]. rewrite (I2 s local Hs E). reflexivity.
Qed.

Lemma plain_queue ci : queued_listener bs T W q ci = true -> 1 < window /\ needs_tail_local q ci = true.
Proof. unfold queued_listener. intros H. breflect. auto. Qed.

Ltac listener_cbn := cbn [listener_stage hub_inbound_q hub_reading hub_worker shards_received hub_end_count hub_reader_failed] in *.

Ltac listener_cases := listener_cbn; role_cases; try congruence; try (split; discriminate).
Ltac unchanged Hreg := split; [|split; [reflexivity|split; [reflexivity|split; [let E := fresh in intros E; apply (Hreg E)|auto]]]].
Ltac finalized reg R Tk HI :=
  match goal with E : finalize_hub_shard _ _ _ _ _ _ _ = Some _ |- _ => apply (finalize_ok reg R Tk) in E; [|exact HI|lia]; subst end.

(** A step of a listener. *)
Lemma listener_moves reg R Tk ci r' t' h frame h' : 0 <= ci < C -> in_state reg R Tk (hub_in h) ->
  next_in ci (R ci) r' (Tk ci) t' frame -> (reg = true -> hub_failed h = false /\ forall e, frame = Some (END e) -> R ci = n) ->
  listener_step bs T W q ci h frame (listeners (hub_in h)).[ci] h' ->
  in_state reg (set_at ci r' R) (set_at ci t' Tk) (hub_in h') /\ hub_out h' = hub_out h /\ hub_returned h' = hub_returned h /\
  (reg = true -> hub_failed h' = false) /\ (hub_failed h = true -> hub_failed h' = true).
Proof.
  intros Hci HI Ht Hreg Hs. pose proof HI as [HIo HIr]. pose proof (io_listener _ _ _ HIo ci Hci) as HL.
  assert (HLr : reg = true -> listener_regular ci (R ci) (Tk ci) (listeners (hub_in h)).[ci]) by (intros E; apply (ir_listener _ _ _ (HIr E) ci Hci)).
  assert (Hone : forall l', listener_ok ci r' t' l' -> (reg = true -> listener_regular ci r' t' l') -> shards_received l' = shards_received (listeners (hub_in h)).[ci] ->
            in_state reg (set_at ci r' R) (set_at ci t' Tk) (set_listener ci l' (hub_in h))) by (intros; apply in_listener; assumption).
  assert (Hput : forall l', listener_ok ci r' t' l' -> (reg = true -> listener_regular ci r' t' l') -> shards_received l' = shards_received (listeners (hub_in h)).[ci] + 1 ->
            in_state reg (set_at ci r' R) (set_at ci t' Tk)
              (set_rhs ci (shards_received (listeners (hub_in h)).[ci]) (rv ci (shards_received (listeners (hub_in h)).[ci])) (set_listener ci l' (hub_in h))))
    by (intros; apply in_delivered; assumption).
  destruct (listeners (hub_in h)).[ci] as [stage queue reading worker received count rfailed] eqn:El. listener_cbn.
  pose proof HL as [L1 L2 L3 L4 L5]. listener_cbn.
  inversion Hs; subst; listener_cbn; repeat match goal with x := _ |- _ => subst x end;
    try (rewrite Hlocal in * by exact Hci; discriminate); try (destruct Ht as [-> ->]).
  - destruct (next_shard _ _ _ _ _ _ _ Ht Hci ltac:(lia)) as (Hr & -> & -> & -> & Ei). rewrite Ei in *.
    destruct (L3 eq_refl) as [E0 Htk]; [assumption|]. subst received. finalized reg R Tk HI. unchanged Hreg.
    apply Hput; [split; listener_cases| |reflexivity].
    intros E. destruct (HLr E) as [R1 R0 R2 R3 R4 R5]. listener_cbn. split; listener_cases.
  - destruct (next_shard _ _ _ _ _ _ _ Ht Hci ltac:(lia)) as (Hr & -> & -> & -> & Ei). rewrite Ei, shard_fits_ok in * by (auto; lia). discriminate.
  - destruct (next_end _ _ _ _ _ _ Ht) as (-> & -> & Ei). rewrite Ei in *. destruct (L3 eq_refl) as [E0 Htk]; [assumption|]. subst received.
    assert (Hend : reg = true -> (n =? R ci) = true) by (intros E; destruct (Hreg E) as [_ He]; rewrite (He _ eq_refl); apply Z.eqb_refl).
    match goal with |- context [RoleReturned ?b] => set (complete := b) in * end.
    split; [|split; [destruct complete; reflexivity|split; [destruct complete; reflexivity|split]]].
    + replace (hub_in (if complete then _ else _)) with (set_listener ci (MkListener (RoleReturned complete) queue reading worker (R ci) count rfailed) (hub_in h))
        by (destruct complete; reflexivity).
      apply Hone; [split; listener_cases| |reflexivity]. intros E. destruct (HLr E) as [R1 R0 R2 R3 R4 R5]. listener_cbn.
      specialize (Hend E). split; listener_cases. subst res. split; [exact Hend|]. unfold complete in Hend. apply Z.eqb_eq in Hend. auto.
    + intros E. rewrite (Hend E). apply (Hreg E).
    + destruct complete; auto.
  - destruct (next_shard _ _ _ _ _ _ _ Ht Hci ltac:(lia)) as (Hr & -> & -> & -> & Ei). rewrite Ei in *. unchanged Hreg.
    apply Hone; [split; listener_cases; eapply push_ok; eauto| |reflexivity].
    intros E. destruct (HLr E) as [R1 R0 R2 R3 R4 R5]. listener_cbn. destruct (R3 ltac:(assumption) eq_refl) as [-> Hc].
    destruct (push_open _ _ _ Hc ltac:(eassumption)) as [Hc' _]. split; listener_cases.
  - destruct (next_end _ _ _ _ _ _ Ht) as (-> & -> & Ei). rewrite Ei in *. unchanged Hreg.
    apply Hone; [split; listener_cases; eapply push_end_ok; eauto| |reflexivity].
    intros E. destruct (HLr E) as [R1 R0 R2 R3 R4 R5]. listener_cbn. destruct (R3 ltac:(assumption) eq_refl) as [-> Hc].
    match goal with E' : push _ _ = Some _ |- _ => destruct (push_open _ _ _ Hc E') as [Hc' Hq] end.
    rewrite (queue_open _ _ _ _ (L5 eq_refl ltac:(assumption) eq_refl) Hc) in Hq. destruct (Hreg E) as [_ He]. rewrite (He _ eq_refl) in *.
    split; listener_cases.
  - unchanged Hreg. apply Hone; [split; listener_cases; apply close_ok; auto| |reflexivity].
    intros E. destruct (HLr E) as [R1 R0 R2 R3 R4 R5]. discriminate.
  - destruct (pop_shard_ok _ _ _ _ _ _ (L5 eq_refl ltac:(assumption) eq_refl) ltac:(eassumption) ltac:(eassumption)) as (-> & Hlt & Hq').
    cbn [queued_shard qs_shard_id qs_payload] in *. finalized reg R Tk HI. unchanged Hreg.
    apply Hput; [split; listener_cases| |reflexivity].
    intros E. destruct (HLr E) as [R1 R0 R2 R3 R4 R5]. listener_cbn. destruct (pop_closed _ _ _ ltac:(eassumption)) as [Hc Hl].
    split; listener_cases.
    + destruct (R3 ltac:(assumption) ltac:(assumption)) as [_ Hc']. split; [reflexivity|congruence].
    + destruct (R4 ltac:(assumption) ltac:(assumption)) as (-> & -> & Hn'). do 2 (split; [reflexivity|]). intros _. destruct (Hn' eq_refl) as [Hc' Hl'].
      split; [congruence|]. rewrite Hl, items_cons in Hl' by lia. injection Hl' as Hl'. exact Hl'.
  - destruct (pop_shard_ok _ _ _ _ _ _ (L5 eq_refl ltac:(assumption) eq_refl) ltac:(eassumption) ltac:(eassumption)) as (-> & Hlt & Hq').
    cbn [queued_shard qs_shard_id qs_payload] in *. rewrite shard_fits_ok in * by (auto; lia). discriminate.
  - unchanged Hreg. apply Hone; [split; listener_cases| |reflexivity].
    intros E. destruct (HLr E) as [R1 R0 R2 R3 R4 R5]. listener_cbn. destruct reading.
    + exfalso. destruct (R3 ltac:(assumption) eq_refl) as [_ Hc].
      destruct (no_marker _ _ _ _ (queue_open _ _ _ _ (L5 eq_refl ltac:(assumption) eq_refl) Hc) Hc) as [_ Hm].
      match goal with E1 : pop _ = Popped _ _, E2 : qs_end_of_stream _ = true |- _ => rewrite (Hm _ _ E1) in E2; discriminate end.
    + destruct (R4 ltac:(assumption) eq_refl) as (-> & -> & Hl). destruct (Hl eq_refl) as [_ Hl'].
      destruct (pop_marker (cv ci) received n n _ _ _ ltac:(lia) Hl' ltac:(eassumption) ltac:(eassumption)) as [-> ->]. split; listener_cases. do 2 (split; [reflexivity|]). discriminate.
  - unchanged Hreg. apply Hone; [split; listener_cases| |reflexivity].
    intros E. exfalso. destruct (HLr E) as [R1 R0 R2 R3 R4 R5]. listener_cbn. match goal with E' : pop queue = PopClosed |- _ => rename E' into Ep end. destruct reading.
    + destruct (R3 ltac:(assumption) eq_refl) as [_ Hc].
      destruct (no_marker _ _ _ _ (queue_open _ _ _ _ (L5 eq_refl ltac:(assumption) eq_refl) Hc) Hc) as [Hm _]. contradiction.
    + destruct (R4 ltac:(assumption) eq_refl) as (_ & _ & Hl). destruct (Hl eq_refl) as [_ Hl'].
      unfold pop in Ep. rewrite Hl' in Ep. destruct (items (cv ci) received n); discriminate.
  - match goal with |- context [RoleReturned (negb ?b)] => set (incomplete := b) in * end.
    assert (Hinc : reg = true -> incomplete = false).
    { intros E. destruct (HLr E) as [R1 R0 R2 R3 R4 R5]. listener_cbn. destruct (R5 ltac:(assumption) ltac:(discriminate)) as (_ & _ & -> & ->). subst incomplete rfailed.
      cbn [orb]. rewrite Z.eqb_refl. apply andb_false_r. }
    split; [|split; [destruct incomplete; reflexivity|split; [destruct incomplete; reflexivity|split]]].
    + replace (hub_in (if incomplete then _ else _)) with (set_listener ci (MkListener (RoleReturned (negb incomplete)) queue false Done received count rfailed) (hub_in h))
        by (destruct incomplete; reflexivity).
      apply Hone; [split; listener_cases| |reflexivity]. intros E. destruct (HLr E) as [R1 R0 R2 R3 R4 R5]. listener_cbn. rewrite (Hinc E).
      destruct (R5 ltac:(assumption) ltac:(discriminate)) as (_ & _ & -> & ->). destruct (R4 ltac:(assumption) eq_refl) as (-> & -> & _). split; listener_cases. do 2 (split; [reflexivity|]). discriminate.
    + intros E. rewrite (Hinc E). apply (Hreg E).
    + destruct incomplete; auto.
  - unchanged Hreg. apply Hone; [split; listener_cases| |reflexivity]. intros E. destruct (Hreg E). congruence.
Qed.

(** ** What goes out *)

Notation workers := (decode_worker_count bs T W q).

Record stream_ok (t : Z) (ws : HubWriteStream) : Prop := {
  so_next : 0 <= hw_next_shard ws <= n;
  so_pending : forall s p, hw_pending ws !! s = Some p -> 0 <= s < n /\ p = (rec s).[t];
  so_prefix : exists k, hw_streamed ws = ztake k (tgt t);
  so_streamed : hw_failed ws = false -> hw_streamed ws = ztake (hw_next_shard ws * w) (tgt t);
  so_open : hw_open ws = true -> hw_failed ws = false }.

Definition worker_ok (wk : DecodeWorker) : Prop :=
  match wk with Decoded s recovered t => 0 <= s < n /\ recovered = rec s /\ 0 <= t <= f | _ => True end.

Record out_ok (o : HubOut) : Prop := {
  oo_scheduled_len : zlen (shard_scheduled o) = n;
  oo_workers_len : zlen (decode_workers o) = workers;
  oo_streams_len : zlen (write_streams o) = f;
  oo_worker : forall wi, 0 <= wi < workers -> worker_ok (decode_workers o).[wi];
  oo_stream : forall t, 0 <= t < f -> stream_ok t (write_streams o).[t] }.

Definition in_flight (wk : DecodeWorker) : Z := match wk with Decoded _ _ _ => 1 | _ => 0 end.
Definition scheduled_count (o : HubOut) : Z := sum_below n (fun s => b2z (shard_scheduled o).[s]).
Definition in_flight_count (o : HubOut) : Z := sum_below workers (fun wi => in_flight (decode_workers o).[wi]).

(** Shard [s] for target [t] was streamed, waits, or is about to be handed over. *)
Definition kept (o : HubOut) (s t : Z) : Prop :=
  s < hw_next_shard (write_streams o).[t] \/ is_Some (hw_pending (write_streams o).[t] !! s) \/
  exists wi recovered t', 0 <= wi < workers /\ (decode_workers o).[wi] = Decoded s recovered t' /\ t' <= t.

Record out_regular (o : HubOut) : Prop := {
  or_finished : shards_finished o = scheduled_count o - in_flight_count o;
  or_exited : forall wi, 0 <= wi < workers -> (decode_workers o).[wi] = Exited -> n <= shards_finished o;
  or_done : decode_done o = true -> n <= shards_finished o;
  or_kept : forall s t, 0 <= s < n -> 0 <= t < f -> (shard_scheduled o).[s] = true -> kept o s t;
  or_stream : forall t, 0 <= t < f -> let ws := (write_streams o).[t] in
    hw_failed ws = false /\ (hw_open ws = false -> hw_next_shard ws = n) /\ hw_recovery_result ws <> Some false }.

Definition out_state (reg : bool) (o : HubOut) : Prop := out_ok o /\ (reg = true -> out_regular o).

Lemma workers_some : 1 <= workers.
Proof. unfold decode_worker_count. lia. Qed.

Lemma rec_len s t : 0 <= s < n -> 0 <= t < f -> zlen (rec s).[t] = w.
Proof. intros Hs Ht. destruct (Htgt t Ht) as [H1 H2]. rewrite <- H2 by exact Hs. apply peek_len; nia. Qed.

Lemma streamed_next t s : 0 <= t < f -> 0 <= s < n -> ztake (s * w) (tgt t) ++ (rec s).[t] = ztake ((s + 1) * w) (tgt t).
Proof. intros Ht Hs. destruct (Htgt t Ht) as [_ H2]. rewrite <- H2, peek_snoc by nia. f_equal. lia. Qed.

Lemma streamed_part t s m : 0 <= t < f -> 0 <= s < n -> exists k, ztake (s * w) (tgt t) ++ ztake m (rec s).[t] = ztake k (tgt t).
Proof. intros Ht Hs. destruct (Htgt t Ht) as [_ H2]. rewrite <- H2 by exact Hs. apply peek_part; nia. Qed.

(** One worker changes. *)
Definition set_worker (wi : Z) (wk : DecodeWorker) (o : HubOut) : HubOut :=
  MkHubOut (shard_scheduled o) (decode_workers o).[wi <- wk] (shards_finished o) (decode_done o) (write_streams o).
Definition set_stream (t : Z) (ws : HubWriteStream) (o : HubOut) : HubOut :=
  MkHubOut (shard_scheduled o) (decode_workers o) (shards_finished o) (decode_done o) (write_streams o).[t <- ws].

Lemma out_worker_ok wi wk o : out_ok o -> 0 <= wi < workers -> worker_ok wk -> out_ok (set_worker wi wk o).
Proof.
  intros [O1 O2 O3 O4 O5] Hi Hk. split; cbn [set_worker shard_scheduled decode_workers write_streams]; auto; [rewrite zlen_zset; exact O2|].
  intros j Hj. rewrite zget_zset by lia. destruct (Z.eqb_spec j wi); [exact Hk|apply O4, Hj].
Qed.

Lemma out_stream_ok t ws o : out_ok o -> 0 <= t < f -> stream_ok t ws -> out_ok (set_stream t ws o).
Proof.
  intros [O1 O2 O3 O4 O5] Hi Hk. split; cbn [set_stream shard_scheduled decode_workers write_streams]; auto; [rewrite zlen_zset; exact O3|].
  intros j Hj. rewrite zget_zset by lia. destruct (Z.eqb_spec j t) as [->|]; [exact Hk|apply O5, Hj].
Qed.

Lemma in_flight_set wi wk o : out_ok o -> 0 <= wi < workers ->
  in_flight_count (set_worker wi wk o) = in_flight_count o + (in_flight wk - in_flight (decode_workers o).[wi]).
Proof.
  intros HO Hi. unfold in_flight_count. rewrite (sum_below_change workers (fun i => in_flight (decode_workers o).[i]) _ wi Hi).
  - cbn [set_worker decode_workers]. rewrite zget_zset_eq by (rewrite (oo_workers_len _ HO); lia). reflexivity.
  - intros j Hj. cbn [set_worker decode_workers]. rewrite zget_zset_ne by congruence. reflexivity.
Qed.

Lemma scheduled_bound o : scheduled_count o <= n.
Proof.
  unfold scheduled_count. transitivity (sum_below n (fun _ => 1)); [apply sum_below_le; intros s _; destruct ((shard_scheduled o).[s]); cbn; lia|].
  rewrite sum_below_const by lia. lia.
Qed.

Lemma in_flight_nonneg o : 0 <= in_flight_count o.
Proof. apply sum_below_nonneg. intros i _. destruct ((decode_workers o).[i]); cbn; lia. Qed.

(** All shards are finished: none is in flight, all were scheduled. *)
Lemma all_finished o : out_regular o -> n <= shards_finished o ->
  (forall wi s recovered t, 0 <= wi < workers -> (decode_workers o).[wi] <> Decoded s recovered t) /\ forall s, 0 <= s < n -> (shard_scheduled o).[s] = true.
Proof.
  intros HR Hfin. pose proof (or_finished _ HR). pose proof (scheduled_bound o). pose proof (in_flight_nonneg o). split.
  - intros wi s recovered t Hi E. assert (0 < in_flight_count o); [|lia].
    apply (sum_below_pos workers _ wi Hi); [rewrite E; cbn; lia|]. intros j _. destruct ((decode_workers o).[j]); cbn; lia.
  - intros s Hs. destruct ((shard_scheduled o).[s]) eqn:E; [reflexivity|]. exfalso.
    assert (scheduled_count o < sum_below n (fun _ => 1)); [|rewrite sum_below_const in *; lia].
    apply (sum_below_lt n _ _ s Hs); [rewrite E; cbn; lia|]. intros j _. destruct ((shard_scheduled o).[j]); cbn; lia.
Qed.

(** ** The hub *)

Record hub_ok (R : Z -> Z) (Tk : Z -> bool) (h : Hub) : Prop := {
  hs_in : in_ok R Tk (hub_in h);
  hs_out : out_ok (hub_out h);
  hs_returned : hub_returned h = Some true -> forall t, 0 <= t < f -> stream_complete bs T q (write_streams (hub_out h)).[t] = true }.

Record hub_regular (R : Z -> Z) (Tk : Z -> bool) (h : Hub) : Prop := {
  hg_in : in_regular R Tk (hub_in h);
  hg_out : out_regular (hub_out h);
  hg_failed : hub_failed h = false;
  hg_returned : forall r, hub_returned h = Some r -> r = true }.

Definition hub_state (reg : bool) (R : Z -> Z) (Tk : Z -> bool) (h : Hub) : Prop := hub_ok R Tk h /\ (reg = true -> hub_regular R Tk h).

Lemma in_ext reg R Tk R' Tk' i : (forall ci, 0 <= ci < C -> R' ci = R ci /\ Tk' ci = Tk ci) -> in_state reg R Tk i -> in_state reg R' Tk' i.
Proof.
  intros E [[I1 I2 I3 I4 I5 I6 I7 I8 I9] HR]. split; [split; auto; intros ci Hci; destruct (E ci Hci) as [-> ->]; auto|].
  intros Hreg. destruct (HR Hreg) as [J1 J2 J3]. split; auto. intros ci Hci. destruct (E ci Hci) as [-> ->]. auto.
Qed.

Lemma set_at_same {A} i (g : Z -> A) j : set_at i (g i) g j = g j.
Proof. unfold set_at. destruct (Z.eqb_spec j i) as [->|]; reflexivity. Qed.

(** What the hub assembles from a ready shard. *)
Lemma rhs_ready R Tk h s : in_ok R Tk (hub_in h) -> 0 <= s < n -> shard_ready h s = true -> shard_rhs h s = map (fun ci => rv ci s) (zseq C).
Proof.
  intros HI Hs Hr. unfold shard_ready in Hr. rewrite forallb_forall in Hr. unfold shard_rhs.
  pose proof (io_rhs_len _ _ _ HI) as El. apply (list_eq_same_length _ _ _ eq_refl).
  { rewrite !length_map, length_seqZ. lia. }
  intros i x y Hi Hx Hy. rewrite list_lookup_fmap in Hx. rewrite list_lookup_fmap in Hy. destruct (rhs_bufs (hub_in h) !! i) as [row|] eqn:Erow; [|discriminate].
  destruct (zseq C !! i) as [ci|] eqn:Eci; [|discriminate]. cbn in Hx, Hy. injection Hx as <-. injection Hy as <-.
  apply lookup_seqZ in Eci as [-> Hc]. assert (Erow' : (rhs_bufs (hub_in h)).[0 + Z.of_nat i] = row) by (apply zget_Some; [lia|]; rewrite <- Erow; f_equal; lia).
  specialize (Hr row ltac:(apply list_elem_of_In, (list_elem_of_lookup_2 _ _ _ Erow))). breflect. destruct Hr as [v Hv]. rewrite Hv. cbn.
  apply (io_rhs _ _ _ HI (0 + Z.of_nat i) s v ltac:(lia) Hs). rewrite Erow'. exact Hv.
Qed.

Lemma ready_shard h s : find_ready_shard bs T q h = Some s -> 0 <= s < n /\ (shard_scheduled (hub_out h)).[s] = false /\ shard_ready h s = true.
Proof. unfold find_ready_shard. intros H. apply find_some in H as [H1 H2]. apply in_zseq in H1. breflect. auto. Qed.

Lemma kept_mono o o' s t : (write_streams o').[t] = (write_streams o).[t] ->
  (forall wi recovered t', 0 <= wi < workers -> (decode_workers o).[wi] = Decoded s recovered t' -> t' <= t -> exists wi' recovered' t'',
     0 <= wi' < workers /\ (decode_workers o').[wi'] = Decoded s recovered' t'' /\ t'' <= t) -> kept o s t -> kept o' s t.
Proof.
  intros E H. unfold kept. rewrite E. intros [H1|[H1|(wi & rc & t' & Hi & Ew & Ht)]]; auto. right; right. eauto.
Qed.

(** ** Steps of the sending side *)

Lemma out_decodes reg wi s o : out_state reg o -> 0 <= wi < workers -> (decode_workers o).[wi] = Idle -> 0 <= s < n ->
  (shard_scheduled o).[s] = false ->
  out_state reg (MkHubOut (shard_scheduled o).[s <- true] (decode_workers o).[wi <- Decoded s (rec s) 0] (shards_finished o) (decode_done o) (write_streams o)).
Proof.
  intros [HO HR] Hi Hidle Hs Hsch. pose proof HO as [O1 O2 O3 O4 O5]. assert (Hf0 : 0 <= f) by (unfold hub_f; lia). split.
  - split; cbn [shard_scheduled decode_workers write_streams]; auto; [rewrite zlen_zset; exact O1|rewrite zlen_zset; exact O2|].
    intros j Hj. rewrite zget_zset by lia. destruct (Z.eqb_spec j wi); [cbn; auto with lia|apply O4, Hj].
  - intros Hreg. destruct (HR Hreg) as [R1 R2 R3 R4 R5]. split; cbn [shard_scheduled decode_workers shards_finished decode_done write_streams]; auto.
    + transitivity (scheduled_count o - in_flight_count o); [exact R1|]. change (in_flight_count (MkHubOut _ _ _ _ _)) with (in_flight_count (set_worker wi (Decoded s (rec s) 0) o)). rewrite in_flight_set, Hidle by assumption. cbn [in_flight].
      assert (E : scheduled_count (MkHubOut (shard_scheduled o).[s <- true] (decode_workers o).[wi <- Decoded s (rec s) 0] (shards_finished o) (decode_done o) (write_streams o)) =
                  scheduled_count o + 1); [|rewrite E; lia].
      unfold scheduled_count. rewrite (sum_below_change n (fun x => b2z (shard_scheduled o).[x]) _ s Hs).
      * cbn [shard_scheduled]. rewrite zget_zset_eq, Hsch by lia. cbn. lia.
      * intros j Hj. cbn [shard_scheduled]. rewrite zget_zset_ne by congruence. reflexivity.
    + intros j Hj. rewrite zget_zset by lia. destruct (Z.eqb_spec j wi); [discriminate|apply R2, Hj].
    + intros x t Hx Ht. destruct (Z.eq_dec x s) as [->|Hne].
      * intros _. right; right. exists wi, (rec s), 0. cbn [decode_workers]. rewrite zget_zset_eq by lia. auto with lia.
      * rewrite zget_zset_ne by congruence. intros E. apply (kept_mono o); [reflexivity| |apply R4; assumption].
        intros wi' rc t' Hi' Ew Ht'. exists wi', rc, t'. cbn [decode_workers]. rewrite zget_zset_ne by congruence. auto.
Qed.

Lemma out_hands_over reg wi s t o : out_state reg o -> 0 <= wi < workers -> (decode_workers o).[wi] = Decoded s (rec s) t -> 0 <= s < n -> 0 <= t < f ->
  out_state reg (set_stream t (emplace s (rec s).[t] (write_streams o).[t]) (set_worker wi (Decoded s (rec s) (t + 1)) o)).
Proof.
  intros [HO HR] Hi Ew Hs Ht. pose proof HO as [O1 O2 O3 O4 O5]. split.
  - apply out_stream_ok; [apply out_worker_ok; [exact HO|exact Hi|cbn; auto with lia]|exact Ht|].
    destruct (O5 t Ht) as [S1 S2 S3 S4 S5]. split; cbn [emplace hw_pending hw_next_shard hw_open hw_failed hw_streamed]; auto.
    intros x p. destruct (hw_pending _ !! s) eqn:E; [apply S2|]. destruct (Z.eq_dec x s) as [->|Hne]; [rewrite lookup_insert_eq; intros [= <-]; auto|].
    rewrite lookup_insert_ne by congruence. apply S2.
  - intros Hreg. destruct (HR Hreg) as [R1 R2 R3 R4 R5].
    assert (Estr : forall j, 0 <= j < f -> (write_streams o).[t <- emplace s (rec s).[t] (write_streams o).[t]].[j] =
              if j =? t then emplace s (rec s).[t] (write_streams o).[t] else (write_streams o).[j]) by (intros j Hj; apply zget_zset; lia).
    split; cbn [set_stream set_worker shard_scheduled decode_workers shards_finished decode_done write_streams]; auto.
    + transitivity (scheduled_count o - in_flight_count o); [exact R1|]. change (in_flight_count (set_stream _ _ _)) with (in_flight_count (set_worker wi (Decoded s (rec s) (t + 1)) o)).
      rewrite in_flight_set, Ew by assumption. cbn [in_flight]. change (scheduled_count (set_stream _ _ _)) with (scheduled_count o). lia.
    + intros j Hj. rewrite zget_zset by lia. destruct (Z.eqb_spec j wi); [discriminate|apply R2, Hj].
    + intros x t' Hx Ht' E. specialize (R4 x t' Hx Ht' E). unfold kept in *. cbn [set_stream set_worker decode_workers write_streams]. rewrite Estr by exact Ht'.
      assert (Hold : forall wi' rc t'', 0 <= wi' < workers -> (decode_workers o).[wi'] = Decoded x rc t'' -> t'' <= t' ->
                (x = s /\ t' = t) \/ exists wi' rc t'', 0 <= wi' < workers /\ (decode_workers o).[wi <- Decoded s (rec s) (t + 1)].[wi'] = Decoded x rc t'' /\ t'' <= t').
      { intros wi' rc t'' Hi' Ew' Hle. destruct (Z.eq_dec wi' wi) as [->|Hne].
        - rewrite Ew in Ew'. injection Ew' as <- <- <-. destruct (Z.eq_dec t' t); [auto|]. right. exists wi, (rec s), (t + 1). rewrite zget_zset_eq by lia. auto with lia.
        - right. exists wi', rc, t''. rewrite zget_zset_ne by congruence. auto. }
      destruct (Z.eqb_spec t' t) as [->|Hne]; cbn [emplace hw_pending hw_next_shard].
      * destruct R4 as [H1|[H1|(wi' & rc & t'' & Hi' & Ew' & Hle)]]; [auto| |].
        -- right; left. destruct (hw_pending _ !! s) eqn:Ep; [exact H1|]. destruct (Z.eq_dec x s) as [->|]; [rewrite lookup_insert_eq; eauto|].
           rewrite lookup_insert_ne by congruence. exact H1.
        -- destruct (Hold wi' rc t'' Hi' Ew' Hle) as [[-> _]|]; [|auto]. right; left. destruct (hw_pending _ !! s) eqn:Ep; [rewrite Ep; eauto|rewrite lookup_insert_eq; eauto].
      * destruct R4 as [H1|[H1|(wi' & rc & t'' & Hi' & Ew' & Hle)]]; auto. destruct (Hold wi' rc t'' Hi' Ew' Hle) as [[_ E']|]; [contradiction|auto].
    + intros j Hj. rewrite Estr by exact Hj. destruct (Z.eqb_spec j t) as [->|]; apply R5; assumption.
Qed.

Lemma out_finishes reg wi s rc t o : out_state reg o -> 0 <= wi < workers -> (decode_workers o).[wi] = Decoded s rc t -> f <= t ->
  out_state reg (MkHubOut (shard_scheduled o) (decode_workers o).[wi <- Idle] (shards_finished o + 1) (decode_done o) (write_streams o)).
Proof.
  intros [HO HR] Hi Ew Ht. destruct (out_worker_ok wi Idle o HO Hi I) as [O1 O2 O3 O4 O5]. pose proof (oo_workers_len _ HO) as Hl. split; [split; assumption|].
  intros Hreg. destruct (HR Hreg) as [R1 R2 R3 R4 R5]. split; cbn [shard_scheduled decode_workers shards_finished decode_done write_streams]; auto.
  - transitivity (scheduled_count o - in_flight_count (set_worker wi Idle o)); [|reflexivity]. rewrite in_flight_set, Ew by assumption. cbn [in_flight]. lia.
  - intros j Hj. rewrite zget_zset by lia. destruct (Z.eqb_spec j wi); [discriminate|]. intros E. specialize (R2 j Hj E). lia.
  - intros E. specialize (R3 E). lia.
  - intros x t' Hx Ht' E. apply (kept_mono o); [reflexivity| |apply R4; assumption]. intros wi' rc' t'' Hi' Ew' Hle.
    destruct (Z.eq_dec wi' wi) as [->|Hne]; [rewrite Ew in Ew'; injection Ew' as <- <- <-; lia|].
    exists wi', rc', t''. cbn [decode_workers]. rewrite zget_zset_ne by congruence. auto.
Qed.

Lemma out_exits reg wi o : out_state reg o -> 0 <= wi < workers -> (decode_workers o).[wi] = Idle -> (reg = true -> n <= shards_finished o) ->
  out_state reg (set_worker wi Exited o).
Proof.
  intros [HO HR] Hi Ew Hfin. pose proof (oo_workers_len _ HO) as Hl. split; [apply out_worker_ok; [exact HO|exact Hi|exact I]|].
  intros Hreg. destruct (HR Hreg) as [R1 R2 R3 R4 R5]. split; auto.
  - rewrite in_flight_set, Ew by assumption. change (scheduled_count _) with (scheduled_count o) at 1. cbn [in_flight set_worker shards_finished]. lia.
  - intros x t' Hx Ht' E. apply (kept_mono o); [reflexivity| |apply R4; assumption]. intros wi' rc' t'' Hi' Ew' Hle.
    destruct (Z.eq_dec wi' wi) as [->|Hne]; [congruence|]. exists wi', rc', t''. cbn [set_worker decode_workers]. rewrite zget_zset_ne by congruence. auto.
Qed.

Lemma out_joins reg o : out_state reg o -> forallb worker_exited (decode_workers o) = true ->
  out_state reg (MkHubOut (shard_scheduled o) (decode_workers o) (shards_finished o) true (write_streams o)).
Proof.
  intros [[O1 O2 O3 O4 O5] HR] Hex. split; [split; assumption|]. intros Hreg. destruct (HR Hreg) as [R1 R2 R3 R4 R5]. split; auto. intros _.
  pose proof workers_some. rewrite forallb_forall in Hex. specialize (Hex (decode_workers o).[0] ltac:(apply zget_In; lia)).
  apply (R2 0); [lia|]. destruct ((decode_workers o).[0]); [discriminate|discriminate|reflexivity].
Qed.

(** A stream changes and keeps what it had. *)
Lemma out_stream reg t ws o : out_state reg o -> 0 <= t < f -> stream_ok t ws ->
  (reg = true -> hw_failed ws = false /\ (hw_open ws = false -> hw_next_shard ws = n) /\ hw_recovery_result ws <> Some false) ->
  (forall s, 0 <= s < n -> s < hw_next_shard (write_streams o).[t] \/ is_Some (hw_pending (write_streams o).[t] !! s) ->
     s < hw_next_shard ws \/ is_Some (hw_pending ws !! s)) ->
  out_state reg (set_stream t ws o).
Proof.
  intros [HO HR] Ht Hs Hsr Hk. pose proof (oo_streams_len _ HO) as Hl. split; [apply out_stream_ok; assumption|].
  intros Hreg. destruct (HR Hreg) as [R1 R2 R3 R4 R5]. split; auto.
  - intros x t' Hx Ht' E. specialize (R4 x t' Hx Ht' E). unfold kept in *. cbn [set_stream write_streams decode_workers]. rewrite zget_zset by lia.
    destruct (Z.eqb_spec t' t) as [->|]; [|exact R4]. destruct R4 as [H1|[H1|H1]]; [destruct (Hk x Hx (or_introl H1)); auto|destruct (Hk x Hx (or_intror H1)); auto|auto].
  - intros j Hj. cbn [set_stream write_streams]. rewrite zget_zset by lia. destruct (Z.eqb_spec j t) as [->|]; [apply Hsr, Hreg|apply R5, Hj].
Qed.

Lemma stream_written t ws p : 0 <= t < f -> stream_ok t ws -> hw_failed ws = false -> hw_pending ws !! hw_next_shard ws = Some p ->
  stream_ok t (MkHubWriteStream (delete (hw_next_shard ws) (hw_pending ws)) (hw_next_shard ws + 1) true false (hw_streamed ws ++ p) (hw_recovery_result ws)).
Proof.
  intros Ht [S1 S2 S3 S4 S5] Hf Hp. destruct (S2 _ _ Hp) as [Hs ->]. assert (E : hw_streamed ws ++ (rec (hw_next_shard ws)).[t] = ztake ((hw_next_shard ws + 1) * w) (tgt t)).
  { rewrite S4 by exact Hf. apply streamed_next; assumption. }
  split; cbn [hw_pending hw_next_shard hw_open hw_failed hw_streamed]; auto; [lia| |rewrite E; eauto].
  intros x y Hx. apply S2. apply lookup_delete_Some in Hx as [_ Hx]. exact Hx.
Qed.

Lemma stream_closed t ws failed sent : 0 <= t < f -> stream_ok t ws -> hw_failed ws = false ->
  (failed = false -> sent = []) -> (sent = [] \/ exists p m, hw_pending ws !! hw_next_shard ws = Some p /\ sent = ztake m p) ->
  stream_ok t (close_stream failed sent ws).
Proof.
  intros Ht [S1 S2 S3 S4 S5] Hf Hs Hp. split; cbn [close_stream hw_pending hw_next_shard hw_open hw_failed hw_streamed]; auto; [| |discriminate].
  - destruct Hp as [->|(p & m & Hp & ->)]; [rewrite app_nil_r; exact S3|]. destruct (S2 _ _ Hp) as [Hn' ->]. rewrite S4 by exact Hf. apply streamed_part; assumption.
  - rewrite Hf. cbn [orb]. intros ->. rewrite Hs, app_nil_r by reflexivity. apply S4, Hf.
Qed.

(** Decoding done and nothing pending: all was streamed. *)
Lemma drained reg t o : out_state reg o -> reg = true -> 0 <= t < f -> decode_done o = true ->
  hw_pending (write_streams o).[t] !! hw_next_shard (write_streams o).[t] = None -> hw_next_shard (write_streams o).[t] = n.
Proof.
  intros [HO HR] Hreg Ht Hd Hp. specialize (HR Hreg). destruct (all_finished o HR (or_done _ HR Hd)) as [A1 A2].
  destruct (oo_stream _ HO t Ht) as [S1 _ _ _ _]. destruct (Z.eq_dec (hw_next_shard (write_streams o).[t]) n) as [|Hne]; [assumption|exfalso].
  assert (Hs : 0 <= hw_next_shard (write_streams o).[t] < n) by lia.
  destruct (or_kept _ HR (hw_next_shard (write_streams o).[t]) t Hs Ht (A2 _ Hs)) as [H1|[[y H1]|(wi & rc & t' & Hi & Ew & _)]]; [lia|congruence|].
  exact (A1 _ _ _ _ Hi Ew).
Qed.

(** ** Steps of the hub *)

Lemma hub_in_state reg R Tk R' Tk' i' h : hub_state reg R Tk h -> in_state reg R' Tk' i' -> hub_state reg R' Tk' (with_in i' h).
Proof.
  intros [[H1 H2 H3] HR] [I1 I2]. split; [split; assumption|]. intros Hreg. destruct (HR Hreg) as [G1 G2 G3 G4]. split; auto.
Qed.

Lemma hub_out_state reg R Tk o' h : hub_returned h = None -> hub_state reg R Tk h -> out_state reg o' -> hub_state reg R Tk (with_out o' h).
Proof.
  intros Hn' [[H1 H2 H3] HR] [I1 I2]. split; [split; [exact H1|exact I1|cbn; congruence]|]. intros Hreg. destruct (HR Hreg) as [G1 G2 G3 G4]. split; auto.
Qed.

Lemma hub_fail_state reg R Tk h : hub_returned h = None -> reg = false -> hub_state reg R Tk h -> hub_state reg R Tk (fail_hub h).
Proof. intros Hn' -> [[H1 H2 H3] HR]. split; [|discriminate]. split; [exact H1|exact H2|cbn; congruence]. Qed.

Lemma shared_state reg R Tk sr i : in_state reg R Tk i -> (sr <> SharedDone -> any_hub_local_read q = true) ->
  (forall k stream, sr = SharedReading k stream -> 0 <= k <= n /\ stream = zdrop (k * w) hub_block) ->
  (reg = true -> any_hub_local_read q = true -> shared_done sr <= shared_done (shared_hub_reader i)) ->
  in_state reg R Tk (MkHubIn sr (shared_hub_shards i) (listeners i) (rhs_bufs i)).
Proof.
  intros [[I1 I2 I3 I4 I5 I6 I7 I8 I9] HR] H1 H2 H3. split; [split; auto|]. intros Hreg. destruct (HR Hreg) as [J1 J2 J3]. split; auto.
  cbn [shared_hub_reader shared_hub_shards]. intros Hany s Hs. apply J1; [exact Hany|]. specialize (H3 Hreg Hany). lia.
Qed.

Lemma shared_read_state reg R Tk k stream i : in_state reg R Tk i -> shared_hub_reader i = SharedReading k stream -> k < n -> any_hub_local_read q = true ->
  in_state reg R Tk (MkHubIn (SharedReading (k + 1) (zdrop ((k + 1) * w) hub_block)) (shared_hub_shards i).[k <- Some (peek w (k * w) hub_block)] (listeners i) (rhs_bufs i)).
Proof.
  intros [[I1 I2 I3 I4 I5 I6 I7 I8 I9] HR] Hsr Hk Hany. destruct (I4 k stream Hsr) as [Hk0 _]. split.
  - split; cbn [shared_hub_reader shared_hub_shards listeners rhs_bufs]; auto.
    + rewrite zlen_zset. exact I1.
    + intros s v Hs. rewrite zget_zset by lia. destruct (Z.eqb_spec s k) as [->|]; [intros [= <-]; reflexivity|apply I2, Hs].
    + intros k' stream' [= <- <-]. split; [lia|reflexivity].
  - intros Hreg. destruct (HR Hreg) as [J1 J2 J3]. split; auto. cbn [shared_hub_reader shared_hub_shards shared_done]. intros _ s Hs.
    rewrite zget_zset by lia. destruct (Z.eqb_spec s k) as [->|]; [eauto|]. apply J1; [exact Hany|]. rewrite Hsr. cbn. lia.
Qed.

Lemma listener_gone reg R Tk ci h : reg = false -> 0 <= ci < C -> in_state reg R Tk (hub_in h) -> let l := (listeners (hub_in h)).[ci] in
  in_state reg R Tk (set_listener ci (MkListener (RoleReturned false) (hub_inbound_q l) (hub_reading l) (hub_worker l)
    (shards_received l) (hub_end_count l) (hub_reader_failed l)) (hub_in h)).
Proof.
  intros -> Hci HI l. pose proof (io_listener _ _ _ (proj1 HI) ci Hci) as HL. fold l in HL. destruct HL as [L1 L2 L3 L4 L5].
  eapply (in_ext false (set_at ci (R ci) R) (set_at ci (Tk ci) Tk)); [intros; rewrite !set_at_same; auto|].
  apply in_listener; [exact Hci|exact HI| |discriminate|reflexivity]. split; listener_cases.
Qed.

(** The hub's own block is where the request says. *)
Definition hub_source_ok (st : Storage) : Prop :=
  forall node, any_hub_local_read q = true -> rq_hub_datanode q = Some node -> datanode_stream bs T q (rq_hub_block_key q) node st = hub_block.

Lemma read_shared k : any_hub_local_read q = true -> 0 <= k < n -> read_all w (zdrop (k * w) hub_block) = Some (peek w (k * w) hub_block, zdrop ((k + 1) * w) hub_block).
Proof. intros Hany Hk. pose proof (Hblock Hany). apply read_all_shard; nia. Qed.

Lemma hub_step_state reg R Tk st fault h h' : hub_state reg R Tk h -> hub_source_ok st -> (reg = true -> fault = false) ->
  hub_step bs T W q inverse st fault h h' -> hub_state reg R Tk h'.
Proof.
  intros HS Hsrc Hf Hs. pose proof HS as [[HI HO HRet] HR].
  assert (HIs : in_state reg R Tk (hub_in h)) by (split; [exact HI|intros E; apply (HR E)]).
  assert (HOs : out_state reg (hub_out h)) by (split; [exact HO|intros E; apply (HR E)]).
  destruct Hs; repeat match goal with x := _ |- _ => subst x end.
  - apply (hub_in_state reg R Tk); [exact HS|]. apply shared_state; [exact HIs|intros _; apply (io_reader _ _ _ HI); congruence| |].
    + intros k stream [= <- <-]. split; [lia|]. apply Hsrc; [apply (io_reader _ _ _ HI); congruence|assumption].
    + intros _ _. match goal with E : shared_hub_reader _ = _ |- _ => rewrite E end. reflexivity.
  - assert (Hany : any_hub_local_read q = true) by (apply (io_reader _ _ _ HI); congruence).
    destruct (io_reading _ _ _ HI _ _ ltac:(eassumption)) as [Hk ->]. rewrite read_shared in * by (auto; lia).
    match goal with E : Some _ = Some _ |- _ => injection E as <- <- end.
    apply (hub_in_state reg R Tk R Tk _ h HS (shared_read_state reg R Tk _ _ _ HIs ltac:(eassumption) ltac:(assumption) Hany)).
  - assert (Hany : any_hub_local_read q = true) by (apply (io_reader _ _ _ HI); congruence).
    destruct (io_reading _ _ _ HI _ _ ltac:(eassumption)) as [Hk ->]. rewrite read_shared in * by (auto; lia). discriminate.
  - apply (hub_in_state reg R Tk); [exact HS|]. apply shared_state; [exact HIs|congruence|discriminate|].
    intros Hreg _. match goal with E : shared_hub_reader _ = _ |- _ => rewrite E end. cbn [shared_done].
    match goal with E : hub_failed h = true \/ _ |- _ => destruct E as [E|E]; [pose proof (hg_failed _ _ _ (HR Hreg)); congruence|lia] end.
  - match goal with E : listener_step _ _ _ _ _ _ _ _ _ |- _ => destruct (listener_moves reg R Tk ci (R ci) (Tk ci) h None h' ltac:(assumption) HIs) as (A1 & A2 & A3 & A4 & A5);
      [split; reflexivity|intros Hreg; split; [apply (HR Hreg)|discriminate]|exact E|] end.
    apply (in_ext reg _ _ R Tk) in A1; [|intros; rewrite !set_at_same; auto].
    split; [split; [apply A1|rewrite A2; exact HO|congruence]|]. intros Hreg. split; [apply A1, Hreg|rewrite A2; apply (HR Hreg)|auto|congruence].
  - assert (reg = false) as -> by (destruct reg; [discriminate (Hf eq_refl)|reflexivity]). apply hub_fail_state; [assumption|reflexivity|].
    apply (hub_in_state false R Tk); [exact HS|]. apply listener_gone; auto.
  - assert (reg = false) as -> by (destruct reg; [discriminate (Hf eq_refl)|reflexivity]). apply hub_fail_state; [assumption|reflexivity|].
    apply (hub_in_state false R Tk); [exact HS|]. apply shared_state; [exact HIs|congruence|discriminate|discriminate].
  - destruct (ready_shard _ _ ltac:(eassumption)) as (Hs & Hsch & Hrdy). rewrite (rhs_ready R Tk) in * by assumption. rewrite Hdecode in * by exact Hs.
    match goal with E : Some _ = Some _ |- _ => injection E as <- end. refine (hub_out_state _ _ _ _ h _ HS _); [assumption|]. exact (out_decodes reg wi shard (hub_out h) HOs ltac:(assumption) ltac:(assumption) Hs Hsch).
  - destruct (ready_shard _ _ ltac:(eassumption)) as (Hs & Hsch & Hrdy). rewrite (rhs_ready R Tk) in * by assumption. rewrite Hdecode in * by exact Hs. discriminate.
  - pose proof (oo_worker _ HO wi ltac:(assumption)) as Hwk. match goal with E : (decode_workers _).[wi] = _ |- _ => rewrite E in Hwk; rename E into Ew end.
    destruct Hwk as (Hs & -> & Ht). refine (hub_out_state _ _ _ _ h _ HS _); [assumption|]. exact (out_hands_over reg wi shard t (hub_out h) HOs ltac:(assumption) Ew Hs ltac:(lia)).
  - refine (hub_out_state _ _ _ _ h _ HS _); [assumption|]. eapply (out_finishes reg wi _ _ _ (hub_out h) HOs); eassumption.
  - refine (hub_out_state _ _ _ _ h _ HS _); [assumption|]. apply (out_exits reg wi (hub_out h) HOs); [assumption|assumption|]. intros Hreg.
    match goal with E : hub_failed h = true \/ _ |- _ => destruct E as [E|E]; [pose proof (hg_failed _ _ _ (HR Hreg)); congruence|exact E] end.
  - refine (hub_out_state _ _ _ _ h _ HS _); [assumption|]. apply (out_joins reg (hub_out h) HOs); assumption.
  - refine (hub_out_state _ _ _ _ h _ HS _); [assumption|]. apply (out_stream _ t _ (hub_out h) HOs); auto; [apply stream_written; auto; apply (oo_stream _ HO); assumption| |].
    + intros Hreg. destruct (or_stream _ (hg_out _ _ _ (HR Hreg)) t ltac:(assumption)) as (S1 & S2 & S3). cbn. split; [reflexivity|]. split; [discriminate|exact S3].
    + intros s Hs Hk. cbn [hw_next_shard hw_pending]. destruct (Z.eq_dec s (hw_next_shard (write_streams (hub_out h)).[t])) as [->|Hne]; [left; lia|].
      rewrite lookup_delete_ne by congruence. destruct Hk as [Hk|Hk]; [left; lia|auto].
  - assert (reg = false) as -> by (destruct reg; [discriminate (Hf eq_refl)|reflexivity]). apply hub_fail_state; [assumption|reflexivity|].
    refine (hub_out_state _ _ _ _ h _ HS _); [assumption|]. apply (out_stream _ t _ (hub_out h) HOs); auto; [|discriminate].
    apply stream_closed; auto; [apply (oo_stream _ HO); assumption|discriminate|right; eauto].
  - assert (Ho : hw_failed (write_streams (hub_out h)).[t] = false) by (apply (so_open _ _ (oo_stream _ HO t ltac:(assumption))); assumption).
    destruct (Z.eqb_spec (hw_next_shard (write_streams (hub_out h)).[t]) n) as [En|Hne].
    + refine (hub_out_state _ _ _ _ h _ HS _); [assumption|]. apply (out_stream _ t _ (hub_out h) HOs); auto; [apply stream_closed; auto; apply (oo_stream _ HO); assumption|].
      intros Hreg. destruct (or_stream _ (hg_out _ _ _ (HR Hreg)) t ltac:(assumption)) as (S1 & S2 & S3). cbn. rewrite S1. auto.
    + assert (reg = false) as ->.
      { destruct reg; [exfalso|reflexivity]. apply Hne. eapply drained; eauto. }
      apply hub_fail_state; [assumption|reflexivity|]. refine (hub_out_state _ _ _ _ h _ HS _); [assumption|]. apply (out_stream _ t _ (hub_out h) HOs); auto; [|discriminate].
      apply stream_closed; auto; [apply (oo_stream _ HO); assumption].
  - assert (reg = false) as -> by (destruct reg; [pose proof (hg_failed _ _ _ (HR eq_refl)); congruence|reflexivity]).
    refine (hub_out_state _ _ _ _ h _ HS _); [assumption|]. apply (out_stream _ t _ (hub_out h) HOs); auto; [|discriminate].
    apply stream_closed; auto; [apply (oo_stream _ HO); assumption|apply (so_open _ _ (oo_stream _ HO t ltac:(assumption))); assumption].
  - match goal with E : forallb _ (write_streams _) = true |- _ => rename E into Hall end. rewrite forallb_forall in Hall.
    assert (Hst : forall t, 0 <= t < f -> hw_open (write_streams (hub_out h)).[t] = false /\
              (hub_failed h = true \/ is_Some (hw_recovery_result (write_streams (hub_out h)).[t]))).
    { intros t Ht. specialize (Hall (write_streams (hub_out h)).[t] ltac:(apply zget_In; rewrite (oo_streams_len _ HO); exact Ht)). cbv beta in Hall.
      apply andb_prop in Hall as [A B]. apply negb_true_iff in A. apply orb_prop in B as [B|B]; [auto|apply bool_decide_eq_true in B; auto]. }
    split; [split; [exact HI|exact HO|]|].
    + cbn [hub_returned hub_out]. unfold hub_result. intros [= E]. breflect. intros t Ht.
      match goal with E : forallb _ _ = true |- _ => rewrite forallb_forall in E; apply E end. apply zget_In. rewrite (oo_streams_len _ HO). exact Ht.
    + intros Hreg. pose proof (HR Hreg) as [G1 G2 G3 G4]. split; auto. cbn [hub_returned]. intros r [= <-]. unfold hub_result. rewrite G3. cbn [negb andb].
      apply forallb_forall. intros ws Hws. apply In_zget in Hws as (t & Ht & <-). rewrite (oo_streams_len _ HO) in Ht.
      destruct (or_stream _ G2 t Ht) as (S1 & S2 & S3), (Hst t Ht) as [S4 [S5|[b S5]]]; [congruence|].
      unfold stream_complete. rewrite S1, S2 by exact S4. rewrite Z.eqb_refl. destruct b; [|congruence]. rewrite bool_decide_true by exact S5. reflexivity.
Qed.

(** ** Termination *)

Definition listener_weight (l : Listener) : Z :=
  zlen (q_ (hub_inbound_q l)) + (n - shards_received l) + b2z (hub_reading l) + worker_weight (hub_worker l) + stage_weight (listener_stage l).
Definition shared_weight (sr : SharedReader) : Z := match sr with SharedOpening => n + 2 | SharedReading k _ => n - k + 1 | SharedDone => 0 end.
Definition in_weight (i : HubIn) : Z := shared_weight (shared_hub_reader i) + sum_below C (fun ci => listener_weight (listeners i).[ci]).
Definition decode_weight (wk : DecodeWorker) : Z := match wk with Idle => 1 | Decoded _ _ t => f - t + 2 | Exited => 0 end.
Definition stream_weight (ws : HubWriteStream) : Z :=
  (n - hw_next_shard ws) + b2z (hw_open ws) + (match hw_recovery_result ws with None => 1 | Some _ => 0 end).
Definition out_weight (o : HubOut) : Z :=
  (f + 3) * (n - scheduled_count o) + sum_below workers (fun wi => decode_weight (decode_workers o).[wi]) + b2z (negb (decode_done o)) +
  sum_below f (fun t => stream_weight (write_streams o).[t]).
Definition hub_weight (h : Hub) : Z :=
  (match hub_returned h with None => 1 | Some _ => 0 end) + b2z (negb (hub_failed h)) + in_weight (hub_in h) + out_weight (hub_out h).

Lemma hub_f_nonneg : 0 <= f.
Proof. unfold hub_f. lia. Qed.

Lemma hub_weight_nonneg R Tk h : hub_ok R Tk h -> 0 <= hub_weight h.
Proof.
  intros [HI HO _]. unfold hub_weight, in_weight, out_weight. pose proof hub_f_nonneg. pose proof (scheduled_bound (hub_out h)).
  assert (0 <= shared_weight (shared_hub_reader (hub_in h))).
  { destruct (shared_hub_reader (hub_in h)) as [|k stream|] eqn:E; cbn; try lia. destruct (io_reading _ _ _ HI k stream E). lia. }
  assert (0 <= sum_below C (fun ci => listener_weight (listeners (hub_in h)).[ci])).
  { apply sum_below_nonneg. intros ci Hci. destruct (io_listener _ _ _ HI ci Hci) as [L1 _ _ _ _]. unfold listener_weight.
    assert (0 <= stage_weight (listener_stage (listeners (hub_in h)).[ci])) by (destruct (listener_stage _); cbn; lia).
    assert (0 <= worker_weight (hub_worker (listeners (hub_in h)).[ci])) by (destruct (hub_worker _); cbn; lia). destruct (hub_reading _); cbn [b2z]; lia. }
  assert (0 <= sum_below workers (fun wi => decode_weight (decode_workers (hub_out h)).[wi])).
  { apply sum_below_nonneg. intros wi Hwi. pose proof (oo_worker _ HO wi Hwi) as Hw'. destruct ((decode_workers (hub_out h)).[wi]); cbn in *; lia. }
  assert (0 <= sum_below f (fun t => stream_weight (write_streams (hub_out h)).[t])).
  { apply sum_below_nonneg. intros t Ht. destruct (oo_stream _ HO t Ht) as [S1 _ _ _ _]. unfold stream_weight. destruct (hw_open _), (hw_recovery_result _); cbn [b2z]; lia. }
  destruct (hub_returned h), (hub_failed h), (decode_done (hub_out h)); cbn [b2z negb]; nia.
Qed.

Lemma listener_set_weight ci l i : 0 <= ci < C -> zlen (listeners i) = C ->
  sum_below C (fun c => listener_weight (listeners i).[ci <- l].[c]) = sum_below C (fun c => listener_weight (listeners i).[c]) + (listener_weight l - listener_weight (listeners i).[ci]).
Proof.
  intros Hci Hl. rewrite (sum_below_change C (fun c => listener_weight (listeners i).[c]) _ ci Hci).
  - cbv beta. rewrite zget_zset_eq by lia. reflexivity.
  - intros j Hj. cbv beta. rewrite zget_zset_ne by congruence. reflexivity.
Qed.

Lemma worker_set_weight wi wk o : 0 <= wi < workers -> zlen (decode_workers o) = workers ->
  sum_below workers (fun j => decode_weight (decode_workers o).[wi <- wk].[j]) =
  sum_below workers (fun j => decode_weight (decode_workers o).[j]) + (decode_weight wk - decode_weight (decode_workers o).[wi]).
Proof.
  intros Hi Hl. rewrite (sum_below_change workers (fun j => decode_weight (decode_workers o).[j]) _ wi Hi).
  - cbv beta. rewrite zget_zset_eq by lia. reflexivity.
  - intros j Hj. cbv beta. rewrite zget_zset_ne by congruence. reflexivity.
Qed.

Lemma stream_set_weight t ws o : 0 <= t < f -> zlen (write_streams o) = f ->
  sum_below f (fun j => stream_weight (write_streams o).[t <- ws].[j]) =
  sum_below f (fun j => stream_weight (write_streams o).[j]) + (stream_weight ws - stream_weight (write_streams o).[t]).
Proof.
  intros Hi Hl. rewrite (sum_below_change f (fun j => stream_weight (write_streams o).[j]) _ t Hi).
  - cbv beta. rewrite zget_zset_eq by lia. reflexivity.
  - intros j Hj. cbv beta. rewrite zget_zset_ne by congruence. reflexivity.
Qed.

Lemma schedule_weight s o : 0 <= s < n -> zlen (shard_scheduled o) = n -> (shard_scheduled o).[s] = false ->
  sum_below n (fun x => b2z (shard_scheduled o).[s <- true].[x]) = scheduled_count o + 1.
Proof.
  intros Hs Hl E. unfold scheduled_count. rewrite (sum_below_change n (fun x => b2z (shard_scheduled o).[x]) _ s Hs).
  - cbv beta. rewrite zget_zset_eq, E by lia. cbn. lia.
  - intros j Hj. cbv beta. rewrite zget_zset_ne by congruence. reflexivity.
Qed.

Lemma returned_weight s : (forall r, s <> RoleReturned r) -> 3 <= stage_weight s.
Proof. intros H. destruct s; cbn; try lia. destruct (H result eq_refl). Qed.

(** What a step of a listener changes and costs: a frame weighs two. *)
Lemma listener_step_shape ci h frame l h' : listener_step bs T W q ci h frame l h' ->
  exists l', (hub_in h' = set_listener ci l' (hub_in h) \/ exists s v, hub_in h' = set_rhs ci s v (set_listener ci l' (hub_in h))) /\
    hub_out h' = hub_out h /\ hub_returned h' = hub_returned h /\ (hub_failed h' = hub_failed h \/ hub_failed h' = true) /\
    listener_weight l' < listener_weight l + (if frame is Some _ then 2 else 0).
Proof.
  intros Hs. unfold listener_weight. inversion Hs; subst; repeat match goal with x := _ |- _ => subst x end; try destruct (_ =? _); try destruct (_ || _);
    (eexists; split; [first [left; reflexivity|right; eexists _, _; reflexivity]|]; split; [reflexivity|]; split; [reflexivity|]; split; [auto|]);
    repeat match goal with E : push _ _ = Some _ |- _ => apply push_len in E | E : pop _ = Popped _ _ |- _ => apply pop_len in E end;
    cbn [listener_stage hub_inbound_q hub_reading hub_worker shards_received hub_end_count hub_reader_failed stage_weight worker_weight b2z close q_]; try lia.
  pose proof (returned_weight (listener_stage l) ltac:(assumption)). lia.
Qed.

Lemma failed_weight b b' : b' = b \/ b' = true -> b2z (negb b') <= b2z (negb b).
Proof. intros [->| ->]; [lia|]. destruct b; cbn; lia. Qed.

Lemma listener_step_weight ci h frame h' : 0 <= ci < C -> zlen (listeners (hub_in h)) = C ->
  listener_step bs T W q ci h frame (listeners (hub_in h)).[ci] h' -> hub_weight h' < hub_weight h + (if frame is Some _ then 2 else 0).
Proof.
  intros Hci Hl Hs. destruct (listener_step_shape _ _ _ _ _ Hs) as (l' & A1 & A2 & A3 & A4 & A5). apply failed_weight in A4.
  unfold hub_weight. rewrite A2, A3. assert (E : in_weight (hub_in h') = in_weight (hub_in h) + (listener_weight l' - listener_weight (listeners (hub_in h)).[ci])); [|lia].
  unfold in_weight. rewrite <- Z.add_assoc, <- listener_set_weight by assumption. destruct A1 as [->|(s & v & ->)]; reflexivity.
Qed.

Lemma shared_weight_nonneg R Tk i : in_ok R Tk i -> 0 <= shared_weight (shared_hub_reader i).
Proof.
  intros HI. destruct (shared_hub_reader i) as [|k stream|] eqn:E; cbn; try lia. destruct (io_reading _ _ _ HI k stream E). lia.
Qed.

(** Only what comes in changes. *)
Lemma hub_in_weight i h : hub_returned h = None -> in_weight i < in_weight (hub_in h) -> hub_weight (with_in i h) < hub_weight h.
Proof. intros Hn' H. unfold hub_weight, with_in. cbn [hub_returned hub_failed hub_in hub_out]. lia. Qed.

(** Only what goes out changes. *)
Lemma hub_out_weight o h : out_weight o < out_weight (hub_out h) -> hub_weight (with_out o h) < hub_weight h.
Proof. intros H. unfold hub_weight, with_out. cbn [hub_returned hub_failed hub_in hub_out]. lia. Qed.

Lemma hub_fail_weight h : hub_weight (fail_hub h) <= hub_weight h.
Proof.
  unfold hub_weight, fail_hub. cbn [hub_returned hub_failed hub_in hub_out]. pose proof (failed_weight (hub_failed h) true (or_intror eq_refl)). lia.
Qed.

Lemma stream_less t ws o : 0 <= t < f -> out_ok o -> stream_weight ws < stream_weight (write_streams o).[t] -> out_weight (set_stream t ws o) < out_weight o.
Proof.
  intros Ht HO H. unfold out_weight. cbn [set_stream decode_workers decode_done write_streams]. rewrite stream_set_weight by (assumption || apply HO).
  change (scheduled_count (set_stream t ws o)) with (scheduled_count o). lia.
Qed.

Lemma worker_less wi wk o : 0 <= wi < workers -> out_ok o -> decode_weight wk < decode_weight (decode_workers o).[wi] -> out_weight (set_worker wi wk o) < out_weight o.
Proof.
  intros Hi HO H. unfold out_weight. cbn [set_worker decode_workers decode_done write_streams]. rewrite worker_set_weight by (assumption || apply HO).
  change (scheduled_count (set_worker wi wk o)) with (scheduled_count o). lia.
Qed.

Lemma schedule_less wi wk s o : 0 <= wi < workers -> out_ok o -> 0 <= s < n -> (shard_scheduled o).[s] = false ->
  decode_weight wk < decode_weight (decode_workers o).[wi] + f + 3 ->
  out_weight (MkHubOut (shard_scheduled o).[s <- true] (decode_workers o).[wi <- wk] (shards_finished o) (decode_done o) (write_streams o)) < out_weight o.
Proof.
  intros Hi HO Hs Hsch H. unfold out_weight. cbn [decode_workers decode_done write_streams]. rewrite worker_set_weight by (assumption || apply HO).
  unfold scheduled_count at 1. cbn [shard_scheduled]. rewrite schedule_weight by (assumption || apply HO). lia.
Qed.

Lemma closed_stream_less t failed sent o : 0 <= t < f -> out_ok o -> hw_open (write_streams o).[t] = true ->
  out_weight (set_stream t (close_stream failed sent (write_streams o).[t]) o) < out_weight o.
Proof.
  intros Ht HO Ho. apply stream_less; [exact Ht|exact HO|]. unfold stream_weight, close_stream. cbn [hw_next_shard hw_open hw_recovery_result]. rewrite Ho. cbn [b2z]. lia.
Qed.

Lemma hub_step_weight R Tk st fault h h' : hub_ok R Tk h -> hub_step bs T W q inverse st fault h h' -> hub_weight h' < hub_weight h.
Proof.
  intros [HI HO _] Hs. pose proof HI as [I1 I2 I3 I4 I5 I6 I7 I8 I9]. pose proof HO as [O1 O2 O3 O4 O5]. pose proof hub_f_nonneg as Hf0.
  pose proof (shared_weight_nonneg _ _ _ HI) as Hsw.
  destruct Hs; repeat match goal with x := _ |- _ => subst x end.
  - apply hub_in_weight; [assumption|]. unfold in_weight. cbn [shared_hub_reader listeners]. match goal with E : shared_hub_reader _ = _ |- _ => rewrite E end. cbn. lia.
  - apply (hub_in_weight (MkHubIn (SharedReading (shard + 1) rest) (shared_hub_shards (hub_in h)).[shard <- Some local] (listeners (hub_in h)) (rhs_bufs (hub_in h))) h);
      [assumption|]. unfold in_weight. cbn [shared_hub_reader listeners]. match goal with E : shared_hub_reader _ = _ |- _ => rewrite E end. cbn. lia.
  - eapply Z.le_lt_trans; [apply hub_fail_weight|]. apply hub_in_weight; [assumption|]. unfold in_weight. cbn [shared_hub_reader listeners].
    match goal with E : shared_hub_reader _ = _ |- _ => rewrite E in * end. cbn in *. lia.
  - apply hub_in_weight; [assumption|]. unfold in_weight. cbn [shared_hub_reader listeners]. match goal with E : shared_hub_reader _ = _ |- _ => rewrite E in * end.
    destruct (I4 _ _ eq_refl). cbn. lia.
  - match goal with E : listener_step _ _ _ _ _ _ _ _ _ |- _ => apply listener_step_weight in E; [lia|assumption|exact I8] end.
  - eapply Z.le_lt_trans; [apply hub_fail_weight|]. apply hub_in_weight; [assumption|]. unfold in_weight. cbn [shared_hub_reader listeners].
    rewrite listener_set_weight by assumption. unfold listener_weight at 2.
    cbn [listener_stage hub_inbound_q hub_reading hub_worker shards_received stage_weight]. pose proof (returned_weight _ ltac:(eassumption)).
    unfold listener_weight. lia.
  - unfold hub_weight. cbn [fail_hub with_shared with_in hub_returned hub_failed hub_in hub_out]. match goal with E : hub_failed _ = false |- _ => rewrite E end.
    unfold in_weight. cbn [shared_hub_reader listeners shared_weight b2z negb]. lia.
  - destruct (ready_shard _ _ ltac:(eassumption)) as (Hs & Hsch & _).
    apply (hub_out_weight (MkHubOut (shard_scheduled (hub_out h)).[shard <- true] (decode_workers (hub_out h)).[wi <- Decoded shard recovered 0] (shards_finished (hub_out h)) (decode_done (hub_out h)) (write_streams (hub_out h))) h).
    apply schedule_less; auto. match goal with E : (decode_workers _).[_] = _ |- _ => rewrite E end. cbn. lia.
  - destruct (ready_shard _ _ ltac:(eassumption)) as (Hs & Hsch & _). eapply Z.le_lt_trans; [apply hub_fail_weight|].
    apply (hub_out_weight (MkHubOut (shard_scheduled (hub_out h)).[shard <- true] (decode_workers (hub_out h)).[wi <- Exited] (shards_finished (hub_out h)) (decode_done (hub_out h)) (write_streams (hub_out h))) h).
    apply schedule_less; auto. match goal with E : (decode_workers _).[_] = _ |- _ => rewrite E end. cbn. lia.
  - pose proof (O4 wi ltac:(assumption)) as Hwk. match goal with E : (decode_workers _).[_] = _ |- _ => rename E into Ew end. rewrite Ew in Hwk. destruct Hwk as (Hs & Hr & Ht).
    apply (hub_out_weight (set_stream t (emplace shard recovered.[t] (write_streams (hub_out h)).[t]) (set_worker wi (Decoded shard recovered (t + 1)) (hub_out h))) h).
    eapply Z.le_lt_trans; [|apply (worker_less wi (Decoded shard recovered (t + 1))); [assumption|exact HO|rewrite Ew; cbn; lia]].
    unfold out_weight. cbn [set_stream set_worker decode_workers decode_done write_streams]. rewrite stream_set_weight by (lia || exact O3).
    change (stream_weight (emplace _ _ _)) with (stream_weight (write_streams (hub_out h)).[t]). rewrite Z.sub_diag, Z.add_0_r. reflexivity.
  - pose proof (O4 wi ltac:(assumption)) as Hwk. match goal with E : (decode_workers _).[_] = _ |- _ => rename E into Ew end. rewrite Ew in Hwk. destruct Hwk as (Hs & Hr & Ht).
    change (hub_weight (with_out (set_worker wi Idle (hub_out h)) h) < hub_weight h). apply hub_out_weight, worker_less; [assumption|exact HO|rewrite Ew; cbn; lia].
  - match goal with E : (decode_workers _).[_] = _ |- _ => rename E into Ew end. apply hub_out_weight, worker_less; [assumption|exact HO|rewrite Ew; cbn; lia].
  - apply hub_out_weight. unfold out_weight. cbn [decode_workers decode_done write_streams]. match goal with E : decode_done _ = false |- _ => rewrite E end.
    change (scheduled_count (MkHubOut _ _ _ _ _)) with (scheduled_count (hub_out h)). cbn [b2z negb]. lia.
  - apply hub_out_weight, stream_less; [assumption|exact HO|]. unfold stream_weight. cbn [hw_next_shard hw_open hw_recovery_result].
    match goal with E : hw_open _ = true |- _ => rewrite E end. cbn [b2z]. lia.
  - eapply Z.le_lt_trans; [apply hub_fail_weight|]. apply hub_out_weight, closed_stream_less; assumption.
  - destruct (_ =? _); [apply hub_out_weight, closed_stream_less; assumption|]. eapply Z.le_lt_trans; [apply hub_fail_weight|]. apply hub_out_weight, closed_stream_less; assumption.
  - apply hub_out_weight, closed_stream_less; assumption.
  - unfold hub_weight. cbn [hub_returned hub_failed hub_in hub_out]. match goal with E : hub_returned _ = None |- _ => rewrite E end. lia.
Qed.

(** ** Progress *)

Notation step := (hub_step bs T W q inverse).

Lemma tail_reads ci : 0 <= ci < C -> needs_tail_local q ci = true -> any_hub_local_read q = true.
Proof. intros Hci H. unfold any_hub_local_read. apply existsb_exists. exists ci. split; [apply in_zseq, Hci|]. rewrite H. apply orb_true_r. Qed.

Lemma shared_progress R Tk st h : hub_state true R Tk h -> hub_returned h = None -> (any_hub_local_read q = true -> exists node, rq_hub_datanode q = Some node) ->
  (exists h', step st false h h') \/ shared_hub_reader (hub_in h) = SharedDone.
Proof.
  intros [[HI HO _] HR] Hret Hnode. destruct (HR eq_refl) as [_ _ G3 _]. destruct (shared_hub_reader (hub_in h)) as [|k stream|] eqn:E; [left|left|auto].
  - destruct (Hnode ltac:(apply (io_reader _ _ _ HI); congruence)) as [node Hn']. eexists. eapply hub_opens_shared; eassumption.
  - destruct (io_reading _ _ _ HI k stream E) as [Hk ->]. destruct (Z.lt_ge_cases k n) as [Hlt|Hge].
    + eexists. eapply hub_reads_shared; try eassumption. apply read_shared; [apply (io_reader _ _ _ HI); congruence|lia].
    + eexists. eapply hub_shared_ends; try eassumption. auto.
Qed.

Lemma finalize_progress R Tk h ci s : hub_state true R Tk h -> shared_hub_reader (hub_in h) = SharedDone -> 0 <= ci < C -> 0 <= s < n ->
  exists value, finalize_hub_shard bs T q ci s (cv ci s) h = Some value.
Proof.
  intros [[HI HO _] HR] Hd Hci Hs. destruct (HR eq_refl) as [[J1 J2 J3] _ _ _]. unfold finalize_hub_shard. destruct (needs_tail_local q ci) eqn:E; [|eauto].
  destruct (J1 (tail_reads ci Hci E) s) as [v ->]; [rewrite Hd; exact Hs|]. cbn. eauto.
Qed.

(** Listener [ci] would take the next frame. *)
Definition listener_waits (R : Z -> Z) (Tk : Z -> bool) (h : Hub) (ci : Z) : Prop :=
  Tk ci = false /\ forall frame r' t', next_in ci (R ci) r' (Tk ci) t' (Some frame) -> exists h', listener_step bs T W q ci h (Some frame) (listeners (hub_in h)).[ci] h'.

Lemma listener_progress R Tk st h ci : hub_state true R Tk h -> hub_returned h = None -> shared_hub_reader (hub_in h) = SharedDone -> 0 <= ci < C ->
  let l := (listeners (hub_in h)).[ci] in
  (exists h', step st false h h') \/ listener_stage l = RoleAccepting \/ listener_waits R Tk h ci \/ exists r, listener_stage l = RoleReturned r.
Proof.
  intros HS Hret Hd Hci l. pose proof HS as [[HI HO _] HR]. destruct (HR eq_refl) as [[J1 J2 J3] _ G3 _].
  pose proof (io_listener _ _ _ HI ci Hci) as HL. destruct (J2 ci Hci) as [R1 R0 R2 R3 R4 R5]. unfold listener_waits. fold l in HL, R1, R0, R2, R3, R4, R5 |- *.
  assert (Hgo : forall h', listener_step bs T W q ci h None l h' -> exists h', step st false h h') by (intros h' Hs; exists h'; eapply hub_listens; eassumption).
  destruct l as [stage queue reading worker received count rfailed]. destruct HL as [L1 L2 L3 L4 L5]. listener_cbn. subst rfailed.
  destruct stage as [| | | |r]; try (destruct R0; congruence); [auto| |eauto].
  assert (Hfin : forall x, 0 <= x < n -> exists value, finalize_hub_shard bs T q ci x (cv ci x) h = Some value) by (intros; eapply finalize_progress; eassumption).
  destruct (queued_listener bs T W q ci) eqn:Eq.
  - destruct worker eqn:Ew; [| |].
    + pose proof (L5 eq_refl eq_refl eq_refl) as Hq. destruct (pop queue) as [| |item queue'] eqn:Ep.
      * right; right; left. destruct reading; [|exfalso; destruct (R4 eq_refl eq_refl) as (_ & _ & Hl); destruct (Hl eq_refl) as [Hc _];
          unfold pop in Ep; destruct (q_ queue); [rewrite Hc in Ep|]; discriminate].
        split; [apply L4; auto|]. assert (Hcap : forall it, exists q', push it queue = Some q').
        { intros it. destruct (push_or_pop (cv ci) received (R ci) it queue Hq) as [?|(q' & _ & Hp')]; [assumption|]. rewrite Ep in Hp'. discriminate. }
        intros [hdr payload|e] r' t' Ht.
        -- destruct (Hcap (queued_shard (int_of_u32 (hdr_shard_id hdr)) payload)) as [q' Hq']. eexists. eapply listener_reads; eassumption.
        -- destruct (Hcap (queued_end (int_of_u32 (end_shard_count e)))) as [q' Hq']. eexists. eapply listener_reads_end; eassumption.
      * left. eapply Hgo. eapply listener_pops_closed; eassumption.
      * left. destruct (qs_end_of_stream item) eqn:Ei; [eapply Hgo; eapply listener_pops_end; eassumption|].
        destruct (pop_shard_ok _ _ _ _ _ _ Hq Ep Ei) as (-> & Hlt & _). destruct (Hfin received ltac:(lia)) as [value Hv].
        eapply Hgo. eapply listener_finalizes; try eassumption. cbn [queued_shard qs_shard_id qs_payload]. apply shard_fits_ok; [exact Hci|lia].
    + destruct (R5 eq_refl ltac:(discriminate)); discriminate.
    + left. destruct (R5 eq_refl ltac:(discriminate)) as (_ & -> & _). eapply Hgo. eapply listener_returns. exact Eq.
  - right; right; left. destruct (L3 eq_refl eq_refl) as [-> Htk]. split; [exact Htk|]. intros [hdr payload|e] r' t' Ht.
    + destruct (next_shard _ _ _ _ _ _ _ Ht Hci ltac:(lia)) as (Hr & -> & -> & -> & Ei). destruct (Hfin (R ci) ltac:(lia)) as [value Hv].
      eexists. eapply listener_takes; [apply Hlocal, Hci|exact Eq|rewrite Ei; apply shard_fits_ok; [exact Hci|lia]|rewrite Ei; exact Hv].
    + eexists. eapply listener_ends; [apply Hlocal, Hci|exact Eq].
Qed.

(** All right-hand sides are there: somebody decodes, hands over or streams. *)
Lemma decoding_progress R Tk st h : hub_state true R Tk h -> hub_returned h = None -> (forall s, 0 <= s < n -> shard_ready h s = true) ->
  (exists h', step st false h h') \/ decode_done (hub_out h) = true.
Proof.
  intros HS Hret Hready. pose proof HS as [[HI HO _] HR]. destruct (HR eq_refl) as [_ [P1 P2 P3 P4 P5] G3 _]. destruct HO as [O1 O2 O3 O4 O5].
  destruct (decode_done (hub_out h)) eqn:Ed; [auto|left]. destruct (classic (exists wi s rc t, 0 <= wi < workers /\ (decode_workers (hub_out h)).[wi] = Decoded s rc t)) as [(wi & s & rc & t & Hi & Ew)|Hno].
  { destruct (Z.lt_ge_cases t f); eexists; [eapply hub_hands_over|eapply hub_finishes]; eassumption. }
  assert (Hfl : in_flight_count (hub_out h) = 0).
  { unfold in_flight_count. transitivity (sum_below workers (fun _ => 0)); [|rewrite sum_below_const; pose proof workers_some; lia].
    apply sum_below_ext. intros wi Hi. destruct ((decode_workers (hub_out h)).[wi]) eqn:Ew; try reflexivity. exfalso. apply Hno. eauto 10. }
  destruct (classic (exists wi, 0 <= wi < workers /\ (decode_workers (hub_out h)).[wi] = Idle)) as [(wi & Hi & Ew)|Hidle].
  - destruct (Z.lt_ge_cases (shards_finished (hub_out h)) n) as [Hlt|Hge]; [|eexists; eapply hub_worker_exits; eauto].
    destruct (find_ready_shard bs T q h) as [s|] eqn:Ef.
    + destruct (ready_shard _ _ Ef) as (Hs & _ & Hr). eexists. eapply hub_decodes; try eassumption. rewrite (rhs_ready R Tk) by assumption. apply Hdecode, Hs.
    + exfalso. assert (scheduled_count (hub_out h) = n); [|lia]. unfold scheduled_count. transitivity (sum_below n (fun _ => 1)); [|rewrite sum_below_const; lia].
      apply sum_below_ext. intros s Hs. unfold find_ready_shard in Ef. pose proof (find_none _ _ Ef s ltac:(apply in_zseq, Hs)) as E. cbv beta in E.
      rewrite (Hready s Hs), andb_true_r in E. apply negb_false_iff in E. rewrite E. reflexivity.
  - eexists. eapply hub_joins_workers; [exact Hret|exact Ed|]. apply forallb_forall. intros wk Hwk. apply In_zget in Hwk as (wi & Hi & <-). rewrite O2 in Hi.
    destruct ((decode_workers (hub_out h)).[wi]) eqn:Ew; [exfalso; eauto|exfalso; eauto 10|reflexivity].
Qed.

(** What the hub waits for when it cannot move. *)
Lemma hub_progress R Tk st h : hub_state true R Tk h -> hub_returned h = None -> (any_hub_local_read q = true -> exists node, rq_hub_datanode q = Some node) ->
  (exists h', step st false h h') \/
  (exists ci, 0 <= ci < C /\ (listener_stage (listeners (hub_in h)).[ci] = RoleAccepting \/ listener_waits R Tk h ci)) \/
  (exists t, 0 <= t < f /\ hw_open (write_streams (hub_out h)).[t] = false /\ hw_recovery_result (write_streams (hub_out h)).[t] = None).
Proof.
  intros HS Hret Hnode. pose proof HS as [[HI HO _] HR]. destruct (HR eq_refl) as [[J1 J2 J3] [P1 P2 P3 P4 P5] G3 _].
  destruct (shared_progress R Tk st h HS Hret Hnode) as [|Hd]; [auto|].
  destruct (classic (forall ci, 0 <= ci < C -> exists r, listener_stage (listeners (hub_in h)).[ci] = RoleReturned r)) as [Hall|Hnot].
  2: { apply not_all_ex_not in Hnot as [ci Hnot]. apply imply_to_and in Hnot as [Hci Hnot].
       destruct (listener_progress R Tk st h ci HS Hret Hd Hci) as [?|[?|[?|?]]]; [auto|right; left; eauto..|contradiction]. }
  assert (Hready : forall s, 0 <= s < n -> shard_ready h s = true).
  { intros s Hs. unfold shard_ready. apply forallb_forall. intros row Hrow. apply In_zget in Hrow as (ci & Hci & <-). rewrite (io_rhs_len _ _ _ HI) in Hci.
    apply bool_decide_eq_true. apply J3; [exact Hci|]. destruct (Hall ci Hci) as [r Hr]. destruct (lr_returned _ _ _ _ (J2 ci Hci) r Hr) as (_ & -> & _). exact Hs. }
  destruct (decoding_progress R Tk st h HS Hret Hready) as [|Hdone]; [auto|].
  destruct (classic (exists t, 0 <= t < f /\ hw_open (write_streams (hub_out h)).[t] = true)) as [(t & Ht & Ho)|Hclosed].
  { left. destruct (P5 t Ht) as (S1 & S2 & S3). destruct (hw_pending (write_streams (hub_out h)).[t] !! hw_next_shard (write_streams (hub_out h)).[t]) as [p|] eqn:Ep;
      eexists; [eapply hub_writes|eapply hub_write_ends]; eassumption. }
  destruct (classic (exists t, 0 <= t < f /\ hw_recovery_result (write_streams (hub_out h)).[t] = None)) as [(t & Ht & Hn')|Hres].
  { right; right. exists t. split; [exact Ht|]. split; [|exact Hn']. destruct (hw_open _) eqn:Ho; [exfalso; eauto|reflexivity]. }
  left. eexists. eapply hub_returns; [exact Hret|exact Hdone| | |exact Hd].
  - apply forallb_forall. intros ws Hws. apply In_zget in Hws as (t & Ht & <-). rewrite (oo_streams_len _ HO) in Ht.
    destruct (hw_open _) eqn:Ho; [exfalso; eauto|]. cbn [negb andb]. apply orb_true_iff. right. apply bool_decide_eq_true.
    destruct (hw_recovery_result _) eqn:E; [eauto|exfalso; eauto].
  - apply forallb_forall. intros l Hl. apply In_zget in Hl as (ci & Hci & <-). rewrite (io_listeners_len _ _ _ HI) in Hci.
    destruct (Hall ci Hci) as [r Hr]. unfold listener_returned. rewrite Hr. reflexivity.
Qed.

(** ** From outside: the start, a connection, a frame, an answer of a data node *)

Lemma start_hub_state reg called admitted : (reg = true -> called = true /\ is_Some admitted) ->
  hub_state reg (fun _ => 0) (fun _ => false) (start_hub bs T W called admitted q).
Proof.
  intros Hreg. assert (Hlis : forall ci, 0 <= ci < C -> (listeners (hub_in (start_hub bs T W called admitted q))).[ci] =
            MkListener RoleAccepting (new_queue window) true Working 0 (-1) false).
  { intros ci Hci. cbn [start_hub hub_in listeners]. rewrite zget_map by exact Hci. rewrite Hlocal by exact Hci. reflexivity. }
  assert (Hsr : shared_hub_reader (hub_in (start_hub bs T W called admitted q)) = if any_hub_local_read q then SharedOpening else SharedDone) by reflexivity.
  pose proof hub_f_nonneg. pose proof workers_some. assert (0 <= C) by (unfold hub_chain_n; lia).
  split; [split; [split|split|]|intros E; split; [split|split| |]].
  - cbn [start_hub hub_in shared_hub_shards]. apply zlen_zrepeat. lia.
  - intros s v Hs. cbn [start_hub hub_in shared_hub_shards]. rewrite zget_zrepeat by exact Hs. discriminate.
  - rewrite Hsr. destruct (any_hub_local_read q); congruence.
  - intros k stream. rewrite Hsr. destruct (any_hub_local_read q); discriminate.
  - cbn [start_hub hub_in rhs_bufs]. apply zlen_zrepeat. lia.
  - intros ci Hci. cbn [start_hub hub_in rhs_bufs]. rewrite zget_zrepeat by exact Hci. apply zlen_zrepeat. lia.
  - intros ci s v Hci Hs. cbn [start_hub hub_in rhs_bufs]. rewrite !zget_zrepeat by assumption. discriminate.
  - cbn [start_hub hub_in listeners]. rewrite length_map. reflexivity.
  - intros ci Hci. rewrite Hlis by exact Hci. split; listener_cases. do 4 (split; [reflexivity|]). apply new_queue_ok.
  - cbn [start_hub hub_out shard_scheduled]. apply zlen_zrepeat. lia.
  - cbn [start_hub hub_out decode_workers]. apply zlen_zrepeat. lia.
  - cbn [start_hub hub_out write_streams]. apply zlen_zrepeat. lia.
  - intros wi Hwi. cbn [start_hub hub_out decode_workers]. rewrite zget_zrepeat by exact Hwi. exact I.
  - intros t Ht. cbn [start_hub hub_out write_streams]. rewrite zget_zrepeat by exact Ht.
    split; cbn [hw_pending hw_next_shard hw_open hw_failed hw_streamed]; [lia|intros s p; rewrite lookup_empty; discriminate|exists 0; reflexivity|reflexivity|reflexivity].
  - cbn [start_hub hub_returned]. destruct (_ && _); discriminate.
  - rewrite Hsr. intros ->. cbn. lia.
  - intros ci Hci. rewrite Hlis by exact Hci. split; listener_cases.
  - intros ci s Hci. rewrite Hlis by exact Hci. cbn. lia.
  - cbn [start_hub hub_out shards_finished]. unfold scheduled_count, in_flight_count. cbn [start_hub hub_out shard_scheduled decode_workers].
    rewrite (sum_below_ext n _ (fun _ => 0)), (sum_below_ext workers _ (fun _ => 0)), !sum_below_const by
      (try lia; intros i Hi; rewrite zget_zrepeat by exact Hi; reflexivity). lia.
  - intros wi Hwi. cbn [start_hub hub_out decode_workers]. rewrite zget_zrepeat by exact Hwi. discriminate.
  - discriminate.
  - intros s t Hs Ht. cbn [start_hub hub_out shard_scheduled]. rewrite zget_zrepeat by exact Hs. discriminate.
  - intros t Ht. cbn [start_hub hub_out write_streams]. rewrite zget_zrepeat by exact Ht. cbn. split; [reflexivity|]. split; discriminate.
  - reflexivity.
  - intros r. destruct (Hreg E) as [-> Ha]. cbn [start_hub hub_returned]. rewrite bool_decide_true by exact Ha. discriminate.
Qed.

Definition accepted (l : Listener) : Listener :=
  MkListener RoleStreaming (hub_inbound_q l) (hub_reading l) (hub_worker l) (shards_received l) (hub_end_count l) (hub_reader_failed l).

Lemma accept_state reg R Tk h ci : hub_state reg R Tk h -> 0 <= ci < C -> listener_stage (listeners (hub_in h)).[ci] = RoleAccepting ->
  hub_state reg R Tk (with_listener ci (accepted (listeners (hub_in h)).[ci]) h) /\
  hub_weight (with_listener ci (accepted (listeners (hub_in h)).[ci]) h) < hub_weight h.
Proof.
  intros HS Hci Ha. pose proof HS as [[HI HO _] HR]. assert (HIs : in_state reg R Tk (hub_in h)) by (split; [exact HI|intros E; apply (HR E)]).
  pose proof (io_listener _ _ _ HI ci Hci) as HL. pose proof (io_listeners_len _ _ _ HI) as Hl.
  assert (HLr : reg = true -> listener_regular ci (R ci) (Tk ci) (listeners (hub_in h)).[ci]) by (intros E; apply (ir_listener _ _ _ (proj2 HIs E) ci Hci)).
  split.
  - apply (hub_in_state reg R Tk R Tk (set_listener ci (accepted (listeners (hub_in h)).[ci]) (hub_in h)) h HS).
    apply (in_ext reg (set_at ci (R ci) R) (set_at ci (Tk ci) Tk)); [intros; rewrite !set_at_same; auto|].
    apply in_listener; [exact Hci|exact HIs| | |reflexivity].
    + destruct HL as [L1 L2 L3 L4 L5]. destruct (L2 ltac:(right; left; exact Ha)) as (E1 & E2 & E3 & E4 & E5). rewrite E1, E2 in *.
      assert (Es : shards_received (listeners (hub_in h)).[ci] = 0) by lia.
      split; cbn [accepted listener_stage hub_inbound_q hub_reading hub_worker shards_received]; rewrite ?Es; role_cases.
    + intros E. destruct (HLr E) as [R1 R0 R2 R3 R4 R5]. split; cbn [accepted listener_stage hub_inbound_q hub_reading hub_worker shards_received hub_end_count hub_reader_failed];
        auto; try discriminate.
  - unfold hub_weight. cbn [with_listener with_in hub_returned hub_failed hub_in hub_out]. unfold in_weight. cbn [shared_hub_reader listeners].
    rewrite listener_set_weight by assumption. unfold listener_weight at 2 3.
    cbn [accepted listener_stage hub_inbound_q hub_reading hub_worker shards_received stage_weight]. rewrite Ha. cbn [stage_weight]. lia.
Qed.

(** A listener takes a frame. *)
Lemma take_state reg R Tk ci r' t' h frame h' : hub_state reg R Tk h -> 0 <= ci < C -> hub_returned h = None -> next_in ci (R ci) r' (Tk ci) t' (Some frame) ->
  (reg = true -> forall e, frame = END e -> R ci = n) -> listener_step bs T W q ci h (Some frame) (listeners (hub_in h)).[ci] h' ->
  hub_state reg (set_at ci r' R) (set_at ci t' Tk) h' /\ hub_weight h' < hub_weight h + 2.
Proof.
  intros HS Hci Hret Ht Hend Hs. pose proof HS as [[HI HO HRet] HR]. assert (HIs : in_state reg R Tk (hub_in h)) by (split; [exact HI|intros E; apply (HR E)]).
  split; [|apply (listener_step_weight ci h (Some frame)); [exact Hci|apply HI|exact Hs]].
  destruct (listener_moves reg R Tk ci r' t' h (Some frame) h' Hci HIs Ht) as (A1 & A2 & A3 & A4 & A5); [|exact Hs|].
  { intros E. split; [apply (HR E)|]. intros e [= ->]. apply (Hend E e eq_refl). }
  split; [split; [apply A1|rewrite A2; exact HO|congruence]|]. intros E. split; [apply A1, E|rewrite A2; apply (HR E)|auto|congruence].
Qed.

(** The data node of target [t] answers. *)
Lemma answer_state reg R Tk t done h : hub_state reg R Tk h -> 0 <= t < f -> let ws := (write_streams (hub_out h)).[t] in
  hw_recovery_result ws = None -> (reg = true -> done = true) ->
  hub_state reg R Tk (with_stream t (answer_stream done ws) h) /\ hub_weight (with_stream t (answer_stream done ws) h) < hub_weight h.
Proof.
  intros HS Ht ws Hn' Hd. pose proof HS as [[HI HO HRet] HR]. assert (HOs : out_state reg (hub_out h)) by (split; [exact HO|intros E; apply (HR E)]).
  assert (Hs : stream_ok t (answer_stream done ws)) by (destruct (oo_stream _ HO t Ht) as [S1 S2 S3 S4 S5]; split; auto).
  assert (HO' : out_state reg (set_stream t (answer_stream done ws) (hub_out h))).
  { apply (out_stream reg t _ (hub_out h) HOs Ht Hs); [|auto]. intros E. destruct (or_stream _ (proj2 HOs E) t Ht) as (S1 & S2 & S3). fold ws in S1, S2, S3.
    cbn [answer_stream hw_failed hw_open hw_next_shard hw_recovery_result]. rewrite Hd by exact E. split; [exact S1|]. split; [exact S2|discriminate]. }
  assert (Hnr : hub_returned h <> Some true).
  { intros E. specialize (HRet E t Ht). unfold stream_complete in HRet. fold ws in HRet. rewrite Hn', bool_decide_false, andb_false_r in HRet by discriminate. discriminate. }
  split.
  - split; [split; [exact HI|apply HO'|cbn [with_stream with_out hub_returned]; congruence]|]. intros E. split; [apply (HR E)|apply HO', E|apply (HR E)|apply (HR E)].
  - apply (hub_out_weight (set_stream t (answer_stream done ws) (hub_out h)) h), stream_less; [exact Ht|exact HO|].
    unfold stream_weight. cbn [answer_stream hw_next_shard hw_open hw_recovery_result]. fold ws. rewrite Hn'. lia.
Qed.

(** What the data node of target [t] was sent: a prefix of its block, all of it once
    the stream ends without failure. *)
Lemma stream_sent reg R Tk t h : hub_state reg R Tk h -> 0 <= t < f -> exists k, hw_streamed (write_streams (hub_out h)).[t] = ztake k (tgt t).
Proof. intros [[_ HO _] _] Ht. apply (so_prefix _ _ (oo_stream _ HO t Ht)). Qed.

Lemma stream_sent_all R Tk t h : hub_state true R Tk h -> 0 <= t < f -> hw_open (write_streams (hub_out h)).[t] = false ->
  hw_streamed (write_streams (hub_out h)).[t] = tgt t.
Proof.
  intros [[_ HO _] HR] Ht Ho. destruct (oo_stream _ HO t Ht) as [_ _ _ S4 _]. destruct (or_stream _ (hg_out _ _ _ (HR eq_refl)) t Ht) as (S1 & S2 & _).
  rewrite S4, S2 by assumption. destruct (Htgt t Ht) as [Hl _]. apply ztake_all. lia.
Qed.

(** Success of the hub. *)
Lemma hub_success reg R Tk h t : hub_state reg R Tk h -> hub_returned h = Some true -> 0 <= t < f ->
  hw_recovery_result (write_streams (hub_out h)).[t] = Some true.
Proof. intros [[_ _ HRet] _] E Ht. specialize (HRet E t Ht). unfold stream_complete in HRet. breflect. assumption. Qed.
End Hub.
