(* ===== verification/PipelineSinkSpec.v ===== *)
(** The sink of a local chain, and the data nodes the repaired blocks go to. *)
From S2P Require Import PortAllocator.
From S2P Require Import Prelude GF256 EcKernel Groups Codes Decode DecodeSpec RepairPlan PipelineCodec PipelinePlan PipelineSession CNum Text.
From S2P Require Import Toolbox Placement Coordinator AppendPlan Client DataNode ProxyAppend StripeWrite ReadPath SingleRepair MultiRecovery MultiRecoverySpec.
From S2P Require Import PipelineMessages PipelineRun PipelineRunSpec PipelineChainSpec PipelineHubSpec.

(** * The sink of a local chain *)

Section Sink.
Context (bs T : Z) (q : PipelineRequest) (slot : Z) (val : Z -> block) (tgt : block).
Notation n := (shards bs T q).
Notation w := (width bs T q).
Context (Hw : 1 <= w) (Hn : 1 <= n < 2 ^ 31).
Context (Hval : forall s, 0 <= s < n -> zlen (val s) = w).
Context (Htgt : zlen tgt = n * w /\ forall s, 0 <= s < n -> peek w (s * w) tgt = val s).

(** [r] shards of its chain were taken, and the end if [t]. *)
Record sink_ok (r : Z) (t : bool) (s : Sink) : Prop := {
  sk_range : 0 <= r <= n;
  sk_early : sink_stage s = SinkBinding \/ sink_stage s = SinkAccepting -> r = 0 /\ t = false;
  sk_going : sink_stage s = SinkBinding \/ sink_stage s = SinkAccepting \/ sink_stage s = SinkReceiving ->
    t = false /\ sink_pending s = ∅ /\ sink_next_shard s = r /\ sink_received s = r /\ sink_streamed s = ztake (r * w) tgt /\ sink_recovery_result s = None;
  sk_received : 0 <= sink_received s <= n;
  sk_flushed : sink_stage s = SinkFlushed -> sink_streamed s = tgt;
  sk_prefix : exists k, sink_streamed s = ztake k tgt;
  sk_returned : sink_stage s = SinkReturned true -> sink_recovery_result s = Some true }.

Record sink_regular (r : Z) (t : bool) (s : Sink) : Prop := {
  sr_failed : sink_stage s <> SinkFailed;
  sr_returned : forall res, sink_stage s = SinkReturned res -> res = true;
  sr_result : sink_recovery_result s <> Some false;
  sr_taken : sink_stage s = SinkFlushed \/ (exists res, sink_stage s = SinkReturned res) -> t = true }.

Definition sink_state (reg : bool) r t s : Prop := sink_ok r t s /\ (reg = true -> sink_regular r t s).

(** The next frame of the chain. *)
Definition next_sent (r r' : Z) (t t' : bool) (frame : option PipelineFrame) : Prop :=
  match frame with
  | None => r' = r /\ t' = t
  | Some fr => (r < n /\ r' = r + 1 /\ t' = t /\ fr = shard_frame slot r w (val r)) \/ (r' = r /\ t' = true /\ fr = end_frame slot n)
  end.

(** The next shard goes straight into the socket. *)
Lemma flush_next r payload streamed : flush_ready (Datatypes.S (size (∅ : gmap Z block))) w (<[r := payload]> ∅) r streamed = (∅, r + 1, streamed ++ ztake w payload).
Proof. rewrite map_size_empty. cbn [flush_ready]. rewrite lookup_insert_eq, delete_insert_id; reflexivity. Qed.

Lemma flushed_part r : 0 <= r < n -> ztake (r * w) tgt ++ ztake w (val r) = ztake ((r + 1) * w) tgt.
Proof.
  intros Hr. destruct Htgt as [H1 H2]. rewrite (ztake_all (val r)) by (rewrite Hval by exact Hr; lia). rewrite <- H2, peek_snoc by nia. f_equal. lia.
Qed.

Ltac sink_cbn := cbn [sink_to sink_stage sink_pending sink_next_shard sink_received sink_streamed sink_recovery_result] in *.

Lemma sink_step_state reg r r' t t' fault frame s s' : sink_state reg r t s -> next_sent r r' t t' frame ->
  (reg = true -> fault = false /\ forall e, frame = Some (END e) -> r = n) -> sink_step bs T q fault frame s s' -> sink_state reg r' t' s'.
Proof.
  intros [HS HR] Ht Hreg Hs. pose proof HS as [S1 S2 S3 S4 S5 S6 S7].
  assert (Hshard : forall hdr payload, frame = Some (SHARD hdr payload) ->
            r < n /\ r' = r + 1 /\ t' = t /\ payload = val r /\ int_of_u32 (hdr_shard_id hdr) = r).
  { intros hdr payload ->. destruct Ht as [(Hr & -> & -> & E)|(_ & _ & E)]; [|discriminate]. unfold shard_frame in E. injection E as -> ->.
    split; [exact Hr|]. do 2 (split; [reflexivity|]). split; [apply ztake_all; rewrite Hval; lia|apply u32_int; lia]. }
  assert (Hend : forall e, frame = Some (END e) -> r' = r /\ t' = true /\ int_of_u32 (end_shard_count e) = n).
  { intros e ->. destruct Ht as [(_ & _ & _ & E)|(-> & -> & E)]; [discriminate|]. injection E as ->. do 2 (split; [reflexivity|]). apply u32_int. lia. }
  assert (Hfits : r < n -> shard_fits bs T q r (val r) = true).
  { intros Hr. unfold shard_fits. rewrite Hval by lia. destruct (Z.ltb_spec r 0), (Z.geb_spec r n); try lia. }
  inversion Hs; subst; sink_cbn; repeat match goal with x := _ |- _ => subst x end.
  - destruct (Hshard _ _ eq_refl) as (Hr & -> & -> & -> & Ei). rewrite Ei in *. destruct (S3 ltac:(auto)) as (-> & -> & -> & -> & -> & ->).
    rewrite flush_next, flushed_part in * by lia. match goal with E : _ = (_, _, _) |- _ => injection E as <- <- <- end.
    split; [split; sink_cbn; try (intros [[=]|[=]]); try discriminate; eauto with lia; intros _; auto 10|].
    intros E. destruct (HR E) as [R1 R2 R3 R4]. split; sink_cbn; auto.
  - destruct (Hshard _ _ eq_refl) as (Hr & -> & -> & -> & Ei). rewrite Ei, Hfits in * by exact Hr. discriminate.
  - destruct (Hend _ eq_refl) as (-> & -> & Ei). rewrite Ei in *. destruct (S3 ltac:(auto)) as (E1 & E2 & E3 & E4 & E5 & E6).
    rewrite E3, E4. destruct (Z.eqb_spec n r) as [Er|Er], (Z.eqb_spec r n) as [Er'|Er']; try congruence; cbn [andb].
    + split; [split; sink_cbn; try (intros [[=]|[=]]); try discriminate; eauto with lia|].
      * intros [[=]|[[=]|[=]]].
      * intros _. rewrite E5, Er'. apply ztake_all. destruct Htgt. lia.
      * intros E. destruct (HR E) as [R1 R2 R3 R4]. split; sink_cbn; auto; discriminate.
    + split; [split; sink_cbn; try (intros [[=]|[=]]); try discriminate; eauto with lia|].
      * intros [[=]|[[=]|[=]]].
      * intros E. destruct (Hreg E) as [_ He]. specialize (He _ eq_refl). congruence.
  - destruct Ht as [-> ->]. split; [split; sink_cbn; try (intros [[=]|[=]]); try discriminate; auto|].
    + intros E. destruct (Hreg E). discriminate.
  - destruct (Hshard _ _ eq_refl) as (Hr & -> & -> & -> & Ei). rewrite Ei in *. destruct (S3 ltac:(auto)) as (-> & -> & -> & -> & -> & ->).
    rewrite flush_next, flushed_part in * by lia. match goal with E : _ = (_, _, _) |- _ => injection E as <- <- <- end.
    split; [split; sink_cbn; try (intros [[=]|[=]]); try discriminate; auto with lia|].
    + intros [[=]|[[=]|[=]]].
    + exists (Z.min sent ((r + 1) * w)). unfold ztake. rewrite take_take. f_equal. lia.
    + intros E. destruct (Hreg E). discriminate.
  - destruct Ht as [-> ->]. split; [split; sink_cbn; try (intros [[=]|[=]]); try discriminate; auto|].
    + intros [[=]|[[=]|[=]]].
    + intros [= E]. apply bool_decide_eq_true in E. apply E.
    + intros E. destruct (HR E) as [R1 R2 R3 R4].
      match goal with H : _ \/ _ |- _ => destruct H as [H|[Hf Hres]]; [contradiction|] end. split; sink_cbn; auto.
      intros res [= <-]. apply bool_decide_eq_true. split; [exact Hf|]. destruct Hres as [[|] Hres]; [exact Hres|contradiction].
Qed.

Lemma start_sink_state reg (called : bool) :
  (reg = true -> called = true /\ (head_hops q >? 0) && valid_geometry (view bs T q) bs && pipeline_chain_is_local_direct q
                                 && (snd (rc_local_replaced_node (rq_chain q)) >? 0) = true) ->
  sink_state reg 0 false (start_sink bs T called q).
Proof.
  unfold start_sink. intros Hc. set (b := called && _). assert (E : reg = true -> b = true) by (intros Hr; destruct (Hc Hr) as [E1 E2]; subst b; rewrite E1; exact E2).
  split; [split; sink_cbn|].
  - lia.
  - auto.
  - intros _. auto 10.
  - lia.
  - destruct b; discriminate.
  - exists 0. reflexivity.
  - destruct b; discriminate.
  - intros Hr. rewrite (E Hr). split; sink_cbn; try discriminate. intros [[=]|[res [=]]].
Qed.

(** It binds and accepts. *)
Lemma sink_to_state reg r t s stage : sink_state reg r t s -> (sink_stage s = SinkBinding /\ (stage = SinkAccepting \/ (stage = SinkFailed /\ reg = false))) \/ (sink_stage s = SinkAccepting /\ stage = SinkReceiving) ->
  sink_state reg r t (sink_to stage s).
Proof.
  intros [[S1 S2 S3 S4 S5 S6 S7] HR] Hst.
  assert (Hgo : sink_stage s = SinkBinding \/ sink_stage s = SinkAccepting \/ sink_stage s = SinkReceiving) by tauto.
  assert (He : sink_stage s = SinkBinding \/ sink_stage s = SinkAccepting) by tauto.
  assert (Hne : stage <> SinkFlushed /\ forall r, stage <> SinkReturned r) by (split; [|intros x]; intros ->; destruct Hst as [[_ [?|[? _]]]|[_ ?]]; discriminate).
  destruct Hne as [Hn1 Hn2]. split; [split; sink_cbn; auto; try (intros; exfalso; congruence)|].
  - intros Hreg. destruct (HR Hreg) as [R1 R2 R3 R4]. split; sink_cbn; auto.
    + intros ->. destruct Hst as [[_ [?|[_ ?]]]|[_ ?]]; congruence.
    + intros res E. exfalso. exact (Hn2 _ E).
    + intros [E|[res E]]; exfalso; [exact (Hn1 E)|exact (Hn2 _ E)].
Qed.

(** The data node answers. *)
Lemma sink_answer_state reg r t s done : sink_state reg r t s -> sink_stage s = SinkFlushed \/ sink_stage s = SinkFailed -> (reg = true -> done = true) ->
  sink_state reg r t (answer_sink done s).
Proof.
  intros [[S1 S2 S3 S4 S5 S6 S7] HR] Hst Hd. unfold answer_sink. split; [split; sink_cbn; auto|].
  - intros E. exfalso. destruct Hst, E as [E|[E|E]]; congruence.
  - intros E. destruct Hst; congruence.
  - intros Hreg. destruct (HR Hreg) as [R1 R2 R3 R4]. split; sink_cbn; auto. rewrite (Hd Hreg). discriminate.
Qed.

(** ** Termination and progress *)

Definition sink_stage_weight (stage : SinkStage) : Z :=
  match stage with SinkBinding => 5 | SinkAccepting => 4 | SinkReceiving => 3 | SinkFlushed | SinkFailed => 1 | SinkReturned _ => 0 end.
Definition sink_weight (s : Sink) : Z :=
  sink_stage_weight (sink_stage s) + match sink_recovery_result s with None => 1 | Some _ => 0 end.

Lemma sink_weight_nonneg s : 0 <= sink_weight s.
Proof. unfold sink_weight. destruct (sink_stage s), (sink_recovery_result s); cbn; lia. Qed.

(** A frame weighs two. *)
Lemma sink_step_weight fault frame s s' : sink_step bs T q fault frame s s' -> sink_weight s' < sink_weight s + (if frame is Some _ then 2 else 0).
Proof.
  intros Hs. unfold sink_weight. destruct Hs as [| ? ? s Hst|e s Hst|s Hst| |s Hst]; sink_cbn; try lia.
  - rewrite Hst. cbn. lia.
  - rewrite Hst. destruct (_ && _); cbn; lia.
  - destruct Hst as [->|[->| ->]]; cbn; lia.
  - cbn. lia.
  - destruct Hst as [->|[-> _]]; cbn; lia.
Qed.

Lemma sink_to_weight stage s : sink_stage_weight stage < sink_stage_weight (sink_stage s) -> sink_weight (sink_to stage s) < sink_weight s.
Proof. unfold sink_weight. sink_cbn. lia. Qed.

Lemma sink_answer_weight done s : sink_recovery_result s = None -> sink_weight (answer_sink done s) < sink_weight s.
Proof. unfold sink_weight, answer_sink. sink_cbn. intros ->. lia. Qed.

Lemma sink_progress r t s : sink_state true r t s ->
  (exists s', sink_step bs T q false None s s') \/ sink_stage s = SinkBinding \/ sink_stage s = SinkAccepting \/
  (sink_stage s = SinkReceiving /\ t = false /\ forall frame r' t', next_sent r r' t t' (Some frame) -> exists s', sink_step bs T q false (Some frame) s s') \/
  (sink_stage s = SinkFlushed /\ sink_recovery_result s = None) \/ exists res, sink_stage s = SinkReturned res.
Proof.
  intros [[S1 S2 S3 S4 S5 S6 S7] HR]. destruct (HR eq_refl) as [R1 R2 R3 R4].
  destruct (sink_stage s) eqn:Est; auto; [..|eauto 10].
  - right; right; right; left. destruct (S3 ltac:(auto)) as (E1 & E2 & E3 & E4 & E5 & E6). split; [reflexivity|]. split; [exact E1|].
    intros frame r' t' [(Hr & _ & _ & ->)|(_ & _ & ->)].
    + destruct s as [stage pending next received streamed result]. sink_cbn. subst. unfold shard_frame. rewrite (ztake_all (val _)) by (rewrite Hval by lia; lia).
      eexists. apply sink_takes; cbn [hdr_shard_id]; rewrite u32_int by lia; [|apply flush_next].
      unfold shard_fits. rewrite Hval by lia. destruct (Z.ltb_spec r 0), (Z.geb_spec r n); lia.
    + eexists. apply sink_ends, Est.
  - destruct (sink_recovery_result s) as [res|] eqn:Er.
    + left. eexists. apply sink_returns. right. split; [exact Est|eauto].
    + right; right; right; right; left. auto.
  - contradiction.
Qed.
End Sink.

(** What a step of a sink leaves alone. *)
Lemma sink_step_stage bs T q fault frame s s' : sink_step bs T q fault frame s s' ->
  sink_recovery_result s' = sink_recovery_result s /\ sink_stage s' <> SinkBinding /\ sink_stage s' <> SinkAccepting /\
  (sink_stage s = SinkBinding \/ sink_stage s = SinkAccepting -> fault = true).
Proof.
  intros Hs. destruct Hs as [| |e s Hst| | |s Hst]; cbn [sink_to sink_stage sink_recovery_result]; repeat split; try discriminate; auto;
    try (intros [E|E]; congruence); try (destruct (_ && _); discriminate).
  all: intros [E|E]; destruct Hst as [Hst|[Hst _]]; congruence.
Qed.

(** * The data nodes *)

Section Targets.
Context (bs N : Z) (node : Z -> string * Z) (key : Z -> string) (blk : Z -> block) (st0 : Storage).
Context (Hnode : forall a b, 0 <= a < N -> 0 <= b < N -> node a = node b -> a = b).
Context (Hblk : forall a, 0 <= a < N -> zlen (blk a) = bs).

(** Every other node has its files. *)
Definition intact (st : Storage) : Prop :=
  forall nd, (forall a, 0 <= a < N -> nd <> node a) -> files_at (fst nd) (snd nd) st = files_at (fst nd) (snd nd) st0.

(** What the node of target [a] holds, given the answer it has sent. *)
Definition target_files (a : Z) (result : option bool) (st : Storage) : Prop :=
  let d0 := files_at (fst (node a)) (snd (node a)) st0 in
  let d := files_at (fst (node a)) (snd (node a)) st in
  match result with
  | None => d = d0
  | Some done => exists tag, write_effect (key a) (recovery_tmp (key a) tag) (blk a) done d0 d
  end.

Definition storage_good (result : Z -> option bool) (st : Storage) : Prop :=
  intact st /\ forall a, 0 <= a < N -> target_files a (result a) st.

Lemma storage_good_ext result result' st : (forall a, 0 <= a < N -> result' a = result a) -> storage_good result st -> storage_good result' st.
Proof. intros E [H1 H2]. split; [exact H1|]. intros a Ha. rewrite E by exact Ha. apply H2, Ha. Qed.

(** A stream that carries a prefix of the block ends. *)
Lemma store_good result st a l m done st' : storage_good result st -> 0 <= a < N -> result a = None ->
  RecoveryToDatanodeBreakdown bs l (key a) (ztake m (blk a)) (node a) st = (done, st') ->
  storage_good (set_at a (Some done) result) st' /\ (write_holds bs l -> bs <= m -> done = true).
Proof.
  intros [H1 H2] Ha Hn E. rewrite write_prefix in E by (apply Hblk, Ha).
  destruct (recovery_write_effect _ _ _ _ _ _ _ _ (Hblk a Ha) E) as (W1 & W2 & W3). split.
  - split.
    + intros nd Hnd. rewrite W2 by (apply Hnd, Ha). apply H1, Hnd.
    + intros b Hb. specialize (H2 b Hb). destruct (Z.eq_dec b a) as [->|Hne].
      * rewrite set_at_eq. rewrite Hn in H2. unfold target_files in *. cbv zeta in *. rewrite <- H2. exists (wl_tag l). exact W1.
      * rewrite set_at_ne by exact Hne. unfold target_files in *. cbv zeta in *. rewrite W2; [exact H2|]. intros E'. apply Hne, Hnode; assumption.
  - intros (A1 & A2 & A3 & A4) Hm. apply W3. unfold write_holds, cut_link. cbn. repeat split; auto. lia.
Qed.
End Targets.
