(* ===== verification/PipelineSessionSpec.v ===== *)
(** A repair along pipelines as a whole: chains, hub, sinks and data nodes under
    every interleaving and every fault. *)
From S2P Require Import PortAllocator.
From S2P Require Import Prelude GF256 EcKernel Groups Codes LocalRepair Decode DecodeSpec RepairPlan PipelineCodec PipelinePlan PipelineSession CNum Text.
From S2P Require Import Toolbox Placement Coordinator AppendPlan Client DataNode ProxyAppend StripeWrite ReadPath SingleRepair MultiRecovery MultiRecoverySpec.
From S2P Require Import PipelineMessages PipelineRun PipelineRunSpec PipelineChainSpec PipelineHubSpec PipelineSinkSpec.
From Stdlib Require Import Classical_Prop Classical_Pred_Type.

(** * Listeners *)

Lemma owners_insert_eq (l : Owners) addr o : <[addr := o]> l !! addr = Some o.
Proof. apply (lookup_insert_eq (M := gmap (string * Z))). Qed.

Lemma owners_insert_ne (l : Owners) addr addr' o : addr <> addr' -> <[addr := o]> l !! addr' = l !! addr'.
Proof. apply (lookup_insert_ne (M := gmap (string * Z))). Qed.

Lemma owners_delete_ne (l : Owners) addr addr' : addr <> addr' -> delete addr l !! addr' = l !! addr'.
Proof. apply (lookup_delete_ne (M := gmap (string * Z))). Qed.

(** * What a step of the hub leaves alone *)

Definition stream_result (t : Z) (h : Hub) : option bool := hw_recovery_result (write_streams (hub_out h)).[t].

Lemma stream_results_kept t0 ws h t : hw_recovery_result ws = stream_result t0 h -> stream_result t (with_stream t0 ws h) = stream_result t h.
Proof.
  intros E. unfold stream_result, with_stream, with_out. cbn [hub_out write_streams].
  destruct (Z.lt_ge_cases t0 (zlen (write_streams (hub_out h)))) as [Hlt|Hge].
  - destruct (Z.lt_ge_cases t0 0) as [Hneg|]; [unfold zset; destruct (Z.ltb_spec t0 0); [reflexivity|lia]|].
    rewrite zget_zset by lia. destruct (Z.eqb_spec t t0) as [->|]; [exact E|reflexivity].
  - unfold zset. rewrite list_insert_ge by lia. destruct (t0 <? 0); reflexivity.
Qed.

Lemma hub_step_results bs T W q inverse st fault h h' t : hub_step bs T W q inverse st fault h h' -> stream_result t h' = stream_result t h.
Proof.
  intros Hs. destruct Hs as [| | | |ci h h' _ _ Hs| | | | |wi shard recovered t0 h _ _ _ _| | | |t0 payload h _ Ht ws _ _ _ _|t0 payload sent h _ Ht ws _ _ _ _
    |t0 h _ Ht ws _ _ _ _|t0 h _ Ht ws _ _|]; try reflexivity; try (apply (stream_results_kept _ _ h); reflexivity).
  - apply (listener_step_shape _ _ _ _ []) in Hs as (l' & _ & E & _). unfold stream_result. rewrite E. reflexivity.
  - destruct (_ =? _); apply (stream_results_kept _ _ h); reflexivity.
Qed.

(** * The session *)

Lemma role_count_pos su c : 1 <= role_count su c.
Proof. unfold role_count. lia. Qed.

Lemma all_chains_len su : zlen (all_chains su) = hub_count su + zlen (local_direct_chains (su_plan su)).
Proof. unfold all_chains, hub_count. rewrite length_app. lia. Qed.

Section Session.
Context (su : PipelineSetup) (inverse : list byte) (listening0 : Owners).
Context (src : Z -> Z -> block) (hub_block : block) (rec : Z -> list block) (tgt stgt : Z -> block) (st0 : Storage).
Notation bs := (su_block_size su).
Notation T := (su_shard_count su).
Notation W := (su_window su).
Notation oph := (su_one_proxy_per_host su).
Notation q := (hub_request su).
Notation n := (shards bs T q).
Notation w := (width bs T q).
Notation H := (hub_count su).
Notation J := (zlen (local_direct_chains (su_plan su))).
Notation C := (zlen (all_chains su)).
Notation M := (role_count su).
Notation req := (role_request su).
Notation f := (hub_f q).
Notation slot := (fun c => eq_slot (all_chains su).[c]).

(** What the last role of chain [c] sends. *)
Definition cv (c : Z) : Z -> block := role_val bs T (req c) (src c) (M c - 1).

(** The targets: those of the hub, then those of the sinks. *)
Definition repair_node (a : Z) : string * Z :=
  if a <? f then (rb_replaced (rq_base q)).[a] else rc_local_replaced_node (rq_chain (sink_request su (H + (a - f)))).
Definition repair_key (a : Z) : string :=
  if a <? f then (rb_failed_keys (rq_base q)).[a] else rc_local_failed_block_key (rq_chain (sink_request su (H + (a - f)))).
Definition repair_block (a : Z) : block := if a <? f then tgt a else stgt (a - f).
Definition repair_result (v : Session) (a : Z) : option bool :=
  if a <? f then stream_result a (hub v) else sink_recovery_result (sinks v).[a - f].

Notation untouched := (intact (f + J) repair_node st0).
Notation good := (storage_good (f + J) repair_node repair_key repair_block st0).

Context (Hw : 1 <= w) (Hn : 1 <= n < 2 ^ 31) (Hbs : n * w = bs).
Context (Hview : forall c role i, 0 <= c < C -> shards bs T (chain_request su c role i) = n /\ width bs T (chain_request su c role i) = w).
Context (Hsrc : forall c i, 0 <= c < C -> 0 <= i < M c -> zlen (src c i) = n * w).
Context (Hblock : any_hub_local_read q = true -> zlen hub_block = n * w).
Context (Hdecode : 0 < H -> forall s, 0 <= s < n ->
  decode_glrc_ilp_rhs_compact (map (fun ci => rv bs T q hub_block cv ci s) (zseq (hub_chain_n q))) inverse f w = Some (rec s)).
Context (Htgt : forall t, 0 <= t < f -> zlen (tgt t) = n * w /\ forall s, 0 <= s < n -> peek w (s * w) (tgt t) = (rec s).[t]).
Context (Hstgt : forall j, 0 <= j < J -> zlen (stgt j) = n * w /\ forall s, 0 <= s < n -> peek w (s * w) (stgt j) = cv (H + j) s).
Context (Hnodes : forall a b, 0 <= a < f + J -> 0 <= b < f + J -> repair_node a = repair_node b -> a = b).
Context (Hread : forall st c i, untouched st -> 0 <= c < C -> 0 <= i < M c -> source_ok bs T (req c) (src c) st i).
Context (Hhubread : forall st, untouched st -> hub_source_ok bs T q hub_block st).

Lemma roles_some c : 1 <= M c.
Proof. apply role_count_pos. Qed.

Lemma chain_count : C = H + J.
Proof. apply all_chains_len. Qed.

Lemma hub_chain_count : hub_chain_n q = H.
Proof. unfold hub_chain_n, hub_request, fill_hub_fields. cbn [rq_hub_chains]. rewrite length_map. reflexivity. Qed.

Lemma never_local ci : 0 <= ci < hub_chain_n q -> hc_local_only (rq_hub_chains q).[ci] = false.
Proof.
  unfold hub_chain_n, hub_request, fill_hub_fields. cbn [rq_hub_chains]. rewrite length_map. intros Hci. rewrite zget_map by exact Hci. reflexivity.
Qed.

Lemma chain_dims c : 0 <= c < C -> forall i, 0 <= i < M c -> shards bs T (req c i) = n /\ width bs T (req c i) = w /\
  rc_eq_slot (rq_chain (req c i)) = slot c /\ (1 <= i -> my_hop (req c i) = i).
Proof.
  intros Hc i Hi. unfold role_request. destruct (Z.eqb_spec i 0) as [->|Hne].
  - destruct (Hview c CHAIN_HEAD 0 Hc) as [-> ->]. do 3 (split; [reflexivity|]). lia.
  - destruct (Hview c HOP_SERVER i Hc) as [-> ->]. repeat split; reflexivity.
Qed.

Lemma chain_sources c : 0 <= c < C -> forall i, 0 <= i < M c -> zlen (src c i) = n * w.
Proof. intros Hc i Hi. apply Hsrc; assumption. Qed.

Lemma cv_len c s : 0 <= c < C -> 0 <= s < n -> zlen (cv c s) = w.
Proof. intros Hc Hs. pose proof (roles_some c). apply (role_val_len bs T (M c) (req c) (src c) n w (slot c)); auto using chain_dims, chain_sources; lia. Qed.

Lemma hub_cv_len ci s : 0 <= ci < hub_chain_n q -> 0 <= s < n -> zlen (cv ci s) = w.
Proof. rewrite hub_chain_count. intros Hci. apply cv_len. rewrite chain_count. lia. Qed.

(** ** The state *)

Definition sink_at (j : Z) : string * Z :=
  sink_address oph (fst (sink_proxy su (H + j))) (snd (sink_proxy su (H + j))) (sink_request su (H + j)).

Definition hub_part (reg : bool) (r : Z -> Z) (t : Z -> bool) (h : Hub) : Prop :=
  (0 < H -> hub_state bs T W q hub_block cv rec tgt reg r t h) /\
  (H = 0 -> hub_returned h = Some false /\ forall t, 0 <= t < f -> hw_open (write_streams (hub_out h)).[t] = true).
Definition sinks_part (reg : bool) (r : Z -> Z) (t : Z -> bool) (ss : list Sink) : Prop :=
  zlen ss = J /\ forall j, 0 <= j < J -> sink_state bs T (sink_request su (H + j)) (stgt j) reg (r (H + j)) (t (H + j)) ss.[j].

(** Who listens: the sinks come and go; whoever has accepted has a connection. *)
Record listen_part (v : Session) : Prop := {
  ln_others : forall addr, (forall j, 0 <= j < J -> addr <> sink_at j) -> listening v !! addr = listening0 !! addr;
  ln_binding : forall j, 0 <= j < J -> sink_stage (sinks v).[j] = SinkBinding -> listening v !! sink_at j = None;
  ln_accepting : forall j, 0 <= j < J -> sink_stage (sinks v).[j] = SinkAccepting -> listening v !! sink_at j = Some (OwnerSink (H + j));
  ln_accepted : forall j, 0 <= j < J -> sink_stage (sinks v).[j] <> SinkBinding -> sink_stage (sinks v).[j] <> SinkAccepting -> last_wire su (H + j) v <> None }.

(** The last connection. *)
Definition at_end {X} (F : Z -> Z -> X) (c : Z) : X := F c (M c - 1).

Notation chain_ready c := (chain_state bs T W (M c) (req c) (src c) n w (slot c)).

(** [A], [R], [Tk], [En]: for each chain what its roles have added, what was taken
    from its connections, and which carried their end. *)
Record pipeline_ok (reg : bool) (A R : Z -> Z -> Z) (Tk En : Z -> Z -> bool) (v : Session) : Prop := {
  se_len : zlen (chains v) = C;
  se_chain : forall c, 0 <= c < C -> chain_ready c reg (A c) (R c) (Tk c) (En c) (chains v).[c];
  se_hub : hub_part reg (at_end R) (at_end Tk) (hub v);
  se_sinks : sinks_part reg (at_end R) (at_end Tk) (sinks v);
  se_storage : good (repair_result v) (storage v);
  se_listen : reg = true -> listen_part v }.

Lemma at_end_set {X} c (F : Z -> X) (G : Z -> Z -> X) c' : at_end (set_at c F G) c' = if c' =? c then F (M c - 1) else at_end G c'.
Proof. unfold at_end, set_at. destruct (Z.eqb_spec c' c) as [->|]; reflexivity. Qed.

Lemma hub_part_ext reg r t r' t' h : (forall c, 0 <= c < H -> r' c = r c /\ t' c = t c) -> hub_part reg r t h -> hub_part reg r' t' h.
Proof.
  intros Ert [H1 H2]. split; [|exact H2]. intros HH. destruct (H1 HH) as [[K1 K2 K3] K5].
  destruct (in_ext bs T W q hub_block cv reg r t r' t' (hub_in h)) as [I1 I2]; [rewrite hub_chain_count; exact Ert|split; [exact K1|intros E; apply (K5 E)]|].
  split; [split; assumption|]. intros E. destruct (K5 E) as [G1 G2 G3 G4]. split; auto.
Qed.

Lemma sinks_part_ext reg r t r' t' ss : (forall c, r' c = r c) -> (forall c, t' c = t c) -> sinks_part reg r t ss -> sinks_part reg r' t' ss.
Proof. intros Er Et [H1 H2]. split; [exact H1|]. intros j Hj. rewrite Er, Et. apply H2, Hj. Qed.

Definition late (s : Sink) : Prop := sink_stage s <> SinkBinding /\ sink_stage s <> SinkAccepting.

Lemma results_ext v v' : (forall t, stream_result t (hub v') = stream_result t (hub v)) ->
  (forall j, 0 <= j < J -> sink_recovery_result (sinks v').[j] = sink_recovery_result (sinks v).[j]) ->
  forall a, 0 <= a < f + J -> repair_result v' a = repair_result v a.
Proof. intros E1 E2 a Ha. unfold repair_result. destruct (Z.ltb_spec a f); [apply E1|apply E2; lia]. Qed.

(** Chain [c] moved, and maybe whoever takes from it. *)
Lemma session_chain reg A R Tk En v c A' R' Tk' En' ch' h' ss' : pipeline_ok reg A R Tk En v -> 0 <= c < C ->
  chain_ready c reg A' R' Tk' En' ch' -> ((wires (chains v).[c]).[M c - 1] <> None -> (wires ch').[M c - 1] <> None) ->
  hub_part reg (at_end (set_at c R' R)) (at_end (set_at c Tk' Tk)) h' -> sinks_part reg (at_end (set_at c R' R)) (at_end (set_at c Tk' Tk)) ss' ->
  (forall t, stream_result t h' = stream_result t (hub v)) ->
  (forall j, 0 <= j < J -> sink_recovery_result ss'.[j] = sink_recovery_result (sinks v).[j]) ->
  (reg = true -> forall j, 0 <= j < J -> ss'.[j] = (sinks v).[j] \/ (late ss'.[j] /\ late (sinks v).[j])) ->
  pipeline_ok reg (set_at c A' A) (set_at c R' R) (set_at c Tk' Tk) (set_at c En' En) (MkSession (listening v) (chains v).[c <- ch'] h' ss' (storage v)).
Proof.
  intros [S1 S2 S3 S4 S5 S6] Hc HC Hwire Hh Hs E1 E2 Hl. split; cbn [chains hub sinks storage].
  - rewrite zlen_zset. exact S1.
  - intros c' Hc'. destruct (Z.eq_dec c' c) as [->|Hne].
    + rewrite zget_zset_eq, !set_at_eq by lia. exact HC.
    + rewrite zget_zset_ne, !set_at_ne by congruence. apply S2, Hc'.
  - exact Hh.
  - exact Hs.
  - eapply storage_good_ext; [|exact S5]. apply results_ext; assumption.
  - intros Hreg. destruct (S6 Hreg) as [L1 L2 L3 L4]. specialize (Hl Hreg). split; cbn [listening sinks].
    + exact L1.
    + intros j Hj E. apply L2; [exact Hj|]. destruct (Hl j Hj) as [<-|[[Hb _] _]]; [exact E|contradiction].
    + intros j Hj E. apply L3; [exact Hj|]. destruct (Hl j Hj) as [<-|[[_ Hb] _]]; [exact E|contradiction].
    + intros j Hj Eb Ea. assert (HL : last_wire su (H + j) v <> None).
      { destruct (Hl j Hj) as [E|[_ [Hb Ha]]]; [rewrite E in *; apply L4; assumption|apply L4; assumption]. }
      unfold last_wire in *. cbn [chains]. destruct (Z.eq_dec (H + j) c) as [E|Hne].
      * subst c. rewrite zget_zset_eq by lia. apply Hwire, HL.
      * rewrite zget_zset_ne by congruence. exact HL.
Qed.

Lemma at_end_same {X} c (F : Z -> X) (G : Z -> Z -> X) : F (M c - 1) = G c (M c - 1) -> forall c', at_end (set_at c F G) c' = at_end G c'.
Proof. intros E c'. rewrite at_end_set. destruct (Z.eqb_spec c' c) as [->|]; [exact E|reflexivity]. Qed.

Lemma ready_sources v reg A R Tk En c : pipeline_ok reg A R Tk En v -> 0 <= c < C -> forall i, 0 <= i < M c -> source_ok bs T (req c) (src c) (storage v) i.
Proof. intros HS Hc i Hi. apply Hread; try assumption. apply (se_storage _ _ _ _ _ _ HS). Qed.

Lemma step_chain_ok reg A R Tk En fault v c ch' : pipeline_ok reg A R Tk En v -> 0 <= c < C -> (reg = true -> fault = false) ->
  chain_step bs T W oph c (M c) (fan_in su c) (req c) (listening v) (storage v) fault (chains v).[c] ch' ->
  exists A' R' Tk' En', pipeline_ok reg A' R' Tk' En' (with_chain c ch' v).
Proof.
  intros HS Hc Hf Hst. pose proof (se_chain _ _ _ _ _ _ HS c Hc) as HC.
  destruct (chain_step_state bs T W oph c (M c) (fan_in su c) (req c) (src c) n w (slot c) (roles_some c) Hw Hn (chain_dims c Hc) (chain_sources c Hc)
    reg (A c) (R c) (Tk c) (En c) (listening v) (storage v) fault _ ch' HC (ready_sources v reg A R Tk En c HS Hc) Hf Hst)
    as (A' & R' & Tk' & En' & HC' & ER & ET).
  exists (set_at c A' A), (set_at c R' R), (set_at c Tk' Tk), (set_at c En' En).
  apply session_chain; auto.
  - intros Hl. eapply chain_step_wires; [apply roles_some|exact Hst|apply (co_wires_len _ _ _ _ _ _ _ _ _ _ _ _ _ _ (proj1 HC))| |exact Hl].
    pose proof (roles_some c). lia.
  - eapply hub_part_ext; [|apply HS]. intros c' _. rewrite !at_end_same by assumption. auto.
  - eapply sinks_part_ext; [apply at_end_same, ER|apply at_end_same, ET|apply HS].
Qed.

(** What a consumer takes from the last connection of a chain. *)
Lemma last_taken reg A R Tk En v c frame rest : pipeline_ok reg A R Tk En v -> 0 <= c < C -> last_wire su c v = Some (frame :: rest) ->
  exists r' t', next_frame bs T (req c) (src c) n w (slot c) (M c - 1) (at_end R c) r' (at_end Tk c) t' (Some frame) /\
    (forall x, frame = END x -> reg = true -> at_end R c = n) /\
    let ch := (chains v).[c] in
    chain_ready c reg (A c) (set_at (M c - 1) r' (R c)) (set_at (M c - 1) t' (Tk c)) (En c) (MkChain (PipelineRun.head ch) (hop_servers ch) (wires ch).[M c - 1 <- Some rest]) /\
    ((wires ch).[M c - 1] <> None -> (wires ch).[M c - 1 <- Some rest].[M c - 1] <> None).
Proof.
  intros HS Hc Hl. pose proof (se_chain _ _ _ _ _ _ HS c Hc) as HC.
  destruct (chain_taken bs T W (M c) (req c) (src c) n w (slot c) (roles_some c) Hn (chain_dims c Hc) (chain_sources c Hc)
    reg (A c) (R c) (Tk c) (En c) _ frame rest HC Hl) as (r' & t' & H1 & H2 & H3).
  exists r', t'. split; [exact H1|]. split; [exact H2|]. split; [exact H3|].
  intros _. pose proof (roles_some c). rewrite zget_zset_eq by (rewrite (co_wires_len _ _ _ _ _ _ _ _ _ _ _ _ _ _ (proj1 HC)); lia). discriminate.
Qed.

(** The ports are there: sinks find theirs free, every role its successor. *)
Record ports_ok : Prop := {
  pk_distinct : forall j j', 0 <= j < J -> 0 <= j' < J -> sink_at j = sink_at j' -> j = j';
  pk_free : forall j, 0 <= j < J -> listening0 !! sink_at j = None;
  pk_target : forall c i, 0 <= c < C -> 0 <= i < M c -> exists addr, role_target oph (req c) i = addr /\
    if i + 1 <? M c then listening0 !! addr = Some (OwnerHop c (i + 1))
    else if c <? H then listening0 !! addr = Some (OwnerHub c) else addr = sink_at (c - H) }.

(** Only hub, sinks, listeners or storage changed. *)
Lemma session_rest reg A R Tk En v l' h' ss' st' : pipeline_ok reg A R Tk En v -> hub_part reg (at_end R) (at_end Tk) h' ->
  sinks_part reg (at_end R) (at_end Tk) ss' -> let v' := MkSession l' (chains v) h' ss' st' in good (repair_result v') st' ->
  (reg = true -> listen_part v') -> pipeline_ok reg A R Tk En v'.
Proof. intros [S1 S2 S3 S4 S5 S6] Hh Hs v' Hg Hl. split; auto. Qed.

Lemma listen_same v v' : listening v' = listening v -> sinks v' = sinks v -> chains v' = chains v -> listen_part v -> listen_part v'.
Proof.
  intros E1 E2 E3 [L1 L2 L3 L4]. split; rewrite ?E1, ?E2; auto. intros j Hj H1 H2. unfold last_wire in *. rewrite E3. apply L4; assumption.
Qed.

Lemma hub_runs h : hub_returned h = None -> forall reg r t, hub_part reg r t h -> 0 < H /\ hub_state bs T W q hub_block cv rec tgt reg r t h.
Proof.
  intros E reg r t [H1 H2]. destruct (Z.eq_dec H 0) as [E0|]; [destruct (H2 E0); congruence|].
  assert (0 < H) by (unfold hub_count in *; lia). auto.
Qed.

Lemma hub_step_running st fault h h' : hub_step bs T W q inverse st fault h h' -> hub_returned h = None.
Proof. intros Hs. destruct Hs; assumption. Qed.

Lemma hub_part_some reg r t h : 0 < H -> hub_state bs T W q hub_block cv rec tgt reg r t h -> hub_part reg r t h.
Proof. intros HH Hs. split; [auto|lia]. Qed.

Lemma step_hub_ok reg A R Tk En fault v h' : pipeline_ok reg A R Tk En v -> (reg = true -> fault = false) ->
  hub_step bs T W q inverse (storage v) fault (hub v) h' -> pipeline_ok reg A R Tk En (with_hub h' v).
Proof.
  intros HS Hf Hst. destruct (hub_runs _ (hub_step_running _ _ _ _ Hst) _ _ _ (se_hub _ _ _ _ _ _ HS)) as [HH Hh].
  apply (session_rest reg A R Tk En v); [exact HS| |apply HS| |].
  - apply hub_part_some; [exact HH|].
    eapply (hub_step_state bs T W q inverse hub_block slot cv rec tgt); eauto using never_local, hub_cv_len. apply Hhubread, (se_storage _ _ _ _ _ _ HS).
  - eapply storage_good_ext; [|apply HS]. apply results_ext; [|auto]. intros t. eapply hub_step_results. exact Hst.
  - intros Hreg. apply (listen_same v); auto. apply (se_listen _ _ _ _ _ _ HS Hreg).
Qed.

Lemma step_accepts_ok reg A R Tk En v ci : pipeline_ok reg A R Tk En v -> 0 <= ci < H -> hub_returned (hub v) = None ->
  let l := (listeners (hub_in (hub v))).[ci] in listener_stage l = RoleAccepting ->
  pipeline_ok reg A R Tk En (with_hub (with_listener ci (accepted l) (hub v)) v).
Proof.
  intros HS Hci Hrun l Hst. destruct (hub_runs _ Hrun _ _ _ (se_hub _ _ _ _ _ _ HS)) as [HH Hh].
  apply (session_rest reg A R Tk En v); [exact HS| |apply HS| |].
  - apply hub_part_some; [exact HH|]. eapply accept_state; eauto. rewrite hub_chain_count. exact Hci.
  - eapply storage_good_ext; [|apply HS]. apply results_ext; auto.
  - intros Hreg. apply (listen_same v); auto. apply (se_listen _ _ _ _ _ _ HS Hreg).
Qed.

Lemma hub_state_ext reg r t r' t' h : 0 < H -> (forall c, 0 <= c < H -> r' c = r c /\ t' c = t c) ->
  hub_state bs T W q hub_block cv rec tgt reg r t h -> hub_state bs T W q hub_block cv rec tgt reg r' t' h.
Proof. intros HH E Hh. eapply (hub_part_ext reg r t r' t' h E); [apply hub_part_some; assumption|exact HH]. Qed.

Lemma step_takes_ok reg A R Tk En v ci frame rest h' : pipeline_ok reg A R Tk En v -> 0 <= ci < H -> hub_returned (hub v) = None ->
  last_wire su ci v = Some (frame :: rest) -> listener_step bs T W q ci (hub v) (Some frame) (listeners (hub_in (hub v))).[ci] h' ->
  exists A' R' Tk' En', pipeline_ok reg A' R' Tk' En' (with_hub h' (set_last_wire su ci rest v)).
Proof.
  intros HS Hci Hrun Hl Hst. destruct (hub_runs _ Hrun _ _ _ (se_hub _ _ _ _ _ _ HS)) as [HH Hh].
  assert (Hc : 0 <= ci < C) by (rewrite chain_count; lia).
  destruct (last_taken _ _ _ _ _ _ ci frame rest HS Hc Hl) as (r' & t' & H1 & H2 & H3 & H4).
  destruct (take_state bs T W q hub_block slot cv rec tgt Hw Hn never_local hub_cv_len reg (at_end R) (at_end Tk) ci r' t' (hub v) frame h') as [Hh' _]; auto.
  { rewrite hub_chain_count. exact Hci. }
  { intros Hreg e E. eapply H2; eassumption. }
  exists (set_at ci (A ci) A), (set_at ci (set_at (M ci - 1) r' (R ci)) R), (set_at ci (set_at (M ci - 1) t' (Tk ci)) Tk), (set_at ci (En ci) En).
  apply (session_chain reg A R Tk En v ci); auto.
  - apply hub_part_some; [exact HH|]. eapply hub_state_ext; [exact HH| |exact Hh']. intros c _. rewrite !at_end_set, !set_at_eq. auto.
  - destruct (se_sinks _ _ _ _ _ _ HS) as [K1 K2]. split; [exact K1|]. intros j Hj. rewrite !at_end_set.
    destruct (Z.eqb_spec (H + j) ci); [lia|]. apply K2, Hj.
  - intros t. apply (listener_step_shape _ _ _ _ []) in Hst as (l' & _ & E & _). unfold stream_result. rewrite E. reflexivity.
Qed.

Lemma sink_dims j : 0 <= j < J -> shards bs T (sink_request su (H + j)) = n /\ width bs T (sink_request su (H + j)) = w.
Proof. intros Hj. apply Hview. rewrite chain_count. unfold hub_count. lia. Qed.

Lemma sink_target j : 0 <= j < J -> let q' := sink_request su (H + j) in
  1 <= width bs T q' /\ 1 <= shards bs T q' < 2 ^ 31 /\ (forall s, 0 <= s < shards bs T q' -> zlen (cv (H + j) s) = width bs T q') /\
  zlen (stgt j) = shards bs T q' * width bs T q' /\
  forall s, 0 <= s < shards bs T q' -> peek (width bs T q') (s * width bs T q') (stgt j) = cv (H + j) s.
Proof.
  intros Hj q'. subst q'. destruct (sink_dims j Hj) as [-> ->]. do 2 (split; [assumption|]). split; [|apply Hstgt, Hj].
  intros s. apply cv_len. rewrite chain_count. unfold hub_count. lia.
Qed.

(** One sink changes. *)
Lemma sinks_set reg r t r' t' ss j s' : sinks_part reg r t ss -> 0 <= j < J ->
  (forall i, 0 <= i < J -> i <> j -> r' (H + i) = r (H + i) /\ t' (H + i) = t (H + i)) ->
  sink_state bs T (sink_request su (H + j)) (stgt j) reg (r' (H + j)) (t' (H + j)) s' -> sinks_part reg r' t' ss.[j <- s'].
Proof.
  intros [S1 S2] Hj E Hs. split; [rewrite zlen_zset; exact S1|]. intros i Hi. rewrite zget_zset by lia.
  destruct (Z.eqb_spec i j) as [->|Hne]; [exact Hs|]. destruct (E i Hi Hne) as [-> ->]. apply S2, Hi.
Qed.

Lemma sink_results v j s' : zlen (sinks v) = J -> 0 <= j < J -> sink_recovery_result s' = sink_recovery_result (sinks v).[j] ->
  forall i, 0 <= i < J -> sink_recovery_result (sinks v).[j <- s'].[i] = sink_recovery_result (sinks v).[i].
Proof. intros Hl Hj E i Hi. rewrite zget_zset by lia. destruct (Z.eqb_spec i j) as [->|]; [exact E|reflexivity]. Qed.

Lemma step_sink_ok reg A R Tk En fault v j s' : pipeline_ok reg A R Tk En v -> 0 <= j < J -> (reg = true -> fault = false) ->
  sink_step bs T (sink_request su (H + j)) fault None (sinks v).[j] s' -> pipeline_ok reg A R Tk En (with_sink j s' v).
Proof.
  intros HS Hj Hf Hst. destruct (se_sinks _ _ _ _ _ _ HS) as [K1 K2]. destruct (sink_target j Hj) as (T1 & T2 & T3 & T4).
  destruct (sink_step_stage _ _ _ _ _ _ _ Hst) as (E1 & E2 & E3 & E4). apply (session_rest reg A R Tk En v); [exact HS|apply HS| | |].
  - eapply sinks_set; [split; eassumption|exact Hj|auto|].
    eapply (sink_step_state bs T _ (slot (H + j)) (cv (H + j)) (stgt j) T1 T2 T3 T4); [apply K2, Hj| | |exact Hst]; [split; reflexivity|].
    intros Hreg. split; [auto|discriminate].
  - eapply storage_good_ext; [|apply HS]. apply results_ext; [reflexivity|]. apply sink_results; assumption.
  - intros Hreg. specialize (Hf Hreg). subst fault. assert (Hlate : late (sinks v).[j]) by (split; intros E; specialize (E4 ltac:(tauto)); discriminate).
    destruct (se_listen _ _ _ _ _ _ HS Hreg) as [L1 L2 L3 L4]. split; cbn [with_sink listening sinks].
    + exact L1.
    + intros i Hi. rewrite zget_zset by lia. destruct (Z.eqb_spec i j) as [->|]; [contradiction|apply L2, Hi].
    + intros i Hi. rewrite zget_zset by lia. destruct (Z.eqb_spec i j) as [->|]; [contradiction|apply L3, Hi].
    + intros i Hi. rewrite zget_zset by lia. destruct (Z.eqb_spec i j) as [->|]; [intros _ _; apply L4; apply Hlate || exact Hi|apply L4, Hi].
Qed.

(** A sink binds its port or finds it taken. *)
Lemma step_binds_ok reg A R Tk En v j : pipeline_ok reg A R Tk En v -> (reg = true -> ports_ok) -> 0 <= j < J -> sink_stage (sinks v).[j] = SinkBinding ->
  pipeline_ok reg A R Tk En
    (match listening v !! sink_at j with
     | None => with_listening (<[sink_at j := OwnerSink (H + j)]> (listening v)) (with_sink j (sink_to SinkAccepting (sinks v).[j]) v)
     | Some _ => with_sink j (sink_to SinkFailed (sinks v).[j]) v
     end).
Proof.
  intros HS Hports Hj Hst. destruct (se_sinks _ _ _ _ _ _ HS) as [K1 K2]. destruct (sink_target j Hj) as (T1 & T2 & T3 & T4).
  destruct (listening v !! sink_at j) as [o|] eqn:El; apply (session_rest reg A R Tk En v); auto; try apply HS.
  - eapply sinks_set; [split; eassumption|exact Hj|auto|]. eapply sink_to_state; [exact T2|exact T4|apply K2, Hj|]. left. split; [exact Hst|]. right. split; [reflexivity|].
    destruct reg; [|reflexivity]. exfalso. pose proof (ln_binding _ (se_listen _ _ _ _ _ _ HS eq_refl) j Hj Hst). congruence.
  - eapply storage_good_ext; [|apply HS]. apply results_ext; [reflexivity|]. apply sink_results; auto.
  - intros Hreg. exfalso. pose proof (ln_binding _ (se_listen _ _ _ _ _ _ HS Hreg) j Hj Hst). congruence.
  - eapply sinks_set; [split; eassumption|exact Hj|auto|]. eapply sink_to_state; [exact T2|exact T4|apply K2, Hj|]. auto.
  - eapply storage_good_ext; [|apply HS]. apply results_ext; [reflexivity|]. apply sink_results; auto.
  - intros Hreg. destruct (se_listen _ _ _ _ _ _ HS Hreg) as [L1 L2 L3 L4]. specialize (Hports Hreg).
    assert (Hother : forall i, 0 <= i < J -> i <> j -> sink_at j <> sink_at i) by (intros i Hi Hne E; apply Hne; symmetry; eapply pk_distinct; eauto).
    split; cbn [with_listening with_sink listening sinks].
    + intros addr Ha. rewrite owners_insert_ne by (intros E; exact (Ha j Hj (eq_sym E))). apply L1, Ha.
    + intros i Hi. rewrite zget_zset by lia. destruct (Z.eqb_spec i j) as [->|]; [discriminate|]. intros E. rewrite owners_insert_ne by auto. apply L2; assumption.
    + intros i Hi. rewrite zget_zset by lia. destruct (Z.eqb_spec i j) as [->|]; [intros _; apply owners_insert_eq|]. intros E. rewrite owners_insert_ne by auto. apply L3; assumption.
    + intros i Hi. rewrite zget_zset by lia. destruct (Z.eqb_spec i j) as [->|]; [contradiction|apply L4, Hi].
Qed.

Lemma step_sink_accepts_ok reg A R Tk En v j frames : pipeline_ok reg A R Tk En v -> (reg = true -> ports_ok) -> 0 <= j < J ->
  sink_stage (sinks v).[j] = SinkAccepting -> last_wire su (H + j) v = Some frames ->
  pipeline_ok reg A R Tk En (with_listening (delete (sink_at j) (listening v)) (with_sink j (sink_to SinkReceiving (sinks v).[j]) v)).
Proof.
  intros HS Hports Hj Hst Hl. destruct (se_sinks _ _ _ _ _ _ HS) as [K1 K2]. destruct (sink_target j Hj) as (T1 & T2 & T3 & T4).
  apply (session_rest reg A R Tk En v); auto; try apply HS.
  - eapply sinks_set; [split; eassumption|exact Hj|auto|]. eapply sink_to_state; [exact T2|exact T4|apply K2, Hj|]. auto.
  - eapply storage_good_ext; [|apply HS]. apply results_ext; [reflexivity|]. apply sink_results; auto.
  - intros Hreg. destruct (se_listen _ _ _ _ _ _ HS Hreg) as [L1 L2 L3 L4]. specialize (Hports Hreg).
    assert (Hother : forall i, 0 <= i < J -> i <> j -> sink_at j <> sink_at i) by (intros i Hi Hne E; apply Hne; symmetry; eapply pk_distinct; eauto).
    split; cbn [with_listening with_sink listening sinks].
    + intros addr Ha. rewrite owners_delete_ne by (intros E; exact (Ha j Hj (eq_sym E))). apply L1, Ha.
    + intros i Hi. rewrite zget_zset by lia. destruct (Z.eqb_spec i j) as [->|]; [discriminate|]. intros E. rewrite owners_delete_ne by auto. apply L2; assumption.
    + intros i Hi. rewrite zget_zset by lia. destruct (Z.eqb_spec i j) as [->|]; [discriminate|]. intros E. rewrite owners_delete_ne by auto. apply L3; assumption.
    + intros i Hi. rewrite zget_zset by lia. destruct (Z.eqb_spec i j) as [->|]; [|apply L4, Hi]. intros _ _. unfold last_wire in *. cbn [chains]. congruence.
Qed.

Lemma step_sink_takes_ok reg A R Tk En fault v j frame rest s' : pipeline_ok reg A R Tk En v -> (reg = true -> fault = false) -> 0 <= j < J ->
  last_wire su (H + j) v = Some (frame :: rest) -> sink_step bs T (sink_request su (H + j)) fault (Some frame) (sinks v).[j] s' ->
  exists A' R' Tk' En', pipeline_ok reg A' R' Tk' En' (with_sink j s' (set_last_wire su (H + j) rest v)).
Proof.
  intros HS Hf Hj Hl Hst. assert (Hc : 0 <= H + j < C) by (rewrite chain_count; unfold hub_count; lia). set (c := H + j) in *.
  destruct (se_sinks _ _ _ _ _ _ HS) as [K1 K2]. destruct (sink_target j Hj) as (T1 & T2 & T3 & T4). destruct (sink_dims j Hj) as [D1 D2].
  fold c in T1, T2, T3, T4, D1, D2.
  destruct (sink_step_stage _ _ _ _ _ _ _ Hst) as (E1 & E2 & E3 & E4).
  destruct (last_taken _ _ _ _ _ _ c frame rest HS Hc Hl) as (r' & t' & H1 & H2 & H3 & H4).
  assert (Hs' : sink_state bs T (sink_request su c) (stgt j) reg r' t' s').
  { eapply (sink_step_state bs T _ (slot c) (cv c) (stgt j) T1 T2 T3 T4 reg (at_end R c) r' (at_end Tk c) t' fault (Some frame)); [apply K2, Hj| | |exact Hst].
    - unfold next_sent. rewrite D1, D2. exact H1.
    - rewrite D1. intros Hreg. split; [auto|]. intros e [= ->]. eapply H2; auto. }
  exists (set_at c (A c) A), (set_at c (set_at (M c - 1) r' (R c)) R), (set_at c (set_at (M c - 1) t' (Tk c)) Tk), (set_at c (En c) En).
  apply (session_chain reg A R Tk En v c _ _ _ _ _ (hub v) (sinks v).[j <- s']); auto.
  - eapply hub_part_ext; [|apply HS]. intros c' Hc'. rewrite !at_end_set. destruct (Z.eqb_spec c' c); [lia|auto].
  - eapply sinks_set; [split; eassumption|exact Hj| |].
    + intros i Hi Hne. rewrite !at_end_set. destruct (Z.eqb_spec (H + i) c); [lia|auto].
    + fold c. rewrite !at_end_set, Z.eqb_refl, !set_at_eq. exact Hs'.
  - apply sink_results; assumption.
  - intros Hreg i Hi. rewrite zget_zset by lia. destruct (Z.eqb_spec i j) as [->|]; [right|left; reflexivity]. split; [split; assumption|].
    specialize (Hf Hreg). split; intros E; specialize (E4 ltac:(tauto)); congruence.
Qed.

(** A data node got a stream. *)
Lemma repair_at_hub t : 0 <= t < f -> repair_node t = (rb_replaced (rq_base q)).[t] /\ repair_key t = (rb_failed_keys (rq_base q)).[t] /\ repair_block t = tgt t.
Proof. intros Ht. unfold repair_node, repair_key, repair_block. destruct (Z.ltb_spec t f); [auto|lia]. Qed.

Lemma repair_at_sink j : 0 <= j -> let fields := rq_chain (sink_request su (H + j)) in
  repair_node (f + j) = rc_local_replaced_node fields /\ repair_key (f + j) = rc_local_failed_block_key fields /\ repair_block (f + j) = stgt j.
Proof.
  intros Hj fields. unfold repair_node, repair_key, repair_block. destruct (Z.ltb_spec (f + j) f); [lia|]. replace (f + j - f) with j by lia. auto.
Qed.

Lemma losses_nonneg : 0 <= f.
Proof. unfold hub_f. lia. Qed.

Lemma repair_block_len a : 0 <= a < f + J -> zlen (repair_block a) = bs.
Proof.
  intros Ha. rewrite <- Hbs. unfold repair_block. destruct (Z.ltb_spec a f); [apply Htgt; lia|apply Hstgt; lia].
Qed.

Lemma link_holds_writes l : link_holds su l = true -> write_holds bs l.
Proof. unfold link_holds, write_holds. intros E. breflect. auto. Qed.

(** The stream of target [a] has ended. *)
Lemma stream_stored reg v a l streamed done st : good (repair_result v) (storage v) -> 0 <= a < f + J -> repair_result v a = None ->
  (exists k, streamed = ztake k (repair_block a)) -> (reg = true -> streamed = repair_block a /\ link_holds su l = true) ->
  RecoveryToDatanodeBreakdown bs l (repair_key a) streamed (repair_node a) (storage v) = (done, st) ->
  good (set_at a (Some done) (repair_result v)) st /\ (reg = true -> done = true).
Proof.
  intros Hg Ha Hnone [k ->] Hreg E. pose proof (repair_block_len a Ha) as Hlen. split.
  - eapply store_good; eauto. apply repair_block_len.
  - intros Hr. destruct (Hreg Hr) as [Hall Hl]. rewrite Hall, <- (ztake_all (repair_block a) bs) in E by lia.
    eapply store_good in E as [_ E]; eauto using repair_block_len. apply E; [apply link_holds_writes, Hl|lia].
Qed.

Lemma step_store_ok reg A R Tk En v t l done st : pipeline_ok reg A R Tk En v -> (reg = true -> link_holds su l = true) -> 0 <= t < f ->
  let ws := (write_streams (hub_out (hub v))).[t] in hw_open ws = false -> hw_recovery_result ws = None ->
  RecoveryToDatanodeBreakdown bs l (rb_failed_keys (rq_base q)).[t] (hw_streamed ws) (rb_replaced (rq_base q)).[t] (storage v) = (done, st) ->
  pipeline_ok reg A R Tk En (with_storage st (with_hub (with_stream t (answer_stream done ws) (hub v)) v)).
Proof.
  intros HS Hl Ht ws Hopen Hres E. assert (HH : 0 < H).
  { destruct (Z.eq_dec H 0) as [E0|]; [|unfold hub_count in *; lia]. destruct (proj2 (se_hub _ _ _ _ _ _ HS) E0) as [_ Ho]. specialize (Ho t Ht). subst ws. congruence. }
  pose proof (proj1 (se_hub _ _ _ _ _ _ HS) HH) as Hh. destruct (repair_at_hub t Ht) as (R1 & R2 & R3).
  assert (Hr : repair_result v t = None) by (unfold repair_result; destruct (Z.ltb_spec t f); [exact Hres|lia]).
  rewrite <- R1, <- R2 in E.
  destruct (stream_stored reg v t l (hw_streamed ws) done st (se_storage _ _ _ _ _ _ HS) ltac:(lia) Hr) as [Hg' Hd]; [| |exact E|].
  { rewrite R3. eapply stream_sent; eauto. }
  { intros ->. rewrite R3. split; [eapply stream_sent_all; eauto|auto]. }
  apply (session_rest reg A R Tk En v); [exact HS| |apply HS| |].
  - apply hub_part_some; [exact HH|]. eapply answer_state; eauto.
  - eapply storage_good_ext; [|exact Hg']. intros a Ha. unfold set_at, repair_result. cbn [with_storage with_hub hub sinks].
    destruct (Z.ltb_spec a f), (Z.eqb_spec a t); try lia; try reflexivity; unfold stream_result; cbn [with_stream with_out hub_out write_streams].
    + subst a. rewrite zget_zset_eq by (rewrite (oo_streams_len _ _ _ _ _ _ _ (hs_out _ _ _ _ _ _ _ _ _ _ _ (proj1 Hh))); exact Ht). reflexivity.
    + rewrite zget_zset_ne by congruence. reflexivity.
  - intros Hreg. apply (listen_same v); auto. apply (se_listen _ _ _ _ _ _ HS Hreg).
Qed.

Lemma step_store_sink_ok reg A R Tk En v j l done st : pipeline_ok reg A R Tk En v -> (reg = true -> link_holds su l = true) -> 0 <= j < J ->
  let s := (sinks v).[j] in sink_stage s = SinkFlushed \/ sink_stage s = SinkFailed -> sink_recovery_result s = None ->
  let fields := rq_chain (sink_request su (H + j)) in
  RecoveryToDatanodeBreakdown bs l (rc_local_failed_block_key fields) (sink_streamed s) (rc_local_replaced_node fields) (storage v) = (done, st) ->
  pipeline_ok reg A R Tk En (with_storage st (with_sink j (answer_sink done s) v)).
Proof.
  intros HS Hl Hj s Hst Hres fields E. destruct (se_sinks _ _ _ _ _ _ HS) as [K1 K2]. pose proof (K2 j Hj) as Hs.
  destruct (repair_at_sink j ltac:(lia)) as (R1 & R2 & R3). subst fields. pose proof losses_nonneg as Hf0.
  assert (Hr : repair_result v (f + j) = None).
  { unfold repair_result. destruct (Z.ltb_spec (f + j) f); [lia|]. replace (f + j - f) with j by lia. exact Hres. }
  rewrite <- R1, <- R2 in E.
  destruct (stream_stored reg v (f + j) l (sink_streamed s) done st (se_storage _ _ _ _ _ _ HS) ltac:(lia) Hr) as [Hg' Hd]; [| |exact E|].
  { rewrite R3. apply (sk_prefix _ _ _ _ _ _ _ (proj1 Hs)). }
  { intros Hreg. rewrite R3. split; [|auto]. destruct Hst as [Hst|Hst]; [apply (sk_flushed _ _ _ _ _ _ _ (proj1 Hs) Hst)|].
    destruct (proj2 Hs Hreg) as [Hnf _ _ _]. contradiction. }
  apply (session_rest reg A R Tk En v); [exact HS|apply HS| | |].
  - eapply sinks_set; [split; eassumption|exact Hj|auto|]. apply sink_answer_state; auto.
  - eapply storage_good_ext; [|exact Hg']. intros a Ha. unfold set_at, repair_result. cbn [with_storage with_sink hub sinks].
    destruct (Z.ltb_spec a f), (Z.eqb_spec a (f + j)); try lia; try reflexivity.
    + subst a. replace (f + j - f) with j by lia. rewrite zget_zset_eq by lia. reflexivity.
    + rewrite zget_zset_ne by lia. reflexivity.
  - intros Hreg. destruct (se_listen _ _ _ _ _ _ HS Hreg) as [L1 L2 L3 L4].
    assert (Hlate : late s) by (split; intros E'; destruct Hst as [Hst|Hst]; congruence).
    split; cbn [with_storage with_sink listening sinks].
    + exact L1.
    + intros i Hi. rewrite zget_zset by lia. destruct (Z.eqb_spec i j) as [->|]; [intros E'; destruct (proj1 Hlate E')|apply L2, Hi].
    + intros i Hi. rewrite zget_zset by lia. destruct (Z.eqb_spec i j) as [->|]; [intros E'; destruct (proj2 Hlate E')|apply L3, Hi].
    + intros i Hi. rewrite zget_zset by lia. destruct (Z.eqb_spec i j) as [->|]; [intros _ _; apply (L4 j Hi); apply Hlate|apply (L4 i Hi)].
Qed.

(** Every step keeps the state in order. *)
Lemma pipeline_step_ok reg A R Tk En fault v v' : pipeline_ok reg A R Tk En v -> (reg = true -> fault = false /\ ports_ok) ->
  session_step su inverse fault v v' -> exists A' R' Tk' En', pipeline_ok reg A' R' Tk' En' v'.
Proof.
  intros HS Hreg Hst. assert (Hf : reg = true -> fault = false) by (intros E; apply (Hreg E)). assert (Hp : reg = true -> ports_ok) by (intros E; apply (Hreg E)).
  destruct Hst as [c fault ch' v Hc Hs|fault h' v Hs|ci frames v Hci Hrun l Hl Hlast|ci frame rest h' v Hci Hrun Hlast Hs|j fault s' v Hj Hs|j v Hj Hs c addr
    |j frames v Hj Hs c Hlast|j fault frame rest s' v Hj c Hlast Hs|t l done st v Ht ws Hfull Hopen Hres E|j l done st v Hj c s Hfull Hs Hres fields E].
  - eapply step_chain_ok; eauto.
  - exists A, R, Tk, En. eapply step_hub_ok; eauto.
  - exists A, R, Tk, En. apply step_accepts_ok; auto.
  - eapply step_takes_ok; eauto.
  - exists A, R, Tk, En. eapply step_sink_ok; eauto.
  - exists A, R, Tk, En. apply step_binds_ok; auto.
  - exists A, R, Tk, En. eapply step_sink_accepts_ok; eauto.
  - eapply step_sink_takes_ok; eauto.
  - exists A, R, Tk, En. eapply step_store_ok; eauto. intros E'. apply negb_false_iff. auto.
  - exists A, R, Tk, En. eapply step_store_sink_ok; eauto. intros E'. apply negb_false_iff. auto.
Qed.

(** ** Termination *)

Definition chains_weight (cs : list Chain) : Z := sum_below C (fun c => chain_weight bs T (M c) (req c) cs.[c]).
Definition sinks_weight (ss : list Sink) : Z := sum_below J (fun j => sink_weight ss.[j]).
Definition hub_share (h : Hub) : Z := if 0 <? H then hub_weight bs T W q h else 0.
Definition pipeline_weight (v : Session) : Z := chains_weight (chains v) + hub_share (hub v) + sinks_weight (sinks v).

Lemma chains_weight_set c ch' cs : 0 <= c < C -> zlen cs = C ->
  chains_weight cs.[c <- ch'] = chains_weight cs + (chain_weight bs T (M c) (req c) ch' - chain_weight bs T (M c) (req c) cs.[c]).
Proof.
  intros Hc Hl. unfold chains_weight. rewrite (sum_below_change C (fun c => chain_weight bs T (M c) (req c) cs.[c]) _ c Hc).
  - rewrite zget_zset_eq by lia. reflexivity.
  - intros i Hi. rewrite zget_zset_ne by congruence. reflexivity.
Qed.

Lemma sinks_weight_set j s' ss : 0 <= j < J -> zlen ss = J -> sinks_weight ss.[j <- s'] = sinks_weight ss + (sink_weight s' - sink_weight ss.[j]).
Proof.
  intros Hj Hl. unfold sinks_weight. rewrite (sum_below_change J (fun j => sink_weight ss.[j]) _ j Hj).
  - rewrite zget_zset_eq by lia. reflexivity.
  - intros i Hi. rewrite zget_zset_ne by congruence. reflexivity.
Qed.

(** A frame leaves the last connection of a chain. *)
Lemma taken_chains_weight reg A R Tk En v c frame rest : pipeline_ok reg A R Tk En v -> 0 <= c < C -> last_wire su c v = Some (frame :: rest) ->
  chains_weight (chains (set_last_wire su c rest v)) = chains_weight (chains v) - 2.
Proof.
  intros HS Hc Hl. unfold set_last_wire, with_chain. cbn [chains]. rewrite chains_weight_set by (exact Hc || apply HS).
  rewrite (taken_weight bs T (M c) (req c) (roles_some c) _ frame rest); [lia| |exact Hl].
  exact (co_wires_len _ _ _ _ _ _ _ _ _ _ _ _ _ _ (proj1 (se_chain _ _ _ _ _ _ HS c Hc))).
Qed.

Lemma hub_share_less reg r t h h' : hub_returned h = None -> hub_part reg r t h ->
  hub_weight bs T W q h' < hub_weight bs T W q h -> hub_share h' < hub_share h.
Proof. intros E Hh Hlt. destruct (hub_runs h E reg r t Hh) as [HH _]. unfold hub_share. destruct (Z.ltb_spec 0 H); lia. Qed.

Lemma pipeline_step_weight reg A R Tk En fault v v' : pipeline_ok reg A R Tk En v -> session_step su inverse fault v v' -> pipeline_weight v' < pipeline_weight v.
Proof.
  intros HS Hst. pose proof (se_hub _ _ _ _ _ _ HS) as Hh. destruct (se_sinks _ _ _ _ _ _ HS) as [K1 K2]. pose proof (se_len _ _ _ _ _ _ HS) as Hlen. unfold pipeline_weight.
  destruct Hst as [c fault ch' v Hc Hs|fault h' v Hs|ci frames v Hci Hrun l Hl Hlast|ci frame rest h' v Hci Hrun Hlast Hs|j fault s' v Hj Hs|j v Hj Hs c addr
    |j frames v Hj Hs c Hlast|j fault frame rest s' v Hj c Hlast Hs|t l done st v Ht ws Hfull Hopen Hres E|j l done st v Hj c s Hfull Hs Hres fields E];
    cbn [with_chain with_hub with_sink with_storage chains hub sinks].
  - rewrite chains_weight_set by assumption.
    pose proof (chain_step_weight bs T W oph c (M c) _ (req c) (src c) n w (slot c) (roles_some c) _ _ _ _ _ _ _ _ _ _ (se_chain _ _ _ _ _ _ HS c Hc) Hs). lia.
  - pose proof (hub_step_running _ _ _ _ Hs) as Hrun. destruct (hub_runs _ Hrun _ _ _ Hh) as [HH [Hok _]].
    pose proof (hub_share_less _ _ _ _ h' Hrun Hh (hub_step_weight bs T W q inverse hub_block cv rec tgt Hn _ _ _ _ _ _ Hok Hs)). lia.
  - destruct (hub_runs _ Hrun _ _ _ Hh) as [HH Hok].
    destruct (accept_state bs T W q hub_block cv rec tgt Hn reg _ _ _ ci Hok ltac:(rewrite hub_chain_count; exact Hci) Hl) as [_ Hlt].
    pose proof (hub_share_less _ _ _ _ _ Hrun Hh Hlt). unfold l. unfold accepted in *. lia.
  - destruct (hub_runs _ Hrun _ _ _ Hh) as [HH [Hok _]].
    rewrite (taken_chains_weight reg A R Tk En v ci frame rest HS ltac:(rewrite chain_count; lia) Hlast).
    pose proof (listener_step_weight bs T W q hub_block ci (hub v) (Some frame) h' ltac:(rewrite hub_chain_count; exact Hci)
      (io_listeners_len _ _ _ _ _ _ _ _ _ (hs_in _ _ _ _ _ _ _ _ _ _ _ Hok)) Hs) as Hlt.
    unfold hub_share. destruct (Z.ltb_spec 0 H); [|lia]. unfold set_last_wire. cbn [with_chain hub sinks]. cbv iota in Hlt. lia.
  - rewrite sinks_weight_set by assumption. pose proof Hs as Hlt. apply (sink_step_weight _ _ _ []) in Hlt. cbv iota in Hlt. lia.
  - destruct (listening v !! addr); cbn [with_listening with_sink chains hub sinks]; rewrite sinks_weight_set by assumption;
      match goal with |- context [sink_to ?st _] => pose proof (sink_to_weight [] st (sinks v).[j]) as Hlt end; rewrite Hs in Hlt; cbn in Hlt; lia.
  - cbn [with_listening with_sink chains hub sinks]. rewrite sinks_weight_set by assumption.
    pose proof (sink_to_weight [] SinkReceiving (sinks v).[j]) as Hlt. rewrite Hs in Hlt. cbn in Hlt. lia.
  - rewrite (taken_chains_weight reg A R Tk En v c frame rest HS ltac:(subst c; rewrite chain_count; unfold hub_count; lia) Hlast).
    unfold set_last_wire. cbn [with_chain hub sinks]. rewrite sinks_weight_set by assumption. pose proof Hs as Hlt. apply (sink_step_weight _ _ _ []) in Hlt. cbv iota in Hlt. lia.
  - assert (HH : 0 < H).
    { destruct (Z.eq_dec H 0) as [E0|]; [|unfold hub_count in *; lia]. destruct (proj2 Hh E0) as [_ Ho]. specialize (Ho t Ht). subst ws. congruence. }
    assert (Hok : hub_state bs T W q hub_block cv rec tgt false (at_end R) (at_end Tk) (hub v))
      by (destruct (proj1 Hh HH) as [Ho _]; split; [exact Ho|discriminate]).
    assert (Hd : false = true -> done = true) by discriminate.
    destruct (answer_state bs T W q hub_block cv rec tgt false _ _ t done (hub v) Hok Ht Hres Hd) as [_ Hlt].
    unfold hub_share. destruct (Z.ltb_spec 0 H); [|lia]. fold ws in Hlt. lia.
  - rewrite sinks_weight_set by assumption. pose proof (sink_answer_weight [] done _ Hres). fold s. lia.
Qed.

Lemma pipeline_weight_nonneg reg A R Tk En v : pipeline_ok reg A R Tk En v -> 0 <= pipeline_weight v.
Proof.
  intros HS. unfold pipeline_weight. assert (Hw1 : 0 <= chains_weight (chains v)).
  { apply sum_below_nonneg. intros c Hc. eapply (chain_weight_nonneg bs T W (M c) (req c) (src c) n w (slot c)); [apply roles_some|apply chain_dims, Hc|].
    apply (se_chain _ _ _ _ _ _ HS c Hc). }
  assert (Hw2 : 0 <= hub_share (hub v)).
  { unfold hub_share. destruct (Z.ltb_spec 0 H) as [HH|]; [|lia]. destruct (proj1 (se_hub _ _ _ _ _ _ HS) HH) as [Hok _].
    eapply hub_weight_nonneg; eauto. }
  assert (Hw3 : 0 <= sinks_weight (sinks v)) by (apply sum_below_nonneg; intros j Hj; apply (sink_weight_nonneg [])). lia.
Qed.

Notation session := (session_step su inverse).

Lemma pipeline_bounded A R Tk En k v v' : pipeline_ok false A R Tk En v -> nsteps (fun a b => exists fault, session fault a b) k v v' ->
  Z.of_nat k <= pipeline_weight v.
Proof.
  intros HS Hr. revert A R Tk En HS. induction Hr as [v|k a b c [fault Hst] _ IH]; intros A R Tk En HS; [apply (pipeline_weight_nonneg _ _ _ _ _ _ HS)|].
  pose proof (pipeline_step_weight _ _ _ _ _ _ _ _ HS Hst).
  destruct (pipeline_step_ok _ _ _ _ _ _ _ _ HS ltac:(discriminate) Hst) as (A' & R' & Tk' & En' & HS'). specialize (IH _ _ _ _ HS'). lia.
Qed.

(** Runs with and without faults. *)
Lemma pipeline_run_ok v v' : (exists A R Tk En, pipeline_ok false A R Tk En v) -> rtc (fun a b => exists fault, session fault a b) v v' ->
  exists A R Tk En, pipeline_ok false A R Tk En v'.
Proof.
  intros HS Hr. induction Hr as [|a b c [fault Hst] _ IH]; [exact HS|]. destruct HS as (A & R & Tk & En & HS).
  apply IH. eapply pipeline_step_ok; eauto. discriminate.
Qed.

Lemma session_regular_run v v' : ports_ok -> (exists A R Tk En, pipeline_ok true A R Tk En v) -> rtc (session false) v v' ->
  exists A R Tk En, pipeline_ok true A R Tk En v'.
Proof.
  intros Hp HS Hr. induction Hr as [|a b c Hst _ IH]; [exact HS|]. destruct HS as (A & R & Tk & En & HS).
  apply IH. eapply pipeline_step_ok; eauto.
Qed.

Lemma session_regular_end v : ports_ok -> (exists A R Tk En, pipeline_ok true A R Tk En v) ->
  exists v', rtc (session false) v v' /\ forall v'', ~ session false v' v''.
Proof.
  intros Hp HS. assert (Hb : exists k, pipeline_weight v <= Z.of_nat k) by (exists (Z.to_nat (pipeline_weight v)); lia). destruct Hb as [k Hk].
  revert v HS Hk. induction k as [|k IH]; intros v (A & R & Tk & En & HS) Hk.
  - exists v. split; [apply rtc_refl|]. intros v' Hst. pose proof (pipeline_step_weight _ _ _ _ _ _ _ _ HS Hst).
    destruct (pipeline_step_ok _ _ _ _ _ _ _ _ HS ltac:(auto) Hst) as (A' & R' & Tk' & En' & HS'). pose proof (pipeline_weight_nonneg _ _ _ _ _ _ HS'). lia.
  - destruct (classic (exists v', session false v v')) as [[v' Hst]|Hno].
    + pose proof (pipeline_step_weight _ _ _ _ _ _ _ _ HS Hst).
      destruct (IH v') as (v'' & Hr & Hend); [eapply pipeline_step_ok; eauto|lia|]. exists v''. split; [eapply rtc_l; eauto|exact Hend].
    + exists v. split; [apply rtc_refl|]. intros v' Hst. apply Hno. eauto.
Qed.

(** ** The start *)

Record startable (proxies : gset string) (admitted : option (list byte)) : Prop := {
  sb_hub : 0 < H -> proxy_name (hub_proxy su) ∈ proxies /\ is_Some admitted;
  sb_role : forall c i, 0 <= c < C -> 0 <= i < M c -> proxy_name (hop_proxy su c i) ∈ proxies /\ valid_geometry (view bs T (req c i)) bs = true;
  sb_hops : forall c, 0 <= c < C -> 0 < zlen (hops (all_chains su).[c]);
  sb_sink : forall j, 0 <= j < J -> let q' := sink_request su (H + j) in proxy_name (sink_proxy su (H + j)) ∈ proxies /\
    (head_hops q' >? 0) && valid_geometry (view bs T q') bs && pipeline_chain_is_local_direct q' && (snd (rc_local_replaced_node (rq_chain q')) >? 0) = true }.

Lemma role_hops c i : head_hops (req c i) = zlen (hops (all_chains su).[c]).
Proof. unfold role_request. destruct (i =? 0); unfold head_hops; cbn; rewrite length_map; reflexivity. Qed.

Definition first_sink (proxies : gset string) (j : Z) : Sink :=
  start_sink bs T (bool_decide (proxy_name (sink_proxy su (H + j)) ∈ proxies)) (sink_request su (H + j)).

Lemma start_session_ok reg proxies admitted : (H = 0 -> admitted = None) -> (reg = true -> startable proxies admitted /\ ports_ok) ->
  pipeline_ok reg (fun _ _ => 0) (fun _ _ => 0) (fun _ _ => false) (fun _ _ => false) (start_session su proxies admitted listening0 st0).
Proof.
  intros Hadm Hreg. assert (Hlen : zlen (map (start_chain su proxies) (zseq C)) = C) by (rewrite length_map, zlen_seqZ; lia).
  assert (Hsl : zlen (map (first_sink proxies) (zseq J)) = J)
    by (rewrite length_map, zlen_seqZ; lia).
  assert (Esink : forall j, 0 <= j < J -> (map (first_sink proxies) (zseq J)).[j] =
            first_sink proxies j) by (intros j Hj; apply zget_map_zseq, Hj).
  assert (Hstart : reg = true -> forall j, 0 <= j < J -> sink_stage (first_sink proxies j) = SinkBinding).
  { intros Hr j Hj. destruct (Hreg Hr) as [[_ _ _ B4] _]. destruct (B4 j Hj) as [B5 B6]. unfold first_sink, start_sink. rewrite bool_decide_true by exact B5. cbn [andb]. rewrite B6. reflexivity. }
  unfold start_session. change (map (fun j => _) (zseq J)) with (map (first_sink proxies) (zseq J)). split; cbn [chains hub sinks storage listening].
  - exact Hlen.
  - intros c Hc. rewrite zget_map_zseq by exact Hc.
    apply (fresh_chain_state bs T W (M c) (req c) (src c) n w (slot c) (roles_some c) Hn (chain_dims c Hc) (fun i => bool_decide (proxy_name (hop_proxy su c i) ∈ proxies))).
    intros Hr i Hi. destruct (Hreg Hr) as [[_ B2 B3 _] _]. destruct (B2 c i Hc Hi) as [B5 B6]. specialize (B3 c Hc).
    rewrite bool_decide_true by exact B5. rewrite role_hops. do 2 (split; [auto|]). split; [|exact B3].
    unfold role_count, last_hop_server. destruct (hub_is_chain_tail _); lia.
  - split.
    + intros HH. eapply start_hub_state; eauto using never_local. intros Hr. destruct (Hreg Hr) as [[B1 _ _ _] _]. destruct (B1 HH) as [B5 B6].
      rewrite bool_decide_true by exact B5. auto.
    + intros HH. rewrite (Hadm HH). unfold start_hub. cbn [hub_returned hub_out write_streams]. rewrite andb_false_r. split; [reflexivity|].
      intros t Ht. rewrite zget_zrepeat by exact Ht. reflexivity.
  - split; [exact Hsl|]. intros j Hj. rewrite Esink by exact Hj. destruct (sink_target j Hj) as (T1 & T2 & _). apply start_sink_state; [exact T2|]. 
    intros Hr. destruct (Hreg Hr) as [[_ _ _ B4] _]. destruct (B4 j Hj) as [B5 B6]. rewrite bool_decide_true by exact B5. auto.
  - split; [intros nd _; reflexivity|]. intros a Ha. unfold repair_result. cbn [hub sinks]. destruct (Z.ltb_spec a f).
    + unfold stream_result, start_hub. cbn [hub_out write_streams]. rewrite zget_zrepeat by lia. reflexivity.
    + rewrite Esink by lia. reflexivity.
  - intros Hr. destruct (Hreg Hr) as [_ [P1 P2 P3]]. split; cbn [sinks listening].
    + reflexivity.
    + intros j Hj _. apply P2, Hj.
    + intros j Hj. rewrite Esink, (Hstart Hr) by exact Hj. discriminate.
    + intros j Hj. rewrite Esink, (Hstart Hr) by exact Hj. contradiction.
Qed.

(** ** Progress *)

(** A link that carries everything. *)
Definition sound_link : WriteLink := {| wl_connected := true; wl_arrives := bs; wl_renames := true; wl_answers := true; wl_tag := "" |}.

Lemma sound_link_holds : link_holds su sound_link = true.
Proof. unfold link_holds. cbn. rewrite Z.leb_refl. reflexivity. Qed.

Section Stuck.
Context (Hports : ports_ok) (Hfull : full_block_write (view bs T q) = true).
Context (Hfulls : forall j, 0 <= j < J -> full_block_write (view bs T (sink_request su (H + j))) = true).
Context (v : Session) (A R : Z -> Z -> Z) (Tk En : Z -> Z -> bool) (HS : pipeline_ok true A R Tk En v).
Context (Hstuck : forall v', ~ session false v v').

Lemma stuck_listens addr o : listening0 !! addr = Some o -> listening v !! addr = Some o.
Proof.
  intros E. rewrite (ln_others _ (se_listen _ _ _ _ _ _ HS eq_refl)); [exact E|]. intros j Hj ->. rewrite (pk_free Hports j Hj) in E. discriminate.
Qed.

Lemma stuck_bound j : 0 <= j < J -> sink_stage (sinks v).[j] <> SinkBinding.
Proof. intros Hj E. eapply Hstuck. apply (step_sink_binds su inverse j v Hj E). Qed.

Lemma stuck_roles c : 0 <= c < C -> forall i, 0 <= i < M c -> role_stage i (chains v).[c] = RoleReturned true.
Proof.
  intros Hc. pose proof (se_chain _ _ _ _ _ _ HS c Hc) as HC.
  destruct (chain_progress bs T W oph c (M c) (fan_in su c) (req c) (src c) n w (slot c) (roles_some c) Hw Hn (chain_dims c Hc) (chain_sources c Hc)
    (A c) (R c) (Tk c) (En c) (listening v) (storage v) (chains v).[c] HC (ready_sources v true A R Tk En c HS Hc)) as [Hall|[ch' Hst]].
  - intros i Hi Hst. destruct (pk_target Hports c i Hc Hi) as (addr & Ha & Hl). exists addr. split; [exact Ha|].
    destruct (Z.ltb_spec (i + 1) (M c)) as [|Hlast]; [apply stuck_listens, Hl|]. unfold fan_in. destruct (Z.ltb_spec c H) as [|HcH]; [apply stuck_listens, Hl|].
    rewrite Hl. assert (Hj : 0 <= c - H < J) by (rewrite chain_count in Hc; lia). replace (OwnerSink c) with (OwnerSink (H + (c - H))) by (f_equal; lia).
    destruct (se_listen _ _ _ _ _ _ HS eq_refl) as [L1 L2 L3 L4]. destruct (decide (sink_stage (sinks v).[c - H] = SinkAccepting)) as [E|E]; [apply L3; assumption|].
    exfalso. apply (L4 (c - H) Hj (stuck_bound _ Hj) E). unfold last_wire. replace (H + (c - H)) with c by lia.
    replace (M c - 1) with i by lia. apply (co_unwired _ _ _ _ _ _ _ _ _ _ _ _ _ _ (proj1 HC)); assumption.
  - intros i Hi. destruct (Hall i Hi) as [r Hr]. destruct (returned_sent _ _ _ _ _ _ _ _ _ _ _ _ _ _ _ _ HC Hi Hr) as [-> _]. exact Hr.
  - exfalso. eapply Hstuck. apply (step_chain su inverse c false ch' v Hc Hst).
Qed.

(** What was sent waits to be taken. *)
Lemma stuck_wire c : 0 <= c < C -> at_end Tk c = false -> exists frame rest r' t', last_wire su c v = Some (frame :: rest) /\
  next_frame bs T (req c) (src c) n w (slot c) (M c - 1) (at_end R c) r' (at_end Tk c) t' (Some frame).
Proof.
  intros Hc Ht. pose proof (roles_some c).
  destruct (last_link bs T W (M c) (req c) (src c) n w (slot c) (roles_some c) _ _ _ _ _ (se_chain _ _ _ _ _ _ HS c Hc)) as (frame & rest & E);
    [exists true; apply stuck_roles; [exact Hc|lia]|exact Ht|].
  destruct (last_taken _ _ _ _ _ _ c frame rest HS Hc E) as (r' & t' & H1 & _). eauto 10.
Qed.

Lemma stuck_hub : 0 < H -> hub_returned (hub v) = Some true.
Proof.
  intros HH. pose proof (proj1 (se_hub _ _ _ _ _ _ HS) HH) as Hh. destruct (hub_returned (hub v)) as [r|] eqn:Er.
  { destruct Hh as [_ HR]. destruct (HR eq_refl) as [_ _ _ G]. rewrite (G r Er). reflexivity. }
  exfalso. destruct (hub_progress bs T W q inverse hub_block slot cv rec tgt Hw Hn never_local Hblock hub_cv_len (Hdecode HH) _ _ (storage v) _ Hh Er)
    as [[h' Hst]|[(ci & Hci & Hl)|(t & Ht & Ho & Hres)]].
  - intros _. eexists. reflexivity.
  - eapply Hstuck. apply (step_hub su inverse false h' v Hst).
  - assert (Hci' : 0 <= ci < H) by (rewrite <- hub_chain_count; exact Hci). assert (Hc : 0 <= ci < C) by (rewrite chain_count; lia).
    destruct Hl as [Hl|[Ht Hl]].
    + pose proof (io_listener _ _ _ _ _ _ _ _ _ (hs_in _ _ _ _ _ _ _ _ _ _ _ (proj1 Hh)) ci Hci) as [_ He _ _ _]. destruct He as (_ & Ht & _); [rewrite Hl; unfold early; tauto|].
      destruct (stuck_wire ci Hc Ht) as (frame & rest & r' & t' & E & _). eapply Hstuck. apply (step_hub_accepts su inverse ci _ v Hci' Er Hl E).
    + destruct (stuck_wire ci Hc Ht) as (frame & rest & r' & t' & E & Hnext). destruct (Hl frame r' t' Hnext) as [h' Hst].
      eapply Hstuck. apply (step_hub_takes su inverse ci frame rest h' v Hci' Er E Hst).
  - destruct (RecoveryToDatanodeBreakdown bs sound_link (rb_failed_keys (rq_base q)).[t] (hw_streamed (write_streams (hub_out (hub v))).[t])
      (rb_replaced (rq_base q)).[t] (storage v)) as [done st] eqn:E.
    pose proof (step_store su inverse t sound_link done st v Ht Hfull Ho Hres E) as Hst. rewrite sound_link_holds in Hst. exact (Hstuck _ Hst).
Qed.

Lemma stuck_sink j : 0 <= j < J -> sink_stage (sinks v).[j] = SinkReturned true.
Proof.
  intros Hj. assert (Hc : 0 <= H + j < C) by (rewrite chain_count; unfold hub_count; lia).
  destruct (se_sinks _ _ _ _ _ _ HS) as [K1 K2]. pose proof (K2 j Hj) as Hs. destruct (sink_target j Hj) as (T1 & T2 & T3 & T4). destruct (sink_dims j Hj) as [D1 D2].
  destruct (sink_progress bs T (sink_request su (H + j)) (slot (H + j)) (cv (H + j)) (stgt j) T2 T3 _ _ _ Hs)
    as [[s' Hst]|[E|[E|[(E & Ht & Hl)|[[E Hres]|[r E]]]]]].
  - exfalso. eapply Hstuck. apply (step_sink su inverse j false s' v Hj Hst).
  - destruct (stuck_bound j Hj E).
  - exfalso. destruct (sk_early _ _ _ _ _ _ _ (proj1 Hs) (or_intror E)) as [_ Ht].
    destruct (stuck_wire (H + j) Hc Ht) as (frame & rest & r' & t' & El & _). eapply Hstuck. apply (step_sink_accepts su inverse j _ v Hj E El).
  - exfalso. destruct (stuck_wire (H + j) Hc Ht) as (frame & rest & r' & t' & El & Hnext). destruct (Hl frame r' t') as [s' Hst].
    { unfold next_sent. rewrite D1, D2. exact Hnext. }
    eapply Hstuck. apply (step_sink_takes su inverse j false frame rest s' v Hj El Hst).
  - exfalso. destruct (RecoveryToDatanodeBreakdown bs sound_link (rc_local_failed_block_key (rq_chain (sink_request su (H + j)))) (sink_streamed (sinks v).[j])
      (rc_local_replaced_node (rq_chain (sink_request su (H + j)))) (storage v)) as [done st] eqn:E'.
    pose proof (step_store_sink su inverse j sound_link done st v Hj (Hfulls j Hj) (or_introl E) Hres E') as Hst.
    rewrite sound_link_holds in Hst. exact (Hstuck _ Hst).
  - rewrite E. destruct Hs as [_ HR]. destruct (HR eq_refl) as [_ Q _ _]. rewrite (Q r E). reflexivity.
Qed.
End Stuck.

(** ** What a run leaves *)

(** All calls succeeded. *)
Lemma session_success reg A R Tk En v : pipeline_ok reg A R Tk En v -> (0 < H -> hub_returned (hub v) = Some true) ->
  (forall j, 0 <= j < J -> sink_stage (sinks v).[j] = SinkReturned true) -> (H = 0 -> f = 0) -> forall a, 0 <= a < f + J -> repair_result v a = Some true.
Proof.
  intros HS Hh Hs Hf a Ha. unfold repair_result. destruct (Z.ltb_spec a f) as [Haf|Haf].
  - assert (HH : 0 < H) by (unfold hub_count in *; lia). eapply hub_success; [apply (proj1 (se_hub _ _ _ _ _ _ HS) HH)|apply Hh, HH|lia].
  - destruct (se_sinks _ _ _ _ _ _ HS) as [K1 K2]. assert (Hj : 0 <= a - f < J) by lia.
    apply (sk_returned _ _ _ _ _ _ _ (proj1 (K2 _ Hj))), Hs, Hj.
Qed.
End Session.
