(* ===== verification/PipelineReadySpec.v ===== *)
(** READY: every listener of a plan binds its own port, and whoever connects finds
    the listener it is to find. *)
From S2P Require Import PortAllocator.
From S2P Require Import Prelude Groups LocalRepair Decode DecodeSpec RepairPlan PipelineCodec PipelinePlan PipelineSession Text.
From S2P Require Import Toolbox Placement Coordinator AppendPlan Client DataNode ProxyAppend ReadPath SingleRepair MultiRecovery PipelineMessages PipelineRun.
From S2P Require Import PipelineRunSpec PipelineChainSpec PipelineHubSpec PipelineSinkSpec PipelineSessionSpec.

(** * Lists of lists *)

Lemma concat_nodup {A} (ll : list (list A)) : NoDup (concat ll) ->
  (forall i l, ll !! i = Some l -> NoDup l) /\
  forall i j l l' x, ll !! i = Some l -> ll !! j = Some l' -> x ∈ l -> x ∈ l' -> i = j.
Proof.
  induction ll as [|l0 ll IH]; intros Hn; cbn [concat] in Hn; [split; intros; discriminate|].
  apply NoDup_app in Hn as (H1 & H2 & H3). destruct (IH H3) as [I1 I2].
  assert (Hin : forall j l' x, ll !! j = Some l' -> x ∈ l' -> x ∈ concat ll).
  { intros j l' x Hj Hx. apply list_elem_of_In, in_concat. exists l'. split; [|apply list_elem_of_In, Hx]. apply list_elem_of_In, list_elem_of_lookup. eauto. }
  split.
  - intros [|i] l E; [injection E as <-; exact H1|apply (I1 i l E)].
  - intros [|i] [|j] l l' x E E' Hx Hx'; cbn in E, E'; auto.
    + injection E as <-. destruct (H2 x Hx). eauto.
    + injection E' as <-. destruct (H2 x Hx'). eauto.
    + f_equal. eauto.
Qed.

Lemma concat_map_nodup {A B} (g : A -> list B) l : NoDup l -> (forall x, x ∈ l -> NoDup (g x)) ->
  (forall x y b, x ∈ l -> y ∈ l -> b ∈ g x -> b ∈ g y -> x = y) -> NoDup (concat (map g l)).
Proof.
  induction 1 as [|x l Hx Hn IH]; intros H1 H2; cbn [map concat]; [constructor|].
  apply NoDup_app. split; [apply H1; left|]. split; [|apply IH; [intros; apply H1; right; assumption|intros y y' b Hy Hy'; apply H2; right; assumption]].
  intros b Hb Hin. apply list_elem_of_In, in_concat in Hin as (gl & Hgl & Hin). apply in_map_iff in Hgl as (y & <- & Hy).
  apply Hx. rewrite (H2 x y b); auto using list_elem_of_here; [apply list_elem_of_In, Hy|right; apply list_elem_of_In, Hy|apply list_elem_of_In, Hin].
Qed.

(** * Binding *)

Lemma bind_all_app b1 b2 l : bind_all (b1 ++ b2) l = l' ← bind_all b1 l; bind_all b2 l'.
Proof. revert l. induction b1 as [|[addr o] b1 IH]; intros l; [reflexivity|]. cbn [app bind_all]. destruct (l !! addr); [reflexivity|apply IH]. Qed.

(** Addresses that are free and different can all be bound. *)
Lemma bind_all_free binds : forall l : Owners, NoDup (map fst binds) -> (forall x, x ∈ binds -> l !! fst x = None) ->
  exists l', bind_all binds l = Some l' /\ (forall x, x ∈ binds -> l' !! fst x = Some (snd x)) /\
    forall addr, addr ∉ map fst binds -> l' !! addr = l !! addr.
Proof.
  induction binds as [|[addr o] binds IH]; intros l Hn Hf; cbn [map fst bind_all] in *.
  - exists l. split; [reflexivity|]. split; [intros x Hx; inversion Hx|auto].
  - apply NoDup_cons in Hn as [Hni Hn]. pose proof (Hf (addr, o) (list_elem_of_here _ _)) as Hfree. cbn [fst] in Hfree. rewrite Hfree.
    destruct (IH (<[addr := o]> l) Hn) as (l' & E1 & E2 & E3).
    { intros x Hx. rewrite owners_insert_ne; [apply Hf; right; exact Hx|]. intros ->. apply Hni, list_elem_of_In, in_map, list_elem_of_In, Hx. }
    exists l'. split; [exact E1|]. split.
    + intros x Hx. apply elem_of_cons in Hx as [->|Hx]; [|apply E2, Hx]. cbn [fst snd]. rewrite E3 by exact Hni. apply owners_insert_eq.
    + intros a Ha. apply not_elem_of_cons in Ha as [Hne Ha]. rewrite E3 by exact Ha. apply owners_insert_ne. congruence.
Qed.

(** Calls that reach their proxies bind one after the other. *)
Lemma run_ready_binds su proxies unready order : forall l l', (forall r, r ∈ order -> proxy_name (ready_proxy su r) ∈ proxies /\ unready r = false) ->
  bind_all (concat (map (ready_binds su) order)) l = Some l' -> run_ready su proxies unready order l = (l', true).
Proof.
  induction order as [|r order IH]; intros l l' Hr E; cbn [map concat run_ready] in *; [injection E as ->; reflexivity|].
  destruct (Hr r (list_elem_of_here _ _)) as [H1 H2]. rewrite bool_decide_true by exact H1. rewrite H2. cbn [negb orb].
  rewrite bind_all_app in E. destruct (bind_all (ready_binds su r) l) as [l1|]; [|discriminate]. apply IH; [|exact E].
  intros r' Hr'. apply Hr. right. exact Hr'.
Qed.

Lemma omap_all {A B} (g : A -> option B) (h : A -> B) l : (forall x, x ∈ l -> g x = Some (h x)) -> omap g l = map h l.
Proof.
  induction l as [|x l IH]; intros Hg; [reflexivity|]. cbn. rewrite (Hg x) by apply list_elem_of_here. f_equal. apply IH. intros y Hy. apply Hg. right. exact Hy.
Qed.

Lemma filter_true {A} (P : A -> bool) l : (forall x, In x l -> P x = true) -> List.filter P l = l.
Proof. induction l as [|x l IH]; intros HP; [reflexivity|]. cbn. rewrite HP by (left; reflexivity). f_equal. apply IH. intros y Hy. apply HP. right. exact Hy. Qed.

(** * The listeners of a plan *)

Section Ready.
Context (su : PipelineSetup).
Notation oph := (su_one_proxy_per_host su).
Notation plan := (su_plan su).
Notation H := (hub_count su).
Notation J := (zlen (local_direct_chains plan)).
Notation C := (zlen (all_chains su)).
Notation M := (role_count su).
Notation chain c := (all_chains su).[c].

(** The ports of chain [c]. *)
Definition ports_of (c : Z) : GlrcPipelineChainPorts := default {| hop_listen_ports := []; hub_listen_port := 0 |} (su_ports su !! chain_id (chain c)).

(** Where hop [i] of chain [c] listens, and where its frames end up. *)
Definition hop_addr (c i : Z) : string * Z := (hop_proxy_ip (hops (chain c)).[i], (hop_listen_ports (ports_of c)).[i]).
Definition fan_addr (c : Z) : string * Z :=
  (if c <? H then hub_proxy_ip plan else local_direct_sink_proxy_ip (chain c), hub_listen_port (ports_of c)).

(** The hub's chains, the local ones, and the ports of all. *)
Record well_listening : Prop := {
  wl_hub : forall c, 0 <= c < H -> local_direct (chain c) = false /\ 2 <= zlen (hops (chain c));
  wl_sink : forall c, H <= c < C -> local_direct (chain c) = true /\ hub_is_chain_tail (chain c) = false /\ 0 < zlen (hops (chain c)) /\
    local_direct_failed_block_key (chain c) <> ""%string /\ local_direct_sink_proxy_ip (chain c) <> ""%string;
  wl_ports : forall c, 0 <= c < C -> su_ports su !! chain_id (chain c) = Some (ports_of c) /\
    zlen (hop_listen_ports (ports_of c)) = zlen (hops (chain c)) /\
    (forall i, 0 <= i < zlen (hops (chain c)) -> 0 < (hop_listen_ports (ports_of c)).[i]) /\ 0 < hub_listen_port (ports_of c) }.

(** No two listen at one address. *)
Record apart : Prop := {
  ap_hop : forall c i c' i', 0 <= c < C -> 0 <= c' < C -> 0 <= i < zlen (hops (chain c)) -> 0 <= i' < zlen (hops (chain c')) ->
    hop_addr c i = hop_addr c' i' -> c = c' /\ i = i';
  ap_fan : forall c c', 0 <= c < C -> 0 <= c' < C -> fan_addr c = fan_addr c' -> c = c';
  ap_mix : forall c i c', 0 <= c < C -> 0 <= c' < C -> 0 <= i < zlen (hops (chain c)) -> hop_addr c i <> fan_addr c' }.

Context (HW : well_listening).

Lemma chains_split : C = H + J /\ 0 <= H.
Proof. split; [apply all_chains_len|]. unfold hub_count. lia. Qed.

Lemma some_hops c : 0 <= c < C -> 0 < zlen (hops (chain c)).
Proof.
  intros Hc. destruct (Z.lt_ge_cases c H) as [Hlt|Hge]; [destruct (wl_hub HW c ltac:(lia)); lia|apply (wl_sink HW c ltac:(lia))].
Qed.

Lemma roles_below c : 0 <= c < C -> 1 <= M c <= zlen (hops (chain c)).
Proof. intros Hc. pose proof (some_hops c Hc). unfold role_count, last_hop_server. destruct (hub_is_chain_tail _); lia. Qed.

Lemma hop_binds c i : 0 <= c < C -> 1 <= i < zlen (hops (chain c)) -> ready_binds su (ReadyHop c i) = [(hop_addr c i, OwnerHop c i)].
Proof.
  intros Hc Hi. destruct (wl_ports HW c Hc) as (E & L & P & _). specialize (P i ltac:(lia)).
  unfold ready_binds, hop_addr, hop_proxy. cbv zeta. cbn [fst snd]. do 3 f_equal.
  unfold resolve_my_hop_bind_port, chain_request, fill_pipeline_chain_fields. cbn [rq_chain rc_my_listen_port]. rewrite E, L.
  cbn [bool_decide orb decide_rel]. rewrite !Z.gtb_ltb. rewrite bool_decide_true by reflexivity. cbn [orb].
  destruct (Z.leb_spec 0 i), (Z.ltb_spec i (zlen (hops (chain c)))); try lia. cbn [andb]. destruct (Z.ltb_spec 0 (hop_listen_ports (ports_of c)).[i]); [reflexivity|lia].
Qed.

Lemma hub_binds : ready_binds su ReadyHub = map (fun c => (fan_addr c, OwnerHub c)) (zseq H).
Proof.
  unfold ready_binds, hub_listen_ports, hub_ready_request, fill_hub_fields. cbn [rq_hub_chains rq_base]. rewrite length_map.
  assert (Ec : forall c, 0 <= c < H -> chain c = (hub_chains plan).[c]).
  { intros c Hc. unfold all_chains. rewrite zget_app by lia. unfold hub_count in Hc. destruct (Z.ltb_spec c (zlen (hub_chains plan))); [reflexivity|lia]. }
  rewrite filter_true.
  - rewrite map_map. unfold hub_count at 1. apply map_ext_in. intros c Hc. apply in_zseq in Hc. fold (hub_count su) in Hc. pose proof (Ec c Hc) as Ecc.
    destruct (wl_ports HW c ltac:(rewrite (proj1 chains_split); unfold hub_count in *; lia)) as (E & _ & _ & P).
    unfold fan_addr. destruct (Z.ltb_spec c H); [|lia]. cbn [fst hub_proxy]. do 2 f_equal.
    unfold resolve_hub_listener_port. cbn [rq_hub_listener_ports].
    assert (Eo : omap (fun c => hub_listen_port <$> su_ports su !! chain_id c) (hub_chains plan)
                 = map (fun ch => hub_listen_port (default {| hop_listen_ports := []; hub_listen_port := 0 |} (su_ports su !! chain_id ch))) (hub_chains plan)).
    { apply omap_all. intros ch Hin. apply list_elem_of_In, In_zget in Hin as (c' & Hc' & <-). fold (hub_count su) in Hc'.
      destruct (wl_ports HW c' ltac:(rewrite (proj1 chains_split); unfold hub_count in *; lia)) as (E' & _). rewrite <- (Ec c' Hc'), E'. reflexivity. }
    rewrite Eo, length_map, zget_map by exact Hc. unfold hub_count in *. rewrite !Z.gtb_ltb. destruct (Z.ltb_spec c (zlen (hub_chains plan))); [|lia].
    rewrite <- Ecc. fold (ports_of c). destruct (Z.ltb_spec 0 (hub_listen_port (ports_of c))); [reflexivity|lia].
  - intros c Hc. apply in_zseq in Hc. rewrite zget_map by exact Hc. reflexivity.
Qed.

(** ** The addresses of a plan *)

Definition address (l : string * Z * Z) : string * Z := let '(ip, _, port) := l in (ip, port).

Lemma chain_addresses c gp : 0 <= c < C ->
  map address (chain_listeners (su_ports su) (chain c) (fst (fan_addr c)) gp) = map (hop_addr c) (zseq (zlen (hops (chain c)))) ++ [fan_addr c].
Proof.
  intros Hc. destruct (wl_ports HW c Hc) as (E & L & _). unfold chain_listeners. rewrite E, map_app. f_equal. apply list_eq. intros i.
  rewrite !list_lookup_fmap, lookup_zip_with. destruct (Z.lt_ge_cases (Z.of_nat i) (zlen (hops (chain c)))) as [Hlt|Hge].
  - assert (E1 : hops (chain c) !! i = Some (hops (chain c)).[Z.of_nat i]) by (rewrite <- zget_lookup, Nat2Z.id by lia; reflexivity).
    assert (E2 : hop_listen_ports (ports_of c) !! i = Some (hop_listen_ports (ports_of c)).[Z.of_nat i]) by (rewrite <- zget_lookup, Nat2Z.id by lia; reflexivity).
     rewrite E1, E2, lookup_seqZ_lt by lia. reflexivity.
  - rewrite (lookup_ge_None_2 (hops (chain c))) by lia. rewrite lookup_seqZ_ge by lia. reflexivity.
Qed.

Lemma map_zseq {A B} `{Inhabited A} (g : A -> B) l : map g l = map (fun i => g l.[i]) (zseq (zlen l)).
Proof.
  apply list_eq. intros i. rewrite !list_lookup_fmap. destruct (Z.lt_ge_cases (Z.of_nat i) (zlen l)) as [Hlt|Hge].
  - assert (E : l !! i = Some l.[Z.of_nat i]) by (rewrite <- zget_lookup, Nat2Z.id by lia; reflexivity). rewrite E, lookup_seqZ_lt by lia. reflexivity.
  - rewrite (lookup_ge_None_2 l) by lia. rewrite lookup_seqZ_ge by lia. reflexivity.
Qed.

Lemma plan_addresses :
  map address (plan_listeners (su_ports su) plan) = concat (map (fun c => map (hop_addr c) (zseq (zlen (hops (chain c)))) ++ [fan_addr c]) (zseq C)).
Proof.
  destruct chains_split as [EC H0]. rewrite EC, seqZ_app, map_app, concat_app by lia. unfold plan_listeners. rewrite map_app, !concat_map, !map_map, !(map_zseq _ (_ : list GlrcPipelineChainPlan)). f_equal; f_equal.
  - apply map_ext_in. intros c Hc. apply in_zseq in Hc. fold (hub_count su) in Hc. rewrite <- (chain_addresses c (hub_proxy_port plan)) by lia. unfold fan_addr. cbn [fst].
    destruct (Z.ltb_spec c H); [|lia]. unfold all_chains. rewrite zget_app by lia. destruct (Z.ltb_spec c (zlen (hub_chains plan))); [reflexivity|unfold hub_count in *; lia].
  - replace (0 + H) with (H + 0) by lia. rewrite <- (fmap_add_seqZ H 0), map_map. apply map_ext_in. intros j Hj. apply in_zseq in Hj.
    assert (Ec : (local_direct_chains plan).[j] = chain (H + j)).
    { unfold all_chains. rewrite zget_app by lia. unfold hub_count. destruct (Z.ltb_spec (zlen (hub_chains plan) + j) (zlen (hub_chains plan))); [lia|]. f_equal. lia. }
    rewrite Ec. rewrite <- (chain_addresses (H + j) (local_direct_sink_proxy_port (chain (H + j)))) by lia. unfold fan_addr. cbn [fst].
    destruct (Z.ltb_spec (H + j) H); [lia|reflexivity].
Qed.

(** Different listeners are apart. *)
Lemma listeners_apart : NoDup (map address (plan_listeners (su_ports su) plan)) -> apart.
Proof.
  rewrite plan_addresses. intros Hn. apply concat_nodup in Hn as [Hn1 Hn2].
  set (L := fun c => map (hop_addr c) (zseq (zlen (hops (chain c)))) ++ [fan_addr c]) in *.
  assert (HL : forall c, 0 <= c < C -> map L (zseq C) !! Z.to_nat c = Some (L c)) by (intros c Hc; rewrite list_lookup_fmap, lookup_seqZ_lt by lia; cbn; f_equal; f_equal; lia).
  assert (Hh : forall c i, 0 <= i < zlen (hops (chain c)) -> hop_addr c i ∈ L c) by (intros c i Hi; apply elem_of_app; left; apply list_elem_of_In, in_map, in_zseq, Hi).
  assert (Hf : forall c, fan_addr c ∈ L c) by (intros c; apply elem_of_app; right; left).
  assert (Hsame : forall c c' x, 0 <= c < C -> 0 <= c' < C -> x ∈ L c -> x ∈ L c' -> c = c').
  { intros c c' x Hc Hc' Hx Hx'. pose proof (Hn2 _ _ _ _ x (HL c Hc) (HL c' Hc') Hx Hx'). lia. }
  assert (Hown : forall c, 0 <= c < C -> NoDup (map (hop_addr c) (zseq (zlen (hops (chain c))))) /\ fan_addr c ∉ map (hop_addr c) (zseq (zlen (hops (chain c))))).
  { intros c Hc. specialize (Hn1 _ _ (HL c Hc)). apply NoDup_app in Hn1 as (N1 & N2 & _). split; [exact N1|]. intros Hin. apply (N2 _ Hin). left. }
  split.
  - intros c i c' i' Hc Hc' Hi Hi' E. assert (c = c') as <-.
    { apply (Hsame c c' (hop_addr c i)); auto. rewrite E. auto. }
    split; [reflexivity|]. destruct (Hown c Hc) as [N1 _]. pose proof (proj1 (NoDup_alt _) N1 (Z.to_nat i) (Z.to_nat i') (hop_addr c i)) as HN.
    rewrite !list_lookup_fmap, !lookup_seqZ_lt in HN by lia. cbn in HN. rewrite !Z2Nat.id in HN by lia. rewrite E in HN at 2. specialize (HN eq_refl eq_refl). lia.
  - intros c c' Hc Hc' E. apply (Hsame c c' (fan_addr c)); auto. rewrite E. auto.
  - intros c i c' Hc Hc' Hi E. assert (c = c') as <-.
    { apply (Hsame c c' (hop_addr c i)); auto. rewrite E. auto. }
    destruct (Hown c Hc) as [_ N2]. apply N2. rewrite <- E. apply list_elem_of_In, in_map, in_zseq, Hi.
Qed.

Context (HA : apart).

Lemma hop_calls c i : 0 <= c < C -> ReadyHop c i ∈ hop_ready_calls su c <-> 1 <= i < M c.
Proof.
  intros Hc. unfold hop_ready_calls. rewrite list_elem_of_In, in_map_iff. setoid_rewrite <- in_rev. pose proof (roles_below c Hc) as Hr.
  unfold role_count in *. split.
  - intros (i' & [= ->] & Hi). apply list_elem_of_In, elem_of_seqZ in Hi. lia.
  - intros Hi. exists i. split; [reflexivity|]. apply list_elem_of_In, elem_of_seqZ. lia.
Qed.

Lemma ready_calls_spec r : r ∈ ready_calls su <-> match r with ReadyHub => 0 < H | ReadyHop c i => 0 <= c < C /\ 1 <= i < M c end.
Proof.
  unfold ready_calls. rewrite elem_of_app. split.
  - intros [Hr|Hr].
    + destruct (Z.eqb_spec H 0); [inversion Hr|]. apply list_elem_of_singleton in Hr as ->. unfold hub_count in *. lia.
    + apply list_elem_of_In, in_concat in Hr as (l & Hl & Hr). apply in_map_iff in Hl as (c & <- & Hc). apply in_zseq in Hc.
      destruct r as [|c' i]; [exfalso|].
      { unfold hop_ready_calls in Hr. apply in_map_iff in Hr as (? & ? & _). discriminate. }
      assert (c' = c) as -> by (unfold hop_ready_calls in Hr; apply in_map_iff in Hr as (? & [= ->] & _); reflexivity).
      split; [exact Hc|]. apply hop_calls; [exact Hc|]. apply list_elem_of_In, Hr.
  - destruct r as [|c i]; intros Hr; [left|right].
    + destruct (Z.eqb_spec H 0); [lia|]. left.
    + apply list_elem_of_In, in_concat. exists (hop_ready_calls su c). split; [apply in_map, in_zseq, Hr|].
      apply list_elem_of_In, hop_calls; apply Hr.
Qed.

Lemma ready_calls_nodup : NoDup (ready_calls su).
Proof.
  unfold ready_calls. apply NoDup_app. split; [destruct (_ =? _); [constructor|apply NoDup_singleton]|]. split.
  - intros r Hr Hin. destruct (H =? 0); [inversion Hr|]. apply list_elem_of_singleton in Hr as ->. apply list_elem_of_In, in_concat in Hin as (l & Hl & Hr).
    apply in_map_iff in Hl as (c & <- & _). unfold hop_ready_calls in Hr. apply in_map_iff in Hr as (? & ? & _). discriminate.
  - apply concat_map_nodup; [apply NoDup_seqZ| |].
    + intros c _. unfold hop_ready_calls. apply NoDup_fmap_2_strong; [congruence|]. rewrite NoDup_ListNoDup. apply NoDup_rev, NoDup_ListNoDup, NoDup_seqZ.
    + intros c c' r _ _ Hr Hr'. unfold hop_ready_calls in Hr, Hr'. apply list_elem_of_In, in_map_iff in Hr as (i & <- & _).
      apply list_elem_of_In, in_map_iff in Hr' as (i' & [= <- _] & _). reflexivity.
Qed.

(** What a call binds. *)
Lemma binds_spec r x : r ∈ ready_calls su -> x ∈ ready_binds su r <->
  match r with ReadyHub => exists c, 0 <= c < H /\ x = (fan_addr c, OwnerHub c) | ReadyHop c i => x = (hop_addr c i, OwnerHop c i) end.
Proof.
  intros Hr. apply ready_calls_spec in Hr. destruct r as [|c i].
  - rewrite hub_binds, list_elem_of_In, in_map_iff. setoid_rewrite in_zseq. split; intros (c & H1 & H2); eauto.
  - pose proof (roles_below c (proj1 Hr)). rewrite hop_binds by lia. rewrite list_elem_of_singleton. reflexivity.
Qed.

Lemma all_binds_apart order : order ≡ₚ ready_calls su -> NoDup (map fst (concat (map (ready_binds su) order))).
Proof.
  intros Ho. pose proof ready_calls_nodup as Hn. rewrite <- Ho in Hn. assert (Hin : forall r, r ∈ order -> r ∈ ready_calls su) by (intros r; rewrite Ho; auto).
  rewrite concat_map, map_map. apply concat_map_nodup; [exact Hn| |].
  - intros r Hr. specialize (Hin r Hr). apply ready_calls_spec in Hin. destruct r as [|c i].
    + rewrite hub_binds, map_map. cbn [fst]. apply NoDup_fmap_2_strong; [|apply NoDup_seqZ]. intros c c' Hc Hc' E. apply elem_of_seqZ in Hc, Hc'. pose proof chains_split.
      apply (ap_fan HA); [lia|lia|exact E].
    + pose proof (roles_below c (proj1 Hin)). rewrite hop_binds by lia. apply NoDup_singleton.
  - intros r r' addr Hr Hr' Ha Ha'. apply Hin in Hr, Hr'. apply list_elem_of_In, in_map_iff in Ha as (x & <- & Hx). apply list_elem_of_In, in_map_iff in Ha' as (x' & E & Hx').
    apply list_elem_of_In, (binds_spec r x Hr) in Hx. apply list_elem_of_In, (binds_spec r' x' Hr') in Hx'. apply ready_calls_spec in Hr, Hr'. pose proof chains_split as EC.
    destruct r as [|c i], r' as [|c' i'].
    + reflexivity.
    + exfalso. destruct Hx as (c & Hc & ->). subst x'. cbn [fst] in E. pose proof (roles_below c' (proj1 Hr')). refine (ap_mix HA c' i' c _ _ _ E); lia.
    + exfalso. destruct Hx' as (c' & Hc & ->). subst x. cbn [fst] in E. pose proof (roles_below c (proj1 Hr)). refine (ap_mix HA c i c' _ _ _ (eq_sym E)); lia.
    + subst x x'. cbn [fst] in E. pose proof (roles_below c (proj1 Hr)). pose proof (roles_below c' (proj1 Hr')).
      destruct (ap_hop HA c i c' i') as [-> ->]; auto; lia.
Qed.

(** READY succeeds. *)
Lemma ready_all proxies unready order : order ≡ₚ ready_calls su ->
  (forall r, r ∈ ready_calls su -> proxy_name (ready_proxy su r) ∈ proxies /\ unready r = false) ->
  exists l, run_ready su proxies unready order ∅ = (l, true) /\
    (forall c i, 0 <= c < C -> 1 <= i < M c -> l !! hop_addr c i = Some (OwnerHop c i)) /\
    (forall c, 0 <= c < H -> l !! fan_addr c = Some (OwnerHub c)) /\ forall c, H <= c < C -> l !! fan_addr c = None.
Proof.
  intros Ho Hr. destruct (bind_all_free (concat (map (ready_binds su) order)) ∅ (all_binds_apart order Ho)) as (l & E1 & E2 & E3).
  { intros x _. apply (lookup_empty (M := gmap (string * Z))). }
  assert (Hin : forall r x, r ∈ ready_calls su -> x ∈ ready_binds su r -> x ∈ concat (map (ready_binds su) order)).
  { intros r x Hr' Hx. apply list_elem_of_In, in_concat. exists (ready_binds su r). split; [|apply list_elem_of_In, Hx]. apply in_map. rewrite <- Ho in Hr'. apply list_elem_of_In, Hr'. }
  pose proof chains_split as EC. exists l. split; [|split; [|split]].
  - apply run_ready_binds; [|exact E1]. intros r Hin'. apply Hr. rewrite <- Ho. exact Hin'.
  - intros c i Hc Hi. assert (Hc' : ReadyHop c i ∈ ready_calls su) by (apply ready_calls_spec; auto).
    apply (E2 (hop_addr c i, OwnerHop c i)), (Hin _ _ Hc'), binds_spec; auto.
  - intros c Hc. assert (Hc' : ReadyHub ∈ ready_calls su) by (apply ready_calls_spec; lia).
    apply (E2 (fan_addr c, OwnerHub c)), (Hin _ _ Hc'), binds_spec; [exact Hc'|eauto].
  - intros c Hc. rewrite E3; [apply (lookup_empty (M := gmap (string * Z)))|]. intros Ha. apply list_elem_of_In, in_map_iff in Ha as (x & E & Hx).
    apply in_concat in Hx as (b & Hb & Hx). apply in_map_iff in Hb as (r & <- & Hr'). assert (Hrc : r ∈ ready_calls su) by (rewrite <- Ho; apply list_elem_of_In, Hr').
    apply list_elem_of_In, (binds_spec r x Hrc) in Hx. apply ready_calls_spec in Hrc. destruct r as [|c' i].
    + destruct Hx as (c' & Hc' & ->). cbn [fst] in E. pose proof (ap_fan HA c' c ltac:(lia) ltac:(lia) E). lia.
    + subst x. cbn [fst] in E. pose proof (roles_below c' (proj1 Hrc)). refine (ap_mix HA c' i c _ _ _ E); lia.
Qed.

(** ** Who connects where *)

Notation req c := (role_request su c).

Lemma request_hub c role i : 0 <= c < C ->
  rq_hub_proxy (chain_request su c role i) = (if c <? H then hub_proxy_ip plan else local_direct_sink_proxy_ip (chain c),
                                              if c <? H then hub_proxy_port plan else local_direct_sink_proxy_port (chain c)).
Proof.
  intros Hc. unfold chain_request, fill_pipeline_chain_fields. cbn [rq_hub_proxy]. destruct (Z.ltb_spec c H).
  - destruct (wl_hub HW c ltac:(lia)) as [-> _]. reflexivity.
  - destruct (wl_sink HW c ltac:(lia)) as (-> & _ & _ & _ & E). apply String.eqb_neq in E. rewrite E. reflexivity.
Qed.

(** The port of the fan-in. *)
Lemma request_fan c role i gp : 0 <= c < C ->
  resolve_chain_hub_listen_port oph (chain_request su c role i) gp (rb_exchange_epoch (rq_base (chain_request su c role i)))
    (rc_eq_slot (rq_chain (chain_request su c role i))) = hub_listen_port (ports_of c).
Proof.
  intros Hc. destruct (wl_ports HW c Hc) as (E & _ & _ & P). unfold resolve_chain_hub_listen_port, chain_request, fill_pipeline_chain_fields.
  cbn [rq_chain rc_chain_hub_listen_port]. rewrite E, Z.max_r by lia. rewrite Z.gtb_ltb. destruct (Z.ltb_spec 0 (hub_listen_port (ports_of c))); [reflexivity|lia].
Qed.

Lemma request_hop c role i j gp e id : 0 <= c < C -> 0 <= j < zlen (hops (chain c)) ->
  resolve_hop_listen_port oph (chain_request su c role i) j gp e id = (hop_listen_ports (ports_of c)).[j].
Proof.
  intros Hc Hj. destruct (wl_ports HW c Hc) as (E & L & P & _). specialize (P j Hj). unfold resolve_hop_listen_port, chain_request, fill_pipeline_chain_fields.
  cbn [rq_chain rc_hop_listen_ports]. rewrite E, L, !Z.gtb_ltb. destruct (Z.ltb_spec j (zlen (hops (chain c)))), (Z.ltb_spec 0 (hop_listen_ports (ports_of c)).[j]); lia || reflexivity.
Qed.

Lemma request_local c role i : 0 <= c < C -> pipeline_chain_is_local_direct (chain_request su c role i) = (H <=? c).
Proof.
  intros Hc. unfold pipeline_chain_is_local_direct, chain_request, fill_pipeline_chain_fields. cbn [rq_chain rc_local_failed_block_key].
  destruct (Z.leb_spec H c).
  - destruct (wl_sink HW c ltac:(lia)) as (-> & _ & _ & E & _). apply String.eqb_neq in E. rewrite E. reflexivity.
  - destruct (wl_hub HW c ltac:(lia)) as [-> _]. reflexivity.
Qed.

Lemma request_hops c role i : head_hops (chain_request su c role i) = zlen (hops (chain c)).
Proof. unfold head_hops, chain_request, fill_pipeline_chain_fields. cbn. apply (f_equal Z.of_nat), length_map. Qed.

(** Every role finds its successor, the last one the fan-in of its chain. *)
Lemma target_addr c i : 0 <= c < C -> 0 <= i < M c ->
  role_target oph (req c) i = (if i + 1 <? M c then hop_addr c (i + 1) else fan_addr c).
Proof.
  intros Hc Hi. pose proof (roles_below c Hc) as HM. pose proof (some_hops c Hc) as HL.
  assert (Hsuc : i + 1 < M c -> (rc_hop_proxies (rq_chain (chain_request su c (if i =? 0 then CHAIN_HEAD else HOP_SERVER) i))).[i + 1] =
            (hop_proxy_ip (hops (chain c)).[i + 1], hop_proxy_port (hops (chain c)).[i + 1])).
  { intros Hlt. unfold chain_request, fill_pipeline_chain_fields. cbn [rq_chain rc_hop_proxies]. rewrite zget_map by lia. reflexivity. }
  assert (Hkind : M c = (if hub_is_chain_tail (chain c) then Z.max 1 (zlen (hops (chain c)) - 1) else zlen (hops (chain c)))).
  { unfold role_count, last_hop_server. destruct (hub_is_chain_tail _); lia. }
  unfold role_target, role_request. destruct (Z.eqb_spec i 0) as [->|Hne].
  - rewrite Z.eqb_refl in *. unfold head_target. cbv zeta. rewrite request_fan, request_hub, request_local, request_hops by exact Hc. cbn [fst snd].
    replace (rc_hub_is_tail (rq_chain (chain_request su c CHAIN_HEAD 0))) with (hub_is_chain_tail (chain c)) by reflexivity.
    assert (Et : hub_is_chain_tail (chain c) && (zlen (hops (chain c)) <=? 2) || negb (hub_is_chain_tail (chain c)) && (zlen (hops (chain c)) =? 1) && (H <=? c)
                 = negb (0 + 1 <? M c)).
    { rewrite Hkind. destruct (hub_is_chain_tail (chain c)) eqn:Et; cbn [andb orb negb].
      - rewrite orb_false_r. destruct (Z.leb_spec (zlen (hops (chain c))) 2), (Z.ltb_spec (0 + 1) (Z.max 1 (zlen (hops (chain c)) - 1))); lia || reflexivity.
      - destruct (Z.leb_spec H c) as [|Hlt]; [|destruct (wl_hub HW c ltac:(lia)) as [_ HL2]];
          destruct (Z.eqb_spec (zlen (hops (chain c))) 1), (Z.ltb_spec (0 + 1) (zlen (hops (chain c)))); lia || reflexivity. }
    rewrite Et. destruct (Z.ltb_spec (0 + 1) (M c)) as [Hlt|]; cbn [negb]; [|reflexivity].
    specialize (Hsuc Hlt). change (0 + 1) with 1 in *. rewrite Hsuc, request_hop by lia. reflexivity.
  - destruct (Z.eqb_spec i 0) as [E0|_] in Hsuc; [contradiction|]. unfold hop_target, pipeline_hop_connects_to_hub. cbv zeta. rewrite request_fan, request_hub, request_local, request_hops by exact Hc. cbn [fst snd].
    replace (rc_hub_is_tail (rq_chain (chain_request su c HOP_SERVER i))) with (hub_is_chain_tail (chain c)) by reflexivity.
    change (my_hop (chain_request su c HOP_SERVER i)) with i.
    assert (Et : (if H <=? c then i =? zlen (hops (chain c)) - 1
                  else if hub_is_chain_tail (chain c) then i =? zlen (hops (chain c)) - 2 else i =? zlen (hops (chain c)) - 1) = negb (i + 1 <? M c)).
    { rewrite Hkind in *. destruct (Z.leb_spec H c).
      - destruct (wl_sink HW c ltac:(lia)) as (_ & Ht & _). rewrite Ht in *.
        destruct (Z.eqb_spec i (zlen (hops (chain c)) - 1)), (Z.ltb_spec (i + 1) (zlen (hops (chain c)))); lia || reflexivity.
      - destruct (hub_is_chain_tail (chain c)).
        + destruct (Z.eqb_spec i (zlen (hops (chain c)) - 2)), (Z.ltb_spec (i + 1) (Z.max 1 (zlen (hops (chain c)) - 1))); lia || reflexivity.
        + destruct (Z.eqb_spec i (zlen (hops (chain c)) - 1)), (Z.ltb_spec (i + 1) (zlen (hops (chain c)))); lia || reflexivity. }
    rewrite Et. destruct (Z.ltb_spec (i + 1) (M c)) as [Hlt|]; cbn [negb]; [|reflexivity].
    rewrite (Hsuc Hlt), request_hop by lia. reflexivity.
Qed.

(** The ports are as the session needs them. *)
Lemma ready_ports l : (forall c i, 0 <= c < C -> 1 <= i < M c -> l !! hop_addr c i = Some (OwnerHop c i)) ->
  (forall c, 0 <= c < H -> l !! fan_addr c = Some (OwnerHub c)) -> (forall c, H <= c < C -> l !! fan_addr c = None) -> ports_ok su l.
Proof.
  intros H1 H2 H3. destruct chains_split as [EC H0]. assert (Es : forall j, 0 <= j < J -> sink_at su j = fan_addr (H + j)).
  { intros j Hj. unfold sink_at, sink_address, sink_request, fan_addr. rewrite request_fan by lia. unfold sink_proxy. cbn [fst].
    destruct (Z.ltb_spec (H + j) H); [lia|reflexivity]. }
  split.
  - intros j j' Hj Hj' E. rewrite !Es in E by assumption. pose proof (ap_fan HA (H + j) (H + j') ltac:(lia) ltac:(lia) E). lia.
  - intros j Hj. rewrite Es by exact Hj. apply H3. lia.
  - intros c i Hc Hi. eexists. split; [apply target_addr; assumption|]. pose proof (roles_below c Hc) as HM. destruct (Z.ltb_spec (i + 1) (M c)) as [|_].
    + apply H1; lia.
    + destruct (Z.ltb_spec c H) as [|Hge]; [apply H2; lia|]. rewrite Es by lia. f_equal. lia.
Qed.
End Ready.
