(* ===== verification/CrossRepairSpec.v ===== *)
(** Repair across groups: the AzureLRC proxies of the other groups send partial
    results, the proxy of the lost global parity adds them up. *)
From S2P Require Import Prelude GF256 LinAlg GFMatrix EcKernel Groups Codes Decode DecodeSpec LocalRepair RepairPlan Toolbox Placement PlacementSpec PlacementLaw.
From S2P Require Import Coordinator AppendPlan Client DataNode ProxyAppend StripeWrite ReadPath SingleRepair AzureGlobal SingleRepairSpec.

(** * Sums over lists *)

Definition xlist {A} (h : A -> byte) (l : list A) : byte := fold_right (fun x acc => h x ⊕ acc) x00 l.

Lemma xlist_cons {A} (h : A -> byte) x l : xlist h (x :: l) = h x ⊕ xlist h l.
Proof. reflexivity. Qed.

Lemma xlist_app {A} (h : A -> byte) l l' : xlist h (l ++ l') = xlist h l ⊕ xlist h l'.
Proof.
  induction l as [|x l IH]; [symmetry; apply bxor_0_l|]. cbn [app]. rewrite !xlist_cons, IH. apply bxor_assoc.
Qed.

Lemma xlist_perm {A} (h : A -> byte) l l' : l ≡ₚ l' -> xlist h l = xlist h l'.
Proof.
  induction 1; rewrite ?xlist_cons; [reflexivity|congruence| |congruence]. rewrite !bxor_assoc. f_equal. apply bxor_comm.
Qed.

Lemma xlist_map {A B} (f : A -> B) (h : B -> byte) l : xlist h (map f l) = xlist (fun x => h (f x)) l.
Proof. induction l as [|x l IH]; [reflexivity|]. cbn [map]. rewrite !xlist_cons, IH. reflexivity. Qed.

Lemma xlist_ext {A} (h h' : A -> byte) l : (forall x, In x l -> h x = h' x) -> xlist h l = xlist h' l.
Proof.
  induction l as [|x l IH]; intros H; [reflexivity|]. rewrite !xlist_cons, (H x), IH;
    [reflexivity|intros y Hy; apply H; right; exact Hy|left; reflexivity].
Qed.

Lemma xlist_concat {A} (h : A -> byte) ls : xlist (xlist h) ls = xlist h (concat ls).
Proof. induction ls as [|l ls IH]; [reflexivity|]. cbn [concat]. rewrite xlist_app, xlist_cons, IH. reflexivity. Qed.

Lemma xlist_zseq h m : 0 <= m -> xlist h (zseq m) = xsum m h.
Proof.
  revert m. apply natlike_ind; [rewrite xsum_0 by lia; reflexivity|]. intros m Hm IH. unfold Z.succ.
  rewrite xsum_succ, seqZ_app, xlist_app, IH by lia. f_equal.
  change (seqZ (0 + m) 1) with [0 + m]. rewrite xlist_cons, Z.add_0_l. apply bxor_0_r.
Qed.

Lemma xsum_xlist {A} `{Inhabited A} (h : A -> byte) (l : list A) : xsum (zlen l) (fun j => h l.[j]) = xlist h l.
Proof. rewrite <- xlist_zseq by lia. rewrite <- (xlist_map (fun j => l.[j]) h), <- list_zget. reflexivity. Qed.

(** * Adding up the partial results *)

Lemma add_partials_spec {K : Kernels} {KL : KernelLaws K} bs m arrivals res real : 1 <= m -> zlen arrivals = m -> 0 <= bs ->
  Forall (fun a => zlen a = bs) arrivals -> zlen res = bs -> zlen real = bs ->
  exists out, add_partials bs m arrivals res real = Done out /\ zlen out = bs /\
    forall i, 0 <= i < bs -> out.[i] = xlist (fun a : list byte => a.[i]) arrivals ⊕ res.[i].
Proof.
  intros Hm Hl Hbs Ha Hres Hreal. unfold add_partials. destruct (Z.eqb_spec m 0); [lia|]. destruct (Z.ltb_spec (zlen arrivals) m); [lia|].
  rewrite ztake_all by lia. eexists. split; [reflexivity|].
  assert (Hget : forall v, 0 <= v < m + 2 -> (arrivals ++ [res; real]).[v] = if v <? m then arrivals.[v] else if v =? m then res else real).
  { intros v Hv. rewrite zget_app, Hl by lia. destruct (Z.ltb_spec v m); [reflexivity|]. destruct (Z.eqb_spec v m) as [->|].
    - rewrite Z.sub_diag. reflexivity.
    - replace (v - m) with 1 by lia. reflexivity. }
  destruct (xor_avx_spec (m + 2) bs (arrivals ++ [res; real])) as [L V]; [lia|exact Hbs| |].
  { split; [rewrite length_app; cbn [length]; lia|]. intros v Hv. rewrite Hget by lia. rewrite Forall_forall in Ha.
    destruct (Z.ltb_spec v m); [rewrite (Ha arrivals.[v]) by (apply list_elem_of_In, zget_In; lia); lia|]. destruct (v =? m); lia. }
  replace (m + 2 - 1) with (m + 1) in L, V by lia. rewrite Hget in L by lia. revert L. zcases. intros L. split; [lia|].
  intros i Hi. rewrite V by lia. zcases. rewrite xsum_succ, Hget by lia. zcases. f_equal.
  rewrite <- xsum_xlist, Hl. apply xsum_ext. intros j Hj. rewrite Hget by lia. zcases. reflexivity.
Qed.

(** * Intervals of a stripe *)

Lemma filter_interval (p : Z -> bool) n a m : 0 <= a -> 0 <= m -> a + m <= n ->
  (forall b, 0 <= b < n -> p b = true <-> a <= b < a + m) -> List.filter p (zseq n) = seqZ a m.
Proof.
  intros Ha Hm Hn Hp. replace n with (a + (m + (n - a - m))) by lia. rewrite !seqZ_app, !List.filter_app by lia.
  rewrite (filter_none _ (seqZ 0 a)), filter_all, filter_none; [rewrite app_nil_r; reflexivity|..];
    intros b Hb; apply list_elem_of_In, elem_of_seqZ in Hb; [|apply Hp; lia|]; destruct (p b) eqn:E; try reflexivity; apply Hp in E; lia.
Qed.

Lemma filter_hole a m f : a <= f < a + m -> List.filter (fun b => negb (b =? f)) (seqZ a m) = seqZ a (f - a) ++ seqZ (f + 1) (a + m - f - 1).
Proof.
  intros Hf. replace m with ((f - a) + (1 + (a + m - f - 1))) at 1 by lia. rewrite !seqZ_app, !List.filter_app by lia.
  rewrite (filter_all _ (seqZ a (f - a))), (filter_none _ (seqZ (a + (f - a)) 1)), filter_all;
    [cbn [app]; do 2 f_equal; lia|..]; intros b Hb; apply list_elem_of_In, elem_of_seqZ in Hb;
    rewrite ?negb_true_iff, ?negb_false_iff, ?Z.eqb_neq, ?Z.eqb_eq; lia.
Qed.

Lemma consecutive_groups q m a : 0 <= q -> 0 <= m -> concat (map (fun g => seqZ (g * q) q) (seqZ a m)) = seqZ (a * q) (m * q).
Proof.
  intros Hq Hm. revert a. pattern m. apply natlike_ind; [reflexivity| |exact Hm]. intros m' Hm' IH a. unfold Z.succ.
  rewrite (Z.add_comm m' 1), seqZ_app by lia. change (seqZ a 1) with [a]. cbn [map app concat].
  rewrite IH. replace ((1 + m') * q) with (q + m' * q) by ring. rewrite seqZ_app by nia. do 2 f_equal. lia.
Qed.

Lemma collect_all {A B} (F : A -> option B) (G : A -> B) l : (forall x, In x l -> F x = Some (G x)) -> collect (map F l) = Some (map G l).
Proof.
  intros H. rewrite <- collect_some. f_equal. apply map_ext_in, H.
Qed.

(** * A lost global parity of AzureLRC *)

Section AzureCross.
Context {K : Kernels} {KL : KernelLaws K} (cfg : SysConfig) (c : Coordinator) (sid : Z) (s0 s : Stripe) (stripe : list block) (f : Z).
Notation k := (st_k s0).
Notation r := (st_r s0).
Notation z := (st_z s0).
Notation n := (st_n s0).
Notation q := (k / z).
Notation bs := (BlockSize (settings cfg)).
Notation t := (co_tables c).
Notation gr := (uni_azure_group_of "AzureLRC" s0).
Context (N : new_stripe s0) (Ek : cfg_k cfg = k) (Er : cfg_r cfg = r) (Ez : cfg_z cfg = z) (Hzk : (z | k)) (Hct : CodeType (settings cfg) = "AzureLRC").
Context (Hs : m_stripe_table c !! sid = Some s) (Hgrp : forall g, group_of_stripe s g = List.filter (fun b => gr b =? g) (zseq n)).
Context (Hn : st_n s = n) (Hmap : forall b, 0 <= b < n -> map2group (blocks s).[b] = gr b).
Context (Hid : forall b, 0 <= b < n -> block_id (blocks s).[b] = b /\ zlen stripe.[b] = bs).
Context (Hz2 : 2 <= z) (Hf : k <= f < k + r) (Hr : q < r <= 255) (Hbs : 0 <= bs).
Context (Hcode : forall i, 0 <= i < bs -> exists d, forall b, 0 <= b < k + r -> stripe.[b].[i] = encoded k (rs_gen k) d b).

Lemma azure_gr b : gr b = if b <? k then b / q else if b <? k + r then z else b - (k + r).
Proof.
  destruct N as [N1 N2 N3 N4 _ _]. unfold uni_azure_group_of. cbn [String.eqb Ascii.eqb Bool.eqb].
  rewrite Z.div_same, Z.div_1_r by lia. zcases; try reflexivity; lia.
Qed.

Lemma azure_q : 1 <= q /\ k = z * q.
Proof. destruct N as [N1 N2 N3 N4 _ _]. exact (even_size k z N1 N3 Hzk). Qed.

Lemma partial_sources_eq g : 1 <= g < z -> partial_sources cfg s f g = seqZ (g * q) q.
Proof.
  intros Hg. pose proof azure_q as [Q1 Q2]. destruct N as [N1 N2 N3 N4 _ _]. unfold partial_sources, at_most. rewrite Hct, Ek, Er, Ez.
  cbn [String.eqb Ascii.eqb Bool.eqb andb]. rewrite Hgrp, filter_filter_and, (filter_interval _ n (g * q) q); try nia.
  - apply ztake_all. rewrite zlen_seqZ. lia.
  - intros b Hb. rewrite azure_gr, andb_true_iff, negb_true_iff, orb_false_iff, Z.eqb_eq, Z.eqb_neq, Z.leb_gt.
    destruct (Z.ltb_spec b k) as [H|H].
    + pose proof (Z.div_mod b q ltac:(lia)). pose proof (Z.mod_pos_bound b q ltac:(lia)). split; [intros [_ <-]; nia|].
      intros A1. split; [lia|]. symmetry. apply (Z.div_unique b q g (b - g * q)); lia.
    + split; [intros [[A1 _] A2]; revert A2; zcases; lia|nia].
Qed.

Lemma dest_sources_eq : at_most cfg (rest_of s f z) = map (azure_row q f) (seqZ (k - q) q).
Proof.
  pose proof azure_q as [Q1 Q2]. destruct N as [N1 N2 N3 N4 _ _]. unfold at_most, rest_of. rewrite Hct, Ek, Ez.
  cbn [String.eqb Ascii.eqb Bool.eqb]. rewrite Hgrp, (filter_interval _ n k r), filter_hole; try nia.
  - apply zlist_ext.
    + unfold ztake. rewrite length_take, length_map, length_app. pose proof (zlen_seqZ k (f - k)). pose proof (zlen_seqZ (f + 1) (k + r - f - 1)).
      pose proof (zlen_seqZ (k - q) q). lia.
    + intros j Hj. unfold ztake in Hj. rewrite length_take in Hj. rewrite zget_ztake by lia.
      rewrite zget_map by (rewrite zlen_seqZ; lia). rewrite zget_seqZ by lia. rewrite zget_app, zlen_seqZ by lia.
      unfold azure_row. replace (Z.max 0 (f - k)) with (f - k) by lia. pose proof (zlen_seqZ (f + 1) (k + r - f - 1)).
      rewrite length_app in Hj. pose proof (zlen_seqZ k (f - k)).
      destruct (Z.ltb_spec j (f - k)); rewrite zget_seqZ by lia; zcases; lia.
  - intros b Hb. rewrite Z.eqb_eq, azure_gr. destruct (Z.ltb_spec b k) as [H|H].
    + assert (b / q < z) by (apply Z.div_lt_upper_bound; lia). split; lia.
    + zcases; lia.
Qed.

(** Together the blocks that are read are the rows of the system. *)
Lemma all_sources : concat (map (partial_sources cfg s f) (seqZ 1 (z - 1))) ++ at_most cfg (rest_of s f z) = map (azure_row q f) (zseq k).
Proof.
  pose proof azure_q as [Q1 Q2]. destruct N as [N1 N2 N3 N4 _ _].
  rewrite (map_ext_in _ (fun g => seqZ (g * q) q)) by (intros g Hg; apply list_elem_of_In, elem_of_seqZ in Hg; apply partial_sources_eq; lia).
  rewrite consecutive_groups, dest_sources_eq by lia.
  assert (E : zseq k = zseq (k - q) ++ seqZ (k - q) q).
  { pose proof (seqZ_app 0 (k - q) q ltac:(nia) ltac:(lia)) as E. rewrite Z.sub_add in E. exact E. }
  rewrite E, map_app. f_equal.
  apply zlist_ext; [rewrite length_map, !zlen_seqZ; nia|]. rewrite zlen_seqZ. intros j Hj.
  rewrite zget_map by (rewrite zlen_seqZ; nia). rewrite !zget_seqZ by nia. unfold azure_row. zcases; nia.
Qed.

(** Every proxy sends its weighted sum. *)
Lemma partial_decoded w : (forall ids ptrs res, 1 <= zlen ids -> bs <= zlen res ->
     zlen (decode_azure_lrc k r z (zlen ids) ids ptrs res bs f) = zlen res /\
     forall i, 0 <= i < bs -> (decode_azure_lrc k r z (zlen ids) ids ptrs res bs f).[i] = xsum (zlen ids) (fun j => w ids.[j] ⊗ ptrs.[j].[i])) ->
  forall st b ids, survivors st s t stripe f -> buffers_of bs b -> 1 <= zlen ids -> Forall (fun x => 0 <= x < n /\ x <> f) ids ->
  exists out, read_and_decode cfg st b f (map (source_block s t) ids) = Done (Some out) /\ zlen out = bs /\
    forall i, 0 <= i < bs -> out.[i] = xlist (fun x => w x ⊗ stripe.[x].[i]) ids.
Proof.
  intros Hw st b ids Hst Hb Hids Hrange.
  rewrite (read_and_decode_of cfg st b f s t stripe) by (rewrite ?Hn; assumption). unfold decode_single. rewrite Hct, Ek, Er, Ez.
  cbn [String.eqb Ascii.eqb Bool.eqb]. eexists. split; [reflexivity|]. destruct Hb as (_ & Hres & _).
  destruct (Hw ids (read_of stripe ids) (res_buf b) Hids ltac:(lia)) as [L V]. split; [lia|]. intros i Hi. rewrite V by exact Hi.
  rewrite <- xsum_xlist. apply xsum_ext. intros j Hj. unfold read_of. rewrite zget_map by exact Hj. reflexivity.
Qed.

Lemma azure_clusters : exists cl, forall g, 1 <= g <= z -> get_cluster_id_by_group_id s g = Some (cl g).
Proof.
  pose proof azure_q as [Q1 Q2]. destruct N as [N1 N2 N3 N4 _ _].
  exists (fun g => map2cluster (blocks s).[(group_of_stripe s g).[0]]). intros g Hg.
  assert (Hin : exists b, In b (group_of_stripe s g)).
  { destruct (Z.eq_dec g z) as [->|].
    - exists f. rewrite Hgrp. apply filter_In. split; [apply in_zseq; lia|]. apply Z.eqb_eq. rewrite azure_gr. zcases; lia.
    - exists (k + r + g). rewrite Hgrp. apply filter_In. split; [apply in_zseq; lia|]. apply Z.eqb_eq. rewrite azure_gr. zcases; lia. }
  destruct Hin as [b Hb]. unfold get_cluster_id_by_group_id. revert Hb. unfold group_of_stripe.
  destruct (group_to_blocks s !! g) as [[|x l]|]; [intros []|reflexivity|intros []].
Qed.

Lemma azure_cross_plan target with_proxies send_id : (forall cluster, get_cluster_id_by_group_id s z = Some cluster -> is_Some (target cluster)) ->
  exists calls cluster dest, plan_one_block cfg s t f target with_proxies send_id = Some calls /\
    get_cluster_id_by_group_id s z = Some cluster /\ target cluster = Some dest /\
    map (fun x => (dr_failed_id (snd x), dr_sources (snd x))) (rc_partial calls) =
      map (fun g => (f, map (source_block s t) (partial_sources cfg s f g))) (seqZ 1 (z - 1)) /\
    let fin := snd (rc_final calls) in
    rq_failed_id fin = f /\ rq_failed_key fin = block_key (blocks s).[f] /\ rq_replaced fin = dest /\ rq_cross_rack_num fin = z - 1 /\
    rq_sources fin = map (source_block s t) (at_most cfg (rest_of s f z)) /\ rq_block_id_to_send fin = send_id.
Proof.
  intros Htarget. pose proof azure_q as [Q1 Q2]. pose proof N as [N1 N2 N3 N4 _ _]. destruct azure_clusters as [cl Hcl].
  destruct (Htarget _ (Hcl z ltac:(lia))) as [dest Hdest].
  assert (Hids : get_recovery_group_ids (CodeType (settings cfg)) (cfg_k cfg) (cfg_r cfg) (cfg_z cfg) f = seqZ 1 z).
  { rewrite Hct, Ek, Er, Ez. unfold get_recovery_group_ids. cbn [String.eqb Ascii.eqb Bool.eqb]. unfold azure_recovery_groups.
    zcases; cbn [andb]; zcases; reflexivity || lia. }
  assert (Hfg : map2group (blocks s).[f] = z) by (rewrite Hmap, azure_gr by lia; zcases; lia).
  assert (Hcol : collect (map (get_cluster_id_by_group_id s) (seqZ 1 z)) = Some (map cl (seqZ 1 z))).
  { apply collect_all. intros g Hg. apply list_elem_of_In, elem_of_seqZ in Hg. apply Hcl. lia. }
  eexists _, (cl z), dest. split; [|split; [apply Hcl; lia|split; [exact Hdest|]]].
  - unfold plan_one_block. rewrite Hids. pose proof (zlen_seqZ 1 z) as Hlen.
    destruct (seqZ 1 z) as [|a [|b l]] eqn:E; cbn [length] in Hlen; [lia|lia|].
    rewrite Hfg, Hcl, Hcol, Hdest by lia. cbn [mbind option_bind]. rewrite <- E. reflexivity.
  - assert (Hzip : forall l, zip l (map cl l) = map (fun g => (g, cl g)) l) by (induction l as [|x l IH]; cbn; [reflexivity|rewrite IH; reflexivity]).
    split; [|cbv zeta; repeat split; cbn [cross_group_calls rc_final snd rq_cross_rack_num]; rewrite zlen_seqZ; lia].
    cbn [cross_group_calls rc_partial]. rewrite Hzip, filter_map_comm, !map_map. cbn [fst snd dr_failed_id dr_sources].
    rewrite filter_hole by lia. replace (1 + z - z - 1) with 0 by lia. rewrite app_nil_r. reflexivity.
Qed.

Lemma collect_outs {A} (D : nat -> A -> Outcome (option (list byte))) (P : A -> list byte -> Prop) l :
  (forall i x, In x l -> exists out, D i x = Done (Some out) /\ P x out) ->
  exists outs, imap D l = map (fun o => Done (Some o)) outs /\ Forall2 P l outs.
Proof.
  revert D. induction l as [|x l IH]; intros D H; [exists []; split; [reflexivity|constructor]|].
  destruct (H O x (or_introl eq_refl)) as (out & E & Hp). destruct (IH (fun i => D (S i))) as (outs & Eo & Ho).
  { intros i y Hy. apply H. right. exact Hy. }
  exists (out :: outs). cbn [imap map]. rewrite E. split; [f_equal; exact Eo|constructor; assumption].
Qed.

(** The partial results, added up in any order, are the lost parity. *)
Lemma azure_cross_sum st bufs b : survivors st s t stripe f -> (forall i, buffers_of bs (bufs i)) -> buffers_of bs b ->
  exists outs own,
    imap (fun i g => read_and_decode cfg st (bufs i) f (map (source_block s t) (partial_sources cfg s f g))) (seqZ 1 (z - 1)) =
      map (fun o => Done (Some o)) outs /\
    read_and_decode cfg st b f (map (source_block s t) (at_most cfg (rest_of s f z))) = Done (Some own) /\
    forall arrivals, arrivals ≡ₚ outs -> add_partials bs (z - 1) arrivals own (real_res_buf b) = Done stripe.[f].
Proof.
  intros Hst Hbufs Hb. pose proof azure_q as [Q1 Q2]. pose proof N as [N1 N2 N3 N4 _ _].
  destruct (azure_weights k r z f N1 N3 Hzk Hf Hr) as (w & Hw & Hsum).
  assert (Hdec := partial_decoded w (fun ids ptrs res H1 H2 => Hw ids ptrs res bs H1 (conj Hbs H2))).
  destruct (collect_outs (fun i g => read_and_decode cfg st (bufs i) f (map (source_block s t) (partial_sources cfg s f g)))
      (fun g out => zlen out = bs /\ forall i, 0 <= i < bs -> out.[i] = xlist (fun x => w x ⊗ stripe.[x].[i]) (partial_sources cfg s f g))
      (seqZ 1 (z - 1))) as (outs & Eo & Ho).
  { intros i g Hg. apply list_elem_of_In, elem_of_seqZ in Hg. apply Hdec; auto; rewrite partial_sources_eq by lia.
    - rewrite zlen_seqZ. lia.
    - apply Forall_forall. intros x Hx. apply elem_of_seqZ in Hx. nia. }
  destruct (Hdec st b (at_most cfg (rest_of s f z)) Hst Hb) as (own & Ew & Lw & Vw).
  { rewrite dest_sources_eq, length_map, zlen_seqZ. lia. }
  { rewrite dest_sources_eq. apply Forall_map, Forall_forall. intros x Hx. apply elem_of_seqZ in Hx. unfold azure_row. zcases; lia. }
  exists outs, own. split; [exact Eo|]. split; [exact Ew|]. intros arrivals Ha.
  assert (Hlen : zlen outs = z - 1) by (apply Forall2_length in Ho; pose proof (zlen_seqZ 1 (z - 1)); lia).
  destruct (add_partials_spec bs (z - 1) arrivals own (real_res_buf b)) as (out & -> & Lo & Vo); try lia.
  { rewrite Ha. exact Hlen. }
  { rewrite Ha. clear -Ho. induction Ho; constructor; tauto. }
  { apply Hb. }
  f_equal. apply (whole_block bs); [exact Lo|apply Hid; lia|]. intros i Hi. rewrite Vo by exact Hi.
  rewrite (xlist_perm _ _ _ Ha), Vw by exact Hi. destruct (Hcode i Hi) as [d Hd]. rewrite (Hd f) by lia. rewrite <- Hsum.
  set (h := fun x => w x ⊗ stripe.[x].[i]).
  transitivity (xlist h (concat (map (partial_sources cfg s f) (seqZ 1 (z - 1))) ++ at_most cfg (rest_of s f z))).
  - rewrite xlist_app, <- xlist_concat, xlist_map. f_equal. clear -Ho Hi. induction Ho as [|g out gs outs [_ E] Ho IH]; [reflexivity|].
    rewrite !xlist_cons, IH. f_equal. apply E, Hi.
  - rewrite all_sources, xlist_map, xlist_zseq by lia. apply xsum_ext. intros p Hp. unfold h. f_equal. apply Hd. unfold azure_row. zcases; nia.
Qed.
End AzureCross.
