(* ===== verification/Examples.v ===== *)
(** Small concrete stripes and checkers that turn the quantified conditions of
    the theorems into computations, for instantiating them. *)
From S2P Require Import Prelude GF256 LinAlg GFMatrix EcKernel Groups Codes Decode DecodeSpec.
From S2P Require Import LocalRepair RepairPlan RepairPlanSpec RepairGuarantee.

(** Closes a closed, decidable goal by evaluation. *)
Ltac by_eval :=
  lazymatch goal with
  | |- _ <> _ => discriminate
  | |- @eq Z _ _ => first [reflexivity | vm_compute; reflexivity]
  | |- _ = _ => vm_compute; reflexivity
  | |- _ <= _ => first [lia | vm_compute; discriminate]
  | |- _ < _ => first [lia | vm_compute; reflexivity]
  | |- _ <= _ <= _ => split; by_eval
  | |- _ <= _ < _ => split; by_eval
  | |- NoDup _ => refine (bool_decide_eq_true_1 _ _); vm_compute; reflexivity
  | |- Forall _ _ => refine (bool_decide_eq_true_1 _ _); vm_compute; reflexivity
  | |- _ ∉ _ => refine (bool_decide_eq_true_1 _ _); vm_compute; reflexivity
  end.

Definition check2 (n m : Z) (p : Z -> Z -> bool) : bool :=
  forallb (fun i => forallb (fun j => p i j) (zseq m)) (zseq n).

Lemma check2_spec n m p : check2 n m p = true -> forall i j, 0 <= i < n -> 0 <= j < m -> p i j = true.
Proof.
  intros H i j Hi Hj. unfold check2 in H. rewrite forallb_forall in H.
  specialize (H i (proj2 (in_zseq n i) Hi)). rewrite forallb_forall in H.
  exact (H j (proj2 (in_zseq m j) Hj)).
Qed.

Lemma check1_spec n p : forallb p (zseq n) = true -> forall i, 0 <= i < n -> p i = true.
Proof. intros H i Hi. rewrite forallb_forall in H. apply H, in_zseq, Hi. Qed.

Lemma holds_eval helpers ptrs bs stripe :
  check2 (zlen helpers) bs (fun h i => Byte.eqb ptrs.[h].[i] stripe.[helpers.[h]].[i]) = true ->
  holds helpers ptrs bs stripe.
Proof. intros H h i Hh Hi. apply Byte.byte_dec_bl, (check2_spec _ _ _ H h i Hh Hi). Qed.

Lemma buffers_eval rows len c :
  (rows <=? zlen c) && forallb (fun l => len <=? zlen c.[l]) (zseq rows) = true -> buffers rows len c.
Proof.
  intros H. apply andb_prop in H as [H1 H2]. split; [apply Z.leb_le, H1|]. intros l Hl.
  apply Z.leb_le, (check1_spec _ _ H2 l Hl).
Qed.

Lemma stripe_ok_eval k r z bs stripe :
  check2 bs (z + r) (fun i e =>
    Byte.eqb (xsum (k + r + z) (fun b => glrc_eq_coef k r z e b ⊗ stripe.[b].[i])) x00) = true ->
  stripe_ok k r z bs stripe.
Proof. intros H i Hi e He. apply Byte.byte_dec_bl, (check2_spec _ _ _ H i e Hi He). Qed.

Lemma valid_system_eval k r z failed eqs :
  bool_decide (NoDup failed /\ Forall (fun b => 0 <= b < k + r + z) failed /\
               Forall (fun e => 0 <= e < z + r) eqs /\ zlen eqs = zlen failed) = true ->
  valid_system k r z failed eqs.
Proof. intros H. apply bool_decide_eq_true_1 in H as (H1 & H2 & H3 & H4). split; assumption. Qed.

Lemma solvable_eval k r z helpers failed eqs : 1 <= k -> 0 <= r -> 1 <= z -> failed <> [] ->
  valid_system k r z failed eqs -> glrc_ilp_decode_matrix_invertible k r z failed eqs = true ->
  forallb (fun e => forallb (fun b => Byte.eqb (glrc_eq_coef k r z e b) x00 || bool_decide (b ∈ failed) ||
    bool_decide (b ∈ helpers)) (zseq (k + r + z))) eqs = true ->
  solvable k r z helpers failed eqs.
Proof.
  intros Hk Hr Hz Hne Hv Hi Hc. split; [apply decode_matrix_invertible_spec; auto|].
  apply Forall_forall. intros e He b Hb Hcoef Hf. rewrite forallb_forall in Hc.
  specialize (Hc e (proj1 (list_elem_of_In _ _) He)). rewrite forallb_forall in Hc.
  specialize (Hc b (proj2 (in_zseq _ _) Hb)). rewrite (bool_decide_false (b ∈ failed)) in Hc by exact Hf.
  destruct (Byte.eqb (glrc_eq_coef k r z e b) x00) eqn:E; [apply Byte.byte_dec_bl in E; contradiction|].
  cbn [orb] in Hc. apply list_elem_of_In. apply bool_decide_eq_true_1 in Hc. exact Hc.
Qed.

Lemma good_selection_eval k r z failed sel : 1 <= k -> 0 <= r -> 1 <= z -> failed <> [] ->
  valid_system k r z failed sel -> glrc_ilp_decode_matrix_invertible k r z failed sel = true ->
  good_selection k r z failed sel.
Proof.
  intros Hk Hr Hz Hne Hv Hi. split; [apply (vs_eqs _ _ _ _ _ Hv)|]. split; [apply (vs_len _ _ _ _ _ Hv)|].
  apply decode_matrix_invertible_spec; auto.
Qed.

Lemma rest_of_group_eval n C f ids :
  bool_decide (NoDup (f :: ids) /\ Forall (fun b => 0 <= b < n) (f :: ids)) &&
  forallb (fun b => Bool.eqb (bool_decide (b ∈ f :: ids)) (negb (Byte.eqb (C b) x00))) (zseq n) = true ->
  rest_of_group n C f ids.
Proof.
  intros H. apply andb_prop in H as [H1 H2]. apply bool_decide_eq_true_1 in H1 as [H0 H1].
  split; [exact H0|]. split; [exact H1|]. intros b Hb. pose proof (check1_spec _ _ H2 b Hb) as E.
  cbv beta in E. apply Bool.eqb_prop in E. rewrite <- (bool_decide_eq_true (b ∈ f :: ids)), E.
  rewrite negb_true_iff. split; [intros E1 E2; rewrite E2 in E1; discriminate|].
  intros Hn. destruct (Byte.eqb (C b) x00) eqn:E1; [apply Byte.byte_dec_bl in E1; contradiction|reflexivity].
Qed.

(** * A gLRC stripe with two data blocks, one global and one local parity *)

#[export] Instance ex_kernels : Kernels := nibble_kernels false.
#[export] Instance ex_kernel_laws : KernelLaws ex_kernels := nibble_kernel_laws false.

Definition ex_data : list block := [[x01]; [x02]].
Definition ex_parity : list block := [[x00]; [x00]].
Definition ex_stripe : list block := ex_data ++ encode_glrc 2 1 1 ex_data ex_parity 1.

(** The blocks a recovery reads. *)
Definition read_blocks (stripe : list block) (ids : list Z) : list block := map (fun b => stripe.[b]) ids.
