(* ===== verification/CodingTheorems.v ===== *)
(** Properties of the coding layer ([unilrc_encoder.cpp]): the field, matrix
    inversion, the coding kernels, the encoders and the single-block decoders
    of the code families. *)
From S2P Require Import Prelude GF256 LinAlg GFMatrix EcKernel Groups Codes Decode DecodeSpec.
From S2P Require Import LocalRepair RepairPlan RepairPlanSpec RepairGuarantee Examples.
From Stdlib Require Import Field.

(** * The field *)

(** Schoolbook product of two polynomials over GF(2) modulo
    [x^8 + x^4 + x^3 + x^2 + 1]: shift and add. *)
Definition poly_mul (a b : byte) : byte :=
  xsum 8 (fun i => if Z.testbit (byte_to_Z b) i then Nat.iter (Z.to_nat i) xtime a else x00).

Lemma byte_bits b :
  b = xsum 8 (fun i => if Z.testbit (byte_to_Z b) i then byte_of_Z (2 ^ i) else x00).
Proof.
  apply Byte.byte_dec_bl. revert b. apply (forall_bytes (fun b => Byte.eqb b _)). vm_compute. reflexivity.
Qed.

Lemma gf_mul_two a : a ⊗ x02 = xtime a.
Proof.
  apply Byte.byte_dec_bl. revert a. apply (forall_bytes (fun a => Byte.eqb (a ⊗ x02) (xtime a))).
  vm_compute. reflexivity.
Qed.

Lemma gf_mul_pow2 a i : 0 <= i < 8 -> a ⊗ byte_of_Z (2 ^ i) = Nat.iter (Z.to_nat i) xtime a.
Proof.
  intros [H0 H8]. revert i H0 H8. apply (natlike_ind (fun i => i < 8 -> _)).
  - intros _. change (byte_of_Z (2 ^ 0)) with x01. cbn [Z.to_nat Nat.iter]. rewrite gf_mul_comm. apply gf_mul_1_l.
  - intros i Hi IH H8. rewrite Z2Nat.inj_succ, Nat.iter_succ by lia. rewrite <- IH by lia.
    rewrite <- gf_mul_two, <- gf_mul_assoc. f_equal.
    assert (H : forallb (fun i => Byte.eqb (byte_of_Z (2 ^ Z.succ i)) (byte_of_Z (2 ^ i) ⊗ x02)) (zseq 7) = true)
      by (vm_compute; reflexivity).
    apply Byte.byte_dec_bl, (check1_spec _ _ H i). lia.
Qed.

(** C26. [gf_mul], which looks logarithms up in two 256-byte tables, is the
    product of polynomials over GF(2) modulo 0x11d, on every pair of bytes. *)
Theorem gf_mul_is_polynomial_product a b : gf_mul a b = poly_mul a b.
Proof.
  rewrite (byte_bits b) at 1. rewrite <- xsum_mul_l. apply xsum_ext. intros i Hi.
  destruct (Z.testbit _ i); [apply gf_mul_pow2, Hi|ring].
Qed.

(** With [^] as addition the table-driven [gf_mul] and [gf_inv] form a
    field, in which every matrix computation below takes place. *)
Theorem gf256_field :
  field_theory x00 x01 bxor gf_mul bxor (fun a => a) (fun a b => a ⊗ gf_inv b) gf_inv eq.
Proof. exact gf_field_theory. Qed.

(** * Matrix inversion *)

(** C22. [gf_invert_matrix] returns 0 exactly when the matrix is regular, and
    then its output is the two-sided inverse; otherwise it returns -1. *)
Theorem gf_invert_matrix_correct n A in_mat out_mat :
  0 <= n -> is_mx n n in_mat A -> n * n <= zlen out_mat ->
  let '(ret, (_, out)) := gf_invert_matrix in_mat out_mat n in
  (ret = 0 <-> nonsingular n A) /\ (ret = 0 \/ ret = -1) /\
  (ret = 0 -> exists B, is_mx n n out B /\ is_identity n (mxm n B A) /\ is_identity n (mxm n A B)).
Proof.
  intros Hn HA Ho. pose proof (gf_invert_matrix_spec n A in_mat out_mat Hn HA Ho) as H.
  destruct (gf_invert_matrix in_mat out_mat n) as [ret [in' out]].
  destruct H as [(-> & B & HB & Hl & Hr)|[-> Hns]].
  - split; [split; [intros _; apply (left_inverse_nonsingular n A B Hl)|reflexivity]|]. split; [auto|].
    intros _. exists B. auto.
  - split; [split; [discriminate|intros H; contradiction]|]. split; [auto|discriminate].
Qed.

Definition ex_matrix : list byte := [x00; x01; x02; x03].

Lemma ex_matrix_mx : is_mx 2 2 ex_matrix (fun i j => ex_matrix.[i * 2 + j]).
Proof. split; [cbn; lia|]. intros. reflexivity. Qed.

Lemma gf_invert_matrix_correct_witness :
  let '(ret, (_, out)) := gf_invert_matrix ex_matrix (new_bytes 4) 2 in
  ret = 0 /\ exists B, is_mx 2 2 out B /\ is_identity 2 (mxm 2 B (fun i j => ex_matrix.[i * 2 + j])) /\
                       is_identity 2 (mxm 2 (fun i j => ex_matrix.[i * 2 + j]) B).
Proof.
  pose proof (gf_invert_matrix_correct 2 _ ex_matrix (new_bytes 4) ltac:(by_eval) ex_matrix_mx ltac:(by_eval)) as H.
  assert (E : fst (gf_invert_matrix ex_matrix (new_bytes 4) 2) = 0) by by_eval.
  destruct (gf_invert_matrix ex_matrix (new_bytes 4) 2) as [ret [in' out]]. cbn [fst] in E.
  destruct H as (_ & _ & H). split; [exact E|exact (H E)].
Defined.

(** * The coding kernels *)

(** C23. [ec_init_tables] followed by [ec_encode_data_avx2] overwrites the
    coding buffers with the matrix-vector product, for any number of rows and
    any length: the dispatch over the 1- to 6-row AVX2 kernels, the portable
    branch and the fallback for short buffers agree.  The AVX2 kernels enter
    through their documented nibble-table semantics. *)
Theorem ec_encode_correct {K : Kernels} {KL : KernelLaws K} len k rows a g0 data coding :
  0 <= len -> 1 <= k -> 0 <= rows -> rows * k * 32 <= zlen g0 -> buffers rows len coding ->
  written rows len coding (ec_encode_data_avx2 len k rows (ec_init_tables k rows a g0) data coding)
    (fun l i => xsum k (fun j => a.[l * k + j] ⊗ data.[j].[i])).
Proof. apply encode_with_tables_spec. Qed.

Lemma ec_encode_correct_witness :
  written 1 1 [[x00]] (ec_encode_data_avx2 1 2 1 (ec_init_tables 2 1 [x03; x05] (new_bytes 64)) ex_data [[x00]])
    (fun l i => xsum 2 (fun j => [x03; x05].[l * 2 + j] ⊗ ex_data.[j].[i])).
Proof. apply (ec_encode_correct 1 2 1); try by_eval. apply buffers_eval. by_eval. Defined.

(** * Encoding *)

(** C24. [encode_glrc] produces a stripe that satisfies every recovery
    equation of the code: each local equation over its placement group and
    each global equation, in every byte position. *)
Theorem encode_glrc_satisfies_checks {K : Kernels} {KL : KernelLaws K} k r z data parity bs :
  1 <= k -> 0 <= r -> 1 <= z -> zlen data = k -> zlen parity = r + z -> buffers (r + z) bs parity ->
  forall i e, 0 <= i < bs -> 0 <= e < z + r ->
  xsum (k + r + z) (fun b => glrc_eq_coef k r z e b ⊗ (data ++ encode_glrc k r z data parity bs).[b].[i]) = x00.
Proof. intros Hk Hr Hz Hd Hp Hb i e Hi He. exact (encode_glrc_stripe_ok k r z data parity bs Hk Hr Hz Hd Hp Hb i Hi e He). Qed.

Lemma encode_glrc_satisfies_checks_witness :
  xsum 4 (fun b => glrc_eq_coef 2 1 1 1 b ⊗ ex_stripe.[b].[0]) = x00.
Proof. apply (encode_glrc_satisfies_checks 2 1 1); try by_eval. apply buffers_eval. by_eval. Defined.

(** [partial_encode_glrc] over the first [n] data blocks writes the part
    of every parity those blocks contribute; over all of them it is
    [encode_glrc]. *)
Theorem partial_encode_glrc_correct {K : Kernels} {KL : KernelLaws K} k r z n data parity bs :
  1 <= n <= k -> 0 <= r -> 1 <= z -> 0 <= bs -> zlen parity = r + z -> buffers (r + z) bs parity ->
  written (r + z) bs parity (partial_encode_glrc k r z n data parity bs)
    (fun l i => xsum n (fun j => glrc_gen k r z (k + l) j ⊗ data.[j].[i])) /\
  (n = k -> zlen data = k -> forall l i, 0 <= l < r + z -> 0 <= i < bs ->
     (partial_encode_glrc k r z n data parity bs).[l].[i] = (encode_glrc k r z data parity bs).[l].[i]).
Proof.
  intros Hn Hr Hz Hbs Hp Hb.
  assert (Hm : is_mx (k + (r + z)) k (gen_glrc_matrix (new_bytes ((k + r + z) * k)) k r z) (glrc_gen k r z))
    by (rewrite Z.add_assoc; apply gen_glrc_matrix_spec; try lia; apply new_bytes_len; lia).
  pose proof (partial_encode_rows_spec k (r + z) n bs _ _ data parity Hn ltac:(lia) Hbs Hm Hb) as H.
  split; [exact H|]. intros -> Hd l i Hl Hi. destruct H as [H1 H2].
  destruct (H2 l ltac:(lia)) as [_ H3]. specialize (H3 i ltac:(lia)).
  destruct (Z.ltb_spec l (r + z)), (Z.ltb_spec i bs); try lia. cbn [andb] in H3. etransitivity; [exact H3|].
  pose proof (encode_glrc_codeword k r z data parity bs (k + l) i ltac:(lia) Hr Hz Hd Hp Hb ltac:(lia) Hi) as Hc.
  rewrite zget_app in Hc by lia. destruct (Z.ltb_spec (k + l) (zlen data)); [lia|].
  replace (k + l - zlen data) with l in Hc by lia. symmetry. exact Hc.
Qed.

Lemma partial_encode_glrc_correct_witness :
  written 2 1 ex_parity (partial_encode_glrc 2 1 1 1 ex_data ex_parity 1)
    (fun l i => xsum 1 (fun j => glrc_gen 2 1 1 (2 + l) j ⊗ ex_data.[j].[i])).
Proof. apply (partial_encode_glrc_correct 2 1 1 1 ex_data ex_parity 1); try by_eval. apply buffers_eval. by_eval. Defined.

(** * Repairing one block inside its group *)

(** [decode_glrc], given the other blocks of the placement group in any
    order, restores the lost block (data, global or local parity). *)
Theorem decode_glrc_restores {K : Kernels} {KL : KernelLaws K} k r z stripe bs f ids ptrs res :
  1 <= k -> 0 <= r -> 1 <= z -> k + r <= 255 -> stripe_ok k r z bs stripe -> 0 <= f < k + r + z ->
  bs <= zlen res -> NoDup (f :: ids) -> 1 <= zlen ids ->
  (forall b, In b (f :: ids) <-> In b (glrc_build_placement_groups k r z).[block_group k r z f]) ->
  holds ids ptrs bs stripe ->
  forall i, 0 <= i < bs -> (decode_glrc k r z (zlen ids) ids ptrs res bs f).[i] = stripe.[f].[i].
Proof. intros. apply glrc_repair; assumption. Qed.

Lemma decode_glrc_restores_witness :
  (decode_glrc 2 1 1 3 [1; 2; 3] (read_blocks ex_stripe [1; 2; 3]) [x00] 1 0).[0] = ex_stripe.[0].[0].
Proof.
  apply (decode_glrc_restores 2 1 1 ex_stripe 1 0 [1; 2; 3]); try by_eval.
  - apply stripe_ok_eval. by_eval.
  - intros b. replace (glrc_build_placement_groups 2 1 1).[block_group 2 1 1 0] with [0; 1; 2; 3] by by_eval.
    reflexivity.
  - apply holds_eval. by_eval.
Defined.

(** [decode_unilrc] xors the remaining blocks of a UniLRC group and
    restores the lost one. *)
Theorem decode_unilrc_restores {K : Kernels} {KL : KernelLaws K} k r z data parity bs e f ids ptrs res :
  1 <= k -> 0 <= r -> 1 <= z -> (z | k) -> (z | r) -> zlen data = k -> zlen parity = r + z ->
  buffers (r + z) bs parity -> bs <= zlen res -> 0 <= e < z ->
  rest_of_group (k + r + z) (local_eq_coef k r (unilrc_coef k r z) e) f ids -> 2 <= zlen ids ->
  buffers (zlen ids) bs ptrs -> holds ids ptrs bs (data ++ encode_unilrc k r z data parity bs) ->
  forall i, 0 <= i < bs -> (decode_unilrc k r z (zlen ids) ids ptrs res bs).[i] =
    (data ++ encode_unilrc k r z data parity bs).[f].[i].
Proof. intros. eapply unilrc_repair; eassumption. Qed.

Definition ex_uni : list block := ex_data ++ encode_unilrc 2 1 1 ex_data ex_parity 1.

Lemma decode_unilrc_restores_witness :
  (decode_unilrc 2 1 1 3 [1; 2; 3] (read_blocks ex_uni [1; 2; 3]) [x00] 1).[0] = ex_uni.[0].[0].
Proof.
  apply (decode_unilrc_restores 2 1 1 ex_data ex_parity 1 0 0 [1; 2; 3]); try by_eval.
  - exists 2. reflexivity.
  - exists 1. reflexivity.
  - apply buffers_eval. by_eval.
  - apply rest_of_group_eval. by_eval.
  - apply buffers_eval. by_eval.
  - apply holds_eval. by_eval.
Defined.

(** [decode_azure_lrc], on a data block or a local parity, restores it
    from the rest of its data group. *)
Theorem decode_azure_lrc_restores {K : Kernels} {KL : KernelLaws K} k r z data parity bs e f ids ptrs res :
  1 <= k -> 0 <= r -> 1 <= z -> (z | k) -> zlen data = k -> zlen parity = r + z ->
  buffers (r + z) bs parity -> bs <= zlen res -> 0 <= e < z ->
  rest_of_group (k + r + z) (local_eq_coef k r (azure_coef k r z) e) f ids -> 2 <= zlen ids ->
  buffers (zlen ids) bs ptrs -> holds ids ptrs bs (data ++ encode_azure_lrc k r z data parity bs) ->
  forall i, 0 <= i < bs -> (decode_azure_lrc k r z (zlen ids) ids ptrs res bs f).[i] =
    (data ++ encode_azure_lrc k r z data parity bs).[f].[i].
Proof. intros. eapply azure_repair; eassumption. Qed.

Definition ex_azure : list block := ex_data ++ encode_azure_lrc 2 1 1 ex_data ex_parity 1.

Lemma decode_azure_lrc_restores_witness :
  (decode_azure_lrc 2 1 1 2 [1; 3] (read_blocks ex_azure [1; 3]) [x00] 1 0).[0] = ex_azure.[0].[0].
Proof.
  apply (decode_azure_lrc_restores 2 1 1 ex_data ex_parity 1 0 0 [1; 3]); try by_eval.
  - exists 2. reflexivity.
  - apply buffers_eval. by_eval.
  - apply rest_of_group_eval. by_eval.
  - apply buffers_eval. by_eval.
  - apply holds_eval. by_eval.
Defined.

(** [decode_optimal_lrc] restores a block from two partial calls, one
    over data blocks and one over parities, whose results are xored. *)
Theorem decode_optimal_lrc_restores {K : Kernels} {KL : KernelLaws K} k r z data parity bs e f ids1 ids2
    ptrs1 ptrs2 res1 res2 :
  1 <= k -> 0 <= r -> 1 <= z -> (z | k) -> zlen data = k -> zlen parity = r + z ->
  buffers (r + z) bs parity -> bs <= zlen res1 -> bs <= zlen res2 -> 0 <= e < z ->
  rest_of_group (k + r + z) (local_eq_coef k r (optimal_coef k r z) e) f (ids1 ++ ids2) ->
  1 <= zlen ids1 -> 1 <= zlen ids2 -> Forall (fun b => b < k) ids1 -> Forall (fun b => k <= b) ids2 ->
  holds ids1 ptrs1 bs (data ++ encode_optimal_lrc k r z data parity bs) ->
  holds ids2 ptrs2 bs (data ++ encode_optimal_lrc k r z data parity bs) ->
  forall i, 0 <= i < bs ->
  (decode_optimal_lrc k r z (zlen ids1) ids1 ptrs1 res1 bs f).[i] ⊕
  (decode_optimal_lrc k r z (zlen ids2) ids2 ptrs2 res2 bs f).[i] =
  (data ++ encode_optimal_lrc k r z data parity bs).[f].[i].
Proof. intros. eapply optimal_repair; eassumption. Qed.

Definition ex_optimal : list block := ex_data ++ encode_optimal_lrc 2 1 1 ex_data ex_parity 1.

Lemma decode_optimal_lrc_restores_witness :
  (decode_optimal_lrc 2 1 1 1 [1] (read_blocks ex_optimal [1]) [x00] 1 0).[0] ⊕
  (decode_optimal_lrc 2 1 1 2 [2; 3] (read_blocks ex_optimal [2; 3]) [x00] 1 0).[0] = ex_optimal.[0].[0].
Proof.
  apply (decode_optimal_lrc_restores 2 1 1 ex_data ex_parity 1 0 0 [1] [2; 3]); try by_eval.
  - exists 2. reflexivity.
  - apply buffers_eval. by_eval.
  - apply rest_of_group_eval. by_eval.
  - apply holds_eval. by_eval.
  - apply holds_eval. by_eval.
Defined.

(** [decode_uniform_lrc] computes exactly what [decode_glrc] does on the
    same arguments. *)
Theorem decode_uniform_is_decode_glrc {K : Kernels} k r z m ids ptrs res bs f :
  1 <= k -> 0 <= m -> (forall j, 0 <= j < m -> 0 <= ids.[j]) -> 0 <= f ->
  decode_uniform_lrc k r z m ids ptrs res bs f = decode_glrc k r z m ids ptrs res bs f.
Proof. intros. apply decode_uniform_glrc; assumption. Qed.

Lemma decode_uniform_is_decode_glrc_witness :
  decode_uniform_lrc 2 1 1 3 [1; 2; 3] (read_blocks ex_stripe [1; 2; 3]) [x00] 1 0 =
  decode_glrc 2 1 1 3 [1; 2; 3] (read_blocks ex_stripe [1; 2; 3]) [x00] 1 0.
Proof.
  apply decode_uniform_is_decode_glrc; try by_eval. intros j Hj. apply Z.leb_le.
  exact (check1_spec 3 (fun j => 0 <=? [1; 2; 3].[j]) eq_refl j Hj).
Defined.

(** The generators of Azure-LRC, Optimal-LRC and UniLRC write outside
    their [(k + r + z) * k] bytes when [z] does not divide [k]: with k = 5,
    r = 1 and z = 2 a byte past the matrix changes. *)
Theorem generators_overrun :
  let room := zrepeat x00 60 in
  let size := (5 + 1 + 2) * 5 in
  size = 40 /\
  (gen_azure_lrc_matrix room 5 1 2).[44] <> x00 /\
  (gen_optimal_lrc_matrix room 5 1 2).[44] <> x00 /\
  (gen_unilrc_matrix room 5 1 2).[44] <> x00.
Proof. cbv zeta. split; [reflexivity|]. repeat split; vm_compute; discriminate. Qed.
