(* ===== verification/RepairTheorems.v ===== *)
(** Properties of gLRC repair: the equation planners, the ILP decoders and the
    end-to-end guarantee that encoding, planning and decoding restore lost
    blocks; [get_multi_decode_plan]. *)
From S2P Require Import Prelude GF256 LinAlg GFMatrix EcKernel Groups Codes Decode DecodeSpec.
From S2P Require Import LocalRepair RepairPlan RepairPlanSpec RepairGuarantee MultiPlan.
From S2P Require Import RowSelection Examples.
From Stdlib Require Import Field.

(** * End to end *)

(** C4. For any data, any set of distinct lost blocks and any supported
    equation policy: if [glrc_solve_repair_plan] reports success on a stripe
    written by [encode_glrc], then [decode_glrc_ilp], fed with the helper
    blocks the plan names, succeeds and returns the lost blocks byte for byte. *)
Theorem repair_end_to_end {S : StdSort} {SL : StdSortLaws S} {K : Kernels} {KL : KernelLaws K}
    k r z data parity bs failed policy ptrs :
  1 <= k -> 0 <= r -> 1 <= z -> z <= k + r -> k + r <= 255 -> 0 <= bs ->
  zlen data = k -> zlen parity = r + z -> buffers (r + z) bs parity ->
  NoDup failed -> failed <> [] -> Forall (fun b => 0 <= b < k + r + z) failed ->
  known_policy policy = true ->
  let stripe := data ++ encode_glrc k r z data parity bs in
  let plan := glrc_solve_repair_plan k r z failed policy in
  success plan = true -> holds (helper_block_ids plan) ptrs bs stripe ->
  exists rec, decode_glrc_ilp k r z bs (helper_block_ids plan) ptrs failed
                (selected_equation_indices plan) = Some rec /\
    restored failed stripe bs 0 bs 0 rec.
Proof. intros. eapply plan_restores; try eassumption; reflexivity. Qed.

Definition ex_plan : GlrcIlpRepairPlan := glrc_solve_repair_plan 2 1 1 [0; 1] "ilp-min-helper".

Lemma repair_end_to_end_witness :
  exists rec, decode_glrc_ilp 2 1 1 1 (helper_block_ids ex_plan)
      (read_blocks ex_stripe (helper_block_ids ex_plan)) [0; 1] (selected_equation_indices ex_plan) = Some rec /\
    restored [0; 1] ex_stripe 1 0 1 0 rec.
Proof.
  apply (repair_end_to_end 2 1 1 ex_data ex_parity 1 [0; 1] "ilp-min-helper"); try by_eval.
  - apply buffers_eval. by_eval.
  - apply holds_eval. by_eval.
Defined.

(** * The planners *)

(** C9. Every policy is complete: the planner succeeds exactly when some
    choice of recovery equations determines the lost blocks. *)
Theorem planners_complete {S : StdSort} {SL : StdSortLaws S} k r z failed policy :
  1 <= k -> 0 <= r -> 1 <= z -> k + r <= 255 -> k + r + z < INT_MAX ->
  NoDup failed -> failed <> [] -> Forall (fun b => 0 <= b < k + r + z) failed ->
  known_policy policy = true ->
  (success (glrc_solve_repair_plan k r z failed policy) = true <->
   exists eqs, Forall (fun e => 0 <= e < z + r) eqs /\ zlen eqs = zlen failed /\
     nonsingular (zlen failed) (fun i t => glrc_eq_coef k r z eqs.[i] failed.[t])).
Proof. intros. apply plan_success_iff; assumption. Qed.

Lemma planners_complete_witness :
  success (glrc_solve_repair_plan 2 1 1 [0; 1; 2] "local-first") = true <->
  exists eqs, Forall (fun e => 0 <= e < 2) eqs /\ zlen eqs = 3 /\
    nonsingular 3 (fun i t => glrc_eq_coef 2 1 1 eqs.[i] [0; 1; 2].[t]).
Proof. apply (planners_complete 2 1 1 [0; 1; 2] "local-first"); by_eval. Defined.

(** C10. Up to [r] lost data or global-parity blocks are always planned for,
    whichever they are and whatever the policy. *)
Theorem payload_losses_planned {S : StdSort} {SL : StdSortLaws S} k r z failed policy :
  1 <= k -> 0 <= r -> 1 <= z -> k + r <= 255 -> k + r + z < INT_MAX ->
  NoDup failed -> failed <> [] -> Forall (fun b => 0 <= b < k + r) failed -> zlen failed <= r ->
  known_policy policy = true ->
  success (glrc_solve_repair_plan k r z failed policy) = true.
Proof.
  intros Hk Hr Hz Hkr Hm Hnd Hne Hf Hl Hp. apply plan_success_iff; auto.
  - eapply Forall_impl; [exact Hf|]. cbv beta. lia.
  - apply payload_recoverable; auto. lia.
Qed.

Lemma payload_losses_planned_witness :
  success (glrc_solve_repair_plan 2 1 1 [2] "global-first") = true.
Proof. apply payload_losses_planned; by_eval. Defined.

(** C11. The exhaustive planner reads the fewest helper blocks any decodable
    choice of equations reads. *)
Theorem ilp_plan_minimal {S : StdSort} {SL : StdSortLaws S} k r z failed eqs :
  1 <= k -> 0 <= r -> 1 <= z -> k + r + z < INT_MAX ->
  NoDup failed -> failed <> [] -> Forall (fun b => 0 <= b < k + r + z) failed ->
  good_selection k r z failed eqs ->
  success (glrc_solve_repair_ilp k r z failed) = true /\
  helper_block_count (glrc_solve_repair_ilp k r z failed) =
    zlen (helper_block_ids (glrc_solve_repair_ilp k r z failed)) /\
  helper_block_count (glrc_solve_repair_ilp k r z failed) <=
    zlen (union_helpers eqs (all_equations_of k r z) (list_to_set failed)).
Proof.
  intros Hk Hr Hz Hm Hnd Hne Hf Hg. destruct (ilp_decides k r z Hk Hr Hz failed Hnd Hne Hf Hm) as [Hd Hmin].
  destruct Hd as [(sel & _ & E)|[_ Hno]]; [|exfalso; exact (Hno eqs Hg)].
  split; [rewrite E; reflexivity|]. split; [rewrite E; reflexivity|apply Hmin, Hg].
Qed.

Lemma ilp_plan_minimal_witness :
  success (glrc_solve_repair_ilp 2 1 1 [0]) = true /\
  helper_block_count (glrc_solve_repair_ilp 2 1 1 [0]) = zlen (helper_block_ids (glrc_solve_repair_ilp 2 1 1 [0])) /\
  helper_block_count (glrc_solve_repair_ilp 2 1 1 [0]) <=
    zlen (union_helpers [0] (all_equations_of 2 1 1) (list_to_set [0])).
Proof.
  apply ilp_plan_minimal; try by_eval.
  apply good_selection_eval; try by_eval. apply valid_system_eval. by_eval.
Defined.

(** C18. When [glrc_failures_at_most_one_per_group] accepts the losses, the
    local-first planner succeeds with local equations only. *)
Theorem one_loss_per_group_is_local {S : StdSort} {SL : StdSortLaws S} k r z failed :
  1 <= k -> 0 <= r -> 1 <= z -> k + r <= 255 ->
  glrc_failures_at_most_one_per_group k r z failed = true ->
  let plan := glrc_solve_repair_local_first k r z failed in
  success plan = true /\ Forall (fun e => 0 <= e < z) (selected_equation_indices plan).
Proof.
  intros Hk Hr Hz Hkr Hone plan. pose proof Hone as H.
  apply (at_most_one_spec k r z Hk Hr Hz) in H as (Hne & Hf & Hg).
  pose proof (NoDup_fmap_1 _ _ Hg) as Hnd.
  pose proof (one_per_group_good k r z Hk Hr Hz failed Hkr Hone) as Hgood.
  destruct (local_first_decides k r z Hk Hr Hz failed Hnd Hne Hf) as [Hd Hmax]. fold plan in Hd, Hmax.
  destruct Hd as [(sel & Hs & E)|[_ Hno]]; [|exfalso; exact (Hno _ Hgood)].
  specialize (Hmax _ Hgood). rewrite E in Hmax |- *. split; [reflexivity|].
  apply (all_local_of_count z sel); [eapply Forall_impl; [apply Hs|]; cbv beta; lia|].
  transitivity (zlen failed); [|etransitivity; [|exact Hmax]].
  - destruct Hs as (_ & -> & _). reflexivity.
  - apply block_groups_local; auto.
Qed.

Lemma one_loss_per_group_is_local_witness :
  success (glrc_solve_repair_local_first 3 1 2 [0; 2]) = true /\
  Forall (fun e => 0 <= e < 2) (selected_equation_indices (glrc_solve_repair_local_first 3 1 2 [0; 2])).
Proof. apply (one_loss_per_group_is_local 3 1 2 [0; 2]); by_eval. Defined.

(** * The ILP decoders *)

(** C14. [decode_glrc_ilp] succeeds exactly when the selected equations
    determine the lost blocks and involve only helpers besides them, and then
    returns the lost blocks. *)
Theorem decode_glrc_ilp_correct {K : Kernels} {KL : KernelLaws K} k r z bs helpers ptrs failed eqs stripe :
  1 <= k -> 0 <= r -> 1 <= z -> 0 <= bs -> valid_system k r z failed eqs -> failed <> [] -> helpers <> [] ->
  stripe_ok k r z bs stripe -> holds helpers ptrs bs stripe ->
  (solvable k r z helpers failed eqs ->
     exists rec, decode_glrc_ilp k r z bs helpers ptrs failed eqs = Some rec /\
       restored failed stripe bs 0 bs 0 rec) /\
  (~ solvable k r z helpers failed eqs -> decode_glrc_ilp k r z bs helpers ptrs failed eqs = None).
Proof. intros. apply decode_glrc_ilp_spec; assumption. Qed.

Lemma decode_glrc_ilp_correct_witness :
  exists rec, decode_glrc_ilp 2 1 1 1 [1; 2; 3] (read_blocks ex_stripe [1; 2; 3]) [0] [0] = Some rec /\
    restored [0] ex_stripe 1 0 1 0 rec.
Proof.
  assert (Hv : valid_system 2 1 1 [0] [0]) by (apply valid_system_eval; by_eval).
  apply (decode_glrc_ilp_correct 2 1 1 1 [1; 2; 3]); try by_eval; try exact Hv.
  - apply stripe_ok_eval. by_eval.
  - apply holds_eval. by_eval.
  - apply solvable_eval; try by_eval. exact Hv.
Defined.

(** [decode_glrc_ilp_range] decodes a byte range from full blocks: the
    returned buffers hold the requested bytes of the lost blocks. *)
Theorem decode_glrc_ilp_range_correct k r z bs helpers ptrs failed eqs stripe off len :
  1 <= k -> 0 <= r -> 1 <= z -> valid_system k r z failed eqs -> failed <> [] ->
  stripe_ok k r z bs stripe -> holds helpers ptrs bs stripe -> 0 <= off -> 1 <= len -> off + len <= bs ->
  (solvable k r z helpers failed eqs ->
     exists rec, decode_glrc_ilp_range k r z bs helpers ptrs failed eqs off len = Some rec /\
       restored failed stripe bs off (off + len) 0 rec) /\
  (~ solvable k r z helpers failed eqs ->
     decode_glrc_ilp_range k r z bs helpers ptrs failed eqs off len = None).
Proof. intros. apply decode_glrc_ilp_range_spec; assumption. Qed.

Lemma decode_glrc_ilp_range_correct_witness :
  exists rec, decode_glrc_ilp_range 2 1 1 1 [1; 2; 3] (read_blocks ex_stripe [1; 2; 3]) [0] [0] 0 1 = Some rec /\
    restored [0] ex_stripe 1 0 1 0 rec.
Proof.
  assert (Hv : valid_system 2 1 1 [0] [0]) by (apply valid_system_eval; by_eval).
  apply (decode_glrc_ilp_range_correct 2 1 1 1 [1; 2; 3]); try by_eval; try exact Hv.
  - apply stripe_ok_eval. by_eval.
  - apply holds_eval. by_eval.
  - apply solvable_eval; try by_eval. exact Hv.
Defined.

(** C25. The phase-2 path, [glrc_ilp_prepare_helper_decode] once and
    [decode_glrc_ilp_helper_compact] per byte range, restores that range of
    the lost blocks; preparation fails exactly on unsolvable systems. *)
Theorem helper_compact_correct {K : Kernels} {KL : KernelLaws K} k r z helpers ptrs failed eqs stripe base off len :
  1 <= k -> 0 <= r -> 1 <= z -> valid_system k r z failed eqs -> failed <> [] -> helpers <> [] ->
  stripe_ok k r z (off + len) stripe -> 0 <= base <= off -> 0 <= len ->
  (forall h i, 0 <= h < zlen helpers -> off <= i < off + len ->
     ptrs.[h].[i - base] = stripe.[helpers.[h]].[i]) ->
  match glrc_ilp_prepare_helper_decode k r z helpers failed eqs with
  | Some (A_inv, indices, coefs) =>
      solvable k r z helpers failed eqs /\
      exists rec, decode_glrc_ilp_helper_compact ptrs A_inv indices coefs (zlen failed) base off len = Some rec /\
        restored failed stripe len off (off + len) off rec
  | None => ~ solvable k r z helpers failed eqs
  end.
Proof. intros. apply helper_compact_spec; assumption. Qed.

Lemma helper_compact_correct_witness :
  match glrc_ilp_prepare_helper_decode 2 1 1 [1; 2; 3] [0] [0] with
  | Some (A_inv, indices, coefs) =>
      solvable 2 1 1 [1; 2; 3] [0] [0] /\
      exists rec, decode_glrc_ilp_helper_compact (read_blocks ex_stripe [1; 2; 3]) A_inv indices coefs
                    1 0 0 1 = Some rec /\ restored [0] ex_stripe 1 0 1 0 rec
  | None => ~ solvable 2 1 1 [1; 2; 3] [0] [0]
  end.
Proof.
  apply (helper_compact_correct 2 1 1 [1; 2; 3] (read_blocks ex_stripe [1; 2; 3]) [0] [0] ex_stripe 0 0 1);
    try by_eval.
  - apply valid_system_eval. by_eval.
  - apply stripe_ok_eval. by_eval.
  - intros h i Hh Hi. rewrite Z.sub_0_r. revert h i Hh Hi. apply (holds_eval [1; 2; 3]). by_eval.
Defined.

(** [decode_glrc_ilp_helper_compact_prepared], which works on prebuilt
    multiplication tables and reuses its buffers whatever they held, returns
    exactly what [decode_glrc_ilp_helper_compact] returns. *)
Theorem helper_compact_prepared_equiv {K : Kernels} {KL : KernelLaws K} ptrs A_inv B
    (terms : list (list (Z * byte))) f base off len rhs0 rec0 :
  1 <= f -> 0 <= base <= off -> 0 <= len -> zlen A_inv = f * f -> is_mx f f A_inv B -> zlen terms = f ->
  Forall (fun t => 1 <= zlen t) terms ->
  let g_tbls := map (fun t => ec_init_tables (zlen t) 1 (map snd t) (new_bytes (zlen t * 32))) terms in
  let inv_g_tbls := ec_init_tables f f A_inv (new_bytes (f * f * 32)) in
  exists rhs rec,
    decode_glrc_ilp_helper_compact_prepared ptrs (map (map fst) terms) g_tbls inv_g_tbls f base off len rhs0 rec0 =
      (true, (rhs, rec)) /\
    decode_glrc_ilp_helper_compact ptrs A_inv (map (map fst) terms) (map (map snd) terms) f base off len = Some rec.
Proof.
  intros Hf Hb Hl HA HB Ht Hpos g_tbls inv_g_tbls.
  apply (helper_compact_prepared_eq ptrs A_inv B terms g_tbls inv_g_tbls); auto.
  - unfold g_tbls. rewrite length_map. exact Ht.
  - unfold inv_g_tbls. rewrite ec_init_tables_len; unfold new_bytes; rewrite ?zlen_zrepeat by nia; nia.
  - apply ec_init_tables_spec; unfold new_bytes; rewrite ?zlen_zrepeat by nia; nia.
  - intros e He. assert (Hte : 1 <= zlen terms.[e]).
    { rewrite Forall_forall in Hpos. apply Hpos, list_elem_of_In, zget_In. lia. }
    unfold g_tbls. rewrite zget_map by lia. split; [|apply ec_init_tables_row, Hte].
    rewrite ec_init_tables_len; unfold new_bytes; rewrite ?zlen_zrepeat by nia; nia.
Qed.

Lemma helper_compact_prepared_equiv_witness :
  exists rhs rec,
    decode_glrc_ilp_helper_compact_prepared [[x07]] [[0]] [ec_init_tables 1 1 [x03] (new_bytes 32)]
      (ec_init_tables 1 1 [x05] (new_bytes 32)) 1 0 0 1 [] [] = (true, (rhs, rec)) /\
    decode_glrc_ilp_helper_compact [[x07]] [x05] [[0]] [[x03]] 1 0 0 1 = Some rec.
Proof.
  apply (helper_compact_prepared_equiv [[x07]] [x05] (fun _ _ => x05) [[(0, x03)]] 1 0 0 1 [] []); try by_eval.
  split; [by_eval|]. intros i j Hi Hj. replace i with 0 by lia. replace j with 0 by lia. reflexivity.
Defined.

(** The pipeline path: the inverse prepared by [glrc_ilp_prepare_inverse]
    and applied by [decode_glrc_ilp_rhs_compact] to right-hand sides collected
    elsewhere restores the lost blocks; preparation fails exactly when the
    system is singular. *)
Theorem rhs_compact_correct k r z rhs_ptrs failed eqs stripe off len :
  1 <= k -> 0 <= r -> 1 <= z -> valid_system k r z failed eqs -> failed <> [] ->
  stripe_ok k r z (off + len) stripe -> 0 <= off -> 0 <= len -> zlen rhs_ptrs = zlen failed ->
  holds_rhs k r z failed eqs rhs_ptrs off (off + len) off stripe ->
  match glrc_ilp_prepare_inverse k r z failed eqs with
  | Some A_inv =>
      nonsingular (zlen failed) (system_mx k r z failed eqs) /\
      exists rec, decode_glrc_ilp_rhs_compact rhs_ptrs A_inv (zlen failed) len = Some rec /\
        restored failed stripe len off (off + len) off rec
  | None => ~ nonsingular (zlen failed) (system_mx k r z failed eqs)
  end.
Proof. intros. apply rhs_compact_spec; assumption. Qed.

(** The surviving part of the local equation of [ex_stripe]. *)
Definition ex_rhs : list block :=
  [[xsum 4 (fun b => if bool_decide (b ∈ [0]) then x00 else glrc_eq_coef 2 1 1 0 b ⊗ ex_stripe.[b].[0])]].

Lemma rhs_compact_correct_witness :
  match glrc_ilp_prepare_inverse 2 1 1 [0] [0] with
  | Some A_inv =>
      nonsingular 1 (system_mx 2 1 1 [0] [0]) /\
      exists rec, decode_glrc_ilp_rhs_compact ex_rhs A_inv 1 1 = Some rec /\
        restored [0] ex_stripe 1 0 1 0 rec
  | None => ~ nonsingular 1 (system_mx 2 1 1 [0] [0])
  end.
Proof.
  apply (rhs_compact_correct 2 1 1 ex_rhs [0] [0] ex_stripe 0 1); try by_eval.
  - apply valid_system_eval. by_eval.
  - apply stripe_ok_eval. by_eval.
  - intros ei i Hei Hi. cbn [length Z.of_nat] in Hei. replace ei with 0 by lia. replace i with 0 by lia.
    vm_compute. reflexivity.
Defined.

(** * [get_multi_decode_plan] *)

(** C27. A plan of [get_multi_decode_plan] names [k] distinct surviving rows
    and, for every lost block, coefficients whose combination of the named
    blocks is the lost block, for any data. *)
Theorem multi_plan_sound ct k r z failed chosen factors (d : Z -> byte) :
  1 <= k -> 0 <= r -> 1 <= z -> family_shape ct k r z -> Forall (fun f => 0 <= f < k + r + z) failed ->
  get_multi_decode_plan k r z ct failed = Some (chosen, factors) ->
  zlen chosen = k /\ NoDup chosen /\ Forall (fun i => 0 <= i < k + r + z /\ i ∉ failed) chosen /\
  Forall2 (fun f coeff => zlen coeff = k /\
    xsum k (fun i => byte_of_Z coeff.[i] ⊗ encoded k (family_gen ct k r z) d chosen.[i]) =
    encoded k (family_gen ct k r z) d f) failed factors.
Proof.
  intros Hk Hr Hz Hs Hf H.
  destruct (get_multi_decode_plan_sound ct k r z failed chosen factors Hk Hr Hz Hs Hf H) as (H1 & H2 & H3 & H4).
  split; [exact H1|]. split; [exact H2|]. split; [exact H3|]. eapply Forall2_impl; [exact H4|].
  intros f coeff He. split; [apply He|apply expresses_value, He].
Qed.

Lemma multi_plan_sound_witness :
  zlen [0; 1; 4; 3] = 4 /\ NoDup [0; 1; 4; 3] /\ Forall (fun i => 0 <= i < 7 /\ i ∉ [2]) [0; 1; 4; 3] /\
  Forall2 (fun f coeff => zlen coeff = 4 /\
    xsum 4 (fun i => byte_of_Z coeff.[i] ⊗ encoded 4 (family_gen "gLRC" 4 1 2) byte_of_Z [0; 1; 4; 3].[i]) =
    encoded 4 (family_gen "gLRC" 4 1 2) byte_of_Z f) [2] [[143; 245; 6; 187]].
Proof.
  apply (multi_plan_sound "gLRC" 4 1 2 [2] [0; 1; 4; 3] [[143; 245; 6; 187]] byte_of_Z); try by_eval.
  right; right; right; left. reflexivity.
Defined.

(** C32. It returns a plan exactly when the rows it considers (all surviving
    payload rows, then local parities until there are [k] rows) determine the
    data; the inversion after the row selection never fails. *)
Theorem multi_plan_complete ct k r z failed :
  1 <= k -> 0 <= r -> 1 <= z -> family_shape ct k r z ->
  is_Some (get_multi_decode_plan k r z ct failed) <->
  determines k (family_gen ct k r z) (candidate_rows k (k + r) (k + r + z) (list_to_set failed)).
Proof. apply get_multi_decode_plan_complete. Qed.

Lemma multi_plan_complete_witness :
  is_Some (get_multi_decode_plan 2 1 1 "AzureLRC" [0]) <->
  determines 2 (family_gen "AzureLRC" 2 1 1) (candidate_rows 2 3 4 (list_to_set [0])).
Proof.
  apply (multi_plan_complete "AzureLRC" 2 1 1 [0]); try by_eval.
  right; left. split; [reflexivity|]. exists 2. reflexivity.
Defined.

(** The cut at [k] rows loses recoverable patterns: for a (4, 1, 2) gLRC
    stripe that lost blocks 2 and 4 the function gives up although the
    survivors determine the stripe. *)
Theorem multi_plan_gives_up :
  get_multi_decode_plan 4 1 2 "gLRC" [2; 4] = None /\
  determines 4 (family_gen "gLRC" 4 1 2) [0; 1; 3; 5; 6].
Proof.
  split; [vm_compute; reflexivity|].
  destruct (code_gen_matrix_spec "gLRC" 4 1 2) as (a & Ea & Ha);
    [lia..|right; right; right; left; reflexivity|].
  apply (determines_mono 4 _ [0; 1; 3; 6]); [set_solver|].
  apply (inverse_determines 4 7 _ a); [lia|exact Ha|by_eval|reflexivity|].
  assert (E : option_map (fun a => fst (gf_invert_matrix (copy_rows 4 [0; 1; 3; 6] a) (new_bytes (4 * 4)) 4))
                (code_gen_matrix "gLRC" 4 1 2) = Some 0) by (vm_compute; reflexivity).
  rewrite Ea in E. injection E as E. exact E.
Qed.
