(* ===== verification/ScheduleTheorems.v ===== *)
(** Properties of the repair schedules: placement groups, pipeline plans and
    sessions, shard plans, and the splits of a block between repair modes. *)
From S2P Require Import Prelude GF256 LinAlg GFMatrix EcKernel Groups Codes Decode DecodeSpec.
From S2P Require Import LocalRepair CNum RepairPlan RepairPlanSpec RepairGuarantee ShardPlan.
From S2P Require Import Hmbr Hybrid PipelineCodec PipelinePlan PipelineSession Examples.
From Stdlib Require Import Field.

(** * Placement groups *)

(** [glrc_build_placement_groups] deals every block of the stripe to
    exactly one group, the one [glrc_payload_group_id] names for payload blocks;
    every group ends with its local parity and group sizes differ by at most
    one. *)
Theorem placement_groups_partition k r z :
  0 <= k -> 0 <= r -> 1 <= z ->
  let groups := glrc_build_placement_groups k r z in
  zlen groups = z /\
  (forall b, 0 <= b < k + r + z -> exists! g, 0 <= g < z /\ In b groups.[g]) /\
  (forall b, 0 <= b < k + r -> In b groups.[glrc_payload_group_id b k r z]) /\
  (forall g h, 0 <= g < z -> 0 <= h < z -> last groups.[g] = Some (k + r + g) /\ NoDup groups.[g] /\
     zlen groups.[g] <= zlen groups.[h] + 1).
Proof.
  intros Hk Hr Hz groups. destruct (placement_groups_spec k r z Hk Hr Hz) as [Hlen Hg].
  split; [exact Hlen|]. split; [|split].
  - intros b Hb. exists (block_group k r z b).
    assert (Hbg := block_group_range k r z Hk Hr Hz b Hb). split.
    + split; [exact Hbg|]. apply placement_group_iff; auto.
    + intros g [Hg1 Hg2]. apply placement_group_iff in Hg2; auto.
  - intros b Hb. destruct (payload_group_id_spec k r z Hk Hr Hz b Hb) as [H1 H2].
    apply in_placement_group; auto.
  - intros g h Hg1 Hh1. unfold groups. rewrite !Hg by assumption. split; [apply last_snoc|].
    split; [rewrite <- Hg by assumption; apply placement_group_nodup; auto|].
    rewrite !length_app, !length_seqZ. cbn [length].
    pose proof (base_larger k r z Hk Hr Hz). pose proof (payload_start_mono k r z Hk Hr Hz g (g + 1) ltac:(lia)).
    pose proof (payload_start_mono k r z Hk Hr Hz h (h + 1) ltac:(lia)). unfold payload_start in *. lia.
Qed.

Lemma placement_groups_partition_witness :
  last (glrc_build_placement_groups 3 1 2).[0] = Some 4 /\ NoDup (glrc_build_placement_groups 3 1 2).[0] /\
  zlen (glrc_build_placement_groups 3 1 2).[0] <= zlen (glrc_build_placement_groups 3 1 2).[1] + 1.
Proof. apply (placement_groups_partition 3 1 2); by_eval. Defined.

(** * Pipelined repair *)

Definition ex_node : GlrcPipelineNodeLookup :=
  {| node_id := 1; datanode_ip := "10.0.0.1"; datanode_port := 1; proxy_ip := "10.0.0.2"; proxy_port := 2;
     block_key := "b" |}.
Definition ex_lookup (n : Z) : list GlrcPipelineNodeLookup := zrepeat ex_node n.

Lemma ex_lookup_complete k r z : 0 <= k + r + z -> complete_lookup k r z (ex_lookup (k + r + z)).
Proof.
  intros Hn. split; [unfold ex_lookup; rewrite zlen_zrepeat by lia; lia|]. intros b Hb.
  unfold ex_lookup. rewrite zget_zrepeat by lia. split; discriminate.
Qed.

(** On a node table with an address for every block,
    [glrc_build_pipeline_plan] succeeds for every repair plan and hub, and the
    chains it builds are in one-to-one order with the selected equations. *)
Theorem pipeline_plan_total {S : StdSort} {SL : StdSortLaws S} k r z failed rp hub lookup epoch :
  1 <= k -> 0 <= r -> 1 <= z -> z <= k + r -> complete_lookup k r z lookup -> 0 <= hub < k + r + z -> hub ∉ failed ->
  Forall (fun e => 0 <= e < z + r) (selected_equation_indices rp) ->
  exists p chains, glrc_build_pipeline_plan k r z failed rp (all_equations_of k r z) hub lookup epoch = inl p /\
    map equation_index chains = selected_equation_indices rp /\
    hub_chains p = List.filter (fun c => negb (local_direct c)) chains /\
    local_direct_chains p = List.filter local_direct chains.
Proof.
  intros Hk Hr Hz Hzk Hl Hhub Hhf Hs.
  destruct (build_chains_total k r z Hk Hr Hz failed hub lookup 0 _ Hzk Hl Hhub Hs) as [chains Hc].
  unfold glrc_build_pipeline_plan. destruct (Z.ltb_spec hub 0); [lia|].
  destruct Hl as [Hl _]. destruct (Z.geb_spec hub (zlen lookup)); [lia|]. cbn [orb]. rewrite Hc.
  eexists _, chains. split; [reflexivity|]. split; [|split; reflexivity].
  apply (chains_equations k r z Hk Hr Hz failed hub lookup 0); assumption.
Qed.

Definition ex_hub_plan : GlrcIlpRepairPlan := glrc_solve_repair_plan 2 2 1 [0; 1] "global-first".

Lemma pipeline_plan_total_witness :
  exists p chains, glrc_build_pipeline_plan 2 2 1 [0; 1] ex_hub_plan (all_equations_of 2 2 1) 2 (ex_lookup 5) 7 = inl p /\
    map equation_index chains = selected_equation_indices ex_hub_plan /\
    hub_chains p = List.filter (fun c => negb (local_direct c)) chains /\
    local_direct_chains p = List.filter local_direct chains.
Proof.
  apply (pipeline_plan_total 2 2 1 [0; 1] ex_hub_plan 2 (ex_lookup 5) 7); try by_eval.
  apply (ex_lookup_complete 2 2 1). lia.
Defined.

(** When the plan has only hub chains, the right-hand sides accumulated
    along the chains, solved at the hub, restore every lost block on any byte
    range, whichever codec the hops use. *)
Theorem pipeline_hub_restores {S : StdSort} {SL : StdSortLaws S} k r z failed hub lookup rp epoch p codec
    stripe off len :
  1 <= k -> 0 <= r -> 1 <= z -> 0 <= hub < k + r + z -> hub ∉ failed -> NoDup failed -> failed <> [] ->
  Forall (fun b => 0 <= b < k + r + z) failed ->
  good_selection k r z failed (selected_equation_indices rp) ->
  glrc_build_pipeline_plan k r z failed rp (all_equations_of k r z) hub lookup epoch = inl p ->
  local_direct_chains p = [] -> stripe_ok k r z (off + len) stripe -> 0 <= off -> 0 <= len ->
  exists rec, hub_recover k r z failed p (hub_rhs codec stripe off len p) len = Some rec /\
    restored failed stripe len off (off + len) off rec.
Proof. intros. eapply hub_only_restores; eassumption. Qed.

Definition ex_stripe2 : list block := ex_data ++ encode_glrc 2 2 1 ex_data [[x00]; [x00]; [x00]] 1.

Definition plan_of_sum (x : GlrcPipelinePlan + string) : GlrcPipelinePlan :=
  match x with
  | inl p => p
  | inr _ => {| plan_hub_block_id := -1; hub_proxy_ip := ""; hub_proxy_port := 0; hub_datanode_ip := "";
                hub_datanode_port := 0; hub_block_key := ""; hub_coef := x00; exchange_epoch := 0;
                hub_chains := []; local_direct_chains := [] |}
  end.

Definition ex_pipeline : GlrcPipelinePlan :=
  plan_of_sum (glrc_build_pipeline_plan 2 2 1 [0; 1] ex_hub_plan (all_equations_of 2 2 1) 2 (ex_lookup 5) 7).

Lemma pipeline_hub_restores_witness :
  exists rec, hub_recover 2 2 1 [0; 1] ex_pipeline (hub_rhs GLOBAL_CAUCHY ex_stripe2 0 1 ex_pipeline) 1 = Some rec /\
    restored [0; 1] ex_stripe2 1 0 1 0 rec.
Proof.
  apply (pipeline_hub_restores 2 2 1 [0; 1] 2 (ex_lookup 5) ex_hub_plan 7 ex_pipeline GLOBAL_CAUCHY ex_stripe2 0 1);
    try by_eval.
  - apply good_selection_eval; try by_eval. apply valid_system_eval. by_eval.
  - apply stripe_ok_eval. by_eval.
Defined.

(** The hub the coordinator picks does not depend on the traversal order
    of its hash map: it is the surviving block that occurs in the most selected
    equations, the smallest id among those. *)
Theorem hub_selection_deterministic k r z failed selected entries helpers :
  1 <= k -> 0 <= r -> 1 <= z -> Forall (fun e => 0 <= e < z + r) selected ->
  entries ≡ₚ map_to_list (helper_equation_count selected (all_equations_of k r z) (list_to_set failed)) ->
  (exists b, b ∉ failed /\ 1 <= occurrences selected (all_equations_of k r z) b) ->
  exists h, select_hub entries helpers = Some h /\ best_hub k r z failed selected h /\
    forall h', best_hub k r z failed selected h' -> h' = h.
Proof.
  intros Hk Hr Hz Hs Hp He.
  destruct (select_hub_spec k r z Hk Hr Hz failed selected Hs entries helpers Hp He) as (h & H1 & H2).
  exists h. split; [exact H1|]. split; [exact H2|]. intros h' H'. eapply best_hub_unique; eassumption.
Qed.

Lemma hub_selection_deterministic_witness :
  exists h, select_hub (map_to_list (helper_equation_count [0; 1] (all_equations_of 2 1 1) (list_to_set [0; 1]))) [] =
    Some h /\ best_hub 2 1 1 [0; 1] [0; 1] h /\ forall h', best_hub 2 1 1 [0; 1] [0; 1] h' -> h' = h.
Proof.
  apply hub_selection_deterministic; try by_eval; [reflexivity|].
  exists 2. split; by_eval.
Defined.

(** A local-direct chain does not deliver the lost block but the lost
    block times its own local coefficient, and that is what the sink writes
    back: correct exactly for blocks whose coefficient is 1 (every parity). *)
Theorem local_direct_delivers_scaled {S : StdSort} {SL : StdSortLaws S} k r z failed hub lookup slot e c codec
    stripe bs off len :
  1 <= k -> 0 <= r -> 1 <= z -> 0 <= e < z + r -> 0 <= hub < k + r + z -> hub ∉ failed ->
  stripe_ok k r z bs stripe ->
  build_chain k r z (list_to_set failed) (all_equations_of k r z) hub lookup slot e = inl c ->
  local_direct c = true -> 0 <= off -> off + len <= bs ->
  forall i, 0 <= i < len ->
  let f := local_direct_failed_block_id c in
  (run_chain codec len (chain_inputs stripe off c)).[i] =
    glrc_local_block_coefficient f k r ⊗ stripe.[f].[off + i] /\
  (stripe.[f].[off + i] <> x00 ->
   ((run_chain codec len (chain_inputs stripe off c)).[i] = stripe.[f].[off + i] <->
    glrc_local_block_coefficient f k r = x01)).
Proof.
  intros Hk Hr Hz He Hhub Hhf Hs Hc Hld Ho Hlen i Hi f.
  pose proof (local_direct_result k r z Hk Hr Hz failed hub lookup slot e c codec stripe bs off len i
    He Hhub Hhf Hs Hc Hld Ho Hi Hlen) as E. cbv zeta in E. fold f in E.
  split; [exact E|]. intros Hnz. rewrite E. set (x := stripe.[f].[off + i]) in *.
  set (a := glrc_local_block_coefficient f k r). split; [intros H|intros ->; ring].
  apply bxor_eq_0. assert (Hp : (a ⊕ x01) ⊗ x = x00).
  { transitivity (a ⊗ x ⊕ x); [ring|]. rewrite H. ring. }
  apply gf_mul_eq_0 in Hp as [|]; [assumption|contradiction].
Qed.

Definition ex_local_chain : GlrcPipelineChainPlan + string :=
  build_chain 2 1 1 (list_to_set [0]) (all_equations_of 2 1 1) 1 (ex_lookup 4) 0 0.

Lemma local_direct_delivers_scaled_witness :
  exists c, ex_local_chain = inl c /\ local_direct_failed_block_id c = 0 /\
    (run_chain LOCAL_LINEAR 1 (chain_inputs ex_stripe 0 c)).[0] <> ex_stripe.[0].[0].
Proof.
  destruct ex_local_chain as [c|] eqn:E; [|vm_compute in E; discriminate].
  assert (H1 : local_direct c = true) by (vm_compute in E; injection E as <-; reflexivity).
  assert (H2 : local_direct_failed_block_id c = 0) by (vm_compute in E; injection E as <-; reflexivity).
  exists c. split; [reflexivity|]. split; [exact H2|].
  destruct (local_direct_delivers_scaled 2 1 1 [0] 1 (ex_lookup 4) 0 0 c LOCAL_LINEAR ex_stripe 1 0 1) with (i := 0)
    as [_ H]; try by_eval.
  - apply stripe_ok_eval. by_eval.
  - exact E.
  - exact H1.
  - rewrite H2 in H. intros Heq. apply H in Heq; [vm_compute in Heq|vm_compute]; discriminate.
Defined.

(** Local-direct and hub chains do not combine: with blocks 0, 2 and 3 of
    a (4, 1, 2) stripe lost, the local-first plan repairs block 0 by a local
    chain and leaves it out of the hub's system although the global equation
    the hub solves involves it; the hub then returns wrong bytes for block 2. *)
Theorem mixed_pipeline_corrupts :
  let data := [[x01]; [x02]; [x03]; [x04]] in
  let stripe := data ++ encode_glrc 4 1 2 data [[x00]; [x00]; [x00]] 1 in
  let failed := [0; 2; 3] in
  let plan := glrc_solve_repair_plan 4 1 2 failed "local-first" in
  exists p rec,
    success plan = true /\
    select_hub (map_to_list (helper_equation_count (selected_equation_indices plan) (all_equations_of 4 1 2)
                               (list_to_set failed))) (helper_block_ids plan) = Some 1 /\
    glrc_build_pipeline_plan 4 1 2 failed plan (all_equations_of 4 1 2) 1 (ex_lookup 7) 0 = inl p /\
    map local_direct_failed_block_id (local_direct_chains p) = [0] /\ hub_failed_ids failed p = [2; 3] /\
    hub_recover 4 1 2 failed p (hub_rhs GLOBAL_CAUCHY stripe 0 1 p) 1 = Some rec /\
    rec.[0].[0] <> stripe.[2].[0].
Proof.
  cbv zeta. eexists _, _. split; [vm_compute; reflexivity|]. split; [vm_compute; reflexivity|].
  split; [vm_compute; reflexivity|]. split; [vm_compute; reflexivity|]. split; [vm_compute; reflexivity|].
  split; [vm_compute; reflexivity|]. vm_compute. discriminate.
Qed.

(** [glrc_pipeline_verify_coef_row] accepts exactly the row
    [glrc_pipeline_build_coef_row] builds, and that row holds the coefficients
    of the recovery equation. *)
Theorem verify_coef_row_exact k r z e row :
  1 <= k -> 0 <= r -> 1 <= z -> 0 <= e < z + r ->
  (glrc_pipeline_verify_coef_row k r z e row = None <-> row = glrc_pipeline_build_coef_row k r z e) /\
  forall b, 0 <= b < k + r + z -> (glrc_pipeline_build_coef_row k r z e).[b] = glrc_eq_coef k r z e b.
Proof.
  intros Hk Hr Hz He. split; [apply verify_coef_row_spec; auto|]. intros b Hb. apply row_coef; auto.
Qed.

Lemma verify_coef_row_exact_witness :
  (glrc_pipeline_verify_coef_row 2 1 1 1 [x00; x00; x00; x00] = None <->
   [x00; x00; x00; x00] = glrc_pipeline_build_coef_row 2 1 1 1) /\
  forall b, 0 <= b < 4 -> (glrc_pipeline_build_coef_row 2 1 1 1).[b] = glrc_eq_coef 2 1 1 1 b.
Proof. apply (verify_coef_row_exact 2 1 1 1); by_eval. Defined.

(** * Shard plans *)

(** C37. A phase-2 shard plan deals the active shards to the lost blocks:
    every shard has exactly one owner, shares differ by at most one, each
    partition's byte range is its shards' and the slices tile it in order. *)
Theorem shard_plan_tiles a bs failed clusters ips ports g plan :
  build a bs failed clusters ips ports g = inl plan ->
  let f := zlen failed in
  let begin i := shard_begin (partitions plan).[i] in
  let count i := partition_shard_count (partitions plan).[i] in
  zlen (partitions plan) = f /\
  (forall s, 0 <= s < a -> exists! i, 0 <= i < f /\ begin i <= s < begin i + count i) /\
  (forall i j, 0 <= i < f -> 0 <= j < f -> count i <= count j + 1) /\
  (forall i, 0 <= i < f -> 0 <= begin i /\ begin i + count i <= a /\
     failed_block_id (partitions plan).[i] = failed.[i] /\
     partition_byte_off (partitions plan).[i] = begin i * ShardPlan.stripe_byte_len plan /\
     partition_byte_len (partitions plan).[i] = count i * ShardPlan.stripe_byte_len plan /\
     zlen (shards (partitions plan).[i]) = count i /\
     forall t, 0 <= t < count i -> shard_id (shards (partitions plan).[i]).[t] = begin i + t /\
       slice_byte_off (shards (partitions plan).[i]).[t] = (begin i + t) * ShardPlan.stripe_byte_len plan).
Proof.
  intros H f begin count.
  destruct (build_spec a bs failed clusters ips ports g plan H)
    as (Hf & Ha & _ & _ & _ & _ & _ & _ & _ & Hst & _ & Hlen & Hp). cbv zeta in *. fold f in Hf, Hlen, Hp.
  assert (Hb : forall i, 0 <= i < f -> begin i = cursor a f i) by (intros i Hi; unfold begin; rewrite Hp by lia; reflexivity).
  assert (Hc : forall i, 0 <= i < f -> begin i + count i = cursor a f (i + 1)).
  { intros i Hi. rewrite Hb by lia. unfold count. rewrite Hp by lia. cbn [partition_shard_count make_partition]. lia. }
  split; [exact Hlen|]. split; [|split].
  - intros s Hs. destruct (cursor_owner a f ltac:(lia) Hf s Hs) as (i & [Hi Hr] & Hu). exists i. split.
    + split; [exact Hi|]. rewrite Hc, Hb by lia. exact Hr.
    + intros j [Hj Hrj]. apply Hu. split; [exact Hj|]. rewrite Hc, Hb in Hrj by lia. exact Hrj.
  - intros i j Hi Hj. pose proof (Hc i Hi). pose proof (Hc j Hj). pose proof (Hb i Hi). pose proof (Hb j Hj).
    pose proof (cursor_balanced a f i Hi). pose proof (cursor_balanced a f j Hj). lia.
  - intros i Hi. rewrite Hc, Hb by lia.
    pose proof (cursor_mono a f ltac:(lia) Hf 0 i ltac:(lia)). rewrite cursor_0 in * by lia.
    pose proof (cursor_mono a f ltac:(lia) Hf (i + 1) f ltac:(lia)). rewrite cursor_f in * by lia.
    pose proof (cursor_balanced a f i Hi). pose proof (Z.div_pos a f ltac:(lia) ltac:(lia)).
    unfold count. rewrite Hp, Hst by lia. cbn [make_partition failed_block_id partition_byte_off partition_byte_len
      partition_shard_count shards]. split; [lia|]. split; [lia|]. split; [reflexivity|]. split; [reflexivity|].
    split; [reflexivity|]. split; [rewrite length_map, zlen_seqZ; lia|].
    intros t Ht. rewrite zget_map_zseq by lia. split; reflexivity.
Qed.

Definition ex_shard_plan : GlrcPhase2ShardPlan :=
  match build 5 10 [0; 3] [1; 2] ["a"; "b"]%string [1; 2] 5 with
  | inl p => p
  | inr _ => {| shard_count := 0; ShardPlan.stripe_byte_len := 0; block_size := 0; partitions := [] |}
  end.

Lemma shard_plan_tiles_witness :
  exists! i, 0 <= i < 2 /\
    shard_begin (partitions ex_shard_plan).[i] <= 3 <
    shard_begin (partitions ex_shard_plan).[i] + partition_shard_count (partitions ex_shard_plan).[i].
Proof.
  apply (shard_plan_tiles 5 10 [0; 3] [1; 2] ["a"; "b"]%string [1; 2] 5 ex_shard_plan); [by_eval|lia].
Defined.

(** [GlrcPhase2ShardPlan::build] fails exactly on an empty failure set, a
    non-positive shard count or block size, a block size the shard count does
    not divide, or metadata of the wrong length. *)
Theorem shard_plan_errors a bs failed clusters ips ports g :
  let gS := if g >? 0 then g else a in
  (exists plan, build a bs failed clusters ips ports g = inl plan) <->
  failed <> [] /\ 1 <= a /\ 1 <= bs /\ (gS | bs) /\
  zlen clusters = zlen failed /\ zlen ips = zlen failed /\ zlen ports = zlen failed.
Proof.
  intros gS. split.
  - intros [plan H]. destruct (build_spec _ _ _ _ _ _ _ _ H) as (Hf & Ha & Hg & Hbs & Hd & H1 & H2 & H3 & _).
    cbv zeta in *. split; [intros ->; cbn in Hf; lia|]. tauto.
  - intros (Hne & Ha & Hbs & Hd & H1 & H2 & H3). assert (Hg : 1 <= gS) by (unfold gS; destruct (Z.gtb_spec g 0); lia).
    assert (Hf : 1 <= zlen failed) by (destruct failed; [contradiction|cbn [length]; lia]).
    unfold build. fold gS. rewrite H1, H2, H3, !Z.eqb_refl.
    destruct (Z.ltb_spec (zlen failed) 1), (Z.ltb_spec a 1), (Z.ltb_spec gS 1), (Z.ltb_spec bs 1); try lia.
    assert (Hr : Z.rem bs gS = 0) by (apply Z.rem_divide; [lia|exact Hd]).
    rewrite Hr. destruct (Z.eqb_spec a 0); [lia|]. cbn [orb negb Z.eqb].
    destruct (for_range _ _ _ _) as [parts c]. eauto.
Qed.

(** * Splitting a block between repair modes *)

(** C38. The HMBR split leaves both modes at least one shard and the two byte
    ranges tile the block, whatever the bandwidths and however the optimum
    rounds. *)
Theorem hmbr_split_partitions_block {L : LroundUnspecified} S bs h f brp bconv cfg s :
  glrc_hmbr_build_shard_split S bs h f brp bconv cfg = inl s ->
  1 <= rp_shard_count s <= S - 1 /\ 1 <= conv_shard_count s <= S - 1 /\
  Hmbr.stripe_byte_len s * S = bs /\
  rp_byte_offset s = 0 /\ conv_byte_offset s = rp_byte_size s /\ conv_byte_offset s + conv_byte_size s = bs.
Proof. intros H. apply hmbr_split_tiles in H. tauto. Qed.

#[export] Instance ex_lround : LroundUnspecified := fun _ => 0.

Definition ex_split : GlrcHmbrShardSplit + string := glrc_hmbr_build_shard_split 4 8 3 2 d1 d2 "auto".

Lemma hmbr_split_partitions_block_witness :
  exists s, ex_split = inl s /\ conv_byte_offset s + conv_byte_size s = 8.
Proof.
  destruct ex_split as [s|] eqn:E; [|vm_compute in E; discriminate]. exists s. split; [reflexivity|].
  apply (hmbr_split_partitions_block 4 8 3 2 d1 d2 "auto" s E).
Defined.

(** A successful [glrc_hybrid_choose_p] returns a [p] in [0, S - 1], for a
    configured or an automatic choice, except with a single shard, where the
    automatic choice can return 1. *)
Theorem hybrid_p_in_range {L : LroundUnspecified} k r z f S bs link plan hub m failed cfg :
  let res := glrc_hybrid_choose_p k r z f S bs link plan hub m failed cfg in
  res_success res = true -> 0 <= res_p res < S \/ S = 1 /\ res_p res = 1.
Proof. apply choose_p_range. Qed.

Lemma hybrid_p_in_range_witness :
  let res := glrc_hybrid_choose_p 2 1 1 2 4 8 d1 (Some (glrc_solve_repair_plan 2 1 1 [0; 1] "ilp")) 2 0 [0; 1] "auto" in
  0 <= res_p res < 4 \/ 4 = 1 /\ res_p res = 1.
Proof.
  apply (hybrid_p_in_range 2 1 1 2 4 8 d1 (Some (glrc_solve_repair_plan 2 1 1 [0; 1] "ilp")) 2 0 [0; 1] "auto").
  by_eval.
Defined.

(** With one shard per block the automatic choice does return 1, which
    leaves the pipeline no shard: the documented range is [0, S - 1]. *)
Theorem hybrid_single_shard_escapes {L : LroundUnspecified} k r z f bs link plan hub m failed :
  1 <= f -> 1 <= bs -> success plan = true -> glrc_failures_at_most_one_per_group k r z failed = false ->
  let res := glrc_hybrid_choose_p k r z f 1 bs link (Some plan) hub m failed "auto" in
  res_success res = true /\ res_p res = 1.
Proof.
  intros Hf Hb Hs Hone res. unfold res, glrc_hybrid_choose_p. rewrite Z.rem_1_r, Z.quot_1_r.
  destruct (Z.ltb_spec f 1), (Z.ltb_spec bs 1); try lia. cbn [orb negb Z.eqb Z.ltb Z.compare].
  change (parse_fixed_p "auto" 1) with (-2, ""%string). cbn [Z.geb Z.compare negb Z.eqb Pos.eqb].
  rewrite Hone, Hs, discretize_p_single by lia. split; reflexivity.
Qed.

Lemma hybrid_single_shard_escapes_witness :
  let res := glrc_hybrid_choose_p 2 1 1 2 1 8 d1 (Some (glrc_solve_repair_plan 2 1 1 [0; 1] "ilp")) 2 0 [0; 1] "auto" in
  res_success res = true /\ res_p res = 1.
Proof. apply hybrid_single_shard_escapes; by_eval. Defined.

(** The hybrid planner's hottest partition is right: no lost block is
    dealt more shards than [max_partition_shard_count], and the block
    [max_partition_failed_block_id] names is dealt that many. *)
Theorem hot_partition_correct p failed :
  1 <= p -> failed <> [] ->
  let f := zlen failed in
  (forall i, 0 <= i < f -> cursor p f (i + 1) - cursor p f i <= max_partition_shard_count p f) /\
  exists i, 0 <= i < f /\ max_partition_failed_block_id p f failed = failed.[i] /\
            cursor p f (i + 1) - cursor p f i = max_partition_shard_count p f.
Proof. apply max_partition_spec. Qed.

Lemma hot_partition_correct_witness :
  exists i, 0 <= i < 2 /\ max_partition_failed_block_id 3 2 [4; 9] = [4; 9].[i] /\
            cursor 3 2 (i + 1) - cursor 3 2 i = max_partition_shard_count 3 2.
Proof. apply (hot_partition_correct 3 [4; 9]); by_eval. Defined.
