(* ===== verification/CoordinatorTheorems.v ===== *)
(** Properties of the coordinator: reservation of pipeline listen ports. *)
From S2P Require Import Prelude GF256 RepairPlan RepairGuarantee PipelineCodec PipelinePlan.
From S2P Require Import PortAllocator Examples.

(** * Listen ports *)

(** C21. However sessions interleave, a reservation that is held lies in the band of
    its proxy, and no two that are held at the same time share a port on one
    host: not on one proxy, and not on two proxies of the port grid.  (Epochs are
    small enough for the [int] sum of a slot.) *)
Theorem port_reservations_disjoint dedicated w r r' :
  rtc (step dedicated) initial_world w -> r ∈ w_held w -> r' ∈ w_held w ->
  res_ip r = res_ip r' -> same_host_ok dedicated (res_grpc r) (res_grpc r') ->
  (0 <= pipeline_proxy_index dedicated (res_grpc r) /\
   exists hub_band, in_half dedicated hub_band (pipeline_proxy_index dedicated (res_grpc r)) (res_port r)) /\
  NoDup (w_held w) /\ (res_port r = res_port r' -> r = r').
Proof.
  intros Hreach Hr Hr' Eip Hhost. pose proof (reachable_ok dedicated w Hreach) as Hok. split; [exact (ok_band _ _ Hok r Hr)|]. split.
  { eapply NoDup_fmap_1, (ok_distinct _ _ Hok). }
  intros Ep. apply (held_unique dedicated w r r' Hok Hr Hr').
  destruct (ok_band _ _ Hok r Hr) as (H1 & hb & H2), (ok_band _ _ Hok r' Hr') as (H1' & hb' & H2').
  assert (Eg : res_grpc r = res_grpc r').
  { destruct dedicated eqn:Ed; [exact Hhost|]. apply (proxy_index_inj false); auto.
    rewrite Ep in H2. exact (bands_disjoint false _ _ _ _ _ H2 H2'). }
  unfold keyport, listener. rewrite Eip, Eg, Ep. reflexivity.
Qed.

(** A session that asks for a hop port of a proxy. *)
Definition ex_ask (s : nat) (ip : string) (g : Z) (w : World) : World :=
  match w_sessions w !! s with
  | None => w
  | Some a =>
      let '(p, t, a) := allocate false 0 (fun _ => true) ip g false 0 0 (w_tables w) a in
      {| w_tables := t; w_sessions := <[s := a]> (w_sessions w);
         w_held := if p <=? 0 then w_held w
                   else {| res_session := s; res_ip := ip; res_grpc := g; res_port := p |} :: w_held w |}
  end.

Lemma ex_ask_steps s ip g w : (forall a, w_sessions w !! s = Some a -> exchange_epoch_ a = 3) -> rtc (step false) w (ex_ask s ip g w).
Proof.
  intros Hep. unfold ex_ask. destruct (w_sessions w !! s) as [a|] eqn:Es; [|apply rtc_refl].
  destruct (allocate _ _ _ _ _ _ _ _ _ a) as [[p t] a'] eqn:E. apply rtc_once.
  eapply (step_allocate false w s a); [exact Es| | | |exact E]; [lia|lia|]. rewrite (Hep a eq_refl). vm_compute. discriminate.
Qed.

Definition ex_opened : World :=
  {| w_tables := w_tables initial_world; w_held := [];
     w_sessions := <[0%nat := {| exchange_epoch_ := 3; used_ports_ := ∅ |}]> ∅ |}.

Definition ex_world : World := ex_ask 0 "10.0.0.1" 50407 (ex_ask 0 "10.0.0.1" 50405 ex_opened).
Definition ex_first : Reservation := {| res_session := 0; res_ip := "10.0.0.1"; res_grpc := 50405; res_port := 20018 |}.
Definition ex_second : Reservation := {| res_session := 0; res_ip := "10.0.0.1"; res_grpc := 50407; res_port := 20168 |}.

Lemma port_reservations_disjoint_witness :
  (0 <= 0 /\ exists hub_band, in_half false hub_band 0 20018) /\
  NoDup (w_held ex_world) /\ (res_port ex_first = res_port ex_second -> ex_first = ex_second).
Proof.
  apply (port_reservations_disjoint false ex_world ex_first ex_second).
  - apply (rtc_l _ _ ex_opened); [apply (step_open false initial_world 0 3); [reflexivity|lia]|].
    transitivity (ex_ask 0 "10.0.0.1" 50405 ex_opened); apply ex_ask_steps; intros a Ha; vm_compute in Ha; injection Ha as <-; reflexivity.
  - refine (bool_decide_eq_true_1 _ _). vm_compute. reflexivity.
  - refine (bool_decide_eq_true_1 _ _). vm_compute. reflexivity.
  - reflexivity.
  - vm_compute. split; reflexivity.
Defined.

(** [allocate] returns -1 exactly when the proxy is outside the grid or
    every port of its half band is in flight, cooling down, not bindable or
    already used by this session; otherwise the port is one of the half band
    that is none of these. *)
Theorem allocate_complete dedicated now probe ip g hub_band chain hop t a p t' a' :
  0 <= exchange_epoch_ a * 31 + chain * 17 + hop * 11 <= 2 ^ 31 - band dedicated -> cursors_ok t -> cursors_small dedicated t ->
  allocate dedicated now probe ip g hub_band chain hop t a = (p, t', a') ->
  let key := proxy_key ip g in
  let idx := pipeline_proxy_index dedicated g in
  (p = -1 <-> idx < 0 \/ forall q, in_half dedicated hub_band idx q -> ~ port_free now probe t a key q) /\
  (p <> -1 -> in_half dedicated hub_band idx p /\ port_free now probe t a key p /\ p ∈ inflight t' key /\ p ∈ used a' key).
Proof.
  intros Hs Hc Hsm E key idx. apply allocate_spec in E as (_ & _ & _ & Hcase); [|assumption]. cbv zeta in Hcase. fold key idx in Hcase.
  pose proof (Hc hub_band key) as C1. pose proof (Hsm hub_band key) as C2. pose proof (half_pos dedicated) as [C3 C4].
  set (cursor := cursor_of t hub_band key) in *.
  assert (Hseed : 0 <= exchange_epoch_ a * 31 + chain * 17 + hop * 11 + cursor <= 2 ^ 31 - half dedicated) by lia.
  destruct Hcase as [(-> & _ & _ & Hnone)|(Hidx & (i & Hi & ->) & [Hp _] & Hfree & Hadd & Hused)].
  - split; [|intros H; contradiction]. split; [intros _|auto]. destruct Hnone as [|Hnone]; [left; assumption|].
    destruct (Z.lt_ge_cases idx 0) as [|Hidx]; [left; assumption|]. right. intros q Hq Hf.
    pose proof (conj Hidx (proxy_index_range dedicated g Hidx)) as Hrange.
    pose proof (in_half_valid dedicated _ hub_band Hrange q Hq) as Hv.
    destruct (attempt_port_onto dedicated a idx hub_band chain hop cursor Hrange Hseed q Hq) as (i & Hi & <-).
    apply (Hnone i Hi). split; [exact Hv|exact Hf].
  - pose proof (attempt_port_in dedicated a idx hub_band chain hop cursor (conj Hidx (proxy_index_range dedicated g Hidx)) Hseed i Hi) as Hin.
    split; [split; [lia|]|].
    + intros [Hneg|Hnone]; [lia|]. destruct (Hnone _ Hin Hfree).
    + intros _. split; [exact Hin|]. split; [exact Hfree|].
      rewrite Hadd, Hused, !bool_decide_eq_true_2 by reflexivity. split; set_solver.
Qed.

Definition ex_tables : PortTables := w_tables initial_world.
Definition ex_allocator : GlrcPipelinePortAllocator := {| exchange_epoch_ := 3; used_ports_ := ∅ |}.

Lemma allocate_complete_witness :
  let '(p, t', a') := allocate true 0 (fun q => q <? 20000) "10.0.0.1" 50405 true 0 0 ex_tables ex_allocator in
  p = -1 <-> 0 < 0 \/ forall q, in_half true true 0 q -> ~ port_free 0 (fun q => q <? 20000) ex_tables ex_allocator
                                                       (proxy_key "10.0.0.1" 50405) q.
Proof.
  destruct (allocate _ _ _ _ _ _ _ _ _ _) as [[p t'] a'] eqn:E.
  apply (allocate_complete true 0 (fun q => q <? 20000) "10.0.0.1" 50405 true 0 0 ex_tables ex_allocator p t' a');
    [vm_compute; split; discriminate| | |exact E]; intros [] key; unfold cursor_of; vm_compute; congruence || reflexivity.
Defined.

(** A session that reserves ports for a whole plan gets one per hop and
    one per sink, which the duplicate check accepts whatever other sessions do
    meanwhile; releasing the plan undoes exactly these reservations. *)
Theorem session_ports_roundtrip {S : StdSort} dedicated moments k r z failed rp all_eqs hub lookup epoch p t s now :
  (forall i t, cursors_ok t -> cursors_ok (interfere (moments i) t)) -> 0 <= epoch -> cursors_ok t ->
  glrc_build_pipeline_plan k r z failed rp all_eqs hub lookup epoch = inl p ->
  allocate_plan dedicated moments epoch p t = (true, s) ->
  (forall c, c ∈ hub_chains p ++ local_direct_chains p ->
     exists cp, chain_ports s !! chain_id c = Some cp /\ length (hop_listen_ports cp) = length (hops c)) /\
  check_ports ∅ (plan_listeners (chain_ports s) p) = true /\
  (dedicated = false -> quiet moments ->
   forall key, inflight (release_inflight_ports dedicated now (chain_ports s) p (tables s)) key = inflight t key).
Proof.
  intros Hm He Ht Hplan E. destruct (plan_chain_ids _ _ _ _ _ _ _ _ _ _ Hplan) as [Hpos Hnd].
  destruct (allocate_plan_holds dedicated moments Hm epoch p t s He Ht Hpos Hnd E) as [Hs Hall].
  split; [exact Hall|]. split.
  - apply check_ports_true; [apply Hs|apply Hs|set_solver].
  - intros -> Q key. apply set_eq. intros q. rewrite inflight_release, (sh_inflight _ _ _ _ Hs Q).
    pose proof (sh_fresh _ _ _ _ Hs Q key q). naive_solver.
Qed.

Definition ex_proxy (g : Z) : GlrcPipelineNodeLookup :=
  {| node_id := 0; datanode_ip := "10.0.0.2"; datanode_port := 9000; proxy_ip := "10.0.0.1"; proxy_port := g;
     block_key := "b" |}.

(** The plan for block 0 of a (2, 1, 1) stripe whose blocks 2 and 3 are behind
    the proxies [g] and 50407. *)
Definition ex_port_plan (g : Z) : GlrcPipelinePlan + string :=
  glrc_build_pipeline_plan 2 1 1 [0] (glrc_solve_repair_plan 2 1 1 [0] "local-first") (all_equations_of 2 1 1) 1
    [ex_proxy 50405; ex_proxy 50405; ex_proxy g; ex_proxy 50407] 7.

Definition plan_or_empty (x : GlrcPipelinePlan + string) : GlrcPipelinePlan :=
  match x with
  | inl p => p
  | inr _ => {| plan_hub_block_id := 0; hub_proxy_ip := ""; hub_proxy_port := 0; hub_datanode_ip := "";
                hub_datanode_port := 0; hub_block_key := ""; hub_coef := x00; exchange_epoch := 0;
                hub_chains := []; local_direct_chains := [] |}
  end.

Definition ex_moment (_ : nat) : Moment := {| at_time := 0; at_probe := fun _ => true; interfere := fun t => t |}.

Definition ex_session (g : Z) : SessionPorts :=
  snd (allocate_plan false ex_moment 7 (plan_or_empty (ex_port_plan g)) ex_tables).

Lemma session_ports_roundtrip_witness :
  check_ports ∅ (plan_listeners (chain_ports (ex_session 50409)) (plan_or_empty (ex_port_plan 50409))) = true /\
  inflight (release_inflight_ports false 1 (chain_ports (ex_session 50409)) (plan_or_empty (ex_port_plan 50409))
              (tables (ex_session 50409))) "10.0.0.1:50407" = inflight ex_tables "10.0.0.1:50407".
Proof.
  destruct (session_ports_roundtrip false ex_moment 2 1 1 [0] (glrc_solve_repair_plan 2 1 1 [0] "local-first")
    (all_equations_of 2 1 1) 1 [ex_proxy 50405; ex_proxy 50405; ex_proxy 50409; ex_proxy 50407] 7
    (plan_or_empty (ex_port_plan 50409)) ex_tables (ex_session 50409) 1) as (_ & Hc & Hr).
  - intros i t H. exact H.
  - lia.
  - intros [] key; unfold cursor_of; reflexivity.
  - vm_compute. reflexivity.
  - vm_compute. reflexivity.
  - split; [exact Hc|]. apply Hr; [reflexivity|]. intros i t. reflexivity.
Defined.

(** When the reservation of a chain fails half-way, the ports its earlier hops
    got are not recorded in [chain_ports]: the release at the end of the failed
    session leaves them in flight. *)
Theorem failed_session_leaks :
  let p := plan_or_empty (ex_port_plan 40000) in
  let '(ok, s) := allocate_plan false ex_moment 7 p ex_tables in
  ok = false /\
  inflight (release_inflight_ports false 1 (chain_ports s) p (tables s)) "10.0.0.1:50407" <> ∅.
Proof.
  assert (E : (let p := plan_or_empty (ex_port_plan 40000) in
     let '(ok, s) := allocate_plan false ex_moment 7 p ex_tables in
     negb ok && bool_decide (inflight (release_inflight_ports false 1 (chain_ports s) p (tables s))
                               "10.0.0.1:50407" <> ∅)) = true) by (vm_compute; reflexivity).
  cbv zeta in *. destruct (allocate_plan false ex_moment 7 _ ex_tables) as [ok s].
  apply andb_prop in E as [E1 E2]. split; [destruct ok; [discriminate|reflexivity]|].
  apply bool_decide_eq_true_1 in E2. exact E2.
Qed.
