(* ===== verification/DataNodeTheorems.v ===== *)
(** Properties of the data node: atomic publication, the log of parity slices,
    range reads, and the barrier of the range commits. *)
From S2P Require Import Prelude GF256 LinAlg Toolbox DataNode RangeCommit.

(** * The range-commit barrier *)

(** C13. However the handler threads of one commit key interleave, time out or
    fail, the data node implements the abstract block store: the published file
    changes in one step, to the complete block, and only once every range is
    durable; a thread that reports success reports a published block. *)
Theorem range_commit_refines BlockSize temp final n part_off part_len target d0 w :
  (2 <= n)%nat -> temp <> final -> 0 <= BlockSize -> zlen target = BlockSize ->
  (forall i, i ∈ parts n -> 0 <= part_off i /\ 0 <= part_len i /\ part_off i + part_len i <= BlockSize) ->
  (forall x, 0 <= x < BlockSize -> exists i, i ∈ parts n /\ part_off i <= x < part_off i + part_len i) ->
  d0 !! temp = None -> rtc (commit_step BlockSize temp final n part_off part_len target) (commit_start d0) w ->
  rtc (abstract_step n target) {| a_file := d0 !! final; a_parts := ∅ |} (abstraction final w) /\
  (disk w !! final = d0 !! final \/ disk w !! final = Some target) /\
  (forall i, i ∈ parts n -> phase w i = Returned true -> disk w !! final = Some target).
Proof.
  intros Hn Hne HB Ht Hr Hc Hd Hrun.
  destruct (commit_run_inv BlockSize temp final n part_off part_len target Hn Hne HB Ht Hr Hc d0 w Hd Hrun) as [Hinv Hsim].
  split; [exact Hsim|]. split; [apply (ci_file _ _ _ _ _ _ _ _ _ Hinv)|].
  intros i Hi Hp. apply (ci_verdict _ _ _ _ _ _ _ _ _ Hinv i Hi). auto.
Qed.

(** A block of four bytes that arrives in two halves. *)
Definition ex_block : list byte := [x01; x02; x03; x04].
Definition ex_off (i : nat) : Z := 2 * Z.of_nat i.
Definition ex_len (_ : nat) : Z := 2.

Lemma ex_ranges i : i ∈ parts 2 -> 0 <= ex_off i /\ 0 <= ex_len i /\ ex_off i + ex_len i <= 4.
Proof. unfold parts. rewrite elem_of_set_seq. unfold ex_off, ex_len. lia. Qed.

Lemma ex_cover x : 0 <= x < 4 -> exists i, i ∈ parts 2 /\ ex_off i <= x < ex_off i + ex_len i.
Proof.
  intros Hx. exists (if (x <? 2)%Z then 0 else 1)%nat. unfold parts. rewrite elem_of_set_seq. unfold ex_off, ex_len.
  destruct (Z.ltb_spec x 2); lia.
Qed.

Abbreviation ex_commit_step := (commit_step 4 "b.tmp" "b" 2 ex_off ex_len ex_block).

Definition ex_disk : Files :=
  write_range 4 "b.tmp" 2 (ztake 2 (zdrop 2 ex_block)) (write_range 4 "b.tmp" 0 (ztake 2 (zdrop 0 ex_block)) ∅).

Lemma ex_part i : (i < 2)%nat -> i ∈ parts 2.
Proof. intros H. apply elem_of_set_seq. lia. Qed.

(** Both halves arrive; the second thread publishes and returns. *)
Lemma ex_arrivals f d d' : f 0%nat = Streaming 2 -> f 1%nat = Streaming 2 ->
  publish true true true "b.tmp" "b" d = (true, d') ->
  exists w, rtc ex_commit_step {| slot := None; phase := f; disk := d; g_durable := ∅; g_members := ∅ |} w /\
    phase w 1%nat = Returned true.
Proof.
  intros F0 F1 E. eexists. split.
  - eapply rtc_l; [eapply c_arrive with (i := 0%nat) (ok := true); [apply ex_part; lia|exact F0|reflexivity..]|].
    eapply rtc_l; [eapply c_arrive with (i := 1%nat) (ok := true); [apply ex_part; lia|exact F1|reflexivity..]|].
    eapply rtc_l; [eapply c_publish with (i := 1%nat); [apply ex_part; lia|reflexivity|exact E]|].
    eapply rtc_l; [eapply c_finish with (i := 1%nat); [apply ex_part; lia|reflexivity..]|].
    apply rtc_refl.
  - reflexivity.
Qed.

Lemma ex_commit_run : exists w, rtc ex_commit_step (commit_start ∅) w /\ phase w 1%nat = Returned true.
Proof.
  assert (E : publish true true true "b.tmp" "b" ex_disk = (true, snd (publish true true true "b.tmp" "b" ex_disk)))
    by (vm_compute; reflexivity).
  destruct (ex_arrivals (<[1%nat := Streaming 2]> (<[0%nat := Streaming 2]> (fun _ => Streaming 0))) _ _ eq_refl eq_refl E)
    as (w & Hrun & Hp).
  exists w. split; [|exact Hp].
  eapply rtc_l; [eapply c_write with (i := 0%nat) (wrote := 0) (m := 2); [apply ex_part; lia|reflexivity|lia|unfold ex_len; lia]|].
  eapply rtc_l; [eapply c_write with (i := 1%nat) (wrote := 0) (m := 2); [apply ex_part; lia|reflexivity|lia|unfold ex_len; lia]|].
  exact Hrun.
Qed.

Lemma range_commit_refines_witness : exists w, phase w 1%nat = Returned true /\ disk w !! "b" = Some ex_block.
Proof.
  destruct ex_commit_run as (w & Hrun & Hp). exists w. split; [exact Hp|].
  apply (range_commit_refines 4 "b.tmp" "b" 2 ex_off ex_len ex_block ∅ w) with (i := 1%nat);
    [lia|discriminate|lia|reflexivity|apply ex_ranges|apply ex_cover|reflexivity|exact Hrun|apply elem_of_set_seq; lia|exact Hp].
Defined.

(** C39. The barrier terminates: a run has at most as many steps as there are
    bytes to receive plus four per thread; when no step is possible every thread
    has returned, whatever the others did, and the slot of the commit is gone. *)
Theorem range_commit_terminates BlockSize temp final n part_off part_len target d0 m w :
  (2 <= n)%nat -> temp <> final -> 0 <= BlockSize -> zlen target = BlockSize ->
  (forall i, i ∈ parts n -> 0 <= part_off i /\ 0 <= part_len i /\ part_off i + part_len i <= BlockSize) ->
  (forall x, 0 <= x < BlockSize -> exists i, i ∈ parts n /\ part_off i <= x < part_off i + part_len i) ->
  d0 !! temp = None ->
  nsteps (commit_step BlockSize temp final n part_off part_len target) m (commit_start d0) w ->
  (m <= total (fun i => Z.to_nat (part_len i) + 4) (seq 0 n))%nat /\
  ((forall w', ~ commit_step BlockSize temp final n part_off part_len target w w') ->
   (forall i, i ∈ parts n -> exists r, phase w i = Returned r) /\ slot w = None).
Proof.
  intros Hn Hne HB Ht Hr Hc Hd Hrun. split.
  - apply commit_steps_bound in Hrun; auto. etransitivity; [|apply (total_mono (todo part_len (commit_start d0)))].
    + lia.
    + intros i _. unfold todo. cbn [commit_start phase]. lia.
  - intros Hstuck. apply rtc_nsteps_2 in Hrun. assert (Hall : forall i, i ∈ parts n -> exists r, phase w i = Returned r);
      [|split; [exact Hall|exact (commit_slot_gone BlockSize temp final n part_off part_len target Hn Hne HB Ht Hr Hc d0 w Hd Hrun Hall)]].
    intros i Hi. destruct (commit_run_inv BlockSize temp final n part_off part_len target Hn Hne HB Ht Hr Hc d0 w Hd Hrun) as [Hinv _].
    destruct (phase w i) as [wrote| |b|ok|r] eqn:Hp; [..|exists r; reflexivity];
      (destruct (commit_progress BlockSize temp final n part_off part_len target Hn Hne HB Ht Hr Hc d0 w i Hinv Hi)
         as (w' & Hs & _); [rewrite Hp; discriminate|destruct (Hstuck w' Hs)]).
Qed.

Lemma range_commit_terminates_witness : exists m w,
  nsteps ex_commit_step m (commit_start ∅) w /\ phase w 1%nat = Returned true /\ (m <= 12)%nat.
Proof.
  destruct ex_commit_run as (w & Hrun & Hp). apply rtc_nsteps_1 in Hrun as [m Hrun]. exists m, w.
  split; [exact Hrun|]. split; [exact Hp|].
  apply (range_commit_terminates 4 "b.tmp" "b" 2 ex_off ex_len ex_block ∅ m w);
    [lia|discriminate|lia|reflexivity|apply ex_ranges|apply ex_cover|reflexivity|exact Hrun].
Defined.

(** * Block files *)

(** C40. Publishing a block is atomic for every reader of every file: at each
    moment a file is as before, or it is the published file with the complete
    new bytes; the call reports success exactly when the new bytes are there,
    and a failure leaves the old ones, and no temporary file unless its removal
    fails. *)
Theorem block_write_atomic fault path tmp data d :
  path <> tmp ->
  (forall d' p, d' ∈ snd (write_block_file_atomic fault path tmp data d) -> p <> tmp ->
     d' !! p = d !! p \/ (p = path /\ d' !! p = Some data)) /\
  let '(ok, states) := write_block_file_atomic fault path tmp data d in
  final states d !! path = (if ok then Some data else d !! path) /\
  (removes_tmp fault = true -> d !! tmp = None -> final states d !! tmp = None) /\
  (forall p, p <> tmp -> p <> path -> final states d !! p = d !! p).
Proof.
  intros Hne. split; [intros d' p Hd Hp; eapply atomic_write_visible; eauto|].
  pose proof (atomic_write_final fault path tmp data d Hne) as H.
  destruct (write_block_file_atomic fault path tmp data d) as [ok states] eqn:E. destruct H as (_ & H1 & H2).
  split; [exact H1|]. split; [|exact H2]. intros Hrm Ht.
  destruct fault; cbn [removes_tmp] in Hrm; subst; injection E as <- <-; cbn [final last from_option id remove_tmp]; simplify_map_eq; reflexivity || exact Ht.
Qed.

Lemma block_write_atomic_witness :
  let d : Files := {["b" := [x05]]} in
  final (snd (write_block_file_atomic (WriteFails 1 true) "b" "b.tmp" [x01; x02] d)) d !! "b" = Some [x05].
Proof.
  destruct (block_write_atomic (WriteFails 1 true) "b" "b.tmp" [x01; x02] {["b" := [x05]]}) as [_ [H _]]; [discriminate|].
  exact H.
Defined.

(** * Parity logs *)

(** The handler threads of a serialized append, one after the other. *)
Definition append_slices (k block_id : Z) (path : string) (ss : list ParitySlice) (d : Files) : Files :=
  fold_left (fun d s => handleAppend k NoFault "" {| append_block_key := path; append_block_id := block_id;
                          append_offset := slice_offset s; append_is_serialized := true |} (slice_bytes s) d) ss d.

Lemma append_slices_log k block_id path ss : k <= block_id -> Forall slice_ok ss -> forall d,
  append_slices k block_id path ss d = fold_left (fun d s => serialize path s d) ss d.
Proof.
  intros Hb. unfold append_slices. induction 1 as [|s ss Hs _ IH]; intros d; cbn [fold_left]; [reflexivity|].
  rewrite IH. f_equal. unfold handleAppend. cbn. replace (block_id >=? k) with true by (symmetry; apply Z.geb_le; lia).
  cbn [andb]. destruct Hs as (_ & _ & <-). destruct s; reflexivity.
Qed.

(** Parity slices that arrive in any order, are logged and then merged
    leave the block whose every byte is the XOR of the slices that cover it;
    the merge neither fails nor touches another file. *)
Theorem parity_log_merge k block_id BlockSize path ss ss' d :
  k <= block_id -> 0 <= BlockSize < 2 ^ 31 -> Forall slice_ok ss -> Forall (slice_in BlockSize) ss -> d !! path = None ->
  ss <> [] -> ss' ≡ₚ ss ->
  exists block, handleMergeParity BlockSize path (append_slices k block_id path ss' d) = Some (<[path := block]> d) /\
    zlen block = BlockSize /\ forall i, 0 <= i < BlockSize -> block.[i] = slices_at ss i.
Proof.
  intros Hb HB Hok Hin Hd Hne Hp. assert (Hok' : Forall slice_ok ss') by (rewrite Hp; exact Hok).
  assert (Hin' : Forall (slice_in BlockSize) ss') by (rewrite Hp; exact Hin).
  rewrite append_slices_log by assumption.
  assert (Hne' : ss' <> []) by (intros ->; apply Permutation_nil_l in Hp; congruence).
  assert (Hlog : forall l d1, l <> [] \/ is_Some (d1 !! path) -> fold_left (fun d s => serialize path s d) l d1 =
            <[path := default [] (d1 !! path) ++ concat (map slice_record l)]> d1).
  { induction l as [|s l IH]; intros d1 Hl; cbn [fold_left map concat].
    - destruct Hl as [Hl|[v Hv]]; [destruct (Hl eq_refl)|]. rewrite Hv, app_nil_r. symmetry. apply insert_id, Hv.
    - rewrite IH by (right; unfold serialize; rewrite lookup_insert_eq; eauto). unfold serialize.
      rewrite lookup_insert_eq, insert_insert_eq. cbn [from_option id]. rewrite <- app_assoc. reflexivity. }
  rewrite Hlog, Hd by auto. cbn [from_option id app].
  destruct (handleMergeParity_spec BlockSize path ss' (<[path := concat (map slice_record ss')]> d) HB Hok' Hin')
    as (block & E & L & V); [apply lookup_insert_eq|].
  exists block. rewrite E, insert_insert_eq. split; [reflexivity|]. split; [exact L|]. intros i Hi. rewrite V by exact Hi.
  apply slices_at_perm, Hp.
Qed.

Definition ex_slices : list ParitySlice :=
  [{| slice_offset := 0; slice_size := 2; slice_bytes := [x01; x02] |};
   {| slice_offset := 1; slice_size := 2; slice_bytes := [x04; x08] |}].

Lemma parity_log_merge_witness : exists block,
  handleMergeParity 4 "p" (append_slices 2 3 "p" (rev ex_slices) ∅) = Some (<["p" := block]> ∅) /\ zlen block = 4 /\
  forall i, 0 <= i < 4 -> block.[i] = slices_at ex_slices i.
Proof.
  apply (parity_log_merge 2 3 4 "p" ex_slices (rev ex_slices) ∅); try lia.
  - repeat constructor; unfold slice_ok; cbn; lia.
  - repeat constructor; unfold slice_in; cbn; lia.
  - reflexivity.
  - discriminate.
  - symmetry. apply Permutation_rev.
Defined.
