(* ===== verification/WriteTheorems.v ===== *)
(** Properties of the write path: placement, metadata, append plans, and the
    write of a whole stripe through client, coordinator, proxies and data nodes. *)
From S2P Require Import Prelude GF256 Groups EcKernel Codes Decode DecodeSpec RepairPlan RepairPlanSpec RepairGuarantee.
From S2P Require Import Toolbox Placement PlacementSpec PlacementLaw.
From S2P Require Import Coordinator AppendPlan AppendSpec CoordinatorSpec Client ClientAppend DataNode ProxyAppend BufferLayout StripeWrite Examples.
From Stdlib Require Import Ascii.

(** * Writing a stripe *)

(** C5. Setting a whole gLRC stripe works end to end, for stripes below 2 GiB: the
    coordinator accepts the upload, the client can cut and encode its buffer along
    the reply, and whichever of a proxy's connections each thread accepts, the
    threads of all plans can cut what they received.  If the proxies of the
    groups have different addresses, or each thread got the connection of its own
    plan, the data node of every block [b] then holds exactly block [b] of the
    codeword under the block's key.  The client's check waits until the proxies
    have reported and then succeeds. *)
Theorem set_stores_codeword {K : Kernels} {KL : KernelLaws K} cfg client draws outcomes c buf tmp st unset num_arry N :
  config_ok cfg -> CodeType (settings cfg) = "gLRC" -> 1 <= BlockSize (settings cfg) -> cfg_n cfg * BlockSize (settings cfg) < 2 ^ 31 ->
  coordinator_ok c -> cluster_ready cfg (co_tables c) -> schedulable outcomes ->
  zlen buf = cfg_n cfg * BlockSize (settings cfg) -> (forall key, tmp key <> key) ->
  exists reply c' s plans buf' parts,
    uploadSetValue cfg client (BlockSize (settings cfg) * cfg_k cfg) draws outcomes c = Some (Some reply, c') /\
    m_stripe_table c' !! m_cur_stripe_id c = Some s /\
    generate_add_plans (BlockSize (settings cfg)) s (co_tables c') = Some plans /\
    set_stripe num_arry N (stripe_id s) cfg reply buf = Some (buf', parts) /\
    (forall accepted, accepts_at (reply_addresses reply) accepted ->
       exists st', run_proxies cfg tmp plans parts accepted st = Some st' /\
         (NoDup (reply_addresses reply) \/ own_parts accepted -> forall b, 0 <= b < cfg_n cfg ->
            let nd := node_of_block (co_tables c') (blocks s).[b] in
            files_at (node_ip nd) (node_port nd) st' !! block_key (blocks s).[b] = Some (stripe_of cfg buf).[b])) /\
    all_committed (append_keys reply) c' = None /\
    all_committed (append_keys reply) (report_all unset plans c') = Some true.
Proof. exact (set_flow_written cfg client draws outcomes c buf tmp st unset num_arry N). Qed.

(** A cluster of four nodes behind one proxy, and a (2, 1, 1) code with blocks of
    one byte. *)
Definition ex_node (x : Z) : Node :=
  {| node_ip := "10.0.0.2"; node_port := 9000 + x; cluster_id := 0; repair_proxy_ip := ""; repair_proxy_port := 0; node_stripes := ∅ |}.
Definition ex_nodes : gmap Z Node := list_to_map (map (fun x => (x, ex_node x)) (zseq 4)).
Definition ex_cluster : Cluster :=
  {| cluster_proxy_ip := "10.0.0.1"; cluster_proxy_port := 50405; nodes := zseq 4; cluster_blocks := []; cluster_stripes := ∅ |}.
Definition ex_coordinator : Coordinator :=
  {| co_tables := {| m_node_table := ex_nodes; m_cluster_table := {[0 := ex_cluster]} |}; m_stripe_table := ∅;
     m_cur_stripe_id := 0; m_object_commit_table := ∅; m_object_updating_table := ∅; m_stripe_deleting_table := [];
     m_cur_offset_table := ∅ |}.
Definition ex_config (code : string) : SysConfig :=
  {| settings := {| BlockSize := 1; ClusterNum := 1; CodeType := code |}; cfg_k := 2; cfg_r := 1; cfg_z := 1; cfg_n := 4;
     AppendMode := "UNILRC_MODE"; UnitSize := 1 |}.
Definition ex_buffer : list byte := [x05; x07; x00; x00].
Definition ex_tmp (key : string) : string := key +:+ ".tmp".

Lemma ex_tmp_ok key : ex_tmp key <> key.
Proof. unfold ex_tmp. induction key as [|a key IH]; [discriminate|]. intros H. apply IH. injection H. auto. Qed.

Lemma ex_config_ok code : config_ok (ex_config code).
Proof. unfold config_ok, ex_config. cbn. lia. Qed.

Lemma node_at_empty (m : gmap Z Node) cl x : map_Forall (fun _ nd => node_stripes nd = ∅) m ->
  node_stripes (node_at {| m_node_table := m; m_cluster_table := cl |} x) = ∅.
Proof. intros H. unfold node_at. cbn [m_node_table]. destruct (m !! x) eqn:E; [exact (H x n E)|reflexivity]. Qed.

(** A coordinator that has nodes, in one cluster, and no stripe. *)
Definition fresh_coordinator (m : gmap Z Node) (cl : Cluster) : Coordinator :=
  {| co_tables := {| m_node_table := m; m_cluster_table := {[0 := cl]} |}; m_stripe_table := ∅;
     m_cur_stripe_id := 0; m_object_commit_table := ∅; m_object_updating_table := ∅; m_stripe_deleting_table := [];
     m_cur_offset_table := ∅ |}.

Lemma fresh_coordinator_ok m cl : map_Forall (fun _ nd => node_stripes nd = ∅) m -> cluster_blocks cl = [] -> coordinator_ok (fresh_coordinator m cl).
Proof.
  intros Hm Hcl. split; cbn [fresh_coordinator co_tables m_stripe_table m_cur_stripe_id].
  - lia.
  - intros x id b. rewrite node_at_empty by exact Hm. rewrite lookup_empty. discriminate.
  - intros i b. unfold cluster_at. cbn [m_cluster_table]. intros Hb. exfalso.
    destruct (({[0 := cl]} : gmap Z Cluster) !! i) as [c|] eqn:E; [|apply elem_of_nil in Hb; exact Hb].
    apply lookup_singleton_Some in E as [_ <-]. cbn in Hb. rewrite Hcl in Hb. apply elem_of_nil in Hb. exact Hb.
  - intros id s. rewrite lookup_empty. discriminate.
Qed.

Lemma ex_reply_addresses code draws reply c' : uploadSetValue (ex_config code) "client" 2 draws (fun _ => [true]) ex_coordinator = Some (Some reply, c') ->
  code = "gLRC" -> zlen (reply_addresses reply) = 1.
Proof. intros H ->. vm_compute in H. injection H as <- <-. reflexivity. Qed.

Lemma ex_coordinator_ok : coordinator_ok ex_coordinator.
Proof. apply (fresh_coordinator_ok ex_nodes ex_cluster); [refine (bool_decide_eq_true_1 _ _); vm_compute; reflexivity|reflexivity]. Qed.

Lemma ex_cluster_ready code : cluster_ready (ex_config code) (co_tables ex_coordinator).
Proof.
  assert (Hdom : forall x, x ∈ dom ex_nodes -> In x [0; 1; 2; 3]).
  { assert (H : set_Forall (fun x => x ∈ [0; 1; 2; 3]) (dom ex_nodes)) by (refine (bool_decide_eq_true_1 _ _); vm_compute; reflexivity).
    intros x Hx. apply list_elem_of_In, (H x Hx). }
  split.
  - reflexivity.
  - intros x Hx. apply Hdom in Hx. cbn [In] in Hx. lia.
  - intros x y Hx Hy [_ E]. apply Hdom in Hx, Hy. cbn [In] in Hx, Hy.
    destruct Hx as [<-|[<-|[<-|[<-|[]]]]], Hy as [<-|[<-|[<-|[<-|[]]]]]; reflexivity || (vm_compute in E; discriminate).
Qed.

Lemma set_stores_codeword_witness : exists reply c' s plans buf' parts st',
  uploadSetValue (ex_config "gLRC") "client" 2 [] (fun _ => [true]) ex_coordinator = Some (Some reply, c') /\
  m_stripe_table c' !! 0 = Some s /\ generate_add_plans 1 s (co_tables c') = Some plans /\
  set_stripe [] 0 (stripe_id s) (ex_config "gLRC") reply ex_buffer = Some (buf', parts) /\
  run_proxies (ex_config "gLRC") ex_tmp plans parts (in_order 1) ∅ = Some st' /\
  (forall b, 0 <= b < 4 ->
     let nd := node_of_block (co_tables c') (blocks s).[b] in
     files_at (node_ip nd) (node_port nd) st' !! block_key (blocks s).[b] = Some (stripe_of (ex_config "gLRC") ex_buffer).[b]).
Proof.
  destruct (set_stores_codeword (ex_config "gLRC") "client" [] (fun _ => [true]) ex_coordinator ex_buffer ex_tmp ∅
    {| object_size := 0; oi_stripe := 0 |} [] 0)
    as (reply & c' & s & plans & buf' & parts & H1 & H2 & H3 & H4 & H5 & _);
    [apply ex_config_ok|reflexivity|cbn; lia|cbn; lia|apply ex_coordinator_ok|apply ex_cluster_ready|intros i; reflexivity|reflexivity|apply ex_tmp_ok|].
  destruct (H5 (in_order 1)) as (st' & H6 & H7); [rewrite <- (ex_reply_addresses _ _ _ _ H1 eq_refl); apply in_order_accepts|].
  exists reply, c', s, plans, buf', parts, st'. repeat (split; [assumption|]). apply H7. right. apply in_order_own.
Defined.

(** Two groups behind one proxy: six nodes, a (3, 1, 2) code with blocks of one
    byte. *)
Definition ex_shared_nodes : gmap Z Node := list_to_map (map (fun x => (x, ex_node x)) (zseq 6)).
Definition ex_shared_cluster : Cluster :=
  {| cluster_proxy_ip := "10.0.0.1"; cluster_proxy_port := 50405; nodes := zseq 6; cluster_blocks := []; cluster_stripes := ∅ |}.
Definition ex_shared_config : SysConfig :=
  {| settings := {| BlockSize := 1; ClusterNum := 1; CodeType := "gLRC" |}; cfg_k := 3; cfg_r := 1; cfg_z := 2; cfg_n := 6;
     AppendMode := "UNILRC_MODE"; UnitSize := 1 |}.
Definition ex_swapped : list (Z * Z) := [(0, 1); (1, 0)].

(** Data block [b] as its node has it after a set of the data [5; 7; 9] whose two
    threads accepted as listed, what the client is told then, and whether the two
    connections went to one address. *)
Definition ex_shared_set (accepted : list (Z * Z)) (b : Z) : option (option (list byte) * option bool * bool) :=
  '(reply, c) ← uploadSetValue ex_shared_config "client" 3 [] (fun _ => [true]) (fresh_coordinator ex_shared_nodes ex_shared_cluster);
  reply ← reply; s ← m_stripe_table c !! 0; plans ← generate_add_plans 1 s (co_tables c);
  '(_, parts) ← set_stripe [] 0 0 ex_shared_config reply [x05; x07; x00; x09; x00; x00];
  st ← run_proxies ex_shared_config ex_tmp plans parts accepted ∅;
  let nd := node_of_block (co_tables c) (blocks s).[b] in
  Some (files_at (node_ip nd) (node_port nd) st !! block_key (blocks s).[b],
        all_committed (append_keys reply) (report_all {| object_size := 0; oi_stripe := 0 |} plans c),
        bool_decide ((reply_addresses reply).[0] = (reply_addresses reply).[1])).

(** Groups behind one proxy can get each other's parts, since a connection does
    not say which plan it is for: the blocks are swapped, and the set succeeds. *)
Theorem shared_proxy_swaps_parts :
  accepts_at (zrepeat ("10.0.0.1", 50406) 2) ex_swapped /\
  map (ex_shared_set (in_order 2)) [0; 2] = [Some (Some [x05], Some true, true); Some (Some [x09], Some true, true)] /\
  map (ex_shared_set ex_swapped) [0; 2] = [Some (Some [x09], Some true, true); Some (Some [x05], Some true, true)].
Proof.
  split; [|split; vm_compute; reflexivity]. split; [reflexivity|apply perm_swap|].
  repeat constructor.
Qed.

(** * Repairing a stored stripe *)

(** What a repair reads: the helper blocks, from their data nodes. *)
Definition read_helpers (bs : Z) (s : Stripe) (t : Tables) (st : Storage) (helpers : list Z) : list block :=
  map (fun h => fst (handleGetBreakdown (block_key (blocks s).[h]) bs 0 bs
                       (files_at (node_ip (node_of_block t (blocks s).[h])) (node_port (node_of_block t (blocks s).[h])) st))) helpers.

(** A stripe that was set can be repaired: whatever blocks are lost, if the
    planner finds a plan, reading the helper blocks back from their data nodes and
    decoding yields the lost blocks byte for byte. *)
Theorem set_then_repair {S : StdSort} {SL : StdSortLaws S} {K : Kernels} {KL : KernelLaws K}
    cfg client draws outcomes c buf tmp st num_arry N failed policy :
  config_ok cfg -> CodeType (settings cfg) = "gLRC" -> 1 <= BlockSize (settings cfg) -> cfg_n cfg * BlockSize (settings cfg) < 2 ^ 31 ->
  cfg_z cfg <= cfg_k cfg + cfg_r cfg -> cfg_k cfg + cfg_r cfg <= 255 ->
  coordinator_ok c -> cluster_ready cfg (co_tables c) -> schedulable outcomes ->
  zlen buf = cfg_n cfg * BlockSize (settings cfg) -> (forall key, tmp key <> key) ->
  NoDup failed -> failed <> [] -> Forall (fun b => 0 <= b < cfg_n cfg) failed -> known_policy policy = true ->
  let plan := glrc_solve_repair_plan (cfg_k cfg) (cfg_r cfg) (cfg_z cfg) failed policy in
  success plan = true ->
  exists reply c' s plans buf' parts,
    uploadSetValue cfg client (BlockSize (settings cfg) * cfg_k cfg) draws outcomes c = Some (Some reply, c') /\
    m_stripe_table c' !! m_cur_stripe_id c = Some s /\
    generate_add_plans (BlockSize (settings cfg)) s (co_tables c') = Some plans /\
    set_stripe num_arry N (stripe_id s) cfg reply buf = Some (buf', parts) /\
    forall accepted, accepts_at (reply_addresses reply) accepted -> parts_apart reply accepted -> exists st' rec,
    run_proxies cfg tmp plans parts accepted st = Some st' /\
    decode_glrc_ilp (cfg_k cfg) (cfg_r cfg) (cfg_z cfg) (BlockSize (settings cfg)) (helper_block_ids plan)
      (read_helpers (BlockSize (settings cfg)) s (co_tables c') st' (helper_block_ids plan)) failed
      (selected_equation_indices plan) = Some rec /\
    restored failed (stripe_of cfg buf) (BlockSize (settings cfg)) 0 (BlockSize (settings cfg)) 0 rec.
Proof.
  intros Hcfg Hct Hbs Hfit Hzk Hkr Hc Hcl Hout Hbuf Htmp Hnd Hne Hrg Hpol plan Hok. pose proof Hcfg as (K1 & K2 & K3 & K4).
  destruct (set_flow_written cfg client draws outcomes c buf tmp st {| object_size := 0; oi_stripe := 0 |} num_arry N
    Hcfg Hct Hbs Hfit Hc Hcl Hout Hbuf Htmp) as (reply & c' & s & plans & buf' & parts & H1 & H2 & H3 & H4 & Hw & _).
  exists reply, c', s, plans, buf', parts. do 4 (split; [assumption|]). intros accepted Hacc Hap.
  destruct (Hw accepted Hacc) as (st' & H5 & H6'). specialize (H6' Hap). pose proof H6' as H6. unfold blocks_stored in H6.
  destruct (parity_buffers cfg Hcfg ltac:(lia) buf Hbuf) as [Hpb Hpl]. rewrite K4 in Hrg.
  destruct (plan_restores (cfg_k cfg) (cfg_r cfg) (cfg_z cfg) K1 K2 K3 (buffer_data cfg buf) (buffer_parity cfg buf)
    (BlockSize (settings cfg)) failed policy
    (read_helpers (BlockSize (settings cfg)) s (co_tables c') st' (helper_block_ids plan)) plan) as (rec & D1 & D2); auto; try lia.
  - unfold buffer_data. rewrite length_map, zlen_seqZ. lia.
  - intros h i Hh Hi. unfold read_helpers. rewrite zget_map by exact Hh. set (b := (helper_block_ids plan).[h]).
    assert (Hb : 0 <= b < cfg_n cfg).
    { rewrite K4. apply (plan_helpers (cfg_k cfg) (cfg_r cfg) (cfg_z cfg) K1 K2 K3 failed policy); auto; [unfold INT_MAX; lia|apply zget_In, Hh]. }
    destruct (handleGetBreakdown_spec (block_key (blocks s).[b]) (BlockSize (settings cfg)) 0 (BlockSize (settings cfg)) _ _ (H6 b Hb)
                ltac:(lia) Hbs) as [R _].
    pose proof (stripe_block_len cfg buf b Hcfg ltac:(lia) Hbuf Hb) as Hlen. rewrite R by lia. cbn [fst].
    rewrite zget_ztake, zget_zdrop by lia. reflexivity.
  - exists st', rec. auto.
Qed.

Lemma set_then_repair_witness :
  let plan := glrc_solve_repair_plan 2 1 1 [0; 1] "ilp-min-helper" in
  exists reply c' s plans buf' parts st' rec,
    uploadSetValue (ex_config "gLRC") "client" 2 [] (fun _ => [true]) ex_coordinator = Some (Some reply, c') /\
    m_stripe_table c' !! 0 = Some s /\ generate_add_plans 1 s (co_tables c') = Some plans /\
    set_stripe [] 0 (stripe_id s) (ex_config "gLRC") reply ex_buffer = Some (buf', parts) /\
    run_proxies (ex_config "gLRC") ex_tmp plans parts (in_order 1) ∅ = Some st' /\
    decode_glrc_ilp 2 1 1 1 (helper_block_ids plan) (read_helpers 1 s (co_tables c') st' (helper_block_ids plan)) [0; 1]
      (selected_equation_indices plan) = Some rec /\
    restored [0; 1] (stripe_of (ex_config "gLRC") ex_buffer) 1 0 1 0 rec.
Proof.
  intros plan. destruct (set_then_repair (ex_config "gLRC") "client" [] (fun _ => [true]) ex_coordinator ex_buffer ex_tmp ∅ [] 0 [0; 1] "ilp-min-helper")
    as (reply & c' & s & plans & buf' & parts & H1 & H2 & H3 & H4 & H5);
    [apply ex_config_ok|reflexivity|cbn; lia|cbn; lia|cbn; lia|cbn; lia|apply ex_coordinator_ok|apply ex_cluster_ready|intros i; reflexivity
    |reflexivity|apply ex_tmp_ok|by_eval|by_eval|by_eval|by_eval|by_eval|].
  destruct (H5 (in_order 1)) as (st' & rec & H6 & H7);
    [rewrite <- (ex_reply_addresses _ _ _ _ H1 eq_refl); apply in_order_accepts|right; apply in_order_own|].
  exists reply, c', s, plans, buf', parts, st', rec. auto 10.
Defined.

(** * The coordinator's tables *)

(** C12. In every state that the handlers of [coord_step] reach (sets, subset sets,
    appends that do not retry a failed first append, reports other than that of
    a deleted key, deletion requests, [setParameter]) the tables agree: a stripe of
    the stripe table has one block per index; each node's entry for the stripe names
    exactly the block placed there, so no node holds two of its blocks; each
    cluster lists exactly the blocks placed in it; ids are used once. *)
Theorem metadata_consistent cfg c c' id s :
  config_ok cfg -> coordinator_ok c -> rtc (coord_step cfg) c c' -> m_stripe_table c' !! id = Some s ->
  0 <= id < m_cur_stripe_id c' /\ stripe_id s = id /\ zlen (blocks s) = st_n s /\
  (forall b, 0 <= b < st_n s -> block_id (blocks s).[b] = b /\ map2stripe (blocks s).[b] = id /\
     node_stripes (node_of_block (co_tables c') (blocks s).[b]) !! id = Some b) /\
  (forall x b, node_stripes (node_at (co_tables c') x) !! id = Some b -> 0 <= b < st_n s /\ map2node (blocks s).[b] = x) /\
  (forall b b', 0 <= b < st_n s -> 0 <= b' < st_n s -> map2node (blocks s).[b] = map2node (blocks s).[b'] -> b = b') /\
  (forall cl, List.filter (fun b => map2stripe b =? id) (cluster_blocks (cluster_at (co_tables c') cl)) ≡ₚ
              List.filter (fun b => map2cluster b =? cl) (blocks s)) /\
  (forall x, node_stripes (node_at (co_tables c') x) !! m_cur_stripe_id c' = None).
Proof.
  intros Hcfg Hc Hrun Hs. pose proof (coord_run_ok cfg c c' Hcfg Hc Hrun) as Hc'.
  destruct (co_stripes _ Hc' id s Hs) as [Hr [A1 A2 A3 A4 A5]].
  split; [exact Hr|]. split; [exact A1|]. split; [exact A2|]. split; [|split; [|split; [|split; [exact A5|exact (next_free c' Hc')]]]].
  - intros b Hb. destruct (A3 b Hb) as [B1 B2]. split; [exact B1|]. split; [exact B2|]. apply A4. auto.
  - intros x b Hx. apply A4, Hx.
  - intros b b' Hb Hb' E. assert (H1 := proj2 (A4 _ b) (conj Hb eq_refl)). assert (H2 := proj2 (A4 _ b') (conj Hb' (eq_sym E))). congruence.
Qed.

(** The state after one upload. *)
Definition ex_after_set (code : string) : Coordinator :=
  match uploadSetValue (ex_config code) "client" 2 (zseq 4) (fun _ => [true]) ex_coordinator with
  | Some (_, c) => c
  | None => ex_coordinator
  end.

Lemma metadata_consistent_witness : exists s, m_stripe_table (ex_after_set "UniLRC") !! 0 = Some s /\ zlen (blocks s) = st_n s.
Proof.
  destruct (m_stripe_table (ex_after_set "UniLRC") !! 0) as [s|] eqn:E; [|vm_compute in E; discriminate].
  exists s. split; [reflexivity|].
  destruct (metadata_consistent (ex_config "UniLRC") ex_coordinator (ex_after_set "UniLRC") 0 s (ex_config_ok _) ex_coordinator_ok)
    as (_ & _ & Hl & _); [|exact E|exact Hl].
  apply rtc_once. destruct (uploadSetValue (ex_config "UniLRC") "client" 2 (zseq 4) (fun _ => [true]) ex_coordinator) as [[reply c]|] eqn:Eu.
  - apply (cs_set _ _ "client" 2 (zseq 4) (fun _ => [true]) reply). unfold ex_after_set. rewrite Eu. reflexivity.
  - vm_compute in Eu. discriminate.
Defined.

(** A retry after a first append that no proxy accepted places the stripe a second
    time under the same id: the nodes of the first placement keep entries that
    belong to no block. *)
Definition ex_wide : Coordinator :=
  with_tables {| m_node_table := list_to_map (map (fun x => (x, ex_node x)) (zseq 8));
                 m_cluster_table := {[0 := {| cluster_proxy_ip := "10.0.0.1"; cluster_proxy_port := 50405; nodes := zseq 8;
                                              cluster_blocks := []; cluster_stripes := ∅ |}]} |} ex_coordinator.

Definition ex_append (draws : list Z) (ok : bool) (c : Coordinator) : Coordinator :=
  match uploadAppendValue (ex_config "AzureLRC") "client" 1 draws (fun _ => [ok]) c with Some (_, c) => c | None => c end.

Theorem append_retry_leaks :
  let c := ex_append [4; 5; 6; 7] true (ex_append [0; 1; 2; 3] false ex_wide) in
  exists s, m_stripe_table c !! 0 = Some s /\ map map2node (blocks s) = [4; 5; 6; 7] /\
    map (fun x => node_stripes (node_at (co_tables c) x) !! 0) [0; 1; 2; 3] = [Some 0; Some 1; Some 2; Some 3].
Proof. vm_compute. eexists. repeat split. Qed.

(** * Appends *)






(** * Placement by groups *)

(** C36. UniLRC and AzureLRC stripes are placed so that a local group can be repaired
    inside its cluster and a cluster failure costs one group: where [z] divides
    [k] (for UniLRC also [r]) and there are at least as many clusters as groups,
    two blocks share a cluster exactly when they share a group; no two blocks
    share a node; and the node of a block is a member of its cluster's node
    list. *)
Theorem placement_isolates_groups cfg s t draws s' t' :
  new_stripe s -> (st_z s | st_k s) ->
  CodeType cfg = "UniLRC" /\ (st_z s | st_r s) \/ CodeType cfg = "AzureLRC" ->
  placement_group_count (CodeType cfg) s <= ClusterNum cfg ->
  (forall x, node_stripes (node_at t x) !! stripe_id s = None) ->
  initialize_unilrc_and_azurelrc_stripe_placement cfg s t draws = Some (s', t') ->
  forall b b', 0 <= b < st_n s -> 0 <= b' < st_n s ->
    (map2cluster (blocks s').[b] = map2cluster (blocks s').[b'] <-> map2group (blocks s').[b] = map2group (blocks s').[b']) /\
    (map2node (blocks s').[b] = map2node (blocks s').[b'] -> b = b') /\
    map2node (blocks s').[b] ∈ nodes (cluster_at t (map2cluster (blocks s').[b])).
Proof.
  intros N Hk Hcode Hcl Hfree E b b' Hb Hb'. unfold initialize_unilrc_and_azurelrc_stripe_placement in E. pose proof N as [N1 N2 N3 N4 N5 N6].
  apply place_stripe_spec in E; [|exact Hfree|lia|exact N5|exact N6]. set (group_of := uni_azure_group_of (CodeType cfg) s) in *.
  assert (Hc : forall b, 0 <= b < st_n s -> map2cluster (blocks s').[b] = cluster_for cfg group_of s b /\ map2group (blocks s').[b] = group_of b).
  { intros x Hx. rewrite (pl_block _ _ _ _ _ _ _ E x Hx). split; [reflexivity|]. cbn [with_place map2group]. apply block_info_group. }
  destruct (Hc b Hb) as [-> ->], (Hc b' Hb') as [-> ->]. split; [split|split].
  - apply cluster_shift_inj; [pose proof (uni_azure_group_range _ s b N Hk Hcode Hb)|pose proof (uni_azure_group_range _ s b' N Hk Hcode Hb')];
      unfold group_of; lia.
  - unfold cluster_for. intros ->. reflexivity.
  - apply (placed_distinct _ _ _ _ _ _ _ b b' E Hb Hb').
  - apply (pl_node _ _ _ _ _ _ _ E b Hb).
Qed.

(** Two clusters, of three nodes and of one. *)
Definition ex_two_clusters : Tables :=
  {| m_node_table := ex_nodes;
     m_cluster_table := {[0 := {| cluster_proxy_ip := ""; cluster_proxy_port := 1; nodes := [0; 1; 2]; cluster_blocks := [];
                                  cluster_stripes := ∅ |};
                          1 := {| cluster_proxy_ip := ""; cluster_proxy_port := 2; nodes := [3]; cluster_blocks := [];
                                  cluster_stripes := ∅ |}]} |}.
Definition ex_azure_settings : Settings := {| BlockSize := 1; ClusterNum := 2; CodeType := "AzureLRC" |}.
Definition ex_azure_stripe : Stripe := upload_stripe (ex_config "AzureLRC") 0 "key".

Lemma placement_isolates_groups_witness : exists s' t',
  initialize_unilrc_and_azurelrc_stripe_placement ex_azure_settings ex_azure_stripe ex_two_clusters [0; 0; 1; 0; 2] = Some (s', t') /\
  map map2cluster (blocks s') = [0; 0; 1; 0] /\
  (map2cluster (blocks s').[0] = map2cluster (blocks s').[3] <-> map2group (blocks s').[0] = map2group (blocks s').[3]).
Proof.
  destruct (initialize_unilrc_and_azurelrc_stripe_placement ex_azure_settings ex_azure_stripe ex_two_clusters [0; 0; 1; 0; 2])
    as [[s' t']|] eqn:E; [|vm_compute in E; discriminate].
  exists s', t'. split; [reflexivity|]. split; [vm_compute in E; injection E as <- _; reflexivity|].
  refine (proj1 (placement_isolates_groups ex_azure_settings ex_azure_stripe ex_two_clusters _ s' t' _ _ _ _ _ E 0 3 _ _));
    [split; cbn; try reflexivity; lia|exists 2; reflexivity|right; reflexivity|cbn; lia| |cbn; lia|cbn; lia].
  intros x. unfold ex_two_clusters. rewrite node_at_empty by (refine (bool_decide_eq_true_1 _ _); vm_compute; reflexivity). apply lookup_empty.
Defined.

(** * Group counts *)

(** The upload of a whole stripe and the client's cut of the reply. *)
Definition ex_set {K : Kernels} (cfg : SysConfig) (draws : list Z) (c : Coordinator) : option (bool * option (list byte * list (list byte))) :=
  match uploadSetValue cfg "client" (BlockSize (settings cfg) * cfg_k cfg) draws (fun _ => [true]) c with
  | Some (Some reply, _) => Some (true, set_stripe [] 0 0 cfg reply (zrepeat x00 (cfg_n cfg * BlockSize (settings cfg))))
  | Some (None, _) => Some (false, None)
  | None => None
  end.
Definition ex_uniform_config : SysConfig :=
  {| settings := {| BlockSize := 1; ClusterNum := 1; CodeType := "UniformLRC" |}; cfg_k := 2; cfg_r := 1; cfg_z := 2; cfg_n := 5;
     AppendMode := "UNILRC_MODE"; UnitSize := 1 |}.

(** The client counts the blocks of a group differently from the coordinator's
    placement: with OptimalLRC when [r + 1] divides [k / z] (it expects one more,
    empty, group per local group), and with UniformLRC when the last local group
    holds data blocks.  The coordinator accepts the upload, then the client's
    assertion on the size of a part fails. *)
Theorem set_group_counts_abort {K : Kernels} :
  ex_set (ex_config "OptimalLRC") [0; 1; 2; 3] ex_coordinator = Some (true, None) /\
  ex_set ex_uniform_config [0; 1; 2; 3; 4] ex_wide = Some (true, None).
Proof. split; vm_compute; reflexivity. Qed.
