(* ===== verification/ReadTheorems.v ===== *)
(** Properties of the read path. *)
From S2P Require Import Prelude GF256 Groups EcKernel Codes RepairPlan Toolbox Placement PlacementSpec PlacementLaw.
From S2P Require Import Coordinator CoordinatorSpec AppendPlan Client DataNode ProxyAppend BufferLayout StripeWrite ReadPath Examples WriteTheorems.

(** * Groups of a placed stripe *)

Lemma place_stripe_num_groups cfg group_of s t draws s' t' : place_stripe cfg group_of s t draws = Some (s', t') ->
  num_groups s' = Z.of_nat (size (group_to_blocks s')).
Proof.
  unfold place_stripe. destruct (negb _); [discriminate|]. destruct (place_blocks _ _ _ _ _) as [[[s1 t1] d]|]; [|discriminate].
  intros [= <- _]. reflexivity.
Qed.

(** Groups that are all used are counted. *)
Lemma group_count (group_of : Z -> Z) (m : gmap Z (list Z)) n cnt : 0 <= cnt ->
  (forall g, m !! g = match List.filter (fun b => group_of b =? g) (zseq n) with [] => None | l => Some l end) ->
  (forall b, 0 <= b < n -> 0 <= group_of b < cnt) -> (forall g, 0 <= g < cnt -> exists b, 0 <= b < n /\ group_of b = g) ->
  Z.of_nat (size m) = cnt.
Proof.
  intros Hc Hm Hr Ho. rewrite <- size_dom.
  assert (Hd : dom m = list_to_set (zseq cnt)).
  { apply set_eq. intros g. rewrite elem_of_dom, elem_of_list_to_set, elem_of_seqZ, Hm. split.
    - intros Hs. destruct (List.filter (fun b => group_of b =? g) (zseq n)) as [|b l] eqn:E; [destruct Hs; discriminate|].
      assert (Hb : In b (List.filter (fun b => group_of b =? g) (zseq n))) by (rewrite E; left; reflexivity).
      apply filter_In in Hb as [Hb Eg]. apply in_zseq in Hb. apply Z.eqb_eq in Eg. specialize (Hr b Hb). lia.
    - intros Hg. destruct (Ho g ltac:(lia)) as (b & Hb & Eg).
      assert (Hin : In b (List.filter (fun b => group_of b =? g) (zseq n))).
      { apply filter_In. split; [apply in_zseq, Hb|apply Z.eqb_eq, Eg]. }
      destruct (List.filter _ _); [destruct Hin|eauto]. }
  rewrite Hd, size_list_to_set by apply NoDup_seqZ. rewrite zlen_seqZ. lia.
Qed.

(** Groups of a UniLRC or AzureLRC placement as [getStripe] counts them. *)
Lemma uni_azure_placed cfg s t draws s' t' : new_stripe s -> (st_z s | st_k s) -> 1 <= st_r s ->
  CodeType cfg = "UniLRC" /\ (st_z s | st_r s) \/ CodeType cfg = "AzureLRC" ->
  (forall x, node_stripes (node_at t x) !! stripe_id s = None) ->
  initialize_unilrc_and_azurelrc_stripe_placement cfg s t draws = Some (s', t') ->
  num_data_groups (CodeType cfg) s' = st_z s /\ forall b, 0 <= b < st_n s -> map2group (blocks s').[b] = uni_azure_group_of (CodeType cfg) s b.
Proof.
  intros N Hk Hr Hcode Hfree E. unfold initialize_unilrc_and_azurelrc_stripe_placement in E. pose proof N as [N1 N2 N3 N4 N5 N6].
  pose proof (place_stripe_num_groups _ _ _ _ _ _ _ E) as Hnum.
  apply place_stripe_spec in E; [|exact Hfree|lia|exact N5|exact N6]. split.
  - assert (Hcnt : num_groups s' = placement_group_count (CodeType cfg) s).
    { rewrite Hnum. apply (group_count (uni_azure_group_of (CodeType cfg) s) _ (st_n s)).
      - unfold placement_group_count. destruct (String.eqb _ _); lia.
      - apply (pl_groups _ _ _ _ _ _ _ E).
      - intros b Hb. apply uni_azure_group_range; assumption.
      - intros g Hg. apply uni_azure_group_onto; try assumption. tauto. }
    unfold num_data_groups. rewrite Hcnt. unfold placement_group_count.
    destruct Hcode as [[-> _]| ->]; cbn [String.eqb Ascii.eqb Bool.eqb]; lia.
  - intros b Hb. rewrite (pl_block _ _ _ _ _ _ _ E b Hb). cbn [with_place map2group]. apply block_info_group.
Qed.

(** C17. [Client::get] of a UniLRC or AzureLRC stripe returns its data, where [z]
    divides [k] (for UniLRC also [r]) and the data of a stripe is no more than
    2 GiB: if the data blocks are stored where the placement put them and every
    fetch of a proxy ends before its block is sent, the client collects the [k]
    data blocks in order, whatever order the connections arrive in. *)
Theorem get_returns_data cfg id c s0 t draws s t' st (content : Z -> list byte) :
  new_stripe s0 -> (st_z s0 | st_k s0) -> 1 <= st_r s0 -> st_k s0 < 2 ^ 32 -> 0 <= BlockSize (settings cfg) ->
  st_k s0 * BlockSize (settings cfg) <= 2 ^ 31 ->
  CodeType (settings cfg) = "UniLRC" /\ (st_z s0 | st_r s0) \/ CodeType (settings cfg) = "AzureLRC" ->
  (forall x, node_stripes (node_at t x) !! stripe_id s0 = None) ->
  initialize_unilrc_and_azurelrc_stripe_placement (settings cfg) s0 t draws = Some (s, t') ->
  m_stripe_table c !! id = Some s ->
  (forall b, 0 <= b < st_k s0 ->
     let nd := node_of_block (co_tables c) (blocks s).[b] in
     files_at (node_ip nd) (node_port nd) st !! block_key (blocks s).[b] = Some (content b) /\ zlen (content b) = BlockSize (settings cfg)) ->
  exists reply requests, getStripe cfg id c = Some (reply, requests) /\
    forall whens arrivals buf, (forall j, in_time (BlockSize (settings cfg)) (whens j)) ->
      arrivals ≡ₚ concat (imap (fun j q => proxy_getBlocks (BlockSize (settings cfg)) st (whens j) q) requests) ->
      zlen buf = st_k s0 * BlockSize (settings cfg) ->
      client_receive (st_k s0) (BlockSize (settings cfg)) arrivals buf = Some (concat (map content (zseq (st_k s0)))).
Proof.
  intros N Hk Hr Hk32 Hbs Hfit Hcode Hfree E Hs Hst. destruct (uni_azure_placed _ _ _ _ _ _ N Hk Hr Hcode Hfree E) as [HG Hgr].
  pose proof (place_ok (PlacementAlgorithm := uni_azure_ok) _ _ _ _ _ _ N Hfree E) as [(_ & P1 & _ & _ & P5 & _) _ Pb _ _ _ _ Pg].
  pose proof N as [N1 N2 N3 N4 _ _]. rewrite <- P1 in Hk32, Hfit, Hst |- *. rewrite <- P5 in Pg.
  refine (get_stripe_returns cfg id c s Hs _ _ Pg st content Hbs Hk32 Hfit _ Hst).
  - rewrite P1, P5. lia.
  - intros b Hb. rewrite P5 in Hb. rewrite (Pb b Hb). cbn [with_place block_id]. unfold block_info. repeat case_match; reflexivity.
  - intros b Hb. rewrite P1 in Hb. rewrite HG, Hgr by lia. apply uni_azure_data_group; assumption.
Qed.

(** The placed example stripe, its blocks [5] and [7] on their nodes. *)
Definition ex_placed : option (Stripe * Tables) :=
  initialize_unilrc_and_azurelrc_stripe_placement ex_azure_settings ex_azure_stripe ex_two_clusters [0; 1; 0; 2].
Definition ex_azure_config : SysConfig :=
  {| settings := ex_azure_settings; cfg_k := 2; cfg_r := 1; cfg_z := 1; cfg_n := 4; AppendMode := "UNILRC_MODE"; UnitSize := 1 |}.
Definition ex_placed_coordinator (s : Stripe) (t : Tables) : Coordinator :=
  {| co_tables := t; m_stripe_table := {[0 := s]}; m_cur_stripe_id := 1; m_object_commit_table := ∅; m_object_updating_table := ∅;
     m_stripe_deleting_table := []; m_cur_offset_table := ∅ |}.
Definition ex_content (b : Z) : list byte := if b =? 0 then [x05] else [x07].
Definition ex_storage : Storage :=
  {[("10.0.0.2", 9000) := {["0_D00" := [x05]]}; ("10.0.0.2", 9001) := {["0_D01" := [x07]]}]}.
Definition ex_in_time (j i : nat) : Overtaken := Fetched [x00].

Lemma get_returns_data_witness : exists s t reply requests,
  ex_placed = Some (s, t) /\ getStripe ex_azure_config 0 (ex_placed_coordinator s t) = Some (reply, requests) /\
  client_receive 2 1 (rev (concat (imap (fun j q => proxy_getBlocks 1 ex_storage (ex_in_time j) q) requests))) [x00; x00] = Some [x05; x07].
Proof.
  destruct ex_placed as [[s t]|] eqn:E; [|vm_compute in E; discriminate]. exists s, t.
  destruct (get_returns_data ex_azure_config 0 (ex_placed_coordinator s t) ex_azure_stripe ex_two_clusters [0; 1; 0; 2] s t ex_storage ex_content)
    as (reply & requests & H1 & H2).
  - split; cbn; try reflexivity; lia.
  - exists 2. reflexivity.
  - cbn. lia.
  - cbn. lia.
  - cbn. lia.
  - vm_compute. discriminate.
  - right. reflexivity.
  - intros x. unfold ex_two_clusters. rewrite node_at_empty by (refine (bool_decide_eq_true_1 _ _); vm_compute; reflexivity). apply lookup_empty.
  - exact E.
  - apply lookup_singleton_eq.
  - intros b Hb. change (st_k ex_azure_stripe) with 2 in Hb. assert (Hb' : b = 0 \/ b = 1) by lia.
    vm_compute in E. injection E as <- <-. destruct Hb' as [->| ->]; vm_compute; split; reflexivity.
  - exists reply, requests. split; [reflexivity|]. split; [exact H1|]. rewrite (H2 ex_in_time).
    + reflexivity.
    + intros j i. exists [x00]. split; reflexivity.
    + symmetry. apply Permutation_rev.
    + reflexivity.
Defined.

(** * Whole round trip *)

(** C6. A gLRC stripe (below 2 GiB) that was set is read back: whatever connections
    the threads of the proxies accepted, as long as the groups' proxies have
    different addresses or each thread got its own, [Client::get_blocks] of the
    stripe's blocks returns the data the client had put into its buffer, if every
    fetch of a proxy ends before its block is sent. *)
Theorem set_then_get {K : Kernels} {KL : KernelLaws K} cfg client draws outcomes c buf tmp st num_arry N :
  config_ok cfg -> CodeType (settings cfg) = "gLRC" -> 1 <= BlockSize (settings cfg) -> cfg_n cfg * BlockSize (settings cfg) < 2 ^ 31 ->
  coordinator_ok c -> cluster_ready cfg (co_tables c) -> schedulable outcomes ->
  zlen buf = cfg_n cfg * BlockSize (settings cfg) -> (forall key, tmp key <> key) ->
  exists reply c' s plans buf' parts requests,
    uploadSetValue cfg client (BlockSize (settings cfg) * cfg_k cfg) draws outcomes c = Some (Some reply, c') /\
    m_stripe_table c' !! m_cur_stripe_id c = Some s /\
    generate_add_plans (BlockSize (settings cfg)) s (co_tables c') = Some plans /\
    set_stripe num_arry N (stripe_id s) cfg reply buf = Some (buf', parts) /\
    getBlocks cfg (m_cur_stripe_id c * cfg_k cfg) (m_cur_stripe_id c * cfg_k cfg + cfg_k cfg - 1) c' = Some requests /\
    forall accepted, accepts_at (reply_addresses reply) accepted -> NoDup (reply_addresses reply) \/ own_parts accepted ->
    exists st', run_proxies cfg tmp plans parts accepted st = Some st' /\
    forall whens arrivals out, (forall j, in_time (BlockSize (settings cfg)) (whens j)) ->
      arrivals ≡ₚ concat (imap (fun j q => proxy_getBlocks (BlockSize (settings cfg)) st' (whens j) q) (map snd requests)) ->
      zlen out = cfg_k cfg * BlockSize (settings cfg) ->
      client_receive (cfg_k cfg) (BlockSize (settings cfg)) arrivals out = Some (concat (buffer_data cfg buf)).
Proof.
  intros Hcfg Hct Hbs Hfit Hc Hcr Hout Hbuf Htmp. pose proof Hcfg as (K1 & K2 & K3 & K4).
  destruct (set_flow_written cfg client draws outcomes c buf tmp st {| object_size := 0; oi_stripe := 0 |} num_arry N Hcfg Hct Hbs Hfit Hc Hcr Hout Hbuf Htmp)
    as (reply & c' & s & plans & buf' & parts & H1 & H2 & H3 & H4 & Hw & _).
  assert (Hdata : forall b, 0 <= b < cfg_k cfg -> (stripe_of cfg buf).[b] = (buffer_data cfg buf).[b]).
  { intros b Hb. unfold stripe_of. rewrite zget_app by lia. assert (Hl : zlen (buffer_data cfg buf) = cfg_k cfg)
      by (unfold buffer_data; rewrite length_map, zlen_seqZ; lia). zcases. reflexivity. }
  assert (Hread : forall st', blocks_stored cfg s (co_tables c') (stripe_of cfg buf) st' -> exists requests,
    getBlocks cfg (m_cur_stripe_id c * cfg_k cfg) (m_cur_stripe_id c * cfg_k cfg + cfg_k cfg - 1) c' = Some requests /\
    forall whens arrivals out, (forall j, in_time (BlockSize (settings cfg)) (whens j)) ->
      arrivals ≡ₚ concat (imap (fun j q => proxy_getBlocks (BlockSize (settings cfg)) st' (whens j) q) (map snd requests)) ->
      zlen out = cfg_k cfg * BlockSize (settings cfg) ->
      client_receive (cfg_k cfg) (BlockSize (settings cfg)) arrivals out = Some (concat (map (fun b => (buffer_data cfg buf).[b]) (zseq (cfg_k cfg))))).
  { intros st' Hst. apply (get_blocks_returns cfg c' st' (m_cur_stripe_id c * cfg_k cfg) (cfg_k cfg) (fun b => (buffer_data cfg buf).[b])); try nia.
    - pose proof (co_next c Hc). nia.
    - intros b Hb. split; [rewrite <- Hdata by exact Hb; apply stripe_block_len; auto; lia|].
      rewrite (Z.add_comm _ b), Z.div_add, Z.div_small, Z.mod_add, Z.mod_small, Z.add_0_l by lia.
      exists s. split; [exact H2|]. rewrite <- Hdata by exact Hb. apply (Hst b). lia. }
  assert (Hd : map (fun b => (buffer_data cfg buf).[b]) (zseq (cfg_k cfg)) = buffer_data cfg buf).
  { symmetry. etransitivity; [apply list_zget|]. f_equal. unfold buffer_data. rewrite length_map, zlen_seqZ. f_equal. lia. }
  rewrite Hd in Hread. clear Hd.
  destruct (Hw (in_order _) (in_order_accepts _)) as (st1 & _ & Hst1). destruct (Hread st1 (Hst1 (or_intror (in_order_own _)))) as (requests & R1 & _).
  exists reply, c', s, plans, buf', parts, requests. do 5 (split; [assumption|]). intros accepted Hacc Hap.
  destruct (Hw accepted Hacc) as (st' & Hrun & Hst'). exists st'. split; [exact Hrun|].
  destruct (Hread st' (Hst' Hap)) as (requests' & R1' & R2). rewrite R1 in R1'. injection R1' as <-. exact R2.
Qed.

Lemma set_then_get_witness : exists reply c' s plans buf' parts st' requests,
  uploadSetValue (ex_config "gLRC") "client" 2 [] (fun _ => [true]) ex_coordinator = Some (Some reply, c') /\
  m_stripe_table c' !! 0 = Some s /\ generate_add_plans 1 s (co_tables c') = Some plans /\
  set_stripe [] 0 (stripe_id s) (ex_config "gLRC") reply ex_buffer = Some (buf', parts) /\
  run_proxies (ex_config "gLRC") ex_tmp plans parts (in_order 1) ∅ = Some st' /\
  getBlocks (ex_config "gLRC") 0 1 c' = Some requests /\
  client_receive 2 1 (concat (imap (fun j q => proxy_getBlocks 1 st' (ex_in_time j) q) (map snd requests))) [x00; x00] = Some [x05; x07].
Proof.
  destruct (set_then_get (ex_config "gLRC") "client" [] (fun _ => [true]) ex_coordinator ex_buffer ex_tmp ∅ [] 0)
    as (reply & c' & s & plans & buf' & parts & requests & H1 & H2 & H3 & H4 & H6 & Hrun);
    [apply ex_config_ok|reflexivity|cbn; lia|cbn; lia|apply ex_coordinator_ok|apply ex_cluster_ready|intros i; reflexivity|reflexivity|apply ex_tmp_ok|].
  destruct (Hrun (in_order 1)) as (st' & H5 & H7);
    [rewrite <- (ex_reply_addresses _ _ _ _ H1 eq_refl); apply in_order_accepts|right; apply in_order_own|].
  exists reply, c', s, plans, buf', parts, st', requests. do 6 (split; [assumption|]).
  rewrite (H7 ex_in_time _ [x00; x00]); [reflexivity| |reflexivity|reflexivity]. intros j i. exists [x00]. split; reflexivity.
Defined.

(** * Where reads go wrong *)

(** [getStripe] leaves out the last group of every code but UniLRC, which for
    gLRC holds data blocks: when the last data block is in the last group,
    [Client::get] waits for a block that nobody sends. *)
Theorem glrc_get_waits cfg id c s0 t s t' st :
  new_stripe s0 -> (forall x, node_stripes (node_at t x) !! stripe_id s0 = None) -> CodeType (settings cfg) = "gLRC" ->
  block_group (st_k s0) (st_r s0) (st_z s0) (st_k s0 - 1) = st_z s0 - 1 ->
  initialize_glrc_stripe_placement (settings cfg) s0 t = Some (s, t') -> m_stripe_table c !! id = Some s ->
  exists reply requests, getStripe cfg id c = Some (reply, requests) /\
    forall whens arrivals buf,
      arrivals ≡ₚ concat (imap (fun j q => proxy_getBlocks (BlockSize (settings cfg)) st (whens j) q) requests) ->
      client_receive (st_k s0) (BlockSize (settings cfg)) arrivals buf = None.
Proof.
  intros N Hfree Hct Hlast E Hs. pose proof N as [N1 N2 N3 N4 _ _].
  pose proof (glrc_blocks_ok _ _ _ _ _ N Hfree E) as [(_ & P1 & _ & _ & P5 & _) _ Pb _ _ _ _ Pg].
  destruct (glrc_groups _ _ _ _ _ (st_z s0 - 1) N Hfree E ltac:(lia)) as [Hnum Hgr].
  assert (Hg : map2group (blocks s).[st_k s0 - 1] = st_z s0 - 1).
  { rewrite Pg in Hgr. apply (placement_group_iff (st_k s0) (st_r s0) (st_z s0)) in Hlast; [|lia..].
    destruct (List.filter _ _) as [|x l] eqn:Ef in Hgr; [discriminate|]. injection Hgr as Hgr. rewrite <- Hgr, <- Ef in Hlast.
    apply filter_In in Hlast as [_ H]. apply Z.eqb_eq, H. }
  rewrite <- P1. rewrite <- P5 in Pg. refine (get_stripe_waits cfg id c s Hs _ _ Pg st (st_k s0 - 1) _ _).
  - rewrite P1, P5. lia.
  - intros b Hb. rewrite P5 in Hb. rewrite (Pb b Hb). cbn [with_place block_id]. unfold block_info. repeat case_match; reflexivity.
  - lia.
  - rewrite Hg. unfold num_data_groups. rewrite Hct, Hnum. cbn [String.eqb Ascii.eqb Bool.eqb]. lia.
Qed.

(** The proxy sends a block without waiting for the thread that fetches it: if
    the fetch of block 1 is overtaken, the client receives all blocks and block
    1 holds whatever the buffer held. *)
Theorem get_blocks_overtaken (junk : byte) : exists s t reply requests,
  ex_placed = Some (s, t) /\ getStripe ex_azure_config 0 (ex_placed_coordinator s t) = Some (reply, requests) /\
  client_receive 2 1 (concat (imap (fun _ q => proxy_getBlocks 1 ex_storage (fun i => match i with O => Fetched [x00] | S _ => Early [junk] end) q)
    requests)) [x00; x00] = Some [x05; junk].
Proof.
  destruct ex_placed as [[s t]|] eqn:E; [|vm_compute in E; discriminate]. exists s, t. vm_compute in E. injection E as <- <-.
  eexists _, _. split; [reflexivity|]. split; [vm_compute; reflexivity|]. vm_compute. reflexivity.
Qed.
