(* ===== verification/DegradedTheorems.v ===== *)
(** Properties of the repair of one lost block. *)
From S2P Require Import Prelude GF256 LinAlg GFMatrix Groups EcKernel Codes Decode DecodeSpec LocalRepair RepairPlan Toolbox Placement PlacementSpec PlacementLaw.
From S2P Require Import Coordinator CoordinatorSpec AppendPlan Client DataNode ProxyAppend BufferLayout StripeWrite ReadPath.
From S2P Require Import SingleRepair AzureGlobal SingleRepairSpec CrossRepairSpec Examples WriteTheorems.

(** * Stored stripes *)

(** A stripe of the table that was placed for the configured code. *)
Record placed_stripe (cfg : SysConfig) (c : Coordinator) (sid : Z) (s0 : Stripe) (t : Tables) (draws : list Z) (s : Stripe) (t' : Tables) : Prop := {
  ps_new : new_stripe s0;
  ps_k : cfg_k cfg = st_k s0;
  ps_r : cfg_r cfg = st_r s0;
  ps_z : cfg_z cfg = st_z s0;
  ps_free : forall x, node_stripes (node_at t x) !! stripe_id s0 = None;
  ps_placed : initialize_stripe_placement (settings cfg) s0 t draws = Some (s, t');
  ps_table : m_stripe_table c !! sid = Some s }.

(** The blocks of an encoded stripe, all of the block size. *)
Record encoded_stripe {K : Kernels} (cfg : SysConfig) (data parity stripe : list block) : Prop := {
  es_encode : exists encode, encode_code (CodeType (settings cfg)) = Some encode /\
    stripe = data ++ encode (cfg_k cfg) (cfg_r cfg) (cfg_z cfg) data parity (BlockSize (settings cfg));
  es_size : 0 <= BlockSize (settings cfg);
  es_data : zlen data = cfg_k cfg;
  es_parity : zlen parity = cfg_r cfg + cfg_z cfg;
  es_buffers : buffers (cfg_r cfg + cfg_z cfg) (BlockSize (settings cfg)) parity;
  es_len : forall b, 0 <= b < cfg_k cfg + cfg_r cfg + cfg_z cfg -> zlen stripe.[b] = BlockSize (settings cfg) }.

(** Lost blocks for which the group of the block is enough. *)
Definition one_group_suffices (cfg : SysConfig) (f : Z) : Prop :=
  let k := cfg_k cfg in let r := cfg_r cfg in let z := cfg_z cfg in
  CodeType (settings cfg) = "UniLRC" /\ (z | k) /\ (z | r) /\ 1 <= r \/
  CodeType (settings cfg) = "AzureLRC" /\ (z | k) /\ 2 <= k / z /\ ~ k <= f < k + r \/
  CodeType (settings cfg) = "gLRC" /\ z <= k + r <= 255.

Lemma uni_azure_layout cfg s0 t draws s t' : new_stripe s0 -> (forall x, node_stripes (node_at t x) !! stripe_id s0 = None) ->
  CodeType cfg = "UniLRC" \/ CodeType cfg = "AzureLRC" -> initialize_stripe_placement cfg s0 t draws = Some (s, t') ->
  let gr := uni_azure_group_of (CodeType cfg) s0 in
  st_n s = st_n s0 /\ (forall b, 0 <= b < st_n s0 -> block_id (blocks s).[b] = b /\ map2group (blocks s).[b] = gr b) /\
  forall g, group_of_stripe s g = List.filter (fun b => gr b =? g) (zseq (st_n s0)).
Proof.
  intros N Hfree Hct E. cbv zeta.
  assert (E' : initialize_unilrc_and_azurelrc_stripe_placement cfg s0 t draws = Some (s, t')).
  { unfold initialize_stripe_placement in E. destruct Hct as [H|H]; rewrite H in E; cbn [String.eqb Ascii.eqb Bool.eqb orb] in E; exact E. }
  pose proof (place_ok (PlacementAlgorithm := uni_azure_ok) _ _ _ _ _ _ N Hfree E') as [(_ & _ & _ & _ & P5 & _) _ Pb _ _ _ _ Pg].
  unfold initialize_unilrc_and_azurelrc_stripe_placement in E'. pose proof N as [N1 N2 N3 N4 N5 N6].
  apply place_stripe_spec in E'; [|exact Hfree|lia|exact N5|exact N6].
  assert (Hgr : forall b, 0 <= b < st_n s0 -> map2group (blocks s).[b] = uni_azure_group_of (CodeType cfg) s0 b).
  { intros b Hb. rewrite (pl_block _ _ _ _ _ _ _ E' b Hb). cbn [with_place map2group]. apply block_info_group. }
  split; [exact P5|]. split.
  - intros b Hb. split; [|apply Hgr, Hb]. rewrite (Pb b Hb). cbn [with_place block_id]. unfold block_info. repeat case_match; reflexivity.
  - intros g. unfold group_of_stripe. rewrite Pg.
    rewrite (filter_ext_in _ (fun b => uni_azure_group_of (CodeType cfg) s0 b =? g)) by (intros b Hb; apply in_zseq in Hb; rewrite Hgr by exact Hb; reflexivity).
    destruct (List.filter _ _); reflexivity.
Qed.

Lemma one_group_repair {K : Kernels} {KL : KernelLaws K} cfg c sid s0 t draws s t' data parity stripe f :
  placed_stripe cfg c sid s0 t draws s t' -> encoded_stripe cfg data parity stripe -> 0 <= f < st_n s0 -> one_group_suffices cfg f ->
  exists g, repairs_in_group cfg s stripe f g.
Proof.
  intros [N Ek Er Ez Hfree Ep Ht] [(encode & Hcode & ->) Hbs Hd Hp Hbuf Hl] Hf Hone. pose proof N as [N1 N2 N3 N4 _ _].
  destruct Hone as [(Hct & Hzk & Hzr & Hr1)|[(Hct & Hzk & Hq & Hng)|(Hct & Hkr)]].
  - destruct (uni_azure_layout _ _ _ _ _ _ N Hfree (or_introl Hct) Ep) as (L1 & L2 & L3).
    rewrite Hct in Hcode. injection Hcode as <-. rewrite Ek, Er, Ez in *.
    eexists. apply (unilrc_in_group cfg s0 s data parity f); auto; try (intros; apply L2; lia). rewrite N4. exact Hl.
  - destruct (uni_azure_layout _ _ _ _ _ _ N Hfree (or_intror Hct) Ep) as (L1 & L2 & L3).
    rewrite Hct in Hcode. injection Hcode as <-. rewrite Ek, Er, Ez in *.
    eexists. apply (azure_in_group cfg s0 s data parity f); auto; try (intros; apply L2; lia). rewrite N4. exact Hl.
  - unfold initialize_stripe_placement in Ep. rewrite Hct in Ep, Hcode. cbn [String.eqb Ascii.eqb Bool.eqb orb] in Ep. injection Hcode as <-.
    pose proof (glrc_blocks_ok _ _ _ _ _ N Hfree Ep) as [(_ & _ & _ & _ & P5 & _) _ Pb _ _ _ _ _].
    exists (block_group (cfg_k cfg) (cfg_r cfg) (cfg_z cfg) f). apply glrc_in_group; try lia; try assumption.
    + intros g Hg. rewrite Ek, Er, Ez in *. apply (glrc_groups _ _ _ _ _ g N Hfree Ep Hg).
    + intros b Hb. split; [|apply Hl, Hb]. rewrite Pb by lia. cbn [with_place block_id]. unfold block_info. repeat case_match; reflexivity.
    + apply encode_glrc_stripe_ok; auto; lia.
Qed.

(** * An AzureLRC stripe of nine blocks *)

(** Three clusters of four nodes, (4, 3, 2) with blocks of one byte. *)
Definition ex9_config : SysConfig :=
  {| settings := {| BlockSize := 1; ClusterNum := 3; CodeType := "AzureLRC" |}; cfg_k := 4; cfg_r := 3; cfg_z := 2; cfg_n := 9;
     AppendMode := "UNILRC_MODE"; UnitSize := 1 |}.
Definition ex9_tables : Tables :=
  {| m_node_table := list_to_map (map (fun x => (x, ex_node x)) (zseq 12));
     m_cluster_table := list_to_map (map (fun c => (c,
       {| cluster_proxy_ip := "10.0.0.1"; cluster_proxy_port := 50405 + 10 * c; nodes := seqZ (4 * c) 4; cluster_blocks := [];
          cluster_stripes := ∅ |})) (zseq 3)) |}.
Definition ex9_stripe : Stripe := upload_stripe ex9_config 0 "key".
Definition ex9_draws : list Z := [0; 1; 0; 1; 0; 1; 2; 2; 2].
Definition ex9_data : list block := [[x05]; [x07]; [x0b]; [x0d]].
Definition ex9_parity : list block := [[x00]; [x00]; [x00]; [x00]; [x00]].
Definition ex9_blocks : list block := Eval vm_compute in ex9_data ++ encode_azure_lrc 4 3 2 ex9_data ex9_parity 1.
Definition ex9_placed : option (Stripe * Tables) :=
  Eval vm_compute in initialize_stripe_placement (settings ex9_config) ex9_stripe ex9_tables ex9_draws.
Definition ex9_s : Stripe := Eval vm_compute in match ex9_placed with Some (s, _) => s | None => ex9_stripe end.
Definition ex9_t : Tables := Eval vm_compute in match ex9_placed with Some (_, t) => t | None => ex9_tables end.
Definition ex9_coordinator : Coordinator :=
  {| co_tables := ex9_t; m_stripe_table := {[0 := ex9_s]}; m_cur_stripe_id := 1; m_object_commit_table := ∅; m_object_updating_table := ∅;
     m_stripe_deleting_table := []; m_cur_offset_table := ∅ |}.

(** The stripe with block [f] lost. *)
Definition ex9_storage (f : Z) : Storage :=
  fold_right (fun b st =>
    let nd := node_of_block ex9_t (blocks ex9_s).[b] in
    <[(node_ip nd, node_port nd) := {[block_key (blocks ex9_s).[b] := ex9_blocks.[b]]}]> st) ∅
    (List.filter (fun b => negb (b =? f)) (zseq 9)).
Definition ex9_buffers : Buffers := {| read_junk := fun _ => [x63]; res_buf := [x63]; real_res_buf := [x63] |}.

Lemma ex9_placed_stripe : placed_stripe ex9_config ex9_coordinator 0 ex9_stripe ex9_tables ex9_draws ex9_s ex9_t.
Proof.
  split.
  - split; cbn; try reflexivity; lia.
  - reflexivity.
  - reflexivity.
  - reflexivity.
  - intros x. unfold ex9_tables. rewrite node_at_empty by (refine (bool_decide_eq_true_1 _ _); vm_compute; reflexivity). apply lookup_empty.
  - vm_compute. reflexivity.
  - apply lookup_singleton_eq.
Qed.

Lemma ex9_all (P : Z -> Prop) : Forall P (zseq 9) -> forall b, 0 <= b < 9 -> P b.
Proof. intros H b Hb. rewrite Forall_forall in H. apply H, elem_of_seqZ. lia. Qed.

Lemma ex9_encoded : encoded_stripe ex9_config ex9_data ex9_parity ex9_blocks.
Proof.
  split.
  - exists encode_azure_lrc. split; [reflexivity|vm_compute; reflexivity].
  - cbn. lia.
  - reflexivity.
  - reflexivity.
  - apply buffers_eval. by_eval.
  - apply (ex9_all (fun b => zlen ex9_blocks.[b] = 1)). repeat constructor.
Qed.

#[local] Instance stored_dec st q bytes : Decision (stored st q bytes).
Proof. unfold stored. apply _. Defined.

Lemma ex9_survivors f : 0 <= f < 9 -> survivors (ex9_storage f) ex9_s ex9_t ex9_blocks f.
Proof.
  intros Hf b Hb Hne. revert f Hf Hne. change (st_n ex9_s) with 9 in Hb. revert b Hb.
  apply (ex9_all (fun b => forall f, 0 <= f < 9 -> b <> f -> stored (ex9_storage f) (source_block ex9_s ex9_t b) ex9_blocks.[b])).
  apply Forall_forall. intros b Hb. apply elem_of_seqZ in Hb.
  apply (ex9_all (fun f => b <> f -> stored (ex9_storage f) (source_block ex9_s ex9_t b) ex9_blocks.[b])).
  revert b Hb. assert (H : forallb (fun b => forallb (fun f => (b =? f) || bool_decide (stored (ex9_storage f) (source_block ex9_s ex9_t b) ex9_blocks.[b]))
    (zseq 9)) (zseq 9) = true) by (vm_compute; reflexivity).
  intros b Hb. apply Forall_forall. intros f Hf Hne. rewrite forallb_forall in H.
  specialize (H b ltac:(apply list_elem_of_In, elem_of_seqZ; lia)). rewrite forallb_forall in H.
  specialize (H f ltac:(apply list_elem_of_In; exact Hf)). apply orb_true_iff in H as [H|H]; [apply Z.eqb_eq in H; contradiction|].
  apply bool_decide_eq_true in H. exact H.
Qed.

Lemma ex9_buffers_ok : buffers_of 1 ex9_buffers.
Proof. repeat split. Qed.


(** * Inside a group *)





(** * Across groups *)

Lemma imap_map {A B C} (h : nat -> B -> C) (g : A -> B) l : imap h (map g l) = imap (fun i x => h i (g x)) l.
Proof. revert h. induction l as [|x l IH]; intros h; [reflexivity|]. cbn [map imap]. f_equal. apply (IH (fun i => h (S i))). Qed.

(** What partial reads compute is fixed by the lost block and the sources. *)
Lemma partial_reads {K : Kernels} cfg st bufs (l : list ((string * Z) * DegradedReadRequest)) (fs : list (Z * list BlockRequest)) :
  map (fun x => (dr_failed_id (snd x), dr_sources (snd x))) l = fs ->
  imap (fun i x => degradedRead cfg st (bufs i) (snd x)) l = imap (fun i p => read_and_decode cfg st (bufs i) (fst p) (snd p)) fs.
Proof. intros <-. rewrite imap_map. reflexivity. Qed.

(** The data and global parities of an AzureLRC stripe are a Reed-Solomon word. *)
Lemma azure_word {K : Kernels} {KL : KernelLaws K} cfg data parity stripe : 1 <= cfg_k cfg -> 0 <= cfg_r cfg -> 1 <= cfg_z cfg ->
  (cfg_z cfg | cfg_k cfg) -> encoded_stripe cfg data parity stripe -> CodeType (settings cfg) = "AzureLRC" ->
  forall i, 0 <= i < BlockSize (settings cfg) -> exists d, forall b, 0 <= b < cfg_k cfg + cfg_r cfg ->
    stripe.[b].[i] = encoded (cfg_k cfg) (rs_gen (cfg_k cfg)) d b.
Proof.
  intros Hk Hr Hz Hzk [(encode & Hcode & ->) Hbs Hd Hp Hbuf _] Hct i Hi. rewrite Hct in Hcode. injection Hcode as <-.
  exists (fun j => data.[j].[i]). intros b Hb. unfold encode_azure_lrc. cbv zeta.
  rewrite (encode_rows_codeword _ _ _ _ (azure_gen (cfg_k cfg) (cfg_r cfg) (cfg_z cfg))); auto; try lia.
  - apply xsum_ext. intros j Hj. unfold azure_gen. destruct (Z.ltb_spec b (cfg_k cfg + cfg_r cfg)); [reflexivity|lia].
  - rewrite Z.add_assoc. apply gen_azure_lrc_matrix_spec; auto. apply new_bytes_len; lia.
  - intros b' j Hb'. unfold azure_gen, rs_gen. zcases; reflexivity.
Qed.

(** C8. A lost global parity of an AzureLRC stripe in which [z], at least 2, divides
    [k] and a group has fewer data blocks than there are global parities (else the
    repair is wrong): the proxies of groups 1 to [z - 1] send weighted sums of
    their data to the proxy of the parity, which adds its own; in whatever order
    they arrive, the client of a degraded read receives the lost parity, and a
    recovery whose draws find a free node, and which arrives whole, stores it
    there. *)
Theorem azure_global_restored {K : Kernels} {KL : KernelLaws K} cfg c sid s0 t draws s t' data parity stripe f client redraws :
  placed_stripe cfg c sid s0 t draws s t' -> encoded_stripe cfg data parity stripe -> CodeType (settings cfg) = "AzureLRC" ->
  2 <= cfg_z cfg -> (cfg_z cfg | cfg_k cfg) -> cfg_k cfg / cfg_z cfg < cfg_r cfg <= 255 -> cfg_k cfg <= f < cfg_k cfg + cfg_r cfg ->
  (forall cluster, get_cluster_id_by_group_id s (map2group (blocks s).[f]) = Some cluster ->
     is_Some (randomly_select_a_node cluster sid (co_tables c) redraws)) ->
  exists reads recovery node, degraded_read_one_block cfg sid f client c = Some reads /\
    recovery_one_block cfg sid f redraws c = Some recovery /\ rq_replaced (snd (rc_final recovery)) = node /\
    forall st bufs b m, survivors st s (co_tables c) stripe f -> (forall i, buffers_of (BlockSize (settings cfg)) (bufs i)) ->
      buffers_of (BlockSize (settings cfg)) b -> BlockSize (settings cfg) <= m ->
      exists outs, imap (fun i x => degradedRead cfg st (bufs i) (snd x)) (rc_partial reads) = map (fun o => Done (Some o)) outs /\
        imap (fun i x => degradedRead cfg st (bufs i) (snd x)) (rc_partial recovery) = map (fun o => Done (Some o)) outs /\
        forall arrivals, arrivals ≡ₚ outs ->
          degradedRead2Client cfg st b (snd (rc_final reads)) arrivals = Done (None, stripe.[f]) /\
          exists st', proxy_recovery cfg b (Some m) (snd (rc_final recovery)) arrivals st = Done st' /\
            files_at (fst node) (snd node) st' !! block_key (blocks s).[f] = Some stripe.[f].
Proof.
  intros Hp He Hct Hz2 Hzk Hr Hf Hdraw. pose proof He as [_ Hbs _ _ _ Hl]. destruct Hp as [N Ek Er Ez Hfree Ep Ht]. pose proof N as [N1 N2 N3 N4 _ _].
  destruct (uni_azure_layout _ _ _ _ _ _ N Hfree (or_intror Hct) Ep) as (L1 & L2 & L3). rewrite Hct in L2, L3.
  assert (Hword : forall i, 0 <= i < BlockSize (settings cfg) -> exists d, forall b, 0 <= b < st_k s0 + st_r s0 ->
    stripe.[b].[i] = encoded (st_k s0) (rs_gen (st_k s0)) d b).
  { rewrite <- Ek, <- Er. apply (azure_word cfg data parity stripe); auto; lia. }
  rewrite Ek, Er, Ez, <- N4 in Hl. rewrite Ez in Hz2. rewrite Ek, Ez in Hzk. rewrite Ek, Er, Ez in Hr. rewrite Ek, Er in Hf.
  assert (Hfg : map2group (blocks s).[f] = st_z s0).
  { destruct (L2 f ltac:(lia)) as [_ ->]. rewrite (azure_gr s0 N Hz2).
    destruct (Z.ltb_spec f (st_k s0)); [lia|]. destruct (Z.ltb_spec f (st_k s0 + st_r s0)); [reflexivity|lia]. }
  rewrite Hfg in Hdraw.
  assert (Hid : forall b, 0 <= b < st_n s0 -> block_id (blocks s).[b] = b /\ zlen stripe.[b] = BlockSize (settings cfg))
    by (intros b Hb; split; [apply L2, Hb|apply Hl, Hb]).
  assert (Hmap : forall b, 0 <= b < st_n s0 -> map2group (blocks s).[b] = uni_azure_group_of "AzureLRC" s0 b) by (intros b Hb; apply L2, Hb).
  pose proof (azure_cross_plan cfg c s0 s f N Ek Er Ez Hzk Hct L3 Hmap Hz2 Hf Hr) as Hplan.
  destruct (Hplan (fun _ => Some client) false None) as (reads & cl1 & d1 & E1 & _ & [= <-] & P1 & R1); [intros; eexists; reflexivity|].
  set (pick := fun cluster => match randomly_select_a_node cluster sid (co_tables c) redraws with
    | None => None | Some (x, _) => Some (node_ip (node_at (co_tables c) x), node_port (node_at (co_tables c) x)) end).
  destruct (Hplan pick true None) as (recovery & cl2 & node & E2 & _ & _ & P2 & R2).
  { intros cluster Hcl. unfold pick. destruct (Hdraw cluster Hcl) as [[x rest] ->]. eexists; reflexivity. }
  exists reads, recovery, node. unfold degraded_read_one_block, recovery_one_block. rewrite Ht. cbn [mbind option_bind].
  fold pick. cbv zeta in R1, R2. destruct R1 as (A1 & A2 & A3 & A4 & A5 & A6), R2 as (B1 & B2 & B3 & B4 & B5 & B6).
  do 2 (split; [assumption|]). split; [exact B3|]. intros st bufs b m Hst Hbufs Hb Hm.
  destruct (azure_cross_sum cfg c s0 s stripe f N Ek Er Ez Hzk Hct L3 L1 Hid Hz2 Hf Hr Hbs Hword st bufs b Hst Hbufs Hb) as (outs & own & O1 & O2 & O3).
  exists outs. rewrite (partial_reads _ _ _ _ _ P1), (partial_reads _ _ _ _ _ P2), imap_map. cbn [fst snd].
  do 2 (split; [exact O1|]). intros arrivals Ha. unfold degradedRead2Client, proxy_recovery.
  rewrite A1, A4, A5, A6, B1, B2, B3, B4, B5, O2, (O3 arrivals Ha). split; [reflexivity|]. eexists. split; [reflexivity|].
  assert (Hlf : zlen stripe.[f] = BlockSize (settings cfg)) by (apply Hl; lia).
  unfold RecoveryToDatanode, handleRecovery. rewrite !(ztake_all stripe.[f]) by lia. rewrite Hlf, Z.sub_diag.
  change (zrepeat x00 0) with (@nil byte). rewrite app_nil_r, ztake_all by lia. cbn [snd].
  destruct node as [ip port]. unfold files_at. cbn [fst snd]. rewrite lookup_insert_eq. apply lookup_insert_eq.
Qed.

Lemma azure_global_restored_witness : exists reads outs,
  degraded_read_one_block ex9_config 0 5 ("10.0.0.9", 7000) ex9_coordinator = Some reads /\
  imap (fun _ x => degradedRead ex9_config (ex9_storage 5) ex9_buffers (snd x)) (rc_partial reads) = map (fun o => Done (Some o)) outs /\
  degradedRead2Client ex9_config (ex9_storage 5) ex9_buffers (snd (rc_final reads)) outs = Done (None, ex9_blocks.[5]).
Proof.
  destruct (azure_global_restored ex9_config ex9_coordinator 0 ex9_stripe ex9_tables ex9_draws ex9_s ex9_t ex9_data ex9_parity ex9_blocks 5
    ("10.0.0.9", 7000) [0; 3] ex9_placed_stripe ex9_encoded) as (reads & recovery & node & E1 & _ & _ & H);
    [reflexivity|cbn; lia|exists 2; reflexivity|split; [vm_compute; reflexivity|cbn; lia]|cbn; lia| |].
  - intros cluster Ec. vm_compute in Ec. injection Ec as <-. vm_compute. eexists; reflexivity.
  - destruct (H (ex9_storage 5) (fun _ => ex9_buffers) ex9_buffers 1 (ex9_survivors 5 ltac:(lia)) (fun _ => ex9_buffers_ok) ex9_buffers_ok
      ltac:(cbn; lia)) as (outs & O1 & _ & O2).
    exists reads, outs. split; [exact E1|]. split; [exact O1|apply (O2 outs), Permutation_refl].
Defined.

(** * After a write *)

(** What an upload that succeeds has placed. *)
Lemma upload_set_placed cfg client size draws outcomes c reply c' :
  uploadSetValue cfg client size draws outcomes c = Some (Some reply, c') ->
  exists s t, initialize_stripe_placement (settings cfg) (upload_stripe cfg (m_cur_stripe_id c) client) (co_tables c) draws = Some (s, t) /\
    m_stripe_table c' !! stripe_id s = Some s /\ co_tables c' = t.
Proof.
  unfold uploadSetValue. destruct (negb _ || negb _); [discriminate|].
  destruct (initialize_stripe_placement _ _ _ _) as [[s t]|] eqn:Ep; [|discriminate].
  destruct (generate_add_plans _ _ _) as [plans|]; [|discriminate].
  destruct (schedule outcomes plans _) as [rep c1] eqn:Es. intros [= -> <-]. exists s, t. split; [reflexivity|].
  apply schedule_tables in Es as (T1 & _). split; [apply lookup_insert_eq|exact T1].
Qed.

Lemma set_flow_repairs {K : Kernels} {KL : KernelLaws K} cfg client draws outcomes c buf tmp st num_arry N :
  config_ok cfg -> CodeType (settings cfg) = "gLRC" -> 1 <= BlockSize (settings cfg) -> cfg_n cfg * BlockSize (settings cfg) < 2 ^ 31 ->
  cfg_z cfg <= cfg_k cfg + cfg_r cfg <= 255 ->
  coordinator_ok c -> cluster_ready cfg (co_tables c) -> schedulable outcomes ->
  zlen buf = cfg_n cfg * BlockSize (settings cfg) -> (forall key, tmp key <> key) ->
  exists reply c' s plans buf' parts,
    (uploadSetValue cfg client (BlockSize (settings cfg) * cfg_k cfg) draws outcomes c = Some (Some reply, c') /\
     m_stripe_table c' !! m_cur_stripe_id c = Some s /\
     generate_add_plans (BlockSize (settings cfg)) s (co_tables c') = Some plans /\
     set_stripe num_arry N (stripe_id s) cfg reply buf = Some (buf', parts)) /\
    (forall accepted, accepts_at (reply_addresses reply) accepted -> exists st', run_proxies cfg tmp plans parts accepted st = Some st' /\
       (parts_apart reply accepted -> blocks_stored cfg s (co_tables c') (stripe_of cfg buf) st')) /\
    forall f, 0 <= f < cfg_n cfg -> exists g, repairs_in_group cfg s (stripe_of cfg buf) f g /\
      forall st' st2, blocks_stored cfg s (co_tables c') (stripe_of cfg buf) st' -> (forall x, 0 <= x < cfg_n cfg -> x <> f -> let nd := node_of_block (co_tables c') (blocks s).[x] in
         files_at (node_ip nd) (node_port nd) st2 !! block_key (blocks s).[x] =
         files_at (node_ip nd) (node_port nd) st' !! block_key (blocks s).[x]) ->
        survivors st2 s (co_tables c') (stripe_of cfg buf) f.
Proof.
  intros Hcfg Hct Hbs Hfit Hkr Hc Hcr Hout Hbuf Htmp. pose proof Hcfg as (K1 & K2 & K3 & K4).
  destruct (set_flow_written cfg client draws outcomes c buf tmp st {| object_size := 0; oi_stripe := 0 |} num_arry N Hcfg Hct Hbs Hfit Hc Hcr Hout Hbuf Htmp)
    as (reply & c' & s & plans & buf' & parts & H1 & H2 & H3 & H4 & H5 & _).
  destruct (upload_set_placed _ _ _ _ _ _ _ _ H1) as (s1 & t1 & Ep & Hs1 & Ht1).
  set (s0 := upload_stripe cfg (m_cur_stripe_id c) client) in *.
  assert (Hnew : new_stripe s0) by apply (upload_stripe_new _ _ _ Hcfg). pose proof (next_free c Hc) as Hfree.
  assert (Eg : initialize_glrc_stripe_placement (settings cfg) s0 (co_tables c) = Some (s1, t1)).
  { unfold initialize_stripe_placement in Ep. rewrite Hct in Ep. exact Ep. }
  pose proof (glrc_blocks_ok _ _ _ _ _ Hnew Hfree Eg) as [(Q1 & _ & _ & _ & Q5 & _) _ _ _ _ _ _ _].
  assert (Es : s1 = s) by (rewrite Q1 in Hs1; cbn [s0 stripe_id upload_stripe] in Hs1; congruence). subst s1.
  assert (Hplaced : placed_stripe cfg c' (m_cur_stripe_id c) s0 (co_tables c) draws s t1) by (split; auto).
  assert (Henc : encoded_stripe cfg (buffer_data cfg buf) (buffer_parity cfg buf) (stripe_of cfg buf)).
  { destruct (parity_buffers cfg Hcfg ltac:(lia) buf Hbuf) as [B1 B2].
    split; auto; try lia.
    - exists encode_glrc. rewrite Hct. split; reflexivity.
    - unfold buffer_data. rewrite length_map, zlen_seqZ. lia.
    - intros b Hb. apply stripe_block_len; auto; lia. }
  exists reply, c', s, plans, buf', parts. split; [auto|]. split; [exact H5|]. intros f Hf.
  destruct (one_group_repair _ _ _ _ _ _ _ _ _ _ _ f Hplaced Henc Hf) as [g Hg]; [right; right; auto|].
  exists g. split; [exact Hg|]. intros st' st2 H6 Hsame x Hx Hne. rewrite Q5 in Hx. specialize (Hsame x Hx Hne). cbv zeta in Hsame.
  unfold stored, source_block, request_block. cbn [br_ip br_port br_key]. rewrite Hsame. apply (H6 x Hx).
Qed.

(** C7. A gLRC stripe (below 2 GiB) that was set survives the loss of any one block,
    as long as the groups' proxies have different addresses or each of their
    threads got its own connection: whatever became of the block's node, if the
    other blocks are where they were written, a degraded read returns the block
    of the codeword. *)
Theorem set_then_degraded_read {K : Kernels} {KL : KernelLaws K} cfg client draws outcomes c buf tmp st num_arry N f reader :
  config_ok cfg -> CodeType (settings cfg) = "gLRC" -> 1 <= BlockSize (settings cfg) -> cfg_n cfg * BlockSize (settings cfg) < 2 ^ 31 ->
  cfg_z cfg <= cfg_k cfg + cfg_r cfg <= 255 ->
  coordinator_ok c -> cluster_ready cfg (co_tables c) -> schedulable outcomes ->
  zlen buf = cfg_n cfg * BlockSize (settings cfg) -> (forall key, tmp key <> key) -> 0 <= f < cfg_n cfg ->
  exists reply c' s plans buf' parts calls,
    uploadSetValue cfg client (BlockSize (settings cfg) * cfg_k cfg) draws outcomes c = Some (Some reply, c') /\
    m_stripe_table c' !! m_cur_stripe_id c = Some s /\
    generate_add_plans (BlockSize (settings cfg)) s (co_tables c') = Some plans /\
    set_stripe num_arry N (stripe_id s) cfg reply buf = Some (buf', parts) /\
    degraded_read_one_block cfg (m_cur_stripe_id c) f reader c' = Some calls /\
    forall accepted, accepts_at (reply_addresses reply) accepted -> NoDup (reply_addresses reply) \/ own_parts accepted ->
    exists st', run_proxies cfg tmp plans parts accepted st = Some st' /\
    forall st2 b arrivals,
      (forall x, 0 <= x < cfg_n cfg -> x <> f -> let nd := node_of_block (co_tables c') (blocks s).[x] in
         files_at (node_ip nd) (node_port nd) st2 !! block_key (blocks s).[x] =
         files_at (node_ip nd) (node_port nd) st' !! block_key (blocks s).[x]) ->
      buffers_of (BlockSize (settings cfg)) b ->
      exists bytes, degradedRead2Client cfg st2 b (snd (rc_final calls)) arrivals = Done (None, bytes) /\
        get_degraded_read_block (BlockSize (settings cfg)) bytes = Some (stripe_of cfg buf).[f].
Proof.
  intros Hcfg Hct Hbs Hfit Hkr Hc Hcr Hout Hbuf Htmp Hf.
  destruct (set_flow_repairs cfg client draws outcomes c buf tmp st num_arry N Hcfg Hct Hbs Hfit Hkr Hc Hcr Hout Hbuf Htmp)
    as (reply & c' & s & plans & buf' & parts & (H1 & H2 & H3 & H4) & H5 & H6).
  destruct (H6 f Hf) as (g & Hg & Hst).
  destruct (degraded_read_in_group cfg c' _ s _ f g H2 Hg reader) as (calls & E1 & _ & _ & E4).
  exists reply, c', s, plans, buf', parts, calls. do 5 (split; [assumption|]). intros accepted Hacc Hap.
  destruct (H5 accepted Hacc) as (st' & Hrun & Hst'). exists st'. split; [exact Hrun|]. intros st2 b arrivals Hsame Hb.
  exists (stripe_of cfg buf).[f]. split; [apply E4; [apply (Hst st' st2 (Hst' Hap)), Hsame|exact Hb]|].
  unfold get_degraded_read_block. pose proof (rg_lost _ _ _ _ _ Hg).
  destruct (Z.ltb_spec (zlen (stripe_of cfg buf).[f]) (BlockSize (settings cfg))); [lia|]. f_equal. apply ztake_all. lia.
Qed.

Lemma set_then_degraded_read_witness : exists reply c' s plans buf' parts st' calls bytes,
  uploadSetValue (ex_config "gLRC") "client" 2 [] (fun _ => [true]) ex_coordinator = Some (Some reply, c') /\
  m_stripe_table c' !! 0 = Some s /\ generate_add_plans 1 s (co_tables c') = Some plans /\
  set_stripe [] 0 (stripe_id s) (ex_config "gLRC") reply ex_buffer = Some (buf', parts) /\
  run_proxies (ex_config "gLRC") ex_tmp plans parts (in_order 1) ∅ = Some st' /\
  degraded_read_one_block (ex_config "gLRC") 0 0 ("10.0.0.9", 7000) c' = Some calls /\
  degradedRead2Client (ex_config "gLRC") st' ex9_buffers (snd (rc_final calls)) [] = Done (None, bytes) /\
  get_degraded_read_block 1 bytes = Some [x05].
Proof.
  destruct (set_then_degraded_read (ex_config "gLRC") "client" [] (fun _ => [true]) ex_coordinator ex_buffer ex_tmp ∅ [] 0 0 ("10.0.0.9", 7000))
    as (reply & c' & s & plans & buf' & parts & calls & H1 & H2 & H3 & H4 & H6 & Hrun);
    [apply ex_config_ok|reflexivity|cbn; lia|cbn; lia|cbn; lia|apply ex_coordinator_ok|apply ex_cluster_ready|intros i; reflexivity|reflexivity
    |apply ex_tmp_ok|cbn; lia|].
  destruct (Hrun (in_order 1)) as (st' & H5 & H7);
    [rewrite <- (ex_reply_addresses _ _ _ _ H1 eq_refl); apply in_order_accepts|right; apply in_order_own|].
  destruct (H7 st' ex9_buffers [] (fun x _ _ => eq_refl) ex9_buffers_ok) as (bytes & E1 & E2).
  exists reply, c', s, plans, buf', parts, st', calls, bytes. do 7 (split; [assumption|]). exact E2.
Defined.

(** Degraded reads of all data blocks of a stripe that was set give the client
    the data it had set, in order, whatever order the connections come in. *)
Theorem set_then_degraded_blocks {K : Kernels} {KL : KernelLaws K} cfg client draws outcomes c buf tmp st num_arry N reader :
  config_ok cfg -> CodeType (settings cfg) = "gLRC" -> 1 <= BlockSize (settings cfg) -> cfg_n cfg * BlockSize (settings cfg) < 2 ^ 31 ->
  cfg_z cfg <= cfg_k cfg + cfg_r cfg <= 255 ->
  coordinator_ok c -> cluster_ready cfg (co_tables c) -> schedulable outcomes ->
  zlen buf = cfg_n cfg * BlockSize (settings cfg) -> (forall key, tmp key <> key) ->
  exists reply c' s plans buf' parts,
    uploadSetValue cfg client (BlockSize (settings cfg) * cfg_k cfg) draws outcomes c = Some (Some reply, c') /\
    m_stripe_table c' !! m_cur_stripe_id c = Some s /\
    generate_add_plans (BlockSize (settings cfg)) s (co_tables c') = Some plans /\
    set_stripe num_arry N (stripe_id s) cfg reply buf = Some (buf', parts) /\
    forall accepted, accepts_at (reply_addresses reply) accepted -> NoDup (reply_addresses reply) \/ own_parts accepted ->
    exists st' calls, run_proxies cfg tmp plans parts accepted st = Some st' /\
    getDegradedReadBlocks cfg (m_cur_stripe_id c * cfg_k cfg) (m_cur_stripe_id c * cfg_k cfg + cfg_k cfg - 1) reader c' = Some calls /\
    forall bufs, (forall i, buffers_of (BlockSize (settings cfg)) (bufs i)) ->
    exists sent, imap (fun i x => degradedRead2Client cfg st' (bufs i) (snd (rc_final x)) []) calls = map Done sent /\
      forall arrivals out, arrivals ≡ₚ map arrival sent -> zlen out = cfg_k cfg * BlockSize (settings cfg) ->
        client_receive (cfg_k cfg) (BlockSize (settings cfg)) arrivals out = Some (concat (buffer_data cfg buf)).
Proof.
  intros Hcfg Hct Hbs Hfit Hkr Hc Hcr Hout Hbuf Htmp. pose proof Hcfg as (K1 & K2 & K3 & K4).
  destruct (set_flow_repairs cfg client draws outcomes c buf tmp st num_arry N Hcfg Hct Hbs Hfit Hkr Hc Hcr Hout Hbuf Htmp)
    as (reply & c' & s & plans & buf' & parts & (H1 & H2 & H3 & H4) & H5 & H6).
  exists reply, c', s, plans, buf', parts. do 4 (split; [assumption|]). intros accepted Hacc Hap.
  destruct (H5 accepted Hacc) as (st' & Hrun & Hst'). specialize (Hst' Hap).
  destruct (degraded_blocks_return cfg c' st' (m_cur_stripe_id c * cfg_k cfg) (cfg_k cfg) reader (fun b => (stripe_of cfg buf).[b]))
    as (calls & E & Hsent); [lia|nia| |].
  - intros i Hi. rewrite (Z.add_comm _ i), Z.div_add, Z.div_small, Z.mod_add, Z.mod_small, Z.add_0_l by lia.
    destruct (H6 i ltac:(lia)) as (g & Hg & Hst). exists s, (stripe_of cfg buf), g. cbv zeta.
    split; [exact H2|]. split; [exact Hg|]. split; [apply (Hst st'); [exact Hst'|reflexivity]|reflexivity].
  - exists st', calls. do 2 (split; [assumption|]). intros bufs Hb.
    destruct (Hsent bufs Hb) as (sent & E1 & E2). exists sent. split; [exact E1|]. intros arrivals out Ha Hl.
    rewrite (E2 arrivals out Ha Hl). f_equal. f_equal.
    assert (Hd : zlen (buffer_data cfg buf) = cfg_k cfg) by (unfold buffer_data; rewrite length_map, zlen_seqZ; lia).
    rewrite (list_zget (buffer_data cfg buf)), Hd. apply map_ext_in. intros b Hb0. apply in_zseq in Hb0.
    unfold stripe_of. rewrite zget_app, Hd by lia. zcases. reflexivity.
Qed.

Lemma set_then_degraded_blocks_witness : exists reply c' s plans buf' parts st' calls sent,
  uploadSetValue (ex_config "gLRC") "client" 2 [] (fun _ => [true]) ex_coordinator = Some (Some reply, c') /\
  m_stripe_table c' !! 0 = Some s /\ generate_add_plans 1 s (co_tables c') = Some plans /\
  set_stripe [] 0 (stripe_id s) (ex_config "gLRC") reply ex_buffer = Some (buf', parts) /\
  run_proxies (ex_config "gLRC") ex_tmp plans parts (in_order 1) ∅ = Some st' /\
  getDegradedReadBlocks (ex_config "gLRC") 0 1 ("10.0.0.9", 7000) c' = Some calls /\
  imap (fun _ x => degradedRead2Client (ex_config "gLRC") st' ex9_buffers (snd (rc_final x)) []) calls = map Done sent /\
  client_receive 2 1 (rev (map arrival sent)) [x00; x00] = Some [x05; x07].
Proof.
  destruct (set_then_degraded_blocks (ex_config "gLRC") "client" [] (fun _ => [true]) ex_coordinator ex_buffer ex_tmp ∅ [] 0 ("10.0.0.9", 7000))
    as (reply & c' & s & plans & buf' & parts & H1 & H2 & H3 & H4 & Hrun);
    [apply ex_config_ok|reflexivity|cbn; lia|cbn; lia|cbn; lia|apply ex_coordinator_ok|apply ex_cluster_ready|intros i; reflexivity|reflexivity|apply ex_tmp_ok|].
  destruct (Hrun (in_order 1)) as (st' & calls & H5 & H6 & H7);
    [rewrite <- (ex_reply_addresses _ _ _ _ H1 eq_refl); apply in_order_accepts|right; apply in_order_own|].
  destruct (H7 (fun _ => ex9_buffers) (fun _ => ex9_buffers_ok)) as (sent & E1 & E2).
  exists reply, c', s, plans, buf', parts, st', calls, sent. do 7 (split; [assumption|]).
  rewrite (E2 _ [x00; x00]); [reflexivity|symmetry; apply Permutation_rev|reflexivity].
Defined.

(** * Where single-block repair goes wrong *)

Lemma glrc_all_nodes_hold cfg s t s' t' x : new_stripe s -> (forall x, node_stripes (node_at t x) !! stripe_id s = None) ->
  initialize_glrc_stripe_placement cfg s t = Some (s', t') -> x ∈ dom (m_node_table t) ->
  is_Some (node_stripes (node_at t' x) !! stripe_id s).
Proof.
  intros N Hfree E Hx. destruct (glrc_nodes _ _ _ _ _ N Hfree E) as [D1 D2]. destruct (glrc_returns _ _ _ _ _ N Hfree E) as (_ & Hsize & _).
  pose proof (glrc_blocks_ok _ _ _ _ _ N Hfree E) as [_ _ _ Ph _ _ _ _]. destruct N as [N1 N2 N3 N4 _ _].
  set (used := map (fun b => map2node (blocks s').[b]) (zseq (st_n s))).
  assert (Hnd : NoDup used).
  { apply NoDup_ListNoDup, List.NoDup_map_NoDup_ForallPairs; [|apply NoDup_ListNoDup, NoDup_seqZ].
    intros b b' Hb Hb' Eb. apply in_zseq in Hb, Hb'. apply D2; assumption. }
  assert (Hall : list_to_set used = dom (m_node_table t)).
  { apply set_eq, set_subseteq_size_equiv.
    - intros y Hy. apply elem_of_list_to_set, list_elem_of_In, in_map_iff in Hy as (b & <- & Hb). apply in_zseq in Hb. apply D1, Hb.
    - rewrite size_dom, size_list_to_set by exact Hnd. unfold used. rewrite length_map. pose proof (zlen_seqZ 0 (st_n s)). lia. }
  rewrite <- Hall, elem_of_list_to_set, list_elem_of_In in Hx. apply in_map_iff in Hx as (b & <- & Hb). apply in_zseq in Hb.
  exists b. apply Ph. auto.
Qed.

(** [recovery_one_block] never returns for a gLRC stripe: the placement uses
    every node of the system, so the search for a node of the cluster that holds
    no block of the stripe finds none, whatever it draws (the nodes of the
    clusters being nodes of the node table). *)
Theorem glrc_recovery_never_returns cfg c s0 t s t' f redraws :
  new_stripe s0 -> (forall x, node_stripes (node_at t x) !! stripe_id s0 = None) -> CodeType (settings cfg) = "gLRC" ->
  initialize_glrc_stripe_placement (settings cfg) s0 t = Some (s, t') -> co_tables c = t' -> m_stripe_table c !! stripe_id s0 = Some s ->
  (forall b x, x ∈ nodes (cluster_at t' (map2cluster (blocks s).[b])) -> x ∈ dom (m_node_table t)) ->
  recovery_one_block cfg (stripe_id s0) f redraws c = None.
Proof.
  intros N Hfree Hct E Ht Hs Hdraws. unfold recovery_one_block. rewrite Hs, Ht. cbn [mbind option_bind]. unfold plan_one_block.
  assert (Hnone : forall b, randomly_select_a_node (map2cluster (blocks s).[b]) (stripe_id s0) t' redraws = None).
  { intros b. destruct (randomly_select_a_node _ _ _ _) as [[x rest]|] eqn:Ex; [exfalso|reflexivity].
    apply select_node_spec in Ex as [Hx Hin]. destruct (glrc_all_nodes_hold _ _ _ _ _ _ N Hfree E (Hdraws b x Hin)) as [y Hy]. congruence. }
  assert (Hg : exists g, get_recovery_group_ids (CodeType (settings cfg)) (cfg_k cfg) (cfg_r cfg) (cfg_z cfg) f = [g]).
  { rewrite Hct. unfold get_recovery_group_ids. cbn [String.eqb Ascii.eqb Bool.eqb]. unfold glrc_recovery_groups. destruct (_ <? _); eauto. }
  destruct Hg as [g ->]. unfold get_cluster_id_by_group_id. destruct (group_to_blocks s !! g) as [[|b l]|]; try reflexivity.
  rewrite Hnone. reflexivity.
Qed.

Lemma collect_missing {A} (l : list (option A)) : In None l -> collect l = None.
Proof.
  induction l as [|x l IH]; [intros []|]. cbn [collect]. intros [->|H]; [reflexivity|]. destruct x; [|reflexivity]. rewrite (IH H). reflexivity.
Qed.

(** When [r + 1] divides [k / z] the repair of an OptimalLRC data block or local
    parity asks for a group that the placement never made (it counts one group
    more per local group) and takes the first block of an empty list. *)
Theorem optimal_repair_misses_group cfg s0 t draws s t' f target wp send_id :
  new_stripe s0 -> cfg_k cfg = st_k s0 -> cfg_r cfg = st_r s0 -> cfg_z cfg = st_z s0 -> (st_z s0 | st_k s0) ->
  (st_r s0 + 1 | st_k s0 / st_z s0) -> CodeType (settings cfg) = "OptimalLRC" ->
  (forall x, node_stripes (node_at t x) !! stripe_id s0 = None) ->
  initialize_optimal_lrc_stripe_placement (settings cfg) s0 t draws = Some (s, t') ->
  0 <= f < st_n s0 -> ~ st_k s0 <= f < st_k s0 + st_r s0 -> plan_one_block cfg s t' f target wp send_id = None.
Proof.
  intros N Ek Er Ez Hzk [m Hm] Hct Hfree E Hf Hng. pose proof N as [N1 N2 N3 N4 N5 N6].
  pose proof (even_size _ _ N1 N3 Hzk) as [Q1 Q2].
  set (k := st_k s0) in *. set (r := st_r s0) in *. set (z := st_z s0) in *. set (q := k / z) in *.
  assert (Hper : optimal_groups_per_local s0 = m).
  { unfold optimal_groups_per_local. fold k r z q. rewrite Hm, Z.mod_mul, Z.div_mul by lia. reflexivity. }
  assert (Hdiv : q / (r + 1) = m) by (rewrite Hm; apply Z.div_mul; lia). assert (1 <= m) by nia.
  pose proof (place_ok (PlacementAlgorithm := optimal_ok) _ _ _ _ _ _ N Hfree E) as [_ _ _ _ _ _ _ Pg].
  unfold initialize_optimal_lrc_stripe_placement in E. apply place_stripe_spec in E; [|exact Hfree|lia|exact N5|exact N6].
  assert (Hmiss : group_to_blocks s !! (z * (m + 1)) = None).
  { rewrite Pg, filter_none; [reflexivity|]. intros b Hb. apply in_zseq in Hb. apply Z.eqb_neq.
    rewrite (pl_block _ _ _ _ _ _ _ E b Hb). cbn [with_place map2group]. rewrite block_info_group.
    unfold optimal_group_of. fold k r z q. rewrite Hper. destruct (Z.ltb_spec b k).
    - assert (b / q < z) by (apply Z.div_lt_upper_bound; lia). assert (b mod q / (r + 1) < m).
      { apply Z.div_lt_upper_bound; [lia|]. pose proof (Z.mod_pos_bound b q ltac:(lia)). lia. }
      assert (b / q * m <= (z - 1) * m) by nia. nia.
    - destruct (Z.ltb_spec b (k + r)); nia. }
  assert (Hids : exists g0 l, get_recovery_group_ids (CodeType (settings cfg)) (cfg_k cfg) (cfg_r cfg) (cfg_z cfg) f = g0 :: l ++ [z * (m + 1)]).
  { rewrite Hct, Ek, Er, Ez. unfold get_recovery_group_ids. cbn [String.eqb Ascii.eqb Bool.eqb]. unfold optimal_recovery_groups.
    fold k r z q. rewrite Hdiv. replace (z * (m + 1) + 1 - 1) with (z * (m + 1)) by lia.
    destruct ((k <=? f) && (f <? k + r)) eqn:Eg; [exfalso; breflect; lia|]. destruct (k + r <=? f); eauto. }
  destruct Hids as (g0 & l & Eids). unfold plan_one_block. rewrite Eids.
  assert (Hcol : collect (map (get_cluster_id_by_group_id s) (g0 :: l ++ [z * (m + 1)])) = None).
  { apply collect_missing, in_map_iff. exists (z * (m + 1)). split; [unfold get_cluster_id_by_group_id; rewrite Hmiss; reflexivity|].
    right. apply in_or_app. right. left. reflexivity. }
  destruct l as [|g1 l]; cbn [app] in *; rewrite Hcol; destruct (get_cluster_id_by_group_id s (map2group _)); reflexivity.
Qed.
