(* ===== verification/RecoveryTheorems.v ===== *)
(** Properties of the repair of several lost blocks. *)
From S2P Require Import Prelude GF256 LinAlg GFMatrix Groups EcKernel Codes LocalRepair Decode DecodeSpec RepairPlan RepairPlanSpec RepairGuarantee Text.
From S2P Require Import Toolbox Placement PlacementSpec PlacementLaw Coordinator CoordinatorSpec AppendPlan Client DataNode ProxyAppend BufferLayout StripeWrite ReadPath.
From S2P Require Import SingleRepair SingleRepairSpec MultiRecovery MultiRecoverySpec Examples WriteTheorems DegradedTheorems.

(** * A stripe that was set *)

(** The stripe is in the table with one block per node, and the data nodes hold
    the blocks of its codeword. *)
Record stripe_stored (cfg : SysConfig) (c : Coordinator) (sid : Z) (s : Stripe) (stripe : list block) (st : Storage) : Prop := {
  ss_table : m_stripe_table c !! sid = Some s;
  ss_len : zlen (blocks s) = cfg_n cfg;
  ss_ids : forall b, 0 <= b < cfg_n cfg -> block_id (blocks s).[b] = b;
  ss_named : forall b, 0 <= b < cfg_n cfg -> block_key (blocks s).[b] <> ""%string;
  ss_size : forall b, 0 <= b < cfg_n cfg -> zlen stripe.[b] = BlockSize (settings cfg);
  ss_nodes : forall b, 0 <= b < cfg_n cfg -> map2node (blocks s).[b] ∈ dom (m_node_table (co_tables c));
  ss_apart : forall b b', 0 <= b < cfg_n cfg -> 0 <= b' < cfg_n cfg ->
    replaced_node s (co_tables c) b = replaced_node s (co_tables c) b' -> b = b';
  ss_stored : forall b, 0 <= b < cfg_n cfg -> stored st (source_block s (co_tables c) b) stripe.[b] }.

(** A stripe that was set is a codeword. *)
Lemma stripe_of_encoded {K : Kernels} {KL : KernelLaws K} cfg buf n : config_ok cfg -> 1 <= BlockSize (settings cfg) -> zlen buf = cfg_n cfg * BlockSize (settings cfg) ->
  0 <= n <= BlockSize (settings cfg) -> stripe_ok (cfg_k cfg) (cfg_r cfg) (cfg_z cfg) n (stripe_of cfg buf).
Proof.
  intros Hcfg Hbs Hbuf Hn. pose proof Hcfg as (K1 & K2 & K3 & K4). destruct (parity_buffers cfg Hcfg ltac:(lia) buf Hbuf) as [Hpb Hpl].
  assert (H : stripe_ok (cfg_k cfg) (cfg_r cfg) (cfg_z cfg) (BlockSize (settings cfg)) (stripe_of cfg buf)).
  { apply encode_glrc_stripe_ok; auto. unfold buffer_data. rewrite length_map, zlen_seqZ. lia. }
  intros i Hi. apply H. lia.
Qed.

Lemma set_flow_stored {K : Kernels} {KL : KernelLaws K} cfg client draws outcomes c buf tmp st num_arry N :
  config_ok cfg -> CodeType (settings cfg) = "gLRC" -> 1 <= BlockSize (settings cfg) ->
  coordinator_ok c -> cluster_ready cfg (co_tables c) -> schedulable outcomes ->
  zlen buf = cfg_n cfg * BlockSize (settings cfg) -> (forall key, tmp key <> key) ->
  exists reply c' s plans,
    (uploadSetValue cfg client (BlockSize (settings cfg) * cfg_k cfg) draws outcomes c = Some (Some reply, c') /\
     generate_add_plans (BlockSize (settings cfg)) s (co_tables c') = Some plans) /\
    (cfg_n cfg * BlockSize (settings cfg) < 2 ^ 31 ->
     exists buf' parts, set_stripe num_arry N (stripe_id s) cfg reply buf = Some (buf', parts) /\
       forall accepted, accepts_at (reply_addresses reply) accepted ->
         exists st', run_proxies cfg tmp plans parts accepted st = Some st' /\
           (parts_apart reply accepted -> stripe_stored cfg c' (m_cur_stripe_id c) s (stripe_of cfg buf) st')) /\
    exists st0, stripe_stored cfg c' (m_cur_stripe_id c) s (stripe_of cfg buf) st0.
Proof.
  intros Hcfg Hct Hbs Hc Hcr Hout Hbuf Htmp. pose proof Hcfg as (K1 & K2 & K3 & K4). pose proof Hcr as [R1 R2 R3].
  destruct (set_flow_ok cfg client draws outcomes c buf tmp st {| object_size := 0; oi_stripe := 0 |} num_arry N Hcfg Hct Hbs Hc Hcr Hout Hbuf Htmp)
    as (reply & c' & s & plans & H1 & H2 & H3 & [st0 H4] & H5 & _).
  destruct (upload_set_placed _ _ _ _ _ _ _ _ H1) as (s1 & t1 & Ep & Hs1 & Ht1).
  set (s0 := upload_stripe cfg (m_cur_stripe_id c) client) in *.
  assert (Hnew : new_stripe s0) by apply (upload_stripe_new _ _ _ Hcfg). pose proof (next_free c Hc) as Hfree.
  assert (Eg : initialize_glrc_stripe_placement (settings cfg) s0 (co_tables c) = Some (s1, t1)).
  { unfold initialize_stripe_placement in Ep. rewrite Hct in Ep. exact Ep. }
  pose proof (glrc_blocks_ok _ _ _ _ _ Hnew Hfree Eg) as [(Q1 & _ & _ & _ & Q5 & _) Plen Pb Ph _ _ Pa _].
  destruct (glrc_nodes _ _ _ _ _ Hnew Hfree Eg) as [D1 D2].
  assert (Es : s1 = s) by (rewrite Q1 in Hs1; cbn [s0 stripe_id upload_stripe] in Hs1; congruence). subst s1.
  change (st_n s0) with (cfg_n cfg) in *.
  exists reply, c', s, plans. split; [auto|].
  assert (Hall : forall st1, blocks_stored cfg s (co_tables c') (stripe_of cfg buf) st1 -> stripe_stored cfg c' (m_cur_stripe_id c) s (stripe_of cfg buf) st1).
  2: { split; [|exists st0; apply Hall, H4]. intros Hfit. destruct (H5 Hfit) as (buf' & parts & E1 & E2). exists buf', parts. split; [exact E1|].
       intros accepted Hacc. destruct (E2 accepted Hacc) as (st' & E3 & E4). exists st'. split; [exact E3|]. intros Hap. apply Hall, E4, Hap. }
  clear H4 H5. intros st1 H4. rewrite <- Ht1 in *. split; auto; try lia.
  - intros b Hb. rewrite (Pb b Hb). cbn [with_place block_id]. unfold block_info. repeat case_match; reflexivity.
  - intros b Hb. rewrite (Pb b Hb). cbn [with_place block_key]. unfold block_info, name_block.
    repeat case_match; simplify_eq; cbn [block_key]; destruct (to_string _); cbn; discriminate.
  - intros b Hb. apply stripe_block_len; auto; lia.
  - intros b Hb. destruct (decide (map2node (blocks s).[b] ∈ dom (m_node_table (co_tables c')))) as [H|H]; [exact H|exfalso].
    assert (E : node_stripes (node_at (co_tables c') (map2node (blocks s).[b])) !! stripe_id s0 = Some b) by (apply Ph; auto).
    apply not_elem_of_dom in H. unfold node_at in E. rewrite H in E. cbn in E. rewrite lookup_empty in E. discriminate.
  - intros b b' Hb Hb' E. apply D2; auto. apply R3; [apply D1, Hb|apply D1, Hb'|].
    unfold replaced_node, node_of_block in E. injection E as E1 E2.
    destruct (Pa (map2node (blocks s).[b])) as [A1 A2], (Pa (map2node (blocks s).[b'])) as [B1 B2]. split; congruence.
Qed.

(** * Losing blocks of a stored stripe *)

Section Lost.
Context {S : StdSort} {SL : StdSortLaws S} {K : Kernels} {KL : KernelLaws K}.
Context (cfg : SysConfig) (gs : GlrcSettings) (proxies : gset string) (modes : string -> Z -> list Z -> Coordinator -> Repair).
Context (c : Coordinator) (sid : Z) (s : Stripe) (buf : list byte) (st : Storage) (failed : list Z).
Context (Hcfg : config_ok cfg) (Hct : CodeType (settings cfg) = "gLRC") (Hbs : 1 <= BlockSize (settings cfg)).
Context (Hzk : cfg_z cfg <= cfg_k cfg + cfg_r cfg) (Hkr : cfg_k cfg + cfg_r cfg <= 255).
Context (Hbuf : zlen buf = cfg_n cfg * BlockSize (settings cfg)).
Context (Hst : stripe_stored cfg c sid s (stripe_of cfg buf) st).
Context (Hproxies : forall x, x ∈ dom (m_node_table (co_tables c)) -> repair_proxy_key_for_node (co_tables c) x ∈ proxies).
Context (Hmode : existsb (String.eqb (GlrcRepairMode gs)) ["phase2"; "pipeline"; "hybrid"; "hmbr"] = false).
Context (Hpol : known_policy (GlrcEquationPolicy gs) = true).
Context (Hnd : NoDup failed) (Hne : failed <> []) (Hrg : Forall (fun b => 0 <= b < cfg_n cfg) failed).
Notation t := (co_tables c).
Notation bs := (BlockSize (settings cfg)).
Notation stripe := (stripe_of cfg buf).
Notation plan := (glrc_solve_repair_plan (cfg_k cfg) (cfg_r cfg) (cfg_z cfg) failed (glrc_normalize_equation_policy (GlrcEquationPolicy gs))).

Lemma lost_valid : Forall (fun b => 0 <= b < zlen (blocks s)) failed.
Proof. rewrite (ss_len _ _ _ _ _ _ Hst). exact Hrg. Qed.

Lemma lost_range : Forall (fun b => 0 <= b < cfg_k cfg + cfg_r cfg + cfg_z cfg) failed.
Proof. destruct Hcfg as (_ & _ & _ & <-). exact Hrg. Qed.

Lemma lost_nodes : NoDup (map (replaced_node s t) failed).
Proof.
  apply NoDup_ListNoDup, List.NoDup_map_NoDup_ForallPairs; [|apply NoDup_ListNoDup, Hnd]. intros b b' Hb Hb'.
  rewrite Forall_forall in Hrg. apply (ss_apart _ _ _ _ _ _ Hst); apply Hrg, list_elem_of_In; assumption.
Qed.

Lemma helpers_ok : success plan = true -> Forall (fun b => 0 <= b < cfg_n cfg /\ b ∉ failed) (helper_block_ids plan).
Proof.
  intros Hok. destruct Hcfg as (K1 & K2 & K3 & K4). apply Forall_forall. intros b Hb. rewrite K4.
  apply (plan_helpers _ _ _ K1 K2 K3 failed _ Hnd Hne lost_range Hkr ltac:(unfold INT_MAX; lia) ltac:(rewrite known_normalized; exact Hpol) Hok), list_elem_of_In, Hb.
Qed.

Lemma recovered_blocks : success plan = true ->
  decode_glrc_ilp (cfg_k cfg) (cfg_r cfg) (cfg_z cfg) bs (helper_block_ids plan) (map (fun b => stripe.[b]) (helper_block_ids plan)) failed
    (selected_equation_indices plan) = Some (map (fun b => stripe.[b]) failed).
Proof.
  intros Hok. pose proof Hcfg as (K1 & K2 & K3 & K4). destruct (parity_buffers cfg Hcfg ltac:(lia) buf Hbuf) as [Hpb Hpl].
  destruct (plan_restores (cfg_k cfg) (cfg_r cfg) (cfg_z cfg) K1 K2 K3 (buffer_data cfg buf) (buffer_parity cfg buf) bs failed
    (glrc_normalize_equation_policy (GlrcEquationPolicy gs)) (map (fun b => stripe.[b]) (helper_block_ids plan)) plan) as (rec & D1 & D2);
    auto using lost_range; try lia.
  - unfold buffer_data. rewrite length_map, zlen_seqZ. lia.
  - rewrite known_normalized. exact Hpol.
  - intros h i Hh Hi. rewrite zget_map by exact Hh. reflexivity.
  - rewrite D1. f_equal. destruct D2 as [L D2]. apply zlist_ext; [rewrite length_map; lia|]. intros i Hi. rewrite L in Hi.
    destruct (D2 i Hi) as [L1 E]. rewrite zget_map by exact Hi.
    assert (Hf : 0 <= failed.[i] < cfg_n cfg) by (apply (Forall_zget _ _ _ Hrg), Hi).
    pose proof (ss_size _ _ _ _ _ _ Hst failed.[i] Hf) as Hl. apply zlist_ext; [lia|]. intros j Hj.
    rewrite <- (Z.sub_0_r j) at 1. apply E. lia.
Qed.

Lemma lost_repair reads writes st2 :
  (forall x, 0 <= x < cfg_n cfg -> x ∉ failed -> stored st2 (source_block s t x) stripe.[x]) ->
  let '(status, reply, c2, st3) := multiBlockRecovery cfg gs proxies (fun _ => recoveryBreakdown cfg reads writes) modes sid failed c st2 in
  c2 = c /\ rr_success reply = ok status /\
  (recovery_effect writes s t stripe failed (ok status) st2 st3) /\
  ((forall i, read_holds bs (reads i)) -> (forall i, write_holds bs (writes i)) -> success plan = true -> status = OK) /\
  (success plan = false -> status = Failed INTERNAL (error_message plan) /\ st3 = st2).
Proof.
  intros Hsurv. destruct (multi_recovery_runs cfg gs proxies (fun _ => recoveryBreakdown cfg reads writes) modes c sid s failed
    (ss_table _ _ _ _ _ _ Hst) Hct Hne lost_valid Hmode st2) as (reply & E & Er).
  rewrite E in Er |- *. clear E. revert Er. assert (H0 : 0 <= failed.[0] < cfg_n cfg).
  { apply (Forall_zget _ _ _ Hrg). destruct failed; [contradiction|cbn [length]; lia]. }
  destruct (success plan) eqn:Hok.
  - rewrite bool_decide_true by (apply Hproxies, (ss_nodes _ _ _ _ _ _ Hst), H0).
    destruct (recoveryBreakdown _ _ _ _ _) as [status st3] eqn:Eb. cbn [fst snd]. intros Er.
    pose proof (helpers_ok Hok) as Hh. destruct Hcfg as (K1 & K2 & K3 & K4).
    destruct (proxy_recovery_effect cfg s t stripe failed plan Hbs) with (reads := reads) (writes := writes) (anchor := failed.[0])
      (st := st2) (status := status) (st' := st3) as [P1 P2]; auto using lost_nodes, recovered_blocks.
    + intros En. pose proof (recovered_blocks Hok) as D. unfold decode_glrc_ilp in D.
      destruct (plan_decides _ _ _ K1 K2 K3 failed (glrc_normalize_equation_policy (GlrcEquationPolicy gs)) Hnd Hne lost_range Hkr
        ltac:(unfold INT_MAX; lia) ltac:(rewrite known_normalized; exact Hpol)) as [(sel & Hg & Ep)|[Ep _]]; [|congruence].
      rewrite Ep in En. cbn [plan_of fill_plan helper_block_ids] in En.
      exact (helpers_nonempty _ _ _ K1 K2 K3 failed sel Hzk Hkr Hnd Hne lost_range Hg En).
    + eapply Forall_impl; [exact Hrg|]. intros b. apply (ss_size _ _ _ _ _ _ Hst).
    + eapply Forall_impl; [exact Hh|]. intros b [Hb _]. split; [apply (ss_ids _ _ _ _ _ _ Hst)|apply (ss_size _ _ _ _ _ _ Hst)]; exact Hb.
    + eapply Forall_impl; [exact Hh|]. intros b [Hb Hf]. apply Hsurv; assumption.
    + split; [reflexivity|]. destruct status as [|code msg]; (split; [exact Er|]; split; [exact P1|]; split; [|discriminate]); auto.
      intros Hr Hw _. specialize (P2 Hr Hw). discriminate.
  - cbn [fst snd]. intros Er. split; [reflexivity|]. split; [exact Er|]. split; [apply recovery_effect_none|]. split; [discriminate|auto].
Qed.
End Lost.

(** C3. Any recoverable loss of a stored gLRC stripe is repaired, and a repair
    never corrupts.  After a set (which stores the stripe, below 2 GiB, when each
    plan gets its own part), lose any blocks: whatever the network does to the
    reads and writes of [multiBlockRecovery], each lost block is afterwards either
    as before or exactly the block of the codeword, and no other file of the data
    nodes changes; [OK] is answered only when all of them are restored.  If the
    links hold, the answer is [OK] precisely when some choice of recovery equations
    determines the lost blocks; otherwise the request is refused and nothing is
    written. *)
Theorem set_then_multi_recovery {S : StdSort} {SL : StdSortLaws S} {K : Kernels} {KL : KernelLaws K}
    cfg gs modes client draws outcomes c buf tmp st num_arry N failed :
  config_ok cfg -> CodeType (settings cfg) = "gLRC" -> 1 <= BlockSize (settings cfg) ->
  cfg_z cfg <= cfg_k cfg + cfg_r cfg <= 255 ->
  coordinator_ok c -> cluster_ready cfg (co_tables c) -> schedulable outcomes ->
  zlen buf = cfg_n cfg * BlockSize (settings cfg) -> (forall key, tmp key <> key) ->
  existsb (String.eqb (GlrcRepairMode gs)) ["phase2"; "pipeline"; "hybrid"; "hmbr"] = false ->
  known_policy (GlrcEquationPolicy gs) = true ->
  NoDup failed -> failed <> [] -> Forall (fun b => 0 <= b < cfg_n cfg) failed ->
  exists reply c' s plans,
    (uploadSetValue cfg client (BlockSize (settings cfg) * cfg_k cfg) draws outcomes c = Some (Some reply, c') /\
     generate_add_plans (BlockSize (settings cfg)) s (co_tables c') = Some plans) /\
    (cfg_n cfg * BlockSize (settings cfg) < 2 ^ 31 ->
     exists buf' parts, set_stripe num_arry N (stripe_id s) cfg reply buf = Some (buf', parts) /\
       forall accepted, accepts_at (reply_addresses reply) accepted ->
         exists st', run_proxies cfg tmp plans parts accepted st = Some st' /\
           (parts_apart reply accepted -> stripe_stored cfg c' (m_cur_stripe_id c) s (stripe_of cfg buf) st')) /\
    (exists st0, stripe_stored cfg c' (m_cur_stripe_id c) s (stripe_of cfg buf) st0) /\
    forall proxies reads writes st2,
      (forall x, x ∈ dom (m_node_table (co_tables c')) -> repair_proxy_key_for_node (co_tables c') x ∈ proxies) ->
      (forall x, 0 <= x < cfg_n cfg -> x ∉ failed -> stored st2 (source_block s (co_tables c') x) (stripe_of cfg buf).[x]) ->
      let '(status, reply2, c2, st3) := multiBlockRecovery cfg gs proxies (fun _ => recoveryBreakdown cfg reads writes) modes
                                          (m_cur_stripe_id c) failed c' st2 in
      c2 = c' /\ rr_success reply2 = ok status /\
      recovery_effect writes s (co_tables c') (stripe_of cfg buf) failed (ok status) st2 st3 /\
      ((forall i, read_holds (BlockSize (settings cfg)) (reads i)) -> (forall i, write_holds (BlockSize (settings cfg)) (writes i)) ->
       recoverable (cfg_k cfg) (cfg_r cfg) (cfg_z cfg) failed -> status = OK) /\
      (~ recoverable (cfg_k cfg) (cfg_r cfg) (cfg_z cfg) failed -> ok status = false /\ st3 = st2).
Proof.
  intros Hcfg Hct Hbs [Hzk Hkr] Hc Hcr Hout Hbuf Htmp Hmode Hpol Hnd Hne Hrg.
  destruct (set_flow_stored cfg client draws outcomes c buf tmp st num_arry N Hcfg Hct Hbs Hc Hcr Hout Hbuf Htmp)
    as (reply & c' & s & plans & H & Hwrite & st' & Hst).
  exists reply, c', s, plans. split; [exact H|]. split; [exact Hwrite|]. split; [eauto|]. intros proxies reads writes st2 Hp Hsurv.
  pose proof (lost_repair cfg gs proxies modes c' _ s buf st' failed Hcfg Hct Hbs Hzk Hkr Hbuf Hst Hp Hmode Hpol Hnd Hne Hrg reads writes st2 Hsurv) as L.
  pose proof Hcfg as (K1 & K2 & K3 & K4).
  pose proof (plan_success_iff (cfg_k cfg) (cfg_r cfg) (cfg_z cfg) K1 K2 K3 failed (glrc_normalize_equation_policy (GlrcEquationPolicy gs))
    Hnd Hne (lost_range cfg failed Hcfg Hrg) Hkr ltac:(unfold INT_MAX; lia) ltac:(rewrite known_normalized; exact Hpol)) as Hiff.
  destruct (multiBlockRecovery _ _ _ _ _ _ _ _ _) as [[[status reply2] c2] st3]. destruct L as (L1 & L2 & L3 & L4 & L5).
  split; [exact L1|]. split; [exact L2|]. split; [exact L3|]. split; [intros Hr Hw Hrec; apply L4, Hiff; assumption|].
  intros Hno. destruct (success _) eqn:E; [exfalso; apply Hno, Hiff; reflexivity|]. destruct (L5 eq_refl) as [-> ->]. auto.
Qed.

(** * The tables behind a repair *)

Lemma in_map_keys {A} (m : gmap Z A) x : In x (map_keys m) <-> x ∈ dom m.
Proof.
  unfold map_keys. rewrite <- list_elem_of_In, merge_sort_Permutation, list_elem_of_In, in_map_iff, elem_of_dom. split.
  - intros ([i a] & <- & H). apply list_elem_of_In, elem_of_map_to_list in H. exists a. exact H.
  - intros [a H]. exists (x, a). split; [reflexivity|]. apply list_elem_of_In, elem_of_map_to_list, H.
Qed.

Lemma node_key_nonempty ip port : String.eqb (node_key ip port) "" = false.
Proof. unfold node_key. apply String.eqb_neq. intros E. apply (f_equal String.length) in E. rewrite !length_string_app in E. cbn in E. lia. Qed.

(** Every repair proxy of the node table is registered. *)
Lemma init_proxyinfo_registers t x : x ∈ dom (m_node_table t) -> repair_proxy_key_for_node t x ∈ init_proxyinfo t.
Proof.
  intros Hx. unfold init_proxyinfo. apply elem_of_list_to_set, list_elem_of_In, filter_In. split.
  - apply in_or_app. left. apply in_map, in_map_keys, Hx.
  - apply negb_true_iff. unfold repair_proxy_key_for_node. apply elem_of_dom in Hx as [nd ->]. apply node_key_nonempty.
Qed.

Definition ex_settings (mode : string) : GlrcSettings :=
  {| GlrcEquationPolicy := "ilp"; GlrcRepairMode := mode; GlrcShardCount := 1; GlrcPhase2WriteBack := true;
     GlrcHmbrEquationPolicy := "ilp"; GlrcHmbrP := "auto" |}.
Definition ex_read_link : ReadLink := {| rl_connected := true; rl_arrives := 1 |}.
Definition ex_write_link : WriteLink := {| wl_connected := true; wl_arrives := 1; wl_renames := true; wl_answers := true; wl_tag := "7.9" |}.
Definition ex_modes : string -> Z -> list Z -> Coordinator -> Repair := fun _ _ _ _ reply st => (false, reply, st).

Lemma set_then_multi_recovery_witness : exists reply c' s plans buf' parts st' reply2 st3,
  uploadSetValue (ex_config "gLRC") "client" 2 [] (fun _ => [true]) ex_coordinator = Some (Some reply, c') /\
  generate_add_plans 1 s (co_tables c') = Some plans /\
  set_stripe [] 0 (stripe_id s) (ex_config "gLRC") reply ex_buffer = Some (buf', parts) /\
  run_proxies (ex_config "gLRC") ex_tmp plans parts (in_order 1) ∅ = Some st' /\
  multiBlockRecovery (ex_config "gLRC") (ex_settings "phase1") (init_proxyinfo (co_tables c'))
    (fun _ => recoveryBreakdown (ex_config "gLRC") (fun _ => ex_read_link) (fun _ => ex_write_link)) ex_modes 0 [0; 1] c' st' = (OK, reply2, c', st3) /\
  stored st3 (source_block s (co_tables c') 0) [x05] /\ stored st3 (source_block s (co_tables c') 1) [x07].
Proof.
  destruct (set_then_multi_recovery (ex_config "gLRC") (ex_settings "phase1") ex_modes "client" [] (fun _ => [true]) ex_coordinator ex_buffer
              ex_tmp ∅ [] 0 [0; 1]) as (reply & c' & s & plans & [H1 H2] & Hw & _ & H5);
    [apply ex_config_ok|reflexivity|cbn; lia|cbn; lia|apply ex_coordinator_ok|apply ex_cluster_ready|intros i; reflexivity|reflexivity
    |apply ex_tmp_ok|reflexivity|reflexivity|by_eval|by_eval|by_eval|].
  destruct (Hw ltac:(vm_compute; reflexivity)) as (buf' & parts & H3 & Hrun).
  destruct (Hrun (in_order 1)) as (st' & H4 & Hst); [rewrite <- (ex_reply_addresses _ _ _ _ H1 eq_refl); apply in_order_accepts|].
  specialize (Hst (or_intror (in_order_own _))).
  specialize (H5 (init_proxyinfo (co_tables c')) (fun _ => ex_read_link) (fun _ => ex_write_link) st' (init_proxyinfo_registers _)
    (fun x Hx _ => ss_stored _ _ _ _ _ _ Hst x Hx)).
  destruct (multiBlockRecovery _ _ _ _ _ _ _ _ _) as [[[status reply2] c2] st3] eqn:E. destruct H5 as (-> & _ & [_ He] & Hok & _).
  specialize (Hok (fun _ => conj eq_refl (Z.le_refl 1)) (fun _ => conj eq_refl (conj (Z.le_refl 1) (conj eq_refl eq_refl)))).
  assert (Hrec : recoverable 2 1 1 [0; 1]) by (exists [0; 1]; apply accepts_iff; by_eval).
  specialize (Hok Hrec). subst status.
  exists reply, c', s, plans, buf', parts, st', reply2, st3. do 4 (split; [assumption|]). split; [exact E|].
  split; [exact (we_done _ _ _ _ _ _ (He 0%nat 0 eq_refl) eq_refl)|exact (we_done _ _ _ _ _ _ (He 1%nat 1 eq_refl) eq_refl)].
Defined.

(** * What is on a node *)

Lemma in_sorted_set l x : In x (sorted_set l) <-> In x l.
Proof. unfold sorted_set. rewrite <- !list_elem_of_In, merge_sort_Permutation, elem_of_elements, elem_of_list_to_set. reflexivity. Qed.

Lemma sorted_nodup_strict (l : list Z) : Sorted Z.le l -> NoDup l -> StronglySorted Z.lt l.
Proof.
  intros Hs. apply Sorted_StronglySorted in Hs; [|intros x y w; lia]. induction Hs as [|x l Hs IH Hx]; intros Hn; [constructor|].
  apply NoDup_cons in Hn as [Hni Hn]. constructor; [apply IH, Hn|]. rewrite Forall_forall in *. intros y Hy.
  specialize (Hx y Hy). assert (x <> y) by (intros ->; contradiction). lia.
Qed.

Lemma sorted_set_strict l : StronglySorted Z.lt (sorted_set l).
Proof.
  apply sorted_nodup_strict; [apply Sorted_merge_sort; intros x y; lia|].
  unfold sorted_set. rewrite merge_sort_Permutation. apply NoDup_elements.
Qed.

Lemma wanted_ids_spec t ids w :
  match wanted_ids t ids w with
  | inl w' => (forall x, In x ids -> x ∈ dom (m_node_table t)) /\ forall x, x ∈ w' <-> In x ids \/ x ∈ w
  | inr msg => exists x, In x ids /\ x ∉ dom (m_node_table t) /\ msg = "unknown node_id: " +:+ to_string x
  end.
Proof.
  revert w. induction ids as [|y ids IH]; intros w; cbn [wanted_ids]; [split; [intros x []|intros x; cbn; tauto]|].
  destruct (bool_decide_reflect (is_Some (m_node_table t !! y))) as [Hy|Hy]; rewrite <- elem_of_dom in Hy.
  - specialize (IH ({[y]} ∪ w)). destruct (wanted_ids t ids ({[y]} ∪ w)) as [w'|msg].
    + destruct IH as [I1 I2]. split; [intros x [<-|Hx]; auto|]. intros x. rewrite I2, elem_of_union, elem_of_singleton. cbn [In]. naive_solver.
    + destruct IH as (x & H1 & H2 & H3). exists x. split; [right; exact H1|auto].
  - exists y. split; [left; reflexivity|auto].
Qed.

Lemma find_none {A} (p : A -> bool) l : List.find p l = None <-> forall x, In x l -> p x = false.
Proof.
  split; [intros H x Hx; exact (List.find_none p l H x Hx)|]. intros H. destruct (List.find p l) as [x|] eqn:E; [|reflexivity].
  apply find_some in E as [E1 E2]. rewrite (H x E1) in E2. discriminate.
Qed.

Lemma wanted_ips_spec t ips w :
  match wanted_ips t ips w with
  | inl w' => forall x, x ∈ w' <-> (exists ip, In ip ips /\ node_with_ip t ip = Some x) \/ x ∈ w
  | inr msg => exists ip, In ip ips /\ node_with_ip t ip = None /\ msg = "unknown node_ip: " +:+ ip
  end.
Proof.
  revert w. induction ips as [|ip ips IH]; intros w; cbn [wanted_ips]; [intros x; cbn; naive_solver|].
  destruct (node_with_ip t ip) as [y|] eqn:Ey; [|exists ip; split; [left; reflexivity|auto]].
  specialize (IH ({[y]} ∪ w)). destruct (wanted_ips t ips ({[y]} ∪ w)) as [w'|msg].
  - intros x. rewrite IH, elem_of_union, elem_of_singleton. cbn [In]. naive_solver.
  - destruct IH as (ip' & H1 & H2). exists ip'. split; [right; exact H1|exact H2].
Qed.

(** The nodes a query asks for. *)
Definition asked (t : Tables) (node_ids : list Z) (node_ips : list string) (x : Z) : Prop :=
  In x node_ids \/ exists ip, In ip node_ips /\ node_with_ip t ip = Some x.

(** C28. The query for the blocks on some nodes agrees with the nodes' own
    tables: the answer lists, stripe by stripe in order, strictly increasing and
    without empty entries, exactly the blocks that the asked nodes record; it is
    refused exactly when an id or address is unknown or nothing is asked. *)
Theorem blocks_on_nodes_exact cfg c c' node_ids node_ips :
  config_ok cfg -> coordinator_ok c -> rtc (coord_step cfg) c c' ->
  let t := co_tables c' in
  match getBlocksOnNodes node_ids node_ips c' with
  | inl reply =>
      (forall x, In x (map fst (np_nodes reply)) <-> asked t node_ids node_ips x) /\
      StronglySorted Z.lt (map fst (np_stripes reply)) /\
      (forall sid ids, In (sid, ids) (np_stripes reply) -> ids <> [] /\ StronglySorted Z.lt ids) /\
      (forall sid b, (exists ids, In (sid, ids) (np_stripes reply) /\ In b ids) <->
         is_Some (m_stripe_table c' !! sid) /\ exists x, asked t node_ids node_ips x /\ node_stripes (node_at t x) !! sid = Some b)
  | inr _ =>
      (exists x, In x node_ids /\ x ∉ dom (m_node_table t)) \/ (exists ip, In ip node_ips /\ node_with_ip t ip = None) \/
      forall x, ~ asked t node_ids node_ips x
  end.
Proof.
  intros Hcfg Hc Hrun. cbv zeta. pose proof (coord_run_ok _ _ _ Hcfg Hc Hrun) as [_ _ _ Hstr]. unfold getBlocksOnNodes.
  pose proof (wanted_ids_spec (co_tables c') node_ids ∅) as W1. destruct (wanted_ids _ _ _) as [w1|msg]; [|left; destruct W1 as (x & ? & ? & _); eauto].
  destruct W1 as [_ W1]. pose proof (wanted_ips_spec (co_tables c') node_ips w1) as W2.
  destruct (wanted_ips _ _ _) as [w|msg]; [|right; left; destruct W2 as (ip & ? & ? & _); eauto].
  assert (Hw : forall x, x ∈ w <-> asked (co_tables c') node_ids node_ips x).
  { intros x. rewrite W2, W1. unfold asked. set_solver. }
  destruct (bool_decide_reflect (w = ∅)) as [->|Hne]; [right; right; intros x Hx; apply Hw in Hx; set_solver|].
  cbn [np_nodes np_stripes]. split; [|split; [|split]].
  - intros x. rewrite map_map. cbn [fst]. rewrite map_id, <- list_elem_of_In, merge_sort_Permutation, elem_of_elements. apply Hw.
  - apply sorted_nodup_strict.
    + apply StronglySorted_Sorted. assert (Hk : StronglySorted Z.le (map_keys (m_stripe_table c'))).
      { apply Sorted_StronglySorted; [intros x y v; lia|]. apply Sorted_merge_sort. intros x y; lia. }
      induction Hk as [|k l Hk IH Hl]; [constructor|]. cbn [map List.filter]. destruct (negb _); [|exact IH]. cbn [map]. constructor; [exact IH|].
      rewrite Forall_forall in *. intros y Hy. apply Hl. apply list_elem_of_In, in_map_iff in Hy as (e & <- & He).
      apply filter_In in He as [He _]. apply in_map_iff in He as (sid & <- & Hs). apply list_elem_of_In, Hs.
    + apply NoDup_ListNoDup. assert (Hk : NoDup (map_keys (m_stripe_table c'))).
      { unfold map_keys. rewrite merge_sort_Permutation. apply NoDup_fst_map_to_list. }
      induction Hk as [|k l Hk _ IH]; [constructor|]. cbn [map List.filter]. destruct (negb _); [|exact IH]. cbn [map]. constructor; [|exact IH].
      intros Hy. apply Hk. apply in_map_iff in Hy as (e & Ee & He). apply filter_In in He as [He _].
      apply in_map_iff in He as (sid & <- & Hs). cbn [fst] in Ee. subst sid. apply list_elem_of_In, Hs.
  - intros sid ids Hin. apply filter_In in Hin as [Hin Hz]. apply in_map_iff in Hin as (sid' & [= <- <-] & _). cbn [snd] in Hz.
    split; [intros E; rewrite E in Hz; discriminate|apply sorted_set_strict].
  - intros sid b. split.
    + intros (ids & Hin & Hb). apply filter_In in Hin as [Hin _]. apply in_map_iff in Hin as (sid' & [= -> <-] & Hs).
      apply in_map_keys, elem_of_dom in Hs as [s Hs]. split; [eauto|]. destruct (Hstr sid s Hs) as [_ [A1 A2 A3 A4 _]].
      unfold blocks_wanted, stripe_at in Hb. rewrite Hs in Hb. cbn [from_option] in Hb. unfold id in Hb. apply in_sorted_set, in_map_iff in Hb as (blk & <- & Hb).
      apply filter_In in Hb as [Hb Hn]. apply bool_decide_eq_true in Hn. apply In_zget in Hb as (i & Hi & <-). rewrite A2 in Hi.
      exists (map2node (blocks s).[i]). split; [apply Hw, Hn|]. apply A4. rewrite (proj1 (A3 i Hi)). auto.
    + intros ([s Hs] & x & Hx & Hn). destruct (Hstr sid s Hs) as [_ [A1 A2 A3 A4 _]]. apply A4 in Hn as [Hb Hm].
      exists (blocks_wanted w (stripe_at sid c')). assert (Hin : In b (blocks_wanted w (stripe_at sid c'))).
      { unfold blocks_wanted, stripe_at. rewrite Hs. cbn [from_option]. unfold id. apply in_sorted_set, in_map_iff. exists (blocks s).[b]. split; [apply A3, Hb|].
        apply filter_In. split; [apply zget_In; lia|]. apply bool_decide_eq_true. rewrite Hm. apply Hw, Hx. }
      split; [|exact Hin]. apply filter_In. split.
      * apply in_map_iff. exists sid. split; [reflexivity|]. apply in_map_keys, elem_of_dom. eauto.
      * cbn [snd]. destruct (blocks_wanted w (stripe_at sid c')); [destruct Hin|]. apply negb_true_iff, Z.eqb_neq. cbn [length]. lia.
Qed.

Lemma blocks_on_nodes_exact_witness : exists reply, getBlocksOnNodes [2; 0] ["10.0.0.2"] (ex_after_set "UniLRC") = inl reply /\
  In 2 (map fst (np_nodes reply)) /\ StronglySorted Z.lt (map fst (np_stripes reply)) /\
  (exists ids, In (0, ids) (np_stripes reply) /\ In 2 ids).
Proof.
  pose proof (blocks_on_nodes_exact (ex_config "UniLRC") ex_coordinator (ex_after_set "UniLRC") [2; 0] ["10.0.0.2"] (ex_config_ok _) ex_coordinator_ok) as H.
  cbv zeta in H. destruct (getBlocksOnNodes [2; 0] ["10.0.0.2"] (ex_after_set "UniLRC")) as [reply|msg] eqn:E.
  - exists reply. split; [reflexivity|]. destruct H as (H1 & H2 & _ & H4).
    + apply rtc_once. destruct (uploadSetValue (ex_config "UniLRC") "client" 2 (zseq 4) (fun _ => [true]) ex_coordinator) as [[r c]|] eqn:Eu.
      * apply (cs_set _ _ "client" 2 (zseq 4) (fun _ => [true]) r). unfold ex_after_set. rewrite Eu. reflexivity.
      * vm_compute in Eu. discriminate.
    + split; [apply H1; left; cbn; auto|]. split; [exact H2|]. apply H4. split; [vm_compute; eauto|].
      exists 2. split; [left; cbn; auto|]. vm_compute. reflexivity.
  - vm_compute in E. discriminate.
Defined.

(** A repair of a stripe that does not exist is refused, but afterwards the
    coordinator lists the stripe: [m_stripe_table[stripe_id]] has entered it. *)
Theorem recovery_invents_stripe {S : StdSort} cfg gs proxies rpc modes c sid ids st :
  m_stripe_table c !! sid = None -> CodeType (settings cfg) = "gLRC" -> ids <> [] ->
  existsb (String.eqb (GlrcRepairMode gs)) ["phase2"; "pipeline"; "hybrid"; "hmbr"] = false ->
  let '(status, _, c', _) := multiBlockRecovery cfg gs proxies rpc modes sid ids c st in
  ok status = false /\ In sid (listStripes c') /\ ~ In sid (listStripes c).
Proof.
  intros Hs Hct Hne Hmode. unfold multiBlockRecovery. rewrite Hct, Hmode. cbn [negb String.eqb Ascii.eqb Bool.eqb].
  destruct (Z.eqb_spec (zlen ids) 0) as [E|_]; [exfalso; apply Hne; destruct ids; [reflexivity|cbn [length] in E; lia]|].
  unfold recovery_glrc_ilp_breakdown. rewrite Hct. cbn [negb String.eqb Ascii.eqb Bool.eqb].
  assert (Hinv : exists fid, first_invalid (stripe_at sid c) ids = Some fid).
  { destruct ids as [|b ids]; [contradiction|]. unfold first_invalid, stripe_at. rewrite Hs. cbn [List.find].
    unfold block_invalid at 1. cbn [from_option id empty_stripe blocks length]. destruct (Z.ltb_spec b 0); [cbn [orb]; eauto|].
    destruct (Z.leb_spec (Z.of_nat 0) b); [cbn [orb]; eauto|lia]. }
  destruct Hinv as [fid ->]. cbn [ok]. split; [reflexivity|]. unfold listStripes. rewrite !in_map_keys. cbn [touch_stripe with_stripe_table m_stripe_table].
  split; [apply elem_of_dom; rewrite lookup_insert_eq; eauto|]. rewrite not_elem_of_dom. exact Hs.
Qed.

(** * Single blocks *)

(** The coordinator reads back the stripe and block a client names. *)
Theorem block_key_roundtrip stripe_id failed_block_id :
  - 2 ^ 31 <= stripe_id < 2 ^ 31 -> - 2 ^ 31 <= failed_block_id < 2 ^ 31 ->
  parse_block_key (block_request_key stripe_id failed_block_id) = Some (stripe_id, failed_block_id).
Proof.
  intros Hs Hb. unfold parse_block_key, block_request_key. rewrite app_cons, app_empty, cut_at_app by (apply to_string_free; reflexivity).
  cbn [from_option]. unfold id. rewrite <- (string_app_nil (to_string stripe_id)), <- (string_app_nil (to_string failed_block_id)).
  rewrite !stoi_to_string by (assumption || exact I). reflexivity.
Qed.

(** A measured repair across clusters is reported as done whatever the proxies
    answered. *)
Theorem cross_breakdown_always_ok cfg f final : CodeType (settings cfg) = "AzureLRC" -> 2 <= cfg_z cfg ->
  cfg_k cfg <= f < cfg_k cfg + cfg_r cfg -> getRecoveryBreakdown cfg f final = OK.
Proof.
  intros Hct Hz Hf. unfold getRecoveryBreakdown, one_block_breakdown_result. rewrite Hct. cbn [get_recovery_group_ids String.eqb Ascii.eqb Bool.eqb].
  unfold azure_recovery_groups. destruct (Z.leb_spec (cfg_k cfg) f), (Z.ltb_spec f (cfg_k cfg + cfg_r cfg)); try lia. cbn [andb].
  pose proof (zlen_seqZ 1 (cfg_z cfg)) as Hl. destruct (seqZ 1 (cfg_z cfg)) as [|a [|b l]]; try reflexivity. cbn [length] in Hl. lia.
Qed.
