(* ===== verification/Phase2Theorems.v ===== *)
(** The sharded repair of a stripe that was set: safe, complete without faults,
    and bounded. *)
From S2P Require Import PortAllocator.
From S2P Require Import Prelude GF256 LinAlg GFMatrix Groups EcKernel Codes LocalRepair Decode DecodeSpec RepairPlan RepairPlanSpec RepairGuarantee ShardPlan Text.
From S2P Require Import Toolbox Placement PlacementSpec PlacementLaw Coordinator CoordinatorSpec AppendPlan Client DataNode ProxyAppend BufferLayout StripeWrite ReadPath.
From S2P Require Import SingleRepair SingleRepairSpec MultiRecovery MultiRecoverySpec Phase2Session Phase2Spec Examples WriteTheorems RecoveryTheorems.

(** * Ports *)

Lemma phase2_index_range h port : 0 <= phase2_proxy_index h port <= PROXY_GRPC_MAX_INDEX.
Proof.
  unfold phase2_proxy_index, PROXY_GRPC_MAX_INDEX. destruct h; [lia|]. cbv zeta. destruct (Z.ltb_spec ((port - PROXY_GRPC_BASE) ÷ PROXY_GRPC_STRIDE) 0); [lia|].
  rewrite Z.gtb_ltb. destruct (Z.ltb_spec 79 ((port - PROXY_GRPC_BASE) ÷ PROXY_GRPC_STRIDE)); lia.
Qed.

(** In one session no two partitions ask for the same port, as long as ids stay
    below the band of a proxy. *)
Lemma exchange_ports_differ h port port' p p' epoch : 0 <= p < PROXY_PHASE2_PER_PROXY_BAND -> 0 <= p' < PROXY_PHASE2_PER_PROXY_BAND -> p <> p' ->
  phase2_exchange_port h port p epoch <> phase2_exchange_port h port' p' epoch.
Proof. unfold phase2_exchange_port, PROXY_PHASE2_PER_PROXY_BAND. intros Hp Hp' Hne E. lia. Qed.

(** * The prepared tables decode *)

Section Prepared.
Context {K : Kernels} {KL : KernelLaws K} (k r z : Z) (Hk : 1 <= k) (Hr : 0 <= r) (Hz : 1 <= z).

Lemma coef_tables (terms : list (list (Z * byte))) e : 0 <= e < zlen terms ->
  let g := (map (fun c => let term_count := zlen c in
              if term_count >? 0 then ec_init_tables term_count 1 c (new_bytes (term_count * 32)) else []) (map (map snd) terms)).[e] in
  zlen g = zlen terms.[e] * 32 /\ is_tbls (zlen terms.[e]) (map snd terms.[e]) g.
Proof.
  intros He g. subst g. rewrite zget_map by (rewrite length_map; exact He). rewrite zget_map by exact He. cbv zeta. rewrite length_map.
  rewrite Z.gtb_ltb. destruct (Z.ltb_spec 0 (zlen terms.[e])) as [Ht|Ht].
  - split; [|apply ec_init_tables_row; lia]. rewrite ec_init_tables_len; unfold new_bytes; rewrite ?zlen_zrepeat by lia; lia.
  - replace (zlen terms.[e]) with 0 by lia. split; [reflexivity|]. intros c t Hc. lia.
Qed.

(** [glrc_ilp_prepare_helper_decode], the tables of [phase2_admit] and the
    decoder restore any byte range from the helpers' ranges. *)
Lemma prepared_restores helpers ptrs failed eqs stripe base off len rhs0 rec0 inverse indices coefs :
  valid_system k r z failed eqs -> failed <> [] -> helpers <> [] -> stripe_ok k r z (off + len) stripe -> 0 <= base <= off -> 0 <= len ->
  (forall h i, 0 <= h < zlen helpers -> off <= i < off + len -> ptrs.[h].[i - base] = stripe.[helpers.[h]].[i]) ->
  glrc_ilp_prepare_helper_decode k r z helpers failed eqs = Some (inverse, indices, coefs) ->
  exists rhs rec,
    decode_glrc_ilp_helper_compact_prepared ptrs indices
      (map (fun c => let term_count := zlen c in
              if term_count >? 0 then ec_init_tables term_count 1 c (new_bytes (term_count * 32)) else []) coefs)
      (ec_init_tables (zlen failed) (zlen failed) inverse (new_bytes (zlen failed * zlen failed * 32)))
      (zlen failed) base off len rhs0 rec0 = (true, (rhs, rec)) /\ restored failed stripe len off (off + len) off rec.
Proof.
  intros Hv Hf Hh Hs Hb Hl Hp E. pose proof (helper_compact_spec k r z Hk Hr Hz helpers ptrs failed eqs stripe base off len Hv Hf Hh Hs Hb Hl Hp) as HC.
  rewrite E in HC. destruct HC as [Hsv (rec & EC & HR)].
  assert (Hf1 : 1 <= zlen failed) by (destruct failed; [contradiction|cbn [length]; lia]).
  assert (Hh1 : 1 <= zlen helpers) by (destruct helpers; [contradiction|cbn [length]; lia]).
  unfold glrc_ilp_prepare_helper_decode in E. rewrite (vs_len _ _ _ _ _ Hv), eqb_refl_neg in E.
  destruct (Z.eqb_spec (zlen failed) 0); [lia|]. destruct (Z.eqb_spec (zlen helpers) 0); [lia|]. cbn [orb] in E.
  destruct (prepare_cases k r z Hk Hr Hz helpers failed eqs Hv) as [[_ (A_inv & B & terms & E1 & G1 & G2 & G3 & E2 & G4 & G5)]|[Hns _]]; [|contradiction].
  rewrite E1, E2 in E. cbn [negb] in E. injection E as <- <- <-.
  destruct (helper_compact_prepared_eq ptrs A_inv B terms
    (map (fun c => let term_count := zlen c in
            if term_count >? 0 then ec_init_tables term_count 1 c (new_bytes (term_count * 32)) else []) (map (map snd) terms))
    (ec_init_tables (zlen failed) (zlen failed) A_inv (new_bytes (zlen failed * zlen failed * 32)))
    (zlen failed) base off len rhs0 rec0) as (rhs & rec' & P1 & P2); auto.
  - rewrite !length_map. exact G4.
  - rewrite ec_init_tables_len; unfold new_bytes; rewrite ?zlen_zrepeat by nia; nia.
  - apply ec_init_tables_spec; unfold new_bytes; rewrite ?zlen_zrepeat by nia; nia.
  - intros e He. apply coef_tables. lia.
  - rewrite EC in P2. injection P2 as <-. exists rhs, rec. auto.
Qed.
End Prepared.

(** With as many shards as partitions, everybody gets one. *)
Lemma dealt_to_all a f p : f <= a -> 0 <= p < f -> 0 < cursor a f (p + 1) - cursor a f p.
Proof.
  intros Hf Hp. destruct (cursor_balanced a f p Hp) as [H1 _]. pose proof (Z.div_le_mono f a f ltac:(lia) Hf) as H2.
  rewrite Z.div_same in H2 by lia. lia.
Qed.

(** * The request of a stored stripe *)

(** What the writer of a repaired block leaves on its node; the temporary file
    has a name of its own. *)
Definition sharded_effect (s : Stripe) (t : Tables) (stripe : list block) (failed : list Z) (done : bool) (st st' : Storage) : Prop :=
  (forall nd, nd ∉ map (replaced_node s t) failed -> files_at (fst nd) (snd nd) st' = files_at (fst nd) (snd nd) st) /\
  forall p, 0 <= p < zlen failed -> let b := failed.[p] in let nd := replaced_node s t b in
    exists tag, write_effect (block_key (blocks s).[b]) (recovery_tmp (block_key (blocks s).[b]) tag) stripe.[b] done
      (files_at (fst nd) (snd nd) st) (files_at (fst nd) (snd nd) st').

Lemma sharded_effect_none s t stripe failed st : sharded_effect s t stripe failed false st st.
Proof. split; [reflexivity|]. intros p _. exists ""%string. apply write_effect_refl. Qed.

Section Sharded.
Context {S : StdSort} {SL : StdSortLaws S} {K : Kernels} {KL : KernelLaws K}.
Context (cfg : SysConfig) (gs : GlrcSettings) (proxies : gset string) (one_proxy_per_host : bool) (epoch : Z) (share : bool).
Context (c : Coordinator) (sid : Z) (s : Stripe) (buf : list byte) (st0 st : Storage) (failed : list Z) (sp : GlrcPhase2ShardPlan).
Context (Hcfg : config_ok cfg) (Hct : CodeType (settings cfg) = "gLRC") (Hbs : 1 <= BlockSize (settings cfg) < 2 ^ 31).
Context (Hzk : cfg_z cfg <= cfg_k cfg + cfg_r cfg) (Hkr : cfg_k cfg + cfg_r cfg <= 255).
Context (Hbuf : zlen buf = cfg_n cfg * BlockSize (settings cfg)).
Context (Hst : stripe_stored cfg c sid s (stripe_of cfg buf) st0).
Context (Hpol : known_policy (GlrcEquationPolicy gs) = true) (Hwb : GlrcPhase2WriteBack gs = true).
Context (Hnd : NoDup failed) (Hne : failed <> []) (Hrg : Forall (fun b => 0 <= b < cfg_n cfg) failed).
Notation t := (co_tables c).
Notation bs := (BlockSize (settings cfg)).
Notation stripe := (stripe_of cfg buf).
Notation f := (zlen failed).
Notation T := (GlrcShardCount gs).
Notation plan := (glrc_solve_repair_plan (cfg_k cfg) (cfg_r cfg) (cfg_z cfg) failed (glrc_normalize_equation_policy (GlrcEquationPolicy gs))).
Notation helpers := (helper_block_ids plan).
Context (Hok : success plan = true) (Hplan : phase2_shard_plan cfg gs s t failed 0 = inl sp).
Context (Hsurv : forall x, 0 <= x < cfg_n cfg -> x ∉ failed -> stored st (source_block s t x) stripe.[x]).

Notation w := (bs / T).
Notation cb := (cursor T f).
Notation cl := (fun p => cursor T f (p + 1) - cursor T f p).
Notation calls := (phase2_calls cfg gs proxies s t failed plan sp epoch share).
Notation request := (request_of gs s t failed plan sp epoch share).

Lemma calls_len : zlen calls = f.
Proof. unfold phase2_calls. rewrite length_map, zlen_seqZ; lia. Qed.

Lemma failed_some : 1 <= f.
Proof. destruct failed; [contradiction|cbn [length]; lia]. Qed.

Lemma failed_range p : 0 <= p < f -> 0 <= failed.[p] < cfg_n cfg.
Proof. apply (Forall_zget _ _ _ Hrg). Qed.

(** The plan cuts a block into [T] shards of [w] bytes and deals them out. *)
Lemma shard_plan_facts : 1 <= T /\ 1 <= w /\ T * w = bs /\ shard_count sp = T /\ stripe_byte_len sp = w /\ zlen (partitions sp) = f /\
  forall p, 0 <= p < f ->
    let x := (partitions sp).[p] in
    shard_begin x = cb p /\ partition_shard_count x = cl p /\ partition_byte_off x = cb p * w /\ partition_byte_len x = cl p * w /\
    ShardPlan.proxy_ip x = repair_proxy_ip (node_of_block t (blocks s).[failed.[p]]) /\
    ShardPlan.proxy_port x = repair_proxy_port (node_of_block t (blocks s).[failed.[p]]).
Proof.
  unfold phase2_shard_plan in Hplan. destruct (build_spec _ _ _ _ _ _ _ _ Hplan) as (B1 & B2 & B3 & B4 & B5 & B6 & B7 & B8 & B9 & B10 & _ & B12 & B13).
  change (0 >? 0) with false in *. cbv iota in *. rewrite Z.gtb_ltb in *. destruct (Z.ltb_spec 0 T) as [HT|]; [|lia].
  pose proof (Z.divide_div_mul_exact bs T T ltac:(lia) B5) as HD. rewrite Z.mul_comm, Z.div_mul in HD by lia.
  destruct B5 as [m Hm]. assert (Ew : w = m) by (rewrite Hm; apply Z.div_mul; lia).
  split; [lia|]. split; [rewrite Ew; nia|]. split; [rewrite Ew; lia|]. do 3 (split; [assumption|]). intros p Hp. rewrite (B13 p Hp).
  cbn [make_partition shard_begin partition_shard_count partition_byte_off partition_byte_len ShardPlan.proxy_ip ShardPlan.proxy_port].
  rewrite !map_map, !zget_map by exact Hp. repeat split; reflexivity.
Qed.

Lemma cl_range p : 0 <= p < f -> 0 <= cb p /\ 0 <= cl p /\ cb p + cl p <= T.
Proof.
  intros Hp. destruct shard_plan_facts as (H1 & _). pose proof failed_some as H2. pose proof (cursor_0 T f ltac:(lia)). pose proof (cursor_f T f ltac:(lia)).
  pose proof (cursor_mono T f ltac:(lia) ltac:(lia) 0 p ltac:(lia)). pose proof (cursor_mono T f ltac:(lia) ltac:(lia) p (p + 1) ltac:(lia)).
  pose proof (cursor_mono T f ltac:(lia) ltac:(lia) (p + 1) f ltac:(lia)). lia.
Qed.

Lemma range_fits p : 0 <= p < f -> 0 <= cb p * w /\ 0 <= cl p * w /\ cb p * w + cl p * w <= bs.
Proof.
  intros Hp. destruct shard_plan_facts as (_ & Hw & HTw & _). destruct (cl_range p Hp) as (H1 & H2 & H3). rewrite <- HTw at 5.
  generalize dependent w. intros v Hv _. nia.
Qed.

Lemma shards_covered g : 0 <= g < T -> exists p, 0 <= p < f /\ cb p <= g < cb p + cl p.
Proof.
  intros Hg. destruct (cursor_owner T f ltac:(lia) failed_some g Hg) as (p & [Hp Hs] & _). exists p. split; [exact Hp|lia].
Qed.

(** Who was called got this request, and admitted it. *)
Lemma call_made p q pr : 0 <= p < f -> calls.[p] = Some (q, pr) ->
  q = request p false /\ 0 < cl p /\ partition_proxy sp p ∈ proxies /\ phase2_admit cfg q = inl pr.
Proof.
  intros Hp. destruct shard_plan_facts as (_ & _ & _ & _ & _ & _ & HF). destruct (HF p Hp) as (_ & Hc & _).
  unfold phase2_calls. rewrite zget_map, zget_zseq by (rewrite ?zlen_seqZ; lia). unfold run_partition. rewrite Hc.
  destruct (Z.leb_spec (cl p) 0); [discriminate|]. destruct (bool_decide_reflect (partition_proxy sp p ∈ proxies)) as [Hx|]; [|discriminate]. cbn [negb].
  destruct (phase2_admit cfg (request p false)) as [pr'|] eqn:E; [|discriminate]. intros [= <- <-]. auto.
Qed.

Definition lost_blocks : list block := map (fun b => stripe.[b]) failed.
Definition lost_node (p : Z) : string * Z := replaced_node s t failed.[p].
Definition lost_key (p : Z) : string := block_key (blocks s).[failed.[p]].
Definition helper_range (p i : Z) : block := peek (cl p * w) (cb p * w) stripe.[helpers.[i]].

Lemma lost_call p q pr : 0 <= p < zlen calls -> calls.[p] = Some (q, pr) ->
  call_ok bs calls lost_node lost_key T w cb cl (peer_of sp) (zlen helpers) p q.
Proof.
  rewrite calls_len. intros Hp Hc. destruct (call_made p q pr Hp Hc) as (-> & _). destruct shard_plan_facts as (HT & Hw & HTw & F1 & F2 & F3 & F4).
  destruct (F4 p Hp) as (G1 & G2 & G3 & G4 & _). unfold request_of, fill_phase2_request.
  split; cbn [pq_partition_id pq_shard_count pq_stripe_byte_len pq_shard_begin pq_shard_count_local pq_byte_off pq_failed_ids pq_sources pq_failed_keys
    pq_replaced pq_peers]; auto.
  - symmetry. apply calls_len.
  - rewrite length_map. reflexivity.
  - unfold phase2_write_enabled. cbn [pq_shard_count pq_do_write_back]. rewrite F1, Hwb. apply andb_true_intro. split; [apply Z.gtb_lt; lia|reflexivity].
  - unfold hybrid_partial_write, phase2_write_bytes. cbn [pq_share_proxy_node_bandwidth pq_shard_count pq_stripe_byte_len].
    rewrite F1, F2, HTw, Z.ltb_irrefl. apply andb_false_r.
  - rewrite zget_map by exact Hp. reflexivity.
  - rewrite zget_map by exact Hp. reflexivity.
  - rewrite F3, calls_len. reflexivity.
Qed.

Lemma lost_block p : 0 <= p < zlen calls -> zlen lost_blocks.[p] = bs.
Proof.
  rewrite calls_len. intros Hp. unfold lost_blocks. rewrite zget_map by exact Hp. apply (ss_size _ _ _ _ _ _ Hst), failed_range, Hp.
Qed.

Lemma lost_apart p p' : 0 <= p < zlen calls -> 0 <= p' < zlen calls -> lost_node p = lost_node p' -> p = p'.
Proof.
  rewrite calls_len. intros Hp Hp' E. apply (ss_apart _ _ _ _ _ _ Hst) in E; [|apply failed_range; assumption..].
  apply (zget_inj failed); assumption.
Qed.

Lemma lost_peer j : 0 <= j < zlen calls ->
  peer_partition_id (peer_of sp j) = j /\ peer_shard_begin (peer_of sp j) = cb j /\ peer_shard_count (peer_of sp j) = cl j.
Proof.
  rewrite calls_len. intros Hj. destruct shard_plan_facts as (_ & _ & _ & _ & _ & _ & HF). destruct (HF j Hj) as (G1 & G2 & _).
  cbn [peer_of peer_partition_id peer_shard_begin peer_shard_count]. auto.
Qed.

(** The helpers of the plan, and the stripe. *)
Lemma plan_selection : exists sel, plan = plan_of (cfg_k cfg) (cfg_r cfg) (cfg_z cfg) failed sel /\
  good_selection (cfg_k cfg) (cfg_r cfg) (cfg_z cfg) failed sel /\ helpers <> [] /\ selected_equation_indices plan = sel.
Proof.
  destruct Hcfg as (K1 & K2 & K3 & K4).
  destruct (plan_decides _ _ _ K1 K2 K3 failed (glrc_normalize_equation_policy (GlrcEquationPolicy gs)) Hnd Hne (lost_range cfg failed Hcfg Hrg) Hkr
    ltac:(unfold INT_MAX; lia) ltac:(rewrite known_normalized; exact Hpol)) as [(sel & Hg & Ep)|[Ep _]]; [|congruence].
  exists sel. split; [exact Ep|]. split; [exact Hg|]. rewrite Ep. split; [|reflexivity].
  exact (helpers_nonempty _ _ _ K1 K2 K3 failed sel Hzk Hkr Hnd Hne (lost_range cfg failed Hcfg Hrg) Hg).
Qed.

Lemma helper_known i : 0 <= i < zlen helpers -> 0 <= helpers.[i] < cfg_n cfg /\ helpers.[i] ∉ failed.
Proof. apply (Forall_zget _ _ _ (helpers_ok cfg gs buf failed Hcfg Hzk Hkr Hpol Hnd Hne Hrg Hok)). Qed.

Lemma request_ids p : map br_id (pq_sources (request p false)) = helpers.
Proof.
  cbn [request_of fill_phase2_request pq_sources]. rewrite map_map. apply zlist_ext; [rewrite length_map; reflexivity|]. rewrite length_map. intros i Hi.
  rewrite zget_map by exact Hi. apply (ss_ids _ _ _ _ _ _ Hst), helper_known, Hi.
Qed.

Lemma lost_decode p q pr k P : 0 <= p < zlen calls -> calls.[p] = Some (q, pr) -> 0 <= k < cl p ->
  get_bufs P = map (fun i => Some (helper_range p i)) (zseq (zlen helpers)) ->
  exists rhs rec, decode_shard q pr k P = (true, (rhs, rec)) /\ forall i, 0 <= i < zlen calls -> rec.[i] = shard lost_blocks w i (cb p + k).
Proof.
  rewrite calls_len. intros Hp Hc Hk Hb. destruct (call_made p q pr Hp Hc) as (-> & _ & _ & Ha). pose proof Hcfg as (K1 & K2 & K3 & _).
  destruct shard_plan_facts as (HT & Hw & HTw & _ & F2 & _ & F4). destruct (F4 p Hp) as (_ & _ & G3 & _). pose proof (cl_range p Hp) as HR.
  destruct plan_selection as (sel & Ep & Hg & Hh & Es). unfold phase2_admit in Ha. repeat case_match; try discriminate. injection Ha as <-.
  unfold decode_shard. rewrite Hb, map_map. cbn [default request_of fill_phase2_request phase2_eq_helper_indices phase2_eq_helper_g_tbls phase2_inv_g_tbls
    pq_failed_ids pq_byte_off pq_stripe_byte_len]. rewrite F2, G3. rewrite request_ids in *.
  cbn [request_of fill_phase2_request pq_failed_ids pq_equation_indices] in *. rewrite Es in *.
  edestruct (prepared_restores (cfg_k cfg) (cfg_r cfg) (cfg_z cfg) K1 K2 K3 helpers (map (helper_range p) (zseq (zlen helpers))) failed sel stripe
    (cb p * w) (cb p * w + k * w) w) as (rhs & rec & D1 & D2); [| | | | | | |eassumption|].
  - apply good_valid; auto using lost_range.
  - exact Hne.
  - exact Hh.
  - apply stripe_of_encoded; auto; try lia. nia.
  - nia.
  - lia.
  - intros h i Hh' Hi. rewrite zget_map_zseq by exact Hh'. unfold helper_range. rewrite peek_get by nia. f_equal; lia.
  - exists rhs, rec. split; [exact D1|]. destruct D2 as [L D2]. intros i Hi. destruct (D2 i Hi) as [L2 E].
    unfold shard, lost_blocks. rewrite zget_map by exact Hi. pose proof (ss_size _ _ _ _ _ _ Hst failed.[i] (failed_range i Hi)) as Hl.
    apply zlist_ext; [rewrite peek_len by nia; exact L2|]. rewrite L2. intros j Hj. rewrite peek_get by nia.
    specialize (E (cb p * w + k * w + j) ltac:(lia)). replace (cb p * w + k * w + j - (cb p * w + k * w)) with j in E by lia.
    rewrite E. f_equal. lia.
Qed.

(** What a partition reads from a helper, as long as the nodes that lost nothing
    have their files. *)
Lemma lost_read p q pr i src st' : 0 <= p < zlen calls -> calls.[p] = Some (q, pr) -> 0 < cl p -> intact calls lost_node st st' ->
  0 <= i -> pq_sources q !! Z.to_nat i = Some src -> read_helper bs q src st' = Some (helper_range p i).
Proof.
  rewrite calls_len at 1. intros Hp Hc Hcl Hi Hi0 Hsrc. destruct (call_made p q pr Hp Hc) as (-> & _).
  destruct shard_plan_facts as (HT & Hw & HTw & _ & F2 & _ & F4). destruct (F4 p Hp) as (_ & _ & G3 & G4 & _). pose proof (cl_range p Hp) as HR.
  cbn [request_of fill_phase2_request pq_sources] in Hsrc. rewrite list_lookup_fmap in Hsrc.
  destruct (helpers !! Z.to_nat i) as [b|] eqn:Eb; [|discriminate]. injection Hsrc as <-.
  assert (Hir : 0 <= i < zlen helpers) by (apply lookup_lt_Some in Eb; lia).
  rewrite (zget_lookup helpers i Hir) in Eb. injection Eb as <-. destruct (helper_known i Hir) as [Hb Hbf].
  pose proof (ss_size _ _ _ _ _ _ Hst _ Hb) as Hl. unfold read_helper. cbn [source_block request_block br_key br_ip br_port].
  set (b := helpers.[i]) in *. set (nd := node_of_block t (blocks s).[b]).
  assert (EF : files_at (node_ip nd) (node_port nd) st' = files_at (node_ip nd) (node_port nd) st).
  { apply (Hi (replaced_node s t b)). intros p' Hp' E. rewrite calls_len in Hp'.
    apply (ss_apart _ _ _ _ _ _ Hst) in E; [|exact Hb|apply failed_range, Hp']. apply Hbf. rewrite E. apply list_elem_of_In, zget_In, Hp'. }
  destruct (range_fits p Hp) as (B1 & B2 & B3). cbv beta in *. assert (B4 : 0 < (cb (p + 1) - cb p) * w) by (apply Z.mul_pos_pos; lia).
  rewrite EF. cbn [request_of fill_phase2_request pq_byte_off pq_byte_len]. rewrite G3, G4.
  destruct (handleGetBreakdown_spec (block_key (blocks s).[b]) bs (cb p * w) (cl p * w) (files_at (node_ip nd) (node_port nd) st) _
    (Hsurv b Hb Hbf) B1 ltac:(lia)) as [E _].
  rewrite E by (rewrite Hl; exact B3). pose proof (peek_len (cl p * w) (cb p * w) stripe.[b] B1 B2 ltac:(rewrite Hl; exact B3)) as L. unfold peek in L.
  rewrite L, Z.ltb_irrefl, ztake_all by lia. reflexivity.
Qed.

(** ** Everybody is called *)

Context (Hreg : forall x, x ∈ dom (m_node_table t) -> repair_proxy_key_for_node t x ∈ proxies).

Lemma lost_proxy p : 0 <= p < f -> partition_proxy sp p ∈ proxies.
Proof.
  intros Hp. destruct shard_plan_facts as (_ & _ & _ & _ & _ & _ & F4). destruct (F4 p Hp) as (_ & _ & _ & _ & G5 & G6).
  pose proof (ss_nodes _ _ _ _ _ _ Hst _ (failed_range p Hp)) as Hx. specialize (Hreg _ Hx). unfold repair_proxy_key_for_node in Hreg.
  apply elem_of_dom in Hx as [nd Hx]. rewrite Hx in Hreg. unfold partition_proxy. rewrite G5, G6. unfold node_of_block, node_at. rewrite Hx. exact Hreg.
Qed.

Lemma admitted p : 0 <= p < f -> 0 < cl p -> exists pr, phase2_admit cfg (request p false) = inl pr.
Proof.
  intros Hp Hcl. pose proof Hcfg as (K1 & K2 & K3 & _). destruct shard_plan_facts as (HT & Hw & HTw & F1 & F2 & F3 & F4).
  destruct (F4 p Hp) as (G1 & G2 & G3 & G4 & _). destruct (cl_range p Hp) as (C1 & C2 & C3). destruct (range_fits p Hp) as (B1 & B2 & B3).
  destruct plan_selection as (sel & Ep & Hg & Hh & Es). unfold phase2_admit. rewrite request_ids. unfold geometry_valid, phase2_write_bytes.
  cbn [request_of fill_phase2_request pq_failed_ids pq_partition_id pq_sources pq_byte_len pq_stripe_byte_len pq_shard_begin pq_shard_count_local
    pq_shard_count pq_byte_off pq_share_proxy_node_bandwidth pq_equation_indices].
  assert (Hh1 : 1 <= zlen helpers) by (destruct helpers; [contradiction|cbn [length]; lia]).
  rewrite F1, F2, G1, G2, G3, G4, Es, length_map, HTw, !Z.eqb_refl.
  destruct (Z.ltb_spec p 0), (Z.leb_spec f p); try lia. rewrite !Z.gtb_ltb, Z.geb_leb.
  repeat match goal with |- context [?a <? ?b] => destruct (Z.ltb_spec a b); [lia|] | |- context [?a <=? ?b] => destruct (Z.leb_spec a b); [lia|] end.
  cbn [orb negb]. rewrite andb_false_r. cbn [negb].
  destruct Hg as (Hg1 & Hg2 & Hg3). rewrite Hg2, Z.eqb_refl. cbn [negb].
  pose proof (helper_compact_spec (cfg_k cfg) (cfg_r cfg) (cfg_z cfg) K1 K2 K3 helpers [] failed sel [] 0 0 0) as HC.
  destruct (glrc_ilp_prepare_helper_decode _ _ _ _ _ _) as [[[inverse indices] coefs]|]; [eexists; reflexivity|exfalso].
  apply HC; auto; try lia.
  - apply good_valid; auto using lost_range. split; auto.
  - intros i Hi. lia.
  - rewrite Ep. cbn [plan_of fill_plan helper_block_ids]. apply helpers_solvable; auto. split; auto.
Qed.

Lemma called p : 0 <= p < f -> 0 < cl p -> exists pr, run_partition cfg gs proxies s t failed plan sp epoch share p = Called (request p false) pr.
Proof.
  intros Hp Hcl. destruct (admitted p Hp Hcl) as [pr Ha]. destruct shard_plan_facts as (_ & _ & _ & _ & _ & _ & F4). destruct (F4 p Hp) as (_ & G2 & _).
  exists pr. unfold run_partition. rewrite G2, Ha, bool_decide_true by (apply lost_proxy, Hp). destruct (Z.leb_spec (cl p) 0); [lia|reflexivity].
Qed.

Lemma call_there p : 0 <= p < f -> 0 < cl p -> exists pr, calls.[p] = Some (request p false, pr).
Proof.
  intros Hp Hcl. destruct (called p Hp Hcl) as [pr E]. exists pr. unfold phase2_calls.
  rewrite zget_map, zget_zseq by (rewrite ?zlen_seqZ; lia). rewrite E. reflexivity.
Qed.

(** ** Listeners *)

Definition exchange_address (p : Z) : string * Z :=
  (ShardPlan.proxy_ip (partitions sp).[p], phase2_exchange_port one_proxy_per_host (ShardPlan.proxy_port (partitions sp).[p]) p epoch).

Lemma addresses_differ p p' : f <= PROXY_PHASE2_PER_PROXY_BAND -> 0 <= p < f -> 0 <= p' < f -> exchange_address p = exchange_address p' -> p = p'.
Proof.
  intros Hf Hp Hp' E. destruct (Z.eq_dec p p') as [->|Hne']; [reflexivity|]. injection E as _ E.
  exfalso. revert E. apply exchange_ports_differ; lia.
Qed.

Lemma waits_for_someone p : 1 <= p < f -> accept_remaining (request p true) >? 0 = true.
Proof.
  intros Hp. destruct shard_plan_facts as (_ & _ & _ & _ & _ & F3 & _). unfold accept_remaining.
  cbn [request_of fill_phase2_request pq_peers pq_partition_id]. apply Z.gtb_lt. rewrite F3.
  assert (Hin : In (peer_of sp 0) (List.filter (fun x => peer_partition_id x <? p) (map (peer_of sp) (List.filter (fun pj => negb (pj =? p)) (zseq f))))).
  { apply filter_In. split; [apply in_map, filter_In; split; [apply in_zseq; lia|apply negb_true_iff, Z.eqb_neq; lia]|apply Z.ltb_lt; cbn; lia]. }
  destruct (List.filter _ _); [destruct Hin|cbn [length]; lia].
Qed.

(** Listeners belong to partitions with shards. *)
Definition listeners_ok (l : Listeners) : Prop :=
  forall addr p, l !! addr = Some p -> 0 <= p < f /\ 0 < cl p /\ addr = exchange_address p.

Lemma ready_step unready p l : 1 <= p < f -> listeners_ok l ->
  match run_partition_ready gs proxies one_proxy_per_host s t failed plan sp epoch share unready p l with
  | Some l' => listeners_ok l' /\ (0 < cl p -> l' !! exchange_address p = Some p) /\
      (forall addr p', l !! addr = Some p' -> l' !! addr = Some p') /\ (forall addr p', l' !! addr = Some p' -> p' = p \/ l !! addr = Some p')
  | None => unready p = true \/ is_Some (l !! exchange_address p)
  end.
Proof.
  intros Hp Hl. destruct shard_plan_facts as (_ & _ & _ & _ & _ & _ & F4). destruct (F4 p ltac:(lia)) as (_ & G2 & _).
  unfold run_partition_ready. rewrite G2. destruct (Z.leb_spec (cl p) 0).
  - split; [exact Hl|]. split; [lia|]. auto.
  - rewrite bool_decide_true by (apply lost_proxy; lia). cbn [negb]. destruct (unready p); [left; reflexivity|].
    unfold ready_only_recovery. rewrite waits_for_someone by exact Hp. cbn [request_of fill_phase2_request pq_partition_id pq_exchange_epoch].
    fold (exchange_address p). destruct (l !! exchange_address p) eqn:El; [right; eauto|]. split; [|split; [|split]].
    + intros addr p' E. apply lookup_insert_Some in E as [[<- <-]|[_ E]]; [split; [lia|auto]|apply Hl, E].
    + intros _. apply lookup_insert_eq.
    + intros addr p' E. etransitivity; [|exact E]. apply lookup_insert_ne. congruence.
    + intros addr p' E. apply lookup_insert_Some in E as [[_ <-]|[_ E]]; auto.
Qed.

Lemma ready_run unready order : forall l l' errors, NoDup order -> Forall (fun p => 1 <= p < f) order -> listeners_ok l ->
  run_ready gs proxies one_proxy_per_host s t failed plan sp epoch share unready order l = (l', errors) ->
  listeners_ok l' /\ (forall addr p, l !! addr = Some p -> l' !! addr = Some p) /\
  (errors = [] -> forall p, p ∈ order -> 0 < cl p -> l' !! exchange_address p = Some p) /\
  (f <= PROXY_PHASE2_PER_PROXY_BAND -> (forall p, unready p = false) -> (forall addr p, l !! addr = Some p -> p ∉ order) -> errors = []).
Proof.
  induction order as [|p order IH]; intros l l' errors Hn Hr Hl E; cbn [run_ready] in E.
  - injection E as <- <-. split; [exact Hl|]. split; [auto|]. split; [intros _ p Hp; inversion Hp|reflexivity].
  - apply NoDup_cons in Hn as [Hni Hn]. apply Forall_cons in Hr as [Hp Hr]. pose proof (ready_step unready p l Hp Hl) as Hs.
    destruct (run_partition_ready _ _ _ _ _ _ _ _ _ _ _ p l) as [l1|].
    + destruct Hs as (S1 & S2 & S3 & S4). destruct (IH l1 l' errors Hn Hr S1 E) as (I1 & I2 & I3 & I4). split; [exact I1|]. split; [auto|]. split.
      * intros He p' Hp' Hc. apply elem_of_cons in Hp' as [->|Hp']; [apply I2, S2, Hc|apply I3; assumption].
      * intros Hf Hu Hfree. apply I4; auto. intros addr p' El. destruct (S4 addr p' El) as [->|E']; [exact Hni|]. specialize (Hfree addr p' E'). set_solver.
    + destruct (run_ready _ _ _ _ _ _ _ _ _ _ _ order l) as [l2 errors2] eqn:E2. injection E as <- <-.
      destruct (IH l l2 errors2 Hn Hr Hl E2) as (I1 & I2 & _). split; [exact I1|]. split; [exact I2|]. split; [discriminate|].
      intros Hf Hu Hfree. exfalso. destruct Hs as [Hs|[p' Hs]]; [rewrite Hu in Hs; discriminate|].
      destruct (Hl _ _ Hs) as (L1 & _ & L3). apply (addresses_differ p p' Hf ltac:(lia) L1) in L3. subst p'. apply (Hfree _ _ Hs). left.
Qed.

Lemma ready_order order : order ≡ₚ seqZ 1 (f - 1) -> NoDup order /\ Forall (fun p => 1 <= p < f) order /\ forall p, 1 <= p < f -> p ∈ order.
Proof.
  intros Ho. split; [rewrite Ho; apply NoDup_seqZ|]. split; [apply Forall_forall; intros p Hp; rewrite Ho, elem_of_seqZ in Hp; lia|].
  intros p Hp. rewrite Ho, elem_of_seqZ. lia.
Qed.

(** ** Runs *)

Lemma first_has_shards : 0 < cl 0.
Proof.
  destruct shard_plan_facts as (HT & _). pose proof failed_some. unfold cursor.
  pose proof (Z.div_mod T f ltac:(lia)). pose proof (Z.mod_pos_bound T f ltac:(lia)). pose proof (Z.div_pos T f ltac:(lia) ltac:(lia)). nia.
Qed.

Lemma width_some : 1 <= w.
Proof. destruct shard_plan_facts as (_ & H & _). exact H. Qed.

Lemma shards_some : 1 <= T.
Proof. destruct shard_plan_facts as (H & _). exact H. Qed.

Lemma shards_fill : T * w = bs.
Proof. destruct shard_plan_facts as (_ & _ & H & _). exact H. Qed.

Lemma lost_owns p : 0 <= p < zlen calls -> 0 <= cb p /\ 0 <= cl p /\ cb p + cl p <= T.
Proof. rewrite calls_len. apply cl_range. Qed.

Lemma lost_covered g : 0 <= g < T -> exists p, 0 <= p < zlen calls /\ cb p <= g < cb p + cl p.
Proof. rewrite calls_len. apply shards_covered. Qed.

Lemma lost_reads p q pr i src bytes st' : 0 <= p < zlen calls -> calls.[p] = Some (q, pr) -> 0 < cl p -> intact calls lost_node st st' ->
  0 <= i -> pq_sources q !! Z.to_nat i = Some src -> read_helper bs q src st' = Some bytes -> bytes = helper_range p i.
Proof. intros H1 H2 H3 H4 H5 H6. rewrite (lost_read p q pr i src st' H1 H2 H3 H4 H5 H6). congruence. Qed.

(** The hypotheses of the session's theorems. *)
Notation here H := (H lost_call width_some shards_some shards_fill (proj2 Hbs) lost_owns lost_block lost_apart lost_peer lost_decode lost_reads) (only parsing).

Section Run.
Context (listening : Listeners) (Hl : listeners_ok listening).
Notation step := (session_step bs one_proxy_per_host listening calls).
Notation start := (start_session bs calls st).
Notation run := (rtc (fun a b => exists fault, step fault a b)).

(** An answer [true] means that every partition has shards and returned [true]. *)
Lemma all_returned answered v : run start v ->
  forallb (partition_ok cfg gs proxies s t failed plan sp epoch share answered v) (zseq f) = true ->
  forall p, 0 <= p < f -> 0 < cl p /\ pstage (seats v).[p] = Returned true.
Proof.
  intros Hr Ha. rewrite forallb_forall in Ha.
  assert (Hret : forall p, 0 <= p < f -> 0 < cl p -> pstage (seats v).[p] = Returned true).
  { intros p Hp Hc. specialize (Ha p ltac:(apply in_zseq, Hp)). unfold partition_ok in Ha. destruct (called p Hp Hc) as [pr E]. rewrite E in Ha.
    apply andb_prop in Ha as [_ Ha]. apply bool_decide_eq_true in Ha. exact Ha. }
  intros p Hp. destruct (Z.lt_ge_cases 0 (cl p)) as [H|H]; [split; [exact H|apply Hret; assumption]|exfalso].
  pose proof failed_some as Hf1. pose proof first_has_shards as Hc0. destruct (call_there 0 ltac:(lia) Hc0) as [pr E0].
  assert (Hp0 : p <> 0) by (intros ->; lia).
  pose proof (success_needs_all bs one_proxy_per_host listening calls lost_node lost_key T w cb cl (peer_of sp) (zlen helpers) st
    lost_call lost_peer v 0 (request 0 false) pr p Hr ltac:(rewrite calls_len; lia) E0 (Hret 0 ltac:(lia) Hc0) ltac:(rewrite calls_len; lia) Hp0) as (q & pr' & _ & El).
  apply Hl in El. replace (Z.max 0 p) with p in El by lia. lia.
Qed.

(** What a run leaves on the data nodes. *)
Lemma run_effect v done : run start v -> (done = true -> forall p, 0 <= p < f -> 0 < cl p /\ pstage (seats v).[p] = Returned true) ->
  sharded_effect s t stripe failed done st (storage v).
Proof.
  intros Hr Hd. destruct (here (session_safe bs one_proxy_per_host listening calls _ _ _ _ _ _ _ _ _ _ _) v Hr) as [[Hi Hs] Hret].
  rewrite calls_len in Hs, Hret. split.
  - intros nd Hnd'. apply (Hi nd). rewrite calls_len. intros p Hp E. apply Hnd'. rewrite E. unfold lost_node. apply list_elem_of_In, in_map, zget_In, Hp.
  - intros p Hp. specialize (Hs p Hp). cbv zeta in Hs |- *. unfold lost_blocks in Hs. rewrite zget_map in Hs by exact Hp.
    fold (lost_node p) (lost_key p).
    assert (Hkey : done = true -> files_at (fst (lost_node p)) (snd (lost_node p)) (storage v) !! lost_key p = Some stripe.[failed.[p]]).
    { intros E. destruct (Hd E p Hp) as [Hc Hp']. destruct (call_there p Hp Hc) as [pr Ec]. rewrite (Hret p Hp Hp') by eauto.
      unfold lost_blocks. rewrite zget_map by exact Hp. reflexivity. }
    destruct (recovery_result _) as [r|].
    + destruct Hs as [tag [W1 W2 W3]]. exists tag. split; auto.
    + exists ""%string. rewrite Hs in Hkey |- *. split; auto.
Qed.

(** Without faults. *)
Context (Hf : f <= T) (Hlisten : forall p, 1 <= p < f -> listening !! exchange_address p = Some p).

Lemma all_have_shards p : 0 <= p < f -> 0 < cl p.
Proof. apply dealt_to_all, Hf. Qed.

Lemma regular_outcome v : rtc (step false) start v -> (forall p, 0 <= p < f -> exists r, pstage (seats v).[p] = Returned r) ->
  forall p, 0 <= p < f -> pstage (seats v).[p] = Returned true.
Proof.
  intros Hr Hret p Hp. destruct (Hret p Hp) as [r Er]. destruct (call_there p Hp (all_have_shards p Hp)) as [pr Ec].
  destruct (here (regular_run bs one_proxy_per_host listening calls _ _ _ _ _ _ _ _ _ _ _) lost_covered _ _
    (here (start_ok bs calls _ _ _ _ _ _ _ _ _ _ _)) (here (start_regular bs calls _ _ _ _ _ _ _ _ _ _ _) lost_covered) Hr) as [_ HR].
  destruct (rp_returned _ _ _ _ (rg_part _ _ _ HR p _ _ ltac:(rewrite calls_len; exact Hp) Ec) r Er) as [-> _]. exact Er.
Qed.

Lemma regular_end : exists v, rtc (step false) start v /\ forall p, 0 <= p < f -> pstage (seats v).[p] = Returned true.
Proof.
  destruct (here (regular_run_ends bs one_proxy_per_host listening calls _ _ _ _ _ _ _ _ _ _ _) lost_covered start
    (here (start_ok bs calls _ _ _ _ _ _ _ _ _ _ _))) as (v & Hr & Hend).
  exists v. split; [exact Hr|]. rewrite <- calls_len.
  apply (here (session_complete bs one_proxy_per_host listening calls _ _ _ _ _ _ _ _ _ _ _) lost_covered v); [| | |exact Hr|exact Hend].
  - intros p. rewrite calls_len. intros Hp. exists (request p false). exact (call_there p Hp (all_have_shards p Hp)).
  - intros p q pr j. rewrite calls_len. intros Hp Hc Hj Hlt. destruct (call_made p q pr Hp Hc) as (-> & _). apply Hlisten. lia.
  - intros p q pr i src st' H1 H2 H3 H4 H5 H6. exists (helper_range p i). exact (lost_read p q pr i src st' H1 H2 H3 H4 H5 H6).
Qed.
End Run.

(** No run is longer than this, whatever the proxies and the network do. *)
Lemma runs_bounded : exists N, forall listening n v,
  nsteps (fun a b => exists fault, session_step bs one_proxy_per_host listening calls fault a b) n (start_session bs calls st) v -> (n <= N)%nat.
Proof.
  exists (Z.to_nat (session_weight calls T cl (zlen helpers) (start_session bs calls st))). intros listening n v Hr.
  pose proof (here (start_ok bs calls _ _ _ _ _ _ _ _ _ _ _)) as H0.
  pose proof (here (session_bounded bs one_proxy_per_host listening calls _ _ _ _ _ _ _ _ _ _ _) lost_covered n _ _ H0 Hr) as Hb.
  assert (Hv : session_ok bs calls lost_blocks lost_node lost_key T w cb cl (zlen helpers) helper_range st v).
  { apply (here (session_run_ok bs one_proxy_per_host listening calls _ _ _ _ _ _ _ _ _ _ _)) with (start_session bs calls st); [exact H0|].
    apply (rtc_nsteps_2 n). exact Hr. }
  pose proof (session_weight_nonneg _ _ _ _ _ _ _ _ _ _ _ _ _ Hv). lia.
Qed.
End Sharded.

(** * The request at the coordinator *)

Section Outcome.
Context {S : StdSort} {SL : StdSortLaws S} {K : Kernels} {KL : KernelLaws K}.
Context (cfg : SysConfig) (gs : GlrcSettings) (proxies : gset string) (one_proxy_per_host : bool) (epoch : Z) (share : bool).
Context (c : Coordinator) (sid : Z) (s : Stripe) (buf : list byte) (st0 st : Storage) (failed : list Z) (reply : RecoveryReply).
Context (Hcfg : config_ok cfg) (Hct : CodeType (settings cfg) = "gLRC") (Hbs : 1 <= BlockSize (settings cfg) < 2 ^ 31).
Context (Hzk : cfg_z cfg <= cfg_k cfg + cfg_r cfg) (Hkr : cfg_k cfg + cfg_r cfg <= 255).
Context (Hbuf : zlen buf = cfg_n cfg * BlockSize (settings cfg)).
Context (Hst : stripe_stored cfg c sid s (stripe_of cfg buf) st0).
Context (Hpol : known_policy (GlrcEquationPolicy gs) = true) (Hwb : GlrcPhase2WriteBack gs = true).
Context (Hnd : NoDup failed) (Hne : failed <> []) (Hrg : Forall (fun b => 0 <= b < cfg_n cfg) failed).
Context (Hsurv : forall x, 0 <= x < cfg_n cfg -> x ∉ failed -> stored st (source_block s (co_tables c) x) (stripe_of cfg buf).[x]).
Context (Hreg : forall x, x ∈ dom (m_node_table (co_tables c)) -> repair_proxy_key_for_node (co_tables c) x ∈ proxies).
Notation t := (co_tables c).
Notation bs := (BlockSize (settings cfg)).
Notation stripe := (stripe_of cfg buf).
Notation plan := (glrc_solve_repair_plan (cfg_k cfg) (cfg_r cfg) (cfg_z cfg) failed (glrc_normalize_equation_policy (GlrcEquationPolicy gs))).
Notation outcome := (recovery_glrc_ilp_phase2_breakdown_ex cfg gs proxies one_proxy_per_host epoch None 0 share sid failed c reply st).

Lemma stripe_found : stripe_at sid c = s.
Proof. unfold stripe_at. rewrite (ss_table _ _ _ _ _ _ Hst). reflexivity. Qed.

Lemma prepare_inv :
  match phase2_prepare cfg gs None 0 sid failed c reply with
  | inl (plan', sp, reply') => plan' = plan /\ success plan = true /\ phase2_shard_plan cfg gs s t failed 0 = inl sp
  | inr reply' => rr_success reply' = false /\ (success plan = false \/ exists e, phase2_shard_plan cfg gs s t failed 0 = inr e)
  end.
Proof.
  unfold phase2_prepare. rewrite Hct. cbn [negb String.eqb Ascii.eqb Bool.eqb].
  rewrite stripe_found, (valid_ids s failed (lost_valid cfg c sid s buf st0 failed Hst Hrg)).
  cbv zeta. destruct (success plan) eqn:Ep; [|split; [reflexivity|left; reflexivity]].
  destruct (phase2_shard_plan cfg gs s t failed 0) as [sp|e]; [auto|]. split; [reflexivity|eauto].
Qed.

Lemma no_listeners sp : listeners_ok gs one_proxy_per_host epoch failed sp ∅.
Proof. intros addr p E. apply lookup_empty_Some in E. contradiction. Qed.

(** Whatever happens, nothing is corrupted, and success is success. *)
Lemma outcome_safe fault result reply' st' : outcome fault (result, reply', st') ->
  rr_success reply' = result /\ sharded_effect s t stripe failed result st st' /\ (result = true -> zlen failed <= GlrcShardCount gs).
Proof.
  intros Ho. pose proof prepare_inv as Hp. inversion Ho; subst; repeat match goal with x := _ |- _ => subst x end.
  - match goal with E : phase2_prepare _ _ _ _ _ _ _ _ = _ |- _ => rewrite E in Hp end. destruct Hp as [-> _].
    split; [reflexivity|]. split; [apply sharded_effect_none|discriminate].
  - split; [reflexivity|]. split; [apply sharded_effect_none|discriminate].
  - match goal with E : phase2_prepare _ _ _ _ _ _ _ _ = _ |- _ => rewrite E in Hp end. destruct Hp as (-> & Hok & Hsp).
    repeat match goal with H : context [stripe_at sid c] |- _ => rewrite stripe_found in H end.
    destruct (ready_order buf failed order ltac:(assumption)) as (R1 & R2 & _).
    edestruct (ready_run cfg gs proxies one_proxy_per_host epoch share c sid s buf st0 st failed sp) as [Hl _]; try eassumption; [apply no_listeners|].
    match goal with E : phase2_conclude _ _ _ _ _ _ _ _ _ _ _ _ _ _ = _ |- _ => rename E into Ec end. unfold phase2_conclude in Ec.
    match goal with E : rtc _ _ w |- _ => rename E into Hr end.
    assert (Hrun : rtc (fun a b => exists fl, session_step bs one_proxy_per_host listening
      (phase2_calls cfg gs proxies s t failed plan sp epoch share) fl a b) (start_session bs (phase2_calls cfg gs proxies s t failed plan sp epoch share) st) w).
    { eapply rtc_subrel; [|exact Hr]. intros a b (fl & _ & H). exists fl. exact H. }
    assert (Hall : result = true -> forall p, 0 <= p < zlen failed -> 0 < cursor (GlrcShardCount gs) (zlen failed) (p + 1) - cursor (GlrcShardCount gs) (zlen failed) p /\
      pstage (seats w).[p] = Returned true).
    { intros ->. destruct (forallb _ _) eqn:Ea; [|discriminate].
      eapply (all_returned cfg gs proxies one_proxy_per_host epoch share c sid s buf st0 st failed sp) with (listening := listening) (answered := answered); eassumption. }
    split; [destruct (forallb _ _); injection Ec as <- <-; reflexivity|]. split.
    + eapply (run_effect cfg gs proxies one_proxy_per_host epoch share c sid s buf st0 st failed sp) with (listening := listening); eassumption.
    + intros Hres. assert (Hf1 : 1 <= zlen failed) by (destruct failed; [contradiction|cbn [length]; lia]).
      destruct (Hall Hres (zlen failed - 1) ltac:(lia)) as [Hc _]. unfold cursor in Hc.
      pose proof (Z.mod_pos_bound (GlrcShardCount gs) (zlen failed) ltac:(lia)). pose proof (Z.div_mod (GlrcShardCount gs) (zlen failed) ltac:(lia)).
      assert (1 <= GlrcShardCount gs / zlen failed) by lia. nia.
Qed.

(** With as many shards as lost blocks, few enough of them, and no faults. *)
Context (Hrec : recoverable (cfg_k cfg) (cfg_r cfg) (cfg_z cfg) failed) (Hdiv : (GlrcShardCount gs | bs)).
Context (Hf : zlen failed <= GlrcShardCount gs) (Hband : zlen failed <= PROXY_PHASE2_PER_PROXY_BAND).

Lemma prepared : exists sp reply', phase2_prepare cfg gs None 0 sid failed c reply = inl (plan, sp, reply') /\ success plan = true /\
  phase2_shard_plan cfg gs s t failed 0 = inl sp.
Proof.
  pose proof prepare_inv as Hp. destruct (phase2_prepare _ _ _ _ _ _ _ _) as [[[plan' sp] reply']|reply'].
  - destruct Hp as (-> & H1 & H2). eauto.
  - exfalso. destruct Hp as [_ [Hp|[e Hp]]].
    + destruct Hcfg as (K1 & K2 & K3 & K4). rewrite (proj2 (plan_success_iff (cfg_k cfg) (cfg_r cfg) (cfg_z cfg) K1 K2 K3 failed _ Hnd Hne
        (lost_range cfg failed Hcfg Hrg) Hkr ltac:(unfold INT_MAX; lia) ltac:(rewrite known_normalized; exact Hpol)) Hrec) in Hp. discriminate.
    + assert (Hf1 : 1 <= zlen failed) by (destruct failed; [contradiction|cbn [length]; lia]).
      unfold phase2_shard_plan, build in Hp. change (0 >? 0) with false in Hp. cbv iota zeta in Hp. rewrite Z.gtb_ltb, !length_map, !Z.eqb_refl in Hp.
      pose proof (proj2 (Z.rem_divide bs (GlrcShardCount gs) ltac:(lia)) Hdiv) as Hrem.
      destruct (Z.ltb_spec 0 (GlrcShardCount gs)); [|lia]. rewrite Hrem in Hp.
      destruct (Z.ltb_spec (zlen failed) 1), (Z.ltb_spec (GlrcShardCount gs) 1), (Z.ltb_spec bs 1), (Z.eqb_spec (GlrcShardCount gs) 0); try lia.
      cbn [orb negb Z.eqb] in Hp. destruct (for_range _ _ _ _). discriminate.
Qed.

(** READY succeeds, and everybody listens. *)
Lemma ready_complete sp unready order listening errors : success plan = true -> phase2_shard_plan cfg gs s t failed 0 = inl sp ->
  (forall p, unready p = false) -> order ≡ₚ seqZ 1 (zlen failed - 1) ->
  run_ready gs proxies one_proxy_per_host s t failed plan sp epoch share unready order ∅ = (listening, errors) ->
  errors = [] /\ listeners_ok gs one_proxy_per_host epoch failed sp listening /\
  forall p, 1 <= p < zlen failed -> listening !! exchange_address one_proxy_per_host epoch sp p = Some p.
Proof.
  intros Hok Hsp Hu Ho E. destruct (ready_order buf failed order Ho) as (R1 & R2 & R3).
  edestruct (ready_run cfg gs proxies one_proxy_per_host epoch share c sid s buf st0 st failed sp) as (Hl & _ & Hall & Hno); try eassumption;
    [apply no_listeners|].
  assert (Ee : errors = []) by (apply Hno; [exact Hband|exact Hu|]; intros addr p El; apply lookup_empty_Some in El; contradiction).
  split; [exact Ee|]. split; [exact Hl|]. intros p Hp. apply Hall; [exact Ee|apply R3, Hp|].
  apply dealt_to_all; [exact Hf|lia].
Qed.

Lemma all_ok sp answered v : success plan = true -> phase2_shard_plan cfg gs s t failed 0 = inl sp ->
  (forall p, answered p = true) -> (forall p, 0 <= p < zlen failed -> pstage (seats v).[p] = Returned true) ->
  forallb (partition_ok cfg gs proxies s t failed plan sp epoch share answered v) (zseq (zlen failed)) = true.
Proof.
  intros Hok Hsp Ha Hv. apply forallb_forall. intros p Hp. apply in_zseq in Hp. unfold partition_ok.
  edestruct (called cfg gs proxies epoch share c sid s buf st0 st failed sp) as [pr E]; try eassumption;
    [apply dealt_to_all; assumption|].
  rewrite E, Ha, bool_decide_true by (apply Hv, Hp). reflexivity.
Qed.

Lemma outcome_complete result reply' st' : outcome false (result, reply', st') -> result = true.
Proof.
  intros Ho. destruct prepared as (sp & reply0 & Ep & Hok & Hsp). inversion Ho; repeat match goal with x := _ |- _ => subst x end;
    match goal with E : phase2_prepare _ _ _ _ _ _ _ _ = _ |- _ => rewrite Ep in E; first [discriminate E|injection E as <- <- <-] end;
    repeat match goal with H : context [stripe_at sid c] |- _ => rewrite stripe_found in H end.
  - edestruct ready_complete as [Ee _]; try eassumption; [auto|contradiction].
  - edestruct ready_complete as (_ & Hl & Hlisten); try eassumption; auto.
    match goal with E : phase2_conclude _ _ _ _ _ _ _ _ _ _ _ _ _ _ = _ |- _ => rename E into Ec end. unfold phase2_conclude in Ec.
    rewrite all_ok in Ec; try assumption; [congruence|auto|].
    match goal with E : rtc _ _ w |- _ => rename E into Hr end.
    eapply (regular_outcome cfg gs proxies one_proxy_per_host epoch share c sid s buf st0 st failed); try eassumption.
    + eapply rtc_subrel; [|exact Hr]. intros a b ([|] & Hfl & Hst1); [discriminate (Hfl eq_refl)|exact Hst1].
    + intros p Hp. edestruct (call_there cfg gs proxies epoch share c sid s buf st0 st failed) as [pr E]; try eassumption;
        [apply dealt_to_all; assumption|].
      match goal with H : forall pi, 0 <= pi < _ -> is_Some _ -> _ |- _ => apply (H p Hp); [rewrite E; eauto|auto] end.
Qed.

Lemma outcome_exists : exists reply' st', outcome false (true, reply', st').
Proof.
  destruct prepared as (sp & reply0 & Ep & Hok & Hsp).
  destruct (run_ready gs proxies one_proxy_per_host s t failed plan sp epoch share (fun _ => false) (seqZ 1 (zlen failed - 1)) ∅) as [listening errors] eqn:Er.
  destruct (ready_complete sp (fun _ => false) _ listening errors Hok Hsp (fun _ => eq_refl) (reflexivity _) Er) as (-> & Hl & Hlisten).
  edestruct (regular_end cfg gs proxies one_proxy_per_host epoch share c sid s buf st0 st failed) as (v & Hr & Hv); try eassumption.
  exists (conclude true "ok" reply0), (storage v).
  eapply (phase2_exchanged cfg gs proxies one_proxy_per_host epoch None 0 share sid failed c reply st false plan sp reply0
    (fun _ => false) (seqZ 1 (zlen failed - 1)) listening v (fun _ => true) (fun _ => ""%string)); rewrite ?stripe_found; try eassumption; auto.
  - eapply rtc_subrel; [|exact Hr]. intros a b Hst1. exists false. auto.
  - intros p Hp _ _. exists true. apply Hv, Hp.
  - unfold phase2_conclude. rewrite (all_ok sp (fun _ => true) v Hok Hsp (fun _ => eq_refl) Hv). reflexivity.
Qed.
End Outcome.

(** C1. The sharded repair of a stored gLRC stripe is safe under every
    interleaving of its proxies and every fault, and complete without faults.
    After a set (which stores the stripe, below 2 GiB, when each plan gets its own
    part), lose any blocks.  Whatever the proxies, the connections between
    them and the writes to the data nodes do, and at whatever point the request is
    given up: each lost block is afterwards either as before or exactly the block
    of the codeword, no other file of the data nodes changes, and success is
    reported only when all lost blocks are restored.  If the loss is recoverable,
    the blocks divide into shards and there are at least as many shards as lost
    blocks (and at most 80 of those), a run without faults can be completed, and
    every such run restores them all. *)
Theorem set_then_sharded_recovery {S : StdSort} {SL : StdSortLaws S} {K : Kernels} {KL : KernelLaws K}
    cfg gs client draws outcomes c buf tmp st num_arry N failed :
  config_ok cfg -> CodeType (settings cfg) = "gLRC" -> 1 <= BlockSize (settings cfg) < 2 ^ 31 ->
  cfg_z cfg <= cfg_k cfg + cfg_r cfg <= 255 ->
  coordinator_ok c -> cluster_ready cfg (co_tables c) -> schedulable outcomes ->
  zlen buf = cfg_n cfg * BlockSize (settings cfg) -> (forall key, tmp key <> key) ->
  known_policy (GlrcEquationPolicy gs) = true -> GlrcPhase2WriteBack gs = true ->
  NoDup failed -> failed <> [] -> Forall (fun b => 0 <= b < cfg_n cfg) failed ->
  exists reply c' s plans,
    (uploadSetValue cfg client (BlockSize (settings cfg) * cfg_k cfg) draws outcomes c = Some (Some reply, c') /\
     generate_add_plans (BlockSize (settings cfg)) s (co_tables c') = Some plans) /\
    (cfg_n cfg * BlockSize (settings cfg) < 2 ^ 31 ->
     exists buf' parts, set_stripe num_arry N (stripe_id s) cfg reply buf = Some (buf', parts) /\
       forall accepted, accepts_at (reply_addresses reply) accepted ->
         exists st', run_proxies cfg tmp plans parts accepted st = Some st' /\
           (parts_apart reply accepted -> stripe_stored cfg c' (m_cur_stripe_id c) s (stripe_of cfg buf) st')) /\
    (exists st0, stripe_stored cfg c' (m_cur_stripe_id c) s (stripe_of cfg buf) st0) /\
    forall proxies one_proxy_per_host epoch share reply0 st2,
      (forall x, x ∈ dom (m_node_table (co_tables c')) -> repair_proxy_key_for_node (co_tables c') x ∈ proxies) ->
      (forall x, 0 <= x < cfg_n cfg -> x ∉ failed -> stored st2 (source_block s (co_tables c') x) (stripe_of cfg buf).[x]) ->
      let outcome := recovery_glrc_ilp_phase2_breakdown_ex cfg gs proxies one_proxy_per_host epoch None 0 share
                       (m_cur_stripe_id c) failed c' reply0 st2 in
      (forall fault result reply2 st3, outcome fault (result, reply2, st3) ->
         rr_success reply2 = result /\ sharded_effect s (co_tables c') (stripe_of cfg buf) failed result st2 st3) /\
      (recoverable (cfg_k cfg) (cfg_r cfg) (cfg_z cfg) failed -> (GlrcShardCount gs | BlockSize (settings cfg)) ->
       zlen failed <= GlrcShardCount gs -> zlen failed <= PROXY_PHASE2_PER_PROXY_BAND ->
       (exists reply2 st3, outcome false (true, reply2, st3)) /\
       (forall result reply2 st3, outcome false (result, reply2, st3) -> result = true)).
Proof.
  intros Hcfg Hct Hbs [Hzk Hkr] Hc Hcr Hout Hbuf Htmp Hpol Hwb Hnd Hne Hrg.
  destruct (set_flow_stored cfg client draws outcomes c buf tmp st num_arry N Hcfg Hct (proj1 Hbs) Hc Hcr Hout Hbuf Htmp)
    as (reply & c' & s & plans & H & Hwrite & st' & Hst).
  exists reply, c', s, plans. split; [exact H|]. split; [exact Hwrite|]. split; [eauto|].
  intros proxies oph epoch share reply0 st2 Hreg Hsurv outcome. split.
  - intros fault result reply2 st3 Ho. edestruct outcome_safe as (H1 & H2 & _); try eassumption. auto.
  - intros Hrec Hdiv Hf Hband. split; [eapply outcome_exists; eassumption|]. intros result reply2 st3 Ho. eapply outcome_complete; eassumption.
Qed.

(** Blocks of two bytes, two shards. *)
Definition ex_config2 : SysConfig :=
  {| settings := {| BlockSize := 2; ClusterNum := 1; CodeType := "gLRC" |}; cfg_k := 2; cfg_r := 1; cfg_z := 1; cfg_n := 4;
     AppendMode := "UNILRC_MODE"; UnitSize := 1 |}.
Definition ex_settings2 : GlrcSettings :=
  {| GlrcEquationPolicy := "ilp"; GlrcRepairMode := "phase2"; GlrcShardCount := 2; GlrcPhase2WriteBack := true;
     GlrcHmbrEquationPolicy := "ilp"; GlrcHmbrP := "auto" |}.
Definition ex_buffer2 : list byte := [x05; x07; x01; x02; x00; x00; x00; x00].

Lemma ex_cluster_ready2 : cluster_ready ex_config2 (co_tables ex_coordinator).
Proof. destruct (ex_cluster_ready "gLRC") as [H1 H2 H3]. split; [exact H1|exact H2|exact H3]. Qed.

Lemma set_then_sharded_recovery_witness : exists reply c' s plans buf' parts st' reply2 st3,
  uploadSetValue ex_config2 "client" 4 [] (fun _ => [true]) ex_coordinator = Some (Some reply, c') /\
  generate_add_plans 2 s (co_tables c') = Some plans /\
  set_stripe [] 0 (stripe_id s) ex_config2 reply ex_buffer2 = Some (buf', parts) /\
  run_proxies ex_config2 ex_tmp plans parts (in_order 1) ∅ = Some st' /\
  recovery_glrc_ilp_phase2_breakdown_ex ex_config2 ex_settings2 (init_proxyinfo (co_tables c')) false 7 None 0 false 0 [0; 1] c' clear_reply st'
    false (true, reply2, st3) /\
  stored st3 (source_block s (co_tables c') 0) [x05; x07] /\ stored st3 (source_block s (co_tables c') 1) [x01; x02].
Proof.
  destruct (set_then_sharded_recovery ex_config2 ex_settings2 "client" [] (fun _ => [true]) ex_coordinator ex_buffer2 ex_tmp ∅ [] 0 [0; 1])
    as (reply & c' & s & plans & [H1 H2] & Hw & _ & H5);
    [unfold config_ok; cbn; lia|reflexivity|cbn; lia|cbn; lia|apply ex_coordinator_ok|apply ex_cluster_ready2|intros i; reflexivity|reflexivity
    |apply ex_tmp_ok|reflexivity|reflexivity|by_eval|by_eval|by_eval|].
  destruct (Hw ltac:(vm_compute; reflexivity)) as (buf' & parts & H3 & Hrun).
  destruct (Hrun (in_order 1)) as (st' & H4 & Hst); [replace 1 with (zlen (reply_addresses reply)) by (vm_compute in H1; injection H1 as <- _; reflexivity); apply in_order_accepts|].
  specialize (Hst (or_intror (in_order_own _))).
  destruct (H5 (init_proxyinfo (co_tables c')) false 7 false clear_reply st' (init_proxyinfo_registers _)
    (fun x Hx _ => ss_stored _ _ _ _ _ _ Hst x Hx)) as [Hsafe Hlive].
  destruct Hlive as [(reply2 & st3 & Ho) _]; [exists [0; 1]; apply accepts_iff; by_eval|exists 1; reflexivity|by_eval|by_eval|].
  destruct (Hsafe _ _ _ _ Ho) as (_ & _ & He).
  exists reply, c', s, plans, buf', parts, st', reply2, st3. do 4 (split; [assumption|]). split; [exact Ho|].
  destruct (He 0 ltac:(cbn; lia)) as [tag0 W0], (He 1 ltac:(cbn; lia)) as [tag1 W1].
  split; [exact (we_done _ _ _ _ _ _ W0 eq_refl)|exact (we_done _ _ _ _ _ _ W1 eq_refl)].
Defined.

(** C29. The sharded repair comes to an end: there is a bound on the steps that the
    proxies' threads, the connections and the data nodes can take together, in any
    order and with any faults, whoever listens. *)
Theorem sharded_runs_end {S : StdSort} {SL : StdSortLaws S} {K : Kernels} {KL : KernelLaws K}
    cfg gs proxies one_proxy_per_host epoch share c sid s buf st0 st failed sp :
  config_ok cfg -> CodeType (settings cfg) = "gLRC" -> 1 <= BlockSize (settings cfg) < 2 ^ 31 ->
  cfg_z cfg <= cfg_k cfg + cfg_r cfg <= 255 -> zlen buf = cfg_n cfg * BlockSize (settings cfg) ->
  stripe_stored cfg c sid s (stripe_of cfg buf) st0 ->
  known_policy (GlrcEquationPolicy gs) = true -> GlrcPhase2WriteBack gs = true ->
  NoDup failed -> failed <> [] -> Forall (fun b => 0 <= b < cfg_n cfg) failed ->
  (forall x, 0 <= x < cfg_n cfg -> x ∉ failed -> stored st (source_block s (co_tables c) x) (stripe_of cfg buf).[x]) ->
  let plan := glrc_solve_repair_plan (cfg_k cfg) (cfg_r cfg) (cfg_z cfg) failed (glrc_normalize_equation_policy (GlrcEquationPolicy gs)) in
  success plan = true -> phase2_shard_plan cfg gs s (co_tables c) failed 0 = inl sp ->
  let calls := phase2_calls cfg gs proxies s (co_tables c) failed plan sp epoch share in
  exists N, forall listening n v,
    nsteps (fun a b => exists fault, session_step (BlockSize (settings cfg)) one_proxy_per_host listening calls fault a b) n
      (start_session (BlockSize (settings cfg)) calls st) v -> (n <= N)%nat.
Proof. intros Hcfg Hct Hbs [Hzk Hkr]. intros. eapply runs_bounded; eassumption. Qed.

Lemma sharded_runs_end_witness : exists c s st sp N, stripe_stored ex_config2 c 0 s (stripe_of ex_config2 ex_buffer2) st /\
  phase2_shard_plan ex_config2 ex_settings2 s (co_tables c) [0; 1] 0 = inl sp /\
  let calls := phase2_calls ex_config2 ex_settings2 (init_proxyinfo (co_tables c)) s (co_tables c) [0; 1] (glrc_solve_repair_plan 2 1 1 [0; 1] "ilp-min-helper") sp 7 false in
  forall listening n v, nsteps (fun a b => exists fault, session_step 2 false listening calls fault a b) n (start_session 2 calls st) v -> (n <= N)%nat.
Proof.
  destruct (set_flow_stored ex_config2 "client" [] (fun _ => [true]) ex_coordinator ex_buffer2 ex_tmp ∅ [] 0)
    as (reply & c & s & plans & _ & _ & st & Hst);
    [unfold config_ok; cbn; lia|reflexivity|cbn; lia|apply ex_coordinator_ok|apply ex_cluster_ready2|intros i; reflexivity|reflexivity|apply ex_tmp_ok|].
  assert (Hp : exists sp, phase2_shard_plan ex_config2 ex_settings2 s (co_tables c) [0; 1] 0 = inl sp) by (eexists; by_eval).
  destruct Hp as [sp Hp].
  destruct (sharded_runs_end ex_config2 ex_settings2 (init_proxyinfo (co_tables c)) false 7 false c 0 s ex_buffer2 st st [0; 1] sp) as [N HN];
    [unfold config_ok; cbn; lia|reflexivity|cbn; lia|cbn; lia|reflexivity|exact Hst|reflexivity|reflexivity|by_eval|by_eval|by_eval
    |intros x Hx _; exact (ss_stored _ _ _ _ _ _ Hst x Hx)|by_eval|exact Hp|].
  exists c, s, st, sp, N. split; [exact Hst|]. split; [exact Hp|exact HN].
Defined.

(** C35. More lost blocks than shards: the request never succeeds.  The partitions
    without shards are not called, so nobody listens for their peers. *)
Theorem more_losses_than_shards_fail {S : StdSort} {SL : StdSortLaws S} {K : Kernels} {KL : KernelLaws K}
    cfg gs proxies one_proxy_per_host epoch share c sid s buf st0 st failed reply :
  config_ok cfg -> CodeType (settings cfg) = "gLRC" -> 1 <= BlockSize (settings cfg) < 2 ^ 31 ->
  cfg_z cfg <= cfg_k cfg + cfg_r cfg <= 255 -> zlen buf = cfg_n cfg * BlockSize (settings cfg) ->
  stripe_stored cfg c sid s (stripe_of cfg buf) st0 ->
  known_policy (GlrcEquationPolicy gs) = true -> GlrcPhase2WriteBack gs = true ->
  NoDup failed -> failed <> [] -> Forall (fun b => 0 <= b < cfg_n cfg) failed ->
  (forall x, 0 <= x < cfg_n cfg -> x ∉ failed -> stored st (source_block s (co_tables c) x) (stripe_of cfg buf).[x]) ->
  (forall x, x ∈ dom (m_node_table (co_tables c)) -> repair_proxy_key_for_node (co_tables c) x ∈ proxies) ->
  GlrcShardCount gs < zlen failed ->
  ~ exists fault reply2 st2,
      recovery_glrc_ilp_phase2_breakdown_ex cfg gs proxies one_proxy_per_host epoch None 0 share sid failed c reply st fault (true, reply2, st2).
Proof.
  intros Hcfg Hct Hbs [Hzk Hkr] Hbuf Hst Hpol Hwb Hnd Hne Hrg Hsurv Hreg Hf (fault & reply2 & st2 & Ho).
  edestruct outcome_safe as (_ & _ & H); try eassumption. specialize (H eq_refl). lia.
Qed.

Lemma more_losses_than_shards_fail_witness : exists c s st, stripe_stored (ex_config "gLRC") c 0 s (stripe_of (ex_config "gLRC") ex_buffer) st /\
  recoverable 2 1 1 [0; 1] /\
  ~ exists fault reply2 st2, recovery_glrc_ilp_phase2_breakdown_ex (ex_config "gLRC") (ex_settings "phase2") (init_proxyinfo (co_tables c)) false 7
      None 0 false 0 [0; 1] c clear_reply st fault (true, reply2, st2).
Proof.
  destruct (set_flow_stored (ex_config "gLRC") "client" [] (fun _ => [true]) ex_coordinator ex_buffer ex_tmp ∅ [] 0)
    as (reply & c & s & plans & _ & _ & st & Hst);
    [apply ex_config_ok|reflexivity|cbn; lia|apply ex_coordinator_ok|apply ex_cluster_ready|intros i; reflexivity|reflexivity|apply ex_tmp_ok|].
  exists c, s, st. split; [exact Hst|]. split; [exists [0; 1]; apply accepts_iff; by_eval|].
  apply (more_losses_than_shards_fail (ex_config "gLRC") (ex_settings "phase2") (init_proxyinfo (co_tables c)) false 7 false c 0 s ex_buffer st st [0; 1]);
    [apply ex_config_ok|reflexivity|cbn; lia|cbn; lia|reflexivity|exact Hst|reflexivity|reflexivity|by_eval|by_eval|by_eval
    |intros x Hx _; exact (ss_stored _ _ _ _ _ _ Hst x Hx)|apply init_proxyinfo_registers|reflexivity].
Defined.
