(* ===== verification/PipelineStripe.v ===== *)
(** The pipelines of a stored stripe: what its chains read and add up to, what hub
    and sinks store, and that READY and the calls succeed without faults. *)
From S2P Require Import PortAllocator.
From S2P Require Import Prelude GF256 LinAlg GFMatrix Groups EcKernel Codes LocalRepair Decode DecodeSpec RepairPlan RepairPlanSpec RepairGuarantee PipelineCodec PipelinePlan PipelineSession CNum Text.
From S2P Require Import Toolbox Placement PlacementSpec PlacementLaw Coordinator CoordinatorSpec AppendPlan Client DataNode ProxyAppend BufferLayout StripeWrite ReadPath.
From S2P Require Import SingleRepair SingleRepairSpec MultiRecovery MultiRecoverySpec PipelineMessages PipelineRun PipelineRunSpec PipelineChainSpec PipelineHubSpec.
From S2P Require Import PipelineSinkSpec PipelineSessionSpec PipelineReadySpec Examples WriteTheorems RecoveryTheorems.

(** * The hops of a plan *)

(** A hop names its block, its data node and its proxy as the table does. *)
Definition hop_from (lookup : list GlrcPipelineNodeLookup) (h : GlrcPipelineHopInfo) : Prop :=
  let node := lookup.[hop_block_id h] in
  hop_datanode_ip h = PipelinePlan.datanode_ip node /\ hop_datanode_port h = PipelinePlan.datanode_port node /\
  hop_proxy_ip h = PipelinePlan.proxy_ip node /\ hop_proxy_port h = PipelinePlan.proxy_port node /\ hop_block_key h = PipelinePlan.block_key node.

Lemma fill_hops_from bs row lookup hs : fill_hops bs row lookup = inl hs -> Forall (hop_from lookup) hs.
Proof.
  revert hs. induction bs as [|b bs IH]; intros hs; cbn [fill_hops]; [intros [= <-]; constructor|].
  destruct (fill_hop b row.[b] lookup) as [h|] eqn:E; [|discriminate]. destruct (fill_hops bs row lookup) as [hs'|]; [|discriminate]. intros [= <-].
  constructor; [|apply IH; reflexivity]. unfold fill_hop in E. destruct (_ || _); [discriminate|]. destruct (_ || _); [discriminate|].
  injection E as <-. repeat split.
Qed.

Section Chains.
Context {S : StdSort} {SL : StdSortLaws S} (k r z : Z) (Hk : 1 <= k) (Hr : 0 <= r) (Hz : 1 <= z) (failed : list Z).
Notation all_eqs := (all_equations_of k r z).

(** What a chain says of its nodes. *)
Record chain_from (lookup : list GlrcPipelineNodeLookup) (hub : Z) (c : GlrcPipelineChainPlan) : Prop := {
  cf_hops : Forall (hop_from lookup) (hops c);
  cf_tail : hub_is_chain_tail c = true -> local_direct c = false;
  cf_sink : local_direct c = true -> let b := local_direct_failed_block_id c in let node := lookup.[b] in
    0 <= b < zlen lookup /\ local_direct_failed_block_key c = PipelinePlan.block_key node /\
    local_direct_replaced_ip c = PipelinePlan.datanode_ip node /\ local_direct_replaced_port c = PipelinePlan.datanode_port node /\
    local_direct_sink_proxy_ip c = PipelinePlan.proxy_ip node /\ local_direct_sink_proxy_port c = PipelinePlan.proxy_port node /\
    local_direct_sink_proxy_ip c <> ""%string;
  cf_direct : local_direct c = false -> local_direct_failed_block_key c = ""%string;
  cf_some : local_direct c = true -> 0 < zlen (hops c) }.

Lemma build_chain_from hub lookup slot e c : build_chain k r z (list_to_set failed) all_eqs hub lookup slot e = inl c -> chain_from lookup hub c.
Proof.
  unfold build_chain. destruct (_ || _); [discriminate|]. destruct (is_local_direct _ _ e).
  - destruct (find _ _) as [b|]; [|discriminate]. destruct ((b >=? 0) && (b <? zlen lookup)) eqn:Eb; [|discriminate].
    destruct (String.eqb _ _) eqn:Es; [discriminate|]. cbn [orb]. destruct (zlen _ =? 0) eqn:El; [discriminate|].
    destruct (fill_hops _ _ _) as [hs|] eqn:Eh; [|discriminate]. intros [= <-]. pose proof (fill_hops_spec _ _ _ _ Eh) as [Ei _]. apply fill_hops_from in Eh. breflect.
    split; cbn; auto; try discriminate.
    + intros _. repeat split; auto. apply String.eqb_neq, Es.
    + intros _. apply (f_equal length) in Ei. unfold sort_descending in Ei. rewrite length_map, (Permutation_length (std_sort_perm _ _)) in Ei. lia.
  - destruct (fill_hops _ _ _) as [hs|] eqn:Eh; [|discriminate]. intros [= <-]. apply fill_hops_from in Eh. split; cbn; auto; discriminate.
Qed.

(** The chains of a plan come from its equations. *)
Lemma plan_chains_from hub lookup rp epoch p ch : Forall (fun e => 0 <= e < z + r) (selected_equation_indices rp) -> 0 <= hub < k + r + z -> hub ∉ failed ->
  glrc_build_pipeline_plan k r z failed rp all_eqs hub lookup epoch = inl p -> In ch (hub_chains p ++ local_direct_chains p) ->
  exists slot, In (equation_index ch) (selected_equation_indices rp) /\ 0 <= equation_index ch < z + r /\
    build_chain k r z (list_to_set failed) all_eqs hub lookup slot (equation_index ch) = inl ch.
Proof.
  intros Hs Hhub Hhf E Hin. unfold glrc_build_pipeline_plan in E. destruct (_ || _); [discriminate|].
  destruct (build_chains _ _ _ _ _ _ _ _ _) as [chains|] eqn:Eb; [|discriminate]. injection E as <-. cbn [hub_chains local_direct_chains] in Hin.
  assert (Hc : In ch chains) by (apply in_app_iff in Hin as [Hin|Hin]; apply filter_In in Hin; apply Hin).
  destruct (build_chains_spec k r z failed hub lookup 0 _ chains Eb) as [Hl H2].
  apply list_elem_of_In, list_elem_of_lookup in Hc as [i Hi]. pose proof (lookup_lt_Some _ _ _ Hi).
  destruct (lookup_lt_is_Some_2 (selected_equation_indices rp) i ltac:(lia)) as [e He].
  destruct (H2 i e He) as (c' & Hc' & Hbc). rewrite Hi in Hc'. injection Hc' as <-.
  assert (Her : 0 <= e < z + r) by (rewrite Forall_lookup in Hs; exact (Hs i e He)).
  destruct (build_chain_spec k r z Hk Hr Hz failed hub lookup _ e ch Her Hhub Hhf Hbc) as (Ee & _).
  exists (0 + Z.of_nat i). rewrite Ee. split; [|split; [exact Her|exact Hbc]]. apply list_elem_of_In, list_elem_of_lookup. eauto.
Qed.

(** Which chains are which. *)
Lemma plan_chains_split hub lookup rp epoch p : glrc_build_pipeline_plan k r z failed rp all_eqs hub lookup epoch = inl p ->
  exists chains, build_chains k r z (list_to_set failed) all_eqs hub lookup 0 (selected_equation_indices rp) = inl chains /\
    hub_chains p = List.filter (fun c => negb (local_direct c)) chains /\ local_direct_chains p = List.filter local_direct chains /\
    hub_proxy_ip p = PipelinePlan.proxy_ip lookup.[hub] /\ hub_proxy_port p = PipelinePlan.proxy_port lookup.[hub] /\
    hub_datanode_ip p = PipelinePlan.datanode_ip lookup.[hub] /\ hub_datanode_port p = PipelinePlan.datanode_port lookup.[hub] /\
    hub_block_key p = PipelinePlan.block_key lookup.[hub] /\ exchange_epoch p = epoch.
Proof.
  unfold glrc_build_pipeline_plan. destruct (_ || _); [discriminate|].
  destruct (build_chains _ _ _ _ _ _ _ _ _) as [chains|]; [|discriminate]. intros [= <-]. exists chains. repeat split.
Qed.
(** ** The blocks of local chains *)

(** A local chain stands for the one block its group lost. *)
Lemma direct_group e b : 0 <= e < z + r -> is_local_direct all_eqs (list_to_set failed) e = true -> b ∈ failed -> In b (involved_blocks all_eqs.[e]) ->
  e < z /\ 0 <= b < k + r + z /\ block_group k r z b = e /\ forall b', b' ∈ failed -> In b' (involved_blocks all_eqs.[e]) -> b' = b.
Proof.
  intros He Eld Hb Hbe. unfold is_local_direct in Eld. rewrite all_equations_len in Eld by auto.
  destruct (Z.ltb_spec e 0), (Z.geb_spec e (z + r)); try lia. cbn [orb] in Eld.
  assert (Hez : e < z).
  { destruct (Z.lt_ge_cases e z) as [|Hge]; [assumption|]. exfalso. unfold all_equations_of in Eld.
    rewrite zget_app, length_map, zlen_seqZ in Eld by lia. rewrite Z.max_r in Eld by lia.
    destruct (Z.ltb_spec e z); [lia|]. rewrite zget_map_zseq in Eld by lia. discriminate. }
  pose proof (involved_range k r z Hk Hr Hz e b He Hbe) as Hbr. split; [exact Hez|]. split; [exact Hbr|]. split.
  - rewrite involved_eq in Hbe by auto. destruct (Z.ltb_spec e z); [|lia]. apply placement_group_iff in Hbe; auto; lia.
  - intros b' Hb' Hbe'. destruct (eq_type all_eqs.[e]); [|discriminate]. apply Z.eqb_eq in Eld.
    assert (Hin : forall x, x ∈ failed -> In x (involved_blocks all_eqs.[e]) ->
              In x (List.filter (fun b => bool_decide (b ∈ (list_to_set failed : gset Z))) (involved_blocks all_eqs.[e]))).
    { intros x Hx Hxe. apply filter_In. split; [exact Hxe|]. apply bool_decide_eq_true. set_solver. }
    pose proof (Hin b Hb Hbe) as H1. pose proof (Hin b' Hb' Hbe') as H2.
    destruct (List.filter _ _) as [|x [|y l]]; cbn [length] in Eld; try lia. destruct H1 as [<-|[]], H2 as [<-|[]]. reflexivity.
Qed.

Lemma direct_facts hub lookup rp epoch p ch : Forall (fun e => 0 <= e < z + r) (selected_equation_indices rp) -> 0 <= hub < k + r + z -> hub ∉ failed ->
  glrc_build_pipeline_plan k r z failed rp all_eqs hub lookup epoch = inl p -> In ch (local_direct_chains p) ->
  let b := local_direct_failed_block_id ch in let e := equation_index ch in
  In e (selected_equation_indices rp) /\ 0 <= e < z /\ b ∈ failed /\ 0 <= b < k + r + z /\ block_group k r z b = e /\
  forall b', b' ∈ failed -> b' <> b -> glrc_eq_coef k r z e b' = x00 \/ ~ 0 <= b' < k + r + z.
Proof.
  intros Hs Hhub Hhf E Hin b e. destruct (plan_chains_from hub lookup rp epoch p ch Hs Hhub Hhf E) as (slot & H1 & H2 & H3); [apply in_app_iff; auto|].
  destruct (build_chain_spec k r z Hk Hr Hz failed hub lookup slot _ ch H2 Hhub Hhf H3) as (_ & _ & _ & _ & Eld & Hf & _).
  destruct (plan_chains_split hub lookup rp epoch p E) as (chains & _ & _ & El & _). rewrite El in Hin. apply filter_In in Hin as [_ Hld].
  destruct (Hf Hld) as [Hbf Hbe]. rewrite Hld in Eld. symmetry in Eld.
  destruct (direct_group (equation_index ch) b H2 Eld Hbf Hbe) as (D1 & D2 & D3 & D4).
  split; [exact H1|]. split; [lia|]. do 2 (split; [assumption|]). split; [exact D3|]. intros b' Hb' Hne.
  destruct (decide (0 <= b' < k + r + z)) as [Hbr|]; [left|right; assumption].
  destruct (decide (glrc_eq_coef k r z e b' = x00)) as [|Hc]; [assumption|]. exfalso. apply Hne, D4; [exact Hb'|]. apply coef_involved; auto.
Qed.

Section System.
Context (hub : Z) (lookup : list GlrcPipelineNodeLookup) (rp : GlrcIlpRepairPlan) (epoch : Z) (p : GlrcPipelinePlan).
Context (Hnd : NoDup failed) (Hne : failed <> []) (Hrg : Forall (fun b => 0 <= b < k + r + z) failed).
Context (Hsel : good_selection k r z failed (selected_equation_indices rp)) (Hhub : 0 <= hub < k + r + z) (Hhf : hub ∉ failed).
Context (Hbuild : glrc_build_pipeline_plan k r z failed rp all_eqs hub lookup epoch = inl p).

Lemma plan_equations : map equation_index (hub_chains p ++ local_direct_chains p) ≡ₚ selected_equation_indices rp.
Proof.
  destruct (plan_chains_split hub lookup rp epoch p Hbuild) as (chains & Eb & -> & -> & _).
  rewrite <- (chains_equations k r z Hk Hr Hz failed hub lookup 0 (selected_equation_indices rp) chains Hhub Hhf (proj1 Hsel) Eb).
  apply Permutation_map, filter_partition_perm.
Qed.

(** Different local chains repair different blocks. *)
Lemma direct_distinct : NoDup (map local_direct_failed_block_id (local_direct_chains p)).
Proof.
  assert (Hnd2 : NoDup (map equation_index (local_direct_chains p))).
  { pose proof Hsel as Hn. apply good_nodup in Hn. rewrite <- plan_equations, map_app in Hn. apply NoDup_app in Hn. apply Hn. }
  assert (Hg : forall ch, In ch (local_direct_chains p) -> block_group k r z (local_direct_failed_block_id ch) = equation_index ch).
  { intros ch Hin. destruct (direct_facts hub lookup rp epoch p ch (proj1 Hsel) Hhub Hhf Hbuild Hin) as (_ & _ & _ & _ & E & _). exact E. }
  revert Hnd2 Hg. generalize (local_direct_chains p). induction l as [|ch l IH]; intros Hn Hg; [constructor|]. cbn [map] in *.
  apply NoDup_cons in Hn as [Hni Hn]. constructor; [|apply IH; [exact Hn|intros; apply Hg; right; assumption]].
  intros Hin. apply Hni. apply list_elem_of_In, in_map_iff in Hin as (ch' & E & Hin). rewrite <- (Hg ch (or_introl eq_refl)), <- E, (Hg ch' (or_intror Hin)).
  apply list_elem_of_In, in_map, Hin.
Qed.

Lemma direct_lost b : b ∈ local_direct_failed p <-> exists ch, In ch (local_direct_chains p) /\ b = local_direct_failed_block_id ch.
Proof.
  unfold local_direct_failed. rewrite elem_of_list_to_set, list_elem_of_In, in_map_iff. split; intros (ch & E1 & E2); eauto.
Qed.

Lemma hub_lost_in b : b ∈ hub_failed_ids failed p <-> b ∈ failed /\ b ∉ local_direct_failed p.
Proof. unfold hub_failed_ids. rewrite !list_elem_of_In, filter_In, negb_true_iff, bool_decide_eq_false. reflexivity. Qed.

Lemma hub_system_size : zlen (hub_equations p) = zlen (hub_failed_ids failed p).
Proof.
  pose proof (Permutation_length plan_equations) as E1. rewrite length_map, length_app in E1.
  pose proof (filter_split_len (fun b => bool_decide (b ∈ local_direct_failed p)) failed) as E2.
  assert (E3 : zlen (List.filter (fun b => bool_decide (b ∈ local_direct_failed p)) failed) = zlen (local_direct_chains p)).
  { rewrite <- (length_map local_direct_failed_block_id (local_direct_chains p)). f_equal. apply Permutation_length, NoDup_Permutation.
    - apply NoDup_ListNoDup, List.NoDup_filter, NoDup_ListNoDup, Hnd.
    - apply direct_distinct.
    - intros b. rewrite list_elem_of_In, filter_In, bool_decide_eq_true, direct_lost, list_elem_of_In, in_map_iff. split.
      + intros (_ & ch & Hin & ->). eauto.
      + intros (ch & <- & Hin). destruct (direct_facts hub lookup rp epoch p ch (proj1 Hsel) Hhub Hhf Hbuild Hin) as (_ & _ & Hf & _).
        split; [apply list_elem_of_In, Hf|eauto]. }
  unfold hub_equations, hub_failed_ids in *. rewrite length_map. destruct Hsel as (_ & E4 & _). lia.
Qed.

Lemma hub_system_valid : valid_system k r z (hub_failed_ids failed p) (hub_equations p).
Proof.
  constructor.
  - apply NoDup_ListNoDup, List.NoDup_filter, NoDup_ListNoDup, Hnd.
  - apply Forall_forall. intros b Hb. apply hub_lost_in in Hb as [Hb _]. rewrite Forall_forall in Hrg. apply Hrg, Hb.
  - apply Forall_forall. intros e He. pose proof (proj1 Hsel) as Hs. rewrite Forall_forall in Hs. apply Hs. rewrite <- plan_equations, map_app.
    apply elem_of_app. left. exact He.
  - apply hub_system_size.
Qed.

(** The hub's equations determine the hub's blocks: the local ones do not touch
    them. *)
Lemma hub_system_regular : nonsingular (zlen (hub_failed_ids failed p)) (system_mx k r z (hub_failed_ids failed p) (hub_equations p)).
Proof.
  pose proof hub_system_valid as [V1 V2 V3 V4]. pose proof Hsel as (G1 & G2 & G3). set (hf := hub_failed_ids failed p) in *.
  intros v Hv. destruct (kernel_by_block hf v V1) as [u Hu].
  set (x := fun b => if bool_decide (b ∈ hf) then u b else x00).
  assert (Hx : forall j, 0 <= j < zlen failed -> x failed.[j] = x00).
  { apply (proj1 (nonsingular_members k r z failed (selected_equation_indices rp) G2) G3 (fun j => x failed.[j])).
    intros e He. rewrite <- (xsum_members (k + r + z) failed (fun b => glrc_eq_coef k r z e b ⊗ x b) Hnd Hrg).
    apply list_elem_of_In in He. rewrite <- plan_equations, map_app in He. apply elem_of_app in He as [He|He]; apply list_elem_of_In in He.
    - apply In_zget in He as (i & Hi & <-). fold (hub_equations p) in *. specialize (Hv i ltac:(lia)).
      etransitivity; [|exact Hv]. unfold mxv, system_mx. fold hf.
      rewrite (xsum_ext (zlen hf) _ (fun j => glrc_eq_coef k r z (hub_equations p).[i] hf.[j] ⊗ u hf.[j])) by (intros j Hj; rewrite Hu by exact Hj; reflexivity).
      rewrite <- (xsum_members (k + r + z) hf (fun b => glrc_eq_coef k r z (hub_equations p).[i] b ⊗ u b) V1 V2).
      apply xsum_ext. intros b Hb. unfold x. destruct (bool_decide_reflect (b ∈ hf)) as [Hbh|Hbh].
      + apply hub_lost_in in Hbh as [Hbf _]. rewrite bool_decide_true by exact Hbf. reflexivity.
      + destruct (bool_decide (b ∈ failed)); [ring|reflexivity].
    - apply in_map_iff in He as (ch & <- & Hin). apply xsum_zero. intros b Hb.
      destruct (direct_facts hub lookup rp epoch p ch G1 Hhub Hhf Hbuild Hin) as (_ & _ & _ & _ & _ & Ho).
      destruct (bool_decide_reflect (b ∈ failed)) as [Hbf|]; [|reflexivity].
      destruct (Z.eq_dec b (local_direct_failed_block_id ch)) as [->|Hb'].
      + unfold x. rewrite bool_decide_false; [ring|]. intros Hbh. apply hub_lost_in in Hbh as [_ Hbl]. apply Hbl, direct_lost. eauto.
      + destruct (Ho b Hbf Hb') as [->|]; [ring|contradiction]. }
  intros j Hj. assert (Hjh : hf.[j] ∈ hf) by (apply list_elem_of_In, zget_In, Hj). pose proof (proj1 (proj1 (hub_lost_in hf.[j]) Hjh)) as Hjf.
  apply list_elem_of_In, In_zget in Hjf as (i & Hi & Ei). specialize (Hx i Hi). rewrite Ei in Hx. unfold x in Hx. rewrite bool_decide_true, Hu in Hx by assumption. exact Hx.
Qed.
End System.
End Chains.

(** * What a chain adds up *)

Lemma fold_terms {A} `{Inhabited A} (term : A -> byte) l : fold_right (fun a s => term a ⊕ s) x00 l = xsum (zlen l) (fun j => term l.[j]).
Proof.
  induction l as [|a l IH]; [reflexivity|]. cbn [fold_right length]. rewrite Nat2Z.inj_succ. unfold Z.succ. rewrite xsum_cons, IH by lia.
  f_equal. apply xsum_ext. intros j Hj. rewrite zget_cons_succ by lia. reflexivity.
Qed.

Lemma chain_sum codec len stripe off ch x : 0 <= off -> 0 <= x < len ->
  zlen (run_chain codec len (chain_inputs stripe off ch)) = len /\
  (run_chain codec len (chain_inputs stripe off ch)).[x] =
    xsum (zlen (hops ch)) (fun j => let h := (hops ch).[j] in hop_coef h ⊗ stripe.[hop_block_id h].[off + x]).
Proof.
  intros Ho Hx. destruct (run_chain_spec codec len (chain_inputs stripe off ch) x Hx) as [-> ->]. split; [reflexivity|].
  etransitivity; [|apply (fold_terms (fun h => hop_coef h ⊗ stripe.[hop_block_id h].[off + x]))].
  unfold chain_inputs. induction (hops ch) as [|h l IH]; [reflexivity|]. cbn [map fold_right]. rewrite IH, zget_zdrop by lia. reflexivity.
Qed.

(** Role by role, shard by shard. *)
Lemma role_sum bs T (req : Z -> PipelineRequest) (src : Z -> block) (co : Z -> byte) w m i s x : 0 <= i < m -> 0 <= s -> 0 <= x < w ->
  (forall j, 0 <= j < m -> width bs T (req j) = w) -> hop_coef_at (req 0) 0 = co 0 ->
  (forall j, 1 <= j < m -> hop_coef_at (req j) (my_hop (req j)) = co j) ->
  zlen (role_val bs T req src i s) = w /\ (role_val bs T req src i s).[x] = xsum (i + 1) (fun j => co j ⊗ (src j).[s * w + x]).
Proof.
  intros Hi Hs Hx Hw Hc0 Hc. destruct Hi as [H0 Hi]. revert i H0 Hi. apply (Zlt_0_ind (fun i => i < m -> _)). intros i IH H0 Hi.
  destruct (Z.eq_dec i 0) as [->|Hne].
  - unfold role_val. change (Z.to_nat 0) with O. cbn [chain_val]. unfold head_val, head_shard_bytes. rewrite Hw, Hc0 by lia.
    match goal with |- context [glrc_pipeline_init_partial_range ?a ?b ?c ?d ?e] => destruct (init_partial_range_spec a b c d e) as [E1 E2] end;
      [rewrite zlen_zrepeat by lia; lia|]. rewrite zlen_zrepeat in E1 by lia. split; [exact E1|]. rewrite E2 by lia. destruct (Z.ltb_spec x w); [|lia].
    rewrite peek_get by nia. change (0 + 1) with 1. replace 1 with (0 + 1) at 1 by lia. rewrite xsum_succ, xsum_0 by lia. ring.
  - destruct (IH (i - 1) ltac:(lia) ltac:(lia)) as [I1 I2]. rewrite role_val_next by lia. unfold hop_val. rewrite Hw, Hc by lia.
    match goal with |- context [glrc_pipeline_accumulate_range ?a ?b ?c ?d ?e] => destruct (accumulate_range_spec a b c d e) as [E1 E2] end; [lia|].
    replace (i - 1 + 1) with i in I2 by lia. split; [lia|]. rewrite E2 by lia. destruct (Z.ltb_spec x w); [|lia]. rewrite I2, peek_get, xsum_succ by nia. reflexivity.
Qed.

(** * The answers of the calls *)

Lemma join_none index (e msg : string) : (e +:+ (if String.eqb e "" then "" else "; ") +:+ "rpc[" +:+ to_string index +:+ "]: " +:+ msg)%string <> ""%string.
Proof. destruct e; cbn; discriminate. Qed.

(** No error text exactly when every call succeeded. *)
Lemma rpc_errors_none answered errors w results : rpc_errors answered errors w results = ""%string <-> forall call, call ∈ results -> call_ok answered w call = true.
Proof.
  unfold rpc_errors. set (body := fun '(index, e) call => _).
  assert (Hstep : forall l i e, snd (fold_left body l (i, e)) = ""%string <-> e = ""%string /\ forall call, call ∈ l -> call_ok answered w call = true).
  { induction l as [|call l IH]; intros i e; cbn [fold_left snd].
    - split; [intros ->; split; [reflexivity|intros call H; inversion H]|tauto].
    - unfold body at 2. rewrite IH. destruct (call_ok answered w call) eqn:E.
      + setoid_rewrite elem_of_cons. split; [intros [H1 H2]; split; [exact H1|intros c [->|Hc]; auto]|intros [H1 H2]; auto].
      + split; [intros [H1 _]; destruct (join_none _ _ _ H1)|].
        intros [_ H2]. specialize (H2 call (list_elem_of_here _ _)). congruence. }
  rewrite Hstep. tauto.
Qed.

(** * What a repair leaves *)

(** [blk b]: what was to be stored for block [b]. *)
Definition pipelined_effect (s : Stripe) (t : Tables) (blk : Z -> block) (failed : list Z) (done : bool) (st st' : Storage) : Prop :=
  (forall nd, nd ∉ map (replaced_node s t) failed -> files_at (fst nd) (snd nd) st' = files_at (fst nd) (snd nd) st) /\
  forall b, b ∈ failed -> let nd := replaced_node s t b in
    exists tag, write_effect (block_key (blocks s).[b]) (recovery_tmp (block_key (blocks s).[b]) tag) (blk b) done
      (files_at (fst nd) (snd nd) st) (files_at (fst nd) (snd nd) st').

Lemma pipelined_effect_none s t blk failed st : pipelined_effect s t blk failed false st st.
Proof. split; [reflexivity|]. intros b _. exists ""%string. apply write_effect_refl. Qed.

(** * The pipelines of a stored stripe *)

Section Pipelined.
Context {S : StdSort} {SL : StdSortLaws S} {K : Kernels} {KL : KernelLaws K}.
Context (cfg : SysConfig) (gs : GlrcSettings) (window : Z) (oph : bool).
Context (c : Coordinator) (sid : Z) (s : Stripe) (buf : list byte) (st0 st : Storage) (failed : list Z).
Context (rp : GlrcIlpRepairPlan) (p : GlrcPipelinePlan) (epoch hub : Z) (ports : gmap Z GlrcPipelineChainPorts).
Context (Hcfg : config_ok cfg) (Hct : CodeType (settings cfg) = "gLRC") (Hbs : 1 <= BlockSize (settings cfg) < 2 ^ 31).
Context (Hbuf : zlen buf = cfg_n cfg * BlockSize (settings cfg)).
Context (Hst : stripe_stored cfg c sid s (stripe_of cfg buf) st0).
Context (Hnd : NoDup failed) (Hne : failed <> []) (Hrg : Forall (fun b => 0 <= b < cfg_n cfg) failed).
Context (HT : 1 <= GlrcShardCount gs) (Hdiv : (GlrcShardCount gs | BlockSize (settings cfg))).
Notation t := (co_tables c).
Notation bs := (BlockSize (settings cfg)).
Notation T := (GlrcShardCount gs).
Notation w := (bs / T).
Notation stripe := (stripe_of cfg buf).
Notation k := (cfg_k cfg).
Notation r := (cfg_r cfg).
Notation z := (cfg_z cfg).
Notation n := (k + r + z).
Notation lookup := (pipeline_node_lookup s t n).
Context (Hsel : good_selection k r z failed (selected_equation_indices rp)) (Hhub : 0 <= hub < n) (Hhf : hub ∉ failed).
Context (Hbuild : glrc_build_pipeline_plan k r z failed rp (all_equations_of k r z) hub lookup epoch = inl p).
Context (Hself : self_contained k r z failed p) (Hhops : Forall (fun ch => 2 <= zlen (hops ch)) (hub_chains p)).
Context (Hsurv : forall x, 0 <= x < cfg_n cfg -> x ∉ failed -> stored st (source_block s t x) stripe.[x]).
Notation su := (pipeline_setup cfg gs window oph s t failed rp p 0 0 "" 0 ports).
Notation q := (hub_request su).
Notation C := (zlen (all_chains su)).
Notation H := (hub_count su).
Notation J := (zlen (local_direct_chains p)).
Notation f := (hub_f q).
Notation chain c := (all_chains su).[c].

Lemma stripe_n : cfg_n cfg = n.
Proof. apply Hcfg. Qed.

Lemma width_facts : 1 <= w /\ T * w = bs /\ bs ÷ T = w /\ Z.rem bs T = 0.
Proof.
  destruct Hdiv as [m Hm]. assert (Ew : w = m) by (rewrite Hm; apply Z.div_mul; lia).
  assert (1 <= m) by nia. rewrite Ew. split; [lia|]. split; [lia|]. rewrite Hm, Z.quot_mul, Z.rem_mul by lia. auto.
Qed.

(** ** Geometry *)

Definition whole_view : PipelineShardView := {| global_begin := 0; local_count := T; global_S := T; stripe_len := w |}.

Lemma whole_view_resolved b gc : rb_shard_count b = T -> rb_global_begin b = 0 -> rb_global_count b = gc -> gc = T \/ gc = 0 ->
  resolve_pipeline_shard_view b bs T = whole_view.
Proof.
  intros E1 E2 E3 Hg. destruct width_facts as (W1 & W2 & W3 & W4). unfold resolve_pipeline_shard_view. rewrite E1, E2, E3, !Z.gtb_ltb.
  destruct (Z.ltb_spec 0 T); [|lia]. assert (Eg : (if 0 <? gc then gc else T) = T) by (destruct Hg as [->| ->]; destruct (Z.ltb_spec 0 T); lia || reflexivity).
  rewrite Eg, W3, W4, Z.add_0_l, Z.ltb_irrefl. unfold whole_view. destruct (Z.ltb_spec 0 T); [|lia]. reflexivity.
Qed.

Lemma chain_view i role j : view bs T (chain_request su i role j) = whole_view.
Proof.
  apply (whole_view_resolved _ T); cbn; auto; rewrite ?Z.gtb_ltb.
  - destruct (Z.ltb_spec 0 T); [reflexivity|lia].
  - destruct (Z.ltb_spec 0 T); [reflexivity|lia].
Qed.

Lemma hub_view : view bs T q = whole_view.
Proof. apply (whole_view_resolved _ 0); cbn; auto; rewrite Z.eqb_refl; reflexivity. Qed.

Lemma whole_geometry : valid_geometry whole_view bs = true /\ full_block_write whole_view = true.
Proof.
  destruct width_facts as (W1 & W2 & _). unfold valid_geometry, full_block_write, whole_view. cbn [local_count global_S stripe_len global_begin].
  rewrite !Z.gtb_ltb, Z.geb_leb, W2, !Z.eqb_refl. destruct (Z.ltb_spec 0 T), (Z.ltb_spec 0 w), (Z.leb_spec (0 + T) T); lia || auto.
Qed.

Lemma hub_dims : shards bs T q = T /\ width bs T q = w.
Proof. unfold shards, width. rewrite hub_view. auto. Qed.

Lemma chain_dims_whole i role j : shards bs T (chain_request su i role j) = shards bs T q /\ width bs T (chain_request su i role j) = width bs T q.
Proof. unfold shards, width. rewrite hub_view, chain_view. auto. Qed.

(** ** Nodes *)

Lemma lookup_known b : 0 <= b < n -> lookup.[b] =
  {| PipelinePlan.node_id := map2node (blocks s).[b]; PipelinePlan.datanode_ip := fst (replaced_node s t b); PipelinePlan.datanode_port := snd (replaced_node s t b);
     PipelinePlan.proxy_ip := repair_proxy_ip (node_of_block t (blocks s).[b]); PipelinePlan.proxy_port := repair_proxy_port (node_of_block t (blocks s).[b]);
     PipelinePlan.block_key := block_key (blocks s).[b] |}.
Proof.
  intros Hb. unfold pipeline_node_lookup. rewrite zget_map_zseq by exact Hb. pose proof stripe_n as En. rewrite Z.geb_leb, (ss_len _ _ _ _ _ _ Hst).
  destruct (Z.leb_spec (cfg_n cfg) b); [lia|]. pose proof (ss_nodes _ _ _ _ _ _ Hst b ltac:(lia)) as Hdom. apply elem_of_dom in Hdom as [nd Hnd'].
  unfold replaced_node, node_of_block, node_at. rewrite Hnd'. reflexivity.
Qed.

Lemma lookup_len : zlen lookup = n.
Proof. unfold pipeline_node_lookup. rewrite length_map, zlen_seqZ. destruct Hcfg. lia. Qed.

Lemma equations_range : Forall (fun e => 0 <= e < z + r) (selected_equation_indices rp).
Proof. apply Hsel. Qed.

Lemma chain_built i : 0 <= i < C -> exists slot, 0 <= equation_index (chain i) < z + r /\
  build_chain k r z (list_to_set failed) (all_equations_of k r z) hub lookup slot (equation_index (chain i)) = inl (chain i).
Proof.
  intros Hi. destruct Hcfg as (K1 & K2 & K3 & _).
  destruct (plan_chains_from k r z K1 K2 K3 failed hub lookup rp epoch p (chain i) equations_range Hhub Hhf Hbuild) as (slot & _ & H1 & H2); [|eauto].
  apply zget_In, Hi.
Qed.

Lemma chain_spec i : 0 <= i < C -> chain_from lookup hub (chain i) /\
  Forall (fun h => hop_coef h = (glrc_pipeline_build_coef_row k r z (equation_index (chain i))).[hop_block_id h]) (hops (chain i)) /\
  Forall (fun b => 0 <= b < n /\ b ∉ failed) (map hop_block_id (hops (chain i))) /\
  (hub_is_chain_tail (chain i) = true -> last (map hop_block_id (hops (chain i))) = Some hub).
Proof.
  intros Hi. destruct Hcfg as (K1 & K2 & K3 & _). destruct (chain_built i Hi) as (slot & He & Hb). split; [eapply build_chain_from; exact Hb|].
  destruct (build_chain_spec k r z K1 K2 K3 failed hub lookup slot _ _ He Hhub Hhf Hb) as (_ & _ & Hp & Hco & _ & _ & Ht). split; [exact Hco|]. split; [|exact Ht].
  apply Forall_forall. intros b Hbin. rewrite Hp in Hbin. apply list_elem_of_In, survivors_spec in Hbin as [Hbin Hbf]. split; [|exact Hbf].
  apply (involved_range k r z K1 K2 K3 _ b He Hbin).
Qed.

(** What hop [j] of chain [i] reads. *)
Definition hop_source (i j : Z) : block := stripe.[hop_block_id (hops (chain i)).[j]].

Lemma hop_known i j : 0 <= i < C -> 0 <= j < zlen (hops (chain i)) -> let h := (hops (chain i)).[j] in let b := hop_block_id h in
  0 <= b < n /\ b ∉ failed /\ hop_block_key h = block_key (blocks s).[b] /\ (hop_datanode_ip h, hop_datanode_port h) = replaced_node s t b /\
  hop_proxy_ip h = repair_proxy_ip (node_of_block t (blocks s).[b]) /\ hop_proxy_port h = repair_proxy_port (node_of_block t (blocks s).[b]).
Proof.
  intros Hi Hj h b. destruct (chain_spec i Hi) as ([Hfrom _ _ _ _] & _ & Hids & _). rewrite Forall_forall in Hfrom. rewrite Forall_forall in Hids.
  destruct (Hfrom h) as (F1 & F2 & F3 & F4 & F5); [apply list_elem_of_In, zget_In, Hj|].
  destruct (Hids b) as [B1 B2]; [apply list_elem_of_In, in_map, zget_In, Hj|]. fold b in F1, F2, F3, F4, F5. rewrite (lookup_known b B1) in *.
  cbn in *. rewrite F1, F2, F3, F4, F5. auto 10.
Qed.

(** ** The lost blocks *)

Notation hf := (hub_failed_ids failed p).
Definition lost_key (b : Z) : string := block_key (blocks s).[b].

Lemma filter_zip {A B} (P : Z -> bool) (g : Z -> A) (h : Z -> B) l :
  List.filter (fun x => P (fst x)) (zip l (zip (map g l) (map h l))) = map (fun b => (b, (g b, h b))) (List.filter P l).
Proof. induction l as [|b l IH]; [reflexivity|]. cbn. destruct (P b); cbn; rewrite IH; reflexivity. Qed.

Lemma hub_lost_eq : hub_lost su = map (fun b => (b, (lost_key b, replaced_node s t b))) hf.
Proof.
  unfold hub_lost, hub_failed_ids. cbn [su_plan su_base pipeline_setup make_base_request rb_failed_ids rb_failed_keys rb_replaced].
  pose proof (filter_zip (fun b => negb (bool_decide (b ∈ local_direct_failed p))) lost_key (replaced_node s t) failed) as E. exact E.
Qed.

Lemma hub_targets : rb_failed_ids (rq_base q) = hf /\ rb_failed_keys (rq_base q) = map lost_key hf /\ rb_replaced (rq_base q) = map (replaced_node s t) hf /\ f = zlen hf.
Proof.
  unfold hub_f, hub_request, fill_hub_fields. cbn [rq_base rb_failed_ids rb_failed_keys rb_replaced]. rewrite hub_lost_eq, !map_map. cbn [fst snd].
  rewrite map_id. auto.
Qed.

(** The block of target [a]: first the hub's, then the sinks'. *)
Definition target_id (a : Z) : Z := if a <? f then hf.[a] else local_direct_failed_block_id (local_direct_chains p).[a - f].

Lemma chain_of_sink j : 0 <= j < J -> 0 <= H + j < C /\ chain (H + j) = (local_direct_chains p).[j] /\ In (local_direct_chains p).[j] (local_direct_chains p).
Proof.
  intros Hj. assert (EC : C = H + J) by apply (all_chains_len su). unfold hub_count in *. split; [lia|]. split; [|apply zget_In, Hj].
  unfold all_chains. cbn [su_plan pipeline_setup] in *. rewrite zget_app by lia. destruct (Z.ltb_spec (zlen (hub_chains p) + j) (zlen (hub_chains p))); [lia|]. f_equal. lia.
Qed.

Lemma chain_of_hub i : 0 <= i < H -> 0 <= i < C /\ chain i = (hub_chains p).[i] /\ In (hub_chains p).[i] (hub_chains p).
Proof.
  intros Hi. assert (EC : C = H + J) by apply (all_chains_len su). unfold hub_count in *. split; [lia|]. cbn [su_plan pipeline_setup] in *. split; [|apply zget_In, Hi].
  unfold all_chains. cbn [su_plan pipeline_setup]. rewrite zget_app by lia. destruct (Z.ltb_spec i (zlen (hub_chains p))); [reflexivity|lia].
Qed.

Lemma plan_range : Forall (fun b => 0 <= b < n) failed.
Proof. rewrite <- stripe_n. exact Hrg. Qed.

Lemma direct_chain j : 0 <= j < J -> let ch := (local_direct_chains p).[j] in let b := local_direct_failed_block_id ch in
  local_direct ch = true /\ hub_is_chain_tail ch = false /\ b ∈ failed /\ 0 <= b < n /\
  local_direct_failed_block_key ch = lost_key b /\ (local_direct_replaced_ip ch, local_direct_replaced_port ch) = replaced_node s t b /\
  local_direct_sink_proxy_ip ch = repair_proxy_ip (node_of_block t (blocks s).[b]) /\
  local_direct_sink_proxy_port ch = repair_proxy_port (node_of_block t (blocks s).[b]) /\ local_direct_sink_proxy_ip ch <> ""%string.
Proof.
  intros Hj ch b. destruct Hcfg as (K1 & K2 & K3 & _). destruct (chain_of_sink j Hj) as (Hc & Ec & Hin). fold ch in Ec, Hin.
  destruct (direct_facts k r z K1 K2 K3 failed hub lookup rp epoch p ch equations_range Hhub Hhf Hbuild Hin) as (_ & _ & D1 & D2 & _).
  destruct (plan_chains_split k r z failed hub lookup rp epoch p Hbuild) as (chains & _ & _ & El & _).
  assert (Hld : local_direct ch = true) by (rewrite El in Hin; apply filter_In in Hin; apply Hin).
  destruct (chain_spec (H + j) Hc) as ([F1 F2 F3 F4 F5] & _). rewrite Ec in *. destruct (F3 Hld) as (G1 & G2 & G3 & G4 & G5 & G6 & G7). fold b in G1, G2, G3, G4, G5, G6.
  rewrite (lookup_known b D2) in *. cbn in G2, G3, G4, G5, G6.
  split; [exact Hld|]. split; [destruct (hub_is_chain_tail ch); [discriminate (eq_trans (eq_sym Hld) (F2 eq_refl))|reflexivity]|].
  do 2 (split; [assumption|]). split; [exact G2|]. split; [unfold replaced_node; rewrite G3, G4; reflexivity|]. auto.
Qed.

Lemma target_facts a : 0 <= a < f + J -> target_id a ∈ failed /\ 0 <= target_id a < n /\
  repair_node su a = replaced_node s t (target_id a) /\ repair_key su a = lost_key (target_id a).
Proof.
  intros Ha. destruct hub_targets as (E1 & E2 & E3 & E4). unfold target_id, repair_node, repair_key. destruct (Z.ltb_spec a f) as [Hlt|Hge].
  - rewrite E2, E3, !zget_map by lia. assert (Hin : hf.[a] ∈ hf) by (apply list_elem_of_In, zget_In; lia).
    apply hub_lost_in in Hin as [Hin _]. pose proof plan_range as Hr. rewrite Forall_forall in Hr. auto.
  - assert (Hj : 0 <= a - f < J) by lia. destruct (direct_chain (a - f) Hj) as (D1 & D2 & D3 & D4 & D5 & D6 & _). destruct (chain_of_sink (a - f) Hj) as (_ & Ec & _).
    unfold sink_request, chain_request, fill_pipeline_chain_fields. cbn [rq_chain rc_local_replaced_node rc_local_failed_block_key].
    rewrite Ec, D1, D5, D6. auto.
Qed.

Lemma target_distinct a b : 0 <= a < f + J -> 0 <= b < f + J -> target_id a = target_id b -> a = b.
Proof.
  intros Ha Hb E. destruct hub_targets as (_ & _ & _ & E4). destruct Hcfg as (K1 & K2 & K3 & _).
  pose proof (direct_distinct k r z K1 K2 K3 failed hub lookup rp epoch p Hsel Hhub Hhf Hbuild) as Hdd.
  assert (Hdis : forall i j, 0 <= i < f -> 0 <= j < J -> hf.[i] <> local_direct_failed_block_id (local_direct_chains p).[j]).
  { intros i j Hi Hj E'. assert (Hin : hf.[i] ∈ hf) by (apply list_elem_of_In, zget_In; lia). apply hub_lost_in in Hin as [_ Hin].
    apply Hin, direct_lost. exists (local_direct_chains p).[j]. split; [apply zget_In, Hj|exact E']. }
  unfold target_id in E. destruct (Z.ltb_spec a f), (Z.ltb_spec b f).
  - apply (zget_inj hf); [apply NoDup_ListNoDup, List.NoDup_filter, NoDup_ListNoDup, Hnd|lia|lia|exact E].
  - exfalso. eapply Hdis; [..|exact E]; lia.
  - exfalso. eapply Hdis; [..|symmetry; exact E]; lia.
  - assert (a - f = b - f); [|lia]. apply (zget_inj (map local_direct_failed_block_id (local_direct_chains p)) _ _ Hdd); [rewrite length_map; lia..|].
    rewrite !zget_map by lia. exact E.
Qed.

(** Every lost block is a target. *)
Lemma target_all b : b ∈ failed -> exists a, 0 <= a < f + J /\ target_id a = b.
Proof.
  intros Hb. destruct hub_targets as (_ & _ & _ & E4). destruct (decide (b ∈ local_direct_failed p)) as [Hl|Hl].
  - apply direct_lost in Hl as (ch & Hin & ->). apply In_zget in Hin as (j & Hj & <-). exists (f + j). split; [lia|].
    unfold target_id. destruct (Z.ltb_spec (f + j) f); [lia|]. replace (f + j - f) with j by lia. reflexivity.
  - assert (Hin : b ∈ hf) by (apply hub_lost_in; auto). apply list_elem_of_In, In_zget in Hin as (a & Ha & <-). exists a. split; [lia|].
    unfold target_id. destruct (Z.ltb_spec a f); [reflexivity|lia].
Qed.

Lemma targets_apart a b : 0 <= a < f + J -> 0 <= b < f + J -> repair_node su a = repair_node su b -> a = b.
Proof.
  intros Ha Hb E. destruct (target_facts a Ha) as (_ & A2 & A3 & _), (target_facts b Hb) as (_ & B2 & B3 & _). pose proof stripe_n.
  apply target_distinct; auto. apply (ss_apart _ _ _ _ _ _ Hst); [lia|lia|congruence].
Qed.

(** ** What is read *)

Notation untouched := (intact (f + J) (repair_node su) st).

Lemma whole_read q0 st' b : view bs T q0 = whole_view -> untouched st' -> 0 <= b < n -> b ∉ failed ->
  datanode_stream bs T q0 (block_key (blocks s).[b]) (replaced_node s t b) st' = stripe.[b].
Proof.
  intros Ev Hi Hb Hbf. destruct width_facts as (W1 & W2 & _). pose proof stripe_n as En. rewrite <- En in Hb.
  assert (Hl : zlen stripe.[b] = bs) by apply (ss_size _ _ _ _ _ _ Hst _ Hb).
  assert (EF : files_at (fst (replaced_node s t b)) (snd (replaced_node s t b)) st' = files_at (fst (replaced_node s t b)) (snd (replaced_node s t b)) st).
  { apply Hi. intros a Ha E. destruct (target_facts a Ha) as (A1 & A2 & A3 & _). rewrite A3 in E. rewrite <- En in A2.
    apply (ss_apart _ _ _ _ _ _ Hst) in E; [|assumption..]. subst b. contradiction. }
  unfold datanode_stream, shards, width. rewrite EF, Ev. unfold byte_off, global_shard, whole_view. cbn [global_begin local_count stripe_len].
  destruct (handleGetBreakdown_spec (block_key (blocks s).[b]) bs 0 bs (files_at (fst (replaced_node s t b)) (snd (replaced_node s t b)) st) stripe.[b]) as [E _];
    [apply (Hsurv b Hb Hbf)|lia|lia|].
  rewrite W2. change ((0 + 0) * w) with 0. rewrite E by lia. cbn [fst]. unfold zdrop. cbn [Z.to_nat]. rewrite drop_0. apply ztake_all. lia.
Qed.

Lemma hops_some i : 0 <= i < C -> 0 < zlen (hops (chain i)) /\ (i < H -> 2 <= zlen (hops (chain i))).
Proof.
  intros Hi. assert (EC : C = H + J) by apply (all_chains_len su). destruct (Z.lt_ge_cases i H) as [Hlt|Hge].
  - destruct (chain_of_hub i ltac:(lia)) as (_ & _ & Hin). assert (2 <= zlen (hops (chain i))); [|lia].
    destruct (chain_of_hub i ltac:(lia)) as (_ & -> & _). rewrite Forall_forall in Hhops. apply Hhops, list_elem_of_In, Hin.
  - split; [|lia]. destruct (chain_of_sink (i - H) ltac:(lia)) as (_ & E & _). replace (H + (i - H)) with i in E by lia.
    destruct (direct_chain (i - H) ltac:(lia)) as (Hld & _). rewrite <- E in Hld. destruct (chain_spec i Hi) as ([_ _ _ _ F5] & _). auto.
Qed.

Lemma roles_in_chain i : 0 <= i < C -> role_count su i <= zlen (hops (chain i)) /\
  (hub_is_chain_tail (chain i) = true -> i < H -> role_count su i = zlen (hops (chain i)) - 1) /\
  (hub_is_chain_tail (chain i) = false -> role_count su i = zlen (hops (chain i))).
Proof.
  intros Hi. destruct (hops_some i Hi) as [H1 H2]. unfold role_count, last_hop_server. destruct (hub_is_chain_tail _); repeat split; try discriminate; lia.
Qed.

Lemma role_view i j : view bs T (role_request su i j) = whole_view.
Proof. unfold role_request. destruct (j =? 0); apply chain_view. Qed.

Lemma nth_zget {A} `{Inhabited A} (d : A) l j : 0 <= j < zlen l -> nth (Z.to_nat j) l d = l.[j].
Proof. intros Hj. destruct (lookup_lt_is_Some_2 l (Z.to_nat j) ltac:(lia)) as [x Hx]. rewrite (zget_Some l j x) by (lia || exact Hx). apply nth_lookup_Some, Hx. Qed.

(** Every role reads its block. *)
Lemma roles_read st' i j : untouched st' -> 0 <= i < C -> 0 <= j < role_count su i -> source_ok bs T (role_request su i) (hop_source i) st' j.
Proof.
  intros Hu Hi Hj. destruct (roles_in_chain i Hi) as [Hr _]. destruct (hop_known i j Hi ltac:(lia)) as (B1 & B2 & B3 & B4 & _).
  unfold source_ok, hop_source. set (b := hop_block_id _) in *.
  rewrite <- (whole_read (role_request su i j) st' b (role_view i j) Hu B1 B2). f_equal.
  - rewrite <- B3. unfold hop_key. rewrite nth_zget by (unfold role_request; destruct (j =? 0); cbn; rewrite length_map; lia).
    unfold role_request. destruct (j =? 0); cbn; rewrite zget_map by lia; reflexivity.
  - rewrite <- B4. unfold hop_node. rewrite nth_zget by (unfold role_request; destruct (j =? 0); cbn; rewrite length_map; lia).
    unfold role_request. destruct (j =? 0); cbn; rewrite zget_map by lia; reflexivity.
Qed.

Lemma source_len i j : 0 <= i < C -> 0 <= j < role_count su i -> zlen (hop_source i j) = shards bs T q * width bs T q.
Proof.
  intros Hi Hj. destruct hub_dims as [-> ->], width_facts as (_ & W2 & _). rewrite W2. destruct (roles_in_chain i Hi) as [Hr _].
  destruct (hop_known i j Hi ltac:(lia)) as (B1 & _). apply (ss_size _ _ _ _ _ _ Hst). rewrite stripe_n. exact B1.
Qed.

(** So does the hub. *)
Lemma hub_reads st' : untouched st' -> hub_source_ok bs T q stripe.[hub] st'.
Proof.
  intros Hu node _ E. destruct (plan_chains_split k r z failed hub lookup rp epoch p Hbuild) as (chains & _ & _ & _ & _ & _ & E3 & E4 & E5 & _).
  unfold hub_request, fill_hub_fields in E |- *. cbn [rq_hub_datanode rq_hub_block_key su_plan pipeline_setup] in *. injection E as <-.
  rewrite E3, E4, E5, (lookup_known hub Hhub). cbn [PipelinePlan.block_key PipelinePlan.datanode_ip PipelinePlan.datanode_port]. rewrite <- (surjective_pairing (replaced_node s t hub)). apply whole_read; [apply hub_view|assumption..].
Qed.

(** ** What arrives *)

Definition term (i g x j : Z) : byte := let h := (hops (chain i)).[j] in hop_coef h ⊗ stripe.[hop_block_id h].[g * w + x].

Lemma role_coef i j j' : 0 <= j' < zlen (hops (chain i)) -> hop_coef_at (role_request su i j) j' = hop_coef (hops (chain i)).[j'].
Proof.
  intros Hj. unfold hop_coef_at, role_request. destruct (j =? 0); cbn; rewrite length_map, Z.gtb_ltb; destruct (Z.ltb_spec j' (zlen (hops (chain i)))); try lia;
    rewrite zget_map by lia; reflexivity.
Qed.

(** A chain sends the weighted sum of its blocks. *)
Lemma chain_value i g x : 0 <= i < C -> 0 <= g -> 0 <= x < w ->
  zlen (cv su hop_source i g) = w /\ (cv su hop_source i g).[x] = xsum (role_count su i) (term i g x).
Proof.
  intros Hi Hg Hx. destruct (roles_in_chain i Hi) as [Hr _]. pose proof (role_count_pos su i) as Hp.
  destruct (role_sum bs T (role_request su i) (hop_source i) (fun j => hop_coef (hops (chain i)).[j]) w (role_count su i) (role_count su i - 1) g x) as [E1 E2]; auto; try lia.
  - intros j _. unfold width. rewrite role_view. reflexivity.
  - apply role_coef. lia.
  - intros j Hj. replace (my_hop (role_request su i j)) with j; [apply role_coef; lia|]. unfold role_request. destruct (Z.eqb_spec j 0); [lia|reflexivity].
  - split; [exact E1|]. replace (role_count su i - 1 + 1) with (role_count su i) in E2 by lia. exact E2.
Qed.

Lemma last_hop i : 0 <= i < C -> hub_is_chain_tail (chain i) = true -> let h := (hops (chain i)).[zlen (hops (chain i)) - 1] in
  last (hops (chain i)) = Some h /\ hop_block_id h = hub.
Proof.
  intros Hi Ht h. destruct (hops_some i Hi) as [Hl _]. destruct (chain_spec i Hi) as (_ & _ & _ & Hlast). specialize (Hlast Ht).
  assert (E : last (hops (chain i)) = Some h).
  { rewrite last_lookup. replace (pred (length (hops (chain i)))) with (Z.to_nat (zlen (hops (chain i)) - 1)) by lia. apply zget_lookup. lia. }
  split; [exact E|]. rewrite fmap_last, E in Hlast. injection Hlast as E'. exact E'.
Qed.

(** With the hub's share it is the whole surviving part of the equation. *)
Lemma rhs_value i g : 0 <= i < H -> 0 <= g < T ->
  rv bs T q stripe.[hub] (cv su hop_source) i g = run_chain GLOBAL_CAUCHY w (chain_inputs stripe (g * w) (chain i)).
Proof.
  intros Hi Hg. destruct (chain_of_hub i Hi) as (Hc & Ec & _). destruct width_facts as (W1 & W2 & _). destruct hub_dims as [_ Ew].
  destruct (roles_in_chain i Hc) as (_ & R1 & R2). destruct (hops_some i Hc) as [HL HL2]. specialize (HL2 (proj2 Hi)).
  assert (Hl : zlen (rv bs T q stripe.[hub] (cv su hop_source) i g) = w /\ forall x, 0 <= x < w ->
            (rv bs T q stripe.[hub] (cv su hop_source) i g).[x] = xsum (zlen (hops (chain i))) (term i g x)).
  { unfold rv, needs_tail_local. rewrite Ew. unfold hub_request, fill_hub_fields. cbn [rq_hub_chains su_plan pipeline_setup su_z].
    rewrite zget_map by exact Hi. rewrite <- Ec. unfold hub_chain_fields. cbn [hc_is_tail hc_hub_coef].
    assert (HV : zlen (cv su hop_source i g) = w) by (apply (chain_value i g 0 Hc); lia).
    destruct (hub_is_chain_tail (chain i)) eqn:Et; cbn [andb].
    - destruct (last_hop i Hc Et) as [E1 E2]. rewrite E1. set (h := (hops (chain i)).[_]) in *.
      assert (Hlast : forall x, 0 <= x < w -> xsum (zlen (hops (chain i))) (term i g x) = xsum (role_count su i) (term i g x) ⊕ hop_coef h ⊗ stripe.[hub].[g * w + x]).
      { intros x Hx. rewrite (R1 eq_refl (proj2 Hi)). replace (zlen (hops (chain i))) with (zlen (hops (chain i)) - 1 + 1) at 1 by lia.
        rewrite xsum_succ by lia. unfold term at 2. fold h. rewrite E2. reflexivity. }
      destruct (byte_eqb_spec (hop_coef h) x00) as [E0|E0]; cbn [negb].
      + split; [exact HV|]. intros x Hx. rewrite Hlast, E0 by exact Hx. destruct (chain_value i g x Hc ltac:(lia) Hx) as [_ ->]. ring.
      + match goal with |- context [glrc_pipeline_accumulate_range ?a ?b ?c ?d ?e] => destruct (accumulate_range_spec a b c d e) as [A1 A2]; [lia|] end.
        split; [lia|]. intros x Hx. rewrite A2, Hlast by lia. destruct (Z.ltb_spec x w); [|lia].
        destruct (chain_value i g x Hc ltac:(lia) Hx) as [_ ->]. rewrite peek_get by nia. reflexivity.
    - split; [exact HV|]. intros x Hx. rewrite <- (R2 eq_refl). apply chain_value; auto; lia. }
  destruct Hl as [Hl Hx]. destruct (chain_sum GLOBAL_CAUCHY w stripe (g * w) (chain i) 0 ltac:(nia) ltac:(lia)) as [Hl' _].
  apply zlist_ext; [lia|]. rewrite Hl. intros x Hxr. rewrite Hx by exact Hxr.
  destruct (chain_sum GLOBAL_CAUCHY w stripe (g * w) (chain i) x ltac:(nia) Hxr) as [_ ->]. reflexivity.
Qed.

Lemma rhs_values g : 0 <= g < T -> map (fun i => rv bs T q stripe.[hub] (cv su hop_source) i g) (zseq (hub_chain_n q)) = hub_rhs GLOBAL_CAUCHY stripe (g * w) w p.
Proof.
  intros Hg. rewrite hub_chain_count. unfold hub_rhs. apply zlist_ext.
  - rewrite !length_map, zlen_seqZ. unfold hub_count. cbn. lia.
  - rewrite length_map, zlen_seqZ. intros i Hi. rewrite Z.max_r in Hi by (unfold hub_count in *; lia). rewrite zget_map_zseq by lia. rewrite rhs_value by (assumption || lia).
    rewrite zget_map by exact Hi. destruct (chain_of_hub i ltac:(lia)) as (_ & -> & _). reflexivity.
Qed.

(** ** What the hub decodes *)

Definition hub_inverse : list byte := default [] (hub_admit bs T k r z q).
Definition hub_rec (g : Z) : list block := map (fun b => peek w (g * w) stripe.[b]) hf.

Lemma hub_size : f = H /\ zlen hf = H.
Proof.
  destruct hub_targets as (_ & _ & _ & E). pose proof Hcfg as (K1 & K2 & K3 & _).
  pose proof (hub_system_size k r z K1 K2 K3 failed hub lookup rp epoch p Hnd Hsel Hhub Hhf Hbuild) as E2.
  unfold hub_equations in E2. rewrite length_map in E2. unfold hub_count. cbn [su_plan pipeline_setup]. lia.
Qed.

Lemma hub_valid : valid_system k r z hf (hub_equations p).
Proof. destruct Hcfg as (K1 & K2 & K3 & _). exact (hub_system_valid k r z K1 K2 K3 failed hub lookup rp epoch p Hnd plan_range Hsel Hhub Hhf Hbuild). Qed.

Lemma hub_decode : 0 < H -> hub_admit bs T k r z q = Some hub_inverse /\ forall g, 0 <= g < T ->
  decode_glrc_ilp_rhs_compact (map (fun i => rv bs T q stripe.[hub] (cv su hop_source) i g) (zseq (hub_chain_n q))) hub_inverse f w = Some (hub_rec g).
Proof.
  intros HH. destruct hub_size as [Ef Ehf], hub_targets as (E1 & _), width_facts as (W1 & W2 & _). pose proof Hcfg as (K1 & K2 & K3 & _).
  assert (HR : forall g, 0 <= g < T -> exists rec, hub_recover k r z failed p (hub_rhs GLOBAL_CAUCHY stripe (g * w) w p) w = Some rec /\
            restored hf stripe w (g * w) (g * w + w) (g * w) rec).
  { intros g Hg. apply (hub_restores k r z K1 K2 K3 failed hub lookup Hhub Hhf rp epoch p GLOBAL_CAUCHY stripe (g * w) w); auto.
    - apply equations_range.
    - apply hub_valid.
    - intros E. rewrite E in Ehf. cbn in Ehf. lia.
    - apply (hub_system_regular k r z K1 K2 K3 failed hub lookup rp epoch p Hnd plan_range Hsel Hhub Hhf Hbuild).
    - apply stripe_of_encoded; auto; [lia|nia].
    - nia.
    - lia. }
  assert (HA : hub_admit bs T k r z q = glrc_ilp_prepare_inverse k r z hf (ztake (zlen hf) (hub_equations p))).
  { unfold hub_admit. rewrite hub_view, (proj1 whole_geometry), E1, Ef, hub_chain_count, Ehf. destruct (Z.leb_spec H 0); [lia|]. reflexivity. }
  assert (HD : hub_admit bs T k r z q = Some hub_inverse /\ forall rhs g, hub_recover k r z failed p rhs w = Some g -> decode_glrc_ilp_rhs_compact rhs hub_inverse f w = Some g).
  { unfold hub_inverse. rewrite HA. destruct (HR 0 ltac:(lia)) as (rec & E & _). rewrite Ef, <- Ehf. revert E. unfold hub_recover.
    destruct (Z.leb_spec (zlen hf) 0); [lia|]. destruct (_ <=? 0); [discriminate|]. cbn [orb].
    destruct (glrc_ilp_prepare_inverse _ _ _ _ _) as [inv|]; [|discriminate]. split; [reflexivity|auto]. }
  split; [apply HD|]. intros g Hg. rewrite rhs_values by exact Hg. destruct (HR g Hg) as (rec & E & L & HV). rewrite (proj2 HD _ _ E). f_equal.
  unfold hub_rec. apply zlist_ext; [rewrite length_map; exact L|]. rewrite L. intros a Ha. rewrite zget_map by exact Ha. destruct (HV a Ha) as [L2 E2].
  pose proof (Forall_zget _ _ _ (vs_failed _ _ _ _ _ hub_valid) Ha) as Hb. cbv beta in Hb.
  pose proof (ss_size _ _ _ _ _ _ Hst hf.[a]) as Hs. rewrite stripe_n in Hs. specialize (Hs Hb).
  apply zlist_ext; [rewrite peek_len by nia; exact L2|]. rewrite L2. intros x Hx. rewrite peek_get by nia.
  specialize (E2 (g * w + x) ltac:(lia)). replace (g * w + x - g * w) with x in E2 by lia. exact E2.
Qed.

(** ** What is stored *)

(** A local chain delivers its block times its coefficient in the local
    equation. *)
Definition local_block (b : Z) : block := map (fun x => glrc_local_block_coefficient b k r ⊗ x) stripe.[b].
Definition sink_block (j : Z) : block := local_block (local_direct_failed_block_id (local_direct_chains p).[j]).

(** What the repair stores for a lost block. *)
Definition delivered (b : Z) : block := if bool_decide (b ∈ local_direct_failed p) then local_block b else stripe.[b].

Lemma sink_len j : 0 <= j < J -> zlen (sink_block j) = bs.
Proof.
  intros Hj. destruct (direct_chain j Hj) as (_ & _ & _ & Hb & _). unfold sink_block, local_block. rewrite length_map.
  apply (ss_size _ _ _ _ _ _ Hst). rewrite stripe_n. exact Hb.
Qed.

Lemma sink_value j g : 0 <= j < J -> 0 <= g < T -> peek w (g * w) (sink_block j) = cv su hop_source (H + j) g.
Proof.
  intros Hj Hg. destruct (direct_chain j Hj) as (Hld & Ht & _ & Hb & _), (chain_of_sink j Hj) as (Hc & Ec & Hin). destruct width_facts as (W1 & W2 & _).
  destruct (chain_built (H + j) Hc) as (slot & He & Hbuilt). rewrite Ec in Hbuilt, He. destruct (roles_in_chain (H + j) Hc) as (_ & _ & R2). rewrite Ec in R2. specialize (R2 Ht).
  set (b := local_direct_failed_block_id _) in Hb. pose proof Hcfg as (K1 & K2 & K3 & _). pose proof (ss_size _ _ _ _ _ _ Hst b ltac:(rewrite stripe_n; exact Hb)) as Hl.
  assert (Hsb : zlen (sink_block j) = bs) by apply sink_len, Hj.
  destruct (chain_value (H + j) g 0 Hc ltac:(lia) ltac:(lia)) as [Hv _].
  apply zlist_ext; [rewrite peek_len by nia; lia|]. rewrite peek_len by nia. intros x Hx. rewrite peek_get by nia.
  destruct (chain_value (H + j) g x Hc ltac:(lia) Hx) as [_ ->]. unfold sink_block, local_block. rewrite zget_map by (fold b; nia).
  rewrite <- (local_direct_result k r z K1 K2 K3 failed hub lookup slot _ _ GLOBAL_CAUCHY stripe bs (g * w) w x He Hhub Hhf); auto; try nia.
  - rewrite R2. destruct (chain_sum GLOBAL_CAUCHY w stripe (g * w) (local_direct_chains p).[j] x ltac:(nia) Hx) as [_ ->].
    apply xsum_ext. intros i Hi. unfold term. rewrite Ec. reflexivity.
  - apply stripe_of_encoded; auto; lia.
Qed.

Lemma delivered_target a : 0 <= a < f + J -> repair_block su (fun t => stripe.[hf.[t]]) sink_block a = delivered (target_id a).
Proof.
  intros Ha. destruct hub_targets as (_ & _ & _ & E4). unfold repair_block, delivered, target_id. destruct (Z.ltb_spec a f).
  - rewrite bool_decide_false; [reflexivity|]. assert (Hin : hf.[a] ∈ hf) by (apply list_elem_of_In, zget_In; lia). apply hub_lost_in in Hin as [_ Hn]. exact Hn.
  - rewrite bool_decide_true; [reflexivity|]. apply direct_lost. eexists. split; [|reflexivity]. apply zget_In. lia.
Qed.

(** ** The session of the plan *)

Lemma width_fact : 1 <= width bs T q.
Proof. destruct hub_dims as [_ ->]. apply width_facts. Qed.

Lemma shards_fact : 1 <= shards bs T q < 2 ^ 31.
Proof. destruct hub_dims as [-> _], width_facts as (W1 & W2 & _). nia. Qed.

Lemma bytes_fact : shards bs T q * width bs T q = bs.
Proof. destruct hub_dims as [-> ->]. apply width_facts. Qed.

Lemma views_fact c0 role i : 0 <= c0 < C ->
  shards bs T (chain_request su c0 role i) = shards bs T q /\ width bs T (chain_request su c0 role i) = width bs T q.
Proof. intros _. apply chain_dims_whole. Qed.

Lemma block_fact : any_hub_local_read q = true -> zlen stripe.[hub] = shards bs T q * width bs T q.
Proof. intros _. rewrite bytes_fact. apply (ss_size _ _ _ _ _ _ Hst). rewrite stripe_n. exact Hhub. Qed.

Lemma decode_fact : 0 < H -> forall g, 0 <= g < shards bs T q ->
  decode_glrc_ilp_rhs_compact (map (fun i => rv bs T q stripe.[hub] (cv su hop_source) i g) (zseq (hub_chain_n q))) hub_inverse f (width bs T q) = Some (hub_rec g).
Proof. destruct hub_dims as [-> ->]. intros HH. apply hub_decode, HH. Qed.

Lemma targets_fact a : 0 <= a < f -> zlen stripe.[hf.[a]] = shards bs T q * width bs T q /\
  forall g, 0 <= g < shards bs T q -> peek (width bs T q) (g * width bs T q) stripe.[hf.[a]] = (hub_rec g).[a].
Proof.
  intros Ha. destruct hub_dims as [-> ->], hub_targets as (_ & _ & _ & Ef), width_facts as (_ & -> & _). split.
  - apply (ss_size _ _ _ _ _ _ Hst). rewrite stripe_n. apply (Forall_zget _ _ _ (vs_failed _ _ _ _ _ hub_valid)). lia.
  - intros g _. unfold hub_rec. rewrite zget_map by lia. reflexivity.
Qed.

Lemma sinks_fact j : 0 <= j < J -> zlen (sink_block j) = shards bs T q * width bs T q /\
  forall g, 0 <= g < shards bs T q -> peek (width bs T q) (g * width bs T q) (sink_block j) = cv su hop_source (H + j) g.
Proof.
  intros Hj. rewrite bytes_fact. split; [apply sink_len, Hj|]. destruct hub_dims as [-> ->]. intros g Hg. apply sink_value; assumption.
Qed.

Notation start proxies l := (start_session su proxies (hub_admit bs T k r z q) l st).
Notation step := (session_step su hub_inverse).
Notation ok l reg := (pipeline_ok su l hop_source stripe.[hub] hub_rec (fun a => stripe.[hf.[a]]) sink_block st reg).
Ltac facts := first [exact width_fact|exact shards_fact|exact bytes_fact|exact views_fact|exact source_len|exact block_fact|exact decode_fact|exact targets_fact
  |exact sinks_fact|exact targets_apart|exact roles_read|exact hub_reads|idtac].

Lemma started proxies l reg : (reg = true -> startable su proxies (hub_admit bs T k r z q) /\ ports_ok su l) -> exists A R Tk En, ok l reg A R Tk En (start proxies l).
Proof.
  intros Hreg. do 4 eexists. apply start_session_ok; facts; [|exact Hreg].
  intros H0. unfold hub_admit. destruct hub_size as [-> _]. rewrite H0. reflexivity.
Qed.

Lemma ran proxies l v : rtc (fun a b => exists fault, step fault a b) (start proxies l) v -> exists A R Tk En, ok l false A R Tk En v.
Proof. apply pipeline_run_ok; facts. apply started. discriminate. Qed.

Lemma runs_end proxies : exists N, forall l m v, nsteps (fun a b => exists fault, step fault a b) m (start proxies l) v -> (m <= N)%nat.
Proof.
  exists (Z.to_nat (pipeline_weight su (start proxies ∅))). intros l m v Hr. destruct (started proxies l false ltac:(discriminate)) as (A & R & Tk & En & HS).
  pose proof Hr as Hb. eapply pipeline_bounded in Hb; facts; [|exact HS]. change (pipeline_weight su (start proxies l)) with (pipeline_weight su (start proxies ∅)) in Hb. lia.
Qed.

Lemma stored_effect l reg A R Tk En v (done : bool) : ok l reg A R Tk En v -> (done = true -> forall a, 0 <= a < f + J -> repair_result su v a = Some true) ->
  pipelined_effect s t delivered failed done st (storage v).
Proof.
  intros HS Hd. destruct (se_storage _ _ _ _ _ _ _ _ _ _ _ _ _ _ HS) as [H1 H2]. split.
  - intros nd Hn. apply H1. intros a Ha E. destruct (target_facts a Ha) as (A1 & _ & A3 & _). apply Hn. rewrite E, A3. apply list_elem_of_In, in_map, list_elem_of_In, A1.
  - intros b Hb nd. destruct (target_all b Hb) as (a & Ha & Ea). destruct (target_facts a Ha) as (_ & _ & A3 & A4). specialize (H2 a Ha).
    unfold target_files in H2. rewrite delivered_target, A3, A4, Ea in H2 by exact Ha. fold nd in H2. cbv zeta in H2. unfold lost_key in H2.
    destruct (repair_result su v a) as [d|] eqn:Er.
    + destruct H2 as (tag & [W1 W2 W3]). exists tag. split; auto. intros Hdone. apply W2. specialize (Hd Hdone a Ha). congruence.
    + exists ""%string. rewrite H2. destruct done; [specialize (Hd eq_refl a Ha); congruence|apply write_effect_refl].
Qed.

(** The hub and the sinks are among the calls. *)
Lemma calls_all : (0 < H -> CallHub ∈ pipeline_calls su) /\ forall j, 0 <= j < J -> CallSink j ∈ pipeline_calls su.
Proof.
  unfold pipeline_calls. split.
  - intros HH. destruct (Z.eqb_spec H 0); [lia|]. apply elem_of_app. left. left.
  - intros j Hj. do 2 (apply elem_of_app; right). apply list_elem_of_In, in_concat. exists (CallSink j :: chain_calls su (H + j)). split; [|left; reflexivity].
    apply in_map_iff. exists j. split; [reflexivity|]. apply in_zseq. exact Hj.
Qed.

Lemma all_stored l reg A R Tk En answered v : ok l reg A R Tk En v -> (forall call, call ∈ pipeline_calls su -> call_ok answered v call = true) ->
  forall a, 0 <= a < f + J -> repair_result su v a = Some true.
Proof.
  intros HS Hall. destruct calls_all as [C1 C2]. assert (Hret : forall call, call ∈ pipeline_calls su -> call_returned v call = Some true).
  { intros call Hc. specialize (Hall call Hc). unfold call_ok in Hall. apply andb_prop in Hall as [_ E]. apply bool_decide_eq_true in E. exact E. }
  eapply session_success; facts; [exact HS| | |].
  - intros HH. apply (Hret _ (C1 HH)).
  - intros j Hj. specialize (Hret _ (C2 j Hj)). cbn [call_returned] in Hret. destruct (sink_stage _); congruence.
  - destruct hub_size as [-> _]. auto.
Qed.

(** ** Ports and proxies *)

Context (Hgiven : forall ch, ch ∈ hub_chains p ++ local_direct_chains p ->
  exists cp, ports !! chain_id ch = Some cp /\ length (hop_listen_ports cp) = length (hops ch)).
Context (Hpos : Forall (fun l => 0 < snd l) (plan_listeners ports p)).

Lemma chain_listed i : 0 <= i < C -> exists ip gp, forall x, x ∈ chain_listeners ports (chain i) ip gp -> x ∈ plan_listeners ports p.
Proof.
  intros Hi. assert (EC : C = H + J) by apply (all_chains_len su). unfold plan_listeners. destruct (Z.lt_ge_cases i H) as [Hlt|Hge].
  - destruct (chain_of_hub i ltac:(lia)) as (_ & E & Hin). do 2 eexists. intros x Hx. apply elem_of_app. left. apply list_elem_of_In, in_concat.
    eexists. split; [apply in_map, Hin|]. apply list_elem_of_In. rewrite E in Hx. exact Hx.
  - destruct (chain_of_sink (i - H) ltac:(lia)) as (_ & E & Hin). replace (H + (i - H)) with i in E by lia. do 2 eexists. intros x Hx. apply elem_of_app. right. apply list_elem_of_In, in_concat.
    eexists. split; [apply (in_map (fun c => chain_listeners ports c (local_direct_sink_proxy_ip c) (local_direct_sink_proxy_port c))), Hin|].
    apply list_elem_of_In. rewrite E in Hx. exact Hx.
Qed.

Lemma listening_well : well_listening su.
Proof.
  assert (EC : C = H + J) by apply (all_chains_len su). assert (H0 : 0 <= H) by (unfold hub_count; lia). split.
  - intros i Hi. destruct (chain_of_hub i Hi) as (Hc & E & Hin). split; [|apply (hops_some i Hc); lia].
    destruct (plan_chains_split k r z failed hub lookup rp epoch p Hbuild) as (chains & _ & Eh & _). rewrite Eh in Hin. apply filter_In in Hin as [_ Hin].
    rewrite E, Eh. apply negb_true_iff, Hin.
  - intros i Hi. destruct (chain_of_sink (i - H) ltac:(lia)) as (Hc & E & _). destruct (direct_chain (i - H) ltac:(lia)) as (D1 & D2 & _ & D4 & D5 & _ & _ & _ & D9).
    replace (H + (i - H)) with i in * by lia. rewrite E. do 2 (split; [assumption|]). split; [rewrite <- E; apply hops_some, Hc|]. split; [|exact D9].
    rewrite D5. apply (ss_named _ _ _ _ _ _ Hst). rewrite stripe_n. exact D4.
  - intros i Hi. destruct (Hgiven (chain i)) as (cp & E & L); [apply list_elem_of_In, zget_In, Hi|].
    assert (Ep : ports_of su i = cp) by (unfold ports_of; cbn [su_ports pipeline_setup]; rewrite E; reflexivity). rewrite Ep.
    split; [exact E|]. split; [lia|]. destruct (chain_listed i Hi) as (ip & gp & Hin). unfold chain_listeners in Hin. rewrite E in Hin.
    rewrite Forall_forall in Hpos. split.
    + intros j Hj. set (h := (hops (chain i)).[j]). apply (Hpos (hop_proxy_ip h, hop_proxy_port h, (hop_listen_ports cp).[j])), Hin, elem_of_app. left.
      apply list_elem_of_lookup. exists (Z.to_nat j). rewrite lookup_zip_with, !zget_lookup by lia. reflexivity.
    + apply (Hpos (ip, gp, hub_listen_port cp)), Hin, elem_of_app. right. left.
Qed.

Context (proxies : gset string) (Hreg : forall x, x ∈ dom (m_node_table t) -> repair_proxy_key_for_node t x ∈ proxies).

Lemma proxy_registered b : 0 <= b < n -> node_key (repair_proxy_ip (node_of_block t (blocks s).[b])) (repair_proxy_port (node_of_block t (blocks s).[b])) ∈ proxies.
Proof.
  rewrite <- stripe_n. intros Hb. pose proof (ss_nodes _ _ _ _ _ _ Hst b Hb) as Hx. specialize (Hreg _ Hx). unfold repair_proxy_key_for_node in Hreg.
  apply elem_of_dom in Hx as [nd Hx]. rewrite Hx in Hreg. unfold node_of_block, node_at. rewrite Hx. exact Hreg.
Qed.

Lemma hop_registered i j : 0 <= i < C -> 0 <= j < zlen (hops (chain i)) -> proxy_name (hop_proxy su i j) ∈ proxies.
Proof.
  intros Hi Hj. destruct (hop_known i j Hi Hj) as (B1 & _ & _ & _ & B5 & B6). unfold proxy_name, hop_proxy. cbn [fst snd]. rewrite B5, B6. apply proxy_registered, B1.
Qed.

Lemma hub_registered : proxy_name (hub_proxy su) ∈ proxies.
Proof.
  destruct (plan_chains_split k r z failed hub lookup rp epoch p Hbuild) as (_ & _ & _ & _ & E1 & E2 & _). unfold proxy_name, hub_proxy. cbn [fst snd su_plan pipeline_setup].
  rewrite E1, E2, (lookup_known hub Hhub). apply proxy_registered, Hhub.
Qed.

(** Who is called for READY is there. *)
Lemma ready_registered r0 : r0 ∈ ready_calls su -> proxy_name (ready_proxy su r0) ∈ proxies.
Proof.
  intros Hr. rewrite (ready_calls_spec su listening_well) in Hr. destruct r0 as [|i j]; [apply hub_registered|].
  pose proof (roles_below su listening_well i (proj1 Hr)). apply hop_registered; [apply Hr|lia].
Qed.

Context (Hnodeports : forall x, x ∈ dom (m_node_table t) -> 0 < node_port (node_at t x)).

(** Who is called for the repair accepts. *)
Lemma session_starts : startable su proxies (hub_admit bs T k r z q).
Proof.
  split.
  - intros HH. split; [apply hub_registered|]. destruct (hub_decode HH) as [-> _]. eauto.
  - intros i j Hi Hj. destruct (roles_in_chain i Hi) as [Hr _]. split; [apply hop_registered; [exact Hi|lia]|]. unfold su_block_size, su_shard_count, pipeline_setup at 1.
    change (valid_geometry (view bs T (role_request su i j)) bs = true). rewrite role_view. apply whole_geometry.
  - intros i Hi. apply (hops_some i Hi).
  - intros j Hj q'. destruct (direct_chain j Hj) as (D1 & D2 & D3 & D4 & D5 & D6 & D7 & D8 & D9), (chain_of_sink j Hj) as (Hc & E & _). pose proof stripe_n as En. split.
    + unfold proxy_name, sink_proxy. cbn [fst snd]. rewrite E, D7, D8. apply proxy_registered, D4.
    + change (((head_hops q' >? 0) && valid_geometry (view bs T q') bs && pipeline_chain_is_local_direct q' && (snd (rc_local_replaced_node (rq_chain q')) >? 0)) = true).
      assert (E1 : head_hops q' = zlen (hops (chain (H + j)))) by apply request_hops. assert (E2 : pipeline_chain_is_local_direct q' = true).
      { unfold q', sink_request. rewrite (request_local su listening_well) by exact Hc. apply Z.leb_le. lia. }
      assert (E3 : rc_local_replaced_node (rq_chain q') = replaced_node s t (local_direct_failed_block_id (local_direct_chains p).[j])).
      { unfold q', sink_request, chain_request, fill_pipeline_chain_fields. cbn [rq_chain rc_local_replaced_node]. rewrite E, D1. exact D6. }
      rewrite E1, E2, E3. unfold q', sink_request. rewrite chain_view, (proj1 whole_geometry), !Z.gtb_ltb. pose proof (proj1 (hops_some _ Hc)) as HL.
      destruct (Z.ltb_spec 0 (zlen (hops (chain (H + j))))); [|lia]. cbn [andb]. apply Z.ltb_lt.
      apply (Hnodeports (map2node (blocks s).[_])), (ss_nodes _ _ _ _ _ _ Hst). rewrite En. exact D4.
Qed.

(** ** Without faults *)

Context (l : Owners) (Hports : ports_ok su l).

Lemma call_range call : call ∈ pipeline_calls su -> match call with
  | CallHub => 0 < H | CallRole i j => 0 <= i < C /\ 0 <= j < role_count su i | CallSink j => 0 <= j < J end.
Proof.
  assert (EC : C = H + J) by apply (all_chains_len su). assert (H0 : 0 <= H) by (unfold hub_count; lia).
  assert (Hchain : forall i, 0 <= i < C -> call ∈ chain_calls su i -> match call with CallRole i' j => i' = i /\ 0 <= j < role_count su i | _ => False end).
  { intros i Hi Hin. unfold chain_calls in Hin. apply elem_of_app in Hin as [Hin|Hin].
    - apply list_elem_of_In, in_map_iff in Hin as (j & <- & Hj). apply in_rev, list_elem_of_In, elem_of_seqZ in Hj. unfold role_count. lia.
    - destruct (_ =? 0); [inversion Hin|]. apply list_elem_of_singleton in Hin as ->. unfold role_count. lia. }
  unfold pipeline_calls. rewrite !elem_of_app. intros [Hin|[Hin|Hin]].
  - destruct (Z.eqb_spec H 0); [inversion Hin|]. apply list_elem_of_singleton in Hin as ->. lia.
  - apply list_elem_of_In, in_concat in Hin as (x & Hx & Hin). apply in_map_iff in Hx as (i & <- & Hi). apply in_zseq in Hi.
    apply list_elem_of_In, Hchain in Hin; [|lia]. destruct call; [contradiction| |contradiction]. destruct Hin as [-> Hin]. split; [lia|exact Hin].
  - apply list_elem_of_In, in_concat in Hin as (x & Hx & Hin). apply in_map_iff in Hx as (j & <- & Hj). apply in_zseq in Hj. change (su_plan su) with p in Hj. destruct Hin as [<-|Hin]; [exact Hj|].
    apply list_elem_of_In, Hchain in Hin; [|lia]. destruct call; [contradiction| |contradiction]. destruct Hin as [-> Hin]. split; [lia|exact Hin].
Qed.

(** Who returns has succeeded. *)
Lemma regular_call A R Tk En v call r0 : ok l true A R Tk En v -> call ∈ pipeline_calls su -> call_returned v call = Some r0 -> r0 = true.
Proof.
  intros HS Hc E. apply call_range in Hc. destruct call as [|i j|j]; cbn [call_returned] in E.
  - destruct (proj1 (se_hub _ _ _ _ _ _ _ _ _ _ _ _ _ _ HS) Hc) as [_ HR]. destruct (HR eq_refl) as [_ _ _ G]. apply (G r0 E).
  - pose proof (se_chain _ _ _ _ _ _ _ _ _ _ _ _ _ _ HS i (proj1 Hc)) as HC.
    destruct (role_stage j (chains v).[i]) as [| | | |r1] eqn:Er; unfold role_stage in Er; rewrite Er in E; try discriminate. injection E as <-.
    destruct (returned_sent _ _ _ _ _ _ _ _ _ _ _ _ _ _ _ _ HC (proj2 Hc) Er) as [-> _]. reflexivity.
  - destruct (se_sinks _ _ _ _ _ _ _ _ _ _ _ _ _ _ HS) as [_ K2]. destruct (K2 j Hc) as [_ HR]. destruct (HR eq_refl) as [_ Q _ _].
    destruct (sink_stage (sinks v).[j]) as [| | | | |r1] eqn:Er; try discriminate. injection E as <-. apply (Q r1 eq_refl).
Qed.

Lemma started_regular : exists A R Tk En, ok l true A R Tk En (start proxies l).
Proof. apply started. intros _. split; [apply session_starts|exact Hports]. Qed.

Lemma regular_result v call : rtc (step false) (start proxies l) v -> call ∈ pipeline_calls su -> is_Some (call_returned v call) -> call_returned v call = Some true.
Proof.
  intros Hr Hc [r0 E]. pose proof started_regular as H1. eapply session_regular_run in H1; facts; [|exact Hports|exact Hr].
  destruct H1 as (A & R & Tk & En & HS). rewrite (regular_call _ _ _ _ _ _ _ HS Hc E) in E. exact E.
Qed.

(** A run that goes on to its end: everybody returns. *)
Lemma regular_session_end : exists v, rtc (step false) (start proxies l) v /\ forall call, call ∈ pipeline_calls su -> call_returned v call = Some true.
Proof.
  pose proof started_regular as H1. pose proof H1 as HE. eapply session_regular_end in HE as (v & Hr & Hend); facts; [|exact Hports]. exists v. split; [exact Hr|].
  eapply session_regular_run in H1; facts; [|exact Hports|exact Hr]. destruct H1 as (A & R & Tk & En & HS).
  assert (HF : full_block_write (view bs T q) = true) by (rewrite hub_view; apply whole_geometry).
  assert (HFs : forall j, 0 <= j < J -> full_block_write (view bs T (sink_request su (H + j))) = true) by (intros j _; unfold sink_request; rewrite chain_view; apply whole_geometry).
  intros call Hc. apply call_range in Hc. destruct call as [|i j|j]; cbn [call_returned].
  - eapply (stuck_hub su); facts; [exact Hports|exact HF|exact HS|exact Hend|exact Hc].
  - assert (E : role_stage j (chains v).[i] = RoleReturned true) by (eapply (stuck_roles su); facts; [exact Hports|exact HS|exact Hend|apply Hc|apply Hc]).
    unfold role_stage in E. rewrite E. reflexivity.
  - assert (E : sink_stage (sinks v).[j] = SinkReturned true) by (eapply (stuck_sink su); facts; [exact Hports|exact HFs|exact HS|exact Hend|exact Hc]).
    rewrite E. reflexivity.
Qed.
End Pipelined.
