(* ===== verification/PipelineTheorems.v ===== *)
(** The pipelined repair of a stripe that was set: safe, bounded, and complete
    without faults. *)
From S2P Require Import PortAllocator.
From S2P Require Import Prelude GF256 Groups EcKernel Codes Decode DecodeSpec RepairPlan RepairPlanSpec RepairGuarantee PipelineCodec PipelinePlan PipelineSession Text.
From S2P Require Import Toolbox Placement Coordinator CoordinatorSpec AppendPlan Client DataNode ProxyAppend StripeWrite ReadPath SingleRepair SingleRepairSpec MultiRecovery MultiRecoverySpec.
From S2P Require Import PipelineMessages PipelineRun PipelineRunSpec PipelineChainSpec PipelineHubSpec PipelineSinkSpec PipelineSessionSpec PipelineReadySpec PipelineStripe Examples WriteTheorems RecoveryTheorems.

(** * The request at the coordinator *)

Section Outcome.
Context {S : StdSort} {SL : StdSortLaws S} {K : Kernels} {KL : KernelLaws K}.
Context (cfg : SysConfig) (gs : GlrcSettings) (window : Z) (proxies : gset string) (oph : bool) (moments : nat -> Moment) (tables0 : PortTables).
Context (traverse : gmap Z Z -> list (Z * Z)) (epoch : Z).
Context (c : Coordinator) (sid : Z) (s : Stripe) (buf : list byte) (st0 st : Storage) (failed : list Z) (reply : RecoveryReply).
Context (Hcfg : config_ok cfg) (Hct : CodeType (settings cfg) = "gLRC") (Hbs : 1 <= BlockSize (settings cfg) < 2 ^ 31).
Context (Hzk : cfg_z cfg <= cfg_k cfg + cfg_r cfg) (Hkr : cfg_k cfg + cfg_r cfg <= 255).
Context (Hbuf : zlen buf = cfg_n cfg * BlockSize (settings cfg)).
Context (Hst : stripe_stored cfg c sid s (stripe_of cfg buf) st0).
Context (Hpol : known_policy (GlrcEquationPolicy gs) = true).
Context (Hnd : NoDup failed) (Hne : failed <> []) (Hrg : Forall (fun b => 0 <= b < cfg_n cfg) failed).
Context (Htrav : forall m, traverse m ≡ₚ map_to_list m) (Hreply : rr_success reply = false).
Notation t := (co_tables c).
Notation bs := (BlockSize (settings cfg)).
Notation k := (cfg_k cfg).
Notation r := (cfg_r cfg).
Notation z := (cfg_z cfg).
Notation plan := (glrc_solve_repair_plan k r z failed (glrc_normalize_equation_policy (GlrcEquationPolicy gs))).
Notation prepare := (pipeline_prepare cfg gs traverse None None (-1) epoch sid failed c reply).
Notation outcome := (recovery_glrc_ilp_pipeline_breakdown_ex cfg gs window proxies oph moments tables0 traverse epoch None sid failed c reply st).

Lemma stripe_at_sid : stripe_at sid c = s.
Proof. unfold stripe_at. rewrite (ss_table _ _ _ _ _ _ Hst). reflexivity. Qed.

(** The plan is a good selection with a survivor as its hub. *)
Lemma prepare_spec : match prepare with
  | inl (plan', p, reply') => rr_success reply' = false /\ good_selection k r z failed (selected_equation_indices plan') /\
      exists hub, 0 <= hub < k + r + z /\ hub ∉ failed /\
        glrc_build_pipeline_plan k r z failed plan' (all_equations_of k r z) hub (pipeline_node_lookup s t (k + r + z)) epoch = inl p
  | inr reply' => rr_success reply' = false
  end.
Proof.
  pose proof Hcfg as (K1 & K2 & K3 & K4). pose proof (lost_range cfg failed Hcfg Hrg) as Hrg'. unfold pipeline_prepare. rewrite Hct. cbn [negb String.eqb Ascii.eqb Bool.eqb].
  rewrite stripe_at_sid, (valid_ids s failed (lost_valid cfg c sid s buf st0 failed Hst Hrg)). cbv zeta.
  destruct (success plan) eqn:Ep; [|reflexivity].
  destruct (plan_decides _ _ _ K1 K2 K3 failed (glrc_normalize_equation_policy (GlrcEquationPolicy gs)) Hnd Hne Hrg' Hkr
    ltac:(unfold INT_MAX; lia) ltac:(rewrite known_normalized; exact Hpol)) as [(sel & Hg & E)|[E _]]; [|congruence].
  assert (Es : selected_equation_indices plan = sel) by (rewrite E; reflexivity).
  destruct (select_hub_spec k r z K1 K2 K3 failed sel (proj1 Hg) (traverse (helper_equation_count sel (all_equations_of k r z) (list_to_set failed)))
    (helper_block_ids plan) (Htrav _)) as (hub & Eh & Hb & Hf & _).
  { pose proof (helpers_nonempty k r z K1 K2 K3 failed sel Hzk Hkr Hnd Hne Hrg' Hg) as Hh. destruct (union_helpers_spec k r z failed sel) as (_ & _ & Hin).
    destruct (union_helpers _ _ _) as [|b l]; [contradiction|]. destruct (proj1 (Hin b) (or_introl eq_refl)) as (e & He & Hb & Hbf). exists b. split; [exact Hbf|].
    unfold occurrences. assert (Hx : In e (List.filter (fun e => bool_decide (b ∈ involved_blocks (all_equations_of k r z).[e])) sel)).
    { apply filter_In. split; [exact He|]. apply bool_decide_eq_true, list_elem_of_In, Hb. }
    destruct (List.filter _ sel); [destruct Hx|cbn [length]; lia]. }
  change (-1 <? 0) with true. cbv iota. rewrite Es, Eh. destruct (glrc_build_pipeline_plan _ _ _ _ _ _ _ _ _) as [p|e] eqn:Eb; [|reflexivity].
  split; [exact Hreply|]. split; [rewrite Es; exact Hg|]. exists hub. auto.
Qed.

(** A plan whose hub needs no local chain's blocks, with two hops or more on every
    chain of the hub, and shards that make up the blocks. *)
Context (plan' : GlrcIlpRepairPlan) (p : GlrcPipelinePlan) (reply' : RecoveryReply) (Hprep : prepare = inl (plan', p, reply')).
Context (Hself : self_contained k r z failed p) (Hhops : Forall (fun ch => 2 <= zlen (hops ch)) (hub_chains p)).
Context (HT : 1 <= GlrcShardCount gs) (Hdiv : (GlrcShardCount gs | bs)).
Context (Hsurv : forall x, 0 <= x < cfg_n cfg -> x ∉ failed -> stored st (source_block s t x) (stripe_of cfg buf).[x]).

Lemma prepared_facts : rr_success reply' = false /\ good_selection k r z failed (selected_equation_indices plan') /\
  exists hub, 0 <= hub < k + r + z /\ hub ∉ failed /\
    glrc_build_pipeline_plan k r z failed plan' (all_equations_of k r z) hub (pipeline_node_lookup s t (k + r + z)) epoch = inl p.
Proof. pose proof prepare_spec as H. rewrite Hprep in H. exact H. Qed.

(** Whatever happens, nothing is corrupted, and success is success. *)
Lemma pipeline_safe fault result reply2 st' : outcome fault (result, reply2, st') ->
  rr_success reply2 = result /\ pipelined_effect s t (delivered cfg buf p) failed result st st'.
Proof.
  destruct prepared_facts as (Hr' & Hsel & hub & Hhub & Hhf & Hbuild).
  intros Ho. inversion Ho; subst; repeat match goal with x := _ |- _ => subst x end;
    match goal with E : pipeline_prepare _ _ _ _ _ _ _ _ _ _ _ = _ |- _ => rewrite Hprep in E; first [discriminate E|injection E as <- <- <-] end;
    try (split; [exact Hr'|apply pipelined_effect_none]).
  match goal with E : pipeline_conclude _ _ _ _ _ = _ |- _ => rename E into Ec end. unfold pipeline_conclude in Ec.
  match goal with E : rtc _ _ w |- _ => rename E into Hr end.
  repeat match goal with H : context [stripe_at sid c] |- _ => rewrite stripe_at_sid in H end.
  edestruct (ran cfg gs window oph c sid s buf st0 st failed plan' p epoch hub (chain_ports ports)) with (proxies := proxies) (l := listening) (v := w)
    as (A & R & Tk & En & HS); try eassumption.
  { eapply rtc_subrel; [|exact Hr]. intros a b (fl & _ & H). exists fl. exact H. }
  assert (E : rr_success reply2 = result /\ (result = true -> forall call, call ∈ results -> call_ok answered w call = true)).
  { destruct (String.eqb_spec (rpc_errors answered errors w results) "") as [E|E]; injection Ec as <- <-; (split; [reflexivity|]); [|discriminate].
    intros _. apply (rpc_errors_none answered errors w results), E. }
  destruct E as [E1 E2]. split; [exact E1|].
  eapply (stored_effect cfg gs window oph c sid s buf st0 st failed plan' p epoch hub (chain_ports ports)); try eassumption.
  intros Hres. eapply all_stored; try eassumption.
  intros call Hc. apply E2; [exact Hres|]. match goal with H : results ≡ₚ _ |- _ => rewrite H end. exact Hc.
Qed.

(** With ports of their own for all listeners, all proxies registered, and no
    faults. *)
Context (Hreg : forall x, x ∈ dom (m_node_table t) -> repair_proxy_key_for_node t x ∈ proxies).
Context (Hnodeports : forall x, x ∈ dom (m_node_table t) -> 0 < node_port (node_at t x)).
Context (Hmom : forall i t, cursors_ok t -> cursors_ok (interfere (moments i) t)) (Hepoch : 0 <= epoch) (Hcur : cursors_ok tables0).
Context (ps : SessionPorts) (Halloc : allocate_plan oph moments epoch p tables0 = (true, ps)).
Context (Hapart : NoDup (map address (plan_listeners (chain_ports ps) p))).
Notation su := (pipeline_setup cfg gs window oph s t failed plan' p 0 0 "" 0 (chain_ports ps)).
Notation admit_hub := (hub_admit bs (GlrcShardCount gs) k r z (hub_request su)).

Lemma epoch_of_plan : exchange_epoch p = epoch.
Proof. destruct prepared_facts as (_ & _ & hub & _ & _ & Hbuild). destruct (plan_chains_split _ _ _ _ _ _ _ _ _ Hbuild) as (_ & _ & _ & _ & _ & _ & _ & _ & _ & E). exact E. Qed.

Lemma ports_reserved : check_ports ∅ (plan_listeners (chain_ports ps) p) = true /\ Forall (fun l => 0 < snd l) (plan_listeners (chain_ports ps) p) /\
  forall ch, ch ∈ hub_chains p ++ local_direct_chains p -> exists cp, chain_ports ps !! chain_id ch = Some cp /\ length (hop_listen_ports cp) = length (hops ch).
Proof.
  destruct prepared_facts as (_ & _ & hub & _ & _ & Hbuild). destruct (plan_chain_ids _ _ _ _ _ _ _ _ _ _ Hbuild) as [Hids Hn].
  destruct (allocate_plan_holds oph moments Hmom epoch p tables0 ps Hepoch Hcur Hids Hn Halloc) as [Hs Hall].
  split; [apply check_ports_true; [apply Hs|apply Hs|set_solver]|]. split; [apply Hs|exact Hall].
Qed.

Lemma setup_listens : well_listening su /\ apart su.
Proof.
  destruct prepared_facts as (_ & Hsel & hub & Hhub & Hhf & Hbuild), ports_reserved as (_ & Hpos & Hgiven).
  assert (HW : well_listening su) by (eapply (listening_well cfg gs window oph c sid s buf st0 failed plan' p epoch hub (chain_ports ps)); eassumption).
  split; [exact HW|]. apply listeners_apart; [exact HW|exact Hapart].
Qed.

(** READY succeeds, and every role finds who listens for it. *)
Lemma ready_succeeds unready order : (forall r, unready r = false) -> order ≡ₚ ready_calls su ->
  exists listening, run_ready su proxies unready order ∅ = (listening, true) /\ ports_ok su listening.
Proof.
  intros Hu Ho. destruct setup_listens as [HW HA], prepared_facts as (_ & Hsel & hub & Hhub & Hhf & Hbuild), ports_reserved as (_ & Hpos & Hgiven).
  destruct (ready_all su HW HA proxies unready order Ho) as (l & E & H1 & H2 & H3).
  - intros r0 Hr0. split; [|apply Hu]. eapply (ready_registered cfg gs window oph c sid s buf st0 failed plan' p epoch hub (chain_ports ps)); eassumption.
  - exists l. split; [exact E|]. apply ready_ports; assumption.
Qed.

Lemma pipeline_complete result reply2 st' : outcome false (result, reply2, st') -> result = true.
Proof.
  destruct prepared_facts as (_ & Hsel & hub & Hhub & Hhf & Hbuild), ports_reserved as (Hcheck & Hpos & Hgiven). pose proof Halloc as Ha. rewrite <- epoch_of_plan in Ha.
  enough (HG : forall fault out, outcome fault out -> fault = false -> fst (fst out) = true) by (intros Ho; exact (HG _ _ Ho eq_refl)).
  intros fault out Ho Ef. destruct Ho as [r1 Ep|pl pp r1 po m Ep Ea|pl pp r1 po m Ep Ea Ec|fault pl pp r1 po u o l m Hu Ep Ea Ec su' Ho Er
    |fault pl pp r1 po u o l w answered errors results res r2 Hu Ep Ea Ec su' Ho Er inverse Hr Hres Hret Hans Eco];
    rewrite Hprep in Ep; try discriminate Ep; injection Ep as <- <- <-; rewrite Ha in Ea; try discriminate Ea; injection Ea as <-.
  - congruence.
  - exfalso. subst fault su'. rewrite stripe_at_sid in Ho, Er. destruct (ready_succeeds u o (Hu eq_refl) Ho) as (l' & El & _). congruence.
  - cbn [fst]. subst fault su' inverse. rewrite stripe_at_sid in *. destruct (ready_succeeds u o (Hu eq_refl) Ho) as (l' & El & Hports).
    rewrite El in Er. injection Er as ->. unfold pipeline_conclude in Eco.
    assert (E : rpc_errors answered errors w results = ""%string).
    { apply rpc_errors_none. intros call Hc. rewrite Hres in Hc. unfold call_ok. rewrite (Hans eq_refl call). apply bool_decide_eq_true.
      eapply (regular_result cfg gs window oph c sid s buf st0 st failed plan' p epoch hub (chain_ports ps)); try eassumption; [|auto].
      eapply rtc_subrel; [|exact Hr]. intros a b ([|] & Hfl & Hst1); [discriminate (Hfl eq_refl)|exact Hst1]. }
    rewrite E in Eco. injection Eco as <- _. reflexivity.
Qed.

Lemma pipeline_exists : exists reply2 st', outcome false (true, reply2, st').
Proof.
  destruct prepared_facts as (_ & Hsel & hub & Hhub & Hhf & Hbuild), ports_reserved as (Hcheck & Hpos & Hgiven).
  destruct (ready_succeeds (fun _ => false) (ready_calls su) (fun _ => eq_refl) (reflexivity _)) as (l & El & Hports).
  edestruct (regular_session_end cfg gs window oph c sid s buf st0 st failed plan' p epoch hub (chain_ports ps)) with (proxies := proxies) (l := l) as (v & Hr & Hv);
    try eassumption.
  exists (conclude true "ok" reply'), (storage v).
  eapply (pipeline_ran cfg gs window proxies oph moments tables0 traverse epoch None sid failed c reply st false plan' p reply' ps (fun _ => false)) with
    (order := ready_calls su) (answered := fun _ => true) (errors := fun _ => ""%string) (results := pipeline_calls su) (w := v); try rewrite stripe_at_sid; eauto.
  - rewrite epoch_of_plan. exact Halloc.
  - eapply rtc_subrel; [|exact Hr]. intros a b Hst1. exists false. split; [discriminate|exact Hst1].
  - unfold pipeline_conclude. rewrite (proj2 (rpc_errors_none (fun _ => true) (fun _ => ""%string) v (pipeline_calls su))); [reflexivity|].
    intros call Hc. unfold call_ok. rewrite (Hv call Hc). apply bool_decide_eq_true. reflexivity.
Qed.
End Outcome.

(** C2. The pipelined repair of a stored gLRC stripe is safe under every
    interleaving of chain heads, hop servers, hub, sinks and data nodes, and
    complete without faults.  After a set (which stores the stripe, below 2 GiB,
    when each plan gets its own part), lose any blocks, and let the coordinator
    build its plan; the equations of its hub may not touch the blocks of local
    chains and have two hops at least.  Whatever breaks, and at whatever point the
    request is given up: each lost block is afterwards either as before or what the
    plan delivers for it (the block of the codeword, for a local chain the block
    times its coefficient in the local equation), no other file of the data nodes
    changes, and success is reported only when all of them are stored.  If the
    ports are reserved and no two listeners share an address, a run without faults
    can be completed, and every such run succeeds. *)
Theorem set_then_pipeline_recovery {S : StdSort} {SL : StdSortLaws S} {K : Kernels} {KL : KernelLaws K}
    cfg gs client draws outcomes c buf tmp st num_arry N failed :
  config_ok cfg -> CodeType (settings cfg) = "gLRC" -> 1 <= BlockSize (settings cfg) < 2 ^ 31 ->
  cfg_z cfg <= cfg_k cfg + cfg_r cfg <= 255 ->
  coordinator_ok c -> cluster_ready cfg (co_tables c) -> schedulable outcomes ->
  zlen buf = cfg_n cfg * BlockSize (settings cfg) -> (forall key, tmp key <> key) ->
  known_policy (GlrcEquationPolicy gs) = true -> 1 <= GlrcShardCount gs -> (GlrcShardCount gs | BlockSize (settings cfg)) ->
  NoDup failed -> failed <> [] -> Forall (fun b => 0 <= b < cfg_n cfg) failed ->
  exists reply c' s plans,
    (uploadSetValue cfg client (BlockSize (settings cfg) * cfg_k cfg) draws outcomes c = Some (Some reply, c') /\
     generate_add_plans (BlockSize (settings cfg)) s (co_tables c') = Some plans) /\
    (cfg_n cfg * BlockSize (settings cfg) < 2 ^ 31 ->
     exists buf' parts, set_stripe num_arry N (stripe_id s) cfg reply buf = Some (buf', parts) /\
       forall accepted, accepts_at (reply_addresses reply) accepted ->
         exists st', run_proxies cfg tmp plans parts accepted st = Some st' /\
           (parts_apart reply accepted -> stripe_stored cfg c' (m_cur_stripe_id c) s (stripe_of cfg buf) st')) /\
    (exists st0, stripe_stored cfg c' (m_cur_stripe_id c) s (stripe_of cfg buf) st0) /\
    forall window proxies one_proxy_per_host moments tables0 traverse epoch reply0 st2 plan p reply1,
      (forall m, traverse m ≡ₚ map_to_list m) -> rr_success reply0 = false ->
      (forall x, 0 <= x < cfg_n cfg -> x ∉ failed -> stored st2 (source_block s (co_tables c') x) (stripe_of cfg buf).[x]) ->
      pipeline_prepare cfg gs traverse None None (-1) epoch (m_cur_stripe_id c) failed c' reply0 = inl (plan, p, reply1) ->
      self_contained (cfg_k cfg) (cfg_r cfg) (cfg_z cfg) failed p -> Forall (fun ch => 2 <= zlen (hops ch)) (hub_chains p) ->
      let outcome := recovery_glrc_ilp_pipeline_breakdown_ex cfg gs window proxies one_proxy_per_host moments tables0 traverse epoch None
                       (m_cur_stripe_id c) failed c' reply0 st2 in
      (forall fault result reply2 st3, outcome fault (result, reply2, st3) ->
         rr_success reply2 = result /\ pipelined_effect s (co_tables c') (delivered cfg buf p) failed result st2 st3) /\
      forall ports,
        (forall x, x ∈ dom (m_node_table (co_tables c')) -> repair_proxy_key_for_node (co_tables c') x ∈ proxies) ->
        (forall x, x ∈ dom (m_node_table (co_tables c')) -> 0 < node_port (node_at (co_tables c') x)) ->
        (forall i t, cursors_ok t -> cursors_ok (interfere (moments i) t)) -> 0 <= epoch -> cursors_ok tables0 ->
        allocate_plan one_proxy_per_host moments epoch p tables0 = (true, ports) ->
        NoDup (map address (plan_listeners (chain_ports ports) p)) ->
        (exists reply2 st3, outcome false (true, reply2, st3)) /\
        (forall result reply2 st3, outcome false (result, reply2, st3) -> result = true).
Proof.
  intros Hcfg Hct Hbs [Hzk Hkr] Hc Hcr Hout Hbuf Htmp Hpol HT Hdiv Hnd Hne Hrg.
  destruct (set_flow_stored cfg client draws outcomes c buf tmp st num_arry N Hcfg Hct (proj1 Hbs) Hc Hcr Hout Hbuf Htmp)
    as (reply & c' & s & plans & H & Hwrite & st' & Hst).
  exists reply, c', s, plans. split; [exact H|]. split; [exact Hwrite|]. split; [eauto|].
  intros window proxies oph moments tables0 traverse epoch reply0 st2 plan p reply1 Htrav Hr Hsurv Hprep Hself Hhops outcome. split.
  - intros fault result reply2 st3 Ho. eapply pipeline_safe; eassumption.
  - intros ports Hreg Hnp Hmom Hep Hcur Halloc Hap. split; [eapply pipeline_exists; eassumption|]. intros result reply2 st3 Ho. eapply pipeline_complete; eassumption.
Qed.

(** Seven nodes with a proxy each, a (4, 1, 2) code with blocks of two bytes in two
    shards; blocks 0 and 6 are lost, the second of which a local chain repairs. *)
Definition ex7_node (x : Z) : Node :=
  {| node_ip := "10.0.0.2"; node_port := 9000 + x; cluster_id := 0; repair_proxy_ip := "10.0.0.1"; repair_proxy_port := 50405 + 2 * x; node_stripes := ∅ |}.
Definition ex7_nodes : gmap Z Node := list_to_map (map (fun x => (x, ex7_node x)) (zseq 7)).
Definition ex7_cluster : Cluster :=
  {| cluster_proxy_ip := "10.0.0.1"; cluster_proxy_port := 50405; nodes := zseq 7; cluster_blocks := []; cluster_stripes := ∅ |}.
Definition ex7_coordinator : Coordinator := fresh_coordinator ex7_nodes ex7_cluster.
Definition ex7_config : SysConfig :=
  {| settings := {| BlockSize := 2; ClusterNum := 1; CodeType := "gLRC" |}; cfg_k := 4; cfg_r := 1; cfg_z := 2; cfg_n := 7;
     AppendMode := "UNILRC_MODE"; UnitSize := 1 |}.
Definition ex7_settings : GlrcSettings :=
  {| GlrcEquationPolicy := "ilp"; GlrcRepairMode := "pipeline"; GlrcShardCount := 2; GlrcPhase2WriteBack := true;
     GlrcHmbrEquationPolicy := "ilp"; GlrcHmbrP := "auto" |}.
Definition ex7_buffer : list byte := [x05; x07; x01; x02; x03; x04; x08; x09; x00; x00; x00; x00; x00; x00].

Lemma ex7_node_dom x : x ∈ dom ex7_nodes -> In x [0; 1; 2; 3; 4; 5; 6].
Proof.
  assert (H : set_Forall (fun x => x ∈ [0; 1; 2; 3; 4; 5; 6]) (dom ex7_nodes)) by (refine (bool_decide_eq_true_1 _ _); vm_compute; reflexivity).
  intros Hx. apply list_elem_of_In, (H x Hx).
Qed.

Lemma ex7_coordinator_ok : coordinator_ok ex7_coordinator.
Proof. apply fresh_coordinator_ok; [refine (bool_decide_eq_true_1 _ _); vm_compute; reflexivity|reflexivity]. Qed.

Lemma ex7_cluster_ready : cluster_ready ex7_config (co_tables ex7_coordinator).
Proof.
  split.
  - reflexivity.
  - intros x Hx. apply ex7_node_dom in Hx. cbn [In] in Hx. lia.
  - intros x y Hx Hy [_ E]. apply ex7_node_dom in Hx, Hy. cbn [In] in Hx, Hy.
    destruct Hx as [<-|[<-|[<-|[<-|[<-|[<-|[<-|[]]]]]]]], Hy as [<-|[<-|[<-|[<-|[<-|[<-|[<-|[]]]]]]]]; reflexivity || (vm_compute in E; discriminate).
Qed.

(** The coordinator after the set, its plan, and the ports. *)
Definition ex7_set : Coordinator :=
  match uploadSetValue ex7_config "client" 8 [] (fun _ => [true]) ex7_coordinator with Some (_, c) => c | None => ex7_coordinator end.
Definition ex7_prepare := pipeline_prepare ex7_config ex7_settings map_to_list None None (-1) 7 0 [0; 6] ex7_set clear_reply.
Definition ex7_plan : GlrcPipelinePlan :=
  match ex7_prepare with
  | inl (_, p, _) => p
  | inr _ => {| plan_hub_block_id := 0; hub_proxy_ip := ""; hub_proxy_port := 0; hub_datanode_ip := ""; hub_datanode_port := 0; hub_block_key := "";
                hub_coef := x00; exchange_epoch := 0; hub_chains := []; local_direct_chains := [] |}
  end.
Definition ex7_moments (i : nat) : Moment := {| at_time := 0; at_probe := fun _ => true; interfere := fun t => t |}.
Definition ex7_tables : PortTables := {| s_inflight_ports := ∅; s_hop_slot_cursor := ∅; s_hub_slot_cursor := ∅; s_port_cooldown_until := ∅ |}.
Definition ex7_ports : SessionPorts := snd (allocate_plan false ex7_moments 7 ex7_plan ex7_tables).

Lemma ex7_prepared : exists plan reply, ex7_prepare = inl (plan, ex7_plan, reply).
Proof. eexists _, _. vm_compute. reflexivity. Qed.

Lemma ex7_self_contained : self_contained 4 1 2 [0; 6] ex7_plan.
Proof.
  intros e b He Hb Hl. assert (E1 : hub_equations ex7_plan = [2]) by (vm_compute; reflexivity). assert (E2 : local_direct_failed ex7_plan = {[6]}) by (vm_compute; reflexivity).
  rewrite E1 in He. destruct He as [<-|[]]. rewrite E2 in Hl. apply elem_of_singleton in Hl as ->. vm_compute. reflexivity.
Qed.

Lemma ex7_hops : Forall (fun ch => 2 <= zlen (hops ch)) (hub_chains ex7_plan).
Proof.
  assert (E : map (fun ch => zlen (hops ch)) (hub_chains ex7_plan) = [4]) by (vm_compute; reflexivity).
  destruct (hub_chains ex7_plan) as [|ch [|ch' l]]; try discriminate E. injection E as E. constructor; [lia|constructor].
Qed.

Lemma ex7_node_ports x : x ∈ dom (m_node_table (co_tables ex7_set)) -> 0 < node_port (node_at (co_tables ex7_set) x).
Proof.
  assert (H : set_Forall (fun x => 0 < node_port (node_at (co_tables ex7_set) x)) (dom (m_node_table (co_tables ex7_set))))
    by (refine (bool_decide_eq_true_1 _ _); vm_compute; reflexivity).
  apply H.
Qed.

Lemma ex7_cursors : cursors_ok ex7_tables.
Proof. intros b key. unfold cursor_of. destruct b; cbn; rewrite lookup_empty; cbn; lia. Qed.

Lemma ex7_allocated : allocate_plan false ex7_moments 7 ex7_plan ex7_tables = (true, ex7_ports).
Proof. vm_compute. reflexivity. Qed.

Lemma ex7_apart : NoDup (map address (plan_listeners (chain_ports ex7_ports) ex7_plan)).
Proof. refine (bool_decide_eq_true_1 _ _). vm_compute. reflexivity. Qed.

Lemma set_then_pipeline_recovery_witness : exists reply c' s plans buf' parts st' plan reply1 reply2 st3,
  uploadSetValue ex7_config "client" 8 [] (fun _ => [true]) ex7_coordinator = Some (Some reply, c') /\
  generate_add_plans 2 s (co_tables c') = Some plans /\
  set_stripe [] 0 (stripe_id s) ex7_config reply ex7_buffer = Some (buf', parts) /\
  run_proxies ex7_config ex_tmp plans parts (in_order 2) ∅ = Some st' /\
  pipeline_prepare ex7_config ex7_settings map_to_list None None (-1) 7 0 [0; 6] c' clear_reply = inl (plan, ex7_plan, reply1) /\
  recovery_glrc_ilp_pipeline_breakdown_ex ex7_config ex7_settings 2 (init_proxyinfo (co_tables c')) false ex7_moments ex7_tables map_to_list 7 None
    0 [0; 6] c' clear_reply st' false (true, reply2, st3) /\
  stored st3 (source_block s (co_tables c') 0) [x05; x07] /\ stored st3 (source_block s (co_tables c') 6) (delivered ex7_config ex7_buffer ex7_plan 6).
Proof.
  destruct (set_then_pipeline_recovery ex7_config ex7_settings "client" [] (fun _ => [true]) ex7_coordinator ex7_buffer ex_tmp ∅ [] 0 [0; 6])
    as (reply & c' & s & plans & [H1 H2] & Hw & _ & H5);
    [unfold config_ok; cbn; lia|reflexivity|cbn; lia|cbn; lia|apply ex7_coordinator_ok|apply ex7_cluster_ready|intros i; reflexivity|reflexivity
    |apply ex_tmp_ok|reflexivity|cbn; lia|exists 1; reflexivity|by_eval|by_eval|by_eval|].
  destruct (Hw ltac:(vm_compute; reflexivity)) as (buf' & parts & H3 & Hrun).
  destruct (Hrun (in_order 2)) as (st' & H4 & Hst); [replace 2 with (zlen (reply_addresses reply)) by (vm_compute in H1; injection H1 as <- _; reflexivity); apply in_order_accepts|].
  specialize (Hst (or_intror (in_order_own _))).
  assert (Ec : c' = ex7_set) by (unfold ex7_set; change 8 with (BlockSize (settings ex7_config) * cfg_k ex7_config); rewrite H1; reflexivity).
  destruct ex7_prepared as (plan & reply1 & E). unfold ex7_prepare in E. rewrite <- Ec in E.
  destruct (H5 2 (init_proxyinfo (co_tables c')) false ex7_moments ex7_tables map_to_list 7 clear_reply st' plan ex7_plan reply1 (fun m => reflexivity _) eq_refl
    (fun x Hx _ => ss_stored _ _ _ _ _ _ Hst x Hx) E ex7_self_contained ex7_hops) as [Hsafe Hlive].
  destruct (Hlive ex7_ports (init_proxyinfo_registers _)) as [(reply2 & st3 & Ho) _];
    [rewrite Ec; apply ex7_node_ports|intros i t Ht; exact Ht|lia|apply ex7_cursors|apply ex7_allocated|apply ex7_apart|].
  destruct (Hsafe _ _ _ _ Ho) as (_ & _ & He).
  exists reply, c', s, plans, buf', parts, st', plan, reply1, reply2, st3. do 5 (split; [assumption|]). split; [exact Ho|].
  destruct (He 0 ltac:(left)) as [tag0 W0], (He 6 ltac:(right; left)) as [tag1 W1].
  split; [|exact (we_done _ _ _ _ _ _ W1 eq_refl)].
  replace [x05; x07] with (delivered ex7_config ex7_buffer ex7_plan 0) by (vm_compute; reflexivity). exact (we_done _ _ _ _ _ _ W0 eq_refl).
Defined.

(** * The end of every run *)

(** C30. A pipelined repair comes to an end if the equations of its hub do not touch
    the blocks of local chains, all chains of the hub have two hops at least, and
    the shards divide the block: there is a bound on the steps that the threads of
    heads, hop servers, hub and sinks, the connections and the data nodes can take
    together, in any order and with any faults, whoever listens. *)
Theorem pipeline_runs_end {S : StdSort} {SL : StdSortLaws S} {K : Kernels} {KL : KernelLaws K}
    cfg gs window proxies one_proxy_per_host traverse epoch c sid s buf st0 st failed reply plan p reply1 ports :
  config_ok cfg -> CodeType (settings cfg) = "gLRC" -> 1 <= BlockSize (settings cfg) < 2 ^ 31 ->
  cfg_z cfg <= cfg_k cfg + cfg_r cfg <= 255 -> zlen buf = cfg_n cfg * BlockSize (settings cfg) ->
  stripe_stored cfg c sid s (stripe_of cfg buf) st0 ->
  known_policy (GlrcEquationPolicy gs) = true -> 1 <= GlrcShardCount gs -> (GlrcShardCount gs | BlockSize (settings cfg)) ->
  NoDup failed -> failed <> [] -> Forall (fun b => 0 <= b < cfg_n cfg) failed ->
  (forall x, 0 <= x < cfg_n cfg -> x ∉ failed -> stored st (source_block s (co_tables c) x) (stripe_of cfg buf).[x]) ->
  (forall m, traverse m ≡ₚ map_to_list m) -> rr_success reply = false ->
  pipeline_prepare cfg gs traverse None None (-1) epoch sid failed c reply = inl (plan, p, reply1) ->
  self_contained (cfg_k cfg) (cfg_r cfg) (cfg_z cfg) failed p -> Forall (fun ch => 2 <= zlen (hops ch)) (hub_chains p) ->
  let su := pipeline_setup cfg gs window one_proxy_per_host s (co_tables c) failed plan p 0 0 "" 0 ports in
  let inverse := hub_admit (BlockSize (settings cfg)) (GlrcShardCount gs) (cfg_k cfg) (cfg_r cfg) (cfg_z cfg) (hub_request su) in
  exists N, forall listening n v,
    nsteps (fun a b => exists fault, session_step su (default [] inverse) fault a b) n (start_session su proxies inverse listening st) v -> (n <= N)%nat.
Proof.
  intros Hcfg Hct Hbs [Hzk Hkr] Hbuf Hst Hpol HT Hdiv Hnd Hne Hrg Hsurv Htrav Hr Hprep Hself Hhops su inverse.
  edestruct (prepared_facts cfg gs traverse epoch c sid s buf st0 failed reply) as (_ & Hsel & hub & Hhub & Hhf & Hbuild); try eassumption.
  eapply (runs_end cfg gs window one_proxy_per_host c sid s buf st0 st failed plan p epoch hub ports); eassumption.
Qed.

Lemma pipeline_runs_end_witness : exists c s st plan reply1 N, stripe_stored ex7_config c 0 s (stripe_of ex7_config ex7_buffer) st /\
  pipeline_prepare ex7_config ex7_settings map_to_list None None (-1) 7 0 [0; 6] c clear_reply = inl (plan, ex7_plan, reply1) /\
  let su := pipeline_setup ex7_config ex7_settings 2 false s (co_tables c) [0; 6] plan ex7_plan 0 0 "" 0 (chain_ports ex7_ports) in
  let inverse := hub_admit 2 2 4 1 2 (hub_request su) in
  forall listening n v,
    nsteps (fun a b => exists fault, session_step su (default [] inverse) fault a b) n (start_session su (init_proxyinfo (co_tables c)) inverse listening st) v ->
    (n <= N)%nat.
Proof.
  destruct (set_flow_stored ex7_config "client" [] (fun _ => [true]) ex7_coordinator ex7_buffer ex_tmp ∅ [] 0)
    as (reply & c & s & plans & [H1 _] & _ & st & Hst);
    [unfold config_ok; cbn; lia|reflexivity|cbn; lia|apply ex7_coordinator_ok|apply ex7_cluster_ready|intros i; reflexivity|reflexivity|apply ex_tmp_ok|].
  assert (Ec : c = ex7_set) by (unfold ex7_set; change 8 with (BlockSize (settings ex7_config) * cfg_k ex7_config); rewrite H1; reflexivity).
  destruct ex7_prepared as (plan & reply1 & E). unfold ex7_prepare in E. rewrite <- Ec in E.
  destruct (pipeline_runs_end ex7_config ex7_settings 2 (init_proxyinfo (co_tables c)) false map_to_list 7 c 0 s ex7_buffer st st [0; 6] clear_reply plan ex7_plan reply1 (chain_ports ex7_ports))
    as [N HN]; [unfold config_ok; cbn; lia|reflexivity|cbn; lia|cbn; lia|reflexivity|exact Hst|reflexivity|cbn; lia|exists 1; reflexivity|by_eval|by_eval|by_eval
    |intros x Hx _; exact (ss_stored _ _ _ _ _ _ Hst x Hx)|intros m; reflexivity|reflexivity|exact E|apply ex7_self_contained|apply ex7_hops|].
  exists c, s, st, plan, reply1, N. split; [exact Hst|]. split; [exact E|exact HN].
Defined.

(** * Short chains of the hub *)

(** C31. A chain of the hub whose only hop is the hub itself delivers zeros: its head
    sends the hub's weighted block, and the hub's listener adds the same share
    again. *)
Theorem lone_hub_chain_cancels su src hub_block ci g :
  let bs := su_block_size su in let T := su_shard_count su in let q := hub_request su in let ch := (hub_chains (su_plan su)).[ci] in
  0 <= ci < hub_count su -> zlen (hops ch) = 1 -> hub_is_chain_tail ch = true -> hop_coef (hops ch).[0] <> x00 ->
  width bs T (chain_request su ci CHAIN_HEAD 0) = width bs T q -> 0 <= width bs T q -> src ci 0 = hub_block ->
  rv bs T q hub_block (cv su src) ci g = zrepeat x00 (width bs T q).
Proof.
  intros bs T q ch Hci Hl Ht Hc Hw Hw0 Hs. assert (Ec : (all_chains su).[ci] = ch).
  { unfold all_chains. rewrite zget_app by lia. unfold hub_count in Hci. destruct (Z.ltb_spec ci (zlen (hub_chains (su_plan su)))); [reflexivity|lia]. }
  assert (EM : role_count su ci = 1) by (unfold role_count, last_hop_server; rewrite Ec, Ht, Hl; reflexivity).
  assert (Elast : last (hops ch) = Some (hops ch).[0]) by (destruct (hops ch) as [|h [|h' l]]; cbn in Hl; try lia; reflexivity).
  assert (Eh : (rq_hub_chains q).[ci] = hub_chain_fields (su_z su) ch) by (unfold q, hub_request, fill_hub_fields; cbn [rq_hub_chains]; apply zget_map; exact Hci).
  unfold rv, needs_tail_local. fold bs T q. rewrite Eh. unfold hub_chain_fields. cbn [hc_is_tail hc_hub_coef]. rewrite Ht, Elast. cbn [andb]. destruct (byte_eqb_spec (hop_coef (hops ch).[0]) x00) as [|_]; [contradiction|]. cbn [negb].
  unfold cv. rewrite EM. unfold role_val. change (Z.to_nat (1 - 1)) with O. cbn [chain_val]. unfold head_val, head_shard_bytes, role_request. rewrite Z.eqb_refl. fold bs T. rewrite Hw, Hs.
  replace (hop_coef_at (chain_request su ci CHAIN_HEAD 0) 0) with (hop_coef (hops ch).[0]).
  2:{ unfold hop_coef_at, chain_request, fill_pipeline_chain_fields. cbn [rq_chain rc_hop_coefs]. rewrite Ec, length_map, Hl. change (1 >? 0) with true. rewrite zget_map by lia. reflexivity. }
  match goal with |- context [glrc_pipeline_init_partial_range ?a ?b ?c ?d ?e] => destruct (init_partial_range_spec a b c d e) as [I1 I2] end; [rewrite zlen_zrepeat by lia; lia|].
  match goal with |- context [glrc_pipeline_accumulate_range ?a ?b ?c ?d ?e] => destruct (accumulate_range_spec a b c d e) as [A1 A2] end; [rewrite I1, zlen_zrepeat by lia; lia|].
  rewrite I1 in A1. apply zlist_ext; [exact A1|]. rewrite A1, zlen_zrepeat by lia. intros x Hx. rewrite A2, I2, zget_zrepeat by lia.
  destruct (Z.ltb_spec x (width bs T q)); [apply bxor_nilpotent|lia].
Qed.

(** Blocks 0 and 1 of a (2, 2, 2) stripe lost, hub 2. *)
Definition ex_lone_lookup : list GlrcPipelineNodeLookup :=
  zrepeat {| PipelinePlan.node_id := 1; datanode_ip := "10.0.0.1"; datanode_port := 1; proxy_ip := "10.0.0.2"; proxy_port := 2; PipelinePlan.block_key := "b" |} 6.
Definition ex_lone_plan : GlrcPipelinePlan :=
  match glrc_build_pipeline_plan 2 2 2 [0; 1] (glrc_solve_repair_plan 2 2 2 [0; 1] "local-first") (all_equations_of 2 2 2) 2 ex_lone_lookup 7 with
  | inl p => p
  | inr _ => ex7_plan
  end.
Definition ex_lone_setup : PipelineSetup :=
  {| su_block_size := 2; su_shard_count := 2; su_window := 0; su_one_proxy_per_host := false; su_z := 2;
     su_base := {| rb_shard_count := 2; rb_global_begin := 0; rb_global_count := 0; rb_exchange_epoch := 7; rb_hybrid_commit_token := "";
                   rb_range_commit_parts := 0; rb_failed_ids := [0; 1]; rb_failed_keys := ["a"; "b"]%string;
                   rb_replaced := [("10.0.0.1", 1); ("10.0.0.1", 1)]%string; rb_equation_indices := [0; 2] |};
     su_plan := ex_lone_plan; su_global_begin := 0; su_ports := ∅ |}.

Lemma lone_hub_chain_cancels_witness :
  glrc_build_pipeline_plan 2 2 2 [0; 1] (glrc_solve_repair_plan 2 2 2 [0; 1] "local-first") (all_equations_of 2 2 2) 2 ex_lone_lookup 7 = inl ex_lone_plan /\
  map hop_block_id (hops (hub_chains ex_lone_plan).[1]) = [2] /\
  rv 2 2 (hub_request ex_lone_setup) [x05; x07] (cv ex_lone_setup (fun _ _ => [x05; x07])) 1 0 = [x00].
Proof.
  split; [vm_compute; reflexivity|]. split; [vm_compute; reflexivity|].
  change [x00] with (zrepeat x00 (width 2 2 (hub_request ex_lone_setup))).
  apply (lone_hub_chain_cancels ex_lone_setup (fun _ _ => [x05; x07]) [x05; x07] 1 0);
    [vm_compute; auto using conj; split; discriminate || reflexivity|vm_compute; reflexivity|vm_compute; reflexivity|vm_compute; discriminate|vm_compute; reflexivity|vm_compute; discriminate|reflexivity].
Defined.

(** A chain of the hub with one survivor that is not the hub: its head takes the
    proxy of hop 1 from a list of one. *)
Lemma lone_survivor_reads_past_end : let q := role_request ex_lone_setup 0 0 in
  map hop_block_id (hops (all_chains ex_lone_setup).[0]) = [4] /\ zlen (rc_hop_proxies (rq_chain q)) = 1 /\
  forall one_proxy_per_host, fst (head_target one_proxy_per_host q) = fst (rc_hop_proxies (rq_chain q)).[1].
Proof. cbv zeta. split; [vm_compute; reflexivity|]. split; [vm_compute; reflexivity|]. intros oph. vm_compute. reflexivity. Qed.
